(* ===== verification/_CoqProject ===== *)
-Q . S2P
Prelude.v
Bytes.v
Errors.v
Text.v
Ieee754.v
Json.v
StateCharts.v
BitOps.v
DiagCodedType.v
CodedBits.v
CondensedMask.v
CodedCodec.v
CodedRoundtrip.v
CodedLaws.v
Values.v
Conversion.v
ValueLaws.v
Database.v
DiagLayers.v
StorageTypes.v
FileSystem.v
Wal.v
LocalStorage.v
StorageInvariant.v
StorageRollback.v
StorageApply.v
StorageRecovery.v
StorageCommit.v
StorageAtomic.v
StorageFrames.v
LocalCollection.v
Uds.v
Transport.v
EcuState.v
VariantDetection.v
Payload.v
FieldDecoding.v
SampleDatabase.v
Faults.v
MddFile.v
Naming.v
ServiceLookup.v
StateTransitions.v
PayloadDecode.v
DecodeSafety.v
ResponseDecode.v
ResponseLaws.v
ResponseJson.v
PayloadEncode.v
RequestFields.v
RequestLaws.v
UdsRequest.v
UdsManager.v
FaultMemory.v
Sessions.v
DataTransfer.v
RuntimeUpdate.v
UpdateFiles.v
Locks.v
LockOwnership.v
LockSteps.v
LockOrder.v
SovdApi.v
Async.v
Executions.v
EcuOperations.v
ExecutionSlots.v
UpdateGuard.v
UpdateSafety.v
UpdateScenarios.v
ExecutionLaws.v
FgOperations.v
ComParams.v
EcuDescription.v
Loading.v
LoadingLaws.v
Doip.v
DoipLaws.v
FunctionalGroups.v
Router.v
