(* ===== verification/Prelude.v ===== *)
(** * Verification library of the Classic Diagnostic Adapter

    The Classic Diagnostic Adapter (CDA) serves the SOVD diagnostic API for
    ECUs that speak UDS.  A request is looked up in a diagnostic database,
    encoded into UDS bytes, sent through the UDS layer and a gateway (DoIP or
    CAN) to the ECU; the response is matched to the request, decoded with the
    database and returned as JSON.  Which part of the database applies to an
    ECU depends on its variant, which is detected from its own responses and
    tracked per ECU.  Files of the application (databases, updates) are kept
    by a storage with transactions and a write-ahead log.

    This library models these parts and proves what makes each correct.  Every
    definition is a function that can be run, or a step relation over such
    functions; it has the name of the source's item, and its doc comment names
    what differs.

    ** Conventions

    - Machine integers are [Z]; saturating, checked and wrapping operations are
      written out ([sat_add], [checked_add], [u32_sat_mul], [u8_shl]); [usize]
      has 64 bits.  A byte slice is a [list Z] whose elements satisfy [is_u8].
    - [Result<A, E>] is [result E A], a monad; the error types keep the
      source's constructors and structured fields, not their messages.
    - Code on shared state has a monad that keeps the state on errors:
      [st_result] (Prelude.v) for [&mut Payload] and the lock tables, [io]
      (FileSystem.v) for the file system, which also records every
      intermediate state.
    - Logging and tracing, clones, borrows and [async] have no counterpart;
      awaiting is a step of its own where other tasks can interfere
      (EcuState.v, Transport.v).
    - Code outside of the repository is an argument of the definitions, with
      its documented behaviour as hypothesis: the CRC32 and the serialisation
      of log entries ([codec_ok]: what is written is read back), the order in
      which [read_dir] lists (any permutation), [hex::decode]
      ([hex_decode_ok]), the gateway with the clock ([gateway k], what happens
      to the [k]-th transmission: its messages are a function from [nat], so
      that they need not end), the numbers of serde_json and the
      conversions of num_traits ([Externals], with [ExternalsOk] for what their
      documentation promises), for the locks the ECUs and groups the UDS layer
      knows and the iteration order of a [HashMap] (any permutation), for
      loading the reader of a description and the merging of configurations
      (figment), for DoIP what comes on a channel and when ([doip_run]).  Every
      theorem with such a hypothesis has a
      witness with a concrete instance.

    ** The files

    Foundations
    - Prelude.v: results, machine integers, slices, loops ([for_range],
      [while_loop]) and their induction rules.
    - Bytes.v: [u8] arithmetic; [be_val], the big-endian value of a slice, and
      [Z.testbit] on it.
    - Errors.v: [DiagServiceError] of cda-interfaces/src/lib.rs; [failure], how
      a run ends without a value (an error, a panic, out of fuel).
    - Text.v: characters, hexadecimal text, integer parsing, padding.
    - Ieee754.v: [f32] and [f64] over the Standard Library's [spec_float]: bit
      patterns, parsing, casts, and when arithmetic on integers is exact.
    - Json.v: JSON values, and [Externals], the functions of serde_json,
      num_traits and hex the code calls.

    Parameters to bits and back (cda-database/src/datatypes/diag_coded_type.rs,
    cda-interfaces/src/util.rs)
    - BitOps.v: [extract_bits], [set_bit_checked].
    - DiagCodedType.v: construction from the database, [decode] and [encode]
      with all four length rules, masks and byte orders.
    - CodedBits.v, CondensedMask.v: what the loops compute, as equations on
      the digits of [be_val]; the rank function of condensed masks.
    - CodedCodec.v, CodedRoundtrip.v, CodedLaws.v: [decode] after [encode] for
      numbers, whole bytes, prefixed, terminated and parameter-length fields,
      under masks; what [encode] leaves alone; what the constructors ensure;
      the fields that are written and cannot be read.

    Values (cda-core/src/diag_kernel.rs and operations.rs,
    cda-database/src/datatypes/data_operation.rs)
    - Values.v: computation methods, limits, the bytes of a parameter to the
      value that is shown.
    - Conversion.v: a JSON value to the bytes of a parameter.
    - ValueLaws.v: the two directions against each other; what is refused, what
      panics and what is lost.

    Storage (cda-storage, cda-interfaces/src/storage_api)
    - StorageTypes.v: operations, errors, file names.
    - FileSystem.v: the directories and the log; programs with the states they
      pass through ([crash_states]) and the logic [runs] over them.
    - Wal.v: the log's bytes: header, entries, reader, status.
    - LocalStorage.v: applying and undoing a transaction, cleaning up,
      [recover], [commit], the storage handle.
    - StorageInvariant.v, StorageRollback.v, StorageApply.v: the invariant of a
      transaction that is being applied or undone, and that every step keeps it.
    - StorageRecovery.v: a crash at any step followed by recovery, itself
      interrupted at any step ([crash_safety]).
    - StorageCommit.v: the abstract storage, a map of maps, and the refinement
      [commit_refines_spec].
    - StorageAtomic.v: a transaction from the creation of its log to the end of
      its commit, and what recovery makes of every step of it.
    - LocalCollection.v: keys, listing, reading and writing.

    Database files (cda-database/src/mdd_data.rs and mdd_data/files.rs)
    - MddFile.v: the file format over a protocol buffer codec, loading chunks,
      rewriting a file uncompressed, serving the files in it.

    UDS (cda-interfaces/src/uds.rs, ecumanager.rs and util.rs, cda-comm-uds,
    cda-core/src/diag_kernel)
    - Uds.v: raw responses, pending and busy codes, which response answers
      which request.
    - Transport.v: [send_with_raw_payload], the retry loops around a request.
    - EcuState.v: the state of an ECU, the actor that serialises its changes,
      the coordinator, the lock that keeps detections apart.
    - VariantDetection.v: matching responses against variant patterns,
      installing a variant with its default states, the verdict over ECUs that
      share an address.
    - Payload.v: the cursor over a response and its stack of views.
    - FieldDecoding.v: static, end-of-PDU and dynamic length fields, and the
      parameter they end in.

    Requests and responses (cda-core/src/diag_kernel/payload_decode.rs,
    payload_encode.rs and diagservices.rs, cda-database/src/datatypes.rs)
    - StateCharts.v, Database.v: what the code reads of the database: services,
      parameters, data objects; the constants a request starts with.
      SampleDatabase.v builds small ones for concrete runs.
    - PayloadDecode.v: [map_param_from_uds] and every handler below it.
    - DecodeSafety.v: these end, without a panic, and move no cursor back.
    - ResponseDecode.v, ResponseLaws.v: [convert_from_uds] and
      [convert_request_from_uds]; where code and database disagree.
    - ResponseJson.v: decoded values as JSON, negative responses, fault codes.
    - PayloadEncode.v: [create_uds_payload] and everything below it.
    - RequestFields.v: numbers side by side in a request, as written and as read.
    - RequestLaws.v: requests of plain parameters there and back, the constants
      a request starts with, what encoding gets wrong.

    Services and states (cda-core/src/diag_kernel/service_lookup.rs,
    diag_comm_lookup.rs, state.rs and security.rs,
    cda-interfaces/src/datatypes/database_naming_convention.rs)
    - DiagLayers.v: layers and what they inherit.
    - Naming.v: the names and types of the API, affixes.
    - ServiceLookup.v: searching, the cache, lookups that interleave.
    - StateTransitions.v: session and security level, transitions, access.
    - UdsRequest.v: a request from the API to the ECU and back, over all of the
      above, the transport and the codec.

    Clients of the requests (cda-comm-uds)
    - UdsManager.v: the ECUs by name; the interface [UdsTransport] of requests,
      its laws, and its implementation by UdsRequest.v.
    - Faults.v: status bytes, status filters, the notations of fault codes.
    - FaultMemory.v: the services that read faults, listing and clearing them.
    - Sessions.v: sessions and security access that expire: the sections of
      starts, resets and tasks on the tables of tasks, in any order.
    - DataTransfer.v: the tasks that send a file, their table, and the two
      sections of a start.

    Updates (cda-plugin-runtime-update)
    - StorageFrames.v: transactions on distinct collections are atomic; what a
      body of storage calls records.
    - RuntimeUpdate.v: programs over the storage and the running components;
      applying, rolling back, cleaning up, the default reloader.
    - UpdateFiles.v: uploading, checking, listing and deleting files.

    SOVD locks (cda-sovd/src/sovd/locks.rs)
    - Locks.v: the lock tables, every handler, expiry, clean-up, and the checks
      other handlers make before they touch an ECU.
    - LockOwnership.v: the invariant of the tables and what each handler may
      change.
    - LockSteps.v: requests, expiries, the parts of the POST of a functional
      group and the rounds of the clean-up of the vehicle lock, in any order.
    - LockOrder.v: the guards of the tables: readers, writers, queues, and the
      order in which the handlers take them.

    Operations and updates (cda-sovd/src/sovd.rs, error.rs, execution_registry.rs,
    update_guard.rs, components/ecu/operations.rs and
    functions/functional_groups/operations.rs,
    cda-plugin-runtime-update/src/operations/executions.rs and security.rs)
    - SovdApi.v: content types, payloads, error codes, responses as answers.
    - Async.v: handlers as sequences of sections under a lock and of waits;
      running one alone, and what holds at each of its sections and waits.
    - Executions.v: the table of executions: reserving, finalising, removing
      and guarding an entry.
    - EcuOperations.v: the handlers of an ECU's operations and of its
      overridden communication parameters.
    - FgOperations.v: those of a functional group.
    - ExecutionSlots.v: which execution a handler holds while it waits.
    - UpdateGuard.v: the start of an update, what it checks and its task; the
      system of all of them: requests that pass the guard,
      sections and answers in any order, clients that go away, updates.
    - UpdateSafety.v, UpdateScenarios.v: its invariants, and runs of it.
    - ExecutionLaws.v: what decides a start, the executions of one operation,
      starting and stopping.

    Loading (cda-main/src/mdd.rs, cda-core/src/diag_kernel/ecumanager.rs,
    cda-interfaces/src/datatypes/com_params.rs, can_id.rs,
    cda-database/src/datatypes.rs and datatypes/comparam.rs)
    - ComParams.v: communication parameters: their texts, resolving a
      reference, looking one up with the configuration as fallback.
    - EcuDescription.v: [EcuManager::new]: the protocol, the addresses, the CAN
      identifiers and the parameters of an ECU, the key of its request lock.
    - Loading.v: [load_databases] over MddFile.v: the newest of several files,
      duplicates by target.
    - LoadingLaws.v: what is loaded; runs on small files.

    Gateways (cda-comm-doip, cda-transport-router, cda-interfaces/src/ecugateway.rs)
    and the requests of many ECUs (cda-comm-uds/src/functional_group.rs and
    tester_present.rs)
    - Doip.v: the messages of a connection, the channels they are put on, a
      request as a transmission of Transport.v, functional requests, finding
      gateways, connecting to them, the table of connections.
    - DoipLaws.v: what a request over DoIP returns; runs.
    - FunctionalGroups.v: the interface [FunctionalTransport]; requests to the
      ECUs of a group, DoIP as its gateway; keeping sessions alive.
    - Router.v: which gateway an ECU is reached through.

    ** The theorems

    The properties carry an identifier C<n>, by importance.
    - Codec: C36 ([numeric_field_roundtrip]) is the round trip,
      C40 ([DiagCodedType_new_spec]) the construction.
    - Values: C39 ([integer_limits]) (limits); the round trips of ValueLaws.v.
    - Storage: C3 ([crash_safety]) and C4 ([transaction_is_atomic]) (crashes),
      C9 ([commit_refines_spec]) (refinement).
    - Database files: C23 ([mdd_rewrite_is_atomic]) (crashes),
      C24 ([cached_files_are_current]) (the cache of files).
    - Operations: C8 ([one_execution_per_operation]), C15 ([stop_undoes_start]).
    - Updates: C5 ([updates_run_alone]), C16 ([start_is_decided]),
      C6 ([update_survives_crashes]), C7 ([apply_installs_or_restores]),
      C21 ([rollback_undoes_apply]), C22 ([uploads_are_staged]).
    - Transport: C11 ([send_effects]) (safety), C17 ([send_terminates]) (termination).
    - Gateways: C26 ([answers_come_from_the_ecu]) and C27 ([answer_in_time_is_returned])
      over DoIP, C28 ([bindings_are_sticky]) (the router).
    - Functional groups: C29 ([group_request_reports]), against the contract of the
      gateway that DoIP satisfies.
    - Variants: C18 ([group_verdict]).
    - Loading: C31 ([newest_file_is_used]), C30 ([duplicates_wait_for_each_other]).
    - Decoding: of whole responses C33 ([decoding_is_total]) and
      C35 ([json_shows_every_value]); of fields those of FieldDecoding.v.
    - Requests: C10 ([request_roundtrip]) (encode, decode, show).
    - Lookups: C12 ([cached_lookup_is_search]) (the cache).
    - Session and security: C14 ([states_stay_in_charts]) (invariant).
    - End to end: C13 ([request_frame]), C34 ([answered_request_lands]).
    - Faults: C32 ([listed_faults]).
    - Transfers: C19 ([transfer_delivers]), C20 ([transfers_end]).
    - Expiry: C25 ([reset_tasks_refine]), against one deadline per ECU and kind.
    - Locks: C1 ([vehicle_lock_exclusive]), C37 ([foreign_locks_untouched]),
      C38 ([locks_expire]), C2 ([table_changes_never_deadlock]).

    Where the code does not do what it means to, an [Example] runs it on the
    input that shows it, next to the theorem that states what does hold.

    ** What is one step

    A section under the guard of a lock is one step, and others come between
    two sections.  So are the parts of a POST of a functional group and of the
    clean-up of the vehicle lock (LockSteps.v), of a start of a reset task
    (Sessions.v), of a start of a transfer (DataTransfer.v), of a handler of an
    operation (Async.v) and of a lookup with its cache (ServiceLookup.v) steps of
    their own.  Where a property needs that two of these do not overlap its
    statement says so ([starts_apart]), and an [Example] shows what happens when
    they do.

    ** Bounds and fuel

    - Slices have at most [MAX_BYTES] = 2^60 bytes and payloads at most
      [MAX_PAYLOAD] = 2^62, far above what can be allocated; the bound keeps
      bit counts below [usize::MAX].
    - [for_range] and [while_loop] run on a count the source's own bounds give;
      the scan for a terminator gets the number of bytes left.
    - [read_entries] gets the length of the log: every round consumes a byte.
    - [send_loop] gets the number of transmissions and [read_uds_messages] that
      of the messages after one; [send_terminates] computes how many
      transmissions are enough from the communication parameters, and for the
      messages says what a run looks like for which no number is.
    - [end_of_pdu_loop] gets one round more than the payload has bytes, and
      [end_of_pdu_terminates] proves that it is never cut off.
    - [map_param_from_uds] and [map_param_to_uds] get the depth of the database;
      [decodable] computes whether a depth is enough, and [decoding_is_total]
      proves it.  Only a MATCHING-REQUEST-PARAM can lead back to itself.
    - [sequential_consts] gets one round more than the request has parameters;
      [consts_terminate] proves it enough unless a constant has the length 0.
    - [collect_layers] gets the number of references ([traversal_is_recursion]).

    ** What is not modelled

    Of the HTTP layer (cda-sovd, opensovd-axum-extra) the routing, the schemas,
    the texts of errors and the handlers that only forward a request; the
    sockets of the gateways, the tasks that share a DoIP connection, the CAN
    gateway (cda-comm-can), TLS (comm-mbedtls),
    configuration, start-up, health, tracing and the security plugin, which do
    input and output or call libraries;
    the generated database access code (cda-database/src/flatbuf), which the
    models see as records; of the diagnostic kernel, the descriptions of
    components and schemas for the API. *)

From stdpp Require Export base tactics option list list_numbers numbers.
From Stdlib Require Export ZArith Lia.

Local Open Scope Z_scope.

(** ** Results, and the monad of fallible Rust code *)

(** [Result<A, E>]; the error comes first so that [result E] is a monad. *)
Inductive result (E A : Type) : Type :=
  | Ok (a : A)
  | Err (e : E).
Arguments Ok {E A} a.
Arguments Err {E A} e.

#[export] Instance result_ret {E} : MRet (result E) := fun A a => Ok a.
#[export] Instance result_bind {E} : MBind (result E) :=
  fun A B f m => match m with Ok a => f a | Err e => Err e end.
#[export] Instance result_fmap {E} : FMap (result E) :=
  fun A B f m => match m with Ok a => Ok (f a) | Err e => Err e end.

(** [Option::ok_or]. *)
Definition ok_or {E A} (o : option A) (e : E) : result E A :=
  match o with Some a => Ok a | None => Err e end.

(** [Result::ok]. *)
Definition result_ok {E A} (r : result E A) : option A :=
  match r with Ok a => Some a | Err _ => None end.

(** [Result::is_ok]. *)
Definition is_ok {E A} (r : result E A) : bool :=
  match r with Ok _ => true | Err _ => false end.

(** ** Code on a state

    Fallible code on [&mut S]: an error keeps what was done before it. *)

Definition st_result (S E A : Type) : Type := S -> S * result E A.

#[export] Instance st_result_ret {S E} : MRet (st_result S E) := fun A a s => (s, Ok a).
#[export] Instance st_result_bind {S E} : MBind (st_result S E) :=
  fun A B f m s => match m s with (s', Ok a) => f a s' | (s', Err e) => (s', Err e) end.

Definition lift {S E A} (r : result E A) : st_result S E A := fun s => (s, r).
Definition gets {S E A} (f : S -> A) : st_result S E A := fun s => (s, Ok (f s)).
Definition modify {S E} (f : S -> S) : st_result S E unit := fun s => (f s, Ok tt).

(** Inversion of a successful bind. *)
Lemma st_bind_ok {S E A B} (m : st_result S E A) (f : A -> st_result S E B) s s' b :
  (m ≫= f) s = (s', Ok b) -> exists t a, m s = (t, Ok a) /\ f a t = (s', Ok b).
Proof.
  unfold mbind, st_result_bind. destruct (m s) as [t [a|e]]; [|done]. intros H. by exists t, a.
Qed.

Ltac invert_ok H :=
  let q := fresh "q" in let x := fresh "x" in let H1 := fresh "Hm" in
  apply st_bind_ok in H as (q & x & H1 & H).

(** ** Machine integers: [usize] is 64 bits wide *)

Definition USIZE_MAX : Z := 2 ^ 64 - 1.
Definition U32_MAX : Z := 2 ^ 32 - 1.

Definition sat_add (a b : Z) : Z := Z.min (a + b) USIZE_MAX.
Definition sat_sub (a b : Z) : Z := Z.max (a - b) 0.
Definition sat_mul (a b : Z) : Z := Z.min (a * b) USIZE_MAX.

Definition checked_add (a b : Z) : option Z :=
  if a + b <=? USIZE_MAX then Some (a + b) else None.
Definition checked_mul (a b : Z) : option Z :=
  if a * b <=? USIZE_MAX then Some (a * b) else None.

Definition div_ceil (a b : Z) : Z := if a mod b =? 0 then a / b else a / b + 1.
Definition is_multiple_of (a b : Z) : bool := a mod b =? 0.

Declare Scope rust_scope.
Delimit Scope rust_scope with rust.
Notation "a +sat b" := (sat_add a b) (at level 50, left associativity) : rust_scope.
Notation "a -sat b" := (sat_sub a b) (at level 50, left associativity) : rust_scope.
Notation "a *sat b" := (sat_mul a b) (at level 40, left associativity) : rust_scope.

(** ** Slices and vectors *)

Definition len {A} (l : list A) : Z := Z.of_nat (length l).
Definition get {A} (l : list A) (i : Z) : option A := l !! Z.to_nat i.
Definition set {A} (l : list A) (i : Z) (a : A) : list A := <[Z.to_nat i := a]> l.

(** [slice.get(a..b)]. *)
Definition slice {A} (l : list A) (a b : Z) : option (list A) :=
  if (a <=? b) && (b <=? len l)
  then Some (take (Z.to_nat (b - a)) (drop (Z.to_nat a) l)) else None.

(** [vec![a; n]]. *)
Definition vec_of {A} (n : Z) (a : A) : list A := replicate (Z.to_nat n) a.

(** ** Loops *)

(** What one iteration of a [for] or [while] body does. *)
Inductive flow (S : Type) : Type :=
  | Continue (s : S)
  | Break (s : S).
Arguments Continue {S} s.
Arguments Break {S} s.

Section loops.
Context {E S : Type}.
Implicit Types (body : Z -> S -> result E (flow S)) (s : S).

Fixpoint for_loop body (n : nat) (i : Z) s : result E S :=
  match n with
  | O => Ok s
  | Datatypes.S n' =>
      f ← body i s;
      match f with
      | Continue s' => for_loop body n' (i + 1) s'
      | Break s' => Ok s'
      end
  end.

(** [for i in lo..hi { body }]. *)
Definition for_range (lo hi : Z) body s : result E S :=
  for_loop body (Z.to_nat (hi - lo)) lo s.

(** [while cond { step }], at most [n] iterations. *)
Fixpoint while_loop (n : nat) (cond : S -> bool) (step : S -> S) s : S :=
  match n with
  | O => s
  | Datatypes.S n' => if cond s then while_loop n' cond step (step s) else s
  end.
End loops.

(** ** Lemmas *)

Lemma for_range_inv {E S} (P : Z -> S -> Prop) (Q : S -> Prop)
    (body : Z -> S -> result E (flow S)) lo hi s :
  lo <= hi -> P lo s ->
  (forall i t, lo <= i < hi -> P i t ->
     (exists t', body i t = Ok (Continue t') /\ P (i + 1) t') \/
     (exists t', body i t = Ok (Break t') /\ Q t')) ->
  (forall t, P hi t -> Q t) ->
  exists t, for_range lo hi body s = Ok t /\ Q t.
Proof.
  intros Hle HP Hstep Hend. unfold for_range.
  assert (Hn : hi = lo + Z.of_nat (Z.to_nat (hi - lo))) by lia.
  remember (Z.to_nat (hi - lo)) as n eqn:En. clear En.
  revert lo s Hle HP Hstep Hn.
  induction n as [|n IH]; intros lo s Hle HP Hstep Hn; simpl.
  - exists s. split; [done|]. apply Hend. by replace hi with lo by lia.
  - destruct (Hstep lo s) as [(t & -> & Ht)|(t & -> & Ht)]; [lia|done| |]; simpl.
    + apply (IH (lo + 1)); [lia|done| |lia].
      intros i u Hi. apply Hstep. lia.
    + by exists t.
Qed.

(** The same when the body never breaks. *)
Lemma for_range_total {E S} (P : Z -> S -> Prop)
    (body : Z -> S -> result E (flow S)) lo hi s :
  lo <= hi -> P lo s ->
  (forall i t, lo <= i < hi -> P i t ->
     exists t', body i t = Ok (Continue t') /\ P (i + 1) t') ->
  exists t, for_range lo hi body s = Ok t /\ P hi t.
Proof.
  intros Hle HP Hstep. apply (for_range_inv P (P hi)); eauto.
Qed.

(** Facts that hold of any run that returns, when some iterations may fail. *)
Lemma for_range_partial {E S} (P : Z -> S -> Prop)
    (body : Z -> S -> result E (flow S)) lo hi s t :
  lo <= hi -> P lo s ->
  (forall i u v, lo <= i < hi -> P i u -> body i u = Ok (Continue v) -> P (i + 1) v) ->
  (forall i u v, lo <= i < hi -> P i u -> body i u = Ok (Break v) -> P hi v) ->
  for_range lo hi body s = Ok t -> P hi t.
Proof.
  unfold for_range. intros Hle HP Hc Hb.
  assert (Hn : hi = lo + Z.of_nat (Z.to_nat (hi - lo))) by lia.
  remember (Z.to_nat (hi - lo)) as n eqn:En. clear En.
  revert lo s Hle HP Hc Hb Hn.
  induction n as [|n IH]; intros lo s Hle HP Hc Hb Hn; simpl; intros Hrun.
  - injection Hrun as <-. by replace hi with lo by lia.
  - destruct (body lo s) as [[u|u]|] eqn:E0; simpl in Hrun; [| |done].
    + apply (IH (lo + 1) u); [lia|by eapply Hc; [lia|..]| | |lia|done].
      * intros i v w Hi. apply Hc. lia.
      * intros i v w Hi. apply Hb. lia.
    + injection Hrun as <-. eapply Hb; [|done..]. lia.
Qed.

(** A [while] loop whose body decreases a measure has left the loop, with its
    invariant, when the fuel covers the measure. *)
Lemma while_loop_exits {S} (P : S -> Prop) (m : S -> nat) cond (step : S -> S) n s :
  (m s <= n)%nat -> P s ->
  (forall u, P u -> cond u = true -> P (step u) /\ (m (step u) < m u)%nat) ->
  P (while_loop n cond step s) /\ cond (while_loop n cond step s) = false.
Proof.
  revert s. induction n as [|n IH]; intros s Hm HP Hstep; simpl.
  - split; [done|]. destruct (cond s) eqn:Ec; [|done].
    destruct (Hstep s HP Ec). lia.
  - destruct (cond s) eqn:Ec; [|done].
    destruct (Hstep s HP Ec) as [HP' Hlt]. apply IH; [lia|done|done].
Qed.

(** *** Results *)

Lemma bind_ok {E A B} (m : result E A) (f : A -> result E B) b :
  m ≫= f = Ok b <-> exists a, m = Ok a /\ f a = Ok b.
Proof. destruct m; simpl; split; [by eauto|by intros (? & [= ->] & ?)|done|by intros (? & ? & ?)]. Qed.

Lemma bind_err {E A B} (m : result E A) (f : A -> result E B) e :
  m ≫= f = Err e <-> m = Err e \/ exists a, m = Ok a /\ f a = Err e.
Proof.
  destruct m; simpl; split; [by eauto|by intros [?|(? & [= ->] & ?)]| |].
  - intros [= ->]. by left.
  - by intros [[= ->]|(? & ? & ?)].
Qed.

Lemma ok_or_ok {E A} (o : option A) (e : E) a : ok_or o e = Ok a <-> o = Some a.
Proof. destruct o; naive_solver. Qed.

(** *** Saturating arithmetic away from its bounds *)

Lemma sat_add_exact a b : a + b <= USIZE_MAX -> sat_add a b = a + b.
Proof. unfold sat_add. lia. Qed.
Lemma sat_sub_exact a b : b <= a -> sat_sub a b = a - b.
Proof. unfold sat_sub. lia. Qed.
Lemma sat_mul_exact a b : a * b <= USIZE_MAX -> sat_mul a b = a * b.
Proof. unfold sat_mul. lia. Qed.
Lemma checked_add_some a b : a + b <= USIZE_MAX -> checked_add a b = Some (a + b).
Proof. unfold checked_add. intros. by rewrite (proj2 (Z.leb_le _ _)). Qed.
Lemma checked_mul_some a b : a * b <= USIZE_MAX -> checked_mul a b = Some (a * b).
Proof. unfold checked_mul. intros. by rewrite (proj2 (Z.leb_le _ _)). Qed.

Lemma div_ceil_spec a b : 0 < b -> (div_ceil a b - 1) * b < a <= div_ceil a b * b.
Proof.
  intros Hb. unfold div_ceil. pose proof (Z.div_mod a b) as Hdm.
  pose proof (Z.mod_pos_bound a b Hb). destruct (Z.eqb_spec (a mod b) 0); nia.
Qed.

Lemma div_ceil_unique a b q : 0 < b -> (q - 1) * b < a <= q * b -> div_ceil a b = q.
Proof. intros Hb Hq. pose proof (div_ceil_spec a b Hb). nia. Qed.

Lemma div_ceil_mul q b : 0 < b -> div_ceil (q * b) b = q.
Proof. intros. apply div_ceil_unique; nia. Qed.

Lemma div_ceil_pos a b : 0 < b -> 0 < a -> 0 < div_ceil a b.
Proof. intros Hb Ha. pose proof (div_ceil_spec a b Hb). nia. Qed.

(** *** Slices *)

Section slices.
Context {A : Type}.
Implicit Types (l k : list A).

Lemma len_nonneg l : 0 <= len l.
Proof. unfold len. lia. Qed.
Lemma len_app l k : len (l ++ k) = len l + len k.
Proof. unfold len. rewrite length_app. lia. Qed.
Lemma len_cons a l : len (a :: l) = 1 + len l.
Proof. unfold len. simpl. lia. Qed.
Lemma len_set l i a : len (set l i a) = len l.
Proof. unfold len, set. by rewrite length_insert. Qed.
Lemma len_reverse l : len (reverse l) = len l.
Proof. unfold len. by rewrite length_reverse. Qed.
Lemma len_vec_of n (a : A) : 0 <= n -> len (vec_of n a) = n.
Proof. unfold len, vec_of. rewrite length_replicate. lia. Qed.
Lemma len_map {B} (f : A -> B) l : len (f <$> l) = len l.
Proof. unfold len. by rewrite length_fmap. Qed.
Lemma len_take n l : len (take n l) = Z.min (Z.of_nat n) (len l).
Proof. unfold len. rewrite length_take. lia. Qed.
Lemma len_drop n l : len (drop n l) = Z.max 0 (len l - Z.of_nat n).
Proof. unfold len. rewrite length_drop. lia. Qed.
Lemma len_zero l : len l = 0 <-> l = [].
Proof. unfold len. destruct l; simpl; split; intros; [done..|lia|done]. Qed.

Lemma get_lt_is_Some l i : 0 <= i < len l -> is_Some (get l i).
Proof. unfold len, get. intros. apply lookup_lt_is_Some_2. lia. Qed.
Lemma get_some_lt l i a : 0 <= i -> get l i = Some a -> i < len l.
Proof. unfold len, get. intros ? ?%lookup_lt_Some. lia. Qed.
Lemma get_set_eq l i a : 0 <= i < len l -> get (set l i a) i = Some a.
Proof. unfold len, get, set. intros. apply list_lookup_insert_eq. lia. Qed.
Lemma get_set_ne l i j a : 0 <= i -> 0 <= j -> i <> j -> get (set l i a) j = get l j.
Proof. unfold get, set. intros. apply list_lookup_insert_ne. lia. Qed.
Lemma get_app_l l k i : 0 <= i < len l -> get (l ++ k) i = get l i.
Proof. unfold len, get. intros. apply lookup_app_l. lia. Qed.

Lemma slice_some l a b :
  0 <= a <= b -> b <= len l ->
  slice l a b = Some (take (Z.to_nat (b - a)) (drop (Z.to_nat a) l)).
Proof.
  intros Ha Hb. unfold slice.
  by rewrite (proj2 (Z.leb_le a b)), (proj2 (Z.leb_le b (len l))) by lia.
Qed.
Lemma slice_len l a b r : 0 <= a -> slice l a b = Some r -> len r = b - a.
Proof.
  unfold slice, len. destruct (Z.leb_spec a b), (Z.leb_spec b (Z.of_nat (length l)));
    simpl; intros; simplify_eq.
  rewrite length_take, length_drop. lia.
Qed.
Lemma slice_none l a b : len l < b -> slice l a b = None.
Proof. intros. unfold slice. rewrite (proj2 (Z.leb_gt b (len l))) by lia. by rewrite andb_false_r. Qed.
Lemma slice_all l : slice l 0 (len l) = Some l.
Proof.
  rewrite slice_some by (pose proof (len_nonneg l); lia).
  rewrite drop_0, take_ge; [done|]. unfold len. lia.
Qed.
End slices.

Create Rewrite HintDb len.
#[export] Hint Rewrite @len_app @len_cons @len_set @len_reverse @len_map : len.

(** Close goals about saturating arithmetic and lengths. *)
Ltac usize :=
  unfold sat_add, sat_sub, sat_mul in *; autorewrite with len in *; lia.
