(* ===== verification/Bytes.v ===== *)
(** * Bytes and bit strings

    Byte-level arithmetic of the source ([u8] shifts and complements) and the
    big-endian reading of a byte slice as one integer.  The source numbers the
    bits of a slice from the least significant bit of its LAST byte; [be_val]
    makes that numbering the binary digits of an integer, so the bit loops of
    the other files are specified by [Z.testbit] equations. *)

From S2P Require Import Prelude.

Local Open Scope Z_scope.

(** ** [u8] *)

Definition is_u8 (b : Z) : Prop := 0 <= b < 256.

#[export] Instance is_u8_dec b : Decision (is_u8 b).
Proof. unfold is_u8. apply _. Defined.

Definition bytes (l : list Z) : Prop := Forall is_u8 l.

Definition u8_shr (b n : Z) : Z := Z.shiftr b n.
Definition u8_shl (b n : Z) : Z := Z.land (Z.shiftl b n) 255.
Definition u8_not (b : Z) : Z := Z.lxor b 255.

(** [(byte >> k) & 1]. *)
Definition bit_of (b k : Z) : Z := Z.land (u8_shr b k) 1.

(** [u8::count_ones]. *)
Definition count_ones (b : Z) : Z :=
  foldr (fun k n => bit_of b k + n) 0 (seqZ 0 8).

(** ** Big-endian value *)

Definition be_val (l : list Z) : Z := foldl (fun acc b => acc * 256 + b) 0 l.

(** [to_be_bytes] of an [n]-byte integer. *)
Fixpoint be_bytes (n : nat) (v : Z) : list Z :=
  match n with
  | O => []
  | S n' => be_bytes n' (v / 256) ++ [v mod 256]
  end.

(** ** Bits of bytes *)

Lemma is_u8_testbit b : is_u8 b <-> 0 <= b /\ forall k, 8 <= k -> Z.testbit b k = false.
Proof.
  unfold is_u8. split.
  - intros Hb. split; [lia|]. intros k Hk.
    destruct (Z.eq_dec b 0) as [->|]; [apply Z.bits_0|].
    apply Z.bits_above_log2; [lia|].
    assert (Z.log2 b <= 7); [|lia]. change 7 with (Z.log2 255). apply Z.log2_le_mono. lia.
  - intros [H0 Hk]. split; [done|].
    destruct (Z.eq_dec b 0) as [->|]; [lia|].
    destruct (decide (b < 256)) as [|Hge]; [done|exfalso].
    assert (8 <= Z.log2 b) by (change 8 with (Z.log2 256); apply Z.log2_le_mono; lia).
    specialize (Hk _ H). rewrite Z.bit_log2 in Hk by lia. done.
Qed.

Lemma u8_high_bits b k : is_u8 b -> 8 <= k -> Z.testbit b k = false.
Proof. intros [_ ?]%is_u8_testbit. auto. Qed.

Lemma testbit_255 k : 0 <= k -> Z.testbit 255 k = bool_decide (k < 8).
Proof.
  intros Hk. change 255 with (Z.ones 8). case_bool_decide.
  - apply Z.ones_spec_low. lia.
  - apply Z.ones_spec_high. lia.
Qed.

Lemma bit_of_testbit b k : 0 <= k -> bit_of b k = Z.b2z (Z.testbit b k).
Proof.
  intros. unfold bit_of, u8_shr. change 1 with (Z.ones 1).
  rewrite Z.land_ones by lia. change (2 ^ 1) with 2.
  rewrite <- Z.bit0_mod, Z.shiftr_spec by lia. done.
Qed.

Lemma bit_of_01 b k : 0 <= k -> bit_of b k = 0 \/ bit_of b k = 1.
Proof. intros. rewrite bit_of_testbit by done. destruct (Z.testbit b k); auto. Qed.

Lemma b2z_u8 x : is_u8 (Z.b2z x).
Proof. unfold is_u8. destruct x; simpl; lia. Qed.

Lemma land_u8 a b : 0 <= a -> is_u8 b -> is_u8 (Z.land a b).
Proof.
  intros Ha [Hb Hk]%is_u8_testbit. apply is_u8_testbit. split.
  - apply Z.land_nonneg. auto.
  - intros k ?. rewrite Z.land_spec, Hk by done. apply andb_false_r.
Qed.

Lemma lor_u8 a b : is_u8 a -> is_u8 b -> is_u8 (Z.lor a b).
Proof.
  intros [Ha Hka]%is_u8_testbit [Hb Hkb]%is_u8_testbit. apply is_u8_testbit. split.
  - apply Z.lor_nonneg. auto.
  - intros k ?. by rewrite Z.lor_spec, Hka, Hkb.
Qed.

Lemma u8_not_u8 b : is_u8 b -> is_u8 (u8_not b).
Proof.
  intros [Ha Hk]%is_u8_testbit. apply is_u8_testbit. unfold u8_not. split.
  - apply Z.lxor_nonneg. lia.
  - intros k ?. rewrite Z.lxor_spec, Hk, testbit_255 by lia.
    by rewrite bool_decide_eq_false_2 by lia.
Qed.

Lemma u8_not_spec b k : 0 <= k < 8 -> Z.testbit (u8_not b) k = negb (Z.testbit b k).
Proof.
  intros. unfold u8_not. rewrite Z.lxor_spec, testbit_255, bool_decide_eq_true_2 by lia.
  by destruct (Z.testbit b k).
Qed.

Lemma u8_shl_u8 b n : 0 <= b -> is_u8 (u8_shl b n).
Proof. intros. apply land_u8; [by apply Z.shiftl_nonneg|unfold is_u8; lia]. Qed.

(** ** The integer a slice denotes *)

Lemma be_val_nil : be_val [] = 0.
Proof. done. Qed.

Lemma be_val_snoc l b : be_val (l ++ [b]) = be_val l * 256 + b.
Proof. unfold be_val. by rewrite foldl_app. Qed.

Lemma bytes_snoc l b : bytes (l ++ [b]) <-> bytes l /\ is_u8 b.
Proof. unfold bytes. by rewrite Forall_app, Forall_singleton. Qed.

Lemma be_val_bound l : bytes l -> 0 <= be_val l < 2 ^ (8 * len l).
Proof.
  induction l as [|b l IH] using rev_ind; intros Hl; [done|].
  apply bytes_snoc in Hl as [Hl Hb]. rewrite be_val_snoc. autorewrite with len.
  replace (8 * (len l + (1 + len (@nil Z)))) with (8 * len l + 8) by (unfold len; simpl; lia).
  rewrite Z.pow_add_r by (pose proof (len_nonneg l); lia).
  unfold is_u8 in Hb. specialize (IH Hl). lia.
Qed.

Lemma be_val_app l k : bytes k -> be_val (l ++ k) = be_val l * 2 ^ (8 * len k) + be_val k.
Proof.
  induction k as [|b k IH] using rev_ind; intros Hk.
  - rewrite app_nil_r. change (be_val []) with 0. change (2 ^ (8 * len (@nil Z))) with 1. lia.
  - apply bytes_snoc in Hk as [Hk Hb]. rewrite app_assoc, !be_val_snoc, IH by done.
    autorewrite with len.
    replace (8 * (len k + (1 + len (@nil Z)))) with (8 * len k + 8) by (unfold len; simpl; lia).
    rewrite Z.pow_add_r by (pose proof (len_nonneg k); lia). change (2 ^ 8) with 256. lia.
Qed.

Lemma be_val_zeros n : be_val (replicate n 0) = 0.
Proof.
  induction n as [|n IH]; [done|]. rewrite replicate_S_end, be_val_snoc, IH. done.
Qed.

Lemma be_val_zeros_app n l : be_val (replicate n 0 ++ l) = be_val l.
Proof.
  unfold be_val. rewrite foldl_app. f_equal. apply be_val_zeros.
Qed.

(** Digit [k] of the value is bit [k mod 8] of the [k / 8]-th byte from the end. *)
Lemma be_val_testbit l k b :
  bytes l -> 0 <= k -> get l (len l - 1 - k / 8) = Some b -> k < 8 * len l ->
  Z.testbit (be_val l) k = Z.testbit b (k mod 8).
Proof.
  revert k. induction l as [|c l IH] using rev_ind; intros k Hl Hk Hg Hlt.
  { unfold len in Hlt. simpl in Hlt. lia. }
  apply bytes_snoc in Hl as [Hl Hc]. rewrite be_val_snoc.
  assert (Hdig : be_val l * 256 + c = Z.lor (Z.shiftl (be_val l) 8) c).
  { rewrite <- Z.add_lor_land, Z.shiftl_mul_pow2 by lia. change (2 ^ 8) with 256.
    assert (Z.land (be_val l * 256) c = 0); [|lia].
    apply Z.bits_inj'. intros n Hn. rewrite Z.land_spec, Z.bits_0.
    change 256 with (2 ^ 8). rewrite <- Z.shiftl_mul_pow2 by lia.
    destruct (decide (n < 8)).
    - by rewrite Z.shiftl_spec_low by done.
    - rewrite (u8_high_bits c) by (done || lia). apply andb_false_r. }
  rewrite Hdig, Z.lor_spec. autorewrite with len in *.
  change (len (@nil Z)) with 0 in *.
  destruct (decide (k < 8)) as [Hk8|Hk8].
  - rewrite Z.shiftl_spec_low by lia. simpl.
    rewrite Z.div_small, Z.mod_small in * by lia.
    replace (len l + (1 + 0) - 1 - 0) with (len l) in Hg by lia.
    unfold get, len in Hg. rewrite Nat2Z.id, lookup_app_r, Nat.sub_diag in Hg by lia.
    simpl in Hg. by simplify_eq.
  - rewrite Z.shiftl_spec, (u8_high_bits c), orb_false_r by (done || lia).
    assert (Hd : (k - 8) / 8 = k / 8 - 1).
    { replace k with (k - 8 + 1 * 8) at 2 by lia. rewrite Z.div_add by lia. lia. }
    assert (Hm : (k - 8) mod 8 = k mod 8).
    { replace k with (k - 8 + 1 * 8) at 2 by lia. by rewrite Z.mod_add by lia. }
    assert (k / 8 <= len l) by (apply Z.lt_succ_r, Z.div_lt_upper_bound; lia).
    assert (1 <= k / 8) by (apply Z.div_le_lower_bound; lia).
    rewrite <- Hm. apply IH; [done|lia| |lia].
    rewrite Hd. rewrite <- Hg, get_app_l by lia. f_equal. lia.
Qed.

Lemma be_val_testbit_high l k : bytes l -> 8 * len l <= k -> Z.testbit (be_val l) k = false.
Proof.
  intros Hl Hk. pose proof (be_val_bound l Hl). pose proof (len_nonneg l).
  destruct (Z.eq_dec (be_val l) 0) as [->|]; [apply Z.bits_0|].
  apply Z.bits_above_log2; [lia|]. apply Z.log2_lt_pow2; [lia|].
  eapply Z.lt_le_trans; [apply H|]. apply Z.pow_le_mono_r; lia.
Qed.

(** Slices of one length are determined by their value. *)
Lemma be_val_inj l k : bytes l -> bytes k -> len l = len k -> be_val l = be_val k -> l = k.
Proof.
  revert k. induction l as [|b l IH] using rev_ind; intros k Hl Hk Hlen Hv.
  - symmetry. apply len_zero. done.
  - destruct k as [|c k _] using rev_ind.
    { autorewrite with len in Hlen. pose proof (len_nonneg l).
      change (len (@nil Z)) with 0 in Hlen. lia. }
    apply bytes_snoc in Hl as [Hl Hb]. apply bytes_snoc in Hk as [Hk Hc].
    rewrite !be_val_snoc in Hv. autorewrite with len in Hlen. unfold is_u8 in *.
    assert (be_val l = be_val k) by lia. assert (b = c) by lia. subst.
    f_equal. apply IH; [done..|lia|done].
Qed.

(** Equality of values, digit by digit. *)
Lemma be_val_bits_inj l v :
  (forall k, 0 <= k -> Z.testbit (be_val l) k = Z.testbit v k) -> be_val l = v.
Proof. intros H. apply Z.bits_inj'. done. Qed.

Lemma be_bytes_len n v : len (be_bytes n v) = Z.of_nat n.
Proof.
  revert v. induction n as [|n IH]; intros v; [done|]. simpl be_bytes.
  autorewrite with len. rewrite IH. change (len (@nil Z)) with 0. lia.
Qed.

Lemma be_bytes_bytes n v : bytes (be_bytes n v).
Proof.
  revert v. induction n as [|n IH]; intros v; [constructor|]. simpl be_bytes.
  apply bytes_snoc. split; [done|]. apply Z.mod_pos_bound. lia.
Qed.

(** [to_be_bytes] keeps the value modulo the width. *)
Lemma be_val_be_bytes n v : be_val (be_bytes n v) = v mod 2 ^ (8 * Z.of_nat n).
Proof.
  revert v. induction n as [|n IH]; intros v; [by rewrite Z.mod_1_r|].
  simpl be_bytes. rewrite be_val_snoc, IH.
  replace (8 * Z.of_nat (S n)) with (8 + 8 * Z.of_nat n) by lia.
  rewrite Z.pow_add_r by lia. change (2 ^ 8) with 256.
  rewrite Z.rem_mul_r by lia. lia.
Qed.

Lemma be_bytes_be_val l : bytes l -> be_bytes (length l) (be_val l) = l.
Proof.
  intros Hl. apply be_val_inj; [apply be_bytes_bytes|done|by rewrite be_bytes_len|].
  rewrite be_val_be_bytes. apply Z.mod_small. apply be_val_bound. done.
Qed.

Lemma bytes_set l i b : bytes l -> is_u8 b -> bytes (set l i b).
Proof. intros. by apply Forall_insert. Qed.

Lemma bytes_get l i b : bytes l -> get l i = Some b -> is_u8 b.
Proof. intros Hl Hg. by eapply Forall_lookup_1. Qed.

Lemma bytes_vec_of n : bytes (vec_of n 0).
Proof. apply Forall_replicate. unfold is_u8. lia. Qed.

Create HintDb bytes.
#[export] Hint Resolve bytes_set land_u8 lor_u8 u8_shl_u8 u8_not_u8 b2z_u8 bytes_vec_of
  be_bytes_bytes len_nonneg : bytes.
