(* ===== verification/Errors.v ===== *)
(** * [DiagServiceError]

    The error type of the diagnostic crates (cda-interfaces/src/lib.rs).  The
    constructors are the source's; the human-readable text a constructor
    carries is left out, the structured fields are kept. *)

From S2P Require Import Prelude.

Inductive DiagServiceError : Type :=
  | NotFound
  | RequestNotSupported
  | InvalidDatabase
  | InvalidRequest
  | ParameterConversionError
  | UnknownOperation
  | UdsLookupError
  | BadPayload
  | NotEnoughData (expected actual : Z)
  | VariantDetectionError
  | InvalidState
  | InvalidAddress
  | SendFailed
  | Nack (code : Z)
  | UnexpectedResponse
  | NoResponse
  | ConnectionClosed
  | EcuOffline
  | Timeout
  | AccessDenied
  | ResourceError
  | DataError
  | InvalidSecurityPlugin
  | AmbiguousParameters
  | InvalidParameter
  | InvalidConfiguration.

#[export] Instance DiagServiceError_eq_dec : EqDecision DiagServiceError.
Proof. solve_decision. Defined.

(** [Result<A, DiagServiceError>]. *)
Abbreviation dresult := (result DiagServiceError).

(** How a run of the source ends without a value: with an error, in a panic,
    or, in a model with fuel, not within its fuel. *)
Inductive failure : Type :=
  | Failed (e : DiagServiceError)
  | Panicked
  | OutOfFuel.

Abbreviation presult := (result failure).

Definition fallible {A} (r : dresult A) : presult A :=
  match r with Ok a => Ok a | Err e => Err (Failed e) end.

(** [expect]. *)
Definition expect {A} (o : option A) : presult A := ok_or o Panicked.

(** A result of the source. *)
Definition regular {A} (r : presult A) : Prop :=
  match r with Ok _ | Err (Failed _) => True | _ => False end.

Lemma fallible_regular {A} (r : dresult A) : regular (fallible r).
Proof. by destruct r. Qed.

Lemma fallible_ok {A} (r : dresult A) a : fallible r = Ok a <-> r = Ok a.
Proof. destruct r; simpl; split; congruence. Qed.
