(* ===== verification/Text.v ===== *)
(** * Text and hexadecimal helpers

    The string and padding helpers of cda-interfaces/src/util.rs with the
    integer parsing of the standard library they call.  A [str] is the list
    of its code points. *)

From stdpp Require Import strings.
From S2P Require Import Prelude Bytes Errors.
From stdpp Require Import list.

Local Open Scope Z_scope.

(** ** Strings *)

Abbreviation str := (list Z).

(** A literal of the source. *)
Definition chars (s : string) : str :=
  (fun c => Z.of_N (Ascii.N_of_ascii c)) <$> String.list_ascii_of_string s.

Definition ch_0 : Z := 48.
Definition ch_9 : Z := 57.
Definition ch_A : Z := 65.
Definition ch_F : Z := 70.
Definition ch_X : Z := 88.
Definition ch_Z : Z := 90.
Definition ch_a : Z := 97.
Definition ch_f : Z := 102.
Definition ch_x : Z := 120.
Definition ch_z : Z := 122.
Definition ch_plus : Z := 43.
Definition ch_minus : Z := 45.
Definition ch_space : Z := 32.
Definition ch_comma : Z := 44.
Definition ch_quote : Z := 34.

Definition in_range (lo c hi : Z) : bool := (lo <=? c) && (c <=? hi).

(** [char::is_ascii_hexdigit], [to_ascii_uppercase], [char::is_whitespace]. *)
Definition is_ascii_hexdigit (c : Z) : bool :=
  in_range ch_0 c ch_9 || in_range ch_A c ch_F || in_range ch_a c ch_f.
Definition to_ascii_uppercase (c : Z) : Z := if in_range ch_a c ch_z then c - 32 else c.
Definition is_whitespace (c : Z) : bool :=
  in_range 9 c 13 || bool_decide (c ∈ [32; 133; 160; 5760; 8232; 8233; 8239; 8287; 12288])
  || in_range 8192 c 8202.

(** [s.strip_prefix(p)]. *)
Fixpoint strip_prefix (p s : str) : option str :=
  match p, s with
  | [], _ => Some s
  | c :: p', d :: s' => if c =? d then strip_prefix p' s' else None
  | _ :: _, [] => None
  end.

(** The pieces of [s] between the characters that satisfy [sep]: [split]. *)
Fixpoint split (sep : Z -> bool) (s : str) : list str :=
  match s with
  | [] => [[]]
  | c :: s' =>
      if sep c then [] :: split sep s'
      else match split sep s' with
           | w :: ws => (c :: w) :: ws
           | [] => [[c]] (* unreachable: a split is not empty *)
           end
  end.

Definition non_empty (s : str) : bool := negb (bool_decide (s = [])).

(** [split_whitespace]. *)
Definition split_whitespace (s : str) : list str := filter (fun w => non_empty w) (split is_whitespace s).

(** [str::len] counts the bytes of the UTF-8 encoding. *)
Definition utf8_len_char (c : Z) : Z :=
  if c <? 128 then 1 else if c <? 2048 then 2 else if c <? 65536 then 3 else 4.
Definition str_len (s : str) : Z := foldr (fun c n => utf8_len_char c + n) 0 s.

(** [str::as_bytes]. *)
Definition utf8_char (c : Z) : list Z :=
  if c <? 128 then [c]
  else if c <? 2048 then [192 + c / 64; 128 + c mod 64]
  else if c <? 65536 then [224 + c / 4096; 128 + c / 64 mod 64; 128 + c mod 64]
  else [240 + c / 262144; 128 + c / 4096 mod 64; 128 + c / 64 mod 64; 128 + c mod 64].
Definition as_bytes (s : str) : list Z := s ≫= utf8_char.

(** ** Integers from text *)

(** [char::to_digit]. *)
Definition to_digit (radix c : Z) : option Z :=
  let d := if in_range ch_0 c ch_9 then Some (c - ch_0)
           else if in_range ch_a c ch_z then Some (c - ch_a + 10)
           else if in_range ch_A c ch_Z then Some (c - ch_A + 10)
           else None in
  match d with Some n => if n <? radix then Some n else None | None => None end.

(** The value of a digit string; [None] at the first character that is none. *)
Fixpoint digits_value (radix acc : Z) (s : str) : option Z :=
  match s with
  | [] => Some acc
  | c :: s' => d ← to_digit radix c; digits_value radix (acc * radix + d) s'
  end.

(** [from_str_radix] of an integer type with the range [lo..=hi]: a sign, at
    least one digit, no overflow; an unsigned type has no [-]. *)
Definition from_str_radix (lo hi : Z) (s : str) (radix : Z) : option Z :=
  let '(neg, digits) :=
    match s with
    | c :: s' => if c =? ch_plus then (false, s')
                 else if (c =? ch_minus) && (lo <? 0) then (true, s') else (false, s)
    | [] => (false, s)
    end in
  if non_empty digits then
    v ← digits_value radix 0 digits;
    let v := if neg : bool then - v else v in
    if in_range lo v hi then Some v else None
  else None.

Definition I32_MIN : Z := - 2 ^ 31.
Definition I32_MAX : Z := 2 ^ 31 - 1.

Definition parse_i32 (s : str) : option Z := from_str_radix I32_MIN I32_MAX s 10.
Definition parse_u32 (s : str) : option Z := from_str_radix 0 U32_MAX s 10.

(** [Display] of the integer types. *)
Fixpoint decimal_digits (fuel : nat) (n : Z) : str :=
  match fuel with
  | O => []
  | S fuel => (if n <? 10 then [] else decimal_digits fuel (n / 10)) ++ [ch_0 + n mod 10]
  end.
Definition decimal (z : Z) : str :=
  (if z <? 0 then [ch_minus] else []) ++ decimal_digits (S (Z.to_nat (Z.log2 (Z.abs z)))) (Z.abs z).

(** ** Helpers of util.rs *)

Definition strip_hex_prefix (s : str) : str :=
  match strip_prefix [ch_0; ch_x] s with
  | Some r => r
  | None => match strip_prefix [ch_0; ch_X] s with Some r => r | None => s end
  end.

Definition try_strip_hex_prefix (s : str) : option str :=
  let rest := strip_hex_prefix s in
  if str_len rest =? str_len s then None else Some rest.

Definition parse_u32_maybe_hex (input : str) : option Z :=
  match try_strip_hex_prefix input with
  | Some hex_str => from_str_radix 0 U32_MAX hex_str 16
  | None => parse_u32 input
  end.

Definition normalize_hex (value : str) : str :=
  split_whitespace value ≫= (fun token => to_ascii_uppercase <$> strip_hex_prefix token).

Definition is_byte_field_repr (value : str) : bool :=
  non_empty value &&
  forallb (fun token =>
    (str_len token =? 4) &&
    match try_strip_hex_prefix token with
    | Some hex => forallb is_ascii_hexdigit hex
    | None => false
    end) (split (fun c => c =? ch_space) value).

Definition byte_field_matches_hex_pattern (received expected : str) : bool :=
  is_byte_field_repr received && bool_decide (normalize_hex received = normalize_hex expected).

Definition u32_padded_bytes (data : list Z) : dresult (list Z) :=
  if 4 <? len data then Err ParameterConversionError
  else
    let padd := sat_sub 4 (len data) in
    let bytes := if negb (padd =? 0) then vec_of padd 0 ++ data else data in
    if len bytes =? 4 then Ok bytes else Err ParameterConversionError.

Definition f64_padded_bytes (data : list Z) : dresult (list Z) :=
  if 8 <? len data then Err ParameterConversionError
  else
    let padd := sat_sub 8 (len data) in
    let bytes := if negb (padd =? 0) then vec_of padd 0 ++ data else data in
    if len bytes =? 8 then Ok bytes else Err ParameterConversionError.

(** [pad_msb_to_len] of cda-core/src/diag_kernel.rs. *)
Definition pad_msb_to_len (bytes : list Z) (target_len : Z) : list Z :=
  vec_of (sat_sub target_len (len bytes)) 0 ++ bytes.

Section hex.
(** [hex::decode] of the hex crate. *)
Context (hex_decode : str -> option (list Z)).

Definition decode_hex (value : str) : dresult (list Z) :=
  if negb (forallb is_ascii_hexdigit value) then Err ParameterConversionError
  else
    let value :=
      if is_multiple_of (len value) 2 then value
      else take (Z.to_nat (sat_sub (len value) 1)) value ++ [ch_0]
           ++ drop (Z.to_nat (sat_sub (len value) 1)) value in
    ok_or (hex_decode value) ParameterConversionError.

Definition decode_hex_with_optional_prefix (value : str) : dresult (list Z) :=
  mjoin <$> mapM (fun value => match try_strip_hex_prefix value with
                                | Some stripped => decode_hex stripped
                                | None => decode_hex value
                                end)
    (filter (fun v => non_empty v) (split (fun c => (c =? ch_space) || (c =? ch_comma)) value)).
End hex.

(** What hex::decode documents: two hexadecimal digits make a byte, the first
    one its upper half; a string of odd length or with another character is
    an error. *)
Fixpoint hex_pairs (s : str) : option (list Z) :=
  match s with
  | [] => Some []
  | a :: b :: s' => h ← to_digit 16 a; l ← to_digit 16 b; r ← hex_pairs s'; Some (h * 16 + l :: r)
  | [_] => None
  end.

(** The text of a byte field: the [Serialize] instance of [DiagDataValue]
    (cda-core/src/diag_kernel.rs) writes each byte as [{b:#04X}] and joins
    them with a space. *)
Definition hex_digit (n : Z) : Z := if n <? 10 then ch_0 + n else ch_A + (n - 10).
Definition byte_digits (b : Z) : str := [hex_digit (b / 16); hex_digit (b mod 16)].
Definition byte_text (b : Z) : str := ch_0 :: ch_x :: byte_digits b.
Fixpoint join (sep : str) (ws : list str) : str :=
  match ws with
  | [] => []
  | [w] => w
  | w :: ws' => w ++ sep ++ join sep ws'
  end.
Definition byte_field_text (v : list Z) : str := join [ch_space] (byte_text <$> v).

(** ** Lemmas *)

Lemma in_range_spec lo c hi : in_range lo c hi = true <-> lo <= c <= hi.
Proof. unfold in_range. rewrite andb_true_iff, !Z.leb_le. done. Qed.

Lemma in_range_false lo c hi : in_range lo c hi = false <-> c < lo \/ hi < c.
Proof. unfold in_range. rewrite andb_false_iff, !Z.leb_gt. done. Qed.

Ltac ch := unfold ch_0, ch_9, ch_A, ch_F, ch_X, ch_Z, ch_a, ch_f, ch_x, ch_z, ch_space, ch_comma, ch_plus, ch_minus in *.

(** A hexadecimal digit has a value below 16 and its upper case is the digit
    [hex_digit] writes for it. *)
Lemma hexdigit_value c :
  is_ascii_hexdigit c = true ->
  exists n, 0 <= n < 16 /\ to_digit 16 c = Some n /\ to_ascii_uppercase c = hex_digit n.
Proof.
  unfold is_ascii_hexdigit. rewrite !orb_true_iff, !in_range_spec. ch.
  intros H. exists (if in_range 48 c 57 then c - 48 else if in_range 97 c 122 then c - 97 + 10 else c - 65 + 10).
  unfold to_digit, to_ascii_uppercase, hex_digit. ch.
  destruct (in_range 48 c 57) eqn:E1; [|destruct (in_range 97 c 122) eqn:E2; [|destruct (in_range 65 c 90) eqn:E3]];
    rewrite ?in_range_spec, ?in_range_false in *; try lia.
  - rewrite (proj2 (in_range_false 97 c 122)) by lia.
    rewrite (proj2 (Z.ltb_lt (c - 48) 16)), (proj2 (Z.ltb_lt (c - 48) 10)) by lia.
    split; [lia|]. split; [done|lia].
  - rewrite (proj2 (Z.ltb_lt (c - 97 + 10) 16)), (proj2 (Z.ltb_ge (c - 97 + 10) 10)) by lia.
    split; [lia|]. split; [done|lia].
  - rewrite (proj2 (Z.ltb_lt (c - 65 + 10) 16)), (proj2 (Z.ltb_ge (c - 65 + 10) 10)) by lia.
    split; [lia|]. split; [done|lia].
Qed.

Lemma hex_digit_range n : 0 <= n < 16 -> 48 <= hex_digit n <= 57 \/ 65 <= hex_digit n <= 70.
Proof. intros Hn. unfold hex_digit. ch. destruct (Z.ltb_spec n 10); lia. Qed.

Lemma hex_digit_inj n m : 0 <= n < 16 -> 0 <= m < 16 -> hex_digit n = hex_digit m -> n = m.
Proof. intros Hn Hm. unfold hex_digit. ch. destruct (Z.ltb_spec n 10), (Z.ltb_spec m 10); lia. Qed.

Lemma hex_digit_is_hex n : 0 <= n < 16 -> is_ascii_hexdigit (hex_digit n) = true.
Proof.
  intros Hn. unfold is_ascii_hexdigit. rewrite !orb_true_iff, !in_range_spec. ch.
  destruct (hex_digit_range n Hn); lia.
Qed.

Lemma nibbles b : is_u8 b -> 0 <= b / 16 < 16 /\ 0 <= b mod 16 < 16.
Proof.
  unfold is_u8. intros Hb. split; [|apply Z.mod_pos_bound; lia].
  split; [apply Z.div_pos; lia|apply Z.div_lt_upper_bound; lia].
Qed.

(** *** Decimal text *)

Lemma decimal_digit_range n : 48 <= ch_0 + n mod 10 <= 57.
Proof. unfold ch_0. pose proof (Z.mod_pos_bound n 10). lia. Qed.

Lemma decimal_digits_ok fuel n : 0 <= n < 2 ^ Z.of_nat fuel ->
  Forall (fun c => 48 <= c <= 57) (decimal_digits fuel n) /\
  foldl (fun acc c => acc * 10 + (c - ch_0)) 0 (decimal_digits fuel n) = n.
Proof.
  revert n. induction fuel as [|fuel IH]; intros n Hn; [simpl in *; split; [done|lia]|].
  cbn [decimal_digits]. rewrite Nat2Z.inj_succ, Z.pow_succ_r in Hn by lia.
  destruct (Z.ltb_spec n 10).
  - rewrite app_nil_l. split; [apply Forall_singleton, decimal_digit_range|].
    cbn [foldl]. unfold ch_0. rewrite Z.mod_small by lia. lia.
  - destruct (IH (n / 10)) as [Hd Hv]; [split; [apply Z.div_pos; lia|]; apply Z.div_lt_upper_bound; lia|].
    split; [apply Forall_app; split; [done|apply Forall_singleton, decimal_digit_range]|].
    rewrite foldl_app, Hv. cbn [foldl]. unfold ch_0. pose proof (Z.div_mod n 10). lia.
Qed.

Lemma decimal_digits_non_empty fuel n : decimal_digits (S fuel) n <> [].
Proof. cbn [decimal_digits]. by intros [_ ?]%app_eq_nil. Qed.

Lemma decimal_fuel z : 0 <= Z.abs z < 2 ^ Z.of_nat (S (Z.to_nat (Z.log2 (Z.abs z)))).
Proof.
  pose proof (Z.log2_nonneg (Z.abs z)). rewrite Nat2Z.inj_succ, Z2Nat.id by done. split; [lia|].
  destruct (decide (Z.abs z = 0)) as [->|]; [done|]. apply Z.log2_spec. lia.
Qed.

Lemma digits_value_decimal acc s : Forall (fun c => 48 <= c <= 57) s ->
  digits_value 10 acc s = Some (foldl (fun acc c => acc * 10 + (c - ch_0)) acc s).
Proof.
  revert acc. induction s as [|c s IH]; intros acc Hs; [done|]. inversion_clear Hs. cbn [digits_value foldl].
  unfold to_digit, in_range, ch_0, ch_9 in *.
  destruct (Z.leb_spec 48 c), (Z.leb_spec c 57); try lia. cbn.
  destruct (Z.ltb_spec (c - 48) 10); [|lia]. by apply IH.
Qed.

(** The shape of [decimal z], by which it is parsed. *)
Lemma decimal_cases z : exists d, d <> [] /\ Forall (fun c => 48 <= c <= 57) d /\
  foldl (fun acc c => acc * 10 + (c - ch_0)) 0 d = Z.abs z /\
  decimal z = (if z <? 0 then [ch_minus] else []) ++ d.
Proof.
  destruct (decimal_digits_ok _ _ (decimal_fuel z)) as [Hd Hv]. eexists. split; [|split; [exact Hd|split; [exact Hv|done]]].
  apply decimal_digits_non_empty.
Qed.

Lemma from_str_radix_decimal lo hi z : lo <= z <= hi -> from_str_radix lo hi (decimal z) 10 = Some z.
Proof.
  intros Hz. destruct (decimal_cases z) as (d & Hn & Hd & Hv & ->). unfold from_str_radix.
  destruct (Z.ltb_spec z 0).
  - cbn [app]. change (ch_minus =? ch_plus) with false. rewrite Z.eqb_refl.
    destruct (Z.ltb_spec lo 0); [|lia]. cbn [andb].
    unfold non_empty. rewrite bool_decide_false by done. cbn [negb].
    rewrite digits_value_decimal, Hv by done. simpl. replace (- Z.abs z) with z by lia.
    by rewrite (proj2 (in_range_spec lo z hi)).
  - rewrite app_nil_l. destruct d as [|c d]; [done|]. pose proof (Forall_inv Hd) as Hc. cbn beta in Hc.
    unfold ch_plus, ch_minus.
    destruct (Z.eqb_spec c 43); [lia|]. destruct (Z.eqb_spec c 45); [lia|]. cbn [andb].
    unfold non_empty. rewrite bool_decide_false by done. cbn [negb].
    rewrite digits_value_decimal, Hv by done. simpl. replace (Z.abs z) with z by lia.
    by rewrite (proj2 (in_range_spec lo z hi)).
Qed.

Lemma split_not_nil sep s : split sep s <> [].
Proof. destruct s; simpl; [done|]. destruct (sep z); [done|]. by destruct (split sep s). Qed.

Lemma split_clean sep w : forallb (fun c => negb (sep c)) w = true -> split sep w = [w].
Proof.
  induction w as [|c w IH]; [done|]. simpl. intros [Hc Hw]%andb_true_iff.
  apply negb_true_iff in Hc. by rewrite Hc, IH.
Qed.

Lemma split_cons sep w c s :
  forallb (fun c => negb (sep c)) w = true -> sep c = true ->
  split sep (w ++ c :: s) = w :: split sep s.
Proof.
  intros Hw Hc. induction w as [|d w IH]; simpl; [by rewrite Hc|].
  simpl in Hw. apply andb_true_iff in Hw as [Hd Hw]. apply negb_true_iff in Hd. rewrite Hd, IH by done. done.
Qed.

Lemma split_join sep c ws :
  ws <> [] -> Forall (fun w => forallb (fun c => negb (sep c)) w = true) ws -> sep c = true ->
  split sep (join [c] ws) = ws.
Proof.
  intros Hne Hws Hc. induction Hws as [|w ws Hw Hws IH]; [done|].
  destruct ws as [|w' ws]; [by apply split_clean|].
  change (join [c] (w :: w' :: ws)) with (w ++ c :: join [c] (w' :: ws)).
  rewrite split_cons by done. by rewrite IH.
Qed.

Lemma utf8_len_ascii c : 0 <= c < 128 -> utf8_len_char c = 1.
Proof. intros. unfold utf8_len_char. by rewrite (proj2 (Z.ltb_lt c 128)) by lia. Qed.

Lemma strip_prefix_byte_text b : strip_hex_prefix (byte_text b) = byte_digits b.
Proof. done. Qed.

Lemma byte_digits_hex b : is_u8 b -> forallb is_ascii_hexdigit (byte_digits b) = true.
Proof. intros [H1 H2]%nibbles. simpl. by rewrite !hex_digit_is_hex. Qed.

Lemma byte_text_len b : is_u8 b -> str_len (byte_digits b) = 2 /\ str_len (byte_text b) = 4.
Proof.
  intros [H1 H2]%nibbles. pose proof (hex_digit_range _ H1). pose proof (hex_digit_range _ H2).
  unfold str_len, byte_text, byte_digits. cbn [foldr]. ch. rewrite !utf8_len_ascii by lia. lia.
Qed.

Lemma try_strip_byte_text b : is_u8 b -> try_strip_hex_prefix (byte_text b) = Some (byte_digits b).
Proof.
  intros Hb. destruct (byte_text_len b Hb) as [H2 H4]. unfold try_strip_hex_prefix.
  by rewrite strip_prefix_byte_text, H2, H4.
Qed.

(** Digits have no prefix to strip. *)
Lemma strip_hexdigits e : forallb is_ascii_hexdigit e = true -> strip_hex_prefix e = e.
Proof.
  intros He. unfold strip_hex_prefix. destruct e as [|a [|b e]]; cbn [strip_prefix];
    [done|by destruct (ch_0 =? a)|].
  simpl in He. apply andb_true_iff in He as [_ [Hb _]%andb_true_iff].
  assert ((ch_x =? b) = false /\ (ch_X =? b) = false) as [-> ->]; [|by destruct (ch_0 =? a)].
  unfold is_ascii_hexdigit in Hb. rewrite !orb_true_iff, !in_range_spec in Hb.
  split; apply Z.eqb_neq; ch; lia.
Qed.

Lemma hexdigit_not_space c : is_ascii_hexdigit c = true -> is_whitespace c = false /\ c <> ch_space /\ c <> ch_comma.
Proof.
  unfold is_ascii_hexdigit, is_whitespace. rewrite !orb_true_iff, !in_range_spec, !orb_false_iff, !in_range_false. ch.
  intros Hc. split; [|lia]. split; [split|]; [lia| |lia].
  apply bool_decide_eq_false_2. intros Hin. repeat (apply elem_of_cons in Hin as [->|Hin]; [lia|]).
  by apply elem_of_nil in Hin.
Qed.

Lemma forallb_impl {A} (f g : A -> bool) l :
  (forall a, f a = true -> g a = true) -> forallb f l = true -> forallb g l = true.
Proof. rewrite !List.forallb_forall. auto. Qed.

(** A byte and its two digits, in either case. *)
Lemma hex_pairs_spec e bs :
  forallb is_ascii_hexdigit e = true -> bytes bs ->
  hex_pairs e = Some bs <-> to_ascii_uppercase <$> e = (bs ≫= byte_digits).
Proof.
  intros He Hbs. revert e He. induction Hbs as [|v bs Hv Hbs IH]; intros e He.
  - destruct e as [|a [|b e]]; [done|done|]. simpl. split; [|done].
    destruct (to_digit 16 a), (to_digit 16 b), (hex_pairs e); done.
  - destruct (nibbles v Hv) as [H1 H2].
    destruct e as [|a [|b e]]; [done|done|]. simpl in He. apply andb_true_iff in He as [Ha [Hb He]%andb_true_iff].
    destruct (hexdigit_value a Ha) as (m & Hm & Hda & Hua), (hexdigit_value b Hb) as (n & Hn & Hdb & Hub).
    simpl. rewrite Hda, Hdb, Hua, Hub. simpl.
    assert (Hmn : m * 16 + n = v <-> hex_digit m = hex_digit (v / 16) /\ hex_digit n = hex_digit (v mod 16)).
    { pose proof (Z.div_mod v 16). split.
      - intros <-. rewrite Z.div_add_l, Z.div_small, Z.add_0_r, Z.add_comm, Z_mod_plus_full, Z.mod_small by lia. done.
      - intros [?%hex_digit_inj ?%hex_digit_inj]; lia. }
    specialize (IH e He). destruct (hex_pairs e) as [r|] eqn:Er; simpl.
    + split.
      * intros [= E ->]. apply Hmn in E as [-> ->]. f_equal. f_equal. by apply IH.
      * intros [= Em En E]. apply IH in E. injection E as ->. by rewrite (proj2 Hmn).
    + split; [done|]. intros [= _ _ E]. by apply IH in E.
Qed.

Lemma hex_pairs_length e bs : hex_pairs e = Some bs -> len e = 2 * len bs.
Proof.
  revert bs. induction e as [e IH] using (induction_ltof1 _ (@length Z)). unfold ltof in IH. intros bs.
  destruct e as [|a [|b e]]; simpl; [by intros [= <-]|done|].
  destruct (to_digit 16 a), (to_digit 16 b); simpl; try done.
  destruct (hex_pairs e) as [r|] eqn:Er; simpl; [|done]. intros [= <-].
  apply IH in Er; [|simpl; lia]. rewrite !len_cons. lia.
Qed.

Lemma normalize_hexdigits e :
  forallb is_ascii_hexdigit e = true -> normalize_hex e = to_ascii_uppercase <$> e.
Proof.
  intros He. unfold normalize_hex, split_whitespace.
  rewrite split_clean by (eapply forallb_impl, He; intros a Ha; by rewrite (proj1 (hexdigit_not_space a Ha))).
  destruct e as [|a e]; [done|]. rewrite filter_cons_True by done. simpl filter. rewrite filter_nil.
  cbn [mbind list_bind]. by rewrite strip_hexdigits, app_nil_r.
Qed.

Lemma byte_text_clean b : is_u8 b ->
  forallb (fun c => negb ((c =? ch_space) || (c =? ch_comma))) (byte_text b) = true /\
  forallb (fun c => negb (c =? ch_space)) (byte_text b) = true /\
  forallb (fun c => negb (is_whitespace c)) (byte_text b) = true.
Proof.
  intros Hb. pose proof (byte_digits_hex b Hb) as Hd.
  assert (H : forall c, is_ascii_hexdigit c = true -> (c =? ch_space) = false /\ (c =? ch_comma) = false).
  { intros c (_ & H1 & H2)%hexdigit_not_space. by split; apply Z.eqb_neq. }
  unfold byte_text. cbn [forallb]. repeat split; (apply andb_true_iff; split; [done|]);
    (apply andb_true_iff; split; [done|]); (eapply forallb_impl, Hd); intros c Hc.
  - by destruct (H c Hc) as [-> ->].
  - by destruct (H c Hc) as [-> _].
  - by rewrite (proj1 (hexdigit_not_space c Hc)).
Qed.

Lemma split_byte_field sep v :
  v <> [] -> sep ch_space = true ->
  (forall b, is_u8 b -> forallb (fun c => negb (sep c)) (byte_text b) = true) -> bytes v ->
  split sep (byte_field_text v) = byte_text <$> v.
Proof.
  intros Hne Hsep Hclean Hv. unfold byte_field_text. apply split_join; [by destruct v| |done].
  apply Forall_fmap. refine (List.Forall_impl _ _ Hv). intros b Hb. by apply Hclean.
Qed.

Lemma filter_byte_texts (v : list Z) : filter (fun w : str => non_empty w) (byte_text <$> v) = byte_text <$> v.
Proof. induction v as [|b v IH]; [done|]. cbn [fmap list_fmap]. rewrite filter_cons_True by done. by rewrite IH. Qed.

Lemma upper_byte_digits b : is_u8 b -> to_ascii_uppercase <$> byte_digits b = byte_digits b.
Proof.
  intros [H1 H2]%nibbles. unfold byte_digits. cbn [fmap list_fmap].
  assert (Hup : forall n, 0 <= n < 16 -> to_ascii_uppercase (hex_digit n) = hex_digit n).
  { intros n Hn. unfold to_ascii_uppercase. rewrite (proj2 (in_range_false _ _ _)); [done|].
    pose proof (hex_digit_range n Hn). ch. lia. }
  by rewrite !Hup.
Qed.

Lemma normalize_byte_field v :
  bytes v -> normalize_hex (byte_field_text v) = (v ≫= byte_digits).
Proof.
  intros Hv. destruct (decide (v = [])) as [->|Hne]; [done|].
  unfold normalize_hex, split_whitespace.
  rewrite split_byte_field by (done || (intros b Hb; apply (byte_text_clean b Hb))). rewrite filter_byte_texts.
  clear Hne. induction Hv as [|b v Hb Hv IH]; [done|]. cbn [fmap list_fmap mbind list_bind]. rewrite IH. f_equal.
  rewrite strip_prefix_byte_text. by apply upper_byte_digits.
Qed.

Lemma byte_field_text_repr v : v <> [] -> bytes v -> is_byte_field_repr (byte_field_text v) = true.
Proof.
  intros Hne Hv. unfold is_byte_field_repr.
  rewrite split_byte_field by (done || (intros b Hb; apply (byte_text_clean b Hb))).
  assert (non_empty (byte_field_text v) = true) as ->.
  { destruct v as [|b [|c v]]; done. }
  simpl. apply List.forallb_forall. intros w (b & <- & Hb)%List.in_map_iff.
  assert (Hu : is_u8 b) by by apply (proj1 (List.Forall_forall _ _) Hv).
  rewrite (proj2 (byte_text_len b Hu)), (try_strip_byte_text b Hu). by apply byte_digits_hex.
Qed.

(** ** Properties *)

(** [hex::decode] as documented. *)
Definition hex_decode_ok (hex_decode : str -> option (list Z)) : Prop := forall s, hex_decode s = hex_pairs s.

(** what the adapter prints for a byte field it accepts as the value of
    one: parsing the text of the bytes gives the bytes back. *)
Theorem byte_field_text_roundtrip hex_decode v :
  hex_decode_ok hex_decode -> bytes v ->
  decode_hex_with_optional_prefix hex_decode (byte_field_text v) = Ok v.
Proof.
  intros Hhex Hv. destruct (decide (v = [])) as [->|Hne]; [done|].
  unfold decode_hex_with_optional_prefix.
  rewrite split_byte_field by (done || (intros b Hb; apply (byte_text_clean b Hb))). rewrite filter_byte_texts.
  assert (Hall : mapM (fun value => match try_strip_hex_prefix value with
                                | Some stripped => decode_hex hex_decode stripped
                                | None => decode_hex hex_decode value
                                end) (byte_text <$> v) = Ok ((fun b => [b]) <$> v)).
  { clear Hne. induction Hv as [|b v Hb Hv IH]; [done|]. cbn [fmap list_fmap mapM].
    rewrite (try_strip_byte_text b Hb).
    assert (decode_hex hex_decode (byte_digits b) = Ok [b]) as ->; [|cbn [mbind result_bind]; by rewrite IH].
    unfold decode_hex. rewrite (byte_digits_hex b Hb). change (is_multiple_of (len (byte_digits b)) 2) with true.
    cbn [negb]. cbv iota. rewrite Hhex.
    rewrite (proj2 (hex_pairs_spec (byte_digits b) [b] ltac:(by apply byte_digits_hex) ltac:(by repeat constructor; apply Hb))); [done|].
    rewrite upper_byte_digits by done. cbn. by rewrite ?app_nil_r. }
  rewrite Hall. cbn. f_equal. clear. induction v as [|b v IH]; [done|]. cbn. f_equal. exact IH.
Qed.

Lemma byte_field_text_roundtrip_witness :
  byte_field_text [4; 128] = [48; 120; 48; 52; 32; 48; 120; 56; 48] /\
  decode_hex_with_optional_prefix hex_pairs (byte_field_text [4; 128]) = Ok [4; 128].
Proof.
  split; [reflexivity|]. apply (byte_field_text_roundtrip hex_pairs [4; 128]); [intros s; reflexivity|].
  repeat constructor; vm_compute; discriminate.
Defined.

(** variant detection compares a decoded byte field with the value of a
    variant pattern as numbers: a pattern of whole bytes in hexadecimal
    digits matches the printed byte field, whatever the case of its digits,
    exactly when it decodes to the bytes of the field. *)
Theorem byte_field_pattern_decodes hex_decode v e :
  hex_decode_ok hex_decode -> bytes v -> v <> [] ->
  forallb is_ascii_hexdigit e = true -> is_multiple_of (len e) 2 = true ->
  byte_field_matches_hex_pattern (byte_field_text v) e = true <-> decode_hex hex_decode e = Ok v.
Proof.
  intros Hhex Hv Hne He Heven.
  unfold byte_field_matches_hex_pattern, decode_hex.
  rewrite byte_field_text_repr, normalize_byte_field, normalize_hexdigits, He, Heven by done. simpl.
  rewrite bool_decide_eq_true, ok_or_ok, Hhex, hex_pairs_spec by done. done.
Qed.

Lemma byte_field_pattern_decodes_witness :
  byte_field_matches_hex_pattern (byte_field_text [4; 171]) [48; 52; 97; 66] = true.
Proof.
  apply (byte_field_pattern_decodes hex_pairs [4; 171] [48; 52; 97; 66]);
    [intros s; reflexivity|repeat constructor; vm_compute; discriminate|discriminate|reflexivity..].
Defined.

(** padding a value to the width of its type changes neither the number
    nor fails, for any value that is not longer; a longer value is refused,
    never cut. *)
Theorem padding_keeps_value data :
  (len data <= 4 -> exists b, u32_padded_bytes data = Ok b /\ len b = 4 /\ be_val b = be_val data) /\
  (len data <= 8 -> exists b, f64_padded_bytes data = Ok b /\ len b = 8 /\ be_val b = be_val data) /\
  (4 < len data -> u32_padded_bytes data = Err ParameterConversionError) /\
  (8 < len data -> f64_padded_bytes data = Err ParameterConversionError) /\
  (forall n, len data <= n ->
     len (pad_msb_to_len data n) = n /\ be_val (pad_msb_to_len data n) = be_val data).
Proof.
  pose proof (len_nonneg data) as Hd.
  assert (Hpad : forall n, len data <= n ->
    (if negb (sat_sub n (len data) =? 0) then vec_of (sat_sub n (len data)) 0 ++ data else data)
    = pad_msb_to_len data n).
  { intros n Hn. unfold pad_msb_to_len. destruct (Z.eqb_spec (sat_sub n (len data)) 0) as [->|]; done. }
  assert (Hlen : forall n, len data <= n -> len (pad_msb_to_len data n) = n).
  { intros n Hn. unfold pad_msb_to_len. rewrite len_app, len_vec_of; usize. }
  unfold u32_padded_bytes, f64_padded_bytes. repeat split.
  - intros H. rewrite (proj2 (Z.ltb_ge _ _)) by done. rewrite Hpad, Hlen by done. eexists. split; [done|].
    split; [by apply Hlen|]. apply be_val_zeros_app.
  - intros H. rewrite (proj2 (Z.ltb_ge _ _)) by done. rewrite Hpad, Hlen by done. eexists. split; [done|].
    split; [by apply Hlen|]. apply be_val_zeros_app.
  - intros H. by rewrite (proj2 (Z.ltb_lt _ _)).
  - intros H. by rewrite (proj2 (Z.ltb_lt _ _)).
  - by apply Hlen.
  - apply be_val_zeros_app.
Qed.

(** A byte field text of odd length is completed in its LAST byte: the digits
    A3F make the bytes A3 0F, which as a number is not 0xA3F. *)
Example decode_hex_odd : decode_hex hex_pairs [65; 51; 70] = Ok [163; 15].
Proof. reflexivity. Qed.
