(* ===== verification/Ieee754.v ===== *)
(** * Floating-point numbers

    [f32] and [f64] as the source uses them: arithmetic, comparison, [as]
    casts, [to_be_bytes], [from_be_bytes] and [str::parse], over the Standard
    Library's executable specification of IEEE 754 ([SpecFloat]).  There is one
    NaN.  The lemmas show that arithmetic on integers is exact as long as the
    results have at most [prec] binary digits. *)

From Stdlib Require Export SpecFloat.
From stdpp Require Import strings list.
From S2P Require Import Prelude Bytes Errors Text.

Local Open Scope Z_scope.

(** ** Formats *)

(** Digits of the significand, exponent of the infinities, bytes. *)
Record format : Type := { prec : Z; emax : Z; width : Z }.

Definition F32 : format := {| prec := 24; emax := 128; width := 4 |}.
Definition F64 : format := {| prec := 53; emax := 1024; width := 8 |}.

Section format.
Context (fmt : format).
#[local] Abbreviation p := (prec fmt).
#[local] Abbreviation em := (emax fmt).

(** [i as f64], [f64::from]. *)
Definition of_Z (z : Z) : spec_float := binary_normalize p em z 0 false.

(** [f as f32], [f64::from(f)]. *)
Definition convert (f : spec_float) : spec_float :=
  match f with S754_finite s m e => binary_round p em s m e | _ => f end.

(** [to_bits] and [from_bits]. *)
Definition exp_field (e : Z) : Z := e * 2 ^ (p - 1).
Definition to_bits (f : spec_float) : Z :=
  let sign (s : bool) := if s then 2 ^ (8 * width fmt - 1) else 0 in
  match f with
  | S754_zero s => sign s
  | S754_infinity s => sign s + exp_field (2 * em - 1)
  | S754_nan => exp_field (2 * em - 1) + 2 ^ (p - 2)
  | S754_finite s m e =>
      sign s + (if Zpos m <? 2 ^ (p - 1) then Zpos m
                else exp_field (e - emin p em + 1) + (Zpos m - 2 ^ (p - 1)))
  end.
Definition from_bits (b : Z) : spec_float :=
  let s := Z.testbit b (8 * width fmt - 1) in
  let e := (b / 2 ^ (p - 1)) mod (2 * em) in
  let m := b mod 2 ^ (p - 1) in
  if e =? 2 * em - 1 then (if m =? 0 then S754_infinity s else S754_nan)
  else
    match (if e =? 0 then m else m + 2 ^ (p - 1)) with
    | Zpos m => S754_finite s m (if e =? 0 then emin p em else e - 1 + emin p em)
    | _ => S754_zero s
    end.

Definition to_be_bytes (f : spec_float) : list Z := be_bytes (Z.to_nat (width fmt)) (to_bits f).
Definition from_be_bytes (l : list Z) : spec_float := from_bits (be_val l).

(** ** [str::parse] *)

(** The correctly rounded value of [(-1)^s * m * 10^e]. *)
Definition of_decimal (s : bool) (m e : Z) : spec_float :=
  match m with
  | Zpos m =>
      match 10 ^ Z.max e 0, 10 ^ Z.max (- e) 0 with
      | Zpos n, Zpos d => SFdiv p em (S754_finite s (m * n) 0) (S754_finite false d 0)
      | _, _ => S754_zero s (* unreachable: powers of ten are positive *)
      end
  | _ => S754_zero s
  end.
End format.

(** The longest prefix of digits, and what follows. *)
Fixpoint span_digits (s : str) : str * str :=
  match s with
  | c :: s' => if in_range ch_0 c ch_9 then let '(d, r) := span_digits s' in (c :: d, r) else ([], s)
  | [] => ([], [])
  end.

Definition digits_Z (s : str) : Z := foldl (fun acc c => acc * 10 + (c - ch_0)) 0 s.

(** An optional sign. *)
Definition sign_of (s : str) : bool * str :=
  match s with
  | c :: s' => if c =? ch_plus then (false, s') else if c =? ch_minus then (true, s') else (false, s)
  | [] => (false, s)
  end.

(** [[eE][+-]?[0-9]+] or nothing. *)
Definition parse_exponent (s : str) : option Z :=
  match s with
  | [] => Some 0
  | c :: s' =>
      if (c =? 101) || (c =? 69) then
        let '(neg, ds) := sign_of s' in
        let '(d, r) := span_digits ds in
        if non_empty d && bool_decide (r = []) then Some (if neg : bool then - digits_Z d else digits_Z d)
        else None
      else None
  end.

Definition ascii_lower (c : Z) : Z := if in_range ch_A c ch_Z then c + 32 else c.
Definition eq_ignore_ascii_case (a b : str) : bool := bool_decide ((ascii_lower <$> a) = (ascii_lower <$> b)).

(** The grammar of [f64::from_str]: [inf], [infinity], [nan] in any case, or
    digits with at most one point and an optional exponent. *)
Definition parse_float (fmt : format) (s : str) : option spec_float :=
  let '(neg, body) := sign_of s in
  if eq_ignore_ascii_case body (chars "inf") || eq_ignore_ascii_case body (chars "infinity")
  then Some (S754_infinity neg)
  else if eq_ignore_ascii_case body (chars "nan") then Some S754_nan
  else
    let '(int, rest) := span_digits body in
    let '(frac, rest) :=
      match rest with
      | c :: rest' => if c =? 46 then span_digits rest' else ([], rest)
      | [] => ([], [])
      end in
    if non_empty (int ++ frac) then
      e ← parse_exponent rest;
      Some (of_decimal fmt neg (digits_Z (int ++ frac)) (e - len frac))
    else None.

(** ** Casts to integers *)

(** The value without its fraction. *)
Definition trunc (f : spec_float) : option Z :=
  match f with
  | S754_zero _ => Some 0
  | S754_finite s m e => Some (cond_Zopp s (Z.shiftl (Zpos m) e))
  | _ => None
  end.

(** [f as i32], [f as u32]: saturating. *)
Definition as_int (lo hi : Z) (f : spec_float) : Z :=
  match f with
  | S754_nan => 0
  | S754_infinity s => if s then lo else hi
  | _ => match trunc f with Some z => Z.max lo (Z.min hi z) | None => 0 end
  end.

Definition is_finite (f : spec_float) : bool :=
  match f with S754_zero _ | S754_finite _ _ _ => true | _ => false end.

(** ** Examples *)

Example parse_pi : parse_float F64 (chars "3.25e1") = Some (of_decimal F64 false 325 (-1)).
Proof. reflexivity. Qed.

Example bits_of_tenth : to_bits F64 <$> parse_float F64 (chars "0.1") = Some 4591870180066957722.
Proof. vm_compute. reflexivity. Qed.

Example bits_of_tenth_f32 : to_bits F32 <$> parse_float F32 (chars "-0.1") = Some 3184315597.
Proof. vm_compute. reflexivity. Qed.

Example smallest_subnormal : from_bits F64 1 = S754_finite false 1 (-1074) /\
  to_bits F64 (S754_finite false 1 (-1074)) = 1.
Proof. vm_compute. done. Qed.

(** ** Exactness on integers *)

(** What the formats have in common. *)
Definition format_ok (fmt : format) : Prop := 2 <= prec fmt /\ 2 * prec fmt <= emax fmt.

Lemma F64_ok : format_ok F64.
Proof. by split. Qed.
Lemma F32_ok : format_ok F32.
Proof. by split. Qed.

Lemma digits2_pos_log2 m : Zpos (digits2_pos m) = Z.log2 (Zpos m) + 1.
Proof.
  induction m as [m IH|m IH|]; cbn [digits2_pos]; [| |done].
  - rewrite Pos2Z.inj_succ, IH, Pos2Z.inj_xI, Z.log2_succ_double; lia.
  - rewrite Pos2Z.inj_succ, IH, Pos2Z.inj_xO, Z.log2_double; lia.
Qed.

Lemma digits2_bounds m : 2 ^ (Zpos (digits2_pos m) - 1) <= Zpos m < 2 ^ Zpos (digits2_pos m).
Proof.
  rewrite digits2_pos_log2. pose proof (Z.log2_spec (Zpos m) ltac:(lia)).
  replace (Z.log2 (Z.pos m) + 1 - 1) with (Z.log2 (Zpos m)) by lia. done.
Qed.

Lemma digits2_unique m n : 0 < n -> 2 ^ (n - 1) <= Zpos m < 2 ^ n -> Zpos (digits2_pos m) = n.
Proof.
  intros Hn H. rewrite digits2_pos_log2. pose proof (Z.log2_unique (Zpos m) (n - 1) ltac:(lia)).
  rewrite H0; [lia|]. replace (Z.succ (n - 1)) with n by lia. done.
Qed.

Lemma iter_pos_iter {A} (f : A -> A) n x : SpecFloat.iter_pos f n x = Nat.iter (Pos.to_nat n) f x.
Proof.
  revert x. induction n as [n IH|n IH|]; intros x; cbn [SpecFloat.iter_pos]; [| |done].
  - rewrite !IH, Pos2Nat.inj_xI. rewrite <- Nat.iter_add, <- Nat.iter_succ_r. f_equal. lia.
  - rewrite !IH, Pos2Nat.inj_xO. rewrite <- Nat.iter_add. f_equal. lia.
Qed.

(** Shifting out zeros loses nothing. *)
Lemma shr_iter_exact n m : (2 ^ Z.of_nat n | m) -> 0 < m ->
  Nat.iter n shr_1 {| shr_m := m; shr_r := false; shr_s := false |}
  = {| shr_m := m / 2 ^ Z.of_nat n; shr_r := false; shr_s := false |}.
Proof.
  revert m. induction n as [|n IH]; intros m Hd Hm; [by rewrite Z.div_1_r|].
  rewrite Nat.iter_succ_r. rewrite Nat2Z.inj_succ, Z.pow_succ_r in * by lia.
  destruct Hd as [k Hk].
  assert (Hk2 : m / 2 = k * 2 ^ Z.of_nat n)
    by (rewrite Hk; rewrite <- (Z.div_mul (k * 2 ^ Z.of_nat n) 2) at 1 by lia; f_equal; lia).
  assert (Hm2 : m = 2 * (m / 2)) by lia.
  assert (Hs : shr_1 {| shr_m := m; shr_r := false; shr_s := false |}
    = {| shr_m := m / 2; shr_r := false; shr_s := false |}).
  { remember (m / 2) as h. clear -Hm2 Hm. subst m. destruct h; [lia|done|lia]. }
  rewrite Hs, IH; [|rewrite Hk2; apply Z.divide_factor_r|lia]. f_equal. rewrite Z.div_div by lia. done.
Qed.

Section exact.
Context (fmt : format) (Hfmt : format_ok fmt).
#[local] Abbreviation p := (prec fmt).
#[local] Abbreviation em := (emax fmt).

(** The magnitude [m * 2^e] is the integer [k]. *)
Definition is_magnitude (m : positive) (e : Z) (k : positive) : Prop :=
  Zpos m * 2 ^ Z.max e 0 = Zpos k * 2 ^ Z.max (- e) 0.

Lemma magnitude_cases m e k : is_magnitude m e k <->
  (0 <= e /\ Zpos k = Zpos m * 2 ^ e) \/ (e < 0 /\ Zpos m = Zpos k * 2 ^ (- e)).
Proof.
  unfold is_magnitude. destruct (Z.le_gt_cases 0 e).
  - rewrite (Z.max_l e), (Z.max_r (- e)), Z.pow_0_r, Z.mul_1_r by lia. lia.
  - rewrite (Z.max_r e), (Z.max_l (- e)), Z.pow_0_r, Z.mul_1_r by lia. lia.
Qed.

Lemma magnitude_digits m e k : is_magnitude m e k ->
  Zpos (digits2_pos m) + e = Zpos (digits2_pos k).
Proof.
  intros [[He Hk]|[He Hm]]%magnitude_cases.
  - symmetry. apply digits2_unique; [lia|]. rewrite Hk. pose proof (digits2_bounds m).
    replace (Zpos (digits2_pos m) + e - 1) with (Zpos (digits2_pos m) - 1 + e) by lia.
    rewrite !Z.pow_add_r by lia. pose proof (Z.pow_pos_nonneg 2 e). nia.
  - enough (Zpos (digits2_pos m) = Zpos (digits2_pos k) + - e) by lia.
    apply digits2_unique; [lia|]. rewrite Hm. pose proof (digits2_bounds k).
    replace (Zpos (digits2_pos k) + - e - 1) with (Zpos (digits2_pos k) - 1 + - e) by lia.
    rewrite !Z.pow_add_r by lia. pose proof (Z.pow_pos_nonneg 2 (- e)). nia.
Qed.

Lemma small_digits k : Zpos k < 2 ^ p -> Zpos (digits2_pos k) <= p.
Proof.
  intros Hk. destruct (Z.le_gt_cases (Zpos (digits2_pos k)) p) as [|Hgt]; [done|].
  pose proof (digits2_bounds k). pose proof (Z.pow_le_mono_r 2 p (Zpos (digits2_pos k) - 1)). lia.
Qed.

Lemma fexp_small d : d <= p -> fexp p em d <= 0.
Proof. destruct Hfmt. unfold fexp, emin. lia. Qed.

Lemma shift_magnitude m e n k : is_magnitude m e k -> 0 <= n -> e + n <= 0 ->
  (2 ^ n | Zpos m) /\ exists m', Zpos m / 2 ^ n = Zpos m' /\ is_magnitude m' (e + n) k.
Proof.
  intros Hm Hn He. destruct (decide (n = 0)) as [->|].
  { rewrite Z.pow_0_r, Z.div_1_r, Z.add_0_r. split; [apply Z.divide_1_l|eauto]. }
  apply magnitude_cases in Hm as [[]|[_ Hm]]; [lia|].
  assert (Hsplit : Zpos m = Zpos k * 2 ^ (- (e + n)) * 2 ^ n).
  { rewrite Hm, <- Z.mul_assoc, <- Z.pow_add_r by lia. do 2 f_equal. lia. }
  split; [by exists (Zpos k * 2 ^ (- (e + n)))|].
  rewrite Hsplit, Z.div_mul by lia. pose proof (Z.pow_pos_nonneg 2 (- (e + n))).
  destruct (Zpos k * 2 ^ (- (e + n))) as [|m'|m'] eqn:E; [nia| |nia]. exists m'. split; [done|].
  unfold is_magnitude. rewrite Z.max_r, Z.mul_1_r by lia. rewrite <- E. do 2 f_equal. lia.
Qed.

Lemma shr_exact m e n k : is_magnitude m e k -> e + Z.max n 0 <= Z.max e 0 ->
  exists m', shr (shr_record_of_loc (Zpos m) loc_Exact) e n
    = ({| shr_m := Zpos m'; shr_r := false; shr_s := false |}, e + Z.max n 0) /\
    is_magnitude m' (e + Z.max n 0) k.
Proof.
  intros Hm Hn. destruct n as [|n|n]; cbn [shr shr_record_of_loc].
  - exists m. by rewrite Z.add_0_r.
  - rewrite Z.max_l in * by lia.
    destruct (shift_magnitude m e (Zpos n) k) as (Hd & m' & Hq & Hm'); [done|lia|lia|].
    exists m'. split; [|done].
    rewrite iter_pos_iter, shr_iter_exact by (try lia; by rewrite positive_nat_Z).
    by rewrite positive_nat_Z, Hq.
  - exists m. by rewrite Z.max_r, Z.add_0_r by lia.
Qed.

Lemma round_aux_exact s m e k : is_magnitude m e k -> Zpos k < 2 ^ p ->
  exists m' e', binary_round_aux p em s (Zpos m) e loc_Exact = S754_finite s m' e' /\
    is_magnitude m' e' k /\ e' = Z.max e (fexp p em (Zpos (digits2_pos k))).
Proof.
  intros Hm Hk. pose proof (small_digits k Hk) as Hd. pose proof (fexp_small _ Hd) as Hf.
  unfold binary_round_aux, shr_fexp. cbn [Zdigits2]. rewrite (magnitude_digits _ _ _ Hm).
  set (f := fexp p em (Zpos (digits2_pos k))) in *.
  destruct (shr_exact m e (f - e) k Hm ltac:(lia)) as (m' & -> & Hm').
  cbn [shr_m loc_of_shr_record round_nearest_even Zdigits2]. rewrite (magnitude_digits _ _ _ Hm').
  fold f. replace (e + Z.max (f - e) 0) with (Z.max e f) in * by lia.
  destruct (shr_exact m' (Z.max e f) (f - Z.max e f) k Hm' ltac:(lia)) as (m'' & -> & Hm'').
  cbn [shr_m]. replace (Z.max e f + Z.max (f - Z.max e f) 0) with (Z.max e f) in * by lia.
  exists m'', (Z.max e f). split; [|done].
  destruct (Z.leb_spec (Z.max e f) (em - p)) as [|Hbig]; [done|]. exfalso.
  destruct Hfmt. pose proof (magnitude_digits _ _ _ Hm). lia.
Qed.

Lemma iter_xO m n : Zpos (Pos.iter xO m n) = Zpos m * 2 ^ Zpos n.
Proof.
  induction n as [|n IH] using Pos.peano_ind; [rewrite Z.pow_1_r; simpl; lia|].
  rewrite Pos.iter_succ, Pos2Z.inj_succ, Z.pow_succ_r, Pos2Z.inj_xO, IH by lia. lia.
Qed.

(** A significand that cannot be shifted to the left any more. *)
Definition canonical (e : Z) (k : positive) : Prop := e = fexp p em (Zpos (digits2_pos k)).

Lemma round_exact s m e k : is_magnitude m e k -> Zpos k < 2 ^ p ->
  exists m' e', binary_round p em s m e = S754_finite s m' e' /\ is_magnitude m' e' k /\ canonical e' k.
Proof.
  intros Hm Hk. unfold binary_round, shl_align. rewrite (magnitude_digits _ _ _ Hm).
  pose proof (fexp_small _ (small_digits k Hk)) as Hf.
  set (f := fexp p em (Zpos (digits2_pos k))) in *.
  destruct (f - e) as [|n|n] eqn:E.
  - destruct (round_aux_exact s m e k Hm Hk) as (m' & e' & -> & Hm' & ->). exists m', (Z.max e f).
    unfold canonical. fold f. repeat split; [done|lia].
  - destruct (round_aux_exact s m e k Hm Hk) as (m' & e' & -> & Hm' & ->). exists m', (Z.max e f).
    unfold canonical. fold f. repeat split; [done|lia].
  - assert (Hm2 : is_magnitude (Pos.iter xO m n) f k).
    { apply magnitude_cases. rewrite iter_xO. assert (Hn : Zpos n = e - f) by lia.
      apply magnitude_cases in Hm as [[He Hk']|[He Hm]].
      - destruct (decide (f = 0)) as [->|]; [left; split; [lia|]; rewrite Hn, Z.sub_0_r, Z.mul_1_r; lia|].
        right. split; [lia|]. rewrite Hk', Hn, <- Z.mul_assoc, <- Z.pow_add_r by lia. do 2 f_equal.
      - right. split; [lia|]. rewrite Hm, Hn, <- Z.mul_assoc, <- Z.pow_add_r by lia. do 2 f_equal. lia. }
    destruct (round_aux_exact s _ f k Hm2 Hk) as (m' & e' & -> & Hm' & ->). exists m', (Z.max f f).
    unfold canonical. fold f. repeat split; [done|lia].
Qed.

(** [f] is the integer [z], in the form arithmetic produces. *)
Definition is_int (f : spec_float) (z : Z) : Prop :=
  match f with
  | S754_zero _ => z = 0
  | S754_finite s m e => exists k, z = cond_Zopp s (Zpos k) /\ is_magnitude m e k /\ canonical e k
  | _ => False
  end.

Lemma round_is_int s m e k : is_magnitude m e k -> Zpos k < 2 ^ p ->
  is_int (binary_round p em s m e) (cond_Zopp s (Zpos k)).
Proof. intros Hm Hk. destruct (round_exact s m e k Hm Hk) as (m' & e' & -> & ? & ?). by exists k. Qed.

(** [m * 2^e] is the integer [z]. *)
Definition scaled (m e z : Z) : Prop := m * 2 ^ Z.max e 0 = z * 2 ^ Z.max (- e) 0.

Lemma normalize_is_int m e z b : scaled m e z -> Z.abs z < 2 ^ p ->
  is_int (binary_normalize p em m e b) z.
Proof.
  unfold scaled. intros Hm Hz.
  assert (0 < 2 ^ Z.max e 0) by (apply Z.pow_pos_nonneg; lia).
  assert (0 < 2 ^ Z.max (- e) 0) by (apply Z.pow_pos_nonneg; lia).
  destruct m as [|m|m]; cbn [binary_normalize].
  - simpl. nia.
  - destruct z as [|k|k]; [nia| |nia]. by apply (round_is_int false).
  - destruct z as [|k|k]; [nia|nia|]. apply (round_is_int true m e k); unfold is_magnitude; lia.
Qed.

Lemma of_Z_is_int z : Z.abs z < 2 ^ p -> is_int (of_Z fmt z) z.
Proof. intros Hz. apply normalize_is_int; [by unfold scaled|done]. Qed.

Lemma is_int_trunc f z : is_int f z -> trunc f = Some z.
Proof.
  destruct f as [s| | |s m e]; simpl; [by intros ->|done|done|].
  intros (k & -> & Hm & _). do 2 f_equal. apply magnitude_cases in Hm as [[He ->]|[He Hm]].
  - by apply Z.shiftl_mul_pow2.
  - rewrite Z.shiftl_div_pow2, Hm, Z.div_mul by lia. done.
Qed.

Lemma is_int_finite f z : is_int f z -> is_finite f = true.
Proof. by destruct f. Qed.

Lemma as_int_is_int lo hi f z : is_int f z -> lo <= z <= hi -> as_int lo hi f = z.
Proof.
  intros Hf Hz. unfold as_int. rewrite (is_int_trunc f z Hf). destruct f; try done; lia.
Qed.

Lemma shl_align_spec m e e' : e' <= e -> Zpos (shl_align m e e').1 = Zpos m * 2 ^ (e - e').
Proof.
  intros He. unfold shl_align. destruct (e' - e) as [|n|n] eqn:E; [|lia|].
  - replace (e - e') with 0 by lia. simpl. lia.
  - cbn [fst]. rewrite iter_xO. do 2 f_equal. lia.
Qed.

Lemma magnitude_scaled s m e k e' : is_magnitude m e k -> e' <= e -> e' <= 0 ->
  cond_Zopp s (Zpos (shl_align m e e').1) = cond_Zopp s (Zpos k) * 2 ^ (- e').
Proof.
  intros Hm He Hn. enough (Zpos (shl_align m e e').1 = Zpos k * 2 ^ (- e')) by (destruct s; simpl; lia).
  rewrite shl_align_spec by done. apply magnitude_cases in Hm as [[H0 ->]|[H0 ->]].
  - rewrite <- Z.mul_assoc, <- Z.pow_add_r by lia. do 2 f_equal. 
  - rewrite <- Z.mul_assoc, <- Z.pow_add_r by lia. do 2 f_equal. lia.
Qed.

Lemma canonical_nonpos e k : canonical e k -> Zpos k < 2 ^ p -> e <= 0.
Proof. unfold canonical. intros -> Hk. apply fexp_small, small_digits, Hk. Qed.

Lemma is_int_add x y a b : is_int x a -> is_int y b ->
  Z.abs a < 2 ^ p -> Z.abs b < 2 ^ p -> Z.abs (a + b) < 2 ^ p ->
  is_int (SFadd p em x y) (a + b).
Proof.
  intros Hx Hy Ha Hb Hab.
  destruct x as [sx| | |sx mx ex]; [| done | done |]; destruct y as [sy| | |sy my ey]; try done.
  - simpl in *. subst. by destruct sx, sy.
  - simpl in Hx. subst a. by rewrite Z.add_0_l.
  - simpl in Hy. subst b. by rewrite Z.add_0_r.
  - destruct Hx as (k & -> & Hx & Cx), Hy as (l & -> & Hy & Cy). cbn [SFadd].
    assert (Zpos k < 2 ^ p) by (destruct sx; simpl in Ha; lia).
    assert (Zpos l < 2 ^ p) by (destruct sy; simpl in Hb; lia).
    pose proof (canonical_nonpos _ _ Cx ltac:(done)). pose proof (canonical_nonpos _ _ Cy ltac:(done)).
    apply normalize_is_int; [|done]. unfold scaled.
    rewrite (magnitude_scaled sx mx ex k), (magnitude_scaled sy my ey l) by (try done; lia).
    rewrite Z.max_r, Z.max_l by lia. simpl. lia.
Qed.

Lemma is_int_opp x a : is_int x a -> is_int (SFopp x) (- a).
Proof.
  destruct x as [s| | |s m e]; simpl; [by intros ->|done|done|].
  intros (k & -> & Hm & Hc). exists k. split; [by destruct s|done].
Qed.

Lemma SFsub_opp x y : SFsub p em x y = SFadd p em x (SFopp y).
Proof.
  destruct x as [sx|sx| |sx mx ex], y as [sy|sy| |sy my ey]; try done; try by destruct sx, sy.
Qed.

Lemma is_int_sub x y a b : is_int x a -> is_int y b ->
  Z.abs a < 2 ^ p -> Z.abs b < 2 ^ p -> Z.abs (a - b) < 2 ^ p ->
  is_int (SFsub p em x y) (a - b).
Proof.
  intros Hx Hy Ha Hb Hab. rewrite SFsub_opp. apply (is_int_add _ _ a (- b)); [done|by apply is_int_opp|lia..].
Qed.

Lemma digits_mul k l : let d x := Zpos (digits2_pos x) in d k + d l - 1 <= d (k * l)%positive <= d k + d l.
Proof.
  cbv beta zeta. rewrite !digits2_pos_log2, Pos2Z.inj_mul.
  pose proof (Z.log2_mul_below (Zpos k) (Zpos l)). pose proof (Z.log2_mul_above (Zpos k) (Zpos l)). lia.
Qed.

(** An integer is far above the smallest exponent. *)
Lemma canonical_int e k : canonical e k -> e = Zpos (digits2_pos k) - p.
Proof. unfold canonical, fexp, emin. destruct Hfmt. lia. Qed.

Lemma cond_Zopp_mul s t a b : cond_Zopp s a * cond_Zopp t b = cond_Zopp (xorb s t) (a * b).
Proof. destruct s, t; simpl; lia. Qed.

Lemma cond_Zopp_abs s k : Z.abs (cond_Zopp s (Zpos k)) = Zpos k.
Proof. by destruct s. Qed.

Lemma magnitude_nonpos m e k : is_magnitude m e k -> e <= 0 -> Zpos m = Zpos k * 2 ^ (- e).
Proof. unfold is_magnitude. intros Hm He. rewrite Z.max_r, Z.max_l in Hm by lia. lia. Qed.

Lemma is_int_mul x y a b : is_int x a -> is_int y b ->
  Z.abs a < 2 ^ p -> Z.abs b < 2 ^ p -> Z.abs (a * b) < 2 ^ p ->
  is_int (SFmul p em x y) (a * b).
Proof.
  intros Hx Hy Ha Hb Hab.
  destruct x as [sx| | |sx mx ex]; [| done | done |]; destruct y as [sy| | |sy my ey]; try done.
  - simpl in *. by subst.
  - simpl in Hx. by subst a.
  - simpl in Hy. subst b. by rewrite Z.mul_0_r.
  - destruct Hx as (k & -> & Hx & Cx), Hy as (l & -> & Hy & Cy).
    rewrite cond_Zopp_mul, <- Pos2Z.inj_mul, !cond_Zopp_abs in *. cbn [SFmul].
    pose proof (canonical_nonpos _ _ Cx Ha). pose proof (canonical_nonpos _ _ Cy Hb).
    assert (Hm : is_magnitude (mx * my) (ex + ey) (k * l)).
    { unfold is_magnitude. rewrite Z.max_r, Z.max_l, Z.mul_1_r, !Pos2Z.inj_mul by lia.
      rewrite (magnitude_nonpos mx ex k), (magnitude_nonpos my ey l) by done.
      replace (- (ex + ey)) with (- ex + - ey) by lia. rewrite Z.pow_add_r by lia. lia. }
    destruct (round_aux_exact (xorb sx sy) _ _ _ Hm Hab) as (m' & e' & -> & Hm' & ->).
    exists (k * l)%positive. split; [done|]. split; [done|]. unfold canonical.
    pose proof (digits_mul k l) as Hd. cbv beta zeta in Hd.
    rewrite (canonical_int _ _ Cx), (canonical_int _ _ Cy).
    unfold fexp at 2. unfold fexp. destruct Hfmt. lia.
Qed.

Lemma div_exact sx sy mx ex my ey c l : is_magnitude mx ex (c * l) -> is_magnitude my ey l ->
  ex <= 0 -> ey <= 0 -> Zpos (c * l) < 2 ^ p ->
  is_int (SFdiv p em (S754_finite sx mx ex) (S754_finite sy my ey)) (cond_Zopp (xorb sx sy) (Zpos c)).
Proof.
  intros Hx Hy Hex Hey Hab. cbn [SFdiv].
  assert (Hc : Zpos c < 2 ^ p) by (rewrite Pos2Z.inj_mul in Hab; nia).
  pose proof (digits_mul c l) as Hd. cbv beta zeta in Hd.
  unfold SFdiv_core_binary. cbn [Zdigits2].
  rewrite (magnitude_digits _ _ _ Hx), (magnitude_digits _ _ _ Hy).
  set (D := Zpos (digits2_pos (c * l)) - Zpos (digits2_pos l)).
  assert (HD : D <= Zpos (digits2_pos c)) by lia.
  assert (HD' : fexp p em D <= 0) by (apply fexp_small; pose proof (small_digits c Hc); lia).
  set (e := Z.min (fexp p em D) (ex - ey)).
  assert (Hshift : (match ex - ey - e with
                    | Z0 => Zpos mx | Zpos _ => Z.shiftl (Zpos mx) (ex - ey - e) | Zneg _ => 0
                    end) = Zpos c * 2 ^ (- e) * Zpos my).
  { assert (Hs : 0 <= ex - ey - e) by lia.
    transitivity (Zpos mx * 2 ^ (ex - ey - e)).
    { destruct (ex - ey - e) eqn:E; [lia| |lia]. by rewrite Z.shiftl_mul_pow2 by lia. }
    rewrite (magnitude_nonpos mx ex (c * l)), (magnitude_nonpos my ey l), Pos2Z.inj_mul by done.
    transitivity (Zpos c * Zpos l * 2 ^ (- ex + (ex - ey - e))); [rewrite Z.pow_add_r by lia; lia|].
    replace (- ex + (ex - ey - e)) with (- ey + - e) by lia. rewrite Z.pow_add_r by lia. lia. }
  rewrite Hshift.
  pose proof (Z.div_mul (Zpos c * 2 ^ (- e)) (Zpos my) ltac:(lia)) as Hq. unfold Z.div in Hq.
  pose proof (Z.mod_mul (Zpos c * 2 ^ (- e)) (Zpos my) ltac:(lia)) as Hr. unfold Z.modulo in Hr.
  destruct (Z.div_eucl _ _) as [q r]. subst q r.
  replace (new_location (Zpos my) 0) with loc_Exact
    by (unfold new_location, new_location_even, new_location_odd; by destruct (Z.even _)).
  assert (exists m, Zpos c * 2 ^ (- e) = Zpos m) as [m Hm].
  { pose proof (Z.pow_pos_nonneg 2 (- e)). destruct (Zpos c * 2 ^ (- e)) eqn:E; [nia|eauto|nia]. }
  rewrite Hm. assert (Hmag : is_magnitude m e c) by (unfold is_magnitude; rewrite Z.max_r, Z.max_l by lia; lia).
  destruct (round_aux_exact (xorb sx sy) m e c Hmag Hc) as (m' & e' & -> & Hm' & ->).
  exists c. split; [done|]. split; [done|]. unfold canonical. subst e. unfold fexp in *. lia.
Qed.

Lemma is_int_div x y a b : is_int x (a * b) -> is_int y b -> b <> 0 ->
  Z.abs (a * b) < 2 ^ p -> is_int (SFdiv p em x y) a.
Proof.
  intros Hx Hy Hb0 Hab.
  destruct x as [sx| | |sx mx ex]; [| done | done |]; destruct y as [sy| | |sy my ey]; try done.
  - simpl in Hx, Hy. simpl. nia.
  - destruct Hx as (k & Hk & Hx & Cx), Hy as (l & -> & Hy & Cy).
    rewrite Hk, cond_Zopp_abs in Hab.
    assert (exists c, a = cond_Zopp (xorb sx sy) (Zpos c) /\ k = (c * l)%positive) as (c & -> & ->).
    { exists (Z.to_pos (Z.abs a)). destruct a as [|a|a]; destruct sx, sy; simpl in *; split; try lia. }
    apply (div_exact sx sy mx ex my ey c l); [done|done| | |done].
    + by apply (canonical_nonpos ex (c * l)).
    + apply (canonical_nonpos ey l); [done|]. rewrite Pos2Z.inj_mul in Hab. nia.
Qed.

Lemma is_int_zero x a : is_int x a -> SFeqb x (S754_zero false) = bool_decide (a = 0).
Proof.
  destruct x as [s| | |s m e]; simpl; [by intros -> |done|done|].
  intros (k & -> & _). by destruct s.
Qed.

(** Comparison *)
Lemma magnitude_order m1 e1 k1 m2 e2 k2 :
  is_magnitude m1 e1 k1 -> canonical e1 k1 -> is_magnitude m2 e2 k2 -> canonical e2 k2 ->
  Zpos k1 < 2 ^ p -> Zpos k2 < 2 ^ p ->
  match Z.compare e1 e2 with Lt => Lt | Gt => Gt | Eq => Pos.compare_cont Eq m1 m2 end = Z.compare (Zpos k1) (Zpos k2).
Proof.
  intros H1 C1 H2 C2 B1 B2.
  pose proof (canonical_nonpos _ _ C1 B1). pose proof (canonical_nonpos _ _ C2 B2).
  pose proof (canonical_int _ _ C1) as D1. pose proof (canonical_int _ _ C2) as D2.
  pose proof (digits2_bounds k1). pose proof (digits2_bounds k2).
  destruct (Z.compare_spec e1 e2) as [->|Hlt|Hgt].
  - change (Pos.compare_cont Eq m1 m2) with (Z.compare (Zpos m1) (Zpos m2)).
    rewrite (magnitude_nonpos m1 e2 k1), (magnitude_nonpos m2 e2 k2) by done.
    rewrite !(Z.mul_comm _ (2 ^ _)). symmetry. apply Zmult_compare_compat_l.
    pose proof (Z.pow_pos_nonneg 2 (- e2)). lia.
  - symmetry. apply Z.compare_lt_iff.
    pose proof (Z.pow_le_mono_r 2 (Zpos (digits2_pos k1)) (Zpos (digits2_pos k2) - 1)). lia.
  - symmetry. apply Z.compare_gt_iff.
    pose proof (Z.pow_le_mono_r 2 (Zpos (digits2_pos k2)) (Zpos (digits2_pos k1) - 1)). lia.
Qed.

Lemma is_int_compare x y a b : is_int x a -> is_int y b -> Z.abs a < 2 ^ p -> Z.abs b < 2 ^ p ->
  SFcompare x y = Some (Z.compare a b).
Proof.
  intros Hx Hy Ha Hb.
  destruct x as [sx| | |sx mx ex]; [| done | done |]; destruct y as [sy| | |sy my ey]; try done.
  - simpl in *. by subst.
  - simpl in Hx. subst a. destruct Hy as (l & -> & _). by destruct sy.
  - simpl in Hy. subst b. destruct Hx as (k & -> & _). by destruct sx.
  - destruct Hx as (k & -> & Hx & Cx), Hy as (l & -> & Hy & Cy). rewrite !cond_Zopp_abs in *.
    pose proof (magnitude_order mx ex k my ey l Hx Cx Hy Cy Ha Hb) as Ho.
    destruct sx, sy; cbn [SFcompare cond_Zopp]; [|done|done|f_equal; exact Ho]. f_equal.
    transitivity (CompOpp (Z.compare (Zpos k) (Zpos l))); [|done].
    rewrite <- Ho. by destruct (Z.compare ex ey).
Qed.
End exact.

(** ** Bytes *)

(** Sign, exponent and fraction fill the bytes of the format. *)
Definition layout_ok (fmt : format) : Prop :=
  format_ok fmt /\ 0 < width fmt /\ 2 ^ (8 * width fmt - 1) = 2 * emax fmt * 2 ^ (prec fmt - 1).

Lemma F64_layout : layout_ok F64.
Proof. by split. Qed.
Lemma F32_layout : layout_ok F32.
Proof. by split. Qed.

Section layout.
Context (fmt : format) (Hfmt : layout_ok fmt).
#[local] Abbreviation p := (prec fmt).
#[local] Abbreviation em := (emax fmt).
#[local] Abbreviation sign s := (if s : bool then 2 ^ (8 * width fmt - 1) else 0).

Lemma fields_of_bits (s : bool) e m : 0 <= e < 2 * em -> 0 <= m < 2 ^ (p - 1) ->
  let b := sign s + exp_field fmt e + m in
  Z.testbit b (8 * width fmt - 1) = s /\ (b / 2 ^ (p - 1)) mod (2 * em) = e /\ b mod 2 ^ (p - 1) = m /\
  0 <= b < 2 ^ (8 * width fmt).
Proof.
  destruct Hfmt as ([Hp Hem] & Hw & Hl). intros He Hm b. subst b. unfold exp_field.
  set (P := 2 ^ (p - 1)) in *. assert (0 < P) by (subst P; apply Z.pow_pos_nonneg; lia).
  assert (Hr : 0 <= e * P + m < 2 ^ (8 * width fmt - 1)) by (rewrite Hl; nia).
  assert (Hb : sign s + e * P + m = (Z.b2z s * (2 * em) + e) * P + m) by (destruct s; cbn; lia).
  repeat split.
  - apply Bool.eq_iff_eq_true. rewrite Z.testbit_true by lia.
    replace ((sign s + e * P + m) / 2 ^ (8 * width fmt - 1)) with (Z.b2z s).
    { by destruct s. }
    apply (Z.div_unique _ _ _ (e * P + m)); [left; lia|]. destruct s; cbn [Z.b2z]; lia.
  - rewrite Hb, Z.div_add_l, (Z.div_small m), Z.add_0_r by lia.
    rewrite Z.add_comm, Z.mod_add, Z.mod_small by lia. done.
  - rewrite Hb, Z.add_comm, Z.mod_add, Z.mod_small by lia. done.
  - assert (0 < 2 ^ (8 * width fmt - 1)) by (apply Z.pow_pos_nonneg; lia). destruct s; lia.
  - replace (2 ^ (8 * width fmt)) with (2 * 2 ^ (8 * width fmt - 1))
      by (rewrite <- Z.pow_succ_r by lia; f_equal; lia).
    destruct s; lia.
Qed.

Lemma from_bits_fields (s : bool) e m : 0 <= e < 2 * em -> 0 <= m < 2 ^ (p - 1) ->
  from_bits fmt (sign s + exp_field fmt e + m) =
  if e =? 2 * em - 1 then (if m =? 0 then S754_infinity s else S754_nan)
  else match (if e =? 0 then m else m + 2 ^ (p - 1)) with
       | Zpos m => S754_finite s m (if e =? 0 then emin p em else e - 1 + emin p em)
       | _ => S754_zero s
       end.
Proof.
  intros He Hm. destruct (fields_of_bits s e m He Hm) as (Hs & HE & HM & _).
  unfold from_bits. by rewrite Hs, HE, HM.
Qed.

(** The exponent field of a valid number. *)
Lemma bounded_fields m e : bounded p em m e = true ->
  (Zpos m < 2 ^ (p - 1) /\ e = emin p em) \/
  (2 ^ (p - 1) <= Zpos m < 2 ^ p /\ emin p em <= e <= em - p).
Proof.
  destruct Hfmt as ([Hp Hem] & _). unfold bounded, canonical_mantissa.
  intros [Hc%Z.eqb_eq He%Z.leb_le]%andb_prop. unfold fexp in Hc. pose proof (digits2_bounds m).
  destruct (Z.le_gt_cases p (Zpos (digits2_pos m))).
  - right. assert (Zpos (digits2_pos m) = p) as Hd by lia. rewrite Hd in *. lia.
  - left. split; [|lia]. pose proof (Z.pow_le_mono_r 2 (Zpos (digits2_pos m)) (p - 1)). lia.
Qed.

Lemma to_bits_fields f : valid_binary p em f = true -> exists s e m,
  0 <= e < 2 * em /\ 0 <= m < 2 ^ (p - 1) /\ to_bits fmt f = sign s + exp_field fmt e + m /\
  from_bits fmt (sign s + exp_field fmt e + m) = f.
Proof.
  destruct Hfmt as ([Hp Hem] & _). assert (0 < 2 ^ (p - 2)) by (apply Z.pow_pos_nonneg; lia).
  assert (2 ^ (p - 1) = 2 * 2 ^ (p - 2)) by (rewrite <- Z.pow_succ_r by lia; f_equal; lia).
  destruct f as [s|s| |s m e]; intros Hv; unfold to_bits.
  - exists s, 0, 0. rewrite from_bits_fields by lia. unfold exp_field.
    destruct (Z.eqb_spec 0 (2 * em - 1)); [lia|]. repeat split; lia.
  - exists s, (2 * em - 1), 0. rewrite from_bits_fields, Z.eqb_refl by lia. repeat split; lia.
  - exists false, (2 * em - 1), (2 ^ (p - 2)).
    pose proof (from_bits_fields false (2 * em - 1) (2 ^ (p - 2)) ltac:(lia) ltac:(lia)) as Hb.
    rewrite Z.eqb_refl in Hb. destruct (Z.eqb_spec (2 ^ (p - 2)) 0); [lia|]. repeat split; [lia..|exact Hb].
  - cbn [valid_binary] in Hv. destruct (bounded_fields m e Hv) as [[Hm ->]|[Hm He]].
    + exists s, 0, (Zpos m). rewrite from_bits_fields by lia. unfold exp_field.
      destruct (Z.ltb_spec (Zpos m) (2 ^ (p - 1))); [|lia].
      destruct (Z.eqb_spec 0 (2 * em - 1)); [lia|]. repeat split; lia.
    + assert (2 ^ p = 2 * 2 ^ (p - 1)) by (rewrite <- Z.pow_succ_r by lia; f_equal; lia).
      exists s, (e - emin p em + 1), (Zpos m - 2 ^ (p - 1)). unfold emin in *.
      rewrite from_bits_fields by lia. unfold emin in *.
      destruct (Z.ltb_spec (Zpos m) (2 ^ (p - 1))); [lia|].
      destruct (Z.eqb_spec (e - (3 - em - p) + 1) (2 * em - 1)); [lia|].
      destruct (Z.eqb_spec (e - (3 - em - p) + 1) 0); [lia|].
      rewrite Z.sub_add. repeat split; [lia..|]. f_equal. lia.
Qed.

Lemma from_to_be_bytes f : valid_binary p em f = true -> from_be_bytes fmt (to_be_bytes fmt f) = f.
Proof.
  intros Hv. destruct (to_bits_fields f Hv) as (s & e & m & He & Hm & Hb & Hf).
  destruct (fields_of_bits s e m He Hm) as (_ & _ & _ & Hr). destruct Hfmt as (_ & Hw & _).
  unfold from_be_bytes, to_be_bytes. rewrite be_val_be_bytes, Z2Nat.id by lia.
  rewrite Hb, Z.mod_small by done. done.
Qed.

Lemma is_int_valid f z : is_int fmt f z -> Z.abs z < 2 ^ p -> valid_binary p em f = true.
Proof.
  destruct f as [s|s| |s m e]; [done|done|done|]. intros (k & -> & Hm & Hc) Hk.
  rewrite cond_Zopp_abs in Hk. cbn [valid_binary]. unfold bounded, canonical_mantissa.
  destruct Hfmt as [Hf _]. rewrite (magnitude_digits m e k Hm).
  pose proof (canonical_nonpos fmt Hf e k Hc Hk). destruct Hf.
  apply andb_true_intro. split; [by apply Z.eqb_eq|apply Z.leb_le; lia].
Qed.
End layout.

(** ** Decimal integers *)

Lemma span_digits_app d r : Forall (fun c => 48 <= c <= 57) d ->
  match r with c :: _ => ~ 48 <= c <= 57 | [] => True end -> span_digits (d ++ r) = (d, r).
Proof.
  intros Hd Hr. induction Hd as [|c d Hc Hd IH]; cbn [app].
  - destruct r as [|c r]; [done|]. cbn [span_digits]. by rewrite (proj2 (in_range_false ch_0 c ch_9)) by (unfold ch_0, ch_9; lia).
  - cbn [span_digits]. rewrite (proj2 (in_range_spec ch_0 c ch_9)) by done. by rewrite IH.
Qed.

Lemma digits_not_keyword d w : d <> [] -> Forall (fun c => 48 <= c <= 57) d ->
  match w with c :: _ => 97 <= c | [] => False end -> eq_ignore_ascii_case d w = false.
Proof.
  intros Hn Hd Hw. unfold eq_ignore_ascii_case. apply bool_decide_eq_false. intros He.
  destruct d as [|c d]; [done|]. destruct w as [|k w]; [done|]. injection He as He _.
  pose proof (Forall_inv Hd) as Hc. cbn beta in Hc. revert He. unfold ascii_lower, in_range, ch_A, ch_Z.
  destruct (Z.leb_spec 65 c), (Z.leb_spec c 90), (Z.leb_spec 65 k), (Z.leb_spec k 90); simpl; lia.
Qed.

Lemma parse_float_digits fmt neg d s : d <> [] -> Forall (fun c => 48 <= c <= 57) d ->
  sign_of s = (neg, d) -> parse_float fmt s = Some (of_decimal fmt neg (digits_Z d) 0).
Proof.
  intros Hn Hd Hs. unfold parse_float. rewrite Hs.
  rewrite !digits_not_keyword by (done || (vm_compute; done)). cbn [orb].
  pose proof (span_digits_app d [] Hd I) as Hsp. rewrite app_nil_r in Hsp. rewrite Hsp, app_nil_r.
  unfold non_empty. by rewrite bool_decide_false by done.
Qed.

Lemma sign_of_decimal z : exists d, d <> [] /\ Forall (fun c => 48 <= c <= 57) d /\
  digits_Z d = Z.abs z /\ sign_of (decimal z) = (z <? 0, d).
Proof.
  destruct (decimal_cases z) as (d & Hn & Hd & Hv & ->). exists d. split; [done|]. split; [done|]. split; [done|].
  destruct (z <? 0); [done|]. destruct d as [|c d]; [done|]. pose proof (Forall_inv Hd) as Hc. cbn beta in Hc.
  cbn [app]. unfold sign_of, ch_plus, ch_minus.
  destruct (Z.eqb_spec c 43); [lia|]. destruct (Z.eqb_spec c 45); [lia|]. done.
Qed.

(** The text of a small integer is read as that integer. *)
Lemma parse_float_decimal fmt z : format_ok fmt -> Z.abs z < 2 ^ prec fmt ->
  exists f, parse_float fmt (decimal z) = Some f /\ is_int fmt f z.
Proof.
  intros Hfmt Hz. destruct (sign_of_decimal z) as (d & Hn & Hd & Hv & Hs).
  eexists. split; [by apply parse_float_digits|]. rewrite Hv. unfold of_decimal.
  destruct (Z.abs z) as [|m|m] eqn:E; [simpl; lia| |lia]. change (10 ^ Z.max 0 0) with 1. change (10 ^ Z.max (- 0) 0) with 1.
  cbv iota. rewrite Pos.mul_1_r. destruct (Z.ltb_spec z 0) as [Hneg|Hneg];
    [replace z with (cond_Zopp (xorb true false) (Zpos m)) by (simpl; lia)
    |replace z with (cond_Zopp (xorb false false) (Zpos m)) by (simpl; lia)].
  all: apply (div_exact fmt Hfmt _ _ _ _ _ _ m 1); rewrite ?Pos.mul_1_r; unfold is_magnitude; lia || done.
Qed.
