(* ===== verification/Json.v ===== *)
(** * JSON values and the other interfaces of value conversion

    [serde_json::Value] with the accessors the source calls, and what else the
    conversions take from outside of the repository.  An implementation of
    [Externals] is an argument of every definition that needs it;
    [ExternalsOk] states what the crates document. *)

From stdpp Require Import strings gmap.
From S2P Require Import Prelude Errors Text Ieee754.
From stdpp Require Import list.

Local Open Scope Z_scope.
Set Warnings "-register-all".

Class Externals : Type := {
  (** [serde_json::Number] *)
  number : Type;
  number_as_i64 : number -> option Z;
  number_as_u64 : number -> option Z;
  number_as_f64 : number -> option spec_float;
  number_from_i64 : Z -> number;
  number_from_u64 : Z -> number;
  number_from_f64 : spec_float -> option number;
  (** [hex::decode] *)
  hex_decode : str -> option (list Z);
  (** [num_traits::ToPrimitive] of integers and floats, for a type with the
      range [lo..=hi] *)
  int_to_int : Z -> Z -> Z -> option Z;
  float_to_int : Z -> Z -> spec_float -> option Z
}.

Definition I64_MIN : Z := - 2 ^ 63.
Definition I64_MAX : Z := 2 ^ 63 - 1.
Definition U64_MAX : Z := 2 ^ 64 - 1.

(** Integers are kept exactly; a float is no integer, even when it is whole;
    JSON has no infinities and no NaN. *)
Class ExternalsOk (ext : Externals) : Prop := {
  i64_as_i64 z : I64_MIN <= z <= I64_MAX -> number_as_i64 (number_from_i64 z) = Some z;
  i64_as_u64 z : I64_MIN <= z <= I64_MAX ->
    number_as_u64 (number_from_i64 z) = if z <? 0 then None else Some z;
  i64_as_f64 z : I64_MIN <= z <= I64_MAX -> number_as_f64 (number_from_i64 z) = Some (of_Z F64 z);
  u64_as_u64 z : 0 <= z <= U64_MAX -> number_as_u64 (number_from_u64 z) = Some z;
  f64_as_f64 f : is_finite f = true -> exists n, number_from_f64 f = Some n /\ number_as_f64 n = Some f;
  f64_not_finite f : is_finite f = false -> number_from_f64 f = None;
  hex_decode_spec s : hex_decode s = hex_pairs s;
  int_to_int_spec lo hi z : int_to_int lo hi z = if in_range lo z hi then Some z else None;
  (** the conversion truncates towards zero *)
  float_to_int_spec lo hi f : float_to_int lo hi f =
    z ← trunc f; if in_range lo z hi then Some z else None
}.

(** ** Values *)

Section values.
Context {ext : Externals}.

Inductive Value : Type :=
  | Null
  | Bool (b : bool)
  | Number (n : number)
  | String (s : str)
  | Array (l : list Value)
  | Object (m : gmap str Value).

Definition as_i64 (v : Value) : option Z := match v with Number n => number_as_i64 n | _ => None end.
Definition as_u64 (v : Value) : option Z := match v with Number n => number_as_u64 n | _ => None end.
Definition as_f64 (v : Value) : option spec_float := match v with Number n => number_as_f64 n | _ => None end.
Definition as_str (v : Value) : option str := match v with String s => Some s | _ => None end.
Definition as_array (v : Value) : option (list Value) := match v with Array l => Some l | _ => None end.
Definition as_object (v : Value) : option (gmap str Value) := match v with Object m => Some m | _ => None end.
Definition is_number (v : Value) : bool := match v with Number _ => true | _ => false end.
End values.

(** ** A concrete implementation *)

Inductive reference_number : Type :=
  | PosInt (z : Z)
  | NegInt (z : Z)
  | Float (f : spec_float).

#[export] Instance reference : Externals := {
  number := reference_number;
  number_as_i64 n := match n with
                     | PosInt z => if z <=? I64_MAX then Some z else None
                     | NegInt z => Some z
                     | Float _ => None
                     end;
  number_as_u64 n := match n with PosInt z => Some z | _ => None end;
  number_as_f64 n := Some match n with PosInt z | NegInt z => of_Z F64 z | Float f => f end;
  number_from_i64 z := if z <? 0 then NegInt z else PosInt z;
  number_from_u64 := PosInt;
  number_from_f64 f := if is_finite f then Some (Float f) else None;
  hex_decode := hex_pairs;
  int_to_int lo hi z := if in_range lo z hi then Some z else None;
  float_to_int lo hi f := z ← trunc f; if in_range lo z hi then Some z else None
}.

#[export] Instance reference_ok : ExternalsOk reference.
Proof.
  split; simpl; try done.
  - intros z [_ Hz%Z.leb_le]. unfold number_as_i64. simpl. destruct (z <? 0); [done|]. by rewrite Hz.
  - intros z _. by destruct (z <? 0).
  - intros z _. by destruct (z <? 0).
  - intros f ->. eauto.
  - by intros f ->.
Qed.
