(* ===== verification/StateCharts.v ===== *)
(** * State charts

    What the database says of an ECU's session and security states: the charts
    of its diag layers, and the states and transitions a service refers to.
    Names compare without regard to ASCII case almost everywhere. *)

From stdpp Require Import strings.
From stdpp Require Import list.
From S2P Require Import Prelude Text Ieee754.

Local Open Scope Z_scope.

(** Generated tables compare by their place in the database. *)
Record StateTransition : Type := {
  table : Z;
  source_short_name_ref : option string;
  target_short_name_ref : option string
}.

Record StateChart : Type := {
  chart_semantic : option string;
  start_state_short_name_ref : option string;
  (** The names of the states. *)
  states : option (list (option string));
  state_transitions : option (list StateTransition)
}.

(** The references of a service: to transitions, and to the states that are a
    precondition, by name. *)
Record DiagComm : Type := {
  comm_short_name : option string;
  state_transition_refs : option (list (option StateTransition));
  pre_condition_state_refs : option (list (option (option string)));
  (** The names of its functional classes. *)
  funct_class : option (list (option string))
}.

(** [to_ascii_lowercase] and the comparison through it. *)
Definition lowercase (s : string) : str := ascii_lower <$> chars s.
Definition same_name (a b : string) : bool := bool_decide (lowercase a = lowercase b).
