(* ===== verification/BitOps.v ===== *)
(** * Bit extraction and injection primitives

    [extract_bits] and [set_bit_checked] of cda-interfaces/src/util.rs, the two
    primitives every coded type is read and written with, and their meaning on
    the big-endian value of a slice. *)

From S2P Require Import Prelude Bytes Errors.

Local Open Scope Z_scope.
Local Open Scope rust_scope.

Definition set_bit_checked (result_bytes : list Z) (dst_byte_index dst_bit_offset : Z)
    (bit_value : Z) (clear_bit : bool) : dresult (list Z) :=
  match get result_bytes dst_byte_index with
  | Some byte =>
      let byte :=
        if clear_bit then Z.land byte (u8_not (u8_shl 1 dst_bit_offset)) else byte in
      Ok (set result_bytes dst_byte_index
            (Z.lor byte (u8_shl (Z.land bit_value 1) dst_bit_offset)))
  | None => Err BadPayload
  end.

Definition extract_bits (bit_len bit_pos : Z) (data : list Z) : dresult (list Z) :=
  if 7 <? bit_pos then Err BadPayload
  else if bit_len =? 0 then Err BadPayload
  else
    needed ← ok_or (checked_add bit_pos bit_len) BadPayload;
    available ← ok_or (checked_mul (len data) 8) BadPayload;
    if available <? needed then Err BadPayload
    else
      let result_byte_count := div_ceil bit_len 8 in
      for_range 0 bit_len
        (fun i result_bytes =>
           src_bit_index ← ok_or (checked_add bit_pos i) BadPayload;
           let src_byte_index := len data -sat src_bit_index / 8 -sat 1 in
           let src_bit_offset := src_bit_index mod 8 in
           byte ← ok_or (get data src_byte_index) BadPayload;
           let bit_value := bit_of byte src_bit_offset in
           let dst_byte_index := result_byte_count -sat i / 8 -sat 1 in
           let dst_bit_offset := i mod 8 in
           result_bytes' ← set_bit_checked result_bytes dst_byte_index dst_bit_offset
                             bit_value false;
           Ok (Continue result_bytes'))
        (vec_of result_byte_count 0).

(** ** Addressing a bit of a slice *)

(** The index the source computes as [len.saturating_sub(k / 8).saturating_sub(1)]
    is in range and does not saturate when bit [k] exists. *)
Lemma bit_byte_index n k : 0 <= k < 8 * n -> n -sat k / 8 -sat 1 = n - 1 - k / 8 /\
  0 <= n - 1 - k / 8 < n.
Proof.
  intros Hk. assert (0 <= k / 8 < n).
  { split; [apply Z.div_pos; lia|apply Z.div_lt_upper_bound; lia]. }
  unfold sat_sub. lia.
Qed.

Lemma get_bit_byte (l : list Z) k :
  0 <= k < 8 * len l -> exists b, get l (len l -sat k / 8 -sat 1) = Some b.
Proof. intros Hk. destruct (bit_byte_index _ _ Hk) as [-> ?]. by apply get_lt_is_Some. Qed.

(** Reading a bit the way the source does reads a digit of the value. *)
Lemma bit_of_get (l : list Z) k b :
  bytes l -> 0 <= k < 8 * len l -> get l (len l -sat k / 8 -sat 1) = Some b ->
  bit_of b (k mod 8) = Z.b2z (Z.testbit (be_val l) k).
Proof.
  intros Hl Hk. destruct (bit_byte_index _ _ Hk) as [-> ?]. intros Hg.
  rewrite bit_of_testbit by (apply Z.mod_pos_bound; lia).
  f_equal. symmetry. apply be_val_testbit; (done || lia).
Qed.

(** The byte [set_bit_checked] stores. *)
Definition set_bit_byte (byte off v : Z) (clear : bool) : Z :=
  Z.lor (if clear then Z.land byte (u8_not (u8_shl 1 off)) else byte)
        (u8_shl (Z.land v 1) off).

Lemma u8_shl_b2z_testbit v off m : 0 <= off < 8 -> 0 <= m < 8 ->
  Z.testbit (u8_shl (Z.land (Z.b2z v) 1) off) m = bool_decide (m = off) && v.
Proof.
  intros Ho Hm. unfold u8_shl. rewrite Z.land_spec, testbit_255, bool_decide_eq_true_2, andb_true_r by lia.
  rewrite Z.shiftl_spec by lia. replace (Z.land (Z.b2z v) 1) with (Z.b2z v) by by destruct v.
  case_bool_decide as E.
  - subst. rewrite Z.sub_diag. by destruct v.
  - destruct (decide (m < off)); [by rewrite Z.testbit_neg_r by lia|].
    destruct v; [|apply Z.bits_0]. change (Z.b2z true) with (2 ^ 0).
    rewrite Z.pow2_bits_false by lia. done.
Qed.

Lemma set_bit_byte_testbit byte off v clear m :
  is_u8 byte -> 0 <= off < 8 -> 0 <= m < 8 ->
  Z.testbit (set_bit_byte byte off (Z.b2z v) clear) m =
  if bool_decide (m = off) then (negb clear && Z.testbit byte m) || v else Z.testbit byte m.
Proof.
  intros Hb Ho Hm. unfold set_bit_byte. rewrite Z.lor_spec, u8_shl_b2z_testbit by done.
  assert (Hc : Z.testbit (Z.land byte (u8_not (u8_shl 1 off))) m
             = negb (bool_decide (m = off)) && Z.testbit byte m).
  { rewrite Z.land_spec, u8_not_spec by done.
    pose proof (u8_shl_b2z_testbit true off m Ho Hm) as Hs.
    change (Z.land (Z.b2z true) 1) with 1 in Hs. rewrite Hs.
    by destruct (bool_decide (m = off)), (Z.testbit byte m). }
  destruct clear; rewrite ?Hc; case_bool_decide; simpl; by rewrite ?orb_false_r.
Qed.

Lemma set_bit_byte_u8 byte off v clear : is_u8 byte -> is_u8 (set_bit_byte byte off v clear).
Proof.
  intros Hb. pose proof Hb as [? ?]. unfold set_bit_byte. apply lor_u8.
  - destruct clear; [|done]. apply land_u8; [lia|]. apply u8_not_u8, u8_shl_u8. lia.
  - apply u8_shl_u8. apply Z.land_nonneg. lia.
Qed.

(** What setting one bit does to the value of the slice. *)
Lemma set_bit_checked_spec l k v clear :
  bytes l -> 0 <= k < 8 * len l ->
  exists l', set_bit_checked l (len l -sat k / 8 -sat 1) (k mod 8) (Z.b2z v) clear = Ok l' /\
    bytes l' /\ len l' = len l /\
    forall j, 0 <= j -> Z.testbit (be_val l') j =
      if decide (j = k) then (negb clear && Z.testbit (be_val l) k) || v
      else Z.testbit (be_val l) j.
Proof.
  intros Hl Hk. destruct (bit_byte_index _ _ Hk) as [Hi Hr].
  destruct (get_bit_byte l k Hk) as [b Hb]. rewrite Hi in *.
  pose proof (bytes_get _ _ _ Hl Hb) as Hu.
  assert (Hk8 : 0 <= k mod 8 < 8) by (apply Z.mod_pos_bound; lia).
  set (i := len l - 1 - k / 8) in *.
  exists (set l i (set_bit_byte b (k mod 8) (Z.b2z v) clear)).
  unfold set_bit_checked. rewrite Hb. split; [done|].
  assert (Hl' : bytes (set l i (set_bit_byte b (k mod 8) (Z.b2z v) clear)))
    by (by apply bytes_set; [|apply set_bit_byte_u8]).
  split; [done|]. split; [apply len_set|]. intros j Hj.
  destruct (decide (8 * len l <= j)) as [Hhi|Hlo].
  { rewrite decide_False by lia.
    by rewrite !be_val_testbit_high by (done || (rewrite ?len_set; lia)). }
  assert (Hj8 : 0 <= j mod 8 < 8) by (apply Z.mod_pos_bound; lia).
  destruct (bit_byte_index (len l) j ltac:(lia)) as [_ Hjr].
  destruct (decide (j / 8 = k / 8)) as [Ed|Ed].
  - rewrite (be_val_testbit _ j (set_bit_byte b (k mod 8) (Z.b2z v) clear))
      by (done || rewrite ?len_set; (lia || (rewrite Ed; by apply get_set_eq))).
    rewrite set_bit_byte_testbit by done.
    rewrite (be_val_testbit l j b) by (done || rewrite ?Ed; (lia || done)).
    rewrite (be_val_testbit l k b) by (done || lia).
    pose proof (Z.div_mod j 8 ltac:(lia)). pose proof (Z.div_mod k 8 ltac:(lia)).
    destruct (decide (j = k)) as [->|Hne].
    + by rewrite bool_decide_eq_true_2.
    + by rewrite bool_decide_eq_false_2 by lia.
  - rewrite decide_False by congruence.
    destruct (get_lt_is_Some l (len l - 1 - j / 8) Hjr) as [c Hc].
    rewrite (be_val_testbit l j c) by (done || lia).
    apply be_val_testbit; rewrite ?len_set; [done|lia| |lia].
    by rewrite get_set_ne by lia.
Qed.

(** ** [extract_bits] *)

(** [extract_bits] is the arithmetic bit-field read: shift right, then keep the
    low [bit_len] digits. *)
Lemma extract_bits_spec bit_len bit_pos data :
  bytes data -> 0 <= bit_pos <= 7 -> 0 < bit_len ->
  bit_pos + bit_len <= 8 * len data -> 8 * len data <= USIZE_MAX ->
  exists r, extract_bits bit_len bit_pos data = Ok r /\
    bytes r /\ len r = div_ceil bit_len 8 /\
    be_val r = (be_val data / 2 ^ bit_pos) mod 2 ^ bit_len.
Proof.
  intros Hd Hp Hn Hfit Hmax. unfold extract_bits.
  rewrite (proj2 (Z.ltb_ge 7 bit_pos)), (proj2 (Z.eqb_neq bit_len 0)) by lia.
  rewrite checked_add_some, checked_mul_some by lia. simpl.
  rewrite (proj2 (Z.ltb_ge _ _)) by lia.
  pose proof (div_ceil_spec bit_len 8 ltac:(lia)) as Hc.
  set (n := div_ceil bit_len 8) in *.
  match goal with |- context [for_range 0 bit_len ?b ?s] =>
    destruct (for_range_total (fun i r => bytes r /\ len r = n /\
       forall k, 0 <= k -> Z.testbit (be_val r) k
                         = bool_decide (k < i) && Z.testbit (be_val data) (bit_pos + k))
       b 0 bit_len s) as (r & Hr & Hb & Hl & Ht); [lia| | |]
  end.
  - split; [apply bytes_vec_of|]. split; [apply len_vec_of; lia|]. intros k Hk.
    unfold vec_of. rewrite be_val_zeros, Z.bits_0, bool_decide_eq_false_2 by lia. done.
  - intros i r Hi (Hb & Hl & Ht). rewrite checked_add_some by lia. simpl.
    destruct (get_bit_byte data (bit_pos + i) ltac:(lia)) as [b Hg]. rewrite Hg. simpl.
    rewrite (bit_of_get data) by (done || lia).
    destruct (set_bit_checked_spec r i (Z.testbit (be_val data) (bit_pos + i)) false Hb
                ltac:(lia)) as (r' & Hs & Hb' & Hl' & Ht').
    rewrite <- Hl, Hs. simpl. exists r'. split; [done|]. split; [done|].
    split; [lia|]. intros k Hk. rewrite Ht' by done. case_decide; subst.
    + rewrite Ht, bool_decide_eq_false_2, bool_decide_eq_true_2 by lia. done.
    + rewrite Ht by done. f_equal. apply bool_decide_ext. lia.
  - exists r. split; [done|]. split; [done|]. split; [done|].
    apply be_val_bits_inj. intros k Hk. rewrite Ht by done. case_bool_decide.
    + rewrite Z.mod_pow2_bits_low, Z.div_pow2_bits by lia. simpl. f_equal. lia.
    + rewrite Z.mod_pow2_bits_high by lia. done.
Qed.

(** Its error branches. *)
Lemma extract_bits_err bit_len bit_pos data :
  0 <= bit_len -> 0 <= bit_pos ->
  7 < bit_pos \/ bit_len = 0 \/ 8 * len data < bit_pos + bit_len ->
  extract_bits bit_len bit_pos data = Err BadPayload.
Proof.
  intros Hn Hp Hbad. unfold extract_bits.
  destruct (Z.ltb_spec 7 bit_pos); [done|].
  destruct (Z.eqb_spec bit_len 0); [done|].
  destruct (checked_add bit_pos bit_len) as [a|] eqn:Ha; [|done].
  destruct (checked_mul (len data) 8) as [m|] eqn:Hm; [|done]. simpl.
  unfold checked_add, checked_mul in *.
  destruct (bit_pos + bit_len <=? USIZE_MAX), (len data * 8 <=? USIZE_MAX); simplify_eq.
  rewrite (proj2 (Z.ltb_lt _ _)) by lia. done.
Qed.
