(* ===== verification/DiagCodedType.v ===== *)
(** * Coded types: bits of a UDS payload to parameter bytes and back

    cda-database/src/datatypes/diag_coded_type.rs.  [decode] reads the bytes of
    one parameter out of a received payload, [encode] injects the bytes of one
    parameter into a payload under construction.  Both are translated with
    their helpers ([unpack_data], [pack_data], [inject_bits], the two mask
    functions, byte-order normalisation and the four length rules).
    The theorems about them are in CodedBits.v and CodedCodec.v. *)

From S2P Require Import Prelude Bytes Errors Text BitOps.
From stdpp Require Export strings.

Local Open Scope Z_scope.
Local Open Scope rust_scope.

(** ** Data *)

Inductive DataType : Type :=
  | Int32
  | UInt32
  | Float32
  | AsciiString
  | Utf8String
  | Unicode2String
  | ByteField
  | Float64.

#[export] Instance DataType_eq_dec : EqDecision DataType.
Proof. solve_decision. Defined.

Inductive Termination : Type := EndOfPdu | Zero | HexFF.

#[export] Instance Termination_eq_dec : EqDecision Termination.
Proof. solve_decision. Defined.

Record MinMaxLengthType : Type := {
  min_length : Z;
  max_length : option Z;
  termination : Termination }.

Record StandardLengthType : Type := {
  bit_length : Z;
  bit_mask : option (list Z);
  condensed : bool }.

Inductive DiagCodedTypeVariant : Type :=
  | LeadingLengthInfo (bits : Z)
  | MinMaxLength (mmlt : MinMaxLengthType)
  | StandardLength (slt : StandardLengthType)
  | ParamLengthInfo (name : str).

Record DiagCodedType : Type := {
  base_datatype : DataType;
  type_ : DiagCodedTypeVariant;
  is_high_low_byte_order : bool }.

Inductive ByteOrder : Type := Keep | ReorderPairs | Reverse.
Inductive DataAlignment : Type := Right | Left.

Record Mask : Type := { mask_data : list Z; mask_condensed : bool }.

(** ** Validation *)

Definition is_byte_sequential (t : DataType) : bool :=
  match t with
  | Unicode2String | ByteField | AsciiString | Utf8String => true
  | _ => false
  end.

Definition validate_bit_len (self : DataType) (bit_len : Z) : dresult () :=
  if bit_len =? 0 then Err BadPayload
  else if (match self with Int32 | UInt32 => true | _ => false end) && (64 <? bit_len)
  then Err BadPayload
  else if bool_decide (Float32 = self) && negb (bit_len =? 32) then Err BadPayload
  else if bool_decide (Float64 = self) && negb (bit_len =? 64) then Err BadPayload
  else if bool_decide (Unicode2String = self) && negb (is_multiple_of bit_len 16)
  then Err BadPayload
  else Ok ().

Definition validate_bit_pos (self : DiagCodedType) (bit_pos : Z) : dresult () :=
  if is_byte_sequential self.(base_datatype) && negb (bit_pos =? 0)
  then Err BadPayload else Ok ().

Definition byte_order (self : DiagCodedType) : ByteOrder :=
  if self.(is_high_low_byte_order) then Keep
  else match self.(base_datatype) with
       | Unicode2String => ReorderPairs
       | ByteField | AsciiString | Utf8String => Keep
       | _ => Reverse
       end.

(** ** Construction *)

Definition MinMaxLengthType_new (min_len : Z) (max_len : option Z) (term : Termination)
    : dresult MinMaxLengthType :=
  _ ← match max_len with
      | Some m =>
          if m =? 0 then Err BadPayload
          else if m <? min_len then Err BadPayload
          else Ok ()
      | None => Ok ()
      end;
  Ok {| min_length := min_len; max_length := max_len; termination := term |}.

Definition DiagCodedType_new (base : DataType) (variant : DiagCodedTypeVariant)
    (high_low : bool) : dresult DiagCodedType :=
  _ ← match variant with
      | LeadingLengthInfo _ | MinMaxLength _ =>
          if negb (is_byte_sequential base) then Err InvalidDatabase
          else match variant with
               | MinMaxLength mmlt =>
                   if bool_decide (base = Unicode2String)
                      && (negb (is_multiple_of mmlt.(min_length) 2)
                          || negb (match mmlt.(max_length) with
                                   | Some l => is_multiple_of l 2
                                   | None => false
                                   end))
                   then Err BadPayload else Ok ()
               | _ => Ok ()
               end
      | StandardLength _ | ParamLengthInfo _ => Ok ()
      end;
  Ok {| base_datatype := base; type_ := variant; is_high_low_byte_order := high_low |}.

Definition new_high_low_byte_order (base : DataType) (variant : DiagCodedTypeVariant) :=
  DiagCodedType_new base variant true.

Definition bit_len (self : DiagCodedType) : option Z :=
  match self.(type_) with
  | LeadingLengthInfo bits => Some bits
  | MinMaxLength _ => None
  | StandardLength slt => Some slt.(bit_length)
  | ParamLengthInfo _ => None
  end.

Definition length_key_name (self : DiagCodedType) : option str :=
  match self.(type_) with
  | ParamLengthInfo name => Some name
  | _ => None
  end.

(** ** Construction from the database

    The generated FlatBuffers table is the record of its accessors' results;
    enums are the generated numeric constants. *)

Record fb_StandardLengthType : Type := {
  fb_sl_bit_length : Z;
  fb_sl_bit_mask : option (list Z);
  fb_sl_condensed : bool }.

Record fb_MinMaxLengthType : Type := {
  fb_mm_min_length : Z;
  fb_mm_max_length : option Z;
  fb_mm_termination : Z }.

(** A parameter reference: its SHORT-NAME. *)
Record fb_Param : Type := { fb_short_name : option str }.

Record fb_DiagCodedType : Type := {
  fb_base_data_type : Z;
  fb_is_high_low_byte_order : bool;
  fb_specific_data_type : Z;
  fb_as_leading_length_info_type : option Z;
  fb_as_min_max_length_type : option fb_MinMaxLengthType;
  fb_as_param_length_info_type : option (option fb_Param);
  fb_as_standard_length_type : option fb_StandardLengthType }.

Definition DataType_try_from (value : Z) : dresult DataType :=
  match value with
  | 1 => Ok UInt32
  | 0 => Ok Int32
  | 2 => Ok Float32
  | 7 => Ok Float64
  | 3 => Ok AsciiString
  | 4 => Ok Utf8String
  | 5 => Ok Unicode2String
  | 6 => Ok ByteField
  | _ => Err InvalidDatabase
  end.

Definition Termination_try_from (value : Z) : dresult Termination :=
  match value with
  | 0 => Ok EndOfPdu
  | 1 => Ok Zero
  | 2 => Ok HexFF
  | _ => Err InvalidDatabase
  end.

Definition DiagCodedTypeVariant_try_from (value : fb_DiagCodedType)
    : dresult DiagCodedTypeVariant :=
  match value.(fb_specific_data_type) with
  | 4 =>
      ok_or
        ((fun s => StandardLength {| bit_length := s.(fb_sl_bit_length);
                                     bit_mask := s.(fb_sl_bit_mask);
                                     condensed := s.(fb_sl_condensed) |})
           <$> value.(fb_as_standard_length_type))
        InvalidDatabase
  | 1 => ok_or (LeadingLengthInfo <$> value.(fb_as_leading_length_info_type)) InvalidDatabase
  | 2 =>
      m ← ok_or value.(fb_as_min_max_length_type) InvalidDatabase;
      term ← Termination_try_from m.(fb_mm_termination);
      MinMaxLength <$> MinMaxLengthType_new m.(fb_mm_min_length) m.(fb_mm_max_length) term
  | 3 =>
      length_key ← ok_or value.(fb_as_param_length_info_type) InvalidDatabase;
      length_key_param ← ok_or length_key InvalidDatabase;
      key_name ← ok_or length_key_param.(fb_short_name) InvalidDatabase;
      Ok (ParamLengthInfo key_name)
  | _ => Err InvalidDatabase
  end.

Definition DiagCodedType_try_from (value : fb_DiagCodedType) : dresult DiagCodedType :=
  base ← DataType_try_from value.(fb_base_data_type);
  variant ← DiagCodedTypeVariant_try_from value;
  Ok {| base_datatype := base; type_ := variant;
        is_high_low_byte_order := value.(fb_is_high_low_byte_order) |}.

(** ** Bit-level helpers *)

Fixpoint swap_pairs (l : list Z) : list Z :=
  match l with
  | a :: b :: t => b :: a :: swap_pairs t
  | _ => l
  end.

Definition normalize_byte_order (data : list Z) (order : ByteOrder) : list Z :=
  match order with
  | Keep => data
  | ReorderPairs => swap_pairs data
  | Reverse => reverse data
  end.

Definition inject_bits (bit_len bit_pos : Z) (dst_data source_data : list Z)
    : dresult (list Z) :=
  if 7 <? bit_pos then Err BadPayload
  else if bit_len =? 0 then Err BadPayload
  else
    let byte_count := div_ceil (bit_pos +sat bit_len) 8 in
    snd <$> for_range 0 (Z.min bit_len (len source_data *sat 8))
      (fun i '(bit_pos, dst_data) =>
         let src_byte_index := len source_data -sat i / 8 -sat 1 in
         let src_bit_offset := i mod 8 in
         byte ← ok_or (get source_data src_byte_index) BadPayload;
         let bit_value := bit_of byte src_bit_offset in
         let dst_byte_index := byte_count -sat 1 -sat bit_pos / 8 in
         let dst_bit_offset := bit_pos mod 8 in
         if len dst_data <=? dst_byte_index then Ok (Break (bit_pos, dst_data))
         else
           dst_data' ← set_bit_checked dst_data dst_byte_index dst_bit_offset bit_value false;
           Ok (Continue (bit_pos +sat 1, dst_data')))
      (bit_pos, dst_data).

(** [slice.get(i).map_or(0, |&byte| (byte >> off) & 1)]. *)
Definition bit_or_zero (l : list Z) (i off : Z) : Z :=
  match get l i with Some byte => bit_of byte off | None => 0 end.

Definition apply_bit_mask (data mask : list Z) (bit_len bit_pos : Z) : dresult (list Z) :=
  for_range 0 bit_len
    (fun i data =>
       if len data *sat 8 <=? bit_pos +sat i then Ok (Break data)
       else
         let mask_byte_idx := len mask -sat i / 8 -sat 1 in
         let mask_bit_pos := i mod 8 in
         let mask_bit := bit_or_zero mask mask_byte_idx mask_bit_pos in
         let data_byte_idx := len data -sat (bit_pos +sat i) / 8 -sat 1 in
         let data_bit_pos := (bit_pos +sat i) mod 8 in
         let data_bit := bit_or_zero data data_byte_idx data_bit_pos in
         data' ← set_bit_checked data data_byte_idx data_bit_pos
                   (Z.land data_bit mask_bit) true;
         Ok (Continue data'))
    data.

Definition apply_condensed_mask_unpacking (bit_mask bit_field : list Z) (bit_len : Z)
    : dresult (list Z * Z) :=
  let max_bits := Z.min (foldr (fun byte n => count_ones byte + n) 0 bit_mask) bit_len in
  if max_bits =? 0 then Ok ([], 0)
  else
    let result_byte_count := div_ceil max_bits 8 in
    '(extracted_bits_count, result_bytes) ←
      for_range 0 bit_len
        (fun i '(extracted_bits_count, result_bytes) =>
           let src_byte_index := len bit_field -sat i / 8 -sat 1 in
           let src_bit_offset := i mod 8 in
           if src_byte_index <? len bit_mask then
             let mask_bit := bit_or_zero bit_mask src_byte_index src_bit_offset in
             if mask_bit =? 1 then
               let bit_value := bit_or_zero bit_field src_byte_index src_bit_offset in
               let target_byte_index :=
                 result_byte_count -sat extracted_bits_count / 8 -sat 1 in
               let target_bit_offset := extracted_bits_count mod 8 in
               result_bytes' ← set_bit_checked result_bytes target_byte_index
                                 target_bit_offset bit_value false;
               Ok (Continue (extracted_bits_count +sat 1, result_bytes'))
             else Ok (Continue (extracted_bits_count, result_bytes))
           else Ok (Continue (extracted_bits_count, result_bytes)))
        (0, vec_of result_byte_count 0);
    let used := div_ceil extracted_bits_count 8 in
    let result_bytes :=
      if used <? len result_bytes then drop (Z.to_nat used) result_bytes else result_bytes in
    Ok (result_bytes, max_bits).

(** The source's [loop] ends exactly when [mask_bit_idx] reaches
    [mask.len().saturating_mul(8)] and advances it by one per iteration. *)
Definition apply_condensed_mask_packing (data mask : list Z) (bit_pos : Z)
    : dresult (list Z * Z) :=
  let mask_bits := len mask *sat 8 in
  '(_, result) ←
    for_range 0 mask_bits
      (fun mask_bit_idx '(data_bit_idx, result) =>
         let mask_byte_idx := len mask -sat mask_bit_idx / 8 -sat 1 in
         let mask_bit_pos := mask_bit_idx mod 8 in
         let mask_bit := bit_or_zero mask mask_byte_idx mask_bit_pos in
         if (mask_bit =? 1) && (data_bit_idx <? len data *sat 8) then
           let data_byte_idx := len data -sat (bit_pos +sat data_bit_idx) / 8 -sat 1 in
           let data_bit_pos := (bit_pos +sat data_bit_idx) mod 8 in
           let data_bit := bit_or_zero data data_byte_idx data_bit_pos in
           result' ← set_bit_checked result mask_byte_idx mask_bit_pos data_bit true;
           Ok (Continue (data_bit_idx +sat 1, result'))
         else Ok (Continue (data_bit_idx, result)))
      (0, mask);
  Ok (result, mask_bits).

Definition unpack_data (bit_len bit_pos : Z) (mask : option Mask) (data : list Z)
    (order : ByteOrder) : dresult (list Z * Z) :=
  let data := normalize_byte_order data order in
  bit_data ← extract_bits bit_len bit_pos data;
  match mask with
  | Some mask =>
      if mask.(mask_condensed)
      then apply_condensed_mask_unpacking mask.(mask_data) bit_data bit_len
      else
        bit_data' ← apply_bit_mask bit_data mask.(mask_data) bit_len bit_pos;
        Ok (bit_data', bit_len)
  | None => Ok (bit_data, bit_len)
  end.

(** ** Packing *)

(** [l[start..start + src.len()].copy_from_slice(src)]. *)
Definition copy_from_slice (l : list Z) (start : Z) (src : list Z) : list Z :=
  take (Z.to_nat start) l ++ src ++ drop (Z.to_nat start + length src) l.

Definition clear_bits_above_bit_len (bit_length : Z) (result : list Z) : list Z :=
  let remainder := bit_length mod 8 in
  if negb (remainder =? 0) then
    let last_byte_idx := bit_length / 8 in
    match get result last_byte_idx with
    | Some last_byte =>
        let mask_byte := u8_shl 1 remainder - 1 in
        set result last_byte_idx (Z.land last_byte mask_byte)
    | None => result
    end
  else result.

Definition checked_copy_aligned (data result : list Z) (copy_bytes start_idx : Z)
    (alignment : DataAlignment) : dresult (list Z) :=
  _ ← ok_or (slice result start_idx (start_idx +sat copy_bytes)) BadPayload;
  src ← ok_or
    match alignment with
    | Right => slice data (len data -sat copy_bytes) (len data)
    | Left => slice data 0 copy_bytes
    end BadPayload;
  Ok (copy_from_slice result start_idx src).

(** The copy both the masked and the unmasked branch of [pack_data] make. *)
Definition pack_aligned (bit_len : Z) (data : list Z) (alignment : DataAlignment)
    : dresult (list Z) :=
  let result_byte_len := div_ceil bit_len 8 in
  let result := vec_of result_byte_len 0 in
  let copy_bytes := Z.min (len data) result_byte_len in
  let start_idx :=
    match alignment with
    | Right => result_byte_len -sat copy_bytes
    | Left => 0
    end in
  result ← checked_copy_aligned data result copy_bytes start_idx alignment;
  Ok (clear_bits_above_bit_len bit_len result).

Definition pack_data (bit_len bit_pos : Z) (mask : option Mask) (data : list Z)
    (alignment : DataAlignment) : dresult (list Z * Z) :=
  if bit_len =? 0 then Err BadPayload
  else
    match mask with
    | Some mask =>
        if mask.(mask_condensed)
        then apply_condensed_mask_packing data mask.(mask_data) bit_pos
        else
          result ← pack_aligned bit_len data alignment;
          result' ← apply_bit_mask result mask.(mask_data) bit_len bit_pos;
          Ok (result', bit_len)
    | None =>
        result ← pack_aligned bit_len data alignment;
        Ok (result, bit_len)
    end.

(** ** Decoding *)

Definition usize_from_bytes (length_info_bytes : list Z) : dresult Z :=
  match length_info_bytes with
  | [b0] => Ok b0
  | [b0; b1] => Ok (be_val [b0; b1])
  | [b0; b1; b2] => Ok (be_val [0; b0; b1; b2])
  | [b0; b1; b2; b3] => Ok (be_val [b0; b1; b2; b3])
  | [_; _; _; _; _] => Ok (be_val (replicate 3 0 ++ length_info_bytes))
  | [_; _; _; _; _; _] => Ok (be_val (replicate 2 0 ++ length_info_bytes))
  | [_; _; _; _; _; _; _] => Ok (be_val (replicate 1 0 ++ length_info_bytes))
  | [_; _; _; _; _; _; _; _] => Ok (be_val length_info_bytes)
  | _ => Err BadPayload
  end.

(** Bit length, start byte and mask of the field to read. *)
Definition pos_info : Type := Z * Z * option Mask.

Definition pos_info_standard_len (self : DiagCodedType) (byte_pos : Z)
    (slt : StandardLengthType) : dresult pos_info :=
  _ ← validate_bit_len self.(base_datatype) slt.(bit_length);
  let mask :=
    (fun m => {| mask_data := m; mask_condensed := slt.(condensed) |}) <$> slt.(bit_mask) in
  Ok (slt.(bit_length), byte_pos, mask).

(** The scan for a terminator: one byte at a time, or two for UTF-16.  [found]
    is the body's test for leaving the loop. *)
Definition scan_terminator (step max_end byte_pos : Z) (found : Z -> bool) : Z :=
  while_loop (Z.to_nat (max_end - byte_pos))
    (fun end_pos => (end_pos <? max_end) && negb (found end_pos))
    (fun end_pos => end_pos +sat step) byte_pos.

Definition byte_is (l : list Z) (i v : Z) : bool :=
  match get l i with Some b => b =? v | None => false end.

(** The exit test of the scan for the terminator byte [v]. *)
Definition terminator_found (unicode : bool) (uds_payload : list Z)
    (byte_pos min_len v end_pos : Z) : bool :=
  (min_len <=? end_pos -sat byte_pos)
  && (negb unicode || (end_pos +sat 1 <? len uds_payload))
  && byte_is uds_payload end_pos v
  && (negb unicode || byte_is uds_payload (end_pos +sat 1) v).

Definition pos_info_min_max_len (self : DiagCodedType) (uds_payload : list Z)
    (byte_pos : Z) (mmlt : MinMaxLengthType) : dresult pos_info :=
  let max_end :=
    match mmlt.(max_length) with
    | Some max_length => Z.min (byte_pos +sat max_length) (len uds_payload)
    | None => len uds_payload
    end in
  let unicode := bool_decide (self.(base_datatype) = Unicode2String) in
  let step := if unicode then 2 else 1 in
  let scan v :=
    scan_terminator step max_end byte_pos
      (terminator_found unicode uds_payload byte_pos mmlt.(min_length) v) in
  end_pos ←
    match mmlt.(termination) with
    | EndOfPdu => Ok max_end
    | Zero => let e := scan 0 in if len uds_payload <? e then Err BadPayload else Ok e
    | HexFF => Ok (scan 255)
    end;
  let length := end_pos -sat byte_pos in
  if length <? mmlt.(min_length)
  then Err (NotEnoughData (byte_pos +sat mmlt.(min_length)) (len uds_payload))
  else Ok ((end_pos -sat byte_pos) *sat 8, byte_pos, None).

Definition pos_info_leading_len (self : DiagCodedType) (uds_payload : list Z)
    (byte_pos bit_pos : Z) (order : ByteOrder) (bits : Z) : dresult pos_info :=
  _ ← validate_bit_len self.(base_datatype) bits;
  field ← ok_or (slice uds_payload byte_pos (byte_pos +sat div_ceil bits 8)) BadPayload;
  '(length_info_bytes, _) ← unpack_data bits bit_pos None field order;
  length ← usize_from_bytes length_info_bytes;
  let start_pos := byte_pos +sat len length_info_bytes in
  let end_pos := start_pos +sat length in
  if len uds_payload <? end_pos
  then Err (NotEnoughData end_pos (len uds_payload))
  else Ok ((end_pos -sat start_pos) *sat 8, start_pos, None).

(** The [match self.type_] of [decode]. *)
Definition field_position (self : DiagCodedType) (uds_payload : list Z)
    (byte_pos bit_pos : Z) : dresult pos_info :=
  match self.(type_) with
  | LeadingLengthInfo bits =>
      pos_info_leading_len self uds_payload byte_pos bit_pos (byte_order self) bits
  | MinMaxLength mmlt => pos_info_min_max_len self uds_payload byte_pos mmlt
  | StandardLength slt => pos_info_standard_len self byte_pos slt
  | ParamLengthInfo _ => Err InvalidDatabase
  end.

Definition decode (self : DiagCodedType) (uds_payload : list Z) (byte_pos bit_pos : Z)
    : dresult (list Z * Z) :=
  _ ← validate_bit_pos self bit_pos;
  '(bit_len, start_pos, mask) ← field_position self uds_payload byte_pos bit_pos;
  if bit_len =? 0 then Ok ([], 0)
  else
    let end_pos := start_pos +sat div_ceil bit_len 8 in
    if len uds_payload <? end_pos then Err (NotEnoughData end_pos (len uds_payload))
    else
      data ← ok_or (slice uds_payload start_pos end_pos) BadPayload;
      unpack_data bit_len bit_pos mask data (byte_order self).

Definition decode_with_runtime_byte_length (uds_payload : list Z) (byte_pos byte_count : Z)
    : dresult (list Z * Z) :=
  if byte_count =? 0 then Ok ([], 0)
  else
    let end_pos := byte_pos +sat byte_count in
    if len uds_payload <? end_pos then Err (NotEnoughData end_pos (len uds_payload))
    else Ok (default [] (slice uds_payload byte_pos end_pos), byte_count *sat 8).

(** ** Encoding *)

(** [usize << n]: the shift amount is taken modulo the width, the release
    behaviour of the operator. *)
Definition usize_shl (x n : Z) : Z := (x * 2 ^ (n mod 64)) mod 2 ^ 64.

(** Packed bytes, their bit length and the mask protecting the payload. *)
Definition packed : Type := list Z * Z * option Mask.

Definition pack_leading_length (bit_len : Z) (input_data : list Z) : dresult packed :=
  let len_byte_count := div_ceil bit_len 8 in
  let len_bit_len := len_byte_count *sat 8 in
  length_info ← ok_or
    (slice (be_bytes 8 (usize_shl (len input_data) (64 -sat len_bit_len))) 0 len_byte_count)
    BadPayload;
  if bool_decide (length_info = []) then Err BadPayload
  else
    let data := length_info ++ input_data in
    '(bytes, n) ← pack_data (len data *sat 8) 0 None data Left;
    Ok (bytes, n, None).

Definition terminator_bytes (self : DiagCodedType) (term : Termination) : list Z :=
  let is_unicode := bool_decide (self.(base_datatype) = Unicode2String) in
  match term with
  | EndOfPdu => []
  | Zero => if is_unicode then [0; 0] else [0]
  | HexFF => if is_unicode then [255; 255] else [255]
  end.

Definition pack_min_max (self : DiagCodedType) (mmlt : MinMaxLengthType)
    (input_data : list Z) : dresult packed :=
  let input_data := input_data ++ terminator_bytes self mmlt.(termination) in
  '(bytes, n) ← pack_data (len input_data *sat 8) 0 None input_data Left;
  Ok (bytes, n, None).

Definition standard_alignment (t : DataType) : DataAlignment :=
  if is_byte_sequential t then Left else Right.

Definition pack_standard_length (self : DiagCodedType) (slt : StandardLengthType)
    (input_data : list Z) : dresult packed :=
  _ ← validate_bit_len self.(base_datatype) slt.(bit_length);
  let mask :=
    m ← slt.(bit_mask);
    if bool_decide (m = []) then None
    else Some {| mask_data := m; mask_condensed := slt.(condensed) |} in
  '(bytes, n) ← pack_data slt.(bit_length) 0 mask input_data
                  (standard_alignment self.(base_datatype));
  if slt.(bit_length) <? n then Err BadPayload else Ok (bytes, n, mask).

(** [None]: nothing to write (an empty PARAM-LENGTH-INFO field). *)
Definition pack_input (self : DiagCodedType) (input_data : list Z)
    : dresult (option packed) :=
  match self.(type_) with
  | LeadingLengthInfo bit_len => Some <$> pack_leading_length bit_len input_data
  | MinMaxLength mmlt => Some <$> pack_min_max self mmlt input_data
  | StandardLength slt => Some <$> pack_standard_length self slt input_data
  | ParamLengthInfo _ =>
      let bit_len := len input_data *sat 8 in
      if bit_len =? 0 then Ok None
      else
        '(bytes, n) ← pack_data bit_len 0 None input_data Left;
        Ok (Some (bytes, n, None))
  end.

(** [Vec::resize] to a larger length. *)
Definition grow (l : list Z) (n : Z) : list Z := l ++ vec_of (n - len l) 0.

(** The bytes of the PDU the packed bits go into, rewritten. *)
Definition write_cut_out (self : DiagCodedType) (cut_out : list Z) (p : packed)
    (bit_pos : Z) : dresult (list Z) :=
  let '(packed_bytes, bit_len, mask) := p in
  let cut_out := normalize_byte_order cut_out (byte_order self) in
  cut_out ←
    match mask with
    | Some mask => apply_bit_mask cut_out (u8_not <$> mask.(mask_data)) bit_len bit_pos
    | None => Ok cut_out
    end;
  cut_out ← inject_bits bit_len bit_pos cut_out packed_bytes;
  Ok (normalize_byte_order cut_out (byte_order self)).

(** [encode] with the payload it leaves behind, on success and on failure. *)
Definition encode (self : DiagCodedType) (input_data : list Z) (uds_payload : list Z)
    (byte_pos bit_pos : Z) : list Z * dresult () :=
  match (_ ← validate_bit_pos self bit_pos; pack_input self input_data) with
  | Err e => (uds_payload, Err e)
  | Ok None => (uds_payload, Ok ())
  | Ok (Some p) =>
      let '(_, bit_len, _) := p in
      let byte_count := div_ceil (bit_pos +sat bit_len) 8 in
      let stop := byte_pos +sat byte_count in
      let uds_payload := if len uds_payload <? stop then grow uds_payload stop else uds_payload in
      match (cut_out ← ok_or (slice uds_payload byte_pos stop) BadPayload;
             write_cut_out self cut_out p bit_pos) with
      | Err e => (uds_payload, Err e)
      | Ok cut_out => (copy_from_slice uds_payload byte_pos cut_out, Ok ())
      end
  end.
