(* ===== verification/CodedBits.v ===== *)
(** * What the bit-level helpers of coded types compute

    Each loop of DiagCodedType.v against arithmetic on the big-endian value of
    its slices: injection is a bitwise or of a shifted field, masking clears
    the digits whose mask digit is 0, packing truncates, byte-order
    normalisation is an involution. *)

From S2P Require Import Prelude Bytes Errors BitOps DiagCodedType.

Local Open Scope Z_scope.
Local Open Scope rust_scope.

(** ** Byte order *)

Lemma swap_pairs_ind (P : list Z -> Prop) :
  P [] -> (forall a, P [a]) -> (forall a b t, P t -> P (a :: b :: t)) -> forall l, P l.
Proof.
  intros H0 H1 H2. fix IH 1. intros [|a [|b t]]; [done|done|]. apply H2, IH.
Qed.

Lemma swap_pairs_involutive l : swap_pairs (swap_pairs l) = l.
Proof. induction l as [| |a b t IH] using swap_pairs_ind; simpl; congruence. Qed.

Lemma swap_pairs_perm l : swap_pairs l ≡ₚ l.
Proof.
  induction l as [| |a b t IH] using swap_pairs_ind; [done..|]. simpl. rewrite IH.
  constructor.
Qed.

Lemma normalize_involutive l o : normalize_byte_order (normalize_byte_order l o) o = l.
Proof.
  destruct o; simpl; [done|apply swap_pairs_involutive|apply reverse_involutive].
Qed.

Lemma normalize_perm l o : normalize_byte_order l o ≡ₚ l.
Proof. destruct o; simpl; [done|apply swap_pairs_perm|apply reverse_Permutation]. Qed.

Lemma normalize_len l o : len (normalize_byte_order l o) = len l.
Proof. unfold len. f_equal. apply Permutation_length, normalize_perm. Qed.

Lemma normalize_bytes l o : bytes l -> bytes (normalize_byte_order l o).
Proof. unfold bytes. by rewrite normalize_perm. Qed.

Lemma normalize_zeros n o : normalize_byte_order (replicate n 0) o = replicate n 0.
Proof.
  destruct o; simpl; [done| |apply reverse_replicate].
  induction n as [n IH] using lt_wf_ind. destruct n as [|[|n]]; [done..|].
  simpl. rewrite IH by lia. done.
Qed.

#[export] Hint Resolve normalize_bytes : bytes.
#[export] Hint Rewrite normalize_len : len.

(** ** Injection *)

(** The cut-out receives the low [bit_len] digits of the source at [bit_pos],
    or-ed into what it holds. *)
Lemma inject_bits_spec bit_len bit_pos dst src :
  bytes dst -> bytes src -> 0 <= bit_pos <= 7 -> 0 < bit_len ->
  len dst = div_ceil (bit_pos + bit_len) 8 ->
  bit_pos + bit_len <= USIZE_MAX -> 8 * len src <= USIZE_MAX ->
  exists r, inject_bits bit_len bit_pos dst src = Ok r /\ bytes r /\ len r = len dst /\
    be_val r = Z.lor (be_val dst) (Z.shiftl (be_val src mod 2 ^ bit_len) bit_pos).
Proof.
  intros Hd Hs Hp Hn Hlen Hmax Hsrc. unfold inject_bits.
  rewrite (proj2 (Z.ltb_ge 7 bit_pos)), (proj2 (Z.eqb_neq bit_len 0)) by lia.
  rewrite sat_add_exact, sat_mul_exact by lia.
  pose proof (div_ceil_spec (bit_pos + bit_len) 8 ltac:(lia)) as Hc. rewrite <- Hlen in *.
  set (h := Z.min bit_len (len src * 8)).
  match goal with |- context [for_range 0 h ?b ?s] =>
    destruct (for_range_total (fun i '(p, r) => p = bit_pos + i /\ bytes r /\ len r = len dst /\
       forall k, 0 <= k -> Z.testbit (be_val r) k = Z.testbit (be_val dst) k ||
          (bool_decide (bit_pos <= k < bit_pos + i) && Z.testbit (be_val src) (k - bit_pos)))
       b 0 h s) as ([p r] & Hr & -> & Hb & Hl & Ht)
  end; [pose proof (len_nonneg src); lia| | |].
  - split; [lia|]. split; [done|]. split; [done|]. intros k Hk.
    by rewrite bool_decide_eq_false_2, orb_false_r by lia.
  - intros i [p r] Hi (-> & Hb & Hl & Ht).
    destruct (get_bit_byte src i ltac:(lia)) as [b Hg]. rewrite Hg. simpl.
    rewrite (bit_of_get src) by (done || lia).
    destruct (bit_byte_index (len dst) (bit_pos + i) ltac:(lia)) as [Hix Hrg].
    replace (len dst -sat 1 -sat (bit_pos + i) / 8)
      with (len r -sat (bit_pos + i) / 8 -sat 1) by (rewrite Hl; unfold sat_sub in *; lia).
    rewrite (proj2 (Z.leb_gt _ _)) by (rewrite Hl, Hix; lia).
    destruct (set_bit_checked_spec r (bit_pos + i) (Z.testbit (be_val src) i) false Hb
                ltac:(lia)) as (r' & Hset & Hb' & Hl' & Ht').
    rewrite Hset. simpl. rewrite sat_add_exact by lia.
    eexists. split; [done|]. split; [lia|]. split; [done|]. split; [lia|].
    intros k Hk. rewrite Ht' by done. case_decide as E.
    + subst k. rewrite Ht, bool_decide_eq_false_2, bool_decide_eq_true_2 by lia. simpl.
      rewrite orb_false_r. do 2 f_equal. lia.
    + rewrite Ht by done. do 2 f_equal. apply bool_decide_ext. lia.
  - rewrite Hr. exists r. split; [done|]. split; [done|]. split; [done|].
    apply be_val_bits_inj. intros k Hk. rewrite Ht, Z.lor_spec by done. f_equal.
    rewrite Z.shiftl_spec by done.
    destruct (decide (k < bit_pos)).
    { by rewrite bool_decide_eq_false_2, !Z.testbit_neg_r by lia. }
    destruct (decide (k - bit_pos < bit_len)).
    + rewrite Z.mod_pow2_bits_low by lia. case_bool_decide; [done|].
      symmetry. apply be_val_testbit_high; [done|lia].
    + by rewrite Z.mod_pow2_bits_high, bool_decide_eq_false_2 by lia.
Qed.

(** ** Masks *)

Lemma bit_or_zero_spec l k :
  bytes l -> 0 <= k < 8 * len l ->
  bit_or_zero l (len l -sat k / 8 -sat 1) (k mod 8) = Z.b2z (Z.testbit (be_val l) k).
Proof.
  intros Hl Hk. unfold bit_or_zero. destruct (get_bit_byte l k Hk) as [b Hg].
  rewrite Hg. by apply bit_of_get.
Qed.

Lemma land_b2z a b : Z.land (Z.b2z a) (Z.b2z b) = Z.b2z (a && b).
Proof. by destruct a, b. Qed.

(** A mask that covers the field clears the digits of the field whose mask
    digit is 0, and leaves the digits outside the field alone. *)
Lemma apply_bit_mask_spec data mask bit_len bit_pos :
  bytes data -> bytes mask -> 0 <= bit_pos -> 0 <= bit_len <= 8 * len mask ->
  bit_pos + bit_len <= USIZE_MAX -> 8 * len data <= USIZE_MAX ->
  exists r, apply_bit_mask data mask bit_len bit_pos = Ok r /\ bytes r /\ len r = len data /\
    forall k, 0 <= k -> Z.testbit (be_val r) k = Z.testbit (be_val data) k &&
      (bool_decide (k < bit_pos \/ bit_pos + bit_len <= k)
       || Z.testbit (be_val mask) (k - bit_pos)).
Proof.
  intros Hd Hm Hp Hn Hmax Hdm. unfold apply_bit_mask.
  match goal with |- context [for_range 0 bit_len ?b ?s] =>
    destruct (for_range_inv (fun i r => bytes r /\ len r = len data /\
       forall k, 0 <= k -> Z.testbit (be_val r) k = Z.testbit (be_val data) k &&
         (bool_decide (k < bit_pos \/ bit_pos + i <= k) || Z.testbit (be_val mask) (k - bit_pos)))
      (fun r => bytes r /\ len r = len data /\
       forall k, 0 <= k -> Z.testbit (be_val r) k = Z.testbit (be_val data) k &&
         (bool_decide (k < bit_pos \/ bit_pos + bit_len <= k)
          || Z.testbit (be_val mask) (k - bit_pos)))
       b 0 bit_len s) as (r & Hr & Hb & Hl & Ht); [lia| | |done|]
  end.
  - split; [done|]. split; [done|]. intros k Hk.
    by rewrite bool_decide_eq_true_2, andb_true_r by lia.
  - intros i r Hi (Hb & Hl & Ht). rewrite sat_add_exact, sat_mul_exact by lia.
    destruct (Z.leb_spec (len r * 8) (bit_pos + i)) as [Hout|Hin].
    + right. exists r. split; [done|]. split; [done|]. split; [done|]. intros k Hk.
      rewrite Ht by done.
      destruct (decide (8 * len data <= k)); [by rewrite be_val_testbit_high|].
      do 2 f_equal. apply bool_decide_ext. lia.
    + left. rewrite !bit_or_zero_spec, land_b2z by (done || lia).
      destruct (set_bit_checked_spec r (bit_pos + i)
                 (Z.testbit (be_val r) (bit_pos + i) && Z.testbit (be_val mask) i) true Hb
                 ltac:(lia)) as (r' & Hset & Hb' & Hl' & Ht').
      rewrite Hset. simpl. exists r'. split; [done|]. split; [done|]. split; [lia|].
      intros k Hk. rewrite Ht' by done. case_decide as E.
      * subst k. rewrite Ht by done. rewrite bool_decide_eq_true_2 by lia.
        rewrite bool_decide_eq_false_2 by lia. simpl. rewrite andb_true_r.
        f_equal. f_equal. lia.
      * rewrite Ht by done. do 2 f_equal. apply bool_decide_ext. lia.
  - by exists r.
Qed.

Lemma u8_not_bytes m : bytes m -> bytes (u8_not <$> m).
Proof. intros Hm. apply Forall_fmap. eapply Forall_impl; [done|]. apply u8_not_u8. Qed.

Lemma be_val_not_testbit m k : bytes m -> 0 <= k < 8 * len m ->
  Z.testbit (be_val (u8_not <$> m)) k = negb (Z.testbit (be_val m) k).
Proof.
  intros Hm Hk. destruct (bit_byte_index (len m) k Hk) as [_ Hr].
  destruct (get_lt_is_Some m (len m - 1 - k / 8) Hr) as [b Hb].
  rewrite (be_val_testbit m k b) by (done || lia).
  rewrite (be_val_testbit _ k (u8_not b)); [|by apply u8_not_bytes|lia| |by rewrite len_map; lia].
  - apply u8_not_spec. apply Z.mod_pos_bound. lia.
  - rewrite len_map. unfold get in *. by rewrite list_lookup_fmap, Hb.
Qed.

(** ** Packing *)

Lemma copy_from_slice_len l start src :
  0 <= start -> start + len src <= len l -> len (copy_from_slice l start src) = len l.
Proof.
  unfold len, copy_from_slice. intros.
  rewrite !length_app, length_take, length_drop. lia.
Qed.

Lemma copy_from_slice_bytes l start src : bytes l -> bytes src -> bytes (copy_from_slice l start src).
Proof.
  intros Hl Hs. unfold copy_from_slice, bytes. rewrite !Forall_app.
  split; [by apply Forall_take|]. split; [done|by apply Forall_drop].
Qed.

Lemma slice_copy_from_slice l start src stop :
  0 <= start -> stop = start + len src -> stop <= len l ->
  slice (copy_from_slice l start src) start stop = Some src.
Proof.
  intros Hs -> Hl. pose proof (len_nonneg src).
  rewrite slice_some by (rewrite ?copy_from_slice_len; lia).
  f_equal. unfold copy_from_slice.
  rewrite drop_app_length' by (rewrite length_take; unfold len in *; lia).
  apply take_app_length'. unfold len in *. lia.
Qed.

(** The bytes [pack_data] places in its buffer, before clearing. *)
Definition aligned (n : Z) (data : list Z) (alignment : DataAlignment) : list Z :=
  let c := Z.min (len data) n in
  match alignment with
  | Right => vec_of (n - c) 0 ++ drop (Z.to_nat (len data - c)) data
  | Left => take (Z.to_nat c) data ++ vec_of (n - c) 0
  end.

Lemma copy_into_zeros n start src :
  0 <= start -> start + len src <= n ->
  copy_from_slice (vec_of n 0) start src
  = vec_of start 0 ++ src ++ vec_of (n - start - len src) 0.
Proof.
  intros Hs Hn. unfold copy_from_slice, vec_of. rewrite take_replicate, drop_replicate.
  repeat f_equal; unfold len in *; lia.
Qed.

Lemma pack_aligned_eq bit_len data alignment :
  0 < bit_len -> div_ceil bit_len 8 <= USIZE_MAX ->
  pack_aligned bit_len data alignment
  = Ok (clear_bits_above_bit_len bit_len (aligned (div_ceil bit_len 8) data alignment)).
Proof.
  intros Hn Hmax. pose proof (div_ceil_pos bit_len 8 ltac:(lia) Hn).
  unfold pack_aligned, checked_copy_aligned, aligned. set (n := div_ceil bit_len 8) in *.
  pose proof (len_nonneg data). set (c := Z.min (len data) n).
  assert (0 <= c <= n /\ c <= len data) by lia.
  destruct alignment.
  - rewrite sat_sub_exact, sat_add_exact, sat_sub_exact by lia.
    rewrite !slice_some by (rewrite ?len_vec_of; lia). simpl.
    rewrite take_ge by (rewrite length_drop; unfold len in *; lia).
    rewrite copy_into_zeros by (unfold len in *; rewrite ?length_drop; lia).
    replace (n - (n - c) - len (drop (Z.to_nat (len data - c)) data)) with 0
      by (unfold len in *; rewrite length_drop; lia).
    change (vec_of 0 0) with (@nil Z). by rewrite app_nil_r.
  - rewrite sat_add_exact by lia.
    rewrite !slice_some by (rewrite ?len_vec_of; lia). simpl. rewrite drop_0, Z.sub_0_r.
    rewrite copy_into_zeros by (unfold len in *; rewrite ?length_take; lia).
    change (vec_of 0 0) with (@nil Z).
    by replace (n - 0 - len (take (Z.to_nat c) data)) with (n - c)
      by (unfold len in *; rewrite length_take; lia).
Qed.

Lemma aligned_len n data a : 0 <= n -> len (aligned n data a) = n.
Proof.
  intros Hn. pose proof (len_nonneg data). unfold aligned, vec_of, len in *.
  destruct a; rewrite length_app, ?length_drop, ?length_take, length_replicate; lia.
Qed.

Lemma aligned_bytes n data a : bytes data -> bytes (aligned n data a).
Proof.
  intros Hd. unfold aligned, bytes in *. destruct a; rewrite Forall_app; split;
    try apply bytes_vec_of; [by apply Forall_drop|by apply Forall_take].
Qed.

Lemma drop_be_val data k : bytes data -> (k <= length data)%nat ->
  be_val (drop k data) = be_val data mod 2 ^ (8 * (len data - Z.of_nat k)).
Proof.
  intros Hd Hk. rewrite <- (take_drop k data) at 2.
  rewrite be_val_app by (by apply Forall_drop).
  replace (len (drop k data)) with (len data - Z.of_nat k)
    by (unfold len; rewrite length_drop; lia).
  rewrite Z.add_comm, Z.mod_add by (apply Z.pow_nonzero; unfold len; lia).
  symmetry. apply Z.mod_small. pose proof (be_val_bound (drop k data)) as Hb.
  replace (len (drop k data)) with (len data - Z.of_nat k) in Hb
    by (unfold len; rewrite length_drop; lia).
  apply Hb. by apply Forall_drop.
Qed.

(** Right alignment keeps the value modulo the buffer size. *)
Lemma aligned_right_val n data :
  bytes data -> 0 <= n -> be_val (aligned n data Right) = be_val data mod 2 ^ (8 * n).
Proof.
  intros Hd Hn. unfold aligned, vec_of. rewrite be_val_zeros_app.
  pose proof (len_nonneg data).
  rewrite drop_be_val by (done || (unfold len in *; lia)).
  destruct (decide (n <= len data)).
  - do 2 f_equal. lia.
  - replace (8 * (len data - Z.of_nat (Z.to_nat (len data - Z.min (len data) n))))
      with (8 * len data) by lia.
    rewrite !Z.mod_small; [done| |by apply be_val_bound].
    pose proof (be_val_bound data Hd).
    assert (2 ^ (8 * len data) <= 2 ^ (8 * n)) by (apply Z.pow_le_mono_r; lia). lia.
Qed.

Lemma aligned_left_exact n data : len data = n -> aligned n data Left = data.
Proof.
  intros <-. unfold aligned, vec_of. rewrite Z.min_id, Z.sub_diag. simpl.
  rewrite app_nil_r. apply take_ge. unfold len. lia.
Qed.

(** [clear_bits_above_bit_len] works on the byte of index [bit_length / 8], the
    LAST byte of the buffer: it clears the digits from [bit_length mod 8] to 7. *)
Lemma clear_bits_spec n r :
  bytes r -> 0 < n -> len r = div_ceil n 8 ->
  bytes (clear_bits_above_bit_len n r) /\
  len (clear_bits_above_bit_len n r) = len r /\
  forall k, 0 <= k -> Z.testbit (be_val (clear_bits_above_bit_len n r)) k
    = Z.testbit (be_val r) k && bool_decide (n mod 8 = 0 \/ k < n mod 8 \/ 8 <= k).
Proof.
  intros Hr Hn Hlen. unfold clear_bits_above_bit_len.
  destruct (Z.eqb_spec (n mod 8) 0) as [E|E]; simpl.
  { split; [done|]. split; [done|]. intros k Hk.
    by rewrite bool_decide_eq_true_2, andb_true_r by lia. }
  pose proof (Z.mod_pos_bound n 8 ltac:(lia)) as Hm.
  pose proof (Z.div_pos n 8 ltac:(lia) ltac:(lia)).
  assert (Hlen' : len r = n / 8 + 1).
  { rewrite Hlen. unfold div_ceil. by rewrite (proj2 (Z.eqb_neq _ _)). }
  destruct (get_lt_is_Some r (n / 8)) as [b Hb]; [lia|]. rewrite Hb.
  pose proof (bytes_get _ _ _ Hr Hb) as Hu.
  assert (Hmask : u8_shl 1 (n mod 8) - 1 = Z.ones (n mod 8)).
  { unfold u8_shl, Z.ones. rewrite Z.shiftl_1_l. change 255 with (Z.ones 8).
    rewrite Z.land_ones, Z.mod_small by
      first [lia|change (2 ^ 8) with 256; split; [lia|];
             change 256 with (2 ^ 8); apply Z.pow_lt_mono_r; lia]. lia. }
  rewrite Hmask.
  assert (Hu' : is_u8 (Z.land b (Z.ones (n mod 8)))).
  { rewrite Z.land_comm. apply land_u8; [|done].
    rewrite Z.ones_equiv. pose proof (Z.pow_pos_nonneg 2 (n mod 8)). lia. }
  split; [by apply bytes_set|]. split; [apply len_set|]. intros k Hk.
  destruct (decide (8 * len r <= k)) as [|Hin].
  { rewrite !be_val_testbit_high by (try apply bytes_set; rewrite ?len_set; done). done. }
  destruct (bit_byte_index (len r) k ltac:(lia)) as [_ Hrg].
  destruct (decide (k < 8)) as [Hk8|Hk8].
  - assert (Hi : len r - 1 - k / 8 = n / 8) by (rewrite Z.div_small; lia).
    rewrite (be_val_testbit _ k (Z.land b (Z.ones (n mod 8))));
      [|by apply bytes_set|lia|rewrite len_set, Hi; apply get_set_eq; lia|rewrite len_set; lia].
    rewrite (be_val_testbit r k b) by (rewrite ?Hi; done || lia).
    rewrite Z.land_spec, Z.mod_small by lia. f_equal.
    case_bool_decide; [apply Z.ones_spec_low; lia|apply Z.ones_spec_high; lia].
  - rewrite bool_decide_eq_true_2, andb_true_r by lia.
    assert (1 <= k / 8) by (apply Z.div_le_lower_bound; lia).
    destruct (get_lt_is_Some r (len r - 1 - k / 8) Hrg) as [c Hc].
    rewrite (be_val_testbit r k c) by (done || lia).
    apply be_val_testbit; [by apply bytes_set|lia| |rewrite len_set; lia].
    rewrite len_set, get_set_ne by lia. done.
Qed.

(** Whole-byte lengths are packed without loss. *)
Lemma clear_bits_whole n r : n mod 8 = 0 -> clear_bits_above_bit_len n r = r.
Proof. intros E. unfold clear_bits_above_bit_len. by rewrite E. Qed.
