(* ===== verification/CondensedMask.v ===== *)
(** * Condensed bit masks

    ISO 22901-1 "condensed" masks gather the digits under the ones of a mask
    when reading and scatter them when writing.  [ones_below m n] is the rank
    function of the mask; the two loops of DiagCodedType.v are specified by it
    and proved inverse to each other. *)

From S2P Require Import Prelude Bytes Errors BitOps DiagCodedType CodedBits.

Local Open Scope Z_scope.
Local Open Scope rust_scope.

(** ** Rank *)

(** The ones of [m] among its [n] lowest digits. *)
Fixpoint ones_below (m : Z) (n : nat) : Z :=
  match n with
  | O => 0
  | S n' => ones_below m n' + Z.b2z (Z.testbit m (Z.of_nat n'))
  end.

(** [ones_below] at an integer position. *)
Definition rank (m k : Z) : Z := ones_below m (Z.to_nat k).

Lemma rank_0 m : rank m 0 = 0.
Proof. done. Qed.

Lemma rank_succ m k : 0 <= k -> rank m (k + 1) = rank m k + Z.b2z (Z.testbit m k).
Proof.
  intros Hk. unfold rank. replace (Z.to_nat (k + 1)) with (S (Z.to_nat k)) by lia.
  simpl. do 2 f_equal. f_equal. lia.
Qed.

Lemma ones_below_mono m a b : (a <= b)%nat -> ones_below m a <= ones_below m b.
Proof.
  induction 1 as [|b _ IH]; [done|]. simpl. destruct (Z.testbit m (Z.of_nat b)); simpl; lia.
Qed.

Lemma rank_mono m a b : a <= b -> rank m a <= rank m b.
Proof. intros. apply ones_below_mono. lia. Qed.

Lemma rank_nonneg m k : 0 <= rank m k.
Proof. unfold rank. pose proof (ones_below_mono m 0 (Z.to_nat k)) as H. simpl in H. lia. Qed.

Lemma rank_le m k : 0 <= k -> rank m k <= k.
Proof.
  intros Hk. unfold rank. rewrite <- (Z2Nat.id k) at 2 by done. clear Hk.
  induction (Z.to_nat k) as [|n IH]; simpl ones_below; [done|].
  destruct (Z.testbit m (Z.of_nat n)); simpl; lia.
Qed.

(** Distinct ones have distinct ranks. *)
Lemma rank_lt_one m a b : 0 <= a < b -> Z.testbit m a = true -> rank m a < rank m b.
Proof.
  intros Hab Ha. pose proof (rank_mono m (a + 1) b ltac:(lia)).
  rewrite rank_succ, Ha in H by lia. simpl in H. lia.
Qed.

(** Every rank below the total is taken by a one. *)
Lemma rank_surjective m n j : 0 <= n -> 0 <= j < rank m n ->
  exists i, 0 <= i < n /\ Z.testbit m i = true /\ rank m i = j.
Proof.
  intros Hn. replace n with (Z.of_nat (Z.to_nat n)) by lia. clear Hn.
  unfold rank at 1. rewrite Nat2Z.id.
  induction (Z.to_nat n) as [|k IH]; simpl; intros Hj; [lia|].
  destruct (decide (j < ones_below m k)) as [Hlt|Hge].
  - destruct (IH ltac:(lia)) as (i & ? & ? & ?). exists i. split; [lia|done].
  - destruct (Z.testbit m (Z.of_nat k)) eqn:E; simpl in Hj; [|lia].
    exists (Z.of_nat k). split; [lia|]. split; [done|]. unfold rank. rewrite Nat2Z.id. lia.
Qed.

Lemma ones_below_shift m a n :
  ones_below m (a + n) = ones_below m a + ones_below (Z.shiftr m (Z.of_nat a)) n.
Proof.
  induction n as [|n IH]; [rewrite Nat.add_0_r; simpl; lia|].
  rewrite Nat.add_succ_r. simpl. rewrite IH, Z.shiftr_spec by lia.
  rewrite <- Z.add_assoc. do 3 f_equal. f_equal. lia.
Qed.

Lemma ones_below_ext m m' n :
  (forall k, 0 <= k < Z.of_nat n -> Z.testbit m k = Z.testbit m' k) ->
  ones_below m n = ones_below m' n.
Proof.
  induction n as [|n IH]; intros Hext; [done|]. simpl.
  rewrite (Hext (Z.of_nat n)) by lia. rewrite IH; [done|].
  intros k Hk. apply Hext. lia.
Qed.

Lemma count_ones_rank b : count_ones b = ones_below b 8.
Proof.
  unfold count_ones. change (seqZ 0 8) with [0; 1; 2; 3; 4; 5; 6; 7]. simpl foldr.
  rewrite !bit_of_testbit by lia. cbv [ones_below Z.of_nat Pos.of_succ_nat Pos.succ]. lia.
Qed.

(** [iter().map(count_ones).sum()] counts the ones of the mask's value. *)
Lemma sum_count_ones l : bytes l ->
  foldr (fun byte n => count_ones byte + n) 0 l = rank (be_val l) (8 * len l).
Proof.
  intros Hl. transitivity (foldl (fun n byte => n + count_ones byte) 0 l).
  { clear Hl. assert (Hg : forall a, foldl (fun n byte => n + count_ones byte) a l
        = a + foldr (fun byte n => count_ones byte + n) 0 l); [|by rewrite Hg].
    induction l as [|b l IH]; intros a; simpl; [lia|]. rewrite IH. lia. }
  induction l as [|b l IH] using rev_ind; [done|].
  apply bytes_snoc in Hl as [Hl Hb]. rewrite foldl_app. simpl. rewrite IH by done.
  autorewrite with len. change (len (@nil Z)) with 0. rewrite count_ones_rank, be_val_snoc.
  unfold rank. replace (Z.to_nat (8 * (len l + (1 + 0)))) with (8 + Z.to_nat (8 * len l))%nat
    by (pose proof (len_nonneg l); lia).
  rewrite ones_below_shift. rewrite Z.add_comm. f_equal.
  - apply ones_below_ext. intros k Hk. rewrite <- (Z.mod_pow2_bits_low (be_val l * 256 + b) 8) by lia.
    change (2 ^ 8) with 256. rewrite Z.add_comm, Z.mod_add by lia.
    by rewrite Z.mod_small by (unfold is_u8 in Hb; lia).
  - f_equal. rewrite Z.shiftr_div_pow2 by lia. change (2 ^ Z.of_nat 8) with 256.
    rewrite Z.div_add_l by lia. rewrite (Z.div_small b) by (unfold is_u8 in Hb; lia). lia.
Qed.

(** ** Gathering *)

(** Reading under a condensed mask: the digit under the [j]-th one of the mask
    becomes digit [j], and the length is the number of ones. *)
Lemma condensed_unpacking_spec mask field n :
  bytes mask -> bytes field -> len mask = len field -> n = 8 * len field ->
  n <= USIZE_MAX -> 0 < rank (be_val mask) n ->
  exists r, apply_condensed_mask_unpacking mask field n = Ok (r, rank (be_val mask) n) /\
    bytes r /\ len r = div_ceil (rank (be_val mask) n) 8 /\
    (forall i, 0 <= i < n -> Z.testbit (be_val mask) i = true ->
       Z.testbit (be_val r) (rank (be_val mask) i) = Z.testbit (be_val field) i) /\
    (forall j, rank (be_val mask) n <= j -> Z.testbit (be_val r) j = false).
Proof.
  intros Hm Hf Hlen Hn Hmax Hpos. unfold apply_condensed_mask_unpacking.
  rewrite sum_count_ones by done. rewrite Hlen, <- Hn.
  pose proof (len_nonneg field). pose proof (rank_le (be_val mask) n ltac:(lia)).
  rewrite Z.min_l by done. set (m := be_val mask) in *. set (total := rank m n) in *.
  rewrite (proj2 (Z.eqb_neq total 0)) by lia.
  pose proof (div_ceil_spec total 8 ltac:(lia)) as Hc.
  match goal with |- context [for_range 0 n ?b ?s] =>
    destruct (for_range_total (fun i '(c, r) => c = rank m i /\ bytes r /\
       len r = div_ceil total 8 /\
       (forall k, 0 <= k < i -> Z.testbit m k = true ->
          Z.testbit (be_val r) (rank m k) = Z.testbit (be_val field) k) /\
       (forall j, rank m i <= j -> Z.testbit (be_val r) j = false))
       b 0 n s) as ([c r] & Hr & -> & Hb & Hl & Hin & Hout)
  end; [lia| | |].
  - split; [done|]. split; [apply bytes_vec_of|]. split; [apply len_vec_of; lia|].
    split; [lia|]. intros j Hj. unfold vec_of. by rewrite be_val_zeros, Z.bits_0.
  - intros i [c r] Hi (-> & Hb & Hl & Hin & Hout).
    destruct (bit_byte_index (len field) i ltac:(lia)) as [Hix Hrg].
    rewrite (proj2 (Z.ltb_lt _ _)) by (rewrite Hix; lia).
    pose proof (bit_or_zero_spec mask i Hm ltac:(lia)) as Hbm. rewrite Hlen in Hbm.
    rewrite Hbm, (bit_or_zero_spec field) by (done || lia). fold m. pose proof (rank_succ m i ltac:(lia)) as Hs.
    destruct (Z.testbit m i) eqn:Em; simpl.
    + pose proof (rank_mono m (i + 1) n ltac:(lia)) as Hmn. pose proof (rank_nonneg m i).
      simpl in Hs. fold total in Hmn.
      destruct (set_bit_checked_spec r (rank m i) (Z.testbit (be_val field) i) false Hb
                  ltac:(lia)) as (r' & Hset & Hb' & Hl' & Ht').
      rewrite <- Hl, Hset. simpl. rewrite sat_add_exact by lia.
      eexists. split; [done|]. split; [lia|]. split; [done|]. split; [lia|]. split.
      * intros k Hk Hmk. rewrite Ht' by apply rank_nonneg. case_decide as E.
        -- assert (k = i) as ->; [|by rewrite Hout by lia].
           destruct (decide (k = i)) as [|]; [done|].
           pose proof (rank_lt_one m k i ltac:(lia) Hmk). lia.
        -- apply Hin; [|done]. destruct (decide (k = i)) as [->|]; [done|lia].
      * intros j Hj. rewrite Ht', decide_False by lia. apply Hout. lia.
    + eexists. split; [done|]. simpl in Hs. split; [lia|]. split; [done|]. split; [done|]. split.
      * intros k Hk Hmk. apply Hin; [|done].
        destruct (decide (k = i)) as [->|]; [congruence|lia].
      * intros j Hj. apply Hout. lia.
  - rewrite Hr. simpl. fold total. rewrite Hl, (proj2 (Z.ltb_ge _ _)) by lia.
    exists r. done.
Qed.

(** A mask without ones reads as the empty field. *)
Lemma condensed_unpacking_empty mask field n :
  bytes mask -> 0 <= n -> rank (be_val mask) (8 * len mask) = 0 ->
  apply_condensed_mask_unpacking mask field n = Ok ([], 0).
Proof.
  intros Hm Hn H0. unfold apply_condensed_mask_unpacking.
  rewrite sum_count_ones, H0, Z.min_l by done. done.
Qed.

(** ** Scattering *)

(** Writing under a condensed mask: digit [j] of the data goes under the
    [j]-th one of the mask, all other digits are 0. *)
Lemma condensed_packing_spec data mask :
  bytes data -> bytes mask ->
  8 * len mask <= USIZE_MAX -> 8 * len data <= USIZE_MAX ->
  rank (be_val mask) (8 * len mask) <= 8 * len data ->
  exists r, apply_condensed_mask_packing data mask 0 = Ok (r, 8 * len mask) /\
    bytes r /\ len r = len mask /\
    forall k, 0 <= k -> Z.testbit (be_val r) k
      = Z.testbit (be_val mask) k && Z.testbit (be_val data) (rank (be_val mask) k).
Proof.
  intros Hd Hm Hmm Hdm Hfit. unfold apply_condensed_mask_packing.
  rewrite !sat_mul_exact by lia. set (m := be_val mask) in *.
  pose proof (len_nonneg mask). rewrite (Z.mul_comm (len mask) 8), (Z.mul_comm (len data) 8).
  match goal with |- context [for_range 0 (8 * len mask) ?b ?s] =>
    destruct (for_range_total (fun i '(c, r) => c = rank m i /\ bytes r /\
       len r = len mask /\
       forall k, 0 <= k -> Z.testbit (be_val r) k
         = Z.testbit m k && (bool_decide (i <= k) || Z.testbit (be_val data) (rank m k)))
       b 0 (8 * len mask) s) as ([c r] & Hr & _ & Hb & Hl & Ht)
  end; [lia| | |].
  - split; [done|]. split; [done|]. split; [done|]. intros k Hk.
    by rewrite bool_decide_eq_true_2, andb_true_r by done.
  - intros i [c r] Hi (-> & Hb & Hl & Ht).
    rewrite bit_or_zero_spec by (done || lia). fold m.
    pose proof (rank_succ m i ltac:(lia)) as Hs. pose proof (rank_nonneg m i).
    pose proof (rank_mono m (i + 1) (8 * len mask) ltac:(lia)) as Hmn.
    destruct (Z.testbit m i) eqn:Em; simpl in Hs |- *.
    + rewrite (proj2 (Z.ltb_lt _ _)) by lia. rewrite (sat_add_exact 0), Z.add_0_l by lia.
      rewrite bit_or_zero_spec by (done || lia).
      destruct (set_bit_checked_spec r i (Z.testbit (be_val data) (rank m i)) true Hb
                  ltac:(lia)) as (r' & Hset & Hb' & Hl' & Ht').
      rewrite <- Hl, Hset. simpl. rewrite sat_add_exact by lia.
      eexists. split; [done|]. split; [lia|]. split; [done|]. split; [lia|].
      intros k Hk. rewrite Ht' by done. case_decide as E.
      * subst k. by rewrite Em, bool_decide_eq_false_2 by lia.
      * rewrite Ht by done. do 2 f_equal. apply bool_decide_ext. lia.
    + eexists. split; [done|]. split; [lia|]. split; [done|]. split; [done|].
      intros k Hk. rewrite Ht by done. destruct (decide (k = i)) as [->|]; [by rewrite Em|].
      do 2 f_equal. apply bool_decide_ext. lia.
  - rewrite Hr. simpl. exists r. split; [done|]. split; [done|]. split; [done|].
    intros k Hk. rewrite Ht by done. case_bool_decide; [|done].
    unfold m. by rewrite be_val_testbit_high by (done || lia).
Qed.
