(* ===== verification/CodedCodec.v ===== *)
(** * Decoding what was encoded

    The contract between [encode] and [decode]: which bits of the payload
    [encode] writes, what [decode] reads back for each of the four length
    rules, and where the two disagree. *)

From S2P Require Import Prelude Bytes Errors BitOps DiagCodedType CodedBits CondensedMask.

Local Open Scope Z_scope.
Local Open Scope rust_scope.

(** Sizes whose bit counts are far from [usize::MAX]; no allocation exceeds it. *)
Definition MAX_BYTES : Z := 2 ^ 60.

(** The payload with the zero bytes [encode] appends to reach [stop]. *)
Definition padded (payload : list Z) (stop : Z) : list Z :=
  if len payload <? stop then grow payload stop else payload.

(** The PDU cut-out of [count] bytes, as the integer its normalised bytes denote. *)
Definition cut_val (self : DiagCodedType) (payload : list Z) (byte_pos count : Z) : Z :=
  be_val (normalize_byte_order
            (default [] (slice (padded payload (byte_pos + count)) byte_pos (byte_pos + count)))
            (byte_order self)).

(** ** Payloads *)

Lemma grow_len (l : list Z) n : len l <= n -> len (grow l n) = n.
Proof.
  intros. unfold grow. rewrite len_app, len_vec_of by lia. lia.
Qed.

Lemma padded_len payload stop : len (padded payload stop) = Z.max (len payload) stop.
Proof.
  unfold padded. destruct (Z.ltb_spec (len payload) stop); [rewrite grow_len|]; lia.
Qed.

Lemma padded_bytes payload stop : bytes payload -> bytes (padded payload stop).
Proof.
  intros Hp. unfold padded, grow. destruct (_ <? _); [|done].
  apply Forall_app. split; [done|apply bytes_vec_of].
Qed.

Lemma slice_bytes l a b r : bytes l -> slice l a b = Some r -> bytes r.
Proof.
  unfold slice. intros Hl. destruct (_ && _); intros; simplify_eq.
  by apply Forall_take, Forall_drop.
Qed.

Lemma slice_is_some {A} (l : list A) a b : 0 <= a <= b -> b <= len l -> exists r, slice l a b = Some r.
Proof. intros. rewrite slice_some by done. eauto. Qed.

(** A fresh cut-out is zero. *)
Lemma cut_val_fresh self payload byte_pos count :
  0 <= count -> len payload <= byte_pos -> cut_val self payload byte_pos count = 0.
Proof.
  intros Hc Hp. pose proof (len_nonneg payload). unfold cut_val.
  destruct (slice_is_some (padded payload (byte_pos + count)) byte_pos (byte_pos + count))
    as [r Hr]; [lia|rewrite padded_len; lia|]. rewrite Hr. simpl.
  assert (r = replicate (Z.to_nat count) 0) as ->; [|by rewrite normalize_zeros, be_val_zeros].
  rewrite slice_some in Hr by (rewrite ?padded_len; lia). injection Hr as <-.
  unfold padded, grow. destruct (Z.ltb_spec (len payload) (byte_pos + count)).
  - rewrite drop_app_ge by (unfold len in *; lia). unfold vec_of.
    rewrite drop_replicate, take_replicate. f_equal. unfold len in *. lia.
  - replace (byte_pos + count - byte_pos) with 0 by lia.
    replace (Z.to_nat count) with 0%nat by lia. done.
Qed.

Lemma get_copy_from_slice (l : list Z) start src i :
  0 <= start -> start + len src <= len l -> 0 <= i -> i < start \/ start + len src <= i ->
  get (copy_from_slice l start src) i = get l i.
Proof.
  unfold get, copy_from_slice, len. intros Hs Hl Hi [Hlt|Hge].
  - rewrite lookup_app_l by (rewrite length_take; lia). apply lookup_take_lt. lia.
  - rewrite lookup_app_r by (rewrite length_take; lia).
    rewrite lookup_app_r by (rewrite length_take; lia).
    rewrite lookup_drop, length_take. f_equal. lia.
Qed.

(** ** Reading *)

Lemma unpack_plain n bp data order :
  bytes data -> 0 <= bp <= 7 -> 0 < n -> bp + n <= 8 * len data -> len data <= MAX_BYTES ->
  exists r, unpack_data n bp None data order = Ok (r, n) /\ bytes r /\ len r = div_ceil n 8 /\
    be_val r = (be_val (normalize_byte_order data order) / 2 ^ bp) mod 2 ^ n.
Proof.
  intros Hd Hp Hn Hfit Hmax. unfold unpack_data.
  destruct (extract_bits_spec n bp (normalize_byte_order data order))
    as (r & Hr & Hb & Hl & Hv);
    [by apply normalize_bytes|done|done|rewrite normalize_len; lia
    |rewrite normalize_len; unfold MAX_BYTES, USIZE_MAX in *; lia|].
  rewrite Hr. simpl. by exists r.
Qed.

(** A cut-out read at bit 0 in full is the cut-out itself. *)
Lemma unpack_whole data order :
  bytes data -> data <> [] -> len data <= MAX_BYTES ->
  unpack_data (8 * len data) 0 None data order
  = Ok (normalize_byte_order data order, 8 * len data).
Proof.
  intros Hd Hne Hmax.
  assert (0 < len data).
  { pose proof (len_nonneg data). destruct (decide (len data = 0)) as [H0|]; [|lia].
    by apply len_zero in H0. }
  destruct (unpack_plain (8 * len data) 0 data order) as (r & Hr & Hb & Hl & Hv);
    [done|lia|lia|lia|done|].
  rewrite Hr. do 2 f_equal. apply be_val_inj; [done|by apply normalize_bytes| |].
  - rewrite Hl, Z.mul_comm, div_ceil_mul, normalize_len by lia. done.
  - rewrite Hv, Z.div_1_r. apply Z.mod_small.
    pose proof (be_val_bound _ (normalize_bytes _ order Hd)) as Hbd.
    by rewrite normalize_len in Hbd.
Qed.

(** ** Writing *)

Definition mask_ok (mask : option Mask) (n : Z) : Prop :=
  match mask with
  | Some m => bytes m.(mask_data) /\ n <= 8 * len m.(mask_data)
  | None => True
  end.

(** The digits of the field a mask lets [encode] change. *)
Definition mask_bit (mask : option Mask) (k : Z) : bool :=
  match mask with Some m => Z.testbit (be_val m.(mask_data)) k | None => false end.

Lemma write_cut_out_spec self cut pk n mask bp :
  bytes cut -> bytes pk -> 0 <= bp <= 7 -> 0 < n -> mask_ok mask n ->
  len cut = div_ceil (bp + n) 8 -> len cut <= MAX_BYTES -> len pk <= MAX_BYTES ->
  exists cut', write_cut_out self cut (pk, n, mask) bp = Ok cut' /\
    bytes cut' /\ len cut' = len cut /\
    forall k, 0 <= k ->
      Z.testbit (be_val (normalize_byte_order cut' (byte_order self))) k
      = (Z.testbit (be_val (normalize_byte_order cut (byte_order self))) k
         && negb (bool_decide (bp <= k < bp + n) && mask_bit mask (k - bp)))
        || (bool_decide (bp <= k < bp + n) && Z.testbit (be_val pk) (k - bp)).
Proof.
  intros Hc Hk Hbp Hn Hm Hlen Hcm Hpm. unfold MAX_BYTES in *.
  pose proof (div_ceil_spec (bp + n) 8 ltac:(lia)) as Hdc.
  set (o := byte_order self). set (c0 := normalize_byte_order cut o).
  assert (Hc0 : bytes c0) by (by apply normalize_bytes).
  assert (Hl0 : len c0 = len cut) by apply normalize_len.
  assert (Hmasked : exists c1,
    match mask with
    | Some m => apply_bit_mask c0 (u8_not <$> m.(mask_data)) n bp
    | None => Ok c0
    end = Ok c1 /\ bytes c1 /\ len c1 = len cut /\
    forall k, 0 <= k -> Z.testbit (be_val c1) k = Z.testbit (be_val c0) k
      && negb (bool_decide (bp <= k < bp + n) && mask_bit mask (k - bp))).
  { destruct mask as [m|]; simpl in Hm |- *.
    - destruct Hm as [Hmb Hml].
      destruct (apply_bit_mask_spec c0 (u8_not <$> m.(mask_data)) n bp)
        as (r & Hr & Hb & Hl & Ht);
        [done|by apply u8_not_bytes|lia|rewrite len_map; lia|unfold USIZE_MAX; lia
        |unfold USIZE_MAX; lia|].
      exists r. split; [done|]. split; [done|]. split; [lia|]. intros k Hk0.
      rewrite Ht by done. f_equal. case_bool_decide as E1; case_bool_decide as E2; try (done || lia).
      by rewrite be_val_not_testbit by (done || lia).
    - exists c0. split; [done|]. split; [done|]. split; [done|]. intros k _.
      by rewrite andb_false_r, andb_true_r. }
  destruct Hmasked as (c1 & H1 & Hb1 & Hl1 & Ht1).
  destruct (inject_bits_spec n bp c1 pk) as (c2 & H2 & Hb2 & Hl2 & Hv2);
    [done|done|done|done|lia|unfold USIZE_MAX; lia|unfold USIZE_MAX; lia|].
  exists (normalize_byte_order c2 o). unfold write_cut_out. fold o c0. rewrite H1. simpl.
  rewrite H2. simpl. split; [done|]. split; [by apply normalize_bytes|].
  split; [rewrite normalize_len; lia|]. intros k Hk0.
  rewrite normalize_involutive, Hv2, Z.lor_spec, Ht1 by done. f_equal.
  rewrite Z.shiftl_spec by done. destruct (decide (k < bp)).
  { by rewrite bool_decide_eq_false_2, Z.testbit_neg_r by lia. }
  destruct (decide (k < bp + n)).
  - by rewrite Z.mod_pow2_bits_low, bool_decide_eq_true_2 by lia.
  - by rewrite Z.mod_pow2_bits_high, bool_decide_eq_false_2 by lia.
Qed.

(** Everything [encode] does to a payload, from what [pack_input] made. *)
Lemma encode_spec self input payload byte_pos bp pk n mask :
  validate_bit_pos self bp = Ok () -> pack_input self input = Ok (Some (pk, n, mask)) ->
  bytes payload -> bytes pk -> 0 <= bp <= 7 -> 0 < n -> mask_ok mask n -> 0 <= byte_pos ->
  byte_pos + div_ceil (bp + n) 8 <= MAX_BYTES -> len pk <= MAX_BYTES -> len payload <= MAX_BYTES ->
  let count := div_ceil (bp + n) 8 in
  let before := padded payload (byte_pos + count) in
  exists p' cut', encode self input payload byte_pos bp = (p', Ok ()) /\
    bytes p' /\ len p' = len before /\
    (forall i, 0 <= i -> i < byte_pos \/ byte_pos + count <= i -> get p' i = get before i) /\
    slice p' byte_pos (byte_pos + count) = Some cut' /\ bytes cut' /\ len cut' = count /\
    forall k, 0 <= k ->
      Z.testbit (be_val (normalize_byte_order cut' (byte_order self))) k
      = (Z.testbit (cut_val self payload byte_pos count) k
         && negb (bool_decide (bp <= k < bp + n) && mask_bit mask (k - bp)))
        || (bool_decide (bp <= k < bp + n) && Z.testbit (be_val pk) (k - bp)).
Proof.
  intros Hvp Hpi Hpb Hkb Hbp Hn Hm Hpos Hmax Hpm Hplm count before.
  pose proof (div_ceil_pos (bp + n) 8 ltac:(lia) ltac:(lia)) as Hcp. fold count in Hcp, Hmax.
  pose proof (div_ceil_spec (bp + n) 8 ltac:(lia)) as Hdc. fold count in Hdc.
  unfold MAX_BYTES in *.
  assert (Hbl : byte_pos + count <= len before) by (unfold before; rewrite padded_len; lia).
  destruct (slice_is_some before byte_pos (byte_pos + count)) as [cut Hcut]; [lia|done|].
  pose proof (slice_len _ _ _ _ Hpos Hcut) as Hcl.
  assert (Hcb : bytes cut) by (eapply slice_bytes, Hcut; by apply padded_bytes).
  destruct (write_cut_out_spec self cut pk n mask bp) as (cut' & Hw & Hb' & Hl' & Ht');
    [done|done|done|done|done|unfold count in *; lia|unfold MAX_BYTES; lia
    |unfold MAX_BYTES; lia|].
  exists (copy_from_slice before byte_pos cut'), cut'.
  assert (Henc : encode self input payload byte_pos bp
                 = (copy_from_slice before byte_pos cut', Ok ())).
  { unfold encode. rewrite Hvp. simpl. rewrite Hpi.
    rewrite (sat_add_exact bp n) by (unfold USIZE_MAX; lia). fold count.
    rewrite sat_add_exact by (unfold USIZE_MAX; lia).
    fold (padded payload (byte_pos + count)). fold before. rewrite Hcut.
    cbn [ok_or mbind result_bind]. by rewrite Hw. }
  split; [done|]. split; [apply copy_from_slice_bytes; [by apply padded_bytes|done]|].
  split; [apply copy_from_slice_len; lia|].
  split; [intros i Hi Hout; apply get_copy_from_slice; lia|].
  split; [apply slice_copy_from_slice; lia|].
  split; [done|]. split; [lia|]. intros k Hk. rewrite Ht' by done.
  unfold cut_val. fold before. by rewrite Hcut.
Qed.

(** ** STANDARD-LENGTH-TYPE *)

Lemma validate_bit_len_pos t n : validate_bit_len t n = Ok () -> n <> 0.
Proof. unfold validate_bit_len. by destruct (Z.eqb_spec n 0). Qed.

Lemma bit_len_bytes_bound n : n < 2 ^ 32 -> div_ceil n 8 <= 2 ^ 30.
Proof. intros. pose proof (div_ceil_spec n 8 ltac:(lia)). lia. Qed.

Definition plain_standard (n : Z) (c : bool) : DiagCodedTypeVariant :=
  StandardLength {| bit_length := n; bit_mask := None; condensed := c |}.

(** The bytes an unmasked STANDARD-LENGTH value is packed into. *)
Definition standard_packed (self : DiagCodedType) (n : Z) (input : list Z) : list Z :=
  clear_bits_above_bit_len n
    (aligned (div_ceil n 8) input (standard_alignment self.(base_datatype))).

Lemma pack_standard_plain self n c input :
  type_ self = plain_standard n c -> validate_bit_len (base_datatype self) n = Ok () ->
  0 < n < 2 ^ 32 ->
  pack_input self input = Ok (Some (standard_packed self n input, n, None)).
Proof.
  intros Ht Hv Hn. unfold pack_input. rewrite Ht. unfold plain_standard, pack_standard_length.
  simpl. rewrite Hv. simpl. unfold pack_data. rewrite (proj2 (Z.eqb_neq n 0)) by lia.
  pose proof (bit_len_bytes_bound n ltac:(lia)).
  rewrite pack_aligned_eq by (unfold USIZE_MAX; lia). simpl.
  by rewrite (proj2 (Z.ltb_ge n n)) by lia.
Qed.

Lemma standard_packed_ok self n input :
  bytes input -> 0 < n ->
  bytes (standard_packed self n input) /\ len (standard_packed self n input) = div_ceil n 8.
Proof.
  intros Hi Hn. pose proof (div_ceil_pos n 8 ltac:(lia) Hn).
  pose proof (aligned_len (div_ceil n 8) input (standard_alignment self.(base_datatype)) ltac:(lia)).
  destruct (clear_bits_spec n
    (aligned (div_ceil n 8) input (standard_alignment self.(base_datatype)))) as (Hb & Hl & _);
    [by apply aligned_bytes|done|done|].
  split; [done|]. unfold standard_packed. by rewrite Hl.
Qed.

Section standard.
Context (self : DiagCodedType) (n bp : Z) (c : bool).
Hypothesis Htype : type_ self = plain_standard n c.
Hypothesis Hvlen : validate_bit_len (base_datatype self) n = Ok ().
Hypothesis Hvpos : validate_bit_pos self bp = Ok ().
Hypothesis Hn : 0 <= n < 2 ^ 32.
Hypothesis Hbp : 0 <= bp <= 7.

Lemma standard_n_pos : 0 < n.
Proof. pose proof (validate_bit_len_pos _ _ Hvlen). lia. Qed.

(** [decode] of an unmasked field, from the bytes of its cut-out. *)
Lemma decode_standard p byte_pos cut :
  bytes p -> 0 <= byte_pos -> slice p byte_pos (byte_pos + div_ceil n 8) = Some cut ->
  byte_pos + div_ceil n 8 <= MAX_BYTES ->
  decode self p byte_pos bp = unpack_data n bp None cut (byte_order self).
Proof.
  intros Hp Hpos Hcut Hmax. pose proof standard_n_pos as Hn0. unfold MAX_BYTES in Hmax.
  unfold decode, field_position. rewrite Hvpos. simpl. rewrite Htype. simpl.
  unfold pos_info_standard_len. simpl. rewrite Hvlen. simpl.
  rewrite (proj2 (Z.eqb_neq n 0)) by lia.
  pose proof (div_ceil_pos n 8 ltac:(lia) Hn0).
  rewrite sat_add_exact by (unfold USIZE_MAX; lia).
  assert (byte_pos + div_ceil n 8 <= len p).
  { unfold slice in Hcut. destruct (Z.leb_spec (byte_pos + div_ceil n 8) (len p)); [done|].
    by rewrite andb_false_r in Hcut. }
  rewrite (proj2 (Z.ltb_ge _ _)) by done. by rewrite Hcut.
Qed.

Context (input payload : list Z) (byte_pos : Z).
Hypothesis Hinput : bytes input.
Hypothesis Hpayload : bytes payload.
Hypothesis Hpos : 0 <= byte_pos.
Hypothesis Hmax : byte_pos + div_ceil (bp + n) 8 <= MAX_BYTES.
Hypothesis Hplen : len payload <= MAX_BYTES.
(** The field does not reach into one more byte than its length needs. *)
Hypothesis Hfit : bp + n <= 8 * div_ceil n 8.

Lemma standard_count : div_ceil (bp + n) 8 = div_ceil n 8.
Proof.
  pose proof standard_n_pos. pose proof (div_ceil_spec n 8 ltac:(lia)).
  apply div_ceil_unique; lia.
Qed.

(** The value read back: the packed bytes or-ed over what the payload held. *)
Lemma decode_encode_standard_or :
  exists p' r, encode self input payload byte_pos bp = (p', Ok ()) /\
    decode self p' byte_pos bp = Ok (r, n) /\ bytes r /\ len r = div_ceil n 8 /\
    be_val r = Z.lor (cut_val self payload byte_pos (div_ceil n 8) / 2 ^ bp mod 2 ^ n)
                     (be_val (standard_packed self n input) mod 2 ^ n).
Proof.
  pose proof standard_n_pos as Hn0. pose proof standard_count as Hcnt.
  pose proof (bit_len_bytes_bound n ltac:(lia)).
  destruct (standard_packed_ok self n input Hinput Hn0) as [Hkb Hkl].
  pose proof (div_ceil_pos n 8 ltac:(lia) Hn0).
  edestruct (encode_spec self input payload byte_pos bp) as
    (p' & cut' & He & Hpb & Hpl & _ & Hs & Hcb & Hcl & Ht);
    [done|eapply pack_standard_plain; [done|done|lia]|done|done|done|done|done|done|done
    |unfold MAX_BYTES; lia|done|].
  rewrite Hcnt in *.
  destruct (unpack_plain n bp cut' (byte_order self)) as (r & Hr & Hrb & Hrl & Hv);
    [done|done|done|lia|unfold MAX_BYTES; lia|].
  exists p', r. split; [done|]. split; [|split; [done|split; [done|]]].
  { by rewrite (decode_standard p' byte_pos cut'). }
  rewrite Hv. apply Z.bits_inj'. intros k Hk. rewrite Z.lor_spec.
  destruct (decide (k < n)).
  - rewrite !Z.mod_pow2_bits_low, !Z.div_pow2_bits, Ht by lia. simpl.
    rewrite andb_false_r, andb_true_r, bool_decide_eq_true_2 by lia. simpl. f_equal.
    f_equal. lia.
  - by rewrite !Z.mod_pow2_bits_high by lia.
Qed.

(** Into fresh bytes, exactly the packed value. *)
Lemma decode_encode_standard_fresh :
  len payload <= byte_pos ->
  exists p' r, encode self input payload byte_pos bp = (p', Ok ()) /\
    decode self p' byte_pos bp = Ok (r, n) /\ bytes r /\ len r = div_ceil n 8 /\
    be_val r = be_val (standard_packed self n input) mod 2 ^ n.
Proof.
  intros Hfresh. destruct decode_encode_standard_or as (p' & r & He & Hd & Hb & Hl & Hv).
  exists p', r. do 4 (split; [done|]). rewrite Hv.
  pose proof (div_ceil_pos n 8 ltac:(lia) standard_n_pos).
  rewrite cut_val_fresh, Z.div_0_l, Z.mod_0_l by (lia || apply Z.pow_nonzero; lia).
  apply Z.lor_0_l.
Qed.
End standard.

Lemma decode_encode_digits self n c input payload byte_pos bp :
  type_ self = plain_standard n c -> is_byte_sequential (base_datatype self) = false ->
  validate_bit_len (base_datatype self) n = Ok () ->
  0 <= n < 2 ^ 32 -> 0 <= bp <= 7 -> bp + n <= 8 * div_ceil n 8 ->
  bytes input -> bytes payload -> len payload <= byte_pos ->
  byte_pos + div_ceil (bp + n) 8 <= MAX_BYTES ->
  exists p' r, encode self input payload byte_pos bp = (p', Ok ()) /\
    decode self p' byte_pos bp = Ok (r, n) /\ len r = div_ceil n 8 /\
    forall k, 0 <= k -> Z.testbit (be_val r) k
      = Z.testbit (be_val input) k && bool_decide (k < n)
        && bool_decide (n mod 8 = 0 \/ k < n mod 8 \/ 8 <= k).
Proof.
  intros Ht Hseq Hvl Hn Hbp Hfit Hi Hp Hfresh Hmax.
  pose proof (len_nonneg payload). pose proof (validate_bit_len_pos _ _ Hvl).
  pose proof (div_ceil_pos (bp + n) 8 ltac:(lia) ltac:(lia)).
  assert (Hvp : validate_bit_pos self bp = Ok ()) by (unfold validate_bit_pos; by rewrite Hseq).
  destruct (decode_encode_standard_fresh self n bp c Ht Hvl Hvp Hn Hbp input payload byte_pos)
    as (p' & r & He & Hd & _ & Hl & Hv); try done; [lia|unfold MAX_BYTES in *; lia|].
  exists p', r. do 3 (split; [done|]). intros k Hk. rewrite Hv.
  assert (Hal : standard_alignment (base_datatype self) = Right)
    by (unfold standard_alignment; by rewrite Hseq).
  pose proof (div_ceil_pos n 8 ltac:(lia) ltac:(lia)).
  pose proof (div_ceil_spec n 8 ltac:(lia)).
  destruct (clear_bits_spec n (aligned (div_ceil n 8) input Right)) as (_ & _ & Hc);
    [by apply aligned_bytes|lia|by apply aligned_len; lia|].
  unfold standard_packed. rewrite Hal. destruct (decide (k < n)).
  - rewrite Z.mod_pow2_bits_low, Hc, aligned_right_val by (done || lia).
    rewrite Z.mod_pow2_bits_low by lia. by rewrite (bool_decide_eq_true_2 (k < n)), andb_true_r by done.
  - rewrite Z.mod_pow2_bits_high, (bool_decide_eq_false_2 (k < n)) by lia.
    by rewrite andb_false_r.
Qed.

(** a field that starts inside a byte and reaches into one more byte than
    its length needs is written by [encode] and refused by [decode] on every
    payload: the two compute the number of bytes differently. *)
Theorem straddling_field_not_decodable self n c input payload byte_pos bp :
  type_ self = plain_standard n c -> is_byte_sequential (base_datatype self) = false ->
  validate_bit_len (base_datatype self) n = Ok () ->
  0 <= n < 2 ^ 32 -> 0 <= bp <= 7 -> 8 * div_ceil n 8 < bp + n ->
  bytes input -> bytes payload -> 0 <= byte_pos -> len payload <= MAX_BYTES ->
  byte_pos + div_ceil (bp + n) 8 <= MAX_BYTES ->
  (exists p', encode self input payload byte_pos bp = (p', Ok ())) /\
  forall p, is_ok (decode self p byte_pos bp) = false.
Proof.
  intros Ht Hseq Hv Hn Hbp Hstr Hi Hp Hpos Hpl Hmax. unfold MAX_BYTES in *.
  assert (Hvp : validate_bit_pos self bp = Ok ()) by (unfold validate_bit_pos; by rewrite Hseq).
  pose proof (validate_bit_len_pos _ _ Hv). pose proof (bit_len_bytes_bound n ltac:(lia)).
  pose proof (div_ceil_pos n 8 ltac:(lia) ltac:(lia)).
  pose proof (div_ceil_spec (bp + n) 8 ltac:(lia)).
  destruct (standard_packed_ok self n input Hi ltac:(lia)) as [Hkb Hkl]. split.
  - edestruct (encode_spec self input payload byte_pos bp) as (p' & cut & He & _);
      [done|eapply pack_standard_plain; [done|done|lia]|done|done|done|lia|done|done
      |unfold MAX_BYTES; lia|unfold MAX_BYTES; lia|unfold MAX_BYTES; lia|].
    by exists p'.
  - intros p. unfold decode, field_position. rewrite Hvp, Ht. simpl.
    unfold pos_info_standard_len. simpl. rewrite Hv. simpl.
    rewrite (proj2 (Z.eqb_neq _ _)), sat_add_exact by (unfold USIZE_MAX; lia).
    destruct (_ <? _); [done|]. destruct (slice _ _ _) as [cut|] eqn:Ec; [|done]. simpl.
    apply slice_len in Ec; [|done]. unfold unpack_data.
    by rewrite extract_bits_err by (rewrite ?normalize_len; lia).
Qed.

Lemma straddling_field_not_decodable_witness :
  let self := {| base_datatype := UInt32; type_ := plain_standard 16 false;
                 is_high_low_byte_order := true |} in
  (exists p', encode self [18; 52] [] 0 3 = (p', Ok ())) /\
  is_ok (decode self [0; 145; 160] 0 3) = false.
Proof.
  intros self. destruct (straddling_field_not_decodable self 16 false [18; 52] [] 0 3) as [He Hd];
    [reflexivity|reflexivity|reflexivity|lia|lia|vm_compute; congruence
    |repeat constructor; unfold is_u8; lia|constructor|lia|vm_compute; congruence
    |vm_compute; congruence|].
  split; [exact He|apply Hd].
Defined.

(** C36: what an unmasked numeric STANDARD-LENGTH field holds after [encode]
    appended it to a payload, digit by digit, in both byte orders and at every bit
    position.  Where the field fits into the bytes its length needs, it gets the
    digits of the input below its length, except that a length that is not a
    multiple of 8 also loses the digits from [n mod 8] to 7 of the least
    significant byte.  Where it reaches into one more byte it is written all the
    same, and no payload is read back. *)
Theorem numeric_field_roundtrip self n c input payload byte_pos bp :
  type_ self = plain_standard n c -> is_byte_sequential (base_datatype self) = false ->
  validate_bit_len (base_datatype self) n = Ok () ->
  0 <= n < 2 ^ 32 -> 0 <= bp <= 7 ->
  bytes input -> bytes payload -> len payload <= byte_pos ->
  byte_pos + div_ceil (bp + n) 8 <= MAX_BYTES ->
  exists p', encode self input payload byte_pos bp = (p', Ok ()) /\
    if bool_decide (bp + n <= 8 * div_ceil n 8) then
      exists r, decode self p' byte_pos bp = Ok (r, n) /\ len r = div_ceil n 8 /\
        forall k, 0 <= k -> Z.testbit (be_val r) k
          = Z.testbit (be_val input) k && bool_decide (k < n)
            && bool_decide (n mod 8 = 0 \/ k < n mod 8 \/ 8 <= k)
    else forall p, is_ok (decode self p byte_pos bp) = false.
Proof.
  intros Ht Hseq Hv Hn Hbp Hi Hp Hfresh Hmax. case_bool_decide.
  - destruct (decode_encode_digits self n c input payload byte_pos bp) as (p' & r & He & H'); [done..|]. exists p'. split; [done|]. by exists r.
  - pose proof (len_nonneg payload). pose proof (validate_bit_len_pos _ _ Hv). pose proof (div_ceil_pos (bp + n) 8 ltac:(lia) ltac:(lia)).
    destruct (straddling_field_not_decodable self n c input payload byte_pos bp) as [[p' He] Hd]; try done; [lia..|by exists p'].
Qed.

Lemma numeric_field_roundtrip_witness :
  let self n := {| base_datatype := UInt32; type_ := plain_standard n false; is_high_low_byte_order := true |} in
  (exists p' r, encode (self 12) [10; 188] [34] 1 2 = (p', Ok ()) /\ decode (self 12) p' 1 2 = Ok (r, 12) /\
    Z.testbit (be_val r) 2 = true /\ Z.testbit (be_val r) 7 = false /\ Z.testbit (be_val r) 9 = true) /\
  is_ok (decode (self 16) [34; 145; 160; 0] 1 3) = false.
Proof.
  intros self. split.
  - destruct (numeric_field_roundtrip (self 12) 12 false [10; 188] [34] 1 2)
      as (p' & He & r & Hd & _ & Ht);
      [reflexivity|reflexivity|reflexivity|lia|lia
      |repeat constructor; unfold is_u8; lia|repeat constructor; unfold is_u8; lia
      |vm_compute; congruence|vm_compute; congruence|].
    exists p', r. split; [exact He|]. split; [exact Hd|].
    repeat split; rewrite Ht by lia; reflexivity.
  - destruct (numeric_field_roundtrip (self 16) 16 false [18; 52] [34] 1 3)
      as (p' & _ & Hd);
      [reflexivity|reflexivity|reflexivity|lia|lia
      |repeat constructor; unfold is_u8; lia|repeat constructor; unfold is_u8; lia
      |vm_compute; congruence|vm_compute; congruence|].
    apply Hd.
Defined.
