(* ===== verification/CodedRoundtrip.v ===== *)
(** * Round trips of whole-byte fields

    Fields that cover whole bytes: STANDARD-LENGTH fields as long as their
    input, length-prefixed fields, terminated fields and fields whose length
    comes from another parameter.  Each is decoded to exactly the bytes that
    were encoded. *)

From S2P Require Import Prelude Bytes Errors BitOps DiagCodedType CodedBits CondensedMask CodedCodec.

Local Open Scope Z_scope.
Local Open Scope rust_scope.

(** ** Encoding whole bytes into a fresh tail of the payload *)

(** The payload after appending [body] at [byte_pos]. *)
Definition appended (payload : list Z) (byte_pos : Z) (body : list Z) : list Z :=
  payload ++ vec_of (byte_pos - len payload) 0 ++ body.

Lemma appended_len payload byte_pos body :
  len payload <= byte_pos -> len (appended payload byte_pos body) = byte_pos + len body.
Proof. intros. unfold appended. rewrite !len_app, len_vec_of by lia. lia. Qed.

Lemma appended_bytes payload byte_pos body :
  bytes payload -> bytes body -> bytes (appended payload byte_pos body).
Proof.
  intros. unfold appended, bytes in *. rewrite !Forall_app.
  split; [done|]. split; [apply bytes_vec_of|done].
Qed.

(** A slice of the appended body. *)
Lemma slice_appended payload byte_pos body a b :
  len payload <= byte_pos -> 0 <= a <= b -> b <= len body ->
  slice (appended payload byte_pos body) (byte_pos + a) (byte_pos + b) = slice body a b.
Proof.
  intros Hf Hab Hb. pose proof (len_nonneg payload).
  rewrite !slice_some by (rewrite ?appended_len; lia). f_equal.
  replace (byte_pos + b - (byte_pos + a)) with (b - a) by lia. f_equal.
  unfold appended. rewrite app_assoc.
  rewrite drop_app_ge by (rewrite length_app; unfold vec_of, len in *; rewrite length_replicate; lia).
  f_equal. rewrite length_app. unfold vec_of, len in *. rewrite length_replicate. lia.
Qed.

Lemma get_appended payload byte_pos body i :
  len payload <= byte_pos -> 0 <= i ->
  get (appended payload byte_pos body) (byte_pos + i) = get body i.
Proof.
  intros Hf Hi. pose proof (len_nonneg payload). unfold get, appended. rewrite app_assoc.
  rewrite lookup_app_r by (rewrite length_app; unfold vec_of, len in *; rewrite length_replicate; lia).
  f_equal. rewrite length_app. unfold vec_of, len in *. rewrite length_replicate. lia.
Qed.

(** Whole-byte packing is the identity. *)
Lemma pack_data_whole data al :
  data <> [] -> len data <= MAX_BYTES ->
  pack_data (len data *sat 8) 0 None data al = Ok (data, 8 * len data).
Proof.
  intros Hne Hmax. unfold MAX_BYTES in *.
  assert (0 < len data).
  { pose proof (len_nonneg data). destruct (decide (len data = 0)) as [?%len_zero|]; [done|lia]. }
  rewrite sat_mul_exact by (unfold USIZE_MAX; lia). unfold pack_data.
  rewrite (proj2 (Z.eqb_neq _ _)) by lia.
  rewrite pack_aligned_eq by (rewrite ?div_ceil_mul; unfold USIZE_MAX; lia). simpl.
  rewrite clear_bits_whole by (rewrite Z.mul_comm, Z.mul_comm; apply Z.mod_mul; lia).
  rewrite div_ceil_mul by lia. rewrite (Z.mul_comm 8). do 2 f_equal.
  destruct al; [|by apply aligned_left_exact].
  unfold aligned, vec_of. rewrite Z.min_id, !Z.sub_diag. done.
Qed.

Lemma encode_fresh_whole self input pk payload byte_pos :
  validate_bit_pos self 0 = Ok () ->
  pack_input self input = Ok (Some (pk, 8 * len pk, None)) -> pk <> [] ->
  bytes payload -> bytes pk -> len payload <= byte_pos ->
  byte_pos + len pk <= MAX_BYTES ->
  encode self input payload byte_pos 0
  = (appended payload byte_pos (normalize_byte_order pk (byte_order self)), Ok ()).
Proof.
  intros Hvp Hpi Hne Hpb Hkb Hfresh Hmax. pose proof (len_nonneg payload).
  assert (0 < len pk).
  { pose proof (len_nonneg pk). destruct (decide (len pk = 0)) as [?%len_zero|]; [done|lia]. }
  assert (Hcnt : div_ceil (0 + 8 * len pk) 8 = len pk) by (apply div_ceil_unique; lia).
  destruct (encode_spec self input payload byte_pos 0 pk (8 * len pk) None) as
    (p' & cut' & He & Hb' & Hl' & Hout & Hs & Hcb & Hcl & Ht);
    [done|done|done|done|lia|lia|done|lia|lia|lia|unfold MAX_BYTES in *; lia|].
  rewrite Hcnt in *. rewrite padded_len in Hl'.
  assert (Hcut : cut' = normalize_byte_order pk (byte_order self)).
  { rewrite <- (normalize_involutive cut' (byte_order self)). f_equal.
    apply be_val_inj; [by apply normalize_bytes|done|by rewrite normalize_len|].
    apply be_val_bits_inj. intros k Hk. rewrite Ht, cut_val_fresh, Z.bits_0 by (done || lia).
    rewrite Z.sub_0_r. simpl. case_bool_decide; [done|].
    symmetry. apply be_val_testbit_high; [done|lia]. }
  rewrite He. f_equal. subst cut'. apply list_eq. intros i.
  set (body := normalize_byte_order pk (byte_order self)) in *.
  assert (Hbody : len body = len pk) by apply normalize_len.
  destruct (decide (Z.of_nat i < byte_pos)) as [Hlt|Hge].
  - specialize (Hout (Z.of_nat i) ltac:(lia) ltac:(lia)). unfold get in Hout.
    rewrite Nat2Z.id in Hout. rewrite Hout. unfold padded.
    rewrite (proj2 (Z.ltb_lt _ _)) by lia. unfold grow, appended, vec_of, len in *.
    destruct (decide (i < length payload)%nat).
    + by rewrite !lookup_app_l by lia.
    + rewrite !(lookup_app_r payload) by lia.
      rewrite (lookup_app_l (replicate _ _)) by (rewrite length_replicate; lia).
      by rewrite !lookup_replicate_2 by lia.
  - replace i with (Z.to_nat (byte_pos + (Z.of_nat i - byte_pos))) by lia.
    change (get p' (byte_pos + (Z.of_nat i - byte_pos))
            = get (appended payload byte_pos body) (byte_pos + (Z.of_nat i - byte_pos))).
    rewrite get_appended by lia.
    rewrite slice_some in Hs by lia. injection Hs as Hs. rewrite <- Hs. unfold get.
    destruct (decide (Z.of_nat i - byte_pos < len pk)).
    + rewrite lookup_take_lt by lia. rewrite lookup_drop. f_equal. lia.
    + rewrite lookup_take_ge by lia. apply lookup_ge_None_2. unfold len in *. lia.
Qed.

Lemma nonempty_len {A} (l : list A) : l <> [] -> 0 < len l.
Proof.
  intros Hne. pose proof (len_nonneg l).
  destruct (decide (len l = 0)) as [?%len_zero|]; [done|lia].
Qed.

(** Byte-sequential types are never reversed as a whole. *)
Lemma sequential_order self :
  is_byte_sequential (base_datatype self) = true ->
  byte_order self = Keep \/ (byte_order self = ReorderPairs /\ base_datatype self = Unicode2String).
Proof. unfold byte_order. destruct (is_high_low_byte_order self), (base_datatype self); simpl; auto; done. Qed.

Lemma validate_bit_pos_0 self : validate_bit_pos self 0 = Ok ().
Proof. unfold validate_bit_pos. by rewrite andb_false_r. Qed.

(** The tail of [decode]: a whole-byte field that starts at [start]. *)
Lemma unpack_slice p start n cut order :
  bytes p -> 0 <= start -> 0 < n -> start + n <= len p -> len p <= MAX_BYTES ->
  slice p start (start + n) = Some cut ->
  unpack_data (n *sat 8) 0 None cut order = Ok (normalize_byte_order cut order, 8 * n).
Proof.
  intros Hp Hs Hn Hfit Hmax Hcut. unfold MAX_BYTES in *.
  pose proof (slice_len _ _ _ _ Hs Hcut) as Hcl.
  rewrite sat_mul_exact by (unfold USIZE_MAX; lia).
  replace (n * 8) with (8 * len cut) by lia.
  rewrite unpack_whole; [do 2 f_equal; lia|by eapply slice_bytes| |unfold MAX_BYTES; lia].
  intros ->. change (len (@nil Z)) with 0 in Hcl. lia.
Qed.

(** ** STANDARD-LENGTH: a field as long as its input *)

(** an unmasked STANDARD-LENGTH field of exactly the input's size is read
    back as the input, for every data type the length is legal for and in
    every byte order; the payload is only extended. *)
Theorem whole_field_roundtrip self c input payload byte_pos :
  type_ self = plain_standard (8 * len input) c ->
  validate_bit_len (base_datatype self) (8 * len input) = Ok () ->
  len input < 2 ^ 29 -> bytes input -> bytes payload -> len payload <= byte_pos ->
  byte_pos + len input <= MAX_BYTES ->
  exists body, encode self input payload byte_pos 0 = (appended payload byte_pos body, Ok ()) /\
    len body = len input /\
    decode self (appended payload byte_pos body) byte_pos 0 = Ok (input, 8 * len input).
Proof.
  intros Ht Hv Hlen Hi Hp Hfresh Hmax. pose proof (len_nonneg payload).
  assert (Hne : input <> []) by (intros ->; by apply validate_bit_len_pos in Hv).
  pose proof (nonempty_len _ Hne).
  assert (Hdc : div_ceil (8 * len input) 8 = len input) by (apply div_ceil_unique; lia).
  assert (Hpi : pack_input self input = Ok (Some (input, 8 * len input, None))).
  { rewrite (pack_standard_plain self _ c) by (done || lia). unfold standard_packed.
    rewrite Hdc, clear_bits_whole by (rewrite Z.mul_comm; apply Z.mod_mul; lia).
    unfold aligned. rewrite Z.min_id, Z.sub_diag. destruct (standard_alignment _); [done|].
    unfold vec_of. rewrite app_nil_r, take_ge by (unfold len; lia). done. }
  exists (normalize_byte_order input (byte_order self)).
  rewrite (encode_fresh_whole _ _ input) by (try apply validate_bit_pos_0; done).
  split; [done|]. split; [apply normalize_len|].
  assert (Hs : slice (appended payload byte_pos (normalize_byte_order input (byte_order self)))
      byte_pos (byte_pos + len input) = Some (normalize_byte_order input (byte_order self))).
  { rewrite <- (Z.add_0_r byte_pos) at 2.
    rewrite slice_appended by (rewrite ?normalize_len; lia).
    rewrite <- (normalize_len input (byte_order self)). apply slice_all. }
  rewrite (decode_standard self (8 * len input) 0 c Ht Hv (validate_bit_pos_0 self)
             ltac:(lia) _ _ (normalize_byte_order input (byte_order self))).
  - rewrite <- (normalize_len input (byte_order self)) at 1.
    rewrite unpack_whole, normalize_involutive, normalize_len; [done|by apply normalize_bytes| |].
    + intros E. apply Hne. apply len_zero. rewrite <- (normalize_len _ (byte_order self)), E. done.
    + rewrite normalize_len. unfold MAX_BYTES in *. lia.
  - apply appended_bytes; [done|by apply normalize_bytes].
  - lia.
  - by rewrite Hdc.
  - by rewrite Hdc.
Qed.

(** ** LEADING-LENGTH-INFO *)

Lemma be_bytes_app m k v : be_bytes (m + k) v = be_bytes m (v / 2 ^ (8 * Z.of_nat k)) ++ be_bytes k v.
Proof.
  revert v. induction k as [|k IH]; intros v.
  - rewrite Nat.add_0_r, Z.div_1_r. by rewrite app_nil_r.
  - rewrite Nat.add_succ_r. simpl be_bytes. rewrite IH, app_assoc. do 2 f_equal.
    rewrite Z.div_div by lia. do 2 f_equal.
    replace (8 * Z.of_nat (S k)) with (8 + 8 * Z.of_nat k) by lia.
    by rewrite Z.pow_add_r by lia.
Qed.

(** The length prefix [pack_leading_length] computes: the low [m] bytes of the
    input's length. *)
Lemma leading_length_bytes m v :
  (1 <= m <= 8)%nat -> 0 <= v < 2 ^ (8 * Z.of_nat m) ->
  slice (be_bytes 8 (usize_shl v (64 -sat (Z.of_nat m *sat 8)))) 0 (Z.of_nat m)
  = Some (be_bytes m v).
Proof.
  intros Hm Hv. rewrite sat_mul_exact, sat_sub_exact by (unfold USIZE_MAX; lia).
  unfold usize_shl. rewrite (Z.mod_small (64 - _)) by lia.
  assert (Hpow : 2 ^ 64 = 2 ^ (8 * Z.of_nat m) * 2 ^ (64 - Z.of_nat m * 8)).
  { rewrite <- Z.pow_add_r by lia. f_equal. lia. }
  assert (0 < 2 ^ (64 - Z.of_nat m * 8)) by (apply Z.pow_pos_nonneg; lia).
  rewrite Z.mod_small by (rewrite Hpow; nia).
  rewrite slice_some by (rewrite ?be_bytes_len; lia). rewrite drop_0, Z.sub_0_r, Nat2Z.id.
  replace 8%nat with (m + (8 - m))%nat by lia. rewrite be_bytes_app.
  replace (8 * Z.of_nat (8 - m)) with (64 - Z.of_nat m * 8) by lia.
  rewrite Z.div_mul by lia. f_equal. apply take_app_length'.
  pose proof (be_bytes_len m v). unfold len in *. lia.
Qed.

Lemma usize_from_bytes_spec l : 1 <= len l <= 8 -> usize_from_bytes l = Ok (be_val l).
Proof.
  intros Hl. assert (Hz : forall n k, be_val (replicate n 0 ++ k) = be_val k)
    by apply be_val_zeros_app.
  destruct l as [|b0 [|b1 [|b2 [|b3 [|b4 [|b5 [|b6 [|b7 [|b8 l]]]]]]]]];
    try (unfold len in Hl; simpl in Hl; lia); unfold usize_from_bytes; try by rewrite ?Hz.
Qed.

Lemma swap_pairs_app l k :
  Nat.Even (length l) -> swap_pairs (l ++ k) = swap_pairs l ++ swap_pairs k.
Proof.
  induction l as [|a|a b t IH] using swap_pairs_ind; simpl; intros He; [done| |].
  - destruct He as [x Hx]. simpl in Hx. lia.
  - rewrite IH; [done|]. destruct He as [x Hx]. simpl in Hx. exists (x - 1)%nat. lia.
Qed.

(** Splitting a field after a prefix commutes with its byte order. *)
Lemma normalize_app self l k :
  is_byte_sequential (base_datatype self) = true ->
  (base_datatype self = Unicode2String -> Nat.Even (length l)) ->
  normalize_byte_order (l ++ k) (byte_order self)
  = normalize_byte_order l (byte_order self) ++ normalize_byte_order k (byte_order self).
Proof.
  intros Hs He. destruct (sequential_order self Hs) as [->|[-> Hu]]; [done|].
  apply swap_pairs_app. auto.
Qed.

Lemma validate_unicode_even m t :
  validate_bit_len t (8 * Z.of_nat m) = Ok () -> t = Unicode2String -> Nat.Even m.
Proof.
  unfold validate_bit_len, is_multiple_of. intros Hv ->.
  destruct (Z.eqb_spec (8 * Z.of_nat m) 0); [done|]. simpl in Hv.
  destruct (Z.eqb_spec ((8 * Z.of_nat m) mod 16) 0) as [E|]; [|done].
  exists (Z.to_nat (8 * Z.of_nat m / 16)).
  pose proof (Z.div_mod (8 * Z.of_nat m) 16 ltac:(lia)). lia.
Qed.

Lemma pack_leading_spec self m input :
  type_ self = LeadingLengthInfo (8 * Z.of_nat m) -> (1 <= m <= 8)%nat ->
  len input < 2 ^ (8 * Z.of_nat m) -> Z.of_nat m + len input <= MAX_BYTES ->
  pack_input self input
  = Ok (Some (be_bytes m (len input) ++ input,
              8 * len (be_bytes m (len input) ++ input), None)).
Proof.
  intros Ht Hm Hlen Hmax. unfold pack_input. rewrite Ht. unfold pack_leading_length.
  assert (Hdc : div_ceil (8 * Z.of_nat m) 8 = Z.of_nat m) by (apply div_ceil_unique; lia).
  rewrite Hdc, leading_length_bytes by (pose proof (len_nonneg input); lia). simpl.
  assert (Hb : be_bytes m (len input) <> []).
  { intros E. pose proof (be_bytes_len m (len input)) as Hl. rewrite E in Hl.
    change (len (@nil Z)) with 0 in Hl. lia. }
  rewrite bool_decide_eq_false_2 by done.
  rewrite pack_data_whole; [done| |rewrite len_app, be_bytes_len; done].
  intros [? ?]%app_nil. done.
Qed.

Lemma slice_bound {A} (l : list A) a b r : slice l a b = Some r -> a <= b <= len l.
Proof.
  unfold slice. destruct (Z.leb_spec a b), (Z.leb_spec b (len l)); simpl; (done || lia).
Qed.

(** Where a length-prefixed field lies: behind its prefix, as many bytes as the
    prefix says. *)
Lemma pos_info_leading_spec self m p byte_pos field :
  (1 <= m <= 8)%nat -> validate_bit_len (base_datatype self) (8 * Z.of_nat m) = Ok () ->
  bytes p -> 0 <= byte_pos -> len p <= MAX_BYTES ->
  slice p byte_pos (byte_pos + Z.of_nat m) = Some field ->
  let v := be_val (normalize_byte_order field (byte_order self)) in
  byte_pos + Z.of_nat m + v <= len p ->
  pos_info_leading_len self p byte_pos 0 (byte_order self) (8 * Z.of_nat m)
  = Ok (v * 8, byte_pos + Z.of_nat m, None).
Proof.
  intros Hm Hv Hp Hpos Hmax Hs v Hfit. unfold MAX_BYTES in *.
  pose proof (slice_len _ _ _ _ Hpos Hs) as Hfl.
  pose proof (slice_bytes _ _ _ _ Hp Hs) as Hfb.
  assert (0 <= v) by (apply be_val_bound; by apply normalize_bytes).
  unfold pos_info_leading_len. rewrite Hv. cbn [mbind result_bind].
  replace (div_ceil (8 * Z.of_nat m) 8) with (Z.of_nat m) by (symmetry; apply div_ceil_unique; lia).
  rewrite (sat_add_exact byte_pos) by (unfold USIZE_MAX; lia). rewrite Hs. simpl.
  replace (8 * Z.of_nat m) with (8 * len field) by lia.
  rewrite unpack_whole; [|done| |unfold MAX_BYTES; lia].
  2: { intros ->. change (len (@nil Z)) with 0 in Hfl. lia. }
  simpl. rewrite usize_from_bytes_spec by (rewrite normalize_len; lia). simpl. fold v.
  rewrite normalize_len. replace (len field) with (Z.of_nat m) by lia.
  rewrite (sat_add_exact byte_pos), (sat_add_exact (byte_pos + _)) by (unfold USIZE_MAX; lia).
  rewrite (proj2 (Z.ltb_ge _ _)) by lia.
  rewrite sat_sub_exact, sat_mul_exact by (unfold USIZE_MAX; lia). do 3 f_equal. lia.
Qed.

(** [decode] once the position of a whole-byte field is known. *)
Lemma decode_located self p byte_pos start n cut :
  field_position self p byte_pos 0 = Ok (n * 8, start, None) ->
  bytes p -> 0 <= start -> 0 <= n -> len p <= MAX_BYTES ->
  slice p start (start + n) = Some cut ->
  decode self p byte_pos 0 = Ok (normalize_byte_order cut (byte_order self), 8 * n).
Proof.
  intros Hpi Hp Hs Hn Hmax Hcut. unfold MAX_BYTES in *.
  pose proof (slice_bound _ _ _ _ Hcut).
  unfold decode. rewrite validate_bit_pos_0. cbn [mbind result_bind]. rewrite Hpi.
  cbn [mbind result_bind].
  destruct (Z.eqb_spec (n * 8) 0) as [E0|E0].
  { assert (n = 0) as -> by lia. pose proof (slice_len _ _ _ _ Hs Hcut) as Hl.
    assert (cut = []) as -> by (apply len_zero; lia). by destruct (byte_order self). }
  rewrite div_ceil_mul, sat_add_exact by (unfold USIZE_MAX; lia).
  rewrite (proj2 (Z.ltb_ge _ _)) by lia. rewrite Hcut. simpl.
  rewrite <- (sat_mul_exact n 8) by (unfold USIZE_MAX; lia).
  apply (unpack_slice p start); (done || unfold MAX_BYTES; lia).
Qed.

(** The two halves of what [encode] appended. *)
Lemma slice_appended_two payload byte_pos a b :
  len payload <= byte_pos ->
  slice (appended payload byte_pos (a ++ b)) byte_pos (byte_pos + len a) = Some a /\
  slice (appended payload byte_pos (a ++ b)) (byte_pos + len a) (byte_pos + len a + len b) = Some b.
Proof.
  intros Hfresh. pose proof (len_nonneg payload). pose proof (len_nonneg a). pose proof (len_nonneg b). split.
  - assert (E : byte_pos = byte_pos + 0) by lia. rewrite E at 2.
    rewrite slice_appended, slice_some by (rewrite ?len_app; lia). rewrite drop_0, Z.sub_0_r. f_equal. apply take_app_length'. unfold len in *. lia.
  - rewrite <- Z.add_assoc, slice_appended, slice_some by (rewrite ?len_app; lia).
    f_equal. rewrite drop_app_length' by (unfold len in *; lia). apply take_ge. unfold len in *. lia.
Qed.

(** a length-prefixed string or byte field is decoded to exactly what was
    encoded, for every prefix of 1 to 8 bytes that can hold the length and in
    both byte orders (UTF-16 requires an even prefix, which is what
    [validate_bit_len] checks). *)
Theorem leading_length_roundtrip self m input payload byte_pos :
  type_ self = LeadingLengthInfo (8 * Z.of_nat m) -> (1 <= m <= 8)%nat ->
  is_byte_sequential (base_datatype self) = true ->
  validate_bit_len (base_datatype self) (8 * Z.of_nat m) = Ok () ->
  len input < 2 ^ (8 * Z.of_nat m) -> bytes input -> bytes payload ->
  len payload <= byte_pos -> byte_pos + Z.of_nat m + len input <= MAX_BYTES ->
  exists body, encode self input payload byte_pos 0 = (appended payload byte_pos body, Ok ()) /\
    len body = Z.of_nat m + len input /\
    decode self (appended payload byte_pos body) byte_pos 0 = Ok (input, 8 * len input).
Proof.
  intros Ht Hm Hseq Hv Hlen Hi Hp Hfresh Hmax. unfold MAX_BYTES in Hmax.
  pose proof (len_nonneg payload). pose proof (len_nonneg input).
  set (prefix := be_bytes m (len input)). set (o := byte_order self).
  assert (Hpl : len prefix = Z.of_nat m) by apply be_bytes_len.
  assert (Hpb : bytes prefix) by apply be_bytes_bytes.
  set (body := normalize_byte_order prefix o ++ normalize_byte_order input o).
  assert (Hbody : normalize_byte_order (prefix ++ input) o = body).
  { apply normalize_app; [done|]. intros Hu. unfold len in Hpl.
    replace (length prefix) with m by lia. by eapply validate_unicode_even. }
  assert (Hbl : len body = Z.of_nat m + len input)
    by (unfold body; rewrite len_app, !normalize_len, Hpl; done).
  exists body. split; [|split; [done|]].
  { rewrite (encode_fresh_whole _ _ (prefix ++ input)); [by fold o; rewrite Hbody|
      apply validate_bit_pos_0|apply pack_leading_spec; unfold MAX_BYTES; (done || lia)| |done| |done|
      rewrite len_app; unfold MAX_BYTES; lia].
    - intros [E _]%app_nil. rewrite E in Hpl. change (len (@nil Z)) with 0 in Hpl. lia.
    - apply Forall_app. done. }
  set (p' := appended payload byte_pos body).
  assert (Hp'l : len p' = byte_pos + Z.of_nat m + len input)
    by (unfold p'; rewrite appended_len; lia).
  assert (Hp'b : bytes p').
  { apply appended_bytes; [done|]. rewrite <- Hbody. by apply normalize_bytes, Forall_app. }
  pose proof (normalize_len prefix o) as Hnp. pose proof (normalize_len input o) as Hni.
  destruct (slice_appended_two payload byte_pos (normalize_byte_order prefix o) (normalize_byte_order input o))
    as [Hs1 Hs2]; [done|]. fold body p' in Hs1, Hs2. rewrite Hnp, Hpl in Hs1, Hs2. rewrite Hni in Hs2.
  assert (Hval : be_val (normalize_byte_order (normalize_byte_order prefix o) o) = len input).
  { rewrite normalize_involutive. unfold prefix. rewrite be_val_be_bytes.
    apply Z.mod_small. lia. }
  rewrite (decode_located self p' byte_pos (byte_pos + Z.of_nat m) (len input)
             (normalize_byte_order input o));
    [by fold o; rewrite normalize_involutive| |done|lia|lia|unfold MAX_BYTES; lia|done].
  unfold field_position.
  rewrite Ht, (pos_info_leading_spec self m p' byte_pos (normalize_byte_order prefix o));
    fold o; rewrite ?Hval; (done || unfold MAX_BYTES; lia).
Qed.

(** ** MIN-MAX-LENGTH *)

(** The terminator scan returns the first byte position from the start of
    the field, in steps of the character size, at which the terminator test
    holds, or the first position at or behind the end of the field; its fuel
    is always enough. *)
Lemma scan_terminator_first step max_end byte_pos found :
  1 <= step -> 0 <= byte_pos -> max_end + step <= USIZE_MAX ->
  let e := scan_terminator step max_end byte_pos found in
  (exists n, 0 <= n /\ e = byte_pos + n * step) /\
  (max_end <= e \/ found e = true) /\
  (forall n, 0 <= n -> byte_pos + n * step < e ->
     byte_pos + n * step < max_end /\ found (byte_pos + n * step) = false).
Proof.
  intros Hstep Hpos Hmax. unfold scan_terminator.
  set (cond := fun end_pos => (end_pos <? max_end) && negb (found end_pos)).
  destruct (while_loop_exits
    (fun e => (exists n, 0 <= n /\ e = byte_pos + n * step) /\
       forall n, 0 <= n -> byte_pos + n * step < e ->
         byte_pos + n * step < max_end /\ found (byte_pos + n * step) = false)
    (fun e => Z.to_nat (max_end - e)) cond (fun e => e +sat step)
    (Z.to_nat (max_end - byte_pos)) byte_pos) as [[Hn Hall] Hexit].
  - lia.
  - split; [exists 0; lia|]. intros n Hn Hlt. nia.
  - intros u ((n & Hn & ->) & Hall) Hc. unfold cond in Hc.
    apply andb_true_iff in Hc as [Hlt%Z.ltb_lt Hf%negb_true_iff].
    rewrite sat_add_exact by lia. split; [|lia].
    split; [exists (n + 1); lia|]. intros k Hk Hlt'.
    destruct (decide (k = n)) as [->|]; [done|]. apply Hall; [done|]. nia.
  - split; [done|]. split; [|done]. unfold cond in Hexit.
    apply andb_false_iff in Hexit as [?%Z.ltb_ge|?%negb_false_iff]; auto.
Qed.

(** The scan stops where the caller knows the field to end. *)
Lemma scan_terminator_at max_end byte_pos found n :
  0 <= byte_pos -> max_end + 1 <= USIZE_MAX -> 0 <= n -> byte_pos + n <= max_end ->
  (forall k, 0 <= k < n -> found (byte_pos + k) = false) ->
  (byte_pos + n = max_end \/ found (byte_pos + n) = true) ->
  scan_terminator 1 max_end byte_pos found = byte_pos + n.
Proof.
  intros Hpos Hmax Hn Hle Hnone Hend.
  destruct (scan_terminator_first 1 max_end byte_pos found ltac:(lia) Hpos ltac:(lia))
    as ((m & Hm & He) & Hstop & Hall).
  rewrite He in *. rewrite Z.mul_1_r in *.
  destruct (Z.lt_trichotomy m n) as [Hlt|[->|Hgt]]; [|done|].
  - destruct Hstop as [|Hf]; [lia|]. rewrite Hnone in Hf by lia. done.
  - destruct (Hall n Hn ltac:(lia)) as [H1 H2]. rewrite Z.mul_1_r in *.
    destruct Hend; [lia|congruence].
Qed.

Lemma min_max_order self mmlt :
  type_ self = MinMaxLength mmlt -> is_byte_sequential (base_datatype self) = true ->
  base_datatype self <> Unicode2String -> byte_order self = Keep.
Proof. intros _ Hs Hu. destruct (sequential_order self Hs) as [|[_ ?]]; [done|congruence]. Qed.

(** Encoding a MIN-MAX field appends the input and its terminator. *)
Lemma encode_min_max self mmlt input payload byte_pos :
  type_ self = MinMaxLength mmlt ->
  let pk := input ++ terminator_bytes self (termination mmlt) in
  pk <> [] -> bytes payload -> bytes input -> len payload <= byte_pos ->
  byte_pos + len pk <= MAX_BYTES ->
  encode self input payload byte_pos 0
  = (appended payload byte_pos (normalize_byte_order pk (byte_order self)), Ok ()).
Proof.
  intros Ht pk Hne Hp Hi Hfresh Hmax. pose proof (len_nonneg payload).
  apply encode_fresh_whole; try done.
  - apply validate_bit_pos_0.
  - unfold pack_input. rewrite Ht. unfold pack_min_max. fold pk.
    rewrite pack_data_whole by (done || lia). done.
  - unfold pk. apply Forall_app. split; [done|].
    unfold terminator_bytes. destruct (bool_decide (base_datatype self = Unicode2String));
      destruct (termination mmlt); repeat constructor; unfold is_u8; lia.
Qed.

Definition terminator_value (t : Termination) : Z := match t with HexFF => 255 | _ => 0 end.

Lemma byte_is_get l i v b : get l i = Some b -> byte_is l i v = (b =? v).
Proof. unfold byte_is. by intros ->. Qed.

Definition max_end_of (mmlt : MinMaxLengthType) (byte_pos : Z) (p : list Z) : Z :=
  match max_length mmlt with Some m => Z.min (byte_pos +sat m) (len p) | None => len p end.

(** The scan stops at the terminator that follows the input. *)
Lemma scan_finds_terminator min v p byte_pos input max_end :
  0 <= min <= len input -> 0 <= byte_pos -> byte_pos + len input + 1 <= MAX_BYTES ->
  byte_pos + len input <= max_end <= byte_pos + len input + 1 ->
  (forall i b, min <= i -> get input i = Some b -> b <> v) ->
  (forall i, 0 <= i -> get p (byte_pos + i) = get (input ++ [v]) i) ->
  scan_terminator 1 max_end byte_pos (terminator_found false p byte_pos min v) = byte_pos + len input.
Proof.
  unfold MAX_BYTES. intros Hmin Hpos Hmax Hme Hfree Hget. apply scan_terminator_at; try lia.
  - unfold USIZE_MAX. lia.
  - intros k Hk. unfold terminator_found. rewrite sat_sub_exact by lia.
    destruct (Z.leb_spec min (byte_pos + k - byte_pos)) as [Hge|]; [|done].
    destruct (get_lt_is_Some input k ltac:(lia)) as [b Hb]. simpl.
    rewrite (byte_is_get _ _ _ b) by (rewrite Hget, get_app_l by lia; done).
    rewrite (proj2 (Z.eqb_neq _ _)) by (eapply Hfree; [|done]; lia). done.
  - right. unfold terminator_found. rewrite sat_sub_exact by lia.
    rewrite (proj2 (Z.leb_le _ _)) by lia. simpl.
    rewrite (byte_is_get _ _ _ v), Z.eqb_refl; [done|]. rewrite Hget by lia.
    unfold get, len. rewrite Nat2Z.id, lookup_app_r, Nat.sub_diag by lia. done.
Qed.

(** Where a terminated field lies once the scan has found its terminator. *)
Lemma pos_info_terminated self mmlt p byte_pos n :
  base_datatype self <> Unicode2String -> termination mmlt <> EndOfPdu ->
  0 <= n -> 0 <= byte_pos -> min_length mmlt <= n -> byte_pos + n <= len p -> byte_pos + n + 1 <= MAX_BYTES ->
  scan_terminator 1 (max_end_of mmlt byte_pos p) byte_pos
    (terminator_found false p byte_pos (min_length mmlt) (terminator_value (termination mmlt))) = byte_pos + n ->
  pos_info_min_max_len self p byte_pos mmlt = Ok (n * 8, byte_pos, None).
Proof.
  unfold MAX_BYTES. intros Hnu Hterm Hn Hpos Hmin Hp Hmax Hscan. unfold pos_info_min_max_len.
  fold (max_end_of mmlt byte_pos p). rewrite bool_decide_eq_false_2 by done. cbv zeta.
  replace (match termination mmlt with EndOfPdu => _ | Zero => _ | HexFF => _ end)
    with (Ok (E := DiagServiceError) (byte_pos + n)).
  - cbn [mbind result_bind]. rewrite (sat_sub_exact (byte_pos + _)) by lia.
    rewrite (proj2 (Z.ltb_ge _ _)) by lia. replace (byte_pos + n - byte_pos) with n by lia.
    rewrite sat_mul_exact by (unfold USIZE_MAX; lia). done.
  - destruct (termination mmlt); [done| |]; simpl in Hscan;
      rewrite Hscan; [|done]. by rewrite (proj2 (Z.ltb_ge _ _)) by lia.
Qed.

(** a terminated byte string (ASCII, UTF-8 or byte field with a ZERO or
    HEX-FF terminator) within its length limits is decoded to exactly what was
    encoded, provided the terminator byte does not occur in it at or behind the
    minimum length. *)
Theorem terminated_roundtrip self mmlt input payload byte_pos :
  type_ self = MinMaxLength mmlt -> termination mmlt <> EndOfPdu ->
  is_byte_sequential (base_datatype self) = true -> base_datatype self <> Unicode2String ->
  0 <= min_length mmlt <= len input -> (forall m, max_length mmlt = Some m -> len input <= m) ->
  (forall i b, min_length mmlt <= i -> get input i = Some b -> b <> terminator_value (termination mmlt)) ->
  bytes input -> bytes payload -> len payload <= byte_pos ->
  byte_pos + len input + 1 <= MAX_BYTES ->
  let v := terminator_value (termination mmlt) in
  encode self input payload byte_pos 0 = (appended payload byte_pos (input ++ [v]), Ok ()) /\
  decode self (appended payload byte_pos (input ++ [v])) byte_pos 0 = Ok (input, 8 * len input).
Proof.
  intros Ht Hterm Hseq Hnu Hmin Hmaxl Hfree Hi Hp Hfresh Hmax v.
  pose proof (len_nonneg payload) as Hp0. unfold MAX_BYTES in Hmax.
  pose proof (min_max_order self mmlt Ht Hseq Hnu) as Hord.
  assert (Htb : terminator_bytes self (termination mmlt) = [v]).
  { unfold terminator_bytes, v. rewrite bool_decide_eq_false_2 by done.
    by destruct (termination mmlt). }
  assert (Hl1 : len [v] = 1) by done.
  split.
  { rewrite (encode_min_max self mmlt), Hord, Htb; try done; rewrite Htb.
    - by destruct input.
    - rewrite len_app. unfold MAX_BYTES. lia. }
  set (p' := appended payload byte_pos (input ++ [v])).
  assert (Hp'l : len p' = byte_pos + len input + 1)
    by (unfold p'; rewrite appended_len, len_app; lia).
  assert (Hp'b : bytes p').
  { apply appended_bytes; [done|]. apply bytes_snoc. split; [done|].
    unfold v, is_u8. destruct (termination mmlt); simpl; lia. }
  assert (Hget : forall i, 0 <= i -> get p' (byte_pos + i) = get (input ++ [v]) i)
    by (intros; apply get_appended; lia).
  assert (Hme : byte_pos + len input <= max_end_of mmlt byte_pos p' <= byte_pos + len input + 1).
  { unfold max_end_of. destruct (max_length mmlt) as [m|] eqn:Em; [|lia].
    specialize (Hmaxl m eq_refl). unfold sat_add, USIZE_MAX. lia. }
  rewrite <- (Z.mul_comm (len input)).
  rewrite (decode_located self p' byte_pos byte_pos (len input) input);
    [rewrite Hord; simpl; do 2 f_equal; lia| |done|lia|lia|unfold MAX_BYTES; lia|].
  - unfold field_position. rewrite Ht. apply pos_info_terminated; try (done || unfold MAX_BYTES; lia).
    apply scan_finds_terminator; (done || unfold MAX_BYTES; lia).
  - destruct (slice_appended_two payload byte_pos input [v]) as [Hs _]; [done|]. exact Hs.
Qed.

(** ** PARAM-LENGTH-INFO *)

(** a field whose length another parameter holds is read back with that
    length, in the byte order of the payload: [decode_with_runtime_byte_length]
    does not undo the byte order [encode] applies. *)
Theorem param_length_roundtrip self name input payload byte_pos :
  type_ self = ParamLengthInfo name -> input <> [] ->
  bytes input -> bytes payload -> len payload <= byte_pos ->
  byte_pos + len input <= MAX_BYTES ->
  let body := normalize_byte_order input (byte_order self) in
  encode self input payload byte_pos 0 = (appended payload byte_pos body, Ok ()) /\
  decode_with_runtime_byte_length (appended payload byte_pos body) byte_pos (len input)
  = Ok (body, 8 * len input).
Proof.
  intros Ht Hne Hi Hp Hfresh Hmax body. pose proof (nonempty_len _ Hne).
  pose proof (len_nonneg payload). unfold MAX_BYTES in *.
  pose proof (normalize_len input (byte_order self)) as Hbl. fold body in Hbl. split.
  - apply encode_fresh_whole; try done.
    + apply validate_bit_pos_0.
    + unfold pack_input. rewrite Ht.
      rewrite (sat_mul_exact (len input)) at 1 by (unfold USIZE_MAX; lia).
      rewrite (proj2 (Z.eqb_neq _ _)) by lia.
      by rewrite pack_data_whole by (done || unfold MAX_BYTES; lia).
  - unfold decode_with_runtime_byte_length. rewrite (proj2 (Z.eqb_neq _ _)) by lia.
    rewrite sat_add_exact by (unfold USIZE_MAX; lia).
    rewrite (proj2 (Z.ltb_ge _ _)) by (rewrite appended_len; lia).
    rewrite <- (Z.add_0_r byte_pos) at 2. rewrite slice_appended by lia.
    rewrite <- Hbl, slice_all. simpl. rewrite sat_mul_exact by (unfold USIZE_MAX; lia).
    do 2 f_equal. lia.
Qed.

(** ** Concrete instances *)

Lemma whole_field_roundtrip_witness :
  let self := {| base_datatype := UInt32; type_ := plain_standard 16 false;
                 is_high_low_byte_order := false |} in
  exists body, encode self [18; 52] [34] 2 0 = (appended [34] 2 body, Ok ()) /\
    decode self (appended [34] 2 body) 2 0 = Ok ([18; 52], 16).
Proof.
  intros self. destruct (whole_field_roundtrip self false [18; 52] [34] 2) as (body & He & _ & Hd);
    [reflexivity|reflexivity|vm_compute; reflexivity|repeat constructor; unfold is_u8; lia
    |repeat constructor; unfold is_u8; lia|vm_compute; congruence|vm_compute; congruence|].
  exists body. split; [exact He|exact Hd].
Defined.

Lemma leading_length_roundtrip_witness :
  let self := {| base_datatype := Unicode2String; type_ := LeadingLengthInfo 16;
                 is_high_low_byte_order := false |} in
  exists body, encode self [0; 65; 0; 66] [] 1 0 = (appended [] 1 body, Ok ()) /\
    decode self (appended [] 1 body) 1 0 = Ok ([0; 65; 0; 66], 32).
Proof.
  intros self. destruct (leading_length_roundtrip self 2 [0; 65; 0; 66] [] 1)
    as (body & He & _ & Hd);
    [reflexivity|lia|reflexivity|reflexivity|vm_compute; reflexivity
    |repeat constructor; unfold is_u8; lia|constructor|vm_compute; congruence
    |vm_compute; congruence|].
  exists body. split; [exact He|exact Hd].
Defined.

Lemma terminated_roundtrip_witness :
  let self := {| base_datatype := Utf8String;
                 type_ := MinMaxLength {| min_length := 2; max_length := Some 8;
                                          termination := Zero |};
                 is_high_low_byte_order := true |} in
  encode self [0; 65; 66] [34] 1 0 = (appended [34] 1 [0; 65; 66; 0], Ok ()) /\
  decode self (appended [34] 1 [0; 65; 66; 0]) 1 0 = Ok ([0; 65; 66], 24).
Proof.
  intros self. apply (terminated_roundtrip self
    {| min_length := 2; max_length := Some 8; termination := Zero |} [0; 65; 66] [34] 1);
    [reflexivity|discriminate|reflexivity|discriminate|vm_compute; split; congruence
    |intros m [= <-]; vm_compute; congruence| |repeat constructor; unfold is_u8; lia
    |repeat constructor; unfold is_u8; lia|vm_compute; congruence|vm_compute; congruence].
  simpl. intros i b Hi Hg. unfold get in Hg.
  destruct (Z.to_nat i) as [|[|[|k]]] eqn:Ei; simpl in Hg; simplify_eq; lia.
Defined.

Lemma param_length_roundtrip_witness :
  let self := {| base_datatype := ByteField; type_ := ParamLengthInfo [108; 101; 110];
                 is_high_low_byte_order := true |} in
  encode self [1; 2; 3] [34] 1 0 = (appended [34] 1 [1; 2; 3], Ok ()) /\
  decode_with_runtime_byte_length (appended [34] 1 [1; 2; 3]) 1 3 = Ok ([1; 2; 3], 24).
Proof.
  intros self. apply (param_length_roundtrip self [108; 101; 110] [1; 2; 3] [34] 1);
    [reflexivity|discriminate|repeat constructor; unfold is_u8; lia
    |repeat constructor; unfold is_u8; lia|vm_compute; congruence|vm_compute; congruence].
Defined.
