(* ===== verification/CodedLaws.v ===== *)
(** * Masked fields, the frame of [encode], and construction

    What [encode] leaves alone in the payload, fields under a bit mask (plain
    and condensed), the fields [encode] writes and [decode] refuses, and the
    well-formedness the constructors of a coded type establish. *)

From S2P Require Import Prelude Bytes Errors BitOps DiagCodedType CodedBits CondensedMask CodedCodec CodedRoundtrip.

Local Open Scope Z_scope.
Local Open Scope rust_scope.

(** ** Length preservation *)

Lemma set_bit_checked_len l i off v c l' :
  set_bit_checked l i off v c = Ok l' -> len l' = len l.
Proof. unfold set_bit_checked. destruct (get l i); [|done]. intros [= <-]. apply len_set. Qed.

Lemma for_range_len {S} (f : S -> list Z) (body : Z -> S -> dresult (flow S)) lo hi s t :
  (forall i u v, body i u = Ok (Continue v) \/ body i u = Ok (Break v) -> len (f v) = len (f u)) ->
  for_range lo hi body s = Ok t -> len (f t) = len (f s).
Proof.
  intros Hstep. unfold for_range. generalize (Z.to_nat (hi - lo)). intros n.
  revert lo s. induction n as [|n IH]; intros lo s; simpl; [by intros [= <-]|].
  destruct (body lo s) as [[u|u]|] eqn:E0; simpl; [| |done].
  - intros ->%IH. apply (Hstep lo). by left.
  - intros [= <-]. apply (Hstep lo). by right.
Qed.

Lemma apply_bit_mask_len data mask n bp r :
  apply_bit_mask data mask n bp = Ok r -> len r = len data.
Proof.
  unfold apply_bit_mask. intros H. apply (for_range_len id) in H; [done|].
  intros i u v. cbv beta zeta. destruct (_ <=? _); [by intros [[=]|[= <-]]|].
  destruct (set_bit_checked _ _ _ _ _) as [w|] eqn:E0; simpl; [|by intros [|]].
  intros [[= <-]|[=]]. by apply set_bit_checked_len in E0.
Qed.

Lemma inject_bits_len n bp dst src r : inject_bits n bp dst src = Ok r -> len r = len dst.
Proof.
  unfold inject_bits. destruct (_ <? _); [done|]. destruct (_ =? _); [done|]. cbv zeta.
  match goal with |- context [for_range ?a ?b ?f ?s] =>
    destruct (for_range a b f s) as [[p l]|] eqn:E0; [|done] end.
  intros [= <-]. apply (for_range_len snd) in E0; [done|].
  intros i [p0 d] [p1 d']. simpl. destruct (get src _); simpl; [|by intros [|]].
  destruct (_ <=? _); [by intros [[=]|[= _ <-]]|].
  destruct (set_bit_checked _ _ _ _ _) as [w|] eqn:E1; simpl; [|by intros [|]].
  intros [[= _ <-]|[=]]. by apply set_bit_checked_len in E1.
Qed.

Lemma write_cut_out_len self cut p bp r : write_cut_out self cut p bp = Ok r -> len r = len cut.
Proof.
  destruct p as [[pk n] mask]. unfold write_cut_out.
  intros (c1 & H1 & (c2 & H2 & [= <-])%bind_ok)%bind_ok.
  rewrite normalize_len. apply inject_bits_len in H2. rewrite H2.
  destruct mask; [apply apply_bit_mask_len in H1; rewrite H1|injection H1 as <-];
    apply normalize_len.
Qed.

(** ** The frame *)

(** [encode] changes nothing outside the bytes of its field, whatever the
    coded type, mask, input and outcome: the payload is left as it was, or
    extended with zeros to the end of the field, and only a successful call
    rewrites the bytes of the field. *)
Theorem encode_frame self input payload byte_pos bp p' r :
  encode self input payload byte_pos bp = (p', r) ->
  0 <= byte_pos -> 0 <= bp ->
  p' = payload \/
  exists pk n mask, pack_input self input = Ok (Some (pk, n, mask)) /\
    let stop := byte_pos +sat div_ceil (bp +sat n) 8 in
    (r <> Ok () -> p' = padded payload stop) /\
    len p' = Z.max (len payload) stop /\
    forall i, 0 <= i -> i < byte_pos \/ stop <= i -> get p' i = get (padded payload stop) i.
Proof.
  intros He Hpos Hbp. unfold encode in He.
  destruct (_ ≫= _) as [[[[pk n] mask]|]|e] eqn:Epk in He;
    [|by left; simplify_eq|by left; simplify_eq].
  right. exists pk, n, mask. apply bind_ok in Epk as ([] & _ & Hpi). split; [done|].
  cbv zeta in He |- *. set (stop := byte_pos +sat div_ceil (bp +sat n) 8) in *.
  fold (padded payload stop) in He.
  pose proof (padded_len payload stop) as Hpl.
  destruct (slice _ _ _) as [cut|] eqn:Es in He;
    [|by simpl in He; simplify_eq].
  cbn [ok_or mbind result_bind] in He.
  destruct (write_cut_out _ _ _ _) as [c'|] eqn:Ew in He; simplify_eq; [|done].
  pose proof (slice_len _ _ _ _ Hpos Es) as Hl. pose proof (slice_bound _ _ _ _ Es) as Hb.
  apply write_cut_out_len in Ew. split; [done|]. split.
  - rewrite copy_from_slice_len by lia. done.
  - intros i Hi Hout. apply get_copy_from_slice; lia.
Qed.

Lemma encode_frame_witness :
  let self := {| base_datatype := UInt32; type_ := plain_standard 8 false;
                 is_high_low_byte_order := true |} in
  exists pk n mask, pack_input self [7] = Ok (Some (pk, n, mask)) /\
    get [1; 7; 3] 2 = get (padded [1; 2; 3] (1 +sat div_ceil (0 +sat n) 8)) 2.
Proof.
  intros self. destruct (encode_frame self [7] [1; 2; 3] 1 0 [1; 7; 3] (Ok ()))
    as [[=]|(pk & n & mask & Hp & _ & _ & H)]; [vm_compute; reflexivity|lia|lia|].
  exists pk, n, mask. split; [done|]. apply H; [lia|]. right.
  vm_compute in Hp. injection Hp as <- <- <-. vm_compute. discriminate.
Defined.

(** ** Fields under a mask *)

Definition masked_standard (n : Z) (m : list Z) (c : bool) : DiagCodedTypeVariant :=
  StandardLength {| bit_length := n; bit_mask := Some m; condensed := c |}.

Lemma pack_condensed self m input :
  type_ self = masked_standard (8 * len m) m true ->
  validate_bit_len (base_datatype self) (8 * len m) = Ok () ->
  bytes m -> m <> [] -> bytes input -> len m <= MAX_BYTES -> len input <= MAX_BYTES ->
  rank (be_val m) (8 * len m) <= 8 * len input ->
  exists pk, pack_input self input
      = Ok (Some (pk, 8 * len m, Some {| mask_data := m; mask_condensed := true |})) /\
    bytes pk /\ len pk = len m /\
    forall k, 0 <= k -> Z.testbit (be_val pk) k
      = Z.testbit (be_val m) k && Z.testbit (be_val input) (rank (be_val m) k).
Proof.
  intros Ht Hv Hm Hne Hi Hmm Him Hr. unfold MAX_BYTES in *. pose proof (nonempty_len _ Hne).
  destruct (condensed_packing_spec input m) as (pk & Hp & Hb & Hl & Hd);
    [done|done|unfold USIZE_MAX; lia|unfold USIZE_MAX; lia|done|].
  exists pk. split; [|done]. unfold pack_input. rewrite Ht. unfold pack_standard_length.
  simpl. rewrite Hv. simpl. rewrite bool_decide_eq_false_2 by done.
  unfold pack_data. rewrite (proj2 (Z.eqb_neq _ _)) by lia. simpl. rewrite Hp. simpl.
  by rewrite (proj2 (Z.ltb_ge _ _)) by lia.
Qed.

(** [decode] of a whole-byte field under a condensed mask, from its cut-out. *)
Lemma decode_condensed self m p byte_pos cut :
  type_ self = masked_standard (8 * len m) m true ->
  validate_bit_len (base_datatype self) (8 * len m) = Ok () ->
  bytes m -> m <> [] -> bytes p -> 0 <= byte_pos -> byte_pos + len m <= MAX_BYTES ->
  0 < rank (be_val m) (8 * len m) ->
  slice p byte_pos (byte_pos + len m) = Some cut ->
  let field := be_val (normalize_byte_order cut (byte_order self)) in
  exists r, decode self p byte_pos 0 = Ok (r, rank (be_val m) (8 * len m)) /\
    len r = div_ceil (rank (be_val m) (8 * len m)) 8 /\
    (forall i, 0 <= i < 8 * len m -> Z.testbit (be_val m) i = true ->
       Z.testbit (be_val r) (rank (be_val m) i) = Z.testbit field i) /\
    (forall j, rank (be_val m) (8 * len m) <= j -> Z.testbit (be_val r) j = false).
Proof.
  intros Ht Hv Hm Hne Hp Hpos Hmax Hr Hcut field. unfold MAX_BYTES in *.
  pose proof (nonempty_len _ Hne). pose proof (slice_len _ _ _ _ Hpos Hcut) as Hcl.
  pose proof (slice_bound _ _ _ _ Hcut) as Hcb.
  assert (Hbc : bytes cut) by (by eapply slice_bytes).
  assert (Hdc : div_ceil (8 * len m) 8 = len m) by (apply div_ceil_unique; lia).
  destruct (condensed_unpacking_spec m (normalize_byte_order cut (byte_order self)) (8 * len m))
    as (r & Hu & Hb & Hl & Hin & Hout);
    [done|by apply normalize_bytes|rewrite normalize_len; lia|rewrite normalize_len; lia
    |unfold USIZE_MAX; lia|done|].
  exists r. split; [|done]. unfold decode. rewrite validate_bit_pos_0. simpl.
  unfold field_position. rewrite Ht. simpl. unfold pos_info_standard_len. simpl. rewrite Hv. simpl.
  rewrite (proj2 (Z.eqb_neq _ _)) by lia. rewrite Hdc, sat_add_exact by (unfold USIZE_MAX; lia).
  rewrite (proj2 (Z.ltb_ge _ _)) by lia. rewrite Hcut. simpl.
  assert (Hw : unpack_data (8 * len m) 0 None cut (byte_order self)
               = Ok (normalize_byte_order cut (byte_order self), 8 * len m)).
  { replace (8 * len m) with (8 * len cut) by lia. apply unpack_whole; [done| |unfold MAX_BYTES; lia].
    intros ->. change (len (@nil Z)) with 0 in *. lia. }
  unfold unpack_data in *. apply bind_ok in Hw as (bd & -> & [= ->]). done.
Qed.

(** a value under a condensed mask is scattered over the ones of the mask
    and gathered back: [decode] returns exactly the digits of the input the
    mask has room for, over any earlier payload content, and [encode] leaves
    every digit of the field outside the mask as it was. *)
Theorem condensed_roundtrip self m input payload byte_pos :
  type_ self = masked_standard (8 * len m) m true ->
  validate_bit_len (base_datatype self) (8 * len m) = Ok () ->
  bytes m -> 0 < rank (be_val m) (8 * len m) <= 8 * len input ->
  bytes input -> bytes payload -> len input <= MAX_BYTES -> len payload <= MAX_BYTES ->
  0 <= byte_pos -> byte_pos + len m <= MAX_BYTES ->
  exists p' cut r, encode self input payload byte_pos 0 = (p', Ok ()) /\
    decode self p' byte_pos 0 = Ok (r, rank (be_val m) (8 * len m)) /\
    len r = div_ceil (rank (be_val m) (8 * len m)) 8 /\
    be_val r = be_val input mod 2 ^ rank (be_val m) (8 * len m) /\
    slice p' byte_pos (byte_pos + len m) = Some cut /\
    forall k, 0 <= k -> Z.testbit (be_val m) k = false ->
      Z.testbit (be_val (normalize_byte_order cut (byte_order self))) k
      = Z.testbit (cut_val self payload byte_pos (len m)) k.
Proof.
  intros Ht Hv Hm Hr Hi Hp Hil Hpl Hpos Hmax. unfold MAX_BYTES in *.
  assert (Hne : m <> []) by (intros ->; change (len (@nil Z)) with 0 in Hr; rewrite rank_0 in Hr; lia).
  pose proof (nonempty_len _ Hne).
  destruct (pack_condensed self m input) as (pk & Hpi & Hkb & Hkl & Hkd);
    try (done || unfold MAX_BYTES; lia).
  assert (Hdc : div_ceil (0 + 8 * len m) 8 = len m) by (apply div_ceil_unique; lia).
  destruct (encode_spec self input payload byte_pos 0 pk (8 * len m)
     (Some {| mask_data := m; mask_condensed := true |})) as
    (p' & cut & He & Hb' & Hl' & _ & Hs & Hcb & Hcl & Hd);
    [by apply validate_bit_pos_0|done|done|done|lia|lia|split; [done|simpl; lia]|done
    |rewrite Hdc; unfold MAX_BYTES; lia|unfold MAX_BYTES; lia|unfold MAX_BYTES; lia|].
  rewrite Hdc in *.
  destruct (decode_condensed self m p' byte_pos cut) as (r & Hdec & Hrl & Hin & Hout);
    try (done || unfold MAX_BYTES; lia).
  exists p', cut, r. do 3 (split; [done|]). split; [|split; [done|]].
  - apply Z.bits_inj'. intros j Hj. destruct (decide (j < rank (be_val m) (8 * len m))).
    + rewrite Z.mod_pow2_bits_low by done.
      destruct (rank_surjective (be_val m) (8 * len m) j) as (i & Hi' & Hmi & <-); [lia|lia|].
      rewrite Hin by done. rewrite Hd by lia. rewrite bool_decide_eq_true_2 by lia.
      unfold mask_bit; simpl. rewrite Z.sub_0_r, Hkd, Hmi by lia. simpl. by rewrite andb_false_r.
    + rewrite Z.mod_pow2_bits_high by lia. apply Hout. lia.
  - intros k Hk Hmk. rewrite Hd by done. unfold mask_bit; simpl.
    rewrite Z.sub_0_r, Hkd, Hmk by done. simpl. by rewrite !andb_false_r, andb_true_r, orb_false_r.
Qed.

Lemma condensed_roundtrip_witness :
  let self := {| base_datatype := UInt32; type_ := masked_standard 16 [240; 15] true;
                 is_high_low_byte_order := false |} in
  exists p' cut r, encode self [171] [255; 255; 255] 1 0 = (p', Ok ()) /\
    decode self p' 1 0 = Ok (r, 8) /\ be_val r = 171 /\ slice p' 1 3 = Some cut /\ get p' 0 = Some 255.
Proof.
  intros self.
  destruct (condensed_roundtrip self [240; 15] [171] [255; 255; 255] 1)
    as (p' & cut & r & He & Hd & _ & Hv & Hs & _);
    [reflexivity|reflexivity|repeat constructor; unfold is_u8; lia|vm_compute; split; congruence
    |repeat constructor; unfold is_u8; lia|repeat constructor; unfold is_u8; lia
    |vm_compute; congruence|vm_compute; congruence|lia|vm_compute; congruence|].
  exists p', cut, r. split; [exact He|]. split; [exact Hd|]. split; [rewrite Hv; reflexivity|].
  split; [exact Hs|]. vm_compute in He. injection He as <-. reflexivity.
Defined.

(** Packing and decoding a whole-byte-aligned numeric field under a plain
    mask. *)
Lemma pack_plain_mask self n m input :
  type_ self = masked_standard n m false -> is_byte_sequential (base_datatype self) = false ->
  validate_bit_len (base_datatype self) n = Ok () -> 0 <= n < 2 ^ 32 ->
  bytes m -> n <= 8 * len m -> len m <= MAX_BYTES -> bytes input ->
  exists pk, pack_input self input = Ok (Some (pk, n, Some {| mask_data := m; mask_condensed := false |})) /\
    bytes pk /\ len pk = div_ceil n 8 /\
    forall k, 0 <= k < n -> Z.testbit (be_val pk) k =
      Z.testbit (be_val input) k && Z.testbit (be_val m) k && bool_decide (n mod 8 = 0 \/ k < n mod 8 \/ 8 <= k).
Proof.
  intros Ht Hseq Hv Hn Hm Hnm Hmm Hi. unfold MAX_BYTES in *.
  pose proof (validate_bit_len_pos _ _ Hv). pose proof (bit_len_bytes_bound n ltac:(lia)).
  pose proof (div_ceil_pos n 8 ltac:(lia) ltac:(lia)). pose proof (div_ceil_spec n 8 ltac:(lia)).
  assert (Hne : m <> []) by (intros ->; change (len (@nil Z)) with 0 in *; lia).
  set (al := aligned (div_ceil n 8) input Right).
  assert (Halb : bytes al) by (by apply aligned_bytes).
  assert (Hall : len al = div_ceil n 8) by (by apply aligned_len; lia).
  destruct (clear_bits_spec n al) as (Hcb & Hcl & Hct); [done|lia|done|].
  set (cl := clear_bits_above_bit_len n al) in *.
  destruct (apply_bit_mask_spec cl m n 0) as (pk & Hpk & Hkb & Hkl & Hkt);
    [done|done|lia|lia|unfold USIZE_MAX; lia|unfold USIZE_MAX; lia|].
  exists pk. split; [|split; [done|split; [congruence|]]].
  - unfold pack_input. rewrite Ht. unfold pack_standard_length. simpl. rewrite Hv. simpl.
    rewrite bool_decide_eq_false_2 by done. unfold pack_data.
    rewrite (proj2 (Z.eqb_neq _ _)) by lia. simpl. unfold standard_alignment. rewrite Hseq.
    rewrite pack_aligned_eq by (unfold USIZE_MAX; lia). fold al. fold cl. cbn [mbind result_bind mask_data].
    rewrite Hpk. simpl. by rewrite (proj2 (Z.ltb_ge _ _)) by lia.
  - intros k Hk. rewrite Hkt, Z.sub_0_r, (bool_decide_eq_false_2 (k < 0 \/ _)), Hct by lia.
    unfold al. rewrite aligned_right_val, Z.mod_pow2_bits_low by (done || lia).
    destruct (Z.testbit (be_val m) k); simpl; rewrite ?andb_false_r, ?andb_true_r; done.
Qed.

Lemma decode_plain_mask self n m p byte_pos cut :
  type_ self = masked_standard n m false ->
  validate_bit_len (base_datatype self) n = Ok () -> 0 <= n < 2 ^ 32 ->
  bytes m -> n <= 8 * len m -> len m <= MAX_BYTES -> bytes cut -> len cut = div_ceil n 8 ->
  0 <= byte_pos -> len p <= MAX_BYTES -> slice p byte_pos (byte_pos + div_ceil n 8) = Some cut ->
  exists r, decode self p byte_pos 0 = Ok (r, n) /\ len r = div_ceil n 8 /\
    forall k, 0 <= k -> Z.testbit (be_val r) k =
      bool_decide (k < n) && Z.testbit (be_val (normalize_byte_order cut (byte_order self))) k
      && Z.testbit (be_val m) k.
Proof.
  intros Ht Hv Hn Hm Hnm Hmm Hc Hcl Hpos Hp Hs. unfold MAX_BYTES in *.
  pose proof (validate_bit_len_pos _ _ Hv). pose proof (bit_len_bytes_bound n ltac:(lia)).
  pose proof (div_ceil_pos n 8 ltac:(lia) ltac:(lia)). pose proof (div_ceil_spec n 8 ltac:(lia)).
  assert (Hne : m <> []) by (intros ->; change (len (@nil Z)) with 0 in *; lia).
  destruct (unpack_plain n 0 cut (byte_order self)) as (bd & Hbd & Hbb & Hbl & Hbv);
    [done|lia|lia|lia|unfold MAX_BYTES; lia|].
  destruct (apply_bit_mask_spec bd m n 0) as (r & Hr & Hrb & Hrl & Hrt);
    [done|done|lia|lia|unfold USIZE_MAX; lia|unfold USIZE_MAX; lia|].
  exists r. split; [|split; [lia|]].
  - pose proof (slice_bound _ _ _ _ Hs) as Hsb. unfold decode. rewrite validate_bit_pos_0. simpl.
    unfold field_position. rewrite Ht. simpl. unfold pos_info_standard_len. simpl. rewrite Hv. simpl.
    rewrite (proj2 (Z.eqb_neq _ _)), sat_add_exact by (unfold USIZE_MAX; lia).
    rewrite (proj2 (Z.ltb_ge _ _)) by lia. rewrite Hs. simpl.
    unfold unpack_data in *. apply bind_ok in Hbd as (x & -> & [= ->]). simpl. by rewrite Hr.
  - intros k Hk. rewrite Hrt, Hbv, Z.sub_0_r by done. destruct (decide (k < n)) as [Hlt|Hge].
    + rewrite Z.mod_pow2_bits_low, Z.div_1_r by lia.
      by rewrite (bool_decide_eq_true_2 (k < n)), (bool_decide_eq_false_2 (_ \/ _)) by lia.
    + rewrite Z.mod_pow2_bits_high by lia. simpl. by rewrite (bool_decide_eq_false_2 (k < n)) by lia.
Qed.

(** a numeric field under a plain mask, at bit 0: [decode] returns the digits
    of the input that lie below the length and under the mask (less the low
    digits [numeric_field_roundtrip] loses), whatever the payload held before. *)
Theorem masked_field_roundtrip self n m input payload byte_pos :
  type_ self = masked_standard n m false -> is_byte_sequential (base_datatype self) = false ->
  validate_bit_len (base_datatype self) n = Ok () -> 0 <= n < 2 ^ 32 ->
  bytes m -> n <= 8 * len m -> len m <= MAX_BYTES -> bytes input -> bytes payload ->
  len payload <= MAX_BYTES -> 0 <= byte_pos -> byte_pos + div_ceil n 8 <= MAX_BYTES ->
  exists p' r, encode self input payload byte_pos 0 = (p', Ok ()) /\
    decode self p' byte_pos 0 = Ok (r, n) /\ len r = div_ceil n 8 /\
    forall k, 0 <= k -> Z.testbit (be_val r) k
      = Z.testbit (be_val input) k && bool_decide (k < n) && Z.testbit (be_val m) k
        && bool_decide (n mod 8 = 0 \/ k < n mod 8 \/ 8 <= k).
Proof.
  intros Ht Hseq Hv Hn Hm Hnm Hmm Hi Hp Hpl Hpos Hmax.
  pose proof (validate_bit_len_pos _ _ Hv). pose proof (div_ceil_spec n 8 ltac:(lia)).
  assert (Hne : m <> []) by (intros ->; change (len (@nil Z)) with 0 in *; lia).
  destruct (pack_plain_mask self n m input) as (pk & Hpi & Hkb & Hkl & Hkt); [done..|].
  destruct (encode_spec self input payload byte_pos 0 pk n
     (Some {| mask_data := m; mask_condensed := false |})) as
    (p' & cut & He & Hb' & Hl' & _ & Hs & Hcub & Hcul & Hd);
    [by apply validate_bit_pos_0|done|done|done|lia|lia|split; [done|simpl; lia]|done
    |by rewrite Z.add_0_l|unfold MAX_BYTES in *; lia|done|].
  rewrite Z.add_0_l in *.
  destruct (decode_plain_mask self n m p' byte_pos cut) as (r & Hdec & Hrl & Hrt);
    [done|done|done|done|done|done|done|done|done
    |rewrite Hl', padded_len by lia; unfold MAX_BYTES in *; lia|done|].
  exists p', r. split; [done|]. split; [done|]. split; [done|].
  intros k Hk. rewrite Hrt by done. destruct (decide (k < n)) as [Hlt|Hge].
  - rewrite Hd by done. unfold mask_bit; simpl. rewrite Z.sub_0_r.
    rewrite (bool_decide_eq_true_2 (0 <= k < n)), (bool_decide_eq_true_2 (k < n)), Hkt by lia.
    destruct (Z.testbit (be_val m) k); simpl; rewrite ?andb_false_r, ?andb_true_r; done.
  - rewrite (bool_decide_eq_false_2 (k < n)) by lia. by rewrite andb_false_r.
Qed.

Lemma masked_field_roundtrip_witness :
  let self := {| base_datatype := UInt32; type_ := masked_standard 8 [60] false;
                 is_high_low_byte_order := true |} in
  exists p' r, encode self [255] [129] 0 0 = (p', Ok ()) /\ decode self p' 0 0 = Ok (r, 8) /\
    Z.testbit (be_val r) 2 = true /\ Z.testbit (be_val r) 1 = false.
Proof.
  intros self. destruct (masked_field_roundtrip self 8 [60] [255] [129] 0)
    as (p' & r & He & Hd & _ & Ht);
    [reflexivity|reflexivity|reflexivity|lia|repeat constructor; unfold is_u8; lia
    |vm_compute; congruence|vm_compute; congruence|repeat constructor; unfold is_u8; lia
    |repeat constructor; unfold is_u8; lia|vm_compute; congruence|lia|vm_compute; congruence|].
  exists p', r. split; [exact He|]. split; [exact Hd|].
  split; rewrite Ht by lia; reflexivity.
Defined.

(** ** End-of-PDU fields *)

(** a field that ends with the PDU is appended without a terminator and
    reads back whole, up to its maximum length, in both byte orders. *)
Theorem end_of_pdu_roundtrip self mmlt input payload byte_pos :
  type_ self = MinMaxLength mmlt -> termination mmlt = EndOfPdu ->
  is_byte_sequential (base_datatype self) = true -> input <> [] ->
  min_length mmlt <= len input -> (forall m, max_length mmlt = Some m -> len input <= m) ->
  bytes input -> bytes payload -> len payload <= byte_pos -> byte_pos + len input <= MAX_BYTES ->
  exists body, encode self input payload byte_pos 0 = (appended payload byte_pos body, Ok ()) /\
    len body = len input /\
    decode self (appended payload byte_pos body) byte_pos 0 = Ok (input, 8 * len input).
Proof.
  intros Ht Hterm Hseq Hne Hmin Hmaxl Hi Hp Hfresh Hmax. unfold MAX_BYTES in *.
  pose proof (len_nonneg payload). pose proof (nonempty_len _ Hne).
  assert (Htb : terminator_bytes self (termination mmlt) = []) by (by rewrite Hterm).
  exists (normalize_byte_order input (byte_order self)).
  pose proof (normalize_len input (byte_order self)) as Hnl.
  split; [|split; [done|]].
  { rewrite (encode_min_max self mmlt); rewrite ?Htb, ?app_nil_r; done. }
  set (p' := appended payload byte_pos (normalize_byte_order input (byte_order self))).
  assert (Hp'l : len p' = byte_pos + len input) by (unfold p'; rewrite appended_len; lia).
  rewrite (decode_located self p' byte_pos byte_pos (len input)
    (normalize_byte_order input (byte_order self)));
    [by rewrite normalize_involutive| | |lia|lia|unfold MAX_BYTES; lia|].
  - unfold field_position. rewrite Ht. unfold pos_info_min_max_len. rewrite Hterm. cbv zeta.
    cbn [mbind result_bind].
    replace (match max_length mmlt with Some m => _ | None => _ end) with (byte_pos + len input).
    + rewrite sat_sub_exact by lia. rewrite (proj2 (Z.ltb_ge _ _)) by lia.
      rewrite sat_mul_exact by (unfold USIZE_MAX; lia). do 3 f_equal. lia.
    + destruct (max_length mmlt) as [m|] eqn:Em; [|done]. specialize (Hmaxl m eq_refl).
      unfold sat_add, USIZE_MAX. lia.
  - apply appended_bytes; [done|by apply normalize_bytes].
  - rewrite <- (Z.add_0_r byte_pos) at 1. unfold p'. rewrite slice_appended by lia.
    rewrite <- Hnl. apply slice_all.
Qed.

Lemma end_of_pdu_roundtrip_witness :
  let self := {| base_datatype := AsciiString;
                 type_ := MinMaxLength {| min_length := 1; max_length := Some 4;
                                          termination := EndOfPdu |};
                 is_high_low_byte_order := true |} in
  exists body, encode self [72; 105] [34] 1 0 = (appended [34] 1 body, Ok ()) /\
    decode self (appended [34] 1 body) 1 0 = Ok ([72; 105], 16).
Proof.
  intros self.
  destruct (end_of_pdu_roundtrip self
    {| min_length := 1; max_length := Some 4; termination := EndOfPdu |} [72; 105] [34] 1)
    as (body & He & _ & Hd);
    [reflexivity|reflexivity|reflexivity|discriminate|vm_compute; congruence
    |intros m [= <-]; vm_compute; congruence|repeat constructor; unfold is_u8; lia
    |repeat constructor; unfold is_u8; lia|vm_compute; congruence|vm_compute; congruence|].
  exists body. split; [exact He|exact Hd].
Defined.

(** ** Construction *)

(** What [DiagCodedType::new] guarantees about the type it returns. *)
Definition coded_type_ok (t : DiagCodedType) : Prop :=
  match type_ t with
  | LeadingLengthInfo _ => is_byte_sequential (base_datatype t) = true
  | MinMaxLength m =>
      is_byte_sequential (base_datatype t) = true /\
      (base_datatype t = Unicode2String ->
         min_length m mod 2 = 0 /\ exists l, max_length m = Some l /\ l mod 2 = 0)
  | _ => True
  end.

(** C40: [DiagCodedType::new] accepts exactly the well-formed combinations and
    returns them unchanged. *)
Theorem DiagCodedType_new_spec base variant hl t :
  DiagCodedType_new base variant hl = Ok t <->
  t = {| base_datatype := base; type_ := variant; is_high_low_byte_order := hl |} /\
  coded_type_ok t.
Proof.
  unfold DiagCodedType_new, coded_type_ok, is_multiple_of. destruct variant as [b|m|s|nm]; simpl.
  - destruct (is_byte_sequential base) eqn:E; simpl; split; [by intros [= <-]|by intros [-> _]|done|].
    intros [-> Hs]. simpl in Hs. congruence.
  - destruct (is_byte_sequential base) eqn:E; simpl; [|split; [done|]; intros [-> [Hs _]]; simpl in Hs; congruence].
    case_bool_decide as Hu; simpl.
    + destruct (Z.eqb_spec (min_length m mod 2) 0) as [E1|E1]; simpl.
      * destruct (max_length m) as [l|] eqn:Em; simpl;
          [destruct (Z.eqb_spec (l mod 2) 0) as [E2|E2]; simpl|].
        -- split; [|by intros [-> _]]. intros [= <-]. simpl. split; [done|]. split; [done|].
           intros _. split; [done|]. by exists l.
        -- split; [done|]. intros [-> [_ Hs]]. destruct (Hs Hu) as [_ (l' & Hl' & Hz)]. simpl in Hl'.
           by simplify_eq.
        -- split; [done|]. intros [-> [_ Hs]]. destruct (Hs Hu) as [_ (l' & Hl' & _)]. simpl in Hl'. congruence.
      * split; [done|]. intros [-> [_ Hs]]. by destruct (Hs Hu) as [? _].
    + split; [|by intros [-> _]]. intros [= <-]. simpl. done.
  - split; [by intros [= <-]|by intros [-> _]].
  - split; [by intros [= <-]|by intros [-> _]].
Qed.

(** A database entry whose data type the length rule does not allow: the
    conversion from the database does not go through [DiagCodedType::new]. *)
Example try_from_skips_the_checks_of_new :
  let fb := {| fb_base_data_type := 1; fb_is_high_low_byte_order := true;
               fb_specific_data_type := 1; fb_as_leading_length_info_type := Some 8;
               fb_as_min_max_length_type := None; fb_as_param_length_info_type := None;
               fb_as_standard_length_type := None |} in
  exists t, DiagCodedType_try_from fb = Ok t /\ ~ coded_type_ok t /\
    DiagCodedType_new (base_datatype t) (type_ t) true = Err InvalidDatabase.
Proof. eexists. split; [reflexivity|]. split; [discriminate|reflexivity]. Qed.

(** whatever the conversion from the database returns has length limits
    in order: a maximum is positive and not below the minimum. *)
Theorem try_from_limits fb t m l :
  DiagCodedType_try_from fb = Ok t -> type_ t = MinMaxLength m -> max_length m = Some l ->
  l <> 0 /\ min_length m <= l.
Proof.
  unfold DiagCodedType_try_from. intros (b & _ & (v & Hv & [= <-])%bind_ok)%bind_ok Ht Hl.
  simpl in Ht. subst v. unfold DiagCodedTypeVariant_try_from in Hv.
  destruct (fb_specific_data_type fb) as [|[[| |]|[[| |]|[| |]|]|]|]; try done.
  - apply bind_ok in Hv as (x & _ & (y & _ & (z & _ & [=])%bind_ok)%bind_ok).
  - by destruct (fb_as_standard_length_type fb); simpl in Hv.
  - apply bind_ok in Hv as (x & _ & (tm & _ & Hv)%bind_ok). unfold MinMaxLengthType_new in Hv.
    destruct (fb_mm_max_length x) as [k|] eqn:Ek; simpl in Hv; [|by simplify_eq].
    destruct (Z.eqb_spec k 0); [done|]. destruct (Z.ltb_spec k (fb_mm_min_length x)); [done|].
    simpl in Hv. simplify_eq. simpl in *. by simplify_eq.
  - by destruct (fb_as_leading_length_info_type fb); simpl in Hv.
Qed.

Lemma try_from_limits_witness :
  let fb := {| fb_base_data_type := 3; fb_is_high_low_byte_order := true;
               fb_specific_data_type := 2; fb_as_leading_length_info_type := None;
               fb_as_min_max_length_type := Some {| fb_mm_min_length := 2;
                 fb_mm_max_length := Some 9; fb_mm_termination := 1 |};
               fb_as_param_length_info_type := None; fb_as_standard_length_type := None |} in
  9 <> 0 /\ 2 <= 9.
Proof.
  intros fb. apply (try_from_limits fb
    {| base_datatype := AsciiString;
       type_ := MinMaxLength {| min_length := 2; max_length := Some 9; termination := Zero |};
       is_high_low_byte_order := true |}
    {| min_length := 2; max_length := Some 9; termination := Zero |} 9); reflexivity.
Defined.

(** ** Where the round trip fails *)

(** A 12-bit value loses its low nibble's upper digits: [0xABC] becomes [0xA0C]. *)
Example twelve_bit_value_loses_a_nibble :
  let self := {| base_datatype := UInt32; type_ := plain_standard 12 false;
                 is_high_low_byte_order := true |} in
  encode self [0; 0; 10; 188] [] 0 0 = ([10; 12], Ok ()) /\
  decode self [10; 188] 0 0 = Ok ([10; 188], 12).
Proof. vm_compute. split; reflexivity. Qed.

(** At bit position 4 the mask [0x05] does not mask what [decode] returns. *)
Example mask_ignored_at_bit_pos :
  let self := {| base_datatype := UInt32; type_ := masked_standard 4 [5] false;
                 is_high_low_byte_order := true |} in
  decode self [240] 0 4 = Ok ([15], 4) /\ decode self [15] 0 0 = Ok ([5], 4).
Proof. vm_compute. split; reflexivity. Qed.

(** A condensed value shorter than its mask leaves the mask's own ones in the
    payload. *)
Example short_condensed_value_leaves_ones :
  let self := {| base_datatype := UInt32; type_ := masked_standard 16 [255; 255] true;
                 is_high_low_byte_order := true |} in
  encode self [0] [] 0 0 = ([255; 0], Ok ()).
Proof. vm_compute. reflexivity. Qed.

(** A UTF-16 string behind an 8-bit length is written and then refused. *)
Example unicode_with_byte_prefix_not_decodable :
  let self := {| base_datatype := Unicode2String; type_ := LeadingLengthInfo 8;
                 is_high_low_byte_order := true |} in
  encode self [0; 65] [] 0 0 = ([2; 0; 65], Ok ()) /\
  decode self [2; 0; 65] 0 0 = Err BadPayload.
Proof. vm_compute. split; reflexivity. Qed.

(** A field whose length comes from another parameter is written reversed in
    low-high order and read back unreversed. *)
Example param_length_low_high_not_inverted :
  let self := {| base_datatype := UInt32; type_ := ParamLengthInfo [108; 101; 110];
                 is_high_low_byte_order := false |} in
  encode self [1; 2] [] 0 0 = ([2; 1], Ok ()) /\
  decode_with_runtime_byte_length [2; 1] 0 2 = Ok ([2; 1], 16).
Proof. vm_compute. split; reflexivity. Qed.
