(* ===== verification/Values.v ===== *)
(** * Values of parameters

    The data of cda-database/src/datatypes/data_operation.rs (computation
    methods, limits, physical types), [DiagDataValue] of
    cda-core/src/diag_kernel.rs and the first half of
    cda-core/src/diag_kernel/operations.rs: the bytes of a parameter to the
    value that is shown.  Conversion.v has the other direction. *)

From stdpp Require Import strings gmap.
From stdpp Require Import list.
From S2P Require Import Prelude Bytes Errors Text Ieee754 Json DiagCodedType.

Local Open Scope Z_scope.
Set Warnings "-register-all".

(** ** Data *)

Inductive CompuCategory : Type :=
  | Identical
  | Linear
  | ScaleLinear
  | TextTable
  | CompuCode
  | TabIntp
  | RatFunc
  | ScaleRatFunc.

Inductive IntervalType : Type := Open | Closed | Infinite.

#[export] Instance IntervalType_eq_dec : EqDecision IntervalType.
Proof. solve_decision. Defined.

Record Limit : Type := { limit_value : str; interval_type : IntervalType }.

Record CompuValues : Type := { v : spec_float; vt : option str; vt_ti : option str }.

Record CompuRationalCoefficients : Type := { numerator : list spec_float; denominator : list spec_float }.

Record CompuScale : Type := {
  lower_limit : option Limit;
  upper_limit : option Limit;
  rational_coefficients : option CompuRationalCoefficients;
  consts : option CompuValues;
  inverse_values : option CompuValues
}.

(** [internal_to_phys.scales] *)
Record CompuMethod : Type := { category : CompuCategory; scales : list CompuScale }.

Inductive Radix : Type := Hex | Decimal | Binary | Octal.

Record PhysicalType : Type := {
  precision : option Z;
  base_type : DataType;
  display_radix : option Radix
}.

(** A structure's values by name. *)
Inductive DiagDataValue : Type :=
  | VInt32 (z : Z)
  | VUInt32 (z : Z)
  | VFloat32 (f : spec_float)
  | VString (s : str)
  | VByteField (l : list Z)
  | VFloat64 (f : spec_float)
  | VStruct (m : gmap str DiagDataValue)
  | VRepeatingStruct (l : list (gmap str DiagDataValue)).

(** ** Text from bytes *)

(** [String::from_utf8]. *)
Definition continuation (b : Z) : bool := in_range 128 b 191.
Fixpoint from_utf8 (l : list Z) : option str :=
  match l with
  | [] => Some []
  | b0 :: l1 =>
      if in_range 0 b0 127 then cons b0 <$> from_utf8 l1
      else
        match l1 with
        | b1 :: l2 =>
            if in_range 194 b0 223 && continuation b1
            then cons ((b0 - 192) * 64 + (b1 - 128)) <$> from_utf8 l2
            else
              match l2 with
              | b2 :: l3 =>
                  if in_range 224 b0 239
                     && in_range (if b0 =? 224 then 160 else 128) b1 (if b0 =? 237 then 159 else 191)
                     && continuation b2
                  then cons ((b0 - 224) * 4096 + (b1 - 128) * 64 + (b2 - 128)) <$> from_utf8 l3
                  else
                    match l3 with
                    | b3 :: l4 =>
                        if in_range 240 b0 244
                           && in_range (if b0 =? 240 then 144 else 128) b1 (if b0 =? 244 then 143 else 191)
                           && continuation b2 && continuation b3
                        then cons ((b0 - 240) * 262144 + (b1 - 128) * 4096 + (b2 - 128) * 64 + (b3 - 128))
                               <$> from_utf8 l4
                        else None
                    | [] => None
                    end
              | [] => None
              end
        | [] => None
        end
  end.

(** A 32-bit pattern as a signed number. *)
Definition i32_of_u32 (z : Z) : Z := if z <? 2 ^ 31 then z else z - 2 ^ 32.

(** [i32::from_be_bytes]. *)
Definition i32_from_be_bytes (l : list Z) : Z := i32_of_u32 (be_val l).

Definition DiagDataValue_new (diag_type : DataType) (data : list Z) : dresult DiagDataValue :=
  match diag_type with
  | Int32 => bytes ← u32_padded_bytes data; Ok (VInt32 (i32_from_be_bytes bytes))
  | UInt32 => bytes ← u32_padded_bytes data; Ok (VUInt32 (be_val bytes))
  | Float32 => bytes ← u32_padded_bytes data; Ok (VFloat32 (from_be_bytes F32 bytes))
  | AsciiString => Ok (VString data)
  | Utf8String | Unicode2String => VString <$> ok_or (from_utf8 data) ParameterConversionError
  | ByteField => Ok (VByteField data)
  | Float64 => bytes ← f64_padded_bytes data; Ok (VFloat64 (from_be_bytes F64 bytes))
  end.

(** ** Limits *)

Definition limit_f64 (self : Limit) : dresult spec_float :=
  if non_empty (limit_value self) then ok_or (parse_float F64 (limit_value self)) ParameterConversionError
  else Ok (S754_zero false).
Definition limit_f32 (self : Limit) : dresult spec_float :=
  if non_empty (limit_value self) then ok_or (parse_float F32 (limit_value self)) ParameterConversionError
  else Ok (S754_zero false).

(** [TryInto<u32>] and [TryInto<i32>] *)
Definition limit_int (lo hi : Z) (self : Limit) : dresult Z :=
  f ← limit_f64 self;
  if SFltb f (of_Z F64 lo) || SFltb (of_Z F64 hi) f || negb (is_finite f) then Err ParameterConversionError
  else Ok (as_int lo hi f).
Definition limit_u32 : Limit -> dresult Z := limit_int 0 U32_MAX.
Definition limit_i32 : Limit -> dresult Z := limit_int I32_MIN I32_MAX.

Section external.
Context {ext : Externals}.

Definition is_ascii_digit (c : Z) : bool := in_range ch_0 c ch_9.

(** [TryInto<Vec<u8>>] *)
Definition limit_token (value : str) : dresult (list Z) :=
  if forallb is_ascii_digit value then
    v ← ok_or (from_str_radix 0 255 value 10) ParameterConversionError; Ok [v]
  else if existsb (fun c => c =? 46) value then
    f ← ok_or (parse_float F64 value) ParameterConversionError; Ok [as_int 0 255 f]
  else match try_strip_hex_prefix value with
       | Some stripped => decode_hex hex_decode stripped
       | None => decode_hex hex_decode value
       end.
Definition limit_bytes (self : Limit) : dresult (list Z) :=
  mjoin <$> mapM limit_token (split_whitespace (limit_value self)).

(** The comparisons of [PartialOrd]: none holds of a NaN. *)
Definition check_numeric_limits {T} (lt le : T -> T -> bool) (try_into : Limit -> dresult T)
    (value : T) (upper lower : option Limit) : bool :=
  let upper_ok :=
    match upper with
    | None => true
    | Some u => match try_into u with
                | Ok u_val => if bool_decide (interval_type u = Open) then lt value u_val else le value u_val
                | Err _ => false
                end
    end in
  let lower_ok :=
    match lower with
    | None => true
    | Some l => match try_into l with
                | Ok l_val => if bool_decide (interval_type l = Open) then lt l_val value else le l_val value
                | Err _ => false
                end
    end in
  upper_ok && lower_ok.

(** [Vec<u8> as PartialOrd]: the first difference decides. *)
Fixpoint bytes_leb (a b : list Z) : bool :=
  match a, b with
  | [], _ => true
  | _ :: _, [] => false
  | x :: a', y :: b' => (x <? y) || ((x =? y) && bytes_leb a' b')
  end.

Definition len_or_0 (l : option (list Z)) : Z := match l with Some l => len l | None => 0 end.

Definition within_limits (self : DiagDataValue) (upper lower : option Limit) : bool :=
  match self with
  | VInt32 v => check_numeric_limits Z.ltb Z.leb limit_i32 v upper lower
  | VUInt32 v => check_numeric_limits Z.ltb Z.leb limit_u32 v upper lower
  | VFloat32 v => check_numeric_limits SFltb SFleb limit_f32 v upper lower
  | VFloat64 v => check_numeric_limits SFltb SFleb limit_f64 v upper lower
  | VByteField v =>
      let upper_bytes := u ← upper; result_ok (limit_bytes u) in
      let lower_bytes := l ← lower; result_ok (limit_bytes l) in
      let max_len := Z.max (len v) (Z.max (len_or_0 upper_bytes) (len_or_0 lower_bytes)) in
      let padded_v := pad_msb_to_len v max_len in
      match upper_bytes with Some u => bytes_leb padded_v (pad_msb_to_len u max_len) | None => true end
      && match lower_bytes with Some l => bytes_leb (pad_msb_to_len l max_len) padded_v | None => true end
  | VString v =>
      match upper with Some u => bool_decide (limit_value u = v) | None => true end
      && match lower with Some l => bool_decide (limit_value l = v) | None => true end
  | VStruct _ | VRepeatingStruct _ => false
  end.

(** ** Numbers *)

(** [TryInto<f64>] *)
Definition value_f64 (self : DiagDataValue) : dresult spec_float :=
  match self with
  | VInt32 i | VUInt32 i => Ok (of_Z F64 i)
  | VFloat32 f => Ok (convert F64 f)
  | VFloat64 f => Ok f
  | _ => Err ParameterConversionError
  end.

(** [TryInto<u32>] *)
Definition value_u32 (self : DiagDataValue) : dresult Z :=
  match self with
  | VInt32 i => if 0 <=? i then Ok i else Err ParameterConversionError
  | VUInt32 i => Ok i
  | VFloat32 f =>
      if SFltb f (S754_zero false) || SFltb (of_Z F64 U32_MAX) (convert F64 f)
      then Err ParameterConversionError else Ok (as_int 0 U32_MAX f)
  | VFloat64 f =>
      if SFltb f (S754_zero false) || SFltb (of_Z F64 U32_MAX) f
      then Err ParameterConversionError else Ok (as_int 0 U32_MAX f)
  | _ => Err ParameterConversionError
  end.

(** [from_number] of an [f64]; [to_string] is its [Display], which the callers
    never reach: they have converted the value from a number. *)
Definition from_number (to_string : spec_float -> str) (value : spec_float) (diag_type : DataType)
    : dresult DiagDataValue :=
  match diag_type with
  | Int32 => VInt32 <$> ok_or (float_to_int I32_MIN I32_MAX value) ParameterConversionError
  | UInt32 => VUInt32 <$> ok_or (float_to_int 0 U32_MAX value) ParameterConversionError
  | Float32 => Ok (VFloat32 (convert F32 value))
  | Float64 => Ok (VFloat64 value)
  | ByteField => Ok (VByteField (to_be_bytes F64 value))
  | AsciiString | Utf8String | Unicode2String => Ok (VString (to_string value))
  end.

(** ** Computation methods *)

Inductive ConversionDirection : Type :=
  | InternalToPhys
  | PhysToInternal (inverse : option CompuValues).

Definition apply_linear_conversion (coefficients : CompuRationalCoefficients) (value : spec_float)
    (direction : ConversionDirection) : dresult spec_float :=
  if negb (len (numerator coefficients) =? 2) then Err InvalidDatabase
  else if 1 <? len (denominator coefficients) then Err InvalidDatabase
  else
    offset ← ok_or (numerator coefficients !! 0%nat) InvalidDatabase;
    factor ← ok_or (numerator coefficients !! 1%nat) InvalidDatabase;
    let d := default (of_Z F64 1) (head (denominator coefficients)) in
    match direction with
    | PhysToInternal inverse =>
        if SFeqb factor (S754_zero false) then
          match inverse with Some inverse => Ok (v inverse) | None => Err InvalidDatabase end
        else Ok (SFdiv 53 1024 (SFsub 53 1024 (SFmul 53 1024 d value) offset) factor)
    | InternalToPhys =>
        if SFeqb d (S754_zero false) then Err InvalidDatabase
        else Ok (SFdiv 53 1024 (SFadd 53 1024 offset (SFmul 53 1024 factor value)) d)
    end.

(** [get_nrc_code] of iso_14229_nrc.rs *)
Definition get_nrc_code (val : Z) : str :=
  match val with
  | 0 => chars "Positive Response"
  | 16 => chars "General Reject"
  | 17 => chars "Service Not Supported"
  | 18 => chars "Sub-function Not Supported"
  | 19 => chars "Incorrect Message Length Or Invalid Format"
  | 20 => chars "Response Too Long"
  | 33 => chars "Busy Repeat Request"
  | 34 => chars "Conditions Not Correct"
  | 36 => chars "Request Sequence Error"
  | 37 => chars "No Response From Subnet Component"
  | 38 => chars "Failure Prevents Execution Of Requested Action"
  | 49 => chars "Request Out Of Range"
  | 51 => chars "Security Access Denied"
  | 52 => chars "Authentication Required"
  | 53 => chars "Invalid Key"
  | 54 => chars "Exceed Number Of Attempts"
  | 55 => chars "Required Time Delay Not Expired"
  | 56 => chars "Secure Data Transmission Required"
  | 57 => chars "Secure Data Transmission Not Allowed"
  | 58 => chars "Secure Data Verification Failed"
  | 80 => chars "Certificate verification failed - Invalid Time Period"
  | 81 => chars "Certificate verification failed - Invalid Signature"
  | 82 => chars "Certificate verification failed - Invalid Chain of Trust"
  | 83 => chars "Certificate verification failed - Invalid Type"
  | 84 => chars "Certificate verification failed - Invalid Format"
  | 85 => chars "Certificate verification failed - Invalid Content"
  | 86 => chars "Certificate verification failed - Invalid Scope"
  | 87 => chars "Certificate verification failed - Invalid Certificate (revoked)"
  | 88 => chars "Ownership verification failed"
  | 89 => chars "Challenge calculation failed"
  | 90 => chars "Setting Access Rights failed"
  | 91 => chars "Session key creation/derivation failed"
  | 92 => chars "Configuration data usage failed"
  | 93 => chars "DeAuthentication failed"
  | 112 => chars "uploadDownloadNotAccepted"
  | 113 => chars "transferDataSuspended"
  | 114 => chars "generalProgrammingFailure"
  | 115 => chars "wrongBlockSequenceCounter"
  | 120 => chars "Request Correctly Received-Response Pending"
  | 126 => chars "Sub-function Not Supported In Active Session"
  | 127 => chars "Service Not Supported In Active Session"
  | 129 => chars "Rpm Too High"
  | 130 => chars "Rpm Too Low"
  | 131 => chars "Engine Is Running"
  | 132 => chars "Engine Is Not Running"
  | 133 => chars "Engine Run Time Too Low"
  | 134 => chars "Temperature Too High"
  | 135 => chars "Temperature Too Low"
  | 136 => chars "Vehicle Speed Too High"
  | 137 => chars "Vehicle Speed Too Low"
  | 138 => chars "Throttle/Pedal Position Too High"
  | 139 => chars "Throttle/Pedal Position Too Low"
  | 140 => chars "Transmission Range Not In Neutral"
  | 141 => chars "Transmission Range Not In Gear"
  | 143 => chars "Brake Switch(es) Not Closed (Brake Pedal not pressed or not applied)"
  | 144 => chars "Shifter Lever Not In Park"
  | 145 => chars "Torque Converter Clutch Locked"
  | 146 => chars "Voltage Too High"
  | 147 => chars "Voltage Too Low"
  | 148 => chars "Resource Temporarily Not Available"
  | _ => chars "ISO SAE Reserved"
  end.

(** What [Display] makes of a float; see [from_number]. *)
Context (to_string : spec_float -> str).

Definition compu_lookup_linear (diag_type : DataType) (compu_method : CompuMethod)
    (lookup : DiagDataValue) (scale : CompuScale) : dresult DiagDataValue :=
  if negb (len (scales compu_method) =? 1) then Err InvalidDatabase
  else
    coefficients ← ok_or (rational_coefficients scale) InvalidDatabase;
    lookup_val ← value_f64 lookup;
    val ← apply_linear_conversion coefficients lookup_val InternalToPhys;
    from_number to_string val diag_type.

Definition compu_lookup_scale_linear (diag_type : DataType) (lookup : DiagDataValue) (scale : CompuScale)
    : dresult DiagDataValue :=
  coefficients ← ok_or (rational_coefficients scale) InvalidDatabase;
  lookup_val ← value_f64 lookup;
  val ← apply_linear_conversion coefficients lookup_val InternalToPhys;
  from_number to_string val diag_type.

Definition text_of (c : CompuValues) : option str :=
  match vt c with Some t => Some t | None => vt_ti c end.

Definition compu_lookup_text_table (scale : CompuScale) : dresult DiagDataValue :=
  consts ← ok_or (consts scale) InvalidDatabase;
  VString <$> ok_or (text_of consts) UdsLookupError.

(** The first scale whose limits admit the value. *)
Definition find_scale (lookup : DiagDataValue) (l : list CompuScale) : option CompuScale :=
  snd <$> list_find (fun scale => within_limits lookup (upper_limit scale) (lower_limit scale)) l.

Definition compu_lookup (diag_type : DataType) (compu_method : CompuMethod) (category : CompuCategory)
    (is_negative_response : bool) (data : list Z) : dresult DiagDataValue :=
  if (match category with Linear => true | _ => false end) && bool_decide (scales compu_method = [])
  then Err InvalidDatabase
  else
    lookup ← DiagDataValue_new diag_type data;
    match find_scale lookup (scales compu_method) with
    | Some scale =>
        match category with
        | Linear => compu_lookup_linear diag_type compu_method lookup scale
        | ScaleLinear => compu_lookup_scale_linear diag_type lookup scale
        | TextTable => compu_lookup_text_table scale
        | CompuCode | TabIntp | RatFunc | ScaleRatFunc => Err RequestNotSupported
        | Identical => Err RequestNotSupported (* unreachable: handled by the caller *)
        end
    | None =>
        if is_negative_response then
          lookup ← value_u32 lookup;
          Ok (VString (if lookup <=? 255 then get_nrc_code lookup
                       else chars "Unknown (" ++ decimal lookup ++ chars ")"))
        else DiagDataValue_new diag_type data
    end.

Definition uds_data_to_serializable (diag_type : DataType) (compu_method : option CompuMethod)
    (is_negative_response : bool) (data : list Z) : dresult DiagDataValue :=
  if bool_decide (data = []) then Ok (VString [])
  else
    match compu_method with
    | Some compu_method =>
        match category compu_method with
        | Identical => DiagDataValue_new diag_type data
        | category => compu_lookup diag_type compu_method category is_negative_response data
        end
    | None => DiagDataValue_new diag_type data
    end.
End external.
