(* ===== verification/Conversion.v ===== *)
(** * JSON values to the bytes of parameters

    The second half of cda-core/src/diag_kernel/operations.rs.  Some
    conversions end in [expect]; a result is a value, an error of the source or
    a panic. *)

From stdpp Require Import strings gmap.
From stdpp Require Import list.
From S2P Require Import Prelude Bytes Errors Text Ieee754 Json DiagCodedType Values.

Local Open Scope Z_scope.

Definition conversion_error {A} : presult A := Err (Failed ParameterConversionError).

(** [<[u8; 4]>::try_from], which needs exactly [n] bytes. *)
Definition array_of (n : Z) (l : list Z) : option (list Z) := if len l =? n then Some l else None.

(** ** Bit lengths *)

(** [T::from(1).checked_shl(n)] for a type with [bits] bits. *)
Definition checked_shl_one (signed : bool) (bits n : Z) : option Z :=
  if n <? bits then Some (if signed && (n =? bits - 1) then - 2 ^ n else 2 ^ n) else None.

(** [validate_bit_len_signed] at [i32] ([bits = 32]) and [i64]. *)
Definition validate_bit_len_signed (bits value bit_len : Z) : dresult () :=
  if bit_len =? 0 then Err ParameterConversionError
  else
    let t_min := - 2 ^ (bits - 1) in
    let t_max := 2 ^ (bits - 1) - 1 in
    let in_type z := if in_range t_min z t_max then Some z else None in
    let shifted := checked_shl_one true bits (sat_sub bit_len 1) in
    let max_value := default t_max (v ← shifted; in_type (v - 1)) in
    let min_value := default t_min (v ← shifted; in_type (- v)) in
    if value <? min_value then Err ParameterConversionError
    else if max_value <? value then Err ParameterConversionError
    else Ok ().

(** [validate_bit_len_unsigned] at [u32] and [u64]. *)
Definition validate_bit_len_unsigned (bits value bit_len : Z) : dresult () :=
  if bit_len =? 0 then Err ParameterConversionError
  else
    let max_value := match checked_shl_one false bits bit_len with
                     | Some v => sat_sub v 1
                     | None => 2 ^ bits - 1
                     end in
    if max_value <? value then Err ParameterConversionError else Ok ().

(** [v.to_be_bytes()] of a 32-bit integer. *)
Definition i32_to_be_bytes (z : Z) : list Z := be_bytes 4 (z mod 2 ^ 32).

(** ** Numbers from text *)

Section external.
Context {ext : Externals}.

Definition decode_u32_radix (prefix : str) (radix : Z) (value : str) : dresult (list Z) :=
  let stripped := default value (Text.strip_prefix prefix value) in
  if negb (forallb (fun c => in_range ch_0 c (ch_0 + radix - 1)) stripped) then Err ParameterConversionError
  else i32_to_be_bytes <$> ok_or (from_str_radix 0 U32_MAX stripped radix) ParameterConversionError.
Definition decode_u32_octal_with_optional_prefix : str -> dresult (list Z) := decode_u32_radix (chars "0o") 8.
Definition decode_u32_binary_with_optional_prefix : str -> dresult (list Z) := decode_u32_radix (chars "0b") 2.

Definition starts_with (p s : str) : bool := match Text.strip_prefix p s with Some _ => true | None => false end.

(** Only ASCII letters become [x], [o] and [b] in lower case. *)
Definition decode_numeric_val_from_str (value : str) (physical_type : PhysicalType) (diag_type : DiagCodedType)
    : presult (list Z) :=
  let bit_len := default 32 (bit_len diag_type) in
  match base_type physical_type with
  | Int32 =>
      v ← fallible (ok_or (parse_i32 value) ParameterConversionError);
      _ ← fallible (validate_bit_len_signed 32 v bit_len);
      Ok (i32_to_be_bytes v)
  | UInt32 =>
      let lowercase := ascii_lower <$> value in
      if starts_with (chars "0x") lowercase then
        decoded ← fallible (decode_hex_with_optional_prefix hex_decode value);
        let decoded := if len decoded <? 4 then pad_msb_to_len decoded 4 else decoded in
        bytes ← expect (array_of 4 decoded);
        _ ← fallible (validate_bit_len_unsigned 32 (be_val bytes) bit_len);
        Ok (i32_to_be_bytes (be_val bytes))
      else if starts_with (chars "0o") lowercase then fallible (decode_u32_octal_with_optional_prefix value)
      else if starts_with (chars "0b") lowercase then fallible (decode_u32_binary_with_optional_prefix value)
      else
        v ← fallible (ok_or (parse_u32 value) ParameterConversionError);
        _ ← fallible (validate_bit_len_unsigned 32 v bit_len);
        Ok (i32_to_be_bytes v)
  | Float32 => to_be_bytes F32 <$> fallible (ok_or (parse_float F32 value) ParameterConversionError)
  | Float64 => to_be_bytes F64 <$> fallible (ok_or (parse_float F64 value) ParameterConversionError)
  | AsciiString | Utf8String | Unicode2String | ByteField => conversion_error
  end.

(** The number in [n] bytes, as an [f64]. *)
Definition f64_of_bytes (n : Z) (read : list Z -> spec_float) (base_bytes : list Z) : presult spec_float :=
  if n <? len base_bytes then conversion_error
  else read <$> expect (array_of n (pad_msb_to_len base_bytes n)).

Definition parse_json_to_f64 (value : Value) (diag_type : DiagCodedType) (physical_type : option PhysicalType)
    : presult spec_float :=
  match as_f64 value with
  | Some num => Ok num
  | None =>
      match as_i64 value with
      | Some num => Ok (of_Z F64 num)
      | None =>
          match as_str value, physical_type with
          | Some s, Some phys_type =>
              base_bytes ← decode_numeric_val_from_str s phys_type diag_type;
              match base_datatype diag_type with
              | Int32 => f64_of_bytes 4 (fun l => of_Z F64 (i32_from_be_bytes l)) base_bytes
              | UInt32 => f64_of_bytes 4 (fun l => of_Z F64 (be_val l)) base_bytes
              | Float32 => f64_of_bytes 4 (fun l => convert F64 (from_be_bytes F32 l)) base_bytes
              | Float64 => f64_of_bytes 8 (from_be_bytes F64) base_bytes
              | AsciiString | Utf8String | Unicode2String | ByteField => conversion_error
              end
          | _, _ => conversion_error
          end
      end
  end.

(** ** Computation methods *)

Definition linear_scaled_value_to_bytes (value : spec_float) (diag_type : DataType) : dresult (list Z) :=
  match diag_type with
  | Int32 => Ok (i32_to_be_bytes (as_int I32_MIN I32_MAX value))
  | UInt32 => Ok (i32_to_be_bytes (as_int 0 U32_MAX value))
  | Float32 => Ok (to_be_bytes F32 (convert F32 value))
  | Float64 => Ok (to_be_bytes F64 value)
  | _ => Err InvalidDatabase
  end.

Definition compu_convert_linear (diag_type : DiagCodedType) (compu_method : CompuMethod)
    (phys_type : option PhysicalType) (value : Value) : presult (list Z) :=
  if negb (len (scales compu_method) =? 1) then Err (Failed InvalidDatabase)
  else
    scale ← fallible (ok_or (head (scales compu_method)) UdsLookupError);
    physical_value ← parse_json_to_f64 value diag_type phys_type;
    coeffs ← fallible (ok_or (rational_coefficients scale) UdsLookupError);
    internal_value ← fallible (apply_linear_conversion coeffs physical_value (PhysToInternal (inverse_values scale)));
    fallible (linear_scaled_value_to_bytes internal_value (base_datatype diag_type)).

(** A limit after the conversion of the scale; [None] when there is none, or
    when it cannot be converted. *)
Definition phys_limit (coeffs : CompuRationalCoefficients) (limit : option Limit) : option spec_float :=
  l ← limit;
  internal_val ← result_ok (limit_f64 l);
  result_ok (apply_linear_conversion coeffs internal_val InternalToPhys).

Definition within_phys_limit (lt le : spec_float -> spec_float -> bool) (value : spec_float)
    (coeffs : CompuRationalCoefficients) (limit : option Limit) : bool :=
  match phys_limit coeffs limit with
  | None => true
  | Some l =>
      match limit with
      | Some limit =>
          match interval_type limit with Closed => le value l | Open => lt value l | Infinite => true end
      | None => le value l
      end
  end.

Definition scale_admits (physical_value : spec_float) (scale : CompuScale) : bool :=
  match rational_coefficients scale with
  | None => false
  | Some coeffs =>
      within_phys_limit (fun a b => SFltb b a) (fun a b => SFleb b a) physical_value coeffs (lower_limit scale)
      && within_phys_limit SFltb SFleb physical_value coeffs (upper_limit scale)
  end.

Definition compu_convert_scale_linear (diag_type : DiagCodedType) (compu_method : CompuMethod)
    (phys_type : option PhysicalType) (value : Value) : presult (list Z) :=
  physical_value ← parse_json_to_f64 value diag_type phys_type;
  scale ← fallible (ok_or (snd <$> list_find (fun s => scale_admits physical_value s) (scales compu_method)) UdsLookupError);
  coeffs ← fallible (ok_or (rational_coefficients scale) UdsLookupError);
  internal_value ← fallible (apply_linear_conversion coeffs physical_value (PhysToInternal (inverse_values scale)));
  fallible (linear_scaled_value_to_bytes internal_value (base_datatype diag_type)).

(** The lower limit of the first scale with this text that has one. *)
Fixpoint find_text (value : str) (l : list CompuScale) : option Limit :=
  match l with
  | [] => None
  | scale :: l =>
      match (if bool_decide ((c ← consts scale; text_of c) = Some value) then lower_limit scale else None) with
      | Some limit => Some limit
      | None => find_text value l
      end
  end.

Definition compu_convert_text_table (diag_type : DataType) (compu_method : CompuMethod) (value : Value)
    : dresult (list Z) :=
  if negb (bool_decide (diag_type ∈ [Int32; UInt32; Float32; Float64])) then Err InvalidDatabase
  else
    value ← ok_or (as_str value) UdsLookupError;
    limit ← ok_or (find_text (filter (fun c => c <> ch_quote) value) (scales compu_method)) UdsLookupError;
    match diag_type with
    | Int32 => i32_to_be_bytes <$> limit_i32 limit
    | UInt32 => i32_to_be_bytes <$> limit_u32 limit
    | Float32 => to_be_bytes F32 <$> limit_f32 limit
    | _ => to_be_bytes F64 <$> limit_f64 limit
    end.

Definition compu_convert (diag_type : DiagCodedType) (compu_method : CompuMethod) (phys_type : option PhysicalType)
    (category : CompuCategory) (value : Value) : presult (list Z) :=
  match category with
  | Linear => compu_convert_linear diag_type compu_method phys_type value
  | ScaleLinear => compu_convert_scale_linear diag_type compu_method phys_type value
  | TextTable => fallible (compu_convert_text_table (base_datatype diag_type) compu_method value)
  | Identical | CompuCode | TabIntp | RatFunc | ScaleRatFunc => Err (Failed RequestNotSupported)
  end.

(** ** Values without a computation method *)

Definition process_numeric_json_value (json_value : Value) (data_type : DiagCodedType) : dresult (list Z) :=
  let bit_len := default 32 (bit_len data_type) in
  match base_datatype data_type with
  | Int32 =>
      value ← ok_or (as_i64 json_value) ParameterConversionError;
      _ ← validate_bit_len_signed 64 value bit_len;
      if in_range I32_MIN value I32_MAX then Ok (i32_to_be_bytes value) else Err ParameterConversionError
  | UInt32 =>
      value ← ok_or (as_u64 json_value) ParameterConversionError;
      _ ← validate_bit_len_unsigned 64 value bit_len;
      if in_range 0 value U32_MAX then Ok (i32_to_be_bytes value) else Err ParameterConversionError
  | Float32 => (fun v => to_be_bytes F32 (convert F32 v)) <$> ok_or (as_f64 json_value) ParameterConversionError
  | Float64 => to_be_bytes F64 <$> ok_or (as_f64 json_value) ParameterConversionError
  | _ => Err ParameterConversionError
  end.

(** A number of one of the numeric types. *)
Inductive Num : Type := NumInt (z : Z) | NumFloat (f : spec_float).

Definition to_numeric_base_type (val : Num) (base_type : DataType) : dresult (list Z) :=
  let to_int lo hi := match val with NumInt z => int_to_int lo hi z | NumFloat f => float_to_int lo hi f end in
  let to_float fmt := match val with NumInt z => of_Z fmt z | NumFloat f => convert fmt f end in
  match base_type with
  | Int32 => i32_to_be_bytes <$> ok_or (to_int I32_MIN I32_MAX) ParameterConversionError
  | UInt32 => i32_to_be_bytes <$> ok_or (to_int 0 U32_MAX) ParameterConversionError
  | Float32 => Ok (to_be_bytes F32 (to_float F32))
  | Float64 => Ok (to_be_bytes F64 (to_float F64))
  | AsciiString | Utf8String | Unicode2String | ByteField => Err ParameterConversionError
  end.

Definition process_physical_type_value (json_value : Value) (physical_type : PhysicalType) (data_type : DiagCodedType)
    : presult (list Z) :=
  value ← fallible (ok_or (as_str json_value) ParameterConversionError);
  data ← decode_numeric_val_from_str value physical_type data_type;
  let base := base_datatype data_type in
  if bool_decide (base_type physical_type = base) then Ok data
  else
    let from n read :=
      val ← read <$> expect (array_of n (pad_msb_to_len data n));
      fallible (to_numeric_base_type val base) in
    match base_type physical_type with
    | Int32 => from 4 (fun l => NumInt (i32_from_be_bytes l))
    | UInt32 => from 4 (fun l => NumInt (be_val l))
    | Float32 => from 4 (fun l => NumFloat (from_be_bytes F32 l))
    | Float64 => from 8 (fun l => NumFloat (from_be_bytes F64 l))
    | AsciiString | Utf8String | Unicode2String | ByteField => conversion_error
    end.

Definition validate_data_length (data : list Z) (base_type : DataType) : dresult () :=
  match base_type with
  | Int32 | UInt32 | Float32 => if 4 <? len data then Err ParameterConversionError else Ok ()
  | Float64 => if 8 <? len data then Err ParameterConversionError else Ok ()
  | _ => Ok ()
  end.

Definition numeric_json_value_to_byte_vector (json_value : Value) (data_type : DiagCodedType)
    (physical_type : option PhysicalType) : presult (list Z) :=
  data ← (if is_number json_value then fallible (process_numeric_json_value json_value data_type)
          else match physical_type with
               | Some physical_type => process_physical_type_value json_value physical_type data_type
               | None => conversion_error
               end);
  _ ← fallible (validate_data_length data (base_datatype data_type));
  Ok data.

Definition json_value_to_uds_data (diag_type : DiagCodedType) (compu_method : option CompuMethod)
    (phys_type : option PhysicalType) (json_value : Value) : presult (list Z) :=
  let direct :=
    match base_datatype diag_type with
    | Int32 | UInt32 | Float32 | Float64 => numeric_json_value_to_byte_vector json_value diag_type phys_type
    | ByteField =>
        s ← fallible (ok_or (as_str json_value) ParameterConversionError);
        fallible (decode_hex_with_optional_prefix hex_decode s)
    | AsciiString | Unicode2String | Utf8String =>
        as_bytes <$> fallible (ok_or (as_str json_value) ParameterConversionError)
    end in
  match compu_method with
  | Some compu_method =>
      match category compu_method with
      | Identical => direct
      | category => compu_convert diag_type compu_method phys_type category json_value
      end
  | None => direct
  end.
End external.
