(* ===== verification/ValueLaws.v ===== *)
(** * What the conversions of values promise

    Numbers, linear methods and text tables are converted to bytes and back
    without loss where they fit; which values are refused; the one input that
    panics. *)

From stdpp Require Import strings gmap.
From stdpp Require Import list.
From S2P Require Import Prelude Bytes Errors Text Ieee754 Json DiagCodedType CodedBits CodedCodec Values Conversion.

Local Open Scope Z_scope.

(** ** Bit lengths *)

Lemma validate_signed_spec bits v n : 2 <= bits -> 1 <= n <= bits -> - 2 ^ (bits - 1) <= v < 2 ^ (bits - 1) ->
  validate_bit_len_signed bits v n = Ok () <-> - 2 ^ (n - 1) <= v < 2 ^ (n - 1).
Proof.
  intros Hb Hn Hv. unfold validate_bit_len_signed, checked_shl_one, sat_sub.
  rewrite (proj2 (Z.eqb_neq n 0)), Z.max_l by lia. destruct (Z.ltb_spec (n - 1) bits); [|lia].
  cbn [andb]. pose proof (Z.pow_pos_nonneg 2 (n - 1)).
  destruct (Z.eqb_spec (n - 1) (bits - 1)) as [He|He].
  - simpl. unfold in_range. rewrite He in *.
    destruct (Z.leb_spec (- 2 ^ (bits - 1)) (- 2 ^ (bits - 1) - 1)); [lia|]. simpl.
    destruct (Z.leb_spec (- - 2 ^ (bits - 1)) (2 ^ (bits - 1) - 1)); [lia|]. rewrite andb_false_r. simpl.
    destruct (Z.ltb_spec v (- 2 ^ (bits - 1))), (Z.ltb_spec (2 ^ (bits - 1) - 1) v); split; (done || lia).
  - pose proof (Z.pow_lt_mono_r 2 (n - 1) (bits - 1)). simpl. unfold in_range.
    destruct (Z.leb_spec (- 2 ^ (bits - 1)) (2 ^ (n - 1) - 1)), (Z.leb_spec (2 ^ (n - 1) - 1) (2 ^ (bits - 1) - 1)); try lia.
    destruct (Z.leb_spec (- 2 ^ (bits - 1)) (- 2 ^ (n - 1))), (Z.leb_spec (- 2 ^ (n - 1)) (2 ^ (bits - 1) - 1)); try lia.
    simpl. destruct (Z.ltb_spec v (- 2 ^ (n - 1))), (Z.ltb_spec (2 ^ (n - 1) - 1) v); split; (done || lia).
Qed.

Lemma validate_unsigned_spec bits v n : 1 <= n <= bits -> 0 <= v < 2 ^ bits ->
  validate_bit_len_unsigned bits v n = Ok () <-> v < 2 ^ n.
Proof.
  intros Hn Hv. unfold validate_bit_len_unsigned, checked_shl_one.
  rewrite (proj2 (Z.eqb_neq n 0)) by lia. pose proof (Z.pow_pos_nonneg 2 n). cbn [andb].
  destruct (Z.ltb_spec n bits).
  - rewrite sat_sub_exact by lia. destruct (Z.ltb_spec (2 ^ n - 1) v); split; (done || lia).
  - assert (n = bits) as -> by lia. destruct (Z.ltb_spec (2 ^ bits - 1) v); split; (done || lia).
Qed.

Lemma validate_signed_cases bits v n : validate_bit_len_signed bits v n = Ok () \/
  validate_bit_len_signed bits v n = Err ParameterConversionError.
Proof. unfold validate_bit_len_signed. repeat case_match; auto. Qed.

Lemma validate_unsigned_cases bits v n : validate_bit_len_unsigned bits v n = Ok () \/
  validate_bit_len_unsigned bits v n = Err ParameterConversionError.
Proof. unfold validate_bit_len_unsigned. repeat case_match; auto. Qed.

(** ** Integers as bytes *)

Lemma i32_bytes_len z : len (i32_to_be_bytes z) = 4.
Proof. apply be_bytes_len. Qed.

Lemma i32_bytes_bytes z : bytes (i32_to_be_bytes z).
Proof. apply be_bytes_bytes. Qed.

Lemma i32_bytes_val z : be_val (i32_to_be_bytes z) = z mod 2 ^ 32.
Proof. unfold i32_to_be_bytes. rewrite be_val_be_bytes. simpl. apply Z.mod_mod. lia. Qed.

Lemma u32_padded_len l : len l <= 4 -> exists l', u32_padded_bytes l = Ok l' /\ len l' = 4 /\ be_val l' = be_val l.
Proof.
  intros Hl. pose proof (len_nonneg l). unfold u32_padded_bytes. rewrite (proj2 (Z.ltb_ge 4 (len l))) by done.
  rewrite sat_sub_exact by lia. destruct (Z.eqb_spec (4 - len l) 0); simpl.
  - destruct (Z.eqb_spec (len l) 4); [|lia]. eauto.
  - assert (Hlen : len (vec_of (4 - len l) 0 ++ l) = 4) by (rewrite len_app, len_vec_of; lia).
    rewrite Hlen. simpl. eexists. split; [done|]. split; [done|]. apply be_val_zeros_app.
Qed.

(** What the integer types make of bytes with the value [x]. *)
Definition integer_value (t : DataType) (x : Z) : DiagDataValue :=
  match t with Int32 => VInt32 (i32_of_u32 x) | _ => VUInt32 x end.

(** The integer [z]. *)
Definition number_of (t : DataType) (z : Z) : DiagDataValue := match t with Int32 => VInt32 z | _ => VUInt32 z end.

Definition is_integer_type (t : DataType) : Prop := t = Int32 \/ t = UInt32.

Lemma new_integer t l : is_integer_type t -> len l <= 4 -> DiagDataValue_new t l = Ok (integer_value t (be_val l)).
Proof.
  intros Ht Hl. destruct (u32_padded_len l Hl) as (l' & He & _ & Hv).
  unfold DiagDataValue_new, i32_from_be_bytes. destruct Ht as [-> | ->]; by rewrite He; simpl; rewrite Hv.
Qed.

Lemma len_non_empty {A} (l : list A) : 0 < len l -> l <> [].
Proof. by destruct l. Qed.

Lemma serializable_plain `{Externals} to_string t neg l : l <> [] ->
  uds_data_to_serializable to_string t None neg l = DiagDataValue_new t l.
Proof. intros Hl. unfold uds_data_to_serializable. by rewrite bool_decide_false. Qed.

Section numbers.
Context {ext : Externals}.

(** The integer a JSON number is for a field of type [t]. *)
Definition json_integer (t : DataType) (j : Value) : option Z :=
  match t with Int32 => as_i64 j | _ => as_u64 j end.

(** The range of an [n]-bit field. *)
Definition fits (t : DataType) (n z : Z) : Prop :=
  match t with Int32 => - 2 ^ (n - 1) <= z < 2 ^ (n - 1) | _ => 0 <= z < 2 ^ n end.

Definition in_json_range (t : DataType) (z : Z) : Prop :=
  match t with Int32 => I64_MIN <= z <= I64_MAX | _ => 0 <= z <= U64_MAX end.

Lemma json_integer_is_number t j z : json_integer t j = Some z -> is_number j = true.
Proof. by destruct t, j. Qed.

Lemma json_to_bytes self c n pt j z : is_integer_type (base_datatype self) ->
  type_ self = plain_standard n c -> 1 <= n <= 32 ->
  json_integer (base_datatype self) j = Some z -> in_json_range (base_datatype self) z ->
  (fits (base_datatype self) n z -> json_value_to_uds_data self None pt j = Ok (i32_to_be_bytes z)) /\
  (~ fits (base_datatype self) n z ->
     json_value_to_uds_data self None pt j = Err (Failed ParameterConversionError)).
Proof.
  intros Ht Htype Hn Hj Hr. pose proof (json_integer_is_number _ _ _ Hj) as Hnum.
  assert (Hbl : default 32 (bit_len self) = n) by (unfold bit_len; by rewrite Htype).
  assert (Hd : json_value_to_uds_data self None pt j = numeric_json_value_to_byte_vector j self pt)
    by (unfold json_value_to_uds_data; by destruct Ht as [-> | ->]).
  rewrite Hd. unfold numeric_json_value_to_byte_vector, process_numeric_json_value. rewrite Hnum, Hbl.
  assert (2 ^ n <= 2 ^ 32) by (apply Z.pow_le_mono_r; lia).
  assert (2 ^ (n - 1) <= 2 ^ 31) by (apply Z.pow_le_mono_r; lia).
  unfold fits, in_json_range, json_integer in *. destruct Ht as [He|He]; rewrite He in *; rewrite Hj; simpl.
  - pose proof (validate_signed_spec 64 z n ltac:(lia) ltac:(lia)) as Hv. unfold I64_MIN, I64_MAX in Hr.
    split; intros Hf.
    + rewrite (proj2 (Hv ltac:(lia)) Hf). simpl. unfold I32_MIN, I32_MAX.
      rewrite (proj2 (in_range_spec _ z _)) by lia. simpl. done.
    + destruct (validate_signed_cases 64 z n) as [E| ->]; [|done]. apply Hv in E; lia.
  - pose proof (validate_unsigned_spec 64 z n ltac:(lia)) as Hv. unfold U64_MAX in Hr.
    split; intros Hf.
    + rewrite (proj2 (Hv ltac:(lia))) by lia. simpl. unfold U32_MAX.
      rewrite (proj2 (in_range_spec _ z _)) by lia. simpl. done.
    + destruct (validate_unsigned_cases 64 z n) as [E| ->]; [|done]. apply Hv in E; lia.
Qed.

(** The bytes of [z] in a field of [n] bits, as they come back. *)
Lemma field_holds self n c z payload byte_pos bp :
  is_integer_type (base_datatype self) -> type_ self = plain_standard n c -> 1 <= n <= 32 ->
  n mod 8 = 0 \/ n < 8 -> 0 <= bp <= 7 -> bp + n <= 8 * div_ceil n 8 ->
  bytes payload -> len payload <= byte_pos -> byte_pos + div_ceil (bp + n) 8 <= MAX_BYTES ->
  exists p' r, encode self (i32_to_be_bytes z) payload byte_pos bp = (p', Ok ()) /\
    decode self p' byte_pos bp = Ok (r, n) /\ 0 < len r <= 4 /\ be_val r = z mod 2 ^ n.
Proof.
  intros Ht Htype Hn Hmod Hbp Hfit Hp Hfresh Hmax.
  assert (Hvl : validate_bit_len (base_datatype self) n = Ok ()).
  { unfold validate_bit_len. destruct (Z.eqb_spec n 0); [lia|].
    destruct Ht as [-> | ->]; simpl; by rewrite (proj2 (Z.ltb_ge 64 n)) by lia. }
  destruct (decode_encode_digits self n c (i32_to_be_bytes z) payload byte_pos bp)
    as (p' & r & He & Hd & Hl & Hb); try done; [by destruct Ht as [-> | ->]|lia|apply i32_bytes_bytes|].
  assert (Hm : n mod 8 = 0 \/ n mod 8 = n) by (destruct Hmod; [by left|right; apply Z.mod_small; lia]).
  exists p', r. do 2 (split; [done|]). pose proof (div_ceil_spec n 8 ltac:(lia)). split; [lia|].
  apply Z.bits_inj'. intros k Hk. rewrite Hb, i32_bytes_val by done.
  destruct (decide (k < n)) as [Hkn|Hkn].
  - rewrite !Z.mod_pow2_bits_low by lia. rewrite (bool_decide_true (k < n)), (bool_decide_true (_ \/ _)) by lia. by rewrite !andb_true_r.
  - rewrite (Z.mod_pow2_bits_high _ n) by lia. by rewrite (bool_decide_false (k < n)), andb_false_r.
Qed.
End numbers.

(** a JSON integer for a field of [n] bits is refused when it does not fit.
    Otherwise it is written into the payload, and what is read back is the
    number itself; a negative one comes back as the unsigned number with the
    same bits, unless the field has all 32. *)
Theorem json_integer_roundtrip {ext : Externals} to_string self n c j z pt payload byte_pos bp :
  let t := base_datatype self in
  is_integer_type t -> type_ self = plain_standard n c -> 1 <= n <= 32 ->
  n mod 8 = 0 \/ n < 8 -> 0 <= bp <= 7 -> bp + n <= 8 * div_ceil n 8 ->
  bytes payload -> len payload <= byte_pos -> byte_pos + div_ceil (bp + n) 8 <= MAX_BYTES ->
  json_integer t j = Some z -> in_json_range t z ->
  (fits t n z ->
    exists data p' r, json_value_to_uds_data self None pt j = Ok data /\
      encode self data payload byte_pos bp = (p', Ok ()) /\ decode self p' byte_pos bp = Ok (r, n) /\
      uds_data_to_serializable to_string t None false r = Ok (integer_value t (z mod 2 ^ n)) /\
      (0 <= z \/ n = 32 -> integer_value t (z mod 2 ^ n) = number_of t z)) /\
  (~ fits t n z -> json_value_to_uds_data self None pt j = Err (Failed ParameterConversionError)).
Proof.
  intros t Ht Htype Hn Hmod Hbp Hfit Hp Hfresh Hmax Hj Hr.
  destruct (json_to_bytes self c n pt j z Ht Htype Hn Hj Hr) as [Hok Herr].
  split; [intros Hf|exact Herr].
  destruct (field_holds self n c z payload byte_pos bp) as (p' & r & He & Hd & Hl & Hv); try done.
  exists (i32_to_be_bytes z), p', r. split; [by apply Hok|]. do 2 (split; [done|]). split.
  - rewrite serializable_plain by (apply len_non_empty; lia). rewrite new_integer by (done || lia). by rewrite Hv.
  - assert (2 ^ n <= 2 ^ 32) by (apply Z.pow_le_mono_r; lia).
    intros Hz. unfold integer_value, number_of, fits, i32_of_u32 in *. destruct Ht as [He'|He']; rewrite He' in *.
    + f_equal. destruct (decide (0 <= z)).
      * assert (2 ^ (n - 1) <= 2 ^ 31) by (apply Z.pow_le_mono_r; lia).
        assert (2 ^ (n - 1) < 2 ^ n) by (apply Z.pow_lt_mono_r; lia).
        rewrite Z.mod_small by lia. by rewrite (proj2 (Z.ltb_lt _ _)) by lia.
      * assert (n = 32) as -> by lia. rewrite <- (Z.mod_add z 1) by lia.
        rewrite Z.mod_small by lia. rewrite (proj2 (Z.ltb_ge _ _)) by lia. lia.
    + by rewrite Z.mod_small by lia.
Qed.

Lemma json_integer_roundtrip_witness :
  let self := {| base_datatype := Int32; type_ := plain_standard 16 false; is_high_low_byte_order := true |} in
  exists data p' r, json_value_to_uds_data self None None (@Number reference (NegInt (-2))) = Ok data /\
    encode self data [46; 1] 2 0 = (p', Ok ()) /\ decode self p' 2 0 = Ok (r, 16) /\
    uds_data_to_serializable (fun _ => []) Int32 None false r = Ok (VInt32 65534).
Proof.
  intros self.
  destruct (json_integer_roundtrip (fun _ => []) self 16 false (@Number reference (NegInt (-2))) (-2) None [46; 1] 2 0) as [H _];
    [by left|reflexivity|lia|by left|lia|vm_compute; congruence|repeat constructor; unfold is_u8; lia
    |vm_compute; congruence|vm_compute; congruence|reflexivity|split; vm_compute; congruence|].
  destruct H as (data & p' & r & H1 & H2 & H3 & H4 & _); [vm_compute; split; congruence|].
  exists data, p', r. repeat split; assumption.
Defined.

(** ** Linear methods *)

(** Coefficients that are integers: [phys = (off + fac * v) / d]. *)
Record integer_coefficients (c : CompuRationalCoefficients) (off fac d : Z) : Prop := {
  ic_numerator : exists o f, numerator c = [o; f] /\ is_int F64 o off /\ is_int F64 f fac;
  ic_denominator : (denominator c = [] /\ d = 1) \/ (exists x, denominator c = [x] /\ is_int F64 x d)
}.

(** All results on the way have at most 53 binary digits. *)
Definition exact (z : Z) : Prop := Z.abs z < 2 ^ 53.

Lemma denominator_int c off fac d : integer_coefficients c off fac d ->
  is_int F64 (default (of_Z F64 1) (head (denominator c))) d /\ (1 <? len (denominator c)) = false.
Proof.
  intros [_ [[-> ->]|(x & -> & Hx)]]; simpl; [|done]. split; [|done]. by apply (of_Z_is_int F64 F64_ok 1).
Qed.

Section linear.
Context (c : CompuRationalCoefficients) (off fac d raw phys : Z).
Context (Hc : integer_coefficients c off fac d) (Hd : d <> 0) (Hphys : d * phys = off + fac * raw).
Context (E1 : exact off) (E2 : exact (fac * raw)) (E3 : exact (d * phys)) (E4 : exact raw) (E5 : exact phys)
  (E6 : exact fac) (E7 : exact d).

Lemma linear_to_phys x : is_int F64 x raw ->
  exists y, apply_linear_conversion c x InternalToPhys = Ok y /\ is_int F64 y phys.
Proof.
  intros Hx. destruct (denominator_int c off fac d Hc) as [Hden Hlen].
  destruct Hc as [(o & f & Hnum & Ho & Hf) _]. unfold apply_linear_conversion. rewrite Hnum, Hlen.
  set (den := default _ _) in *. simpl. rewrite (is_int_zero F64 _ d Hden), bool_decide_false by done. eexists. split; [done|].
  unfold exact in *. apply (is_int_div F64 F64_ok _ _ phys d); [|done|done|change (prec F64) with 53; lia].
  rewrite (Z.mul_comm phys), Hphys.
  apply (is_int_add F64 F64_ok); [done| |change (prec F64) with 53; lia..].
  apply (is_int_mul F64 F64_ok); done || (change (prec F64) with 53; lia).
Qed.

Lemma linear_to_internal y inverse : fac <> 0 -> is_int F64 y phys ->
  exists x, apply_linear_conversion c y (PhysToInternal inverse) = Ok x /\ is_int F64 x raw.
Proof.
  intros Hfac Hy. destruct (denominator_int c off fac d Hc) as [Hden Hlen].
  destruct Hc as [(o & f & Hnum & Ho & Hf) _]. unfold apply_linear_conversion. rewrite Hnum, Hlen.
  set (den := default _ _) in *. simpl. rewrite (is_int_zero F64 _ fac Hf), bool_decide_false by done. eexists. split; [done|].
  unfold exact in *. apply (is_int_div F64 F64_ok _ _ raw fac); [|done|done|change (prec F64) with 53; lia].
  replace (raw * fac) with (d * phys - off) by lia.
  apply (is_int_sub F64 F64_ok); [|done|change (prec F64) with 53; lia..].
  apply (is_int_mul F64 F64_ok); done || (change (prec F64) with 53; lia).
Qed.
End linear.

(** The range of a type. *)
Definition in_type (t : DataType) (z : Z) : Prop :=
  match t with Int32 => I32_MIN <= z <= I32_MAX | _ => 0 <= z <= U32_MAX end.

Lemma scaled_bytes t x z : is_integer_type t -> is_int F64 x z -> in_type t z ->
  linear_scaled_value_to_bytes x t = Ok (i32_to_be_bytes z).
Proof. intros [-> | ->] Hx Hz; simpl; by rewrite (as_int_is_int F64 _ _ x z Hx). Qed.

Lemma from_number_int {ext : Externals} `{!ExternalsOk ext} to_string t x z : is_integer_type t -> is_int F64 x z -> in_type t z ->
  from_number to_string x t = Ok (number_of t z).
Proof.
  intros [-> | ->] Hx Hz; simpl; rewrite float_to_int_spec, (is_int_trunc F64 x z Hx); simpl;
    by rewrite (proj2 (in_range_spec _ z _)) by done.
Qed.

Lemma value_f64_int t z : is_integer_type t -> in_type t z ->
  exists x, value_f64 (number_of t z) = Ok x /\ is_int F64 x z.
Proof.
  intros Ht Hz. exists (of_Z F64 z).
  split; [by destruct Ht as [-> | ->]|]. apply (of_Z_is_int F64 F64_ok). change (prec F64) with 53.
  unfold in_type, I32_MIN, I32_MAX, U32_MAX in Hz. destruct Ht as [-> | ->]; lia.
Qed.

(** a LINEAR method with integer coefficients converts both ways without
    loss: the number [phys] is written as the raw value [raw] with
    [d * phys = off + fac * raw], and bytes that hold [raw] are shown as
    [phys], as long as both fit their type and the results on the way have at
    most 53 digits. *)
Theorem linear_method_inverts {ext : Externals} `{!ExternalsOk ext} to_string self cm scale c off fac d raw phys num y pt neg r :
  let t := base_datatype self in
  category cm = Linear -> scales cm = [scale] -> rational_coefficients scale = Some c ->
  integer_coefficients c off fac d -> d <> 0 -> fac <> 0 -> d * phys = off + fac * raw ->
  exact off -> exact fac -> exact d -> exact (fac * raw) -> exact (d * phys) ->
  is_integer_type t -> in_type t raw -> in_type t phys ->
  number_as_f64 num = Some y -> is_int F64 y phys ->
  r <> [] -> DiagDataValue_new t r = Ok (number_of t raw) ->
  within_limits (number_of t raw) (upper_limit scale) (lower_limit scale) = true ->
  json_value_to_uds_data self (Some cm) pt (Number num) = Ok (i32_to_be_bytes raw) /\
  uds_data_to_serializable to_string t (Some cm) neg r = Ok (number_of t phys).
Proof.
  intros t Hcat Hsc Hrc Hint Hd Hfac Heq E1 E6 E7 E2 E3 Ht Hraw Hphys Hnum Hy Hr Hnew Hlim. subst t.
  assert (exact raw /\ exact phys) as [E4 E5].
  { unfold in_type, exact, I32_MIN, I32_MAX, U32_MAX in *. destruct Ht as [He|He]; rewrite He in Hraw, Hphys; lia. }
  split.
  - destruct (linear_to_internal c off fac d raw phys) with (y := y) (inverse := inverse_values scale)
      as (x & Hx & Hxi); [done..|].
    unfold json_value_to_uds_data. rewrite Hcat. simpl. unfold compu_convert_linear. rewrite Hsc. simpl.
    unfold parse_json_to_f64. simpl. rewrite Hnum. simpl. rewrite Hrc. simpl. rewrite Hx. simpl.
    by rewrite (scaled_bytes _ x raw).
  - destruct (value_f64_int _ raw Ht Hraw) as (x & Hx & Hxi).
    destruct (linear_to_phys c off fac d raw phys) with (x := x) as (z & Hz & Hzi); [done..|].
    unfold uds_data_to_serializable. rewrite bool_decide_false, Hcat by done.
    unfold compu_lookup. rewrite Hsc. simpl. rewrite Hnew. simpl. unfold find_scale. simpl.
    rewrite decide_True by (by rewrite Hlim). simpl. unfold compu_lookup_linear. rewrite Hsc. simpl.
    rewrite Hrc. simpl. rewrite Hx. simpl. rewrite Hz. simpl. by apply from_number_int.
Qed.

(** A temperature of 16 bits: two degrees per digit, from -40. *)
Definition temperature_scale : CompuScale := {|
  lower_limit := None; upper_limit := None;
  rational_coefficients := Some {| numerator := [of_Z F64 (-40); of_Z F64 2]; denominator := [] |};
  consts := None; inverse_values := None |}.

Lemma linear_method_inverts_witness :
  let self := {| base_datatype := Int32; type_ := plain_standard 16 false; is_high_low_byte_order := true |} in
  let cm := {| category := Linear; scales := [temperature_scale] |} in
  @json_value_to_uds_data reference self (Some cm) None (@Number reference (PosInt 160)) = Ok [0; 0; 0; 100] /\
  uds_data_to_serializable (fun _ => []) Int32 (Some cm) false [0; 100] = Ok (VInt32 160).
Proof.
  intros self cm.
  apply (linear_method_inverts (ext := reference) (fun _ => []) self cm temperature_scale
    {| numerator := [of_Z F64 (-40); of_Z F64 2]; denominator := [] |}
    (-40) 2 1 100 160 (PosInt 160) (of_Z F64 160) None false [0; 100]);
    try reflexivity; try (by left); try (unfold exact; lia); try done.
  - split; [|by left]. do 2 eexists. split; [reflexivity|].
    split; apply (of_Z_is_int F64 F64_ok); change (prec F64) with 53; lia.
  - apply (of_Z_is_int F64 F64_ok). change (prec F64) with 53. lia.
Defined.

(** ** Limits *)

(** The limit a number stands for. *)
Definition at_limit (k : Z) (interval : IntervalType) : Limit := {| limit_value := decimal k; interval_type := interval |}.

Lemma decimal_non_empty z : non_empty (decimal z) = true.
Proof.
  destruct (decimal_cases z) as (d & Hn & _ & _ & ->). unfold non_empty. rewrite bool_decide_false; [done|].
  by intros [_ ?]%app_eq_nil.
Qed.

(** A number outside of the range is no limit. *)
Lemma limit_int_at lo hi k it : exact lo -> exact hi -> exact k ->
  limit_int lo hi (at_limit k it) = if (lo <=? k) && (k <=? hi) then Ok k else Err ParameterConversionError.
Proof.
  unfold exact. intros Hlo Hhi Hk. unfold limit_int, limit_f64, at_limit. simpl limit_value.
  rewrite decimal_non_empty.
  destruct (parse_float_decimal F64 k F64_ok) as (f & -> & Hf); [change (prec F64) with 53; lia|].
  simpl. rewrite (is_int_finite F64 f k Hf). unfold SFltb.
  assert (Hi : forall z, Z.abs z < 2 ^ 53 -> is_int F64 (of_Z F64 z) z).
  { intros z Hz. by apply (of_Z_is_int F64 F64_ok). }
  rewrite (is_int_compare F64 F64_ok f (of_Z F64 lo) k lo),
    (is_int_compare F64 F64_ok (of_Z F64 hi) f hi k) by (first [by apply Hi|done|change (prec F64) with 53; lia]).
  destruct (Z.compare_spec k lo), (Z.compare_spec hi k), (Z.leb_spec lo k), (Z.leb_spec k hi); try lia; try done;
    simpl; by rewrite (as_int_is_int F64 lo hi f k Hf) by lia.
Qed.

Definition below (interval : IntervalType) (x k : Z) : Prop :=
  match interval with Open => x < k | _ => x <= k end.

#[export] Instance in_type_dec t z : Decision (in_type t z).
Proof. unfold in_type. destruct t; apply _. Defined.

Lemma limit_int_decimal lo hi k it : exact lo -> exact hi -> lo <= k <= hi ->
  limit_int lo hi (at_limit k it) = Ok k.
Proof.
  intros Hlo Hhi Hk. rewrite limit_int_at by (done || (unfold exact in *; lia)).
  by rewrite (proj2 (Z.leb_le lo k)), (proj2 (Z.leb_le k hi)) by lia.
Qed.

Lemma type_limit t k it : is_integer_type t -> exact k ->
  match t with Int32 => limit_i32 (at_limit k it) | _ => limit_u32 (at_limit k it) end
  = if bool_decide (in_type t k) then Ok k else Err ParameterConversionError.
Proof.
  intros [-> | ->] Hk; unfold limit_i32, limit_u32; rewrite limit_int_at by (done || (unfold exact, I32_MIN, I32_MAX, U32_MAX; lia));
    case_bool_decide as H; unfold in_type in H;
    match goal with |- context [(?a <=? k) && (k <=? ?b)] => destruct (Z.leb_spec a k), (Z.leb_spec k b) end; try done; lia.
Qed.

(** A limit whose number is in the type's range. *)
Lemma within_integer_limits {ext : Externals} t x l il u iu :
  is_integer_type t -> in_type t l -> in_type t u ->
  within_limits (number_of t x) (Some (at_limit u iu)) (Some (at_limit l il)) = true <->
  below iu x u /\ below il (- x) (- l).
Proof.
  intros Ht Hl Hu. assert (exact l /\ exact u) as [El Eu].
  { unfold in_type, exact, I32_MIN, I32_MAX, U32_MAX in *. destruct Ht as [-> | ->]; lia. }
  assert (Hw : within_limits (number_of t x) (Some (at_limit u iu)) (Some (at_limit l il)) =
    (if bool_decide (iu = Open) then x <? u else x <=? u) && (if bool_decide (il = Open) then l <? x else l <=? x)).
  { pose proof (type_limit t l il Ht El) as Ll. pose proof (type_limit t u iu Ht Eu) as Lu.
    rewrite bool_decide_true in Ll, Lu by done.
    destruct Ht as [-> | ->]; simpl; unfold check_numeric_limits; rewrite Ll, Lu; done. }
  rewrite Hw, andb_true_iff. unfold below.
  destruct iu, il; simpl; rewrite ?Z.ltb_lt, ?Z.leb_le; lia.
Qed.

(** A number and whether the interval is open there. *)
Definition as_limit : Z * bool -> Limit := fun '(k, is_open) => at_limit k (if is_open then Open else Closed).

Lemma upper_admits {ext : Externals} t x k (is_open : bool) : is_integer_type t -> exact k ->
  within_limits (number_of t x) (Some (as_limit (k, is_open))) None = true <->
  in_type t k /\ if is_open then x < k else x <= k.
Proof.
  intros Ht Hk. pose proof (type_limit t k (if is_open then Open else Closed) Ht Hk) as L.
  assert (E : as_limit (k, is_open) = at_limit k (if is_open then Open else Closed)) by done. rewrite E. clear E.
  case_bool_decide as Hin; destruct Ht as [-> | ->], is_open;
    unfold within_limits, number_of, check_numeric_limits; rewrite L; unfold at_limit; cbn [interval_type];
    rewrite ?andb_true_r, ?andb_true_l; try (by split; [|intros [? _]]);
    rewrite ?bool_decide_true, ?bool_decide_false, ?Z.ltb_lt, ?Z.leb_le by done; tauto.
Qed.

Lemma lower_admits {ext : Externals} t x k (is_open : bool) : is_integer_type t -> exact k ->
  within_limits (number_of t x) None (Some (as_limit (k, is_open))) = true <->
  in_type t k /\ if is_open then k < x else k <= x.
Proof.
  intros Ht Hk. pose proof (type_limit t k (if is_open then Open else Closed) Ht Hk) as L.
  assert (E : as_limit (k, is_open) = at_limit k (if is_open then Open else Closed)) by done. rewrite E. clear E.
  case_bool_decide as Hin; destruct Ht as [-> | ->], is_open;
    unfold within_limits, number_of, check_numeric_limits; rewrite L; unfold at_limit; cbn [interval_type];
    rewrite ?andb_true_r, ?andb_true_l; try (by split; [|intros [? _]]);
    rewrite ?bool_decide_true, ?bool_decide_false, ?Z.ltb_lt, ?Z.leb_le by done; tauto.
Qed.

Lemma within_both {ext : Externals} t x upper lower : is_integer_type t ->
  within_limits (number_of t x) upper lower =
  within_limits (number_of t x) upper None && within_limits (number_of t x) None lower.
Proof. intros [-> | ->]; simpl; unfold check_numeric_limits; by rewrite andb_true_r. Qed.

(** C39: limits of an integer value that are open or closed and whose texts are
    whole numbers below 2^53 admit exactly the values between them, an open one
    not its own number, a closed one this too; a limit that is not given admits
    everything, and one outside the range of the value's type, on whichever side,
    admits nothing at all. *)
Theorem integer_limits {ext : Externals} t x (upper lower : option (Z * bool)) :
  is_integer_type t -> (forall k is_open, upper = Some (k, is_open) \/ lower = Some (k, is_open) -> exact k) ->
  within_limits (number_of t x) (as_limit <$> upper) (as_limit <$> lower) = true <->
  (forall k is_open, upper = Some (k, is_open) -> in_type t k /\ if is_open then x < k else x <= k) /\
  (forall k is_open, lower = Some (k, is_open) -> in_type t k /\ if is_open then k < x else k <= x).
Proof.
  intros Ht Hex. rewrite within_both, andb_true_iff by done. f_equiv.
  - destruct upper as [[k o]|]; [|by destruct Ht as [-> | ->]; cbn]. cbn [fmap option_fmap option_map].
    rewrite upper_admits by (try done; by apply (Hex k o); left). split; [by intros H ? ? [= <- <-]|]. intros H. by apply H.
  - destruct lower as [[k o]|]; [|by destruct Ht as [-> | ->]; cbn]. cbn [fmap option_fmap option_map].
    rewrite lower_admits by (try done; by apply (Hex k o); right). split; [by intros H ? ? [= <- <-]|]. intros H. by apply H.
Qed.

Lemma integer_limits_witness :
  within_limits (number_of UInt32 7) (as_limit <$> Some (7, false)) (as_limit <$> Some (6, true)) = true /\
  within_limits (number_of UInt32 7) (as_limit <$> Some (2 ^ 32, false)) (as_limit <$> None) <> true.
Proof.
  split.
  - apply (integer_limits (ext := reference) UInt32 7 (Some (7, false)) (Some (6, true)));
      [by right|intros k o [[= <- _]|[= <- _]]; vm_compute; reflexivity|].
    split; intros k o [= <- <-]; (split; [split; vm_compute; congruence|lia]).
  - intros H. apply (integer_limits (ext := reference) UInt32 7 (Some (2 ^ 32, false)) None) in H;
      [|by right|intros k o [[= <- _]|[=]]; vm_compute; reflexivity].
    destruct H as [H _]. destruct (H _ _ eq_refl) as [[_ Hbad] _]. by vm_compute in Hbad.
Defined.

(** An infinite limit that has a value bounds like a closed one. *)
Example infinite_limit_bounds :
  @within_limits reference (VUInt32 100000) (Some {| limit_value := chars "99999.0"; interval_type := Infinite |}) None = false.
Proof. vm_compute. reflexivity. Qed.

(** The fraction of a limit is cut off. *)
Example limit_fraction_is_cut :
  @within_limits reference (VInt32 2) (Some {| limit_value := chars "2.9"; interval_type := Open |}) None = false /\
  @within_limits reference (VInt32 0) None (Some {| limit_value := chars "0.5"; interval_type := Closed |}) = true.
Proof. vm_compute. split; reflexivity. Qed.

(** An infinite limit without a value is taken for the number 0. *)
Example infinite_limit_is_zero :
  @within_limits reference (VUInt32 5) (Some {| limit_value := []; interval_type := Infinite |}) None = false.
Proof. reflexivity. Qed.

(** ** Text tables *)

(** The scale of a text for one raw value. *)
Definition text_scale (row : str * Z) : CompuScale := {|
  lower_limit := Some (at_limit row.2 Closed); upper_limit := Some (at_limit row.2 Closed);
  rational_coefficients := None;
  consts := Some {| v := S754_zero false; vt := Some row.1; vt_ti := None |}; inverse_values := None |}.

Lemma find_text_row l text k : (text, k) ∈ l -> NoDup l.*1 ->
  find_text text (text_scale <$> l) = Some (at_limit k Closed).
Proof.
  induction l as [|[t' k'] l IH]; [by intros ?%not_elem_of_nil|].
  cbn [fmap list_fmap fst]. intros Hin [Hn Hnd]%NoDup_cons. cbn [find_text].
  change (consts (text_scale (t', k')) ≫= text_of) with (Some t').
  apply elem_of_cons in Hin as [[= -> ->]|Hin].
  - by rewrite bool_decide_true.
  - rewrite bool_decide_false; [by apply IH|]. intros [= ->]. apply Hn.
    change text with ((text, k).1). by apply list_elem_of_fmap_2.
Qed.

Lemma find_scale_row {ext : Externals} t l text k : is_integer_type t -> Forall (fun r => in_type t r.2) l ->
  (text, k) ∈ l -> NoDup l.*2 ->
  find_scale (number_of t k) (text_scale <$> l) = Some (text_scale (text, k)).
Proof.
  intros Ht. induction l as [|[t' k'] l IH]; [by intros _ ?%not_elem_of_nil|].
  intros Hall. apply Forall_cons in Hall as [Hk' Hall]. cbn [fmap list_fmap snd] in *.
  intros Hin [Hn Hnd]%NoDup_cons.
  unfold find_scale. cbn [list_find]. apply elem_of_cons in Hin as [[= -> ->]|Hin].
  - rewrite decide_True; [done|]. cbn [upper_limit lower_limit text_scale snd].
    apply Is_true_true, (within_integer_limits t); [done..|]. unfold below. lia.
  - rewrite decide_False.
    + specialize (IH Hall Hin Hnd). unfold find_scale in IH. revert IH.
      generalize (list_find (fun scale => within_limits (number_of t k) (upper_limit scale) (lower_limit scale))
        (text_scale <$> l)). intros [[i s]|]; [|done]. done.
    + intros Hw%Is_true_true. cbn [upper_limit lower_limit text_scale snd] in Hw.
      apply within_integer_limits in Hw; [|done..]. unfold below in Hw. assert (k = k') as -> by lia.
      apply Hn. change k' with ((text, k').2). by apply list_elem_of_fmap_2.
Qed.

(** a text table whose rows have different texts and different raw values
    converts every text to its raw value, and the raw value back to the text. *)
Theorem text_table_roundtrip {ext : Externals} to_string self cm (l : list (str * Z)) text k pt neg r :
  let t := base_datatype self in
  category cm = TextTable -> scales cm = text_scale <$> l -> NoDup l.*1 -> NoDup l.*2 ->
  is_integer_type t -> Forall (fun row => in_type t row.2) l -> (text, k) ∈ l -> ch_quote ∉ text ->
  r <> [] -> DiagDataValue_new t r = Ok (number_of t k) ->
  json_value_to_uds_data self (Some cm) pt (Json.String text) = Ok (i32_to_be_bytes k) /\
  uds_data_to_serializable to_string t (Some cm) neg r = Ok (VString text).
Proof.
  intros t Hcat Hsc Hn1 Hn2 Ht Hall Hin Hq Hr Hnew. subst t.
  assert (Hk : in_type (base_datatype self) k) by (rewrite Forall_forall in Hall; by apply (Hall (text, k))).
  split.
  - unfold json_value_to_uds_data. rewrite Hcat. simpl. unfold compu_convert_text_table.
    assert (Hf : filter (fun c => c <> ch_quote) text = text).
    { clear -Hq. induction text as [|c s IH]; [done|]. apply not_elem_of_cons in Hq as [Hc Hs].
      rewrite filter_cons_True by done. by rewrite IH. }
    rewrite bool_decide_true by (destruct Ht as [-> | ->]; set_solver). simpl.
    rewrite Hf, Hsc, (find_text_row l text k Hin Hn1). simpl. unfold in_type, I32_MIN, I32_MAX, U32_MAX in Hk.
    destruct Ht as [He|He]; rewrite He in *; unfold limit_i32, limit_u32;
      rewrite limit_int_decimal by (unfold exact, I32_MIN, I32_MAX, U32_MAX; lia); done.
  - unfold uds_data_to_serializable. rewrite bool_decide_false, Hcat by done. unfold compu_lookup.
    rewrite Hnew. simpl. rewrite Hsc, (find_scale_row _ l text k Ht Hall Hin Hn2). done.
Qed.

Lemma text_table_roundtrip_witness :
  let self := {| base_datatype := UInt32; type_ := plain_standard 8 false; is_high_low_byte_order := true |} in
  let cm := {| category := TextTable; scales := text_scale <$> [(chars "off", 0); (chars "on", 1)] |} in
  @json_value_to_uds_data reference self (Some cm) None (Json.String (chars "on")) = Ok [0; 0; 0; 1] /\
  uds_data_to_serializable (fun _ => []) UInt32 (Some cm) false [1] = Ok (VString (chars "on")).
Proof.
  intros self cm.
  apply (text_table_roundtrip (ext := reference) (fun _ => []) self cm [(chars "off", 0); (chars "on", 1)]
    (chars "on") 1 None false [1]); try reflexivity; try (by right); try done.
  all: try (apply (bool_decide_unpack _); vm_compute; exact I).
Defined.

(** ** Panics *)

Section panics.
Context {ext : Externals}.

(** Text with the prefix [0x] for more than four bytes. *)
Definition long_hex (s : str) : Prop :=
  starts_with (chars "0x") (ascii_lower <$> s) = true /\
  exists d, decode_hex_with_optional_prefix hex_decode s = Ok d /\ 4 < len d.

Lemma fallible_not_panicked {A} (r : dresult A) : fallible r <> Err Panicked.
Proof. by destruct r. Qed.

Lemma to_be_bytes_len fmt f : 0 <= width fmt -> len (to_be_bytes fmt f) = width fmt.
Proof. intros. unfold to_be_bytes. by rewrite be_bytes_len, Z2Nat.id. Qed.

Lemma pad_msb_len l n : 0 <= n -> len l <= n -> len (pad_msb_to_len l n) = n.
Proof.
  intros Hn Hl. pose proof (len_nonneg l). unfold pad_msb_to_len. rewrite sat_sub_exact, len_app, len_vec_of by lia. lia.
Qed.

Lemma expect_padded l n : 0 <= n -> len l <= n ->
  expect (array_of n (pad_msb_to_len l n)) = Ok (pad_msb_to_len l n).
Proof. intros. unfold expect, array_of. by rewrite pad_msb_len, Z.eqb_refl by done. Qed.

Lemma radix_len prefix radix s d : decode_u32_radix prefix radix s = Ok d -> len d = 4.
Proof.
  unfold decode_u32_radix. destruct (negb _); [done|].
  destruct (from_str_radix _ _ _ _); [|done]. intros [= <-]. apply i32_bytes_len.
Qed.

Definition numeric_width (t : DataType) : Z := match t with Float64 => 8 | _ => 4 end.

Lemma hex_number_cases s p t : base_type p = UInt32 -> starts_with (chars "0x") (ascii_lower <$> s) = true ->
  (decode_numeric_val_from_str s p t = Err Panicked <-> long_hex s) /\
  forall d, decode_numeric_val_from_str s p t = Ok d -> len d = 4.
Proof.
  intros Hp Hs. unfold decode_numeric_val_from_str, long_hex. rewrite Hp, Hs.
  destruct (decode_hex_with_optional_prefix hex_decode s) as [d|e]; simpl; [|split; [split; [done|by intros (_ & d & ? & _)]|done]].
  destruct (Z.ltb_spec (len d) 4).
  - rewrite expect_padded by lia. simpl.
    destruct (validate_unsigned_cases 32 (be_val (pad_msb_to_len d 4)) (default 32 (bit_len t))) as [-> | ->]; simpl;
      (split; [split; [done|intros (_ & d' & [= <-] & ?); lia]|]); [|done]. intros ? [= <-]. apply i32_bytes_len.
  - unfold expect, array_of. destruct (Z.eqb_spec (len d) 4); simpl.
    + destruct (validate_unsigned_cases 32 (be_val d) (default 32 (bit_len t))) as [-> | ->]; simpl;
        (split; [split; [done|intros (_ & d' & [= <-] & ?); lia]|]); [|done]. intros ? [= <-]. apply i32_bytes_len.
    + split; [|done]. split; [|done]. intros _. split; [done|]. exists d. split; [done|lia].
Qed.

Lemma other_number_safe s p t : base_type p <> UInt32 \/ starts_with (chars "0x") (ascii_lower <$> s) = false ->
  decode_numeric_val_from_str s p t <> Err Panicked.
Proof.
  intros Hcase. unfold decode_numeric_val_from_str. destruct (base_type p); try done; cbv zeta.
  - destruct (parse_i32 s) as [z|]; [|done]. simpl.
    by destruct (validate_signed_cases 32 z (default 32 (bit_len t))) as [-> | ->].
  - destruct Hcase as [|Hs]; [done|]. rewrite Hs.
    destruct (starts_with (chars "0o") _); [apply fallible_not_panicked|].
    destruct (starts_with (chars "0b") _); [apply fallible_not_panicked|].
    destruct (parse_u32 s) as [z|]; [|done]. simpl.
    by destruct (validate_unsigned_cases 32 z (default 32 (bit_len t))) as [-> | ->].
  - by destruct (parse_float F32 s).
  - by destruct (parse_float F64 s).
Qed.

Lemma decode_numeric_panics s p t :
  decode_numeric_val_from_str s p t = Err Panicked <-> base_type p = UInt32 /\ long_hex s.
Proof.
  destruct (decide (base_type p = UInt32)) as [Hp|Hp].
  - destruct (starts_with (chars "0x") (ascii_lower <$> s)) eqn:Hs.
    + destruct (hex_number_cases s p t Hp Hs) as [[H1 H2] _]. split; [auto|]. intros [_ Hl]. auto.
    + split; [intros He; by apply other_number_safe in He; [|right]|]. intros [_ [Hs' _]]. congruence.
  - split; [intros He; by apply other_number_safe in He; [|left]|]. by intros [? _].
Qed.

Lemma decode_numeric_len s p t d : decode_numeric_val_from_str s p t = Ok d -> len d = numeric_width (base_type p).
Proof.
  destruct (starts_with (chars "0x") (ascii_lower <$> s)) eqn:Hs.
  - destruct (decide (base_type p = UInt32)) as [Hp|Hp].
    { rewrite Hp. by apply hex_number_cases. }
    unfold decode_numeric_val_from_str. destruct (base_type p); try done; simpl.
    + destruct (parse_i32 s); [|done]. simpl. destruct (validate_bit_len_signed _ _ _); [|done].
      intros [= <-]. apply i32_bytes_len.
    + destruct (parse_float F32 s); [|done]. intros [= <-]. by apply to_be_bytes_len.
    + destruct (parse_float F64 s); [|done]. intros [= <-]. by apply to_be_bytes_len.
  - unfold decode_numeric_val_from_str. rewrite Hs. destruct (base_type p); try done; simpl.
    + destruct (parse_i32 s); [|done]. simpl. destruct (validate_bit_len_signed _ _ _); [|done].
      intros [= <-]. apply i32_bytes_len.
    + destruct (starts_with (chars "0o") _).
      { destruct (decode_u32_octal_with_optional_prefix s) eqn:E; [|done]. intros [= <-]. by eapply radix_len. }
      destruct (starts_with (chars "0b") _).
      { destruct (decode_u32_binary_with_optional_prefix s) eqn:E; [|done]. intros [= <-]. by eapply radix_len. }
      destruct (parse_u32 s); [|done]. simpl. destruct (validate_bit_len_unsigned _ _ _); [|done].
      intros [= <-]. apply i32_bytes_len.
    + destruct (parse_float F32 s); [|done]. intros [= <-]. by apply to_be_bytes_len.
    + destruct (parse_float F64 s); [|done]. intros [= <-]. by apply to_be_bytes_len.
Qed.

Lemma f64_of_bytes_safe n read l : 0 <= n -> f64_of_bytes n read l <> Err Panicked.
Proof.
  intros Hn. unfold f64_of_bytes. destruct (Z.ltb_spec n (len l)); [done|]. by rewrite expect_padded by lia.
Qed.

Lemma parse_json_panics j t pt : parse_json_to_f64 j t pt = Err Panicked ->
  exists s p, j = Json.String s /\ pt = Some p /\ base_type p = UInt32 /\ long_hex s.
Proof.
  unfold parse_json_to_f64. destruct (as_f64 j); [done|]. destruct (as_i64 j); [done|].
  destruct (as_str j) as [s|] eqn:Hs; [|done]. destruct pt as [p|]; [|done].
  assert (j = Json.String s) as -> by (destruct j; by simplify_eq/=).
  destruct (decode_numeric_val_from_str s p t) as [d|[e| |]] eqn:Hd; simpl; [|done| |done].
  - destruct (base_datatype t); (done || (intros Hp; exfalso; revert Hp; by apply f64_of_bytes_safe)).
  - intros _. exists s, p. apply decode_numeric_panics in Hd as [? ?]. auto.
Qed.

Lemma process_physical_panics j p t : process_physical_type_value j p t = Err Panicked ->
  exists s, j = Json.String s /\ base_type p = UInt32 /\ long_hex s.
Proof.
  unfold process_physical_type_value. destruct (as_str j) as [s|] eqn:Hs; [|done]. simpl.
  assert (j = Json.String s) as -> by (destruct j; by simplify_eq/=).
  destruct (decode_numeric_val_from_str s p t) as [d|[e| |]] eqn:Hd; simpl; [|done| |done].
  - apply decode_numeric_len in Hd. case_bool_decide; [done|].
    destruct (base_type p); try done; simpl in Hd; rewrite expect_padded by lia; simpl;
      intros Hp; exfalso; revert Hp; apply fallible_not_panicked.
  - intros _. exists s. apply decode_numeric_panics in Hd as [? ?]. auto.
Qed.
End panics.

(** the conversion of a JSON value panics only on text with the prefix
    [0x] for more than four bytes, given for an unsigned physical type; without
    a computation method it always does on such a text. *)
Theorem conversion_panics {ext : Externals} self cm pt j :
  (json_value_to_uds_data self cm pt j = Err Panicked ->
   exists s p, j = Json.String s /\ pt = Some p /\ base_type p = UInt32 /\ long_hex s) /\
  (forall s p, j = Json.String s -> pt = Some p -> base_type p = UInt32 -> long_hex s -> cm = None ->
   is_byte_sequential (base_datatype self) = false ->
   json_value_to_uds_data self cm pt j = Err Panicked).
Proof.
  assert (Hdirect : forall t, numeric_json_value_to_byte_vector j t pt = Err Panicked ->
    exists s p, j = Json.String s /\ pt = Some p /\ base_type p = UInt32 /\ long_hex s).
  { intros t. unfold numeric_json_value_to_byte_vector. destruct (is_number j).
    - destruct (process_numeric_json_value j t); [|done]. simpl. by destruct (validate_data_length _ _).
    - destruct pt as [p|]; [|done].
      destruct (process_physical_type_value j p t) as [d|[e| |]] eqn:Hp; simpl;
        [by destruct (validate_data_length _ _)|done| |done].
      apply process_physical_panics in Hp as (s & -> & ? & ?). eauto 10. }
  split.
  - unfold json_value_to_uds_data. set (direct := match base_datatype self with Int32 => _ | _ => _ end).
    assert (Hd : direct = Err Panicked ->
      exists s p, j = Json.String s /\ pt = Some p /\ base_type p = UInt32 /\ long_hex s).
    { subst direct. destruct (base_datatype self); try apply Hdirect; destruct (as_str j); simpl; try done.
      by destruct (decode_hex_with_optional_prefix _ _). }
    destruct cm as [cm|]; [|exact Hd]. destruct (category cm); try exact Hd; try done; cbn [compu_convert].
    + unfold compu_convert_linear. destruct (negb _); [done|]. destruct (head _); [|done]. simpl.
      destruct (parse_json_to_f64 j self pt) as [f|[e| |]] eqn:Hp; simpl; [|done|intros _; by eapply parse_json_panics|done].
      destruct (rational_coefficients _); [|done]. simpl.
      destruct (apply_linear_conversion _ _ _); [|done]. simpl. by destruct (linear_scaled_value_to_bytes _ _).
    + unfold compu_convert_scale_linear.
      destruct (parse_json_to_f64 j self pt) as [f|[e| |]] eqn:Hp; simpl; [|done|intros _; by eapply parse_json_panics|done].
      destruct (list_find _ _) as [[i s]|]; [|done]. simpl. destruct (rational_coefficients _); [|done]. simpl.
      destruct (apply_linear_conversion _ _ _); [|done]. simpl. by destruct (linear_scaled_value_to_bytes _ _).
    + by destruct (compu_convert_text_table _ _ _).
  - intros s p -> -> Hp Hs -> Ht. unfold json_value_to_uds_data, numeric_json_value_to_byte_vector.
    assert (Hpan : process_physical_type_value (Json.String s) p self = Err Panicked).
    { unfold process_physical_type_value. simpl. by rewrite (proj2 (decode_numeric_panics s p self)). }
    simpl. rewrite Hpan. by destruct (base_datatype self).
Qed.

Example long_hex_panics :
  @json_value_to_uds_data reference
    {| base_datatype := UInt32; type_ := plain_standard 32 false; is_high_low_byte_order := true |} None
    (Some {| precision := None; base_type := UInt32; display_radix := None |})
    (Json.String (chars "0x0102030405")) = Err Panicked.
Proof. reflexivity. Qed.

(** ** Limits of byte fields *)

Lemma be_val_cons b l : bytes l -> be_val (b :: l) = b * 2 ^ (8 * len l) + be_val l.
Proof. intros Hl. change (b :: l) with ([b] ++ l). by rewrite be_val_app. Qed.

Lemma bytes_leb_val a b : bytes a -> bytes b -> len a = len b ->
  bytes_leb a b = true <-> be_val a <= be_val b.
Proof.
  intros Ha. revert b. induction Ha as [|x a Hx Ha IH]; intros b Hb Hl.
  - apply eq_sym, len_zero in Hl as ->. simpl. split; [lia|done].
  - destruct Hb as [|y b Hy Hb]; [done|]. rewrite !len_cons in Hl.
    assert (Hl' : len a = len b) by lia. cbn [bytes_leb]. rewrite !be_val_cons, Hl' by done.
    pose proof (be_val_bound a Ha) as Ba. pose proof (be_val_bound b Hb) as Bb. rewrite Hl' in Ba.
    rewrite orb_true_iff, andb_true_iff, Z.ltb_lt, Z.eqb_eq, (IH b Hb Hl').
    destruct (Z.lt_trichotomy x y) as [|[->|]]; split; intros; nia.
Qed.

Lemma to_digit_16 c d : to_digit 16 c = Some d -> 0 <= d < 16.
Proof.
  unfold to_digit, in_range, ch_0, ch_9, ch_a, ch_z, ch_A, ch_Z.
  destruct (Z.leb_spec 48 c), (Z.leb_spec c 57), (Z.leb_spec 97 c), (Z.leb_spec c 122),
    (Z.leb_spec 65 c), (Z.leb_spec c 90); simpl; try done; case_match; intros [= <-]; lia.
Qed.

Lemma hex_pairs_bytes n s l : (length s <= n)%nat -> hex_pairs s = Some l -> bytes l.
Proof.
  revert s l. induction n as [|n IH]; intros s l Hn; (destruct s as [|a [|b s]]; [by intros [= <-]; constructor|done|]);
    [simpl in Hn; lia|].
  cbn [hex_pairs]. intros (h & Hh & (g & Hg & (r & Hr & [= <-])%bind_Some)%bind_Some)%bind_Some.
  apply to_digit_16 in Hh, Hg. constructor; [unfold is_u8; lia|]. apply (IH s); [simpl in Hn; lia|done].
Qed.

Lemma limit_token_bytes {ext : Externals} `{!ExternalsOk ext} w l : limit_token w = Ok l -> bytes l.
Proof.
  assert (Hx : forall s, decode_hex hex_decode s = Ok l -> bytes l).
  { intros s. unfold decode_hex. destruct (negb _); [done|]. rewrite hex_decode_spec, ok_or_ok.
    intros Hp. by eapply hex_pairs_bytes. }
  unfold limit_token. destruct (forallb _ w).
  { unfold from_str_radix. intros (z & Hz%ok_or_ok & [= <-])%bind_ok. apply Forall_singleton.
    destruct w as [|c w]; simpl in Hz; [done|].
    repeat case_match; simplify_eq/=; try done;
      repeat match goal with H : _ ≫= _ = Some _ |- _ => apply bind_Some in H as (? & _ & H) end;
      case_match; simplify_eq/=; try done;
      match goal with H : in_range 0 _ 255 = true |- _ => apply in_range_spec in H; unfold is_u8; lia end. }
  destruct (existsb _ w).
  { intros (f & _ & [= <-])%bind_ok. apply Forall_singleton. unfold as_int, is_u8.
    destruct f as [s|s| |s m e]; simpl; [lia|destruct s; lia|lia|lia]. }
  destruct (try_strip_hex_prefix w); apply Hx.
Qed.

Lemma mapM_ok_forall {A B} (f : A -> dresult B) (P : B -> Prop) l k :
  (forall a b, f a = Ok b -> P b) -> mapM f l = Ok k -> Forall P k.
Proof.
  intros Hf. revert k. induction l as [|a l IH]; intros k; cbn [mapM]; [by intros [= <-]|].
  intros (b & Hb & (k' & Hk & [= <-])%bind_ok)%bind_ok. constructor; eauto.
Qed.

Lemma limit_bytes_bytes {ext : Externals} `{!ExternalsOk ext} u ub : limit_bytes u = Ok ub -> bytes ub.
Proof.
  unfold limit_bytes. destruct (mapM limit_token _) as [k|] eqn:E; [|done]. intros [= <-].
  apply (mapM_ok_forall limit_token bytes) in E; [|apply limit_token_bytes].
  induction E; [constructor|]. simpl. by apply Forall_app.
Qed.

Lemma pad_msb_bytes l n : bytes l -> bytes (pad_msb_to_len l n).
Proof. intros Hl. apply Forall_app. split; [apply bytes_vec_of|done]. Qed.

Lemma pad_msb_val l n : be_val (pad_msb_to_len l n) = be_val l.
Proof. apply be_val_zeros_app. Qed.

(** the limits of a byte field compare it as a big-endian number, whatever
    the lengths. *)
Theorem byte_limits_numeric {ext : Externals} `{!ExternalsOk ext} v u l ub lb :
  bytes v -> limit_bytes u = Ok ub -> limit_bytes l = Ok lb ->
  within_limits (VByteField v) (Some u) (Some l) = true <-> be_val lb <= be_val v <= be_val ub.
Proof.
  intros Hv Hu Hl. cbn [within_limits]. simpl. rewrite Hu, Hl. simpl.
  pose proof (len_nonneg v). set (n := Z.max (len v) _).
  rewrite andb_true_iff, !bytes_leb_val by
    (first [by apply pad_msb_bytes; eauto using limit_bytes_bytes | rewrite !pad_msb_len by lia; done]).
  rewrite !pad_msb_val. lia.
Qed.

Lemma byte_limits_numeric_witness :
  @within_limits reference (VByteField [1; 2]) (Some {| limit_value := chars "0x02 0x00"; interval_type := Closed |})
    (Some {| limit_value := chars "ff"; interval_type := Closed |}) = true.
Proof.
  apply (byte_limits_numeric (ext := reference) [1; 2] _ _ [2; 0] [255]);
    [repeat constructor; unfold is_u8; lia|reflexivity|reflexivity|split; vm_compute; congruence].
Defined.

(** ** What is lost *)

(** Octal and binary text is not checked against the length of its field, which
    keeps the low digits only. *)
Example octal_escapes_the_bit_length :
  let self := {| base_datatype := UInt32; type_ := plain_standard 8 false; is_high_low_byte_order := true |} in
  let pt := Some {| precision := None; base_type := UInt32; display_radix := None |} in
  @json_value_to_uds_data reference self None pt (Json.String (chars "0o777")) = Ok [0; 0; 1; 255] /\
  encode self [0; 0; 1; 255] [] 0 0 = ([255], Ok ()) /\
  @json_value_to_uds_data reference self None pt (Json.String (chars "511")) = Err (Failed ParameterConversionError).
Proof. vm_compute. done. Qed.

(** A linear method saturates at 32 bits, not at the length of the field. *)
Example linear_overflow_wraps :
  let self := {| base_datatype := UInt32; type_ := plain_standard 8 false; is_high_low_byte_order := true |} in
  let scale := {| lower_limit := None; upper_limit := None;
    rational_coefficients := Some {| numerator := [of_Z F64 0; of_Z F64 1]; denominator := [] |};
    consts := None; inverse_values := None |} in
  @json_value_to_uds_data reference self (Some {| category := Linear; scales := [scale] |}) None
    (@Number reference (PosInt 300)) = Ok [0; 0; 1; 44] /\
  encode self [0; 0; 1; 44] [] 0 0 = ([44], Ok ()).
Proof. vm_compute. done. Qed.

(** The upper case prefixes pass the first test and fail the second. *)
Example upper_case_prefix_refused :
  let self := {| base_datatype := UInt32; type_ := plain_standard 32 false; is_high_low_byte_order := true |} in
  let pt := Some {| precision := None; base_type := UInt32; display_radix := None |} in
  @json_value_to_uds_data reference self None pt (Json.String (chars "0B101"))
    = Err (Failed ParameterConversionError).
Proof. vm_compute. done. Qed.

(** Text for a physical float is read as the bit pattern of its [f32] by the
    linear method of an integer field. *)
Example float_text_is_read_as_bits :
  let self := {| base_datatype := Int32; type_ := plain_standard 32 false; is_high_low_byte_order := true |} in
  parse_json_to_f64 (ext := reference) (Json.String (chars "2.5")) self
    (Some {| precision := None; base_type := Float32; display_radix := None |}) = Ok (of_Z F64 1075838976).
Proof. vm_compute. done. Qed.

(** ASCII text is written as UTF-8 and read byte by byte. *)
Example latin1_text_changes :
  let self := {| base_datatype := AsciiString; type_ := plain_standard 16 false; is_high_low_byte_order := true |} in
  @json_value_to_uds_data reference self None None (Json.String [233]) = Ok [195; 169] /\
  uds_data_to_serializable (ext := reference) (fun _ => []) AsciiString None false [195; 169] = Ok (VString [195; 169]).
Proof. vm_compute. done. Qed.
