(* ===== verification/Database.v ===== *)
(** * Database records: parameters, data objects, services

    What the payload code reads of the diagnostic database
    (cda-database/src/datatypes.rs and data_operation.rs over the generated
    FlatBuffers accessors).  A table is the record of its accessors' results,
    an enum of the generated code its numeric constant, a union an inductive
    type.  Tables refer to each other forwards only, so they are finite trees. *)

From stdpp Require Import strings gmap.
From stdpp Require Import list.
From S2P Require Import Prelude Bytes Errors Text StateCharts DiagCodedType Values.

Local Open Scope Z_scope.
Set Warnings "-register-all".

(** ** Leaves *)

(** Computation method and physical type are given as the conversions of
    data_operation.rs make them. *)
Record NormalDop : Type := {
  normal_coded_type : option fb_DiagCodedType;
  normal_compu_method : option CompuMethod;
  normal_physical_type : option PhysicalType
}.

Record DTC : Type := {
  trouble_code : Z;
  display_trouble_code : option str;
  dtc_short_name : option str;
  dtc_text : option (option str);
  level : option Z
}.

Record DtcDop : Type := {
  dtc_coded_type : option fb_DiagCodedType;
  dtcs : option (list DTC)
}.

(** [impl_diag_coded_type] *)
Definition diag_coded_type_of (d : option fb_DiagCodedType) : dresult DiagCodedType :=
  match d with Some dc => DiagCodedType_try_from dc | None => Err InvalidDatabase end.
Definition normal_diag_coded_type (self : NormalDop) : dresult DiagCodedType := diag_coded_type_of (normal_coded_type self).
Definition dtc_diag_coded_type (self : DtcDop) : dresult DiagCodedType := diag_coded_type_of (dtc_coded_type self).

Record CodedConst : Type := {
  coded_value : option str;
  const_coded_type : option fb_DiagCodedType
}.

(** ** Tables that refer to data objects and parameters *)

Record SwitchKeyOf (D : Type) : Type := {
  key_byte_position : Z;
  key_bit_position : option Z;
  key_dop : option D
}.

Record CaseOf (D : Type) : Type := {
  case_short_name : option str;
  case_lower_limit : option Limit;
  case_upper_limit : option Limit;
  case_structure : option D
}.

Record DefaultCaseOf (D : Type) : Type := {
  default_short_name : option str;
  default_structure : option D
}.

Record MuxDopOf (D : Type) : Type := {
  mux_byte_position : Z;
  switch_key : option (SwitchKeyOf D);
  default_case : option (DefaultCaseOf D);
  cases : option (list (CaseOf D))
}.

Record DopFieldOf (D : Type) : Type := {
  basic_structure : option D;
  env_data_desc : option D
}.

Record EndOfPduOf (D : Type) : Type := {
  max_number_of_items : option Z;
  min_number_of_items : option Z;
  end_of_pdu_field : option (DopFieldOf D)
}.

Record StaticFieldOf (D : Type) : Type := {
  fixed_number_of_items : Z;
  item_byte_size : Z;
  static_field : option (DopFieldOf D)
}.

Record DetermineOf (D : Type) : Type := {
  number_byte_position : Z;
  number_bit_position : Z;
  number_dop : option D
}.

Record DynamicLengthOf (D : Type) : Type := {
  offset : Z;
  dynamic_field : option (DopFieldOf D);
  determine_number_of_items : option (DetermineOf D)
}.

Record EnvDataDescOf (D : Type) : Type := {
  param_short_name : option str;
  env_datas : option (list D)
}.

Record EnvDataOf (P : Type) : Type := {
  dtc_values : option (list Z);
  env_params : option (list P)
}.

Record StructureOf (P : Type) : Type := {
  struct_params : option (list P);
  byte_size : option Z
}.

Record TableRowOf (D : Type) : Type := {
  row_short_name : option str;
  row_key : option str;
  row_structure : option D
}.

Record TableDopOf (D : Type) : Type := {
  table_key_dop : option D;
  rows : option (list (TableRowOf D))
}.

Arguments key_byte_position {D}. Arguments key_bit_position {D}. Arguments key_dop {D}.
Arguments case_short_name {D}. Arguments case_lower_limit {D}. Arguments case_upper_limit {D}. Arguments case_structure {D}.
Arguments default_short_name {D}. Arguments default_structure {D}.
Arguments mux_byte_position {D}. Arguments switch_key {D}. Arguments default_case {D}. Arguments cases {D}.
Arguments basic_structure {D}. Arguments env_data_desc {D}.
Arguments max_number_of_items {D}. Arguments min_number_of_items {D}. Arguments end_of_pdu_field {D}.
Arguments fixed_number_of_items {D}. Arguments item_byte_size {D}. Arguments static_field {D}.
Arguments number_byte_position {D}. Arguments number_bit_position {D}. Arguments number_dop {D}.
Arguments offset {D}. Arguments dynamic_field {D}. Arguments determine_number_of_items {D}.
Arguments param_short_name {D}. Arguments env_datas {D}.
Arguments dtc_values {P}. Arguments env_params {P}.
Arguments struct_params {P}. Arguments byte_size {P}.
Arguments row_short_name {D}. Arguments row_key {D}. Arguments row_structure {D}.
Arguments table_key_dop {D}. Arguments rows {D}.

(** ** Parameters and data objects

    The union of a data object and that of a parameter have a tag and a table;
    [NoSpecificData] is the tag [NONE] or an unknown one, [MissingSpecificData]
    a tag whose table is absent, [OtherParamData] whatever no code here asks
    for. *)

Inductive Param : Type :=
  | MkParam (short_name semantic : option str) (fb_byte_position fb_bit_position : option Z)
      (fb_param_type : Z) (specific_data : ParamSpecificData)
with ParamSpecificData : Type :=
  | CodedConstData (c : CodedConst)
  | LengthKeyData (dop : option DataOperation)
  | MatchingRequestData (request_byte_pos : Z)
  | PhysConstData (phys_constant_value : option str) (dop : option DataOperation)
  | ReservedData (bit_length : Z)
  | ValueData (physical_default_value : option str) (dop : option DataOperation)
  | TableKeyData (table_dop : option (TableDopOf DataOperation))
  | TableStructData (table_key : option Param)
  | OtherParamData
with DataOperation : Type :=
  | NoSpecificData
  | MissingSpecificData
  | NormalDOP (d : NormalDop)
  | EndOfPduField (d : EndOfPduOf DataOperation)
  | StructureDOP (d : StructureOf Param)
  | EnvDataDesc (d : EnvDataDescOf DataOperation)
  | EnvData (d : EnvDataOf Param)
  | DTCDOP (d : DtcDop)
  | StaticField (d : StaticFieldOf DataOperation)
  | MUXDOP (d : MuxDopOf DataOperation)
  | DynamicLengthField (d : DynamicLengthOf DataOperation).

Abbreviation StructureDop := (StructureOf Param).
Abbreviation MuxDop := (MuxDopOf DataOperation).
Abbreviation DopField := (DopFieldOf DataOperation).
Abbreviation TableDop := (TableDopOf DataOperation).
Abbreviation TableRow := (TableRowOf DataOperation).
Abbreviation EnvDataDop := (EnvDataOf Param).

Definition short_name (self : Param) : option str := let '(MkParam n _ _ _ _ _) := self in n.
Definition semantic (self : Param) : option str := let '(MkParam _ s _ _ _ _) := self in s.
Definition specific_data (self : Param) : ParamSpecificData := let '(MkParam _ _ _ _ _ d) := self in d.
Definition byte_position (self : Param) : Z := let '(MkParam _ _ b _ _ _) := self in default 0 b.
Definition has_byte_position (self : Param) : bool := let '(MkParam _ _ b _ _ _) := self in bool_decide (is_Some b).
Definition bit_position (self : Param) : Z := let '(MkParam _ _ _ b _ _) := self in default 0 b.

Inductive ParamType : Type :=
  | CodedConstType
  | Dynamic
  | LengthKey
  | MatchingRequestParam
  | NrcConst
  | PhysConst
  | Reserved
  | System
  | TableEntry
  | TableKey
  | TableStruct
  | ValueType.

Definition ParamType_try_from (value : Z) : dresult ParamType :=
  match value with
  | 0 => Ok CodedConstType
  | 1 => Ok Dynamic
  | 2 => Ok LengthKey
  | 3 => Ok MatchingRequestParam
  | 4 => Ok NrcConst
  | 5 => Ok PhysConst
  | 6 => Ok Reserved
  | 7 => Ok System
  | 8 => Ok TableEntry
  | 9 => Ok TableKey
  | 10 => Ok TableStruct
  | 11 => Ok ValueType
  | _ => Err InvalidDatabase
  end.

Definition param_type (self : Param) : dresult ParamType :=
  let '(MkParam _ _ _ _ t _) := self in ParamType_try_from t.

Definition as_coded_const (self : Param) : option CodedConst :=
  match specific_data self with CodedConstData c => Some c | _ => None end.
Definition as_table_key (self : Param) : option (option TableDop) :=
  match specific_data self with TableKeyData t => Some t | _ => None end.

(** [DataOperation::variant]: a tag that is no variant is an error. *)
Definition variant (self : DataOperation) : dresult DataOperation :=
  match self with
  | NoSpecificData => Err ParameterConversionError
  | MissingSpecificData => Err InvalidDatabase
  | _ => Ok self
  end.

Definition as_structure (self : DataOperation) : option StructureDop :=
  match self with StructureDOP d => Some d | _ => None end.
Definition as_normal_dop (self : DataOperation) : option NormalDop :=
  match self with NormalDOP d => Some d | _ => None end.
Definition as_env_data (self : DataOperation) : option EnvDataDop :=
  match self with EnvData d => Some d | _ => None end.

(** ** Services *)

Inductive ResponseType : Type := Positive | Negative | GlobalNegative.

#[export] Instance ResponseType_eq_dec : EqDecision ResponseType.
Proof. solve_decision. Defined.

Definition ResponseType_try_from (value : Z) : dresult ResponseType :=
  match value with
  | 0 => Ok Positive
  | 1 => Ok Negative
  | 2 => Ok GlobalNegative
  | _ => Err InvalidDatabase
  end.

Record Response : Type := {
  response_type : Z;
  response_params : option (list Param)
}.

(** The request: its parameters. *)
Record DiagService : Type := {
  diag_comm : option DiagComm;
  request : option (option (list Param));
  pos_responses : option (list Response);
  neg_responses : option (list Response)
}.

(** ** The constants a request starts with *)

Definition A_UINT_32 : Z := 1.

Definition request_const_at (byte_pos bit_pos : Z) (p : Param) : option (Z * Z) :=
  if negb (byte_position p =? byte_pos) || negb (bit_position p =? bit_pos) then None
  else
    coded_const ← as_coded_const p;
    diag_coded_type ← const_coded_type coded_const;
    if negb (fb_base_data_type diag_coded_type =? A_UINT_32) then None
    else
      standard_length_type ← fb_as_standard_length_type diag_coded_type;
      if fb_sl_condensed standard_length_type
         || match fb_sl_bit_mask standard_length_type with Some mask => negb (bool_decide (mask = [])) | None => false end
      then None
      else
        coded_value ← coded_value coded_const;
        value ← parse_u32 coded_value;
        Some (value, fb_sl_bit_length standard_length_type).

Fixpoint find_map {A B} (f : A -> option B) (l : list A) : option B :=
  match l with
  | [] => None
  | a :: l => match f a with Some b => Some b | None => find_map f l end
  end.

Definition find_request_sid_or_sub_func_param (self : DiagService) (byte_pos bit_pos : Z) : option (Z * Z) :=
  request ← request self;
  params ← request;
  find_map (request_const_at byte_pos bit_pos) params.

(** [sid as u8] *)
Definition request_id (self : DiagService) : option Z :=
  '(sid, _) ← find_request_sid_or_sub_func_param self 0 0; Some (sid mod 256).

Definition request_sub_function_id (self : DiagService) : option (Z * Z) :=
  find_request_sid_or_sub_func_param self 1 0.

Record RawCodedConstParam : Type := {
  raw_byte_position : Z;
  value : Z;
  raw_bit_length : Z
}.

Definition byte_count (self : RawCodedConstParam) : Z := div_ceil (raw_bit_length self) 8.

Definition u32_sat_add (a b : Z) : Z := Z.min (a + b) U32_MAX.

(** The loop runs at most [fuel] times. *)
Fixpoint sequential_consts (fuel : nat) (self : DiagService) (current_byte_pos : Z) : presult (list RawCodedConstParam) :=
  match fuel with
  | O => Err OutOfFuel
  | S fuel =>
      match find_request_sid_or_sub_func_param self current_byte_pos 0 with
      | None => Ok []
      | Some (value, bit_length) =>
          l ← sequential_consts fuel self (u32_sat_add current_byte_pos (div_ceil bit_length 8));
          Ok ({| raw_byte_position := current_byte_pos; value := value; raw_bit_length := bit_length |} :: l)
      end
  end.

(** One round more than the request has parameters ([consts_terminate]). *)
Definition extract_sequential_coded_consts (self : DiagService) : presult (list RawCodedConstParam) :=
  sequential_consts (S (length (default [] (default None (request self))))) self 0.

Fixpoint prefix_matches (l : list RawCodedConstParam) (request_bytes : list Z) (byte_idx : Z) : bool :=
  match l with
  | [] => true
  | param :: l =>
      if 4 <? byte_count param then false
      else match checked_add byte_idx (byte_count param) with
           | None => false
           | Some end_idx =>
               if len request_bytes <? end_idx then true
               else match slice request_bytes byte_idx end_idx with
                    | None => false
                    | Some param_slice =>
                        if negb (value param =? be_val (vec_of (4 - byte_count param) 0 ++ param_slice)) then false
                        else prefix_matches l request_bytes end_idx
                    end
           end
  end.

Definition matches_request_prefix (self : DiagService) (request_bytes : list Z) : presult bool :=
  l ← extract_sequential_coded_consts self; Ok (prefix_matches l request_bytes 0).
