(* ===== verification/DiagLayers.v ===== *)
(** * Diagnostic layers and what they inherit

    A variant has a layer of its own and parents, whose layers and parents it
    inherits: the traversal of cda-core/src/diag_kernel/service_lookup.rs, which
    keeps a stack of references, against the recursion it stands for. *)

From stdpp Require Import strings gmap.
From stdpp Require Import list.
From S2P Require Import Prelude Bytes Errors Text StateCharts Database.

Local Open Scope Z_scope.
Set Warnings "-register-all".

Record SingleEcuJob : Type := { job_diag_comm : option DiagComm }.

Record DiagLayer : Type := {
  layer_short_name : option string;
  layer_state_charts : option (list StateChart);
  diag_services : option (list DiagService);
  single_ecu_jobs : option (list SingleEcuJob)
}.

Inductive ParentRefType : Type :=
  | ParentNone
  | ParentVariant
  | ParentProtocol
  | ParentFunctionalGroup
  | ParentTableDop
  | ParentEcuSharedData.

Definition ParentRefType_try_from (value : Z) : dresult ParentRefType :=
  match value with
  | 0 => Ok ParentNone
  | 1 => Ok ParentVariant
  | 2 => Ok ParentProtocol
  | 3 => Ok ParentFunctionalGroup
  | 4 => Ok ParentTableDop
  | 5 => Ok ParentEcuSharedData
  | _ => Err InvalidDatabase
  end.

(** A reference and the table it refers to: a variant, a protocol, a functional
    group or shared data, of which the layer and the parents matter. *)
Inductive ParentRef : Type :=
  | MkParentRef (not_inherited_diag_comm_short_names : option (list string)) (ref_type : Z) (ref : option ParentTable)
with ParentTable : Type :=
  | MkParentTable (diag_layer : option DiagLayer) (parent_refs : option (list ParentRef)).

Definition not_inherited (self : ParentRef) : list string := let '(MkParentRef l _ _) := self in default [] l.
Definition table_layer (self : ParentTable) : option DiagLayer := let '(MkParentTable l _) := self in l.
Definition table_parents (self : ParentTable) : list ParentRef := let '(MkParentTable _ l) := self in default [] l.

(** The parents and the layer one reference adds. *)
Definition resolve (parent_ref : ParentRef) : list ParentRef * option DiagLayer :=
  let '(MkParentRef _ ref_type ref) := parent_ref in
  match ParentRefType_try_from ref_type with
  | Ok (ParentFunctionalGroup | ParentProtocol | ParentVariant) =>
      match ref with Some t => (table_parents t, table_layer t) | None => ([], None) end
  | Ok ParentEcuSharedData => ([], t ← ref; table_layer t)
  | _ => ([], None)
  end.

(** The top of the stack is the head; at most [fuel] rounds. *)
Fixpoint collect_layers (fuel : nat) (stack : list ParentRef) : presult (list (ParentRef * DiagLayer)) :=
  match stack with
  | [] => Ok []
  | parent_ref :: stack =>
      match fuel with
      | O => Err OutOfFuel
      | S fuel =>
          let '(nested_refs, diag_layer) := resolve parent_ref in
          rest ← collect_layers fuel (reverse nested_refs ++ stack);
          Ok (match diag_layer with Some dl => (parent_ref, dl) :: rest | None => rest end)
      end
  end.

(** How many references there are. *)
Fixpoint ref_count (self : ParentRef) : nat :=
  let '(MkParentRef _ _ ref) := self in
  S match ref with
    | Some (MkParentTable _ (Some l)) => sum_list_with ref_count l
    | _ => 0
    end.

Definition get_parent_ref_diag_layers_with_refs_recursive (parent_refs : list ParentRef) : list (ParentRef * DiagLayer) :=
  default [] (result_ok (collect_layers (sum_list_with ref_count parent_refs) (reverse parent_refs))).

Definition get_parent_ref_diag_layers_recursive (parent_refs : list ParentRef) : list DiagLayer :=
  snd <$> get_parent_ref_diag_layers_with_refs_recursive parent_refs.

(** [None] when nothing is inherited. *)
Definition get_parent_ref_diag_comms_recursive {T} (extract : DiagLayer -> option (list T)) (get_name : T -> option string)
    (parent_refs : list ParentRef) : option (list T) :=
  let all_items := concat ((fun '(parent_ref, dl) =>
      List.filter (fun item => match get_name item with
                               | Some name => negb (bool_decide (name ∈ not_inherited parent_ref))
                               | None => true
                               end)
        (default [] (extract dl)))
    <$> get_parent_ref_diag_layers_with_refs_recursive parent_refs) in
  match all_items with [] => None | _ => Some all_items end.

Definition service_name (service : DiagService) : option string := dc ← diag_comm service; comm_short_name dc.
Definition job_name (job : SingleEcuJob) : option string := dc ← job_diag_comm job; comm_short_name dc.

Definition get_parent_ref_services_recursive : list ParentRef -> option (list DiagService) :=
  get_parent_ref_diag_comms_recursive diag_services service_name.
Definition get_parent_ref_jobs_recursive : list ParentRef -> option (list SingleEcuJob) :=
  get_parent_ref_diag_comms_recursive single_ecu_jobs job_name.

Definition get_services_from_diag_layer_and_parent_refs (diag_layer : DiagLayer) (parent_refs : list ParentRef)
    (service_filter : DiagService -> bool) : list DiagService :=
  List.filter service_filter
    (default [] (diag_services diag_layer) ++ default [] (get_parent_ref_services_recursive parent_refs)).

Definition get_single_ecu_jobs_from_diag_layer_and_parent_refs (diag_layer : DiagLayer) (parent_refs : list ParentRef)
    (service_filter : SingleEcuJob -> bool) : list SingleEcuJob :=
  List.filter service_filter
    (default [] (single_ecu_jobs diag_layer) ++ default [] (get_parent_ref_jobs_recursive parent_refs)).

(** ** The traversal *)

(** What one reference stands for: its layer, then those of its parents, the
    last one first. *)
Fixpoint inherited (self : ParentRef) : list (ParentRef * DiagLayer) :=
  let '(MkParentRef _ ref_type ref) := self in
  let own l := match l with Some dl => [(self, dl)] | None => [] end in
  match ParentRefType_try_from ref_type, ref with
  | Ok (ParentFunctionalGroup | ParentProtocol | ParentVariant), Some (MkParentTable l parents) =>
      own l ++ match parents with
               | Some parents => foldr (fun p acc => acc ++ inherited p) [] parents
               | None => []
               end
  | Ok ParentEcuSharedData, Some (MkParentTable l _) => own l
  | _, _ => []
  end.

Definition inherited_all (parents : list ParentRef) : list (ParentRef * DiagLayer) :=
  foldr (fun p acc => acc ++ inherited p) [] parents.

Lemma inherited_unfold p :
  inherited p = match (resolve p).2 with Some dl => [(p, dl)] | None => [] end ++ inherited_all (resolve p).1.
Proof.
  destruct p as [names t r]. simpl. destruct (ParentRefType_try_from t) as [[]|]; try done; destruct r as [[l [parents|]]|]; simpl;
    by rewrite ?app_nil_r.
Qed.

Lemma inherited_all_reverse parents : inherited_all parents = concat (inherited <$> reverse parents).
Proof.
  induction parents as [|p parents IH]; [done|].
  rewrite reverse_cons, fmap_app, concat_app, <- IH. simpl. by rewrite app_nil_r.
Qed.

Lemma sum_list_with_app {A} (f : A -> nat) l k : sum_list_with f (l ++ k) = (sum_list_with f l + sum_list_with f k)%nat.
Proof. induction l as [|a l IH]; simpl; [done|]. rewrite IH. lia. Qed.
Lemma sum_list_with_rev {A} (f : A -> nat) l : sum_list_with f (reverse l) = sum_list_with f l.
Proof. induction l as [|a l IH]; [done|]. rewrite reverse_cons, sum_list_with_app, IH. simpl. lia. Qed.

Lemma ref_count_resolve p : (sum_list_with ref_count (resolve p).1 < ref_count p)%nat.
Proof.
  destruct p as [names t r]. simpl. destruct (ParentRefType_try_from t) as [[]|]; simpl; try lia;
    destruct r as [[l [parents|]]|]; simpl; lia.
Qed.

Lemma collect_layers_spec fuel stack : (sum_list_with ref_count stack <= fuel)%nat ->
  collect_layers fuel stack = Ok (concat (inherited <$> stack)).
Proof.
  revert stack. induction fuel as [|fuel IH]; intros [|p stack] Hfuel; try done; simpl in Hfuel.
  - destruct p. simpl in Hfuel. lia.
  - cbn [collect_layers]. pose proof (inherited_unfold p) as Hp. pose proof (ref_count_resolve p) as Hc.
    destruct (resolve p) as [nested dl] eqn:E. simpl in Hp, Hc.
    rewrite IH by (rewrite sum_list_with_app, sum_list_with_rev; lia). cbn [mbind result_bind].
    rewrite fmap_app, concat_app, <- inherited_all_reverse. cbn [fmap list_fmap concat]. rewrite Hp. by destruct dl.
Qed.

Lemma layers_with_refs_spec parents : get_parent_ref_diag_layers_with_refs_recursive parents = inherited_all parents.
Proof.
  unfold get_parent_ref_diag_layers_with_refs_recursive. rewrite collect_layers_spec by (by rewrite sum_list_with_rev).
  simpl. by rewrite inherited_all_reverse.
Qed.

(** the traversal of the parents, which keeps a stack, ends for every tree of
    parents and gives what the recursion gives: every layer after the one that
    inherits it, the last parent and all it inherits before the others. *)
Theorem traversal_is_recursion parents fuel : (sum_list_with ref_count parents <= fuel)%nat ->
  collect_layers fuel (reverse parents) = Ok (inherited_all parents).
Proof. intros Hf. rewrite collect_layers_spec by (by rewrite sum_list_with_rev). by rewrite inherited_all_reverse. Qed.

Definition layer (name : string) : DiagLayer :=
  {| layer_short_name := Some name; layer_state_charts := None; diag_services := None; single_ecu_jobs := None |}.
Definition parent (t : Z) (name : string) (parents : list ParentRef) : ParentRef :=
  MkParentRef None t (Some (MkParentTable (Some (layer name)) (Some parents))).

(** A base variant over a protocol and shared data, next to a functional group. *)
Lemma traversal_is_recursion_witness :
  let parents := [parent 1 "base" [parent 2 "protocol" []; parent 5 "shared" []]; parent 3 "group" []]%string in
  match collect_layers 4 (reverse parents) with Ok l => map (fun p => layer_short_name p.2) l | Err _ => [] end
  = [Some "group"; Some "base"; Some "shared"; Some "protocol"]%string.
Proof.
  intros parents. rewrite (traversal_is_recursion parents 4) by (vm_compute; lia). vm_compute. reflexivity.
Defined.
