(* ===== verification/StorageTypes.v ===== *)
(** * Storage: operations, errors and file names

    The data of the storage interface (cda-interfaces/src/storage_api) and the
    file-name rules of cda-storage: sanitising a path segment, the [.bak] and
    [.tmp] extensions and how Rust's [Path] splits them off.  A string is its
    UTF-8 bytes. *)

From S2P Require Import Prelude.
From stdpp Require Export strings gmap.
From Stdlib Require Import Ascii.

Local Open Scope char_scope.
Local Open Scope string_scope.

(** ** Data *)

Inductive CollectionName : Type :=
  | DiagnosticDatabase
  | DiagnosticDatabaseNextUpdate
  | DiagnosticDatabaseBackup
  | Custom (name : string).

Definition as_str (self : CollectionName) : string :=
  match self with
  | DiagnosticDatabase => "diagnostic_database"
  | DiagnosticDatabaseNextUpdate => "diagnostic_database_next_update"
  | DiagnosticDatabaseBackup => "diagnostic_database_backup"
  | Custom name => name
  end.

Inductive Operation : Type :=
  | Write (collection : CollectionName) (key : string) (staged_path : string)
  | Delete (collection : CollectionName) (key : string)
  | DeleteAll (collection : CollectionName)
  | CreateCollection (name : CollectionName)
  | DeleteCollection (name : CollectionName)
  | CopyCollection (source dest : CollectionName) (dest_existed : bool).

#[export] Instance CollectionName_eq_dec : EqDecision CollectionName.
Proof. solve_decision. Defined.
#[export] Instance Operation_eq_dec : EqDecision Operation.
Proof. solve_decision. Defined.

(** The kinds of I/O error the code distinguishes or can run into. *)
Inductive IoError : Type := NotFound | DirectoryNotEmpty | OtherIo.

(** [StorageError], message texts dropped. *)
Inductive StorageError : Type :=
  | CollectionNotFound (name : string)
  | KeyNotFound (key : string)
  | PermissionDenied
  | TransactionBusy
  | TransactionConflict
  | NoSpaceLeft
  | Io (e : IoError)
  | Corruption
  | Other.

Abbreviation sresult := (result StorageError).

Definition map_io_error (err : IoError) (key : string) : StorageError :=
  match err with NotFound => KeyNotFound key | _ => Io err end.

(** ** Path segments *)

(** [char] tests on the bytes of a string. *)
Fixpoint contains_char (c : Ascii.ascii) (s : string) : bool :=
  match s with
  | EmptyString => false
  | String a s' => Ascii.eqb a c || contains_char c s'
  end.

(** [sanitize_path_segment] with the [sanitize-paths] feature; without it every
    segment is accepted. *)
Definition sanitize_path_segment (feature : bool) (segment : string) : sresult () :=
  if negb feature then Ok ()
  else if String.eqb segment "" then Err Other
  else if String.eqb segment "." || String.eqb segment ".." then Err Other
  else if contains_char "/"%char segment || contains_char "\"%char segment then Err Other
  else if contains_char "000"%char segment then Err Other
  else Ok ().

(** ** Extensions *)

(** The name before the last dot and the text behind it. *)
Fixpoint rsplit_dot (s : string) : option (string * string) :=
  match s with
  | EmptyString => None
  | String a s' =>
      match rsplit_dot s' with
      | Some (stem, ext) => Some (String a stem, ext)
      | None => if Ascii.eqb a "."%char then Some ("", s') else None
      end
  end.

(** [Path::extension] of a file name: a leading dot starts no extension. *)
Definition extension (name : string) : option string :=
  match rsplit_dot name with
  | Some (String _ _, ext) => Some ext
  | _ => None
  end.

(** [Path::with_extension("")]. *)
Definition without_extension (name : string) : string :=
  match rsplit_dot name with
  | Some (String a stem, _) => String a stem
  | _ => name
  end.

Definition BACKUP_EXTENSION : string := "bak".
Definition STAGING_EXTENSION : string := "tmp".

(** [append_extension]. *)
Definition append_extension (path ext : string) : string := path +:+ "." +:+ ext.

(** [append_bak_extension]. *)
Definition append_bak_extension (path : string) : string := append_extension path BACKUP_EXTENSION.

Definition has_extension (ext name : string) : bool := bool_decide (extension name = Some ext).

(** [str::to_ascii_lowercase]. *)
Definition ascii_lower (a : Ascii.ascii) : Ascii.ascii :=
  let n := Ascii.nat_of_ascii a in
  if (65 <=? n)%nat && (n <=? 90)%nat then Ascii.ascii_of_nat (n + 32) else a.

Fixpoint to_ascii_lowercase (s : string) : string :=
  match s with
  | EmptyString => EmptyString
  | String a s' => String (ascii_lower a) (to_ascii_lowercase s')
  end.

Definition normalize_key (key : string) : string := to_ascii_lowercase key.

(** [is_valid_key] for the name of a regular file. *)
Definition is_valid_key (name : string) : bool :=
  negb (has_extension BACKUP_EXTENSION name) && negb (has_extension STAGING_EXTENSION name).

(** ** Lemmas *)

(** Names the storage may use for its own data: neither empty nor taken for a
    backup or staging file. *)
Definition plain_name (name : string) : Prop := name <> "" /\ is_valid_key name = true.

#[export] Instance plain_name_dec name : Decision (plain_name name).
Proof. apply _. Defined.

Lemma rsplit_bak s : rsplit_dot (append_bak_extension s) = Some (s, BACKUP_EXTENSION).
Proof.
  induction s as [|a s IH]; [done|].
  unfold append_bak_extension, append_extension in *. simpl. by rewrite IH.
Qed.

Lemma extension_bak s : s <> "" -> extension (append_bak_extension s) = Some BACKUP_EXTENSION.
Proof. intros. unfold extension. rewrite rsplit_bak. by destruct s. Qed.

Lemma without_extension_bak s : s <> "" -> without_extension (append_bak_extension s) = s.
Proof. intros. unfold without_extension. rewrite rsplit_bak. by destruct s. Qed.

Lemma append_bak_inj s t : append_bak_extension s = append_bak_extension t -> s = t.
Proof. intros E. pose proof (rsplit_bak s) as H. rewrite E, rsplit_bak in H. congruence. Qed.

Lemma append_bak_neq s : s <> append_bak_extension s.
Proof.
  induction s as [|a s IH]; [done|]. intros E. apply IH.
  unfold append_bak_extension, append_extension in *. simpl in E. by injection E.
Qed.

Lemma has_extension_bak s : s <> "" -> has_extension BACKUP_EXTENSION (append_bak_extension s) = true.
Proof. intros. unfold has_extension. rewrite extension_bak by done. by apply bool_decide_eq_true_2. Qed.

Lemma plain_not_bak k : plain_name k -> has_extension BACKUP_EXTENSION k = false.
Proof. intros [_ H]. unfold is_valid_key in H. by destruct (has_extension BACKUP_EXTENSION k). Qed.

Lemma plain_not_tmp k : plain_name k -> has_extension STAGING_EXTENSION k = false.
Proof.
  intros [_ H]. unfold is_valid_key in H.
  by destruct (has_extension BACKUP_EXTENSION k), (has_extension STAGING_EXTENSION k).
Qed.

Lemma bak_not_tmp s : s <> "" -> has_extension STAGING_EXTENSION (append_bak_extension s) = false.
Proof. intros. unfold has_extension. rewrite extension_bak by done. by apply bool_decide_eq_false_2. Qed.

(** A plain name is no backup name. *)
Lemma plain_neq_bak k s : plain_name k -> s <> "" -> k <> append_bak_extension s.
Proof.
  intros Hk Hs ->. apply plain_not_bak in Hk. by rewrite has_extension_bak in Hk.
Qed.

Lemma as_str_nonempty_builtin c : (forall n, c <> Custom n) -> plain_name (as_str c).
Proof. destruct c; intros Hc; try (split; [done|reflexivity]). by destruct (Hc name). Qed.

(** Names with an extension [bak] are the backup names of their stems. *)
Lemma rsplit_dot_app s stem ext :
  rsplit_dot s = Some (stem, ext) -> s = stem +:+ "." +:+ ext.
Proof.
  revert stem ext. induction s as [|a s IH]; intros stem ext; [done|]. simpl.
  destruct (rsplit_dot s) as [[st ex]|].
  - intros [= <- <-]. simpl. by rewrite (IH st ex).
  - destruct (Ascii.eqb_spec a "."%char); [|done]. by intros [= <- <-]; subst.
Qed.

Lemma bak_of_stem s : has_extension BACKUP_EXTENSION s = true ->
  s = append_bak_extension (without_extension s) /\ without_extension s <> "".
Proof.
  unfold has_extension, extension, without_extension, append_bak_extension, append_extension.
  intros H%bool_decide_eq_true_1. destruct (rsplit_dot s) as [[[|a st] ex]|] eqn:E; try done.
  injection H as ->. apply rsplit_dot_app in E. done.
Qed.

(** Normalising a key is idempotent, so the stored name is a fixed point. *)
Lemma normalize_key_idem k : normalize_key (normalize_key k) = normalize_key k.
Proof.
  unfold normalize_key. induction k as [|a k IH]; [done|]. simpl. rewrite IH. f_equal.
  destruct a as [[] [] [] [] [] [] [] []]; reflexivity.
Qed.
