(* ===== verification/FileSystem.v ===== *)
(** * The file system the storage works on

    The three places cda-storage touches: the collection directories, the
    staging directory and the WAL file.  A call of [std::fs] is one step; a
    program is run to its result together with every state it passes through,
    which are the states a crash of the process can leave behind.
    The collections directory holds directories only and a collection
    directory regular files only, as the storage creates them. *)

From S2P Require Import Prelude StorageTypes.


Abbreviation file := (list Z).
Abbreviation dir := (gmap string file).

Record fs : Type := mk_fs {
  collections : gmap string dir;
  staging : gmap string file;
  wal_file : option file }.

(** ** Programs *)

(** What a run passes through, its result, and where it ends. *)
Definition io (A : Type) : Type := fs -> list fs * sresult A * fs.

#[export] Instance io_ret : MRet io := fun A a s => ([], Ok a, s).
#[export] Instance io_bind : MBind io := fun A B f m s =>
  match m s with
  | (t, Ok a, s') => let '(t', r, s'') := f a s' in (t ++ t', r, s'')
  | (t, Err e, s') => (t, Err e, s')
  end.

Definition throw {A} (e : StorageError) : io A := fun s => ([], Err e, s).
(** A pure result. *)
Definition lift {A} (r : sresult A) : io A := fun s => ([], r, s).
(** Reading the state is no step. *)
Definition query {A} (f : fs -> A) : io A := fun s => ([], Ok (f s), s).
(** One file-system call. *)
Definition call (f : fs -> result IoError fs) : io () := fun s =>
  match f s with
  | Ok s' => ([s'], Ok (), s')
  | Err e => ([], Err (Io e), s)
  end.
(** A result that is looked at instead of propagated. *)
Definition try_io {A} (m : io A) : io (sresult A) := fun s =>
  let '(t, r, s') := m s in (t, Ok r, s').

Definition run_result {A} (m : io A) (s : fs) : sresult A := let '(_, r, _) := m s in r.
Definition run_state {A} (m : io A) (s : fs) : fs := let '(_, _, s') := m s in s'.
(** The states a crash can leave: the start and every step's result. *)
Definition crash_states {A} (m : io A) (s : fs) : list fs := let '(t, _, _) := m s in s :: t.

(** [for x in l { body(x)?; }] *)
Fixpoint for_each {X} (l : list X) (body : X -> io ()) : io () :=
  match l with
  | [] => mret ()
  | x :: l' => body x ≫= fun _ => for_each l' body
  end.

Definition when (b : bool) (m : io ()) : io () := if b then m else mret ().

(** ** Steps *)

Definition with_collections (s : fs) (c : gmap string dir) : fs :=
  mk_fs c (staging s) (wal_file s).
Definition with_dir (s : fs) (c : string) (d : dir) : fs :=
  with_collections s (<[c := d]> (collections s)).

Definition get_dir (s : fs) (c : string) : option dir := collections s !! c.
Definition get_file (s : fs) (c k : string) : option file :=
  match get_dir s c with Some d => d !! k | None => None end.

(** [exists] of a directory and of a file in it. *)
Definition dir_exists (s : fs) (c : string) : bool := bool_decide (is_Some (get_dir s c)).
Definition file_exists (s : fs) (c k : string) : bool := bool_decide (is_Some (get_file s c k)).

(** [create_dir_all]. *)
Definition create_dir_all (c : string) : io () := call (fun s =>
  match get_dir s c with Some _ => Ok s | None => Ok (with_dir s c ∅) end).

(** [rename] of a file within a collection directory; replaces the target. *)
Definition rename_file (c k k' : string) : io () := call (fun s =>
  match get_dir s c with
  | Some d =>
      match d !! k with
      | Some v => Ok (with_dir s c (<[k' := v]> (delete k d)))
      | None => Err NotFound
      end
  | None => Err NotFound
  end).

(** [rename] of a staged file into a collection directory. *)
Definition rename_staged (p c k : string) : io () := call (fun s =>
  match staging s !! p, get_dir s c with
  | Some v, Some d =>
      Ok (mk_fs (<[c := <[k := v]> d]> (collections s)) (delete p (staging s)) (wal_file s))
  | _, _ => Err NotFound
  end).

(** [rename] of a directory; an existing target must be empty. *)
Definition rename_dir (c c' : string) : io () := call (fun s =>
  match get_dir s c with
  | Some d =>
      match get_dir s c' with
      | Some d' => if bool_decide (d' = ∅ \/ c' = c)
                   then Ok (with_collections s (<[c' := d]> (delete c (collections s))))
                   else Err DirectoryNotEmpty
      | None => Ok (with_collections s (<[c' := d]> (delete c (collections s))))
      end
  | None => Err NotFound
  end).

(** [remove_file]. *)
Definition remove_file (c k : string) : io () := call (fun s =>
  match get_dir s c with
  | Some d =>
      match d !! k with
      | Some _ => Ok (with_dir s c (delete k d))
      | None => Err NotFound
      end
  | None => Err NotFound
  end).

(** [remove_dir], for an empty directory. *)
Definition remove_dir (c : string) : io () := call (fun s =>
  match get_dir s c with
  | Some d => if bool_decide (d = ∅) then Ok (with_collections s (delete c (collections s)))
              else Err DirectoryNotEmpty
  | None => Err NotFound
  end).

(** [remove_dir_all]. *)
Definition remove_dir_all (c : string) : io () := call (fun s =>
  match get_dir s c with
  | Some _ => Ok (with_collections s (delete c (collections s)))
  | None => Err NotFound
  end).

(** [fs::copy] of a file into another collection directory. *)
Definition copy_file (c k c' : string) : io () := call (fun s =>
  match get_file s c k, get_dir s c' with
  | Some v, Some d' => Ok (with_dir s c' (<[k := v]> d'))
  | _, _ => Err NotFound
  end).

Definition remove_wal : io () := call (fun s =>
  match wal_file s with
  | Some _ => Ok (mk_fs (collections s) (staging s) None)
  | None => Err NotFound
  end).

Definition remove_staged (p : string) : io () := call (fun s =>
  match staging s !! p with
  | Some _ => Ok (mk_fs (collections s) (delete p (staging s)) (wal_file s))
  | None => Err NotFound
  end).

(** Writing the WAL file's contents. *)
Definition set_wal (data : file) : io () := call (fun s =>
  Ok (mk_fs (collections s) (staging s) (Some data))).

(** ** Reasoning about runs *)

(** Every state [m] passes through satisfies [P]; [Q] holds where it returns,
    [R] where it fails. *)
Definition runs {A} (m : io A) (s : fs) (P : fs -> Prop) (Q : A -> fs -> Prop)
    (R : StorageError -> fs -> Prop) : Prop :=
  let '(t, r, s') := m s in
  Forall P t /\ match r with Ok a => Q a s' | Err e => R e s' end.

Section runs.
Context {A B : Type} (P : fs -> Prop) (R : StorageError -> fs -> Prop).

Lemma runs_ret (a : A) s (Q : A -> fs -> Prop) : Q a s -> runs (mret a) s P Q R.
Proof. intros. by split. Qed.

Lemma runs_throw e s (Q : A -> fs -> Prop) : R e s -> runs (throw e) s P Q R.
Proof. intros. by split. Qed.

Lemma runs_query (f : fs -> A) s (Q : A -> fs -> Prop) : Q (f s) s -> runs (query f) s P Q R.
Proof. intros. by split. Qed.

Lemma runs_bind (m : io A) (f : A -> io B) s Q :
  runs m s P (fun a s' => runs (f a) s' P Q R) R -> runs (m ≫= f) s P Q R.
Proof.
  unfold runs, mbind, io_bind. destruct (m s) as [[t [a|e]] s']; [|done].
  destruct (f a s') as [[t' r] s'']. intros [Ht [Ht' HQ]]. split; [|done]. by apply Forall_app.
Qed.

Lemma runs_mono (m : io A) s (P' : fs -> Prop) (Q Q' : A -> fs -> Prop) (R' : _ -> _ -> Prop) :
  runs m s P Q R -> (forall u, P u -> P' u) -> (forall a u, Q a u -> Q' a u) ->
  (forall e u, R e u -> R' e u) -> runs m s P' Q' R'.
Proof.
  unfold runs. destruct (m s) as [[t r] s']. intros [Ht Hr] HP HQ HR.
  split; [by eapply Forall_impl|]. destruct r; auto.
Qed.

Lemma runs_lift (r : sresult A) s (Q : A -> fs -> Prop) :
  match r with Ok a => Q a s | Err e => R e s end -> runs (lift r) s P Q R.
Proof. intros. by split. Qed.

Lemma runs_try (m : io A) s (Q : sresult A -> fs -> Prop) :
  runs m s P (fun a u => Q (Ok a) u) (fun e u => Q (Err e) u) -> runs (try_io m) s P Q R.
Proof.
  unfold runs, try_io. destruct (m s) as [[t [a|e]] s']; intros [? ?]; by split.
Qed.

Lemma runs_call f s (Q : () -> fs -> Prop) :
  match f s with Ok s' => P s' /\ Q () s' | Err e => R (Io e) s end ->
  runs (call f) s P Q R.
Proof.
  unfold runs, call. destruct (f s); [|by split]. intros [HP HQ]. split; [|done].
  by constructor.
Qed.
End runs.

(** A loop whose body keeps an invariant of the elements still to come. *)
Lemma runs_for_each {X} (l : list X) body (I : list X -> fs -> Prop) P R s :
  I l s -> 
  (forall x l' u, I (x :: l') u -> runs (body x) u P (fun _ u' => I l' u') R) ->
  runs (for_each l body) s P (fun _ u => I [] u) R.
Proof.
  intros HI Hstep. revert s HI. induction l as [|x l IH]; intros s HI; simpl.
  - by apply runs_ret.
  - apply runs_bind. eapply runs_mono; [by apply Hstep|done| |done]. intros [] u Hu. by apply IH.
Qed.

(** Reading off the result and the crash states of a run. *)
Lemma runs_crash {A} (m : io A) s P Q R u :
  runs m s P Q R -> P s -> u ∈ crash_states m s -> P u.
Proof.
  unfold runs, crash_states. destruct (m s) as [[t r] s']. intros [Ht _] Hs Hu.
  assert (Hall : Forall P (s :: t)) by by constructor.
  exact (proj1 (Forall_forall P (s :: t)) Hall u Hu).
Qed.

Lemma runs_ok {A} (m : io A) s P Q :
  runs m s P Q (fun _ _ => False) -> exists a, run_result m s = Ok a /\ Q a (run_state m s).
Proof.
  unfold runs, run_result, run_state. destruct (m s) as [[t [a|e]] s']; [|by intros [_ ?]].
  intros [_ HQ]. by exists a.
Qed.

Lemma crash_states_start {A} (m : io A) s : s ∈ crash_states m s.
Proof. unfold crash_states. destruct (m s) as [[t r] s']. by left. Qed.

Lemma runs_true {A} (m : io A) s :
  runs m s (fun _ => True) (fun _ _ => True) (fun _ _ => True).
Proof. unfold runs. destruct (m s) as [[t [a|e]] s']; split; try done; by apply Forall_true. Qed.

(** What holds where a run returns, from its result. *)
Lemma runs_result {A} (m : io A) s P Q R a :
  runs m s P Q R -> run_result m s = Ok a -> Q a (run_state m s).
Proof.
  unfold runs, run_result, run_state. destruct (m s) as [[t r] s']. intros [_ H] ->. done.
Qed.
