(* ===== verification/Wal.v ===== *)
(** * The write-ahead log

    cda-storage/src/wal.rs: the file header, the entry envelopes and the
    reader that stops at the first entry that does not check.  The CRC32 and
    the rkyv encoding of an operation are libraries: parameters here, with the
    laws the reader relies on. *)

From S2P Require Import Prelude Bytes StorageTypes FileSystem.

Local Open Scope Z_scope.
Local Open Scope rust_scope.

Inductive WalStatus : Type := Recording | Committing.

Definition WAL_MAGIC : Z := 202.
Definition STATUS_RECORDING : Z := 0.
Definition STATUS_COMMITTING : Z := 1.
Definition WAL_FILE_HEADER_SIZE : Z := 8.
Definition ENTRY_HEADER_SIZE : Z := 8.

(** [u32::to_le_bytes], [u32::from_le_bytes]. *)
Definition to_le_bytes (v : Z) : list Z := reverse (be_bytes 4 v).
Definition from_le_bytes (l : list Z) : Z := be_val (reverse l).

Record WalReadResult : Type := { operations : list Operation; truncated : bool }.

Section wal.
Context (crc32 : list Z -> Z).
Context (to_bytes : Operation -> option (list Z)) (from_bytes : list Z -> option Operation).

Definition compute_checksum (data : list Z) : Z := crc32 data.
Definition compute_header_checksum (magic status : Z) : Z := crc32 [magic; status].

Definition encode_header (status : Z) : list Z :=
  [WAL_MAGIC; status; 0; 0] ++ to_le_bytes (compute_header_checksum WAL_MAGIC status).

(** The bytes [append_operation] adds for an operation. *)
Definition encode_entry (op : Operation) : sresult (list Z) :=
  payload ← ok_or (to_bytes op) Other;
  if U32_MAX <? len payload then Err Other
  else Ok (to_le_bytes (compute_checksum payload) ++ to_le_bytes (len payload) ++ payload).

(** Opening for appending fails when the file is gone. *)
Definition append_operation (op : Operation) : io () :=
  entry ← lift (encode_entry op);
  data ← query wal_file;
  match data with
  | Some data => set_wal (data ++ entry)
  | None => throw (Io NotFound)
  end.

(** Writing a header over the start of the file. *)
Definition mark_committing : io () :=
  data ← query wal_file;
  match data with
  | Some data =>
      set_wal (encode_header STATUS_COMMITTING ++ drop (Z.to_nat WAL_FILE_HEADER_SIZE) data)
  | None => throw (Io NotFound)
  end.

(** [File::create] truncates, then the header is written. *)
Definition create_wal : io () :=
  _ ← set_wal [];
  set_wal (encode_header STATUS_RECORDING).

Definition open_wal (wal : option (list Z)) : option (WalStatus * list Z) :=
  match wal with
  | None => None
  | Some data =>
      if len data <? WAL_FILE_HEADER_SIZE then None
      else
        match get data 0, get data 1, slice data 4 WAL_FILE_HEADER_SIZE with
        | Some magic, Some status, Some crc_bytes =>
            if negb (magic =? WAL_MAGIC) then None
            else if negb (from_le_bytes crc_bytes =? compute_header_checksum magic status)
            then None
            else if status =? STATUS_RECORDING then Some (Recording, data)
            else if status =? STATUS_COMMITTING then Some (Committing, data)
            else None
        | _, _, _ => None
        end
  end.

(** The [while offset < data.len()] loop of [read_wal]; an iteration that goes
    on moves the offset behind at least one payload byte. *)
Fixpoint read_entries (fuel : nat) (data : list Z) (offset : Z) (ops : list Operation)
    : sresult WalReadResult :=
  match fuel with
  | O => Ok {| operations := ops; truncated := false |}
  | S fuel =>
      if negb (offset <? len data) then Ok {| operations := ops; truncated := false |}
      else if len data -sat offset <? ENTRY_HEADER_SIZE
      then Ok {| operations := ops; truncated := true |}
      else
        header ← ok_or (slice data offset (offset +sat ENTRY_HEADER_SIZE)) Other;
        checksum_bytes ← ok_or (slice header 0 4) Other;
        len_bytes ← ok_or (slice header 4 8) Other;
        let stored_checksum := from_le_bytes checksum_bytes in
        let payload_len := from_le_bytes len_bytes in
        let payload_start := offset +sat ENTRY_HEADER_SIZE in
        let payload_end := payload_start +sat payload_len in
        if (len data <? payload_end) || (payload_end <=? payload_start)
        then Ok {| operations := ops; truncated := true |}
        else
          payload ← ok_or (slice data payload_start payload_end) Other;
          if negb (stored_checksum =? compute_checksum payload)
          then Ok {| operations := ops; truncated := true |}
          else
            op ← ok_or (from_bytes payload) Other;
            read_entries fuel data payload_end (ops ++ [op])
  end.

Definition read_wal (data : list Z) : sresult WalReadResult :=
  read_entries (length data) data WAL_FILE_HEADER_SIZE [].
End wal.

(** ** Laws of the libraries *)

(** What the log relies on: checksums are 32 bits wide, and an operation is
    encoded in at least one byte and decoded to itself. *)
Record codec_ok (crc32 : list Z -> Z) (to_bytes : Operation -> option (list Z))
    (from_bytes : list Z -> option Operation) : Prop := {
  crc32_u32 : forall l, 0 <= crc32 l <= U32_MAX;
  to_bytes_bytes : forall op l, to_bytes op = Some l -> bytes l;
  to_bytes_nonempty : forall op l, to_bytes op = Some l -> 0 < len l;
  from_to_bytes : forall op l, to_bytes op = Some l -> from_bytes l = Some op }.

Arguments crc32_u32 {_ _ _}.
Arguments to_bytes_bytes {_ _ _}.
Arguments to_bytes_nonempty {_ _ _}.
Arguments from_to_bytes {_ _ _}.

Lemma le_bytes_len v : len (to_le_bytes v) = 4.
Proof. unfold to_le_bytes. by rewrite len_reverse, be_bytes_len. Qed.

Lemma le_bytes_roundtrip v : 0 <= v <= U32_MAX -> from_le_bytes (to_le_bytes v) = v.
Proof.
  intros Hv. unfold from_le_bytes, to_le_bytes. rewrite reverse_involutive, be_val_be_bytes.
  apply Z.mod_small. unfold U32_MAX in Hv. simpl. lia.
Qed.

(** A slice of a concatenation, at the boundaries of its parts. *)
Lemma slice_middle {A} (l k r : list A) a b :
  a = len l -> b = len l + len k -> slice (l ++ k ++ r) a b = Some k.
Proof.
  intros -> ->. pose proof (len_nonneg l). pose proof (len_nonneg k). pose proof (len_nonneg r).
  rewrite slice_some by (rewrite ?len_app; lia). f_equal.
  rewrite drop_app_length' by (unfold len; lia). apply take_app_length'. unfold len in *. lia.
Qed.

Lemma slice_beyond {A} (l k : list A) a b :
  0 <= a -> slice (l ++ k) (len l + a) (len l + b) = slice k a b.
Proof.
  intros Ha. pose proof (len_nonneg l). unfold slice. rewrite len_app.
  replace (len l + a <=? len l + b) with (a <=? b) by (destruct (Z.leb_spec a b), (Z.leb_spec (len l + a) (len l + b)); (done || lia)).
  replace (len l + b <=? len l + len k) with (b <=? len k)
    by (destruct (Z.leb_spec b (len k)), (Z.leb_spec (len l + b) (len l + len k)); (done || lia)).
  destruct (_ && _); [|done]. do 2 f_equal; [lia|].
  rewrite drop_app_ge by (unfold len in *; lia). f_equal. unfold len. lia.
Qed.

Section laws.
Context (crc32 : list Z -> Z).
Context (to_bytes : Operation -> option (list Z)) (from_bytes : list Z -> option Operation).
Hypothesis Hcodec : codec_ok crc32 to_bytes from_bytes.

Abbreviation encode_header := (encode_header crc32).
Abbreviation encode_entry := (encode_entry crc32 to_bytes).
Abbreviation read_entries := (read_entries crc32 from_bytes).
Abbreviation read_wal := (read_wal crc32 from_bytes).
Abbreviation open_wal := (open_wal crc32).

Lemma encode_header_len status : len (encode_header status) = WAL_FILE_HEADER_SIZE.
Proof. unfold Wal.encode_header. rewrite len_app, le_bytes_len. done. Qed.

Definition status_byte (st : WalStatus) : Z :=
  match st with Recording => STATUS_RECORDING | Committing => STATUS_COMMITTING end.

(** A file that starts with a header is recognised with its status. *)
Lemma open_wal_header st rest :
  open_wal (Some (encode_header (status_byte st) ++ rest))
  = Some (st, encode_header (status_byte st) ++ rest).
Proof.
  pose proof (len_nonneg rest). set (data := encode_header (status_byte st) ++ rest).
  set (crc := to_le_bytes (compute_header_checksum crc32 WAL_MAGIC (status_byte st))).
  assert (Hd : data = [WAL_MAGIC; status_byte st; 0; 0] ++ crc ++ rest)
    by (unfold data, Wal.encode_header; by rewrite <- app_assoc).
  assert (Hl : 8 <= len data) by (unfold data; rewrite len_app, encode_header_len; unfold WAL_FILE_HEADER_SIZE; lia).
  assert (H0 : get data 0 = Some WAL_MAGIC) by (by rewrite Hd).
  assert (H1 : get data 1 = Some (status_byte st)) by (by rewrite Hd).
  assert (H2 : slice data 4 WAL_FILE_HEADER_SIZE = Some crc)
    by (rewrite Hd; apply slice_middle; unfold crc; by rewrite ?le_bytes_len).
  unfold Wal.open_wal. rewrite (proj2 (Z.ltb_ge _ _)) by done. rewrite H0, H1, H2. simpl negb.
  unfold crc. rewrite le_bytes_roundtrip by apply Hcodec. rewrite Z.eqb_refl. simpl.
  by destruct st.
Qed.

Lemma encode_entry_ok op e :
  encode_entry op = Ok e ->
  exists p, to_bytes op = Some p /\ 0 < len p <= U32_MAX /\
    e = to_le_bytes (crc32 p) ++ to_le_bytes (len p) ++ p.
Proof.
  unfold Wal.encode_entry. intros (p & Hp%ok_or_ok & H)%bind_ok.
  destruct (Z.ltb_spec U32_MAX (len p)); [done|]. injection H as <-.
  exists p. split; [done|]. split; [|done]. split; [by eapply Hcodec|done].
Qed.

Lemma encode_entry_len op e : encode_entry op = Ok e -> 8 < len e.
Proof. intros (p & _ & ? & ->)%encode_entry_ok. rewrite !len_app, !le_bytes_len. lia. Qed.

(** One iteration over a complete entry. *)
Lemma read_one fuel pre op e rest ops :
  encode_entry op = Ok e -> len (pre ++ e ++ rest) <= USIZE_MAX ->
  read_entries (S fuel) (pre ++ e ++ rest) (len pre) ops
  = read_entries fuel (pre ++ e ++ rest) (len pre + len e) (ops ++ [op]).
Proof.
  intros Hop Hmax. pose proof (encode_entry_len _ _ Hop) as Hel.
  destruct (encode_entry_ok _ _ Hop) as (p & Hp & Hpl & He).
  pose proof (len_nonneg pre). pose proof (len_nonneg rest).
  assert (Hl : len (pre ++ e ++ rest) = len pre + len e + len rest) by (rewrite !len_app; lia).
  assert (Hle : len e = 8 + len p) by (rewrite He, !len_app, !le_bytes_len; lia).
  set (hd := to_le_bytes (crc32 p) ++ to_le_bytes (len p)).
  assert (Hhd : e = hd ++ p) by (rewrite He; unfold hd; by rewrite app_assoc).
  assert (Hhl : len hd = 8) by (unfold hd; rewrite len_app, !le_bytes_len; done).
  set (data := pre ++ e ++ rest) in *.
  assert (H1 : slice data (len pre) (len pre + ENTRY_HEADER_SIZE) = Some hd).
  { unfold data. rewrite Hhd, <- app_assoc. apply slice_middle; unfold ENTRY_HEADER_SIZE; lia. }
  assert (H2 : slice hd 0 4 = Some (to_le_bytes (crc32 p)))
    by (apply (slice_middle [] (to_le_bytes (crc32 p))); by rewrite ?le_bytes_len).
  assert (H3 : slice hd 4 8 = Some (to_le_bytes (len p))).
  { unfold hd. rewrite <- (app_nil_r (to_le_bytes (len p))).
    apply slice_middle; by rewrite ?le_bytes_len. }
  assert (H4 : slice data (len pre + 8) (len pre + 8 + len p) = Some p).
  { unfold data. rewrite Hhd, <- app_assoc, app_assoc. apply slice_middle; rewrite len_app; lia. }
  simpl. rewrite (proj2 (Z.ltb_lt (len pre) _)) by lia. simpl.
  rewrite sat_sub_exact, (proj2 (Z.ltb_ge _ _)) by (unfold ENTRY_HEADER_SIZE; lia).
  rewrite (sat_add_exact (len pre)) by (unfold ENTRY_HEADER_SIZE; lia).
  rewrite H1. cbn [ok_or mbind result_bind]. rewrite H2. cbn [ok_or mbind result_bind]. rewrite H3.
  cbn [ok_or mbind result_bind].
  rewrite !le_bytes_roundtrip by (try apply Hcodec; lia). unfold ENTRY_HEADER_SIZE.
  rewrite sat_add_exact, (proj2 (Z.ltb_ge _ _)), (proj2 (Z.leb_gt _ _)) by lia. simpl.
  rewrite H4. simpl. unfold compute_checksum. rewrite Z.eqb_refl. simpl.
  rewrite (from_to_bytes Hcodec op p Hp). simpl. f_equal. lia.
Qed.

(** The entries of a list of operations. *)
Definition entries (ops : list Operation) (es : list (list Z)) : Prop :=
  Forall2 (fun op e => encode_entry op = Ok e) ops es.

Lemma read_many fuel pre ops es rest acc :
  entries ops es -> (length es <= fuel)%nat -> len (pre ++ concat es ++ rest) <= USIZE_MAX ->
  read_entries fuel (pre ++ concat es ++ rest) (len pre) acc
  = read_entries (fuel - length es) (pre ++ concat es ++ rest) (len pre + len (concat es)) (acc ++ ops).
Proof.
  intros He. revert fuel pre acc. induction He as [|op e ops es Hop He IH]; intros fuel pre acc Hf Hmax.
  - simpl. rewrite Nat.sub_0_r, app_nil_r. f_equal. unfold len. simpl. lia.
  - destruct fuel as [|fuel]; [simpl in Hf; lia|]. simpl concat in *. rewrite <- app_assoc in *.
    rewrite (read_one _ _ op) by done.
    rewrite (app_assoc pre), <- len_app. rewrite (IH fuel (pre ++ e)).
    + rewrite !len_app. simpl. rewrite <- (app_assoc acc). simpl. f_equal. lia.
    + simpl in Hf. lia.
    + by rewrite <- app_assoc.
Qed.

(** At the end of the file the loop is done. *)
Lemma read_end fuel data acc :
  read_entries fuel data (len data) acc = Ok {| operations := acc; truncated := false |}.
Proof. destruct fuel; simpl; [done|]. by rewrite Z.ltb_irrefl. Qed.

(** An entry cut off in its middle is recognised as such. *)
Lemma read_cut fuel pre op e cut tail acc :
  encode_entry op = Ok e -> e = cut ++ tail -> cut <> [] -> tail <> [] ->
  len (pre ++ cut) <= USIZE_MAX -> len e <= USIZE_MAX -> len pre + len e <= USIZE_MAX ->
  read_entries (S fuel) (pre ++ cut) (len pre) acc = Ok {| operations := acc; truncated := true |}.
Proof.
  intros Hop Hcut Hne Htl Hmax Hemax Hpe.
  destruct (encode_entry_ok _ _ Hop) as (p & Hp & Hpl & He).
  pose proof (len_nonneg pre).
  assert (Hc : 0 < len cut).
  { pose proof (len_nonneg cut). destruct (decide (len cut = 0)) as [E%len_zero|]; [done|lia]. }
  assert (Ht : 0 < len tail).
  { pose proof (len_nonneg tail). destruct (decide (len tail = 0)) as [E%len_zero|]; [done|lia]. }
  assert (Hle : len e = 8 + len p) by (rewrite He, !len_app, !le_bytes_len; lia).
  assert (Hsum : len e = len cut + len tail) by (rewrite Hcut; apply len_app).
  rewrite len_app in Hmax. simpl. rewrite len_app.
  rewrite (proj2 (Z.ltb_lt _ _)) by lia. simpl.
  rewrite sat_sub_exact by lia. unfold ENTRY_HEADER_SIZE.
  destruct (Z.ltb_spec (len pre + len cut - len pre) 8); [done|].
  rewrite !(sat_add_exact (len pre)) by lia.
  set (hd := to_le_bytes (crc32 p) ++ to_le_bytes (len p)).
  assert (Hhl : len hd = 8) by (unfold hd; rewrite len_app, !le_bytes_len; done).
  assert (exists c', cut = hd ++ c') as [c' ->].
  { exists (drop 8 cut). rewrite <- (take_drop 8 cut) at 1. f_equal.
    rewrite He in Hcut. apply (f_equal (take 8)) in Hcut. unfold len in *.
    rewrite (take_app_le cut tail) in Hcut by lia. rewrite <- Hcut, app_assoc. fold hd.
    apply take_app_length'. lia. }
  assert (H1 : slice (pre ++ hd ++ c') (len pre) (len pre + 8) = Some hd)
    by (apply slice_middle; lia).
  assert (H2 : slice hd 0 4 = Some (to_le_bytes (crc32 p)))
    by (apply (slice_middle [] (to_le_bytes (crc32 p))); by rewrite ?le_bytes_len).
  assert (H3 : slice hd 4 8 = Some (to_le_bytes (len p))).
  { unfold hd. rewrite <- (app_nil_r (to_le_bytes (len p))).
    apply slice_middle; by rewrite ?le_bytes_len. }
  rewrite H1. cbn [ok_or mbind result_bind]. rewrite H2. cbn [ok_or mbind result_bind]. rewrite H3.
  cbn [ok_or mbind result_bind].
  rewrite !le_bytes_roundtrip by (try apply Hcodec; lia).
  rewrite sat_add_exact by lia. rewrite (proj2 (Z.ltb_lt _ _)) by lia. done.
Qed.

(** How many whole entries a prefix of [n] bytes of the log body holds. *)
Fixpoint whole_entries (es : list (list Z)) (n : nat) : nat :=
  match es with
  | [] => 0
  | e :: es => if (length e <=? n)%nat then S (whole_entries es (n - length e)) else 0
  end.

Lemma whole_entries_le es n : (whole_entries es n <= length es)%nat.
Proof.
  revert n. induction es as [|e es IH]; intros n; simpl; [lia|].
  destruct (Nat.leb_spec (length e) n); [|lia]. specialize (IH (n - length e)%nat). lia.
Qed.

(** Every entry has at least one byte. *)
Lemma entries_length ops es : entries ops es -> (length es <= length (concat es))%nat.
Proof.
  induction 1 as [|op e ops es Hop _ IH]; [done|]. apply encode_entry_len in Hop.
  simpl. rewrite length_app. unfold len in Hop. lia.
Qed.

(** Splitting a prefix of the log at the last whole entry. *)
Lemma whole_entries_split es n :
  (n <= length (concat es))%nat ->
  exists k, k = whole_entries es n /\ (length (concat (take k es)) <= n)%nat /\
    take n (concat es) = concat (take k es) ++ take (n - length (concat (take k es))) (concat (drop k es)) /\
    (n = length (concat (take k es)) \/
     exists e, es !! k = Some e /\ (n - length (concat (take k es)) < length e)%nat).
Proof.
  exists (whole_entries es n). split; [done|].
  revert n H. induction es as [|e es IH]; intros n Hn; simpl in *.
  - split; [lia|]. rewrite !take_nil. split; [done|]. left. lia.
  - destruct (Nat.leb_spec (length e) n) as [Hle|Hgt]; simpl.
    + rewrite length_app in Hn. destruct (IH (n - length e)%nat ltac:(lia)) as (Hl & Ht & Hc).
      rewrite length_app. split; [lia|]. split.
      * rewrite take_app_ge by lia. rewrite Ht, <- app_assoc. do 3 f_equal. lia.
      * destruct Hc as [Hc|(e' & He' & Hc)]; [left; lia|right]. exists e'. split; [done|lia].
    + split; [lia|]. rewrite Nat.sub_0_r. split; [done|]. right. exists e. split; [done|lia].
Qed.
End laws.

(** a log cut off at any byte, as a crash while appending leaves it, reads
    back as exactly the operations whose entries are whole, and it is reported
    as truncated exactly when the cut is not at the end of an entry. *)
Theorem wal_prefix_read crc32 to_bytes from_bytes header ops es n :
  codec_ok crc32 to_bytes from_bytes -> entries crc32 to_bytes ops es ->
  len header = WAL_FILE_HEADER_SIZE -> (n <= length (concat es))%nat ->
  len (header ++ concat es) <= USIZE_MAX ->
  let k := whole_entries es n in
  read_wal crc32 from_bytes (header ++ take n (concat es))
  = Ok {| operations := take k ops;
          truncated := negb (bool_decide (n = length (concat (take k es)))) |}.
Proof.
  intros Hc He Hh Hn Hmax k.
  destruct (whole_entries_split es n Hn) as (k' & Hk & Hle & Htake & Hend). fold k in Hk. subst k'.
  assert (Hek : entries crc32 to_bytes (take k ops) (take k es)) by (by apply Forall2_take).
  pose proof (entries_length _ _ _ Hc _ _ Hek) as Hcount.
  set (m := (n - length (concat (take k es)))%nat) in *.
  set (cut := take m (concat (drop k es))) in *.
  assert (Hes : concat es = concat (take k es) ++ concat (drop k es))
    by (by rewrite <- concat_app, take_drop).
  assert (Hhl : length header = 8%nat) by (unfold len, WAL_FILE_HEADER_SIZE in Hh; lia).
  unfold read_wal. rewrite Htake, <- Hh.
  rewrite (read_many crc32 to_bytes from_bytes Hc _ _ (take k ops)); [|done| |].
  2: { rewrite !length_app. lia. }
  2: { rewrite <- Htake. rewrite len_app in *. unfold len in *. rewrite length_take. lia. }
  rewrite !app_assoc, <- len_app. simpl app at 3.
  set (pre := header ++ concat (take k es)).
  destruct Hend as [Hend|(e & Hek' & Hlt)].
  - rewrite bool_decide_eq_true_2 by done. unfold cut. replace m with 0%nat by lia.
    rewrite take_0, app_nil_r. apply read_end.
  - destruct (decide (n = length (concat (take k es)))) as [E|E].
    { rewrite bool_decide_eq_true_2 by done. unfold cut. replace m with 0%nat by lia.
      rewrite take_0, app_nil_r. apply read_end. }
    rewrite bool_decide_eq_false_2 by done. simpl.
    assert (Hcut : cut = take m e).
    { unfold cut. rewrite (drop_S _ _ _ Hek'). simpl. rewrite take_app_le by lia. done. }
    destruct (Forall2_lookup_r _ _ _ _ _ He Hek') as (op & Hop & Hoe).
    assert (Hef : (length e <= length (concat (drop k es)))%nat).
    { rewrite (drop_S _ _ _ Hek'). simpl. rewrite length_app. lia. }
    rewrite Hes in Hmax. rewrite !len_app in Hmax.
    destruct (length (pre ++ cut) - length (take k es))%nat as [|fuel] eqn:Ef.
    { unfold pre in Ef. rewrite !length_app in Ef. lia. }
    apply (read_cut crc32 to_bytes from_bytes Hc fuel pre op e cut (drop m e)); try done.
    + by rewrite Hcut, take_drop.
    + rewrite Hcut. intros Ez%(f_equal length). rewrite length_take in Ez. simpl in Ez. lia.
    + intros Ez%(f_equal length). rewrite length_drop in Ez. simpl in Ez. lia.
    + unfold pre. rewrite !len_app, Hcut. unfold len in *. rewrite length_take. lia.
    + unfold len in *. lia.
    + unfold pre. rewrite len_app. unfold len in *. lia.
Qed.

Lemma read_wal_whole crc32 to_bytes from_bytes header ops es :
  codec_ok crc32 to_bytes from_bytes -> entries crc32 to_bytes ops es ->
  len header = WAL_FILE_HEADER_SIZE -> len (header ++ concat es) <= USIZE_MAX ->
  read_wal crc32 from_bytes (header ++ concat es)
  = Ok {| operations := ops; truncated := false |}.
Proof.
  intros Hc He Hh Hmax. pose proof (entries_length _ _ _ Hc _ _ He) as Hcount.
  assert (Hhl : length header = 8%nat) by (unfold len, WAL_FILE_HEADER_SIZE in Hh; lia).
  unfold read_wal. rewrite <- Hh. rewrite <- (app_nil_r (concat es)).
  rewrite (read_many crc32 to_bytes from_bytes Hc _ _ ops);
    [|done|rewrite !length_app; lia|by rewrite app_nil_r].
  rewrite app_nil_r, <- len_app. apply read_end.
Qed.

(** ** The life of a log *)

(** The bytes of a log of [ops] with the given status. *)
Definition wal_of (crc32 : list Z -> Z) (st : WalStatus) (es : list (list Z)) : list Z :=
  encode_header crc32 (status_byte st) ++ concat es.

Lemma open_wal_of crc32 to_bytes from_bytes st es :
  codec_ok crc32 to_bytes from_bytes ->
  open_wal crc32 (Some (wal_of crc32 st es)) = Some (st, wal_of crc32 st es).
Proof. intros Hc. exact (open_wal_header crc32 to_bytes from_bytes Hc st (concat es)). Qed.

(** The log part of a transaction: create, record each operation, mark. *)
Definition record_and_mark (crc32 : list Z -> Z) (to_bytes : Operation -> option (list Z))
    (ops : list Operation) : io () :=
  _ ← create_wal crc32;
  _ ← for_each ops (append_operation crc32 to_bytes);
  mark_committing crc32.

Lemma append_operation_runs crc32 to_bytes op e data s P Q R :
  encode_entry crc32 to_bytes op = Ok e -> wal_file s = Some data ->
  (let s' := mk_fs (collections s) (staging s) (Some (data ++ e)) in P s' /\ Q () s') ->
  runs (append_operation crc32 to_bytes op) s P Q R.
Proof.
  intros He Hw H. unfold append_operation. rewrite He.
  apply runs_bind. split; [done|]. apply runs_bind, runs_query. rewrite Hw. by apply runs_call.
Qed.

(** A state in which the log is not one of a commit. *)
Definition not_committing (crc32 : list Z -> Z) (s u : fs) : Prop :=
  collections u = collections s /\ staging u = staging s /\
  forall data, open_wal crc32 (wal_file u) <> Some (Committing, data).

Lemma wal_of_snoc crc32 st es e : wal_of crc32 st es ++ e = wal_of crc32 st (es ++ [e]).
Proof. unfold wal_of. rewrite concat_app. cbn [concat]. by rewrite app_nil_r, app_assoc. Qed.

Lemma wal_of_body crc32 st es : drop (Z.to_nat WAL_FILE_HEADER_SIZE) (wal_of crc32 st es) = concat es.
Proof.
  unfold wal_of. apply drop_app_length'. pose proof (encode_header_len crc32 (status_byte st)).
  unfold len, WAL_FILE_HEADER_SIZE in *. lia.
Qed.

Lemma record_and_mark_runs crc32 to_bytes from_bytes ops es s :
  codec_ok crc32 to_bytes from_bytes -> entries crc32 to_bytes ops es ->
  let final := mk_fs (collections s) (staging s) (Some (wal_of crc32 Committing es)) in
  runs (record_and_mark crc32 to_bytes ops) s (fun u => not_committing crc32 s u \/ u = final)
    (fun _ u => u = final) (fun _ _ => False).
Proof.
  intros Hc He final.
  assert (Hrec : forall es', not_committing crc32 s (mk_fs (collections s) (staging s) (Some (wal_of crc32 Recording es')))).
  { intros es'. split; [done|]. split; [done|]. intros data. simpl wal_file.
    by rewrite (open_wal_of crc32 to_bytes from_bytes Recording). }
  unfold record_and_mark, create_wal. apply runs_bind, runs_bind, runs_call. split.
  { left. split; [done|]. split; [done|]. done. }
  apply runs_call. split; [left; apply (Hrec [])|]. apply runs_bind.
  eapply runs_mono; [eapply (runs_for_each ops _ (fun l u => exists done es1 es2,
    done ++ l = ops /\ entries crc32 to_bytes done es1 /\ entries crc32 to_bytes l es2 /\
    es1 ++ es2 = es /\
    u = mk_fs (collections s) (staging s) (Some (wal_of crc32 Recording es1))))
    |intros u Hu; exact Hu| |intros e u Hu; exact Hu].
  - exists [], [], es. split; [done|]. split; [constructor|]. split; [done|]. by split.
  - intros op l u (done_ & es1 & es2 & <- & H1 & H2 & <- & ->).
    inversion H2 as [|? e ? es2' Hop H2']; subst.
    eapply append_operation_runs; [exact Hop|done|]. cbv zeta. cbn [collections staging].
    rewrite wal_of_snoc. split; [left; apply Hrec|].
    exists (done_ ++ [op]), (es1 ++ [e]), es2'. rewrite <- !app_assoc. simpl.
    split; [done|]. split; [apply Forall2_app; [done|by repeat constructor]|]. by split.
  - intros [] u (done_ & es1 & es2 & _ & _ & H2 & <- & ->).
    inversion H2; subst. unfold final. rewrite app_nil_r. unfold mark_committing.
    apply runs_bind, runs_query. cbn [wal_file]. apply runs_call.
    rewrite wal_of_body. split; [by right|done].
Qed.

(** recording a transaction in the log: whatever the file held before, the
    log ends as a COMMITTING header with the entries of all operations in
    order, and a crash at any step before the status is flipped leaves a file
    recovery does not take for a commit. *)
Theorem wal_lifecycle crc32 to_bytes from_bytes ops es s :
  codec_ok crc32 to_bytes from_bytes -> entries crc32 to_bytes ops es ->
  run_result (record_and_mark crc32 to_bytes ops) s = Ok () /\
  run_state (record_and_mark crc32 to_bytes ops) s
  = mk_fs (collections s) (staging s) (Some (wal_of crc32 Committing es)) /\
  forall u, u ∈ crash_states (record_and_mark crc32 to_bytes ops) s -> u <> s ->
    collections u = collections s /\ staging u = staging s /\
    (u = run_state (record_and_mark crc32 to_bytes ops) s \/
     forall data, open_wal crc32 (wal_file u) <> Some (Committing, data)).
Proof.
  intros Hc He. pose proof (record_and_mark_runs crc32 to_bytes from_bytes ops es s Hc He) as Hruns. cbv zeta in Hruns.
  set (final := mk_fs (collections s) (staging s) (Some (wal_of crc32 Committing es))) in *.
  destruct (runs_ok _ _ _ _ Hruns) as ([] & Hr & Hs). split; [done|]. split; [done|].
  intros u Hu Hne. rewrite Hs.
  assert (Hrest : runs (record_and_mark crc32 to_bytes ops) s (fun u => u = s \/ not_committing crc32 s u \/ u = final)
                    (fun _ u => u = final) (fun _ _ => False))
    by (eapply runs_mono; [exact Hruns|by right|done|done]).
  destruct (runs_crash _ _ _ _ _ _ Hrest (or_introl eq_refl) Hu) as [|[(H1 & H2 & H3)| ->]];
    [done| |]; auto.
Qed.
