(* ===== verification/LocalStorage.v ===== *)
(** * Commit, rollback and recovery

    cda-storage/src/local_storage.rs and recovery.rs: applying the operations
    of a transaction with backups, undoing a partial commit, and the startup
    recovery driven by the log.  The order in which [read_dir] lists a directory
    is unspecified: it is the parameter [order].  Calls to [fsync] change no
    state a crash of the process can observe and are not modelled. *)

From S2P Require Import Prelude Bytes StorageTypes FileSystem Wal.

Section local_storage.
Context (order : list string -> list string).
Context (crc32 : list Z -> Z).
Context (to_bytes : Operation -> option (list Z)) (from_bytes : list Z -> option Operation).

(** ** Listing directories *)

Definition names {A} (m : gmap string A) : list string := order (elements (dom m)).

(** [read_dir] of the collections directory and of one collection. *)
Definition read_collections : io (list string) := query (fun s => names (collections s)).
Definition read_dir (c : string) : io (list string) :=
  d ← query (fun s => get_dir s c);
  match d with Some d => mret (names d) | None => throw (Io NotFound) end.

Definition is_bak : string -> bool := has_extension BACKUP_EXTENSION.
Definition is_tmp : string -> bool := has_extension STAGING_EXTENSION.

(** ** Applying operations *)

(** Renaming an existing file to its backup name. *)
Definition backup_file (c k : string) : io () :=
  ex ← query (fun s => file_exists s c k);
  when ex (rename_file c k (append_bak_extension k)).

Definition backup_all_files_in_dir (c : string) : io () :=
  ks ← read_dir c;
  for_each ks (fun k => backup_file c k).

Definition copy_dir_contents (source dest : string) : io () :=
  ks ← read_dir source;
  for_each ks (fun k =>
    ex ← query (fun s => file_exists s source k);
    when ex (copy_file source k dest)).

(** Renaming an existing collection directory to its backup name. *)
Definition backup_dir (c : string) : io () :=
  ex ← query (fun s => dir_exists s c);
  when ex (rename_dir c (append_bak_extension c)).

Definition apply_operation (op : Operation) : io () :=
  match op with
  | Write collection key staged_path =>
      let c := as_str collection in
      _ ← create_dir_all c;
      _ ← backup_file c key;
      rename_staged staged_path c key
  | Delete collection key => backup_file (as_str collection) key
  | DeleteAll collection =>
      ex ← query (fun s => dir_exists s (as_str collection));
      when ex (backup_all_files_in_dir (as_str collection))
  | CreateCollection name => create_dir_all (as_str name)
  | DeleteCollection name => backup_dir (as_str name)
  | CopyCollection source dest _ =>
      _ ← backup_dir (as_str dest);
      _ ← create_dir_all (as_str dest);
      copy_dir_contents (as_str source) (as_str dest)
  end.

Definition apply_operations (ops : list Operation) : io () := for_each ops apply_operation.

(** ** Undoing a partial commit *)

(** Undoing one operation's new files and directories. *)
Definition remove_new_artifact (op : Operation) : io () :=
  match op with
  | Write collection key _ =>
      let c := as_str collection in
      new ← query (fun s => file_exists s c key && negb (file_exists s c (append_bak_extension key)));
      when new (remove_file c key)
  | CreateCollection name =>
      empty ← query (fun s => bool_decide (get_dir s (as_str name) = Some ∅));
      when empty (remove_dir (as_str name))
  | CopyCollection _ dest dest_existed =>
      let d := as_str dest in
      new ← query (fun s => negb dest_existed && dir_exists s d
                             && negb (dir_exists s (append_bak_extension d)));
      when new (remove_dir_all d)
  | Delete _ _ | DeleteAll _ | DeleteCollection _ => mret ()
  end.

Definition remove_new_artifacts (operations : list Operation) : io () :=
  for_each (reverse operations) remove_new_artifact.

(** One entry of a directory being restored. *)
Definition restore_entry (c k : string) : io () :=
  _ ← when (is_bak k)
        (let original := without_extension k in
         ex ← query (fun s => file_exists s c original);
         _ ← when ex (remove_file c original);
         rename_file c k original);
  when (is_tmp k) (remove_file c k).

Definition restore_bak_files_in_dir (c : string) : io () :=
  ks ← read_dir c;
  for_each ks (restore_entry c).

Definition rollback_collection (c : string) : io () :=
  ex ← query (fun s => dir_exists s c);
  when ex
    (if is_bak c then
       let original := without_extension c in
       oex ← query (fun s => dir_exists s original);
       _ ← when oex (remove_dir_all original);
       rename_dir c original
     else restore_bak_files_in_dir c).

Definition rollback_partial_commit : io () :=
  cs ← read_collections;
  for_each cs rollback_collection.

Definition rollback_applied_operations (operations : list Operation) : io () :=
  _ ← remove_new_artifacts operations;
  rollback_partial_commit.

(** ** Cleaning up *)

Definition remove_bak_files_in_dir (c : string) : io () :=
  ks ← read_dir c;
  for_each ks (fun k => when (is_bak k) (remove_file c k)).

(** [cleanup_backup_files] and [delete_all_backup_files], which do the same. *)
Definition cleanup_backup_files : io () :=
  cs ← read_collections;
  for_each cs (fun c =>
    ex ← query (fun s => dir_exists s c);
    when ex (if is_bak c then remove_dir_all c else remove_bak_files_in_dir c)).

(** [cleanup_directory_contents] and [cleanup_staging_dir]. *)
Definition cleanup_staging_dir : io () :=
  ps ← query (fun s => names (staging s));
  for_each ps remove_staged.

Definition remove_wal_if_present : io () :=
  ex ← query (fun s => bool_decide (is_Some (wal_file s)));
  when ex remove_wal.

(** ** Commit *)

(** [LocalStorageCommitter::apply]. *)
Definition commit_operations (operations : list Operation) : io () :=
  _ ← mark_committing crc32;
  result ← try_io (apply_operations operations);
  _ ← match result with
      | Err _ => _ ← try_io (rollback_applied_operations operations); mret ()
      | Ok _ => mret ()
      end;
  _ ← remove_wal_if_present;
  _ ← when (is_ok result) (_ ← try_io cleanup_backup_files; mret ());
  _ ← try_io cleanup_staging_dir;
  lift result.

(** [discard]. *)
Definition discard : io () :=
  _ ← try_io cleanup_staging_dir;
  _ ← try_io remove_wal_if_present;
  mret ().

(** ** Startup recovery *)

Definition has_backup_files (s : fs) : bool :=
  existsb (fun '(c, d) => is_bak c || existsb (fun '(k, _) => is_bak k) (map_to_list d))
    (map_to_list (collections s)).

Definition is_new_artifact (s : fs) (op : Operation) : bool :=
  match op with
  | Write collection key _ =>
      let c := as_str collection in
      file_exists s c key && negb (file_exists s c (append_bak_extension key))
  | CreateCollection name => dir_exists s (as_str name)
  | CopyCollection _ dest dest_existed =>
      let d := as_str dest in
      negb dest_existed && dir_exists s d && negb (dir_exists s (append_bak_extension d))
  | Delete _ _ | DeleteAll _ | DeleteCollection _ => false
  end.

Definition has_new_artifacts (operations : list Operation) (s : fs) : bool :=
  existsb (is_new_artifact s) operations.

Definition recover : io () :=
  wal ← query wal_file;
  _ ← match open_wal crc32 wal with
      | Some (Committing, wal_data) =>
          wal_result ← lift (read_wal crc32 from_bytes wal_data);
          if truncated wal_result then
            has_backups ← query has_backup_files;
            has_applied ← query (has_new_artifacts (operations wal_result));
            if has_backups || has_applied then throw Corruption else mret ()
          else
            _ ← remove_new_artifacts (operations wal_result);
            rollback_partial_commit
      | Some (Recording, _) => mret ()
      | None =>
          has_backups ← query has_backup_files;
          when has_backups cleanup_backup_files
      end;
  _ ← remove_wal_if_present;
  cleanup_staging_dir.

(** ** The storage handle *)

(** [LocalStorage]: the disk and the flag of the active transaction. *)
Record LocalStorage : Type := { disk : fs; tx_active : bool }.

(** [Transaction]: the operations recorded in memory. *)
Record Transaction : Type := { tx_operations : list Operation }.

Context (sanitize : bool).

Definition collection_dir (name : CollectionName) : sresult string :=
  _ ← sanitize_path_segment sanitize (as_str name);
  Ok (as_str name).

(** A handler that may change the disk; the flag stays. *)
Definition on_disk {A} (self : LocalStorage) (m : io A) : sresult A * LocalStorage :=
  (run_result m (disk self), {| disk := run_state m (disk self); tx_active := tx_active self |}).

Definition new (root : fs) : sresult LocalStorage :=
  _ ← run_result recover root;
  Ok {| disk := run_state recover root; tx_active := false |}.

Definition get_collection (self : LocalStorage) (name : CollectionName) : sresult string :=
  dir ← collection_dir name;
  if dir_exists (disk self) dir then Ok dir else Err (CollectionNotFound (as_str name)).

Definition get_or_create_collection (self : LocalStorage) (name : CollectionName)
    : sresult string * LocalStorage :=
  match collection_dir name with
  | Err e => (Err e, self)
  | Ok dir =>
      if dir_exists (disk self) dir then (Ok dir, self)
      else if tx_active self then (Err TransactionBusy, self)
      else on_disk self (_ ← create_dir_all dir; mret dir)
  end.

Definition begin_transaction (self : LocalStorage) : sresult Transaction * LocalStorage :=
  if tx_active self then (Err TransactionBusy, self)
  else
    let m := create_wal crc32 in
    match run_result m (disk self) with
    | Ok _ => (Ok {| tx_operations := [] |}, {| disk := run_state m (disk self); tx_active := true |})
    | Err e => (Err e, {| disk := run_state m (disk self); tx_active := false |})
    end.

(** Recording an operation: in the log, then in memory. *)
Definition record (tx : Transaction) (op : Operation) : io Transaction :=
  _ ← append_operation crc32 to_bytes op;
  mret {| tx_operations := tx_operations tx ++ [op] |}.

Definition create_collection (tx : Transaction) (name : CollectionName) : io Transaction :=
  dir ← lift (collection_dir name);
  ex ← query (fun s => dir_exists s dir);
  if (ex : bool) then throw TransactionConflict else record tx (CreateCollection name).

Definition delete_collection (tx : Transaction) (name : CollectionName) : io Transaction :=
  dir ← lift (collection_dir name);
  ex ← query (fun s => dir_exists s dir);
  if (ex : bool) then record tx (DeleteCollection name) else throw (CollectionNotFound (as_str name)).

Definition copy_collection (tx : Transaction) (source dest : CollectionName) : io Transaction :=
  source_dir ← lift (collection_dir source);
  ex ← query (fun s => dir_exists s source_dir);
  if (ex : bool) then
    dest_dir ← lift (collection_dir dest);
    dest_existed ← query (fun s => dir_exists s dest_dir);
    record tx (CopyCollection source dest dest_existed)
  else throw (CollectionNotFound (as_str source)).

Definition commit (self : LocalStorage) (tx : Transaction) : sresult () * LocalStorage :=
  let m := commit_operations (tx_operations tx) in
  (run_result m (disk self), {| disk := run_state m (disk self); tx_active := false |}).

(** [rollback], which is what dropping an uncommitted transaction does. *)
Definition rollback (self : LocalStorage) : LocalStorage :=
  {| disk := run_state discard (disk self); tx_active := false |}.
End local_storage.
