(* ===== verification/StorageInvariant.v ===== *)
(** * What a transaction may have done to the committed state

    The invariant of the collections directory while a commit is being applied
    or undone, relative to the committed state the transaction started from:
    every committed file is in place or under its backup name, every new file
    or directory belongs to a recorded operation.  Every step of applying and
    of undoing keeps it; a state that satisfies it can be rolled back. *)

From S2P Require Import Prelude StorageTypes FileSystem Wal LocalStorage.

Abbreviation bak := append_bak_extension.

(** The committed state: plain names only. *)
Definition committed_ok (C0 : gmap string dir) : Prop :=
  map_Forall (fun c d => plain_name c /\ map_Forall (fun k _ => plain_name k) d) C0.

(** What recording an operation checks: its names are plain, a created
    collection does not exist, the flag of a copy says whether its target does. *)
Definition wf_op (C0 : gmap string dir) (op : Operation) : Prop :=
  match op with
  | Write c k _ => plain_name (as_str c) /\ plain_name k
  | Delete c k => plain_name (as_str c) /\ plain_name k
  | DeleteAll c => plain_name (as_str c)
  | CreateCollection c => plain_name (as_str c) /\ C0 !! as_str c = None
  | DeleteCollection c => plain_name (as_str c)
  | CopyCollection _ d ex => plain_name (as_str d) /\ ex = bool_decide (is_Some (C0 !! as_str d))
  end.

Section invariant.
Context (C0 : gmap string dir) (ops : list Operation).
Hypothesis HC0 : committed_ok C0.
Hypothesis Hwf : Forall (wf_op C0) ops.

(** Operation [j] writes key [k] of collection [c]. *)
Definition writes_at (j : nat) (c k : string) : Prop :=
  exists cn p, ops !! j = Some (Write cn k p) /\ as_str cn = c.
Definition writes (c k : string) : Prop := exists j, writes_at j c k.

(** A collection directory whose files may be under their backup names.  The
    target of a recorded write may be missing. *)
Record dir_related (c : string) (d0 d : dir) : Prop := {
  rel_plain : forall k, is_Some (d0 !! k) -> plain_name k;
  rel_names : forall x, is_Some (d !! x) -> plain_name x \/ exists k, x = bak k /\ is_Some (d0 !! k);
  rel_kept : forall k v, d0 !! k = Some v ->
    d !! bak k = Some v \/ (d !! bak k = None /\ (d !! k = Some v \/ (d !! k = None /\ writes c k)));
  rel_fresh : forall k, plain_name k -> d0 !! k = None -> is_Some (d !! k) -> writes c k }.

(** Operation [i] created directory [d] under the name [c]: a copy, or a
    creation whose files come from later writes. *)
Definition creates (i : nat) (c : string) (d : dir) : Prop :=
  (exists src dn, ops !! i = Some (CopyCollection src dn false) /\ as_str dn = c) \/
  (exists n, ops !! i = Some (CreateCollection n) /\ as_str n = c /\
     forall k, is_Some (d !! k) -> plain_name k /\ exists j, (i < j)%nat /\ writes_at j c k).

(** [r]: new directories come from operations below [r]; [q]: the new files
    of writes from [q] on are gone. *)
Record inv (r q : nat) (C : gmap string dir) : Prop := {
  inv_names : forall x, is_Some (C !! x) -> plain_name x \/ exists c, x = bak c /\ is_Some (C0 !! c);
  inv_old : forall c d0, C0 !! c = Some d0 ->
    C !! bak c = Some d0 \/ (C !! bak c = None /\ exists d, C !! c = Some d /\ dir_related c d0 d);
  inv_new : forall c d, plain_name c -> C0 !! c = None -> C !! c = Some d ->
    exists i, (i < r)%nat /\ creates i c d;
  inv_cleaned : forall j c k d, (q <= j)%nat -> writes_at j c k -> C !! c = Some d ->
    C !! bak c = None -> (C0 !! c ≫= (.!! k)) = None -> d !! k = None \/ is_Some (d !! bak k) }.

(** ** Names *)

Lemma committed_plain c d : C0 !! c = Some d -> plain_name c.
Proof. intros H. by apply (HC0 c d). Qed.
Lemma committed_key c d k : C0 !! c = Some d -> is_Some (d !! k) -> plain_name k.
Proof. intros H [v Hk]. destruct (HC0 c d H) as [_ Hd]. by apply (Hd k v). Qed.
Lemma plain_nonempty k : plain_name k -> k <> "".
Proof. by intros [? _]. Qed.
Lemma bak_not_plain k : k <> "" -> ~ plain_name (bak k).
Proof. intros Hk Hp. by apply (plain_neq_bak _ k Hp Hk). Qed.
Lemma plain_ne_bak c k : plain_name c -> plain_name k -> c <> bak k.
Proof. intros Hc Hk. apply plain_neq_bak; [done|by apply plain_nonempty]. Qed.

Lemma writes_at_plain j c k : writes_at j c k -> plain_name c /\ plain_name k.
Proof.
  intros (cn & p & Hj & <-). apply (Forall_lookup_1 _ _ _ _ Hwf) in Hj. done.
Qed.

(** ** Directories *)

Lemma dir_related_refl c d0 : map_Forall (fun k _ => plain_name k) d0 -> dir_related c d0 d0.
Proof.
  intros Hd. split.
  - intros k [v Hk]. by apply (Hd k v).
  - intros x [v Hx]. left. by apply (Hd x v).
  - intros k v Hk. right. split; [|by left].
    destruct (d0 !! bak k) as [w|] eqn:E; [|done]. exfalso.
    apply (bak_not_plain k); [by apply plain_nonempty, (Hd k v)|by apply (Hd (bak k) w)].
  - intros k _ Hk [v Hv]. congruence.
Qed.

(** A backup in a related directory is of a committed file. *)
Lemma rel_bak c d0 d k v :
  dir_related c d0 d -> k <> "" -> d !! bak k = Some v -> d0 !! k = Some v.
Proof.
  intros Hr Hk Hb. destruct (rel_names _ _ _ Hr (bak k)) as [Hp|(k' & E & [w Hw])]; [by eauto| |].
  - by destruct (bak_not_plain k Hk).
  - apply append_bak_inj in E. subst k'.
    destruct (rel_kept _ _ _ Hr k w Hw) as [H|[H _]]; congruence.
Qed.

(** Moving a committed file to its backup name. *)
Lemma rel_backup c d0 d k v :
  dir_related c d0 d -> plain_name k -> d !! k = Some v -> d !! bak k = None -> is_Some (d0 !! k) ->
  dir_related c d0 (<[bak k := v]> (delete k d)).
Proof.
  intros Hr Hk Hv Hb [v0 H0]. pose proof (plain_ne_bak k k Hk Hk) as Hne.
  assert (v0 = v) as -> by (destruct (rel_kept _ _ _ Hr k v0 H0) as [?|[_ [?|[? _]]]]; congruence).
  split.
  - apply Hr.
  - intros x Hx. destruct (decide (x = bak k)) as [->|Hx']; [right; by exists k|].
    rewrite lookup_insert_ne in Hx by done. destruct (decide (x = k)) as [->|Hxk]; [by left|].
    rewrite lookup_delete_ne in Hx by done. by apply Hr.
  - intros k' w Hw. destruct (decide (k' = k)) as [->|Hkk].
    { left. rewrite lookup_insert_eq. congruence. }
    assert (bak k' <> bak k) by (intros E; by apply append_bak_inj in E).
    rewrite lookup_insert_ne by done.
    assert (Hk' : plain_name k') by (apply (rel_plain _ _ _ Hr); by exists w).
    pose proof (plain_ne_bak k k' Hk Hk') as Hkb.
    rewrite lookup_delete_ne by done.
    destruct (rel_kept _ _ _ Hr k' w Hw) as [?|[? Hd]]; [by left|right; split; [done|]].
    pose proof (plain_ne_bak k' k Hk' Hk).
    rewrite lookup_insert_ne by done. by rewrite lookup_delete_ne by done.
  - intros k' Hp Hk' Hs. destruct (decide (k' = bak k)) as [->|E'].
    { by destruct (bak_not_plain k (plain_nonempty k Hk)). }
    rewrite lookup_insert_ne in Hs by done. destruct (decide (k' = k)) as [->|E2].
    { by rewrite lookup_delete_eq in Hs; destruct Hs. }
    rewrite lookup_delete_ne in Hs by done. by apply Hr.
Qed.

(** Putting the file of a recorded write in place. *)
Lemma rel_write c d0 d k v :
  dir_related c d0 d -> plain_name k -> writes c k -> d !! k = None ->
  d0 !! k = None \/ is_Some (d !! bak k) -> dir_related c d0 (<[k := v]> d).
Proof.
  intros Hr Hk Hw Hn Hb. split.
  - apply Hr.
  - intros x Hx. destruct (decide (x = k)) as [->|]; [by left|].
    rewrite lookup_insert_ne in Hx by done. by apply Hr.
  - intros k' w Hk'. assert (Hp : plain_name k') by (apply (rel_plain _ _ _ Hr); by exists w).
    rewrite lookup_insert_ne by by apply plain_ne_bak.
    destruct (rel_kept _ _ _ Hr k' w Hk') as [?|[Hnb Hd]]; [by left|right; split; [done|]].
    destruct (decide (k' = k)) as [->|]; [|by rewrite lookup_insert_ne].
    destruct Hb as [?|[? ?]]; congruence.
  - intros k' Hp H0 Hs. destruct (decide (k' = k)) as [->|]; [done|].
    rewrite lookup_insert_ne in Hs by done. by apply Hr.
Qed.

(** Removing the file of a recorded write, or one whose backup is there. *)
Lemma rel_remove c d0 d k :
  dir_related c d0 d -> plain_name k -> writes c k \/ is_Some (d !! bak k) ->
  dir_related c d0 (delete k d).
Proof.
  intros Hr Hk Hw. split.
  - apply Hr.
  - intros x Hx. destruct (decide (x = k)) as [->|]; [by left|].
    rewrite lookup_delete_ne in Hx by done. by apply Hr.
  - intros k' v Hk'. assert (Hp : plain_name k') by (apply (rel_plain _ _ _ Hr); by exists v).
    rewrite lookup_delete_ne by by apply plain_ne_bak.
    destruct (rel_kept _ _ _ Hr k' v Hk') as [?|[Hnb Hd]]; [by left|right; split; [done|]].
    destruct (decide (k' = k)) as [->|]; [|by rewrite lookup_delete_ne].
    right. split; [apply lookup_delete_eq|]. destruct Hw as [?|[? ?]]; [done|congruence].
  - intros k' Hp H0 Hs. destruct (decide (k' = k)) as [->|].
    { rewrite lookup_delete_eq in Hs. by destruct Hs. }
    rewrite lookup_delete_ne in Hs by done. by apply Hr.
Qed.

(** Restoring a backup. *)
Lemma rel_restore c d0 d k v :
  dir_related c d0 d -> plain_name k -> d !! bak k = Some v ->
  dir_related c d0 (<[k := v]> (delete (bak k) d)).
Proof.
  intros Hr Hk Hb. pose proof (plain_ne_bak k k Hk Hk) as Hne.
  pose proof (rel_bak _ _ _ _ _ Hr (plain_nonempty k Hk) Hb) as H0. split.
  - apply Hr.
  - intros x Hx. destruct (decide (x = k)) as [->|]; [by left|].
    rewrite lookup_insert_ne in Hx by done. destruct (decide (x = bak k)) as [->|].
    { rewrite lookup_delete_eq in Hx. by destruct Hx. }
    rewrite lookup_delete_ne in Hx by done. by apply Hr.
  - intros k' w Hk'. assert (Hp : plain_name k') by (apply (rel_plain _ _ _ Hr); by exists w).
    rewrite lookup_insert_ne by by apply plain_ne_bak.
    destruct (decide (k' = k)) as [->|Hkk].
    { right. rewrite lookup_delete_eq, lookup_insert_eq. split; [done|]. left. congruence. }
    rewrite lookup_delete_ne by (intros E; by apply append_bak_inj in E).
    rewrite lookup_insert_ne, lookup_delete_ne by (done || by apply not_eq_sym, plain_ne_bak).
    by apply (rel_kept _ _ _ Hr).
  - intros k' Hp Hk' Hs. destruct (decide (k' = k)) as [->|]; [congruence|].
    rewrite lookup_insert_ne, lookup_delete_ne in Hs by (done || by apply not_eq_sym, plain_ne_bak).
    by apply (rel_fresh _ _ _ Hr).
Qed.

(** ** Collections *)

Lemma inv_init r q : inv r q C0.
Proof.
  split.
  - intros x [d Hx]. left. by eapply committed_plain.
  - intros c d0 Hc. right. split.
    + destruct (C0 !! bak c) as [d|] eqn:E; [|done]. exfalso.
      apply (bak_not_plain c); [by eapply plain_nonempty, committed_plain|by eapply committed_plain].
    + exists d0. split; [done|]. apply dir_related_refl. by apply (HC0 c d0).
  - intros c d _ H1 H2. congruence.
  - intros j c k d _ _ Hc _ Hk. rewrite Hc in Hk. simpl in Hk. by left.
Qed.

Lemma creates_mono i c d d' :
  creates i c d -> (forall k, is_Some (d' !! k) -> is_Some (d !! k)) -> creates i c d'.
Proof.
  intros [?|(n & Hi & Hn & Hall)] Hsub; [by left|right]. exists n. split; [done|]. split; [done|].
  intros k Hk. auto.
Qed.

Lemma inv_weaken r q r' q' C : inv r q C -> (r <= r')%nat -> (q <= q')%nat -> inv r' q' C.
Proof.
  intros [Hn Ho Hnew Hc] Hr Hq. split; [done|done| |].
  - intros c d Hp H0 H1. destruct (Hnew c d Hp H0 H1) as (i & Hi & Hcr). exists i. split; [lia|done].
  - intros j c k d Hj. apply Hc. lia.
Qed.

(** The committed version of [c] is saved under its backup name. *)
Definition backed_up (C : gmap string dir) (c : string) : Prop := is_Some (C !! bak c).

Lemma inv_backed_up r q C c : inv r q C -> c <> "" -> backed_up C c ->
  exists d0, C0 !! c = Some d0 /\ C !! bak c = Some d0.
Proof.
  intros Hi Hc [d Hd]. destruct (inv_names _ _ _ Hi (bak c)) as [Hp|(c' & E & [d0 H0])]; [by exists d| |].
  - by destruct (bak_not_plain c Hc).
  - apply append_bak_inj in E. subst c'. exists d0. split; [done|].
    destruct (inv_old _ _ _ Hi c d0 H0) as [?|[? _]]; [done|congruence].
Qed.

(** Replacing the directory of one collection. *)
Lemma inv_set_dir r q C c d' :
  inv r q C -> plain_name c ->
  (forall d0, C0 !! c = Some d0 -> C !! bak c = None -> dir_related c d0 d') ->
  (C0 !! c = None -> exists i, (i < r)%nat /\ creates i c d') ->
  (forall j k, (q <= j)%nat -> writes_at j c k -> C !! bak c = None -> (C0 !! c ≫= (.!! k)) = None ->
     d' !! k = None \/ is_Some (d' !! bak k)) ->
  inv r q (<[c := d']> C).
Proof.
  intros Hi Hc Hrel Hcr Hcl. assert (Hne : forall c', plain_name c' -> bak c' <> c)
    by (intros c' Hp; apply not_eq_sym; by apply plain_ne_bak).
  split.
  - intros x Hx. destruct (decide (x = c)) as [->|]; [by left|].
    rewrite lookup_insert_ne in Hx by done. by apply Hi.
  - intros c' d0 H0. pose proof (committed_plain _ _ H0) as Hp'.
    rewrite (lookup_insert_ne _ c (bak c')) by by apply not_eq_sym, Hne.
    destruct (inv_old _ _ _ Hi c' d0 H0) as [?|[Hb (d & Hd & Hr)]]; [by left|right; split; [done|]].
    destruct (decide (c' = c)) as [->|].
    + exists d'. rewrite lookup_insert_eq. split; [done|]. by apply Hrel.
    + exists d. by rewrite lookup_insert_ne.
  - intros c' d Hp H0 Hd. destruct (decide (c' = c)) as [->|].
    + rewrite lookup_insert_eq in Hd. injection Hd as <-. by apply Hcr.
    + rewrite lookup_insert_ne in Hd by done. by apply Hi.
  - intros j c' k d Hj Hw Hd Hb Hk. pose proof (writes_at_plain _ _ _ Hw) as [Hp _].
    rewrite lookup_insert_ne in Hb by by apply not_eq_sym, Hne.
    destruct (decide (c' = c)) as [->|].
    + rewrite lookup_insert_eq in Hd. injection Hd as <-. by apply (Hcl j).
    + rewrite lookup_insert_ne in Hd by done. by apply (inv_cleaned _ _ _ Hi j c').
Qed.

(** Removing a directory the committed state does not need. *)
Lemma inv_delete_dir r q C c :
  inv r q C -> plain_name c -> C0 !! c = None \/ backed_up C c -> inv r q (delete c C).
Proof.
  intros Hi Hc Hb. assert (Hne : forall c', plain_name c' -> bak c' <> c)
    by (intros c' Hp; apply not_eq_sym; by apply plain_ne_bak).
  split.
  - intros x Hx. destruct (decide (x = c)) as [->|]; [by left|].
    rewrite lookup_delete_ne in Hx by done. by apply Hi.
  - intros c' d0 H0. pose proof (committed_plain _ _ H0) as Hp'.
    rewrite (lookup_delete_ne _ c (bak c')) by by apply not_eq_sym, Hne.
    destruct (inv_old _ _ _ Hi c' d0 H0) as [?|[Hnb (d & Hd & Hr)]]; [by left|right; split; [done|]].
    destruct (decide (c' = c)) as [->|]; [|exists d; by rewrite lookup_delete_ne].
    destruct Hb as [?|[? ?]]; congruence.
  - intros c' d Hp H0 Hd. destruct (decide (c' = c)) as [->|].
    { by rewrite lookup_delete_eq in Hd. }
    rewrite lookup_delete_ne in Hd by done. by apply Hi.
  - intros j c' k d Hj Hw Hd Hnb Hk. pose proof (writes_at_plain _ _ _ Hw) as [Hp _].
    rewrite lookup_delete_ne in Hnb by by apply not_eq_sym, Hne.
    destruct (decide (c' = c)) as [->|]; [by rewrite lookup_delete_eq in Hd|].
    rewrite lookup_delete_ne in Hd by done. by apply (inv_cleaned _ _ _ Hi j c').
Qed.

(** Moving an untouched committed directory to its backup name. *)
Lemma inv_backup_dir r q C c d0 :
  inv r q C -> C0 !! c = Some d0 -> C !! c = Some d0 ->
  inv r q (<[bak c := d0]> (delete c C)).
Proof.
  intros Hi H0 Hd0. pose proof (committed_plain _ _ H0) as Hc. pose proof (plain_ne_bak c c Hc Hc).
  split.
  - intros x Hx. destruct (decide (x = bak c)) as [->|]; [right; by exists c; eauto|].
    rewrite lookup_insert_ne in Hx by done. destruct (decide (x = c)) as [->|]; [by left|].
    rewrite lookup_delete_ne in Hx by done. by apply Hi.
  - intros c' d' H'. pose proof (committed_plain _ _ H') as Hp'. destruct (decide (c' = c)) as [->|].
    { left. rewrite lookup_insert_eq. congruence. }
    rewrite !lookup_insert_ne by (try (by apply not_eq_sym, plain_ne_bak);
      intros E; by apply append_bak_inj in E).
    rewrite !lookup_delete_ne by (done || by apply plain_ne_bak). by apply Hi.
  - intros c' d Hp Hn Hd. rewrite lookup_insert_ne in Hd by by apply not_eq_sym, plain_ne_bak.
    destruct (decide (c' = c)) as [->|]; [congruence|]. rewrite lookup_delete_ne in Hd by done.
    by apply Hi.
  - intros j c' k d Hj Hw Hd Hnb Hk. pose proof (writes_at_plain _ _ _ Hw) as [Hp _].
    destruct (decide (c' = c)) as [->|]; [by rewrite lookup_insert_eq in Hnb|].
    rewrite lookup_insert_ne in Hnb by (intros E; by apply append_bak_inj in E).
    rewrite lookup_insert_ne in Hd by by apply not_eq_sym, plain_ne_bak.
    rewrite lookup_delete_ne in Hd by done.
    rewrite lookup_delete_ne in Hnb by by apply plain_ne_bak.
    by apply (inv_cleaned _ _ _ Hi j c').
Qed.

(** Moving it back. *)
Lemma inv_restore_dir r q C c d0 :
  inv r q C -> C0 !! c = Some d0 -> C !! bak c = Some d0 ->
  inv r q (<[c := d0]> (delete (bak c) C)).
Proof.
  intros Hi H0 Hb. pose proof (committed_plain _ _ H0) as Hc. pose proof (plain_ne_bak c c Hc Hc).
  split.
  - intros x Hx. destruct (decide (x = c)) as [->|]; [by left|].
    rewrite lookup_insert_ne in Hx by done. destruct (decide (x = bak c)) as [->|].
    { rewrite lookup_delete_eq in Hx. by destruct Hx. }
    rewrite lookup_delete_ne in Hx by done. by apply Hi.
  - intros c' d' H'. pose proof (committed_plain _ _ H') as Hp'.
    rewrite (lookup_insert_ne _ c (bak c')) by by apply plain_ne_bak.
    destruct (decide (c' = c)) as [->|].
    { right. rewrite lookup_delete_eq. split; [done|]. exists d0. rewrite lookup_insert_eq.
      split; [done|]. replace d' with d0 by congruence. apply dir_related_refl. by apply (HC0 c d0). }
    rewrite lookup_insert_ne by done.
    rewrite !lookup_delete_ne by (try (by apply not_eq_sym, plain_ne_bak);
      intros E; by apply append_bak_inj in E). by apply Hi.
  - intros c' d Hp Hn Hd. destruct (decide (c' = c)) as [->|]; [congruence|].
    rewrite lookup_insert_ne in Hd by done.
    rewrite lookup_delete_ne in Hd by by apply not_eq_sym, plain_ne_bak. by apply Hi.
  - intros j c' k d Hj Hw Hd Hnb Hk. pose proof (writes_at_plain _ _ _ Hw) as [Hp _].
    rewrite lookup_insert_ne in Hnb by by apply plain_ne_bak.
    destruct (decide (c' = c)) as [->|].
    { rewrite lookup_insert_eq in Hd. injection Hd as <-. rewrite H0 in Hk. by left. }
    rewrite lookup_insert_ne in Hd by done.
    rewrite lookup_delete_ne in Hd by by apply not_eq_sym, plain_ne_bak.
    rewrite lookup_delete_ne in Hnb by (intros E; by apply append_bak_inj in E).
    by apply (inv_cleaned _ _ _ Hi j c').
Qed.
End invariant.
