(* ===== verification/StorageRollback.v ===== *)
(** * Undoing a partial commit

    From every state that satisfies the invariant, undoing returns to the
    committed state, except that the committed target of a recorded write that
    has no backup is removed. *)

From S2P Require Import Prelude StorageTypes FileSystem Wal LocalStorage StorageInvariant.

(** ** Steps *)

Section steps.
Context (P : fs -> Prop) (R : StorageError -> fs -> Prop).
Implicit Types (Q : () -> fs -> Prop).

Lemma runs_when b m s Q :
  (b = true -> runs m s P Q R) -> (b = false -> Q () s) -> runs (when b m) s P Q R.
Proof. intros Ht Hf. destruct b; [by apply Ht|]. apply runs_ret. by apply Hf. Qed.

Lemma runs_remove_file c k d v s Q :
  get_dir s c = Some d -> d !! k = Some v ->
  (let s' := with_dir s c (delete k d) in P s' /\ Q () s') -> runs (remove_file c k) s P Q R.
Proof. intros Hd Hk H. unfold remove_file. apply runs_call. by rewrite Hd, Hk. Qed.

Lemma runs_rename_file c k k' d v s Q :
  get_dir s c = Some d -> d !! k = Some v ->
  (let s' := with_dir s c (<[k' := v]> (delete k d)) in P s' /\ Q () s') ->
  runs (rename_file c k k') s P Q R.
Proof. intros Hd Hk H. unfold rename_file. apply runs_call. by rewrite Hd, Hk. Qed.

Lemma runs_remove_dir c s Q :
  get_dir s c = Some ∅ ->
  (let s' := with_collections s (delete c (collections s)) in P s' /\ Q () s') ->
  runs (remove_dir c) s P Q R.
Proof. intros Hd H. unfold remove_dir. apply runs_call. by rewrite Hd, bool_decide_eq_true_2. Qed.

Lemma runs_remove_dir_all c d s Q :
  get_dir s c = Some d ->
  (let s' := with_collections s (delete c (collections s)) in P s' /\ Q () s') ->
  runs (remove_dir_all c) s P Q R.
Proof. intros Hd H. unfold remove_dir_all. apply runs_call. by rewrite Hd. Qed.

Lemma runs_rename_dir c c' d s Q :
  get_dir s c = Some d -> get_dir s c' = None ->
  (let s' := with_collections s (<[c' := d]> (delete c (collections s))) in P s' /\ Q () s') ->
  runs (rename_dir c c') s P Q R.
Proof. intros Hd Hd' H. unfold rename_dir. apply runs_call. by rewrite Hd, Hd'. Qed.
End steps.

Lemma file_exists_get s c k :
  file_exists s c k = true <-> exists d v, get_dir s c = Some d /\ d !! k = Some v.
Proof.
  unfold file_exists, get_file. rewrite bool_decide_eq_true. split.
  - destruct (get_dir s c) as [d|]; [|by intros []]. intros [v Hv]. by exists d, v.
  - intros (d & v & -> & ->). by exists v.
Qed.

Lemma file_exists_false s c k :
  file_exists s c k = false <-> forall d, get_dir s c = Some d -> d !! k = None.
Proof.
  unfold file_exists, get_file. rewrite bool_decide_eq_false, <- eq_None_not_Some. split.
  - intros H d Hd. by rewrite Hd in H.
  - intros H. destruct (get_dir s c) as [d|]; [by apply H|done].
Qed.

Lemma dir_exists_get s c : dir_exists s c = true <-> exists d, get_dir s c = Some d.
Proof. unfold dir_exists. by rewrite bool_decide_eq_true. Qed.

Lemma dir_exists_false s c : dir_exists s c = false <-> get_dir s c = None.
Proof. unfold dir_exists. by rewrite bool_decide_eq_false, <- eq_None_not_Some. Qed.

Section rollback.
Context (order : list string -> list string).
Hypothesis Horder : forall l, order l ≡ₚ l.
Context (C0 : gmap string dir) (ops : list Operation).
Hypothesis HC0 : committed_ok C0.
Hypothesis Hwf : Forall (wf_op C0) ops.
Context (wal : option (list Z)).

Abbreviation inv := (inv C0 ops).
Abbreviation n := (length ops).

(** A state of the disk in the invariant; the log is untouched. *)
Definition at_inv (r q : nat) (u : fs) : Prop := inv r q (collections u) /\ wal_file u = wal.

Lemma at_inv_weaken r q u : (r <= n)%nat -> (q <= n)%nat -> at_inv r q u -> at_inv n n u.
Proof. intros ? ? [? ?]. split; [|done]. by eapply inv_weaken. Qed.

Lemma names_elem {A} (m : gmap string A) k : k ∈ names order m <-> is_Some (m !! k).
Proof. unfold names. rewrite Horder, elem_of_elements. apply elem_of_dom. Qed.

Lemma names_nodup {A} (m : gmap string A) : NoDup (names order m).
Proof. unfold names. rewrite Horder. apply NoDup_elements. Qed.

(** *** New artifacts *)

(** Operation [i] neither creates a directory nor writes: nothing to undo. *)
Lemma inv_step_other i op C :
  ops !! i = Some op -> inv (S i) (S i) C ->
  match op with Delete _ _ | DeleteAll _ | DeleteCollection _ => True | _ => False end ->
  inv i i C.
Proof.
  intros Hop Hi Hk. destruct Hi as [Hn Ho Hnew Hcl]. split; [done|done| |].
  - intros c d Hp H0 Hd. destruct (Hnew c d Hp H0 Hd) as (j & Hj & Hcr). exists j. split; [|done].
    destruct (decide (j = i)) as [->|]; [|lia].
    destruct Hcr as [(? & ? & ? & _)|(? & ? & _)]; simplify_eq; done.
  - intros j c k d Hj Hw. destruct (decide (j = i)) as [->|]; [|apply (Hcl j); [lia|done]].
    destruct Hw as (? & ? & ? & _). by simplify_eq.
Qed.

Lemma undo_write i cn k p u :
  ops !! i = Some (Write cn k p) -> at_inv (S i) (S i) u ->
  runs (remove_new_artifact (Write cn k p)) u (at_inv n n) (fun _ => at_inv i i) (fun _ _ => False).
Proof.
  intros Hop [Hi Hw]. set (c := as_str cn).
  assert (Hwr : writes_at ops i c k) by (by exists cn, p).
  pose proof (writes_at_plain C0 ops Hwf i c k Hwr) as [Hc Hk].
  assert (Hlt : (i < n)%nat) by (by eapply lookup_lt_Some).
  (* once the target is gone or has a backup *)
  assert (Hdone : forall C, inv (S i) (S i) C ->
    (forall d, C !! c = Some d -> C !! bak c = None -> (C0 !! c ≫= (.!! k)) = None ->
       d !! k = None \/ is_Some (d !! bak k)) -> inv i i C).
  { intros C [Hn Ho Hnew Hcl] Hck. split; [done|done| |].
    - intros c' d Hp H0 Hd. destruct (Hnew c' d Hp H0 Hd) as (j & Hj & Hcr). exists j. split; [|done].
      destruct (decide (j = i)) as [->|]; [|lia].
      destruct Hcr as [(? & ? & ? & _)|(? & ? & _)]; simplify_eq.
    - intros j c' k' d Hj Hw'. destruct (decide (j = i)) as [->|]; [|apply (Hcl j); [lia|done]].
      destruct Hw' as (cn' & p' & Hop' & <-). simplify_eq. apply Hck. }
  apply runs_bind, runs_query. fold c. apply runs_when.
  - intros [(d & v & Hd & Hv)%file_exists_get Hb]%andb_true_iff.
    apply negb_true_iff in Hb. rewrite file_exists_false in Hb.
    eapply runs_remove_file; [done|done|]. cbv zeta. set (u' := with_dir u c (delete k d)).
    assert (Hi' : inv (S i) (S i) (collections u')).
    { apply inv_set_dir; try done.
      - intros d0 H0 Hnb. apply rel_remove; [|done|left; by exists i].
        destruct (inv_old _ _ _ _ _ Hi c d0 H0) as [?|[_ (d' & Hd' & Hr)]]; [congruence|].
        unfold get_dir in Hd. congruence.
      - intros H0. destruct (inv_new _ _ _ _ _ Hi c d Hc H0 Hd) as (j & Hj & Hcr). exists j.
        split; [done|]. eapply creates_mono; [done|]. intros x Hx.
        destruct (decide (x = k)) as [->|]; [by rewrite lookup_delete_eq in Hx; destruct Hx|].
        by rewrite lookup_delete_ne in Hx.
      - intros j k' Hj Hw' Hnb H0. destruct (decide (k' = k)) as [->|]; [left; apply lookup_delete_eq|].
        pose proof (writes_at_plain C0 ops Hwf j c k' Hw') as [_ Hk'].
        rewrite lookup_delete_ne by done.
        rewrite lookup_delete_ne by by apply plain_ne_bak.
        by apply (inv_cleaned _ _ _ _ _ Hi j c). }
    assert (Hres : at_inv i i u').
    { split; [|done]. apply Hdone; [done|]. intros d' Hd' _ _. left. unfold u' in Hd'. simpl in Hd'.
      rewrite lookup_insert_eq in Hd'. injection Hd' as <-. apply lookup_delete_eq. }
    split; [|done]. eapply at_inv_weaken; [| |done]; lia.
  - intros Hf. split; [|done]. apply Hdone; [done|]. intros d Hd _ _.
    apply andb_false_iff in Hf as [Hf|Hf].
    + left. rewrite file_exists_false in Hf. by apply Hf.
    + right. apply negb_false_iff, file_exists_get in Hf as (d' & v & Hd' & Hv).
      unfold get_dir in Hd'. exists v. congruence.
Qed.

Lemma inv_no_backup r q C c : inv r q C -> plain_name c -> C0 !! c = None -> C !! bak c = None.
Proof.
  intros Hi Hc H0. destruct (C !! bak c) as [d|] eqn:E; [|done].
  destruct (inv_backed_up C0 ops r q C c Hi) as (d0 & ? & _); [by destruct Hc|by exists d|congruence].
Qed.

Lemma undo_create i cn u :
  ops !! i = Some (CreateCollection cn) -> at_inv (S i) (S i) u ->
  runs (remove_new_artifact (CreateCollection cn)) u (at_inv n n) (fun _ => at_inv i i)
    (fun _ _ => False).
Proof.
  intros Hop [Hi Hw]. set (c := as_str cn).
  pose proof (Forall_lookup_1 _ _ _ _ Hwf Hop) as [Hc H0]. fold c in Hc, H0.
  assert (Hlt : (i < n)%nat) by (by eapply lookup_lt_Some).
  assert (Hdone : forall C, inv (S i) (S i) C -> C !! c <> Some ∅ -> inv i i C).
  { intros C HiC Hne. pose proof HiC as [Hn Ho Hnew Hcl]. split; [done|done| |].
    - intros c' d Hp H0' Hd. destruct (Hnew c' d Hp H0' Hd) as (j & Hj & Hcr). exists j. split; [|done].
      destruct (decide (j = i)) as [->|]; [exfalso|lia].
      destruct Hcr as [(? & ? & ? & _)|(cn' & Hop' & Hcn & Hall)]; simplify_eq.
      fold c in Hp, H0', Hd, Hall.
      apply Hne. rewrite Hd. f_equal. apply map_empty. intros k.
      destruct (d !! k) as [v|] eqn:Ek; [exfalso|done].
      destruct (Hall k) as [Hpk (j & Hj' & Hwj)]; [by exists v|].
      destruct (Hcl j c k d) as [?|[w Hb]]; [lia|done|done|by eapply inv_no_backup|by rewrite H0|congruence|].
      destruct (Hall (bak k)) as [Hpb _]; [by exists w|]. by eapply bak_not_plain, Hpb; destruct Hpk.
    - intros j c' k d Hj Hw'. destruct (decide (j = i)) as [->|]; [|apply (Hcl j); [lia|done]].
      destruct Hw' as (? & ? & ? & _). by simplify_eq. }
  apply runs_bind, runs_query. fold c. apply runs_when.
  - intros Hd%bool_decide_eq_true. apply runs_remove_dir; [done|]. cbv zeta.
    set (u' := with_collections u (delete c (collections u))).
    assert (Hres : at_inv i i u').
    { split; [|done]. apply Hdone; [by apply inv_delete_dir; auto|]. unfold u'. simpl.
      by rewrite lookup_delete_eq. }
    split; [|done]. eapply at_inv_weaken; [| |done]; lia.
  - intros Hne%bool_decide_eq_false. split; [|done]. by apply Hdone.
Qed.

Lemma undo_copy i src dn ex u :
  ops !! i = Some (CopyCollection src dn ex) -> at_inv (S i) (S i) u ->
  runs (remove_new_artifact (CopyCollection src dn ex)) u (at_inv n n) (fun _ => at_inv i i)
    (fun _ _ => False).
Proof.
  intros Hop [Hi Hw]. set (c := as_str dn).
  pose proof (Forall_lookup_1 _ _ _ _ Hwf Hop) as [Hc Hex]. fold c in Hc, Hex.
  assert (Hlt : (i < n)%nat) by (by eapply lookup_lt_Some).
  assert (Hdone : forall C, inv (S i) (S i) C -> (ex = false -> C !! c = None) -> inv i i C).
  { intros C HiC Hne. pose proof HiC as [Hn Ho Hnew Hcl]. split; [done|done| |].
    - intros c' d Hp H0' Hd. destruct (Hnew c' d Hp H0' Hd) as (j & Hj & Hcr). exists j. split; [|done].
      destruct (decide (j = i)) as [->|]; [exfalso|lia].
      destruct Hcr as [(? & dn' & ? & Hdn)|(? & ? & _)]; simplify_eq.
      fold c in Hp, H0', Hd.
      assert (Hf : bool_decide (is_Some (C0 !! c)) = false)
        by (apply bool_decide_eq_false_2; rewrite H0'; by intros []).
      rewrite (Hne Hf) in Hd. done.
    - intros j c' k d Hj Hw'. destruct (decide (j = i)) as [->|]; [|apply (Hcl j); [lia|done]].
      destruct Hw' as (? & ? & ? & _). by simplify_eq. }
  apply runs_bind, runs_query. fold c. apply runs_when.
  - intros [[Hf%negb_true_iff (d & Hd)%dir_exists_get]%andb_true_iff _]%andb_true_iff.
    eapply runs_remove_dir_all; [done|]. cbv zeta.
    set (u' := with_collections u (delete c (collections u))).
    assert (H0 : C0 !! c = None).
    { apply eq_None_not_Some. rewrite Hf in Hex. symmetry in Hex. by apply bool_decide_eq_false in Hex. }
    assert (Hres : at_inv i i u').
    { split; [|done]. apply Hdone; [by apply inv_delete_dir; auto|]. intros _. unfold u'. simpl.
      apply lookup_delete_eq. }
    split; [|done]. eapply at_inv_weaken; [| |done]; lia.
  - intros Hne. split; [|done]. apply Hdone; [done|]. intros ->.
    assert (H0 : C0 !! c = None).
    { apply eq_None_not_Some. symmetry in Hex. by apply bool_decide_eq_false in Hex. }
    simpl in Hne. apply andb_false_iff in Hne as [Hne%dir_exists_false|Hne]; [done|].
    apply negb_false_iff, dir_exists_get in Hne as [d Hd].
    pose proof (inv_no_backup _ _ _ c Hi Hc H0). unfold get_dir in Hd. congruence.
Qed.

Lemma undo_operation i op u :
  ops !! i = Some op -> at_inv (S i) (S i) u ->
  runs (remove_new_artifact op) u (at_inv n n) (fun _ => at_inv i i) (fun _ _ => False).
Proof.
  intros Hop Hu.
  destruct op; [by apply undo_write| | |by apply undo_create| |by apply undo_copy];
    (apply runs_ret; destruct Hu; split; [by eapply inv_step_other|done]).
Qed.

(** Every directory left is committed, and every written new file is gone. *)
Lemma remove_new_artifacts_runs u :
  at_inv n n u ->
  runs (remove_new_artifacts ops) u (at_inv n n) (fun _ => at_inv 0 0) (fun _ _ => False).
Proof.
  intros Hu. unfold remove_new_artifacts.
  eapply runs_mono; [apply (runs_for_each (reverse ops) _ (fun l u =>
    exists i, (i <= n)%nat /\ l = reverse (take i ops) /\ at_inv i i u) (at_inv n n)
    (fun _ _ => False))|done| |done].
  - exists n. by rewrite firstn_all.
  - intros op l' v (i & Hin & Hl & Hv). destruct i as [|i]; [done|].
    destruct (lookup_lt_is_Some_2 ops i) as [op' Hop]; [lia|].
    rewrite (take_S_r _ _ _ Hop), reverse_snoc in Hl. injection Hl as -> ->.
    eapply runs_mono; [by apply (undo_operation i)|done| |done].
    intros [] w Hw. exists i. split; [lia|done].
  - intros [] v (i & Hin & Hl & Hv). destruct i as [|i]; [done|].
    apply (f_equal length) in Hl. rewrite length_reverse, length_take in Hl. cbn [length] in Hl. lia.
Qed.

(** *** Restoring one directory *)

(** What may stand in the directory of [c] while it is being restored. *)
Definition restorable (C : gmap string dir) (c : string) (d : dir) : Prop :=
  is_Some (C0 !! c) /\
  (backed_up C c \/
   exists d0, C0 !! c = Some d0 /\ C !! bak c = None /\ dir_related ops c d0 d /\
     forall k, plain_name k -> d0 !! k = None -> d !! k = None).

Lemma inv_restorable C c d :
  inv 0 0 C -> plain_name c -> C !! c = Some d -> restorable C c d.
Proof.
  intros Hi Hc Hd. assert (is_Some (C0 !! c)) as [d0 H0].
  { destruct (C0 !! c) as [d0|] eqn:H0; [by eexists|].
    destruct (inv_new _ _ _ _ _ Hi c d Hc H0 Hd) as (i & ? & _). lia. }
  split; [by exists d0|]. destruct (inv_old _ _ _ _ _ Hi c d0 H0) as [?|[Hb (d' & Hd' & Hr)]].
  { left. by exists d0. }
  right. exists d0. assert (d' = d) as -> by congruence. do 3 (split; [done|]).
  intros k Hk Hn. destruct (d !! k) as [v|] eqn:Ek; [exfalso|done].
  destruct (rel_fresh _ _ _ _ Hr k Hk Hn) as [j Hj]; [by exists v|].
  destruct (inv_cleaned _ _ _ _ _ Hi j c k d) as [?|[w Hw]]; [lia|done|done|done|by rewrite H0|congruence|].
  apply (rel_bak _ _ _ _ _ _ Hr (plain_nonempty k Hk)) in Hw. congruence.
Qed.

Lemma restorable_inv C c d :
  inv 0 0 C -> plain_name c -> restorable C c d -> inv 0 0 (<[c := d]> C).
Proof.
  intros Hi Hc [[d0 H0] Hr]. apply inv_set_dir; try done.
  - intros d0' H0' Hb. destruct Hr as [[? ?]|(d1 & H1 & _ & Hr & _)]; congruence.
  - congruence.
  - intros j k _ Hw Hb Hk. left. destruct Hr as [[? ?]|(d1 & H1 & _ & _ & Hn)]; [congruence|].
    pose proof (writes_at_plain C0 ops Hwf _ _ _ Hw) as [_ ?]. apply Hn; [done|].
    rewrite H1 in Hk. done.
Qed.

(** The two steps of restoring a file keep it. *)
Lemma restorable_remove C c d k :
  restorable C c d -> k <> "" -> is_Some (d !! bak k) -> restorable C c (delete k d).
Proof.
  intros [H0 Hr] Hk [v Hb]. split; [done|]. destruct Hr as [?|(d0 & H1 & Hnb & Hr & Hn)]; [by left|right].
  exists d0. pose proof (rel_bak _ _ _ _ _ _ Hr Hk Hb) as Hk0.
  assert (Hp : plain_name k) by (apply (rel_plain _ _ _ _ Hr); by exists v).
  do 2 (split; [done|]). split; [apply rel_remove; [done|done|right; by exists v]|].
  intros k' Hp' Hn'. destruct (decide (k' = k)) as [->|]; [apply lookup_delete_eq|].
  rewrite lookup_delete_ne by done. auto.
Qed.

Lemma restorable_restore C c d k v :
  restorable C c d -> k <> "" -> d !! bak k = Some v ->
  restorable C c (<[k := v]> (delete (bak k) d)).
Proof.
  intros [H0 Hr] Hk Hb. split; [done|]. destruct Hr as [?|(d0 & H1 & Hnb & Hr & Hn)]; [by left|right].
  exists d0. pose proof (rel_bak _ _ _ _ _ _ Hr Hk Hb) as Hk0.
  assert (Hp : plain_name k) by (apply (rel_plain _ _ _ _ Hr); by exists v).
  do 2 (split; [done|]). split; [by apply rel_restore|].
  intros k' Hp' Hn'. rewrite lookup_insert_ne by congruence.
  rewrite lookup_delete_ne by by apply not_eq_sym, plain_ne_bak. auto.
Qed.

(** The state while the entries [rem] of directory [c] are still to be
    restored. *)
Definition restoring (C : gmap string dir) (c : string) (rem : list string) (u : fs) : Prop :=
  wal_file u = wal /\ NoDup rem /\
  exists d, collections u = <[c := d]> C /\ restorable C c d /\
    (forall e, e ∈ rem -> is_Some (d !! e)) /\
    (C !! bak c = None -> forall x, is_Some (d !! x) -> is_bak x = true -> x ∈ rem).

Lemma restoring_at_inv C c rem u :
  inv 0 0 C -> plain_name c -> restoring C c rem u -> at_inv n n u.
Proof.
  intros Hi Hc (Hw & _ & d & Hd & Hr & _). apply (at_inv_weaken 0 0); [lia|lia|].
  split; [|done]. rewrite Hd. by apply restorable_inv.
Qed.

Lemma restorable_no_tmp C c d x :
  restorable C c d -> C !! bak c = None -> is_Some (d !! x) -> is_tmp x = false.
Proof.
  intros [_ [[? ?]|(d0 & _ & _ & Hr & _)]] Hnb Hx; [congruence|].
  destruct (rel_names _ _ _ _ Hr x Hx) as [?|(k & -> & Hk)]; [by apply plain_not_tmp|].
  apply bak_not_tmp, plain_nonempty. by apply (rel_plain _ _ _ _ Hr).
Qed.

Lemma is_bak_not_tmp x : is_bak x = true -> is_tmp x = false.
Proof. intros [E H]%bak_of_stem. rewrite E. by apply bak_not_tmp. Qed.

Lemma restore_entry_runs C c e rem u :
  inv 0 0 C -> plain_name c -> restoring C c (e :: rem) u ->
  runs (restore_entry c e) u (at_inv n n) (fun _ => restoring C c rem) (fun _ _ => False).
Proof.
  intros Hi Hc (Hw & Hnd & d & Hd & Hr & Hrem & Hall).
  apply NoDup_cons in Hnd as [Hne Hnd].
  destruct (Hrem e) as [v Hv]; [by left|].
  assert (Hget : get_dir u c = Some d) by (unfold get_dir; rewrite Hd; apply lookup_insert_eq).
  assert (Hpt : forall u' d', collections u' = <[c := d']> (collections u) -> wal_file u' = wal ->
                 restorable C c d' -> at_inv n n u').
  { intros u' d' Hc' Hw' Hr'. apply (at_inv_weaken 0 0); [lia|lia|]. split; [|done].
    rewrite Hc', Hd, insert_insert_eq. by apply restorable_inv. }
  apply runs_bind, runs_when.
  - intros Hb. pose proof (bak_of_stem e Hb) as [He Hk]. set (k := without_extension e) in *.
    assert (Hke : k <> e) by (rewrite He; apply append_bak_neq).
    assert (Hvb : d !! bak k = Some v) by by rewrite <- He.
    (* the state once the original is out of the way *)
    assert (Hlast : forall u' d', collections u' = <[c := d']> (collections u) -> wal_file u' = wal ->
      restorable C c d' -> d' = d \/ d' = delete k d ->
      runs (rename_file c e k) u' (at_inv n n) (fun _ u2 => runs (when (is_tmp e) (remove_file c e)) u2
        (at_inv n n) (fun _ => restoring C c rem) (fun _ _ => False)) (fun _ _ => False)).
    { intros u' d' Hc' Hw' Hr' Hd'. assert (Hve : d' !! e = Some v).
      { destruct Hd' as [->| ->]; [done|]. by rewrite lookup_delete_ne. }
      assert (Hg' : get_dir u' c = Some d') by (unfold get_dir; rewrite Hc'; apply lookup_insert_eq).
      eapply runs_rename_file; [done|done|]. cbv zeta.
      set (d2 := <[k := v]> (delete e d')).
      assert (Hr2 : restorable C c d2).
      { unfold d2. rewrite He. apply restorable_restore; [done|done|by rewrite <- He]. }
      assert (Hc2 : collections (with_dir u' c d2) = <[c := d2]> (collections u))
        by (simpl; by rewrite Hc', insert_insert_eq).
      split; [by eapply Hpt|]. rewrite (is_bak_not_tmp e Hb). apply runs_ret.
      split; [done|]. split; [done|]. exists d2. split; [by rewrite Hc2, Hd, insert_insert_eq|].
      split; [done|]. split.
      - intros x Hx. unfold d2. destruct (decide (x = k)) as [->|]; [rewrite lookup_insert_eq; by eexists|].
        rewrite lookup_insert_ne by done. rewrite lookup_delete_ne by by intros ->.
        destruct (Hrem x) as [w Hxw]; [by right|]. destruct Hd' as [->| ->]; [by exists w|].
        rewrite lookup_delete_ne by done. by exists w.
      - intros Hnb x Hx Hbx. unfold d2 in Hx. destruct (decide (x = k)) as [->|].
        { exfalso. destruct Hr as [_ [[? ?]|(d0 & H1 & _ & Hrel & _)]]; [congruence|].
          assert (Hp : plain_name k).
          { apply (rel_plain _ _ _ _ Hrel). exists v. by apply (rel_bak _ _ _ _ _ _ Hrel). }
          pose proof (plain_not_bak k Hp). unfold is_bak in Hbx. congruence. }
        rewrite lookup_insert_ne in Hx by done. destruct (decide (x = e)) as [->|].
        { rewrite lookup_delete_eq in Hx. by destruct Hx. }
        rewrite lookup_delete_ne in Hx by done.
        assert (Hx' : is_Some (d !! x)).
        { destruct Hd' as [->| ->]; [done|]. by rewrite lookup_delete_ne in Hx. }
        pose proof (Hall Hnb x Hx' Hbx) as [?|?]%elem_of_cons; done. }
    cbv zeta. apply runs_bind, runs_query, runs_bind, runs_when.
    + intros (d' & w & Hg' & Hk')%file_exists_get. assert (d' = d) as -> by congruence.
      eapply runs_remove_file; [done|done|]. cbv zeta.
      assert (Hr1 : restorable C c (delete k d)) by (apply restorable_remove; [done|done|by exists v]).
      split; [by eapply Hpt|]. eapply Hlast; [done|done|done|by right].
    + intros _. apply (Hlast u d); [|done|done|by left]. unfold get_dir in Hget.
      by rewrite insert_id.
  - intros Hb. apply runs_when.
    + intros Ht. eapply runs_remove_file; [done|done|]. cbv zeta.
      assert (Hbu : backed_up C c).
      { pose proof Hr as [_ [?|(d0 & _ & Hnb & _)]]; [done|].
        assert (is_tmp e = false) by (apply (restorable_no_tmp C c d); [done|done|by exists v]).
        congruence. }
      assert (Hr1 : restorable C c (delete e d)) by (destruct Hr; split; [done|by left]).
      split; [by eapply Hpt|]. split; [done|]. split; [done|]. exists (delete e d).
      split; [simpl; by rewrite Hd, insert_insert_eq|]. split; [done|]. split.
      * intros x Hx. rewrite lookup_delete_ne by by intros ->. apply Hrem. by right.
      * intros Hnb. destruct Hbu. congruence.
    + intros _. split; [done|]. split; [done|]. exists d. do 2 (split; [done|]). split.
      * intros x Hx. apply Hrem. by right.
      * intros Hnb x Hx Hbx. pose proof (Hall Hnb x Hx Hbx) as [->|?]%elem_of_cons; [congruence|done].
Qed.

Lemma restore_dir_runs c d u :
  at_inv 0 0 u -> plain_name c -> get_dir u c = Some d ->
  runs (restore_bak_files_in_dir order c) u (at_inv n n)
    (fun _ u' => exists d', collections u' = <[c := d']> (collections u) /\ wal_file u' = wal /\
       restorable (collections u) c d' /\
       (collections u !! bak c = None -> forall x, is_Some (d' !! x) -> is_bak x = false))
    (fun _ _ => False).
Proof.
  intros [Hi Hw] Hc Hd. unfold restore_bak_files_in_dir, read_dir.
  apply runs_bind, runs_bind, runs_query. rewrite Hd. apply runs_ret.
  eapply runs_mono; [apply (runs_for_each _ _ (restoring (collections u) c) (at_inv n n)
    (fun _ _ => False))|done| |done].
  - split; [done|]. split; [apply names_nodup|]. exists d. split; [by rewrite insert_id|].
    split; [by apply inv_restorable|]. split.
    + intros e. by rewrite names_elem.
    + intros _ x Hx _. by apply names_elem.
  - intros e rem v. by apply restore_entry_runs.
  - intros [] v (Hwv & _ & d' & Hd' & Hr & _ & Hall). exists d'. do 3 (split; [done|]).
    intros Hnb x Hx. destruct (is_bak x) eqn:E; [|done]. by apply (Hall Hnb x Hx), elem_of_nil in E.
Qed.

(** *** Restoring all collections *)

(** The directory of [c] is back, without backups. *)
Definition restored (C : gmap string dir) (c : string) : Prop :=
  exists d, C !! c = Some d /\ forall x, is_Some (d !! x) -> is_bak x = false.

Definition rolling_back (rem : list string) (u : fs) : Prop :=
  at_inv 0 0 u /\
  forall c, is_Some (C0 !! c) ->
    (backed_up (collections u) c -> bak c ∈ rem) /\
    (c ∉ rem -> collections u !! bak c = None -> restored (collections u) c).

(** Restoring a committed directory keeps what is known of the others. *)
Lemma rolling_back_step rem x c u u' :
  rolling_back (x :: rem) u -> at_inv 0 0 u' -> is_Some (C0 !! c) -> (x = c \/ x = bak c) ->
  (forall y, y <> c -> y <> bak c -> collections u' !! y = collections u !! y) ->
  (backed_up (collections u') c -> x = c /\ backed_up (collections u) c) ->
  (collections u' !! bak c = None -> restored (collections u') c) ->
  rolling_back rem u'.
Proof.
  intros [Hu Hall] Hu' [d0 H0] Hx Hsame Hb Hres. split; [done|]. intros c' [d0' H0'].
  pose proof (committed_plain _ HC0 _ _ H0) as Hp. pose proof (committed_plain _ HC0 _ _ H0') as Hp'.
  destruct (Hall c' ltac:(by eexists)) as [Hin Hout]. destruct (decide (c' = c)) as [->|Hne].
  - split; [|auto]. intros Hbu. destruct (Hb Hbu) as [-> Hbu'].
    apply Hin, elem_of_cons in Hbu' as [E|?]; [by destruct (append_bak_neq c)|done].
  - assert (Hc' : collections u' !! c' = collections u !! c') by (apply Hsame; [done|by apply plain_ne_bak]).
    assert (Hbc : collections u' !! bak c' = collections u !! bak c').
    { apply Hsame; [by apply not_eq_sym, plain_ne_bak|]. intros E. by apply append_bak_inj in E. }
    unfold backed_up, restored in *. rewrite Hc', Hbc. split.
    + intros [E|?]%Hin%elem_of_cons; [exfalso|done]. destruct Hx as [->| ->].
      * by destruct (plain_ne_bak c c').
      * by apply append_bak_inj in E.
    + intros Hnin. apply Hout. intros [E|?]%elem_of_cons; [|done]. destruct Hx as [->| ->]; [done|].
      by destruct (plain_ne_bak c' c).
Qed.

Lemma rollback_collection_runs x rem u :
  rolling_back (x :: rem) u ->
  runs (rollback_collection order x) u (at_inv n n) (fun _ => rolling_back rem) (fun _ _ => False).
Proof.
  intros Hrb. pose proof Hrb as [[Hi Hw] Hall]. apply runs_bind, runs_query, runs_when.
  2:{ intros Hx%dir_exists_false. split; [done|]. intros c Hc. destruct (Hall c Hc) as [Hin Hout].
    unfold get_dir in Hx. split.
    - intros Hb. destruct (proj1 (elem_of_cons _ _ _) (Hin Hb)) as [<-|]; [|done].
      destruct Hb. congruence.
    - intros Hnin Hnb. destruct (decide (c = x)) as [->|].
      + destruct Hc as [d0 H0]. destruct (inv_old _ _ _ _ _ Hi _ _ H0) as [?|[_ (? & ? & _)]]; congruence.
      + apply Hout; [|done]. by intros [?|?]%elem_of_cons. }
  intros [d Hd]%dir_exists_get. destruct (is_bak x) eqn:Eb.
  - pose proof (bak_of_stem x Eb) as [Ex Hne]. set (c := without_extension x) in *.
    destruct (inv_backed_up _ _ _ _ _ c Hi Hne) as (d0 & H0 & Hbd); [exists d; by rewrite <- Ex|].
    pose proof (committed_plain _ HC0 _ _ H0) as Hc. pose proof (plain_ne_bak c c Hc Hc) as Hcx.
    assert (Hlast : forall v, inv 0 0 (collections v) -> wal_file v = wal -> collections v !! c = None ->
      (forall y, y <> c -> collections v !! y = collections u !! y) ->
      runs (rename_dir x c) v (at_inv n n) (fun _ => rolling_back rem) (fun _ _ => False)).
    { intros v Hv Hwv Hnone Hsame.
      assert (Hbv : collections v !! bak c = Some d0) by (rewrite Hsame; [done|congruence]).
      eapply runs_rename_dir; [unfold get_dir; by rewrite Ex|done|]. cbv zeta. rewrite Ex.
      set (v' := with_collections v _).
      assert (Hv' : at_inv 0 0 v') by (split; [by apply inv_restore_dir|done]).
      split; [apply (at_inv_weaken 0 0); [lia|lia|done]|].
      apply (rolling_back_step rem x c u); [done|done|by eexists|by right| | |].
      - intros y Hy1 Hy2. unfold v'. simpl. rewrite lookup_insert_ne, lookup_delete_ne by done. auto.
      - unfold v'. simpl. intros [z Hz]. rewrite lookup_insert_ne, lookup_delete_eq in Hz by done. done.
      - intros _. exists d0. unfold v'. simpl. rewrite lookup_insert_eq. split; [done|].
        intros y Hy. by eapply plain_not_bak, committed_key. }
    apply runs_bind, runs_query, runs_bind, runs_when.
    + intros [dc Hdc]%dir_exists_get. eapply runs_remove_dir_all; [done|]. cbv zeta.
      assert (Hdel : inv 0 0 (delete c (collections u)))
        by (apply inv_delete_dir; try done; right; by exists d0).
      split; [apply (at_inv_weaken 0 0); [lia|lia|done]|].
      apply Hlast; [done|done|apply lookup_delete_eq|]. intros y Hy. simpl. by rewrite lookup_delete_ne.
    + intros Hno%dir_exists_false. by apply Hlast.
  - assert (Hx : plain_name x).
    { destruct (inv_names _ _ _ _ _ Hi x) as [?|(c & -> & [d0 H0])]; [by exists d|done|].
      unfold is_bak in Eb. rewrite has_extension_bak in Eb; [done|].
      by eapply plain_nonempty, committed_plain. }
    destruct (inv_restorable _ _ _ Hi Hx Hd) as [Hx0 _].
    eapply runs_mono; [by apply (restore_dir_runs x d)|done| |done].
    intros [] v (d' & Hv & Hwv & Hr & Hnb).
    assert (Hbs : collections v !! bak x = collections u !! bak x)
      by (rewrite Hv; apply lookup_insert_ne; by apply plain_ne_bak).
    apply (rolling_back_step rem x x u); [done| |done|by left| | |].
    + split; [|done]. rewrite Hv. by apply restorable_inv.
    + intros y Hy _. rewrite Hv. by apply lookup_insert_ne.
    + unfold backed_up. rewrite Hbs. done.
    + rewrite Hbs. intros Hnone. exists d'. rewrite Hv, lookup_insert_eq. auto.
Qed.

(** The committed state up to the lost targets of recorded writes. *)
Definition recovered (C : gmap string dir) : Prop :=
  (forall c, is_Some (C !! c) <-> is_Some (C0 !! c)) /\
  forall c d d0 k, C !! c = Some d -> C0 !! c = Some d0 ->
    d !! k = d0 !! k \/ (d !! k = None /\ writes ops c k).

Lemma rolled_back_recovered u : rolling_back [] u -> recovered (collections u).
Proof.
  intros [[Hi _] Hall].
  assert (Hold : forall c d0, C0 !! c = Some d0 ->
    exists d, collections u !! c = Some d /\ collections u !! bak c = None /\ dir_related ops c d0 d /\
      forall x, is_Some (d !! x) -> is_bak x = false).
  { intros c d0 H0. destruct (Hall c ltac:(by eexists)) as [Hb Hr].
    destruct (inv_old _ _ _ _ _ Hi c d0 H0) as [Hbk|[Hnb (d & Hd & Hrel)]].
    { destruct (not_elem_of_nil (bak c)). apply Hb. by exists d0. }
    exists d. do 3 (split; [done|]). destruct (Hr (not_elem_of_nil _) Hnb) as (d' & ? & ?).
    by assert (d' = d) as -> by congruence. }
  split.
  - intros c. split.
    + intros [d Hd]. destruct (inv_names _ _ _ _ _ Hi c) as [Hp|(c' & -> & [d0 H0])]; [by exists d| |].
      * destruct (C0 !! c) eqn:E0; [by eexists|].
        destruct (inv_new _ _ _ _ _ Hi c d Hp E0 Hd) as (i & ? & _). lia.
      * destruct (Hold c' d0 H0) as (? & _ & ? & _). congruence.
    + intros [d0 H0]. destruct (Hold c d0 H0) as (d & ? & _). by exists d.
  - intros c d d0 k Hd H0. destruct (Hold c d0 H0) as (d' & Hd' & Hnb & Hr & Hplain).
    assert (d' = d) as -> by congruence. pose proof (committed_plain _ HC0 _ _ H0) as Hc.
    destruct (d0 !! k) as [v|] eqn:Ek.
    + assert (Hk : plain_name k) by (apply (rel_plain _ _ _ _ Hr); by exists v).
      destruct (rel_kept _ _ _ _ Hr k v Ek) as [Hb|[_ [?|?]]]; [exfalso|by left|by right].
      assert (is_bak (bak k) = false) as Hf by (apply Hplain; by exists v).
      unfold is_bak in Hf. rewrite has_extension_bak in Hf by (by apply plain_nonempty). done.
    + left.
      destruct (inv_restorable _ c d Hi Hc Hd) as [_ [[? ?]|(d1 & H1 & _ & _ & Hn)]]; [congruence|].
      destruct (d !! k) as [v|] eqn:Ekd; [exfalso|done].
      destruct (rel_names _ _ _ _ Hr k) as [Hp|(k' & -> & [w Hw])]; [by exists v| |].
      * assert (d1 = d0) as -> by congruence. specialize (Hn k Hp Ek). congruence.
      * assert (is_bak (bak k') = false) as Hf by (apply Hplain; by exists v).
        unfold is_bak in Hf. rewrite has_extension_bak in Hf; [done|].
        apply plain_nonempty. apply (rel_plain _ _ _ _ Hr). by exists w.
Qed.

Lemma rollback_partial_commit_runs u :
  at_inv 0 0 u ->
  runs (rollback_partial_commit order) u (at_inv n n)
    (fun _ u' => recovered (collections u') /\ at_inv 0 0 u') (fun _ _ => False).
Proof.
  intros Hu. unfold rollback_partial_commit, read_collections. apply runs_bind, runs_query.
  eapply runs_mono; [apply (runs_for_each _ _ rolling_back (at_inv n n) (fun _ _ => False))|done| |done].
  - split; [done|]. intros c [d0 H0]. split.
    + intros Hb. by apply names_elem.
    + intros Hnin Hnb. destruct Hnin. apply names_elem.
      destruct (inv_old _ _ _ _ _ (proj1 Hu) c d0 H0) as [?|[_ (? & ? & _)]]; [congruence|by eexists].
  - intros x rem v. apply rollback_collection_runs.
  - intros [] v Hv. split; [by apply rolled_back_recovered|by destruct Hv].
Qed.
End rollback.
