(* ===== verification/StorageApply.v ===== *)
(** * Applying a transaction

    The condition under which no operation of a transaction overwrites the
    backup an earlier one made, and that under it every step of applying the
    operations succeeds and keeps the invariant. *)

From S2P Require Import Prelude StorageTypes FileSystem Wal LocalStorage StorageInvariant StorageRollback.

Section safe.
Context (order : list string -> list string) (C0 : gmap string dir).

(** Replacing key [k] of directory [d] loses no committed version. *)
Definition write_safe (C : gmap string dir) (c k : string) (d : dir) : Prop :=
  match C !! bak c, C0 !! c with
  | Some _, _ => True
  | None, Some d0 =>
      match d !! k with
      | Some _ => d !! bak k = None /\ is_Some (d0 !! k)
      | None => is_Some (d0 !! k) -> is_Some (d !! bak k)
      end
  | None, None => d !! k = None
  end.

(** The directory of [c] is untouched, or there is none. *)
Definition untouched (C : gmap string dir) (c : string) : Prop :=
  match C !! c with
  | Some d => C !! bak c = None /\ C0 !! c = Some d
  | None => True
  end.

Definition op_safe (s : fs) (op : Operation) : Prop :=
  let C := collections s in
  match op with
  | Write cn k p =>
      is_Some (staging s !! p) /\
      match C !! as_str cn with Some d => write_safe C (as_str cn) k d | None => False end
  | Delete cn k =>
      match C !! as_str cn with
      | Some d => is_Some (d !! k) -> write_safe C (as_str cn) k d
      | None => True
      end
  | DeleteAll cn =>
      match C !! as_str cn with
      | Some d => is_Some (C !! bak (as_str cn)) \/
                  forall x, is_Some (d !! x) -> is_Some (C0 !! as_str cn ≫= (.!! x))
      | None => True
      end
  | CreateCollection _ => True
  | DeleteCollection cn => untouched C (as_str cn)
  | CopyCollection src dn _ =>
      is_Some (C !! as_str src) /\ as_str src <> as_str dn /\ untouched C (as_str dn)
  end.

(** Every operation is safe in the state the ones before it leave. *)
Fixpoint ops_safe (l : list Operation) (s : fs) : Prop :=
  match l with
  | [] => True
  | op :: l => op_safe s op /\ ops_safe l (run_state (apply_operation order op) s)
  end.
End safe.

Lemma runs_state {A} (m : io A) s P Q R :
  runs m s P Q R -> runs m s P (fun a u => Q a u /\ u = run_state m s) R.
Proof. unfold runs, run_state. destruct (m s) as [[t [a|e]] s']; intros [? ?]; by split. Qed.

Section apply.
Context (order : list string -> list string).
Hypothesis Horder : forall l, order l ≡ₚ l.
Context (C0 : gmap string dir) (ops : list Operation).
Hypothesis HC0 : committed_ok C0.
Hypothesis Hwf : Forall (wf_op C0) ops.
Context (wal : option (list Z)).

Abbreviation inv := (inv C0 ops).
Abbreviation n := (length ops).
Abbreviation at_inv := (at_inv C0 ops wal).

Lemma writes_at_lt j c k : writes_at ops j c k -> (j < n)%nat.
Proof. intros (? & ? & H & _). by eapply lookup_lt_Some. Qed.

(** Replacing a directory during the commit. *)
Lemma inv_put r C c d :
  inv r n C -> plain_name c ->
  (forall d0, C0 !! c = Some d0 -> C !! bak c = None -> dir_related ops c d0 d) ->
  (C0 !! c = None -> exists i, (i < r)%nat /\ creates ops i c d) ->
  inv r n (<[c := d]> C).
Proof.
  intros Hi Hc Hr Hcr. apply inv_set_dir; try done.
  intros j k Hj Hw. apply writes_at_lt in Hw. lia.
Qed.

Lemma at_inv_step r u u' : (r <= n)%nat -> at_inv r n u' -> wal_file u' = wal_file u -> at_inv n n u'.
Proof. intros ? ? _. eapply at_inv_weaken; [| |done]; lia. Qed.

(** Moving a file to its backup name. *)
Lemma inv_backup_file r C c k d v :
  inv r n C -> plain_name c -> plain_name k -> C !! c = Some d -> d !! k = Some v ->
  write_safe C0 C c k d -> inv r n (<[c := <[bak k := v]> (delete k d)]> C).
Proof.
  intros Hi Hc Hk Hd Hv Hs. unfold write_safe in Hs. rewrite Hv in Hs. apply inv_put; [done|done| |].
  - intros d0 H0 Hnb. rewrite Hnb, H0 in Hs. destruct Hs as [Hb Hin].
    destruct (inv_old _ _ _ _ _ Hi c d0 H0) as [?|[_ (d' & Hd' & Hr)]]; [congruence|].
    assert (d' = d) as -> by congruence. by apply rel_backup.
  - intros H0. rewrite (inv_no_backup _ _ _ _ _ c Hi Hc H0), H0 in Hs. congruence.
Qed.

Lemma backup_file_runs r cn_c k u Q :
  (r <= n)%nat -> at_inv r n u -> plain_name cn_c -> plain_name k ->
  (forall d, collections u !! cn_c = Some d -> is_Some (d !! k) -> write_safe C0 (collections u) cn_c k d) ->
  (forall u', at_inv r n u' -> staging u' = staging u ->
     (u' = u /\ (forall d, collections u !! cn_c = Some d -> d !! k = None) \/
      exists d v, collections u !! cn_c = Some d /\ d !! k = Some v /\
        collections u' = <[cn_c := <[bak k := v]> (delete k d)]> (collections u)) -> Q () u') ->
  runs (backup_file cn_c k) u (at_inv n n) Q (fun _ _ => False).
Proof.
  intros Hr [Hi Hw] Hc Hk Hs HQ. apply runs_bind, runs_query, runs_when.
  - intros (d & v & Hd & Hv)%file_exists_get. eapply runs_rename_file; [done|done|]. cbv zeta.
    assert (Hu' : at_inv r n (with_dir u cn_c (<[bak k := v]> (delete k d)))).
    { split; [|done]. apply inv_backup_file; try done. apply Hs; [done|by exists v]. }
    split; [eapply at_inv_weaken; [| |done]; lia|]. apply HQ; [done|done|].
    right. by exists d, v.
  - intros Hf. apply HQ; [done|done|left]. split; [done|]. by apply file_exists_false.
Qed.

Lemma apply_write_runs i cn k p u :
  ops !! i = Some (Write cn k p) -> at_inv i n u -> op_safe C0 u (Write cn k p) ->
  runs (apply_operation order (Write cn k p)) u (at_inv n n) (fun _ => at_inv (S i) n)
    (fun _ _ => False).
Proof.
  intros Hop Hu [[v Hst] Hs]. pose proof Hu as [Hi Hw]. pose proof (lookup_lt_Some _ _ _ Hop) as Hlt.
  pose proof (Forall_lookup_1 _ _ _ _ Hwf Hop) as [Hc Hk]. set (c := as_str cn) in *.
  destruct (collections u !! c) as [d|] eqn:Hd; [|done].
  apply runs_bind. apply runs_call. unfold get_dir. fold c. rewrite Hd.
  split; [eapply at_inv_weaken; [| |done]; lia|]. apply runs_bind.
  apply (backup_file_runs i); [lia|done|done|done|intros d' Hd' _; congruence|].
  intros u' [Hi' Hw'] Hst' Hcase. unfold rename_staged. apply runs_call. rewrite Hst', Hst. unfold get_dir.
  assert (exists d', collections u' !! c = Some d' /\ d' !! k = None /\
    (forall x, x <> bak k -> is_Some (d' !! x) -> is_Some (d !! x)) /\
    (C0 !! c <> None -> collections u' !! bak c = None -> (C0 !! c ≫= (.!! k)) = None \/ is_Some (d' !! bak k)) /\
    (C0 !! c = None -> d' = d)) as (d' & Hd' & Hnone & Hsub & Hbk & Hsame).
  { unfold write_safe in Hs. destruct Hcase as [[-> Hno]|(d1 & w & Hd1 & Hkw & Hcu)].
    - exists d. specialize (Hno d Hd). do 2 (split; [done|]). split; [done|]. split; [|done].
      intros H0 Hnb. rewrite Hnb in Hs. destruct (C0 !! c) as [d0|]; [|done]. rewrite Hno in Hs. simpl.
      destruct (d0 !! k); [right; apply Hs; by eexists|by left].
    - assert (d1 = d) as -> by congruence. pose proof (plain_ne_bak k k Hk Hk).
      exists (<[bak k := w]> (delete k d)). rewrite Hcu, lookup_insert_eq. split; [done|].
      rewrite lookup_insert_ne, lookup_delete_eq by done. split; [done|]. split; [|split].
      + intros x Hx. rewrite lookup_insert_ne by done. destruct (decide (x = k)) as [->|].
        * rewrite lookup_delete_eq. by intros [].
        * by rewrite lookup_delete_ne.
      + intros _ _. right. rewrite lookup_insert_eq. by eexists.
      + intros H0. rewrite (inv_no_backup _ _ _ _ _ c Hi Hc H0), H0 in Hs. congruence. }
  fold c. rewrite Hd'. set (u2 := mk_fs _ _ _).
  assert (Hwr : writes_at ops i c k) by (by exists cn, p).
  assert (Hu2 : at_inv (S i) n u2).
  { split; [|done]. unfold u2. simpl. apply inv_put; [eapply inv_weaken; [done|lia|lia]|done| |].
    - intros d0 H0 Hnb. destruct (inv_old _ _ _ _ _ Hi' c d0 H0) as [?|[_ (d2 & Hd2 & Hr)]]; [congruence|].
      assert (d2 = d') as -> by congruence. apply rel_write; [done|done|by exists i|done|].
      rewrite H0 in Hbk. by apply Hbk.
    - intros H0. destruct (inv_new _ _ _ _ _ Hi' c d' Hc H0 Hd') as (j & Hj & Hcr). exists j.
      split; [lia|]. destruct Hcr as [?|(cn' & Hcj & Hcn & Hall)]; [by left|right]. exists cn'.
      do 2 (split; [done|]). intros x Hx. destruct (decide (x = k)) as [->|].
      + split; [done|]. exists i. split; [lia|done].
      + rewrite lookup_insert_ne in Hx by done. by apply Hall. }
  split; [eapply at_inv_weaken; [| |done]; lia|done].
Qed.

Lemma apply_delete_runs i cn k u :
  ops !! i = Some (Delete cn k) -> at_inv i n u -> op_safe C0 u (Delete cn k) ->
  runs (apply_operation order (Delete cn k)) u (at_inv n n) (fun _ => at_inv (S i) n)
    (fun _ _ => False).
Proof.
  intros Hop Hu Hs. pose proof (lookup_lt_Some _ _ _ Hop) as Hlt.
  pose proof (Forall_lookup_1 _ _ _ _ Hwf Hop) as [Hc Hk]. simpl in Hs.
  apply (backup_file_runs i); [lia|done|done|done| |].
  - intros d Hd. by rewrite Hd in Hs.
  - intros u' [Hi' Hw'] _ _. split; [|done]. eapply inv_weaken; [done|lia|lia].
Qed.

(** Creating a directory for operation [i]. *)
Lemma create_dir_runs i c u Q :
  (S i <= n)%nat -> at_inv i n u -> plain_name c ->
  (C0 !! c = None -> forall d, d = ∅ -> creates ops i c d) ->
  (forall u', at_inv (S i) n u' -> staging u' = staging u ->
     (exists d, collections u' = <[c := d]> (collections u) /\
        (d = ∅ \/ collections u !! c = Some d)) -> Q () u') ->
  runs (create_dir_all c) u (at_inv n n) Q (fun _ _ => False).
Proof.
  intros Hlt [Hi Hw] Hc Hcr HQ. unfold create_dir_all. apply runs_call. unfold get_dir.
  destruct (collections u !! c) as [d|] eqn:Hd.
  - assert (Hu : at_inv (S i) n u) by (split; [eapply inv_weaken; [done|lia|lia]|done]).
    split; [eapply at_inv_weaken; [| |done]; lia|]. apply HQ; [done|done|]. exists d.
    split; [by rewrite insert_id|by right].
  - assert (Hu' : at_inv (S i) n (with_dir u c ∅)).
    { split; [|done]. simpl. apply inv_put; [eapply inv_weaken; [done|lia|lia]|done| |].
      - intros d0 H0 Hnb. destruct (inv_old _ _ _ _ _ Hi c d0 H0) as [?|[_ (? & ? & _)]]; congruence.
      - intros H0. exists i. split; [lia|]. by apply Hcr. }
    split; [eapply at_inv_weaken; [| |done]; lia|]. apply HQ; [done|done|]. exists ∅. split; [done|by left].
Qed.

Lemma apply_create_runs i cn u :
  ops !! i = Some (CreateCollection cn) -> at_inv i n u ->
  runs (apply_operation order (CreateCollection cn)) u (at_inv n n) (fun _ => at_inv (S i) n)
    (fun _ _ => False).
Proof.
  intros Hop Hu. pose proof (lookup_lt_Some _ _ _ Hop) as Hlt.
  pose proof (Forall_lookup_1 _ _ _ _ Hwf Hop) as [Hc _].
  apply (create_dir_runs i); [lia|done|done| |done].
  intros _ d ->. right. exists cn. do 2 (split; [done|]). intros k [v Hv]. by rewrite lookup_empty in Hv.
Qed.

(** Moving an untouched directory to its backup name. *)
Lemma backup_dir_runs i c u Q :
  (i <= n)%nat -> at_inv i n u -> untouched C0 (collections u) c ->
  (forall u', at_inv i n u' -> staging u' = staging u -> collections u' !! c = None ->
     (forall x, x <> c -> is_Some (collections u !! x) -> is_Some (collections u' !! x)) -> Q () u') ->
  runs (backup_dir c) u (at_inv n n) Q (fun _ _ => False).
Proof.
  intros Hlt [Hi Hw] Hun HQ. unfold untouched in Hun. apply runs_bind, runs_query, runs_when.
  - intros [d Hd]%dir_exists_get. unfold get_dir in Hd. rewrite Hd in Hun. destruct Hun as [Hnb H0].
    pose proof (committed_plain _ HC0 _ _ H0) as Hc. pose proof (plain_ne_bak c c Hc Hc).
    eapply runs_rename_dir; [done|done|]. cbv zeta. set (u' := with_collections u _).
    assert (Hu' : at_inv i n u') by (split; [by apply inv_backup_dir|done]).
    split; [eapply at_inv_weaken; [| |done]; lia|]. apply HQ; [done|done| |]; unfold u'; simpl.
    + by rewrite lookup_insert_ne, lookup_delete_eq.
    + intros x Hx [dx Hdx]. destruct (decide (x = bak c)) as [->|]; [congruence|].
      exists dx. by rewrite lookup_insert_ne, lookup_delete_ne.
  - intros Hf%dir_exists_false. by apply HQ.
Qed.

Lemma apply_delete_collection_runs i cn u :
  ops !! i = Some (DeleteCollection cn) -> at_inv i n u -> op_safe C0 u (DeleteCollection cn) ->
  runs (apply_operation order (DeleteCollection cn)) u (at_inv n n) (fun _ => at_inv (S i) n)
    (fun _ _ => False).
Proof.
  intros Hop Hu Hs. pose proof (lookup_lt_Some _ _ _ Hop) as Hlt.
  apply (backup_dir_runs i); [lia|done|done|]. intros u' [Hi' Hw'] _ _ _.
  split; [|done]. eapply inv_weaken; [done|lia|lia].
Qed.

(** *** DELETE-ALL *)

(** The files [rem] of directory [c] are still to be moved. *)
Definition clearing (C : gmap string dir) (c : string) (rem : list string) (i : nat) (u : fs) : Prop :=
  at_inv i n u /\ NoDup rem /\
  exists d, collections u = <[c := d]> C /\
    (backed_up C c \/ forall e, e ∈ rem -> plain_name e /\ write_safe C0 C c e d).

Lemma clearing_step C c e rem i u :
  (i <= n)%nat -> plain_name c -> clearing C c (e :: rem) i u ->
  runs (backup_file c e) u (at_inv n n) (fun _ => clearing C c rem i) (fun _ _ => False).
Proof.
  intros Hlt Hc (Hu & Hnd & d & Hd & Hsafe). apply NoDup_cons in Hnd as [Hne Hnd].
  assert (Hget : collections u !! c = Some d) by (rewrite Hd; apply lookup_insert_eq).
  assert (Hbak : collections u !! bak c = C !! bak c)
    by (rewrite Hd; apply lookup_insert_ne; by apply plain_ne_bak).
  apply runs_bind, runs_query, runs_when.
  - intros (d' & v & Hd' & Hv)%file_exists_get. assert (d' = d) as -> by (unfold get_dir in Hd'; congruence).
    eapply runs_rename_file; [done|done|]. cbv zeta. set (u' := with_dir u c _).
    assert (Hcu : collections u' = <[c := <[bak e := v]> (delete e d)]> C)
      by (unfold u'; simpl; by rewrite Hd, insert_insert_eq).
    assert (Hu' : at_inv i n u').
    { destruct Hu as [Hi Hw]. split; [|done]. unfold u'. simpl. destruct Hsafe as [Hb|Hsafe].
      - destruct (inv_backed_up _ _ _ _ _ c Hi) as (d0 & H0 & H1);
          [by apply plain_nonempty|unfold backed_up; by rewrite Hbak|].
        apply inv_put; [done|done| |]; [|congruence]. intros; congruence.
      - destruct (Hsafe e) as [He Hs]; [by left|]. apply inv_backup_file; try done.
        unfold write_safe in *. by rewrite Hbak. }
    split; [eapply at_inv_weaken; [| |done]; lia|]. split; [done|]. split; [done|].
    eexists. split; [done|]. destruct Hsafe as [?|Hsafe]; [by left|right]. intros x Hx.
    destruct (Hsafe e) as [He _]; [by left|]. destruct (Hsafe x) as [Hp Hs]; [by right|].
    split; [done|]. unfold write_safe in *. destruct (C !! bak c); [done|].
    assert (x <> e) by (by intros ->).
    rewrite (lookup_insert_ne _ (bak e) x) by by apply not_eq_sym, plain_ne_bak.
    rewrite (lookup_insert_ne _ (bak e) (bak x)) by (intros E; by apply append_bak_inj in E).
    rewrite (lookup_delete_ne _ e x) by done.
    by rewrite (lookup_delete_ne _ e (bak x)) by by apply plain_ne_bak.
  - intros _. split; [done|]. split; [done|]. exists d. split; [done|].
    destruct Hsafe as [?|Hsafe]; [by left|right]. intros x Hx. apply Hsafe. by right.
Qed.

Lemma apply_delete_all_runs i cn u :
  ops !! i = Some (DeleteAll cn) -> at_inv i n u -> op_safe C0 u (DeleteAll cn) ->
  runs (apply_operation order (DeleteAll cn)) u (at_inv n n) (fun _ => at_inv (S i) n)
    (fun _ _ => False).
Proof.
  intros Hop Hu Hs. pose proof (lookup_lt_Some _ _ _ Hop) as Hlt. pose proof Hu as [Hi Hw].
  pose proof (Forall_lookup_1 _ _ _ _ Hwf Hop) as Hc. simpl in Hc, Hs. set (c := as_str cn) in *.
  assert (Hup : forall v, at_inv i n v -> at_inv (S i) n v)
    by (intros v [? ?]; split; [eapply inv_weaken; [done|lia|lia]|done]).
  apply runs_bind, runs_query, runs_when; [|intros _; by apply Hup].
  intros [d Hd]%dir_exists_get. unfold get_dir in Hd. fold c in Hd. rewrite Hd in Hs.
  unfold backup_all_files_in_dir, read_dir. apply runs_bind, runs_bind, runs_query.
  unfold get_dir. fold c. rewrite Hd. apply runs_ret.
  eapply runs_mono; [apply (runs_for_each _ _ (fun l => clearing (collections u) c l i) (at_inv n n)
    (fun _ _ => False))|done| |done].
  - split; [done|]. split; [by apply names_nodup|]. exists d. split; [by rewrite insert_id|].
    destruct Hs as [?|Hs]; [by left|]. destruct (collections u !! bak c) as [db|] eqn:Hb; [left; by exists db|right].
    intros e He. rewrite names_elem in He by done.
    pose proof (Hs (bak e)) as Hsb. specialize (Hs e He). destruct He as [v Hv].
    destruct (C0 !! c) as [d0|] eqn:H0; [|by destruct Hs]. simpl in Hs. destruct Hs as [v0 Hs].
    assert (He : plain_name e) by (eapply committed_key; [done|done|by exists v0]). split; [done|].
    unfold write_safe. rewrite Hb, H0, Hv. split; [|by exists v0].
    destruct (inv_old _ _ _ _ _ Hi c d0 H0) as [?|[_ (d' & Hd' & Hr)]]; [congruence|].
    assert (d' = d) as -> by congruence.
    destruct (rel_kept _ _ _ _ Hr e v0 Hs) as [Hbk|[? _]]; [|done].
    exfalso. destruct (Hsb ltac:(by eexists)) as [w Hw']. simpl in Hw'.
    apply (bak_not_plain e); [by apply plain_nonempty|]. eapply committed_key; [done|done|by exists w].
  - intros e rem v. apply clearing_step; [lia|done].
  - intros [] v (Hv & _). by apply Hup.
Qed.

(** *** Copying a collection *)

(** The destination [c] is a directory operation [i] may fill as it likes. *)
Definition filling (i : nat) (c : string) (u : fs) : Prop :=
  at_inv (S i) n u /\ is_Some (collections u !! c) /\
  (is_Some (C0 !! c) -> backed_up (collections u) c) /\
  (C0 !! c = None -> forall d, creates ops i c d).

Lemma copy_file_runs i src c k u :
  (i < n)%nat -> plain_name c -> filling i c u -> file_exists u src k = true ->
  runs (copy_file src k c) u (at_inv n n) (fun _ => filling i c) (fun _ _ => False).
Proof.
  intros Hlt Hc (Hu & [d Hd] & Hb & Hcr) Hex. apply file_exists_get in Hex as (ds & v & Hds & Hv).
  unfold copy_file. apply runs_call. unfold get_file. rewrite Hds, Hv. unfold get_dir. rewrite Hd.
  set (u' := with_dir u c _).
  assert (Hu' : at_inv (S i) n u').
  { destruct Hu as [Hi Hw]. split; [|done]. unfold u'. simpl. apply inv_put; [done|done| |].
    - intros d0 H0 Hnb. destruct (Hb ltac:(by exists d0)). congruence.
    - intros H0. exists i. split; [lia|]. by apply Hcr. }
  split; [eapply at_inv_weaken; [| |done]; lia|]. split; [done|].
  unfold u'. simpl. rewrite lookup_insert_eq. split; [by eexists|]. split; [|done].
  intros H0. unfold backed_up. rewrite lookup_insert_ne by by apply plain_ne_bak. by apply Hb.
Qed.

Lemma apply_copy_runs i src dn ex u :
  ops !! i = Some (CopyCollection src dn ex) -> at_inv i n u ->
  op_safe C0 u (CopyCollection src dn ex) ->
  runs (apply_operation order (CopyCollection src dn ex)) u (at_inv n n) (fun _ => at_inv (S i) n)
    (fun _ _ => False).
Proof.
  intros Hop Hu (Hsrc & Hne & Hun). pose proof (lookup_lt_Some _ _ _ Hop) as Hlt.
  pose proof (Forall_lookup_1 _ _ _ _ Hwf Hop) as [Hc Hex]. simpl. set (c := as_str dn) in *.
  assert (Hcr : C0 !! c = None -> forall d, creates ops i c d).
  { intros H0 d. left. exists src, dn. split; [|done].
    assert (ex = false) as <-; [|done]. rewrite Hex. apply bool_decide_eq_false_2. rewrite H0. by intros []. }
  apply runs_bind, (backup_dir_runs i); [lia|done|done|].
  intros u1 Hu1 _ Hnone Hkeep. apply runs_bind, (create_dir_runs i); [lia|done|done|auto|].
  intros u2 Hu2 _ (d & Hd & [->|?]); [|congruence].
  assert (Hfill : filling i c u2).
  { split; [done|]. rewrite Hd, lookup_insert_eq. split; [by eexists|]. split; [|done].
    intros [d0 H0]. unfold backed_up. rewrite lookup_insert_ne by by apply plain_ne_bak.
    destruct (inv_old _ _ _ _ _ (proj1 Hu1) c d0 H0) as [?|[_ (? & ? & _)]]; [by exists d0|congruence]. }
  destruct (Hkeep (as_str src) Hne Hsrc) as [ds Hds].
  unfold copy_dir_contents, read_dir. apply runs_bind, runs_bind, runs_query.
  unfold get_dir. rewrite Hd, lookup_insert_ne, Hds by done. apply runs_ret.
  eapply runs_mono; [apply (runs_for_each _ _ (fun _ => filling i c) (at_inv n n) (fun _ _ => False))
    |done| |done]; [done| |].
  - intros k rem v Hv. apply runs_bind, runs_query, runs_when; [|done].
    by apply copy_file_runs.
  - intros [] v [Hv _]. done.
Qed.

(** ** All operations *)

Lemma apply_operation_runs i op u :
  ops !! i = Some op -> at_inv i n u -> op_safe C0 u op ->
  runs (apply_operation order op) u (at_inv n n) (fun _ => at_inv (S i) n) (fun _ _ => False).
Proof.
  destruct op.
  - apply apply_write_runs.
  - apply apply_delete_runs.
  - apply apply_delete_all_runs.
  - intros. by apply apply_create_runs.
  - apply apply_delete_collection_runs.
  - apply apply_copy_runs.
Qed.

Lemma apply_operations_runs u :
  at_inv 0 n u -> ops_safe order C0 ops u ->
  runs (apply_operations order ops) u (at_inv n n) (fun _ => at_inv n n) (fun _ _ => False).
Proof.
  intros Hu Hs. unfold apply_operations.
  eapply runs_mono; [apply (runs_for_each _ _ (fun l v => exists i, (i <= n)%nat /\ l = drop i ops /\
    at_inv i n v /\ ops_safe order C0 l v) (at_inv n n) (fun _ _ => False))|done| |done].
  - exists 0%nat. split; [lia|done].
  - intros op l v (i & Hin & Hl & Hv & Hop & Hsl).
    assert (Hi : ops !! i = Some op).
    { rewrite <- (Nat.add_0_r i). rewrite <- lookup_drop, <- Hl. done. }
    eapply runs_mono; [by apply runs_state, (apply_operation_runs i)|done| |done].
    intros [] w [Hw ->]. exists (S i). split; [by eapply lookup_lt_Some|]. split; [|done].
    rewrite <- Nat.add_1_r, <- drop_drop, <- Hl. done.
  - intros [] v (i & Hin & Hl & Hv & _). apply (f_equal length) in Hl. rewrite length_drop in Hl.
    cbn [length] in Hl. by replace i with n in Hv by lia.
Qed.
End apply.
