(* ===== verification/StorageRecovery.v ===== *)
(** * Crash safety of the storage

    A crash at any step of applying a transaction, and a crash at any step of
    the recovery itself, followed by startup recovery: the committed state is
    back, except that the committed targets of the transaction's writes may be
    gone.  For transactions that write new keys only it is back exactly. *)

From S2P Require Import Prelude StorageTypes FileSystem Wal LocalStorage StorageInvariant StorageRollback StorageApply.

Section recovery.
Context (order : list string -> list string).
Hypothesis Horder : forall l, order l ≡ₚ l.
Context (crc32 : list Z -> Z).
Context (to_bytes : Operation -> option (list Z)) (from_bytes : list Z -> option Operation).
Hypothesis Hcodec : codec_ok crc32 to_bytes from_bytes.
Context (C0 : gmap string dir) (ops : list Operation) (es : list (list Z)).
Hypothesis HC0 : committed_ok C0.
Hypothesis Hwf : Forall (wf_op C0) ops.
Hypothesis Hes : entries crc32 to_bytes ops es.
Hypothesis Hmax : (len (wal_of crc32 Committing es) <= USIZE_MAX)%Z.

Abbreviation n := (length ops).
Abbreviation log := (Some (wal_of crc32 Committing es)).
Abbreviation at_inv := (at_inv C0 ops log).

(** [remove_new_artifacts] then [rollback_partial_commit]. *)
Lemma rollback_runs u :
  at_inv n n u ->
  runs (rollback_applied_operations order ops) u (at_inv n n)
    (fun _ u' => recovered C0 ops (collections u') /\ at_inv 0 0 u') (fun _ _ => False).
Proof.
  intros Hu. apply runs_bind. eapply runs_mono; [by apply remove_new_artifacts_runs|done| |done].
  intros [] v Hv. by apply rollback_partial_commit_runs.
Qed.

(** The log is gone and the committed state is back. *)
Definition settled (u : fs) : Prop := wal_file u = None /\ recovered C0 ops (collections u).

Lemma cleanup_staging_runs u P :
  (forall s, P (mk_fs (collections u) s (wal_file u))) ->
  runs (cleanup_staging_dir order) u P
    (fun _ u' => u' = mk_fs (collections u) ∅ (wal_file u)) (fun _ _ => False).
Proof.
  intros HP. apply runs_bind, runs_query.
  eapply runs_mono; [apply (runs_for_each _ _ (fun l v => NoDup l /\
    (forall p, is_Some (staging v !! p) <-> p ∈ l) /\
    v = mk_fs (collections u) (staging v) (wal_file u)) P (fun _ _ => False))|done| |done].
  - split; [by apply names_nodup|]. split; [intros p; by rewrite names_elem|by destruct u].
  - intros p l v ([Hp Hnd]%NoDup_cons & Hall & ->). simpl in Hall. unfold remove_staged. apply runs_call. simpl.
    destruct (proj2 (Hall p)) as [x Hx]; [by left|]. rewrite Hx. split; [apply HP|].
    split; [done|]. split; [|done]. simpl. intros p'. destruct (decide (p' = p)) as [->|].
    + rewrite lookup_delete_eq. split; [by intros []|done].
    + rewrite lookup_delete_ne, Hall, elem_of_cons by done. split; [by intros [?|?]|by right].
  - intros [] v (_ & Hall & ->). simpl in Hall. f_equal. apply map_empty. intros p.
    apply eq_None_not_Some. rewrite Hall. apply not_elem_of_nil.
Qed.

(** Recovery from a commit in progress. *)
Lemma recover_committing_runs u :
  at_inv n n u ->
  runs (recover order crc32 from_bytes) u (fun v => at_inv n n v \/ settled v)
    (fun _ v => settled v /\ staging v = ∅) (fun _ _ => False).
Proof.
  intros Hu. unfold recover. apply runs_bind, runs_query.
  rewrite (proj2 Hu), (open_wal_of crc32 to_bytes from_bytes) by done.
  apply runs_bind, runs_bind. split; [done|].
  unfold wal_of. rewrite (read_wal_whole crc32 to_bytes from_bytes _ ops) by (done || apply encode_header_len).
  simpl truncated. cbn iota. change (operations {| operations := ops; truncated := false |}) with ops.
  eapply runs_mono; [by apply rollback_runs| | |done]; [by left|].
  intros [] v [Hrec [_ Hw]]. apply runs_bind, runs_bind, runs_query, runs_when.
  2:{ rewrite Hw. intros Hf%bool_decide_eq_false. destruct Hf. by eexists. }
  intros _. apply runs_call. rewrite Hw. split; [by right|].
  eapply runs_mono; [apply (cleanup_staging_runs _ settled)| | |done].
  - done.
  - by right.
  - intros [] w ->. done.
Qed.

Lemma existsb_false {A} (f : A -> bool) l : (forall x, x ∈ l -> f x = false) -> existsb f l = false.
Proof.
  induction l as [|x l IH]; intros Hf; simpl; [done|].
  rewrite Hf by by left. apply IH. intros y Hy. apply Hf. by right.
Qed.

Lemma recovered_plain C c d :
  recovered C0 ops C -> C !! c = Some d -> plain_name c /\ forall k, is_Some (d !! k) -> plain_name k.
Proof.
  intros [Hd Hk] Hc. destruct (proj1 (Hd c)) as [d0 H0]; [by exists d|].
  split; [by eapply committed_plain|]. intros k [v Hv].
  destruct (Hk c d d0 k Hc H0) as [E|[E _]]; [|congruence].
  eapply committed_key; [done|done|]. exists v. congruence.
Qed.

Lemma recovered_no_backups u : recovered C0 ops (collections u) -> has_backup_files u = false.
Proof.
  intros Hr. unfold has_backup_files. apply existsb_false. intros [c d] Hc%elem_of_map_to_list.
  destruct (recovered_plain _ _ _ Hr Hc) as [Hp Hk]. unfold is_bak.
  rewrite plain_not_bak by done. simpl. apply existsb_false. intros [k v] Hkv%elem_of_map_to_list.
  apply plain_not_bak, Hk. by exists v.
Qed.

(** Recovery once the log is gone. *)
Lemma recover_settled_runs u :
  settled u ->
  runs (recover order crc32 from_bytes) u settled
    (fun _ v => settled v /\ staging v = ∅ /\ collections v = collections u) (fun _ _ => False).
Proof.
  intros Hu. pose proof Hu as [Hw Hr]. unfold recover. apply runs_bind, runs_query. rewrite Hw.
  apply runs_bind, runs_bind, runs_query. rewrite recovered_no_backups by done.
  apply runs_ret, runs_bind, runs_bind, runs_query. rewrite Hw. apply runs_ret.
  eapply runs_mono; [apply (cleanup_staging_runs _ settled)| | |done].
  - intros s. split; [done|]. done.
  - done.
  - intros [] w ->. done.
Qed.
End recovery.

(** ** Crash safety *)

(** The disk while a transaction of [ops] is being committed: its log is
    durable, its operations are about to be applied to [C0]. *)
Definition committing (crc32 : list Z -> Z) (to_bytes : Operation -> option (list Z))
    (C0 : gmap string dir) (ops : list Operation) (s : fs) : Prop :=
  collections s = C0 /\
  exists es, entries crc32 to_bytes ops es /\
    wal_file s = Some (wal_of crc32 Committing es) /\
    (len (wal_of crc32 Committing es) <= USIZE_MAX)%Z.

Section crash.
Context (order : list string -> list string) (crc32 : list Z -> Z).
Context (to_bytes : Operation -> option (list Z)) (from_bytes : list Z -> option Operation).
Context (C0 : gmap string dir) (ops : list Operation) (s : fs).
Hypothesis Horder : forall l, order l ≡ₚ l.
Hypothesis Hcodec : codec_ok crc32 to_bytes from_bytes.
Hypothesis HC0 : committed_ok C0.
Hypothesis Hwf : Forall (wf_op C0) ops.
Hypothesis Hs : committing crc32 to_bytes C0 ops s.
Hypothesis Hsafe : ops_safe order C0 ops s.

Lemma committing_at_inv r q :
  exists es, entries crc32 to_bytes ops es /\ (len (wal_of crc32 Committing es) <= USIZE_MAX)%Z /\
    at_inv C0 ops (Some (wal_of crc32 Committing es)) r q s.
Proof.
  destruct Hs as (HC & es & He & Hw & Hm). exists es. do 2 (split; [done|]). split; [|done].
  rewrite HC. by apply inv_init.
Qed.

Lemma crash_then_recover u :
  u ∈ crash_states (apply_operations order ops) s ->
  runs (recover order crc32 from_bytes) u
    (fun v => runs (recover order crc32 from_bytes) v (fun _ => True)
                (fun _ w => settled C0 ops w /\ staging w = ∅) (fun _ _ => False))
    (fun _ w => settled C0 ops w /\ staging w = ∅) (fun _ _ => False).
Proof.
  intros Hu. destruct (committing_at_inv 0 (length ops)) as (es & He & Hm & Hinv).
  pose proof (apply_operations_runs order Horder C0 ops HC0 Hwf _ s Hinv Hsafe) as Hruns.
  assert (Hstart : at_inv C0 ops (Some (wal_of crc32 Committing es)) (length ops) (length ops) s)
    by (eapply at_inv_weaken; [| |done]; lia).
  pose proof (runs_crash _ _ _ _ _ _ Hruns Hstart Hu) as Hui.
  eapply runs_mono; [by eapply (recover_committing_runs order Horder crc32 to_bytes)| |done|done].
  intros v [Hv|Hv].
  - eapply runs_mono; [by eapply (recover_committing_runs order Horder crc32 to_bytes)|done|done|done].
  - eapply runs_mono; [by eapply (recover_settled_runs order Horder crc32)|done| |done].
    intros [] w (? & ? & _). done.
Qed.
End crash.

(** C3: crash safety.  A commit whose operations do not overwrite each other's
    backups runs to its end; a crash of the process after any of its steps is
    repaired by startup recovery: recovery succeeds, removes the log and the
    staged files, and restores every collection and every file of the committed
    state except that a committed file the transaction was going to write may
    be missing; no file is created or changed.  A second crash during recovery
    is repaired by the next recovery in the same sense. *)
Theorem crash_safety order crc32 to_bytes from_bytes C0 ops s :
  (forall l, order l ≡ₚ l) -> codec_ok crc32 to_bytes from_bytes ->
  committed_ok C0 -> Forall (wf_op C0) ops ->
  committing crc32 to_bytes C0 ops s -> ops_safe order C0 ops s ->
  run_result (apply_operations order ops) s = Ok () /\
  forall u, u ∈ crash_states (apply_operations order ops) s ->
  forall v, v ∈ crash_states (recover order crc32 from_bytes) u ->
    let w := run_state (recover order crc32 from_bytes) v in
    run_result (recover order crc32 from_bytes) v = Ok () /\
    wal_file w = None /\ staging w = ∅ /\ recovered C0 ops (collections w).
Proof.
  intros Horder Hcodec HC0 Hwf Hs Hsafe. split.
  - destruct (committing_at_inv _ _ _ _ _ HC0 Hs 0 (length ops)) as (es & He & Hm & Hinv).
    destruct (runs_ok _ _ _ _ (apply_operations_runs order Horder C0 ops HC0 Hwf _ s Hinv Hsafe))
      as ([] & -> & _). done.
  - intros u Hu v Hv w.
    pose proof (crash_then_recover order crc32 to_bytes from_bytes C0 ops s Horder Hcodec HC0 Hwf Hs Hsafe u Hu)
      as Hruns.
    pose (P x := runs (recover order crc32 from_bytes) x (fun _ => True)
      (fun _ w => settled C0 ops w /\ staging w = ∅) (fun _ _ => False)).
    assert (Hrec : P v).
    { refine (runs_crash _ u P _ _ v Hruns _ Hv). eapply runs_mono; [exact Hruns|done|done|done]. }
    destruct (runs_ok _ _ _ _ Hrec) as ([] & Hr & [Hw Hc] & Hst). done.
Qed.

(** With no committed target among the writes nothing can be missing. *)
Lemma recovered_exact C0 ops C :
  (forall c k, writes ops c k -> (C0 !! c ≫= (.!! k)) = None) -> recovered C0 ops C -> C = C0.
Proof.
  intros Hnew [Hd Hk]. apply map_eq. intros c. destruct (C !! c) as [d|] eqn:E, (C0 !! c) as [d0|] eqn:E0.
  - f_equal. apply map_eq. intros k. destruct (Hk c d d0 k E E0) as [?|[Hn Hw]]; [done|].
    specialize (Hnew c k Hw). rewrite E0 in Hnew. simpl in Hnew. congruence.
  - destruct (proj1 (Hd c)) as [? ?]; [by eexists|congruence].
  - destruct (proj2 (Hd c)) as [? ?]; [by eexists|congruence].
  - done.
Qed.

(** a transaction whose writes go to keys that are not in the committed
    state is atomic under crashes: whenever the process dies while its
    operations are applied, and however often recovery itself is interrupted
    once, the collections come back exactly as they were. *)
Theorem crash_atomicity_new_keys order crc32 to_bytes from_bytes C0 ops s :
  (forall l, order l ≡ₚ l) -> codec_ok crc32 to_bytes from_bytes ->
  committed_ok C0 -> Forall (wf_op C0) ops ->
  committing crc32 to_bytes C0 ops s -> ops_safe order C0 ops s ->
  (forall c k, writes ops c k -> (C0 !! c ≫= (.!! k)) = None) ->
  forall u, u ∈ crash_states (apply_operations order ops) s ->
  forall v, v ∈ crash_states (recover order crc32 from_bytes) u ->
    run_state (recover order crc32 from_bytes) v = mk_fs C0 ∅ None.
Proof.
  intros Horder Hcodec HC0 Hwf Hs Hsafe Hnew u Hu v Hv.
  pose proof (crash_then_recover order crc32 to_bytes from_bytes C0 ops s Horder Hcodec HC0 Hwf Hs Hsafe u Hu)
    as Hruns.
  pose (P x := runs (recover order crc32 from_bytes) x (fun _ => True)
    (fun _ w => settled C0 ops w /\ staging w = ∅) (fun _ _ => False)).
  assert (Hrec : P v).
  { refine (runs_crash _ u P _ _ v Hruns _ Hv). eapply runs_mono; [exact Hruns|done|done|done]. }
  destruct (runs_ok _ _ _ _ Hrec) as ([] & _ & [Hw Hc] & Hst).
  destruct (run_state _ v) as [C st w]. simpl in *. subst. f_equal. by eapply recovered_exact.
Qed.

(** ** A concrete transaction *)

Section example.
Local Open Scope Z_scope.

(** A collection with the file [a], and a write to the key [k]. *)
Definition ex_C0 : gmap string dir := {[ "db" := {[ "a" := [1] ]} ]}.
Definition ex_op (k : string) : Operation := Write (Custom "db") k "s".
Definition ex_crc (l : list Z) : Z := 7.
Definition ex_to_bytes (k : string) (op : Operation) : option (list Z) :=
  if decide (op = ex_op k) then Some [1] else None.
Definition ex_from_bytes (k : string) (l : list Z) : option Operation :=
  if decide (l = [1]) then Some (ex_op k) else None.
Definition ex_entry (k : string) : list Z :=
  to_le_bytes 7 ++ to_le_bytes 1 ++ [1].
Definition ex_disk (k : string) : fs :=
  mk_fs ex_C0 {[ "s" := [2] ]} (Some (wal_of ex_crc Committing [ex_entry k])).

Lemma ex_codec k : codec_ok ex_crc (ex_to_bytes k) (ex_from_bytes k).
Proof.
  split.
  - intros l. unfold ex_crc, U32_MAX. lia.
  - unfold ex_to_bytes. intros op l. case_decide; [|done]. intros [= <-]. repeat constructor; unfold Bytes.is_u8; lia.
  - unfold ex_to_bytes. intros op l. case_decide; [|done]. by intros [= <-].
  - unfold ex_to_bytes, ex_from_bytes. intros op l. case_decide as E; [|done]. intros [= <-]. by rewrite E.
Qed.

Lemma ex_committed : committed_ok ex_C0.
Proof.
  unfold committed_ok, ex_C0. intros c d [<- <-]%lookup_singleton_Some. split; [by split|].
  intros k v [<- <-]%lookup_singleton_Some. by split.
Qed.

Lemma ex_committing k : committing ex_crc (ex_to_bytes k) ex_C0 [ex_op k] (ex_disk k).
Proof.
  split; [done|]. exists [ex_entry k]. split; [|split; [done|vm_compute; discriminate]].
  constructor; [|constructor]. unfold encode_entry, ex_to_bytes. by rewrite decide_True.
Qed.

Lemma ex_wf k : plain_name k -> Forall (wf_op ex_C0) [ex_op k].
Proof. intros Hk. constructor; [|constructor]. split; [by split|done]. Qed.

Lemma crash_safety_witness :
  run_result (apply_operations id [ex_op "b"]) (ex_disk "b") = Ok () /\
  recovered ex_C0 [ex_op "b"]
    (collections (run_state (recover id ex_crc (ex_from_bytes "b"))
                   (run_state (apply_operations id [ex_op "b"]) (ex_disk "b")))).
Proof.
  assert (Hs : ops_safe id ex_C0 [ex_op "b"] (ex_disk "b")).
  { split; [|exact I]. split; [by exists [2]|]. vm_compute. by intros [? ?]. }
  destruct (crash_safety id ex_crc (ex_to_bytes "b") (ex_from_bytes "b") ex_C0 [ex_op "b"] (ex_disk "b"))
    as [Hok Hall]; [intros l; reflexivity|apply ex_codec|apply ex_committed|by apply ex_wf
    |apply ex_committing|exact Hs|].
  split; [exact Hok|].
  refine (proj2 (proj2 (proj2 (Hall _ _ _ _)))).
  - do 2 right. left.
  - apply crash_states_start.
Defined.

Lemma crash_atomicity_new_keys_witness :
  run_state (recover id ex_crc (ex_from_bytes "b"))
    (run_state (apply_operations id [ex_op "b"]) (ex_disk "b")) = mk_fs ex_C0 ∅ None.
Proof.
  apply (crash_atomicity_new_keys id ex_crc (ex_to_bytes "b") (ex_from_bytes "b") ex_C0 [ex_op "b"] (ex_disk "b"))
    with (u := run_state (apply_operations id [ex_op "b"]) (ex_disk "b"));
    [intros l; reflexivity|apply ex_codec|apply ex_committed|by apply ex_wf|apply ex_committing
    |split; [split; [by exists [2]|vm_compute; by intros [? ?]]|exact I]| |do 2 right; left|apply crash_states_start].
  intros c k ([|j] & cn & p & Hj & <-); [|done]. injection Hj as <- <- _. reflexivity.
Defined.

Lemma ex_entries k : entries ex_crc (ex_to_bytes k) [ex_op k] [ex_entry k].
Proof. constructor; [|constructor]. unfold encode_entry, ex_to_bytes. by rewrite decide_True. Qed.

Lemma wal_prefix_read_witness :
  read_wal ex_crc (ex_from_bytes "b") (encode_header ex_crc 1 ++ take 3 (concat [ex_entry "b"]))
  = Ok {| operations := []; truncated := true |}.
Proof.
  rewrite (wal_prefix_read ex_crc (ex_to_bytes "b") (ex_from_bytes "b") (encode_header ex_crc 1)
    [ex_op "b"] [ex_entry "b"] 3); [reflexivity|apply ex_codec|apply ex_entries|reflexivity
    |vm_compute; lia|vm_compute; discriminate].
Defined.

Lemma wal_lifecycle_witness :
  run_state (record_and_mark ex_crc (ex_to_bytes "b") [ex_op "b"]) (mk_fs ex_C0 ∅ (Some [1; 2; 3]))
  = mk_fs ex_C0 ∅ (Some (wal_of ex_crc Committing [ex_entry "b"])).
Proof.
  apply (wal_lifecycle ex_crc (ex_to_bytes "b") (ex_from_bytes "b") [ex_op "b"] [ex_entry "b"]
    (mk_fs ex_C0 ∅ (Some [1; 2; 3]))); [apply ex_codec|apply ex_entries].
Defined.

(** ** Where recovery loses data *)

(** A crash between marking the log and applying the overwrite of [a]: recovery
    takes the committed file for a new one and deletes it. *)
Example crash_before_overwrite_loses_file :
  collections (run_state (recover id ex_crc (ex_from_bytes "a")) (ex_disk "a")) = {[ "db" := ∅ ]} /\
  run_result (recover id ex_crc (ex_from_bytes "a")) (ex_disk "a") = Ok ().
Proof. vm_compute. split; reflexivity. Qed.

(** The overwrite was applied and its backup has been restored; a second crash
    before the log is removed makes the next recovery delete the file. *)
Example interrupted_recovery_loses_file :
  let applied := run_state (apply_operations id [ex_op "a"]) (ex_disk "a") in
  collections (run_state (recover id ex_crc (ex_from_bytes "a")) applied) = ex_C0 /\
  exists u, u ∈ crash_states (recover id ex_crc (ex_from_bytes "a")) applied /\
    collections u = ex_C0 /\
    collections (run_state (recover id ex_crc (ex_from_bytes "a")) u) = {[ "db" := ∅ ]}.
Proof.
  split; [vm_compute; reflexivity|].
  exists (nth 2 (crash_states (recover id ex_crc (ex_from_bytes "a"))
    (run_state (apply_operations id [ex_op "a"]) (ex_disk "a"))) (ex_disk "a")).
  split; [vm_compute; do 2 right; left|]. vm_compute. split; reflexivity.
Qed.

(** Two writes to one key in a transaction: the second overwrites the backup of
    the first, so undoing restores the first write instead of the committed
    file. *)
Example double_write_restores_the_wrong_file :
  let ops := [Write (Custom "db") "a" "s"; Write (Custom "db") "a" "t"] in
  let disk := mk_fs ex_C0 {[ "s" := [2]; "t" := [3] ]} None in
  let applied := run_state (apply_operations id ops) disk in
  collections (run_state (rollback_applied_operations id ops) applied)
  = {[ "db" := {[ "a" := [2] ]} ]}.
Proof. vm_compute. reflexivity. Qed.
End example.
