(* ===== verification/StorageCommit.v ===== *)
(** * What a commit does

    The abstract state of the storage is a map of collections to maps of keys;
    a transaction acts on it one operation at a time.  A commit that returns
    [Ok] takes the collections directory exactly to the abstract result: the
    backup names it used on the way are gone. *)

From S2P Require Import Prelude StorageTypes FileSystem Wal LocalStorage StorageInvariant StorageRollback StorageApply StorageRecovery.

(** ** The abstract specification *)

(** The collections, and the staged contents not yet moved into them. *)
Definition spec_state : Type := gmap string dir * gmap string file.

Definition spec_step (st : spec_state) (op : Operation) : spec_state :=
  let '(A, St) := st in
  match op with
  | Write cn k p =>
      match St !! p with
      | Some v => (<[as_str cn := <[k := v]> (default ∅ (A !! as_str cn))]> A, delete p St)
      | None => st
      end
  | Delete cn k => (alter (delete k) (as_str cn) A, St)
  | DeleteAll cn => (alter (fun _ => ∅) (as_str cn) A, St)
  | CreateCollection cn =>
      (match A !! as_str cn with Some _ => A | None => <[as_str cn := ∅]> A end, St)
  | DeleteCollection cn => (delete (as_str cn) A, St)
  | CopyCollection src dn _ =>
      (match A !! as_str src with Some a => <[as_str dn := a]> A | None => A end, St)
  end.

Definition spec_run (ops : list Operation) (st : spec_state) : spec_state := foldl spec_step st ops.

(** Plain names; a copy has two different ends. *)
Definition names_ok (op : Operation) : Prop :=
  match op with
  | Write c k _ | Delete c k => plain_name (as_str c) /\ plain_name k
  | DeleteAll c | CreateCollection c | DeleteCollection c => plain_name (as_str c)
  | CopyCollection src dn _ =>
      plain_name (as_str src) /\ plain_name (as_str dn) /\ as_str src <> as_str dn
  end.

(** A name the storage reads, or a backup name. *)
Definition stored_name (x : string) : Prop := plain_name x \/ is_bak x = true.
Definition stored_dir (d : dir) : Prop := map_Forall (fun k _ => stored_name k) d.
(** The same files under plain names. *)
Definition same_files (d a : dir) : Prop := forall k, plain_name k -> d !! k = a !! k.

(** The collections directory [C] shows the abstract collections [A]. *)
Record shows (C A : gmap string dir) : Prop := {
  shows_names : map_Forall (fun c d => stored_name c /\ stored_dir d) C;
  shows_ok : committed_ok A;
  shows_some : forall c a, A !! c = Some a -> exists d, C !! c = Some d /\ same_files d a;
  shows_none : forall c, plain_name c -> A !! c = None -> C !! c = None }.

Lemma stored_nonempty x : stored_name x -> x <> "".
Proof. intros [[? _]|H]; [done|]. by intros ->. Qed.

Lemma stored_bak x : x <> "" -> stored_name (bak x).
Proof. intros. right. by apply has_extension_bak. Qed.

Lemma is_bak_not_plain x : is_bak x = true -> ~ plain_name x.
Proof. intros Hb Hp%plain_not_bak. unfold is_bak in Hb. congruence. Qed.

Lemma shows_dir C A c d : shows C A -> C !! c = Some d -> stored_dir d.
Proof. intros [Hn _ _ _] Hd. by apply (Hn c d). Qed.

Lemma shows_at C A c d : shows C A -> plain_name c -> C !! c = Some d ->
  exists a, A !! c = Some a /\ same_files d a.
Proof.
  intros [_ _ Hs Hn] Hp Hd. destruct (A !! c) as [a|] eqn:Ea.
  - destruct (Hs c a Ea) as (d' & Hd' & Hsame). exists a.
    by assert (d' = d) as -> by congruence.
  - rewrite Hn in Hd by done. done.
Qed.

(** Replacing a shown directory. *)
Lemma shows_set C A c d a :
  shows C A -> plain_name c -> stored_dir d -> map_Forall (fun k _ => plain_name k) a ->
  same_files d a -> shows (<[c := d]> C) (<[c := a]> A).
Proof.
  intros [Hn Hok Hs Hnone] Hc Hd Ha Hsame. split.
  - apply map_Forall_insert_2; [|done]. split; [by left|done].
  - apply map_Forall_insert_2; [|done]. by split.
  - intros c' a'. destruct (decide (c' = c)) as [->|].
    + rewrite !lookup_insert_eq. intros [= <-]. by exists d.
    + rewrite !lookup_insert_ne by done. apply Hs.
  - intros c' Hp. destruct (decide (c' = c)) as [->|]; [by rewrite !lookup_insert_eq|].
    rewrite !lookup_insert_ne by done. by apply Hnone.
Qed.

Lemma shows_delete C A c : shows C A -> shows (delete c C) (delete c A).
Proof.
  intros [Hn Hok Hs Hnone]. split.
  - by apply map_Forall_delete.
  - by apply map_Forall_delete.
  - intros c' a'. destruct (decide (c' = c)) as [->|]; [by rewrite lookup_delete_eq|].
    rewrite !lookup_delete_ne by done. apply Hs.
  - intros c' Hp. destruct (decide (c' = c)) as [->|]; [by rewrite !lookup_delete_eq|].
    rewrite !lookup_delete_ne by done. by apply Hnone.
Qed.

(** A directory under a backup name is not shown. *)
Lemma shows_hidden C A x d :
  shows C A -> is_bak x = true -> stored_dir d -> shows (<[x := d]> C) A.
Proof.
  intros [Hn Hok Hs Hnone] Hx Hd. split; [|done| |].
  - apply map_Forall_insert_2; [|done]. split; [by right|done].
  - intros c a Ha. destruct (Hok c a Ha) as [Hp _].
    rewrite lookup_insert_ne; [by apply Hs|]. intros ->. by apply (is_bak_not_plain c).
  - intros c Hp Ha. rewrite lookup_insert_ne; [by apply Hnone|]. intros ->. by apply (is_bak_not_plain c).
Qed.

Lemma shows_delete_hidden C A x : shows C A -> is_bak x = true -> shows (delete x C) A.
Proof.
  intros [Hn Hok Hs Hnone] Hx. split; [by apply map_Forall_delete|done| |].
  - intros c a Ha. destruct (Hok c a Ha) as [Hp _].
    rewrite lookup_delete_ne; [by apply Hs|]. intros ->. by apply (is_bak_not_plain c).
  - intros c Hp Ha. rewrite lookup_delete_ne; [by apply Hnone|]. intros ->. by apply (is_bak_not_plain c).
Qed.

Lemma shows_init C0 : committed_ok C0 -> shows C0 C0.
Proof.
  intros HC. split; [|done| |done].
  - intros c d Hd. destruct (HC c d Hd) as [Hp Hk]. split; [by left|].
    intros k v Hkv. left. by apply (Hk k v).
  - intros c a Ha. by exists a.
Qed.

(** Moving a file to its backup name hides it. *)
Lemma same_backup d a k v :
  same_files d a -> k <> "" -> same_files (<[bak k := v]> (delete k d)) (delete k a).
Proof.
  intros Hs Hk k' Hp. rewrite lookup_insert_ne by by apply not_eq_sym, plain_neq_bak.
  destruct (decide (k' = k)) as [->|]; [by rewrite !lookup_delete_eq|].
  rewrite !lookup_delete_ne by done. by apply Hs.
Qed.

Lemma stored_backup d k v : stored_dir d -> k <> "" -> stored_dir (<[bak k := v]> (delete k d)).
Proof.
  intros Hd Hk. apply map_Forall_insert_2; [by apply stored_bak|]. by apply map_Forall_delete.
Qed.

(** ** Applying operations *)

Section commit.
Context (order : list string -> list string).
Hypothesis Horder : forall l, order l ≡ₚ l.
Context (crc32 : list Z -> Z).

Abbreviation any := (fun _ : fs => True).
Abbreviation any_err := (fun (_ : StorageError) (_ : fs) => True).

(** [u] shows [st], with the log as in [s]. *)
Definition stands_for (w : option (list Z)) (st : spec_state) (u : fs) : Prop :=
  shows (collections u) st.1 /\ staging u = st.2 /\ wal_file u = w.

Lemma backup_file_shows w A St c k u :
  plain_name c -> stored_name k -> stands_for w (A, St) u ->
  runs (backup_file c k) u any (fun _ => stands_for w (alter (delete k) c A, St)) any_err.
Proof.
  intros Hc Hk (Hs & Hst & Hw). simpl in Hs. apply runs_bind, runs_query, runs_when.
  - intros (d & v & Hd & Hv)%file_exists_get. eapply runs_rename_file; [done|done|].
    split; [done|]. split; [|done]. simpl.
    destruct (shows_at _ _ _ _ Hs Hc Hd) as (a & Ha & Hsame).
    replace (alter (delete k) c A) with (<[c := delete k a]> A)
      by (apply map_eq; intros c'; destruct (decide (c' = c)) as [->|];
          [by rewrite lookup_insert_eq, lookup_alter_eq, Ha|
           by rewrite lookup_insert_ne, lookup_alter_ne]).
    apply shows_set; [done|done| | |].
    + apply stored_backup; [by eapply shows_dir|by apply stored_nonempty].
    + apply map_Forall_delete. exact (proj2 (shows_ok _ _ Hs c a Ha)).
    + apply same_backup; [done|by apply stored_nonempty].
  - intros Hf. rewrite file_exists_false in Hf. split; [|done]. simpl.
    replace (alter (delete k) c A) with A; [done|]. apply map_eq. intros c'.
    destruct (decide (c' = c)) as [->|]; [|by rewrite lookup_alter_ne].
    rewrite lookup_alter_eq. destruct (A !! c) as [a|] eqn:Ea; [|done]. simpl. f_equal.
    destruct (shows_some _ _ Hs c a Ea) as (d & Hd & Hsame).
    symmetry. apply delete_id. destruct (a !! k) as [v|] eqn:Ek; [exfalso|done].
    pose proof (proj2 (shows_ok _ _ Hs c a Ea) k v Ek) as Hp.
    specialize (Hf d Hd). rewrite Hsame in Hf by done. congruence.
Qed.

Lemma create_dir_shows w A St c u :
  plain_name c -> stands_for w (A, St) u ->
  runs (create_dir_all c) u any
    (fun _ => stands_for w (match A !! c with Some _ => A | None => <[c := ∅]> A end, St)) any_err.
Proof.
  intros Hc (Hs & Hst & Hw). simpl in Hs. apply runs_call. unfold get_dir.
  destruct (collections u !! c) as [d|] eqn:Hd; split; try done; split; try done; simpl.
  - by destruct (shows_at _ _ _ _ Hs Hc Hd) as (a & -> & _).
  - destruct (A !! c) as [a|] eqn:Ea.
    + destruct (shows_some _ _ Hs c a Ea) as (d & ? & _). congruence.
    + by apply shows_set.
Qed.

Lemma backup_dir_shows w A St c u :
  plain_name c -> stands_for w (A, St) u ->
  runs (backup_dir c) u any (fun _ => stands_for w (delete c A, St)) any_err.
Proof.
  intros Hc (Hs & Hst & Hw). simpl in Hs. apply runs_bind, runs_query, runs_when.
  - intros [d Hd]%dir_exists_get.
    assert (Hres : stands_for w (delete c A, St)
      (with_collections u (<[bak c := d]> (delete c (collections u))))).
    { split; [|done]. simpl. apply shows_hidden; [by apply shows_delete|by apply has_extension_bak; destruct Hc|].
      by eapply shows_dir. }
    unfold rename_dir. apply runs_call. rewrite Hd.
    destruct (get_dir u (bak c)) as [d'|]; [|done]. by destruct (bool_decide _).
  - intros Hf%dir_exists_false. split; [|done]. simpl. rewrite delete_id; [done|].
    destruct (A !! c) as [a|] eqn:Ea; [|done]. destruct (shows_some _ _ Hs c a Ea) as (d & ? & _).
    unfold get_dir in Hf. congruence.
Qed.

Lemma write_shows w A St cn k p u :
  names_ok (Write cn k p) -> stands_for w (A, St) u ->
  runs (apply_operation order (Write cn k p)) u any
    (fun _ => stands_for w (spec_step (A, St) (Write cn k p))) any_err.
Proof.
  intros [Hc Hk] Hu. unfold apply_operation, spec_step. cbv zeta. revert Hc.
  generalize (as_str cn) as c. intros c Hc. apply runs_bind.
  eapply runs_mono; [by apply (create_dir_shows w A St)|done| |done]. intros [] u1 Hu1.
  apply runs_bind. set (A1 := match A !! c with Some _ => A | None => <[c := ∅]> A end) in *.
  eapply runs_mono; [by apply (backup_file_shows w A1 St); [|left|]|done| |done].
  intros [] u2 (Hs & Hst & Hw). cbn [fst snd] in Hs, Hst. apply runs_call. rewrite Hst. simpl.
  destruct (St !! p) as [v|]; [|done]. destruct (get_dir u2 c) as [d|] eqn:Hd; [|done].
  split; [done|]. split; [|done]. simpl.
  destruct (shows_at _ _ _ _ Hs Hc Hd) as (a & Ha & Hsame).
  assert (Ha1 : A1 !! c = Some (default ∅ (A !! c))).
  { unfold A1. destruct (A !! c) as [b|] eqn:Eb; [by rewrite Eb|by rewrite lookup_insert_eq]. }
  rewrite lookup_alter_eq, Ha1 in Ha. injection Ha as <-.
  set (b := default ∅ (A !! c)) in *.
  replace (<[c := <[k := v]> b]> A) with (<[c := <[k := v]> b]> (alter (delete k) c A1)).
  - apply shows_set; [done|done| | |].
    + apply map_Forall_insert_2; [by left|by eapply shows_dir].
    + apply map_Forall_insert_2; [done|]. unfold b.
      destruct (A !! c) as [a|] eqn:Ea; [|done]. simpl. exact (proj2 (shows_ok _ _ (proj1 Hu) c a Ea)).
    + intros k' Hp. destruct (decide (k' = k)) as [->|]; [by rewrite !lookup_insert_eq|].
      rewrite !lookup_insert_ne, Hsame by done. by rewrite lookup_delete_ne.
  - apply map_eq. intros c'. destruct (decide (c' = c)) as [->|]; [by rewrite !lookup_insert_eq|].
    rewrite !lookup_insert_ne, lookup_alter_ne by done. unfold A1.
    destruct (A !! c); [done|]. by rewrite lookup_insert_ne.
Qed.

(** The files [rem] of directory [c] are still to be hidden. *)
Lemma delete_all_shows w A St cn u :
  names_ok (DeleteAll cn) -> stands_for w (A, St) u ->
  runs (apply_operation order (DeleteAll cn)) u any
    (fun _ => stands_for w (spec_step (A, St) (DeleteAll cn))) any_err.
Proof.
  intros Hc Hu. unfold apply_operation, spec_step. cbv zeta. revert Hc. unfold names_ok.
  generalize (as_str cn) as c. intros c Hc. apply runs_bind, runs_query, runs_when.
  - intros [d Hd]%dir_exists_get.
    apply runs_bind, runs_bind, runs_query. rewrite Hd. apply runs_ret.
    destruct (shows_at _ _ _ _ (proj1 Hu) Hc Hd) as (a0 & Ha0 & Hsame0). simpl in Ha0.
    eapply runs_mono; [apply (runs_for_each _ _ (fun rem v => Forall stored_name rem /\
      exists a, stands_for w (<[c := a]> A, St) v /\ forall k, is_Some (a !! k) -> k ∈ rem) any any_err)
      |done| |done].
    + split.
      * apply Forall_forall. intros x Hx. rewrite names_elem in Hx by done. destruct Hx as [v Hx].
        by apply (shows_dir _ _ _ _ (proj1 Hu) Hd x v).
      * exists a0. rewrite insert_id by done. split; [done|]. intros k [v Hk]. apply names_elem; [done|].
        exists v. rewrite Hsame0; [done|]. exact (proj2 (shows_ok _ _ (proj1 Hu) c a0 Ha0) k v Hk).
    + intros e rem v ([He Hrem]%Forall_cons & a & Hv & Hall).
      eapply runs_mono; [by apply (backup_file_shows w (<[c := a]> A) St)|done| |done].
      intros [] v' Hv'. split; [done|]. exists (delete e a).
      assert (E : alter (delete e) c (<[c := a]> A) = <[c := delete e a]> A).
      { apply map_eq. intros c'. destruct (decide (c' = c)) as [->|].
        - by rewrite lookup_alter_eq, !lookup_insert_eq.
        - by rewrite lookup_alter_ne, !lookup_insert_ne. }
      rewrite E in Hv'. split; [done|]. intros k Hk. destruct (decide (k = e)) as [->|].
      { rewrite lookup_delete_eq in Hk. by destruct Hk. }
      rewrite lookup_delete_ne in Hk by done. by apply Hall, elem_of_cons in Hk as [?|?].
    + intros [] v (_ & a & Hv & Hall).
      assert (a = ∅) as ->.
      { apply map_empty. intros k. apply eq_None_not_Some. intros Hk%Hall. by apply elem_of_nil in Hk. }
      replace (alter (fun _ => ∅) c A) with (<[c := ∅]> A); [done|]. apply map_eq. intros c'.
      destruct (decide (c' = c)) as [->|]; [by rewrite lookup_insert_eq, lookup_alter_eq, Ha0|].
      by rewrite lookup_insert_ne, lookup_alter_ne.
  - intros Hf%dir_exists_false.
    replace (alter (fun _ => ∅) c A) with A; [done|]. apply map_eq. intros c'.
    destruct (decide (c' = c)) as [->|]; [|by rewrite lookup_alter_ne].
    rewrite lookup_alter_eq. destruct (A !! c) as [a|] eqn:Ea; [|done].
    destruct (shows_some _ _ (proj1 Hu) c a Ea) as (d & ? & _). unfold get_dir in Hf. congruence.
Qed.


(** Two directories of plain names with the same files are equal. *)
Lemma same_files_eq (a b : dir) :
  map_Forall (fun k _ => plain_name k) a -> map_Forall (fun k _ => plain_name k) b ->
  same_files a b -> a = b.
Proof.
  intros Ha Hb Hs. apply map_eq. intros k. destruct (a !! k) as [v|] eqn:Ea.
  - rewrite <- Hs; [done|]. exact (Ha k v Ea).
  - destruct (b !! k) as [v|] eqn:Eb; [|done].
    rewrite <- Hs in Eb; [congruence|]. exact (Hb k v Eb).
Qed.

(** While a copy of [ds] into [c] is under way, the files [rem] are to come. *)
Definition copying w A St (s c : string) (ds : dir) (rem : list string) (v : fs) : Prop :=
  (forall e, e ∈ rem -> is_Some (ds !! e)) /\
  exists d b, stands_for w (<[c := b]> A, St) v /\ get_dir v s = Some ds /\ get_dir v c = Some d /\
    forall k, plain_name k -> k ∉ rem -> d !! k = ds !! k.

Lemma copying_step w A St s c ds e rem v :
  plain_name c -> s <> c -> stored_dir ds -> copying w A St s c ds (e :: rem) v ->
  runs (ex ← query (fun v => file_exists v s e); when ex (copy_file s e c)) v any
    (fun _ => copying w A St s c ds rem) any_err.
Proof.
  intros Hc Hne Hds (Hrem & d & b & Hv & Hs & Hd & Hk). destruct (Hrem e) as [x Hx]; [by left|].
  apply runs_bind, runs_query, runs_when.
  2:{ intros Hf. rewrite file_exists_false in Hf. specialize (Hf ds Hs). congruence. }
  intros _. apply runs_call. unfold get_file. rewrite Hs, Hx, Hd. split; [done|].
  split; [intros e' He'; apply Hrem; by right|]. destruct Hv as (Hsh & Hst & Hw).
  cbn [fst snd] in Hsh, Hst. destruct (shows_at _ _ _ _ Hsh Hc Hd) as (b' & Hb & Hsame).
  rewrite lookup_insert_eq in Hb. injection Hb as <-.
  pose proof (proj2 (shows_ok _ _ Hsh c b ltac:(apply lookup_insert_eq))) as Hpb.
  exists (<[e := x]> d), (if decide (plain_name e) then <[e := x]> b else b).
  split; [|split; [|split]].
  - split; [|done]. cbn [fst snd collections with_dir with_collections].
    match goal with |- shows _ (<[c := ?b']> A) =>
      replace (<[c := b']> A) with (<[c := b']> (<[c := b]> A)) by apply insert_insert_eq end.
    apply shows_set; [done|done| | |].
    + apply map_Forall_insert_2; [exact (Hds e x Hx)|by eapply shows_dir].
    + destruct (decide (plain_name e)); [by apply map_Forall_insert_2|done].
    + intros k Hp. destruct (decide (plain_name e)), (decide (k = e)) as [->|];
        rewrite ?lookup_insert_eq, ?lookup_insert_ne by done; [done|by apply Hsame|done|by apply Hsame].
  - unfold get_dir. simpl. by rewrite lookup_insert_ne.
  - unfold get_dir. simpl. apply lookup_insert_eq.
  - intros k Hp Hnin. destruct (decide (k = e)) as [->|]; [by rewrite lookup_insert_eq|].
    rewrite lookup_insert_ne by done. apply Hk; [done|]. by intros [?|?]%elem_of_cons.
Qed.

Lemma copy_shows w A St src dn ex u :
  names_ok (CopyCollection src dn ex) -> stands_for w (A, St) u ->
  runs (apply_operation order (CopyCollection src dn ex)) u any
    (fun _ => stands_for w (spec_step (A, St) (CopyCollection src dn ex))) any_err.
Proof.
  unfold names_ok, apply_operation, spec_step. cbv zeta.
  generalize (as_str src) as s, (as_str dn) as c. intros s c (Hsp & Hc & Hne) Hu.
  apply runs_bind. eapply runs_mono; [by apply (backup_dir_shows w A St)|done| |done]. intros [] u1 Hu1.
  apply runs_bind. eapply runs_mono; [by apply (create_dir_shows w (delete c A) St)|done| |done].
  rewrite lookup_delete_eq, insert_delete_eq. intros [] u2 Hu2.
  unfold copy_dir_contents, read_dir. apply runs_bind, runs_bind, runs_query.
  destruct (get_dir u2 s) as [ds|] eqn:Hds; [|by apply runs_throw]. apply runs_ret.
  destruct (shows_at _ _ _ _ (proj1 Hu2) Hsp Hds) as (a & Ha & Hsame).
  cbn [fst] in Ha. rewrite lookup_insert_ne in Ha by done. rewrite Ha.
  pose proof (shows_dir _ _ _ _ (proj1 Hu2) Hds) as Hstored.
  eapply runs_mono; [apply (runs_for_each _ _ (copying w A St s c ds) any any_err)|done| |done].
  - split; [by intros e; rewrite names_elem|].
    destruct (shows_some _ _ (proj1 Hu2) c ∅) as (d & Hd & Hde); [apply lookup_insert_eq|].
    exists d, ∅. do 3 (split; [done|]). intros k Hp Hk. rewrite names_elem in Hk by done.
    apply eq_None_not_Some in Hk. rewrite Hk. by rewrite Hde.
  - intros e rem v. by apply copying_step.
  - intros [] v (_ & d & b & Hv & Hs & Hd & Hk).
    destruct (shows_at _ _ _ _ (proj1 Hv) Hc Hd) as (b' & Hb & Hsb). cbn [fst] in Hb.
    rewrite lookup_insert_eq in Hb. injection Hb as <-.
    replace a with b; [done|]. apply same_files_eq.
    + exact (proj2 (shows_ok _ _ (proj1 Hv) c b ltac:(apply lookup_insert_eq))).
    + exact (proj2 (shows_ok _ _ (proj1 Hu) s a Ha)).
    + intros k Hp. rewrite <- Hsb, Hk, Hsame by (done || apply not_elem_of_nil). done.
Qed.

Lemma operation_shows w st op u :
  names_ok op -> stands_for w st u ->
  runs (apply_operation order op) u any (fun _ => stands_for w (spec_step st op)) any_err.
Proof.
  destruct st as [A St]. destruct op; intros Hok Hu.
  - by apply write_shows.
  - destruct Hok as [Hc Hk]. apply backup_file_shows; [done|by left|done].
  - by apply delete_all_shows.
  - by apply create_dir_shows.
  - by apply backup_dir_shows.
  - by apply copy_shows.
Qed.

Lemma operations_show w st ops u :
  Forall names_ok ops -> stands_for w st u ->
  runs (apply_operations order ops) u any (fun _ => stands_for w (spec_run ops st)) any_err.
Proof.
  intros Hok Hu. unfold apply_operations.
  eapply runs_mono; [apply (runs_for_each _ _ (fun l v => exists st', Forall names_ok l /\
    stands_for w st' v /\ spec_run l st' = spec_run ops st) any any_err)|done| |done].
  - by exists st.
  - intros op l v (st' & [Hop Hl]%Forall_cons & Hv & E).
    eapply runs_mono; [by apply (operation_shows w st')|done| |done].
    intros [] v' Hv'. by exists (spec_step st' op).
  - intros [] v (st' & _ & Hv & E). by rewrite <- E.
Qed.

(** ** Removing the backups *)

(** The disk shows [A] and has the log of [u]. *)
Definition still_shows A u (v : fs) : Prop := shows (collections v) A /\ wal_file v = wal_file u.

Lemma remove_bak_runs A c d u :
  shows (collections u) A -> plain_name c -> get_dir u c = Some d ->
  runs (remove_bak_files_in_dir order c) u (still_shows A u)
    (fun _ v => staging v = staging u /\ wal_file v = wal_file u /\
       exists d', collections v = <[c := d']> (collections u) /\ same_files d' d /\
         map_Forall (fun k _ => plain_name k) d')
    (fun _ _ => False).
Proof.
  intros Hs Hc Hd. pose proof (shows_dir _ _ _ _ Hs Hd) as Hstored.
  destruct (shows_at _ _ _ _ Hs Hc Hd) as (a & Ha & Hsa).
  assert (Hkeep : forall d', same_files d' d -> stored_dir d' -> shows (<[c := d']> (collections u)) A).
  { intros d' Hsame Hd'. rewrite <- (insert_id A c a) by done. apply shows_set; [done..| |].
    - exact (proj2 (shows_ok _ _ Hs c a Ha)).
    - intros k Hp. by rewrite Hsame, Hsa. }
  apply runs_bind, runs_bind, runs_query. rewrite Hd. apply runs_ret.
  eapply runs_mono; [apply (runs_for_each _ _ (fun rem v => NoDup rem /\ staging v = staging u /\
    wal_file v = wal_file u /\ exists d', collections v = <[c := d']> (collections u) /\
      same_files d' d /\ stored_dir d' /\ (forall e, e ∈ rem -> is_Some (d' !! e)) /\
      (forall x, is_Some (d' !! x) -> is_bak x = true -> x ∈ rem)) (still_shows A u) (fun _ _ => False))|done| |done].
  - split; [by apply names_nodup|]. do 2 (split; [done|]). exists d. split; [by rewrite insert_id|].
    do 2 (split; [done|]). split; intros x; rewrite names_elem by done; auto.
  - intros e rem v ([Hne Hnd]%NoDup_cons & Hst & Hw & d' & Hd' & Hsame & Hstd & Hrem & Hall).
    destruct (Hrem e) as [x Hx]; [by left|]. apply runs_when.
    + intros Hb. eapply runs_remove_file; [unfold get_dir; rewrite Hd'; apply lookup_insert_eq|done|].
      assert (Hsame' : same_files (delete e d') d)
        by (intros k Hp; rewrite lookup_delete_ne; [by apply Hsame|]; intros ->; by apply (is_bak_not_plain k)).
      split; [split; [|done]; simpl; rewrite Hd', insert_insert_eq; by apply Hkeep, map_Forall_delete|].
      do 3 (split; [done|]). exists (delete e d').
      split; [simpl; by rewrite Hd', insert_insert_eq|]. split; [done|split; [by apply map_Forall_delete|split]].
      * intros y Hy. rewrite lookup_delete_ne by by intros ->. apply Hrem. by right.
      * intros y Hy Hby. destruct (decide (y = e)) as [->|].
        { rewrite lookup_delete_eq in Hy. by destruct Hy. }
        rewrite lookup_delete_ne in Hy by done. by apply Hall, elem_of_cons in Hby as [?|?].
    + intros Hb. do 3 (split; [done|]). exists d'. do 3 (split; [done|]).
      split; [intros y Hy; apply Hrem; by right|]. intros y Hy Hby.
      pose proof (Hall y Hy Hby) as [->|?]%elem_of_cons; [congruence|done].
  - intros [] v (_ & Hst & Hw & d' & Hd' & Hsame & Hstd & _ & Hall). do 2 (split; [done|]).
    exists d'. do 2 (split; [done|]). intros k x Hk. destruct (Hstd k x Hk) as [?|Hb]; [done|].
    by apply Hall, elem_of_nil in Hb; [|by exists x].
Qed.

Lemma cleanup_backup_files_runs A u :
  shows (collections u) A ->
  runs (cleanup_backup_files order) u (still_shows A u)
    (fun _ v => collections v = A /\ staging v = staging u /\ wal_file v = wal_file u)
    (fun _ _ => False).
Proof.
  intros Hs. apply runs_bind, runs_query.
  eapply runs_mono; [apply (runs_for_each _ _ (fun rem v => shows (collections v) A /\
    staging v = staging u /\ wal_file v = wal_file u /\
    (forall x, is_Some (collections v !! x) -> is_bak x = true -> x ∈ rem) /\
    (forall c d, plain_name c -> collections v !! c = Some d -> c ∉ rem ->
       map_Forall (fun k _ => plain_name k) d)) (still_shows A u) (fun _ _ => False))|done| |done].
  - do 3 (split; [done|]). split.
    + intros x Hx _. by apply names_elem.
    + intros c d _ Hc Hn. destruct Hn. apply names_elem; [done|by exists d].
  - intros x rem v (Hv & Hst & Hw & Hbak & Hclean). apply runs_bind, runs_query, runs_when.
    2:{ intros Hx%dir_exists_false. do 3 (split; [done|]). unfold get_dir in Hx. split.
      - intros y Hy Hb. pose proof (Hbak y Hy Hb) as [->|?]%elem_of_cons; [|done].
        rewrite Hx in Hy. by destruct Hy.
      - intros c d Hp Hc Hn. apply (Hclean c d Hp Hc). intros [->|?]%elem_of_cons; [congruence|done]. }
    intros [d Hd]%dir_exists_get. destruct (is_bak x) eqn:Ex.
    + eapply runs_remove_dir_all; [done|]. split; [split; [by apply shows_delete_hidden|done]|].
      split; [by apply shows_delete_hidden|].
      do 2 (split; [done|]). simpl. split.
      * intros y Hy Hb. destruct (decide (y = x)) as [->|]; [by rewrite lookup_delete_eq in Hy; destruct Hy|].
        rewrite lookup_delete_ne in Hy by done. by apply Hbak, elem_of_cons in Hb as [?|?].
      * intros c d' Hp Hc Hn. destruct (decide (c = x)) as [->|]; [by rewrite lookup_delete_eq in Hc|].
        rewrite lookup_delete_ne in Hc by done. apply (Hclean c d' Hp Hc). by intros [?|?]%elem_of_cons.
    + assert (Hx : plain_name x) by (destruct (shows_names _ _ Hv x d Hd) as [[?|?] _]; [done|congruence]).
      eapply runs_mono; [by apply (remove_bak_runs A x d)|intros ? [? Hwx]; split; [done|congruence]| |done].
      intros [] v' (Hst' & Hw' & d' & Hd' & Hsame & Hplain).
      destruct (shows_at _ _ _ _ Hv Hx Hd) as (a & Ha & Hsa). rewrite Hd'.
      split; [|split; [congruence|split; [congruence|split]]].
      * rewrite <- (insert_id A x a) by done. apply shows_set; [done|done| | |].
        -- intros k y Hk. left. exact (Hplain k y Hk).
        -- exact (proj2 (shows_ok _ _ Hv x a Ha)).
        -- intros k Hp. by rewrite Hsame, Hsa.
      * intros y Hy Hb. destruct (decide (y = x)) as [->|]; [congruence|].
        rewrite lookup_insert_ne in Hy by done. by apply Hbak, elem_of_cons in Hb as [?|?].
      * intros c d2 Hp Hc Hn. destruct (decide (c = x)) as [->|].
        { rewrite lookup_insert_eq in Hc. by injection Hc as <-. }
        rewrite lookup_insert_ne in Hc by done. apply (Hclean c d2 Hp Hc). by intros [?|?]%elem_of_cons.
  - intros [] v (Hv & Hst & Hw & Hbak & Hclean). split; [|done]. apply map_eq. intros c.
    destruct (collections v !! c) as [d|] eqn:Ec.
    + destruct (shows_names _ _ Hv c d Ec) as [[Hp|Hb] _].
      2:{ by apply Hbak, elem_of_nil in Hb; [|by exists d]. }
      destruct (shows_at _ _ _ _ Hv Hp Ec) as (a & Ha & Hsame). rewrite Ha. f_equal.
      apply same_files_eq; [|exact (proj2 (shows_ok _ _ Hv c a Ha))|done].
      apply (Hclean c d Hp Ec). apply not_elem_of_nil.
    + destruct (A !! c) as [a|] eqn:Ea; [|done]. destruct (shows_some _ _ Hv c a Ea) as (d & ? & _). congruence.
Qed.
End commit.

(** The steps of a commit after its operations were applied. *)
Definition commit_tail (order : list string -> list string) : io () :=
  _ ← remove_wal_if_present;
  _ ← (_ ← try_io (cleanup_backup_files order); mret ());
  _ ← try_io (cleanup_staging_dir order);
  lift (Ok ()).

Lemma commit_tail_runs order w st u R :
  (forall l, order l ≡ₚ l) -> is_Some w -> stands_for w st u ->
  runs (commit_tail order) u (fun _ => True) (fun _ v => v = mk_fs st.1 ∅ None) R.
Proof.
  intros Horder [data ->] (Hsh & Hst & Hw). unfold commit_tail.
  apply runs_bind, runs_bind, runs_query. rewrite Hw.
  rewrite bool_decide_eq_true_2 by by eexists. apply runs_call. rewrite Hw. split; [done|].
  apply runs_bind, runs_bind, runs_try.
  eapply runs_mono; [by apply (cleanup_backup_files_runs order Horder st.1)|done| |done].
  intros [] u2 (HA & Hst2 & Hw2). apply runs_ret, runs_bind, runs_try.
  eapply runs_mono; [by apply (cleanup_staging_runs order Horder u2 (fun _ => True))|done| |done].
  intros [] u3 ->. apply runs_lift. by rewrite HA, Hw2.
Qed.

Lemma runs_and {A} (m : io A) s P Q R Q' R' :
  runs m s P Q R -> runs m s P Q' R' ->
  runs m s P (fun a u => Q a u /\ Q' a u) (fun e u => R e u /\ R' e u).
Proof. unfold runs. destruct (m s) as [[t [a|e]] s']; intros [? ?] [_ ?]; by split. Qed.

(** The disk once the log is marked. *)
Definition marked (crc32 : list Z -> Z) (s : fs) (data : file) : fs :=
  mk_fs (collections s) (staging s)
    (Some (encode_header crc32 STATUS_COMMITTING ++ drop (Z.to_nat WAL_FILE_HEADER_SIZE) data)).

(** A commit that cannot fail. *)
Lemma commit_succeeds order crc32 ops s data :
  (forall l, order l ≡ₚ l) -> committed_ok (collections s) ->
  Forall (wf_op (collections s)) ops -> Forall names_ok ops -> wal_file s = Some data ->
  ops_safe order (collections s) ops (marked crc32 s data) ->
  runs (commit_operations order crc32 ops) s (fun _ => True)
    (fun _ u => u = mk_fs (spec_run ops (collections s, staging s)).1 ∅ None) (fun _ _ => False).
Proof.
  intros Horder HC Hwf Hok Hw Hsafe. set (st := spec_run ops (collections s, staging s)).
  unfold commit_operations, mark_committing. apply runs_bind, runs_bind, runs_query.
  rewrite Hw. apply runs_call. split; [done|]. fold (marked crc32 s data).
  apply runs_bind, runs_try.
  eapply runs_mono; [apply runs_and;
    [apply (operations_show order Horder (wal_file (marked crc32 s data)) (collections s, staging s));
      [done|split; [by apply shows_init|done]]
    |eapply runs_mono; [apply (apply_operations_runs order Horder (collections s) ops HC Hwf
       (wal_file (marked crc32 s data))); [split; [by apply inv_init|done]|exact Hsafe]
      |done|intros a u Hu; exact Hu|intros e u He; exact He]]|done| |].
  - intros [] u [Hu _]. apply runs_bind, runs_ret.
    apply (commit_tail_runs order (wal_file (marked crc32 s data)) st); [done|by eexists|done].
  - by intros e u [_ []].
Qed.

(** C9: a commit that returns [Ok] leaves exactly the abstract result: the
    collections of the specification after all operations in order, no backup
    file or directory, no staged file and no log. *)
Theorem commit_refines_spec order crc32 ops s :
  (forall l, order l ≡ₚ l) -> committed_ok (collections s) -> Forall names_ok ops ->
  run_result (commit_operations order crc32 ops) s = Ok () ->
  run_state (commit_operations order crc32 ops) s
  = mk_fs (spec_run ops (collections s, staging s)).1 ∅ None.
Proof.
  intros Horder HC Hok Hr. revert Hr. set (st := spec_run ops (collections s, staging s)).
  assert (Hruns : runs (commit_operations order crc32 ops) s (fun _ => True)
    (fun _ u => u = mk_fs st.1 ∅ None) (fun _ _ => True)).
  2:{ intros Hr. exact (runs_result _ _ _ _ _ _ Hruns Hr). }
  unfold commit_operations, mark_committing. apply runs_bind, runs_bind, runs_query.
  destruct (wal_file s) as [data|]; [|by apply runs_throw]. apply runs_call. split; [done|].
  fold (marked crc32 s data). apply runs_bind, runs_try.
  eapply runs_mono; [apply (operations_show order Horder (wal_file (marked crc32 s data)) (collections s, staging s));
    [done|split; [by apply shows_init|done]]|done| |].
  - intros [] u Hu. apply runs_bind, runs_ret.
    apply (commit_tail_runs order (wal_file (marked crc32 s data)) st); [done|by eexists|done].
  - intros e u _. do 4 (apply runs_bind; eapply runs_mono; [apply runs_true|done| |done];
      intros ? ? _). by apply runs_lift.
Qed.

(** Overwriting [a] and deleting everything else in one transaction. *)
Lemma commit_refines_spec_witness :
  run_state (commit_operations id ex_crc [DeleteAll (Custom "db"); ex_op "a"]) (ex_disk "a")
  = mk_fs {[ "db" := {[ "a" := [2%Z] ]} ]} ∅ None.
Proof.
  rewrite (commit_refines_spec id ex_crc [DeleteAll (Custom "db"); ex_op "a"] (ex_disk "a"));
    [vm_compute; reflexivity|intros l; reflexivity|apply ex_committed|
     |vm_compute; reflexivity].
  constructor; [by split|constructor; [by split|constructor]].
Defined.

(** A key with the extension of a backup is written and swept away with the
    backups by the same commit. *)
Example backup_extension_key_is_lost :
  run_result (commit_operations id ex_crc [Write (Custom "db") "b.bak" "s"]) (ex_disk "b") = Ok () /\
  collections (run_state (commit_operations id ex_crc [Write (Custom "db") "b.bak" "s"]) (ex_disk "b"))
  = ex_C0.
Proof. vm_compute. split; reflexivity. Qed.

(** Copying a collection onto itself empties it. *)
Example self_copy_empties_collection :
  collections (run_state (commit_operations id ex_crc
    [CopyCollection (Custom "db") (Custom "db") true]) (ex_disk "b")) = {[ "db" := ∅ ]}.
Proof. vm_compute. reflexivity. Qed.
