(* ===== verification/StorageAtomic.v ===== *)
(** * Transactions are atomic

    A transaction as it is seen from the disk: its log is created, its
    operations are appended to it, it is committed.  A crash at any step, and
    another one while the storage recovers from it, leaves the collections
    either as they were or as the specification of StorageCommit.v says, unless
    the transaction overwrites a committed key. *)

From S2P Require Import Prelude StorageTypes FileSystem Wal LocalStorage StorageInvariant StorageRollback StorageApply StorageRecovery StorageCommit.

(** [begin_transaction], the operations and [commit], on the disk. *)
Definition transaction (order : list string -> list string) (crc32 : list Z -> Z) (to_bytes : Operation -> option (list Z))
    (ops : list Operation) : io () :=
  _ ← create_wal crc32;
  _ ← for_each ops (append_operation crc32 to_bytes);
  commit_operations order crc32 ops.

Section recovers.
Context (order : list string -> list string) (crc32 : list Z -> Z) (from_bytes : list Z -> option Operation).
Hypothesis Horder : forall l, order l ≡ₚ l.

(** Recovery from [u], interrupted once or not, ends with the collections [D]. *)
Definition recovers (D : gmap string dir) (u : fs) : Prop :=
  runs (recover order crc32 from_bytes) u
    (fun v => runs (recover order crc32 from_bytes) v (fun _ => True) (fun _ w => w = mk_fs D ∅ None) (fun _ _ => False))
    (fun _ w => w = mk_fs D ∅ None) (fun _ _ => False).

(** A run of recovery that keeps an invariant which leads to [D]. *)
Lemma recovers_by (I : fs -> Prop) D u :
  (forall v, I v -> runs (recover order crc32 from_bytes) v I (fun _ w => w = mk_fs D ∅ None) (fun _ _ => False)) ->
  I u -> recovers D u.
Proof.
  intros HI Hu. eapply runs_mono; [by apply HI| |done|done]. intros v Hv. eapply runs_mono; [by apply HI|done..].
Qed.

Lemma recovers_states D u v : recovers D u -> v ∈ crash_states (recover order crc32 from_bytes) u ->
  run_state (recover order crc32 from_bytes) v = mk_fs D ∅ None.
Proof.
  intros Hu Hv. assert (Hvr : runs (recover order crc32 from_bytes) v (fun _ => True) (fun _ w => w = mk_fs D ∅ None) (fun _ _ => False)).
  { refine (runs_crash _ u _ _ _ v Hu _ Hv). eapply runs_mono; [exact Hu|done..]. }
  by destruct (runs_ok _ _ _ _ Hvr) as ([] & _ & ->).
Qed.

(** The end of recovery: no log, then nothing staged. *)
Lemma discard_log_runs C0 u (P : fs -> Prop) : collections u = C0 ->
  (forall st w, (w = wal_file u \/ w = None) -> P (mk_fs C0 st w)) ->
  runs (_ ← remove_wal_if_present; cleanup_staging_dir order) u P (fun _ w => w = mk_fs C0 ∅ None) (fun _ _ => False).
Proof.
  intros HC HP. apply runs_bind, runs_bind, runs_query, runs_when.
  - intros [data Hw]%bool_decide_eq_true. apply runs_call. rewrite Hw. rewrite HC. split; [by apply HP; right|].
    eapply runs_mono; [apply (cleanup_staging_runs order Horder _ P)| |intros [] w ->; done|done].
    + intros st. apply HP. by right.
    + done.
  - intros Hw%bool_decide_eq_false. apply eq_None_not_Some in Hw.
    eapply runs_mono; [apply (cleanup_staging_runs order Horder _ P)|done|intros [] w ->; by rewrite HC, Hw|done].
    intros st. rewrite HC. apply HP. by left.
Qed.

(** The log is not one of a commit, the collections are untouched. *)
Definition before (C0 : gmap string dir) (u : fs) : Prop :=
  collections u = C0 /\ forall data, open_wal crc32 (wal_file u) <> Some (Committing, data).

(** The log is gone, backups may be left. *)
Definition after (A : gmap string dir) (u : fs) : Prop := wal_file u = None /\ shows (collections u) A.

(** No collection and no file has the name of a backup. *)
Definition unhidden (C : gmap string dir) : Prop :=
  map_Forall (fun c d => is_bak c = false /\ map_Forall (fun k _ => is_bak k = false) d) C.

Lemma committed_unhidden C : committed_ok C -> unhidden C.
Proof. intros HC c d Hc. destruct (HC c d Hc) as [Hp Hk]. split; [by apply plain_not_bak|]. intros k v Hkv. by apply plain_not_bak, (Hk k v). Qed.

Lemma unhidden_no_backups C u : unhidden C -> collections u = C -> has_backup_files u = false.
Proof.
  intros HC <-. unfold has_backup_files. apply existsb_false. intros [c d] Hc%elem_of_map_to_list.
  destruct (HC c d Hc) as [-> Hk]. simpl. apply existsb_false. intros [k v] Hkv%elem_of_map_to_list. by apply (Hk k v).
Qed.

Lemma unhidden_recovers C0 u : unhidden C0 -> before C0 u -> recovers C0 u.
Proof.
  intros HC0. apply recovers_by. clear u. intros u [HC Hw]. unfold recover. apply runs_bind, runs_query.
  apply runs_bind.
  assert (Hend : runs (_ ← remove_wal_if_present; cleanup_staging_dir order) u (before C0) (fun _ w => w = mk_fs C0 ∅ None)
    (fun _ _ => False)).
  { apply discard_log_runs; [done|]. intros st w Hw'. split; [done|]. intros data. cbn [wal_file].
    destruct Hw' as [-> | ->]; [apply Hw|done]. }
  destruct (open_wal crc32 (wal_file u)) as [[[] data]|] eqn:E.
  - by apply runs_ret.
  - by destruct (Hw data).
  - apply runs_bind, runs_query. rewrite (unhidden_no_backups C0) by done. by apply runs_ret.
Qed.

Lemma before_recovers C0 u : committed_ok C0 -> before C0 u -> recovers C0 u.
Proof. intros H. by apply unhidden_recovers, committed_unhidden. Qed.

(** Where nothing is hidden the collections are what is shown. *)
Lemma shows_no_backups A u : shows (collections u) A -> has_backup_files u = false -> collections u = A.
Proof.
  intros Hs Hb.
  assert (Hplain : forall c d, collections u !! c = Some d -> plain_name c /\ map_Forall (fun k _ => plain_name k) d).
  { intros c d Hc. apply not_true_iff_false in Hb. destruct (shows_names _ _ Hs c d Hc) as [Hn Hd]. split.
    - destruct Hn as [?|Hn]; [done|]. destruct Hb. apply existsb_exists. exists (c, d).
      split; [by apply list_elem_of_In, elem_of_map_to_list|]. by rewrite Hn.
    - intros k x Hk. destruct (Hd k x Hk) as [?|Hk']; [done|]. destruct Hb. apply existsb_exists. exists (c, d).
      split; [by apply list_elem_of_In, elem_of_map_to_list|]. apply orb_true_iff. right. apply existsb_exists. exists (k, x).
      split; [by apply list_elem_of_In, elem_of_map_to_list|done]. }
  apply map_eq. intros c. destruct (collections u !! c) as [d|] eqn:Hc.
  - destruct (Hplain c d Hc) as [Hp Hd]. destruct (shows_at _ _ _ _ Hs Hp Hc) as (a & Ha & Hsame). rewrite Ha. f_equal.
    apply same_files_eq; [done|exact (proj2 (shows_ok _ _ Hs c a Ha))|done].
  - destruct (A !! c) as [a|] eqn:Ha; [|done]. destruct (shows_some _ _ Hs c a Ha) as (d & ? & _). congruence.
Qed.

Lemma after_recovers A u : after A u -> recovers A u.
Proof.
  apply recovers_by. clear u. intros u [Hw Hs]. unfold recover. apply runs_bind, runs_query. rewrite Hw. apply runs_bind, runs_bind, runs_query.
  assert (Hend : forall u', collections u' = A -> wal_file u' = None ->
    runs (_ ← remove_wal_if_present; cleanup_staging_dir order) u' (after A) (fun _ w => w = mk_fs A ∅ None) (fun _ _ => False)).
  { intros u' HA Hw'. apply discard_log_runs; [done|]. intros st w Hww. split; [cbn; destruct Hww; congruence|].
    cbn. apply shows_init, Hs. }
  apply runs_when.
  - intros _. eapply runs_mono; [by apply (cleanup_backup_files_runs order Horder A)| | |done].
    + intros v [Hv Hwv]. split; [congruence|done].
    + intros [] v (HA & _ & Hwv). apply Hend; congruence.
  - intros Hb. apply Hend; [by apply shows_no_backups|done].
Qed.
End recovers.

Lemma runs_states {A} (m : io A) s P (P' : fs -> Prop) Q R :
  runs m s P Q R -> (forall u, u ∈ crash_states m s -> P' u) -> runs m s P' Q R.
Proof.
  unfold runs, crash_states. destruct (m s) as [[t r] s']. intros [_ H] HP. split; [|done].
  apply Forall_forall. intros u Hu. apply HP. by right.
Qed.

Section atomic.
Context (order : list string -> list string) (crc32 : list Z -> Z).
Context (to_bytes : Operation -> option (list Z)) (from_bytes : list Z -> option Operation).
Context (C0 : gmap string dir) (ops : list Operation) (es : list (list Z)).
Hypothesis Horder : forall l, order l ≡ₚ l.
Hypothesis Hcodec : codec_ok crc32 to_bytes from_bytes.
Hypothesis HC0 : committed_ok C0.
Hypothesis Hwf : Forall (wf_op C0) ops.
Hypothesis Hnames : Forall names_ok ops.
Hypothesis Hentries : entries crc32 to_bytes ops es.
Hypothesis Hlen : (len (wal_of crc32 Committing es) <= USIZE_MAX)%Z.
(** No operation writes a key that is committed. *)
Hypothesis Hnew : forall c k, writes ops c k -> (C0 !! c ≫= (.!! k)) = None.

Abbreviation recovers := (recovers order crc32 from_bytes).

(** The disk with the log of this transaction. *)
Definition logged (st : WalStatus) (staged : gmap string file) : fs := mk_fs C0 staged (Some (wal_of crc32 st es)).

Lemma commit_tail_after A St w u R : is_Some w -> stands_for w (A, St) u ->
  runs (commit_tail order) u (after A) (fun _ v => v = mk_fs A ∅ None) R.
Proof.
  intros [data ->] (Hsh & Hst & Hw). cbn [fst snd] in Hsh, Hst. unfold commit_tail.
  apply runs_bind, runs_bind, runs_query. rewrite Hw. rewrite bool_decide_eq_true_2 by by eexists.
  apply runs_call. rewrite Hw. split; [done|]. apply runs_bind, runs_bind, runs_try.
  eapply runs_mono; [by apply (cleanup_backup_files_runs order Horder A)| | |done].
  { intros v [Hv Hwv]. split; [by rewrite Hwv|done]. }
  intros [] u2 (HA & Hst2 & Hw2). apply runs_ret, runs_bind, runs_try.
  eapply runs_mono; [apply (cleanup_staging_runs order Horder u2 (after A))|done| |done].
  - intros st. rewrite HA, Hw2. split; [done|]. cbn. apply shows_init, Hsh.
  - intros [] u3 ->. apply runs_lift. by rewrite HA, Hw2.
Qed.

Lemma commit_runs staged : ops_safe order C0 ops (logged Committing staged) ->
  let A := (spec_run ops (C0, staged)).1 in
  runs (commit_operations order crc32 ops) (logged Recording staged) (fun u => recovers C0 u \/ recovers A u)
    (fun _ u => u = mk_fs A ∅ None) (fun _ _ => False).
Proof.
  intros Hsafe A. set (s := logged Committing staged) in *.
  assert (Hcommitting : committing crc32 to_bytes C0 ops s) by (split; [done|by exists es]).
  unfold commit_operations, mark_committing. apply runs_bind, runs_bind, runs_query. cbn [wal_file logged].
  rewrite wal_of_body. change (encode_header crc32 STATUS_COMMITTING ++ concat es) with (wal_of crc32 Committing es).
  assert (Hduring : forall u, u ∈ crash_states (apply_operations order ops) s -> recovers C0 u).
  { intros u Hu. pose proof (crash_then_recover order crc32 to_bytes from_bytes C0 ops s Horder Hcodec HC0 Hwf Hcommitting Hsafe u Hu) as Hr.
    assert (Hexact : forall w, settled C0 ops w /\ staging w = ∅ -> w = mk_fs C0 ∅ None).
    { intros [C st w] [[Hw Hc] Hst]. cbn in *. subst. f_equal. by eapply recovered_exact. }
    eapply runs_mono; [exact Hr| |by intros a w Hw; apply Hexact|done].
    intros v Hv. eapply runs_mono; [exact Hv|done|by intros a w Hw; apply Hexact|done]. }
  apply runs_call. split; [left; apply Hduring, crash_states_start|]. apply runs_bind, runs_try.
  match goal with |- runs _ ?x _ _ _ => change x with s end.
  eapply runs_mono; [eapply (runs_states _ _ _ (fun u => recovers C0 u \/ recovers A u)); [apply runs_and;
      [apply (operations_show order Horder (wal_file s) (C0, staged)); [done|split; [by apply shows_init|done]]
      |eapply runs_mono; [apply (apply_operations_runs order Horder C0 ops HC0 Hwf (wal_file s)); [split; [by apply inv_init|done]|exact Hsafe]
        |done|intros a u Hu; exact Hu|intros e u He; exact He]]|by intros u Hu; left; apply Hduring]|done| |].
  2:{ by intros e u [_ []]. }
  intros [] u [Hu _]. apply runs_bind, runs_ret.
  eapply runs_mono; [apply (commit_tail_after A (spec_run ops (C0, staged)).2 (wal_file s) _ (fun _ _ => False)); [by eexists|]| |done|done].
  - unfold A. by destruct (spec_run ops (C0, staged)).
  - intros v Hv. right. by apply after_recovers.
Qed.

Lemma before_logged l staged : before crc32 C0 (mk_fs C0 staged (Some (wal_of crc32 Recording l))).
Proof. split; [done|]. intros data. cbn [wal_file]. by rewrite (open_wal_of crc32 to_bytes from_bytes). Qed.

(** Creating the log and appending the operations. *)
Lemma log_runs staged w0 (Q : () -> fs -> Prop) : Q () (logged Recording staged) ->
  runs (_ ← create_wal crc32; for_each ops (append_operation crc32 to_bytes)) (mk_fs C0 staged w0)
    (before crc32 C0) Q (fun _ _ => False).
Proof.
  intros HQ. unfold create_wal. apply runs_bind, runs_bind, runs_call. split; [by split|].
  apply runs_call. split; [exact (before_logged [] staged)|].
  eapply runs_mono; [eapply (runs_for_each ops _ (fun l u => exists done es1 es2,
    done ++ l = ops /\ entries crc32 to_bytes l es2 /\ es1 ++ es2 = es /\
    u = mk_fs C0 staged (Some (wal_of crc32 Recording es1))))|intros u Hu; exact Hu| |intros e u Hu; exact Hu].
  - exists [], [], es. by repeat split.
  - intros op l u (done_ & es1 & es2 & <- & H2 & He & ->). inversion H2 as [|? e ? es2' Hop H2']; subst.
    eapply append_operation_runs; [exact Hop|done|]. cbv zeta. cbn [collections staging].
    rewrite wal_of_snoc. split; [apply before_logged|]. exists (done_ ++ [op]), (es1 ++ [e]), es2'.
    rewrite <- He, <- !app_assoc. by repeat split.
  - intros [] u (done_ & es1 & es2 & _ & H2 & He & ->). inversion H2; subst es2. rewrite app_nil_r in He. rewrite He. exact HQ.
Qed.

Lemma transaction_runs staged w0 : ops_safe order C0 ops (logged Committing staged) ->
  let A := (spec_run ops (C0, staged)).1 in
  runs (transaction order crc32 to_bytes ops) (mk_fs C0 staged w0) (fun u => recovers C0 u \/ recovers A u)
    (fun _ u => u = mk_fs A ∅ None) (fun _ _ => False).
Proof.
  intros Hsafe A. unfold transaction.
  assert (Hlog : runs (_ ← create_wal crc32; for_each ops (append_operation crc32 to_bytes)) (mk_fs C0 staged w0)
    (fun u => recovers C0 u \/ recovers A u) (fun _ u => u = logged Recording staged) (fun _ _ => False)).
  { eapply runs_mono; [by apply (log_runs staged w0 (fun _ u => u = logged Recording staged))| |done|done].
    intros u Hu. left. by apply before_recovers. }
  revert Hlog. unfold runs, mbind, io_bind. destruct (create_wal crc32 (mk_fs C0 staged w0)) as [[t1 [[]|e1]] s1]; [|by intros [_ []]].
  destruct (for_each ops _ s1) as [[t2 [[]|e2]] s2]; [|by intros [_ []]]. intros [Ht ->]. apply Forall_app in Ht as [Ht1 Ht2].
  pose proof (commit_runs staged Hsafe) as Hc. cbv zeta in Hc. fold A in Hc. unfold runs in Hc.
  destruct (commit_operations order crc32 ops _) as [[t3 [[]|e3]] s3]; [|by destruct Hc as [_ []]]. destruct Hc as [Ht3 ->].
  split; [|done]. by repeat apply Forall_app_2.
Qed.
End atomic.

(** C4: a transaction that writes no committed key and whose operations do not
    overwrite each other's backups is atomic.  It succeeds and leaves exactly
    what the specification says; and wherever it is interrupted, while its log
    is written, its operations are applied or its backups are removed, recovery,
    itself interrupted or not, leaves either the collections as they were or
    the result of all operations, and no log, no backup and no staged file. *)
Theorem transaction_is_atomic order crc32 to_bytes from_bytes C0 ops es staged :
  (forall l, order l ≡ₚ l) -> codec_ok crc32 to_bytes from_bytes -> committed_ok C0 ->
  Forall (wf_op C0) ops -> Forall names_ok ops -> entries crc32 to_bytes ops es ->
  (len (wal_of crc32 Committing es) <= USIZE_MAX)%Z ->
  (forall c k, writes ops c k -> (C0 !! c ≫= (.!! k)) = None) ->
  ops_safe order C0 ops (logged crc32 C0 es Committing staged) ->
  let s := mk_fs C0 staged None in
  let A := (spec_run ops (C0, staged)).1 in
  run_result (transaction order crc32 to_bytes ops) s = Ok () /\
  run_state (transaction order crc32 to_bytes ops) s = mk_fs A ∅ None /\
  forall u, u ∈ crash_states (transaction order crc32 to_bytes ops) s ->
    exists D, (D = C0 \/ D = A) /\
      forall v, v ∈ crash_states (recover order crc32 from_bytes) u ->
        run_state (recover order crc32 from_bytes) v = mk_fs D ∅ None.
Proof.
  intros Horder Hcodec HC0 Hwf Hnames Hes Hlen Hnew Hsafe s A.
  pose proof (transaction_runs order crc32 to_bytes from_bytes C0 ops es Horder Hcodec HC0 Hwf Hnames Hes Hlen Hnew staged None Hsafe) as Hr.
  destruct (runs_ok _ _ _ _ Hr) as ([] & Hok & Hst). split; [done|]. split; [done|]. intros u Hu.
  assert (Hrec : recovers order crc32 from_bytes C0 u \/ recovers order crc32 from_bytes A u).
  { refine (runs_crash _ s _ _ _ u Hr _ Hu). left. apply before_recovers; [done..|]. by split. }
  destruct Hrec as [Hrec|Hrec]; [exists C0; split; [by left|]|exists A; split; [by right|]]; intros v Hv; by eapply recovers_states.
Qed.

(** ** A concrete transaction *)

(** A serialisation of the operations of a table. *)
Definition table_bytes (t : list Operation) (op : Operation) : option (list Z) :=
  (fun '(i, _) => [Z.of_nat i]) <$> list_find (fun x => x = op) t.
Definition table_op (t : list Operation) (l : list Z) : option Operation :=
  match l with [z] => t !! Z.to_nat z | _ => None end.

Lemma table_codec t : (length t <= 256)%nat -> codec_ok ex_crc (table_bytes t) (table_op t).
Proof.
  intros Hlen. split.
  - intros l. unfold ex_crc, U32_MAX. lia.
  - unfold table_bytes. intros op l. destruct (list_find _ t) as [[i x]|] eqn:E; [|done]. intros [= <-].
    apply list_find_Some in E as (Hi & _). apply lookup_lt_Some in Hi. repeat constructor; lia.
  - unfold table_bytes. intros op l. destruct (list_find _ t) as [[i x]|]; [|done]. by intros [= <-].
  - unfold table_bytes, table_op. intros op l. destruct (list_find _ t) as [[i x]|] eqn:E; [|done]. intros [= <-].
    apply list_find_Some in E as (Hi & -> & _). by rewrite Nat2Z.id.
Qed.

(** Replacing a collection by another one. *)
Definition swap_ops : list Operation := [CopyCollection (Custom "next") (Custom "db") true; DeleteCollection (Custom "next")].
Definition swap_collections : gmap string dir := {[ "db" := {[ "a" := [1%Z] ]}; "next" := {[ "b" := [2%Z] ]} ]}.

Definition entry_of (t : list Operation) (op : Operation) : list Z :=
  default [] (result_ok (encode_entry ex_crc (table_bytes t) op)).

Lemma swap_committed : committed_ok swap_collections.
Proof.
  unfold swap_collections. intros c d [[<- <-]|[_ [<- <-]%lookup_singleton_Some]]%lookup_insert_Some;
    (split; [by split|]; intros k v [<- <-]%lookup_singleton_Some; by split).
Qed.

Lemma transaction_is_atomic_witness :
  run_state (transaction id ex_crc (table_bytes swap_ops) swap_ops) (mk_fs swap_collections ∅ None)
  = mk_fs {[ "db" := {[ "b" := [2%Z] ]} ]} ∅ None.
Proof.
  pose (es := entry_of swap_ops <$> swap_ops).
  destruct (transaction_is_atomic id ex_crc (table_bytes swap_ops) (table_op swap_ops) swap_collections swap_ops es ∅)
    as (_ & Hst & _); [intros l; reflexivity|apply table_codec; cbn; lia|apply swap_committed| | | |vm_compute; discriminate| | |].
  - constructor; [split; [by split|reflexivity]|constructor; [by split|constructor]].
  - constructor; [split; [by split|split; [by split|discriminate]]|constructor; [by split|constructor]].
  - repeat constructor.
  - intros c k (j & cn & p & Hj & _). destruct j as [|[|j]]; [discriminate..|done].
  - split; [split; [by eexists|split; [discriminate|by split]]|]. split; [|exact I]. by split.
  - rewrite Hst. vm_compute. reflexivity.
Defined.
