(* ===== verification/StorageFrames.v ===== *)
(** * Transactions on distinct collections

    An operation touches the collection it names and its backup, nothing else.
    A transaction whose operations name different collections is therefore safe
    in the sense of StorageApply.v, and atomic (StorageAtomic.v). *)

From S2P Require Import Prelude StorageTypes FileSystem Wal LocalStorage StorageInvariant StorageRollback StorageApply StorageRecovery StorageCommit StorageAtomic.

(** The collection an operation changes. *)
Definition op_target (op : Operation) : string :=
  match op with
  | Write cn _ _ | Delete cn _ | DeleteAll cn | CreateCollection cn | DeleteCollection cn | CopyCollection _ cn _ => as_str cn
  end.

Definition frame (c : string) (C C' : gmap string dir) : Prop := forall x, x <> c -> x <> bak c -> C' !! x = C !! x.

Lemma frame_refl c C : frame c C C.
Proof. done. Qed.
Lemma frame_trans c C1 C2 C3 : frame c C1 C2 -> frame c C2 C3 -> frame c C1 C3.
Proof. intros H1 H2 x ? ?. by rewrite H2, H1. Qed.
Lemma frame_insert c C d : frame c C (<[c := d]> C).
Proof. intros x ? ?. by rewrite lookup_insert_ne. Qed.

(** A program that touches [c] and its backup only. *)
Definition framed {A} (c : string) (m : io A) : Prop := forall u, frame c (collections u) (collections (run_state m u)).

Lemma framed_bind {A B} c (m : io A) (f : A -> io B) : framed c m -> (forall a, framed c (f a)) -> framed c (m ≫= f).
Proof.
  intros Hm Hf u. specialize (Hm u). unfold run_state, mbind, io_bind in *. destruct (m u) as [[t [a|e]] u']; [|done].
  specialize (Hf a u'). unfold run_state in Hf. destruct (f a u') as [[t' r] u'']. by eapply frame_trans.
Qed.
Lemma framed_query {A} c (f : fs -> A) : framed c (query f).
Proof. intros u. apply frame_refl. Qed.
Lemma framed_ret {A} c (a : A) : framed c (mret a).
Proof. intros u. apply frame_refl. Qed.
Lemma framed_call c f : (forall u u', f u = Ok u' -> frame c (collections u) (collections u')) -> framed c (call f).
Proof. intros Hf u. specialize (Hf u). unfold run_state, call. destruct (f u) as [u'|e]; [by apply Hf|apply frame_refl]. Qed.
Lemma framed_when c b m : framed c m -> framed c (when b m).
Proof. intros H. destruct b; [done|]. intros u. apply frame_refl. Qed.
Lemma framed_for_each {X} c (l : list X) body : (forall x, framed c (body x)) -> framed c (for_each l body).
Proof.
  intros H. induction l as [|x l IH]; [intros u; apply frame_refl|]. apply framed_bind; [apply H|done].
Qed.

Create HintDb framed.
#[export] Hint Resolve framed_bind framed_query framed_ret framed_when framed_for_each : framed.

Ltac frame_call :=
  apply framed_call; intros u u'; repeat case_match; intros [= <-]; cbn; auto using frame_insert, frame_refl.

Lemma framed_create_dir_all c : framed c (create_dir_all c).
Proof. unfold create_dir_all. frame_call. Qed.
Lemma framed_rename_file c k k' : framed c (rename_file c k k').
Proof. unfold rename_file. frame_call. Qed.
Lemma framed_rename_staged p c k : framed c (rename_staged p c k).
Proof. unfold rename_staged. frame_call. Qed.
Lemma framed_copy_file s k c : framed c (copy_file s k c).
Proof. unfold copy_file. frame_call. Qed.
Lemma framed_rename_dir c : framed c (rename_dir c (bak c)).
Proof.
  unfold rename_dir. frame_call; intros x ? ?; by rewrite ?lookup_insert_ne, ?lookup_delete_ne.
Qed.
#[export] Hint Resolve framed_create_dir_all framed_rename_file framed_rename_staged framed_copy_file framed_rename_dir : framed.

Lemma framed_read_dir c order s : framed c (read_dir order s).
Proof. unfold read_dir. apply framed_bind; [apply framed_query|]. intros [d|] u; apply frame_refl. Qed.
#[export] Hint Resolve framed_read_dir : framed.

Lemma apply_framed order op : framed (op_target op) (apply_operation order op).
Proof.
  destruct op; cbn; unfold backup_all_files_in_dir, copy_dir_contents, backup_dir, backup_file; eauto 12 with framed.
Qed.

(** ** Distinct targets *)

(** [op] fits the collections [C0], of which the ones in [T] were changed. *)
Definition op_fits (C0 : gmap string dir) (T : list string) (op : Operation) : Prop :=
  plain_name (op_target op) /\ ~ (op_target op ∈ T) /\
  match op with
  | Write _ _ _ => False
  | Delete _ k => plain_name k
  | CreateCollection c => C0 !! as_str c = None
  | CopyCollection src dn ex =>
      plain_name (as_str src) /\ is_Some (C0 !! as_str src) /\ as_str src <> as_str dn /\ ~ (as_str src ∈ T) /\
      ex = bool_decide (is_Some (C0 !! as_str dn))
  | DeleteAll _ | DeleteCollection _ => True
  end.

Fixpoint distinct_targets (C0 : gmap string dir) (T : list string) (ops : list Operation) : Prop :=
  match ops with
  | [] => True
  | op :: ops => op_fits C0 T op /\ distinct_targets C0 (op_target op :: T) ops
  end.

(** Outside of [T] the collections are those of [C0]. *)
Definition agrees (C0 : gmap string dir) (T : list string) (C : gmap string dir) : Prop :=
  forall x, Forall (fun t => x <> t /\ x <> bak t) T -> C !! x = C0 !! x.

Section distinct.
Context (order : list string -> list string) (C0 : gmap string dir).
Hypothesis HC0 : committed_ok C0.

Lemma agrees_step T op u : agrees C0 T (collections u) ->
  agrees C0 (op_target op :: T) (collections (run_state (apply_operation order op) u)).
Proof.
  intros Ha x [[? ?] HT]%Forall_cons. rewrite (apply_framed order op u x) by done. by apply Ha.
Qed.

Lemma agrees_at T C c : Forall plain_name T -> plain_name c -> c ∉ T -> agrees C0 T C -> C !! c = C0 !! c /\ C !! bak c = None.
Proof.
  intros HT Hc Hin Ha. split.
  - apply Ha, Forall_forall. intros t Ht. split; [congruence|]. apply plain_ne_bak; [done|]. by rewrite Forall_forall in HT; apply HT.
  - rewrite Ha.
    + destruct (C0 !! bak c) as [d|] eqn:E; [|done]. destruct (HC0 _ _ E) as [Hp _].
      by destruct (bak_not_plain c); [apply plain_nonempty|].
    + apply Forall_forall. rewrite Forall_forall in HT. intros t Ht. specialize (HT t Ht). split.
      * intros E. by apply (plain_ne_bak t c).
      * intros E%append_bak_inj. congruence.
Qed.

Lemma op_fits_safe T u op : Forall plain_name T -> op_fits C0 T op -> agrees C0 T (collections u) -> op_safe C0 u op.
Proof.
  intros HT (Hp & Hin & Hop) Ha. destruct (agrees_at T _ _ HT Hp Hin Ha) as [Hc Hb].
  assert (Hun : untouched C0 (collections u) (op_target op)).
  { unfold untouched. rewrite Hc. destruct (C0 !! op_target op); [|done]. by rewrite Hb. }
  destruct op as [cn k p|cn k|cn|cn|cn|src dn ex]; cbn in *; [done| | |done|done|].
  - rewrite Hc. destruct (C0 !! as_str cn) as [d|] eqn:Hd; [|done]. intros [v Hv]. unfold write_safe.
    rewrite Hb, Hd, Hv. split; [|by eexists]. destruct (d !! bak k) as [w|] eqn:E; [|done].
    destruct (HC0 _ _ Hd) as [_ Hkeys]. by destruct (bak_not_plain k); [apply plain_nonempty|eapply (Hkeys _ _ E)].
  - rewrite Hc. destruct (C0 !! as_str cn) as [d|]; [|done]. right. intros x Hx. exact Hx.
  - destruct Hop as (Hps & Hs & Hne & Hsin & _). split; [|done]. by rewrite (proj1 (agrees_at T _ _ HT Hps Hsin Ha)).
Qed.

Lemma distinct_safe T ops u : Forall plain_name T -> distinct_targets C0 T ops -> agrees C0 T (collections u) -> ops_safe order C0 ops u.
Proof.
  revert T u. induction ops as [|op ops IH]; intros T u HT; [done|]. intros [Hop Hops] Ha. split; [by eapply op_fits_safe|].
  apply (IH (op_target op :: T)); [|done|by apply agrees_step]. constructor; [apply Hop|done].
Qed.

Lemma distinct_wf T ops : distinct_targets C0 T ops -> Forall (wf_op C0) ops /\ Forall names_ok ops.
Proof.
  revert T. induction ops as [|op ops IH]; intros T; [by split|]. intros [(Hp & _ & Hop) Hops].
  destruct (IH _ Hops) as [H1 H2]. destruct op; cbn in *; try done; split; constructor; cbn; tauto.
Qed.

Lemma distinct_no_write T ops c k : distinct_targets C0 T ops -> ~ writes ops c k.
Proof.
  revert T. induction ops as [|op ops IH]; intros T Hd (j & cn & p & Hj & Hc); [done|].
  destruct Hd as [Hop Hops]. destruct j as [|j]; cbn in Hj.
  - injection Hj as ->. by destruct Hop as (_ & _ & []).
  - apply (IH _ Hops). by exists j, cn, p.
Qed.

Lemma distinct_transaction_runs crc32 to_bytes from_bytes ops es staged w0 :
  (forall l, order l ≡ₚ l) -> codec_ok crc32 to_bytes from_bytes -> distinct_targets C0 [] ops ->
  entries crc32 to_bytes ops es -> (len (wal_of crc32 Committing es) <= USIZE_MAX)%Z ->
  let A := (spec_run ops (C0, staged)).1 in
  runs (transaction order crc32 to_bytes ops) (mk_fs C0 staged w0)
    (fun u => recovers order crc32 from_bytes C0 u \/ recovers order crc32 from_bytes A u)
    (fun _ u => u = mk_fs A ∅ None) (fun _ _ => False).
Proof.
  intros Horder Hcodec Hd Hes Hlen. destruct (distinct_wf _ _ Hd) as [Hwf Hnames].
  apply (transaction_runs _ _ _ _ _ _ es); [done..| |].
  - intros c k Hw. by destruct (distinct_no_write _ _ _ _ Hd Hw).
  - apply (distinct_safe []); [done..|]. intros x _. done.
Qed.
End distinct.

(** ** Bodies that record operations *)

(** [m] behaves at the collections [C] as recording [ops] and returning [a]. *)
Section records.
Context (order : list string -> list string) (crc32 : list Z -> Z) (to_bytes : Operation -> option (list Z)) (sanitize : bool).

Abbreviation append := (append_operation crc32 to_bytes).

Definition records {A} (C : gmap string dir) (m : io A) (ops : list Operation) (a : A) : Prop :=
  forall s, collections s = C -> m s = (_ ← for_each ops append; mret a) s.

Lemma append_collections op s : collections (run_state (append op) s) = collections s.
Proof.
  unfold append_operation, run_state, mbind, io_bind, FileSystem.lift, query. destruct (encode_entry _ _ _); [|done].
  by destruct (wal_file s).
Qed.

Lemma for_each_append_collections ops s : collections (run_state (for_each ops append) s) = collections s.
Proof.
  revert s. induction ops as [|op ops IH]; intros s; [done|]. pose proof (append_collections op s) as H. revert H.
  unfold run_state. cbn. unfold mbind, io_bind. destruct (append op s) as [[t [[]|e]] s']; [|done]. intros <-.
  specialize (IH s'). unfold run_state in IH. by destruct (for_each ops append s') as [[t' r] s''].
Qed.

Lemma for_each_app {X} (l k : list X) body s :
  for_each (l ++ k) body s = (_ ← for_each l body; for_each k body) s.
Proof.
  revert s. induction l as [|x l IH]; intros s; cbn.
  - unfold mbind, io_bind. cbn. by destruct (for_each k body s) as [[t r] s'].
  - unfold mbind, io_bind. destruct (body x s) as [[t [[]|e]] s']; [|done]. rewrite IH. unfold mbind, io_bind.
    destruct (for_each l body s') as [[t1 [[]|e]] s1]; [|done]. destruct (for_each k body s1) as [[t2 r] s2].
    by rewrite app_assoc.
Qed.

Lemma records_ret {A} C (a : A) : records C (mret a) [] a.
Proof. intros s _. reflexivity. Qed.

Lemma records_bind {A B} C (m : io A) (f : A -> io B) ops1 ops2 a b :
  records C m ops1 a -> records C (f a) ops2 b -> records C (m ≫= f) (ops1 ++ ops2) b.
Proof.
  intros Hm Hf s Hs. pose proof (for_each_append_collections ops1 s) as Hc. unfold mbind at 1, io_bind at 1. rewrite (Hm s Hs).
  unfold mbind, io_bind. rewrite for_each_app. unfold mbind, io_bind. unfold run_state in Hc.
  destruct (for_each ops1 append s) as [[t1 [[]|e]] s1]; [|done]. cbn. rewrite (Hf s1) by congruence.
  unfold mbind, io_bind. destruct (for_each ops2 append s1) as [[t2 [[]|e]] s2]; cbn; by rewrite ?app_nil_r.
Qed.

Definition recorded (tx : Transaction) (ops : list Operation) : Transaction := {| tx_operations := tx_operations tx ++ ops |}.

Lemma records_record C tx op : records C (record crc32 to_bytes tx op) [op] (recorded tx [op]).
Proof.
  intros s _. unfold record. cbn. unfold mbind, io_bind. destruct (append op s) as [[t [[]|e]] s']; cbn; by rewrite ?app_nil_r.
Qed.

(** A call that only looks at the disk first. *)
Lemma records_eq {A} C (m m' : io A) ops a : (forall s, collections s = C -> m s = m' s) -> records C m' ops a -> records C m ops a.
Proof. intros H Hm s Hs. rewrite H by done. by apply Hm. Qed.

Lemma io_bind_ok {A B} (a : A) (f : A -> io B) (m : io A) s : m s = ([], Ok a, s) -> (m ≫= f) s = f a s.
Proof. intros H. unfold mbind, io_bind. rewrite H. by destruct (f a s) as [[t r] s']. Qed.

Definition is_dir (C : gmap string dir) (c : CollectionName) : bool := bool_decide (is_Some (C !! as_str c)).
Definition accepted (c : CollectionName) : Prop := sanitize_path_segment sanitize (as_str c) = Ok ().

Lemma collection_dir_ok c : accepted c -> collection_dir sanitize c = Ok (as_str c).
Proof. unfold collection_dir. by intros ->. Qed.

Lemma records_copy C tx src dn : accepted src -> accepted dn -> is_Some (C !! as_str src) ->
  records C (copy_collection crc32 to_bytes sanitize tx src dn) [CopyCollection src dn (is_dir C dn)]
    (recorded tx [CopyCollection src dn (is_dir C dn)]).
Proof.
  intros Hs Hd He. eapply records_eq; [|apply records_record]. intros s HC. unfold copy_collection.
  rewrite !collection_dir_ok by done. rewrite (io_bind_ok (as_str src)) by done. rewrite (io_bind_ok true).
  2:{ unfold query, dir_exists, get_dir. by rewrite HC, bool_decide_eq_true_2. }
  rewrite (io_bind_ok (as_str dn)) by done. rewrite (io_bind_ok (is_dir C dn)); [done|].
  unfold query, dir_exists, get_dir, is_dir. by rewrite HC.
Qed.

Lemma records_delete_collection C tx c : accepted c -> is_Some (C !! as_str c) ->
  records C (delete_collection crc32 to_bytes sanitize tx c) [DeleteCollection c] (recorded tx [DeleteCollection c]).
Proof.
  intros Ha He. eapply records_eq; [|apply records_record]. intros s HC. unfold delete_collection.
  rewrite collection_dir_ok by done. rewrite (io_bind_ok (as_str c)) by done. rewrite (io_bind_ok true); [done|].
  unfold query, dir_exists, get_dir. by rewrite HC, bool_decide_eq_true_2.
Qed.

Lemma missing_collection C tx c s : accepted c -> C !! as_str c = None -> collections s = C ->
  delete_collection crc32 to_bytes sanitize tx c s = ([], Err (CollectionNotFound (as_str c)), s).
Proof.
  intros Ha He HC. unfold delete_collection. rewrite collection_dir_ok by done. rewrite (io_bind_ok (as_str c)) by done.
  rewrite (io_bind_ok false); [done|]. unfold query, dir_exists, get_dir. by rewrite HC, He.
Qed.
End records.
