(* ===== verification/LocalCollection.v ===== *)
(** * Collections: keys, listing, reading and writing

    cda-storage/src/local_collection.rs.  Keys are normalised to lower case; a
    file that is on disk under another case is renamed when its key is used. *)

From S2P Require Import Prelude StorageTypes FileSystem Wal LocalStorage StorageInvariant StorageRollback StorageApply StorageRecovery StorageCommit.

Definition eq_ignore_ascii_case (a b : string) : bool :=
  bool_decide (to_ascii_lowercase a = to_ascii_lowercase b).

Section collection.
Context (order : list string -> list string).
Context (crc32 : list Z -> Z).
Context (to_bytes : Operation -> option (list Z)).
Context (sanitize : bool).

Abbreviation record := (record crc32 to_bytes).

(** [LocalCollection]: its name and directory. *)
Record LocalCollection : Type := { name : CollectionName; dir_path : string }.

Definition key_path (self : LocalCollection) (key : string) : sresult string :=
  _ ← sanitize_path_segment sanitize key;
  Ok key.

(** The first listed file whose name differs from the key in case only. *)
Definition case_variant (key : string) (entries : list string) : option string :=
  head (filter (fun n => is_valid_key n = true /\ n <> key /\ eq_ignore_ascii_case n key = true) entries).

Definition ensure_normalized_on_disk (self : LocalCollection) (key : string) : io () :=
  ex ← query (fun s => file_exists s (dir_path self) key);
  if (ex : bool) then mret ()
  else
    d ← query (fun s => get_dir s (dir_path self));
    match (d : option dir) with
    | None => mret ()
    | Some d =>
        match case_variant key (names order d) with
        | Some n => _ ← try_io (rename_file (dir_path self) n key); mret ()
        | None => mret ()
        end
    end.

(** Opening a file for reading: its contents, whose length is its size. *)
Definition open_file (c k : string) : io file :=
  v ← query (fun s => get_file s c k);
  match v with Some v => mret v | None => throw (map_io_error NotFound k) end.

Definition read (self : LocalCollection) (key : string) : io file :=
  let key := normalize_key key in
  path ← lift (key_path self key);
  _ ← ensure_normalized_on_disk self key;
  open_file (dir_path self) path.

(** The handle's positional read: at most [n] bytes from [offset]. *)
Definition read_at (v : file) (offset : Z) (n : nat) : file := take n (drop (Z.to_nat offset) v).

Record Metadata : Type := { meta_name : string; data_size : Z }.

Definition metadata (self : LocalCollection) (key : string) : io Metadata :=
  let key := normalize_key key in
  path ← lift (key_path self key);
  _ ← ensure_normalized_on_disk self key;
  v ← open_file (dir_path self) path;
  mret {| meta_name := key; data_size := len v |}.

Definition list_keys_in_dir (c : string) : io (list string) :=
  d ← query (fun s => get_dir s c);
  match d with
  | None => mret []
  | Some d => mret (normalize_key <$> filter (fun n => is_valid_key n = true) (names order d))
  end.

Definition list_keys (self : LocalCollection) : io (list string) := list_keys_in_dir (dir_path self).
Definition key_count (self : LocalCollection) : io Z :=
  ks ← list_keys self; mret (len ks).
Definition is_empty (self : LocalCollection) : io bool :=
  n ← key_count self; mret (n =? 0)%Z.

(** Creating a staging file and streaming the data into it. *)
Definition set_staged (p : string) (v : file) : io () := call (fun s =>
  Ok (mk_fs (collections s) (<[p := v]> (staging s)) (wal_file s))).

(** [staged_path] is the fresh name of the staging file. *)
Definition write (self : LocalCollection) (tx : Transaction) (key : string) (data : file)
    (staged_path : string) : io Transaction :=
  let key := normalize_key key in
  _ ← lift (sanitize_path_segment sanitize key);
  _ ← set_staged staged_path [];
  _ ← set_staged staged_path data;
  record tx (Write (name self) key staged_path).

Definition delete_key (self : LocalCollection) (tx : Transaction) (key : string) : io Transaction :=
  let key := normalize_key key in
  _ ← ensure_normalized_on_disk self key;
  path ← lift (key_path self key);
  ex ← query (fun s => file_exists s (dir_path self) path);
  if (ex : bool) then record tx (Delete (name self) key) else throw (KeyNotFound key).

Definition delete_all (self : LocalCollection) (tx : Transaction) : io Transaction :=
  record tx (DeleteAll (name self)).

Definition file_path (self : LocalCollection) (key : string) : io string :=
  let key := normalize_key key in
  _ ← ensure_normalized_on_disk self key;
  path ← lift (key_path self key);
  ex ← query (fun s => file_exists s (dir_path self) path);
  if (ex : bool) then mret path else throw (KeyNotFound key).
End collection.

(** ** Every listed key resolves *)

Lemma case_variant_some key entries n :
  n ∈ entries -> is_valid_key n = true -> n <> key -> eq_ignore_ascii_case n key = true ->
  exists m, case_variant key entries = Some m /\ m ∈ entries /\ m <> key.
Proof.
  intros Hin Hv Hne He. unfold case_variant.
  assert (Hf : n ∈ filter (fun n => is_valid_key n = true /\ n <> key /\ eq_ignore_ascii_case n key = true) entries)
    by (apply list_elem_of_filter; done).
  destruct (filter _ entries) as [|m l] eqn:E; [by apply elem_of_nil in Hf|].
  exists m. split; [done|].
  assert (Hm : m ∈ filter (fun n => is_valid_key n = true /\ n <> key /\ eq_ignore_ascii_case n key = true) entries)
    by (rewrite E; by left).
  apply list_elem_of_filter in Hm as [(_ & ? & _) ?]. done.
Qed.

(** every key a collection lists can be read, in whatever case its file is
    on disk: [list] and [read] agree on which entries exist. *)
Theorem listed_keys_readable order self s keys k :
  (forall l, order l ≡ₚ l) ->
  run_result (list_keys order self) s = Ok keys -> k ∈ keys ->
  exists v, run_result (read order false self k) s = Ok v.
Proof.
  intros Horder Hl Hk. unfold list_keys, list_keys_in_dir in Hl.
  cbv [run_result mbind io_bind query] in Hl.
  destruct (get_dir s (dir_path self)) as [d|] eqn:Ed; injection Hl as <-; [|by apply elem_of_nil in Hk].
  apply list_elem_of_fmap in Hk as (n & -> & [Hv Hn]%list_elem_of_filter).
  rewrite names_elem in Hn by done. set (key := normalize_key n).
  assert (Hkey : normalize_key key = key) by apply normalize_key_idem.
  assert (Hruns : runs (read order false self key) s (fun _ => True) (fun _ _ => True) (fun _ _ => False)).
  2:{ destruct (runs_ok _ _ _ _ Hruns) as (v & Hr & _). by exists v. }
  unfold read. rewrite Hkey. apply runs_bind, runs_lift. simpl.
  assert (Hopen : forall u d' v, get_dir u (dir_path self) = Some d' -> d' !! key = Some v ->
    runs (open_file (dir_path self) key) u (fun _ => True) (fun _ _ => True) (fun _ _ => False)).
  { intros u d' v Hd' Hk'. apply runs_bind, runs_query. unfold get_file. rewrite Hd', Hk'.
    by apply runs_ret. }
  apply runs_bind, runs_bind, runs_query.
  destruct (file_exists s (dir_path self) key) eqn:Ex.
  - apply file_exists_get in Ex as (d' & v & Hd' & Hv'). apply runs_ret. by eapply Hopen.
  - apply runs_bind, runs_query. rewrite Ed. rewrite file_exists_false in Ex. specialize (Ex d Ed).
    assert (Hne : n <> key) by (intros E; rewrite <- E in Ex; destruct Hn; congruence).
    destruct (case_variant_some key (names order d) n) as (m & -> & Hm & Hmk);
      [by apply names_elem|done|done| |].
    { unfold eq_ignore_ascii_case. apply bool_decide_eq_true. symmetry. exact Hkey. }
    rewrite names_elem in Hm by done. destruct Hm as [v Hmv].
    apply runs_bind, runs_try. eapply runs_rename_file; [done|done|]. split; [done|].
    apply runs_ret. eapply Hopen; [unfold get_dir; simpl; apply lookup_insert_eq|apply lookup_insert_eq].
Qed.

Lemma listed_keys_readable_witness :
  let self := {| name := Custom "db"; dir_path := "db" |} in
  let s := mk_fs {[ "db" := {[ "Flash.MDD" := [1%Z; 2%Z] ]} ]} ∅ None in
  run_result (list_keys id self) s = Ok ["flash.mdd"] /\
  exists v, run_result (read id false self "flash.mdd") s = Ok v.
Proof.
  intros self s. split; [reflexivity|].
  apply (listed_keys_readable id self s ["flash.mdd"] "flash.mdd"); [intros l; reflexivity|reflexivity|left].
Defined.

(** ** Writing and reading back *)

Lemma read_present order sanitize self key s v :
  sanitize_path_segment sanitize (normalize_key key) = Ok () ->
  get_file s (dir_path self) (normalize_key key) = Some v ->
  run_result (read order sanitize self key) s = Ok v.
Proof.
  intros Hsan Hv.
  assert (Hruns : runs (read order sanitize self key) s (fun _ => True) (fun a _ => a = v)
                    (fun _ _ => False)).
  { unfold read, key_path. rewrite Hsan. apply runs_bind, runs_lift. simpl.
    apply runs_bind, runs_bind, runs_query. unfold file_exists at 1.
    rewrite Hv, bool_decide_eq_true_2 by by eexists. apply runs_ret, runs_bind, runs_query.
    rewrite Hv. by apply runs_ret. }
  by destruct (runs_ok _ _ _ _ Hruns) as (? & -> & ->).
Qed.

(** a value written under a key in a transaction is what a read of the key
    returns after the commit, whatever the case of the key in the two calls;
    beginning, writing and committing all succeed, and the storage is ready
    for the next transaction. *)
Theorem write_commit_read order crc32 to_bytes sanitize self coll key key' data p e d :
  (forall l, order l ≡ₚ l) -> tx_active self = false -> committed_ok (collections (disk self)) ->
  dir_path coll = as_str (name coll) -> plain_name (dir_path coll) ->
  get_dir (disk self) (dir_path coll) = Some d ->
  plain_name (normalize_key key) -> sanitize_path_segment sanitize (normalize_key key) = Ok () ->
  encode_entry crc32 to_bytes (Write (name coll) (normalize_key key) p) = Ok e ->
  normalize_key key' = normalize_key key ->
  exists tx st1 st2 tx' st3,
    begin_transaction crc32 self = (Ok tx, st1) /\
    on_disk st1 (write crc32 to_bytes sanitize coll tx key data p) = (Ok tx', st2) /\
    commit order crc32 st2 tx' = (Ok (), st3) /\ tx_active st3 = false /\
    run_result (read order sanitize coll key') (disk st3) = Ok data.
Proof.
  intros Horder Hact HC Hdir Hplain Hd Hk Hsan He Hkey. set (nk := normalize_key key) in *.
  set (op := Write (name coll) nk p) in *. set (C := collections (disk self)) in *.
  set (log := encode_header crc32 STATUS_RECORDING).
  set (s1 := mk_fs C (staging (disk self)) (Some log)).
  set (s2 := mk_fs C (<[p := data]> (<[p := []]> (staging (disk self)))) (Some (log ++ e))).
  exists {| tx_operations := [] |}, {| disk := s1; tx_active := true |},
    {| disk := s2; tx_active := true |}, {| tx_operations := [op] |}.
  assert (Hcommit : runs (commit_operations order crc32 [op]) s2 (fun _ => True)
    (fun _ u => u = mk_fs (spec_run [op] (C, staging s2)).1 ∅ None) (fun _ _ => False)).
  { apply (commit_succeeds _ _ _ s2 (log ++ e)); try done.
    - constructor; [|done]. split; [by rewrite <- Hdir|done].
    - constructor; [|done]. split; [by rewrite <- Hdir|done].
    - split; [|done]. split; [exists data; apply lookup_insert_eq|].
      change (collections (marked crc32 s2 (log ++ e))) with C. change (collections s2) with C.
      rewrite <- Hdir. unfold get_dir in Hd. fold C in Hd. rewrite Hd. unfold write_safe.
      destruct (C !! bak (dir_path coll)); [done|]. rewrite Hd.
      destruct (d !! nk) as [v|]; [|by intros []]. split; [|by eexists].
      destruct (d !! bak nk) as [w|] eqn:Eb; [exfalso|done].
      apply (bak_not_plain nk); [by apply plain_nonempty|]. by eapply committed_key; [|exact Hd|by exists w]. }
  destruct (runs_ok _ _ _ _ Hcommit) as ([] & Hr & Hst).
  exists {| disk := run_state (commit_operations order crc32 [op]) s2; tx_active := false |}.
  split; [|split; [|split; [|split; [done|]]]].
  - unfold begin_transaction. by rewrite Hact.
  - unfold on_disk, write. fold nk. rewrite Hsan. unfold record, append_operation. fold op.
    rewrite He. reflexivity.
  - unfold commit. simpl. by rewrite Hr.
  - apply read_present; rewrite Hkey; [done|]. cbn [disk]. rewrite Hst. unfold get_file, get_dir, op.
    cbn [collections spec_run foldl spec_step staging]. fold nk.
    change (staging s2 !! p) with (<[p := data]> (<[p := []]> (staging (disk self))) !! p).
    rewrite lookup_insert_eq. cbn [fst]. by rewrite Hdir, !lookup_insert_eq.
Qed.

Lemma write_commit_read_witness :
  let coll := {| name := Custom "db"; dir_path := "db" |} in
  let self := {| disk := mk_fs ex_C0 ∅ None; tx_active := false |} in
  exists tx st1 st2 tx' st3,
    begin_transaction ex_crc self = (Ok tx, st1) /\
    on_disk st1 (write ex_crc (ex_to_bytes "b") true coll tx "B" [9%Z] "s") = (Ok tx', st2) /\
    commit id ex_crc st2 tx' = (Ok (), st3) /\ tx_active st3 = false /\
    run_result (read id true coll "b") (disk st3) = Ok [9%Z].
Proof.
  intros coll self.
  apply (write_commit_read id ex_crc (ex_to_bytes "b") true self coll "B" "b" [9%Z] "s" (ex_entry "b")
    {[ "a" := [1%Z] ]}); try reflexivity; try (by split); try apply ex_committed.
Defined.
