(* ===== verification/Uds.v ===== *)
(** * UDS frames

    The classification of raw response bytes (cda-interfaces/src/uds.rs), the
    request and response payload with its matching rules ([ServicePayload] of
    cda-interfaces/src/ecumanager.rs) and the matching helpers of
    cda-interfaces/src/util.rs.  The two gateways classify with
    [pending_nrc_from_raw], the CAN gateway filters with
    [uds_response_matches_request_sid], the UDS layer with
    [is_response_for_sid]: the theorems relate the three. *)

From stdpp Require Import strings.
From S2P Require Import Prelude Bytes Errors.

Local Open Scope Z_scope.

(** ** Identifiers *)

Definition SESSION_CONTROL : Z := 16.
Definition ECU_RESET : Z := 17.
Definition READ_DTC_INFORMATION : Z := 25.
Definition READ_DATA_BY_IDENTIFIER : Z := 34.
Definition SECURITY_ACCESS : Z := 39.
Definition COMMUNICATION_CONTROL : Z := 40.
Definition AUTHENTICATION : Z := 41.
Definition DYNAMICALLY_DEFINE_DATA_IDENTIFIER : Z := 44.
Definition WRITE_DATA_BY_IDENTIFIER : Z := 46.
Definition INPUT_OUTPUT_CONTROL_BY_IDENTIFIER : Z := 47.
Definition ROUTINE_CONTROL : Z := 49.
Definition TESTER_PRESENT : Z := 62.
Definition NEGATIVE_RESPONSE : Z := 127.
Definition CONTROL_DTC_SETTING : Z := 133.
Definition RESPONSE_ON_EVENT : Z := 134.
Definition LINK_CONTROL : Z := 135.

Definition BUSY_REPEAT_REQUEST : Z := 33.
Definition RESPONSE_PENDING : Z := 120.
Definition TEMPORARILY_NOT_AVAILABLE : Z := 148.

Definition UDS_ID_RESPONSE_BITMASK : Z := 64.
Definition DEFAULT_SUBFUNCTION_MASK : Z := 127.

(** [u8::saturating_add]. *)
Definition u8_sat_add (a b : Z) : Z := Z.min (a + b) 255.

(** [x == Some(&b)]. *)
Definition is_byte (o : option Z) (b : Z) : bool := bool_decide (o = Some b).

(** ** Classification of raw responses *)

Inductive PendingNrc : Type :=
  | ResponsePending (source_address : Z)
  | BusyRepeatRequest (source_address : Z)
  | TemporarilyNotAvailable (source_address : Z).

Record ServicePayload : Type := {
  data : list Z;
  source_address : Z;
  target_address : Z;
  new_session : option string;
  new_security : option string
}.

Inductive TransportResponse : Type :=
  | Pending (nrc : PendingNrc)
  | UdsResponse (msg : ServicePayload).

Definition is_negative_response (data : list Z) : bool := is_byte (head data) NEGATIVE_RESPONSE.

Definition is_tester_present_nrc (data : list Z) : bool :=
  is_negative_response data && is_byte (get data 1) TESTER_PRESENT.

Definition is_pending_nrc (data : list Z) : bool :=
  is_negative_response data && (3 <=? len data) &&
  (is_byte (get data 2) RESPONSE_PENDING || is_byte (get data 2) BUSY_REPEAT_REQUEST
   || is_byte (get data 2) TEMPORARILY_NOT_AVAILABLE).

Definition pending_nrc_from_raw (data : list Z) (source_address : Z) : option PendingNrc :=
  if negb (is_pending_nrc data) then None
  else if is_byte (get data 2) RESPONSE_PENDING then Some (ResponsePending source_address)
  else if is_byte (get data 2) BUSY_REPEAT_REQUEST then Some (BusyRepeatRequest source_address)
  else if is_byte (get data 2) TEMPORARILY_NOT_AVAILABLE then Some (TemporarilyNotAvailable source_address)
  else None.

Definition uds_response_from_raw (data : list Z) (source_address target_address : Z) : ServicePayload :=
  {| data := data; source_address := source_address; target_address := target_address;
     new_session := None; new_security := None |}.

(** ** Matching a response with its request *)

Definition is_positive_response_for_sid (self : ServicePayload) (sent_sid : Z) : bool :=
  is_byte (head (data self)) (u8_sat_add sent_sid UDS_ID_RESPONSE_BITMASK).

Definition is_negative_response_for_sid (self : ServicePayload) (sent_sid : Z) : bool :=
  is_byte (head (data self)) NEGATIVE_RESPONSE && is_byte (get (data self) 1) sent_sid.

Definition is_response_for_sid (self : ServicePayload) (sent_sid : Z) : bool :=
  is_negative_response_for_sid self sent_sid || is_positive_response_for_sid self sent_sid.

Definition sprmib_capable (sid : Z) : bool :=
  bool_decide (sid ∈ [SESSION_CONTROL; ECU_RESET; READ_DTC_INFORMATION; COMMUNICATION_CONTROL;
    SECURITY_ACCESS; AUTHENTICATION; DYNAMICALLY_DEFINE_DATA_IDENTIFIER; ROUTINE_CONTROL;
    CONTROL_DTC_SETTING; RESPONSE_ON_EVENT; LINK_CONTROL; TESTER_PRESENT]).

Definition is_suppress_positive_response (self : ServicePayload) : bool :=
  match head (data self) with
  | None => false
  | Some sid =>
      sprmib_capable sid &&
      match get (data self) 1 with
      | Some b => negb (Z.land b 128 =? 0)
      | None => false
      end
  end.

Definition echo_byte_count (sent_sid : Z) : Z :=
  if bool_decide (sent_sid ∈ [READ_DATA_BY_IDENTIFIER; WRITE_DATA_BY_IDENTIFIER;
                              INPUT_OUTPUT_CONTROL_BY_IDENTIFIER]) then 2
  else if sent_sid =? ROUTINE_CONTROL then 3
  else 0.

(** The comparison of the echoed bytes, for equally long slices. *)
Definition echo_matches (sent_sid : Z) (request_echo response_echo : list Z) : bool :=
  if sent_sid =? ROUTINE_CONTROL then
    let request_subfn := Z.land (default 0 (head request_echo)) DEFAULT_SUBFUNCTION_MASK in
    let response_subfn := default 0 (head response_echo) in
    if negb (request_subfn =? response_subfn) then false
    else bool_decide (slice request_echo 1 (len request_echo) = slice response_echo 1 (len response_echo))
  else bool_decide (request_echo = response_echo).

Definition has_matching_echo_bytes (self : ServicePayload) (request_data : list Z) : bool :=
  match head request_data with
  | None => true
  | Some sent_sid =>
      if negb (is_positive_response_for_sid self sent_sid) then true
      else
        let echo_len := echo_byte_count sent_sid in
        if echo_len =? 0 then true
        else
          match slice request_data 1 (sat_add 1 echo_len) with
          | None => true
          | Some request_echo =>
              match slice (data self) 1 (sat_add 1 echo_len) with
              | None => false
              | Some response_echo => echo_matches sent_sid request_echo response_echo
              end
          end
  end.

(** The matching and extraction helpers of util.rs. *)

Definition try_extract_sid_from_payload (payload : list Z) : dresult Z :=
  match payload with
  | [] => Err BadPayload
  | sid :: rest =>
      if sid =? NEGATIVE_RESPONSE then
        match rest with sid_rq :: _ => Ok sid_rq | [] => Err BadPayload end
      else Ok sid
  end.

Definition uds_response_matches_request_sid (request_sid : Z) (response : list Z) : bool :=
  if is_byte (head response) NEGATIVE_RESPONSE then is_byte (get response 1) request_sid
  else is_byte (head response) (Z.lor request_sid UDS_ID_RESPONSE_BITMASK).

(** ** Lemmas *)

Lemma is_byte_some o b : is_byte o b = true <-> o = Some b.
Proof. apply bool_decide_eq_true. Qed.

Lemma get_cons_0 {A} (a : A) l : get (a :: l) 0 = Some a.
Proof. done. Qed.
Lemma get_cons_1 {A} (a b : A) l : get (a :: b :: l) 1 = Some b.
Proof. done. Qed.

(** Adding the response bit by [saturating_add] sets it, when it is clear. *)
Lemma response_bit sid :
  is_u8 sid -> Z.testbit sid 6 = false ->
  u8_sat_add sid UDS_ID_RESPONSE_BITMASK = Z.lor sid UDS_ID_RESPONSE_BITMASK.
Proof.
  intros Hu Hbit. unfold u8_sat_add, UDS_ID_RESPONSE_BITMASK.
  assert (Hadd : sid + 64 = Z.lor sid 64).
  { apply Z.add_nocarry_lor, Z.bits_inj_iff. intros k. rewrite Z.land_spec, Z.bits_0.
    destruct (Z.eq_dec k 6) as [->|Hk]; [by rewrite Hbit|].
    change 64 with (2 ^ 6). rewrite Z.pow2_bits_false by lia. apply andb_false_r. }
  rewrite <- Hadd, Z.min_l; [done|].
  pose proof (lor_u8 sid 64 Hu ltac:(unfold is_u8; lia)) as Hl. unfold is_u8 in Hl. lia.
Qed.

Lemma response_bit_not_negative sid :
  is_u8 sid -> Z.testbit sid 6 = false -> sid <> 63 ->
  u8_sat_add sid UDS_ID_RESPONSE_BITMASK <> NEGATIVE_RESPONSE.
Proof. unfold u8_sat_add, UDS_ID_RESPONSE_BITMASK, NEGATIVE_RESPONSE. lia. Qed.

(** Every request identifier has the response bit clear. *)
Example request_sids_have_no_response_bit :
  Forall (fun sid => is_u8 sid /\ Z.testbit sid 6 = false /\ sid <> 63)
    [SESSION_CONTROL; ECU_RESET; READ_DTC_INFORMATION; READ_DATA_BY_IDENTIFIER; SECURITY_ACCESS;
     COMMUNICATION_CONTROL; AUTHENTICATION; DYNAMICALLY_DEFINE_DATA_IDENTIFIER;
     WRITE_DATA_BY_IDENTIFIER; INPUT_OUTPUT_CONTROL_BY_IDENTIFIER; ROUTINE_CONTROL;
     TESTER_PRESENT; CONTROL_DTC_SETTING; RESPONSE_ON_EVENT; LINK_CONTROL].
Proof. repeat constructor; try done. Qed.

Lemma pending_nrc_none data a :
  pending_nrc_from_raw data a = None <-> is_pending_nrc data = false.
Proof.
  unfold pending_nrc_from_raw. destruct (is_pending_nrc data) eqn:E; simpl; [|done].
  apply andb_true_iff in E as [_ E].
  destruct (is_byte _ RESPONSE_PENDING), (is_byte _ BUSY_REPEAT_REQUEST), (is_byte _ TEMPORARILY_NOT_AVAILABLE); done.
Qed.

(** ** Properties *)

(** the filter of the CAN gateway and the matching rule of the UDS layer,
    written apart (one sets the response bit with [|], the other adds it with
    [saturating_add]), accept the same frames for every request identifier
    with the response bit clear, other than 0x3F whose positive response would
    read as a negative one.  Both name the identifier that
    [try_extract_sid_from_payload] finds behind a negative response. *)
Theorem response_matchers_agree self sid :
  is_u8 sid -> Z.testbit sid 6 = false -> sid <> 63 ->
  is_response_for_sid self sid = uds_response_matches_request_sid sid (data self) /\
  (is_negative_response_for_sid self sid = true -> try_extract_sid_from_payload (data self) = Ok sid).
Proof.
  intros Hu Hbit Hne. split.
  - unfold is_response_for_sid, uds_response_matches_request_sid, is_positive_response_for_sid,
      is_negative_response_for_sid.
    pose proof (response_bit_not_negative sid Hu Hbit Hne) as H7f.
    rewrite <- response_bit by done.
    destruct (is_byte (head (data self)) NEGATIVE_RESPONSE) eqn:E; simpl; [|done].
    apply is_byte_some in E. rewrite E.
    unfold is_byte at 2. rewrite bool_decide_eq_false_2 by congruence. apply orb_false_r.
  - unfold is_negative_response_for_sid. intros [H0 H1]%andb_true_iff.
    apply is_byte_some in H0, H1. destruct (data self) as [|b [|c l]]; [done..|].
    injection H0 as ->. by injection H1 as ->.
Qed.

Lemma response_matchers_agree_witness :
  let self := uds_response_from_raw [98; 241; 144; 1] 1 2 in
  is_response_for_sid self 34 = uds_response_matches_request_sid 34 (data self).
Proof. intros self. apply (response_matchers_agree self 34); [split; done|done|done]. Defined.

(** The identifier bytes a positive response has to repeat: for a
    RoutineControl request the sub-function without its suppress bit. *)
Definition echo_of (sid : Z) (request : list Z) : list Z :=
  let echo := take (Z.to_nat (echo_byte_count sid)) (drop 1 request) in
  if sid =? ROUTINE_CONTROL
  then match echo with sub :: rest => Z.land sub DEFAULT_SUBFUNCTION_MASK :: rest | [] => [] end
  else echo.

(** ** Echoed identifiers *)

Lemma slice_tail {A} (x : A) l n :
  0 <= n -> slice (x :: l) 1 (1 + n) = if n <=? len l then Some (take (Z.to_nat n) l) else None.
Proof.
  intros Hn. unfold slice. rewrite len_cons, (proj2 (Z.leb_le 1 (1 + n))) by lia. simpl.
  destruct (Z.leb_spec n (len l)), (Z.leb_spec (1 + n) (1 + len l)); try lia; [|done].
  by replace (1 + n - 1) with n by lia.
Qed.

Lemma echo_byte_count_cases sid :
  0 < echo_byte_count sid ->
  (echo_byte_count sid = 2 /\ (sid =? ROUTINE_CONTROL) = false) \/
  (echo_byte_count sid = 3 /\ (sid =? ROUTINE_CONTROL) = true).
Proof.
  unfold echo_byte_count. case_bool_decide as H; [|destruct (sid =? ROUTINE_CONTROL); [by right|done]].
  intros _. left. split; [done|]. repeat (apply elem_of_cons in H as [->|H]; [done|]). by apply elem_of_nil in H.
Qed.

(** [echo_matches] compares with [echo_of]. *)
Lemma echo_matches_spec sid x req echo :
  0 < echo_byte_count sid -> echo_byte_count sid <= len req -> len echo = echo_byte_count sid ->
  echo_matches sid (take (Z.to_nat (echo_byte_count sid)) req) echo = true <->
  echo = echo_of sid (x :: req).
Proof.
  unfold echo_matches, echo_of. intros Hp Hreq Hecho. simpl (drop 1 _). rewrite drop_0.
  destruct (echo_byte_count_cases sid Hp) as [[Hn ->]|[Hn ->]]; rewrite Hn in *.
  - rewrite bool_decide_eq_true. naive_solver.
  - destruct req as [|a [|b [|c req]]]; try (unfold len in Hreq; simpl in Hreq; lia).
    destruct echo as [|d [|e [|f [|]]]]; try (unfold len in Hecho; simpl in Hecho; lia).
    change (take (Z.to_nat 3) (a :: b :: c :: req)) with [a; b; c]. simpl head. simpl default.
    destruct (Z.eqb_spec (Z.land a DEFAULT_SUBFUNCTION_MASK) d) as [->|Hne]; simpl negb; cbv iota.
    + rewrite bool_decide_eq_true. split; [by intros [= -> ->]|by intros [= -> ->]].
    + split; [done|congruence].
Qed.

(** a response with the right service identifier is taken for the answer
    unless it is positive and does not repeat the identifier bytes of the
    request: for ReadDataByIdentifier, WriteDataByIdentifier and
    InputOutputControl the two bytes of the data identifier, for
    RoutineControl the sub-function without its suppress bit and the routine
    identifier.  A positive response shorter than that is refused. *)
Theorem echo_accepts self sid request :
  0 < echo_byte_count sid -> echo_byte_count sid <= len request ->
  is_response_for_sid self sid = true ->
  has_matching_echo_bytes self (sid :: request) = true <->
  is_positive_response_for_sid self sid = false \/
  exists rest, data self = u8_sat_add sid UDS_ID_RESPONSE_BITMASK :: echo_of sid (sid :: request) ++ rest.
Proof.
  intros Hp Hlen Hr. unfold has_matching_echo_bytes. change (head (sid :: request)) with (Some sid). cbv iota.
  destruct (is_positive_response_for_sid self sid) eqn:Epos; simpl negb; cbv iota;
    [|split; [by left|done]].
  rewrite (proj2 (Z.eqb_neq (echo_byte_count sid) 0)) by lia.
  unfold is_positive_response_for_sid in Epos. apply is_byte_some in Epos.
  destruct (data self) as [|r body]; [done|]. injection Epos as ->.
  assert (Hsat : sat_add 1 (echo_byte_count sid) = 1 + echo_byte_count sid).
  { apply sat_add_exact. unfold USIZE_MAX. destruct (echo_byte_count_cases sid Hp) as [[-> _]|[-> _]]; lia. }
  rewrite Hsat, !slice_tail, (proj2 (Z.leb_le _ _) Hlen) by lia.
  assert (Heol : len (echo_of sid (sid :: request)) = echo_byte_count sid).
  { assert (Ht : len (take (Z.to_nat (echo_byte_count sid)) request) = echo_byte_count sid)
      by (unfold len in *; rewrite length_take; lia).
    unfold echo_of. simpl (drop 1 _). rewrite drop_0.
    destruct (sid =? ROUTINE_CONTROL); [|done]. destruct (take _ request); [done|].
    by rewrite !len_cons in *. }
  destruct (Z.leb_spec (echo_byte_count sid) (len body)) as [Hb|Hb].
  - assert (Htk : len (take (Z.to_nat (echo_byte_count sid)) body) = echo_byte_count sid)
      by (unfold len in *; rewrite length_take; lia).
    rewrite (echo_matches_spec sid sid request) by done. split.
    + intros <-. right. exists (drop (Z.to_nat (echo_byte_count sid)) body). by rewrite take_drop.
    + intros [?|[rest [= ->]]]; [done|]. apply take_app_length'. unfold len in Heol. lia.
  - split; [done|]. intros [?|[rest [= ->]]]; [done|]. rewrite len_app in Hb.
    pose proof (len_nonneg rest). lia.
Qed.

Lemma echo_accepts_witness :
  has_matching_echo_bytes (uds_response_from_raw [113; 1; 2; 3; 9] 1 2) [49; 129; 2; 3] = true.
Proof.
  apply (echo_accepts (uds_response_from_raw [113; 1; 2; 3; 9] 1 2) 49 [129; 2; 3]);
    [done|vm_compute; discriminate|reflexivity|]. right. by exists [9].
Defined.
