(* ===== verification/Transport.v ===== *)
(** * Sending a request

    [send_with_raw_payload] of cda-comm-uds/src/transport.rs: the retry loop
    of the UDS layer around one request.  The gateway and the clock are the
    environment of the function: [gateway k] is what the gateway does with
    the [k]-th transmission, every waiting point of the code reads it.  Time
    is in nanoseconds since [start]. *)

From stdpp Require Import strings gmap.
From S2P Require Import Prelude Bytes Errors Uds.

Local Open Scope Z_scope.

(** ** Parameters *)

Inductive RetryPolicy : Type :=
  | Disabled
  | ContinueUntilTimeout
  | ContinueUnlimited.

Record UdsParameters : Type := {
  timeout_default : Z;
  rc_21_retry_policy : RetryPolicy;
  rc_21_completion_timeout : Z;
  rc_21_repeat_request_time : Z;
  rc_78_retry_policy : RetryPolicy;
  rc_78_completion_timeout : Z;
  rc_78_timeout : Z;
  rc_94_completion_timeout : Z;
  rc_94_retry_policy : RetryPolicy;
  rc_94_repeat_request_time : Z;
  repeat_req_count_app : Z
}.

Definition validate_timeout_by_policy (policy : RetryPolicy) (elapsed completion_timeout : Z) : dresult unit :=
  match policy with
  | Disabled => Err Timeout
  | ContinueUntilTimeout => if completion_timeout <? elapsed then Err Timeout else Ok ()
  | ContinueUnlimited => Ok ()
  end.

(** ** The environment *)

(** What arrives on the response channel. *)
Abbreviation received := (dresult (option TransportResponse)).

(** The messages on the channel, each with the time since the one before;
    there may be no end of them. *)
Definition arrivals : Type := nat -> option (Z * received).
Definition following (a : arrivals) : arrivals := fun i => a (S i).
(** Those of a list, and no others. *)
Definition listed (l : list (Z * received)) : arrivals := fun i => l !! i.

(** One transmission: how long [gateway.send] takes and what it returns, the
    messages that then arrive on the response channel, the time after the last
    one at which the channel is closed ([None]: never), and the time the
    gateway's task takes to end once the channel is dropped ([None]: never). *)
Record transmission : Type := {
  send_time : Z;
  send_result : dresult unit;
  incoming : arrivals;
  closes : option Z;
  teardown : option Z
}.

(** [tokio::time::timeout(t, response_rx.recv())]. *)
Inductive recv_result : Type :=
  | Received (r : received)
  | Closed
  | Elapsed.

Definition recv_timeout (t : Z) (message : option (Z * received)) (closes : option Z) : Z * recv_result :=
  match message with
  | Some (d, r) => if d <=? t then (d, Received r) else (t, Elapsed)
  | None => match closes with
          | Some d => if d <=? t then (d, Closed) else (t, Elapsed)
          | None => (t, Elapsed)
          end
  end.

Definition RETRY_TEARDOWN_GRACE : Z := 500 * 1000 * 1000.

(** The time spent in [await_stale_gateway_task]. *)
Definition await_stale_gateway_task (handle : option Z) : Z :=
  match handle with Some t => Z.min t RETRY_TEARDOWN_GRACE | None => RETRY_TEARDOWN_GRACE end.

(** ** The loops *)

(** The mutable variables of the loops: the clock, [rx_timeout_next],
    [app_retry_count], the number of transmissions so far, and
    [previous_task_handle] with the time that task takes to end. *)
Record locals : Type := {
  clock : Z;
  rx_timeout_next : option Z;
  app_retry_count : Z;
  sent : nat;
  previous_task_handle : option (option Z)
}.

Definition wait (d : Z) (s : locals) : locals :=
  {| clock := clock s + d; rx_timeout_next := rx_timeout_next s; app_retry_count := app_retry_count s;
     sent := sent s; previous_task_handle := previous_task_handle s |}.

Definition set_rx_timeout_next (t : option Z) (s : locals) : locals :=
  {| clock := clock s; rx_timeout_next := t; app_retry_count := app_retry_count s;
     sent := sent s; previous_task_handle := previous_task_handle s |}.

Definition set_handle (h : option (option Z)) (s : locals) : locals :=
  {| clock := clock s; rx_timeout_next := rx_timeout_next s; app_retry_count := app_retry_count s;
     sent := sent s; previous_task_handle := h |}.

Definition count_sent (s : locals) : locals :=
  {| clock := clock s; rx_timeout_next := rx_timeout_next s; app_retry_count := app_retry_count s;
     sent := S (sent s); previous_task_handle := previous_task_handle s |}.

(** [u32::saturating_add(1)], and [rx_timeout_next = None]. *)
Definition repeated (s : locals) : locals :=
  {| clock := clock s; rx_timeout_next := None;
     app_retry_count := Z.min (app_retry_count s + 1) (2 ^ 32 - 1);
     sent := sent s; previous_task_handle := previous_task_handle s |}.

(** How a loop body is left: [continue 'send], [break] with the result of
    'read_uds_messages, or [return]. *)
Inductive leave : Type :=
  | ContinueSend
  | BreakRead (uds_result : dresult ServicePayload)
  | Return (r : dresult (option ServicePayload)).

Section send.
Context (uds_params : UdsParameters) (gateway : nat -> transmission).
Context (payload : ServicePayload) (sent_sid rx_timeout : Z) (expect_response : bool).

(** "Repeat the last request up to CP_RepeatReqCountApp times before giving
    up": the code of the four failure branches. *)
Definition repeat_or (otherwise : leave) (s : locals) : leave * locals :=
  if app_retry_count s <? repeat_req_count_app uds_params
  then (ContinueSend, repeated s)
  else (otherwise, s).

(** [BusyRepeatRequest] and [TemporarilyNotAvailable]. *)
Definition busy_repeat (policy : RetryPolicy) (completion_timeout sleep_time : Z) (s : locals) : leave * locals :=
  match validate_timeout_by_policy policy (clock s) completion_timeout with
  | Err e => (BreakRead (Err e), s)
  | Ok _ => (ContinueSend, wait sleep_time s)
  end.

Definition is_expected (msg : ServicePayload) : bool :=
  negb (len (data msg) =? 0) && is_response_for_sid msg sent_sid.

(** The loop 'read_uds_messages over the messages of one transmission; [None]
    when [fuel] messages did not end it. *)
Fixpoint read_uds_messages (fuel : nat) (incoming : arrivals) (closes : option Z) (s : locals) : option (leave * locals) :=
  match fuel with
  | O => None
  | S fuel =>
      let '(d, r) := recv_timeout (default rx_timeout (rx_timeout_next s)) (incoming O) closes in
      let s := wait d s in
      match r with
      | Received (Ok (Some (UdsResponse msg))) =>
          if is_expected msg then
            if negb (has_matching_echo_bytes msg (data payload)) then read_uds_messages fuel (following incoming) closes s
            else Some (BreakRead (Ok msg), s)
          else read_uds_messages fuel (following incoming) closes s
      | Received (Ok (Some (Pending pending))) =>
          match pending with
          | BusyRepeatRequest _ =>
              Some (busy_repeat (rc_21_retry_policy uds_params) (rc_21_completion_timeout uds_params)
                      (rc_21_repeat_request_time uds_params) s)
          | TemporarilyNotAvailable _ =>
              Some (busy_repeat (rc_94_retry_policy uds_params) (rc_94_completion_timeout uds_params)
                      (rc_94_repeat_request_time uds_params) s)
          | ResponsePending _ =>
              match validate_timeout_by_policy (rc_78_retry_policy uds_params) (clock s)
                      (rc_78_completion_timeout uds_params) with
              | Err e => Some (BreakRead (Err e), s)
              | Ok _ => read_uds_messages fuel (following incoming) closes (set_rx_timeout_next (Some (rc_78_timeout uds_params)) s)
              end
          end
      | Received (Ok None) => Some (BreakRead (Err UnexpectedResponse), s)
      | Received (Err e) => Some (repeat_or (BreakRead (Err e)) s)
      | Closed | Elapsed => Some (repeat_or (BreakRead (Err Timeout)) s)
      end
  end.

(** [previous_task_handle.take()] and the wait for that task. *)
Definition await_previous (s : locals) : locals :=
  match previous_task_handle s with
  | Some handle => set_handle None (wait (await_stale_gateway_task handle) s)
  | None => s
  end.

(** One iteration of 'send; [reads] bounds the messages that are read. *)
Definition send_once (reads : nat) (s : locals) : option (leave * locals) :=
  let s := await_previous s in
  let t := gateway (sent s) in
  let s := count_sent (wait (send_time t) s) in
  match send_result t with
  | Err e => Some (repeat_or (Return (Err e)) s)
  | Ok _ =>
      let s := set_handle (Some (teardown t)) s in
      if negb expect_response then
        let '(d, _) := recv_timeout rx_timeout (incoming t O) (closes t) in
        Some (Return (Ok None), wait d s)
      else read_uds_messages reads (incoming t) (closes t) s
  end.

(** The loop 'send; [None] when [fuel] transmissions did not end it, or one of
    them did not. *)
Fixpoint send_loop (reads fuel : nat) (s : locals) : option (leave * locals) :=
  match fuel with
  | O => None
  | S fuel' =>
      match send_once reads s with
      | Some (ContinueSend, s') => send_loop reads fuel' s'
      | done => done
      end
  end.
End send.

(** ** The request *)

(** The service states of every ECU ([EcuRuntimeState::service_states]) and
    the ECUs reported to the state coordinator as disconnected. *)
Record uds_state : Type := {
  service_states : gmap string (gmap Z string);
  disconnected : list string
}.

Definition handle_ecu_disconnected (ecu_name : string) (u : uds_state) : uds_state :=
  {| service_states := service_states u; disconnected := disconnected u ++ [ecu_name] |}.

Definition set_service_state (ecu_name : string) (sid : Z) (value : option string) (u : uds_state) : uds_state :=
  match value with
  | None => u
  | Some v =>
      {| service_states := alter (fun st => <[sid := v]> st) ecu_name (service_states u);
         disconnected := disconnected u |}
  end.

(** What follows the loops. *)
Definition post_send (ecu_name : string) (payload : ServicePayload) (sent_sid : Z)
    (response : dresult ServicePayload) (u : uds_state) : uds_state :=
  let u := match response with
           | Err Timeout => if negb (sent_sid =? TESTER_PRESENT) then handle_ecu_disconnected ecu_name u else u
           | _ => u
           end in
  match response with
  | Ok msg =>
      if is_positive_response_for_sid msg sent_sid then
        set_service_state ecu_name SECURITY_ACCESS (new_security payload)
          (set_service_state ecu_name SESSION_CONTROL (new_session payload) u)
      else u
  | Err _ => u
  end.

Definition SEMAPHORE_TIMEOUT : Z := 10 * 1000 * 1000 * 1000.

(** The result, the state and the variables of the loops at the end; [sem] is
    the time until the semaphore of the ECU is free.  [None]: [fuel]
    transmissions, or [fuel] messages of one of them, did not end the request. *)
Definition send_with_raw_payload (fuel : nat) (uds_params : UdsParameters) (gateway : nat -> transmission)
    (ecu_name : string) (payload : ServicePayload) (timeout : option Z) (expect_response : bool)
    (sem : option Z) (u : uds_state) : option (dresult (option ServicePayload) * uds_state * nat) :=
  match service_states u !! ecu_name with
  | None => Some (Err NotFound, u, O)
  | Some _ =>
      match head (data payload) with
      | None => Some (Err BadPayload, u, O)
      | Some sent_sid =>
          match sem with
          | Some d =>
              if SEMAPHORE_TIMEOUT <? d then Some (Err Timeout, u, O)
              else
                let rx_timeout := default (timeout_default uds_params) timeout in
                let s := {| clock := d; rx_timeout_next := None; app_retry_count := 0; sent := 0;
                            previous_task_handle := None |} in
                match send_loop uds_params gateway payload sent_sid rx_timeout expect_response fuel fuel s with
                | None => None
                | Some (Return r, s') => Some (r, u, sent s')
                | Some (BreakRead response, s') =>
                    Some (Some <$> response, post_send ecu_name payload sent_sid response u, sent s')
                | Some (ContinueSend, s') => None (* unreachable: the loop goes on *)
                end
          | None => Some (Err Timeout, u, O)
          end
      end
  end.

(** ** Lemmas *)

(** Environments whose clock does not run backwards. *)
Definition transmission_ok (t : transmission) : Prop :=
  0 <= send_time t /\ (forall i m, incoming t i = Some m -> 0 <= m.1) /\
  (forall d, closes t = Some d -> 0 <= d) /\ (forall d, teardown t = Some d -> 0 <= d).

Definition params_ok (p : UdsParameters) : Prop :=
  0 <= rc_78_timeout p /\ 0 <= rc_21_repeat_request_time p /\ 0 <= rc_94_repeat_request_time p /\
  0 <= repeat_req_count_app p < 2 ^ 32.

Section loops.
Context (p : UdsParameters) (gateway : nat -> transmission) (payload : ServicePayload).
Context (sent_sid rx_timeout : Z) (expect_response : bool).
Local Abbreviation read := (read_uds_messages p payload sent_sid rx_timeout).

(** A loop that goes on has counted a repetition or waited for a busy ECU
    within its completion timeout. *)
Definition goes_on (s s' : locals) : Prop :=
  (app_retry_count s < repeat_req_count_app p /\
   app_retry_count s' = Z.min (app_retry_count s + 1) (2 ^ 32 - 1)) \/
  (app_retry_count s' = app_retry_count s /\
   ((rc_21_retry_policy p <> Disabled /\
     (rc_21_retry_policy p = ContinueUntilTimeout ->
      clock s' - rc_21_repeat_request_time p <= rc_21_completion_timeout p) /\
     clock s + rc_21_repeat_request_time p <= clock s') \/
    (rc_94_retry_policy p <> Disabled /\
     (rc_94_retry_policy p = ContinueUntilTimeout ->
      clock s' - rc_94_repeat_request_time p <= rc_94_completion_timeout p) /\
     clock s + rc_94_repeat_request_time p <= clock s'))).

Definition locals_ok (s : locals) : Prop :=
  (forall t, rx_timeout_next s = Some t -> 0 <= t <= rc_78_timeout p) /\
  (forall t, previous_task_handle s = Some (Some t) -> 0 <= t).

(** What a way of leaving the loop body says about the state reached from [s]. *)
Definition left_ok (s : locals) (o : leave * locals) : Prop :=
  clock s <= clock o.2 /\ sent o.2 = sent s /\ locals_ok o.2 /\
  match o.1 with
  | ContinueSend => goes_on s o.2
  | BreakRead (Ok msg) =>
      expect_response = true /\ is_expected sent_sid msg = true /\ has_matching_echo_bytes msg (data payload) = true
  | Return (Ok m) => m = None /\ expect_response = false
  | _ => True
  end.

Lemma stop_ok s (l : leave) :
  locals_ok s -> (exists e, l = BreakRead (Err e) \/ l = Return (Err e)) -> left_ok s (l, s).
Proof. intros Hs (e & [-> | ->]); (split; [simpl; lia|]); by repeat (split; [done|]). Qed.

Ltac stop := apply stop_ok; [done|eauto].

Lemma repeat_or_ok otherwise s :
  locals_ok s -> left_ok s (otherwise, s) -> left_ok s (repeat_or p otherwise s).
Proof.
  unfold repeat_or. intros [_ Hh]. destruct (Z.ltb_spec (app_retry_count s) (repeat_req_count_app p)); [|done].
  intros _. split; [simpl; lia|]. split; [done|]. split; [split; [done|exact Hh]|]. left. done.
Qed.

Lemma goes_on_later s t u : clock s <= clock t -> app_retry_count t = app_retry_count s -> goes_on t u -> goes_on s u.
Proof.
  unfold goes_on. intros Hc ->. intros [?|(? & [(? & ? & ?)|(? & ? & ?)])]; [by left|right..]; (split; [done|]).
  - left. repeat split; [done..|lia].
  - right. repeat split; [done..|lia].
Qed.

Lemma left_ok_later s t o :
  clock s <= clock t -> sent t = sent s -> app_retry_count t = app_retry_count s -> left_ok t o -> left_ok s o.
Proof.
  intros Hc Hn Hr (H1 & H2 & H3 & H4). split; [lia|]. split; [congruence|]. split; [done|].
  destruct (o.1); [by eapply goes_on_later|done..].
Qed.

Lemma validate_ok policy elapsed ct x :
  validate_timeout_by_policy policy elapsed ct = Ok x ->
  policy <> Disabled /\ (policy = ContinueUntilTimeout -> elapsed <= ct).
Proof. destruct policy; simpl; [done| |done]. destruct (Z.ltb_spec ct elapsed); [done|]. split; [done|lia]. Qed.

Lemma busy_ok policy ct time s :
  0 <= time -> locals_ok s ->
  (policy <> Disabled /\ (policy = ContinueUntilTimeout -> clock s + time - time <= ct) /\
   clock s + time <= clock s + time ->
   goes_on s (wait time s)) ->
  left_ok s (busy_repeat policy ct time s).
Proof.
  intros Ht Hs Hgo. unfold busy_repeat. destruct (validate_timeout_by_policy _ _ _) eqn:Ev.
  - apply validate_ok in Ev as [Hd Hc]. split; [simpl; lia|]. split; [done|]. split; [exact Hs|]. apply Hgo.
    split; [done|]. split; [intros E; specialize (Hc E); lia|lia].
  - stop.
Qed.

Lemma recv_timeout_nonneg t inc cl d r :
  0 <= t -> (forall m, inc = Some m -> 0 <= m.1) -> (forall c, cl = Some c -> 0 <= c) ->
  recv_timeout t inc cl = (d, r) -> 0 <= d.
Proof.
  intros Ht Hinc Hcl. unfold recv_timeout. destruct inc as [[e m]|].
  - specialize (Hinc _ eq_refl). simpl in Hinc. case_match; naive_solver lia.
  - destruct cl as [c|]; [|naive_solver]. specialize (Hcl c eq_refl). case_match; naive_solver lia.
Qed.

Lemma read_ok fuel inc cl s o :
  expect_response = true -> params_ok p -> 0 <= rx_timeout -> locals_ok s ->
  (forall i m, inc i = Some m -> 0 <= m.1) -> (forall c, cl = Some c -> 0 <= c) ->
  read fuel inc cl s = Some o -> left_ok s o.
Proof.
  intros Hex (Hp78 & Hp21 & Hp94 & _) Hrx. revert inc s o.
  induction fuel as [|fuel IH]; intros inc s o Hs Hinc Hcl; cbn [read_uds_messages]; [done|].
  destruct (recv_timeout (default rx_timeout (rx_timeout_next s)) _ cl) as [d r] eqn:Er.
  assert (Hd : 0 <= d).
  { eapply recv_timeout_nonneg; [| |exact Hcl|exact Er]; [|by apply Hinc].
    destruct Hs as [Hn _]; destruct (rx_timeout_next s); simpl; [by apply Hn|done]. }
  set (t := wait d s). assert (Ht : locals_ok t) by exact Hs.
  assert (Hlater : left_ok t o -> left_ok s o) by (apply left_ok_later; [unfold t; simpl; lia|done..]).
  intros Ho. apply Hlater. clear Hlater.
  assert (Hrep : forall e, left_ok t (repeat_or p (BreakRead (Err e)) t)).
  { intros e. apply repeat_or_ok; [done|stop]. }
  assert (Hagain : read fuel (following inc) cl t = Some o -> left_ok t o).
  { apply IH; [done| |done]. intros i. apply Hinc. }
  destruct r as [[[[pend|msg]|]|e]| |]; try (injection Ho as <-; first [apply Hrep|stop]).
  - destruct pend as [a|a|a].
    + destruct (validate_timeout_by_policy _ _ _) as [?|e'] eqn:Ev; [|injection Ho as <-; stop].
      eapply left_ok_later; [..|eapply IH; [| | |exact Ho]]; try done; [|intros i; apply Hinc].
      split; [simpl; naive_solver|apply Hs].
    + injection Ho as <-. apply busy_ok; [done..|]. intros (? & ? & ?). right. split; [done|]. by left.
    + injection Ho as <-. apply busy_ok; [done..|]. intros (? & ? & ?). right. split; [done|]. by right.
  - destruct (is_expected sent_sid msg) eqn:Ee; [|by apply Hagain].
    destruct (has_matching_echo_bytes msg (data payload)) eqn:Em; simpl in Ho; [|by apply Hagain].
    injection Ho as <-. split; [done|]. split; [done|]. by split.
Qed.

Lemma await_previous_keeps s :
  sent (await_previous s) = sent s /\ app_retry_count (await_previous s) = app_retry_count s /\
  rx_timeout_next (await_previous s) = rx_timeout_next s.
Proof. unfold await_previous. by destruct (previous_task_handle s). Qed.

Lemma await_previous_ok s : locals_ok s -> clock s <= clock (await_previous s) /\ locals_ok (await_previous s).
Proof.
  intros [Hn Hh]. unfold await_previous. destruct (previous_task_handle s) as [[t|]|] eqn:E; cbn.
  - specialize (Hh t eq_refl). unfold RETRY_TEARDOWN_GRACE. split; [lia|by split].
  - unfold RETRY_TEARDOWN_GRACE. split; [lia|by split].
  - split; [lia|]. split; [done|]. by rewrite E.
Qed.

Lemma send_once_ok reads s o :
  (forall k, transmission_ok (gateway k)) -> params_ok p -> 0 <= rx_timeout -> locals_ok s ->
  send_once p gateway payload sent_sid rx_timeout expect_response reads s = Some o -> left_ok (count_sent s) o.
Proof.
  intros Hgw Hp Hrx Hs. unfold send_once.
  destruct (await_previous_keeps s) as (Hn1 & Hr1 & _). destruct (await_previous_ok s Hs) as [Hc1 Hl1].
  set (s1 := await_previous s) in *.
  destruct (Hgw (sent s1)) as (Hst & Hinc & Hcl & Htd).
  set (t := gateway (sent s1)) in *. set (s2 := count_sent (wait (send_time t) s1)).
  assert (H2 : forall o, left_ok s2 o -> left_ok (count_sent s) o).
  { intros o'. apply left_ok_later; [unfold s2; simpl; lia|unfold s2; simpl; congruence|done]. }
  assert (Hl2 : locals_ok s2) by exact Hl1.
  destruct (send_result t) as [[]|e]; [|intros [= <-]; apply H2, repeat_or_ok; [done|stop]].
  set (s3 := set_handle (Some (teardown t)) s2).
  assert (Hl3 : locals_ok s3).
  { split; [apply Hl2|]. simpl. intros d [= E]. by apply Htd. }
  intros Ho. apply H2, (left_ok_later _ s3); [done..|]. destruct expect_response eqn:Eex; simpl in Ho; [by eapply (read_ok reads (incoming t) (closes t))|].
  destruct (recv_timeout rx_timeout _ _) as [d r] eqn:Er. injection Ho as <-.
  apply recv_timeout_nonneg in Er; [|done|by apply Hinc|done].
  split; [simpl; lia|]. split; [done|]. by split.
Qed.

(** How many more transmissions the loop can make: the repetitions left, and
    the waits for a busy ECU that fit in the completion timeout. *)
Definition busy_until : Z := Z.max (rc_21_completion_timeout p) (rc_94_completion_timeout p).
Definition busy_step : Z := Z.min (rc_21_repeat_request_time p) (rc_94_repeat_request_time p).
Definition busy_left (t : Z) : Z := if t <=? busy_until then (busy_until - t) / busy_step + 1 else 0.
Definition attempts_left (s : locals) : Z :=
  repeat_req_count_app p - app_retry_count s + busy_left (clock s).

Definition bounded_retries : Prop :=
  0 < busy_step /\ rc_21_retry_policy p <> ContinueUnlimited /\ rc_94_retry_policy p <> ContinueUnlimited.

Lemma busy_left_nonneg t : 0 < busy_step -> 0 <= busy_left t.
Proof.
  intros Hm. unfold busy_left. destruct (Z.leb_spec t busy_until); [|done].
  pose proof (Z.div_pos (busy_until - t) busy_step). lia.
Qed.

Lemma busy_left_mono t u : 0 < busy_step -> t <= u -> busy_left u <= busy_left t.
Proof.
  intros Hm Htu. pose proof (busy_left_nonneg t Hm) as Hnn. unfold busy_left in *.
  destruct (Z.leb_spec u busy_until); [|done]. rewrite (proj2 (Z.leb_le t busy_until)) by lia.
  pose proof (Z.div_le_mono (busy_until - u) (busy_until - t) busy_step). lia.
Qed.

(** Waiting once, begun within the completion timeout, uses up one wait. *)
Lemma busy_left_step t u time :
  0 < busy_step -> busy_step <= time -> u - time <= busy_until -> t + time <= u -> busy_left u <= busy_left t - 1.
Proof.
  intros Hm Htime Hu Htu. transitivity (busy_left (t + busy_step)); [by apply busy_left_mono; lia|].
  unfold busy_left. rewrite (proj2 (Z.leb_le t busy_until)) by lia.
  replace (busy_until - t) with (busy_until - (t + busy_step) + 1 * busy_step) by lia.
  rewrite Z.div_add by lia. destruct (Z.leb_spec (t + busy_step) busy_until); [lia|].
  pose proof (Z.div_le_mono (- busy_step) (busy_until - (t + busy_step)) busy_step Hm ltac:(lia)) as Hd.
  replace (- busy_step) with (-1 * busy_step) in Hd by lia. rewrite Z.div_mul in Hd by lia. lia.
Qed.

Lemma goes_on_decreases s s' :
  params_ok p -> bounded_retries -> clock s <= clock s' -> goes_on s s' ->
  app_retry_count s <= repeat_req_count_app p ->
  attempts_left s' <= attempts_left s - 1 /\ app_retry_count s' <= repeat_req_count_app p.
Proof.
  intros (_ & _ & _ & Hcount) (Hm & H21 & H94) Hc Hgo Hr. unfold attempts_left.
  destruct Hgo as [[Hlt ->]|(-> & Hb)].
  - pose proof (busy_left_mono (clock s) (clock s') Hm Hc). lia.
  - assert (busy_left (clock s') <= busy_left (clock s) - 1); [|lia].
    destruct Hb as [(Hd & Hu & Ht)|(Hd & Hu & Ht)].
    + apply (busy_left_step _ _ (rc_21_repeat_request_time p)); [done|unfold busy_step; lia| |done].
      destruct (rc_21_retry_policy p); [done| |done]. specialize (Hu eq_refl). unfold busy_until. lia.
    + apply (busy_left_step _ _ (rc_94_repeat_request_time p)); [done|unfold busy_step; lia| |done].
      destruct (rc_94_retry_policy p); [done| |done]. specialize (Hu eq_refl). unfold busy_until. lia.
Qed.

(** *** Messages that keep a request waiting *)

(** A message after which the next one is waited for: one that is not the
    answer, or the announcement of a later one. *)
Definition keeps_waiting (r : received) : Prop :=
  match r with
  | Ok (Some (UdsResponse msg)) => is_expected sent_sid msg && has_matching_echo_bytes msg (data payload) = false
  | Ok (Some (Pending (ResponsePending _))) => rc_78_retry_policy p <> Disabled
  | _ => False
  end.

(** The first [n] messages of a transmission come in time and keep it waiting. *)
Definition keeps_going (n : nat) (t : transmission) : Prop :=
  send_result t = Ok () /\ forall i, (i < n)%nat -> exists d r, (incoming t i = Some (d, r)) /\ d <= Z.max rx_timeout (rc_78_timeout p) /\ keeps_waiting r.

Lemma read_waits fuel inc cl s : params_ok p -> locals_ok s -> read fuel inc cl s = None ->
  forall i, (i < fuel)%nat -> exists d r, (inc i = Some (d, r)) /\ d <= Z.max rx_timeout (rc_78_timeout p) /\ keeps_waiting r.
Proof.
  intros Hpar. revert inc s. induction fuel as [|fuel IH]; intros inc s Hs Hr i Hi; [lia|]. cbn [read_uds_messages] in Hr.
  assert (Ht : default rx_timeout (rx_timeout_next s) <= Z.max rx_timeout (rc_78_timeout p)).
  { destruct Hs as [Hn _]. destruct (rx_timeout_next s) as [t|]; simpl; [specialize (Hn t eq_refl)|]; lia. }
  destruct (recv_timeout _ _ cl) as [d r] eqn:Er.
  assert (Hin : forall r0, r = Received r0 -> (inc O = Some (d, r0)) /\ d <= Z.max rx_timeout (rc_78_timeout p)).
  { intros r0 ->. unfold recv_timeout in Er. destruct (inc O) as [[e m]|].
    - destruct (Z.leb_spec e (default rx_timeout (rx_timeout_next s))); [|done]. injection Er as -> ->. split; [done|lia].
    - destruct cl as [c|]; [|done]. by destruct (c <=? _). }
  assert (Hnext : forall r0 t, r = Received r0 -> keeps_waiting r0 -> locals_ok t -> read fuel (following inc) cl t = None ->
    exists d r, (inc i = Some (d, r)) /\ d <= Z.max rx_timeout (rc_78_timeout p) /\ keeps_waiting r).
  { intros r0 t Hr0 Hk Hl Hread. destruct i as [|i].
    - destruct (Hin r0 Hr0) as [Hi0 Hd]. by exists d, r0.
    - apply (IH _ _ Hl Hread i). lia. }
  destruct r as [[[[pend|msg]|]|e]| |]; try done.
  - destruct pend as [a|a|a]; try done. destruct (validate_timeout_by_policy _ _ _) as [?|e'] eqn:Ev; [|done].
    apply validate_ok in Ev as [Hp _]. eapply Hnext; [done|exact Hp| |exact Hr]. split; [|apply Hs].
    simpl. intros t [= <-]. destruct Hpar as (? & _). lia.
  - assert (Hkeep : is_expected sent_sid msg && has_matching_echo_bytes msg (data payload) = false /\ read fuel (following inc) cl (wait d s) = None).
    { destruct (is_expected sent_sid msg); [|done]. by destruct (has_matching_echo_bytes msg (data payload)). }
    destruct Hkeep as [Hk Hread]. exact (Hnext _ (wait d s) eq_refl Hk Hs Hread).
Qed.

Lemma send_loop_ends reads fuel s :
  (forall k, transmission_ok (gateway k)) -> params_ok p -> 0 <= rx_timeout -> locals_ok s -> bounded_retries ->
  app_retry_count s <= repeat_req_count_app p -> attempts_left s < Z.of_nat fuel ->
  match send_loop p gateway payload sent_sid rx_timeout expect_response reads fuel s with
  | Some o => o.1 <> ContinueSend /\ Z.of_nat (sent o.2) <= Z.of_nat (sent s) + attempts_left s + 1
  | None => exists k, Z.of_nat k <= Z.of_nat (sent s) + attempts_left s /\ keeps_going reads (gateway k)
  end.
Proof.
  intros Hgw Hp Hrx Hs Hb. revert s Hs. induction fuel as [|fuel IH]; intros s Hs Hr Hfuel.
  - pose proof (busy_left_nonneg (clock s) (proj1 Hb)). unfold attempts_left in Hfuel. lia.
  - assert (Hnn : 0 <= attempts_left s).
    { pose proof (busy_left_nonneg (clock s) (proj1 Hb)). unfold attempts_left. lia. }
    pose proof (fun o => send_once_ok reads s o Hgw Hp Hrx Hs) as Honce. simpl send_loop.
    destruct (send_once _ _ _ _ _ _ reads s) as [[l s']|] eqn:E.
    + destruct (Honce _ eq_refl) as (Hc & Hn & Hl & Hk). cbn [fst snd] in *.
      change (clock (count_sent s)) with (clock s) in Hc. change (sent (count_sent s)) with (S (sent s)) in Hn.
      destruct l as [|r|r]; [|simpl; split; [done|lia]..].
      change (goes_on s s') in Hk. destruct (goes_on_decreases s s') as [Hdec Hr']; [done..|].
      specialize (IH s' Hl Hr' ltac:(lia)). destruct (send_loop _ _ _ _ _ _ reads fuel s') as [o|].
      * destruct IH as [? ?]. split; [done|lia].
      * destruct IH as (k & ? & ?). exists k. split; [lia|done].
    + exists (sent s). split; [lia|]. clear IH Honce. unfold send_once in E. destruct (await_previous_keeps s) as (Hn1 & _ & _).
      destruct (await_previous_ok s Hs) as [_ Hl1]. set (s1 := await_previous s) in *. rewrite Hn1 in E.
      destruct (send_result (gateway (sent s))) as [[]|] eqn:Hsend; [|done]. split; [done|].
      destruct expect_response; simpl in E; [|by destruct (recv_timeout _ _ _)]. eapply read_waits; [done| |exact E].
      split; [apply Hl1|]. simpl. intros d [= Ed]. by eapply Hgw.
Qed.

(** What the loop returns with, whatever the number of transmissions. *)
Lemma send_loop_left reads fuel s o :
  (forall k, transmission_ok (gateway k)) -> params_ok p -> 0 <= rx_timeout -> locals_ok s ->
  send_loop p gateway payload sent_sid rx_timeout expect_response reads fuel s = Some o ->
  match o.1 with
  | BreakRead (Ok msg) =>
      expect_response = true /\ is_expected sent_sid msg = true /\ has_matching_echo_bytes msg (data payload) = true
  | Return (Ok m) => m = None /\ expect_response = false
  | _ => True
  end.
Proof.
  intros Hgw Hp Hrx. revert s. induction fuel as [|fuel IH]; intros s Hs; [done|]. simpl.
  pose proof (fun o => send_once_ok reads s o Hgw Hp Hrx Hs) as Honce.
  destruct (send_once _ _ _ _ _ _ reads s) as [[[|r|r] s']|]; [|by intros [= <-]; destruct (Honce _ eq_refl) as (_ & _ & _ & Hk)..|done].
  destruct (Honce _ eq_refl) as (_ & _ & Hl & _). by apply IH.
Qed.

(** A transmission that leads to a repetition: it is refused by the gateway,
    answered with an error, or not answered within [rx_timeout]. *)
Definition fails (t : transmission) : Prop :=
  (exists e, send_result t = Err e) \/
  (send_result t = Ok () /\
   match incoming t O with
   | None => True
   | Some (d, Err _) => True
   | Some (d, _) => rx_timeout < d
   end).

Lemma send_once_fails reads s :
  expect_response = true -> rx_timeout_next s = None -> fails (gateway (sent s)) ->
  app_retry_count s < repeat_req_count_app p < 2 ^ 32 ->
  exists s', send_once p gateway payload sent_sid rx_timeout expect_response (S reads) s = Some (ContinueSend, s') /\
    sent s' = S (sent s) /\ app_retry_count s' = app_retry_count s + 1 /\ rx_timeout_next s' = None.
Proof.
  intros Hex Hnext Hf Hr. unfold send_once.
  destruct (await_previous_keeps s) as (Hn1 & Hr1 & Hx1). rewrite Hnext in Hx1.
  set (s1 := await_previous s) in *. rewrite Hn1. set (t := gateway (sent s)) in *.
  assert (Hrep : forall otherwise u, sent u = S (sent s1) -> app_retry_count u = app_retry_count s1 ->
    exists s', Some (repeat_or p otherwise u) = Some (ContinueSend, s') /\ sent s' = S (sent s) /\
      app_retry_count s' = app_retry_count s + 1 /\ rx_timeout_next s' = None).
  { intros otherwise u Hu1 Hu2. unfold repeat_or. rewrite (proj2 (Z.ltb_lt _ _)) by lia.
    eexists. split; [done|]. simpl. rewrite Hu1, Hu2, Hr1, Hn1. split; [done|]. split; [lia|done]. }
  destruct Hf as [[e ->]|[-> Hinc]]; [by apply Hrep|]. rewrite Hex. simpl negb. cbv iota.
  cbn [read_uds_messages]. replace (rx_timeout_next (set_handle _ _)) with (@None Z) by (symmetry; exact Hx1).
  destruct (incoming t O) as [[d r]|]; cbn [default recv_timeout].
  - destruct r as [m|e]; [rewrite (proj2 (Z.leb_gt _ _)) by done; by apply Hrep|].
    destruct (d <=? rx_timeout); by apply Hrep.
  - destruct (closes t) as [d|]; [destruct (d <=? rx_timeout)|]; by apply Hrep.
Qed.

(** [k] failing transmissions are followed by the next one. *)
Lemma send_loop_fails k reads fuel s :
  expect_response = true -> rx_timeout_next s = None ->
  (forall j, (sent s <= j < sent s + k)%nat -> fails (gateway j)) ->
  app_retry_count s + Z.of_nat k <= repeat_req_count_app p < 2 ^ 32 ->
  exists s', send_loop p gateway payload sent_sid rx_timeout expect_response (S reads) (k + fuel) s =
      send_loop p gateway payload sent_sid rx_timeout expect_response (S reads) fuel s' /\
    sent s' = (sent s + k)%nat /\ app_retry_count s' = app_retry_count s + Z.of_nat k /\ rx_timeout_next s' = None.
Proof.
  intros Hex. revert s. induction k as [|k IH]; intros s Hnext Hf Hr.
  - exists s. split; [done|]. split; [lia|]. split; [lia|done].
  - destruct (send_once_fails reads s) as (s' & E & Hn' & Hr' & Hx'); [done..|apply Hf; lia|lia|].
    destruct (IH s') as (s2 & E2 & Hn2 & Hr2 & Hx2); [done|intros j Hj; apply Hf; lia|lia|].
    exists s2. cbn [plus send_loop]. rewrite E. split; [done|]. split; [lia|]. split; [lia|done].
Qed.

(** *** Where an answer comes from *)

Lemma repeat_or_sent otherwise s : (repeat_or p otherwise s).2 = s \/ (repeat_or p otherwise s).2 = repeated s.
Proof. unfold repeat_or. case_match; auto. Qed.

(** What is returned is a message of the last transmission. *)
Definition came (inc : arrivals) (msg : ServicePayload) : Prop := exists i d, inc i = Some (d, Ok (Some (UdsResponse msg))).

Lemma read_came fuel inc cl s msg s' : read fuel inc cl s = Some (BreakRead (Ok msg), s') -> came inc msg /\ sent s' = sent s.
Proof.
  assert (Hrep : forall e t, Some (repeat_or p (BreakRead (Err e)) t) <> Some (BreakRead (Ok msg), s')).
  { intros e t. unfold repeat_or. by case_match. }
  assert (Hbusy : forall a b c t, Some (busy_repeat a b c t) <> Some (BreakRead (Ok msg), s')).
  { intros a b c t. unfold busy_repeat. by case_match. }
  revert inc s. induction fuel as [|fuel IH]; intros inc s; cbn [read_uds_messages]; [done|].
  assert (Hnext : forall t, sent t = sent s -> read fuel (following inc) cl t = Some (BreakRead (Ok msg), s') -> came inc msg /\ sent s' = sent s).
  { intros t Ht [(i & d & Hi) Hs]%IH. split; [by exists (S i), d|congruence]. }
  destruct (recv_timeout _ _ _) as [d r] eqn:Er. destruct r as [[[[pend|m]|]|e]| |]; intros H; try by apply Hrep in H.
  - destruct pend; try by apply Hbusy in H. destruct (validate_timeout_by_policy _ _ _); [by eapply Hnext, H|done].
  - destruct (is_expected sent_sid m); [|by eapply Hnext, H]. destruct (has_matching_echo_bytes _ _); cbn [negb] in H; [|by eapply Hnext, H].
    injection H as <- <-. split; [|done]. exists O, d. unfold recv_timeout in Er. destruct (inc O) as [[d0 r0]|]; [destruct (d0 <=? _)|destruct cl; [case_match|]]; try done.
    by injection Er as -> ->.
  - done.
Qed.

Lemma read_not_returned fuel inc cl s r s' : read fuel inc cl s <> Some (Return r, s').
Proof.
  assert (Hrep : forall l t, Some (repeat_or p (BreakRead l) t) <> Some (Return r, s')) by (intros; unfold repeat_or; by case_match).
  assert (Hbusy : forall a b c t, Some (busy_repeat a b c t) <> Some (Return r, s')) by (intros; unfold busy_repeat; by case_match).
  revert inc s. induction fuel as [|fuel IH]; intros inc s; cbn [read_uds_messages]; [done|].
  destruct (recv_timeout _ _ _) as [d [[[[pend|msg]|]|e]| |]]; try apply Hrep; try done.
  - destruct pend; try apply Hbusy. destruct (validate_timeout_by_policy _ _ _); [apply IH|done].
  - destruct (is_expected sent_sid msg); [|apply IH]. destruct (has_matching_echo_bytes _ _); [done|apply IH].
Qed.

Lemma loop_came reads fuel s l s' : send_loop p gateway payload sent_sid rx_timeout expect_response reads fuel s = Some (l, s') ->
  match l with
  | BreakRead (Ok msg) => exists k, sent s' = S k /\ send_result (gateway k) = Ok tt /\ came (incoming (gateway k)) msg
  | Return (Ok m) => m = None
  | _ => True
  end.
Proof.
  revert s. induction fuel as [|fuel IH]; intros s; [done|]. cbn [send_loop].
  destruct (send_once _ _ _ _ _ _ reads s) as [[l1 s1]|] eqn:Ho; [|done].
  assert (Honce : (l1, s1) = (l, s') -> match l with
    | BreakRead (Ok msg) => exists k, sent s' = S k /\ send_result (gateway k) = Ok tt /\ came (incoming (gateway k)) msg
    | Return (Ok m) => m = None | _ => True end).
  { intros [= -> ->]. revert Ho. unfold send_once. set (s2 := await_previous s).
    destruct (send_result (gateway (sent s2))) as [[]|e] eqn:He.
    - destruct expect_response; cbn [negb].
      + intros Ho. destruct l as [|[msg|]|r]; try done; [|by apply read_not_returned in Ho].
        apply read_came in Ho as [Hc Hs]. exists (sent s2). split; [exact Hs|done].
      + destruct (recv_timeout _ _ _). by intros [= <- _].
    - unfold repeat_or. destruct (_ <? _); intros [= <- _]; done. }
  destruct l1; [apply IH|intros [= H1 H2]; by apply Honce; rewrite H1, H2..].
Qed.

(** *** Messages that bring an answer *)

(** The answer [msg] comes as message [n], each message within the timeout that
    is then in force: before it other ECUs' or other requests' answers, and
    announcements when there is no limit on them. *)
Inductive brings (msg : ServicePayload) : Z -> arrivals -> nat -> Prop :=
  | brings_answer limit inc d :
      inc O = Some (d, Ok (Some (UdsResponse msg))) -> d <= limit ->
      is_expected sent_sid msg = true -> has_matching_echo_bytes msg (data payload) = true -> brings msg limit inc 0
  | brings_after_other limit inc d other n :
      inc O = Some (d, Ok (Some (UdsResponse other))) -> d <= limit ->
      is_expected sent_sid other && has_matching_echo_bytes other (data payload) = false ->
      brings msg limit (following inc) n -> brings msg limit inc (S n)
  | brings_after_pending limit inc d ecu n :
      inc O = Some (d, Ok (Some (Pending (ResponsePending ecu)))) -> d <= limit ->
      rc_78_retry_policy p = ContinueUnlimited ->
      brings msg (rc_78_timeout p) (following inc) n -> brings msg limit inc (S n).

Lemma brings_read msg limit inc n fuel cl s : brings msg limit inc n -> limit = default rx_timeout (rx_timeout_next s) -> (n < fuel)%nat ->
  exists s', read fuel inc cl s = Some (BreakRead (Ok msg), s') /\ sent s' = sent s.
Proof.
  intros Hb. revert fuel s. induction Hb as [limit inc d Hi Hd He Hm|limit inc d other n Hi Hd Ho _ IH|limit inc d ecu n Hi Hd Hp _ IH];
    intros [|fuel] s Hl Hn; try lia; cbn [read_uds_messages]; rewrite <- Hl, Hi; cbn [recv_timeout]; rewrite (proj2 (Z.leb_le _ _) Hd).
  - rewrite He, Hm. by eexists.
  - destruct (is_expected sent_sid other); cbn [andb] in Ho; rewrite ?Ho; cbn [negb]; apply (IH fuel (wait d s)); done || lia.
  - rewrite Hp. cbn [validate_timeout_by_policy]. apply (IH fuel (set_rx_timeout_next (Some (rc_78_timeout p)) (wait d s))); done || lia.
Qed.
End loops.

(** ** Properties *)

Section properties.
Context (p : UdsParameters) (gateway : nat -> transmission) (ecu_name : string) (payload : ServicePayload).
Context (timeout : option Z) (sem : option Z) (u : uds_state).
Context (Hgw : forall k, transmission_ok (gateway k)) (Hp : params_ok p).
Context (Hrx : 0 <= default (timeout_default p) timeout) (Hsem : forall d, sem = Some d -> 0 <= d).

(** C17: when neither busy policy is unlimited and a wait takes time, a request
    makes at most as many transmissions as there are repetitions and waits for a
    busy ECU, also when every one is answered with a busy code; and it ends, with
    a result, unless the messages after one of these transmissions do not: only
    messages that come in time and are no answer, or announce a later one, each of
    them, keep a request waiting. *)
Theorem send_terminates expect_response fuel sid :
  head (data payload) = Some sid ->
  bounded_retries p -> repeat_req_count_app p + busy_left p 0 < Z.of_nat fuel ->
  match send_with_raw_payload fuel p gateway ecu_name payload timeout expect_response sem u with
  | Some (_, _, n) => Z.of_nat n <= repeat_req_count_app p + busy_left p 0 + 1
  | None => exists k, Z.of_nat k <= repeat_req_count_app p + busy_left p 0 /\
      keeps_going p payload sid (default (timeout_default p) timeout) fuel (gateway k)
  end.
Proof.
  intros Hsid Hb Hfuel. pose proof (busy_left_nonneg p 0 (proj1 Hb)) as Hnn. destruct Hp as (_ & _ & _ & Hcount).
  unfold send_with_raw_payload. rewrite Hsid.
  destruct (service_states u !! ecu_name); [|lia]. destruct sem as [d|]; [|lia]. destruct (SEMAPHORE_TIMEOUT <? d); [lia|].
  set (s := {| clock := d; rx_timeout_next := None; app_retry_count := 0; sent := 0; previous_task_handle := None |}).
  assert (Hleft : attempts_left p s <= repeat_req_count_app p + busy_left p 0).
  { unfold attempts_left. simpl. specialize (Hsem d eq_refl).
    pose proof (busy_left_mono p 0 d (proj1 Hb) Hsem). lia. }
  pose proof (send_loop_ends p gateway payload sid (default (timeout_default p) timeout) expect_response fuel fuel s) as H.
  specialize (H Hgw Hp Hrx ltac:(done) Hb ltac:(simpl; lia) ltac:(lia)). simpl sent in H.
  destruct (send_loop _ _ _ _ _ _ _ _ _) as [[[|r|r] s']|]; [by destruct H|destruct H as [_ H]; simpl in H; lia..|].
  destruct H as (k & Hk & Hg). exists k. split; [lia|done].
Qed.

(** The answer is a message of the last transmission. *)
Lemma answer_received expect_response fuel msg u' n :
  send_with_raw_payload fuel p gateway ecu_name payload timeout expect_response sem u = Some (Ok (Some msg), u', n) ->
  exists k, n = S k /\ send_result (gateway k) = Ok tt /\ came (incoming (gateway k)) msg.
Proof.
  clear. unfold send_with_raw_payload.
  destruct (service_states u !! ecu_name); [|done]. destruct (head (data payload)) as [sid|]; [|done].
  destruct sem as [d|]; [|done]. destruct (SEMAPHORE_TIMEOUT <? d); [done|].
  destruct (send_loop _ _ _ _ _ _ _ _ _) as [[l s']|] eqn:E; [|done]. apply loop_came in E.
  destruct l as [|[m|e]|r]; try done; [|intros [= -> _ _]; discriminate E].
  intros [= -> _ <-]. exact E.
Qed.

(** The part of the state a positive answer may set: the session and the
    security level the request was built for. *)
Definition states_after (msg : ServicePayload) (sid : Z) : gmap string (gmap Z string) :=
  if is_positive_response_for_sid msg sid then
    service_states (set_service_state ecu_name SECURITY_ACCESS (new_security payload)
      (set_service_state ecu_name SESSION_CONTROL (new_session payload) u))
  else service_states u.

Lemma disconnected_set_service_state e sid v w : disconnected (set_service_state e sid v w) = disconnected w.
Proof. by destruct v. Qed.

(** How a request ends. *)
Lemma request_outcome expect_response fuel r u' n :
  send_with_raw_payload fuel p gateway ecu_name payload timeout expect_response sem u = Some (r, u', n) ->
  match r with
  | Ok (Some msg) =>
      expect_response = true /\ has_matching_echo_bytes msg (data payload) = true /\
      exists sid, head (data payload) = Some sid /\ is_response_for_sid msg sid = true /\
        service_states u' = states_after msg sid /\ disconnected u' = disconnected u
  | Ok None => expect_response = false /\ u' = u
  | Err e =>
      u' = u \/ (e = Timeout /\ head (data payload) <> Some TESTER_PRESENT /\ u' = handle_ecu_disconnected ecu_name u)
  end.
Proof.
  unfold send_with_raw_payload.
  destruct (service_states u !! ecu_name); [|intros [= <- <- <-]; by left].
  destruct (head (data payload)) as [sid|]; [|intros [= <- <- <-]; by left].
  destruct sem as [d|]; [|intros [= <- <- <-]; by left].
  destruct (SEMAPHORE_TIMEOUT <? d); [intros [= <- <- <-]; by left|].
  destruct (send_loop _ _ _ _ _ _ _ _ _) as [[l s']|] eqn:E; [|done].
  apply send_loop_left in E; [|done..]. cbn [fst] in E. destruct l as [|resp|resp]; [done| |].
  - intros [= <- <- <-]. destruct resp as [msg|e]; cbn.
    + destruct E as (Hex & Hmsg & Hecho). split; [done|]. split; [done|]. exists sid. split; [done|].
      unfold is_expected in Hmsg. apply andb_true_iff in Hmsg as [_ Hmsg]. split; [done|].
      unfold states_after. destruct (is_positive_response_for_sid msg sid); [|done].
      by rewrite !disconnected_set_service_state.
    + destruct e; try by left. destruct (Z.eqb_spec sid TESTER_PRESENT); simpl; [by left|right].
      split; [done|]. split; [congruence|done].
  - intros [= <- <- <-]. destruct resp as [[msg|]|e]; [|by destruct E|by left]. by destruct E.
Qed.

(** C11: what a request that ends leaves behind.  A message is returned only
    when the caller expects one; it carries the identifier of the request and
    repeats its identifier bytes, and only a positive one moves the session
    and security states.  Without a message nothing is moved; the ECU is
    reported as disconnected at most once, after a timeout of a request other
    than TesterPresent. *)
Theorem send_effects expect_response fuel r u' n :
  send_with_raw_payload fuel p gateway ecu_name payload timeout expect_response sem u = Some (r, u', n) ->
  match r with
  | Ok (Some msg) =>
      expect_response = true /\ has_matching_echo_bytes msg (data payload) = true /\
      exists sid, head (data payload) = Some sid /\ is_response_for_sid msg sid = true /\
        service_states u' = states_after msg sid /\ disconnected u' = disconnected u
  | Ok None => expect_response = false /\ u' = u
  | Err e =>
      u' = u \/ (e = Timeout /\ head (data payload) <> Some TESTER_PRESENT /\ u' = handle_ecu_disconnected ecu_name u)
  end.
Proof. apply request_outcome. Qed.

(** lost transmissions are made good: when the first [k] transmissions are
    refused, answered with an error or not answered in time, [k] being within
    CP_RepeatReqCountApp, and the next one brings the answer, this is
    returned after exactly [k + 1] transmissions. *)
Theorem retry_recovers k n sid msg wait_time fuel :
  service_states u !! ecu_name <> None -> head (data payload) = Some sid ->
  sem = Some wait_time -> wait_time <= SEMAPHORE_TIMEOUT ->
  Z.of_nat k <= repeat_req_count_app p -> (k < fuel)%nat -> (n < fuel)%nat ->
  (forall j, (j < k)%nat -> fails (default (timeout_default p) timeout) (gateway j)) ->
  send_result (gateway k) = Ok () ->
  brings p payload sid msg (default (timeout_default p) timeout) (incoming (gateway k)) n ->
  send_with_raw_payload fuel p gateway ecu_name payload timeout true sem u =
    Some (Ok (Some msg), post_send ecu_name payload sid (Ok msg) u, S k).
Proof.
  clear Hsem. intros Hecu Hsid -> Hw Hk Hf1 Hf2 Hfail Hsend Hb. destruct Hp as (_ & _ & _ & Hcount).
  unfold send_with_raw_payload. destruct (service_states u !! ecu_name); [|done].
  rewrite Hsid, (proj2 (Z.ltb_ge _ _)) by done.
  set (s := {| clock := wait_time; rx_timeout_next := None; app_retry_count := 0; sent := 0; previous_task_handle := None |}).
  destruct (send_loop_fails p gateway payload sid (default (timeout_default p) timeout) true k (pred fuel) (S (pred (fuel - k))) s)
    as (s' & Hloop & Hn & _ & Hx); [done..|intros j Hj; apply Hfail; simpl in Hj; lia|simpl; lia|].
  replace (S (pred fuel)) with fuel in Hloop by lia. replace (k + S (pred (fuel - k)))%nat with fuel in Hloop by lia. rewrite Hloop.
  change (sent s + k)%nat with k in Hn. cbn [send_loop]. unfold send_once.
  destruct (await_previous_keeps s') as (Hn1 & _ & Hx1). rewrite Hn in Hn1. rewrite Hx in Hx1.
  rewrite Hn1, Hsend. simpl negb. cbv iota.
  destruct (brings_read p payload sid (default (timeout_default p) timeout) msg _ _ n fuel (closes (gateway k))
    (set_handle (Some (teardown (gateway k))) (count_sent (wait (send_time (gateway k)) (await_previous s')))) Hb) as (s2 & -> & Hs2); [|done|].
  - simpl. by rewrite Hx1.
  - cbn [fmap result_fmap]. rewrite Hs2. simpl. by rewrite Hn1.
Qed.

(** a silent ECU costs exactly CP_RepeatReqCountApp repetitions: the
    request is sent that many times more, ends in a timeout and, unless it is
    a TesterPresent, reports the ECU as disconnected; no state is moved. *)
Theorem retries_exhausted sid wait_time fuel :
  let n := Z.to_nat (repeat_req_count_app p) in
  service_states u !! ecu_name <> None -> head (data payload) = Some sid ->
  sem = Some wait_time -> wait_time <= SEMAPHORE_TIMEOUT ->
  (forall j, (j <= n)%nat -> send_result (gateway j) = Ok () /\ incoming (gateway j) O = None) ->
  send_with_raw_payload (n + S fuel) p gateway ecu_name payload timeout true sem u =
    Some (Err Timeout, if sid =? TESTER_PRESENT then u else handle_ecu_disconnected ecu_name u, S n).
Proof.
  clear Hsem. intros n Hecu Hsid -> Hw Hsil. destruct Hp as (_ & _ & _ & Hcount).
  unfold send_with_raw_payload. destruct (service_states u !! ecu_name); [|done].
  rewrite Hsid, (proj2 (Z.ltb_ge _ _)) by done.
  set (s := {| clock := wait_time; rx_timeout_next := None; app_retry_count := 0; sent := 0; previous_task_handle := None |}).
  destruct (send_loop_fails p gateway payload sid (default (timeout_default p) timeout) true n (n + fuel) (S fuel) s)
    as (s' & Hloop & Hn & Hr & _); [done..| |unfold n; simpl; lia|].
  { intros j Hj. right. simpl in Hj. destruct (Hsil j) as [-> ->]; [lia|done]. }
  replace (S (n + fuel)) with (n + S fuel)%nat in Hloop by lia. rewrite Hloop.
  change (sent s + n)%nat with n in Hn. simpl in Hr. destruct (Hsil n) as [Hsend Hinc]; [lia|].
  cbn [send_loop]. unfold send_once.
  destruct (await_previous_keeps s') as (Hn1 & Hr1 & _). rewrite Hn in Hn1. rewrite Hr in Hr1.
  rewrite Hn1, Hsend. simpl negb. cbv iota. replace (n + S fuel)%nat with (S (n + fuel)) by lia.
  cbn [read_uds_messages]. rewrite Hinc. destruct (recv_timeout _ None _) as [d r] eqn:Er.
  assert (Hr' : r = Closed \/ r = Elapsed).
  { unfold recv_timeout in Er. destruct (closes _) as [c|]; [destruct (_ <=? _)|];
      injection Er as <- <-; auto. }
  assert (Hgive : forall v, app_retry_count v = Z.of_nat n ->
    repeat_or p (BreakRead (Err Timeout)) v = (BreakRead (Err Timeout), v)).
  { intros v Hv. unfold repeat_or. rewrite (proj2 (Z.ltb_ge _ _)) by (unfold n in Hv; lia). done. }
  destruct Hr' as [-> | ->]; rewrite Hgive by exact Hr1; simpl; rewrite Hn1; by destruct (sid =? TESTER_PRESENT).
Qed.
End properties.

(** ** A concrete exchange *)

Definition ex_params : UdsParameters :=
  {| timeout_default := 100; rc_21_retry_policy := ContinueUntilTimeout; rc_21_completion_timeout := 1000;
     rc_21_repeat_request_time := 50; rc_78_retry_policy := ContinueUnlimited; rc_78_completion_timeout := 1000;
     rc_78_timeout := 500; rc_94_completion_timeout := 0; rc_94_retry_policy := Disabled;
     rc_94_repeat_request_time := 50; repeat_req_count_app := 2 |}.
Definition ex_request : ServicePayload :=
  {| data := [16; 3]; source_address := 1; target_address := 2; new_session := Some "extended"; new_security := None |}.
Definition ex_answer : ServicePayload := uds_response_from_raw [80; 3; 0] 2 1.
Definition silence : transmission :=
  {| send_time := 1; send_result := Ok (); incoming := listed []; closes := None; teardown := Some 5 |}.
Definition answering (msgs : list (Z * received)) : transmission :=
  {| send_time := 1; send_result := Ok (); incoming := listed msgs; closes := None; teardown := Some 5 |}.
(** Silence, then the answer behind a ResponsePending. *)
Definition ex_gateway (k : nat) : transmission :=
  match k with O => silence | _ => answering [(20, Ok (Some (UdsResponse ex_answer)))] end.
(** An ECU that is always busy. *)
Definition ex_busy (_ : nat) : transmission := answering [(20, Ok (Some (Pending (BusyRepeatRequest 2))))].
Definition ex_state : uds_state :=
  {| service_states := {[ "ecu" := {[ 16 := "default" ]} ]}; disconnected := [] |}.

Lemma ex_params_ok : params_ok ex_params.
Proof. unfold params_ok, ex_params; simpl; lia. Qed.

Lemma answering_ok msgs : Forall (fun m => 0 <= m.1) msgs -> transmission_ok (answering msgs).
Proof.
  intros H. split; [simpl; lia|]. split; [|split; [done|intros ? [= <-]; lia]].
  intros i m Hi. exact (Forall_lookup_1 _ _ i m H Hi).
Qed.

Lemma ex_gateway_ok k : transmission_ok (ex_gateway k).
Proof. destruct k; apply answering_ok; repeat constructor. simpl. lia. Qed.

Lemma ex_busy_ok k : transmission_ok (ex_busy k).
Proof. apply answering_ok. repeat constructor. simpl. lia. Qed.

(** Its transmissions come to an end. *)
Lemma send_terminates_witness :
  match send_with_raw_payload 24 ex_params ex_busy "ecu" ex_request None true (Some 0) ex_state with
  | Some (_, _, n) => Z.of_nat n <= 2 + 21 + 1
  | None => exists k, Z.of_nat k <= 2 + 21 /\ keeps_going ex_params ex_request 16 100 24 (ex_busy k)
  end.
Proof.
  refine (send_terminates ex_params ex_busy "ecu" ex_request None (Some 0) ex_state ex_busy_ok ex_params_ok _ _ true 24 16 eq_refl _ _).
  - vm_compute. discriminate.
  - intros d [= <-]. lia.
  - split; [reflexivity|split; discriminate].
  - reflexivity.
Defined.

(** An ECU that announces its answer again and again keeps one transmission
    going for ever when nothing limits that; so do other messages. *)
Definition announcing (_ : nat) : transmission :=
  {| send_time := 1; send_result := Ok (); incoming := fun _ => Some (20, Ok (Some (Pending (ResponsePending 2)))); closes := None;
     teardown := Some 5 |}.

Example endless_announcements_never_end fuel :
  send_with_raw_payload fuel ex_params announcing "ecu" ex_request None true (Some 0) ex_state = None.
Proof.
  assert (Hread : forall n s, 20 <= default 100 (rx_timeout_next s) ->
    read_uds_messages ex_params ex_request 16 100 n (incoming (announcing 0)) None s = None).
  { induction n as [|n IH]; intros s Hs; [done|]. cbn [read_uds_messages announcing incoming recv_timeout].
    rewrite (proj2 (Z.leb_le _ _) Hs). cbn [validate_timeout_by_policy rc_78_retry_policy ex_params]. by apply IH. }
  destruct fuel as [|fuel]; [done|].
  assert (Hloop : forall s, rx_timeout_next s = None -> previous_task_handle s = None ->
    send_loop ex_params announcing ex_request 16 100 true (S fuel) (S fuel) s = None).
  { intros s Hs Hh. cbn [send_loop].
    assert (send_once ex_params announcing ex_request 16 100 true (S fuel) s = None) as ->; [|done].
    unfold send_once, await_previous. rewrite Hh. apply (Hread (S fuel)). simpl. rewrite Hs. simpl. lia. }
  unfold send_with_raw_payload. replace (service_states ex_state !! "ecu"%string) with (Some ({[ 16 := "default" ]} : gmap Z string))
    by (vm_compute; reflexivity).
  change (SEMAPHORE_TIMEOUT <? 0) with false. cbn [head data ex_request]. cbv iota. by rewrite Hloop.
Qed.

Lemma retry_recovers_witness :
  send_with_raw_payload 2 ex_params ex_gateway "ecu" ex_request None true (Some 0) ex_state =
    Some (Ok (Some ex_answer), post_send "ecu" ex_request 16 (Ok ex_answer) ex_state, 2%nat).
Proof.
  apply (retry_recovers ex_params ex_gateway "ecu" ex_request None (Some 0) ex_state ex_params_ok 1 0 16
    ex_answer 0); try reflexivity; try (vm_compute; discriminate); [lia|lia| |].
  - intros [|j] Hj; [|lia]. right. split; [reflexivity|exact I].
  - apply (brings_answer _ _ _ _ _ _ 20); try reflexivity. simpl. lia.
Defined.

Lemma send_effects_witness :
  exists sid, head (data ex_request) = Some sid /\ is_response_for_sid ex_answer sid = true /\
    service_states (post_send "ecu" ex_request 16 (Ok ex_answer) ex_state) =
      states_after "ecu" ex_request ex_state ex_answer sid /\
    disconnected (post_send "ecu" ex_request 16 (Ok ex_answer) ex_state) = [].
Proof.
  refine (proj2 (proj2 (send_effects ex_params ex_gateway "ecu" ex_request None (Some 0) ex_state ex_gateway_ok
    ex_params_ok _ _ true 2 (Ok (Some ex_answer)) (post_send "ecu" ex_request 16 (Ok ex_answer) ex_state) 2 _))).
  - vm_compute. discriminate.
  - intros d [= <-]. lia.
  - reflexivity.
Defined.

Lemma retries_exhausted_witness :
  send_with_raw_payload (2 + 1) ex_params (fun _ => silence) "ecu" ex_request None true (Some 0) ex_state =
    Some (Err Timeout, handle_ecu_disconnected "ecu" ex_state, 3%nat).
Proof.
  apply (retries_exhausted ex_params (fun _ => silence) "ecu" ex_request None (Some 0) ex_state ex_params_ok 16 0 0);
    try reflexivity; try (vm_compute; discriminate).
  intros j _. split; reflexivity.
Defined.

(** The longer timeout a ResponsePending asks for outlives a busy repetition:
    the next transmission waits [rc_78_timeout] for its first message, where
    every other repetition goes back to [rx_timeout]. *)
Example pending_timeout_outlives_busy_repeat :
  (fun o => (o.1, rx_timeout_next o.2)) <$> read_uds_messages ex_params ex_request 16 100 2
    (listed [(20, Ok (Some (Pending (ResponsePending 2)))); (20, Ok (Some (Pending (BusyRepeatRequest 2))))]) None
    {| clock := 0; rx_timeout_next := None; app_retry_count := 0; sent := 1; previous_task_handle := None |}
   = Some (ContinueSend, Some 500).
Proof. reflexivity. Qed.

(** With an unlimited policy an ECU that stays busy keeps the request going
    for ever: no number of transmissions ends it. *)
Example unlimited_busy_never_ends reads fuel s :
  let p := {| timeout_default := 100; rc_21_retry_policy := ContinueUnlimited; rc_21_completion_timeout := 0;
     rc_21_repeat_request_time := 50; rc_78_retry_policy := Disabled; rc_78_completion_timeout := 0;
     rc_78_timeout := 0; rc_94_completion_timeout := 0; rc_94_retry_policy := Disabled;
     rc_94_repeat_request_time := 0; repeat_req_count_app := 0 |} in
  rx_timeout_next s = None -> send_loop p ex_busy ex_request 16 100 true reads fuel s = None.
Proof.
  intros p. revert s. induction fuel as [|fuel IH]; intros s Hs; [done|]. cbn [send_loop]. unfold send_once.
  destruct (await_previous_keeps s) as (_ & _ & Hx). rewrite Hs in Hx. set (s1 := await_previous s) in *.
  cbn [negb ex_busy answering send_result incoming closes teardown]. destruct reads as [|reads]; [done|]. cbn [read_uds_messages].
  replace (rx_timeout_next (set_handle _ _)) with (@None Z) by (symmetry; exact Hx). cbn [default recv_timeout listed lookup list_lookup].
  change (20 <=? 100) with true. cbv iota. unfold busy_repeat. cbn [validate_timeout_by_policy rc_21_retry_policy p].
  apply IH. exact Hx.
Qed.
