(* ===== verification/EcuState.v ===== *)
(** * ECU runtime state and its coordinator

    [EcuState] and [EcuRuntimeState] (cda-interfaces/src/ecumanager.rs), the
    actor that serialises the connectivity changes of one ECU
    (cda-comm-uds/src/coordinator.rs) and the coordinator of all ECUs that the
    transports call (cda-comm-uds/src/state_coordinator.rs).

    An actor handles the messages of its mailbox one at a time: [tell] puts a
    message into the mailbox, [ask] also waits until it has been handled,
    after everything put there before.  Reads and the writes of variant
    detection go past the mailbox, so both appear as steps of their own. *)

From stdpp Require Import strings gmap.
From S2P Require Import Prelude.

Local Open Scope Z_scope.

(** ** State *)

Inductive Connectivity : Type := Online | Offline.

Inductive VariantState : Type :=
  | NotTested
  | Detected (name : string) (is_base_variant is_fallback : bool)
  | Duplicate
  | NotDetected.

#[export] Instance Connectivity_eq_dec : EqDecision Connectivity.
Proof. solve_decision. Defined.
#[export] Instance VariantState_eq_dec : EqDecision VariantState.
Proof. solve_decision. Defined.

Record EcuState : Type := {
  connectivity : Connectivity;
  variant_state : VariantState;
  variant_index : option Z
}.

Definition EcuState_default : EcuState :=
  {| connectivity := Offline; variant_state := NotTested; variant_index := None |}.

Definition is_detected (v : VariantState) : bool :=
  match v with Detected _ _ _ => true | _ => false end.

Definition is_fallback (self : EcuState) : bool :=
  match variant_state self with Detected _ _ true => true | _ => false end.

Definition is_online_and_detected (self : EcuState) : bool :=
  bool_decide (connectivity self = Online) && is_detected (variant_state self).

Definition needs_variant_detection (status : EcuState) : bool :=
  bool_decide (variant_state status = NotTested) ||
  (bool_decide (connectivity status = Offline) &&
   match variant_state status with Detected _ _ _ | NotDetected => true | _ => false end).

Definition set_connectivity (c : Connectivity) (s : EcuState) : EcuState :=
  {| connectivity := c; variant_state := variant_state s; variant_index := variant_index s |}.

(** Writing a state without a variant. *)
Definition clear_variant (v : VariantState) (s : EcuState) : EcuState :=
  {| connectivity := connectivity s; variant_state := v; variant_index := None |}.

(** ** The actor of one ECU *)

Record EcuCoordinator : Type := {
  ecu_state : EcuState;
  service_states : gmap Z string;
  suppress_disconnect : bool
}.

Definition EcuCoordinator_new : EcuCoordinator :=
  {| ecu_state := EcuState_default; service_states := ∅; suppress_disconnect := false |}.

Definition with_ecu_state (f : EcuState -> EcuState) (self : EcuCoordinator) : EcuCoordinator :=
  {| ecu_state := f (ecu_state self); service_states := service_states self;
     suppress_disconnect := suppress_disconnect self |}.
Definition with_service_states (f : gmap Z string -> gmap Z string) (self : EcuCoordinator) : EcuCoordinator :=
  {| ecu_state := ecu_state self; service_states := f (service_states self);
     suppress_disconnect := suppress_disconnect self |}.
Definition with_suppress (b : bool) (self : EcuCoordinator) : EcuCoordinator :=
  {| ecu_state := ecu_state self; service_states := service_states self; suppress_disconnect := b |}.

Inductive Message : Type :=
  | SetServiceState (sid : Z) (value : string)
  | SetDefaultStates (defaults : list (Z * string))
  | ClearServiceStates
  | EcuDisconnected
  | EcuConnected
  | SuppressDisconnectHandling
  | RestoreDisconnectHandling
  | MarkAsDuplicate
  | MarkAsNoVariantDetected.

(** [entry(sid).or_insert(value)]. *)
Definition or_insert (m : gmap Z string) (d : Z * string) : gmap Z string :=
  match m !! d.1 with Some _ => m | None => <[d.1 := d.2]> m end.

Definition handle_SetServiceState (sid : Z) (value : string) (self : EcuCoordinator) : EcuCoordinator :=
  with_service_states (fun m => <[sid := value]> m) self.

Definition handle_SetDefaultStates (defaults : list (Z * string)) (self : EcuCoordinator) : EcuCoordinator :=
  with_service_states (fun m => foldl or_insert m defaults) self.

Definition handle_ClearServiceStates (self : EcuCoordinator) : EcuCoordinator :=
  with_service_states (fun _ => ∅) self.

Definition handle_EcuDisconnected (self : EcuCoordinator) : EcuCoordinator :=
  if suppress_disconnect self then self
  else if bool_decide (connectivity (ecu_state self) = Online)
  then with_ecu_state (set_connectivity Offline) self
  else self.

Definition handle_EcuConnected (self : EcuCoordinator) : EcuCoordinator * bool :=
  if bool_decide (connectivity (ecu_state self) = Offline)
  then (with_ecu_state (fun s => clear_variant NotTested (set_connectivity Online s)) self, true)
  else (self, false).

Definition handle_SuppressDisconnectHandling (self : EcuCoordinator) : EcuCoordinator :=
  with_suppress true self.

Definition handle_RestoreDisconnectHandling (self : EcuCoordinator) : EcuCoordinator :=
  with_suppress false self.

Definition handle_MarkAsDuplicate (self : EcuCoordinator) : EcuCoordinator :=
  with_ecu_state (clear_variant Duplicate) self.

Definition handle_MarkAsNoVariantDetected (self : EcuCoordinator) : EcuCoordinator :=
  with_ecu_state (clear_variant NotDetected) self.

(** The new state and the reply ([false] for the messages without one). *)
Definition handle (msg : Message) (self : EcuCoordinator) : EcuCoordinator * bool :=
  match msg with
  | SetServiceState sid value => (handle_SetServiceState sid value self, false)
  | SetDefaultStates defaults => (handle_SetDefaultStates defaults self, false)
  | ClearServiceStates => (handle_ClearServiceStates self, false)
  | EcuDisconnected => (handle_EcuDisconnected self, false)
  | EcuConnected => handle_EcuConnected self
  | SuppressDisconnectHandling => (handle_SuppressDisconnectHandling self, false)
  | RestoreDisconnectHandling => (handle_RestoreDisconnectHandling self, false)
  | MarkAsDuplicate => (handle_MarkAsDuplicate self, false)
  | MarkAsNoVariantDetected => (handle_MarkAsNoVariantDetected self, false)
  end.

(** ** The coordinator of all ECUs *)

(** Each actor with its mailbox, and the channel of ECUs to detect again. *)
Record EcuStateCoordinator : Type := {
  handles : gmap string (EcuCoordinator * list Message);
  redetect : list string
}.

Definition with_handles f (self : EcuStateCoordinator) : EcuStateCoordinator :=
  {| handles := f (handles self); redetect := redetect self |}.

Definition EcuStateCoordinator_new (ecus : gmap string EcuCoordinator) : EcuStateCoordinator :=
  {| handles := (fun c => (c, [])) <$> ecus; redetect := [] |}.

(** [actor_ref.tell]. *)
Definition tell (ecu_name : string) (msg : Message) (self : EcuStateCoordinator) : EcuStateCoordinator :=
  with_handles (alter (fun h => (h.1, h.2 ++ [msg])) ecu_name) self.

(** The actor takes the first message of its mailbox. *)
Definition deliver (ecu_name : string) (self : EcuStateCoordinator) : EcuStateCoordinator :=
  with_handles (alter (fun h => match h.2 with
                                | [] => h
                                | msg :: rest => ((handle msg h.1).1, rest)
                                end) ecu_name) self.

(** Everything in a mailbox, in order. *)
Definition handle_all (msgs : list Message) (c : EcuCoordinator) : EcuCoordinator :=
  foldl (fun c msg => (handle msg c).1) c msgs.

(** [actor_ref.ask(msg).await] of a caller that is not interrupted: the reply
    comes after the messages that were in the mailbox before. *)
Definition ask (ecu_name : string) (msg : Message) (self : EcuStateCoordinator) : EcuStateCoordinator * option bool :=
  match handles self !! ecu_name with
  | None => (self, None)
  | Some (c, box) =>
      let '(c', reply) := handle msg (handle_all box c) in
      (with_handles (<[ecu_name := (c', [])]>) self, Some reply)
  end.

(** The status a caller reads, past the mailbox. *)
Definition ecu_status (self : EcuStateCoordinator) (ecu_name : string) : option EcuState :=
  (fun h => ecu_state h.1) <$> handles self !! ecu_name.

Definition handle_ecu_connected (ecu_name : string) (self : EcuStateCoordinator) : EcuStateCoordinator :=
  match ask ecu_name EcuConnected self with
  | (self, Some transitioned) =>
      let needs_detection :=
        transitioned || match ecu_status self ecu_name with
                        | Some status => needs_variant_detection status
                        | None => false
                        end in
      if needs_detection then {| handles := handles self; redetect := redetect self ++ [ecu_name] |} else self
  | (self, None) => self
  end.

Definition handle_ecu_disconnected (ecu_name : string) (self : EcuStateCoordinator) : EcuStateCoordinator :=
  match handles self !! ecu_name with
  | Some _ => tell ecu_name EcuDisconnected self
  | None => self
  end.

Definition suppress_disconnect_handling (ecu_name : string) (self : EcuStateCoordinator) : EcuStateCoordinator :=
  (ask ecu_name SuppressDisconnectHandling self).1.

Definition restore_disconnect_handling (ecu_name : string) (self : EcuStateCoordinator) : EcuStateCoordinator :=
  (ask ecu_name RestoreDisconnectHandling self).1.

Definition on_gateway_connected (ecu_names : list string) (self : EcuStateCoordinator) : EcuStateCoordinator :=
  foldl (fun s n => handle_ecu_connected n s) self ecu_names.

Definition on_gateway_disconnected (ecu_names : list string) (self : EcuStateCoordinator) : EcuStateCoordinator :=
  foldl (fun s n => handle_ecu_disconnected n s) self ecu_names.

(** ** Serialising variant detections *)

(** A caller of [begin_detection]: waiting for the lock with its trigger
    generation, holding the lock before the generation check, running a
    detection, told to skip it, or done. *)
Inductive phase : Type :=
  | Waiting (my_generation : Z)
  | Checking (my_generation : Z)
  | Running
  | Skipped
  | Finished.

#[export] Instance phase_eq_dec : EqDecision phase.
Proof. solve_decision. Defined.

(** The shared counter, the owner of [detection_lock], and the callers in the
    order they came: the [i]-th caller is the task [i]. *)
Record detection : Type := {
  detection_generation : Z;
  detection_lock : option nat;
  callers : list phase
}.

Definition detection_new : detection :=
  {| detection_generation := 0; detection_lock := None; callers := [] |}.

(** [u64::wrapping_add(1)]. *)
Definition wrapping_succ (g : Z) : Z := (g + 1) mod 2 ^ 64.

Inductive begin_step : detection -> detection -> Prop :=
  (** [fetch_add(1)] and the start of [lock_owned()]. *)
  | begin_enter d :
      begin_step d
        {| detection_generation := wrapping_succ (detection_generation d); detection_lock := detection_lock d;
           callers := callers d ++ [Waiting (wrapping_succ (detection_generation d))] |}
  (** The lock is free and one of the waiting callers gets it. *)
  | begin_lock d i g :
      detection_lock d = None -> callers d !! i = Some (Waiting g) ->
      begin_step d
        {| detection_generation := detection_generation d; detection_lock := Some i;
           callers := <[i := Checking g]> (callers d) |}
  (** Still the newest trigger: the guard is returned. *)
  | begin_run d i :
      callers d !! i = Some (Checking (detection_generation d)) ->
      begin_step d
        {| detection_generation := detection_generation d; detection_lock := detection_lock d;
           callers := <[i := Running]> (callers d) |}
  (** Superseded: [None], and the guard is dropped. *)
  | begin_skip d i g :
      callers d !! i = Some (Checking g) -> g <> detection_generation d ->
      begin_step d
        {| detection_generation := detection_generation d; detection_lock := None;
           callers := <[i := Skipped]> (callers d) |}
  (** The detection is over and its guard dropped. *)
  | begin_finish d i :
      callers d !! i = Some Running ->
      begin_step d
        {| detection_generation := detection_generation d; detection_lock := None;
           callers := <[i := Finished]> (callers d) |}.

(** ** Every writer of an ECU's state *)

(** The writes of [EcuManager] (cda-core/src/diag_kernel/variant.rs and
    [set_variant]), which do not go through the actor. *)
Inductive direct_write : EcuState -> EcuState -> Prop :=
  | write_unreachable s : direct_write s (set_connectivity Offline s)
  | write_cleared v c s :
      is_detected v = false -> direct_write s {| connectivity := c; variant_state := v; variant_index := None |}
  | write_detected name base fallback i s :
      direct_write s
        {| connectivity := Online; variant_state := Detected name base fallback; variant_index := Some i |}.

Inductive step (self : EcuStateCoordinator) : EcuStateCoordinator -> Prop :=
  | step_tell ecu_name msg : step self (tell ecu_name msg self)
  | step_deliver ecu_name : step self (deliver ecu_name self)
  | step_connected ecu_name : step self (handle_ecu_connected ecu_name self)
  | step_disconnected ecu_name : step self (handle_ecu_disconnected ecu_name self)
  | step_suppress ecu_name : step self (suppress_disconnect_handling ecu_name self)
  | step_restore ecu_name : step self (restore_disconnect_handling ecu_name self)
  | step_write ecu_name c box s :
      handles self !! ecu_name = Some (c, box) -> direct_write (ecu_state c) s ->
      step self (with_handles (<[ecu_name := (with_ecu_state (fun _ => s) c, box)]>) self).

(** ** Lemmas *)

(** The database index is there exactly when a variant is detected. *)
Definition state_wf (s : EcuState) : Prop := is_Some (variant_index s) <-> is_detected (variant_state s) = true.

Definition coordinator_wf (self : EcuStateCoordinator) : Prop :=
  map_Forall (fun _ h => state_wf (ecu_state h.1)) (handles self).

Lemma clear_variant_wf v s : is_detected v = false -> state_wf (clear_variant v s).
Proof. unfold state_wf. simpl. intros ->. split; [by intros [? ?]|done]. Qed.

Lemma handle_wf msg c : state_wf (ecu_state c) -> state_wf (ecu_state (handle msg c).1).
Proof.
  intros Hc. destruct msg; simpl; try exact Hc.
  - unfold handle_EcuDisconnected. destruct (suppress_disconnect c); [done|]. by case_bool_decide.
  - unfold handle_EcuConnected. case_bool_decide; [|done]. by apply clear_variant_wf.
  - by apply clear_variant_wf.
  - by apply clear_variant_wf.
Qed.

Lemma handle_all_wf msgs c : state_wf (ecu_state c) -> state_wf (ecu_state (handle_all msgs c)).
Proof. revert c. induction msgs as [|m msgs IH]; intros c Hc; [done|]. apply IH. by apply handle_wf. Qed.

Lemma direct_write_wf s s' : direct_write s s' -> state_wf s -> state_wf s'.
Proof.
  intros [] Hs; [exact Hs| |].
  - unfold state_wf. simpl. rewrite H. split; [by intros [? ?]|done].
  - unfold state_wf. simpl. split; [done|by eexists].
Qed.

Lemma ask_wf n msg self : coordinator_wf self -> coordinator_wf (ask n msg self).1.
Proof.
  intros Hs. unfold ask. destruct (handles self !! n) as [[c box]|] eqn:E; [|done].
  pose proof (handle_wf msg (handle_all box c) (handle_all_wf box c (Hs _ _ E))) as Hc.
  destruct (handle msg (handle_all box c)) as [c' r]. by apply map_Forall_insert_2.
Qed.

Lemma handle_ecu_connected_ask n self :
  handles (handle_ecu_connected n self) = handles (ask n EcuConnected self).1.
Proof.
  unfold handle_ecu_connected. destruct (ask n EcuConnected self) as [self' [b|]] eqn:E.
  - by destruct (b || _).
  - unfold ask in E. destruct (handles self !! n) as [[c box]|]; [|by injection E as <-].
    by destruct (handle EcuConnected (handle_all box c)).
Qed.

Lemma step_wf self self' : step self self' -> coordinator_wf self -> coordinator_wf self'.
Proof.
  assert (Halter : forall f n, (forall h, state_wf (ecu_state h.1) -> state_wf (ecu_state (f h).1)) ->
    coordinator_wf self -> coordinator_wf (with_handles (alter f n) self)).
  { intros f n Hf Hs i h. simpl. rewrite lookup_alter_Some. intros [(-> & h' & Hh & ->)|[_ Hh]];
      [apply Hf|]; by eapply Hs. }
  intros [] Hs.
  - by apply Halter.
  - apply Halter; [|done]. intros [c [|m box]] Hc; [done|]. by apply handle_wf.
  - unfold coordinator_wf. rewrite handle_ecu_connected_ask. by apply ask_wf.
  - unfold handle_ecu_disconnected. destruct (handles self !! ecu_name); [|done]. by apply Halter.
  - by apply ask_wf.
  - by apply ask_wf.
  - apply map_Forall_insert_2; [|done]. eapply direct_write_wf; [done|]. by apply (Hs _ _ H).
Qed.

(** Disconnect events that find the suppression set, and no restore. *)
Lemma suppressed_handle msg c :
  suppress_disconnect c = true -> msg <> RestoreDisconnectHandling ->
  suppress_disconnect (handle msg c).1 = true /\
  (connectivity (ecu_state c) = Online -> connectivity (ecu_state (handle msg c).1) = Online).
Proof.
  intros Hs Hm. destruct msg; simpl; try done.
  - unfold handle_EcuDisconnected. by rewrite Hs.
  - unfold handle_EcuConnected. by case_bool_decide.
Qed.

Definition connectivity_event (msg : Message) : bool :=
  match msg with
  | EcuDisconnected | EcuConnected | SuppressDisconnectHandling | RestoreDisconnectHandling => true
  | _ => false
  end.

Lemma handle_keeps_service_states msg c :
  connectivity_event msg = true -> service_states (handle msg c).1 = service_states c.
Proof.
  destruct msg; simpl; try done; intros _.
  - unfold handle_EcuDisconnected. destruct (suppress_disconnect c); [done|]. by case_bool_decide.
  - unfold handle_EcuConnected. by case_bool_decide.
Qed.

Section detection_lock.

(** The lock is held by exactly one caller that is checking or running. *)
Definition holds (ph : phase) : bool :=
  match ph with Checking _ | Running => true | _ => false end.

Record detection_inv (d : detection) : Prop := {
  inv_lock : forall i ph, callers d !! i = Some ph -> holds ph = true -> detection_lock d = Some i;
  inv_newest : callers d = [] \/
    exists ph, list.last (callers d) = Some ph /\ ph <> Skipped /\
      (forall g, ph = Waiting g \/ ph = Checking g -> g = detection_generation d)
}.

Lemma last_insert_other (l : list phase) i ph :
  (S i < length l)%nat -> list.last (<[i := ph]> l) = list.last l.
Proof.
  intros Hi. rewrite !last_lookup, length_insert. apply list_lookup_insert_ne. lia.
Qed.

Lemma last_insert_last (l : list phase) i ph :
  S i = length l -> list.last (<[i := ph]> l) = Some ph.
Proof.
  intros Hi. rewrite last_lookup, length_insert. replace (pred (length l)) with i by lia.
  apply list_lookup_insert_eq. lia.
Qed.

(** A step that changes the caller [i] from [old] to [new] only. *)
Lemma inv_update d i old new lock :
  detection_inv d -> callers d !! i = Some old -> new <> Skipped \/ S i <> length (callers d) ->
  (forall g, new = Waiting g \/ new = Checking g -> old = Waiting g \/ old = Checking g) ->
  (holds new = true -> lock = Some i) ->
  (detection_lock d = None \/ holds old = true) ->
  detection_inv {| detection_generation := detection_generation d; detection_lock := lock;
                   callers := <[i := new]> (callers d) |}.
Proof.
  intros [Hlock Hnew] Hi Hne Hgen Hn Ho. pose proof (lookup_lt_Some _ _ _ Hi) as Hlt.
  assert (Hothers : forall j ph, j <> i -> callers d !! j = Some ph -> holds ph = false).
  { intros j ph Hj Hph. destruct (holds ph) eqn:E; [|done]. pose proof (Hlock j ph Hph E) as Hl.
    destruct Ho as [Ho|Ho]; [congruence|]. pose proof (Hlock i old Hi Ho). congruence. }
  split; simpl.
  - intros j ph. destruct (decide (j = i)) as [->|Hj].
    + rewrite list_lookup_insert_eq by done. intros [= <-]. auto.
    + rewrite list_lookup_insert_ne by done. intros Hph E. by rewrite (Hothers j ph) in E.
  - right. destruct Hnew as [Hnil|(ph & Hlast & Hph & Hg)]; [by rewrite Hnil in Hi|].
    destruct (decide (S i = length (callers d))) as [Hi'|Hi'].
    + rewrite last_insert_last by done. exists new. split; [done|]. split; [by destruct Hne|].
      assert (ph = old) as ->.
      { rewrite last_lookup in Hlast. replace (pred (length (callers d))) with i in Hlast by lia. congruence. }
      intros g Hgg. apply Hg. by apply Hgen.
    + rewrite last_insert_other by lia. by exists ph.
Qed.

Lemma begin_step_inv d d' : begin_step d d' -> detection_inv d -> detection_inv d'.
Proof.
  intros [] Hd.
  - destruct Hd as [Hlock Hnew]. split; simpl.
    + intros i ph. rewrite lookup_app_Some. intros [Hi|[_ Hi]]; [by eapply Hlock|].
      destruct (i - length (callers d0))%nat; [|done]. by injection Hi as <-.
    + right. rewrite last_snoc. eexists. split; [done|]. split; [done|]. by intros g [[= <-]|?].
  - eapply inv_update; [done|done|by left| |done|by left]. intros h [?|[= <-]]; [done|by left].
  - eapply inv_update; [done|done|by left| | |by right]; [by intros h [?|?]|].
    intros _. by apply (inv_lock _ Hd _ _ H).
  - eapply inv_update; [done|done| | |done|by right]; [|by intros h [?|?]].
    right. intros Hi. destruct (inv_newest _ Hd) as [Hn|(ph & Hl & _ & Hg)]; [by rewrite Hn in H|].
    rewrite last_lookup in Hl. replace (pred (length (callers d0))) with i in Hl by lia.
    assert (ph = Checking g) as -> by congruence. apply H0. apply Hg. by right.
  - eapply inv_update; [done|done|by left| |done|by right]. by intros h [?|?].
Qed.

(** The generation of a waiting caller is its rank, as a [u64]. *)
Definition generation_inv (d : detection) : Prop :=
  detection_generation d = Z.of_nat (length (callers d)) mod 2 ^ 64 /\
  forall i g, callers d !! i = Some (Waiting g) \/ callers d !! i = Some (Checking g) ->
    g = Z.of_nat (S i) mod 2 ^ 64.

Lemma begin_step_generation d d' : begin_step d d' -> generation_inv d -> generation_inv d'.
Proof.
  intros Hstep [Hgen Hw].
  assert (Hset : forall i old new, callers d !! i = Some old ->
    (forall g, new = Waiting g \/ new = Checking g -> old = Waiting g \/ old = Checking g) ->
    forall lock, generation_inv {| detection_generation := detection_generation d; detection_lock := lock;
                                   callers := <[i := new]> (callers d) |}).
  { intros i old new Hi Hn lock. pose proof (lookup_lt_Some _ _ _ Hi) as Hlt. split; simpl; [by rewrite length_insert|].
    intros j g. destruct (decide (j = i)) as [->|Hj]; [|rewrite list_lookup_insert_ne by done; apply Hw].
    rewrite list_lookup_insert_eq by done. intros Hg. apply Hw. rewrite Hi.
    destruct (Hn g) as [-> | ->]; [|by left|by right]. destruct Hg as [[= ->]|[= ->]]; auto. }
  destruct Hstep as [|d i g Hl Hi|d i Hi|d i g Hi Hg|d i Hi].
  - split; simpl.
    + unfold wrapping_succ. rewrite length_app, Hgen. simpl.
      rewrite Zplus_mod_idemp_l. f_equal. lia.
    + intros i g. destruct (decide (i < length (callers d))%nat) as [Hlt|Hge].
      * rewrite lookup_app_l by done. apply Hw.
      * rewrite lookup_app_r by lia. destruct (i - length (callers d))%nat as [|k] eqn:E; [|by intros [?|?]].
        intros [[= <-]|[=]]. unfold wrapping_succ. rewrite Hgen, Zplus_mod_idemp_l. f_equal. lia.
  - eapply Hset; [done|]. intros h [?|[= <-]]; [done|by left].
  - eapply Hset; [done|]. by intros h [?|?].
  - eapply Hset; [done|]. by intros h [?|?].
  - eapply Hset; [done|]. by intros h [?|?].
Qed.

Lemma detection_new_inv : detection_inv detection_new /\ generation_inv detection_new.
Proof. split; split; simpl; [done|by left|done|by intros ? ? [?|?]]. Qed.

Lemma reachable_inv d : rtc begin_step detection_new d -> detection_inv d /\ generation_inv d.
Proof.
  assert (H : forall d0, rtc begin_step d0 d -> detection_inv d0 /\ generation_inv d0 -> detection_inv d /\ generation_inv d).
  { intros d0. induction 1 as [|d1 d2 d3 Hs _ IH]; [done|]. intros [H1 H2].
    apply IH. split; [by eapply begin_step_inv|by eapply begin_step_generation]. }
  intros Hr. apply (H _ Hr), detection_new_inv.
Qed.

Lemma begin_step_length d d' : begin_step d d' -> (length (callers d) <= length (callers d'))%nat.
Proof. intros []; simpl; rewrite ?length_app, ?length_insert; simpl; lia. Qed.

(** A caller that is not the newest stays waiting or skips, as long as the
    generations do not wrap around. *)
Definition not_yet (ph : phase) : bool := match ph with Running | Finished => false | _ => true end.

Lemma begin_step_older d d' i ph :
  begin_step d d' -> generation_inv d -> Z.of_nat (length (callers d)) < 2 ^ 64 ->
  callers d !! i = Some ph -> not_yet ph = true -> S i <> length (callers d) ->
  exists ph', callers d' !! i = Some ph' /\ not_yet ph' = true.
Proof.
  intros Hstep [Hgen Hw] Hlen Hi Hph Hne. pose proof (lookup_lt_Some _ _ _ Hi) as Hlt.
  assert (Hset : forall j new, (j = i -> not_yet new = true) ->
    exists ph', <[j := new]> (callers d) !! i = Some ph' /\ not_yet ph' = true).
  { intros j new Hn. destruct (decide (j = i)) as [->|Hj].
    - rewrite list_lookup_insert_eq by done. eauto.
    - rewrite list_lookup_insert_ne by done. eauto. }
  destruct Hstep as [|d j g Hl Hj|d j Hj|d j g Hj Hg|d j Hj]; simpl; try by apply Hset.
  - exists ph. by rewrite lookup_app_l.
  - apply Hset. intros ->. exfalso.
    assert (detection_generation d = Z.of_nat (S i) mod 2 ^ 64) as E by (apply Hw; by right).
    rewrite Hgen, !Z.mod_small in E by lia. lia.
  - apply Hset. intros ->. assert (ph = Running) as -> by congruence. done.
Qed.
End detection_lock.

(** ** Properties *)

(** whatever the order in which messages are put into the mailboxes and
    handled, transports report connections, and variant detection writes past
    the mailboxes, an ECU has an index into the variants of its database
    exactly when a variant is detected. *)
Theorem variant_index_iff_detected ecus self ecu_name c box :
  (forall n e, ecus !! n = Some e -> ecu_state e = EcuState_default) ->
  rtc step (EcuStateCoordinator_new ecus) self ->
  handles self !! ecu_name = Some (c, box) ->
  is_Some (variant_index (ecu_state c)) <-> is_detected (variant_state (ecu_state c)) = true.
Proof.
  intros Hnew Hsteps Hh.
  assert (H : forall s, rtc step s self -> coordinator_wf s -> coordinator_wf self).
  { intros s. induction 1; [done|]. eauto using step_wf. }
  refine (H _ Hsteps _ _ _ Hh). intros n [e b]. unfold EcuStateCoordinator_new. simpl.
  rewrite lookup_fmap. destruct (ecus !! n) as [e'|] eqn:E; [|done]. intros [= <- <-].
  simpl. rewrite (Hnew _ _ E). unfold state_wf. simpl. split; [by intros [? ?]|done].
Qed.

(** a connection reported by a transport is never lost.  Once it is
    handled the ECU is online with an empty mailbox and its session and
    security states unchanged; if it was offline its variant is forgotten;
    and if it has no usable variant it waits in the channel of the ECUs to
    detect again.  The other ECUs are untouched. *)
Theorem connected_ecu_is_redetected ecu_name c box self :
  handles self !! ecu_name = Some (c, box) ->
  let before := handle_all box c in
  let self' := handle_ecu_connected ecu_name self in
  exists c', handles self' = <[ecu_name := (c', [])]> (handles self) /\
    connectivity (ecu_state c') = Online /\ service_states c' = service_states before /\
    (connectivity (ecu_state before) = Offline -> variant_state (ecu_state c') = NotTested) /\
    (connectivity (ecu_state before) = Online -> c' = before) /\
    redetect self' = redetect self ++ (if needs_variant_detection (ecu_state c') then [ecu_name] else []).
Proof.
  intros Hh before self'. unfold self', handle_ecu_connected, ask. rewrite Hh. fold before. cbn [handle].
  unfold handle_EcuConnected. case_bool_decide as Hc.
  - eexists. cbn. split; [done|]. split; [done|]. split; [done|]. split; [done|]. split; [by rewrite Hc|done].
  - exists before. cbn [orb]. unfold ecu_status. cbn [with_handles handles].
    rewrite lookup_insert_eq. cbn. destruct (connectivity (ecu_state before)) eqn:E; [|done].
    destruct (needs_variant_detection (ecu_state before)); cbn; rewrite ?app_nil_r;
      repeat split; done.
Qed.

Lemma connected_ecu_is_redetected_witness :
  let c := with_ecu_state (fun _ => {| connectivity := Online; variant_state := Detected "v" false false;
                                       variant_index := Some 1 |}) EcuCoordinator_new in
  let self := {| handles := {[ "ecu" := (c, [EcuDisconnected]) ]}; redetect := [] |} in
  exists c', handles (handle_ecu_connected "ecu" self) = <["ecu" := (c', [])]> (handles self) /\
    redetect (handle_ecu_connected "ecu" self) = ["ecu"].
Proof.
  intros c self.
  destruct (connected_ecu_is_redetected "ecu" c [EcuDisconnected] self eq_refl) as (c' & H1 & _ & _ & H2 & _ & H3).
  exists c'. split; [exact H1|]. rewrite H3. unfold needs_variant_detection. by rewrite (H2 eq_refl).
Defined.

Lemma variant_index_iff_detected_witness :
  let self := EcuStateCoordinator_new {[ "ecu" := EcuCoordinator_new ]} in
  let self' := handle_ecu_connected "ecu" (handle_ecu_disconnected "ecu" self) in
  exists c, handles self' !! "ecu" = Some (c, []) /\
    (is_Some (variant_index (ecu_state c)) <-> is_detected (variant_state (ecu_state c)) = true).
Proof.
  intros self self'. eexists. split; [reflexivity|].
  eapply (variant_index_iff_detected {[ "ecu" := EcuCoordinator_new ]} self' "ecu" _ []); [| |reflexivity].
  - intros n e [_ <-]%lookup_singleton_Some. reflexivity.
  - eapply rtc_l; [apply (step_disconnected _ "ecu")|]. eapply rtc_l; [apply (step_connected _ "ecu")|constructor].
Defined.

(** while variant detection has the disconnect events of an ECU suppressed,
    no mix of messages handled before the restore takes it offline, and the
    suppression stays; after the restore a disconnect event does. *)
Theorem suppression_keeps_online c msgs :
  suppress_disconnect c = true -> connectivity (ecu_state c) = Online ->
  RestoreDisconnectHandling ∉ msgs ->
  connectivity (ecu_state (handle_all msgs c)) = Online /\ suppress_disconnect (handle_all msgs c) = true /\
  let restored := handle_all (msgs ++ [RestoreDisconnectHandling; EcuDisconnected]) c in
  connectivity (ecu_state restored) = Offline /\
  variant_state (ecu_state restored) = variant_state (ecu_state (handle_all msgs c)).
Proof.
  intros Hs Ho Hm.
  assert (Hall : connectivity (ecu_state (handle_all msgs c)) = Online /\ suppress_disconnect (handle_all msgs c) = true).
  { revert c Hs Ho. induction msgs as [|m msgs IH]; intros c Hs Ho; [done|].
    apply not_elem_of_cons in Hm as [Hne Hm]. destruct (suppressed_handle m c Hs) as [H1 H2]; [congruence|].
    apply IH; [done|done|]. by apply H2. }
  destruct Hall as [Hon Hsup]. split; [done|]. split; [done|]. intros restored. unfold restored, handle_all.
  rewrite foldl_app. change (foldl _ c msgs) with (handle_all msgs c). cbn. unfold handle_EcuDisconnected.
  cbn. unfold handle_RestoreDisconnectHandling. cbn. by rewrite Hon.
Qed.

Lemma suppression_keeps_online_witness :
  let c := {| ecu_state := {| connectivity := Online; variant_state := NotDetected; variant_index := None |};
              service_states := ∅; suppress_disconnect := true |} in
  connectivity (ecu_state (handle_all [EcuDisconnected; ClearServiceStates] c)) = Online.
Proof.
  intros c. apply (suppression_keeps_online c [EcuDisconnected; ClearServiceStates]); [done|done|].
  intros [?|[?|?%elem_of_nil]%elem_of_cons]%elem_of_cons; done.
Defined.

(** Connectivity events do not touch the session and security states. *)
Lemma connectivity_keeps_service_states c msgs :
  Forall (fun m => connectivity_event m = true) msgs ->
  service_states (handle_all msgs c) = service_states c.
Proof.
  intros H. revert c. induction H as [|m msgs Hm _ IH]; intros c; [done|].
  unfold handle_all in *. simpl. by rewrite IH, handle_keeps_service_states.
Qed.

(** variant detections of one ECU do not overlap and no trigger is lost.
    At any moment at most one caller of [begin_detection] checks or runs, and
    the newest caller is never told to skip: its detection is still to come,
    under way, or over.  Without newer callers, every caller but the newest
    that has not started yet never will: a burst costs one run. *)
Theorem detections_coalesce d :
  rtc begin_step detection_new d ->
  (forall i j p q, callers d !! i = Some p -> callers d !! j = Some q ->
     holds p = true -> holds q = true -> i = j) /\
  list.last (callers d) <> Some Skipped /\
  (forall d' i p, rtc begin_step d d' -> length (callers d') = length (callers d) ->
     Z.of_nat (length (callers d)) < 2 ^ 64 ->
     callers d !! i = Some p -> not_yet p = true -> S i <> length (callers d) ->
     exists p', callers d' !! i = Some p' /\ not_yet p' = true).
Proof.
  intros Hr. destruct (reachable_inv d Hr) as [[Hlock Hnew] Hgen]. split; [|split].
  - intros i j p q Hi Hj Hp Hq. pose proof (Hlock _ _ Hi Hp). pose proof (Hlock _ _ Hj Hq). congruence.
  - destruct Hnew as [->|(ph & -> & Hne & _)]; [done|congruence].
  - clear Hr Hlock Hnew. intros d' i p Hsteps Hlen Hb. revert p.
    assert (Hmono : forall a b, rtc begin_step a b -> (length (callers a) <= length (callers b))%nat).
    { induction 1 as [|a1 a2 a3 Hs _ IH]; [done|]. pose proof (begin_step_length _ _ Hs). lia. }
    induction Hsteps as [|d1 d2 d3 Hs Hrest IH]; intros p Hi Hp Hne; [by exists p|].
    pose proof (begin_step_length _ _ Hs). pose proof (Hmono _ _ Hrest).
    destruct (begin_step_older _ _ i p Hs Hgen Hb Hi Hp Hne) as (p' & Hi' & Hp').
    apply (IH (begin_step_generation _ _ Hs Hgen)) with p'; [lia|lia|done|done|lia].
Qed.

(** Two triggers while nothing runs: the first one to come skips. *)
Lemma detections_coalesce_witness :
  list.last (callers {| detection_generation := 2; detection_lock := None;
                        callers := [Skipped; Waiting 2] |}) <> Some Skipped.
Proof.
  apply (detections_coalesce {| detection_generation := 2; detection_lock := None; callers := [Skipped; Waiting 2] |}).
  eapply rtc_l; [apply begin_enter|]. eapply rtc_l; [apply begin_enter|].
  eapply rtc_l; [apply (begin_lock _ 0 1); reflexivity|].
  eapply rtc_l; [apply (begin_skip _ 0 1); [reflexivity|vm_compute; discriminate]|constructor].
Defined.
