(* ===== verification/VariantDetection.v ===== *)
(** * Variant detection

    [EcuManager::detect_variant] with the evaluation of the responses against
    the variant patterns (cda-core/src/diag_kernel/variant.rs,
    variant_detection.rs, [set_variant] of ecumanager.rs and
    [set_default_states] of state.rs), and the verdict over a group of ECUs
    that share one address (cda-comm-uds/src/variant.rs).

    The database is what the code reads of it: the variants with their name,
    patterns and, in the order [get_diag_layers_from_variant_and_parent_refs]
    visits them, the state charts of their diag layers. *)

From stdpp Require Import strings gmap.
From S2P Require Import Prelude Errors Text StateCharts DiagLayers Uds EcuState.
From stdpp Require Import list.

Local Open Scope Z_scope.

(** ** The database *)

Record MatchingParameter : Type := {
  expected_value : option str;
  out_param : option string;
  service : option string
}.

Record Variant : Type := {
  short_name : option string;
  is_base_variant : bool;
  variant_pattern : option (list (option (list MatchingParameter)));
  diag_layer : option DiagLayer;
  parent_refs : option (list ParentRef)
}.

(** The variant's own layer, then those it inherits. *)
Definition layers (self : Variant) : list DiagLayer :=
  option_list (diag_layer self) ++ default [] (get_parent_ref_diag_layers_recursive <$> parent_refs self).

Definition state_charts (self : Variant) : list StateChart :=
  dl ← layers self; default [] (layer_state_charts dl).

(** [EcuData]: its variants. *)
Abbreviation EcuData := (option (list Variant)).

Record EcuManager : Type := {
  ecu_state : EcuState;
  service_states : gmap Z string;
  (** [ecu_data] of the diagnostic database: [None] when unloaded. *)
  diag_database : option EcuData;
  (** What loading the database file gives. *)
  database_file : dresult EcuData;
  fallback_to_base_variant : bool;
  duplicating_ecu_names : option (list string)
}.

Definition with_state (f : EcuState -> EcuState) (self : EcuManager) : EcuManager :=
  {| ecu_state := f (ecu_state self); service_states := service_states self;
     diag_database := diag_database self; database_file := database_file self;
     fallback_to_base_variant := fallback_to_base_variant self;
     duplicating_ecu_names := duplicating_ecu_names self |}.
Definition with_services (m : gmap Z string) (self : EcuManager) : EcuManager :=
  {| ecu_state := ecu_state self; service_states := m;
     diag_database := diag_database self; database_file := database_file self;
     fallback_to_base_variant := fallback_to_base_variant self;
     duplicating_ecu_names := duplicating_ecu_names self |}.
Definition with_database (d : option EcuData) (self : EcuManager) : EcuManager :=
  {| ecu_state := ecu_state self; service_states := service_states self;
     diag_database := d; database_file := database_file self;
     fallback_to_base_variant := fallback_to_base_variant self;
     duplicating_ecu_names := duplicating_ecu_names self |}.

(** [DiagnosticDatabase::load] and [base_variant]. *)
Definition load (self : EcuManager) : EcuManager * dresult unit :=
  match database_file self with
  | Ok d => (with_database (Some d) self, Ok ())
  | Err e => (self, Err e)
  end.

Definition ecu_data (self : EcuManager) : dresult EcuData := ok_or (diag_database self) InvalidDatabase.

Definition base_variant (self : EcuManager) : dresult Variant :=
  data ← ecu_data self;
  ok_or (variants ← data; List.find is_base_variant variants) InvalidDatabase.

(** ** Default states *)

(** [EcuManager::variant]; an index the variants do not have would panic. *)
Definition variant (self : EcuManager) : option Variant :=
  idx ← variant_index (ecu_state self);
  data ← result_ok (ecu_data self);
  variants ← data;
  get variants idx.

(** Before a variant has been found the base variant is used. *)
Definition variant_or_base (self : EcuManager) : option Variant :=
  match variant self with Some v => Some v | None => result_ok (base_variant self) end.

Definition lookup_state_chart (self : EcuManager) (semantic : string) : dresult StateChart :=
  ok_or (v ← variant_or_base self; List.find (fun sc => bool_decide (chart_semantic sc = Some semantic)) (state_charts v)) NotFound.

Definition default_state (self : EcuManager) (semantic : string) : dresult string :=
  sc ← lookup_state_chart self semantic;
  ok_or (start_state_short_name_ref sc) InvalidDatabase.

Section detection.
(** The configured names of the session and security charts. *)
Context (session security : string).
(** A response and its mapping to JSON: the object's members with their
    values as text, [None] when it is no object. *)
Context {T : Type} (into_json : T -> dresult (option (gmap string str))).

Definition set_default_states (self : EcuManager) : EcuManager * dresult unit :=
  match default_state self session with
  | Err e => (self, Err e)
  | Ok s =>
      let st := or_insert (service_states self) (SESSION_CONTROL, s) in
      match default_state self security with
      | Err e => (with_services st self, Err e)
      | Ok l =>
          let st := or_insert st (SECURITY_ACCESS, l) in
          let st := or_insert st (CONTROL_DTC_SETTING, "on"%string) in
          let st := or_insert st (COMMUNICATION_CONTROL, "enablerxandenabletx"%string) in
          (with_services st self, Ok ())
      end
  end.

(** ** One ECU *)

Record VariantData : Type := {
  vd_name : string;
  vd_is_base_variant : bool;
  vd_is_fallback : bool
}.

Definition from_variant_and_fallback (v : Variant) (is_fallback : bool) : VariantData :=
  {| vd_name := default EmptyString (short_name v); vd_is_base_variant := is_base_variant v; vd_is_fallback := is_fallback |}.

(** [variants.iter().position(..)]. *)
Fixpoint position (name : string) (i : Z) (variants : list Variant) : option Z :=
  match variants with
  | [] => None
  | v :: vs => if bool_decide (short_name v = Some name) then Some i else position name (i + 1) vs
  end.

Definition set_variant (variant : VariantData) (self : EcuManager) : EcuManager * dresult unit :=
  let variant_index := data ← result_ok (ecu_data self); variants ← data; position (vd_name variant) 0 variants in
  let self :=
    with_state (fun s =>
      match variant_index with
      | Some _ =>
          {| connectivity := Online;
             variant_state := Detected (vd_name variant) (vd_is_base_variant variant) (vd_is_fallback variant);
             EcuState.variant_index := variant_index |}
      | None => {| connectivity := connectivity s; variant_state := NotDetected; EcuState.variant_index := None |}
      end) self in
  set_default_states self.

Definition clear_variant_and_unload (v : VariantState) (c : option Connectivity) (self : EcuManager) : EcuManager :=
  with_database None
    (with_state (fun s => {| connectivity := default (connectivity s) c; variant_state := v;
                             EcuState.variant_index := None |}) self).

Definition mark_as_duplicate (self : EcuManager) : EcuManager := clear_variant_and_unload Duplicate None self.
Definition mark_as_no_variant_detected (self : EcuManager) : EcuManager := clear_variant_and_unload NotDetected None self.

Definition replace_quotes (s : str) : str := filter (fun c => c <> ch_quote) s.

Definition response_params (r : T) : dresult (gmap string str) :=
  match into_json r with
  | Err e => Err e
  | Ok None => Err ParameterConversionError
  | Ok (Some obj) => Ok (replace_quotes <$> obj)
  end.

(** One matching parameter of a pattern against the received parameters. *)
Definition parameter_matches (service_responses : gmap string (gmap string str)) (mp : MatchingParameter) : bool :=
  match params ← service_responses !! default EmptyString (service mp); params !! default EmptyString (out_param mp) with
  | None => false
  | Some value =>
      let received := replace_quotes value in
      bool_decide (received = default [] (expected_value mp))
      || byte_field_matches_hex_pattern received (default [] (expected_value mp))
  end.

Definition variant_matches (service_responses : gmap string (gmap string str)) (v : Variant) : bool :=
  match variant_pattern v with
  | None => false
  | Some patterns =>
      existsb (fun pattern => match pattern with
                              | None => false
                              | Some params => forallb (parameter_matches service_responses) params
                              end) patterns
  end.

(** The responses come in the order the map is visited in. *)
Definition evaluate_variant (service_responses : list (string * T)) (self : EcuManager) : dresult Variant :=
  responses ← mapM (fun r => params ← response_params r.2; Ok (r.1, params)) service_responses;
  data ← ecu_data self;
  variants ← ok_or data InvalidDatabase;
  ok_or (List.find (variant_matches (list_to_map responses)) variants) VariantDetectionError.

Definition detect_variant (service_responses : list (string * T)) (self : EcuManager) : EcuManager * dresult unit :=
  let '(self, loaded) := match diag_database self with Some _ => (self, Ok ()) | None => load self end in
  match loaded with
  | Err e => (self, Err e)
  | Ok _ =>
      match service_responses with
      | [] => (with_state (set_connectivity Offline) self, Ok ())
      | _ =>
          match evaluate_variant service_responses self with
          | Ok v => set_variant (from_variant_and_fallback v false) self
          | Err e =>
              if negb (fallback_to_base_variant self)
              then (clear_variant_and_unload NotDetected (Some Online) self, Err e)
              else match base_variant self with
                   | Err e => (clear_variant_and_unload NotDetected (Some Online) self, Err e)
                   | Ok v => set_variant (from_variant_and_fallback v true) self
                   end
          end
      end
  end.

(** ** A group of ECUs that share one address *)

Inductive GroupDetectionResult : Type :=
  | ExactMatch (ecu_name : string)
  | AllFallbacks
  | NoOnlineEcu
  | NoDetection.

Abbreviation ecu_map := (gmap string EcuManager).

Definition is_online (m : EcuManager) : bool := bool_decide (connectivity (ecu_state m) = Online).

(** The loop of [evaluate_duplicate_group], with its two variables. *)
Fixpoint evaluate_members (names : list string) (responses : list (string * T)) (first_fallback : option string)
    (any_online : bool) (ecus : ecu_map) : ecu_map * GroupDetectionResult :=
  match names with
  | [] =>
      (ecus, match first_fallback, any_online with
             | Some _, true => AllFallbacks
             | None, true => NoDetection
             | _, false => NoOnlineEcu
             end)
  | ecu_name :: rest =>
      match ecus !! ecu_name with
      | None => evaluate_members rest responses first_fallback any_online ecus
      | Some m =>
          let '(m', r) := detect_variant responses m in
          let ecus := <[ecu_name := m']> ecus in
          let any_online := any_online || is_online m' in
          match r with
          | Err _ => evaluate_members rest responses first_fallback any_online ecus
          | Ok _ =>
              if negb (is_online_and_detected (ecu_state m'))
              then evaluate_members rest responses first_fallback any_online ecus
              else if is_fallback (ecu_state m')
              then evaluate_members rest responses
                     (match first_fallback with Some f => Some f | None => Some ecu_name end) any_online ecus
              else (ecus, ExactMatch ecu_name)
          end
      end
  end.

Definition evaluate_duplicate_group (duplicated_ecus : list string) (responses : list (string * T)) (ecus : ecu_map) :=
  evaluate_members duplicated_ecus responses None false ecus.

Definition apply_group_result (r : GroupDetectionResult) (duplicated_ecus : list string) (ecus : ecu_map) : ecu_map :=
  match r with
  | ExactMatch the_chosen_one =>
      foldl (fun ecus n => if bool_decide (n = the_chosen_one) then ecus else alter mark_as_duplicate n ecus)
        ecus duplicated_ecus
  | AllFallbacks => foldl (fun ecus n => alter mark_as_no_variant_detected n ecus) ecus duplicated_ecus
  | NoOnlineEcu | NoDetection => ecus
  end.

(** The duplicates of an ECU, none when the set is empty. *)
Definition duplicates (m : EcuManager) : option (list string) :=
  names ← duplicating_ecu_names m;
  if bool_decide (names = []) then None else Some names.

Definition mark_group_unreachable (ecu_name : string) (ecus : ecu_map) : ecu_map * dresult unit :=
  match ecus !! ecu_name with
  | None => (ecus, Err NotFound)
  | Some m =>
      let '(m', r) := detect_variant [] m in
      let ecus := <[ecu_name := m']> ecus in
      match r with
      | Err _ => (ecus, Err VariantDetectionError)
      | Ok _ =>
          (foldl (fun ecus n => alter (fun m => (detect_variant [] m).1) n ecus) ecus
             (default [] (duplicates m')), Ok ())
      end
  end.

(** What [detect_variant_with_trigger] does with the gathered responses;
    [order] is the order a set of names is visited in. *)
Definition detect_with_responses (order : list string -> list string) (ecu_name : string)
    (responses : list (string * T)) (ecus : ecu_map) : ecu_map * dresult unit :=
  match responses with
  | [] => mark_group_unreachable ecu_name ecus
  | _ =>
      match ecus !! ecu_name with
      | None => (ecus, Err NotFound)
      | Some m =>
          match duplicates m with
          | None =>
              let '(m', r) := detect_variant responses m in
              (<[ecu_name := m']> ecus, match r with Ok _ => Ok () | Err _ => Err VariantDetectionError end)
          | Some names =>
              let group := order (ecu_name :: filter (fun n => n <> ecu_name) names) in
              let '(ecus, r) := evaluate_duplicate_group group responses ecus in
              (apply_group_result r group ecus, Ok ())
          end
      end
  end.

(** The smallest name of the group that is loaded. *)
Definition min_name (a b : string) : string := if String.leb a b then a else b.
Definition duplicate_group_representative (ecu_name : string) (ecus : ecu_map) : string :=
  match ecus !! ecu_name with
  | None => ecu_name
  | Some m =>
      foldr min_name ecu_name
        (filter (fun n => is_Some (ecus !! n)) (default [] (duplicating_ecu_names m)))
  end.
End detection.

(** ** Lemmas *)

Section lemmas.
Context (session security : string) {T : Type} (into_json : T -> dresult (option (gmap string str))).
Local Abbreviation detect := (detect_variant session security into_json).

Lemma set_default_states_state m : ecu_state (set_default_states session security m).1 = ecu_state m.
Proof.
  unfold set_default_states. destruct (default_state m session); [|done]. by destruct (default_state m security).
Qed.

(** A variant was installed: an index of the database with the name. *)
Definition installed (m : EcuManager) (vd : VariantData) (s : EcuState) : Prop :=
  match data ← result_ok (ecu_data m); variants ← data; position (vd_name vd) 0 variants with
  | Some i =>
      s = {| connectivity := Online; variant_state := Detected (vd_name vd) (vd_is_base_variant vd) (vd_is_fallback vd);
             EcuState.variant_index := Some i |}
  | None => s = {| connectivity := connectivity (ecu_state m); variant_state := NotDetected;
                   EcuState.variant_index := None |}
  end.

Lemma set_variant_state vd m : installed m vd (ecu_state (set_variant session security vd m).1).
Proof.
  unfold set_variant, installed. rewrite set_default_states_state. cbn [with_state ecu_state].
  by destruct (_ ≫= _).
Qed.

Lemma detect_direct_write responses m :
  rtc direct_write (ecu_state m) (ecu_state (detect responses m).1).
Proof.
  unfold detect_variant.
  set (p := match diag_database m with Some _ => (m, Ok ()) | None => load m end).
  assert (Hp : ecu_state p.1 = ecu_state m).
  { unfold p, load. destruct (diag_database m); [done|]. by destruct (database_file m). }
  destruct p as [m1 [[]|e]]; cbn [fst] in Hp; cbn; rewrite <- Hp; [|constructor].
  destruct responses as [|r responses]; [apply rtc_once, write_unreachable|].
  assert (Hset : forall vd, rtc direct_write (ecu_state m1) (ecu_state (set_variant session security vd m1).1)).
  { intros vd. pose proof (set_variant_state vd m1) as Hs. unfold installed in Hs.
    destruct (_ ≫= _); rewrite Hs; apply rtc_once; by constructor. }
  assert (Hclear : forall v c, is_detected v = false ->
    rtc direct_write (ecu_state m1) (ecu_state (clear_variant_and_unload v c m1))).
  { intros v c Hv. apply rtc_once. by apply write_cleared. }
  destruct (evaluate_variant into_json _ m1); [apply Hset|].
  destruct (fallback_to_base_variant m1); [|by apply (Hclear NotDetected (Some Online))]. cbn [negb]. cbv iota.
  destruct (base_variant m1); [apply Hset|by apply (Hclear NotDetected (Some Online))].
Qed.

(** *** A database that loads and whose variants have their start states *)

Definition has_start (v : Variant) (semantic : string) : Prop :=
  exists sc st, List.find (fun sc => bool_decide (chart_semantic sc = Some semantic)) (state_charts v) = Some sc /\
    start_state_short_name_ref sc = Some st.

Definition db_ok (vs : list Variant) (m : EcuManager) : Prop :=
  database_file m = Ok (Some vs) /\ (diag_database m = None \/ diag_database m = Some (Some vs)) /\
  Forall (fun v => has_start v session /\ has_start v security) vs.

Lemma position_spec name i vs j :
  0 <= i -> position name i vs = Some j ->
  i <= j /\ exists v, get vs (j - i) = Some v /\ short_name v = Some name.
Proof.
  revert i. induction vs as [|v vs IH]; intros i Hi; simpl; [done|]. case_bool_decide as Hn.
  - intros [= <-]. split; [lia|]. exists v. by replace (i - i) with 0 by lia.
  - intros (Hij & w & Hw & Hs)%IH; [|lia]. split; [lia|]. exists w. split; [|done].
    unfold get in *. by replace (Z.to_nat (j - i)) with (S (Z.to_nat (j - (i + 1)))) by lia.
Qed.

Lemma default_state_ok vs m v semantic :
  diag_database m = Some (Some vs) -> variant m = Some v -> has_start v semantic ->
  exists st, default_state m semantic = Ok st.
Proof.
  intros _ Hv (sc & st & Hsc & Hst). exists st. unfold default_state, lookup_state_chart, variant_or_base.
  rewrite Hv. simpl. rewrite Hsc. simpl. by rewrite Hst.
Qed.

Lemma set_default_states_ok vs m v :
  diag_database m = Some (Some vs) -> Forall (fun v => has_start v session /\ has_start v security) vs ->
  (exists i, variant_index (ecu_state m) = Some i /\ get vs i = Some v) ->
  (set_default_states session security m).2 = Ok ().
Proof.
  intros Hdb Hall (i & Hi & Hg).
  assert (Hv : variant m = Some v).
  { unfold variant, ecu_data. rewrite Hi, Hdb. simpl. exact Hg. }
  destruct (proj1 (List.Forall_forall _ _) Hall v) as [Hs Hl].
  { apply list_elem_of_In, list_elem_of_lookup. by exists (Z.to_nat i). }
  unfold set_default_states.
  destruct (default_state_ok vs m v session Hdb Hv Hs) as [st ->].
  by destruct (default_state_ok vs m v security Hdb Hv Hl) as [lv ->].
Qed.

Definition variant_name (v : Variant) : string := default EmptyString (short_name v).

(** What installing a variant and what detection of a reachable ECU leave. *)
Definition outcome (vs : list Variant) (m : EcuManager * dresult unit) : Prop :=
  (variant_state (ecu_state m.1) = NotDetected /\ variant_index (ecu_state m.1) = None) \/
  (m.2 = Ok () /\ connectivity (ecu_state m.1) = Online /\
   exists i v f, get vs i = Some v /\ variant_index (ecu_state m.1) = Some i /\
     variant_state (ecu_state m.1) = Detected (variant_name v) (is_base_variant v) f).

Lemma set_variant_outcome vs m v f :
  db_ok vs m -> diag_database m = Some (Some vs) -> NoDup (variant_name <$> vs) -> In v vs ->
  let o := set_variant session security (from_variant_and_fallback v f) m in
  outcome vs o /\
  (is_detected (variant_state (ecu_state o.1)) = true ->
   variant_state (ecu_state o.1) = Detected (variant_name v) (is_base_variant v) f /\
   exists i, variant_index (ecu_state o.1) = Some i /\ get vs i = Some v).
Proof.
  intros (Hfile & _ & Hall) Hdb Hnd Hin o. pose proof (set_variant_state (from_variant_and_fallback v f) m) as Hs.
  fold o in Hs. unfold installed, ecu_data in Hs. rewrite Hdb in Hs. cbn [result_ok ok_or mbind option_bind] in Hs.
  unfold outcome.
  destruct (position _ 0 vs) as [i|] eqn:Ei; rewrite Hs; [|split; [by left|done]].
  apply position_spec in Ei as (Hi & w & Hw & Hn); [|lia]. rewrite Z.sub_0_r in Hw.
  cbn [from_variant_and_fallback vd_name vd_is_base_variant vd_is_fallback] in *.
  apply list_elem_of_In, list_elem_of_lookup in Hin as [k Hk].
  assert (Hvw : w = v).
  { assert (Z.to_nat i = k); [|unfold get in Hw; congruence].
    eapply (NoDup_lookup _ _ _ (variant_name v) Hnd); rewrite list_lookup_fmap_Some.
    - exists w. split; [|exact Hw]. unfold variant_name. by rewrite Hn.
    - exists v. by split. }
  subst w. split; [right|intros _; split; [done|by exists i]].
  split; [|split; [done|by exists i, v, f]].
  unfold o, set_variant. eapply set_default_states_ok; [exact Hdb|exact Hall|]. exists i. split; [|exact Hw].
  rewrite <- (set_default_states_state). exact (f_equal variant_index Hs).
Qed.

(** The database is loaded before the responses are looked at. *)
Definition loaded (vs : list Variant) (m : EcuManager) : EcuManager := with_database (Some (Some vs)) m.

Lemma loaded_ok vs m : db_ok vs m -> db_ok vs (loaded vs m) /\ diag_database (loaded vs m) = Some (Some vs).
Proof. intros (Hf & _ & Ha). split; [|done]. split; [done|]. split; [by right|done]. Qed.

Lemma with_database_same d m : diag_database m = d -> with_database d m = m.
Proof. intros <-. by destruct m. Qed.

Lemma detect_loaded vs m r responses :
  db_ok vs m ->
  detect (r :: responses) m =
  match evaluate_variant into_json (r :: responses) (loaded vs m) with
  | Ok v => set_variant session security (from_variant_and_fallback v false) (loaded vs m)
  | Err e =>
      if negb (fallback_to_base_variant m)
      then (clear_variant_and_unload NotDetected (Some Online) (loaded vs m), Err e)
      else match base_variant (loaded vs m) with
           | Err e => (clear_variant_and_unload NotDetected (Some Online) (loaded vs m), Err e)
           | Ok v => set_variant session security (from_variant_and_fallback v true) (loaded vs m)
           end
  end.
Proof.
  intros (Hf & Hd & _). unfold detect_variant.
  assert (Hl : (match diag_database m with Some _ => (m, Ok ()) | None => load m end) = (loaded vs m, Ok ())).
  { unfold loaded. destruct Hd as [Hd|Hd]; rewrite Hd; [unfold load; by rewrite Hf|]. by rewrite with_database_same. }
  by rewrite Hl.
Qed.

Lemma find_first {A} (f : A -> bool) l a :
  List.find f l = Some a -> exists k, l !! k = Some a /\ f a = true /\ forall j b, (j < k)%nat -> l !! j = Some b -> f b = false.
Proof.
  induction l as [|x l IH]; simpl; [done|]. destruct (f x) eqn:E.
  - intros [= ->]. exists O. split; [done|]. split; [done|]. lia.
  - intros (k & Hk & Hf & Hj)%IH. exists (S k). split; [done|]. split; [done|].
    intros [|j] b Hlt; [by intros [= <-]|]. apply Hj. lia.
Qed.

Lemma evaluate_variant_found vs m responses v :
  diag_database m = Some (Some vs) -> evaluate_variant into_json responses m = Ok v ->
  exists rs, mapM (fun r => params ← response_params into_json r.2; Ok (r.1, params)) responses = Ok rs /\
    List.find (variant_matches (list_to_map rs)) vs = Some v.
Proof.
  intros Hdb. unfold evaluate_variant, ecu_data. rewrite Hdb. intros (rs & Hrs & H)%bind_ok.
  exists rs. split; [done|]. cbn in H. by apply ok_or_ok in H.
Qed.

Lemma base_variant_in vs m v : diag_database m = Some (Some vs) -> base_variant m = Ok v -> In v vs.
Proof.
  intros Hdb. unfold base_variant, ecu_data. rewrite Hdb. cbn. intros H%ok_or_ok. by apply List.find_some in H as [? _].
Qed.

Lemma detect_outcome vs m responses :
  db_ok vs m -> NoDup (variant_name <$> vs) -> responses <> [] ->
  outcome vs (detect responses m) /\ database_file (detect responses m).1 = database_file m.
Proof.
  intros Hok Hnd Hr. destruct responses as [|r responses]; [done|]. rewrite (detect_loaded vs) by done.
  destruct (loaded_ok vs m Hok) as [Hok1 Hdb].
  assert (Hset : forall v f, In v vs ->
    outcome vs (set_variant session security (from_variant_and_fallback v f) (loaded vs m)) /\
    database_file (set_variant session security (from_variant_and_fallback v f) (loaded vs m)).1 = database_file m).
  { intros v f Hin. split; [by apply set_variant_outcome|].
    unfold set_variant, set_default_states. destruct (default_state _ session); [|done]. by destruct (default_state _ security). }
  assert (Hclear : forall e : DiagServiceError,
    outcome vs (clear_variant_and_unload NotDetected (Some Online) (loaded vs m), Err e) /\
    database_file (clear_variant_and_unload NotDetected (Some Online) (loaded vs m)) = database_file m).
  { intros e. split; [by left|done]. }
  destruct (evaluate_variant into_json (r :: responses) (loaded vs m)) as [v|e] eqn:Ev.
  - destruct (evaluate_variant_found vs _ _ _ Hdb Ev) as (rs & _ & Hf). apply Hset. by apply List.find_some in Hf as [? _].
  - destruct (negb (fallback_to_base_variant m)); [apply Hclear|].
    destruct (base_variant (loaded vs m)) as [v|e'] eqn:Eb; [|apply Hclear].
    apply Hset. by eapply base_variant_in.
Qed.

(** *** Groups *)

Definition member_ok (m : EcuManager) : Prop := exists vs, db_ok vs m /\ NoDup (variant_name <$> vs).

Definition exact (m : EcuManager) : Prop :=
  connectivity (ecu_state m) = Online /\
  exists name base, variant_state (ecu_state m) = Detected name base false.

Definition undetected (m : EcuManager) : Prop := variant_state (ecu_state m) = NotDetected.

(** A member after its detection: exact, a fallback, or not detected. *)
Lemma member_outcome m r responses :
  member_ok m ->
  let '(m', res) := detect (r :: responses) m in
  (res = Ok () /\ exact m' /\ is_online_and_detected (ecu_state m') = true /\ is_fallback (ecu_state m') = false) \/
  (res = Ok () /\ is_online m' = true /\ is_online_and_detected (ecu_state m') = true /\ is_fallback (ecu_state m') = true) \/
  (undetected m' /\ is_online_and_detected (ecu_state m') = false).
Proof.
  intros (vs & Hok & Hnd). destruct (detect_outcome vs m (r :: responses) Hok Hnd) as [Ho _]; [done|].
  destruct (detect (r :: responses) m) as [m' res]. unfold outcome in Ho. cbn [fst snd] in Ho.
  unfold exact, undetected, is_online, is_online_and_detected, is_fallback.
  destruct Ho as [[H1 H2]|(-> & Hc & i & v & f & _ & _ & Hv)].
  - right. right. rewrite H1. split; [done|]. by rewrite andb_false_r.
  - rewrite Hc, Hv. destruct f; [right; left|left]; repeat split; eauto.
Qed.

Lemma evaluate_members_spec names r responses ff online ecus :
  NoDup names -> (forall n, n ∈ names -> exists m, ecus !! n = Some m /\ member_ok m) ->
  (is_Some ff -> online = true) ->
  let '(ecus', res) := evaluate_members session security into_json names (r :: responses) ff online ecus in
  (forall n, n ∉ names -> ecus' !! n = ecus !! n) /\
  (forall n, n ∈ names -> is_Some (ecus' !! n)) /\
  match res with
  | ExactMatch c => c ∈ names /\ exists m, ecus' !! c = Some m /\ exact m
  | AllFallbacks => True
  | NoDetection | NoOnlineEcu => ff = None /\ forall n m, n ∈ names -> ecus' !! n = Some m -> undetected m
  end.
Proof.
  revert ff online ecus. induction names as [|a names IH]; intros ff online ecus Hnd Hin Hff; cbn [evaluate_members].
  - split; [done|]. split; [by intros n ?%elem_of_nil|].
    destruct ff as [f|], online; try done; try (split; [done|by intros ? ? ?%elem_of_nil]).
    by specialize (Hff (mk_is_Some _ _ eq_refl)).
  - apply NoDup_cons in Hnd as [Ha Hnd]. destruct (Hin a) as (m & Hm & Hmok); [by left|]. rewrite Hm.
    pose proof (member_outcome m r responses Hmok) as Ho. destruct (detect (r :: responses) m) as [m' res].
    set (ecus1 := <[a := m']> ecus).
    assert (Hin1 : forall n, n ∈ names -> exists m, ecus1 !! n = Some m /\ member_ok m).
    { intros n Hn. destruct (Hin n) as (mn & Hmn & ?); [by right|]. exists mn. split; [|done].
      unfold ecus1. rewrite lookup_insert_ne; [done|]. intros ->. done. }
    assert (Hgo : forall ff' online', (is_Some ff' -> online' = true) -> (ff' = None -> ff = None /\ undetected m') ->
      let '(ecus', res) := evaluate_members session security into_json names (r :: responses) ff' online' ecus1 in
      (forall n, n ∉ a :: names -> ecus' !! n = ecus !! n) /\
      (forall n, n ∈ a :: names -> is_Some (ecus' !! n)) /\
      match res with
      | ExactMatch c => c ∈ a :: names /\ exists m, ecus' !! c = Some m /\ exact m
      | AllFallbacks => True
      | NoDetection | NoOnlineEcu => ff = None /\ forall n m, n ∈ a :: names -> ecus' !! n = Some m -> undetected m
      end).
    { intros ff' online' Hff' Hnone. specialize (IH ff' online' ecus1 Hnd Hin1 Hff').
      destruct (evaluate_members _ _ _ names _ ff' online' ecus1) as [ecus' res'].
      destruct IH as (Hout & Hsome & Hres).
      assert (Ha' : ecus' !! a = Some m') by (rewrite Hout by done; apply lookup_insert_eq).
      split; [|split].
      - intros n [Hna Hn]%not_elem_of_cons. rewrite Hout by done. by apply lookup_insert_ne.
      - intros n [->|Hn]%elem_of_cons; [by eexists|auto].
      - assert (Hund : ff' = None /\ (forall n m0, n ∈ names -> ecus' !! n = Some m0 -> undetected m0) ->
          ff = None /\ forall n m0, n ∈ a :: names -> ecus' !! n = Some m0 -> undetected m0).
        { intros [Hn Hall]. destruct (Hnone Hn) as [-> Hu]. split; [done|].
          intros n m0 [->|Hn0]%elem_of_cons; [|by apply Hall]. rewrite Ha'. by intros [= <-]. }
        destruct res'; auto. destruct Hres as [Hc Hx]. split; [by right|done]. }
    assert (Hor : is_Some ff -> online || is_online m' = true) by (intros H; by rewrite (Hff H)).
    destruct Ho as [(-> & Hx & -> & ->)|[(-> & Hon & -> & ->)|[Hu Hno]]]; cbn [negb]; cbv iota.
    + split; [|split].
      * intros n [Hna _]%not_elem_of_cons. by apply lookup_insert_ne.
      * intros n Hn. unfold ecus1. destruct (decide (n = a)) as [->|Hne]; [rewrite lookup_insert_eq; by eexists|].
        rewrite lookup_insert_ne by done. destruct (Hin n Hn) as (? & -> & _). by eexists.
      * split; [by left|]. exists m'. split; [apply lookup_insert_eq|done].
    + apply Hgo; [intros _; by rewrite Hon, orb_true_r|]. by destruct ff.
    + destruct res as [u|e]; [rewrite Hno; cbn [negb]; cbv iota|]; by apply Hgo.
Qed.

Lemma foldl_alter_lookup (f : EcuManager -> EcuManager) (skip : string -> bool) l (ecus : gmap string EcuManager) n :
  NoDup l ->
  foldl (fun ecus n => if skip n then ecus else alter f n ecus) ecus l !! n =
  if bool_decide (n ∈ l) && negb (skip n) then f <$> ecus !! n else ecus !! n.
Proof.
  intros Hnd. revert ecus. induction Hnd as [|a l Ha Hnd IH]; intros ecus; [done|]. cbn [foldl]. rewrite IH.
  destruct (decide (n = a)) as [->|Hne].
  - rewrite (bool_decide_eq_false_2 (a ∈ l)), (bool_decide_eq_true_2 (a ∈ a :: l)) by (done || by left). cbn [andb].
    destruct (skip a); cbn [negb]; [done|]. apply lookup_alter_eq.
  - assert (Hlook : (if skip a then ecus else alter f a ecus) !! n = ecus !! n).
    { destruct (skip a); [done|]. by apply lookup_alter_ne. }
    rewrite Hlook. by rewrite (bool_decide_ext (n ∈ l) (n ∈ a :: l)) by (rewrite elem_of_cons; split; [by right|by intros [?|?]]).
Qed.

Lemma apply_exact c names (ecus : gmap string EcuManager) n :
  NoDup names ->
  apply_group_result (ExactMatch c) names ecus !! n =
  if bool_decide (n ∈ names) && negb (bool_decide (n = c)) then mark_as_duplicate <$> ecus !! n else ecus !! n.
Proof. intros Hnd. apply (foldl_alter_lookup mark_as_duplicate (fun n => bool_decide (n = c))). done. Qed.

Lemma apply_fallbacks names (ecus : gmap string EcuManager) n :
  NoDup names ->
  apply_group_result AllFallbacks names ecus !! n =
  if bool_decide (n ∈ names) then mark_as_no_variant_detected <$> ecus !! n else ecus !! n.
Proof.
  intros Hnd. pose proof (foldl_alter_lookup mark_as_no_variant_detected (fun _ => false) names ecus n Hnd) as H.
  rewrite andb_true_r in H. exact H.
Qed.
End lemmas.

(** ** Properties *)

Section properties.
Context (session security : string) {T : Type} (into_json : T -> dresult (option (gmap string str))).

(** C18: the verdict over ECUs that share an address is unambiguous.  When the
    responses of one of them are evaluated and the databases of all of them
    load, name their variants apart and define their start states, then
    afterwards either exactly one member is online with a variant of its own
    and all others are marked as duplicates, or no member has a variant at
    all, whatever they had before and in whatever order they are visited.
    The other ECUs are untouched. *)
Theorem group_verdict order ecu_name m names r responses (ecus : gmap string EcuManager) :
  (forall l, order l ≡ₚ l) ->
  ecus !! ecu_name = Some m -> duplicates m = Some names -> NoDup names ->
  let group := ecu_name :: filter (fun n => n <> ecu_name) names in
  (forall n, n ∈ group -> exists m, ecus !! n = Some m /\ member_ok session security m) ->
  exists ecus', detect_with_responses session security into_json order ecu_name (r :: responses) ecus = (ecus', Ok ()) /\
    (forall n, n ∉ group -> ecus' !! n = ecus !! n) /\
    ((exists c m', c ∈ group /\ ecus' !! c = Some m' /\ exact m' /\
      forall n, n ∈ group -> n <> c -> exists m', ecus' !! n = Some m' /\ variant_state (ecu_state m') = Duplicate) \/
     (forall n, n ∈ group -> exists m', ecus' !! n = Some m' /\ undetected m')).
Proof.
  intros Horder Hm Hdup Hnd group Hgroup. unfold detect_with_responses. rewrite Hm, Hdup. fold group.
  assert (Hndg : NoDup (order group)).
  { rewrite (Horder group). apply NoDup_cons. split; [|by apply NoDup_filter].
    by intros [? _]%list_elem_of_filter. }
  assert (Hin : forall n, n ∈ order group <-> n ∈ group) by (intros n; by rewrite (Horder group)).
  pose proof (evaluate_members_spec session security into_json (order group) r responses None false ecus Hndg) as H.
  unfold evaluate_duplicate_group.
  destruct (evaluate_members _ _ _ (order group) _ None false ecus) as [ecus1 res].
  destruct H as (Hout & Hsome & Hres); [by intros n ?%Hin; apply Hgroup|by intros [? ?]|].
  eexists. split; [done|]. destruct res as [c| | |].
  - destruct Hres as [Hc (mc & Hmc & Hex)]. split.
    + intros n Hn. rewrite apply_exact, bool_decide_eq_false_2 by (done || by rewrite Hin).
      apply Hout. by rewrite Hin.
    + left. exists c, mc. split; [by apply Hin|]. split; [|split; [done|]].
      * by rewrite apply_exact, (bool_decide_eq_true_2 (c = c)), andb_false_r.
      * intros n Hn Hne. destruct (Hsome n) as [mn Hmn]; [by apply Hin|].
        exists (mark_as_duplicate mn). split; [|done].
        by rewrite apply_exact, bool_decide_eq_true_2, bool_decide_eq_false_2, Hmn by (done || by apply Hin).
  - split.
    + intros n Hn. rewrite apply_fallbacks, bool_decide_eq_false_2 by (done || by rewrite Hin).
      apply Hout. by rewrite Hin.
    + right. intros n Hn. destruct (Hsome n) as [mn Hmn]; [by apply Hin|].
      exists (mark_as_no_variant_detected mn). split; [|done].
      by rewrite apply_fallbacks, bool_decide_eq_true_2, Hmn by (done || by apply Hin).
  - destruct Hres as [_ Hall]. split; [intros n Hn; apply Hout; by rewrite Hin|]. right.
    intros n Hn. destruct (Hsome n) as [mn Hmn]; [by apply Hin|]. exists mn. split; [done|]. by apply (Hall n); [apply Hin|].
  - destruct Hres as [_ Hall]. split; [intros n Hn; apply Hout; by rewrite Hin|]. right.
    intros n Hn. destruct (Hsome n) as [mn Hmn]; [by apply Hin|]. exists mn. split; [done|]. by apply (Hall n); [apply Hin|].
Qed.

(** a variant detected without fallback is the first variant of the
    database one of whose patterns the responses match, and the index kept
    for it leads back to that variant; the ECU is online and the detection
    reports no error. *)
Theorem detected_variant_matches vs m r responses name base i :
  db_ok session security vs m -> NoDup (variant_name <$> vs) ->
  let '(m', res) := detect_variant session security into_json (r :: responses) m in
  variant_state (ecu_state m') = Detected name base false -> variant_index (ecu_state m') = Some i ->
  res = Ok () /\ connectivity (ecu_state m') = Online /\
  exists v rs, get vs i = Some v /\ variant_name v = name /\ is_base_variant v = base /\
    mapM (fun r => params ← response_params into_json r.2; Ok (r.1, params)) (r :: responses) = Ok rs /\
    variant_matches (list_to_map rs) v = true /\
    forall j w, (j < Z.to_nat i)%nat -> vs !! j = Some w -> variant_matches (list_to_map rs) w = false.
Proof.
  intros Hok Hnd. destruct (detect_outcome session security into_json vs m (r :: responses) Hok Hnd) as [Ho _]; [done|].
  rewrite (detect_loaded _ _ _ vs) in * by done. destruct (loaded_ok session security vs m Hok) as [Hok1 Hdb].
  destruct (evaluate_variant into_json (r :: responses) (loaded vs m)) as [v|e] eqn:Ev.
  - destruct (evaluate_variant_found into_json vs _ _ _ Hdb Ev) as (rs & Hrs & Hf).
    destruct (find_first _ _ _ Hf) as (k & Hk & Hmatch & Hfirst).
    destruct (set_variant_outcome session security vs (loaded vs m) v false Hok1 Hdb Hnd) as [_ Hset];
      [by apply List.find_some in Hf as [? _]|].
    destruct (set_variant session security _ (loaded vs m)) as [m' res]. unfold outcome in Ho. cbn [fst snd] in *.
    intros Hs Hi. rewrite Hs in Hset. destruct (Hset eq_refl) as ([= Hn Hb] & i' & Hi' & Hv).
    assert (i' = i) as -> by congruence.
    destruct Ho as [[Ho _]|(-> & Hc & _)]; [cbn in Ho; congruence|]. split; [done|]. split; [done|].
    exists v, rs. assert (Hki : k = Z.to_nat i).
    { eapply (NoDup_lookup _ _ _ (variant_name v) Hnd); rewrite list_lookup_fmap_Some; exists v; by split. }
    repeat split; try done. intros j w Hj. apply Hfirst. lia.
  - destruct (negb (fallback_to_base_variant m)); [done|].
    destruct (base_variant (loaded vs m)) as [v|e'] eqn:Eb; [|done].
    destruct (set_variant_outcome session security vs (loaded vs m) v true Hok1 Hdb Hnd) as [_ Hset];
      [by eapply base_variant_in|].
    destruct (set_variant session security _ (loaded vs m)) as [m' res]. cbn [fst] in *.
    intros Hs Hi. rewrite Hs in Hset. destruct (Hset eq_refl) as ([=] & _).
Qed.

(** whatever responses arrive and whatever the database is, a detection
    only makes the writes the runtime state allows: an index exactly with a
    detected variant, never anything else. *)
Theorem detect_variant_keeps_wf responses m :
  state_wf (ecu_state m) -> state_wf (ecu_state (detect_variant session security into_json responses m).1).
Proof.
  intros Hwf. pose proof (detect_direct_write session security into_json responses m) as H.
  induction H as [|a b c Hw _ IH]; [done|]. apply IH. by eapply direct_write_wf.
Qed.
End properties.

(** ** Two ECUs at one address *)

Definition ex_charts : list StateChart :=
  [{| chart_semantic := Some "SESSION"; start_state_short_name_ref := Some "Default";
      states := None; state_transitions := None |};
   {| chart_semantic := Some "SECURITY"; start_state_short_name_ref := Some "Locked";
      states := None; state_transitions := None |}]%string.
Definition ex_variant (charts : list StateChart) (name : string) (expected : str) : Variant :=
  {| short_name := Some name; is_base_variant := false;
     variant_pattern := Some [Some [{| expected_value := Some expected; out_param := Some "Id"%string;
                                       service := Some "Ident"%string |}]];
     diag_layer := Some {| layer_short_name := None; layer_state_charts := Some charts; diag_services := None; single_ecu_jobs := None |};
     parent_refs := None |}.
Definition ex_manager (vs : list Variant) (dup : string) : EcuManager :=
  {| ecu_state := EcuState_default; service_states := ∅; diag_database := None; database_file := Ok (Some vs);
     fallback_to_base_variant := false; duplicating_ecu_names := Some [dup] |}.
(** The pattern 0480 and the response 0x04 0x80. *)
Definition ex_pattern : str := [48; 52; 56; 48].
Definition ex_response : string * gmap string str :=
  ("Ident", {[ "Id" := [48; 120; 48; 52; 32; 48; 120; 56; 48] ]})%string.
Definition ex_json (r : gmap string str) : dresult (option (gmap string str)) := Ok (Some r).
Definition ex_ecus (charts : list StateChart) (other : str) : gmap string EcuManager :=
  {[ "A" := ex_manager [ex_variant charts "VA" ex_pattern] "B";
     "B" := ex_manager [ex_variant charts "VB" other] "A" ]}%string.

Lemma ex_member name expected dup :
  member_ok "SESSION" "SECURITY" (ex_manager [ex_variant ex_charts name expected] dup).
Proof.
  exists [ex_variant ex_charts name expected]. split.
  - split; [done|]. split; [by left|]. constructor; [|constructor]. split; do 2 eexists; split; reflexivity.
  - apply NoDup_cons. split; [apply not_elem_of_nil|apply NoDup_nil_2].
Qed.

Lemma group_verdict_witness :
  exists ecus', detect_with_responses "SESSION" "SECURITY" ex_json id "A" [ex_response]
      (ex_ecus ex_charts [49]) = (ecus', Ok ()) /\
    ((exists c m', c ∈ ["A"; "B"]%string /\ ecus' !! c = Some m' /\ exact m' /\
      forall n, n ∈ ["A"; "B"]%string -> n <> c ->
        exists m', ecus' !! n = Some m' /\ variant_state (ecu_state m') = Duplicate) \/
     (forall n, n ∈ ["A"; "B"]%string -> exists m', ecus' !! n = Some m' /\ undetected m')).
Proof.
  destruct (group_verdict "SESSION" "SECURITY" ex_json id "A"
    (ex_manager [ex_variant ex_charts "VA" ex_pattern] "B") ["B"%string] ex_response []
    (ex_ecus ex_charts [49])) as (ecus' & H & _ & Hv).
  - intros l. reflexivity.
  - reflexivity.
  - reflexivity.
  - apply NoDup_cons. split; [apply not_elem_of_nil|apply NoDup_nil_2].
  - intros n [->|[->|[]%elem_of_nil]%elem_of_cons]%elem_of_cons; (eexists; split; [reflexivity|apply ex_member]).
  - exists ecus'. split; [exact H|exact Hv].
Defined.

Lemma detected_variant_matches_witness :
  let vs := [ex_variant ex_charts "VA" [49]; ex_variant ex_charts "VB" ex_pattern] in
  let m := ex_manager vs "B" in
  let '(m', res) := detect_variant "SESSION" "SECURITY" ex_json [ex_response] m in
  variant_index (ecu_state m') = Some 1 /\ res = Ok () /\
  exists v, get vs 1 = Some v /\ variant_name v = "VB"%string.
Proof.
  intros vs m.
  assert (Hok : db_ok "SESSION" "SECURITY" vs m).
  { split; [done|]. split; [by left|]. repeat constructor; do 2 eexists; split; reflexivity. }
  assert (Hnd : NoDup (variant_name <$> vs)).
  { apply (bool_decide_unpack _). vm_compute. exact I. }
  pose proof (detected_variant_matches "SESSION" "SECURITY" ex_json vs m ex_response [] "VB" false 1 Hok Hnd) as H.
  destruct (detect_variant "SESSION" "SECURITY" ex_json [ex_response] m) as [m' res] eqn:E.
  assert (variant_state (ecu_state m') = Detected "VB" false false /\ variant_index (ecu_state m') = Some 1) as [H1 H2].
  { apply (f_equal fst) in E. cbn [fst] in E. rewrite <- E. split; vm_compute; reflexivity. }
  destruct (H H1 H2) as (Hres & _ & v & rs & Hv & Hn & _). split; [exact H2|]. split; [exact Hres|].
  exists v. split; [exact Hv|exact Hn].
Defined.

Lemma detect_variant_keeps_wf_witness :
  state_wf (ecu_state (detect_variant "SESSION" "SECURITY" ex_json [ex_response]
    (ex_manager [ex_variant ex_charts "VA" ex_pattern] "B")).1).
Proof.
  apply detect_variant_keeps_wf. split; [intros [? [=]]|intros [=]].
Defined.

(** A detection whose start states are missing fails after the variant has
    been installed: both members of the group keep a variant of their own,
    and the verdict, which counts them as not detected, marks neither. *)
Example failed_detection_keeps_the_variant :
  let '(ecus', r) := detect_with_responses "SESSION" "SECURITY" ex_json id "A" [ex_response] (ex_ecus [] ex_pattern) in
  r = Ok () /\
  (fun m => variant_state (ecu_state m)) <$> ecus' !! "A"%string = Some (Detected "VA" false false) /\
  (fun m => variant_state (ecu_state m)) <$> ecus' !! "B"%string = Some (Detected "VB" false false).
Proof. repeat split; vm_compute; reflexivity. Qed.
