(* ===== verification/Payload.v ===== *)
(** * The view of a payload

    [Payload] of cda-core/src/diag_kernel/payload.rs: the cursor with which a
    response is decoded, and the stack of views that restrict it to a part of
    the payload. *)

From S2P Require Import Prelude Errors.

Local Open Scope Z_scope.

Record Payload : Type := {
  data : list Z;
  current_index : Z;
  (** The newest view comes first. *)
  slices : list (Z * Z);
  last_read_byte_pos : Z;
  bytes_to_skip : Z
}.

Definition new (data : list Z) : Payload :=
  {| data := data; current_index := 0; slices := []; last_read_byte_pos := 0; bytes_to_skip := 0 |}.

Definition pos (self : Payload) : Z :=
  match slices self with (start, _) :: _ => start | [] => current_index self end.

Definition length_of (self : Payload) : Z :=
  match slices self with (start, end_) :: _ => sat_sub end_ start | [] => len (data self) end.

Definition view (self : Payload) : dresult (list Z) :=
  ok_or (match slices self with
         | (start, end_) :: _ => slice (data self) start end_
         | [] => slice (data self) (pos self) (len (data self))
         end) BadPayload.

Definition set_last_read_byte_pos (p : Z) (self : Payload) : Payload :=
  {| data := data self; current_index := current_index self; slices := slices self;
     last_read_byte_pos := if length_of self <? p then length_of self else p;
     bytes_to_skip := bytes_to_skip self |}.

Definition set_bytes_to_skip (count : Z) (self : Payload) : Payload :=
  {| data := data self; current_index := current_index self; slices := slices self;
     last_read_byte_pos := last_read_byte_pos self; bytes_to_skip := sat_add (bytes_to_skip self) count |}.

Definition consume (self : Payload) : Payload * Z :=
  let advance_len := sat_add (last_read_byte_pos self) (bytes_to_skip self) in
  ({| data := data self;
      current_index := if len (data self) <? sat_add (pos self) advance_len then len (data self)
                       else sat_add (current_index self) advance_len;
      slices := slices self; last_read_byte_pos := 0; bytes_to_skip := 0 |}, advance_len).

Definition exhausted (self : Payload) : bool :=
  match slices self with
  | (_, end_) :: _ => end_ <=? current_index self
  | [] => len (data self) <=? current_index self
  end.

Definition first (self : Payload) : option Z := get (data self) (pos self).

Definition with_slices (l : list (Z * Z)) (self : Payload) : Payload :=
  {| data := data self; current_index := current_index self; slices := l;
     last_read_byte_pos := last_read_byte_pos self; bytes_to_skip := bytes_to_skip self |}.

Definition push_slice (start end_ : Z) (self : Payload) : dresult Payload :=
  let current_start := pos self in
  let current_len := length_of self in
  if (end_ <? start) || (current_len <? end_) then Err BadPayload
  else
    let absolute_start := sat_add current_start start in
    let absolute_end := Z.min (sat_add current_start end_) (len (data self)) in
    Ok (with_slices ((absolute_start, absolute_end) :: slices self) self).

Definition push_slice_to_abs_end (start : Z) (self : Payload) : dresult Payload :=
  push_slice start (length_of self) self.

Definition pop_slice (self : Payload) : dresult Payload :=
  match slices self with
  | [] => Err BadPayload
  | _ :: rest => Ok (with_slices rest self)
  end.

(** ** Lemmas *)

(** Payloads are far shorter than the address space. *)
Definition MAX_PAYLOAD : Z := 2 ^ 62.

(** Every view lies inside the payload. *)
Record payload_wf (self : Payload) : Prop := {
  wf_index : 0 <= current_index self;
  wf_slices : Forall (fun s => 0 <= s.1 <= s.2 /\ s.2 <= len (data self)) (slices self);
  wf_size : len (data self) <= MAX_PAYLOAD
}.

(** The visible bytes start where [length_of] counts from: a view is in
    force, or nothing has been consumed yet. *)
Definition framed (self : Payload) : Prop := slices self <> [] \/ current_index self = 0.

Lemma with_slices_slices self : with_slices (slices self) self = self.
Proof. by destruct self. Qed.

Lemma push_slice_to_pop self a b p : push_slice a b self = Ok p -> pop_slice p = Ok self.
Proof.
  unfold push_slice, pop_slice. case_match; [done|]. intros [= <-]. simpl. by destruct self.
Qed.

Lemma push_slice_frame self a b p : push_slice a b self = Ok p ->
  data p = data self /\ current_index p = current_index self /\
  last_read_byte_pos p = last_read_byte_pos self /\ bytes_to_skip p = bytes_to_skip self.
Proof. unfold push_slice. case_match; [done|]. by intros [= <-]. Qed.

(** What a payload with the newest view [(s, e)] shows. *)
Lemma view_of_slice self s e l :
  slices self = (s, e) :: l -> 0 <= s <= e -> e <= len (data self) ->
  view self = Ok (take (Z.to_nat (e - s)) (drop (Z.to_nat s) (data self))).
Proof. intros Hs ? ?. unfold view. rewrite Hs. by rewrite slice_some by lia. Qed.

Lemma view_framed self : payload_wf self -> framed self ->
  exists v, view self = Ok v /\ len v = length_of self /\
    0 <= pos self /\ pos self + len v <= len (data self) /\
    v = take (length v) (drop (Z.to_nat (pos self)) (data self)).
Proof.
  intros [Hi Hs Hz] Hf. unfold view, length_of, pos, framed in *.
  destruct (slices self) as [|[s e] l].
  - destruct Hf as [?|Hc]; [done|]. rewrite Hc, slice_all. eexists; split; [done|]. simpl.
    rewrite drop_0, firstn_all. repeat split; lia.
  - inversion Hs as [|? ? [? ?] ?]; subst. simpl in *. unfold len in *. rewrite slice_some by (unfold len; lia).
    eexists; split; [done|]. unfold sat_sub.
    rewrite length_take, length_drop. repeat split; try lia. by rewrite Nat.min_l by lia.
Qed.

(** A successful push on a framed payload. *)
Lemma push_slice_view p a b p1 v :
  payload_wf p -> framed p -> 0 <= a -> view p = Ok v -> push_slice a b p = Ok p1 ->
  a <= b <= len v /\ view p1 = Ok (take (Z.to_nat (b - a)) (drop (Z.to_nat a) v)) /\
  payload_wf p1 /\ framed p1.
Proof.
  intros Hwf Hf Ha Hv Hpush. destruct (view_framed p Hwf Hf) as (v' & Hv' & Hl & Hp & Hend & Hd).
  rewrite Hv in Hv'. injection Hv' as <-. revert Hpush. unfold push_slice.
  destruct (Z.ltb_spec b a), (Z.ltb_spec (length_of p) b); try done. simpl. intros [= <-].
  destruct Hwf as [Hi Hs Hz]. unfold MAX_PAYLOAD in Hz. unfold sat_add, USIZE_MAX. rewrite !Z.min_l by lia.
  split; [lia|]. split; [|split; [|by left]].
  - erewrite view_of_slice by (simpl; try done; lia). simpl. f_equal.
    rewrite Hd, skipn_firstn_comm, drop_drop, take_take. unfold len in *. f_equal; [|f_equal]; lia.
  - split; simpl; try done. constructor; [simpl; lia|done].
Qed.

(** ** Properties *)

(** nested views behave like sub-slices: once the payload is framed, its
    view exists and is [len] bytes long; [push_slice] refuses exactly the
    ranges that do not lie inside it, restricts the view to that range of it
    otherwise, and [pop_slice] brings back the payload as it was. *)
Theorem views_nest self a b :
  payload_wf self -> framed self -> 0 <= a ->
  exists v, view self = Ok v /\ len v = length_of self /\
    match push_slice a b self with
    | Ok p => a <= b <= len v /\
              view p = Ok (take (Z.to_nat (b - a)) (drop (Z.to_nat a) v)) /\
              payload_wf p /\ framed p /\ pop_slice p = Ok self
    | Err e => e = BadPayload /\ ~ (a <= b <= len v)
    end.
Proof.
  intros Hwf Hf Ha. destruct (view_framed self Hwf Hf) as (v & Hv & Hl & _).
  exists v. split; [done|]. split; [done|].
  destruct (push_slice a b self) as [p|e] eqn:Hpush.
  - pose proof (push_slice_to_pop _ _ _ _ Hpush).
    by destruct (push_slice_view self a b p v Hwf Hf Ha Hv Hpush) as (?&?&?&?).
  - revert Hpush. unfold push_slice.
    destruct (Z.ltb_spec b a), (Z.ltb_spec (length_of self) b); intros [= <-]; split; (done || lia).
Qed.

Example views_nest_witness :
  let self := with_slices [(1, 5)] (new [10; 20; 30; 40; 50; 60]) in
  exists v, view self = Ok v /\ len v = length_of self /\
    match push_slice 1 3 self with
    | Ok p => 1 <= 3 <= len v /\
              view p = Ok (take (Z.to_nat (3 - 1)) (drop (Z.to_nat 1) v)) /\
              payload_wf p /\ framed p /\ pop_slice p = Ok self
    | Err e => e = BadPayload /\ ~ (1 <= 3 <= len v)
    end.
Proof.
  apply (views_nest (with_slices [(1, 5)] (new [10; 20; 30; 40; 50; 60])) 1 3).
  - split; [done| |vm_compute; discriminate]. repeat constructor; vm_compute; congruence.
  - by left.
  - lia.
Defined.

(** Without a view the range check counts from the beginning of the payload
    and the view from the cursor: after bytes have been consumed a range past
    the end is accepted, and nothing can be read through it. *)
Example unframed_push_accepts_too_much :
  let self := {| data := [10; 20; 30; 40]; current_index := 3; slices := [];
                 last_read_byte_pos := 0; bytes_to_skip := 0 |} in
  exists p, push_slice 2 4 self = Ok p /\ view self = Ok [40] /\ view p = Err BadPayload.
Proof. eexists; repeat split; vm_compute; reflexivity. Qed.
