(* ===== verification/FieldDecoding.v ===== *)
(** * Decoding repeated fields of a response

    The field loops of cda-core/src/diag_kernel/payload_decode.rs (static
    fields, end-of-PDU fields, dynamic length fields) and the leaf they end
    in, [extract_diag_data_container] of operations.rs, over the view stack of
    [Payload].  The decoder of one item is an argument, as the source reaches
    it by recursion through the database; what the theorems ask of it is
    proved of the leaves here. *)

From stdpp Require Import strings gmap.
From stdpp Require Import list.
From S2P Require Import Prelude Bytes Errors Text Ieee754 Json BitOps DiagCodedType CodedBits CodedCodec Values Payload.

Local Open Scope Z_scope.

(** ** Decoders

    Code that works on [&mut Payload]: an error keeps what was done to the
    payload before it. *)

Abbreviation decoder := (st_result Payload failure).

(** A result of the source, an error of it. *)
Definition returns {S A} (r : dresult A) : st_result S failure A := lift (fallible r).
Definition fails {S A} (e : DiagServiceError) : st_result S failure A := lift (Err (Failed e)).

Definition attempt (f : Payload -> dresult Payload) : decoder unit := fun p =>
  match f p with Ok p' => (p', Ok tt) | Err e => (p, Err (Failed e)) end.

(** ** Leaves *)

Record DiagDataTypeContainerRaw : Type := {
  raw_data : list Z;
  raw_bit_len : Z;
  raw_data_type : DataType;
  raw_compu_method : option CompuMethod
}.

Definition is_optional (diag_type : DiagCodedType) : bool :=
  match type_ diag_type with MinMaxLength mmlt => min_length mmlt =? 0 | _ => false end.

Definition extract_diag_data_container (param_byte_pos param_bit_pos : Z) (diag_type : DiagCodedType)
    (compu_method : option CompuMethod) : decoder DiagDataTypeContainerRaw :=
  uds_payload ← (gets view ≫= returns);
  '(data, bit_len) ←
    (if is_optional diag_type && (len uds_payload <=? param_byte_pos) then mret ([], 0)
     else returns (decode diag_type uds_payload param_byte_pos param_bit_pos));
  if (len data =? 0) && negb (is_optional diag_type)
  then fails (NotEnoughData (param_byte_pos +sat 1)%rust (len uds_payload))
  else
    _ ← modify (set_last_read_byte_pos (param_byte_pos +sat len data)%rust);
    mret {| raw_data := data; raw_bit_len := bit_len; raw_data_type := base_datatype diag_type;
            raw_compu_method := compu_method |}.

(** ** Static fields *)

Definition u32_sat_mul (a b : Z) : Z := Z.min (a * b) U32_MAX.

Section field_loops.
Context {ext : Externals} (to_string : spec_float -> str) {A : Type}.

Fixpoint static_field_items (item_byte_size pos : Z) (item : decoder A) (n : nat) (i : Z)
    : decoder (list A) :=
  match n with
  | O => mret []
  | S n =>
      let start := (pos +sat u32_sat_mul i item_byte_size)%rust in
      let end_ := (start +sat item_byte_size)%rust in
      _ ← attempt (push_slice start end_);
      a ← item;
      _ ← attempt pop_slice;
      l ← static_field_items item_byte_size pos item n (i + 1);
      mret (a :: l)
  end.

(** The items are absent when the database does not define their structure. *)
Definition map_static_field_dop_from_uds (item_byte_size fixed_number_of_items pos : Z)
    (item : dresult (decoder A)) : decoder (list A) :=
  let static_field_size := u32_sat_mul item_byte_size fixed_number_of_items in
  n ← gets length_of;
  if n <? static_field_size then fails BadPayload
  else
    item ← returns item;
    static_field_items item_byte_size pos item (Z.to_nat fixed_number_of_items) 0.

(** ** End-of-PDU fields

    The loop runs at most [fuel] times. *)

Definition is_not_enough (e : failure) : bool :=
  match e with Failed (NotEnoughData _ _) => true | _ => false end.

Fixpoint end_of_pdu_loop (fuel : nat) (item : decoder A) (nested : list A) : decoder (list A) := fun p =>
  match fuel with
  | O => (p, Err OutOfFuel)
  | S fuel =>
      match push_slice_to_abs_end (last_read_byte_pos p) p with
      | Err e => (p, Err (Failed e))
      | Ok p =>
          let after nested p :=
            let '(p, consumed) := consume p in
            match pop_slice p with
            | Err e => (p, Err (Failed e))
            | Ok p =>
                if exhausted p then (p, Ok nested)
                else if consumed =? 0 then (p, Err (Failed BadPayload))
                else end_of_pdu_loop fuel item nested p
            end in
          if exhausted p then after nested p
          else match item p with
               | (p, Ok a) => after (nested ++ [a]) p
               | (p, Err e) =>
                   if is_not_enough e then
                     match pop_slice p with
                     | Err e => (p, Err (Failed e))
                     | Ok p => (p, Ok nested)
                     end
                   else (p, Err e)
               end
      end
  end.

(** Every round moves the cursor on: one round more than the payload has bytes
    is enough ([end_of_pdu_terminates]).  [Ok None]: nothing was consumed
    before the field, and no value is stored. *)
Definition map_end_of_pdu_dop_from_uds (item : decoder A) : decoder (option (list A)) := fun p =>
  let '(p, consumed) := consume p in
  if consumed =? 0 then (p, Ok None)
  else match end_of_pdu_loop (S (length (data p))) item [] p with (p, r) => (p, Some <$> r) end.

(** ** Dynamic length fields *)

(** The field's data object: a structure with its BYTE-SIZE, an environment
    data description (absent when the database does not define it), or neither. *)
Inductive RepeatedDop : Type :=
  | RepeatedStructure (byte_size : option Z) (map_struct : decoder A)
  | RepeatedEnvDataDesc (map_env_data : option (decoder A))
  | RepeatedOther.

Definition decode_dynamic_length_field_item (repeated : RepeatedDop) (start : Z) : decoder (A * Z) :=
  bytes_to_skip_before ← gets bytes_to_skip;
  n ← gets length_of;
  _ ← attempt (push_slice start n);
  _ ← modify (set_last_read_byte_pos 0);
  let read p := (last_read_byte_pos p +sat (bytes_to_skip p -sat bytes_to_skip_before))%rust in
  match repeated with
  | RepeatedStructure byte_size map_struct =>
      a ← map_struct;
      item_size ← gets (fun p => default (read p) byte_size);
      _ ← attempt pop_slice;
      mret (a, item_size)
  | RepeatedEnvDataDesc (Some map_env_data) =>
      a ← map_env_data;
      item_size ← gets read;
      _ ← attempt pop_slice;
      mret (a, item_size)
  | RepeatedEnvDataDesc None => fails InvalidDatabase
  | RepeatedOther => _ ← attempt pop_slice; fails InvalidDatabase
  end.

Fixpoint dynamic_length_items (repeated : RepeatedDop) (n : nat) (start : Z) : decoder (list A * Z) := fun p =>
  match n with
  | O => (p, Ok ([], start))
  | S n =>
      match decode_dynamic_length_field_item repeated start p with
      | (p, Ok (a, item_size)) =>
          match dynamic_length_items repeated n (start +sat item_size)%rust p with
          | (p, Ok (l, start)) => (p, Ok (a :: l, start))
          | (p, Err e) => (p, Err e)
          end
      | (p, Err e) => if is_not_enough e then (p, Ok ([], start)) else (p, Err e)
      end
  end.

Record DetermineNumberOfItems : Type := {
  dn_byte_position : Z;
  dn_bit_position : Z;
  dn_coded_type : DiagCodedType
}.

(** The item count, [UInt32] as the standard says. *)
Definition num_items_value (data : list Z) : dresult DiagDataValue :=
  uds_data_to_serializable to_string UInt32 None false data.

Definition map_dynamic_length_field_from_uds (offset : Z) (count : DetermineNumberOfItems)
    (repeated : dresult RepeatedDop) (param_abs_byte_pos : Z) : decoder (list A) :=
  v ← (gets view ≫= returns);
  rest ← returns (ok_or (slice v param_abs_byte_pos (len v)) BadPayload);
  '(num_items_data, _) ← returns (decode (dn_coded_type count) rest (dn_byte_position count) (dn_bit_position count));
  num_items_diag_val ← returns (num_items_value num_items_data);
  repeated ← returns repeated;
  num_items ← returns (value_u32 num_items_diag_val);
  _ ← modify (set_last_read_byte_pos (dn_byte_position count +sat len num_items_data)%rust);
  let items_abs_start := (param_abs_byte_pos +sat offset)%rust in
  n ← gets length_of;
  _ ← attempt (push_slice items_abs_start n);
  '(items, start) ← dynamic_length_items repeated (Z.to_nat num_items) 0;
  _ ← attempt pop_slice;
  _ ← modify (set_last_read_byte_pos (items_abs_start +sat start)%rust);
  mret items.
End field_loops.
Arguments RepeatedDop A : clear implicits.

(** ** Lemmas: what decoders leave alone *)

(** The payload, its views and its position are untouched, whatever the outcome. *)
Definition same_frame (p p' : Payload) : Prop :=
  data p' = data p /\ slices p' = slices p /\ current_index p' = current_index p.

Definition frame {A} (m : decoder A) : Prop := forall p, same_frame p (m p).1.

(** The same, when the decoder succeeds. *)
Definition frame_ok {A} (m : decoder A) : Prop :=
  forall p p' a, m p = (p', Ok a) -> same_frame p p'.

#[export] Instance same_frame_preorder : PreOrder same_frame.
Proof.
  split; [by intros p; repeat split|].
  intros p q r (?&?&?) (?&?&?). repeat split; congruence.
Qed.

Create HintDb frames.

Lemma frame_ret {A} (a : A) : frame (mret a).
Proof. done. Qed.

Lemma frame_returns {A} (r : dresult A) : frame (returns r).
Proof. done. Qed.

Lemma frame_fails {A} e : frame (fails (A := A) e).
Proof. done. Qed.

Lemma frame_gets {A} (f : Payload -> A) : frame (gets f).
Proof. done. Qed.

Lemma frame_modify_last_read n : frame (modify (set_last_read_byte_pos n)).
Proof. done. Qed.

Lemma frame_bind {A B} (m : decoder A) (f : A -> decoder B) :
  frame m -> (forall a, frame (f a)) -> frame (m ≫= f).
Proof.
  intros Hm Hf p. unfold mbind, st_result_bind. specialize (Hm p).
  destruct (m p) as [p' [a|e]]; [|done]. simpl in *. etrans; [exact Hm|apply Hf].
Qed.

Lemma frame_frame_ok {A} (m : decoder A) : frame m -> frame_ok m.
Proof. intros Hm p p' a E. specialize (Hm p). by rewrite E in Hm. Qed.

#[export] Hint Resolve frame_ret frame_returns frame_fails frame_gets frame_modify_last_read frame_bind frame_frame_ok : frames.

Ltac solve_frame :=
  repeat first
    [ progress intros
    | apply frame_bind
    | case_match
    | solve [eauto with frames] ].

Lemma frame_extract byte_pos bit_pos t cm : frame (extract_diag_data_container byte_pos bit_pos t cm).
Proof. unfold extract_diag_data_container. solve_frame. Qed.
#[export] Hint Resolve frame_extract : frames.

Lemma attempt_ok f p p' u : attempt f p = (p', Ok u) -> f p = Ok p'.
Proof. unfold attempt. destruct (f p); [by intros [= ->]|done]. Qed.

(** A decoder run between a push and the matching pop leaves the frame alone. *)
Lemma bracket_frame {A} a b (m : decoder A) p p1 p2 p3 x :
  frame_ok m -> push_slice a b p = Ok p1 -> m p1 = (p2, Ok x) -> pop_slice p2 = Ok p3 ->
  same_frame p p3.
Proof.
  intros Hm Hpush Hrun Hpop. apply Hm in Hrun as (Hd & Hs & Hc).
  pose proof (push_slice_to_pop _ _ _ _ Hpush) as Hp. destruct (push_slice_frame _ _ _ _ Hpush) as (?&?&_).
  revert Hp Hpop. unfold pop_slice. rewrite <- Hs. destruct (slices p2) as [|s l]; [done|].
  intros [= <-] [= <-]. repeat split; simpl in *; congruence.
Qed.

Lemma same_frame_wf p p' : same_frame p p' -> payload_wf p -> payload_wf p'.
Proof. intros (Hd & Hs & Hc) [? ? ?]. split; by rewrite ?Hd, ?Hs, ?Hc. Qed.

Lemma same_frame_framed p p' : same_frame p p' -> framed p -> framed p'.
Proof. intros (Hd & Hs & Hc). unfold framed. by rewrite Hs, Hc. Qed.

Lemma same_frame_view p p' : same_frame p p' -> view p' = view p.
Proof. intros (Hd & Hs & Hc). unfold view, pos. by rewrite Hd, Hs, Hc. Qed.

Lemma same_frame_length p p' : same_frame p p' -> length_of p' = length_of p.
Proof. intros (Hd & Hs & Hc). unfold length_of. by rewrite Hd, Hs. Qed.

(** [a] is what [item] makes of the bytes [lo .. hi] of [v]. *)
Definition decoded_from {A} (item : decoder A) (v : list Z) (lo hi : Z) (a : A) : Prop :=
  exists q q', slice v lo hi = Some (default [] (result_ok (view q))) /\ is_ok (view q) = true /\
               item q = (q', Ok a).

Lemma decoded_from_intro {A} (item : decoder A) v lo hi q q' a :
  0 <= lo <= hi -> hi <= len v -> view q = Ok (take (Z.to_nat (hi - lo)) (drop (Z.to_nat lo) v)) ->
  item q = (q', Ok a) -> decoded_from item v lo hi a.
Proof. intros ? ? Hq Hi. exists q, q'. rewrite Hq. simpl. by rewrite slice_some by lia. Qed.

Lemma static_items_ok {A} ibs pos (item : decoder A) v : frame_ok item -> 0 <= pos <= MAX_PAYLOAD -> 0 <= ibs ->
  forall n i p p' l, payload_wf p -> framed p -> view p = Ok v -> 0 <= i ->
  (i + Z.of_nat n) * ibs <= U32_MAX ->
  static_field_items ibs pos item n i p = (p', Ok l) ->
  same_frame p p' /\ length l = n /\
  forall k a, l !! k = Some a ->
    decoded_from item v (pos + (i + Z.of_nat k) * ibs) (pos + (i + Z.of_nat k) * ibs + ibs) a.
Proof.
  intros Hitem Hpos Hibs. unfold MAX_PAYLOAD, U32_MAX in *.
  induction n as [|n IH]; simpl; intros i p p' l Hwf Hf Hv Hi Hmax H; [injection H as <- <-; split; [done|split; [done|intros ? ? [=]]]|].
  assert (0 <= i * ibs) by (apply Z.mul_nonneg_nonneg; lia).
  assert (i * ibs + ibs <= U32_MAX) by (unfold U32_MAX; nia). unfold U32_MAX in *.
  assert (Hs : (pos +sat u32_sat_mul i ibs)%rust = pos + i * ibs)
    by (unfold sat_add, u32_sat_mul, U32_MAX, USIZE_MAX; lia).
  rewrite Hs in H. assert (He : (pos + i * ibs +sat ibs)%rust = pos + i * ibs + ibs)
    by (unfold sat_add, USIZE_MAX; lia).
  rewrite He in H.
  invert_ok H. invert_ok H. invert_ok H. invert_ok H. injection H as <- <-.
  apply attempt_ok in Hm, Hm1.
  pose proof (bracket_frame _ _ _ _ _ _ _ _ Hitem Hm Hm0 Hm1) as Hfr.
  assert (0 <= pos + i * ibs) as Hlo by lia.
  destruct (push_slice_view p _ _ _ v Hwf Hf Hlo Hv Hm) as (? & Hview & _).
  eapply IH in Hm2 as (Hfr' & Hlen & Hk);
    [|by eapply same_frame_wf|by eapply same_frame_framed|by rewrite (same_frame_view _ _ Hfr)|lia|nia].
  split; [by etrans|]. split; [simpl; by rewrite Hlen|].
  intros [|k] a; simpl; intros Ha.
  - injection Ha as <-. rewrite Z.add_0_r. eapply decoded_from_intro; [lia|lia|exact Hview|exact Hm0].
  - apply Hk in Ha. by replace (i + Z.of_nat (S k)) with (i + 1 + Z.of_nat k) by lia.
Qed.

(** ** Lemmas: end-of-PDU fields *)

(** The counters of the cursor are unsigned. *)
Definition counters_wf (p : Payload) : Prop :=
  0 <= current_index p /\ 0 <= last_read_byte_pos p /\ 0 <= bytes_to_skip p.

(** No view ends behind the payload. *)
Record cursor_wf (p : Payload) : Prop := {
  cw_slices : Forall (fun s => s.2 <= len (data p)) (slices p);
  cw_size : len (data p) <= MAX_PAYLOAD;
  cw_counters : counters_wf p
}.

(** The cursor, as far as the payload goes. *)
Definition cursor (p : Payload) : Z := Z.min (current_index p) (len (data p)).

(** The cursor does not move back. *)
Definition advances (p p' : Payload) : Prop :=
  data p' = data p /\ cursor p <= cursor p' /\ cursor_wf p'.

(** A decoder that ends with a value or an error, without a panic, having
    moved the cursor forward only. *)
Definition safe {A} (m : decoder A) : Prop :=
  forall p, cursor_wf p -> advances p (m p).1 /\ regular (m p).2.

Lemma advances_trans p q r : advances p q -> advances q r -> advances p r.
Proof. intros (?&?&?) (?&?&?). by split; [congruence|split; [lia|]]. Qed.

Lemma advances_refl p : cursor_wf p -> advances p p.
Proof. by intros; split; [|split]. Qed.

(** Changes that leave the payload and the index alone. *)
Lemma advances_frame p p' :
  data p' = data p -> current_index p' = current_index p -> cursor_wf p' -> advances p p'.
Proof. intros Hd Hc Hwf. split; [done|]. split; [|done]. unfold cursor. rewrite Hd, Hc. lia. Qed.

Lemma safe_pure {A} (m : decoder A) : (forall p, (m p).1 = p) -> (forall p, regular (m p).2) -> safe m.
Proof. intros H1 H2 p Hp. rewrite H1. split; [by apply advances_refl|done]. Qed.

Lemma safe_ret {A} (a : A) : safe (mret a).
Proof. by apply safe_pure. Qed.

Lemma safe_gets {A} (f : Payload -> A) : safe (gets f).
Proof. by apply safe_pure. Qed.

Lemma safe_returns {A} (r : dresult A) : safe (returns r).
Proof. apply safe_pure; [done|]. intros p. apply fallible_regular. Qed.

Lemma safe_fails {A} e : safe (fails (A := A) e).
Proof. by apply safe_pure. Qed.

Lemma safe_bind {A B} (m : decoder A) (f : A -> decoder B) :
  safe m -> (forall a, safe (f a)) -> safe (m ≫= f).
Proof.
  intros Hm Hf p Hp. unfold mbind, st_result_bind. destruct (Hm p Hp) as [Ha Hr].
  destruct (m p) as [p1 [a|e]]; simpl in *; [|done].
  destruct (Hf a p1) as [Ha1 Hr1]; [apply Ha|]. split; [by eapply advances_trans|done].
Qed.

Lemma length_of_nonneg p : 0 <= length_of p.
Proof. unfold length_of, sat_sub. pose proof (len_nonneg (data p)). destruct (slices p) as [|[a b] l]; lia. Qed.

Lemma safe_set_last n : 0 <= n -> safe (modify (set_last_read_byte_pos n)).
Proof.
  intros Hn p [Hs Hz (?&?&?)]. split; [|done]. pose proof (length_of_nonneg p).
  apply advances_frame; [done..|]. split; simpl; try done. split; simpl; [done|]. split; [by destruct (_ <? _)|done].
Qed.

Lemma safe_skip n : 0 <= n -> safe (modify (set_bytes_to_skip n)).
Proof.
  intros Hn p [Hs Hz (?&?&?)]. split; [|done]. apply advances_frame; [done..|]. split; simpl; try done.
  do 2 (split; simpl; [done|]). unfold sat_add, USIZE_MAX. lia.
Qed.

Lemma push_advances p a b p1 : push_slice a b p = Ok p1 -> cursor_wf p -> advances p p1.
Proof.
  unfold push_slice. case_match; [done|]. intros [= <-] [Hs Hz Hc].
  apply advances_frame; [done..|]. split; simpl; try done. constructor; [simpl; lia|done].
Qed.

Lemma pop_advances p p1 : pop_slice p = Ok p1 -> cursor_wf p -> advances p p1.
Proof.
  unfold pop_slice. destruct (slices p) as [|s l] eqn:E; [done|]. intros [= <-] [Hs Hz Hc]. rewrite E in Hs.
  apply advances_frame; [done..|]. split; simpl; try done. by inversion Hs.
Qed.

Lemma safe_attempt f : (forall p p1, f p = Ok p1 -> cursor_wf p -> advances p p1) -> safe (attempt f).
Proof.
  intros Hf p Hp. unfold attempt. destruct (f p) eqn:E; (split; [|done]); [by apply (Hf p)|by apply advances_refl].
Qed.

Lemma safe_push a b : safe (attempt (push_slice a b)).
Proof. apply safe_attempt. intros p p1. apply push_advances. Qed.

Lemma safe_pop : safe (attempt pop_slice).
Proof. apply safe_attempt, pop_advances. Qed.

Create HintDb safety.
#[export] Hint Extern 1 (_ <= _) => lia : safety.
#[export] Hint Resolve safe_ret safe_gets safe_returns safe_fails safe_push safe_pop : safety.

Ltac solve_safe :=
  repeat first
    [ progress intros
    | solve [eauto with safety]
    | apply safe_bind
    | apply safe_set_last
    | case_match ].

Lemma safe_view : safe (gets view ≫= returns).
Proof. apply safe_bind; eauto with safety. Qed.
#[export] Hint Resolve safe_view : safety.

Lemma sat_add_nonneg a b : 0 <= a -> 0 <= b -> 0 <= sat_add a b.
Proof. unfold sat_add, USIZE_MAX. lia. Qed.

Lemma safe_extract byte_pos bit_pos t cm : 0 <= byte_pos -> safe (extract_diag_data_container byte_pos bit_pos t cm).
Proof.
  intros Hp. unfold extract_diag_data_container. solve_safe. apply sat_add_nonneg; [done|apply len_nonneg].
Qed.
#[export] Hint Resolve safe_extract : safety.

Lemma safe_static_items {A} ibs pos (item : decoder A) n i : safe item -> safe (static_field_items ibs pos item n i).
Proof. intros Hi. revert i. induction n as [|n IH]; intros i; simpl; solve_safe. Qed.

(** What was read is behind the cursor, unless the cursor is at the end. *)
Lemma consume_spec p p' n :
  consume p = (p', n) -> cursor_wf p ->
  advances p p' /\ 0 <= n /\ (0 < n -> cursor p < cursor p' \/ cursor p' = len (data p')).
Proof.
  intros [= <- <-] [Hs Hz (?&?&?)]. pose proof (len_nonneg (data p)). unfold MAX_PAYLOAD in *.
  unfold advances, cursor, sat_add, USIZE_MAX. simpl. destruct (Z.ltb_spec (len (data p)) (Z.min (pos p + Z.min (last_read_byte_pos p + bytes_to_skip p) (2 ^ 64 - 1)) (2 ^ 64 - 1))).
  all: split; [split; [done|]; split; [lia|]; split; try done; split; simpl; lia|lia].
Qed.

Lemma exhausted_at_end p : cursor_wf p -> len (data p) <= current_index p -> exhausted p = true.
Proof.
  intros [Hs _ _] Hc. unfold exhausted. destruct (slices p) as [|[s e] l]; apply Z.leb_le; [done|].
  inversion Hs; subst. simpl in *. lia.
Qed.

(** The end of a round: the loop goes on only when the cursor has moved. *)
Lemma end_of_round {A} (next : list A -> decoder (list A)) nested p1 p2 :
  advances p1 p2 ->
  (forall p, cursor_wf p -> data p = data p1 -> cursor p1 < cursor p -> advances p (next nested p).1 /\ regular (next nested p).2) ->
  let m := (let '(p, consumed) := consume p2 in
            match pop_slice p with
            | Err e => (p, Err (Failed e))
            | Ok p => if exhausted p then (p, Ok nested)
                      else if consumed =? 0 then (p, Err (Failed BadPayload)) else next nested p
            end) in
  advances p1 m.1 /\ regular m.2.
Proof.
  intros H2 Hnext m. unfold m. clear m. destruct (consume p2) as [p3 n] eqn:E.
  destruct (consume_spec p2 p3 n E) as (H3 & Hn & Hmove); [apply H2|].
  pose proof (advances_trans _ _ _ H2 H3) as H13.
  destruct (pop_slice p3) as [p4|e] eqn:Hpop; [|by split].
  pose proof (pop_advances p3 p4 Hpop (proj2 (proj2 H3))) as H34.
  pose proof (advances_trans _ _ _ H13 H34) as (Hd & Hc & Hwf).
  assert (advances p1 p4) as H14 by done.
  destruct (exhausted p4) eqn:Hex; [by split|]. destruct (Z.eqb_spec n 0); [by split|].
  destruct (Hnext p4) as [Ha Hr]; [done|done| |split; [by eapply advances_trans|done]].
  destruct (Z.le_gt_cases (len (data p4)) (current_index p4)) as [Hend|Hlt];
    [by rewrite (exhausted_at_end p4 Hwf Hend) in Hex|].
  assert (current_index p4 = current_index p3) as Hi
    by (revert Hpop; unfold pop_slice; case_match; [done|]; by intros [= <-]).
  destruct H2 as (Hd2 & Hc2 & _), H3 as (Hd3 & Hc3 & _), H34 as (Hd4 & _ & _).
  unfold cursor in *. rewrite Hi, Hd4, Hd3, Hd2 in *. destruct Hmove; lia.
Qed.

Lemma safe_end_of_pdu_loop {A} (item : decoder A) : safe item ->
  forall fuel nested p, cursor_wf p -> len (data p) - cursor p < Z.of_nat fuel ->
  advances p (end_of_pdu_loop fuel item nested p).1 /\ regular (end_of_pdu_loop fuel item nested p).2.
Proof.
  intros Hitem. induction fuel as [|fuel IH]; intros nested p Hp Hfuel.
  { unfold cursor in Hfuel. lia. }
  simpl. destruct (push_slice_to_abs_end _ p) as [p1|e] eqn:Hpush; [|by split; [apply advances_refl|]].
  pose proof (push_advances _ _ _ _ Hpush Hp) as H1.
  assert (forall nested p0, cursor_wf p0 -> data p0 = data p1 -> cursor p1 < cursor p0 ->
            advances p0 (end_of_pdu_loop fuel item nested p0).1 /\ regular (end_of_pdu_loop fuel item nested p0).2) as Hnext.
  { intros nested' p0 Hwf Hd Hc. apply IH; [done|]. destruct H1 as (Hd1 & Hc1 & _). rewrite Hd, Hd1. lia. }
  assert (forall p' r, advances p1 p' /\ regular (A := list A) r -> advances p p' /\ regular r) as Hfrom
    by (intros p' r [? ?]; split; [by eapply advances_trans|done]).
  destruct (exhausted p1).
  { apply Hfrom. apply (end_of_round (end_of_pdu_loop fuel item) nested p1 p1); [apply advances_refl, H1|apply Hnext]. }
  destruct (Hitem p1) as [H2 Hr]; [apply H1|]. destruct (item p1) as [p2 [a|e]]; simpl in H2, Hr.
  - apply Hfrom. apply (end_of_round (end_of_pdu_loop fuel item) (nested ++ [a]) p1 p2); [done|apply Hnext].
  - apply Hfrom. destruct (is_not_enough e); [|done]. destruct (pop_slice p2) as [p3|] eqn:Hpop; [|done].
    split; [|done]. eapply advances_trans; [done|]. eapply pop_advances; [done|apply H2].
Qed.

Lemma safe_end_of_pdu {A} (item : decoder A) : safe item -> safe (map_end_of_pdu_dop_from_uds item).
Proof.
  intros Hitem p Hp. unfold map_end_of_pdu_dop_from_uds. destruct (consume p) as [p1 n] eqn:E.
  destruct (consume_spec p p1 n E Hp) as (H1 & Hn & _). destruct (n =? 0); [done|].
  destruct (safe_end_of_pdu_loop item Hitem (S (length (data p1))) [] p1) as [H2 Hr]; [apply H1| |].
  { destruct H1 as (_ & _ & [_ _ (?&?&?)]). unfold cursor, len. lia. }
  destruct (end_of_pdu_loop _ _ _ _) as [p2 r]; simpl in *. split; [by eapply advances_trans|by destruct r].
Qed.

(** *** Dynamic length fields *)

Definition repeated_safe {A} (repeated : RepeatedDop A) : Prop :=
  match repeated with
  | RepeatedStructure byte_size item => (forall n, byte_size = Some n -> 0 <= n) /\ safe item
  | RepeatedEnvDataDesc (Some item) => safe item
  | _ => True
  end.

(** A safe decoder, whose values have a property. *)
Definition yields {A} (P : A -> Prop) (m : decoder A) : Prop :=
  safe m /\ forall p a, cursor_wf p -> (m p).2 = Ok a -> P a.

Lemma yields_bind {A B} (P : A -> Prop) (Q : B -> Prop) (m : decoder A) (f : A -> decoder B) :
  yields P m -> (forall a, P a -> yields Q (f a)) -> yields Q (m ≫= f).
Proof.
  intros [Hm HP] Hf. split.
  - intros p Hp. unfold mbind, st_result_bind. destruct (Hm p Hp) as [Ha Hr]. specialize (HP p).
    destruct (m p) as [p1 [a|e]]; simpl in *; [|done].
    destruct (proj1 (Hf a (HP a Hp eq_refl)) p1) as [Ha1 Hr1]; [apply Ha|]. split; [by eapply advances_trans|done].
  - intros p b Hp. unfold mbind, st_result_bind. destruct (Hm p Hp) as [Ha Hr]. specialize (HP p).
    destruct (m p) as [p1 [a|e]]; simpl in *; [|done]. apply (Hf a); [by apply HP|apply Ha].
Qed.

Lemma yields_safe {A} (m : decoder A) : safe m -> yields (fun _ => True) m.
Proof. by split. Qed.

Lemma yields_weaken {A} (P Q : A -> Prop) m : yields P m -> (forall a, P a -> Q a) -> yields Q m.
Proof. intros [? HP] HQ. split; [done|]. intros p a Hp Ha. eauto. Qed.

Lemma safe_yields {A} (P : A -> Prop) m : yields P m -> safe m.
Proof. by intros []. Qed.

Lemma yields_ret {A} (P : A -> Prop) a : P a -> yields P (mret a).
Proof. intros Ha. split; [apply safe_ret|]. by intros p ? _ [= <-]. Qed.

Lemma yields_fails {A} (P : A -> Prop) e : yields P (fails (A := A) e).
Proof. split; [apply safe_fails|done]. Qed.

Lemma yields_gets {A} (P : A -> Prop) f : (forall p, cursor_wf p -> P (f p)) -> yields P (gets f).
Proof. intros Hf. split; [apply safe_gets|]. intros p a Hp [= <-]. by apply Hf. Qed.

Lemma yields_returns {A} (P : A -> Prop) r : (forall a, r = Ok a -> P a) -> yields P (returns r).
Proof. intros Hr. split; [apply safe_returns|]. intros p a _ H. by apply Hr, fallible_ok. Qed.

Lemma yields_attempt (f : Payload -> dresult Payload) : safe (attempt f) -> yields (fun _ => True) (attempt f).
Proof. apply yields_safe. Qed.

#[export] Hint Resolve yields_fails : safety.

Ltac solve_yields :=
  repeat first
    [ progress intros
    | solve [eauto using yields_safe with safety]
    | eapply yields_bind; [solve [eauto using yields_safe with safety] | ]
    | case_match ].

Lemma bind_yields {A B} (P : A -> Prop) (m : decoder A) (f : A -> decoder B) :
  yields P m -> (forall a, P a -> safe (f a)) -> safe (m ≫= f).
Proof.
  intros Hm Hf. apply (safe_yields (fun _ => True)). eapply yields_bind; [exact Hm|].
  intros a Ha. by apply yields_safe, Hf.
Qed.

Lemma safe_static {A} ibs n pos (item : dresult (decoder A)) :
  (forall m, item = Ok m -> safe m) -> safe (map_static_field_dop_from_uds ibs n pos item).
Proof.
  intros Hi. unfold map_static_field_dop_from_uds. apply safe_bind; [apply safe_gets|]. intros k.
  case_match; [apply safe_fails|]. apply bind_yields with (P := safe); [by apply yields_returns|].
  intros m Hm. by apply safe_static_items.
Qed.

Lemma safe_dynamic_item {A} (repeated : RepeatedDop A) start : repeated_safe repeated ->
  yields (fun x => 0 <= x.2) (decode_dynamic_length_field_item repeated start).
Proof.
  intros Hr. unfold decode_dynamic_length_field_item. pose proof (safe_set_last 0 ltac:(done)).
  assert (forall f : Payload -> A -> Z, (forall p a, cursor_wf p -> 0 <= f p a) -> forall item, safe item ->
    yields (fun x => 0 <= x.2)
      (a ← item; item_size ← gets (fun p => f p a); _ ← attempt pop_slice; mret (a, item_size))) as Hitem.
  { intros f Hf item Hitem. eapply yields_bind; [by apply yields_safe|]. intros a _.
    apply yields_bind with (P := fun n => 0 <= n); [apply yields_gets; auto|]. intros n Hn.
    eapply yields_bind; [apply yields_safe, safe_pop|]. intros _ _. by apply yields_ret. }
  do 4 (eapply yields_bind; [apply yields_safe; eauto with safety|intros ? _]).
  destruct repeated as [byte_size item|[item|]|]; simpl in Hr.
  - apply (Hitem (fun p _ => _)); [|apply Hr]. intros p _ [_ _ (?&?&?)]. destruct byte_size; simpl; [by apply Hr|].
    apply sat_add_nonneg; [done|unfold sat_sub; lia].
  - apply (Hitem (fun p _ => _)); [|apply Hr]. intros p _ [_ _ (?&?&?)].
    apply sat_add_nonneg; [done|unfold sat_sub; lia].
  - apply yields_fails.
  - eapply yields_bind; [apply yields_safe, safe_pop|intros ? _]. apply yields_fails.
Qed.

Lemma safe_dynamic_items {A} (repeated : RepeatedDop A) n : repeated_safe repeated ->
  forall start, 0 <= start -> yields (fun x => 0 <= x.2) (dynamic_length_items repeated n start).
Proof.
  intros Hr. induction n as [|n IH]; intros start Hstart; [by apply yields_ret|].
  pose proof (safe_dynamic_item repeated start Hr) as [Hi Hv].
  assert (forall p, cursor_wf p -> let m := dynamic_length_items repeated (S n) start p in
            advances p m.1 /\ regular m.2 /\ forall x, m.2 = Ok x -> 0 <= x.2) as Hm.
  { intros p Hp. simpl. destruct (Hi p Hp) as [Ha Hreg]. specialize (Hv p).
    destruct (decode_dynamic_length_field_item repeated start p) as [p1 [[a size]|e]]; simpl in *.
    - destruct (IH (start +sat size)%rust) as [Hs Hv1].
      { apply sat_add_nonneg; [done|]. exact (Hv (a, size) Hp eq_refl). }
      destruct (Hs p1) as [Ha1 Hr1]; [apply Ha|]. specialize (Hv1 p1).
      destruct (dynamic_length_items repeated n _ p1) as [p2 [[l stop]|e]]; simpl in *;
        (split; [by eapply advances_trans|split; [done|]]); [|done].
      intros x [= <-]. exact (Hv1 (l, stop) (proj2 (proj2 Ha)) eq_refl).
    - destruct (is_not_enough e); simpl; (split; [done|split; [done|]]); [by intros x [= <-]|done]. }
  split; intros p; [intros Hp; split; by apply Hm|]. intros a Hp. by apply Hm.
Qed.

Lemma safe_dynamic {ext : Externals} to_string {A} offset count (repeated : dresult (RepeatedDop A)) pos :
  0 <= offset -> 0 <= dn_byte_position count -> 0 <= pos -> (forall r, repeated = Ok r -> repeated_safe r) ->
  safe (map_dynamic_length_field_from_uds to_string offset count repeated pos).
Proof.
  intros Ho Hc Hp Hr. unfold map_dynamic_length_field_from_uds.
  assert (forall d : list Z, safe (modify (set_last_read_byte_pos (dn_byte_position count +sat len d)%rust)))
    by (intros d; apply safe_set_last, sat_add_nonneg; [done|apply len_nonneg]).
  do 3 (apply safe_bind; [eauto with safety|intros ?]). case_match. apply safe_bind; [eauto with safety|intros v].
  apply bind_yields with (P := repeated_safe); [by apply yields_returns|]. intros r Hrep.
  do 4 (apply safe_bind; [eauto with safety|intros ?]).
  eapply bind_yields; [by apply safe_dynamic_items|]. intros [items start] Hs. simpl in Hs.
  assert (safe (modify (set_last_read_byte_pos ((pos +sat offset) +sat start)%rust)))
    by (by apply safe_set_last, sat_add_nonneg; [apply sat_add_nonneg|]).
  do 2 (apply safe_bind; [eauto with safety|intros ?]). apply safe_ret.
Qed.

(** A decoder of items of [n] bytes: it takes the first [n] bytes it sees, and
    reports missing data when there are fewer. *)
Record reads {A} (n : Z) (f : list Z -> A) (item : decoder A) : Prop := {
  reads_frame : frame item;
  reads_skip : forall p, bytes_to_skip (item p).1 = bytes_to_skip p;
  reads_short : forall p v, view p = Ok v -> bytes v -> len v < n ->
    exists e a, (item p).2 = Err (Failed (NotEnoughData e a));
  reads_full : forall p v, view p = Ok v -> bytes v -> len v = length_of p -> n <= len v ->
    last_read_byte_pos (item p).1 = n /\ (item p).2 = Ok (f (take (Z.to_nat n) v))
}.

(** The [n]-byte chunks of [l]; leftover bytes are dropped. *)
Definition chunks (n : Z) (l : list Z) : list (list Z) :=
  (fun i => take (Z.to_nat n) (drop (Z.to_nat n * i) l)) <$> seq 0 (Z.to_nat (len l / n)).

Lemma chunks_short n l : 0 < n -> len l < n -> chunks n l = [].
Proof. intros Hn Hl. pose proof (len_nonneg l). unfold chunks. by rewrite Z.div_small by lia. Qed.

Lemma chunks_cons n l : 0 < n -> n <= len l ->
  chunks n l = take (Z.to_nat n) l :: chunks n (drop (Z.to_nat n) l).
Proof.
  intros Hn Hl. unfold chunks.
  assert (Hlen : len (drop (Z.to_nat n) l) = len l - n) by (unfold len in *; rewrite length_drop; lia).
  rewrite Hlen. replace (len l) with (1 * n + (len l - n)) at 1 by lia.
  rewrite Z.div_add_l by lia. pose proof (Z.div_pos (len l - n) n ltac:(lia) Hn).
  replace (Z.to_nat (1 + (len l - n) / n)) with (S (Z.to_nat ((len l - n) / n))) by lia.
  rewrite <- cons_seq, fmap_cons, Nat.mul_0_r, drop_0. f_equal.
  rewrite <- fmap_S_seq, <- list_fmap_compose. apply list_fmap_ext. intros i x _. simpl.
  rewrite drop_drop. do 2 f_equal. lia.
Qed.

(** A payload between two items: nothing is restricted, the cursor is at [c],
    and nothing has been read since. *)
Definition at_item (l : list Z) (c : Z) : Payload :=
  {| data := l; current_index := c; slices := []; last_read_byte_pos := 0; bytes_to_skip := 0 |}.

Definition in_item (l : list Z) (c last : Z) : Payload :=
  {| data := l; current_index := c; slices := [(c, len l)]; last_read_byte_pos := last; bytes_to_skip := 0 |}.

Section end_of_pdu.
Context {A : Type} (item : decoder A) (n : Z) (f : list Z -> A).
Context (Hitem : reads n f item) (Hn : 0 < n).

Lemma push_at_item l c : 0 <= c <= len l -> len l <= MAX_PAYLOAD ->
  push_slice_to_abs_end 0 (at_item l c) = Ok (in_item l c 0).
Proof using.
  intros Hc Hl. unfold MAX_PAYLOAD in Hl. unfold push_slice_to_abs_end, push_slice, length_of, pos. simpl.
  destruct (Z.ltb_spec (len l) 0), (Z.ltb_spec (len l) (len l)); try lia. simpl.
  unfold with_slices, sat_add, USIZE_MAX, in_item. simpl. by rewrite !Z.min_l, Z.add_0_r, Z.min_r by lia.
Qed.

Lemma view_in_item l c last : 0 <= c <= len l -> view (in_item l c last) = Ok (drop (Z.to_nat c) l).
Proof using.
  intros Hc. erewrite view_of_slice by (simpl; try done; lia). simpl. f_equal.
  apply take_ge. rewrite length_drop. unfold len in *. lia.
Qed.

(** The item, at a cursor with enough bytes left. *)
Lemma item_full l c : bytes l -> 0 <= c -> c + n <= len l ->
  item (in_item l c 0) = (in_item l c n, Ok (f (take (Z.to_nat n) (drop (Z.to_nat c) l)))).
Proof using Hitem Hn.
  intros Hb Hc Hle. pose proof (view_in_item l c 0 ltac:(lia)) as Hv.
  assert (len (drop (Z.to_nat c) l) = len l - c) as Hlen by (unfold len in *; rewrite length_drop; lia).
  destruct (reads_full _ _ _ Hitem _ _ Hv) as [Hl Hr];
    [by apply Forall_drop|rewrite Hlen; unfold length_of, sat_sub; simpl; lia|lia|].
  pose proof (reads_frame _ _ _ Hitem (in_item l c 0)) as (Hd & Hs & Hi).
  pose proof (reads_skip _ _ _ Hitem (in_item l c 0)) as Hk.
  destruct (item (in_item l c 0)) as [p r]. simpl in *. subst. f_equal.
  destruct p. unfold in_item. simpl in *. by subst.
Qed.

Lemma consume_in_item l c k : 0 <= c -> 0 <= k -> c + k <= len l -> len l <= MAX_PAYLOAD ->
  exists p, consume (in_item l c k) = (p, k) /\ pop_slice p = Ok (at_item l (c + k)).
Proof using.
  intros Hc Hk Hle Hl. unfold MAX_PAYLOAD in Hl. unfold consume, pos, sat_add, USIZE_MAX. simpl.
  rewrite Z.add_0_r, !Z.min_l by lia. rewrite (proj2 (Z.ltb_ge _ _)) by lia. by eexists.
Qed.

Lemma end_of_pdu_loop_chunks l : bytes l -> len l <= MAX_PAYLOAD ->
  forall fuel c nested, 0 <= c <= len l -> len l - c < Z.of_nat fuel ->
  exists p', end_of_pdu_loop fuel item nested (at_item l c) =
    (p', Ok (nested ++ (f <$> chunks n (drop (Z.to_nat c) l)))) /\ slices p' = [].
Proof using Hitem Hn.
  intros Hb Hl. induction fuel as [|fuel IH]; intros c nested Hc Hfuel; [lia|].
  assert (len (drop (Z.to_nat c) l) = len l - c) as Hlen by (unfold len in *; rewrite length_drop; lia).
  cbn [end_of_pdu_loop]. change (last_read_byte_pos (at_item l c)) with 0. rewrite push_at_item by done.
  change (exhausted (in_item l c 0)) with (len l <=? c).
  destruct (Z.leb_spec (len l) c) as [Hend|Hmore].
  - rewrite chunks_short, app_nil_r by lia.
    destruct (consume_in_item l c 0) as (p & -> & ->); [lia..|done|].
    change (exhausted (at_item l (c + 0))) with (len l <=? c + 0).
    rewrite (proj2 (Z.leb_le _ _)) by lia. by eexists.
  - destruct (Z.le_gt_cases (c + n) (len l)) as [Hfull|Hshort].
    + rewrite item_full by (done || lia).
      destruct (consume_in_item l c n) as (p & -> & ->); [lia..|done|].
      rewrite (chunks_cons n (drop _ _)) by lia. rewrite drop_drop.
      replace (Z.to_nat c + Z.to_nat n)%nat with (Z.to_nat (c + n)) by lia.
      rewrite (proj2 (Z.eqb_neq _ _)) by lia. rewrite fmap_cons.
      change (exhausted (at_item l (c + n))) with (len l <=? c + n).
      destruct (Z.leb_spec (len l) (c + n)).
      2: { destruct (IH (c + n) (nested ++ [f (take (Z.to_nat n) (drop (Z.to_nat c) l))])) as (p' & Hrun & Hs);
             [lia..|]. exists p'. by rewrite Hrun, <- app_assoc. }
      rewrite (chunks_short n (drop _ _)) by (unfold len in *; rewrite ?length_drop; lia). by eexists.
    + rewrite chunks_short, app_nil_r by lia. pose proof (view_in_item l c 0 ltac:(lia)) as Hv.
      destruct (reads_short _ _ _ Hitem _ _ Hv) as (e & a & He); [by apply Forall_drop|lia|].
      pose proof (reads_frame _ _ _ Hitem (in_item l c 0)) as (Hd & Hs & Hi).
      destruct (item (in_item l c 0)) as [p r]. simpl in He, Hd, Hs, Hi. subst r. simpl.
      unfold pop_slice. rewrite Hs. by eexists.
Qed.
End end_of_pdu.

(** ** The leaf as an item: one STANDARD-LENGTH value *)

Section standard_item.
Context (t : DiagCodedType) (n : Z) (c : bool).
Context (Htype : type_ t = plain_standard n c) (Hvlen : validate_bit_len (base_datatype t) n = Ok ()).
Context (Hn : 0 <= n < 2 ^ 32).

Definition standard_item : decoder (list DiagDataTypeContainerRaw) :=
  c ← extract_diag_data_container 0 0 t None; mret [c].

(** What it makes of the bytes of the field. *)
Definition standard_value (cut : list Z) : list DiagDataTypeContainerRaw :=
  match unpack_data n 0 None cut (byte_order t) with
  | Ok (d, bits) => [{| raw_data := d; raw_bit_len := bits; raw_data_type := base_datatype t; raw_compu_method := None |}]
  | Err _ => []
  end.

Lemma frame_standard_item : frame standard_item.
Proof using. unfold standard_item. solve_frame. Qed.

Lemma safe_standard_item : safe standard_item.
Proof using. unfold standard_item. solve_safe. Qed.

Lemma standard_bit_pos : validate_bit_pos t 0 = Ok ().
Proof using. unfold validate_bit_pos. by rewrite andb_false_r. Qed.

Lemma standard_not_optional : is_optional t = false.
Proof using Htype. unfold is_optional. by rewrite Htype. Qed.

Lemma decode_standard_short v : len v < div_ceil n 8 ->
  decode t v 0 0 = Err (NotEnoughData (div_ceil n 8) (len v)).
Proof using Htype Hvlen Hn.
  intros Hl. pose proof (validate_bit_len_pos _ _ Hvlen). pose proof (bit_len_bytes_bound n ltac:(lia)).
  unfold decode, field_position. rewrite standard_bit_pos. simpl. rewrite Htype. simpl.
  unfold pos_info_standard_len. simpl. rewrite Hvlen. simpl. rewrite (proj2 (Z.eqb_neq n 0)) by lia.
  rewrite sat_add_exact by (unfold USIZE_MAX; lia). by rewrite Z.add_0_l, (proj2 (Z.ltb_lt _ _) Hl).
Qed.

Lemma standard_item_run p v : view p = Ok v ->
  standard_item p =
    match decode t v 0 0 with
    | Ok (d, bits) =>
        if len d =? 0 then (p, Err (Failed (NotEnoughData 1 (len v))))
        else (set_last_read_byte_pos (sat_add 0 (len d)) p,
              Ok [{| raw_data := d; raw_bit_len := bits; raw_data_type := base_datatype t; raw_compu_method := None |}])
    | Err e => (p, Err (Failed e))
    end.
Proof using Htype.
  intros Hv. unfold standard_item, extract_diag_data_container, returns, fails.
  unfold mbind, st_result_bind, mret, st_result_ret, lift, gets, modify. simpl. rewrite Hv, standard_not_optional. simpl.
  unfold fallible. destruct (decode t v 0 0) as [[d bits]|e]; [|done]. rewrite andb_true_r. by destruct (len d =? 0).
Qed.

Lemma standard_item_reads : reads (div_ceil n 8) standard_value standard_item.
Proof using Htype Hvlen Hn.
  pose proof (validate_bit_len_pos _ _ Hvlen) as Hn0. pose proof (bit_len_bytes_bound n ltac:(lia)).
  pose proof (div_ceil_pos n 8 ltac:(lia) ltac:(lia)). pose proof (div_ceil_spec n 8 ltac:(lia)).
  split.
  - apply frame_standard_item.
  - intros p. destruct (view p) as [v|e] eqn:Hv.
    + rewrite (standard_item_run p v Hv). destruct (decode t v 0 0) as [[d bits]|]; [|done]. by destruct (len d =? 0).
    + unfold standard_item, extract_diag_data_container, returns.
      unfold mbind, st_result_bind, mret, st_result_ret, lift, gets, modify. simpl. by rewrite Hv.
  - intros p v Hv _ Hl. rewrite (standard_item_run p v Hv), decode_standard_short by done. by do 2 eexists.
  - intros p v Hv Hb Hlen Hl. rewrite (standard_item_run p v Hv).
    rewrite (decode_standard t n 0 c Htype Hvlen standard_bit_pos Hn v 0 (take (Z.to_nat (div_ceil n 8)) v));
      [|done|lia|rewrite slice_some by lia; f_equal; f_equal; lia|unfold MAX_BYTES; lia].
    assert (len (take (Z.to_nat (div_ceil n 8)) v) = div_ceil n 8) as Htl by (unfold len in *; rewrite length_take; lia).
    unfold standard_value. destruct (unpack_plain n 0 (take (Z.to_nat (div_ceil n 8)) v) (byte_order t))
      as (r & -> & _ & Hrl & _); [by apply Forall_take|lia|lia|lia|rewrite Htl; unfold MAX_BYTES; lia|].
    rewrite Hrl, (proj2 (Z.eqb_neq _ _)) by lia. simpl. rewrite sat_add_exact by (unfold USIZE_MAX; lia).
    rewrite Hlen in Hl. split; [|done]. destruct (Z.ltb_spec (length_of p) (0 + div_ceil n 8)); lia.
Qed.
End standard_item.

(** ** Lemmas: dynamic length fields *)

(** A decoder that keeps the views also when data is missing. *)
Definition keeps_views {A} (item : decoder A) : Prop :=
  forall p p' r, item p = (p', r) ->
    match r with Err e => is_not_enough e = true | Ok _ => True end -> slices p' = slices p.

Definition repeated_keeps_views {A} (repeated : RepeatedDop A) : Prop :=
  match repeated with
  | RepeatedStructure _ item => keeps_views item
  | RepeatedEnvDataDesc (Some item) => keeps_views item
  | _ => True
  end.

(** [s] is the view of an item that could not be decoded. *)
Definition leaves_views (p p' : Payload) (complete : Prop) : Prop :=
  (complete -> slices p' = slices p) /\ (~ complete -> exists s, slices p' = s :: slices p).

Lemma push_slice_slices p a b p1 : push_slice a b p = Ok p1 -> exists s, slices p1 = s :: slices p.
Proof. unfold push_slice. case_match; [done|]. intros [= <-]. by eexists. Qed.

Lemma pop_of_push p a b p1 p2 p3 : push_slice a b p = Ok p1 -> slices p2 = slices p1 ->
  pop_slice p2 = Ok p3 -> slices p3 = slices p.
Proof.
  intros Hpush Hs Hpop. destruct (push_slice_slices _ _ _ _ Hpush) as [s Hs1].
  revert Hpop. unfold pop_slice. rewrite Hs, Hs1. by intros [= <-].
Qed.

Lemma pop_slice_err p e : pop_slice p = Err e -> is_not_enough (Failed e) = false.
Proof. unfold pop_slice. case_match; by intros [= <-]. Qed.

Lemma push_slice_err p a b e : push_slice a b p = Err e -> is_not_enough (Failed e) = false.
Proof. unfold push_slice. case_match; by intros [= <-]. Qed.

(** The views are back after an item that was decoded. *)
Lemma dynamic_item_ok {A} (repeated : RepeatedDop A) start p p' x :
  repeated_keeps_views repeated -> decode_dynamic_length_field_item repeated start p = (p', Ok x) ->
  slices p' = slices p.
Proof.
  intros Hk H. unfold decode_dynamic_length_field_item in H.
  invert_ok H. injection Hm as <- <-. invert_ok H. injection Hm as <- <-.
  invert_ok H. apply attempt_ok in Hm. invert_ok H. injection Hm0 as <- <-.
  destruct repeated as [byte_size item|[item|]|]; [| |done|].
  1,2: invert_ok H; invert_ok H; injection Hm1 as <- <-; invert_ok H; injection H as <- <-;
       apply attempt_ok in Hm1; pose proof (Hk _ _ _ Hm0 I); by eapply pop_of_push.
  by invert_ok H.
Qed.

(** The view of an item whose data is missing stays. *)
Lemma dynamic_item_err {A} (repeated : RepeatedDop A) start p p' e :
  repeated_keeps_views repeated -> decode_dynamic_length_field_item repeated start p = (p', Err e) ->
  is_not_enough e = true -> exists s, slices p' = s :: slices p.
Proof.
  intros Hk. unfold decode_dynamic_length_field_item, fails, mbind, st_result_bind, gets, modify, attempt, mret, st_result_ret, lift.
  destruct (push_slice start (length_of p) p) as [p1|e1] eqn:Hpush.
  2: { intros [= <- <-]. by rewrite (push_slice_err _ _ _ _ Hpush). }
  destruct (push_slice_slices _ _ _ _ Hpush) as [s Hs].
  destruct repeated as [byte_size item|[item|]|]; [| |by intros [= <- <-]|].
  1,2: destruct (item (set_last_read_byte_pos 0 p1)) as [p2 [a|e2]] eqn:E;
       [destruct (pop_slice p2) as [p3|e3] eqn:Hp; intros [= <- <-] He; by rewrite (pop_slice_err _ _ Hp) in He
       |intros [= <- <-] He; rewrite (Hk _ _ _ E He); by exists s].
  destruct (pop_slice _) as [p3|e3] eqn:Hp; intros [= <- <-]; [done|]. by rewrite (pop_slice_err _ _ Hp).
Qed.

Lemma dynamic_items_views {A} (repeated : RepeatedDop A) : repeated_keeps_views repeated ->
  forall n start p p' l stop, dynamic_length_items repeated n start p = (p', Ok (l, stop)) ->
  (length l <= n)%nat /\ leaves_views p p' (length l = n).
Proof.
  intros Hk. induction n as [|n IH]; intros start p p' l stop; simpl.
  { intros [= <- <- <-]. split; [done|]. by split. }
  destruct (decode_dynamic_length_field_item repeated start p) as [p1 [[a size]|e]] eqn:E.
  - destruct (dynamic_length_items repeated n (start +sat size)%rust p1) as [p2 [[l2 stop2]|]] eqn:E2; [|done].
    intros [= <- <- <-]. apply IH in E2 as (Hl & Hc & Hi). rewrite (dynamic_item_ok _ _ _ _ _ Hk E) in *.
    simpl. split; [lia|]. split; intros H; [apply Hc|apply Hi]; lia.
  - destruct (is_not_enough e) eqn:He; [|done]. intros [= <- <- <-]. simpl.
    split; [lia|]. split; [done|]. intros _. by eapply dynamic_item_err.
Qed.

(** ** Properties *)

(** a static field decodes each of its items from exactly its own bytes:
    when it succeeds there are [fixed_number_of_items] of them, the [k]-th
    was decoded seeing nothing but the bytes [pos + k * size .. pos + (k + 1)
    * size] of the view, and payload, views and cursor are as before. *)
Theorem static_field_in_place {A} (item : decoder A) ibs n pos p p' l v :
  frame_ok item -> payload_wf p -> framed p -> view p = Ok v ->
  0 <= pos <= MAX_PAYLOAD -> 0 <= ibs -> 0 <= n -> ibs * n <= U32_MAX ->
  map_static_field_dop_from_uds ibs n pos (Ok item) p = (p', Ok l) ->
  ibs * n <= len v /\ len l = n /\ same_frame p p' /\
  forall k a, l !! k = Some a ->
    decoded_from item v (pos + Z.of_nat k * ibs) (pos + Z.of_nat k * ibs + ibs) a.
Proof.
  intros Hitem Hwf Hf Hv Hpos Hibs Hn Hmax. unfold map_static_field_dop_from_uds, mbind, st_result_bind, gets.
  destruct (view_framed p Hwf Hf) as (v' & Hv' & Hl & _). rewrite Hv in Hv'. injection Hv' as <-.
  unfold u32_sat_mul at 1. rewrite Z.min_l by done. destruct (Z.ltb_spec (length_of p) (ibs * n)); [done|].
  intros H1. eapply static_items_ok in H1 as (Hfr & Hlen & Hk); try done; [|lia].
  split; [lia|]. split; [unfold len; lia|]. split; [done|]. intros k a. by apply Hk.
Qed.

(** decoding an end-of-PDU field always ends, and never in a panic:
    whatever the item decoder does to the payload, as long as it ends itself
    and does not move the cursor backwards, one more round than the payload
    has bytes is enough.  The field is an item decoder of the same kind, so
    this also holds of lists nested in lists. *)
Theorem end_of_pdu_terminates {A} (item : decoder A) : safe item -> safe (map_end_of_pdu_dop_from_uds item).
Proof. apply safe_end_of_pdu. Qed.

(** an end-of-PDU field at the top level, whose items take [n] bytes
    each, decodes the bytes behind the last one read chunk by chunk: as many
    items as fit, in order, leftover bytes ignored, and no view left. *)
Theorem end_of_pdu_chunks {A} (item : decoder A) n f l c :
  reads n f item -> 0 < n -> bytes l -> len l <= MAX_PAYLOAD -> 0 < c <= len l ->
  let p := {| data := l; current_index := 0; slices := []; last_read_byte_pos := c; bytes_to_skip := 0 |} in
  exists p', map_end_of_pdu_dop_from_uds item p =
    (p', Ok (Some (f <$> chunks n (drop (Z.to_nat c) l)))) /\ slices p' = [].
Proof.
  intros Hitem Hn Hb Hl Hc p. unfold map_end_of_pdu_dop_from_uds.
  assert (consume p = (at_item l c, c)) as ->.
  { unfold MAX_PAYLOAD in Hl. unfold consume, p, pos, sat_add, USIZE_MAX. simpl.
    rewrite Z.add_0_r, !Z.min_l by lia. by rewrite (proj2 (Z.ltb_ge _ _)) by lia. }
  rewrite (proj2 (Z.eqb_neq c 0)) by lia. cbn [data at_item].
  destruct (end_of_pdu_loop_chunks item n f Hitem Hn l Hb Hl (S (length l)) c []) as (p' & -> & Hs);
    [lia|unfold len; lia|]. by exists p'.
Qed.

(** the views of a dynamic length field: when it succeeds it has at most
    as many items as the count the response carries; if all of them were there
    the views are as before, but if the data ran out first one view more than
    before stays in force, so that what follows is decoded relative to it. *)
Theorem dynamic_length_views {ext : Externals} to_string {A} offset count (repeated : RepeatedDop A) pos p p' l :
  repeated_keeps_views repeated ->
  map_dynamic_length_field_from_uds to_string offset count (Ok repeated) pos p = (p', Ok l) ->
  exists v rest d bits n, view p = Ok v /\ slice v pos (len v) = Some rest /\
    decode (dn_coded_type count) rest (dn_byte_position count) (dn_bit_position count) = Ok (d, bits) /\
    num_items_value to_string d ≫= value_u32 = Ok n /\ (length l <= Z.to_nat n)%nat /\
    leaves_views p p' (length l = Z.to_nat n).
Proof.
  intros Hk H. unfold map_dynamic_length_field_from_uds in H.
  invert_ok H. invert_ok Hm. injection Hm0 as <- <-. injection Hm as <- Hv. apply fallible_ok in Hv.
  invert_ok H. injection Hm as <- Hrest. apply fallible_ok, ok_or_ok in Hrest.
  invert_ok H. destruct x1 as [d bits]. injection Hm as <- Hdec. apply fallible_ok in Hdec.
  invert_ok H. injection Hm as <- Hnum. apply fallible_ok in Hnum.
  invert_ok H. injection Hm as <- <-. invert_ok H. injection Hm as <- Hval. apply fallible_ok in Hval.
  invert_ok H. injection Hm as <- <-.
  invert_ok H. injection Hm as <- <-. invert_ok H. apply attempt_ok in Hm.
  invert_ok H. destruct x4 as [items stop]. invert_ok H. apply attempt_ok in Hm1.
  invert_ok H. injection Hm2 as <- <-. injection H as <- <-.
  exists x, x0, d, bits, x2. do 3 (split; [done|]). split; [by rewrite Hnum|].
  apply dynamic_items_views in Hm0 as (Hlen & Hc & Hi); [|done]. split; [done|].
  split; intros Hall; simpl.
  - exact (pop_of_push _ _ _ _ _ _ Hm (Hc Hall) Hm1).
  - destruct (Hi Hall) as [s Hs]. destruct (push_slice_slices _ _ _ _ Hm) as [s1 Hs1]. exists s1.
    revert Hm1. unfold pop_slice. rewrite Hs. intros [= <-]. simpl. by rewrite Hs1.
Qed.

(** ** Witnesses *)

(** An unsigned 16-bit number, most significant byte first. *)
Definition u16_type : DiagCodedType :=
  {| base_datatype := UInt32; type_ := plain_standard 16 false; is_high_low_byte_order := true |}.

Definition u8_type : DiagCodedType :=
  {| base_datatype := UInt32; type_ := plain_standard 8 false; is_high_low_byte_order := true |}.

Lemma u16_reads : reads 2 (standard_value u16_type 16) (standard_item u16_type).
Proof. exact (standard_item_reads u16_type 16 false eq_refl eq_refl ltac:(lia)). Qed.

(** A response of two bytes and then numbers of two bytes each; the last byte
    is half a number. *)
Definition list_response : list Z := [98; 1; 0; 7; 1; 0; 9].

Definition after_header : Payload :=
  {| data := list_response; current_index := 0; slices := []; last_read_byte_pos := 2; bytes_to_skip := 0 |}.

Lemma list_response_bytes : bytes list_response.
Proof. repeat constructor; unfold is_u8; lia. Qed.

Example end_of_pdu_chunks_witness :
  exists p', map_end_of_pdu_dop_from_uds (standard_item u16_type) after_header =
    (p', Ok (Some (standard_value u16_type 16 <$> [[0; 7]; [1; 0]]))) /\ slices p' = [].
Proof.
  apply (end_of_pdu_chunks (standard_item u16_type) 2 (standard_value u16_type 16) list_response 2 u16_reads);
    [lia|exact list_response_bytes|vm_compute; discriminate|vm_compute; split; [done|discriminate]].
Defined.

Example end_of_pdu_terminates_witness :
  safe (standard_item u16_type) /\ safe (map_end_of_pdu_dop_from_uds (standard_item u16_type)).
Proof.
  split; [apply safe_standard_item|]. apply (end_of_pdu_terminates (standard_item u16_type)), safe_standard_item.
Defined.

Example static_field_in_place_witness :
  let p := new list_response in
  exists p' l, map_static_field_dop_from_uds 2 3 0 (Ok (standard_item u16_type)) p = (p', Ok l) /\
    2 * 3 <= len list_response /\ len l = 3 /\ same_frame p p' /\
    forall k a, l !! k = Some a ->
      decoded_from (standard_item u16_type) list_response (0 + Z.of_nat k * 2) (0 + Z.of_nat k * 2 + 2) a.
Proof.
  eexists _, _. split; [vm_compute; reflexivity|].
  eapply (static_field_in_place (standard_item u16_type) 2 3 0 (new list_response)).
  - apply frame_frame_ok, frame_standard_item.
  - split; [done|constructor|vm_compute; discriminate].
  - by right.
  - reflexivity.
  - split; vm_compute; discriminate.
  - lia.
  - lia.
  - vm_compute; discriminate.
  - vm_compute. reflexivity.
Defined.

(** A list of two-byte numbers behind a one-byte count. *)
Definition count_byte : DetermineNumberOfItems :=
  {| dn_byte_position := 0; dn_bit_position := 0; dn_coded_type := u8_type |}.

Definition u16_list : RepeatedDop (list DiagDataTypeContainerRaw) :=
  RepeatedStructure (Some 2) (standard_item u16_type).

Lemma u16_list_keeps_views : repeated_keeps_views u16_list.
Proof.
  intros p p' r E _. pose proof (frame_standard_item u16_type p) as (_ & Hs & _). by rewrite E in Hs.
Qed.

Example dynamic_length_views_witness :
  let p := new [98; 2; 0; 7; 1; 0] in
  exists p' l, map_dynamic_length_field_from_uds (ext := reference) (fun _ => []) 1 count_byte (Ok u16_list) 1 p = (p', Ok l) /\
  exists v rest d bits n, view p = Ok v /\ slice v 1 (len v) = Some rest /\
    decode (dn_coded_type count_byte) rest 0 0 = Ok (d, bits) /\
    num_items_value (ext := reference) (fun _ => []) d ≫= value_u32 = Ok n /\ (length l <= Z.to_nat n)%nat /\
    leaves_views p p' (length l = Z.to_nat n).
Proof.
  eexists _, _. split; [vm_compute; reflexivity|].
  eapply (dynamic_length_views (ext := reference) (fun _ => []) 1 count_byte u16_list 1 (new [98; 2; 0; 7; 1; 0])).
  - exact u16_list_keeps_views.
  - vm_compute. reflexivity.
Defined.

(** ** What the loops get wrong *)

(** The response announces two numbers and carries one.  The field is decoded
    as a list of one, but its view is still in force afterwards: the parameter
    at byte 0 of the response now reads the first byte of the list. *)
Example truncated_list_leaves_its_view :
  let p := new [98; 2; 0; 7] in
  exists p' l, map_dynamic_length_field_from_uds (ext := reference) (fun _ => []) 1 count_byte (Ok u16_list) 1 p = (p', Ok l) /\
    length l = 1%nat /\ slices p = [] /\ slices p' = [(2, 4)] /\
    raw_data <$> result_ok (extract_diag_data_container 0 0 u8_type None p).2 = Some [98] /\
    raw_data <$> result_ok (extract_diag_data_container 0 0 u8_type None p').2 = Some [0].
Proof. eexists _, _. split; [vm_compute; reflexivity|]. repeat split; vm_compute; reflexivity. Qed.

(** An end-of-PDU field inside a view (a multiplexer case, a table row): every
    round restricts the view from the beginning of the enclosing one, so the
    first item is decoded again and again instead of the next one. *)
Example nested_end_of_pdu_repeats_the_first_item :
  let p := {| data := [98; 1; 0; 7; 0; 8; 0; 9]; current_index := 0; slices := [(0, 8)];
              last_read_byte_pos := 2; bytes_to_skip := 0 |} in
  exists p', map_end_of_pdu_dop_from_uds (standard_item u16_type) p =
    (p', Ok (Some (standard_value u16_type 16 <$> [[98; 1]; [98; 1]; [98; 1]]))).
Proof. eexists. vm_compute. reflexivity. Qed.
