(* ===== verification/SampleDatabase.v ===== *)
(** * Small databases

    Parameters, data objects and services for the concrete runs of the
    payload code. *)

From stdpp Require Import strings gmap.
From stdpp Require Import list.
From S2P Require Import Prelude Bytes Errors Text Ieee754 Json StateCharts DiagCodedType Values Database.

Local Open Scope Z_scope.

Definition standard_type (base bits : Z) : fb_DiagCodedType :=
  {| fb_base_data_type := base; fb_is_high_low_byte_order := true; fb_specific_data_type := 4;
     fb_as_leading_length_info_type := None; fb_as_min_max_length_type := None; fb_as_param_length_info_type := None;
     fb_as_standard_length_type := Some {| fb_sl_bit_length := bits; fb_sl_bit_mask := None; fb_sl_condensed := false |} |}.

Definition identical : CompuMethod := {| category := Identical; scales := [] |}.

(** An unsigned number of [bits] bits. *)
Definition unsigned_dop (bits : Z) : NormalDop :=
  {| normal_coded_type := Some (standard_type 1 bits); normal_compu_method := Some identical; normal_physical_type := None |}.

Definition param_at (name : string) (pos : option Z) (param_type : Z) (d : ParamSpecificData) : Param :=
  MkParam (Some (chars name)) None pos None param_type d.

Definition value_param (name : string) (pos : option Z) (d : DataOperation) : Param :=
  param_at name pos 11 (ValueData None (Some d)).
Definition number_param (name : string) (pos bits : Z) : Param := value_param name (Some pos) (NormalDOP (unsigned_dop bits)).

Definition const_param (name : string) (pos bits : Z) (v : string) : Param :=
  param_at name (Some pos) 0
    (CodedConstData {| coded_value := Some (chars v); const_coded_type := Some (standard_type 1 bits) |}).

Definition reserved_param (name : string) (pos bits : Z) : Param := param_at name (Some pos) 6 (ReservedData bits).

Definition matching_param (name : string) (pos request_byte_pos : Z) : Param :=
  param_at name (Some pos) 3 (MatchingRequestData request_byte_pos).

Definition structure (params : list Param) (size : option Z) : DataOperation :=
  StructureDOP {| struct_params := Some params; byte_size := size |}.

Definition field_of (d : DataOperation) : DopField := {| basic_structure := Some d; env_data_desc := None |}.

Definition end_of_pdu (params : list Param) : DataOperation :=
  EndOfPduField {| max_number_of_items := None; min_number_of_items := None;
                   end_of_pdu_field := Some (field_of (structure params None)) |}.

Definition case_of (name : string) (k : Z) (d : option DataOperation) : CaseOf DataOperation :=
  {| case_short_name := Some (chars name);
     case_lower_limit := Some {| limit_value := decimal k; interval_type := Closed |};
     case_upper_limit := Some {| limit_value := decimal k; interval_type := Closed |};
     case_structure := d |}.

(** A multiplexer with a switch key of one byte at [key_pos], its cases at
    [case_pos]. *)
Definition mux_of (key_pos case_pos : Z) (l : list (CaseOf DataOperation)) (d : option (DefaultCaseOf DataOperation)) : DataOperation :=
  MUXDOP {| mux_byte_position := case_pos;
            switch_key := Some {| key_byte_position := key_pos; key_bit_position := None;
                                  key_dop := Some (NormalDOP (unsigned_dop 8)) |};
            default_case := d; cases := Some l |}.

Definition no_comm : DiagComm :=
  {| comm_short_name := None; state_transition_refs := None; pre_condition_state_refs := None; funct_class := None |}.

Definition service_of (req resp : list Param) : DiagService :=
  {| diag_comm := Some no_comm; request := Some (Some req);
     pos_responses := Some [{| response_type := 0; response_params := Some resp |}]; neg_responses := None |}.

(** [Display] of floats, which none of these runs reaches. *)
Definition no_floats (_ : spec_float) : str := [].
