(* ===== verification/Faults.v ===== *)
(** * Fault codes and their status

    The data of cda-interfaces/src/datatypes/faults.rs and the functions of
    cda-comm-uds/src/dtc.rs that need no ECU: the status byte of a fault, the
    values of a status filter, and the notations of a fault code. *)

From stdpp Require Import strings gmap.
From stdpp Require Import list.
From S2P Require Import Prelude Bytes Errors Text Ieee754 Json.

Local Open Scope Z_scope.
Set Warnings "-register-all".

(** ** Reading fault information *)

Inductive DtcReadInformationFunction : Type :=
  | FaultMemoryByStatusMask
  | FaultMemorySnapshotRecordByDtcNumber
  | FaultMemoryExtDataRecordByDtcNumber
  | UserMemoryDtcByStatusMask
  | UserMemoryDtcSnapshotRecordByDtcNumber
  | UserMemoryDtcExtDataRecordByDtcNumber.

#[export] Instance DtcReadInformationFunction_eq_dec : EqDecision DtcReadInformationFunction.
Proof. solve_decision. Defined.

(** [as u32]: the sub function of service 0x19. *)
Definition function_id (self : DtcReadInformationFunction) : Z :=
  match self with
  | FaultMemoryByStatusMask => 2
  | FaultMemorySnapshotRecordByDtcNumber => 4
  | FaultMemoryExtDataRecordByDtcNumber => 6
  | UserMemoryDtcByStatusMask => 23
  | UserMemoryDtcSnapshotRecordByDtcNumber => 24
  | UserMemoryDtcExtDataRecordByDtcNumber => 25
  end.

Definition is_user_scope (self : DtcReadInformationFunction) : bool :=
  match self with
  | UserMemoryDtcByStatusMask | UserMemoryDtcSnapshotRecordByDtcNumber | UserMemoryDtcExtDataRecordByDtcNumber => true
  | _ => false
  end.

Definition default_scope (self : DtcReadInformationFunction) : string :=
  if is_user_scope self then "UserMem" else "FaultMem".

(** [iter()], and the names that [EnumString] reads without regard to case. *)
Definition all : list DtcReadInformationFunction :=
  [FaultMemoryByStatusMask; FaultMemorySnapshotRecordByDtcNumber; FaultMemoryExtDataRecordByDtcNumber;
   UserMemoryDtcByStatusMask; UserMemoryDtcSnapshotRecordByDtcNumber; UserMemoryDtcExtDataRecordByDtcNumber].

Definition function_name (self : DtcReadInformationFunction) : string :=
  match self with
  | FaultMemoryByStatusMask => "FaultMemoryByStatusMask"
  | FaultMemorySnapshotRecordByDtcNumber => "FaultMemorySnapshotRecordByDtcNumber"
  | FaultMemoryExtDataRecordByDtcNumber => "FaultMemoryExtDataRecordByDtcNumber"
  | UserMemoryDtcByStatusMask => "UserMemoryDtcByStatusMask"
  | UserMemoryDtcSnapshotRecordByDtcNumber => "UserMemoryDtcSnapshotRecordByDtcNumber"
  | UserMemoryDtcExtDataRecordByDtcNumber => "UserMemoryDtcExtDataRecordByDtcNumber"
  end.

Definition try_from_str (s : str) : dresult DtcReadInformationFunction :=
  ok_or (List.find (fun f => eq_ignore_ascii_case (chars (function_name f)) s) all) InvalidParameter.

(** ** The status byte *)

Inductive DtcMask : Type :=
  | TestFailed
  | TestFailedThisOperationCycle
  | PendingDtc
  | ConfirmedDtc
  | TestNotCompletedSinceLastClear
  | TestFailedSinceLastClear
  | TestNotCompletedThisOperationCycle
  | WarningIndicatorRequested.

Definition mask_bits : list DtcMask :=
  [TestFailed; TestFailedThisOperationCycle; PendingDtc; ConfirmedDtc; TestNotCompletedSinceLastClear;
   TestFailedSinceLastClear; TestNotCompletedThisOperationCycle; WarningIndicatorRequested].

(** [as u8]. *)
Definition mask_value (self : DtcMask) : Z :=
  match self with
  | TestFailed => 1
  | TestFailedThisOperationCycle => 2
  | PendingDtc => 4
  | ConfirmedDtc => 8
  | TestNotCompletedSinceLastClear => 16
  | TestFailedSinceLastClear => 32
  | TestNotCompletedThisOperationCycle => 64
  | WarningIndicatorRequested => 128
  end.

(** [to_string()]. *)
Definition mask_name (self : DtcMask) : string :=
  match self with
  | TestFailed => "TestFailed"
  | TestFailedThisOperationCycle => "TestFailedThisOperationCycle"
  | PendingDtc => "PendingDtc"
  | ConfirmedDtc => "ConfirmedDtc"
  | TestNotCompletedSinceLastClear => "TestNotCompletedSinceLastClear"
  | TestFailedSinceLastClear => "TestFailedSinceLastClear"
  | TestNotCompletedThisOperationCycle => "TestNotCompletedThisOperationCycle"
  | WarningIndicatorRequested => "WarningIndicatorRequested"
  end.

Definition all_bits : Z := foldl (fun mask m => Z.lor mask (mask_value m)) 0 mask_bits.

Record DtcStatus : Type := {
  test_failed : bool;
  test_failed_this_operation_cycle : bool;
  pending_dtc : bool;
  confirmed_dtc : bool;
  test_not_completed_since_last_clear : bool;
  test_failed_since_last_clear : bool;
  test_not_completed_this_operation_cycle : bool;
  warning_indicator_requested : bool;
  status_mask : Z
}.

Definition check_flag (status_byte : Z) (flag : DtcMask) : bool :=
  Z.land status_byte (mask_value flag) =? mask_value flag.

Definition get_dtc_status_for_mask (mask : Z) : DtcStatus :=
  {| test_failed := check_flag mask TestFailed;
     test_failed_this_operation_cycle := check_flag mask TestFailedThisOperationCycle;
     pending_dtc := check_flag mask PendingDtc;
     confirmed_dtc := check_flag mask ConfirmedDtc;
     test_not_completed_since_last_clear := check_flag mask TestNotCompletedSinceLastClear;
     test_failed_since_last_clear := check_flag mask TestFailedSinceLastClear;
     test_not_completed_this_operation_cycle := check_flag mask TestNotCompletedThisOperationCycle;
     warning_indicator_requested := check_flag mask WarningIndicatorRequested;
     status_mask := mask |}.

Section status_filter.
Context {ext : Externals}.

Definition parse_u64 (s : str) : option Z := from_str_radix 0 U64_MAX s 10.
Definition parse_bool (s : str) : option bool :=
  if bool_decide (s = chars "true") then Some true
  else if bool_decide (s = chars "false") then Some false else None.

Definition int_to_bool (int_val : Z) : dresult bool :=
  if negb (int_val =? 0) && negb (int_val =? 1) then Err InvalidRequest else Ok (int_val =? 1).

Definition status_value_to_bool (val : Value) : dresult bool :=
  match val with
  | String str_val =>
      match parse_u64 str_val with
      | Some int_val => int_to_bool int_val
      | None => ok_or (parse_bool str_val) InvalidRequest
      end
  | Bool bool_val => Ok bool_val
  | Number _ => match as_u64 val with Some int_val => int_to_bool int_val | None => Err InvalidRequest end
  | _ => Err InvalidRequest
  end.

(** The status mask a filter asks for: a member that is no mask bit, or is
    false, leaves it alone; without any bit it is the whole mask. *)
Fixpoint status_bits (bits : list DtcMask) (status : gmap str Value) (mask : Z) (any_mask_bit_set : bool)
    : dresult (Z * bool) :=
  match bits with
  | [] => Ok (mask, any_mask_bit_set)
  | mask_bit :: bits =>
      match status !! (ascii_lower <$> chars (mask_name mask_bit)) with
      | Some val =>
          b ← status_value_to_bool val;
          if b : bool then status_bits bits status (Z.lor mask (mask_value mask_bit)) true
          else status_bits bits status mask any_mask_bit_set
      | None => status_bits bits status mask any_mask_bit_set
      end
  end.

Definition status_filter_mask (status : option (gmap str Value)) : dresult Z :=
  match status with
  | Some status =>
      '(mask, any_mask_bit_set) ← status_bits mask_bits status 0 false;
      Ok (if any_mask_bit_set : bool then mask else 255)
  | None => Ok 255
  end.
End status_filter.

(** ** Fault codes as text *)

Section codes.
Context {ext : Externals}.
(** [str::to_lowercase]. *)
Context (to_lowercase : str -> str).

(** [s.get(n..)], where [n] counts bytes. *)
Fixpoint str_get_from (s : str) (n : Z) : option str :=
  if n =? 0 then Some s
  else match s with
       | [] => None
       | c :: s => if utf8_len_char c <=? n then str_get_from s (n - utf8_len_char c) else None
       end.

Definition system_of (c : Z) : dresult Z :=
  if c =? 112 then Ok 0 else if c =? 99 then Ok 1 else if c =? 98 then Ok 2 else if c =? 117 then Ok 3
  else Err InvalidRequest.

Definition group_of (c : Z) : dresult Z :=
  if in_range ch_0 c 51 then Ok (c - ch_0) else Err InvalidRequest.

Definition sae_to_dtc_code (sae_dtc : str) : dresult Z :=
  if negb (str_len sae_dtc =? 7) then Err InvalidRequest
  else
    let sae_dtc := to_lowercase sae_dtc in
    system ← ok_or (head sae_dtc) InvalidRequest ≫= system_of;
    group ← ok_or (sae_dtc !! 1%nat) InvalidRequest ≫= group_of;
    hex_part ← ok_or (str_get_from sae_dtc 2) InvalidRequest;
    code ← ok_or (from_str_radix 0 U32_MAX hex_part 16) InvalidRequest;
    Ok (Z.lor (Z.lor (Z.shiftl system 22) (Z.shiftl group 20)) code).

(** [trim_start_matches("0x")]: as often as it is there. *)
Fixpoint trim_start_0x (s : str) : str :=
  match s with
  | a :: (b :: s') => if (a =? ch_0) && (b =? ch_x) then trim_start_0x s' else s
  | _ => s
  end.

Definition raw_dtc_code (digits : str) : dresult Z :=
  decoded ← decode_hex hex_decode digits;
  let dtc_bytes := 0 :: decoded in
  if len dtc_bytes =? 4 then Ok (be_val dtc_bytes) else Err InvalidRequest.

Definition decode_dtc_from_str (dtc_code : str) : dresult Z :=
  let n := str_len dtc_code in
  if n =? 6 then raw_dtc_code dtc_code
  else if n =? 8 then raw_dtc_code (trim_start_0x dtc_code)
  else if n =? 7 then sae_to_dtc_code dtc_code
  else Err InvalidRequest.
End codes.

(** ** Lemmas *)

Lemma str_len_ascii s : Forall (fun c => 0 <= c < 128) s -> str_len s = len s.
Proof.
  induction 1 as [|c s Hc _ IH]; [done|]. rewrite len_cons, <- IH. unfold str_len at 1. cbn [foldr].
  by rewrite utf8_len_ascii.
Qed.

Lemma hexdigits_ascii s : Forall (fun c => is_ascii_hexdigit c = true) s -> Forall (fun c => 0 <= c < 128) s.
Proof.
  apply Forall_impl. intros c. unfold is_ascii_hexdigit. rewrite !orb_true_iff, !in_range_spec. ch. lia.
Qed.

Lemma forallb_hexdigits s : forallb is_ascii_hexdigit s = true <-> Forall (fun c => is_ascii_hexdigit c = true) s.
Proof. rewrite List.forallb_forall, List.Forall_forall. done. Qed.

Lemma to_digit_hex c : is_Some (to_digit 16 c) <-> is_ascii_hexdigit c = true.
Proof.
  split; [|intros (n & _ & -> & _)%hexdigit_value; by eexists].
  intros [n Hn]. revert Hn. unfold to_digit, is_ascii_hexdigit. rewrite !orb_true_iff, !in_range_spec. ch.
  destruct (in_range 48 c 57) eqn:E1; [rewrite in_range_spec in E1; intros _; lia|].
  destruct (in_range 97 c 122) eqn:E2; [|destruct (in_range 65 c 90) eqn:E3; [|done]];
    rewrite ?in_range_spec in *; case_match; intros; simplify_eq; rewrite ?Z.ltb_lt in *; lia.
Qed.

Lemma to_digit_range c n : to_digit 16 c = Some n -> 0 <= n < 16.
Proof.
  intros H. destruct (hexdigit_value c) as (m & Hm & Hd & _); [apply to_digit_hex; by eexists|]. congruence.
Qed.

(** The digits of a number that is read are digits, and bound it. *)
Lemma digits_value_some acc s v : digits_value 16 acc s = Some v ->
  Forall (fun c => is_ascii_hexdigit c = true) s /\ acc * 16 ^ len s <= v < (acc + 1) * 16 ^ len s.
Proof.
  revert acc. induction s as [|c s IH]; intros acc; cbn [digits_value].
  - intros [= ->]. split; [constructor|]. change (len (@nil Z)) with 0. lia.
  - destruct (to_digit 16 c) as [d|] eqn:Ed; [|done]. cbn. intros [Hs Hv]%IH.
    pose proof (to_digit_range _ _ Ed). split; [constructor; [apply to_digit_hex; by eexists|done]|].
    rewrite len_cons, Z.pow_add_r by (pose proof (len_nonneg s); lia). pose proof (len_nonneg s).
    assert (0 < 16 ^ len s) by lia. change (16 ^ 1) with 16. nia.
Qed.

(** Bytes read in pairs of digits have the value of the digits. *)
Lemma pairs_value n s acc : length s = (2 * n)%nat ->
  (fun bs => foldl (fun acc b => acc * 256 + b) acc bs) <$> hex_pairs s = digits_value 16 acc s.
Proof.
  revert s acc. induction n as [|n IH]; intros s acc Hs.
  - by destruct s.
  - destruct s as [|a [|b s]]; cbn in Hs; [lia|lia|]. cbn [hex_pairs digits_value].
    destruct (to_digit 16 a) as [h|]; [|done]. destruct (to_digit 16 b) as [l|]; [|done].
    change (mbind ?f (Some h)) with (f h). cbv beta. change (mbind ?f (Some l)) with (f l). cbv beta.
    rewrite <- (IH s) by lia. destruct (hex_pairs s) as [r|]; [|done]. cbn. f_equal. f_equal. lia.
Qed.

Section code_lemmas.
Context {ext : Externals} `{!ExternalsOk ext}.

Lemma raw_six ds : len ds = 6 -> raw_dtc_code ds = ok_or (digits_value 16 0 ds) ParameterConversionError.
Proof.
  intros Hlen. unfold raw_dtc_code, decode_hex. destruct (forallb is_ascii_hexdigit ds) eqn:Ehex; cbn [negb].
  - rewrite Hlen. change (is_multiple_of 6 2) with true. cbv iota zeta. rewrite hex_decode_spec.
    rewrite <- (pairs_value 3) by (unfold len in Hlen; lia).
    destruct (hex_pairs ds) as [bs|] eqn:Ebs; [|done]. cbn. rewrite len_cons.
    apply hex_pairs_length in Ebs. by rewrite (proj2 (Z.eqb_eq (1 + len bs) 4)) by lia.
  - destruct (digits_value 16 0 ds) as [v|] eqn:E; [|done].
    apply digits_value_some in E as [E _]. apply forallb_hexdigits in E. congruence.
Qed.

Lemma raw_ok ds c : raw_dtc_code ds = Ok c ->
  Forall (fun c => is_ascii_hexdigit c = true) ds /\ (len ds = 6 \/ len ds = 5).
Proof.
  unfold raw_dtc_code, decode_hex. destruct (forallb is_ascii_hexdigit ds) eqn:Ehex; cbn [negb]; [|done].
  rewrite hex_decode_spec. intros H. split; [by apply forallb_hexdigits|].
  destruct (is_multiple_of (len ds) 2) eqn:Em; unfold is_multiple_of in Em; rewrite ?Z.eqb_eq, ?Z.eqb_neq in Em.
  - destruct (hex_pairs ds) as [bs|] eqn:Ebs; [|done]. cbn in H. rewrite len_cons in H.
    destruct (Z.eqb_spec (1 + len bs) 4); [|done]. apply hex_pairs_length in Ebs. lia.
  - destruct (hex_pairs _) as [bs|] eqn:Ebs; [|done]. cbn in H. rewrite len_cons in H.
    destruct (Z.eqb_spec (1 + len bs) 4); [|done]. apply hex_pairs_length in Ebs. revert Ebs.
    rewrite !len_app. change (len [ch_0]) with 1. pose proof (f_equal len (take_drop (Z.to_nat (sat_sub (len ds) 1)) ds)) as Ht.
    rewrite len_app in Ht. intros Ebs. right. lia.
Qed.

Lemma trim_spec s : exists k, s = mjoin (replicate k [ch_0; ch_x]) ++ trim_start_0x s.
Proof.
  induction s as [s IH] using (induction_ltof1 _ (@length Z)). unfold ltof in IH.
  destruct s as [|a [|b s]]; [by exists O|by exists O|]. cbn [trim_start_0x].
  destruct (Z.eqb_spec a ch_0) as [->|]; [|by exists O]. destruct (Z.eqb_spec b ch_x) as [->|]; [|by exists O].
  destruct (IH s) as [k Hk]; [cbn; lia|]. exists (S k). cbn [andb]. rewrite Hk at 1. done.
Qed.

Lemma trim_hexdigits s : Forall (fun c => is_ascii_hexdigit c = true) s -> trim_start_0x s = s.
Proof.
  destruct s as [|a [|b s]]; [done|done|]. intros H. cbn. destruct (a =? ch_0); [|done].
  destruct (Z.eqb_spec b ch_x) as [->|]; [|done]. inversion H as [|?? _ H']. by inversion H'.
Qed.

Lemma replicate_0x_ascii k : Forall (fun c => 0 <= c < 128) (mjoin (replicate k [ch_0; ch_x])) /\
  len (mjoin (replicate k [ch_0; ch_x])) = 2 * Z.of_nat k.
Proof.
  induction k as [|k [IH1 IH2]]; [done|].
  change (mjoin (replicate (S k) [ch_0; ch_x])) with ([ch_0; ch_x] ++ mjoin (replicate k [ch_0; ch_x])).
  split; [apply Forall_app; split; [repeat constructor; ch; lia|done]|]. rewrite len_app, IH2, !len_cons. change (len (@nil Z)) with 0. lia.
Qed.

(** Eight bytes are [0x] and six digits. *)
Lemma raw_eight s c : str_len s = 8 -> raw_dtc_code (trim_start_0x s) = Ok c <->
  exists ds, s = ch_0 :: ch_x :: ds /\ len ds = 6 /\ digits_value 16 0 ds = Some c.
Proof.
  intros Hs. split.
  - intros H. destruct (raw_ok _ _ H) as [Hhex Hl]. destruct (trim_spec s) as [k Hk].
    destruct (replicate_0x_ascii k) as [Ha Hn].
    assert (Hlen : 8 = 2 * Z.of_nat k + len (trim_start_0x s)).
    { rewrite <- Hs, Hk at 1. rewrite str_len_ascii, len_app, Hn; [done|].
      apply Forall_app. split; [done|]. by apply hexdigits_ascii. }
    assert (k = 1%nat) as -> by lia. exists (trim_start_0x s). split; [exact Hk|]. split; [lia|].
    rewrite raw_six in H by lia. by apply ok_or_ok in H.
  - intros (ds & -> & Hl & Hv). change (trim_start_0x (ch_0 :: ch_x :: ds)) with (trim_start_0x ds).
    rewrite trim_hexdigits by (eapply digits_value_some; exact Hv). rewrite raw_six, Hv by done. done.
Qed.
End code_lemmas.

(** ** The notations of a code *)

(** What the lowercase of a text is: of ASCII text the usual; other text has
    none that spells a code. *)
Class LowercaseOk (to_lowercase : str -> str) : Prop := {
  lower_ascii s : Forall (fun c => 0 <= c < 128) s -> to_lowercase s = ascii_lower <$> s;
  lower_foreign s : ~ Forall (fun c => 0 <= c < 128) s ->
    Exists (fun c => is_ascii_hexdigit c = false /\ c <> 112 /\ c <> 117 /\ c <> ch_plus) (to_lowercase s)
}.

(** Six digits, with or without a prefix; a letter for the system, a digit for
    the group and five digits, or four behind a sign. *)
Inductive denotes : str -> Z -> Prop :=
  | denotes_raw ds v : len ds = 6 -> digits_value 16 0 ds = Some v -> denotes ds v
  | denotes_prefixed ds v : len ds = 6 -> digits_value 16 0 ds = Some v -> denotes (ch_0 :: ch_x :: ds) v
  | denotes_sae l g ds system group v : len ds = 5 -> digits_value 16 0 ds = Some v ->
      system_of (ascii_lower l) = Ok system -> group_of g = Ok group ->
      denotes (l :: g :: ds) (system * 2 ^ 22 + group * 2 ^ 20 + v)
  | denotes_signed l g ds system group v : len ds = 4 -> digits_value 16 0 ds = Some v ->
      system_of (ascii_lower l) = Ok system -> group_of g = Ok group ->
      denotes (l :: g :: ch_plus :: ds) (system * 2 ^ 22 + group * 2 ^ 20 + v).

(** The code that the API shows: [{:06X}]. *)
Fixpoint hex_text (n : nat) (z : Z) : str :=
  match n with O => [] | S n => hex_text n (z / 16) ++ [hex_digit (z mod 16)] end.
Definition shown_code (code : Z) : str := hex_text (Z.to_nat (Z.max 6 (Z.log2 code / 4 + 1))) code.

Section notation_lemmas.
Context {ext : Externals} `{!ExternalsOk ext} (to_lowercase : str -> str) `{!LowercaseOk to_lowercase}.

Lemma system_of_ok c s : system_of c = Ok s -> 0 <= c < 128 /\ 0 <= s < 4 /\ (is_ascii_hexdigit c = true \/ c = 112 \/ c = 117).
Proof.
  unfold system_of. destruct (Z.eqb_spec c 112) as [->|]; [intros [= <-]; auto with lia|].
  destruct (Z.eqb_spec c 99) as [->|]; [intros [= <-]; split; [lia|]; split; [lia|by left]|].
  destruct (Z.eqb_spec c 98) as [->|]; [intros [= <-]; split; [lia|]; split; [lia|by left]|].
  destruct (Z.eqb_spec c 117) as [->|]; [intros [= <-]; auto with lia|done].
Qed.

Lemma group_of_ok c g : group_of c = Ok g -> 48 <= c <= 51 /\ g = c - 48.
Proof. unfold group_of. destruct (in_range _ _ _) eqn:E; [|done]. apply in_range_spec in E. ch. intros [= <-]. lia. Qed.

(** An upper part that is shifted away from the lower one is added to it. *)
Lemma lor_shifted a b k : 0 <= k -> 0 <= b < 2 ^ k -> Z.lor (Z.shiftl a k) b = a * 2 ^ k + b.
Proof.
  intros Hk Hb. rewrite <- Z.shiftl_mul_pow2 by done. rewrite <- Z.add_lor_land.
  assert (Z.land (Z.shiftl a k) b = 0); [|lia]. apply Z.bits_inj'. intros n Hn. rewrite Z.land_spec, Z.bits_0.
  destruct (Z.lt_ge_cases n k); [by rewrite Z.shiftl_spec_low|].
  assert (Z.testbit b n = false) as ->; [|by rewrite andb_false_r].
  destruct (Z.eq_dec b 0) as [->|]; [apply Z.bits_0|]. apply Z.bits_above_log2; [lia|].
  apply Z.lt_le_trans with k; [apply Z.log2_lt_pow2; lia|done].
Qed.

Lemma sae_value system group v : 0 <= system < 4 -> 0 <= group < 4 -> 0 <= v < 2 ^ 20 ->
  Z.lor (Z.lor (Z.shiftl system 22) (Z.shiftl group 20)) v = system * 2 ^ 22 + group * 2 ^ 20 + v.
Proof.
  intros Hs Hg Hv. rewrite (Z.shiftl_mul_pow2 group) by lia. rewrite (lor_shifted system) by lia.
  replace (system * 2 ^ 22 + group * 2 ^ 20) with ((system * 4 + group) * 2 ^ 20) by lia.
  rewrite <- lor_shifted by lia. by rewrite Z.shiftl_mul_pow2 by lia.
Qed.

(** Lowercase text that spells digits comes from text that spells them. *)
Lemma to_digit_lower c : to_digit 16 (ascii_lower c) = to_digit 16 c.
Proof.
  unfold to_digit, ascii_lower. ch. destruct (in_range 65 c 90) eqn:E; [|by rewrite E].
  apply in_range_spec in E. rewrite (proj2 (in_range_false 48 (c + 32) 57)), (proj2 (in_range_false 48 c 57)) by lia.
  rewrite (proj2 (in_range_spec 97 (c + 32) 122)), (proj2 (in_range_false 97 c 122)) by lia.
  by replace (c + 32 - 97 + 10) with (c - 65 + 10) by lia.
Qed.

Lemma digits_value_lower acc s : digits_value 16 acc (ascii_lower <$> s) = digits_value 16 acc s.
Proof. revert acc. induction s as [|c s IH]; intros acc; [done|]. cbn. rewrite to_digit_lower. destruct (to_digit 16 c); [apply IH|done]. Qed.

Lemma lower_ascii_char c : 0 <= c < 128 -> 0 <= ascii_lower c < 128.
Proof. unfold ascii_lower. ch. destruct (in_range 65 c 90) eqn:E; [|done]. apply in_range_spec in E. lia. Qed.

Lemma ascii_lower_inv c : 0 <= ascii_lower c < 128 -> 0 <= c < 128.
Proof. unfold ascii_lower. ch. destruct (in_range 65 c 90) eqn:E; [apply in_range_spec in E; lia|done]. Qed.

Lemma lower_fixed c n : n < 65 -> 0 <= n -> ascii_lower c = n -> c = n.
Proof. unfold ascii_lower. ch. destruct (in_range 65 c 90) eqn:E; [|done]. apply in_range_spec in E. lia. Qed.

Lemma from_hex_sign s : from_str_radix 0 U32_MAX s 16 =
  let digits := match s with c :: s' => if c =? ch_plus then s' else s | [] => s end in
  if non_empty digits then v ← digits_value 16 0 digits; (if in_range 0 v U32_MAX then Some v else None) else None.
Proof.
  unfold from_str_radix. destruct s as [|c s]; [done|]. destruct (c =? ch_plus); [done|].
  change (0 <? 0) with false. rewrite andb_false_r. done.
Qed.

(** Five characters behind system and group. *)
Lemma hex_part_spec s v : len s = 5 -> from_str_radix 0 U32_MAX s 16 = Some v <->
  digits_value 16 0 s = Some v \/ (exists ds, s = ch_plus :: ds /\ digits_value 16 0 ds = Some v).
Proof.
  intros Hlen. rewrite from_hex_sign. destruct s as [|c s]; [done|]. rewrite len_cons in Hlen. cbv zeta.
  destruct (Z.eqb_spec c ch_plus) as [->|Hc].
  - assert (non_empty s = true) as -> by (destruct s; [done|reflexivity]).
    assert (Hn : digits_value 16 0 (ch_plus :: s) = None) by reflexivity. rewrite Hn.
    destruct (digits_value 16 0 s) as [w|] eqn:E; cbn.
    + apply digits_value_some in E as E'. destruct E' as [_ Hw]. replace (len s) with 4 in Hw by lia.
      rewrite (proj2 (in_range_spec 0 w U32_MAX)) by (unfold U32_MAX; lia). split; [intros [= ->]; right; by exists s|].
      intros [?|(ds & [= <-] & Hds)]; [done|congruence].
    + split; [done|]. intros [?|(ds & [= <-] & Hds)]; congruence.
  - change (non_empty (c :: s)) with true. cbv iota.
    destruct (digits_value 16 0 (c :: s)) as [w|] eqn:E; cbn [mbind option_bind].
    + apply digits_value_some in E as E'. destruct E' as [_ Hw]. rewrite len_cons in Hw. replace (1 + len s) with 5 in Hw by lia.
      rewrite (proj2 (in_range_spec 0 w U32_MAX)) by (unfold U32_MAX; lia). split; [by left|].
      intros [?|(ds & [= ->] & _)]; [done|done].
    + split; [done|]. by intros [?|(ds & [= ->] & _)].
Qed.

Lemma sae_ascii s c : str_len s = 7 -> sae_to_dtc_code to_lowercase s = Ok c -> Forall (fun c => 0 <= c < 128) s.
Proof.
  intros Hlen Hok. destruct (decide (Forall (fun c => 0 <= c < 128) s)) as [|Hn]; [done|exfalso].
  pose proof (lower_foreign _ Hn) as Hex. revert Hok. unfold sae_to_dtc_code. rewrite Hlen. change (negb (7 =? 7)) with false.
  cbv iota zeta. destruct (to_lowercase s) as [|l [|g rest]] eqn:Hl; [done|cbn; by destruct (system_of l)|].
  cbn [head list_lookup lookup ok_or mbind result_bind].
  destruct (system_of l) as [sys|] eqn:Hs; [|done]. destruct (group_of g) as [grp|] eqn:Hg; [|done].
  cbn [mbind result_bind]. apply system_of_ok in Hs as (Hla & _ & Hsl). apply group_of_ok in Hg as [Hgr _].
  assert (str_get_from (l :: g :: rest) 2 = Some rest) as ->.
  { cbn. rewrite (utf8_len_ascii l) by lia. cbn. rewrite (utf8_len_ascii g) by lia. cbn. by destruct rest. }
  cbn [ok_or mbind result_bind]. rewrite from_hex_sign. cbv zeta. intros Hok.
  assert (Hrest : Forall (fun c => is_ascii_hexdigit c = true \/ c = ch_plus) rest).
  { destruct rest as [|c0 rest]; [constructor|].
    destruct (Z.eqb_spec c0 ch_plus) as [->|]; (destruct (non_empty _); [|done]);
      destruct (digits_value 16 0 _) as [v|] eqn:Hv; [|done| |done]; apply digits_value_some in Hv as [Hv _].
    - constructor; [by right|]. eapply Forall_impl; [|exact Hv]. by left.
    - eapply Forall_impl; [|exact Hv]. by left. }
  rewrite Exists_cons, Exists_cons in Hex. destruct Hex as [(? & ? & ? & _)|[(Hf & _)|Hex]].
  - destruct Hsl as [?|[?|?]]; congruence.
  - revert Hf. unfold is_ascii_hexdigit. rewrite !orb_false_iff, !in_range_false. ch. lia.
  - apply Exists_exists in Hex as (c0 & Hin & Hf & _ & _ & Hp). rewrite Forall_forall in Hrest.
    destruct (Hrest _ Hin); congruence.
Qed.

Lemma seven_characters s : Forall (fun c => 0 <= c < 128) s -> str_len s = 7 <-> len s = 7.
Proof. intros H. by rewrite str_len_ascii. Qed.

Definition five_characters (rest : str) (v : Z) : Prop :=
  digits_value 16 0 rest = Some v \/ exists ds, rest = ch_plus :: ds /\ digits_value 16 0 ds = Some v.

Lemma five_bound rest v : len rest = 5 -> five_characters rest v -> 0 <= v < 2 ^ 20.
Proof.
  intros Hlen [Hv|(ds & -> & Hv)]; apply digits_value_some in Hv as [_ Hb].
  - replace (len rest) with 5 in Hb by lia. lia.
  - rewrite len_cons in Hlen. replace (len ds) with 4 in Hb by lia. lia.
Qed.

Lemma five_lower rest v : len rest = 5 ->
  from_str_radix 0 U32_MAX (ascii_lower <$> rest) 16 = Some v <-> five_characters rest v.
Proof.
  intros Hlen. rewrite hex_part_spec by (rewrite len_map; lia). rewrite digits_value_lower. unfold five_characters. f_equiv.
  split.
  - intros (ds & Hds & Hv). destruct rest as [|c0 rest]; [done|]. rewrite fmap_cons in Hds. injection Hds as Hc0 <-.
    rewrite digits_value_lower in Hv. exists rest. split; [|done]. f_equal. apply (lower_fixed _ _) in Hc0; ch; lia.
  - intros (ds & -> & Hv). exists (ascii_lower <$> ds). by rewrite digits_value_lower.
Qed.

Lemma group_lower g : group_of (ascii_lower g) = group_of g.
Proof.
  unfold group_of, ascii_lower. ch. destruct (in_range 65 g 90) eqn:E; [|done]. apply in_range_spec in E.
  rewrite (proj2 (in_range_false 48 (g + 32) 51)), (proj2 (in_range_false 48 g 51)) by lia. done.
Qed.

Lemma behind_group l g rest : 0 <= l < 128 -> 0 <= g < 128 -> str_get_from (l :: g :: rest) 2 = Some rest.
Proof. intros Hl Hg. cbn. rewrite (utf8_len_ascii l) by done. cbn. rewrite (utf8_len_ascii g) by done. cbn. by destruct rest. Qed.

Lemma sae_spec s c : Forall (fun c => 0 <= c < 128) s -> len s = 7 -> sae_to_dtc_code to_lowercase s = Ok c <->
  exists l g rest system group v, s = l :: g :: rest /\ system_of (ascii_lower l) = Ok system /\ group_of g = Ok group /\
    five_characters rest v /\ c = system * 2 ^ 22 + group * 2 ^ 20 + v.
Proof.
  intros Ha Hlen. unfold sae_to_dtc_code. rewrite str_len_ascii, Hlen, lower_ascii by done.
  change (negb (7 =? 7)) with false. cbv iota zeta.
  destruct s as [|l [|g rest]]; [done|done|]. rewrite !len_cons in Hlen.
  inversion Ha as [|?? Hl Ha']; subst. inversion Ha' as [|?? Hg Har]; subst. rewrite !fmap_cons.
  cbn [head list_lookup lookup ok_or mbind result_bind].
  rewrite behind_group by by apply lower_ascii_char. rewrite group_lower. cbn [ok_or mbind result_bind].
  assert (Hlr : len rest = 5) by lia.
  assert (Hval : forall sys grp v, system_of (ascii_lower l) = Ok sys -> group_of g = Ok grp -> five_characters rest v ->
    Z.lor (Z.lor (Z.shiftl sys 22) (Z.shiftl grp 20)) v = sys * 2 ^ 22 + grp * 2 ^ 20 + v).
  { intros sys grp v Hs Hgr Hv. apply system_of_ok in Hs as (_ & Hs & _). apply group_of_ok in Hgr as [? ->].
    apply five_bound in Hv; [|done]. apply sae_value; lia. }
  split.
  - destruct (system_of (ascii_lower l)) as [sys|] eqn:Hs; [|done]. cbn. destruct (group_of g) as [grp|] eqn:Hgr; [|done]. cbn.
    destruct (from_str_radix _ _ _ _) as [v|] eqn:Hv; [|done]. cbn. intros [= <-]. apply five_lower in Hv; [|done].
    exists l, g, rest, sys, grp, v. rewrite Hval by done. done.
  - intros (l' & g' & rest' & sys & grp & v & [= <- <- <-] & Hs & Hgr & Hv & ->). rewrite Hs, Hgr. cbn.
    rewrite (proj2 (five_lower _ _ Hlr) Hv). cbn. by rewrite Hval.
Qed.

(** *** The text of a code *)

Lemma hex_text_value n z acc : 0 <= z < 16 ^ Z.of_nat n -> digits_value 16 acc (hex_text n z) = Some (acc * 16 ^ Z.of_nat n + z).
Proof.
  assert (Hsnoc : forall s c d acc v, digits_value 16 acc s = Some v -> to_digit 16 c = Some d ->
    digits_value 16 acc (s ++ [c]) = Some (v * 16 + d)).
  { induction s as [|c0 s IH]; intros c d acc0 v; cbn.
    - intros [= ->] ->. done.
    - destruct (to_digit 16 c0); [|done]. cbn. apply IH. }
  revert z acc. induction n as [|n IH]; intros z acc Hz; [cbn in *; f_equal; lia|].
  rewrite Nat2Z.inj_succ, Z.pow_succ_r in Hz |- * by lia. cbn [hex_text].
  rewrite (Hsnoc _ _ (z mod 16) _ (acc * 16 ^ Z.of_nat n + z / 16)).
  - f_equal. pose proof (Z.div_mod z 16). lia.
  - apply IH. split; [apply Z.div_pos; lia|]. apply Z.div_lt_upper_bound; lia.
  - assert (Hm : 0 <= z mod 16 < 16) by (apply Z.mod_pos_bound; lia). unfold to_digit, hex_digit. ch.
    destruct (Z.ltb_spec (z mod 16) 10).
    + rewrite (proj2 (in_range_spec 48 _ 57)) by lia. replace (48 + z mod 16 - 48) with (z mod 16) by lia.
      by rewrite (proj2 (Z.ltb_lt _ _)) by lia.
    + rewrite (proj2 (in_range_false 48 _ 57)), (proj2 (in_range_false 97 _ 122)), (proj2 (in_range_spec 65 _ 90)) by lia.
      replace (65 + (z mod 16 - 10) - 65 + 10) with (z mod 16) by lia. by rewrite (proj2 (Z.ltb_lt _ _)) by lia.
Qed.

Lemma hex_text_len n z : len (hex_text n z) = Z.of_nat n.
Proof. revert z. induction n as [|n IH]; intros z; [done|]. cbn [hex_text]. rewrite len_app, IH. unfold len. cbn. lia. Qed.

Lemma shown_code_digits code : 0 <= code < 2 ^ 24 -> shown_code code = hex_text 6 code.
Proof.
  intros Hc. unfold shown_code. f_equal. assert (Z.log2 code < 24); [|pose proof (Z.div_lt_upper_bound (Z.log2 code) 4 6); lia].
  destruct (Z.eq_dec code 0) as [->|]; [done|]. apply Z.log2_lt_pow2; lia.
Qed.
End notation_lemmas.

(** ** Properties *)

Section properties.
Context {ext : Externals} `{!ExternalsOk ext} (to_lowercase : str -> str) `{!LowercaseOk to_lowercase}.

Lemma denotes_decodes s c : denotes s c -> decode_dtc_from_str to_lowercase s = Ok c.
Proof.
  assert (Hlen : forall ds v n, len ds = n -> digits_value 16 0 ds = Some v -> str_len ds = n).
  { intros ds v n <- Hv. apply digits_value_some in Hv as [Hv _]. by apply str_len_ascii, hexdigits_ascii. }
  unfold decode_dtc_from_str. intros [ds v Hl Hv|ds v Hl Hv|l g ds sys grp v Hl Hv Hs Hg|l g ds sys grp v Hl Hv Hs Hg].
  - rewrite (Hlen ds v 6) by done. change (6 =? 6) with true. cbv iota zeta. by rewrite raw_six, Hv.
  - assert (Hn : str_len (ch_0 :: ch_x :: ds) = 8).
    { change (str_len (ch_0 :: ch_x :: ds)) with (1 + (1 + str_len ds)). rewrite (Hlen ds v 6) by done. done. }
    rewrite Hn. change (8 =? 6) with false. change (8 =? 8) with true. cbv iota zeta. apply raw_eight; [done|]. by exists ds.
  - assert (Ha : Forall (fun c => 0 <= c < 128) (l :: g :: ds)).
    { apply digits_value_some in Hv as [Hv _]. pose proof (group_of_ok _ _ Hg) as [Hgr _].
      pose proof (system_of_ok _ _ Hs) as (Hll & _ & _). constructor; [|constructor; [lia|by apply hexdigits_ascii]].
      by apply ascii_lower_inv. }
    rewrite str_len_ascii by done. rewrite !len_cons, Hl. change (1 + (1 + 5)) with 7. cbn [Z.eqb Pos.eqb].
    apply sae_spec; [done..|by rewrite !len_cons, Hl|]. exists l, g, ds, sys, grp, v. split; [done|]. by split_and!; [..|left|].
  - assert (Ha : Forall (fun c => 0 <= c < 128) (l :: g :: ch_plus :: ds)).
    { apply digits_value_some in Hv as [Hv _]. pose proof (group_of_ok _ _ Hg) as [Hgr _].
      pose proof (system_of_ok _ _ Hs) as (Hll & _ & _).
      constructor; [|constructor; [lia|constructor; [ch; lia|by apply hexdigits_ascii]]].
      by apply ascii_lower_inv. }
    rewrite str_len_ascii by done. rewrite !len_cons, Hl. change (1 + (1 + (1 + 4))) with 7. cbn [Z.eqb Pos.eqb].
    apply sae_spec; [done..|by rewrite !len_cons, Hl|]. exists l, g, (ch_plus :: ds), sys, grp, v.
    split; [done|]. split_and!; [done..| |done]. right. by exists ds.
Qed.

Lemma decodes_denotes s c : decode_dtc_from_str to_lowercase s = Ok c -> denotes s c.
Proof.
  unfold decode_dtc_from_str. cbv zeta. destruct (Z.eqb_spec (str_len s) 6) as [H6|H6].
  - intros H. destruct (raw_ok _ _ H) as [Hhex _].
    assert (len s = 6) by (rewrite <- str_len_ascii; [done|by apply hexdigits_ascii]).
    rewrite raw_six in H by done. apply ok_or_ok in H. by apply denotes_raw.
  - destruct (Z.eqb_spec (str_len s) 8) as [H8|H8].
    + intros (ds & -> & Hl & Hv)%raw_eight; [|done]. by apply denotes_prefixed.
    + destruct (Z.eqb_spec (str_len s) 7) as [H7|]; [|done]. intros H. pose proof (sae_ascii _ _ _ H7 H) as Ha.
      apply sae_spec in H; [|done..|by rewrite <- str_len_ascii].
      destruct H as (l & g & rest & sys & grp & v & -> & Hs & Hg & [Hv|(ds & -> & Hv)] & ->);
        rewrite str_len_ascii, !len_cons in H7 by done; [apply denotes_sae|apply denotes_signed]; try done; lia.
Qed.

Lemma denotes_bound s c : denotes s c -> 0 <= c < 2 ^ 24.
Proof.
  intros [ds v Hl Hv|ds v Hl Hv|l g ds sys grp v Hl Hv Hs Hg|l g ds sys grp v Hl Hv Hs Hg];
    apply digits_value_some in Hv as [_ Hv]; rewrite Hl in Hv; try lia;
    apply system_of_ok in Hs as (_ & Hs & _); apply group_of_ok in Hg; lia.
Qed.

(** the notations of a fault code: a text is read as a code exactly when it is
    six hexadecimal digits, the same behind 0x, or a system letter, a group
    digit and five hexadecimal digits, of which the first may be a plus sign
    instead; case does not matter, and text outside of ASCII is refused. *)
Theorem dtc_notations s c : decode_dtc_from_str to_lowercase s = Ok c <-> denotes s c.
Proof. split; [apply decodes_denotes|apply denotes_decodes]. Qed.

(** a fault of 24 bits can be asked for by the code it is listed with, in upper
    and in lower case, as the server writes paths in lower case; and every text
    that is read is the name of a code of 24 bits, whose listed text is read as
    the same code. *)
Theorem dtc_code_roundtrip code s : 0 <= code < 2 ^ 24 ->
  decode_dtc_from_str to_lowercase (shown_code code) = Ok code /\
  decode_dtc_from_str to_lowercase (ascii_lower <$> shown_code code) = Ok code /\
  (decode_dtc_from_str to_lowercase s = Ok code ->
   decode_dtc_from_str to_lowercase (shown_code code) = decode_dtc_from_str to_lowercase s) /\
  (forall c, decode_dtc_from_str to_lowercase s = Ok c -> 0 <= c < 2 ^ 24).
Proof.
  intros Hc. pose proof (hex_text_value 6 code 0 Hc) as Hv. rewrite <- shown_code_digits in Hv by done.
  assert (Hl : len (shown_code code) = 6) by (rewrite shown_code_digits by done; apply hex_text_len).
  assert (Hup : decode_dtc_from_str to_lowercase (shown_code code) = Ok code) by by apply denotes_decodes, denotes_raw.
  split; [done|]. split; [|split; [congruence|]].
  - apply denotes_decodes, denotes_raw; [by rewrite len_map|by rewrite digits_value_lower].
  - intros c Hs. by eapply denotes_bound, decodes_denotes.
Qed.
End properties.

(** ** A lowercase that satisfies the hypotheses *)

Definition ascii_lowercase (s : str) : str := ascii_lower <$> s.

#[export] Instance ascii_lowercase_ok : LowercaseOk ascii_lowercase.
Proof.
  split; [done|]. intros s Hs. unfold ascii_lowercase.
  apply not_Forall_Exists in Hs; [|intros c; apply _]. rewrite Exists_fmap. eapply Exists_impl; [|exact Hs].
  intros c Hc. cbn in Hc |- *. assert (ascii_lower c = c) as ->.
  { unfold ascii_lower. ch. destruct (in_range 65 c 90) eqn:E; [apply in_range_spec in E; lia|done]. }
  split; [|ch; lia]. unfold is_ascii_hexdigit. rewrite !orb_false_iff, !in_range_false. ch. lia.
Qed.

Lemma dtc_notations_witness :
  decode_dtc_from_str (ext := reference) ascii_lowercase (chars "0x01E240") = Ok 123456 /\
  decode_dtc_from_str (ext := reference) ascii_lowercase (chars "U31E240") <> Ok 123456.
Proof.
  split.
  - apply (dtc_notations (ext := reference) ascii_lowercase (chars "0x01E240") 123456).
    apply (denotes_prefixed (chars "01E240")); reflexivity.
  - vm_compute. discriminate.
Defined.

Lemma dtc_code_roundtrip_witness :
  0 <= 123456 < 2 ^ 24 /\
  decode_dtc_from_str (ext := reference) ascii_lowercase (shown_code 123456) = Ok 123456 /\
  shown_code 123456 = chars "01E240".
Proof.
  split; [lia|]. split; [|reflexivity].
  apply (dtc_code_roundtrip (ext := reference) ascii_lowercase 123456 []). lia.
Defined.

(** The sign: a text that is no SAE code is read as one. *)
Example signed_code : decode_dtc_from_str (ext := reference) ascii_lowercase (chars "P0+1234") = Ok 4660.
Proof. vm_compute. reflexivity. Qed.

(** Bits that are asked to be off do not count: all faults are asked for. *)
Example off_is_all : status_filter_mask (ext := reference) (Some {[ chars "confirmeddtc" := Bool false ]}) = Ok 255.
Proof. vm_compute. reflexivity. Qed.

Example all_bits_255 : all_bits = 255.
Proof. reflexivity. Qed.
