(* ===== verification/MddFile.v ===== *)
(** * Database files

    cda-database/src/mdd_data.rs with the messages of proto/fileformat.rs: the
    format of an MDD file, loading its chunks, and rewriting it uncompressed in
    place; mdd_data/files.rs: the files it carries, with their cache.  The
    protocol buffer codec, LZMA and SHA-512 are parameters. *)

From S2P Require Import Prelude Text StorageTypes FileSystem.

(** ** The messages of the file *)

Record Encryption : Type := {
  encryption_algorithm : string;
  encryption_key_identifier : option (list Z);
  encryption_certificates : list (list Z) }.

Record Signature : Type := {
  algorithm : string;
  key_identifier : option (list Z);
  signature_metadata : gmap string string;
  signature : list Z;
  certificates : list (list Z) }.

(** [fileformat::Chunk]. *)
Record ProtoChunk : Type := mk_chunk {
  chunk_type : Z;
  chunk_name : option string;
  chunk_metadata : gmap string string;
  signatures : list Signature;
  compression_algorithm : option string;
  proto_uncompressed_size : option Z;
  encryption : option Encryption;
  mime_type : option string;
  chunk_data : option (list Z) }.

Record MddFile : Type := mk_mdd {
  version : string;
  feature_flags : list Z;
  ecu_name : string;
  revision : option string;
  mdd_metadata : gmap string string;
  chunks : list ProtoChunk;
  chunks_signature : option Signature }.

#[export] Instance Encryption_eq_dec : EqDecision Encryption.
Proof. solve_decision. Defined.
#[export] Instance Signature_eq_dec : EqDecision Signature.
Proof. solve_decision. Defined.
#[export] Instance ProtoChunk_eq_dec : EqDecision ProtoChunk.
Proof. solve_decision. Defined.
#[export] Instance MddFile_eq_dec : EqDecision MddFile.
Proof. solve_decision. Defined.

Definition with_chunks (m : MddFile) (l : list ProtoChunk) : MddFile :=
  mk_mdd (version m) (feature_flags m) (ecu_name m) (revision m) (mdd_metadata m) l (chunks_signature m).

(** ** What is loaded from it *)

Inductive MddError : Type := MddIo | InvalidFormat | Parsing | MissingData | InvalidParameter.
Abbreviation mresult := (result MddError).

Inductive ChunkType : Type := DiagnosticDescription | CodeFile | CodeFilePartial | EmbeddedFile | VendorSpecific.

#[export] Instance ChunkType_eq_dec : EqDecision ChunkType.
Proof. solve_decision. Defined.

(** [chunk::DataType], the number of a chunk type on the wire. *)
Definition DataType (t : ChunkType) : Z :=
  match t with
  | DiagnosticDescription => 0
  | CodeFile => 1
  | CodeFilePartial => 2
  | EmbeddedFile => 3
  | VendorSpecific => 1024
  end.

(** [DataType::try_from]. *)
Definition data_type_of (z : Z) : option ChunkType :=
  find (fun t => DataType t =? z)%Z [DiagnosticDescription; CodeFile; CodeFilePartial; EmbeddedFile; VendorSpecific].

Lemma data_type_of_DataType t : data_type_of (DataType t) = Some t.
Proof. by destruct t. Qed.

#[export] Instance ChunkType_countable : Countable ChunkType.
Proof. apply (inj_countable DataType data_type_of), data_type_of_DataType. Defined.

Record ChunkMetaData : Type := {
  type_ : ChunkType;
  name : string;
  uncompressed_size : Z;
  content_type : option string }.

Record Chunk : Type := mk_loaded { payload : option (list Z); meta_data : ChunkMetaData }.

Record ProtoLoadConfig : Type := { load_type : ChunkType; load_data : bool; load_name : option string }.

(** ** Reading a file *)

Definition FILE_MAGIC_HEX_STR : string := "4d44442076657273696f6e203020202020202000".

(** [file_magic_bytes]; nothing where the constant would not compile. *)
Definition file_magic_bytes : list Z :=
  default [] (mapM (fun i => from_str_radix 0 255 (take 2 (drop (2 * i) (chars FILE_MAGIC_HEX_STR))) 16)
    (seq 0 (Nat.div2 (length (chars FILE_MAGIC_HEX_STR))))).

Definition FILE_MAGIC_BYTES_LEN : nat := Nat.div2 (String.length FILE_MAGIC_HEX_STR).

Example file_magic_is_text : file_magic_bytes = chars "MDD version 0      " ++ [0%Z].
Proof. reflexivity. Qed.

Section mdd_data.
(** prost, xz2, sha2 and [str::to_lowercase]. *)
Context (decode : list Z -> option MddFile) (encode : MddFile -> option (list Z)).
Context (lzma : list Z -> option (list Z)) (sha512 : list Z -> list Z) (to_lowercase : string -> string).

Definition decompress_chunk_data (data : list Z) (compression_algorithm : option string) : mresult (list Z) :=
  match to_lowercase <$> compression_algorithm with
  | Some algorithm => if bool_decide (algorithm = "lzma") then ok_or (lzma data) MddIo else Err Parsing
  | None => Ok data
  end.

(** The contents of a file, where there is one. *)
Definition mmap_and_decode_mdd (mdd : option file) : mresult MddFile :=
  mmap ← ok_or mdd MddIo;
  magic_slice ← ok_or (slice mmap 0 (Z.of_nat FILE_MAGIC_BYTES_LEN)) Parsing;
  if bool_decide (magic_slice = file_magic_bytes) then ok_or (decode (drop FILE_MAGIC_BYTES_LEN mmap)) Parsing
  else Err Parsing.

(** The filter of [load_proto_data]. *)
Definition selects (chunk_info : ProtoLoadConfig) (proto_chunk : ProtoChunk) : bool :=
  bool_decide (data_type_of (chunk_type proto_chunk) = Some (load_type chunk_info)) &&
  match load_name chunk_info with
  | None => true
  | Some n => bool_decide (Some n = chunk_name proto_chunk)
  end.

(** One chunk; [None] for one without data that is to be loaded. *)
Definition load_one (chunk_info : ProtoLoadConfig) (proto_chunk : ProtoChunk) : mresult (option Chunk) :=
  let chunk p := mk_loaded p {|
    type_ := load_type chunk_info;
    name := default "" (chunk_name proto_chunk);
    uncompressed_size := default 0%Z (proto_uncompressed_size proto_chunk);
    content_type := mime_type proto_chunk |} in
  if load_data chunk_info then
    match chunk_data proto_chunk with
    | None => Ok None
    | Some data =>
        d ← decompress_chunk_data data (compression_algorithm proto_chunk);
        Ok (Some (chunk (Some d)))
    end
  else Ok (Some (chunk None)).

Definition load_chunks (mdd_file : MddFile) (chunk_info : ProtoLoadConfig) : mresult (list Chunk) :=
  omap id <$> mapM (load_one chunk_info) (filter (fun c => selects chunk_info c = true) (chunks mdd_file)).

(** Collecting into a [HashMap]: a later entry replaces an earlier one. *)
Definition collect {K V} `{Countable K} (l : list (K * V)) : gmap K V :=
  foldl (fun m kv => <[kv.1 := kv.2]> m) ∅ l.

Definition load_proto_data (mdd : option file) (load_info : list ProtoLoadConfig)
    : mresult (string * gmap ChunkType (list Chunk)) :=
  mdd_file ← mmap_and_decode_mdd mdd;
  proto_data ← mapM (fun chunk_info => l ← load_chunks mdd_file chunk_info; Ok (load_type chunk_info, l)) load_info;
  Ok (ecu_name mdd_file, collect proto_data).

Definition load_ecudata (mdd : option file) : mresult (string * list Z) :=
  '(name, data) ← load_proto_data mdd [{| load_type := DiagnosticDescription; load_data := true; load_name := None |}];
  match head (map_to_list data) ≫= (fun '(_, chunks) => head chunks) with
  | Some c => p ← ok_or (payload c) MissingData; Ok (name, p)
  | None => Err MissingData
  end.

Definition load_chunk_data (mdd : option file) (chunk : Chunk) : mresult (list Z) :=
  let config := {| load_type := type_ (meta_data chunk); load_data := true; load_name := Some (name (meta_data chunk)) |} in
  match load_proto_data mdd [config] with
  | Ok (_, data) => ok_or ((data !! type_ (meta_data chunk) ≫= head) ≫= payload) MissingData
  | Err e => Err e
  end.

(** [load_chunk]: the data, and the chunk that keeps it. *)
Definition load_chunk (chunk : Chunk) (mdd : option file) : mresult (list Z) * Chunk :=
  match payload chunk with
  | Some p => (Ok p, chunk)
  | None =>
      match load_chunk_data mdd chunk with
      | Ok p => (Ok p, mk_loaded (Some p) (meta_data chunk))
      | Err e => (Err e, chunk)
      end
  end.

(** ** Rewriting a file *)

(** A chunk with its data decompressed. *)
Definition decompress_chunk (c : ProtoChunk) : mresult ProtoChunk :=
  match chunk_data c with
  | None => Ok c
  | Some data =>
      d ← decompress_chunk_data data (compression_algorithm c);
      Ok (mk_chunk (chunk_type c) (chunk_name c) (chunk_metadata c) (signatures c) None None
            (encryption c) (mime_type c) (Some d))
  end.

(** What is to be written, with the digests expected in it; [None] where no
    chunk is compressed. *)
Definition decompressed_file (mdd : option file) : mresult (option (list (option (list Z)) * file)) :=
  proto_file ← mmap_and_decode_mdd mdd;
  if existsb (fun c => bool_decide (is_Some (compression_algorithm c))) (chunks proto_file) then
    data ← ok_or mdd MddIo;
    proto_file ← ok_or (decode (drop FILE_MAGIC_BYTES_LEN data)) Parsing;
    l ← mapM decompress_chunk (chunks proto_file);
    out ← ok_or (encode (with_chunks proto_file l)) MddIo;
    Ok (Some (fmap sha512 <$> (chunk_data <$> l), file_magic_bytes ++ out))
  else Ok None.

Definition verify_mdd_chunk_checksums (mdd : option file) (expected_hashes : list (option (list Z))) : mresult () :=
  mdd_file ← mmap_and_decode_mdd mdd;
  if bool_decide (length (chunks mdd_file) <> length expected_hashes) then Err Parsing
  else if forallb (fun '(c, expected) => bool_decide (sha512 <$> chunk_data c = expected))
            (zip (chunks mdd_file) expected_hashes) then Ok ()
  else Err Parsing.

(** [std::fs::write]: the file is created or truncated, then written. *)
Definition put_file (c k : string) (v : file) : io () := call (fun s =>
  match get_dir s c with
  | Some d => Ok (with_dir s c (<[k := v]> d))
  | None => Err NotFound
  end).
Definition write_file (c k : string) (v : file) : io () := _ ← put_file c k []; put_file c k v.

(** [update_mdd_uncompressed] on the file [k] of the directory [c]. *)
Definition update_mdd_uncompressed (c k : string) : io (mresult bool) :=
  new ← query (fun s => decompressed_file (get_file s c k));
  match (new : mresult _) with
  | Err e => mret (Err e)
  | Ok None => mret (Ok false)
  | Ok (Some (expected_hashes, out)) =>
      let tmp_path := append_extension k "tmp" in
      written ← try_io (write_file c tmp_path out);
      match (written : sresult ()) with
      | Err _ => mret (Err MddIo)
      | Ok _ =>
          verified ← query (fun s => verify_mdd_chunk_checksums (get_file s c tmp_path) expected_hashes);
          match (verified : mresult ()) with
          | Err e => _ ← try_io (remove_file c tmp_path); mret (Err e)
          | Ok _ =>
              renamed ← try_io (rename_file c tmp_path k);
              match (renamed : sresult ()) with
              | Err _ => _ ← try_io (remove_file c tmp_path); mret (Err MddIo)
              | Ok _ => mret (Ok true)
              end
          end
      end
  end.
End mdd_data.

(** ** The files of a database: mdd_data/files.rs *)

Record CacheEntry : Type := { last_accessed : option Z; chunk : Chunk }.

(** [FileManager]; the path it keeps is an argument of [get]: the contents of
    the file at the time. *)
Abbreviation FileManager := (gmap string CacheEntry).

(** Five minutes, in nanoseconds. *)
Definition cache_lifetime : Z := 60 * 5 * 10 ^ 9.

(** [FileManager::new]; [ids] are the fresh identifiers. *)
Definition new_file_manager (ids : list string) (files : list Chunk) : FileManager :=
  collect (zip ids ((fun chunk => {| last_accessed := None; chunk := chunk |}) <$> files)).

(** One round of the cache task on one entry: how long its data is still kept. *)
Definition expire_entry (now : Z) (entry : CacheEntry) : option Z * CacheEntry :=
  match last_accessed entry with
  | None => (None, entry)
  | Some t =>
      let elapsed := Z.max 0 (now - t) in
      if (elapsed <=? cache_lifetime)%Z then (Some (cache_lifetime - elapsed)%Z, entry)
      else (None, {| last_accessed := Some t; chunk := mk_loaded None (meta_data (chunk entry)) |})
  end.

Definition expire (now : Z) (fm : FileManager) : Z * FileManager :=
  let lifetimes := omap (fun kv => (expire_entry now kv.2).1) (map_to_list fm) in
  (match lifetimes with [] => cache_lifetime | t :: l => foldl Z.min t l end, snd ∘ expire_entry now <$> fm).

Definition list_files (fm : FileManager) : gmap string ChunkMetaData := meta_data ∘ chunk <$> fm.

Section file_manager.
Context (decode : list Z -> option MddFile) (lzma : list Z -> option (list Z)) (to_lowercase : string -> string).

Definition get (fm : FileManager) (now : Z) (mdd : option file) (id : string)
    : mresult (ChunkMetaData * list Z) * FileManager :=
  match fm !! id with
  | None => (Err InvalidParameter, fm)
  | Some cache =>
      let '(r, c) := load_chunk decode lzma to_lowercase (chunk cache) mdd in
      ((fun p => (meta_data (chunk cache), p)) <$> r, <[id := {| last_accessed := Some now; chunk := c |}]> fm)
  end.

(** ** Rewriting a file keeps what is loaded from it *)

(** The size is that of the compressed data before and absent after. *)
Definition forget_size (c : Chunk) : Chunk :=
  mk_loaded (payload c) {| type_ := type_ (meta_data c); name := name (meta_data c); uncompressed_size := 0;
                           content_type := content_type (meta_data c) |}.

Abbreviation load := (load_proto_data decode lzma to_lowercase).

Definition forget_option (o : option Chunk) : option Chunk := forget_size <$> o.
Definition forget_list (l : list Chunk) : list Chunk := forget_size <$> l.
Definition forget_map (data : gmap ChunkType (list Chunk)) : gmap ChunkType (list Chunk) :=
  forget_list <$> data.
Definition forget_sizes (r : mresult (string * gmap ChunkType (list Chunk))) : mresult (string * gmap ChunkType (list Chunk)) :=
  (fun nl : string * _ => (nl.1, forget_map nl.2)) <$> r.

Definition loads_same (a b : option file) : Prop := forall load_info, forget_sizes (load a load_info) = forget_sizes (load b load_info).

Lemma loads_same_refl a : loads_same a a.
Proof. by intros l. Qed.

Abbreviation rewritten := (fun c c' => decompress_chunk lzma to_lowercase c = Ok c').

Lemma rewritten_selects ci c c' : rewritten c c' -> selects ci c' = selects ci c.
Proof.
  unfold decompress_chunk. destruct (chunk_data c) as [data|]; [|by intros [= <-]].
  cbn. destruct (decompress_chunk_data _ _ _ _); [|done]. by intros [= <-].
Qed.

Lemma rewritten_load_one ci c c' : rewritten c c' ->
  forget_option <$> load_one lzma to_lowercase ci c' = forget_option <$> load_one lzma to_lowercase ci c.
Proof.
  unfold decompress_chunk, load_one. destruct (chunk_data c) as [data|] eqn:E; [|intros [= <-]; by rewrite E].
  cbn. destruct (decompress_chunk_data _ _ _ _) as [d|]; [|done]. intros [= <-]. cbn. by destruct (load_data ci).
Qed.

Lemma mapM_forget {E A B} (f g : A -> result E B) (h : B -> B) l l' :
  Forall2 (fun a a' => h <$> f a' = h <$> g a) l l' -> (fun k : list B => h <$> k) <$> mapM f l' = (fun k : list B => h <$> k) <$> mapM g l.
Proof.
  induction 1 as [|a a' l l' Ha _ IH]; [done|]. cbn. destruct (f a') as [b|], (g a) as [b'|]; cbn in *; try done.
  - injection Ha as Ha. destruct (mapM f l') as [k|], (mapM g l) as [k'|]; cbn in *; try done.
    injection IH as IH. congruence.
  - by injection Ha as ->.
Qed.

Lemma omap_forget (l : list (option Chunk)) : forget_list (omap id l) = omap id (forget_option <$> l).
Proof. induction l as [|[c|] l IH]; [done| |done]. cbn. by rewrite <- IH. Qed.

Lemma rewritten_load_chunks m l ci : Forall2 rewritten (chunks m) l ->
  forget_list <$> load_chunks lzma to_lowercase (with_chunks m l) ci = forget_list <$> load_chunks lzma to_lowercase m ci.
Proof.
  intros Hl. unfold load_chunks. cbn [chunks with_chunks].
  assert (Hm : (fun k : list (option Chunk) => forget_option <$> k) <$> mapM (load_one lzma to_lowercase ci) (filter (fun c => selects ci c = true) l) =
    (fun k : list (option Chunk) => forget_option <$> k) <$> mapM (load_one lzma to_lowercase ci) (filter (fun c => selects ci c = true) (chunks m))).
  { apply mapM_forget. induction Hl as [|c c' l1 l2 Hc _ IH]; [constructor|].
    rewrite !filter_cons, (rewritten_selects ci c c' Hc). case_decide; [|done]. constructor; [by apply rewritten_load_one|done]. }
  destruct (mapM _ (filter _ l)), (mapM _ (filter _ (chunks m))); cbn in *; try done; injection Hm as Hm.
  - f_equal. by rewrite !omap_forget, Hm.
  - by f_equal.
Qed.

Lemma collect_fmap {A B} (f : A -> B) (l : list (ChunkType * A)) : f <$> collect l = collect ((fun kv : ChunkType * A => (kv.1, f kv.2)) <$> l).
Proof.
  unfold collect. rewrite <- (fmap_empty (M:=gmap ChunkType) f). generalize (∅ : gmap ChunkType A). induction l as [|[k a] l IH]; intros m; [done|].
  cbn. by rewrite IH, fmap_insert.
Qed.

(** Two files with the same name and the same chunks, but for their form. *)
Lemma loads_same_of a b m l : mmap_and_decode_mdd decode a = Ok m -> mmap_and_decode_mdd decode b = Ok (with_chunks m l) ->
  Forall2 rewritten (chunks m) l -> loads_same a b.
Proof.
  intros Ha Hb Hl li. unfold load_proto_data. rewrite Ha, Hb. cbn [mbind result_bind ecu_name with_chunks].
  set (f m := mapM (fun ci => l ← load_chunks lzma to_lowercase m ci; Ok (load_type ci, l)) li).
  assert (Hf : (fun kl : list (ChunkType * list Chunk) => (fun kv => (kv.1, forget_list kv.2)) <$> kl) <$> f (with_chunks m l) =
               (fun kl : list (ChunkType * list Chunk) => (fun kv => (kv.1, forget_list kv.2)) <$> kl) <$> f m).
  { apply mapM_forget. induction li as [|ci li IH]; constructor; [|done]. pose proof (rewritten_load_chunks m l ci Hl) as E.
    destruct (load_chunks _ _ (with_chunks m l) ci), (load_chunks _ _ m ci); cbn in *; unfold forget_list in E; congruence. }
  change (mapM _ li) with (f m) at 1. change (mapM _ li) with (f (with_chunks m l)).
  destruct (f m) as [k|], (f (with_chunks m l)) as [k'|]; cbn in *; try done; injection Hf as Hf; [|by f_equal].
  unfold forget_sizes. cbn. by rewrite !collect_fmap, Hf.
Qed.
End file_manager.

Lemma mapM_ok {E A B} (f : A -> result E B) l k : mapM f l = Ok k -> Forall2 (fun a b => f a = Ok b) l k.
Proof.
  revert k. induction l as [|a l IH]; intros k; cbn; [by intros [= <-]|].
  destruct (f a) as [b|] eqn:Ea; [|done]. cbn. destruct (mapM f l) as [k'|]; [|done]. cbn. intros [= <-].
  constructor; [done|by apply IH].
Qed.

Lemma with_dir_with_dir s c d d' : with_dir (with_dir s c d) c d' = with_dir s c d'.
Proof. unfold with_dir, with_collections. cbn. by rewrite insert_insert_eq. Qed.
Lemma get_dir_with_dir s c d : get_dir (with_dir s c d) c = Some d.
Proof. apply lookup_insert_eq. Qed.
Lemma with_dir_id s c d : get_dir s c = Some d -> with_dir s c d = s.
Proof. intros H. unfold with_dir, with_collections. rewrite insert_id by done. by destruct s. Qed.

Lemma append_extension_ne k ext : append_extension k ext <> k.
Proof.
  unfold append_extension. induction k as [|a k IH]; [done|]. intros H. injection H as H. by apply IH.
Qed.

Section rewriting.
Context (decode : list Z -> option MddFile) (encode : MddFile -> option (list Z)).
Context (lzma : list Z -> option (list Z)) (sha512 : list Z -> list Z) (to_lowercase : string -> string).
Hypothesis Hcodec : forall m b, encode m = Some b -> decode b = Some m.

Abbreviation read := (mmap_and_decode_mdd decode).
Abbreviation same := (loads_same decode lzma to_lowercase).
Abbreviation new_file := (decompressed_file decode encode lzma sha512 to_lowercase).
Abbreviation update := (update_mdd_uncompressed decode encode lzma sha512 to_lowercase).

Lemma read_written m b : encode m = Some b -> read (Some (file_magic_bytes ++ b)) = Ok m.
Proof.
  intros Hb. unfold mmap_and_decode_mdd. cbn [ok_or mbind result_bind].
  assert (Hs : slice (file_magic_bytes ++ b) 0 (Z.of_nat FILE_MAGIC_BYTES_LEN) = Some file_magic_bytes).
  { unfold slice. rewrite len_app. assert (len file_magic_bytes = 20)%Z as -> by done.
    pose proof (len_nonneg b). change (Z.of_nat FILE_MAGIC_BYTES_LEN) with 20%Z.
    replace (20 <=? 20 + len b)%Z with true by lia. reflexivity. }
  rewrite Hs. cbn [ok_or mbind result_bind]. rewrite bool_decide_eq_true_2 by done.
  change (drop FILE_MAGIC_BYTES_LEN (file_magic_bytes ++ b)) with b. by rewrite (Hcodec m b Hb).
Qed.

Lemma new_file_ok v es out : new_file v = Ok (Some (es, out)) ->
  exists m l, read v = Ok m /\ Forall2 (fun c c' => decompress_chunk lzma to_lowercase c = Ok c') (chunks m) l /\
    read (Some out) = Ok (with_chunks m l) /\ es = fmap sha512 <$> (chunk_data <$> l).
Proof.
  unfold decompressed_file. destruct (read v) as [m|] eqn:Hm; [|done]. cbn [mbind result_bind].
  destruct (existsb _ _); [|done]. destruct v as [v|]; [|done]. cbn [ok_or mbind result_bind].
  assert (decode (drop FILE_MAGIC_BYTES_LEN v) = Some m) as ->.
  { revert Hm. unfold mmap_and_decode_mdd. cbn [ok_or mbind result_bind]. destruct (slice _ _ _); [|done]. cbn [ok_or mbind result_bind]. case_bool_decide; [|done].
    destruct (decode _); [|done]. by intros [= <-]. }
  cbn [ok_or mbind result_bind]. destruct (mapM _ (chunks m)) as [l|] eqn:Hl; [|done]. cbn [ok_or mbind result_bind].
  destruct (encode _) as [b|] eqn:Hb; [|done]. intros [= <- <-]. exists m, l.
  repeat split; [by apply mapM_ok|by apply read_written].
Qed.

Lemma verified es out m l : read (Some out) = Ok (with_chunks m l) -> es = fmap sha512 <$> (chunk_data <$> l) ->
  verify_mdd_chunk_checksums decode sha512 (Some out) es = Ok ().
Proof.
  intros Hr ->. unfold verify_mdd_chunk_checksums. rewrite Hr. cbn [mbind result_bind chunks with_chunks].
  rewrite bool_decide_eq_false_2; [|rewrite !length_fmap; by intros []].
  assert (forallb (fun '(c, e) => bool_decide (sha512 <$> chunk_data c = e)) (zip l (fmap sha512 <$> (chunk_data <$> l))) = true) as ->; [|done].
  clear Hr. induction l as [|c l IH]; [done|]. cbn. rewrite bool_decide_eq_true_2 by done. exact IH.
Qed.

(** The directory after [k] was rewritten. *)
Definition rewritten_file (k : string) (d : dir) : dir :=
  match new_file (d !! k) with Ok (Some (_, out)) => <[k := out]> (delete (append_extension k "tmp") d) | _ => d end.

Lemma rewritten_file_same k d : same (d !! k) (rewritten_file k d !! k).
Proof using Hcodec.
  unfold rewritten_file. destruct (new_file (d !! k)) as [[[es out]|]|] eqn:Hnew; [|apply loads_same_refl..].
  destruct (new_file_ok _ _ _ Hnew) as (m & l & Hm & Hl & Hout & _). rewrite lookup_insert_eq. by eapply loads_same_of.
Qed.

(** The directory [d] with another [k] that loads the same, and a temporary
    file perhaps. *)
Definition rewriting (c k : string) (s : fs) (d : dir) (u : fs) : Prop :=
  exists d', u = with_dir s c d' /\ (is_Some (d !! k) -> is_Some (d' !! k)) /\ same (d !! k) (d' !! k) /\
    forall k', k' <> k -> k' <> append_extension k "tmp" -> d' !! k' = d !! k'.

Lemma update_runs c k s d : get_dir s c = Some d ->
  runs (update c k) s (rewriting c k s d)
    (fun r u => match new_file (d !! k) with
      | Ok (Some (_, out)) => r = Ok true /\ u = with_dir s c (<[k := out]> (delete (append_extension k "tmp") d))
      | Ok None => r = Ok false /\ u = s
      | Err e => r = Err e /\ u = s
      end) (fun _ _ => False).
Proof.
  intros Hd. assert (Hk : get_file s c k = d !! k) by (unfold get_file; by rewrite Hd).
  unfold update_mdd_uncompressed. apply runs_bind, runs_query. rewrite Hk. set (tmp := append_extension k "tmp").
  assert (Htmp : tmp <> k) by apply append_extension_ne.
  destruct (new_file (d !! k)) as [[[es out]|]|] eqn:Hnew; [|by apply runs_ret..].
  destruct (new_file_ok _ _ _ Hnew) as (m & l & Hm & Hl & Hout & Hes).
  assert (Hstage : forall v, rewriting c k s d (with_dir s c (<[tmp := v]> d))).
  { intros v. exists (<[tmp := v]> d). split; [done|]. rewrite lookup_insert_ne by done. split; [done|].
    split; [apply loads_same_refl|intros k' ? ?; by rewrite lookup_insert_ne]. }
  apply runs_bind, runs_try, runs_bind. unfold put_file. apply runs_call. rewrite Hd. split; [apply Hstage|].
  apply runs_call. rewrite get_dir_with_dir, with_dir_with_dir, insert_insert_eq. split; [apply Hstage|].
  apply runs_bind, runs_query. unfold get_file at 1. rewrite get_dir_with_dir. cbn [mbind option_bind].
  rewrite lookup_insert_eq, (verified es out m l) by done.
  apply runs_bind, runs_try, runs_call. rewrite get_dir_with_dir, lookup_insert_eq.
  rewrite with_dir_with_dir, delete_insert_eq. split; [|by apply runs_ret].
  exists (<[k := out]> (delete tmp d)). split; [done|]. rewrite lookup_insert_eq. split; [by eexists|].
  split; [by eapply loads_same_of|]. intros k' ? ?. by rewrite lookup_insert_ne, lookup_delete_ne.
Qed.

Lemma decompressed_uncompressed l l' :
  Forall2 (fun c c' => decompress_chunk lzma to_lowercase c = Ok c') l l' ->
  Forall (fun c => is_Some (chunk_data c) -> compression_algorithm c = None) l'.
Proof.
  induction 1 as [|c c' l l' Hc _ IH]; constructor; [|done]. revert Hc. unfold decompress_chunk.
  destruct (chunk_data c) as [data|] eqn:E; [|intros [= <-]; rewrite E; by intros []].
  cbn. destruct (decompress_chunk_data _ _ _ _); [|done]. by intros [= <-].
Qed.
End rewriting.

(** C23: rewriting a database file uncompressed is atomic and keeps its contents,
    all but the sizes that are recorded for its chunks, which are lost.  Wherever
    it is interrupted, every load from the file gives what it gave before, these
    sizes apart, and no other file but its temporary one is touched.  It always returns: [true] with the file replaced, no temporary file left and
    no compressed chunk data in it, otherwise with nothing changed. *)
Theorem mdd_rewrite_is_atomic decode encode lzma sha512 to_lowercase c k s d :
  (forall m b, encode m = Some b -> decode b = Some m) -> get_dir s c = Some d ->
  let run := update_mdd_uncompressed decode encode lzma sha512 to_lowercase c k in
  (forall u, u ∈ crash_states run s -> exists d', u = with_dir s c d' /\ (is_Some (d !! k) -> is_Some (d' !! k)) /\
    loads_same decode lzma to_lowercase (d !! k) (d' !! k) /\
    forall k', k' <> k -> k' <> append_extension k "tmp" -> d' !! k' = d !! k') /\
  exists r, run_result run s = Ok r /\
    match r with
    | Ok true => exists m l out, mmap_and_decode_mdd decode (d !! k) = Ok m /\
        mmap_and_decode_mdd decode (Some out) = Ok (with_chunks m l) /\
        Forall2 (fun c c' => decompress_chunk lzma to_lowercase c = Ok c') (chunks m) l /\
        Forall (fun c => is_Some (chunk_data c) -> compression_algorithm c = None) l /\
        run_state run s = with_dir s c (<[k := out]> (delete (append_extension k "tmp") d))
    | _ => run_state run s = s
    end.
Proof.
  intros Hcodec Hd run. pose proof (update_runs decode encode lzma sha512 to_lowercase Hcodec c k s d Hd) as Hr. split.
  - intros u Hu. refine (runs_crash _ s _ _ _ u Hr _ Hu). exists d. rewrite with_dir_id by done.
    split; [done|]. split; [done|]. split; [apply loads_same_refl|done].
  - destruct (runs_ok _ _ _ _ Hr) as (r & Hres & Hst). exists r. split; [done|].
    destruct (decompressed_file _ _ _ _ _ (d !! k)) as [[[es out]|]|] eqn:Hnew; destruct Hst as [-> Hst]; [|done..].
    destruct (new_file_ok _ _ _ _ _ Hcodec _ _ _ Hnew) as (m & l & Hm & Hl & Hout & _).
    exists m, l, out. do 3 (split; [done|]). split; [by eapply decompressed_uncompressed|done].
Qed.

(** A codec of some messages: their position. *)
Definition sample_encode (t : list MddFile) (m : MddFile) : option (list Z) :=
  (fun '(i, _) => [Z.of_nat i]) <$> list_find (fun x => x = m) t.
Definition sample_decode (t : list MddFile) (b : list Z) : option MddFile :=
  match b with [z] => t !! Z.to_nat z | _ => None end.

Lemma sample_codec t m b : sample_encode t m = Some b -> sample_decode t b = Some m.
Proof.
  unfold sample_encode, sample_decode. destruct (list_find _ t) as [[i x]|] eqn:E; [|done]. intros [= <-].
  apply list_find_Some in E as (Hi & -> & _). by rewrite Nat2Z.id.
Qed.

Definition sample_chunk (n : string) (alg : option string) (size : option Z) (data : list Z) : ProtoChunk :=
  mk_chunk 1 (Some n) ∅ [] alg size None None (Some data).
Definition sample_mdd (l : list ProtoChunk) : MddFile := mk_mdd "1" [] "ECU" None ∅ l None.

(** A file compressed (by reversing it) and the same uncompressed. *)
Definition packed_mdd : MddFile := sample_mdd [sample_chunk "boot.bin" (Some "lzma") (Some 2%Z) [2%Z; 1%Z]].
Definition plain_mdd : MddFile := sample_mdd [sample_chunk "boot.bin" None None [1%Z; 2%Z]].
Definition sample_dir : dir := {[ "ecu.mdd" := file_magic_bytes ++ [0%Z] ]}.
Definition sample_update : io (mresult bool) :=
  update_mdd_uncompressed (sample_decode [packed_mdd; plain_mdd]) (sample_encode [packed_mdd; plain_mdd])
    (fun l => Some (rev l)) id id "db" "ecu.mdd".

Lemma mdd_rewrite_is_atomic_witness :
  run_result sample_update (mk_fs {[ "db" := sample_dir ]} ∅ None) = Ok (Ok true) /\
  exists d', run_state sample_update (mk_fs {[ "db" := sample_dir ]} ∅ None) = mk_fs {[ "db" := d' ]} ∅ None /\
    loads_same (sample_decode [packed_mdd; plain_mdd]) (fun l => Some (rev l)) id (sample_dir !! "ecu.mdd") (d' !! "ecu.mdd").
Proof.
  assert (Hres : run_result sample_update (mk_fs {[ "db" := sample_dir ]} ∅ None) = Ok (Ok true)) by (vm_compute; reflexivity).
  split; [done|].
  destruct (mdd_rewrite_is_atomic (sample_decode [packed_mdd; plain_mdd]) (sample_encode [packed_mdd; plain_mdd])
    (fun l => Some (rev l)) id id "db" "ecu.mdd" (mk_fs {[ "db" := sample_dir ]} ∅ None) sample_dir) as [Hcrash _];
    [apply sample_codec|reflexivity|].
  destruct (Hcrash (run_state sample_update (mk_fs {[ "db" := sample_dir ]} ∅ None))) as (d' & Hd' & _ & Hs & _).
  - unfold sample_update. unfold crash_states, run_state. vm_compute. repeat (first [left|right]).
  - exists d'. split; [rewrite Hd'|done]. unfold with_dir, with_collections. cbn. by rewrite insert_singleton_eq.
Defined.

(** ** The files are served as they are in the database *)

Inductive file_event : Type :=
  | Access (now : Z) (id : string)
  | Round (now : Z)
  | Rewritten (mdd : option file).

Section files.
Context (decode : list Z -> option MddFile) (lzma : list Z -> option (list Z)) (to_lowercase : string -> string).

Abbreviation get := (get decode lzma to_lowercase).
Abbreviation load_data_of := (load_chunk_data decode lzma to_lowercase).
Abbreviation same := (loads_same decode lzma to_lowercase).

(** One event: the cache and the database file. *)
Definition file_step (st : FileManager * option file) (e : file_event) : FileManager * option file :=
  match e with
  | Access now id => ((get st.1 now st.2 id).2, st.2)
  | Round now => ((expire now st.1).2, st.2)
  | Rewritten mdd => (st.1, mdd)
  end.

Definition forgotten (c : Chunk) : Chunk := mk_loaded None (meta_data c).

Lemma load_data_forgotten mdd c : load_data_of mdd (forgotten c) = load_data_of mdd c.
Proof. done. Qed.

Lemma load_data_same a b c : same a b -> load_data_of a c = load_data_of b c.
Proof.
  intros H. unfold load_chunk_data. cbv zeta.
  set (config := {| load_type := _; load_data := _; load_name := _ |}). specialize (H [config]).
  assert (Hpay : forall l : list Chunk, head l ≫= payload = head (forget_list l) ≫= payload) by (by intros [|c' l]).
  assert (Hmap : forall data t, (data !! t ≫= head) ≫= payload = (forget_map data !! t ≫= head) ≫= payload).
  { intros data t. unfold forget_map. rewrite lookup_fmap. destruct (data !! t) as [l|]; [|done]. apply Hpay. }
  unfold forget_sizes in H.
  destruct (load_proto_data _ _ _ a _) as [[na da]|], (load_proto_data _ _ _ b _) as [[nb db]|]; cbn in H; try done.
  - injection H as _ H. change (forget_map da = forget_map db) in H. by rewrite (Hmap da), (Hmap db), H.
  - by injection H as ->.
Qed.

(** The entry [e] of a file [c]: what it holds is what is in the database, and
    was accessed. *)
Definition entry_ok (mdd : option file) (c : Chunk) (e : CacheEntry) : Prop :=
  forgotten (chunk e) = forgotten c /\
  forall p, payload (chunk e) = Some p -> load_data_of mdd c = Ok p /\ is_Some (last_accessed e).

Lemma get_entry mdd now c e id fm : entry_ok mdd c e -> fm !! id = Some e ->
  (get fm now mdd id).1 = (fun p => (meta_data c, p)) <$> load_data_of mdd c /\
  exists e', (get fm now mdd id).2 = <[id := e']> fm /\ entry_ok mdd c e' /\ last_accessed e' = Some now.
Proof.
  intros [Hc Hp] He. unfold get. rewrite He. unfold load_chunk.
  assert (Hm : meta_data (chunk e) = meta_data c) by (by injection Hc).
  destruct (payload (chunk e)) as [p|] eqn:E.
  - destruct (Hp p eq_refl) as [-> _]. rewrite Hm. split; [done|]. eexists. split; [done|]. split; [|done].
    split; [done|]. intros q Hq. cbn in Hq. rewrite E in Hq. injection Hq as <-. split; [by apply Hp|by eexists].
  - assert (load_data_of mdd (chunk e) = load_data_of mdd c) as -> by (by rewrite <- load_data_forgotten, Hc).
    destruct (load_data_of mdd c) as [p|err] eqn:El; rewrite ?Hm; (split; [done|]; eexists; split; [done|]; split; [|done]).
    + split; [done|]. intros q [= <-]. split; [done|by eexists].
    + split; [done|]. intros q Hq. cbn in Hq. congruence.
Qed.

Lemma expire_entry_ok mdd now c e : entry_ok mdd c e -> entry_ok mdd c (expire_entry now e).2.
Proof.
  intros He. unfold expire_entry. destruct (last_accessed e) as [t|] eqn:Et; [|done].
  destruct (_ <=? _)%Z; [done|]. split; [apply He|done].
Qed.

Lemma file_step_ok id c e st mdd ev : entry_ok mdd c e -> st.1 !! id = Some e -> same mdd st.2 ->
  (forall mdd', ev = Rewritten mdd' -> same mdd mdd') ->
  exists e', (file_step st ev).1 !! id = Some e' /\ entry_ok mdd c e' /\ same mdd (file_step st ev).2.
Proof.
  intros He Hid Hs Hev. destruct st as [fm now_mdd]. cbn [fst snd] in *. destruct ev as [now id'|now|mdd'].
  - unfold file_step. cbn [fst snd]. destruct (decide (id' = id)) as [->|Hne].
    + assert (He' : entry_ok now_mdd c e).
      { split; [apply He|]. intros p Hp. rewrite <- (load_data_same mdd now_mdd c Hs). by apply He. }
      destruct (get_entry now_mdd now c e id fm He' Hid) as (_ & e' & -> & [Hf Hp'] & _). exists e'. rewrite lookup_insert_eq.
      split; [done|]. split; [|done]. split; [done|]. intros p Hp. rewrite (load_data_same mdd now_mdd c Hs). by apply Hp'.
    + exists e. split; [|done]. unfold get. destruct (fm !! id'); [|done]. destruct (load_chunk _ _ _ _ _) as [r ch]. cbn [fst snd].
      by rewrite lookup_insert_ne.
  - exists (expire_entry now e).2. cbn. rewrite lookup_fmap, Hid. split; [done|]. split; [by apply expire_entry_ok|done].
  - exists e. cbn. split; [done|]. split; [done|]. by apply Hev.
Qed.

Abbreviation run_events := (foldl file_step).

Lemma run_events_ok id c mdd evs e st : entry_ok mdd c e -> st.1 !! id = Some e -> same mdd st.2 ->
  (forall mdd', Rewritten mdd' ∈ evs -> same mdd mdd') ->
  exists e', (run_events st evs).1 !! id = Some e' /\ entry_ok mdd c e' /\ same mdd (run_events st evs).2.
Proof.
  revert e st. induction evs as [|ev evs IH]; intros e st He Hid Hs Hev; [by exists e|].
  destruct (file_step_ok id c e st mdd ev He Hid Hs) as (e' & Hid' & He' & Hs'); [intros mdd' ->; apply Hev; left|].
  cbn. apply (IH e'); [done..|]. intros mdd' Hm. apply Hev. by right.
Qed.

Lemma run_events_none id evs st : st.1 !! id = None -> (run_events st evs).1 !! id = None.
Proof.
  revert st. induction evs as [|ev evs IH]; intros [fm mdd] Hid; [done|]. apply IH. cbn in Hid.
  destruct ev as [now id'|now|mdd']; cbn; [|by rewrite lookup_fmap, Hid|done].
  unfold get. destruct (fm !! id') as [e|] eqn:E; [|done]. destruct (load_chunk _ _ _ _ _) as [r ch]. cbn [fst snd].
  rewrite lookup_insert_ne; [done|congruence].
Qed.

Lemma expire_entry_bound now e p : payload (chunk (expire_entry now e).2) = Some p -> is_Some (last_accessed e) ->
  exists t, last_accessed (expire_entry now e).2 = Some t /\ (now - t <= cache_lifetime)%Z.
Proof.
  unfold expire_entry. intros Hp [t Ht]. rewrite Ht in *. destruct (Z.leb_spec (Z.max 0 (now - t)) cache_lifetime) as [Hle|]; [|done].
  exists t. split; [done|lia].
Qed.
End files.

(** C24: a file that is asked for is the one in the database.  Whatever happened
    before, accesses, rounds of the cache and rewritings of the database file
    that load the same, an access gives what loading the file's chunk from the
    database gives, and an unknown identifier is refused; and after a round of
    the cache, data is held for files accessed in the last five minutes only. *)
Theorem cached_files_are_current decode lzma to_lowercase fm mdd evs now id :
  (forall i e, fm !! i = Some e -> payload (chunk e) = None) ->
  (forall mdd', Rewritten mdd' ∈ evs -> loads_same decode lzma to_lowercase mdd mdd') ->
  let st := foldl (file_step decode lzma to_lowercase) (fm, mdd) evs in
  (get decode lzma to_lowercase st.1 now st.2 id).1 =
    match fm !! id with
    | None => Err InvalidParameter
    | Some e => (fun p => (meta_data (chunk e), p)) <$> load_chunk_data decode lzma to_lowercase mdd (chunk e)
    end /\
  forall e p, (expire now st.1).2 !! id = Some e -> payload (chunk e) = Some p ->
    exists t, last_accessed e = Some t /\ (now - t <= cache_lifetime)%Z.
Proof.
  intros Hnone Hev st. destruct (fm !! id) as [e|] eqn:Hid.
  - assert (He : entry_ok decode lzma to_lowercase mdd (chunk e) e).
    { split; [done|]. intros p Hp. rewrite (Hnone id e Hid) in Hp. done. }
    destruct (run_events_ok decode lzma to_lowercase id (chunk e) mdd evs e (fm, mdd) He Hid
      (loads_same_refl _ _ _ _) Hev) as (e' & Hid' & He' & Hs). fold st in Hid', Hs. split.
    + rewrite (load_data_same _ _ _ mdd st.2 (chunk e) Hs).
      refine (proj1 (get_entry _ _ _ st.2 now (chunk e) e' id st.1 _ Hid')).
      split; [apply He'|]. intros p Hp. rewrite <- (load_data_same _ _ _ mdd st.2 (chunk e) Hs). by apply He'.
    + intros x p Hx Hp. cbn in Hx. rewrite lookup_fmap, Hid' in Hx. injection Hx as <-. apply (expire_entry_bound now e' p); [done|].
      assert (exists q, payload (chunk e') = Some q) as [q Hq].
      { revert Hp. cbn. unfold expire_entry. destruct (last_accessed e'); [destruct (_ <=? _)%Z|]; by eauto. }
      by apply (proj2 He' q).
  - assert (Hn : st.1 !! id = None) by (by apply run_events_none). split.
    + unfold get. by rewrite Hn.
    + intros e p He. cbn in He. rewrite lookup_fmap, Hn in He. done.
Qed.

Definition boot_file : Chunk :=
  mk_loaded None {| type_ := CodeFile; name := "boot.bin"; uncompressed_size := 2; content_type := None |}.

Lemma cached_files_are_current_witness :
  let dec := sample_decode [packed_mdd; plain_mdd] in
  let unpack := fun l : list Z => Some (rev l) in
  let fm := new_file_manager ["id"] [boot_file] in
  let st := foldl (file_step dec unpack id) (fm, sample_dir !! "ecu.mdd") [Access 1 "id"; Round 2; Access 3 "x"] in
  (get dec unpack id st.1 4 st.2 "id").1 = Ok (meta_data boot_file, [1%Z; 2%Z]).
Proof.
  intros dec unpack fm st.
  destruct (cached_files_are_current dec unpack id fm (sample_dir !! "ecu.mdd") [Access 1 "id"; Round 2; Access 3 "x"] 4 "id") as [H _].
  - unfold fm, new_file_manager, collect. cbn. intros i e [[<- <-]|[_ Hi]]%lookup_insert_Some; [done|by rewrite lookup_empty in Hi].
  - intros mdd' Hm. exfalso. repeat (apply elem_of_cons in Hm as [Hm|Hm]; [done|]). by apply elem_of_nil in Hm.
  - unfold st. rewrite H. vm_compute. reflexivity.
Defined.

(** ** What the code does besides *)

Definition code_files (t : list MddFile) (mdd : option file) : mresult (option (list Chunk)) :=
  (fun nl : string * gmap ChunkType (list Chunk) => nl.2 !! CodeFile) <$> load_proto_data (sample_decode t) (fun l => Some (rev l)) id mdd
    [{| load_type := CodeFile; load_data := false; load_name := None |}].
Definition sizes (l : mresult (option (list Chunk))) : mresult (option (list Z)) :=
  (fun o : option (list Chunk) => (fun l : list Chunk => uncompressed_size ∘ meta_data <$> l) <$> o) <$> l.

(** After the rewriting the size of a file is unknown, and given as 0. *)
Example rewritten_size_is_lost :
  let s := mk_fs {[ "db" := sample_dir ]} ∅ None in
  sizes (code_files [packed_mdd; plain_mdd] (get_file s "db" "ecu.mdd")) = Ok (Some [2%Z]) /\
  sizes (code_files [packed_mdd; plain_mdd] (get_file (run_state sample_update s) "db" "ecu.mdd")) = Ok (Some [0%Z]).
Proof. split; vm_compute; reflexivity. Qed.

(** Of two files with the same name the second is listed and the first served. *)
Definition twin_mdd : MddFile := sample_mdd [sample_chunk "a" None None [1%Z]; sample_chunk "a" None None [2%Z]].

Example twin_files_are_confused :
  let mdd := Some (file_magic_bytes ++ [0%Z]) in
  exists first second, code_files [twin_mdd] mdd = Ok (Some [first; second]) /\
    load_chunk_data (sample_decode [twin_mdd]) Some id mdd second = Ok [1%Z].
Proof. vm_compute. by eexists _, _. Qed.

(** A file without a name is listed and cannot be served. *)
Definition unnamed_mdd : MddFile := sample_mdd [mk_chunk 1 None ∅ [] None None None None (Some [1%Z])].

Example unnamed_file_is_not_served :
  let mdd := Some (file_magic_bytes ++ [0%Z]) in
  exists c, code_files [unnamed_mdd] mdd = Ok (Some [c]) /\
    load_chunk_data (sample_decode [unnamed_mdd]) Some id mdd c = Err MissingData.
Proof. vm_compute. by eexists. Qed.
