(* ===== verification/Naming.v ===== *)
(** * Names of services

    How the names of the API relate to the short names of the database:
    [DiagComm] and its type (cda-interfaces/src/lib.rs, uds.rs), the comparisons
    without regard to ASCII case (util.rs) and the affixes of
    datatypes/database_naming_convention.rs.  A [string] here is the UTF-8
    encoding of the source's. *)

From stdpp Require Import strings gmap pretty.
From stdpp Require Import list.
From S2P Require Import Prelude Bytes Errors Text StateCharts Database Uds.

Local Open Scope Z_scope.
Set Warnings "-register-all".

(** ** Slices of strings *)

Definition byte_len (s : string) : nat := String.length s.

Definition is_continuation (c : Ascii.ascii) : bool := in_range 128 (Z.of_N (Ascii.N_of_ascii c)) 191.

(** [str::is_char_boundary]. *)
Definition is_char_boundary (s : string) (n : nat) : bool :=
  match n with
  | O => true
  | _ => match String.get n s with
         | Some c => negb (is_continuation c)
         | None => (n =? byte_len s)%nat
         end
  end.

(** [s.get(..n)] and [s.get(n..)]. *)
Definition str_to (s : string) (n : nat) : option string :=
  if is_char_boundary s n then Some (String.substring 0 n s) else None.
Definition str_from (s : string) (n : nat) : option string :=
  if is_char_boundary s n then Some (String.substring n (byte_len s - n) s) else None.

Definition starts_with (s p : string) : bool := String.prefix p s.
Definition ends_with (s p : string) : bool :=
  (byte_len p <=? byte_len s)%nat && String.eqb (String.substring (byte_len s - byte_len p) (byte_len p) s) p.

(** [eq_ignore_ascii_case] is [same_name]. *)
Definition starts_with_ignore_ascii_case (text prefix : string) : bool :=
  (byte_len prefix <=? byte_len text)%nat
  && match str_to text (byte_len prefix) with Some s => same_name s prefix | None => false end.

Definition ends_with_ignore_ascii_case (text suffix : string) : bool :=
  (byte_len suffix <=? byte_len text)%nat
  && match str_from text (byte_len text - byte_len suffix) with Some s => same_name s suffix | None => false end.

(** Compares the bytes of every window. *)
Definition contains_ignore_ascii_case (text needle : string) : bool :=
  if (byte_len needle =? 0)%nat then true
  else if (byte_len text <? byte_len needle)%nat then false
  else existsb (fun i => same_name (String.substring i (byte_len needle) text) needle)
         (seq 0 (byte_len text - byte_len needle + 1)).

(** ** [DiagComm] of the API *)

Inductive DiagCommType : Type := Configurations | Data | Faults | Modes | Operations.

Inductive DiagCommAction : Type := Read | Write | Start | RequestResults | Stop.

#[export] Instance DiagCommType_eq_dec : EqDecision DiagCommType.
Proof. solve_decision. Defined.

Definition CLEAR_DIAGNOSTIC_INFORMATION : Z := 20.
Definition READ_DATA_BY_LOCAL_IDENTIFIER : Z := 33.
Definition REQUEST_DOWNLOAD : Z := 52.
Definition TRANSFER_DATA : Z := 54.
Definition REQUEST_TRANSFER_EXIT : Z := 55.

Definition service_prefixes (self : DiagCommType) : list Z :=
  match self with
  | Configurations => [WRITE_DATA_BY_IDENTIFIER]
  | Data => [READ_DATA_BY_LOCAL_IDENTIFIER; READ_DATA_BY_IDENTIFIER]
  | Faults => [CLEAR_DIAGNOSTIC_INFORMATION; READ_DTC_INFORMATION]
  | Modes => [SESSION_CONTROL; ECU_RESET; SECURITY_ACCESS; COMMUNICATION_CONTROL; AUTHENTICATION; CONTROL_DTC_SETTING]
  | Operations =>
      [INPUT_OUTPUT_CONTROL_BY_IDENTIFIER; ROUTINE_CONTROL; REQUEST_DOWNLOAD; TRANSFER_DATA; REQUEST_TRANSFER_EXIT]
  end.

Definition DiagCommType_try_from (value : Z) : dresult DiagCommType :=
  if value =? WRITE_DATA_BY_IDENTIFIER then Ok Configurations
  else if (value =? READ_DATA_BY_LOCAL_IDENTIFIER) || (value =? READ_DATA_BY_IDENTIFIER) then Ok Data
  else if (value =? CLEAR_DIAGNOSTIC_INFORMATION) || (value =? READ_DTC_INFORMATION) then Ok Faults
  else if bool_decide (value ∈ [SESSION_CONTROL; ECU_RESET; SECURITY_ACCESS; COMMUNICATION_CONTROL; AUTHENTICATION;
                                CONTROL_DTC_SETTING]) then Ok Modes
  else if bool_decide (value ∈ [INPUT_OUTPUT_CONTROL_BY_IDENTIFIER; ROUTINE_CONTROL; REQUEST_DOWNLOAD; TRANSFER_DATA;
                                REQUEST_TRANSFER_EXIT]) then Ok Operations
  else Err InvalidRequest.

(** [From<DiagCommType> for DiagCommAction]. *)
Definition action_of (value : DiagCommType) : DiagCommAction :=
  match value with
  | Configurations => Write
  | Data => Read
  | Faults | Modes | Operations => Start
  end.

(** [cda_interfaces::DiagComm]: what the API asks for. *)
Record ApiDiagComm : Type := {
  name : string;
  type_ : DiagCommType;
  lookup_name : option string;
  subfunction_id : option Z
}.

Definition ApiDiagComm_new (name : string) (type_ : DiagCommType) : ApiDiagComm :=
  {| name := name; type_ := type_; lookup_name := Some name; subfunction_id := None |}.

Definition action (self : ApiDiagComm) : DiagCommAction := action_of (type_ self).

(** [TryInto<cda_interfaces::DiagComm> for DiagService]. *)
Definition service_try_into (self : DiagService) : dresult ApiDiagComm :=
  dc ← ok_or (diag_comm self) InvalidDatabase;
  n ← ok_or (comm_short_name dc) InvalidDatabase;
  service_id ← ok_or (request_id self) InvalidDatabase;
  t ← DiagCommType_try_from service_id;
  Ok {| name := n; type_ := t; lookup_name := Some n; subfunction_id := None |}.

(** ** The naming convention *)

Inductive DiagnosticServiceAffixPosition : Type := Prefix | Suffix.

#[export] Instance DiagnosticServiceAffixPosition_eq_dec : EqDecision DiagnosticServiceAffixPosition.
Proof. solve_decision. Defined.

Record DiagCommActionAffixes : Type := {
  affix_position : DiagnosticServiceAffixPosition;
  affix_read : string;
  affix_write : string;
  affix_start : string;
  affix_request_results : string;
  affix_stop : string
}.

Record Semantics : Type := {
  semantic_data : string;
  semantic_service_id_rq : string;
  semantic_session : string;
  semantic_security : string
}.

(** The keys of [service_affixes] are service identifiers in decimal. *)
Record DatabaseNamingConvention : Type := {
  short_name_affix_position : DiagnosticServiceAffixPosition;
  long_name_affix_position : DiagnosticServiceAffixPosition;
  short_name_affixes : list string;
  long_name_affixes : list string;
  service_affixes : gmap string (DiagnosticServiceAffixPosition * list string);
  action_affixes : DiagCommActionAffixes;
  semantics : Semantics
}.

Definition validate_affix (pos : DiagnosticServiceAffixPosition) (affix : string) : bool :=
  match pos with
  | Prefix => negb (starts_with affix " ")
  | Suffix => negb (ends_with affix " ")
  end.

(** Whether [validate_sanity] is [Ok]. *)
Definition validate_sanity (self : DatabaseNamingConvention) : bool :=
  forallb (validate_affix (short_name_affix_position self)) (short_name_affixes self)
  && forallb (validate_affix (long_name_affix_position self)) (long_name_affixes self)
  && forallb (fun '(_, (pos, affixes)) => forallb (validate_affix pos) affixes) (map_to_list (service_affixes self)).

Definition DiagCommActionAffixes_default : DiagCommActionAffixes :=
  {| affix_position := Suffix; affix_read := "_Read"; affix_write := "_Write"; affix_start := "_Start";
     affix_request_results := "_RequestResults"; affix_stop := "_Stop" |}%string.

Definition Semantics_default : Semantics :=
  {| semantic_data := "DATA"; semantic_service_id_rq := "SERVICEIDRQ"; semantic_session := "SESSION";
     semantic_security := "SECURITY" |}%string.

Definition DatabaseNamingConvention_default : DatabaseNamingConvention :=
  {| short_name_affix_position := Suffix;
     long_name_affix_position := Suffix;
     short_name_affixes := ["_read"; "_write"; "_read_dump"; "_write_dump"; "_dump"; "_read_func"; "_write_func";
       "_read_dump_func"; "_write_dump_func"; "_dump_func"; "_control_func"; "_control"];
     long_name_affixes := [" read"; " write"; " read dump"; " write dump"; " dump"; " read func"; " write func";
       " read dump func"; " write dump func"; " dump func"; " control func"; " control"];
     service_affixes := {[ pretty CONTROL_DTC_SETTING := (Prefix, ["DTC_Setting_Mode_"]);
       pretty ROUTINE_CONTROL := (Suffix, ["_start"; "_stop"; "_requestresults"; "_start_func"; "_stop_func";
         "_requestresults_func"]) ]};
     action_affixes := DiagCommActionAffixes_default;
     semantics := Semantics_default |}%string.

(** What is left of [n] without an affix, if it has it; [lower] is [n] in lower
    case and [len] the length that is cut off. *)
Definition trim_affix (pos : DiagnosticServiceAffixPosition) (lower n affix : string) (len : nat) : option string :=
  match pos with
  | Prefix => if starts_with lower affix then Some (default n (str_from n len)) else None
  | Suffix => if ends_with lower affix then Some (default n (str_to n (byte_len n - len))) else None
  end.

Section naming.
(** [str::to_lowercase], with all of Unicode. *)
Context (to_lowercase : string -> string).

Definition trim_long_name_affixes (self : DatabaseNamingConvention) (long_name : string) : string :=
  default long_name (find_map
    (fun affix => trim_affix (long_name_affix_position self) (to_lowercase long_name) long_name affix (byte_len affix))
    (long_name_affixes self)).

Definition trim_short_name_affixes (self : DatabaseNamingConvention) (short_name : string) : string :=
  default short_name (find_map
    (fun affix => trim_affix (short_name_affix_position self) (to_lowercase short_name) short_name affix (byte_len affix))
    (short_name_affixes self)).

Definition trim_service_name_affixes (self : DatabaseNamingConvention) (service_id : Z) (short_name : string) : string :=
  match service_affixes self !! pretty service_id with
  | None => short_name
  | Some (position, affixes) =>
      default short_name (find_map
        (fun affix => trim_affix position (to_lowercase short_name) short_name (to_lowercase affix) (byte_len affix))
        affixes)
  end.

Definition trim_routine_name (self : DatabaseNamingConvention) (name : string) : string :=
  trim_short_name_affixes self (trim_service_name_affixes self ROUTINE_CONTROL name).

Definition apply_action_affix (self : DatabaseNamingConvention) (name : string) (action : DiagCommAction) : string :=
  let affixes := action_affixes self in
  let affix := match action with
               | Read => affix_read affixes
               | Write => affix_write affixes
               | Start => affix_start affixes
               | RequestResults => affix_request_results affixes
               | Stop => affix_stop affixes
               end in
  match affix_position affixes with
  | Prefix => affix +:+ name
  | Suffix => name +:+ affix
  end.
End naming.

(** ** Lemmas *)

(** The prefixes of a type and the type of a prefix are the same table. *)
Lemma try_from_prefixes value t : DiagCommType_try_from value = Ok t <-> value ∈ service_prefixes t.
Proof.
  assert (Hin : forall l, bool_decide (value ∈ l) = existsb (Z.eqb value) l).
  { induction l as [|k l IH]; [done|]. cbn. rewrite <- IH.
    destruct (Z.eqb_spec value k) as [->|]; [by apply bool_decide_eq_true_2; left|].
    apply bool_decide_ext. rewrite elem_of_cons. split; [intros [?|?]; [congruence|done]|by right]. }
  unfold DiagCommType_try_from. rewrite !Hin, <- (bool_decide_eq_true (_ ∈ service_prefixes t)), Hin. clear Hin.
  cbn [existsb]. repeat (match goal with |- context [?a =? ?b] => destruct (Z.eqb_spec a b) as [->|] end; [by destruct t|]).
  by destruct t; cbn; rewrite ?(proj2 (Z.eqb_neq value _)) by done.
Qed.

(** The own name of a service is a prefix of itself. *)
Lemma substring_full s : String.substring 0 (String.length s) s = s.
Proof. induction s as [|c s IH]; simpl; [done|by rewrite IH]. Qed.

Lemma starts_with_self s t : lowercase s = lowercase t -> String.length s = String.length t ->
  starts_with_ignore_ascii_case s t = true.
Proof.
  intros Hl Hn. unfold starts_with_ignore_ascii_case, str_to, is_char_boundary, byte_len. rewrite <- Hn, Nat.leb_refl.
  assert (Hget : String.get (String.length s) s = None) by (clear; induction s; simpl; auto).
  destruct (String.length s) as [|n] eqn:E.
  - destruct s; [|done]. cbn. by apply bool_decide_eq_true.
  - rewrite Hget, Nat.eqb_refl, <- E, substring_full. by apply bool_decide_eq_true.
Qed.
