(* ===== verification/ServiceLookup.v ===== *)
(** * Looking up services

    cda-core/src/diag_kernel/service_lookup.rs and diag_comm_lookup.rs: the
    services and jobs of the detected variant and of what it inherits, those of
    a functional group, and the lookup with its cache, which other lookups and
    changes of the variant interleave with. *)

From stdpp Require Import strings gmap pretty relations.
From stdpp Require Import list.
From S2P Require Import Prelude Bytes Errors Text StateCharts Database DiagLayers Uds EcuState VariantDetection Naming SampleDatabase.

Local Open Scope Z_scope.
Set Warnings "-register-all".

Inductive CacheLocation : Type := InVariant (idx : Z) | InParentRef (idx : Z).

Record CachedService : Type := {
  cached_variant_index : option Z;
  location : option CacheLocation
}.

(** The part of [EcuManager] the lookups use: the functional groups are those of
    the database file, the keys of the cache the strings that are interned. *)
Record Kernel : Type := {
  manager : EcuManager;
  file_groups : option (list ParentTable);
  db_cache : gmap string CachedService
}.

Definition with_cache (self : Kernel) (cache : gmap string CachedService) : Kernel :=
  {| manager := manager self; file_groups := file_groups self; db_cache := cache |}.
Definition with_manager (self : Kernel) (m : EcuManager) : Kernel :=
  {| manager := m; file_groups := file_groups self; db_cache := db_cache self |}.

Definition DbCache_reset (self : Kernel) : Kernel := with_cache self ∅.

Definition functional_groups (self : Kernel) : dresult (list ParentTable) :=
  _ ← ecu_data (manager self); ok_or (file_groups self) InvalidDatabase.

Definition current_variant_index (self : Kernel) : option Z := variant_index (ecu_state (manager self)).

Definition diag_comm_short_name_starts_with (service : DiagService) (name_prefix : string) : bool :=
  match service_name service with Some name => starts_with_ignore_ascii_case name name_prefix | None => false end.

(** ** Searching *)

(** [iter().enumerate().find_map(..)]. *)
Fixpoint find_index {A} (f : A -> bool) (i : Z) (l : list A) : option (A * Z) :=
  match l with
  | [] => None
  | a :: l => if f a then Some (a, i) else find_index f (i + 1) l
  end.

Definition variant_services (m : EcuManager) : option (list DiagService) :=
  v ← variant_or_base m; dl ← diag_layer v; diag_services dl.

Definition get_variant_parent_ref_services (m : EcuManager) : option (list DiagService) :=
  v ← variant_or_base m; refs ← parent_refs v; get_parent_ref_services_recursive refs.

Definition search_with_location (m : EcuManager) (predicate : DiagService -> bool) : option (DiagService * CacheLocation) :=
  match services ← variant_services m; find_index predicate 0 services with
  | Some (service, idx) => Some (service, InVariant idx)
  | None =>
      services ← get_variant_parent_ref_services m;
      '(service, idx) ← find_index predicate 0 services;
      Some (service, InParentRef idx)
  end.

(** A table vector panics when its index is out of range. *)
Definition get_service_by_location (m : EcuManager) (location : CacheLocation) : presult (option DiagService) :=
  match location with
  | InVariant idx => match variant_services m with
                     | None => Ok None
                     | Some services => s ← expect (get services idx); Ok (Some s)
                     end
  | InParentRef idx => Ok (services ← get_variant_parent_ref_services m; get services idx)
  end.

Definition layer_and_parents (m : EcuManager) : option (DiagLayer * list ParentRef) :=
  v ← variant_or_base m; dl ← diag_layer v; Some (dl, default [] (parent_refs v)).

Definition get_services_from_variant_and_parent_refs (m : EcuManager) (service_filter : DiagService -> bool) : list DiagService :=
  match layer_and_parents m with
  | Some (dl, refs) => get_services_from_diag_layer_and_parent_refs dl refs service_filter
  | None => []
  end.

Definition get_single_ecu_jobs_from_variant_and_parent_refs (m : EcuManager) (service_filter : SingleEcuJob -> bool)
    : list SingleEcuJob :=
  match layer_and_parents m with
  | Some (dl, refs) => get_single_ecu_jobs_from_diag_layer_and_parent_refs dl refs service_filter
  | None => []
  end.

Definition has_name (n : option string) (wanted : string) : bool :=
  match n with Some n => same_name n wanted | None => false end.

Definition get_services_from_functional_group_and_parent_refs (self : Kernel) (group_name : string)
    (service_filter : DiagService -> bool) : dresult (list DiagService) :=
  groups ← functional_groups self;
  group ← ok_or (List.find (fun g => has_name (dl ← table_layer g; layer_short_name dl) group_name) groups) NotFound;
  Ok (match table_layer group with
      | Some dl => get_services_from_diag_layer_and_parent_refs dl (table_parents group) service_filter
      | None => []
      end).

Definition lookup_services_by_sid (m : EcuManager) (service_id : Z) : dresult (list DiagService) :=
  match get_services_from_variant_and_parent_refs m (fun s => bool_decide (request_id s = Some service_id)) with
  | [] => Err NotFound
  | services => Ok services
  end.

(** ** The lookup with its cache *)

Definition hex_char (n : Z) : Ascii.ascii := Ascii.ascii_of_N (Z.to_N (hex_digit n)).

Section lookup.
Context (to_lowercase : string -> string) (convention : DatabaseNamingConvention).

Definition effective_mask (subfunction_mask : option Z) : Z := default DEFAULT_SUBFUNCTION_MASK subfunction_mask.

Definition query_name (diag_comm : ApiDiagComm) : string :=
  to_lowercase (default (apply_action_affix convention (name diag_comm) (action diag_comm)) (lookup_name diag_comm)).

Definition cache_key (diag_comm : ApiDiagComm) (subfunction_mask : option Z) : string :=
  match subfunction_id diag_comm with
  | Some sf_id =>
      let mask := effective_mask subfunction_mask in
      to_lowercase (name diag_comm) +:+ ":sf" +:+ pretty sf_id +:+ ":m"
        +:+ String (hex_char (mask / 16)) (String (hex_char (mask mod 16)) EmptyString)
  | None => query_name diag_comm
  end.

Definition of_type (diag_comm : ApiDiagComm) (service : DiagService) : bool :=
  match request_id service with Some sid => bool_decide (sid ∈ service_prefixes (type_ diag_comm)) | None => false end.

Definition predicate (diag_comm : ApiDiagComm) (subfunction_mask : option Z) (service : DiagService) : bool :=
  match subfunction_id diag_comm with
  | Some sf_id =>
      diag_comm_short_name_starts_with service (to_lowercase (name diag_comm))
      && of_type diag_comm service
      && match request_sub_function_id service with
         | Some (id, _) => Z.land id (effective_mask subfunction_mask) =? Z.land sf_id (effective_mask subfunction_mask)
         | None => false
         end
  | None => diag_comm_short_name_starts_with service (query_name diag_comm) && of_type diag_comm service
  end.

(** A lookup between its awaits: the index of the variant is read, the cache is
    read and searched, the result is written to the cache. *)
Inductive lookup_phase : Type :=
  | Begun (variant_index : option Z)
  | Found (variant_index : option Z) (location : CacheLocation) (service : DiagService)
  | Missing (variant_index : option Z)
  | Answered (r : presult DiagService).

Definition lookup_begin (self : Kernel) : lookup_phase := Begun (current_variant_index self).

Definition cached_location (self : Kernel) (lookup_id : string) (variant_index : option Z) : option CacheLocation :=
  cached ← db_cache self !! lookup_id;
  if bool_decide (cached_variant_index cached = variant_index) then location cached else None.

Definition cache_insert (self : Kernel) (lookup_id : string) (variant_index : option Z) (loc : option CacheLocation) : Kernel :=
  with_cache self (<[lookup_id := {| cached_variant_index := variant_index; location := loc |}]> (db_cache self)).

Definition lookup_step (diag_comm : ApiDiagComm) (mask : option Z) (self : Kernel) (phase : lookup_phase)
    : Kernel * lookup_phase :=
  let lookup_id := cache_key diag_comm mask in
  match phase with
  | Begun variant_index =>
      match cached_location self lookup_id variant_index with
      | Some cached => (self, Answered (s ← get_service_by_location (manager self) cached; fallible (ok_or s NotFound)))
      | None =>
          match search_with_location (manager self) (predicate diag_comm mask) with
          | Some (service, loc) => (self, Found (current_variant_index self) loc service)
          | None => (self, Missing variant_index)
          end
      end
  | Found variant_index loc service => (cache_insert self lookup_id variant_index (Some loc), Answered (Ok service))
  | Missing variant_index => (cache_insert self lookup_id variant_index None, Answered (Err (Failed NotFound)))
  | Answered _ => (self, phase)
  end.

(** Nothing interferes. *)
Definition lookup_diag_service (self : Kernel) (diag_comm : ApiDiagComm) (functional_group_name : option string)
    (subfunction_mask : option Z) : Kernel * presult DiagService :=
  match functional_group_name with
  | Some fg_name =>
      (self, fallible (services ← get_services_from_functional_group_and_parent_refs self fg_name
                                    (predicate diag_comm subfunction_mask);
                       ok_or (head services) NotFound))
  | None =>
      let '(self, phase) := lookup_step diag_comm subfunction_mask self (lookup_begin self) in
      let '(self, phase) := lookup_step diag_comm subfunction_mask self phase in
      (self, match phase with Answered r => r | _ => Err OutOfFuel end)
  end.

(** ** Other lookups *)

Definition lookup_single_ecu_job (self : Kernel) (name : string) : dresult SingleEcuJob :=
  ok_or (head (get_single_ecu_jobs_from_variant_and_parent_refs (manager self) (fun job => has_name (job_name job) name)))
    NotFound.

Definition in_func_class (func_class_name : string) (service : DiagService) : bool :=
  match dc ← diag_comm service; funct_class dc with
  | Some classes => existsb (fun fc => has_name fc func_class_name) classes
  | None => false
  end.

Definition lookup_service_through_func_class (m : EcuManager) (func_class_name : string) (service_id : Z) : dresult ApiDiagComm :=
  ok_or (service ← head (get_services_from_variant_and_parent_refs m (fun service =>
                          in_func_class func_class_name service && bool_decide (request_id service = Some service_id)));
         result_ok (service_try_into service))
    NotFound.

Definition prefix_service (service_id : Z) (service : DiagService) : option ApiDiagComm :=
  dc ← diag_comm service;
  short_name ← comm_short_name dc;
  type_ ← result_ok (DiagCommType_try_from service_id);
  Some {| name := trim_short_name_affixes to_lowercase convention short_name; type_ := type_;
          lookup_name := Some short_name; subfunction_id := None |}.

(** [filter] with a predicate that can fail. *)
Fixpoint filter_result {A} (f : A -> presult bool) (l : list A) : presult (list A) :=
  match l with
  | [] => Ok []
  | a :: l => b ← f a; rest ← filter_result f l; Ok (if b : bool then a :: rest else rest)
  end.

Definition lookup_diagcomms_by_request_prefix (m : EcuManager) (request_bytes : list Z) : presult (list ApiDiagComm) :=
  match request_bytes with
  | [] => Err (Failed NotFound)
  | service_id :: _ =>
      services ← fallible (lookup_services_by_sid m service_id);
      services ← filter_result (fun service => matches_request_prefix service request_bytes) services;
      match omap (prefix_service service_id) services with
      | [] => Err (Failed NotFound)
      | services => Ok services
      end
  end.

Definition sid_and_name_service (service_id : Z) (n : string) (service : DiagService) : option ApiDiagComm :=
  dc ← diag_comm service;
  short_name ← comm_short_name dc;
  let short_name_no_affix := trim_service_name_affixes to_lowercase convention service_id short_name in
  let matches := match short_name_affix_position convention with
                 | Suffix => starts_with_ignore_ascii_case short_name_no_affix n
                 | Prefix => ends_with_ignore_ascii_case short_name_no_affix n
                 end in
  if negb matches then None
  else
    type_ ← result_ok (DiagCommType_try_from service_id);
    Some {| name := short_name; type_ := type_; lookup_name := Some short_name; subfunction_id := None |}.

Definition lookup_service_by_sid_and_name (self : Kernel) (service_id : Z) (n : string)
    (functional_group_name : option string) : dresult ApiDiagComm :=
  services ← match functional_group_name with
             | Some fg_name => get_services_from_functional_group_and_parent_refs self fg_name
                                 (fun s => bool_decide (request_id s = Some service_id))
             | None => lookup_services_by_sid (manager self) service_id
             end;
  ok_or (find_map (sid_and_name_service service_id n) services) InvalidParameter.
End lookup.

(** ** Lemmas *)

Lemma find_index_spec {A} (f : A -> bool) i l a j : find_index f i l = Some (a, j) ->
  exists k, j = i + Z.of_nat k /\ l !! k = Some a /\ f a = true.
Proof.
  revert i. induction l as [|x l IH]; intros i; simpl; [done|]. destruct (f x) eqn:E.
  - intros [= <- <-]. exists O. split; [lia|done].
  - intros (k & -> & Hk & Hf)%IH. exists (S k). split; [lia|done].
Qed.

Lemma find_index_get {A} (f : A -> bool) (l : list A) a i : find_index f 0 l = Some (a, i) -> get l i = Some a.
Proof. intros (k & -> & Hk & _)%find_index_spec. unfold get. by rewrite Z.add_0_l, Nat2Z.id. Qed.

Lemma find_index_ext {A} (f g : A -> bool) i l : (forall a, f a = g a) -> find_index f i l = find_index g i l.
Proof. intros H. revert i. induction l as [|x l IH]; intros i; simpl; [done|]. by rewrite H, IH. Qed.

Lemma find_index_head {A} (f : A -> bool) i l : fst <$> find_index f i l = head (List.filter f l).
Proof. revert i. induction l as [|x l IH]; intros i; simpl; [done|]. by destruct (f x). Qed.

(** A search depends on the predicate's values, the database and the index. *)
Lemma search_ext m f g : (forall s, f s = g s) -> search_with_location m f = search_with_location m g.
Proof.
  intros H. unfold search_with_location.
  destruct (variant_services m) as [l|]; cbn [mbind option_bind];
    destruct (get_variant_parent_ref_services m) as [l'|]; cbn [mbind option_bind];
    by rewrite ?(find_index_ext f g 0 _ H).
Qed.

Lemma variant_or_base_same m m' : diag_database m = diag_database m' ->
  variant_index (ecu_state m) = variant_index (ecu_state m') -> variant_or_base m = variant_or_base m'.
Proof. intros Hd Hi. unfold variant_or_base, variant, base_variant, ecu_data. by rewrite Hd, Hi. Qed.

Lemma search_same m m' f : variant_or_base m = variant_or_base m' -> search_with_location m f = search_with_location m' f.
Proof. intros H. unfold search_with_location, variant_services, get_variant_parent_ref_services. by rewrite H. Qed.

Lemma unloaded_none m : diag_database m = None -> variant_or_base m = None.
Proof.
  intros H. unfold variant_or_base, variant, base_variant, ecu_data. rewrite H. cbn. by destruct (variant_index (ecu_state m)).
Qed.

(** What was found is at the location that is remembered. *)
Lemma location_found m f s loc : search_with_location m f = Some (s, loc) -> get_service_by_location m loc = Ok (Some s).
Proof.
  unfold search_with_location, get_service_by_location. destruct (variant_services m) as [l|]; cbn [mbind option_bind].
  - destruct (find_index f 0 l) as [[s' i]|] eqn:E; [intros [= <- <-]; by rewrite (find_index_get _ _ _ _ E)|].
    destruct (get_variant_parent_ref_services m) as [l'|]; cbn [mbind option_bind]; [|done].
    destruct (find_index f 0 l') as [[s' i]|] eqn:E'; [|done]. intros [= <- <-]. cbn. by rewrite (find_index_get _ _ _ _ E').
  - destruct (get_variant_parent_ref_services m) as [l'|]; cbn [mbind option_bind]; [|done].
    destruct (find_index f 0 l') as [[s' i]|] eqn:E'; [|done]. intros [= <- <-]. cbn. by rewrite (find_index_get _ _ _ _ E').
Qed.

Lemma unloaded_search m f loc : diag_database m = None ->
  search_with_location m f = None /\ get_service_by_location m loc = Ok None.
Proof.
  intros H%unloaded_none. unfold search_with_location, get_service_by_location, variant_services, get_variant_parent_ref_services.
  rewrite H. by destruct loc.
Qed.

Lemma location_same m m' loc : variant_or_base m = variant_or_base m' -> get_service_by_location m loc = get_service_by_location m' loc.
Proof. intros H. unfold get_service_by_location, variant_services, get_variant_parent_ref_services. by rewrite H. Qed.

(** A lookup that found a service finds it again. *)
Lemma lookup_again to_lowercase convention k dc mask s m :
  let '(k1, r) := lookup_diag_service to_lowercase convention k dc None mask in
  r = Ok s -> diag_database m = diag_database (manager k) -> ecu_state m = ecu_state (manager k) ->
  (lookup_diag_service to_lowercase convention (with_manager k1 m) dc None mask).2 = Ok s.
Proof.
  set (key := cache_key to_lowercase convention dc mask). unfold lookup_diag_service, lookup_begin.
  assert (Hans : forall k' r, lookup_step to_lowercase convention dc mask k' (Answered r) = (k', Answered r)) by done.
  assert (Hhit : forall k' loc, cached_location k' key (current_variant_index k') = Some loc ->
    lookup_step to_lowercase convention dc mask k' (Begun (current_variant_index k'))
    = (k', Answered (s ← get_service_by_location (manager k') loc; fallible (ok_or s NotFound)))).
  { intros k' loc H. cbn [lookup_step]. fold key. by rewrite H. }
  destruct (cached_location k key (current_variant_index k)) as [loc|] eqn:Hc.
  - rewrite (Hhit k loc Hc), Hans. intros Hr Hd Hs.
    assert (Hidx : current_variant_index (with_manager k m) = current_variant_index k)
      by (unfold current_variant_index; cbn; by rewrite Hs).
    rewrite (Hhit (with_manager k m) loc), Hans by (rewrite Hidx; exact Hc). cbn [snd manager with_manager].
    rewrite (location_same m (manager k)) by (apply variant_or_base_same; [done|by rewrite Hs]). exact Hr.
  - assert (Hmiss : lookup_step to_lowercase convention dc mask k (Begun (current_variant_index k))
      = match search_with_location (manager k) (predicate to_lowercase convention dc mask) with
        | Some (service, loc) => (k, Found (current_variant_index k) loc service)
        | None => (k, Missing (current_variant_index k))
        end) by (cbn [lookup_step]; fold key; by rewrite Hc).
    rewrite Hmiss. clear Hmiss.
    destruct (search_with_location (manager k) (predicate to_lowercase convention dc mask)) as [[s' loc]|] eqn:Hf; [|done].
    change (lookup_step to_lowercase convention dc mask k (Found (current_variant_index k) loc s'))
      with (cache_insert k key (current_variant_index k) (Some loc), Answered (Ok s')).
    cbv iota beta. intros [= ->] Hd Hs. set (k1 := with_manager _ m).
    assert (Hidx : current_variant_index k1 = current_variant_index k) by (unfold current_variant_index; cbn; by rewrite Hs).
    rewrite (Hhit k1 loc), Hans.
    + cbn [snd]. rewrite (location_same (manager k1) (manager k)) by (apply variant_or_base_same; [done|cbn; by rewrite Hs]).
      by rewrite (location_found _ _ _ _ Hf).
    + rewrite Hidx. unfold cached_location. cbn. rewrite lookup_insert_eq. cbn. by rewrite bool_decide_eq_true_2.
Qed.

(** ** Lookups that interleave *)

Section interleaving.
Context (to_lowercase : string -> string) (convention : DatabaseNamingConvention).
(** What the database file holds. *)
Context (data : EcuData).

Local Abbreviation pred := (predicate to_lowercase convention).
Local Abbreviation key := (cache_key to_lowercase convention).

Record system : Type := {
  kernel : Kernel;
  lookups : list (ApiDiagComm * option Z * lookup_phase)
}.

(** The database is the one of the file or not loaded. *)
Definition of_file (m : EcuManager) : Prop := diag_database m = None \/ diag_database m = Some data.

(** What the API asks for. *)
Context (issued : ApiDiagComm -> option Z -> Prop).

(** Lookups begin and go on in any order; between their steps the state of the
    ECU changes at will, as detection and its coordinator do, and the cache may
    be emptied. *)
Inductive step : system -> system -> Prop :=
  | step_begin k l dc mask : issued dc mask ->
      step {| kernel := k; lookups := l |} {| kernel := k; lookups := l ++ [(dc, mask, lookup_begin k)] |}
  | step_lookup k l i dc mask phase k' phase' : l !! i = Some (dc, mask, phase) ->
      lookup_step to_lowercase convention dc mask k phase = (k', phase') ->
      step {| kernel := k; lookups := l |} {| kernel := k'; lookups := <[i := (dc, mask, phase')]> l |}
  | step_ecu k l m : of_file m ->
      step {| kernel := k; lookups := l |} {| kernel := with_manager k m; lookups := l |}
  | step_reset k l : step {| kernel := k; lookups := l |} {| kernel := DbCache_reset k; lookups := l |}.

(** The lookup without a cache. *)
Definition uncached (m : EcuManager) (dc : ApiDiagComm) (mask : option Z) : presult DiagService :=
  match search_with_location m (pred dc mask) with Some (s, _) => Ok s | None => Err (Failed NotFound) end.

(** Equal keys ask for the same. *)
Definition consistent : Prop :=
  forall dc mask dc' mask', issued dc mask -> issued dc' mask' -> key dc mask = key dc' mask' ->
    forall s, pred dc mask s = pred dc' mask' s.

(** A location is right while the variant has the index. *)
Definition valid (vi : option Z) (loc : CacheLocation) (dc : ApiDiagComm) (mask : option Z) : Prop :=
  forall m, diag_database m = Some data -> variant_index (ecu_state m) = vi ->
    exists s, search_with_location m (pred dc mask) = Some (s, loc).

Definition lookup_ok (t : ApiDiagComm * option Z * lookup_phase) : Prop :=
  let '(dc, mask, phase) := t in
  issued dc mask /\ match phase with Found vi loc _ => valid vi loc dc mask | _ => True end.

Record system_ok (s : system) : Prop := {
  ok_file : of_file (manager (kernel s));
  ok_cache : forall k vi loc, db_cache (kernel s) !! k = Some {| cached_variant_index := vi; location := Some loc |} ->
    forall dc mask, issued dc mask -> key dc mask = k -> valid vi loc dc mask;
  ok_lookups : Forall lookup_ok (lookups s)
}.

Lemma found_valid m f dc mask s loc : diag_database m = Some data -> (forall s, f s = pred dc mask s) ->
  search_with_location m f = Some (s, loc) -> valid (variant_index (ecu_state m)) loc dc mask.
Proof.
  intros Hd Hf Hs m' Hd' Hi. exists s.
  rewrite (search_same m' m) by (apply variant_or_base_same; congruence). by rewrite <- (search_ext m f).
Qed.

Lemma lookup_step_ok k l dc mask phase k' phase' : consistent ->
  system_ok {| kernel := k; lookups := l |} -> lookup_ok (dc, mask, phase) ->
  lookup_step to_lowercase convention dc mask k phase = (k', phase') ->
  system_ok {| kernel := k'; lookups := l |} /\ lookup_ok (dc, mask, phase').
Proof.
  intros Hcons [Hfile Hcache Hl] [Hiss Hphase]. cbn [kernel lookups] in *. destruct phase as [vi|vi loc s|vi|r]; cbn [lookup_step].
  - destruct (cached_location k (key dc mask) vi) as [loc|]; [by intros [= <- <-]|].
    destruct (search_with_location (manager k) (pred dc mask)) as [[s loc]|] eqn:Hs; intros [= <- <-]; [|done].
    split; [done|]. split; [done|]. destruct Hfile as [Hn|Hd].
    + by rewrite (proj1 (unloaded_search _ _ (InVariant 0) Hn)) in Hs.
    + by eapply found_valid.
  - intros [= <- <-]. split; [|done]. split; [done| |done]. cbn [kernel cache_insert with_cache db_cache].
    intros k0 vi0 loc0 [[<- [= <- <-]]|[Hne Hk]]%lookup_insert_Some dc' mask' Hiss' Hkey; [|by eapply Hcache].
    intros m Hd Hi. destruct (Hphase m Hd Hi) as [s' Hs']. exists s'. rewrite <- Hs'. apply search_ext. by apply Hcons.
  - intros [= <- <-]. split; [|done]. split; [done| |done]. cbn [kernel cache_insert with_cache db_cache].
    intros k0 vi0 loc0 [[<- [=]]|[Hne Hk]]%lookup_insert_Some. by eapply Hcache.
  - by intros [= <- <-].
Qed.

Lemma step_ok s s' : consistent -> step s s' -> system_ok s -> system_ok s'.
Proof.
  intros Hcons [k l dc mask Hiss|k l i dc mask phase k' phase' Hi Hstep|k l m Hm|k l] Hok; pose proof Hok as [Hfile Hcache Hl].
  - split; [done|done|]. apply Forall_app. split; [done|]. apply Forall_singleton. done.
  - pose proof (Forall_lookup_1 _ _ _ _ Hl Hi) as Ht.
    destruct (lookup_step_ok k l dc mask phase k' phase' Hcons Hok Ht Hstep) as [[Hf' Hc' _] Ht'].
    split; [done|done|]. by apply Forall_insert.
  - by split.
  - split; [done| |done]. intros k0 vi loc Hk. cbn in Hk. by rewrite lookup_empty in Hk.
Qed.

Lemma steps_ok s s' : consistent -> rtc step s s' -> system_ok s -> system_ok s'.
Proof. intros Hcons Hs. induction Hs as [|a b c Hab _ IH]; [done|]. intros Ha. eapply IH, step_ok; done. Qed.

Definition initial (m : EcuManager) (groups : option (list ParentTable)) : system :=
  {| kernel := {| manager := m; file_groups := groups; db_cache := ∅ |}; lookups := [] |}.

Lemma initial_ok m groups : of_file m -> system_ok (initial m groups).
Proof. intros Hm. split; [done| |by constructor]. intros k vi loc Hk. cbn in Hk. by rewrite lookup_empty in Hk. Qed.

(** One step of a lookup that began with the index that still holds. *)
Lemma lookup_answer k dc mask : consistent -> (exists l, system_ok {| kernel := k; lookups := l |}) -> issued dc mask ->
  let '(_, phase) := lookup_step to_lowercase convention dc mask k (lookup_begin k) in
  forall k', (lookup_step to_lowercase convention dc mask k' phase).2 = Answered (uncached (manager k) dc mask).
Proof.
  intros Hcons [l [Hfile Hcache _]] Hiss. unfold lookup_begin, uncached. cbn [kernel lookup_step] in *.
  destruct (cached_location k (key dc mask) (current_variant_index k)) as [loc|] eqn:Hc.
  - cbn [lookup_step snd]. intros _. f_equal. unfold cached_location in Hc.
    destruct (db_cache k !! key dc mask) as [[vi loc']|] eqn:Hk; cbn in Hc; [|done]. case_bool_decide; [|done]. subst.
    destruct Hfile as [Hn|Hd].
    + by destruct (unloaded_search (manager k) (pred dc mask) loc Hn) as [-> ->].
    + destruct (Hcache _ _ _ Hk dc mask Hiss eq_refl (manager k) Hd eq_refl) as [s Hs].
      by rewrite (location_found _ _ _ _ Hs), Hs.
  - by destruct (search_with_location (manager k) (pred dc mask)) as [[s loc]|].
Qed.
End interleaving.

(** A plain lookup's key is the name it searches, so only the type can differ. *)
Lemma plain_consistent to_lowercase convention (issued : ApiDiagComm -> option Z -> Prop) :
  (forall dc mask, issued dc mask -> subfunction_id dc = None) ->
  (forall dc mask dc' mask', issued dc mask -> issued dc' mask' ->
     cache_key to_lowercase convention dc mask = cache_key to_lowercase convention dc' mask' -> type_ dc = type_ dc') ->
  consistent to_lowercase convention issued.
Proof.
  intros Hplain Htype dc mask dc' mask' Hi Hi' Hkey s. pose proof (Htype _ _ _ _ Hi Hi' Hkey) as Ht.
  unfold cache_key, predicate, of_type in *. rewrite (Hplain _ _ Hi), (Hplain _ _ Hi') in *. by rewrite Hkey, Ht.
Qed.

(** The uncached lookup takes the first service of the list the API shows. *)
Lemma uncached_is_first to_lowercase convention m dc mask : is_Some (v ← variant_or_base m; diag_layer v) ->
  uncached to_lowercase convention m dc mask =
  fallible (ok_or (head (get_services_from_variant_and_parent_refs m (predicate to_lowercase convention dc mask))) NotFound).
Proof.
  intros [dl Hdl]. unfold uncached, get_services_from_variant_and_parent_refs, layer_and_parents, search_with_location,
    variant_services, get_variant_parent_ref_services, get_services_from_diag_layer_and_parent_refs.
  destruct (variant_or_base m) as [v|]; [|done]. cbn in Hdl. cbn [mbind option_bind]. rewrite Hdl. cbn [mbind option_bind].
  set (f := predicate to_lowercase convention dc mask). rewrite List.filter_app.
  assert (Hown : forall l, head (List.filter f (default [] (diag_services dl)) ++ l) =
    match services ← diag_services dl; find_index f 0 services with Some (s, _) => Some s | None => head l end).
  { intros l. destruct (diag_services dl) as [own|]; [|done]. cbn [mbind option_bind default id].
    pose proof (find_index_head f 0 own) as H.
    destruct (find_index f 0 own) as [[s i]|]; destruct (List.filter f own); by try injection H as ->. }
  rewrite Hown. destruct (services ← diag_services dl; find_index f 0 services) as [[s i]|]; [done|].
  destruct (parent_refs v) as [refs|]; [|done]. cbn [mbind option_bind default id].
  destruct (get_parent_ref_services_recursive refs) as [l|]; [|done]. cbn [mbind option_bind default id].
  rewrite <- (find_index_head f 0). by destruct (find_index f 0 l) as [[s i]|].
Qed.

Lemma head_filter_unique {A} (f : A -> bool) l a : a ∈ l -> f a = true -> (forall b, b ∈ l -> f b = true -> b = a) ->
  head (List.filter f l) = Some a.
Proof.
  intros Ha Hf Hu. induction l as [|x l IH]; [by apply not_elem_of_nil in Ha|]. simpl. destruct (f x) eqn:E.
  - simpl. f_equal. apply Hu; [by left|done].
  - apply elem_of_cons in Ha as [->|Ha]; [congruence|]. apply IH; [done|]. intros b Hb. apply Hu. by right.
Qed.

(** ** Properties *)


(** a service the API lists is found again by the name and the type under
    which it is listed, when no other service of its type has a name that
    begins with its name. *)
Theorem listed_service_is_found to_lowercase convention k s dc :
  db_cache k = ∅ -> is_Some (v ← variant_or_base (manager k); diag_layer v) ->
  s ∈ get_services_from_variant_and_parent_refs (manager k) (fun _ => true) ->
  service_try_into s = Ok dc ->
  lowercase (to_lowercase (name dc)) = lowercase (name dc) ->
  String.length (to_lowercase (name dc)) = String.length (name dc) ->
  (forall s', s' ∈ get_services_from_variant_and_parent_refs (manager k) (fun _ => true) ->
     diag_comm_short_name_starts_with s' (to_lowercase (name dc)) = true -> of_type dc s' = true -> s' = s) ->
  (lookup_diag_service to_lowercase convention k dc None None).2 = Ok s.
Proof.
  intros Hcache Hdl Hs Hdc Hlower Hlen Hu.
  assert (Hlook : (lookup_diag_service to_lowercase convention k dc None None).2
                  = uncached to_lowercase convention (manager k) dc None).
  { unfold lookup_diag_service, lookup_begin, lookup_step, cached_location, uncached. rewrite Hcache, lookup_empty.
    cbn [mbind option_bind]. by destruct (search_with_location _ _) as [[? ?]|]. }
  rewrite Hlook, uncached_is_first by done. clear Hlook.
  unfold service_try_into in Hdc. destruct (diag_comm s) as [c|] eqn:Ec; [|done]. cbn in Hdc.
  destruct (comm_short_name c) as [n|] eqn:En; [|done]. cbn in Hdc. destruct (request_id s) as [sid|] eqn:Es; [|done].
  cbn in Hdc. destruct (DiagCommType_try_from sid) as [t|] eqn:Et; [|done]. cbn in Hdc. injection Hdc as <-. cbn [name] in *.
  apply try_from_prefixes in Et. revert Hs Hu.
  unfold get_services_from_variant_and_parent_refs, get_services_from_diag_layer_and_parent_refs.
  destruct (layer_and_parents (manager k)) as [[dl refs]|]; [|by intros ?%not_elem_of_nil].
  rewrite (List.forallb_filter_id (fun _ => true)) by (apply List.forallb_forall; done). intros Hs Hu.
  rewrite (head_filter_unique _ _ s); [done|done| |].
  - unfold predicate, query_name, of_type, diag_comm_short_name_starts_with, service_name. cbn. rewrite Ec. cbn. rewrite En, Es.
    rewrite starts_with_self by done. by apply bool_decide_eq_true.
  - intros b Hb Hp. unfold predicate, query_name in Hp. cbn in Hp. apply andb_true_iff in Hp as [Hp1 Hp2]. by apply Hu.
Qed.

(** ** A small ECU *)

Definition no_case (s : string) : string := s.

Definition named_service (n : string) (sid : string) : DiagService :=
  {| diag_comm := Some {| comm_short_name := Some n; state_transition_refs := None; pre_condition_state_refs := None;
                          funct_class := None |};
     request := Some (Some [const_param "sid" 0 8 sid]); pos_responses := None; neg_responses := None |}.

Definition variant_with (n : string) (services : list DiagService) (parents : list ParentRef) : Variant :=
  {| VariantDetection.short_name := Some n; is_base_variant := false; variant_pattern := None;
     diag_layer := Some {| layer_short_name := Some n; layer_state_charts := None; diag_services := Some services;
                           single_ecu_jobs := None |};
     parent_refs := Some parents |}.

Definition ecu_with (vs : list Variant) (idx : option Z) : EcuManager :=
  {| ecu_state := {| connectivity := Online; variant_state := NotDetected; EcuState.variant_index := idx |};
     service_states := ∅; diag_database := Some (Some vs); database_file := Ok (Some vs);
     fallback_to_base_variant := false; duplicating_ecu_names := None |}.

Definition kernel_of (vs : list Variant) (idx : option Z) : Kernel :=
  {| manager := ecu_with vs idx; file_groups := None; db_cache := ∅ |}.

Definition plain_query (n : string) (t : DiagCommType) : ApiDiagComm := ApiDiagComm_new n t.

Definition found (r : presult DiagService) : option (option string) :=
  match r with Ok s => Some (service_name s) | Err _ => None end.

Definition read_speed : DiagService := named_service "speed" "34".
Definition write_speed : DiagService := named_service "speed" "46".
Definition read_speed_limit : DiagService := named_service "speed_limit" "34".

Local Abbreviation look k dc := (lookup_diag_service no_case DatabaseNamingConvention_default k dc None None).


Lemma listed_service_is_found_witness :
  found (look (kernel_of [variant_with "A" [read_speed_limit; read_speed; write_speed] []] (Some 0))
          (plain_query "speed_limit" Data)).2 = Some (Some "speed_limit"%string).
Proof.
  set (k := kernel_of [variant_with "A" [read_speed_limit; read_speed; write_speed] []] (Some 0)).
  rewrite (listed_service_is_found no_case DatabaseNamingConvention_default k read_speed_limit
             (plain_query "speed_limit" Data)); [reflexivity|reflexivity|by eexists| |vm_compute; reflexivity|reflexivity|reflexivity|].
  - by left.
  - intros s' Hs'. repeat (apply elem_of_cons in Hs' as [->|Hs']; [by vm_compute|]). by apply not_elem_of_nil in Hs'.
Defined.

(** A service is shadowed by an earlier one whose name begins with its name. *)
Example longer_name_shadows :
  found (look (kernel_of [variant_with "A" [read_speed_limit; read_speed] []] (Some 0)) (plain_query "speed" Data)).2
  = Some (Some "speed_limit"%string).
Proof. vm_compute. reflexivity. Qed.

(** The key of the cache leaves out the type: after a lookup of data the service
    that writes is not found any more, the one that reads is returned. *)
Example cache_ignores_the_type :
  let k := kernel_of [variant_with "A" [read_speed; write_speed] []] (Some 0) in
  request_id <$> result_ok (look k (plain_query "speed" Configurations)).2 = Some (Some 46) /\
  request_id <$> result_ok (look (look k (plain_query "speed" Data)).1 (plain_query "speed" Configurations)).2 = Some (Some 34).
Proof. split; vm_compute; reflexivity. Qed.

(** A lookup that began before the variant changed takes the place of a service
    in the old variant for its place in the new one. *)
Example index_of_the_old_variant :
  let vs := [variant_with "A" [read_speed] []; variant_with "B" [write_speed; read_speed] []] in
  let dc := plain_query "speed" Data in
  let k := (look (kernel_of vs (Some 0)) dc).1 in
  request_id <$> (match (lookup_step no_case DatabaseNamingConvention_default dc None
                           (with_manager k (ecu_with vs (Some 1))) (lookup_begin k)).2 with
                  | Answered (Ok s) => Some s | _ => None end) = Some (Some 46).
Proof. vm_compute. reflexivity. Qed.

(** The variant excludes a service of its protocol; the list is only applied to
    the layer of the reference itself, so what the protocol inherits comes
    through. *)
Example exclusion_is_not_transitive :
  let shared := MkParentRef None 5 (Some (MkParentTable (diag_layer (variant_with "S" [read_speed] [])) None)) in
  let protocol := MkParentRef (Some ["speed"%string]) 2
                    (Some (MkParentTable (diag_layer (variant_with "P" [read_speed] [])) (Some [shared]))) in
  length (get_services_from_variant_and_parent_refs (ecu_with [variant_with "A" [] [protocol]] (Some 0)) (fun _ => true)) = 1%nat.
Proof. vm_compute. reflexivity. Qed.
