(* ===== verification/StateTransitions.v ===== *)
(** * Session and security states

    cda-core/src/diag_kernel/state.rs and security.rs: the states the adapter
    keeps for an ECU, which service leads from one to another, which service may
    be used in which state; and the check of raw requests, [check_genericservice]
    of payload_encode.rs. *)

From stdpp Require Import strings gmap relations.
From stdpp Require Import list.
From S2P Require Import Prelude Bytes Errors Text StateCharts Database DiagLayers Uds EcuState VariantDetection SampleDatabase Naming ServiceLookup.

Local Open Scope Z_scope.
Set Warnings "-register-all".

(** ** The states of an ECU *)

Definition set_service_state (self : EcuManager) (sid : Z) (value : string) : EcuManager :=
  with_services (<[sid := value]> (service_states self)) self.

Definition get_service_state (self : EcuManager) (sid : Z) : option string := service_states self !! sid.

Definition session (self : EcuManager) : dresult string := ok_or (get_service_state self SESSION_CONTROL) InvalidState.
Definition security_access (self : EcuManager) : dresult string := ok_or (get_service_state self SECURITY_ACCESS) InvalidState.

(** ** Transitions *)

(** [find_map] over the references of a service: a transition of the chart, by
    the names of its ends, that starts in the current state. *)
Definition transition_target (state_chart : StateChart) (current_state : string) (st_ref : option StateTransition)
    : option string :=
  state_transition ← st_ref;
  transition_source ← source_short_name_ref state_transition;
  transition_target ← target_short_name_ref state_transition;
  transitions ← state_transitions state_chart;
  if existsb (fun chart_st => has_name (source_short_name_ref chart_st) transition_source
                              && has_name (target_short_name_ref chart_st) transition_target
                              && same_name transition_source current_state) transitions
  then Some transition_target else None.

Definition lookup_state_transition (diag_comm : DiagComm) (state_chart : StateChart) (current_state : string) : option string :=
  refs ← state_transition_refs diag_comm; find_map (transition_target state_chart current_state) refs.

Definition current_layers (self : EcuManager) : list DiagLayer :=
  match variant_or_base self with Some v => layers v | None => [] end.

(** The first chart with the semantic, without regard to case. *)
Definition chart_of_layer (semantic : string) (dl : DiagLayer) : option StateChart :=
  charts ← layer_state_charts dl; List.find (fun c => has_name (chart_semantic c) semantic) charts.

Definition chart_for (self : EcuManager) (semantic : string) : option StateChart :=
  find_map (chart_of_layer semantic) (current_layers self).

Definition has_transition (source_state target_state : string) (semantic_transitions : list StateTransition)
    (service : DiagService) : bool :=
  match dc ← diag_comm service; state_transition_refs dc with
  | None => false
  | Some st_refs =>
      existsb (fun st_ref => match st_ref with
        | Some st => has_name (source_short_name_ref st) source_state && has_name (target_short_name_ref st) target_state
                     && existsb (fun s => table s =? table st) semantic_transitions
        | None => false
        end) st_refs
  end.

Definition lookup_state_transition_for_active (self : EcuManager) (semantic current_state target_state : string)
    : dresult ApiDiagComm :=
  semantic_transitions ← ok_or
    (find_map (fun c => if has_name (chart_semantic c) semantic then state_transitions c else None)
       (dl ← current_layers self; default [] (layer_state_charts dl))) NotFound;
  let find_service_for_state source_state :=
    head (get_services_from_variant_and_parent_refs self (has_transition source_state target_state semantic_transitions)) in
  service ← ok_or
    (match find_service_for_state current_state with
     | Some service => Some service
     | None =>
         default_state ← result_ok (default_state self semantic);
         if same_name default_state current_state then None else find_service_for_state default_state
     end) NotFound;
  service_try_into service.

Section states.
Context (convention : DatabaseNamingConvention).

Definition session_semantic : string := semantic_session (semantics convention).
Definition security_semantic : string := semantic_security (semantics convention).

Definition default_session (self : EcuManager) : dresult string := default_state self session_semantic.
Definition default_security_access (self : EcuManager) : dresult string := default_state self security_semantic.

Definition lookup_session_change (self : EcuManager) (target_session_name : string) : dresult ApiDiagComm :=
  current_session_name ← session self;
  lookup_state_transition_for_active self session_semantic current_session_name target_session_name.

Definition lookup_state_transition_by_diagcomm_for_active (self : EcuManager) (diag_comm : DiagComm)
    : option string * option string :=
  let new_state sid semantic :=
    current ← get_service_state self sid;
    sc ← chart_for self semantic;
    lookup_state_transition diag_comm sc current in
  (new_state SESSION_CONTROL session_semantic, new_state SECURITY_ACCESS security_semantic).

Definition set_if (self : EcuManager) (sid : Z) (value : option string) : EcuManager :=
  match value with Some v => set_service_state self sid v | None => self end.

(** What [convert_from_uds] does to the states after a positive response. *)
Definition update_states (diag_comm : DiagComm) (self : EcuManager) : EcuManager :=
  let '(new_session, new_security) := lookup_state_transition_by_diagcomm_for_active self diag_comm in
  set_if (set_if self SESSION_CONTROL new_session) SECURITY_ACCESS new_security.

(** ** Access *)

Definition get_state_names (self : EcuManager) (semantic : string) : dresult (list str) :=
  sc ← lookup_state_chart self semantic;
  Ok (lowercase <$> omap id (default [] (states sc))).

(** The sets of states a service asks for: security, session. *)
Definition allowed_states (security_states session_states preconditions sources : list str) : list str * list str :=
  (List.filter (fun s => bool_decide (s ∈ security_states)) preconditions ++ sources,
   List.filter (fun s => negb (bool_decide (s ∈ security_states)) && bool_decide (s ∈ session_states)) preconditions ++ sources).

Definition validate_state (required : list str) (current default : str) : dresult unit :=
  if bool_decide (required = []) || bool_decide (current ∈ required) || bool_decide (default ∈ required)
  then Ok () else Err InvalidState.

Definition precondition_names (refs : list (option (option string))) : list str := lowercase <$> omap mjoin refs.
Definition transition_sources (diag_comm : DiagComm) : list str :=
  lowercase <$> omap (fun st_ref => st ← st_ref; source_short_name_ref st) (default [] (state_transition_refs diag_comm)).

Definition check_service_preconditions (self : EcuManager) (diag_comm : DiagComm) : dresult unit :=
  match pre_condition_state_refs diag_comm with
  | None | Some [] => Ok ()
  | Some pre_condition_state_ref =>
      ecu_session ← session self;
      ecu_security_level ← security_access self;
      session_states ← get_state_names self session_semantic;
      security_states ← get_state_names self security_semantic;
      let '(allowed_security, allowed_session) :=
        allowed_states security_states session_states (precondition_names pre_condition_state_ref)
          (transition_sources diag_comm) in
      default_session ← default_session self;
      default_security ← default_security_access self;
      _ ← validate_state allowed_security (lowercase ecu_security_level) (lowercase default_security);
      validate_state allowed_session (lowercase ecu_session) (lowercase default_session)
  end.

(** [DynamicPlugin]: the void plugin skips the check, another type is refused. *)
Inductive DynamicPlugin : Type :=
  | VoidPlugin
  | Plugin (validate_service : DiagService -> dresult unit)
  | OtherPlugin.

Definition check_security_plugin (security_plugin : DynamicPlugin) (service : DiagService) : dresult unit :=
  match security_plugin with
  | VoidPlugin => Ok ()
  | Plugin validate_service => validate_service service
  | OtherPlugin => Err InvalidSecurityPlugin
  end.

Definition is_service_visible (security_plugin : DynamicPlugin) (service : DiagService) : bool :=
  match check_security_plugin security_plugin service with Ok _ => true | Err _ => false end.

Definition check_service_access (self : EcuManager) (security_plugin : DynamicPlugin) (service : DiagService) : dresult unit :=
  dc ← ok_or (diag_comm service) InvalidDatabase;
  _ ← check_service_preconditions self dc;
  check_security_plugin security_plugin service.

(** ** Security access *)

Inductive SecurityAccess : Type :=
  | RequestSeed (dc : ApiDiagComm)
  | SendKey (dc : ApiDiagComm).

Definition ch_underscore : Z := 95.

(** [level.split('_').next_back()], as a hexadecimal or decimal number. *)
Definition level_sub_func (level : string) : option Z :=
  l ← list.last (split (fun c => c =? ch_underscore) (chars level));
  match from_str_radix 0 U32_MAX l 16 with Some n => Some n | None => parse_u32 l end.

Definition strip_underscores (s : string) : string :=
  String.string_of_list_ascii (List.filter (fun c => negb (Ascii.eqb c (Ascii.ascii_of_N 95))) (String.list_ascii_of_string s)).

Definition request_seed_sub_func (sub_func : Z) : bool :=
  (sub_func =? 1) || in_range 3 sub_func 5 || in_range 7 sub_func 41.

Definition is_request_seed (level : string) (service : DiagService) : bool :=
  match request_id service, request_sub_function_id service with
  | Some sid, Some (sub_func, _) =>
      (sid =? SECURITY_ACCESS)
      && request_seed_sub_func sub_func
      && match request service with Some (Some params) => 2 <=? len params | _ => false end
      && (match service_name service with
          | Some n => contains_ignore_ascii_case (strip_underscores n) (strip_underscores level)
          | None => false
          end
          || bool_decide (Some sub_func = level_sub_func level))
  | _, _ => false
  end.

Definition lookup_security_access_change (self : EcuManager) (level : string) (has_key : bool) : dresult SecurityAccess :=
  current_security_name ← security_access self;
  if has_key then
    security_service ← lookup_state_transition_for_active self security_semantic current_security_name level;
    Ok (SendKey security_service)
  else
    services ← lookup_services_by_sid self SECURITY_ACCESS;
    request_seed_service ← ok_or (List.find (is_request_seed level) services) NotFound;
    request_seed_service ← service_try_into request_seed_service;
    Ok (RequestSeed request_seed_service).

(** The first parameter of the service with the semantic of data. *)
Definition send_key_param (service : DiagService) : dresult str :=
  request ← ok_or (request service) RequestNotSupported;
  ok_or (params ← request;
         find_map (fun p => if bool_decide (semantic p = Some (chars (semantic_data (semantics convention))))
                            then Database.short_name p else None) params) InvalidDatabase.

Definition get_send_key_param_name (to_lowercase : string -> string) (self : Kernel) (diag_service : ApiDiagComm)
    : Kernel * presult str :=
  let '(self, mapped_service) := lookup_diag_service to_lowercase convention self diag_service None None in
  (self, mapped_service ← mapped_service; fallible (send_key_param mapped_service)).

Definition is_service_allowed (to_lowercase : string -> string) (self : Kernel) (service : ApiDiagComm)
    (security_plugin : DynamicPlugin) : Kernel * presult unit :=
  let '(k, mapped_service) := lookup_diag_service to_lowercase convention self service None None in
  (k, mapped_service ← mapped_service; fallible (check_service_access (manager k) security_plugin mapped_service)).

(** ** Raw requests *)

(** [iter().find(..)] with a predicate that can fail. *)
Fixpoint find_result {A} (f : A -> presult bool) (l : list A) : presult (option A) :=
  match l with
  | [] => Ok None
  | a :: l => b ← f a; if b : bool then Ok (Some a) else find_result f l
  end.

(** The addresses of the payload are those of the manager. *)
Definition check_genericservice (self : EcuManager) (security_plugin : DynamicPlugin) (tester_address logical_address : Z)
    (rawdata : list Z) : presult ServicePayload :=
  raw_data_sid ← fallible (ok_or (head rawdata) BadPayload);
  sid_matched_services ← fallible (lookup_services_by_sid self raw_data_sid);
  mapped_service ← find_result (fun service => matches_request_prefix service rawdata) sid_matched_services;
  mapped_service ← fallible (ok_or mapped_service NotFound);
  mapped_dc ← fallible (ok_or (diag_comm mapped_service) InvalidDatabase);
  _ ← fallible (check_service_access self security_plugin mapped_service);
  let '(new_session, new_security) := lookup_state_transition_by_diagcomm_for_active self mapped_dc in
  Ok {| Uds.data := rawdata; source_address := tester_address; target_address := logical_address;
        Uds.new_session := new_session; Uds.new_security := new_security |}.
End states.

(** ** Lemmas *)

Lemma find_map_found {A B} (f : A -> option B) l b : find_map f l = Some b ->
  exists i a, l !! i = Some a /\ f a = Some b /\ forall j a', (j < i)%nat -> l !! j = Some a' -> f a' = None.
Proof.
  induction l as [|a l IH]; simpl; [done|]. destruct (f a) as [b'|] eqn:E.
  - intros [= <-]. exists O, a. split; [done|]. split; [done|]. lia.
  - intros (i & a' & Hi & Hf & Hj)%IH. exists (S i), a'. split; [done|]. split; [done|].
    intros [|j] x Hlt; [by intros [= <-]|]. apply Hj. lia.
Qed.

Lemma find_map_none {A B} (f : A -> option B) l : find_map f l = None -> forall a, a ∈ l -> f a = None.
Proof.
  induction l as [|x l IH]; simpl; [by intros _ a ?%not_elem_of_nil|]. destruct (f x) eqn:E; [done|].
  intros H a [->|Ha]%elem_of_cons; [done|by apply IH].
Qed.

Lemma same_name_spec a b : same_name a b = true <-> lowercase a = lowercase b.
Proof. apply bool_decide_eq_true. Qed.
Lemma same_name_refl a : same_name a a = true.
Proof. by apply same_name_spec. Qed.

Lemma has_name_spec n s : has_name n s = true <-> exists n', n = Some n' /\ lowercase n' = lowercase s.
Proof.
  destruct n as [n|]; simpl; [|split; [done|by intros (? & ? & _)]]. rewrite same_name_spec.
  split; [by intros H; eexists|by intros (? & [= ->] & ?)].
Qed.

(** The states of a chart: the start state and where its transitions lead. *)
Definition targets (sc : StateChart) : list str :=
  lowercase <$> omap target_short_name_ref (default [] (state_transitions sc)).
Definition chart_state (sc : StateChart) (s : string) : Prop :=
  (lowercase <$> start_state_short_name_ref sc) = Some (lowercase s) \/ lowercase s ∈ targets sc.

Lemma lookup_state_transition_spec dc sc current t : lookup_state_transition dc sc current = Some t ->
  exists refs i st src, state_transition_refs dc = Some refs /\ refs !! i = Some (Some st) /\
    target_short_name_ref st = Some t /\ source_short_name_ref st = Some src /\ lowercase src = lowercase current /\
    lowercase t ∈ targets sc.
Proof.
  unfold lookup_state_transition. destruct (state_transition_refs dc) as [refs|]; [|done]. cbn [mbind option_bind].
  intros (i & st_ref & Hi & Hf & _)%find_map_found. unfold transition_target in Hf.
  destruct st_ref as [st|]; [|done]. cbn [mbind option_bind] in Hf.
  destruct (source_short_name_ref st) as [src|] eqn:Esrc; [|done].
  destruct (target_short_name_ref st) as [tgt|] eqn:Etgt; [|done]. cbn [mbind option_bind] in Hf.
  destruct (state_transitions sc) as [ts|] eqn:Ets; [|done]. cbn [mbind option_bind] in Hf.
  destruct (existsb _ ts) eqn:Ex; [|done]. injection Hf as <-.
  apply List.existsb_exists in Ex as (cst & Hin & Hb). rewrite !andb_true_iff in Hb. destruct Hb as [[_ Ht] Hs].
  apply has_name_spec in Ht as (t' & Ht' & Hl). apply same_name_spec in Hs.
  exists refs, i, st, src. repeat split; try done.
  unfold targets. rewrite Ets. cbn [default id]. rewrite <- Hl. apply list_elem_of_fmap_2, list_elem_of_omap.
  exists cst. split; [by apply list_elem_of_In|done].
Qed.

Lemma get_set_same m sid v : get_service_state (set_service_state m sid v) sid = Some v.
Proof. apply lookup_insert_eq. Qed.
Lemma get_set_other m sid sid' v : sid <> sid' -> get_service_state (set_service_state m sid v) sid' = get_service_state m sid'.
Proof. intros. by apply lookup_insert_ne. Qed.
Lemma get_set_if m sid v sid' : get_service_state (set_if m sid v) sid' =
  if bool_decide (sid = sid') then match v with Some v => Some v | None => get_service_state m sid' end else get_service_state m sid'.
Proof.
  destruct v as [v|]; simpl; case_bool_decide; subst; [apply get_set_same|by apply get_set_other|done|done].
Qed.

(** The states are no part of the database. *)
Definition same_view (m m' : EcuManager) : Prop := diag_database m = diag_database m' /\ ecu_state m = ecu_state m'.

#[export] Instance same_view_equivalence : Equivalence same_view.
Proof.
  split; [by split|by intros x y [? ?]|by intros x y z [? ?] [? ?]; split; etrans].
Qed.

Lemma get_session_after m ns nsec :
  get_service_state (set_if (set_if m SESSION_CONTROL ns) SECURITY_ACCESS nsec) SESSION_CONTROL =
  match ns with Some v => Some v | None => get_service_state m SESSION_CONTROL end.
Proof. by rewrite !get_set_if. Qed.
Lemma get_security_after m ns nsec :
  get_service_state (set_if (set_if m SESSION_CONTROL ns) SECURITY_ACCESS nsec) SECURITY_ACCESS =
  match nsec with Some v => Some v | None => get_service_state m SECURITY_ACCESS end.
Proof. by rewrite !get_set_if. Qed.

Lemma set_if_view m sid v : same_view (set_if m sid v) m.
Proof. by destruct v. Qed.
Lemma update_states_view convention dc m : same_view (update_states convention dc m) m.
Proof. unfold update_states. cbn. by etrans; [apply set_if_view|apply set_if_view]. Qed.
Lemma set_default_states_view s1 s2 m : same_view (set_default_states s1 s2 m).1 m.
Proof. unfold set_default_states. destruct (default_state m s1); [|done]. by destruct (default_state m s2). Qed.

Lemma same_view_variant m m' : same_view m m' -> variant_or_base m = variant_or_base m'.
Proof. intros [? Hs]. apply variant_or_base_same; [done|]. by rewrite Hs. Qed.

#[export] Instance chart_for_proper : Proper (same_view ==> eq ==> eq) chart_for.
Proof. intros m m' H s ? <-. unfold chart_for, current_layers. by rewrite (same_view_variant _ _ H). Qed.
#[export] Instance lookup_state_chart_proper : Proper (same_view ==> eq ==> eq) lookup_state_chart.
Proof. intros m m' H s ? <-. unfold lookup_state_chart. by rewrite (same_view_variant _ _ H). Qed.
#[export] Instance default_state_proper : Proper (same_view ==> eq ==> eq) default_state.
Proof. intros m m' H s ? <-. unfold default_state. by rewrite H. Qed.

(** ** The states of an ECU over time *)

Section over_time.
Context (convention : DatabaseNamingConvention).

(** An ECU with the transitions of the requests on their way, which are read when
    the request is built and stored when its answer arrives; and the names that
    were stored, with the identifier of their services. *)
Record tracked : Type := {
  tracked_ecu : EcuManager;
  under_way : list (option string * option string);
  stored_names : list (Z * string)
}.

(** The same ECU with another connectivity or variant, or with its database
    loaded or unloaded. *)
Definition redetected (m m' : EcuManager) : Prop :=
  database_file m' = database_file m /\ service_states m' = service_states m /\
  forall d, diag_database m' = Some d -> diag_database m = Some d \/ database_file m = Ok d.

Inductive state_step : tracked -> tracked -> Prop :=
  | step_detected m m' l n : redetected m m' ->
      state_step {| tracked_ecu := m; under_way := l; stored_names := n |} {| tracked_ecu := m'; under_way := l; stored_names := n |}
  | step_defaults m l n :
      state_step {| tracked_ecu := m; under_way := l; stored_names := n |}
        {| tracked_ecu := (set_default_states (session_semantic convention) (security_semantic convention) m).1;
           under_way := l; stored_names := n |}
  | step_build m l n dc :
      state_step {| tracked_ecu := m; under_way := l; stored_names := n |}
        {| tracked_ecu := m; under_way := l ++ [lookup_state_transition_by_diagcomm_for_active convention m dc]; stored_names := n |}
  | step_answer m l n i ns nsec : l !! i = Some (ns, nsec) ->
      state_step {| tracked_ecu := m; under_way := l; stored_names := n |}
        {| tracked_ecu := set_if (set_if m SESSION_CONTROL ns) SECURITY_ACCESS nsec; under_way := l; stored_names := n |}
  | step_decode m l n dc :
      state_step {| tracked_ecu := m; under_way := l; stored_names := n |}
        {| tracked_ecu := update_states convention dc m; under_way := l; stored_names := n |}
  | step_set m l n sid service_name :
      state_step {| tracked_ecu := m; under_way := l; stored_names := n |}
        {| tracked_ecu := set_service_state m sid service_name; under_way := l; stored_names := n ++ [(sid, service_name)] |}.

(** The charts of the variants of an ECU. *)
Definition chart_of (m : EcuManager) (semantic : string) (sc : StateChart) : Prop :=
  exists m', (forall d, diag_database m' = Some d -> diag_database m = Some d \/ database_file m = Ok d) /\
    (chart_for m' semantic = Some sc \/ lookup_state_chart m' semantic = Ok sc).

Definition state_of_chart (m : EcuManager) (semantic s : string) : Prop := exists sc, chart_of m semantic sc /\ chart_state sc s.

Context (m0 : EcuManager).

Definition kept_ok (semantic : string) (sid : Z) (t : tracked) : Prop :=
  forall s, get_service_state (tracked_ecu t) sid = Some s -> state_of_chart m0 semantic s \/ (sid, s) ∈ stored_names t.

Definition target_ok (semantic : string) (o : option string) : Prop := forall s, o = Some s -> state_of_chart m0 semantic s.

Definition pending_ok (p : option string * option string) : Prop :=
  target_ok (session_semantic convention) p.1 /\ target_ok (security_semantic convention) p.2.

Definition of_ecu (m : EcuManager) : Prop :=
  database_file m = database_file m0 /\
  forall d, diag_database m = Some d -> diag_database m0 = Some d \/ database_file m0 = Ok d.

Record tracked_ok (t : tracked) : Prop := {
  ok_ecu : of_ecu (tracked_ecu t);
  ok_session : kept_ok (session_semantic convention) SESSION_CONTROL t;
  ok_security : kept_ok (security_semantic convention) SECURITY_ACCESS t;
  ok_under_way : Forall pending_ok (under_way t)
}.

Lemma lookup_active_ok m dc : of_ecu m -> pending_ok (lookup_state_transition_by_diagcomm_for_active convention m dc).
Proof.
  intros [_ Hd]. unfold lookup_state_transition_by_diagcomm_for_active. split; cbn [fst snd]; intros s;
    destruct (get_service_state m _) as [cur|]; cbn [mbind option_bind]; try done;
    destruct (chart_for m _) as [sc|] eqn:Hsc; cbn [mbind option_bind]; try done;
    intros (? & ? & ? & ? & _ & _ & _ & _ & _ & ?)%lookup_state_transition_spec; exists sc; (split; [exists m; by auto|by right]).
Qed.

(** What is kept after states were stored for an identifier. *)
Lemma kept_after semantic sid o m m' l l' n n' :
  get_service_state m' sid = match o with Some v => Some v | None => get_service_state m sid end ->
  (forall v, o = Some v -> state_of_chart m0 semantic v \/ (sid, v) ∈ n') -> (forall x, x ∈ n -> x ∈ n') ->
  kept_ok semantic sid {| tracked_ecu := m; under_way := l; stored_names := n |} ->
  kept_ok semantic sid {| tracked_ecu := m'; under_way := l'; stored_names := n' |}.
Proof.
  intros Hget Ho Hn Hk s. cbn [tracked_ecu stored_names]. rewrite Hget. destruct o as [v|].
  - intros [= <-]. by apply Ho.
  - intros [?|?]%Hk; [by left|right; by apply Hn].
Qed.

Lemma store_ok m l n p : pending_ok p -> tracked_ok {| tracked_ecu := m; under_way := l; stored_names := n |} ->
  tracked_ok {| tracked_ecu := set_if (set_if m SESSION_CONTROL p.1) SECURITY_ACCESS p.2; under_way := l; stored_names := n |}.
Proof.
  intros [Hs Hx] [Ho Hos Hox Hl]. split; [by destruct p as [[?|] [?|]]|..|done].
  - eapply (kept_after _ _ p.1); [apply get_session_after|by intros v ?; left; apply Hs|done|exact Hos].
  - eapply (kept_after _ _ p.2); [apply get_security_after|by intros v ?; left; apply Hx|done|exact Hox].
Qed.

Lemma or_insert_lookup m (p : Z * string) k : or_insert m p !! k =
  match m !! k with Some s => Some s | None => if bool_decide (p.1 = k) then Some p.2 else None end.
Proof.
  unfold or_insert. destruct p as [a v]. cbn [fst snd]. destruct (m !! a) eqn:E; case_bool_decide; subst; rewrite ?E; try done.
  - by destruct (m !! k).
  - by rewrite lookup_insert_eq.
  - rewrite lookup_insert_ne by done. by destruct (m !! k).
Qed.

Lemma default_state_in_chart m semantic s : of_ecu m -> default_state m semantic = Ok s -> state_of_chart m0 semantic s.
Proof.
  intros [_ Hd]. unfold default_state. destruct (lookup_state_chart m semantic) as [sc|] eqn:Hsc; [|done]. cbn. intros Hs.
  exists sc. split; [exists m; by auto|]. unfold chart_state. destruct (start_state_short_name_ref sc) as [n|]; [|done].
  injection Hs as ->. by left.
Qed.

(** Defaults are kept where there was no state. *)
Lemma defaults_get m sid semantic :
  (sid = SESSION_CONTROL /\ semantic = session_semantic convention) \/ (sid = SECURITY_ACCESS /\ semantic = security_semantic convention) ->
  exists o, get_service_state (set_default_states (session_semantic convention) (security_semantic convention) m).1 sid =
      match o with Some v => Some v | None => get_service_state m sid end /\
    forall v, o = Some v -> get_service_state m sid = Some v \/ default_state m semantic = Ok v.
Proof.
  intros Hsid. unfold set_default_states, get_service_state.
  assert (Hnone : forall m', service_states m' !! sid = service_states m !! sid -> exists o, service_states m' !! sid =
      match o with Some v => Some v | None => service_states m !! sid end /\
    forall v, o = Some v -> service_states m !! sid = Some v \/ default_state m semantic = Ok v) by (intros m' ?; by exists None).
  destruct (default_state m (session_semantic convention)) as [s|] eqn:Es; [|by apply Hnone].
  destruct Hsid as [[-> ->]|[-> ->]]; destruct (default_state m (security_semantic convention)) as [x|] eqn:Ex;
    cbn [fst with_services service_states]; rewrite !or_insert_lookup; cbn [fst snd];
    repeat (case_bool_decide; try done); destruct (service_states m !! _) as [v|] eqn:Ev.
  all: first [exists (Some v); split; [done|]; intros ? [= <-]; auto
             |exists (Some s); split; [done|]; intros ? [= <-]; auto; congruence
             |exists (Some x); split; [done|]; intros ? [= <-]; auto; congruence|exists None; split; [done|done]].
Qed.

Lemma defaults_ok m l n : tracked_ok {| tracked_ecu := m; under_way := l; stored_names := n |} ->
  tracked_ok {| tracked_ecu := (set_default_states (session_semantic convention) (security_semantic convention) m).1;
                under_way := l; stored_names := n |}.
Proof.
  intros [Ho Hos Hox Hl]. split; [..|done].
  - unfold of_ecu. cbn [tracked_ecu]. rewrite (proj1 (set_default_states_view _ _ m)). split; [|apply Ho].
    rewrite <- (proj1 Ho). unfold set_default_states.
    destruct (default_state m _); [|done]. by destruct (default_state m _).
  - destruct (defaults_get m SESSION_CONTROL (session_semantic convention)) as (o & Hget & Hv); [by left|].
    eapply (kept_after _ _ o); [exact Hget| |done|exact Hos]. intros v [Hm|Hd]%Hv; [by apply Hos|].
    left. by eapply default_state_in_chart.
  - destruct (defaults_get m SECURITY_ACCESS (security_semantic convention)) as (o & Hget & Hv); [by right|].
    eapply (kept_after _ _ o); [exact Hget| |done|exact Hox]. intros v [Hm|Hd]%Hv; [by apply Hox|].
    left. by eapply default_state_in_chart.
Qed.

Lemma state_step_ok t t' : state_step t t' -> tracked_ok t -> tracked_ok t'.
Proof.
  intros [m m' l n (Hf & Hs & Hd)|m l n|m l n dc|m l n i ns nsec Hi|m l n dc|m l n sid v] Hok; [|by apply defaults_ok| | | |].
  - destruct Hok as [[Hf0 Hd0] Hos Hox Hl]. cbn [tracked_ecu] in *. split; [..|done].
    + split; cbn [tracked_ecu]; [by rewrite Hf|]. intros d [?|Hd']%Hd; [by apply Hd0|]. right. by rewrite <- Hf0.
    + apply (kept_after _ _ None m m' l l n n); [by unfold get_service_state; rewrite Hs|done..].
    + apply (kept_after _ _ None m m' l l n n); [by unfold get_service_state; rewrite Hs|done..].
  - destruct Hok as [Ho Hos Hox Hl]. split; [done|done|done|]. apply Forall_app. split; [done|]. apply Forall_singleton.
    by apply lookup_active_ok.
  - apply (store_ok m l n (ns, nsec)); [|done]. by apply (Forall_lookup_1 _ _ _ _ (ok_under_way _ Hok)) in Hi.
  - unfold update_states. pose proof (lookup_active_ok m dc (ok_ecu _ Hok)) as Hp.
    destruct (lookup_state_transition_by_diagcomm_for_active convention m dc) as [ns nsec]. by apply (store_ok m l n (ns, nsec)).
  - destruct Hok as [Ho Hos Hox Hl]. pose proof (fun sid' => get_set_if m sid (Some v) sid') as Hget. cbn [set_if] in Hget.
    assert (Hn : forall x, x ∈ n -> x ∈ n ++ [(sid, v)]) by (intros; apply elem_of_app; by left).
    assert (Hv : forall sid', sid = sid' -> (sid', v) ∈ n ++ [(sid, v)]) by (intros ? <-; apply elem_of_app; right; by left).
    split; [done|..|done].
    + apply (kept_after _ _ (if bool_decide (sid = SESSION_CONTROL) then Some v else None) m _ l l n _);
        [rewrite Hget; by case_bool_decide| |done|done]. intros w. case_bool_decide; [|done]. intros [= <-]. right. by apply Hv.
    + apply (kept_after _ _ (if bool_decide (sid = SECURITY_ACCESS) then Some v else None) m _ l l n _);
        [rewrite Hget; by case_bool_decide| |done|done]. intros w. case_bool_decide; [|done]. intros [= <-]. right. by apply Hv.
Qed.

Lemma state_steps_ok t t' : rtc state_step t t' -> tracked_ok t -> tracked_ok t'.
Proof. induction 1 as [|a b c Hab _ IH]; [done|]. intros. by eapply IH, state_step_ok. Qed.
End over_time.

(** The two ways to find a chart agree. *)
Definition one_chart (m : EcuManager) (semantic : string) (sc : StateChart) : Prop :=
  chart_for m semantic = Some sc /\ lookup_state_chart m semantic = Ok sc.

(** ** Applying an answer twice *)

(** The transitions a service has in a chart. *)
Definition own_transition (sc : StateChart) (dc : DiagComm) (src tgt : string) : Prop :=
  exists refs st, state_transition_refs dc = Some refs /\ Some st ∈ refs /\
    source_short_name_ref st = Some src /\ target_short_name_ref st = Some tgt.

Lemma lookup_own dc sc cur t : lookup_state_transition dc sc cur = Some t ->
  exists src, own_transition sc dc src t /\ lowercase src = lowercase cur.
Proof.
  intros (refs & i & st & src & Hr & Hi & Ht & Hs & Hl & _)%lookup_state_transition_spec.
  exists src. split; [|done]. exists refs, st. repeat split; try done. by eapply list_elem_of_lookup_2.
Qed.

(** Where a state and a second look at the transitions lead. *)
Lemma twice_same sc dc cur :
  (forall a b a' b', own_transition sc dc a b -> own_transition sc dc a' b' -> lowercase b = lowercase b') ->
  let s1 := default cur (lookup_state_transition dc sc cur) in
  lowercase (default s1 (lookup_state_transition dc sc s1)) = lowercase s1.
Proof.
  intros Hone s1. destruct (lookup_state_transition dc sc s1) as [t|] eqn:E2; [|done]. cbn [default id].
  subst s1. destruct (lookup_state_transition dc sc cur) as [t1|] eqn:E1; cbn [default id] in *; [|congruence].
  apply lookup_own in E1 as (? & E1 & _), E2 as (? & E2 & _). by eapply Hone.
Qed.

(** *** From a state to a service and on to the state *)

Lemma has_transition_spec src tgt ts service : has_transition src tgt ts service = true ->
  exists dc refs st st', diag_comm service = Some dc /\ state_transition_refs dc = Some refs /\ Some st ∈ refs /\
    has_name (source_short_name_ref st) src = true /\ has_name (target_short_name_ref st) tgt = true /\
    st' ∈ ts /\ table st' = table st.
Proof.
  unfold has_transition. destruct (diag_comm service) as [dc|]; [|done]. cbn [mbind option_bind].
  destruct (state_transition_refs dc) as [refs|] eqn:Er; [|done].
  intros ([st|] & Hin & Hb)%List.existsb_exists; [|done]. rewrite !andb_true_iff in Hb. destruct Hb as [[Hs Ht] Hx].
  apply List.existsb_exists in Hx as (st' & Hin' & He%Z.eqb_eq). apply list_elem_of_In in Hin, Hin'.
  by exists dc, refs, st, st'.
Qed.

(** A reference into the chart that starts in the state is found. *)
Lemma lookup_finds dc sc ts cur refs st : state_transition_refs dc = Some refs -> Some st ∈ refs ->
  state_transitions sc = Some ts -> st ∈ ts ->
  has_name (source_short_name_ref st) cur = true -> is_Some (target_short_name_ref st) ->
  is_Some (lookup_state_transition dc sc cur).
Proof.
  intros Hr Hst Hts Hin (src & Hsrc & Hl)%has_name_spec [tgt Htgt].
  unfold lookup_state_transition. rewrite Hr. cbn [mbind option_bind].
  destruct (find_map (transition_target sc cur) refs) as [t|] eqn:E; [done|].
  pose proof (find_map_none _ _ E _ Hst) as H. unfold transition_target in H. cbn [mbind option_bind] in H.
  rewrite Hsrc in H. cbn in H. rewrite Htgt in H. cbn in H. rewrite Hts in H. cbn in H.
  assert (Hex : existsb (fun chart_st => has_name (source_short_name_ref chart_st) src
                              && has_name (target_short_name_ref chart_st) tgt && same_name src cur) ts = true).
  { apply List.existsb_exists. exists st. split; [by apply list_elem_of_In|]. rewrite Hsrc, Htgt. cbn.
    rewrite !same_name_refl. by apply same_name_spec. }
  by rewrite Hex in H.
Qed.

Lemma in_services m f s : s ∈ get_services_from_variant_and_parent_refs m f ->
  s ∈ get_services_from_variant_and_parent_refs m (fun _ => true) /\ f s = true.
Proof.
  unfold get_services_from_variant_and_parent_refs, get_services_from_diag_layer_and_parent_refs.
  destruct (layer_and_parents m) as [[dl refs]|]; [|by intros ?%not_elem_of_nil].
  rewrite !list_elem_of_In, !List.filter_In. intros [? ?]. by repeat split.
Qed.

Lemma head_elem {A} (l : list A) a : head l = Some a -> a ∈ l.
Proof. destruct l; [done|]. intros [= ->]. by left. Qed.

(** The same transition, looked up again after it was stored. *)
Lemma stored_twice convention m dc session_chart security_chart :
  chart_for m (session_semantic convention) = Some session_chart ->
  chart_for m (security_semantic convention) = Some security_chart ->
  (forall a b a' b', own_transition session_chart dc a b -> own_transition session_chart dc a' b' -> lowercase b = lowercase b') ->
  (forall a b a' b', own_transition security_chart dc a b -> own_transition security_chart dc a' b' -> lowercase b = lowercase b') ->
  let '(new_session, new_security) := lookup_state_transition_by_diagcomm_for_active convention m dc in
  let m1 := set_if (set_if m SESSION_CONTROL new_session) SECURITY_ACCESS new_security in
  let m2 := update_states convention dc m1 in
  lowercase <$> get_service_state m2 SESSION_CONTROL = lowercase <$> get_service_state m1 SESSION_CONTROL /\
  lowercase <$> get_service_state m2 SECURITY_ACCESS = lowercase <$> get_service_state m1 SECURITY_ACCESS.
Proof.
  intros Hs Hx Hone Hone'. destruct (lookup_state_transition_by_diagcomm_for_active convention m dc) as [ns nsec] eqn:E. intros m1 m2.
  assert (Hv : forall s, chart_for m1 s = chart_for m s) by (intros s; apply chart_for_proper; [etrans; apply set_if_view|done]).
  unfold lookup_state_transition_by_diagcomm_for_active in E. rewrite Hs, Hx in E. injection E as <- <-.
  assert (H1 : get_service_state m1 SESSION_CONTROL =
    (fun cur => default cur (lookup_state_transition dc session_chart cur)) <$> get_service_state m SESSION_CONTROL).
  { subst m1. rewrite get_session_after. destruct (get_service_state m SESSION_CONTROL) as [cur|]; [|done]. cbn.
    by destruct (lookup_state_transition dc session_chart cur). }
  assert (H1' : get_service_state m1 SECURITY_ACCESS =
    (fun cur => default cur (lookup_state_transition dc security_chart cur)) <$> get_service_state m SECURITY_ACCESS).
  { subst m1. rewrite get_security_after. destruct (get_service_state m SECURITY_ACCESS) as [cur|]; [|done]. cbn.
    by destruct (lookup_state_transition dc security_chart cur). }
  subst m2. unfold update_states, lookup_state_transition_by_diagcomm_for_active. rewrite !Hv, Hs, Hx.
  rewrite get_session_after, get_security_after, H1, H1'. split.
  - destruct (get_service_state m SESSION_CONTROL) as [cur|]; [|done]. pose proof (twice_same session_chart dc cur Hone) as Ht.
    cbn [fmap option_fmap option_map mbind option_bind] in *.
    destruct (lookup_state_transition dc session_chart (default _ _)) as [t|]; [|done]. by apply (f_equal Some).
  - destruct (get_service_state m SECURITY_ACCESS) as [cur|]; [|done]. pose proof (twice_same security_chart dc cur Hone') as Ht.
    cbn [fmap option_fmap option_map mbind option_bind] in *.
    destruct (lookup_state_transition dc security_chart (default _ _)) as [t|]; [|done]. by apply (f_equal Some).
Qed.

(** ** Properties *)

(** C14: whatever requests are built, answered and decoded, in any order, with
    detections, changes of the variant and reloads of the database in between,
    the session and the security level that are kept for an ECU are states of a
    chart of one of its variants, the start state or one that a transition of the
    chart leads to; or, after a request to put a group or the ECU into a state,
    the name of the service that was used for it. *)
Theorem states_stay_in_charts convention m t :
  service_states m = ∅ ->
  rtc (state_step convention) {| tracked_ecu := m; under_way := []; stored_names := [] |} t ->
  (forall s, session (tracked_ecu t) = Ok s ->
     state_of_chart m (session_semantic convention) s \/ (SESSION_CONTROL, s) ∈ stored_names t) /\
  (forall s, security_access (tracked_ecu t) = Ok s ->
     state_of_chart m (security_semantic convention) s \/ (SECURITY_ACCESS, s) ∈ stored_names t).
Proof.
  intros He Hsteps.
  assert (Hok : tracked_ok convention m {| tracked_ecu := m; under_way := []; stored_names := [] |}).
  { split; [split; by auto|..|by constructor]; intros s; unfold get_service_state; cbn [tracked_ecu]; by rewrite He, lookup_empty. }
  destruct (state_steps_ok _ _ _ _ Hsteps Hok) as [_ Hos Hox _]. unfold session, security_access.
  split; intros s Hs; [apply Hos|apply Hox]; by destruct (get_service_state _ _); [injection Hs as ->|].
Qed.

(** the transition of a positive answer is made twice, by the transport with
    what was looked up for the request and by the decoder with what it looks up
    then; when all transitions of a service lead to one state, the second time
    changes nothing. *)
Theorem second_transition_changes_nothing convention m dc session_chart security_chart :
  chart_for m (session_semantic convention) = Some session_chart ->
  chart_for m (security_semantic convention) = Some security_chart ->
  (forall a b a' b', own_transition session_chart dc a b -> own_transition session_chart dc a' b' -> lowercase b = lowercase b') ->
  (forall a b a' b', own_transition security_chart dc a b -> own_transition security_chart dc a' b' -> lowercase b = lowercase b') ->
  let '(new_session, new_security) := lookup_state_transition_by_diagcomm_for_active convention m dc in
  let m1 := set_if (set_if m SESSION_CONTROL new_session) SECURITY_ACCESS new_security in
  let m2 := update_states convention dc m1 in
  lowercase <$> get_service_state m2 SESSION_CONTROL = lowercase <$> get_service_state m1 SESSION_CONTROL /\
  lowercase <$> get_service_state m2 SECURITY_ACCESS = lowercase <$> get_service_state m1 SECURITY_ACCESS.
Proof. apply stored_twice. Qed.

Lemma validate_state_spec required current d : validate_state required current d = Ok () <->
  (forall n, n ∉ required) \/ current ∈ required \/ d ∈ required.
Proof.
  unfold validate_state. destruct (bool_decide (required = []) || _ || _) eqn:E.
  - split; [intros _|done]. rewrite !orb_true_iff, !bool_decide_eq_true in E. destruct E as [[->|?]|?]; [|auto..].
    left. intros n. apply not_elem_of_nil.
  - split; [done|]. rewrite !orb_false_iff, !bool_decide_eq_false in E. destruct E as [[Hn Hc] Hd].
    intros [H|[H|H]]; [|done..]. destruct required as [|n l]; [done|]. exfalso. apply (H n). by left.
Qed.

(** a service with preconditions may be used exactly when both the security
    level and the session allow it: when nothing is required of it, or when the
    state of the ECU, or the start state of the chart, is one the service names
    as precondition or starts a transition of the service. *)
Theorem access_by_state convention m dc refs cur_session cur_security session_names security_names d_session d_security :
  pre_condition_state_refs dc = Some refs -> refs <> [] ->
  session m = Ok cur_session -> security_access m = Ok cur_security ->
  get_state_names m (session_semantic convention) = Ok session_names ->
  get_state_names m (security_semantic convention) = Ok security_names ->
  default_session convention m = Ok d_session -> default_security_access convention m = Ok d_security ->
  let requires_security n := n ∈ transition_sources dc \/ (n ∈ precondition_names refs /\ n ∈ security_names) in
  let requires_session n :=
    n ∈ transition_sources dc \/ (n ∈ precondition_names refs /\ n ∈ session_names /\ n ∉ security_names) in
  let allows requires current d :=
    (forall n, ~ requires n) \/ requires (lowercase current) \/ requires (lowercase d) in
  check_service_preconditions convention m dc = Ok () <->
  allows requires_security cur_security d_security /\ allows requires_session cur_session d_session.
Proof.
  intros Hrefs Hne Hs Hx Hns Hnx Hds Hdx requires_security requires_session allows.
  unfold check_service_preconditions. rewrite Hrefs. destruct refs as [|r refs]; [done|].
  set (names := precondition_names (r :: refs)) in *. rewrite Hs, Hx, Hns, Hnx. cbn [mbind result_bind].
  unfold allowed_states. rewrite Hds, Hdx. cbn [mbind result_bind].
  set (asec := List.filter (fun s => bool_decide (s ∈ security_names)) names ++ _). set (ases := List.filter _ names ++ _).
  assert (Hsec : forall n, n ∈ asec <-> requires_security n).
  { intros n. subst asec requires_security. rewrite elem_of_app, list_elem_of_In, List.filter_In, <- list_elem_of_In.
    cbn beta. rewrite bool_decide_eq_true. tauto. }
  assert (Hses : forall n, n ∈ ases <-> requires_session n).
  { intros n. subst ases requires_session. rewrite elem_of_app, list_elem_of_In, List.filter_In, <- list_elem_of_In.
    cbn beta. rewrite andb_true_iff, negb_true_iff, bool_decide_eq_true, bool_decide_eq_false. tauto. }
  assert (Hv : forall required (requires : str -> Prop) cur d, (forall n, n ∈ required <-> requires n) ->
    validate_state required (lowercase cur) (lowercase d) = Ok () <-> allows requires cur d).
  { intros required requires cur d H. rewrite validate_state_spec. subst allows. cbn. rewrite !H. by setoid_rewrite H. }
  rewrite <- (Hv asec _ _ _ Hsec), <- (Hv ases _ _ _ Hses).
  destruct (validate_state asec _ _) as [[]|e]; cbn [mbind result_bind]; split; [by intros ?|by intros [_ ?]|done|by intros [? _]].
Qed.

(** the service that [lookup_session_change] finds for a session leads there:
    when some service has a transition of the chart from the current session to
    the wanted one, the answer names a service of the database whose positive
    response sets the session to the wanted state, provided that service leads
    from the current state to one state only. *)
Theorem session_change_lands convention m sc ts target cur api :
  one_chart m (session_semantic convention) sc -> state_transitions sc = Some ts ->
  find_map (fun c => if has_name (chart_semantic c) (session_semantic convention) then state_transitions c else None)
    (dl ← current_layers m; default [] (layer_state_charts dl)) = Some ts ->
  (forall st st' s, s ∈ get_services_from_variant_and_parent_refs m (fun _ => true) -> st' ∈ ts ->
     (exists dc refs, diag_comm s = Some dc /\ state_transition_refs dc = Some refs /\ Some st ∈ refs) ->
     table st' = table st -> st' = st) ->
  session m = Ok cur ->
  get_services_from_variant_and_parent_refs m (has_transition cur target ts) <> [] ->
  lookup_session_change convention m target = Ok api ->
  exists s dc, s ∈ get_services_from_variant_and_parent_refs m (fun _ => true) /\
    service_try_into s = Ok api /\ diag_comm s = Some dc /\
    ((forall a b a' b', own_transition sc dc a b -> own_transition sc dc a' b' ->
        lowercase a = lowercase cur -> lowercase a' = lowercase cur -> lowercase b = lowercase b') ->
     exists new, get_service_state (update_states convention dc m) SESSION_CONTROL = Some new /\
       lowercase new = lowercase target).
Proof.
  intros [Hchart _] Hts Hfind Htable Hcur Hsome. unfold lookup_session_change. rewrite Hcur. cbn [mbind result_bind].
  unfold lookup_state_transition_for_active. rewrite Hfind. cbn [mbind result_bind ok_or].
  destruct (head _) as [s|] eqn:Hh; [|by destruct (get_services_from_variant_and_parent_refs m (has_transition cur target ts))].
  cbn [mbind result_bind ok_or]. intros Hapi. apply head_elem, in_services in Hh as [Hin Hhas].
  apply has_transition_spec in Hhas as (dc & refs & st & st' & Hdc & Hrefs & Hst & Hsrc & Htgt & Hst' & Ht).
  assert (st' = st) as -> by (eapply (Htable st st' s Hin Hst'); [by exists dc, refs|done]).
  exists s, dc. split; [done|]. split; [done|]. split; [done|]. intros Hone.
  pose proof Hsrc as (src & Hsrc' & Hls)%has_name_spec. apply has_name_spec in Htgt as (tgt & Htgt' & Hlt).
  destruct (lookup_finds dc sc ts cur refs st Hrefs Hst Hts Hst' Hsrc) as [t Hl]; [by eexists|].
  unfold session in Hcur. destruct (get_service_state m SESSION_CONTROL) as [c|] eqn:Ec; [|done]. injection Hcur as ->.
  unfold update_states, lookup_state_transition_by_diagcomm_for_active. rewrite Hchart, Ec. cbn [mbind option_bind].
  rewrite Hl, get_session_after. exists t. split; [done|]. apply lookup_own in Hl as (a & Ha & Hla).
  rewrite <- Hlt. apply (Hone a t src tgt); [done| |done|done]. by exists refs, st.
Qed.

(** ** An ECU with charts *)

Definition transition (id : Z) (a b : string) : StateTransition :=
  {| table := id; source_short_name_ref := Some a; target_short_name_ref := Some b |}.
Definition chart (semantic start : string) (names : list string) (ts : list StateTransition) : StateChart :=
  {| chart_semantic := Some semantic; start_state_short_name_ref := Some start; states := Some (Some <$> names);
     state_transitions := Some ts |}.

Definition to_extended : StateTransition := transition 1 "Default" "Extended".
Definition to_default : StateTransition := transition 2 "Extended" "Default".
Definition to_programming : StateTransition := transition 3 "Extended" "Programming".
Definition unlock : StateTransition := transition 4 "Locked" "Level_01".

Definition sessions : StateChart := chart "SESSION" "Default" ["Default"; "Extended"; "Programming"]
  [to_extended; to_default; to_programming].
Definition levels : StateChart := chart "SECURITY" "Locked" ["Locked"; "Level_01"] [unlock].

Definition comm (n : string) (ts : list StateTransition) (pre : list string) : DiagComm :=
  {| comm_short_name := Some n; state_transition_refs := Some (Some <$> ts);
     pre_condition_state_refs := Some ((fun s => Some (Some s)) <$> pre); funct_class := None |}.
Definition comm_service (dc : DiagComm) (params : list Param) : DiagService :=
  {| diag_comm := Some dc; request := Some (Some params); pos_responses := None; neg_responses := None |}.

Definition extended_session : DiagComm := comm "Extended_Session" [to_extended] [].
Definition session_service (dc : DiagComm) : DiagService := comm_service dc [const_param "sid" 0 8 "16"; const_param "sub" 1 8 "3"].

Definition ecu_in (services : list DiagService) (states : list (Z * string)) : EcuManager :=
  with_services (list_to_map states)
    (ecu_with [{| VariantDetection.short_name := Some "V"%string; is_base_variant := false; variant_pattern := None;
                  diag_layer := Some {| layer_short_name := Some "V"%string; layer_state_charts := Some [sessions; levels];
                                        diag_services := Some services; single_ecu_jobs := None |};
                  parent_refs := None |}] (Some 0)).

Definition in_default : list (Z * string) := [(SESSION_CONTROL, "Default"%string); (SECURITY_ACCESS, "Locked"%string)].

Local Abbreviation conv := DatabaseNamingConvention_default.

Lemma states_stay_in_charts_witness :
  let m := ecu_in [session_service extended_session] [] in
  let t1 := (set_default_states "SESSION" "SECURITY" m).1 in
  let t2 := set_service_state (update_states conv extended_session t1) SECURITY_ACCESS "Unlock" in
  session t2 = Ok "Extended"%string /\ security_access t2 = Ok "Unlock"%string /\
  (state_of_chart m "SESSION" "Extended" \/ (SESSION_CONTROL, "Extended"%string) ∈ [(SECURITY_ACCESS, "Unlock"%string)]).
Proof.
  intros m t1 t2. assert (Hs : session t2 = Ok "Extended"%string) by (vm_compute; reflexivity).
  split; [exact Hs|]. split; [vm_compute; reflexivity|].
  refine (proj1 (states_stay_in_charts conv m
            {| tracked_ecu := t2; under_way := []; stored_names := [(SECURITY_ACCESS, "Unlock"%string)] |} eq_refl _) _ Hs).
  eapply rtc_l; [apply (step_detected conv m m [] []); by repeat split; auto|].
  eapply rtc_l; [apply (step_defaults conv m [] [])|]. eapply rtc_l; [apply (step_decode conv t1 [] [] extended_session)|].
  eapply rtc_l; [apply (step_set conv (update_states conv extended_session t1) [] [] SECURITY_ACCESS "Unlock")|apply rtc_refl].
Defined.

Lemma own_transition_in sc dc ts a b : state_transition_refs dc = Some (Some <$> ts) -> own_transition sc dc a b ->
  exists st, st ∈ ts /\ source_short_name_ref st = Some a /\ target_short_name_ref st = Some b.
Proof.
  intros Hr (refs & st & Hr' & Hst & Ha & Hb). rewrite Hr in Hr'. injection Hr' as <-.
  apply list_elem_of_fmap in Hst as (? & [= <-] & ?). by exists st.
Qed.

Lemma second_transition_changes_nothing_witness :
  let m := ecu_in [session_service extended_session] in_default in
  let m1 := set_if (set_if m SESSION_CONTROL (Some "Extended"%string)) SECURITY_ACCESS None in
  lowercase <$> get_service_state (update_states conv extended_session m1) SESSION_CONTROL = Some (lowercase "Extended").
Proof.
  intros m m1.
  assert (Hone : forall sc a b a' b', own_transition sc extended_session a b -> own_transition sc extended_session a' b' ->
    lowercase b = lowercase b').
  { intros sc a b a' b' (st & Hst & _ & Hb)%(own_transition_in _ _ [to_extended]) (st' & Hst' & _ & Hb')%(own_transition_in _ _ [to_extended]);
      [|reflexivity..]. apply list_elem_of_singleton in Hst as ->. apply list_elem_of_singleton in Hst' as ->. congruence. }
  pose proof (second_transition_changes_nothing conv m extended_session sessions levels eq_refl eq_refl (Hone _) (Hone _)) as H.
  assert (E : lookup_state_transition_by_diagcomm_for_active conv m extended_session = (Some "Extended"%string, None))
    by (vm_compute; reflexivity).
  rewrite E in H. destruct H as [H _]. exact H.
Defined.

(** A service that toggles moves twice: the session was Default, the ECU is in
    the extended session now, and Default is what is kept. *)
Example toggle_moves_twice :
  let toggle := comm "Toggle" [to_extended; to_default] [] in
  let m := ecu_in [session_service toggle] in_default in
  let '(new_session, new_security) := lookup_state_transition_by_diagcomm_for_active conv m toggle in
  let m1 := set_if (set_if m SESSION_CONTROL new_session) SECURITY_ACCESS new_security in
  session m1 = Ok "Extended"%string /\ session (update_states conv toggle m1) = Ok "Default"%string.
Proof. split; vm_compute; reflexivity. Qed.

Definition flash : DiagComm := comm "Flash" [] ["Programming"; "Level_01"].

Lemma access_by_state_witness :
  check_service_preconditions conv (ecu_in [] [(SESSION_CONTROL, "programming"); (SECURITY_ACCESS, "LEVEL_01")]%string) flash = Ok ().
Proof.
  apply (access_by_state conv _ flash [Some (Some "Programming"); Some (Some "Level_01")]%string "programming" "LEVEL_01"
           (lowercase <$> ["Default"; "Extended"; "Programming"]%string) (lowercase <$> ["Locked"; "Level_01"]%string)
           "Default" "Locked"); try (vm_compute; reflexivity); [discriminate|].
  split; right; left; right; repeat split; apply (bool_decide_unpack _); vm_compute; exact I.
Defined.

(** The sources of all transitions are asked of both the session and the
    security level: a service that only asks for a session and leads to another
    one can never be used. *)
Example session_transition_locks_security :
  let programming := comm "Programming_Session" [to_programming] ["Extended"]%string in
  check_service_preconditions conv (ecu_in [] [(SESSION_CONTROL, "Extended"); (SECURITY_ACCESS, "Locked")]%string) programming
  = Err InvalidState.
Proof. vm_compute. reflexivity. Qed.

Lemma session_change_lands_witness :
  exists s dc, s ∈ [session_service extended_session] /\ diag_comm s = Some dc /\
    exists new, get_service_state (update_states conv dc (ecu_in [session_service extended_session] in_default)) SESSION_CONTROL
                = Some new /\ lowercase new = lowercase "extended".
Proof.
  set (m := ecu_in [session_service extended_session] in_default).
  assert (Hin : forall s, s ∈ get_services_from_variant_and_parent_refs m (fun _ => true) -> s = session_service extended_session).
  { intros s Hs. apply list_elem_of_singleton. exact Hs. }
  destruct (session_change_lands conv m sessions [to_extended; to_default; to_programming] "extended" "Default"
              {| name := "Extended_Session"; type_ := Modes; lookup_name := Some "Extended_Session"%string; subfunction_id := None |})
    as (s & dc & Hs & _ & Hdc & Hnew); try (vm_compute; reflexivity).
  - split; vm_compute; reflexivity.
  - intros st st' s Hs%Hin Hst' (dc & refs & Hdc & Hr & Hst). subst s. injection Hdc as <-. injection Hr as <-.
    apply list_elem_of_singleton in Hst. injection Hst as ->.
    repeat (apply elem_of_cons in Hst' as [->|Hst']; [by intros|]). by apply not_elem_of_nil in Hst'.
  - vm_compute. discriminate.
  - apply Hin in Hs as ->. injection Hdc as <-. exists (session_service extended_session), extended_session.
    split; [by left|]. split; [reflexivity|]. apply Hnew.
    intros a b a' b' (st & Hst & _ & Hb)%(own_transition_in _ _ [to_extended]) (st' & Hst' & _ & Hb')%(own_transition_in _ _ [to_extended]) _ _;
      [|reflexivity..]. apply list_elem_of_singleton in Hst as ->. apply list_elem_of_singleton in Hst' as ->. congruence.
Defined.

(** From a session without a way on, the service of the default session is
    taken; its positive answer is not recorded. *)
Example fallback_is_not_recorded :
  let m := ecu_in [session_service extended_session] [(SESSION_CONTROL, "Programming"); (SECURITY_ACCESS, "Locked")]%string in
  result_ok (name <$> lookup_session_change conv m "Extended") = Some "Extended_Session"%string /\
  session (update_states conv extended_session m) = Ok "Programming"%string.
Proof. split; vm_compute; reflexivity. Qed.

(** The way back to the start level asks for a seed of that level, which no
    service gives. *)
Example start_level_cannot_be_requested :
  let key := comm_service (comm "SendKey_01" [unlock] []) [const_param "sid" 0 8 "39"; const_param "sub" 1 8 "2"] in
  let seed := comm_service (comm "RequestSeed_Level_01" [] []) [const_param "sid" 0 8 "39"; const_param "sub" 1 8 "1"] in
  let m := ecu_in [seed; key] [(SESSION_CONTROL, "Extended"); (SECURITY_ACCESS, "Level_01")]%string in
  lookup_security_access_change conv m "Locked" false = Err NotFound /\
  default_security_access conv m = Ok "Locked"%string.
Proof. split; vm_compute; reflexivity. Qed.
