(* ===== verification/PayloadDecode.v ===== *)
(** * Decoding a response

    cda-core/src/diag_kernel/payload_decode.rs: a payload is mapped to values
    by name, parameter by parameter.  A parameter leads to a data object, a
    data object to further parameters; [map_param_from_uds] closes the circle,
    the handlers before it take it as an argument.  The containers are those of
    diagservices.rs; the field loops are in FieldDecoding.v. *)

From stdpp Require Import strings gmap.
From stdpp Require Import list.
From S2P Require Import Prelude Bytes Errors Text Ieee754 Json DiagCodedType Values Conversion Uds Payload FieldDecoding Database.

Local Open Scope Z_scope.
Set Warnings "-register-all".

(** ** Containers *)

Record DiagDataContainerDtc : Type := {
  code : Z;
  display_code : option str;
  fault_name : str;
  severity : Z;
  dtc_bit_pos : Z;
  dtc_bit_len : Z;
  dtc_byte_pos : Z
}.

Inductive DiagDataTypeContainer : Type :=
  | RawContainer (raw : DiagDataTypeContainerRaw)
  | Struct (m : gmap str DiagDataTypeContainer)
  | RepeatingStruct (l : list (gmap str DiagDataTypeContainer))
  | DtcStruct (dtc : DiagDataContainerDtc).

Abbreviation MappedPayload := (gmap str DiagDataTypeContainer).

Definition DTC_CODE_BIT_LEN : Z := 24.

(** ** Code on the payload and the values decoded so far *)

Abbreviation mapper := (st_result (Payload * MappedPayload) failure).

Definition on_payload {A} (m : decoder A) : mapper A := fun '(p, data) => let '(p, r) := m p in ((p, data), r).
Definition insert_data (name : str) (c : DiagDataTypeContainer) : mapper unit :=
  modify (fun '(p, data) => (p, <[name := c]> data)).

(** Into a new map. *)
Definition collect (m : mapper unit) : decoder MappedPayload := fun p =>
  let '((p, data), r) := m (p, ∅) in (p, (fun _ => data) <$> r).

Fixpoint for_each {A} (f : A -> mapper unit) (l : list A) : mapper unit :=
  match l with
  | [] => mret ()
  | a :: l => _ ← f a; for_each f l
  end.

Record ParamContext : Type := {
  parameter : Param;
  base_offset : Z;
  outer_context : option MappedPayload
}.

Definition ParamContext_new (parameter : Param) (base_offset : Z) : ParamContext :=
  {| parameter := parameter; base_offset := base_offset; outer_context := None |}.
Definition with_outer_context (outer : option MappedPayload) (self : ParamContext) : ParamContext :=
  {| parameter := parameter self; base_offset := base_offset self; outer_context := outer |}.

Definition abs_byte_pos (self : ParamContext) : Z := (base_offset self +sat byte_position (parameter self))%rust.

(** Data objects and services are looked up in the database. *)
Definition required {S A} (o : option A) : st_result S failure A := returns (ok_or o InvalidDatabase).

(** ** Constants *)

(** [str_to_json_value] of payload.rs *)
Definition str_to_json_value {ext : Externals} (value : str) (data_type : DataType) : dresult Value :=
  match data_type with
  | Int32 => i32val ← ok_or (parse_i32 value) InvalidDatabase; Ok (Number (number_from_i64 i32val))
  | UInt32 => u32val ← ok_or (parse_u32 value) InvalidDatabase; Ok (Number (number_from_u64 u32val))
  | Float32 | Float64 =>
      f64val ← ok_or (parse_float F64 value) InvalidDatabase;
      Ok (match number_from_f64 f64val with Some n => Number n | None => Null end)
  | AsciiString | Utf8String | Unicode2String | ByteField => Ok (Json.String value)
  end.

Definition map_param_coded_const_from_uds {ext : Externals} (param_name : str) (param_ctx : ParamContext) : mapper unit :=
  c ← required (as_coded_const (parameter param_ctx));
  diag_type ← returns (diag_coded_type_of (const_coded_type c));
  value ← on_payload (extract_diag_data_container (abs_byte_pos param_ctx) (bit_position (parameter param_ctx)) diag_type None);
  const_value ← required (coded_value c);
  const_json_value ← returns (str_to_json_value const_value (base_datatype diag_type));
  expected ← lift (json_value_to_uds_data diag_type None None const_json_value);
  expected ← returns (ok_or (slice expected (len expected -sat len (raw_data value))%rust (len expected)) BadPayload);
  if negb (bool_decide (raw_data value = expected)) then fails BadPayload
  else insert_data param_name (RawContainer value).

(** [reserved_param_data_type] of diag_kernel.rs *)
Definition reserved_param_data_type (bit_length : Z) : DataType := if 32 <? bit_length then ByteField else UInt32.

Definition reserved_coded_type (bit_length : Z) : dresult DiagCodedType :=
  new_high_low_byte_order (reserved_param_data_type bit_length)
    (StandardLength {| bit_length := bit_length; bit_mask := None; condensed := false |}).

Definition map_param_reserved_from_uds (param_name : str) (param_ctx : ParamContext) : mapper unit :=
  bits ← required (match specific_data (parameter param_ctx) with ReservedData bits => Some bits | _ => None end);
  coded_type ← returns (reserved_coded_type bits);
  uds_payload ← on_payload (gets view ≫= returns);
  '(param_data, bit_len) ← returns (decode coded_type uds_payload (abs_byte_pos param_ctx) (bit_position (parameter param_ctx)));
  insert_data param_name (RawContainer {| raw_data := param_data; raw_bit_len := bit_len;
    raw_data_type := reserved_param_data_type bits; raw_compu_method := None |}).

(** ** Data objects *)

Definition extract_struct_dop_from_field (field : option DopField) : dresult StructureDop :=
  ok_or (f ← field; s ← basic_structure f; as_structure s) InvalidDatabase.

(** The value of a field without BYTE-POSITION follows what was read last. *)
Definition value_byte_pos (param_ctx : ParamContext) : mapper Z :=
  if has_byte_position (parameter param_ctx) then mret (abs_byte_pos param_ctx)
  else on_payload (gets last_read_byte_pos).

Definition map_normal_dop_from_uds (short_name : str) (normal_dop : NormalDop) (param_ctx : ParamContext) : mapper unit :=
  diag_coded_type ← returns (normal_diag_coded_type normal_dop);
  compu_method ← required (normal_compu_method normal_dop);
  byte_pos ← value_byte_pos param_ctx;
  c ← on_payload (extract_diag_data_container byte_pos (bit_position (parameter param_ctx)) diag_coded_type (Some compu_method));
  insert_data short_name (RawContainer c).

Definition map_dtc_dop_from_uds (param_name : str) (dtc_dop : DtcDop) (param_ctx : ParamContext) : mapper unit :=
  coded_type ← returns (dtc_diag_coded_type dtc_dop);
  uds_payload ← on_payload (gets view ≫= returns);
  '(dtc_value, _) ← returns (decode coded_type uds_payload (abs_byte_pos param_ctx) (bit_position (parameter param_ctx)));
  code ← returns (DiagDataValue_new (base_datatype coded_type) dtc_value ≫= value_u32);
  record ← returns (ok_or (dtcs ← dtcs dtc_dop; List.find (fun dtc => trouble_code dtc =? code) dtcs) BadPayload);
  byte_pos ← required (if abs_byte_pos param_ctx <=? U32_MAX then Some (abs_byte_pos param_ctx) else None);
  insert_data param_name (DtcStruct {|
    code := code; display_code := display_trouble_code record;
    fault_name := default [] (text ← dtc_text record; text); severity := default 0 (level record);
    dtc_bit_pos := bit_position (parameter param_ctx); dtc_bit_len := DTC_CODE_BIT_LEN; dtc_byte_pos := byte_pos |}).

Section decoding.
Context {ext : Externals} (to_string : spec_float -> str).

(** The value a container with raw data shows. *)
Definition raw_value (raw : DiagDataTypeContainerRaw) : dresult DiagDataValue :=
  uds_data_to_serializable to_string (raw_data_type raw) (raw_compu_method raw) false (raw_data raw).

(** [as usize] *)
Definition as_usize (z : Z) : Z := z mod 2 ^ 64.

(** [usize::try_from] of a negative length gives 0. *)
Definition length_key_value (data : MappedPayload) (length_key_name : str) : dresult Z :=
  match data !! length_key_name with
  | Some (RawContainer raw) =>
      phys_val ← raw_value raw;
      match phys_val with
      | VUInt32 n => Ok (as_usize n)
      | VInt32 n => Ok (Z.max n 0)
      | _ => Err ParameterConversionError
      end
  | _ => Err InvalidDatabase
  end.

Definition map_param_length_info_dop_from_uds (short_name : str) (normal_dop : NormalDop) (length_key_name : str)
    (param_ctx : ParamContext) : mapper unit :=
  data ← gets snd;
  byte_count ← returns (length_key_value data length_key_name);
  diag_coded_type ← returns (normal_diag_coded_type normal_dop);
  let container data bit_len := RawContainer {| raw_data := data; raw_bit_len := bit_len;
    raw_data_type := base_datatype diag_coded_type; raw_compu_method := normal_compu_method normal_dop |} in
  if byte_count =? 0 then insert_data short_name (container [] 0)
  else
    byte_pos ← value_byte_pos param_ctx;
    uds_bytes ← on_payload (gets view ≫= returns);
    '(decoded_bytes, bit_len) ← returns (decode_with_runtime_byte_length uds_bytes byte_pos byte_count);
    _ ← on_payload (modify (set_last_read_byte_pos (byte_pos +sat byte_count)%rust));
    insert_data short_name (container decoded_bytes bit_len).

(** *** Environment data *)

Definition discriminator_value_from_outer_data (outer_data : MappedPayload) (param_short_name : str) : dresult Z :=
  match outer_data !! param_short_name with
  | Some (DtcStruct dtc) => Ok (code dtc)
  | Some (RawContainer raw) =>
      val ← raw_value raw;
      match val with
      | VUInt32 n => Ok n
      | VInt32 n => if n <? 0 then Err ParameterConversionError else Ok n
      | _ => Err ParameterConversionError
      end
  | _ => Err InvalidDatabase
  end.

(** First those that list the value, then those that list none. *)
Definition matching_env_data (discriminator : Z) (env_datas : list DataOperation) : option EnvDataDop :=
  match find_map (fun dop => env_data ← as_env_data dop; dtc_values ← dtc_values env_data;
                             if bool_decide (discriminator ∈ dtc_values) then Some env_data else None) env_datas with
  | Some env_data => Some env_data
  | None => find_map (fun dop => env_data ← as_env_data dop;
                                 match dtc_values env_data with
                                 | None | Some [] => Some env_data
                                 | Some _ => None
                                 end) env_datas
  end.

(** *** Multiplexers *)

Definition mux_case_struct_from_selector_value (mux_dop : MuxDop) (switch_key_value : DiagDataValue)
    : option (CaseOf DataOperation * option StructureDop) :=
  cases ← cases mux_dop;
  case ← List.find (fun case => within_limits switch_key_value (case_upper_limit case) (case_lower_limit case)) cases;
  Some (case, s ← case_structure case; as_structure s).

Definition mux_case (mux_dop : MuxDop) (switch_key_value : DiagDataValue) : dresult (str * option StructureDop) :=
  match mux_case_struct_from_selector_value mux_dop switch_key_value with
  | Some (case, case_struct) => name ← ok_or (case_short_name case) InvalidDatabase; Ok (name, case_struct)
  | None =>
      ok_or (default ← default_case mux_dop;
             name ← default_short_name default;
             Some (name, s ← default_structure default; as_structure s)) BadPayload
  end.

(** A case whose data is missing is taken for empty. *)
Definition empty_when_not_enough (m : decoder MappedPayload) : decoder MappedPayload := fun p =>
  match m p with
  | (p, Err e) => if is_not_enough e then (p, Ok ∅) else (p, Err e)
  | r => r
  end.

Definition SELECTOR : str := chars "Selector".

(** *** Structures, with the decoder of parameters *)

Section open.
Context (map_param : str -> ParamContext -> mapper unit).

Definition map_params (base_offset : Z) (outer : option MappedPayload) : list Param -> mapper unit :=
  for_each (fun param =>
    name ← required (short_name param);
    map_param name (with_outer_context outer (ParamContext_new param base_offset))).

Definition map_struct_from_uds (structure : StructureDop) (outer_context : MappedPayload) : decoder MappedPayload :=
  match struct_params structure with
  | None => mret ∅
  | Some params => collect (map_params 0 (Some outer_context) params)
  end.

Definition map_env_data_desc_item_from_uds (outer_data : MappedPayload) (env_data_desc : EnvDataDescOf DataOperation)
    (base_offset : Z) : decoder MappedPayload :=
  param_short_name ← required (param_short_name env_data_desc);
  discriminator ← returns (discriminator_value_from_outer_data outer_data param_short_name);
  env_datas ← required (env_datas env_data_desc);
  match matching_env_data discriminator env_datas with
  | None => mret ∅
  | Some env_data =>
      match env_params env_data with
      | None => mret ∅
      | Some params => collect (map_params base_offset (Some outer_data) params)
      end
  end.

(** The size check, then every parameter under the name of the structure. *)
Definition map_structure_dop_from_uds (short_name : str) (structure_dop : StructureDop) (param_ctx : ParamContext)
    : mapper unit :=
  let structure_start := abs_byte_pos param_ctx in
  _ ← match byte_size structure_dop with
      | None => mret ()
      | Some byte_size =>
          end_ ← returns (ok_or (checked_add structure_start byte_size) BadPayload);
          n ← on_payload (gets length_of);
          if n <? end_ then fails (NotEnoughData end_ n) else mret ()
      end;
  for_each (fun param => map_param short_name (ParamContext_new param structure_start))
    (default [] (struct_params structure_dop)).

Definition map_end_of_pdu (short_name : str) (end_of_pdu_dop : EndOfPduOf DataOperation) : mapper unit :=
  struct_ ← returns (extract_struct_dop_from_field (end_of_pdu_field end_of_pdu_dop));
  data ← gets snd;
  nested_structs ← on_payload (map_end_of_pdu_dop_from_uds (map_struct_from_uds struct_ data));
  match nested_structs with
  | None => mret ()
  | Some nested_structs => insert_data short_name (RepeatingStruct nested_structs)
  end.

Definition map_static_field (short_name : str) (static_field_dop : StaticFieldOf DataOperation) (param_ctx : ParamContext)
    : mapper unit :=
  data ← gets snd;
  nested_structs ← on_payload
    (map_static_field_dop_from_uds (item_byte_size static_field_dop) (fixed_number_of_items static_field_dop)
       (abs_byte_pos param_ctx)
       ((fun s => map_struct_from_uds s data) <$> extract_struct_dop_from_field (static_field static_field_dop)));
  insert_data short_name (RepeatingStruct nested_structs).

Definition repeated_dop (data : MappedPayload) (field : DopField) : RepeatedDop MappedPayload :=
  match basic_structure field ≫= as_structure with
  | Some s => RepeatedStructure (byte_size s) (map_struct_from_uds s data)
  | None =>
      match env_data_desc field with
      | Some (EnvDataDesc d) => RepeatedEnvDataDesc (Some (map_env_data_desc_item_from_uds data d 0))
      | Some _ => RepeatedEnvDataDesc None
      | None => RepeatedOther
      end
  end.

Definition map_dynamic_length_field (short_name : str) (dop : DynamicLengthOf DataOperation) (param_ctx : ParamContext)
    : mapper unit :=
  determine_num_items ← required (determine_number_of_items dop);
  determine_num_items_dop ← required (number_dop determine_num_items);
  num_items_dop ← required (as_normal_dop determine_num_items_dop);
  num_items_diag_type ← returns (normal_diag_coded_type num_items_dop);
  let param_abs_byte_pos :=
    if has_byte_position (parameter param_ctx) then abs_byte_pos param_ctx else base_offset param_ctx in
  data ← gets snd;
  repeated_data ← on_payload
    (map_dynamic_length_field_from_uds to_string (offset dop)
       {| dn_byte_position := number_byte_position determine_num_items;
          dn_bit_position := number_bit_position determine_num_items;
          dn_coded_type := num_items_diag_type |}
       (repeated_dop data <$> ok_or (dynamic_field dop) InvalidDatabase) param_abs_byte_pos);
  insert_data short_name (RepeatingStruct repeated_data).

Definition map_mux_from_uds (short_name : str) (mux_dop : MuxDop) : mapper unit :=
  let byte_pos := mux_byte_position mux_dop in
  switch_key ← required (switch_key mux_dop);
  dop ← required (key_dop switch_key);
  dop ← returns (variant dop);
  normal_dop ← required (as_normal_dop dop);
  switch_key_diag_type ← returns (normal_diag_coded_type normal_dop);
  uds_payload ← on_payload (gets view ≫= returns);
  rest ← returns (ok_or (slice uds_payload (key_byte_position switch_key) (len uds_payload)) BadPayload);
  '(switch_key_data, bit_len) ← returns
    (decode switch_key_diag_type rest (key_byte_position switch_key) (default 0 (key_bit_position switch_key)));
  switch_key_value ← returns
    (uds_data_to_serializable to_string (base_datatype switch_key_diag_type) (normal_compu_method normal_dop) false switch_key_data);
  _ ← on_payload (modify (set_bytes_to_skip (len switch_key_data)));
  let mux_data := {[ SELECTOR := RawContainer {| raw_data := switch_key_data; raw_bit_len := bit_len;
    raw_data_type := base_datatype switch_key_diag_type; raw_compu_method := None |} ]} in
  '(case_name, case_structure) ← returns (mux_case mux_dop switch_key_value);
  mux_data ←
    match case_structure with
    | None => mret mux_data
    | Some case_structure =>
        data ← gets snd;
        case_data ← on_payload
          (n ← gets length_of;
           _ ← attempt (push_slice byte_pos n);
           _ ← modify (set_last_read_byte_pos 0);
           case_data ← empty_when_not_enough (map_struct_from_uds case_structure data);
           _ ← attempt pop_slice;
           mret case_data);
        mret (<[case_name := Struct case_data]> mux_data)
    end;
  insert_data short_name (Struct mux_data).

Definition map_mux_dop_from_uds (short_name : str) (mux_dop : MuxDop) (param_ctx : ParamContext) : mapper unit :=
  n ← on_payload (gets length_of);
  _ ← on_payload (attempt (push_slice (abs_byte_pos param_ctx) n));
  _ ← map_mux_from_uds short_name mux_dop;
  on_payload (attempt pop_slice).

Definition map_env_data_desc (env_data_desc : EnvDataDescOf DataOperation) (param_ctx : ParamContext) : mapper unit :=
  data ← gets snd;
  item ← on_payload (map_env_data_desc_item_from_uds (default data (outer_context param_ctx)) env_data_desc (abs_byte_pos param_ctx));
  modify (fun '(p, data) => (p, item ∪ data)).

Definition map_dop_from_uds (dop : DataOperation) (param_ctx : ParamContext) : mapper unit :=
  short_name ← required (short_name (parameter param_ctx));
  dop ← returns (variant dop);
  match dop with
  | NormalDOP normal_dop =>
      diag_coded_type ← returns (normal_diag_coded_type normal_dop);
      match length_key_name diag_coded_type with
      | Some length_key_name => map_param_length_info_dop_from_uds short_name normal_dop length_key_name param_ctx
      | None => map_normal_dop_from_uds short_name normal_dop param_ctx
      end
  | EndOfPduField end_of_pdu_dop => map_end_of_pdu short_name end_of_pdu_dop
  | StructureDOP structure_dop => map_structure_dop_from_uds short_name structure_dop param_ctx
  | DTCDOP dtc_dop => map_dtc_dop_from_uds short_name dtc_dop param_ctx
  | EnvDataDesc env_data_desc => map_env_data_desc env_data_desc param_ctx
  | EnvData env_data_dop =>
      map_params (base_offset param_ctx) (outer_context param_ctx) (default [] (env_params env_data_dop))
  | StaticField static_field_dop => map_static_field short_name static_field_dop param_ctx
  | MUXDOP mux_dop => map_mux_dop_from_uds short_name mux_dop param_ctx
  | DynamicLengthField dop => map_dynamic_length_field short_name dop param_ctx
  | NoSpecificData | MissingSpecificData => mret () (* no variant *)
  end.

(** *** Parameters *)

Definition map_param_value_from_uds (param_ctx : ParamContext) : mapper unit :=
  dop ← required (match specific_data (parameter param_ctx) with ValueData _ dop => Some dop | _ => None end);
  dop ← required dop;
  map_dop_from_uds dop param_ctx.

Definition map_param_length_key_from_uds (param_ctx : ParamContext) : mapper unit :=
  dop ← required (match specific_data (parameter param_ctx) with LengthKeyData dop => Some dop | _ => None end);
  dop ← required dop;
  map_dop_from_uds dop param_ctx.

Definition map_param_phys_const_from_uds (param_name : str) (param_ctx : ParamContext) : mapper unit :=
  dop ← required (match specific_data (parameter param_ctx) with PhysConstData _ dop => Some dop | _ => None end);
  dop ← required dop;
  v ← returns (variant dop);
  match v with
  | NormalDOP normal_dop =>
      diag_type ← returns (normal_diag_coded_type normal_dop);
      value ← on_payload (extract_diag_data_container (abs_byte_pos param_ctx) (bit_position (parameter param_ctx)) diag_type None);
      insert_data param_name (RawContainer value)
  | StructureDOP _ | EndOfPduField _ | StaticField _ | MUXDOP _ | DynamicLengthField _ => map_dop_from_uds dop param_ctx
  | _ => fails InvalidDatabase
  end.

Definition map_table_key_from_uds (param_name : str) (param_ctx : ParamContext) : mapper unit :=
  table_dop ← required (as_table_key (parameter param_ctx));
  table_dop ← required table_dop;
  key_dop ← required (table_key_dop table_dop);
  key_dop ← returns (variant key_dop);
  normal_dop ← required (as_normal_dop key_dop);
  diag_type ← returns (normal_diag_coded_type normal_dop);
  value ← on_payload (extract_diag_data_container (abs_byte_pos param_ctx) (bit_position (parameter param_ctx)) diag_type
                        (normal_compu_method normal_dop));
  insert_data param_name (RawContainer value).

(** The key of a row, as text. *)
Definition table_key_text (container : DiagDataTypeContainer) : dresult str :=
  match container with
  | RawContainer raw =>
      value ← raw_value raw;
      match value with
      | VString s => Ok s
      | VUInt32 n | VInt32 n => Ok (decimal n)
      | _ => Err ParameterConversionError
      end
  | _ => Err ParameterConversionError
  end.

Definition row_selected (key_str : str) (row : TableRow) : bool :=
  bool_decide (row_short_name row = Some key_str) || bool_decide (row_key row = Some key_str).

Definition map_table_struct_from_uds (param_name : str) (param_ctx : ParamContext) : mapper unit :=
  table_key_param ← required (match specific_data (parameter param_ctx) with TableStructData k => Some k | _ => None end);
  table_key_param ← required table_key_param;
  key_param_name ← required (short_name table_key_param);
  data ← gets snd;
  key_container ← returns (ok_or (data !! key_param_name) InvalidRequest);
  key_str ← returns (table_key_text key_container);
  table_dop ← required (as_table_key table_key_param);
  table_dop ← required table_dop;
  rows ← required (rows table_dop);
  selected_row ← returns (ok_or (List.find (row_selected key_str) rows) InvalidRequest);
  match row_structure selected_row with
  | None => insert_data param_name (Struct ∅)
  | Some structure_dop =>
      structure_dop ← returns (variant structure_dop);
      struct_dop ← required (as_structure structure_dop);
      struct_data ← on_payload
        (n ← gets length_of;
         _ ← attempt (push_slice (abs_byte_pos param_ctx) n);
         _ ← modify (set_last_read_byte_pos 0);
         struct_data ← map_struct_from_uds struct_dop data;
         _ ← attempt pop_slice;
         mret struct_data);
      insert_data param_name (Struct {[ default [] (row_short_name selected_row) := Struct struct_data ]})
  end.

(** [u32::try_from(request_byte_pos)] *)
Definition request_param_at (mapped_service : DiagService) (request_byte_pos : Z) : dresult Param :=
  request ← ok_or (request mapped_service) InvalidDatabase;
  pos ← ok_or (if request_byte_pos <? 0 then None else Some request_byte_pos) InvalidDatabase;
  ok_or (params ← request; List.find (fun p => byte_position p =? pos) params) UdsLookupError.

Definition map_param_matching_request_from_uds (mapped_service : DiagService) (param_name : str) (param_ctx : ParamContext)
    : mapper unit :=
  request_byte_pos ← required (match specific_data (parameter param_ctx) with MatchingRequestData n => Some n | _ => None end);
  matching_request_param ← returns (request_param_at mapped_service request_byte_pos);
  let pop := request_byte_pos <? byte_position (parameter param_ctx) in
  _ ← (if pop then n ← on_payload (gets length_of); on_payload (attempt (push_slice (abs_byte_pos param_ctx) n)) else mret ());
  _ ← map_param param_name (ParamContext_new matching_request_param 0);
  if pop then on_payload (attempt pop_slice) else mret ().
End open.

(** The types without a handler are skipped.  [fuel] bounds the depth of the
    database. *)
Fixpoint map_param_from_uds (fuel : nat) (mapped_service : DiagService) (param_name : str) (param_ctx : ParamContext)
    : mapper unit :=
  match fuel with
  | O => lift (Err OutOfFuel)
  | S fuel =>
      let map_param := map_param_from_uds fuel mapped_service in
      param_type ← returns (param_type (parameter param_ctx));
      match param_type with
      | CodedConstType => map_param_coded_const_from_uds param_name param_ctx
      | MatchingRequestParam => map_param_matching_request_from_uds map_param mapped_service param_name param_ctx
      | ValueType => map_param_value_from_uds map_param param_ctx
      | Reserved => map_param_reserved_from_uds param_name param_ctx
      | LengthKey => map_param_length_key_from_uds map_param param_ctx
      | PhysConst => map_param_phys_const_from_uds map_param param_name param_ctx
      | TableKey => map_table_key_from_uds param_name param_ctx
      | TableStruct => map_table_struct_from_uds map_param param_name param_ctx
      | TableEntry | Dynamic | NrcConst | System => mret ()
      end
  end.
End decoding.
