(* ===== verification/DecodeSafety.v ===== *)
(** * Decoding ends, without a panic

    Whatever an ECU answers: [map_param_from_uds] ends with a value or an error
    of the source, as long as the database is finitely deep and its positions
    are unsigned.  The depth counts the way through MATCHING-REQUEST-PARAMs,
    the one place where the database can lead back to itself. *)

From stdpp Require Import strings gmap.
From stdpp Require Import list.
From S2P Require Import Prelude Bytes Errors Text Ieee754 Json DiagCodedType Values Conversion Uds Payload FieldDecoding Database PayloadDecode.

Local Open Scope Z_scope.

(** ** What a parameter leads to *)

Definition structure_params (d : option DataOperation) : list Param :=
  default [] (d ← d; s ← as_structure d; struct_params s).

Definition env_data_params (l : option (list DataOperation)) : list Param :=
  l ← default [] l; default [] (e ← as_env_data l; env_params e).

Definition field_params (f : option DopField) : list Param :=
  match f with
  | None => []
  | Some f =>
      structure_params (basic_structure f) ++
      match env_data_desc f with Some (EnvDataDesc d) => env_data_params (env_datas d) | _ => [] end
  end.

Definition dop_params (d : DataOperation) : list Param :=
  match d with
  | StructureDOP s => default [] (struct_params s)
  | EnvData e => default [] (env_params e)
  | EnvDataDesc e => env_data_params (env_datas e)
  | EndOfPduField e => field_params (end_of_pdu_field e)
  | StaticField s => field_params (static_field s)
  | DynamicLengthField d => field_params (dynamic_field d)
  | MUXDOP m =>
      (c ← default [] (cases m); structure_params (case_structure c)) ++
      structure_params (d ← default_case m; default_structure d)
  | NormalDOP _ | DTCDOP _ | NoSpecificData | MissingSpecificData => []
  end.

Definition table_params (t : option TableDop) : list Param :=
  row ← default [] (t ← t; rows t); structure_params (row_structure row).

Definition sub_parameters (svc : DiagService) (p : Param) : list Param :=
  match specific_data p with
  | ValueData _ (Some d) | LengthKeyData (Some d) | PhysConstData _ (Some d) => dop_params d
  | MatchingRequestData n => match request_param_at svc n with Ok q => [q] | Err _ => [] end
  | TableStructData (Some k) => table_params (default None (as_table_key k))
  | _ => []
  end.

(** ** Unsigned positions *)

Definition field_unsigned (f : option DopField) : bool :=
  match (f ← f; s ← basic_structure f; s ← as_structure s; byte_size s) with
  | Some n => 0 <=? n
  | None => true
  end.

Definition dop_unsigned (d : DataOperation) : bool :=
  match d with
  | DynamicLengthField d =>
      (0 <=? offset d) && field_unsigned (dynamic_field d)
      && match determine_number_of_items d with Some n => 0 <=? number_byte_position n | None => true end
  | _ => true
  end.

Definition unsigned (p : Param) : bool :=
  (0 <=? byte_position p) &&
  match specific_data p with
  | ValueData _ (Some d) | LengthKeyData (Some d) | PhysConstData _ (Some d) => dop_unsigned d
  | _ => true
  end.

(** The database below [p] is at most [n] deep. *)
Fixpoint decodable (svc : DiagService) (n : nat) (p : Param) : bool :=
  match n with
  | O => false
  | S n => unsigned p && forallb (decodable svc n) (sub_parameters svc p)
  end.

(** ** Safe mappers *)

Definition safe_mapper {A} (m : mapper A) : Prop :=
  forall data, safe (fun p => ((m (p, data)).1.1, (m (p, data)).2)).

Lemma mapper_of_payload {A} (m : decoder A) : safe m -> safe_mapper (on_payload m).
Proof. intros Hm data p Hp. specialize (Hm p Hp). unfold on_payload. by destruct (m p). Qed.

Lemma mapper_pure {A} (m : mapper A) : (forall s, (m s).1.1 = s.1) -> (forall s, regular (m s).2) -> safe_mapper m.
Proof. intros H1 H2 data. apply safe_pure; intros p; [by apply H1|apply H2]. Qed.

Lemma mapper_ret {A} (a : A) : safe_mapper (mret a).
Proof. by apply mapper_pure. Qed.

Lemma mapper_gets {A} (f : Payload * MappedPayload -> A) : safe_mapper (gets f).
Proof. by apply mapper_pure. Qed.

Lemma mapper_fails {A} e : safe_mapper (fails (A := A) e).
Proof. by apply mapper_pure. Qed.

Lemma mapper_lift {A} (r : presult A) : regular r -> safe_mapper (lift r).
Proof. intros Hr. by apply mapper_pure. Qed.

Lemma mapper_modify_data (f : MappedPayload -> MappedPayload) :
  safe_mapper (modify (fun '(p, data) => (p, f data))).
Proof. apply mapper_pure; by intros []. Qed.

Lemma mapper_insert name c : safe_mapper (insert_data name c).
Proof. apply (mapper_modify_data (fun data => <[name := c]> data)). Qed.

Lemma mapper_bind {A B : Type} (m : mapper A) (f : A -> mapper B) :
  safe_mapper m -> (forall a, safe_mapper (f a)) -> safe_mapper (m ≫= f).
Proof.
  intros Hm Hf data p Hp. specialize (Hm data p Hp). unfold mbind, st_result_bind. simpl in *.
  destruct (m (p, data)) as [[p1 data1] [a|e]]; simpl in *; [|done]. destruct Hm as [Ha _].
  destruct (Hf a data1 p1) as [Hb Hr]; [apply Ha|]. split; [by eapply advances_trans|done].
Qed.

(** A value from the database or the payload, with what is known about it. *)
Lemma mapper_returns {A B : Type} (r : dresult A) (f : A -> mapper B) :
  (forall a, r = Ok a -> safe_mapper (f a)) -> safe_mapper (returns r ≫= f).
Proof.
  intros Hf data p Hp. unfold returns, mbind, st_result_bind, lift. destruct r as [a|e]; simpl.
  - by apply Hf.
  - split; [by apply advances_refl|done].
Qed.

Lemma mapper_required {A B : Type} (o : option A) (f : A -> mapper B) :
  (forall a, o = Some a -> safe_mapper (f a)) -> safe_mapper (required o ≫= f).
Proof. intros Hf. apply mapper_returns. intros a Ha. apply Hf. by apply ok_or_ok in Ha. Qed.

Lemma mapper_payload_bind {A B : Type} (P : A -> Prop) (m : decoder A) (f : A -> mapper B) :
  yields P m -> (forall a, P a -> safe_mapper (f a)) -> safe_mapper (on_payload m ≫= f).
Proof.
  intros [Hm HP] Hf data p Hp. specialize (Hm p Hp). specialize (HP p). unfold mbind, st_result_bind, on_payload.
  destruct (m p) as [p1 [a|e]]; simpl in *; [|done]. destruct Hm as [Ha _].
  destruct (Hf a (HP a Hp eq_refl) data p1) as [Hb Hr]; [apply Ha|]. split; [by eapply advances_trans|done].
Qed.

Lemma mapper_for_each {A} (f : A -> mapper unit) l : Forall (fun a => safe_mapper (f a)) l -> safe_mapper (for_each f l).
Proof. induction 1; simpl; [apply mapper_ret|by apply mapper_bind]. Qed.

Lemma collect_safe m : safe_mapper m -> safe (collect m).
Proof.
  intros Hm p Hp. specialize (Hm ∅ p Hp). unfold collect. simpl in *.
  destruct (m (p, ∅)) as [[p1 data] [[]|e]]; simpl in *; [by split; [apply Hm|]|done].
Qed.

Lemma not_enough_safe m : safe m -> safe (empty_when_not_enough m).
Proof.
  intros Hm p Hp. specialize (Hm p Hp). unfold empty_when_not_enough.
  destruct (m p) as [p1 [a|e]]; [done|]. simpl in *. destruct Hm. by destruct (is_not_enough e).
Qed.

#[export] Hint Resolve mapper_ret mapper_gets mapper_fails mapper_insert mapper_of_payload mapper_modify_data
  collect_safe not_enough_safe : safety.

(** ** The handlers *)

Lemma abs_byte_pos_nonneg ctx : 0 <= base_offset ctx -> 0 <= byte_position (parameter ctx) -> 0 <= abs_byte_pos ctx.
Proof. intros. by apply sat_add_nonneg. Qed.

Lemma value_byte_pos_bind {A : Type} (ctx : ParamContext) (f : Z -> mapper A) :
  0 <= abs_byte_pos ctx -> (forall n, 0 <= n -> safe_mapper (f n)) -> safe_mapper (value_byte_pos ctx ≫= f).
Proof.
  intros Hp Hf. unfold value_byte_pos. destruct (has_byte_position _).
  - intros data p Hwf. by apply Hf.
  - eapply mapper_payload_bind; [|exact Hf]. apply yields_gets. by intros p [_ _ (?&?&?)].
Qed.

Ltac solve_mapper :=
  repeat first
    [ lazymatch goal with |- forall _, _ => intro end
    | solve [eauto with safety]
    | apply value_byte_pos_bind
    | apply mapper_required
    | apply mapper_returns
    | apply mapper_bind
    | case_match ].

Lemma plain_conversion_regular {ext : Externals} t j : regular (json_value_to_uds_data t None None j).
Proof.
  unfold json_value_to_uds_data. destruct (base_datatype t) eqn:Ht; simpl.
  all: try (destruct (as_str j); simpl; [apply fallible_regular|done]).
  all: try (by destruct (as_str j)).
  all: unfold numeric_json_value_to_byte_vector; destruct (is_number j); [|done].
  all: destruct (process_numeric_json_value j t); simpl; [|done]; by destruct (validate_data_length _ _).
Qed.

Lemma mapper_coded_const {ext : Externals} (name : str) (ctx : ParamContext) : 0 <= abs_byte_pos ctx -> safe_mapper (map_param_coded_const_from_uds name ctx).
Proof.
  intros Hp. unfold map_param_coded_const_from_uds. pose proof @plain_conversion_regular. pose proof @mapper_lift. solve_mapper.
Qed.

Lemma mapper_reserved (name : str) (ctx : ParamContext) : safe_mapper (map_param_reserved_from_uds name ctx).
Proof. unfold map_param_reserved_from_uds. solve_mapper. Qed.

Lemma mapper_normal (name : str) d (ctx : ParamContext) : 0 <= abs_byte_pos ctx -> safe_mapper (map_normal_dop_from_uds name d ctx).
Proof.
  intros Hp. unfold map_normal_dop_from_uds. solve_mapper.
Qed.

Lemma mapper_dtc (name : str) d (ctx : ParamContext) : safe_mapper (map_dtc_dop_from_uds name d ctx).
Proof. unfold map_dtc_dop_from_uds. solve_mapper. Qed.

Lemma mapper_table_key (name : str) (ctx : ParamContext) : 0 <= abs_byte_pos ctx -> safe_mapper (map_table_key_from_uds name ctx).
Proof. intros Hp. unfold map_table_key_from_uds. solve_mapper. Qed.

Section handlers.
Context {ext : Externals} (to_string : spec_float -> str).

Lemma length_key_nonneg data key k : length_key_value to_string data key = Ok k -> 0 <= k.
Proof using.
  unfold length_key_value. destruct (data !! key) as [[raw| | |]|]; try done.
  destruct (raw_value to_string raw) as [[]|]; try done; simpl; intros [= <-]; [lia|].
  unfold as_usize. apply Z.mod_pos_bound. lia.
Qed.

Lemma mapper_length_info (name : str) d (key : str) (ctx : ParamContext) :
  0 <= abs_byte_pos ctx -> safe_mapper (map_param_length_info_dop_from_uds to_string name d key ctx).
Proof using.
  intros Hp. unfold map_param_length_info_dop_from_uds. solve_mapper.
  apply mapper_of_payload, safe_set_last, sat_add_nonneg; eauto using length_key_nonneg.
Qed.

(** With the decoder of parameters one level further down. *)
Context (map_param : str -> ParamContext -> mapper unit) (good : Param -> Prop).
Context (Hrec : forall name param base outer, good param -> 0 <= base ->
  safe_mapper (map_param name {| parameter := param; base_offset := base; outer_context := outer |})).

Lemma safe_map_params base outer params : 0 <= base -> Forall good params -> safe_mapper (map_params map_param base outer params).
Proof using Hrec.
  intros Hb Hgood. apply mapper_for_each. eapply Forall_impl; [exact Hgood|]. intros param Hg. simpl.
  apply mapper_required. intros name _. by apply Hrec.
Qed.

Lemma safe_struct s outer : Forall good (default [] (struct_params s)) -> safe (map_struct_from_uds map_param s outer).
Proof using Hrec.
  intros Hgood. unfold map_struct_from_uds. destruct (struct_params s); [|apply safe_ret].
  by apply collect_safe, safe_map_params.
Qed.

Lemma matching_env_data_params n l e : matching_env_data n l = Some e ->
  Forall good (env_data_params (Some l)) -> Forall good (default [] (env_params e)).
Proof using.
  intros He Hgood. assert (exists d, d ∈ l /\ as_env_data d = Some e) as (d & Hd & Ha).
  { revert He. unfold matching_env_data.
    assert (forall f : DataOperation -> option EnvDataDop, (forall d x, f d = Some x -> as_env_data d = Some x) ->
      forall x, find_map f l = Some x -> exists d, d ∈ l /\ as_env_data d = Some x) as Hfind.
    { intros f Hf. induction l as [|d l IH]; simpl; [done|]. intros x. destruct (f d) eqn:E.
      - intros [= <-]. exists d. split; [by left|by apply Hf].
      - intros Hx. assert (Forall good (env_data_params (Some l))) as Hl
          by (apply Forall_app in Hgood as [_ Htl]; exact Htl).
        destruct (IH Hl x Hx) as (d' & ? & ?). exists d'. split; [by right|done]. }
    case_match.
    - intros [= ->]. eapply Hfind; [|done]. intros d x. simpl. destruct (as_env_data d); simpl; [|done].
      destruct (dtc_values _); simpl; [|done]. case_bool_decide; [|done]. by intros [= ->].
    - intros He. eapply Hfind; [|done]. intros d x. simpl. destruct (as_env_data d); simpl; [|done].
      by destruct (dtc_values _) as [[]|]. }
  rewrite Forall_forall in Hgood. apply Forall_forall. intros q Hq. apply Hgood. unfold env_data_params. simpl.
  apply list_elem_of_bind. exists d. rewrite Ha. simpl. by destruct (env_params e).
Qed.

Lemma safe_env_data_item outer d base : 0 <= base -> Forall good (env_data_params (env_datas d)) ->
  safe (map_env_data_desc_item_from_uds to_string map_param outer d base).
Proof using Hrec.
  intros Hb Hgood. unfold map_env_data_desc_item_from_uds, required.
  apply safe_bind; [apply safe_returns|]. intros name. apply safe_bind; [apply safe_returns|]. intros k.
  eapply bind_yields with (P := fun l => env_datas d = Some l);
    [apply yields_returns; intros a Ha; apply ok_or_ok in Ha; exact Ha|]. intros l Hl. simpl in Hl. rewrite Hl in Hgood.
  destruct (matching_env_data k l) as [e|] eqn:He; [|apply safe_ret].
  pose proof (matching_env_data_params _ _ _ He Hgood) as Hp. destruct (env_params e); [|apply safe_ret].
  by apply collect_safe, safe_map_params.
Qed.

Lemma mapper_structure (name : str) s (ctx : ParamContext) : 0 <= abs_byte_pos ctx -> Forall good (default [] (struct_params s)) ->
  safe_mapper (map_structure_dop_from_uds map_param name s ctx).
Proof using Hrec.
  intros Hp Hgood. unfold map_structure_dop_from_uds. apply mapper_bind; [solve_mapper|]. intros _.
  apply mapper_for_each. eapply Forall_impl; [exact Hgood|]. intros param Hg. by apply Hrec.
Qed.

Lemma field_structure_params f s : extract_struct_dop_from_field f = Ok s ->
  Forall good (field_params f) -> Forall good (default [] (struct_params s)).
Proof using.
  intros Hs Hgood. apply ok_or_ok in Hs. destruct f as [f|]; [|done]. simpl in *.
  apply Forall_app in Hgood as [Hgood _]. unfold structure_params in Hgood.
  destruct (basic_structure f) as [d|]; [|done]. simpl in *. rewrite Hs in Hgood. exact Hgood.
Qed.

Lemma mapper_end_of_pdu (name : str) d : Forall good (field_params (end_of_pdu_field d)) ->
  safe_mapper (map_end_of_pdu map_param name d).
Proof using Hrec.
  intros Hgood. unfold map_end_of_pdu. apply mapper_returns. intros s Hs. apply mapper_bind; [apply mapper_gets|]. intros data.
  apply mapper_bind; [|solve_mapper]. by apply mapper_of_payload, safe_end_of_pdu, safe_struct, (field_structure_params _ _ Hs).
Qed.

Lemma mapper_static_field (name : str) d (ctx : ParamContext) : Forall good (field_params (static_field d)) ->
  safe_mapper (map_static_field map_param name d ctx).
Proof using Hrec.
  intros Hgood. unfold map_static_field. apply mapper_bind; [apply mapper_gets|]. intros data.
  apply mapper_bind; [|solve_mapper]. apply mapper_of_payload, safe_static. intros m Hm.
  destruct (extract_struct_dop_from_field _) as [s|] eqn:Hs; [|done]. injection Hm as <-.
  by apply safe_struct, (field_structure_params _ _ Hs).
Qed.

Lemma repeated_dop_safe data f : field_unsigned (Some f) = true -> Forall good (field_params (Some f)) ->
  repeated_safe (repeated_dop to_string map_param data f).
Proof using Hrec.
  intros Hu Hgood. unfold repeated_dop, field_unsigned in *. pose proof (field_structure_params (Some f)) as Hs.
  unfold extract_struct_dop_from_field in Hs. simpl in *. apply Forall_app in Hgood as Hboth. destruct Hboth as [_ He].
  destruct (basic_structure f) as [d|]; simpl in *.
  - destruct (as_structure d) as [s|]; simpl in *.
    + split; [|by apply safe_struct, Hs]. intros n Hn. rewrite Hn in Hu. by apply Z.leb_le.
    + destruct (env_data_desc f) as [[]|]; simpl; try done. by apply safe_env_data_item.
  - destruct (env_data_desc f) as [[]|]; simpl; try done. by apply safe_env_data_item.
Qed.

Lemma mapper_dynamic (name : str) d (ctx : ParamContext) :
  0 <= abs_byte_pos ctx -> 0 <= base_offset ctx -> dop_unsigned (DynamicLengthField d) = true ->
  Forall good (field_params (dynamic_field d)) -> safe_mapper (map_dynamic_length_field to_string map_param name d ctx).
Proof using Hrec.
  intros Hp Hb Hu Hgood. unfold map_dynamic_length_field. simpl in Hu. rewrite !andb_true_iff in Hu.
  destruct Hu as [[Ho Hf] Hn]. apply Z.leb_le in Ho.
  apply mapper_required. intros n Hdet. rewrite Hdet in Hn. apply Z.leb_le in Hn.
  do 3 (first [apply mapper_required|apply mapper_returns]; intros ? _).
  apply mapper_bind; [apply mapper_gets|]. intros data. apply mapper_bind; [|solve_mapper].
  apply mapper_of_payload, safe_dynamic; simpl; [done|done|by case_match|].
  intros r Hr. destruct (dynamic_field d) as [f|]; [|done]. injection Hr as <-. by apply repeated_dop_safe.
Qed.

Lemma mux_case_params m v name s : mux_case m v = Ok (name, Some s) ->
  Forall good (dop_params (MUXDOP m)) -> Forall good (default [] (struct_params s)).
Proof using.
  intros Hm Hgood. simpl in Hgood. apply Forall_app in Hgood as [Hc Hd]. revert Hm.
  unfold mux_case, mux_case_struct_from_selector_value.
  assert (forall d : option DataOperation, (s0 ← d; as_structure s0) = Some s ->
    Forall good (structure_params d) -> Forall good (default [] (struct_params s))) as Hst.
  { intros [d|] E Hg; [|done]. simpl in E. unfold structure_params in Hg. simpl in Hg. rewrite E in Hg. exact Hg. }
  destruct (cases m) as [l|]; simpl in *.
  - destruct (List.find _ l) as [c|] eqn:Hfind; simpl.
    + destruct (case_short_name c); [|done]. intros [= <- Hs]. apply List.find_some in Hfind as [Hin _].
      apply (Hst (case_structure c) Hs). rewrite Forall_forall in Hc. apply Forall_forall. intros q Hq.
      apply Hc, list_elem_of_bind. exists c. split; [done|by apply list_elem_of_In].
    + destruct (default_case m) as [d|]; [|done]. simpl in *. destruct (default_short_name d); [|done]. simpl.
      intros [= <- Hs]. by apply (Hst (default_structure d)).
  - destruct (default_case m) as [d|]; [|done]. simpl in *. destruct (default_short_name d); [|done]. simpl.
    intros [= <- Hs]. by apply (Hst (default_structure d)).
Qed.

(** A part of the payload, decoded on its own. *)
Lemma safe_part {A} start (m : decoder A) : safe m ->
  safe (n ← gets length_of; _ ← attempt (push_slice start n); _ ← modify (set_last_read_byte_pos 0);
        a ← m; _ ← attempt pop_slice; mret a).
Proof using.
  intros Hm. apply safe_bind; [apply safe_gets|]. intros n. apply safe_bind; [apply safe_push|]. intros _.
  apply safe_bind; [by apply safe_set_last|]. intros _. apply safe_bind; [done|]. intros a.
  apply safe_bind; [apply safe_pop|]. intros _. apply safe_ret.
Qed.
Lemma mapper_mux (name : str) m : Forall good (dop_params (MUXDOP m)) -> safe_mapper (map_mux_from_uds to_string map_param name m).
Proof using Hrec.
  intros Hgood. unfold map_mux_from_uds.
  do 5 (first [apply mapper_required|apply mapper_returns]; intros ? _).
  apply mapper_bind; [solve_mapper|]. intros payload. apply mapper_returns. intros rest _.
  apply mapper_returns. intros [d bits] _. apply mapper_returns. intros v _.
  apply mapper_bind; [apply mapper_of_payload, safe_skip, len_nonneg|]. intros _.
  apply mapper_returns. intros [case_name [s|]] Hcase; (apply mapper_bind; [|solve_mapper]); [|solve_mapper].
  apply mapper_bind; [apply mapper_gets|]. intros data. apply mapper_bind; [|solve_mapper].
  apply mapper_of_payload, safe_part, not_enough_safe, safe_struct. by apply (mux_case_params _ _ _ _ Hcase).
Qed.

Lemma mapper_dop d (ctx : ParamContext) :
  0 <= abs_byte_pos ctx -> 0 <= base_offset ctx -> dop_unsigned d = true -> Forall good (dop_params d) ->
  safe_mapper (map_dop_from_uds to_string map_param d ctx).
Proof using Hrec.
  intros Hp Hb Hu Hgood. unfold map_dop_from_uds. apply mapper_required. intros name _. apply mapper_returns. intros v Hv.
  assert (v = d) as -> by (revert Hv; destruct d; by intros [= <-]).
  destruct d; simpl in Hgood; try done.
  - apply mapper_returns. intros t _. case_match; [by apply mapper_length_info|by apply mapper_normal].
  - by apply mapper_end_of_pdu.
  - by apply mapper_structure.
  - unfold map_env_data_desc. apply mapper_bind; [apply mapper_gets|]. intros data.
    apply mapper_bind; [by apply mapper_of_payload, safe_env_data_item|]. intros item.
    apply (mapper_modify_data (fun data => item ∪ data)).
  - by apply safe_map_params.
  - apply mapper_dtc.
  - by apply mapper_static_field.
  - unfold map_mux_dop_from_uds. pose proof (mapper_mux name d Hgood). solve_mapper.
  - by apply mapper_dynamic.
Qed.

(** What the parameter's data object asks of the database. *)
Definition dop_ok (d : option DataOperation) : Prop :=
  match d with Some d => dop_unsigned d = true /\ Forall good (dop_params d) | None => True end.

Lemma mapper_value_dop (o : option (option DataOperation)) (ctx : ParamContext) :
  0 <= abs_byte_pos ctx -> 0 <= base_offset ctx -> (forall d, o = Some d -> dop_ok d) ->
  safe_mapper (dop ← required o; dop ← required dop; map_dop_from_uds to_string map_param dop ctx).
Proof using Hrec.
  intros Hp Hb Hd. apply mapper_required. intros d Ho. apply mapper_required. intros d' ->.
  destruct (Hd _ Ho). by apply mapper_dop.
Qed.

Lemma mapper_phys_const (name : str) (ctx : ParamContext) : 0 <= abs_byte_pos ctx -> 0 <= base_offset ctx ->
  (forall v d, specific_data (parameter ctx) = PhysConstData v d -> dop_ok d) ->
  safe_mapper (map_param_phys_const_from_uds to_string map_param name ctx).
Proof using Hrec.
  intros Hp Hb Hd. unfold map_param_phys_const_from_uds. apply mapper_required. intros d Ho.
  apply mapper_required. intros d' ->.
  assert (dop_ok (Some d')) as [Hu Hgood] by (destruct (specific_data _) eqn:E; try done; injection Ho as ->; by eapply Hd).
  apply mapper_returns. intros v _. pose proof (mapper_dop d' ctx Hp Hb Hu Hgood). destruct v; solve_mapper.
Qed.

Lemma mapper_table_struct svc (name : str) (ctx : ParamContext) : Forall good (sub_parameters svc (parameter ctx)) ->
  safe_mapper (map_table_struct_from_uds to_string map_param name ctx).
Proof using Hrec.
  intros Hgood. unfold map_table_struct_from_uds. apply mapper_required. intros k Hk. apply mapper_required. intros k' ->.
  assert (specific_data (parameter ctx) = TableStructData (Some k')) as Hspec by (by destruct (specific_data _); try done; injection Hk as ->).
  unfold sub_parameters in Hgood. rewrite Hspec in Hgood.
  apply mapper_required. intros key_name _. apply mapper_bind; [apply mapper_gets|]. intros data.
  do 2 (apply mapper_returns; intros ? _). apply mapper_required. intros t Ht. apply mapper_required. intros t' ->.
  apply mapper_required. intros l Hl. apply mapper_returns. intros row Hrow. apply ok_or_ok, List.find_some in Hrow as [Hin _].
  rewrite Ht in Hgood. simpl in Hgood. unfold table_params in Hgood. simpl in Hgood. rewrite Hl in Hgood.
  destruct (row_structure row) as [d|] eqn:Hd; [|apply mapper_insert].
  apply mapper_returns. intros v Hv. assert (v = d) as -> by (revert Hv; destruct d; by intros [= <-]).
  apply mapper_required. intros s Hs. apply mapper_bind; [|solve_mapper].
  apply mapper_of_payload, safe_part, safe_struct. rewrite Forall_forall in Hgood. apply Forall_forall. intros q Hq.
  apply Hgood, list_elem_of_bind. exists row. rewrite Hd. unfold structure_params. simpl. rewrite Hs.
  split; [exact Hq|by apply list_elem_of_In].
Qed.

Lemma mapper_matching_request svc (name : str) (ctx : ParamContext) : Forall good (sub_parameters svc (parameter ctx)) ->
  safe_mapper (map_param_matching_request_from_uds map_param svc name ctx).
Proof using Hrec.
  intros Hgood. unfold map_param_matching_request_from_uds. apply mapper_required. intros n Hn.
  assert (specific_data (parameter ctx) = MatchingRequestData n) as Hspec by (by destruct (specific_data _); try done; injection Hn as ->).
  apply mapper_returns. intros q Hq. unfold sub_parameters in Hgood. rewrite Hspec, Hq in Hgood.
  apply (proj1 (Forall_singleton good q)) in Hgood. apply mapper_bind; [solve_mapper|]. intros _.
  apply mapper_bind; [apply (Hrec name q 0 None); [exact Hgood|lia]|]. solve_mapper.
Qed.
End handlers.

(** ** Parameters *)

Lemma decodable_param {ext : Externals} to_string svc n : forall name param base outer,
  decodable svc n param = true -> 0 <= base ->
  safe_mapper (map_param_from_uds to_string n svc name {| parameter := param; base_offset := base; outer_context := outer |}).
Proof.
  induction n as [|n IH]; intros name param base outer Hd Hb; [done|]. simpl in Hd. apply andb_true_iff in Hd as [Hu Hs].
  set (ctx := {| parameter := param; base_offset := base; outer_context := outer |}).
  set (good := fun p => decodable svc n p = true).
  assert (Forall good (sub_parameters svc param)) as Hgood.
  { apply Forall_forall. intros q Hq. rewrite forallb_forall in Hs. by apply Hs, list_elem_of_In. }
  unfold unsigned in Hu. apply andb_true_iff in Hu as [Hp Hdop]. apply Z.leb_le in Hp.
  assert (0 <= abs_byte_pos ctx) as Habs by (by apply abs_byte_pos_nonneg).
  assert (0 <= base_offset ctx) as Hbase by done.
  unfold sub_parameters in Hgood. simpl. apply mapper_returns. intros t _. destruct t; try apply mapper_ret.
  - by apply mapper_coded_const.
  - apply (mapper_value_dop to_string _ good IH _ ctx); [done|done|]. simpl. intros d Hd.
    revert Hdop Hgood. destruct (specific_data param) as [| [d'|] | | | | | | |]; simplify_eq; by intros.
  - by apply (mapper_matching_request _ good IH).
  - apply (mapper_phys_const to_string _ good IH); [done|done|]. simpl. intros v d Hd. rewrite Hd in *. by destruct d.
  - apply mapper_reserved.
  - by apply mapper_table_key.
  - by apply (mapper_table_struct to_string _ good IH svc).
  - apply (mapper_value_dop to_string _ good IH _ ctx); [done|done|]. simpl. intros d Hd.
    revert Hdop Hgood. destruct (specific_data param) as [| | | | | ? [d'|] | | |]; simplify_eq; by intros.
Qed.
