(* ===== verification/ResponseDecode.v ===== *)
(** * Responses and requests as a whole

    [convert_from_uds] and [convert_request_from_uds] of payload_decode.rs: which
    response of the service a payload is, the order of its parameters, the
    response that is returned; what diagservices.rs then makes of it
    ([serialize_to_json], [as_nrc]).  The service is the one the lookup found. *)

From stdpp Require Import strings gmap.
From stdpp Require Import list.
From S2P Require Import Prelude Bytes Errors Text Ieee754 Json StateCharts DiagCodedType Values Conversion Uds Payload FieldDecoding Database PayloadDecode DecodeSafety.

Local Open Scope Z_scope.

(** ** The order of parameters *)

(** [sort_by] is stable. *)
Fixpoint insert_by {A} (leb : A -> A -> bool) (a : A) (l : list A) : list A :=
  match l with
  | [] => [a]
  | b :: l' => if leb a b then a :: l else b :: insert_by leb a l'
  end.
Definition sort_by {A} (leb : A -> A -> bool) : list A -> list A := foldr (insert_by leb) [].

Definition then_cmp (a b : comparison) : comparison := match a with Eq => b | c => c end.

Definition param_position_order (a b : Param) : comparison :=
  match has_byte_position a, has_byte_position b with
  | true, true => then_cmp (Z.compare (byte_position a) (byte_position b)) (Z.compare (bit_position a) (bit_position b))
  | false, true => Gt
  | true, false => Lt
  | false, false => Eq
  end.

Definition position_leb (a b : Param) : bool := match param_position_order a b with Gt => false | _ => true end.

(** ** Responses *)

Inductive DiagServiceResponseType : Type := PositiveResponse | NegativeResponse.

(** The path of a parameter that could not be decoded. *)
Record MappedResponseData : Type := { mapped : MappedPayload; errors : list str }.

Record DiagServiceResponseStruct : Type := {
  response_data : list Z;
  mapped_data : option MappedResponseData;
  result_type : DiagServiceResponseType
}.

Definition create_diag_service_response (data : MappedPayload) (response_type : ResponseType) (raw_uds_payload : list Z)
    (mapping_errors : list str) : DiagServiceResponseStruct :=
  {| response_data := raw_uds_payload;
     mapped_data := Some {| mapped := data; errors := mapping_errors |};
     result_type := match response_type with Negative | GlobalNegative => NegativeResponse | Positive => PositiveResponse end |}.

(** The configured names of the semantics DATA and SERVICEIDRQ. *)
Record Semantics : Type := { data_semantic : str; service_id_rq : str }.

Definition ch_slash : Z := 47.

Section convert.
Context {ext : Externals} (to_string : spec_float -> str) (semantics : Semantics).

(** A parameter at the beginning with the constant [first_byte]. *)
Definition response_matches (first_byte : str) (r : Response) : option (Response * list Param) :=
  params ← response_params r;
  if existsb (fun p => (byte_position p =? 0)
                       && bool_decide ((c ← as_coded_const p; coded_value c) = Some first_byte)) params
  then Some (r, params) else None.

Definition skipped (p : Param) : bool :=
  match semantic p with
  | Some s => negb (bool_decide (s = data_semantic semantics)) && negb (bool_decide (s = service_id_rq semantics))
  | None => false
  end.

Definition min_list (l : list Z) : option Z := match l with [] => None | a :: l => Some (foldr Z.min a l) end.

Definition data_offset (params : list Param) : Z :=
  default 0 (min_list (byte_position <$> filter (fun p => semantic p = Some (data_semantic semantics)) params)).

(** One parameter; a [DataError] is noted and decoding goes on. *)
Definition map_top_param (fuel : nat) (svc : DiagService) (name : str) (p : Param) (errors : list str) : mapper (list str) :=
  fun s => match map_param_from_uds to_string fuel svc name (ParamContext_new p 0) s with
           | (s, Ok ()) => (s, Ok errors)
           | (s, Err (Failed DataError)) => (s, Ok (errors ++ [ch_slash :: name]))
           | (s, Err e) => (s, Err e)
           end.

Fixpoint map_response_params (fuel : nat) (svc : DiagService) (params : list Param) (errors : list str) : mapper (list str) :=
  match params with
  | [] => mret errors
  | p :: params =>
      if skipped p then map_response_params fuel svc params errors
      else
        name ← required (short_name p);
        _ ← (if has_byte_position p then on_payload (modify (set_last_read_byte_pos (byte_position p))) else mret ());
        errors ← map_top_param fuel svc name p errors;
        map_response_params fuel svc params errors
  end.

(** [positive] is what a positive response of a service does to the ECU's
    states. *)
Definition convert_from_uds {St} (positive : DiagComm -> St -> St) (fuel : nat) (svc : DiagService) (payload : list Z)
    (map_to_json : bool) (st : St) : St * presult DiagServiceResponseStruct :=
  match diag_comm svc, try_extract_sid_from_payload payload, Payload.first (new payload) with
  | None, _, _ => (st, Err (Failed InvalidDatabase))
  | _, Err e, _ => (st, Err (Failed e))
  | _, _, None => (st, Err (Failed BadPayload))
  | Some mapped_diag_comm, Ok _, Some response_first_byte =>
      match find_map (response_matches (decimal response_first_byte))
              (default [] (pos_responses svc) ++ default [] (neg_responses svc)) with
      | Some (response, params) =>
          match ResponseType_try_from (response_type response) with
          | Err e => (st, Err (Failed e))
          | Ok response_type =>
              (if bool_decide (response_type = Positive) then positive mapped_diag_comm st else st,
               v ← fallible (view (new payload));
               raw_uds_payload ← fallible (ok_or (slice v (data_offset params) (len v)) BadPayload);
               if bool_decide (response_type = Positive) && negb map_to_json then
                 Ok {| response_data := raw_uds_payload; mapped_data := None; result_type := PositiveResponse |}
               else
                 match map_response_params fuel svc (sort_by position_leb params) [] (new payload, ∅) with
                 | ((_, data), Ok errors) => Ok (create_diag_service_response data response_type raw_uds_payload errors)
                 | (_, Err e) => Err e
                 end)
          end
      | None =>
          (st, Ok {| response_data := payload; mapped_data := None;
                     result_type := if response_first_byte =? NEGATIVE_RESPONSE then NegativeResponse else PositiveResponse |})
      end
  end.

(** Requests are decoded in the order of the database. *)
Fixpoint map_request_params (fuel : nat) (svc : DiagService) (params : list Param) (errors : list str) : mapper (list str) :=
  match params with
  | [] => mret errors
  | p :: params =>
      name ← required (short_name p);
      _ ← on_payload (modify (fun payload => set_last_read_byte_pos
            (if has_byte_position p then byte_position p else last_read_byte_pos payload) payload));
      errors ← map_top_param fuel svc name p errors;
      map_request_params fuel svc params errors
  end.

Definition convert_request_from_uds (fuel : nat) (svc : DiagService) (payload : list Z) (map_to_json : bool)
    : presult DiagServiceResponseStruct :=
  request ← fallible (ok_or (request svc) RequestNotSupported);
  match map_request_params fuel svc (default [] request) [] (new payload, ∅) with
  | (_, Err e) => Err e
  | ((_, data), Ok errors) =>
      if negb map_to_json then Ok {| response_data := payload; mapped_data := None; result_type := PositiveResponse |}
      else Ok (create_diag_service_response data Positive payload errors)
  end.
End convert.

Definition CLEAR_FAULT_MEM_POS_RESPONSE_SID : Z := 84.

Definition convert_service_14_response (response : list Z) : dresult DiagServiceResponseStruct :=
  sid ← try_extract_sid_from_payload response;
  let answer t := {| response_data := response; mapped_data := None; result_type := t |} in
  if sid =? CLEAR_FAULT_MEM_POS_RESPONSE_SID then Ok (answer PositiveResponse)
  else if sid =? NEGATIVE_RESPONSE then Ok (answer NegativeResponse)
  else Err UnexpectedResponse.
