(* ===== verification/ResponseLaws.v ===== *)
(** * What decoding a payload gives

    The totality of [convert_from_uds] and [convert_request_from_uds], the
    constants a response must carry, and, run on concrete payloads, where the
    code decodes something else than the database says. *)

From stdpp Require Import strings gmap.
From stdpp Require Import list sorting.
From S2P Require Import Prelude Bytes Errors Text Ieee754 Json StateCharts DiagCodedType Values Conversion Uds Payload FieldDecoding Database SampleDatabase PayloadDecode DecodeSafety ResponseDecode.

Local Open Scope Z_scope.

(** ** Sorting *)

Lemma insert_by_perm {A} (leb : A -> A -> bool) a l : insert_by leb a l ≡ₚ a :: l.
Proof.
  induction l as [|b l IH]; [done|]. simpl. destruct (leb a b); [done|]. rewrite IH. apply Permutation_swap.
Qed.

Lemma sort_by_perm {A} (leb : A -> A -> bool) l : sort_by leb l ≡ₚ l.
Proof. induction l as [|a l IH]; [done|]. simpl. by rewrite insert_by_perm, IH. Qed.

Lemma position_leb_total a b : position_leb a b = false -> position_leb b a = true.
Proof.
  unfold position_leb, param_position_order, then_cmp.
  destruct (has_byte_position a), (has_byte_position b); try done.
  rewrite (Z.compare_antisym (byte_position a)), (Z.compare_antisym (bit_position a)).
  by destruct (Z.compare (byte_position a) _), (Z.compare (bit_position a) _).
Qed.

Lemma insert_by_sorted {A} (leb : A -> A -> bool) a l : (forall x y, leb x y = false -> leb y x = true) ->
  Sorted (fun x y => leb x y = true) l -> Sorted (fun x y => leb x y = true) (insert_by leb a l).
Proof.
  intros Htotal Hs. induction Hs as [|b l Hs IH Hhd]; simpl; [by repeat constructor|].
  destruct (leb a b) eqn:E; [by repeat constructor|]. constructor; [done|].
  destruct l as [|c l]; simpl; [constructor; by apply Htotal|].
  inversion Hhd; subst. destruct (leb a c); constructor; [by apply Htotal|done].
Qed.

Lemma sort_by_sorted {A} (leb : A -> A -> bool) l : (forall x y, leb x y = false -> leb y x = true) ->
  Sorted (fun x y => leb x y = true) (sort_by leb l).
Proof. intros Ht. induction l as [|a l IH]; simpl; [constructor|by apply insert_by_sorted]. Qed.

(** ** Every parameter *)

Section total.
Context {ext : Externals} (to_string : spec_float -> str) (n : nat) (svc : DiagService).

Lemma mapper_top name p errors : decodable svc n p = true -> safe_mapper (map_top_param to_string n svc name p errors).
Proof using.
  intros Hp data payload Hwf. pose proof (decodable_param to_string svc n name p 0 None Hp ltac:(lia) data payload Hwf) as [Ha Hr].
  unfold map_top_param, ParamContext_new. simpl in *.
  destruct (map_param_from_uds to_string n svc name _ (payload, data)) as [[payload' data'] [[]|[[]| |]]]; simpl in *; done.
Qed.

Lemma mapper_response semantics params errors : Forall (fun p => decodable svc n p = true) params ->
  safe_mapper (map_response_params to_string semantics n svc params errors).
Proof using.
  intros Hp. revert errors. induction Hp as [|p params Hp _ IH]; intros errors; simpl; [apply mapper_ret|].
  destruct (skipped semantics p); [apply IH|]. apply mapper_required. intros name _.
  assert (0 <= byte_position p).
  { destruct n; simpl in Hp; [done|]. apply andb_true_iff in Hp as [Hu _]. unfold unsigned in Hu.
    apply andb_true_iff in Hu as [Hu _]. by apply Z.leb_le. }
  apply mapper_bind; [case_match; [by apply mapper_of_payload, safe_set_last|apply mapper_ret]|]. intros _.
  apply mapper_bind; [by apply mapper_top|]. apply IH.
Qed.

Lemma mapper_request params errors : Forall (fun p => decodable svc n p = true) params ->
  safe_mapper (map_request_params to_string n svc params errors).
Proof using.
  intros Hp. revert errors. induction Hp as [|p params Hp _ IH]; intros errors; simpl; [apply mapper_ret|].
  apply mapper_required. intros name _.
  assert (0 <= byte_position p).
  { destruct n; simpl in Hp; [done|]. apply andb_true_iff in Hp as [Hu _]. unfold unsigned in Hu.
    apply andb_true_iff in Hu as [Hu _]. by apply Z.leb_le. }
  apply mapper_bind.
  { apply mapper_of_payload. intros payload Hwf. pose proof (cw_counters payload Hwf) as (_ & Hl & _).
    case_match; [by apply (safe_set_last (byte_position p))|by apply (safe_set_last (last_read_byte_pos payload))]. }
  intros _. apply mapper_bind; [by apply mapper_top|]. apply IH.
Qed.

Lemma new_cursor_wf payload : len payload <= MAX_PAYLOAD -> cursor_wf (new payload).
Proof using. intros Hl. split; [constructor|done|by repeat split]. Qed.
End total.

(** Every parameter of the service, request and responses. *)
Definition service_params (svc : DiagService) : list Param :=
  default [] (default None (request svc)) ++
  (r ← default [] (pos_responses svc) ++ default [] (neg_responses svc); default [] (response_params r)).

(** C33: decoding a response, or a request, always ends, and never in a panic,
    whatever the bytes: with a value or an error of the source, when the
    database is [n] deep below the service's parameters and its positions are
    unsigned. *)
Theorem decoding_is_total {ext : Externals} to_string semantics {St} (positive : DiagComm -> St -> St) n svc payload map_to_json st :
  forallb (decodable svc n) (service_params svc) = true -> len payload <= MAX_PAYLOAD ->
  regular (convert_from_uds to_string semantics positive n svc payload map_to_json st).2 /\
  regular (convert_request_from_uds to_string n svc payload map_to_json).
Proof.
  intros Hall Hl. pose proof (new_cursor_wf payload Hl) as Hwf.
  assert (Forall (fun p => decodable svc n p = true) (service_params svc)) as Hp
    by (apply Forall_forall; intros p Hp; rewrite forallb_forall in Hall; by apply Hall, list_elem_of_In).
  apply Forall_app in Hp as [Hreq Hresp]. split.
  - unfold convert_from_uds. destruct (diag_comm svc) as [dc|]; [|done].
    destruct (try_extract_sid_from_payload payload); [|done]. destruct (Payload.first _); [|done].
    destruct (find_map _ _) as [[r params]|] eqn:Hfind; [|done].
    destruct (ResponseType_try_from _) as [t|]; [|done]. simpl.
    destruct (view (new payload)) as [v|]; [|done]. simpl. destruct (slice v _ _); [|done]. simpl.
    destruct (_ && _); [done|].
    assert (Forall (fun p => decodable svc n p = true) (sort_by position_leb params)) as Hs.
    { rewrite sort_by_perm. revert Hfind Hresp. clear. generalize (default [] (pos_responses svc) ++ default [] (neg_responses svc)).
      intros l. induction l as [|r' l IH]; [done|]. simpl. unfold response_matches at 1.
      intros Hf [Hr Hl]%Forall_app. destruct (response_params r') as [ps|]; simpl in Hf; [|by apply IH].
      destruct (existsb _ ps); [by injection Hf as _ <-|by apply IH]. }
    pose proof (mapper_response to_string n svc semantics _ [] Hs ∅ (new payload) Hwf) as [_ Hr]. simpl in Hr.
    by destruct (map_response_params _ _ _ _ _ _ _) as [[p' d'] [e|e]].
  - unfold convert_request_from_uds. destruct (request svc) as [params|]; [|done]. simpl in *.
    pose proof (mapper_request to_string n svc _ [] Hreq ∅ (new payload) Hwf) as [_ Hr]. simpl in Hr.
    destruct (map_request_params _ _ _ _ _ _) as [[p' d'] [e|e]]; [by destruct (negb map_to_json)|done].
Qed.

Local Open Scope string_scope.

(** A response with a repeated structure, a multiplexer and a value of the
    request, which is too short for its last case. *)
Definition sample_service : DiagService := service_of
  [const_param "sid" 0 8 "34"; number_param "did" 1 8]
  [const_param "sid" 0 8 "98"; matching_param "did" 1 1;
   value_param "mux" (Some 2) (mux_of 0 1 [case_of "one" 1 (Some (structure [number_param "x" 0 16] None))] None);
   value_param "items" (Some 5) (end_of_pdu [number_param "a" 0 8; number_param "b" 1 8])].

Definition sample_semantics : Semantics := {| data_semantic := chars "DATA"; service_id_rq := chars "SERVICEIDRQ" |}.

Lemma decoding_is_total_witness :
  regular (convert_from_uds (ext := reference) no_floats sample_semantics (fun _ n => S n) 8 sample_service
             [98; 7; 1; 0; 9; 1; 2; 3] true 0%nat).2 /\
  regular (convert_request_from_uds (ext := reference) no_floats 8 sample_service [98; 7; 1; 0; 9; 1; 2; 3] true).
Proof. apply decoding_is_total; [vm_compute; reflexivity|vm_compute; discriminate]. Defined.

(** ** Runs in which the code and the database disagree *)

Inductive step : Type := Key (n : string) | Index (i : nat).

(** The bytes at a path through the containers. *)
Fixpoint bytes_at (path : list step) (c : DiagDataTypeContainer) : option (list Z) :=
  match path, c with
  | [], RawContainer raw => Some (raw_data raw)
  | Key n :: path, Struct m => m !! chars n ≫= bytes_at path
  | Index i :: Key n :: path, RepeatingStruct l => m ← l !! i; m !! chars n ≫= bytes_at path
  | _, _ => None
  end.

Definition bytes_of (r : presult DiagServiceResponseStruct) (path : list step) : option (list Z) :=
  match r with Ok r => m ← mapped_data r; bytes_at path (Struct (mapped m)) | Err _ => None end.

Definition decoded_request (params : list Param) (payload : list Z) : presult DiagServiceResponseStruct :=
  convert_request_from_uds (ext := reference) no_floats 8 (service_of params []) payload true.

Definition decoded_response (svc : DiagService) (payload : list Z) : presult DiagServiceResponseStruct :=
  (convert_from_uds (ext := reference) no_floats sample_semantics (fun _ st => st) 8 svc payload true ()).2.

(** The switch key is cut off at its byte position and then looked for at that
    position again: of [9; 1; 2; 3] the key at byte 1 is 1, the code takes 2. *)
Example mux_switch_key_read_twice_as_far :
  bytes_of (decoded_request [value_param "m" (Some 0) (mux_of 1 2 [case_of "a" 1 None; case_of "b" 2 None] None)] [9; 1; 2; 3])
    [Key "m"; Key "Selector"] = Some [2].
Proof. vm_compute. reflexivity. Qed.

(** A parameter that repeats byte 1 of the request at byte 2 of the response is
    read at byte 3: the slice starts at its position, and the request's
    position is counted from there. *)
Example matching_request_param_misplaced :
  bytes_of (decoded_response (service_of
      [const_param "sid" 0 8 "34"; number_param "did" 1 8]
      [const_param "sid" 0 8 "98"; number_param "status" 1 8; matching_param "did" 2 1; number_param "v" 3 8])
    [98; 0; 5; 6]) [Key "did"] = Some [6].
Proof. vm_compute. reflexivity. Qed.

(** A reserved parameter does not count as read, so the items of a repeated
    structure that ends in one overlap: of 1 2 | 3 4 the second item reads 2. *)
Example reserved_tail_misaligns_items :
  (fun i => bytes_of (decoded_request
      [number_param "n" 0 8; value_param "l" (Some 1) (end_of_pdu [number_param "x" 0 8; reserved_param "r" 1 8])]
      [9; 1; 2; 3; 4]) [Key "l"; Index i; Key "x"]) <$> [0; 1; 2]%nat
  = [Some [1]; Some [2]; Some [3]].
Proof. vm_compute. reflexivity. Qed.

(** A structure is not decoded to a structure: its values go to the map around
    it, where those of the next structure replace them. *)
Example structures_are_flattened :
  let r := decoded_request
    [value_param "s" (Some 0) (structure [number_param "x" 0 8] None);
     value_param "t" (Some 1) (structure [number_param "x" 0 8] None)] [1; 2] in
  (bytes_of r [Key "x"], bytes_of r [Key "s"; Key "x"], bytes_of r [Key "t"; Key "x"]) = (Some [2], None, None).
Proof. vm_compute. reflexivity. Qed.

(** A request whose MATCHING-REQUEST-PARAM names its own position is looked up
    for ever. *)
Lemma self_reference_exhausts_fuel {ext : Externals} to_string n name base outer payload data :
  let p := matching_param "m" 0 0 in
  (map_param_from_uds to_string n (service_of [p] []) name
     {| parameter := p; base_offset := base; outer_context := outer |} (payload, data)).2 = Err OutOfFuel.
Proof.
  simpl. revert base outer. induction n as [|n IH]; intros base outer; [done|]. simpl.
  unfold map_param_matching_request_from_uds, required, returns, lift, mbind, st_result_bind, mret, st_result_ret. simpl.
  specialize (IH 0 None). unfold matching_param, param_at in IH |- *. simpl in IH |- *. unfold ParamContext_new.
  match type of IH with (?t).2 = _ => destruct t as [? []] end; by simpl in *.
Qed.

(** The negative answer to a fault memory request has no sid of its own, so it
    is taken for an unexpected one. *)
Example negative_clear_dtc_is_unexpected nrc : convert_service_14_response [NEGATIVE_RESPONSE; 20; nrc] = Err UnexpectedResponse.
Proof. reflexivity. Qed.
