(* ===== verification/ResponseJson.v ===== *)
(** * Decoded responses as JSON

    cda-core/src/diag_kernel/diagservices.rs: the values of a decoded response,
    its negative response code, its fault codes.  The order in which a
    [HashMap] is traversed is that of [map_fold]; it decides only the order of
    the errors and which error comes first. *)

From stdpp Require Import strings gmap.
From stdpp Require Import list.
From Stdlib Require Import FunctionalExtensionality.
From S2P Require Import Prelude Bytes Errors Text Ieee754 Json DiagCodedType Values Uds FieldDecoding Database PayloadDecode ResponseDecode.

Local Open Scope Z_scope.

(** Code that may note errors. *)
Abbreviation noting := (st_result (list str) DiagServiceError).

Section shown.
Context {ext : Externals} (to_string : spec_float -> str).

(** ** Values *)

(** [DiagDataValue::serialize] *)
Fixpoint value_to_json (v : DiagDataValue) : Value :=
  match v with
  | VInt32 z => Number (number_from_i64 z)
  | VUInt32 z => Number (number_from_u64 z)
  | VFloat32 f => match number_from_f64 (convert F64 f) with Some n => Number n | None => Null end
  | VFloat64 f => match number_from_f64 f with Some n => Number n | None => Null end
  | VString s => Json.String s
  | VByteField l => Json.String (byte_field_text l)
  | VStruct m => Object (value_to_json <$> m)
  | VRepeatingStruct l => Array ((fun m => Object (value_to_json <$> m)) <$> l)
  end.

Definition create_dtc (dtc : DiagDataContainerDtc) : DiagDataValue :=
  VStruct (<[chars "severity" := VUInt32 (severity dtc)]> (<[chars "fault_name" := VString (fault_name dtc)]>
    (match display_code dtc with
     | Some display_code => {[ chars "display_code" := VString display_code ]}
     | None => ∅
     end ∪ {[ chars "code" := VUInt32 (code dtc) ]}))).

(** ** Containers

    The state is the list of errors. *)

Definition note (path : str) : noting unit := modify (fun errors => errors ++ [path]).

(** A [DataError] is noted, and something else is shown. *)
Definition or_noted {A} (m : noting A) (path : str) (otherwise : A) : noting A := fun errors =>
  match m errors with
  | (errors, Err DataError) => (errors ++ [path], Ok otherwise)
  | r => r
  end.

Definition insert_all {A B} (f : str -> A -> noting B) (m : gmap str A) : noting (gmap str B) :=
  map_fold (fun k a r => inner_mapped ← r; val ← f k a; mret (<[k := val]> inner_mapped)) (mret ∅) m.

Fixpoint push_all {A B} (f : A -> noting B) (l : list A) : noting (list B) :=
  match l with
  | [] => mret []
  | a :: l => b ← f a; bs ← push_all f l; mret (b :: bs)
  end.

(** What [create_struct] makes of one member; [path] is that of the member. *)
Fixpoint member_value (path : str) (v : DiagDataTypeContainer) : noting DiagDataValue :=
  let create_struct := insert_all (fun k => member_value (path ++ ch_slash :: k)) in
  match v with
  | RawContainer raw => lift (raw_value to_string raw)
  | Struct s => m ← or_noted (create_struct s) path ∅; mret (VStruct m)
  | RepeatingStruct l =>
      items ← push_all (fun m => or_noted (inner_mapped ← create_struct m; mret [inner_mapped]) path []) l;
      mret (VRepeatingStruct (concat items))
  | DtcStruct dtc => mret (create_dtc dtc)
  end.

(** [map_data]: an error of a structure at the top is its member's. *)
Definition map_data (path : str) (data : DiagDataTypeContainer) : noting DiagDataValue :=
  let create_struct := insert_all (fun k => member_value (path ++ ch_slash :: k)) in
  match data with
  | RawContainer raw => lift (raw_value to_string raw)
  | Struct hash_map => m ← create_struct hash_map; mret (VStruct m)
  | RepeatingStruct l => items ← push_all create_struct l; mret (VRepeatingStruct items)
  | DtcStruct dtc => mret (create_dtc dtc)
  end.

(** A member with a [DataError] is left out. *)
Definition map_members : gmap str DiagDataTypeContainer -> noting (gmap str DiagDataValue) :=
  map_fold (fun k v r =>
    mapped ← r;
    val ← or_noted (val ← map_data (ch_slash :: k) v; mret (Some val)) (ch_slash :: k) None;
    mret (match val with Some val => <[k := val]> mapped | None => mapped end)) (mret ∅).

Record DiagServiceJsonResponse : Type := { json_data : Value; json_errors : list str }.

Definition serialize_to_json (self : DiagServiceResponseStruct) : dresult DiagServiceJsonResponse :=
  payload ← ok_or (mapped_data self) BadPayload;
  if bool_decide (mapped payload = ∅) then Ok {| json_data := Null; json_errors := errors payload |}
  else
    match map_members (mapped payload) (errors payload) with
    | (errors, Ok m) => Ok {| json_data := Object (value_to_json <$> m); json_errors := errors |}
    | (_, Err e) => Err e
    end.

(** ** Negative responses *)

Record MappedNRC : Type := { nrc_code : option Z; nrc_description : option str; nrc_sid : option Z }.

Definition extract_nrc_from_raw_data (data : list Z) : dresult MappedNRC :=
  match get data 0, get data 1, get data 2 with
  | Some first_byte, Some sid_byte, Some nrc_byte =>
      if negb (first_byte =? NEGATIVE_RESPONSE) || (3 <? len data) then Err UnexpectedResponse
      else Ok {| nrc_code := Some nrc_byte; nrc_description := Some (get_nrc_code nrc_byte); nrc_sid := Some sid_byte |}
  | _, _, _ => Err UnexpectedResponse
  end.

Definition raw_member (name : string) (m : MappedPayload) : option DiagDataTypeContainerRaw :=
  match m !! chars name with Some (RawContainer raw) => Some raw | _ => None end.

Definition nrc_message (nrc : DiagDataTypeContainerRaw) : str :=
  match uds_data_to_serializable to_string (raw_data_type nrc) (raw_compu_method nrc) true (raw_data nrc) with
  | Ok (VString v) => v
  | Ok _ => chars "N/A"
  | Err _ => chars "Unknown"
  end.

Definition as_nrc (self : DiagServiceResponseStruct) : dresult MappedNRC :=
  match mapped_data self with
  | None => extract_nrc_from_raw_data (response_data self)
  | Some mapped_data =>
      let code := nrc ← raw_member "NRC" (mapped mapped_data); raw ← get (raw_data nrc) 0; Some (raw, nrc_message nrc) in
      let sid := sid ← raw_member "SIDRQ_NR" (mapped mapped_data); get (raw_data sid) 0 in
      Ok {| nrc_code := fst <$> code; nrc_description := snd <$> code; nrc_sid := sid |}
  end.

(** ** Fault codes *)

Record DtcField : Type := { field_bit_pos : Z; field_bit_len : Z; field_byte_pos : Z }.
Record DtcRecord : Type := {
  record_code : Z; record_display_code : option str; record_fault_name : str; record_severity : Z }.

Fixpoint dtcs_of (container : DiagDataTypeContainer) : list DiagDataContainerDtc :=
  match container with
  | DtcStruct dtc => [dtc]
  | Struct s => map_fold (fun _ c l => dtcs_of c ++ l) [] s
  | RepeatingStruct r => concat ((fun m => map_fold (fun _ c l => dtcs_of c ++ l) [] m) <$> r)
  | RawContainer _ => []
  end.

Definition dtc_record (dtc : DiagDataContainerDtc) : DtcField * DtcRecord :=
  ({| field_bit_pos := dtc_bit_pos dtc; field_bit_len := dtc_bit_len dtc; field_byte_pos := dtc_byte_pos dtc |},
   {| record_code := code dtc; record_display_code := display_code dtc; record_fault_name := fault_name dtc;
      record_severity := severity dtc |}).

Definition get_dtcs (self : DiagServiceResponseStruct) : dresult (list (DtcField * DtcRecord)) :=
  mapped_data ← ok_or (mapped_data self) BadPayload;
  Ok (dtc_record <$> map_fold (fun _ c l => dtcs_of c ++ l) [] (mapped mapped_data)).
End shown.

(** * What is shown *)

Section shown_laws.
Context {ext : Externals} (to_string : spec_float -> str).

(** The value a container stands for, without state or errors. *)
Inductive shows : DiagDataTypeContainer -> DiagDataValue -> Prop :=
  | shows_raw raw v : raw_value to_string raw = Ok v -> shows (RawContainer raw) v
  | shows_struct s m : dom s = dom m ->
      (forall k c v, s !! k = Some c -> m !! k = Some v -> shows c v) -> shows (Struct s) (VStruct m)
  | shows_repeating l items : length l = length items ->
      (forall i s m, l !! i = Some s -> items !! i = Some m -> dom s = dom m) ->
      (forall i s m k c v, l !! i = Some s -> items !! i = Some m -> s !! k = Some c -> m !! k = Some v -> shows c v) ->
      shows (RepeatingStruct l) (VRepeatingStruct items)
  | shows_dtc dtc : shows (DtcStruct dtc) (create_dtc dtc).

Definition shows_all (s : MappedPayload) (m : gmap str DiagDataValue) : Prop :=
  dom s = dom m /\ forall k c v, s !! k = Some c -> m !! k = Some v -> shows c v.

(** [DataError] is never raised. *)
Definition no_data_error {A} (r : dresult A) : Prop := r <> Err DataError.

Lemma no_data_error_bind {A B} (m : dresult A) (f : A -> dresult B) :
  no_data_error m -> (forall a, no_data_error (f a)) -> no_data_error (m ≫= f).
Proof. intros Hm Hf. destruct m as [a|e]; [apply Hf|]. intros [= ->]. by apply Hm. Qed.
Lemma no_data_error_fmap {A B} (m : dresult A) (f : A -> B) : no_data_error m -> no_data_error (f <$> m).
Proof. intros Hm. destruct m as [a|e]; [done|]. intros [= ->]. by apply Hm. Qed.
Lemma no_data_error_ok_or {A} (o : option A) e : e <> DataError -> no_data_error (ok_or o e).
Proof. intros He. destruct o; [done|]. by intros [= ->]. Qed.
Lemma no_data_error_if {A} (b : bool) (x y : dresult A) : no_data_error x -> no_data_error y -> no_data_error (if b then x else y).
Proof. by destruct b. Qed.

Ltac no_data :=
  repeat first
    [done | apply no_data_error_if | apply no_data_error_bind; [|intros ?] | apply no_data_error_fmap
    | apply no_data_error_ok_or | case_match].

Lemma raw_value_no_data_error raw : no_data_error (raw_value to_string raw).
Proof.
  unfold raw_value, uds_data_to_serializable, compu_lookup, compu_lookup_linear, compu_lookup_scale_linear,
    compu_lookup_text_table, from_number, apply_linear_conversion, value_f64, value_u32, DiagDataValue_new.
  no_data.
Qed.

(** How [m] ends: with what [R] says, or with an error that is not noted when
    [R] says nothing. *)
Definition settles {A} (R : A -> Prop) (m : noting A) : Prop :=
  forall errors, (m errors).1 = errors /\
    match (m errors).2 with Ok a => R a | Err e => e <> DataError /\ forall a, ~ R a end.

Lemma settles_lift {A} (r : dresult A) : no_data_error r -> settles (fun a => r = Ok a) (lift r).
Proof using. intros Hr errors. split; [done|]. destruct r as [a|e]; [done|]. split; [by intros ->|done]. Qed.

Lemma settles_or_noted {A} (R : A -> Prop) m path otherwise : settles R m -> settles R (or_noted m path otherwise).
Proof using.
  intros Hm errors. unfold or_noted. specialize (Hm errors). destruct (m errors) as [errors' [a|e]]; [done|].
  destruct Hm as [Herr [Hne Hnone]]. by destruct e.
Qed.

Lemma settles_map {A B} (R : A -> Prop) (S : B -> Prop) (m : noting A) (f : A -> B) : settles R m ->
  (forall a, R a -> S (f a)) -> (forall b, S b -> exists a, R a) -> settles S (a ← m; mret (f a)).
Proof using.
  intros Hm Hf Hinv errors. specialize (Hm errors). unfold mbind, st_result_bind.
  destruct (m errors) as [errors' [a|e]]; simpl in *; destruct Hm as [? Hm]; split; try done; [by apply Hf|].
  destruct Hm as [? Hno]. split; [done|]. intros b [a Ha]%Hinv. by apply (Hno a).
Qed.

Lemma settles_insert_all f s : (forall k c, s !! k = Some c -> settles (shows c) (f k c)) ->
  settles (shows_all s) (insert_all f s).
Proof using.
  unfold insert_all. revert s. refine (map_fold_weak_ind
    (fun n s => (forall k c, s !! k = Some c -> settles (shows c) (f k c)) -> settles (shows_all s) n) _ _ _ _).
  - intros _ errors. split; [done|]. split; [by rewrite !dom_empty_L|]. intros k c v. by rewrite lookup_empty.
  - intros k c s r Hk IH Hall errors. unfold mbind, st_result_bind.
    destruct (IH) with errors as [Herr Hr]; [intros k' c' Hk'; apply Hall; rewrite lookup_insert_ne; [done|congruence]|].
    destruct (r errors) as [errors' [m|e]]; simpl in *; subst errors'.
    + destruct (Hall k c (lookup_insert_eq _ _ _) errors) as [Herr Hv].
      destruct (f k c errors) as [errors' [v|e]]; simpl in *; subst errors'; split; try done.
      * destruct Hr as [Hdom Hr]. split; [by rewrite !dom_insert_L, Hdom|]. intros k' c' v'.
        destruct (decide (k' = k)) as [->|]; [by rewrite !lookup_insert_eq; intros [= <-] [= <-]|].
        rewrite !lookup_insert_ne by done. apply Hr.
      * destruct Hv as [? Hno]. split; [done|]. intros m' [Hdom Hm'].
        assert (is_Some (m' !! k)) as [v Hv] by (apply elem_of_dom; rewrite <- Hdom, dom_insert_L; by apply elem_of_union_l, elem_of_singleton).
        apply (Hno v), (Hm' k); [by rewrite lookup_insert_eq|done].
    + split; [done|]. destruct Hr as [? Hno]. split; [done|]. intros m' [Hdom Hm']. apply (Hno (delete k m')). split.
      * rewrite dom_delete_L, <- Hdom, dom_insert_L, difference_union_distr_l_L, difference_diag_L, (left_id_L ∅ _).
        symmetry. apply difference_disjoint_L, disjoint_singleton_r. by apply not_elem_of_dom.
      * intros k' c' v' Hk' [Hne Hv]%lookup_delete_Some. apply (Hm' k'); [|done]. by rewrite lookup_insert_ne.
Qed.

Lemma settles_push_all {A B} (R : A -> B -> Prop) f l : (forall a, a ∈ l -> settles (R a) (f a)) ->
  settles (Forall2 R l) (push_all f l).
Proof using.
  induction l as [|a l IH]; intros Hall errors; simpl; [by repeat constructor|]. unfold mbind, st_result_bind.
  destruct (Hall a (list_elem_of_here _ _) errors) as [Herr Ha]. destruct (f a errors) as [errors' [b|e]]; simpl in *; subst errors'.
  - destruct (IH (fun x Hx => Hall x (list_elem_of_further _ _ _ Hx)) errors) as [Herr Hl].
    destruct (push_all f l errors) as [errors' [bs|e]]; simpl in *; subst errors'; split; try done; [by constructor|].
    destruct Hl as [? Hno]. split; [done|]. intros ? Hl2. inversion Hl2; subst. by eapply Hno.
  - split; [done|]. destruct Ha as [? Hno]. split; [done|]. intros ? Hl2. inversion Hl2; subst. by eapply Hno.
Qed.

(** ** Members *)

(** How deep a container is. *)
Fixpoint depth (c : DiagDataTypeContainer) : nat :=
  match c with
  | Struct s => S (map_fold (fun _ c n => depth c `max` n)%nat 0%nat s)
  | RepeatingStruct l => S (max_list ((fun m => map_fold (fun _ c n => depth c `max` n)%nat 0%nat m) <$> l))
  | _ => 0%nat
  end.

Lemma depth_member (s : MappedPayload) k c : s !! k = Some c -> (depth c <= map_fold (fun _ c n => depth c `max` n)%nat 0%nat s)%nat.
Proof using.
  revert s. refine (map_fold_weak_ind (fun n (s : MappedPayload) => s !! k = Some c -> (depth c <= n)%nat) _ _ _ _).
  - by rewrite lookup_empty.
  - intros k' c' s n _ IH Hk. destruct (decide (k' = k)) as [->|].
    + rewrite lookup_insert_eq in Hk. simplify_eq. lia.
    + rewrite lookup_insert_ne in Hk by done. specialize (IH Hk). lia.
Qed.

Lemma forall2_shows_repeating l items : Forall2 shows_all l items <-> shows (RepeatingStruct l) (VRepeatingStruct items).
Proof using.
  rewrite Forall2_same_length_lookup. unfold shows_all. split.
  - intros [Hlen Hall]. constructor; [done| |]; intros i s m; [|intros k c v]; intros Hi Hm; destruct (Hall i s m Hi Hm) as [? Hk]; [done|by apply Hk].
  - intros H. inversion H as [| |? ? Hlen Hdom Hk|]; subst. split; [done|]. intros i s m Hs Hm. split; [by eapply Hdom|]. intros k c v. by eapply Hk.
Qed.

Lemma member_value_settles path c : settles (shows c) (member_value to_string path c).
Proof using.
  revert path. induction c as [c IH] using (induction_ltof1 _ depth); intros path. unfold ltof in IH.
  assert (forall s : MappedPayload, (forall k c', s !! k = Some c' -> (depth c' < depth c)%nat) ->
    settles (shows_all s) (insert_all (fun k => member_value to_string (path ++ ch_slash :: k)) s)) as Hstruct
    by (intros s Hs; apply settles_insert_all; intros k c' Hk; by eapply IH, Hs).
  destruct c as [raw|s|l|dtc]; simpl.
  - intros errors. split; [done|]. pose proof (raw_value_no_data_error raw) as Hne. simpl.
    destruct (raw_value to_string raw) as [v|e] eqn:Hraw; [by constructor|]. split; [by intros ->|].
    intros v Hv. inversion Hv. congruence.
  - eapply settles_map; [apply settles_or_noted, Hstruct| |].
    + intros k c' Hk. apply depth_member in Hk. simpl. lia.
    + intros m [? ?]. by constructor.
    + intros v Hv. inversion Hv; subst. eexists. by split.
  - eapply settles_map.
    + apply (settles_push_all (fun s ms => exists m, ms = [m] /\ shows_all s m)). intros s Hs. apply settles_or_noted.
      eapply settles_map; [apply Hstruct|by eauto|intros ms (m & ? & ?); by eauto].
      intros k c' Hk. apply depth_member in Hk. simpl. enough (map_fold (fun _ c n => depth c `max` n)%nat 0%nat s <=
        max_list ((fun m => map_fold (fun _ c n => depth c `max` n)%nat 0%nat m) <$> l))%nat by lia.
      by apply (max_list_elem_of_le _ _ (list_elem_of_fmap_2 _ _ _ Hs)).
    + intros ms Hms. apply forall2_shows_repeating. clear IH Hstruct.
      induction Hms as [|s ms' l mss (m & -> & Hm) _ IHl]; simpl; by constructor.
    + intros v Hv. inversion Hv as [| |? items|]; subst. apply forall2_shows_repeating in Hv. exists ((fun m => [m]) <$> items).
      apply Forall2_fmap_r. eapply Forall2_impl; [done|]. intros s m Hm. by exists m.
  - intros errors. split; [done|]. constructor.
Qed.

Lemma map_data_settles path c : settles (shows c) (map_data to_string path c).
Proof using.
  destruct c as [raw|s|l|dtc]; [apply (member_value_settles path (RawContainer raw))| | |apply (member_value_settles path (DtcStruct dtc))]; simpl.
  - eapply settles_map; [apply settles_insert_all; intros k c _; apply member_value_settles| |].
    + intros m [? ?]. by constructor.
    + intros v Hv. inversion Hv; subst. eexists. by split.
  - eapply settles_map.
    + apply (settles_push_all shows_all). intros s _. apply settles_insert_all. intros k c _. apply member_value_settles.
    + intros items. apply forall2_shows_repeating.
    + intros v Hv. inversion Hv; subst. eexists. by apply forall2_shows_repeating.
Qed.

(** Nothing is left out: leaving out is for [DataError]s. *)
Lemma map_members_settles s : settles (shows_all s) (map_members to_string s).
Proof using.
  pose proof (settles_insert_all (fun k => map_data to_string (ch_slash :: k)) s (fun k c _ => map_data_settles _ c)) as H.
  enough (map_members to_string s = insert_all (fun k => map_data to_string (ch_slash :: k)) s) as -> by done.
  unfold map_members, insert_all. f_equal. apply functional_extensionality. intros k. apply functional_extensionality. intros c.
  apply functional_extensionality. intros r. apply functional_extensionality. intros errors.
  unfold mbind, st_result_bind, mret, st_result_ret, or_noted. destruct (r errors) as [errors' [m|]]; [|done].
  pose proof (map_data_settles (ch_slash :: k) c errors') as [_ Hv].
  destruct (map_data to_string _ c errors') as [errors'' [v|[]]]; simpl in *; try done. by destruct Hv.
Qed.
End shown_laws.

(** C35: the JSON of a decoded response has exactly the decoded names, each with
    the value its container stands for, and reports no error of its own; when
    one value cannot be shown, however deep, there is no JSON at all. *)
Theorem json_shows_every_value {ext : Externals} to_string self s errors :
  mapped_data self = Some {| mapped := s; errors := errors |} -> s <> ∅ ->
  match serialize_to_json to_string self with
  | Ok j => exists m, shows_all to_string s m /\
              j = {| json_data := Object (value_to_json <$> m); json_errors := errors |}
  | Err _ => forall m, ~ shows_all to_string s m
  end.
Proof.
  intros Hdata Hne. unfold serialize_to_json. rewrite Hdata. simpl. rewrite bool_decide_false by done.
  destruct (map_members_settles to_string s errors) as [Herr Hm]. simpl in *.
  destruct (map_members to_string s errors) as [errors' [m|e]]; simpl in *; subst errors'; [by eauto|by destruct Hm].
Qed.

Definition shown_sample : MappedPayload :=
  let byte b := RawContainer {| raw_data := [b]; raw_bit_len := 8; raw_data_type := UInt32; raw_compu_method := None |} in
  {[ chars "sid" := byte 98; chars "items" := RepeatingStruct [{[ chars "x" := byte 1 ]}; {[ chars "x" := byte 2 ]}] ]}.

Lemma json_shows_every_value_witness :
  exists m, shows_all (ext := reference) (fun _ => []) shown_sample m.
Proof.
  assert (shown_sample <> ∅) as Hne by (intros H; apply (f_equal (lookup (chars "sid"))) in H; vm_compute in H; discriminate H).
  set (self := {| response_data := []; mapped_data := Some {| mapped := shown_sample; errors := [] |}; result_type := PositiveResponse |}).
  assert (is_ok (serialize_to_json (ext := reference) (fun _ => []) self) = true) as Hok by (vm_compute; reflexivity).
  pose proof (json_shows_every_value (ext := reference) (fun _ => []) self shown_sample [] eq_refl Hne) as H.
  destruct (serialize_to_json _ _) as [j|e]; [destruct H as (m & Hm & _); by exists m|discriminate Hok].
Defined.
