(* ===== verification/PayloadEncode.v ===== *)
(** * Encoding a request

    cda-core/src/diag_kernel/payload_encode.rs: the JSON values of a request are
    written into a payload, the coded constants first, then parameter by
    parameter.  The payload is passed on; an error ends the request. *)

From stdpp Require Import strings gmap.
From stdpp Require Import list.
From S2P Require Import Prelude Bytes Errors Text Ieee754 Json DiagCodedType Values Conversion Database PayloadDecode ResponseDecode.

Local Open Scope Z_scope.

Definition invalid_request {A} : presult A := Err (Failed InvalidRequest).
Definition database {A} (o : option A) : presult A := fallible (ok_or o InvalidDatabase).

(** [diag_type.encode(uds_data, payload, ..)?] *)
Definition encode_into (t : DiagCodedType) (uds_data payload : list Z) (byte_pos bit_pos : Z) : presult (list Z) :=
  let '(payload, r) := encode t uds_data payload byte_pos bit_pos in
  _ ← fallible r; Ok payload.

Section encoding.
Context {ext : Externals} (to_string : spec_float -> str) (strict_parameter_validation : bool).

(** ** Values that are not given *)

Definition try_parse_str_as_json_number (value : str) : dresult Value :=
  match from_str_radix I64_MIN I64_MAX value 10 with
  | Some number => Ok (Number (number_from_i64 number))
  | None =>
      match from_str_radix 0 U64_MAX value 10 with
      | Some number => Ok (Number (number_from_u64 number))
      | None =>
          match parse_float F64 value with
          | Some number => Number <$> ok_or (number_from_f64 number) ParameterConversionError
          | None => Err ParameterConversionError
          end
      end
  end.

Definition phys_value_str_to_json (value : str) : Value :=
  match try_parse_str_as_json_number value with Ok number => number | Err _ => Json.String value end.

Definition resolve_required_param (provided_value : option Value) (dop : DataOperation) (default_value : option str)
    : presult Value :=
  match provided_value with
  | Some value => Ok value
  | None =>
      dop ← fallible (variant dop);
      match dop with
      | NormalDOP _ =>
          match default_value with
          | Some str_val => Ok (phys_value_str_to_json str_val)
          | None => invalid_request
          end
      | _ => invalid_request
      end
  end.

Definition reject_unexpected_keys (expected provided : list str) : presult () :=
  if strict_parameter_validation && existsb (fun k => negb (bool_decide (k ∈ expected))) provided
  then Err (Failed BadPayload) else Ok ().

Definition names (params : list Param) : list str := omap short_name params.
Definition keys (value : gmap str Value) : list str := (map_to_list value).*1.

(** ** Leaves *)

(** The value through the data object, at the parameter's place. *)
Definition encode_normal (normal_dop : NormalDop) (value : Value) (payload : list Z) (byte_pos bit_pos : Z)
    : presult (list Z) :=
  diag_type ← fallible (normal_diag_coded_type normal_dop);
  uds_data ← json_value_to_uds_data diag_type (normal_compu_method normal_dop) (normal_physical_type normal_dop) value;
  encode_into diag_type uds_data payload byte_pos bit_pos.

Definition map_param_length_key_to_uds (param : Param) (value : option Value) (payload : list Z) (parent_byte_pos : Z)
    : presult (list Z) :=
  dop ← database (match specific_data param with LengthKeyData dop => Some dop | _ => None end);
  dop ← database dop;
  value ← fallible (ok_or value InvalidRequest);
  dop ← fallible (variant dop);
  match dop with
  | NormalDOP normal_dop =>
      encode_normal normal_dop value payload (parent_byte_pos +sat byte_position param)%rust (bit_position param)
  | _ => conversion_error
  end.

Definition map_reserved_param_to_uds (param : Param) (payload : list Z) : presult (list Z) :=
  bit_length ← database (match specific_data param with ReservedData bits => Some bits | _ => None end);
  coded_type ← fallible (reserved_coded_type bit_length);
  encode_into coded_type (vec_of bit_length 0) payload (byte_position param) (bit_position param).

Definition map_table_key_to_uds (param : Param) (value : option Value) (payload : list Z) (parent_byte_pos : Z)
    : presult (list Z) :=
  value ← fallible (ok_or value InvalidRequest);
  key_str ← fallible (ok_or (as_str value) InvalidRequest);
  table_dop ← database (as_table_key param);
  table_dop ← database table_dop;
  key_dop ← database (table_key_dop table_dop);
  rows ← database (rows table_dop);
  if negb (existsb (row_selected key_str) rows) then invalid_request
  else
    key_dop ← fallible (variant key_dop);
    normal_dop ← database (as_normal_dop key_dop);
    encode_normal normal_dop value payload (parent_byte_pos +sat byte_position param)%rust (bit_position param).

(** ** Structures *)

Section open.
(** Parameter, its value, the payload, the position of what contains it and the
    values next to it. *)
Context (map_param : Param -> option Value -> list Z -> Z -> option (gmap str Value) -> presult (list Z)).

Fixpoint encode_struct_params (params : list Param) (value : gmap str Value) (payload : list Z) (struct_byte_pos : Z)
    : presult (list Z) :=
  match params with
  | [] => Ok payload
  | param :: params =>
      short_name ← database (short_name param);
      payload ← map_param param (value !! short_name) payload struct_byte_pos None;
      encode_struct_params params value payload struct_byte_pos
  end.

Definition map_struct_to_uds (structure : StructureDop) (struct_byte_pos : Z) (value : Value) (payload : list Z)
    : presult (list Z) :=
  value ← fallible (ok_or (as_object value) InvalidRequest);
  let params := default [] (struct_params structure) in
  _ ← reject_unexpected_keys (names params) (keys value);
  encode_struct_params params value payload struct_byte_pos.

(** Without a selector the case 0 is asked for. *)
Definition mux_selector (value : gmap str Value) : Value := default (Number (number_from_i64 0)) (value !! SELECTOR).

(** The case of an encoded switch key; of the default case only one with a
    structure. *)
Definition encoded_mux_case (mux_dop : MuxDop) (selector : DiagDataValue) : presult (str * option StructureDop) :=
  fallible (ok_or
    (match ('(case, struct_) ← mux_case_struct_from_selector_value mux_dop selector;
            name ← case_short_name case; Some (name, struct_)) with
     | Some c => Some c
     | None =>
         default_case ← default_case mux_dop;
         name ← default_short_name default_case;
         s ← default_structure default_case;
         s ← as_structure s;
         Some (name, Some s)
     end) InvalidRequest).

Definition map_mux_to_uds (mux_dop : MuxDop) (value : Value) (uds_payload : list Z) : presult (list Z) :=
  value ← fallible (ok_or (as_object value) InvalidRequest);
  switch_key ← database (switch_key mux_dop);
  switch_key_dop ← database (key_dop switch_key);
  switch_key_dop ← fallible (variant switch_key_dop);
  normal_dop ← database (as_normal_dop switch_key_dop);
  switch_key_diag_type ← fallible (normal_diag_coded_type normal_dop);
  switch_key_value ← json_value_to_uds_data switch_key_diag_type (normal_compu_method normal_dop)
    (normal_physical_type normal_dop) (mux_selector value);
  mux_payload ← encode_into switch_key_diag_type switch_key_value [] (key_byte_position switch_key)
    (default 0 (key_bit_position switch_key));
  selector ← fallible (uds_data_to_serializable to_string (base_datatype switch_key_diag_type) None false mux_payload);
  '(case_name, struct_) ← encoded_mux_case mux_dop selector;
  _ ← reject_unexpected_keys [SELECTOR; case_name] (keys value);
  mux_payload ←
    match struct_ with
    | None => Ok mux_payload
    | Some struct_ =>
        struct_data ← fallible (ok_or (value !! case_name) BadPayload);
        struct_payload ← map_struct_to_uds struct_ 0 struct_data [];
        Ok (mux_payload ++ struct_payload)
    end;
  Ok (uds_payload ++ mux_payload).

(** Every item follows what has been written, from the field's position on. *)
Fixpoint encode_items (structure : StructureDop) (field_start_pos : Z) (items : list Value) (payload : list Z)
    : presult (list Z) :=
  match items with
  | [] => Ok payload
  | v :: items =>
      payload ← map_struct_to_uds structure (Z.max (len payload) field_start_pos) v payload;
      encode_items structure field_start_pos items payload
  end.

Definition item_count_refused (end_of_pdu_dop : EndOfPduOf DataOperation) (n : Z) : bool :=
  (n <? default 0 (min_number_of_items end_of_pdu_dop)) ||
  match max_number_of_items end_of_pdu_dop with
  | Some max => (U32_MAX <? n) || (max <? n mod 2 ^ 32)
  | None => false
  end.

Definition map_end_of_pdu_to_uds (end_of_pdu_dop : EndOfPduOf DataOperation) (field_start_pos : Z) (value : Value)
    (payload : list Z) : presult (list Z) :=
  items ← fallible (ok_or (as_array value) InvalidRequest);
  if item_count_refused end_of_pdu_dop (len items) then invalid_request
  else
    structure ← fallible (extract_struct_dop_from_field (end_of_pdu_field end_of_pdu_dop));
    encode_items structure field_start_pos items payload.

Definition map_param_value_to_uds (param : Param) (value : option Value) (payload : list Z) (parent_byte_pos : Z)
    : presult (list Z) :=
  '(physical_default_value, dop) ← database (match specific_data param with ValueData v dop => Some (v, dop) | _ => None end);
  dop ← database dop;
  value ← resolve_required_param value dop physical_default_value;
  v ← fallible (variant dop);
  let byte_pos := (parent_byte_pos +sat byte_position param)%rust in
  match v with
  | NormalDOP normal_dop => encode_normal normal_dop value payload byte_pos (bit_position param)
  | EndOfPduField end_of_pdu_dop => map_end_of_pdu_to_uds end_of_pdu_dop byte_pos value payload
  | StructureDOP structure_dop => map_struct_to_uds structure_dop byte_pos value payload
  | StaticField _ | DynamicLengthField _ => conversion_error
  | MUXDOP mux_dop => map_mux_to_uds mux_dop value payload
  | _ => Err (Failed InvalidDatabase)
  end.

Definition map_phys_const_param_to_uds (param : Param) (payload : list Z) (param_data : option Value) : presult (list Z) :=
  '(phys_constant_value, dop) ← database (match specific_data param with PhysConstData v dop => Some (v, dop) | _ => None end);
  dop ← database dop;
  value ← resolve_required_param param_data dop phys_constant_value;
  v ← fallible (variant dop);
  match v with
  | NormalDOP normal_dop => encode_normal normal_dop value payload (byte_position param) (bit_position param)
  | StructureDOP structure_dop => map_struct_to_uds structure_dop (byte_position param) value payload
  | MUXDOP mux_dop => map_mux_to_uds mux_dop value payload
  | _ => Err (Failed InvalidDatabase)
  end.

(** The structure's values are a member with the row's name; anything else
    counts as no values. *)
Definition table_struct_json (value : option Value) (row_name : str) : Value :=
  default (Object ∅) (v ← value; obj ← as_object v; obj !! row_name).

Definition map_table_struct_to_uds (param : Param) (value : option Value) (payload : list Z) (parent_byte_pos : Z)
    (sibling_values : option (gmap str Value)) : presult (list Z) :=
  table_key_param ← database (match specific_data param with TableStructData k => Some k | _ => None end);
  table_key_param ← database table_key_param;
  key_param_name ← database (short_name table_key_param);
  sibling_values ← fallible (ok_or sibling_values InvalidRequest);
  key_value ← fallible (ok_or (sibling_values !! key_param_name) InvalidRequest);
  key_str ← fallible (ok_or (as_str key_value) InvalidRequest);
  table_dop ← database (as_table_key table_key_param);
  table_dop ← database table_dop;
  rows ← database (rows table_dop);
  selected_row ← fallible (ok_or (List.find (row_selected key_str) rows) InvalidRequest);
  match row_structure selected_row with
  | None =>
      match value with
      | Some v => if match as_object v with Some m => Nat.eqb (size m) 0 | None => false end then Ok payload else invalid_request
      | None => Ok payload
      end
  | Some structure_dop =>
      structure_dop ← fallible (variant structure_dop);
      struct_dop ← database (as_structure structure_dop);
      map_struct_to_uds struct_dop (parent_byte_pos +sat byte_position param)%rust
        (table_struct_json value (default [] (row_short_name selected_row))) payload
  end.
End open.

(** [fuel] bounds the depth of the database. *)
Fixpoint map_param_to_uds (fuel : nat) (param : Param) (value : option Value) (payload : list Z) (parent_byte_pos : Z)
    (sibling_values : option (gmap str Value)) : presult (list Z) :=
  match fuel with
  | O => Err OutOfFuel
  | S fuel =>
      let map_param := map_param_to_uds fuel in
      param_type ← fallible (param_type param);
      match param_type with
      | CodedConstType => Ok payload
      | MatchingRequestParam => invalid_request
      | ValueType => map_param_value_to_uds map_param param value payload parent_byte_pos
      | Reserved => map_reserved_param_to_uds param payload
      | TableStruct => map_table_struct_to_uds map_param param value payload parent_byte_pos sibling_values
      | LengthKey => map_param_length_key_to_uds param value payload parent_byte_pos
      | PhysConst => map_phys_const_param_to_uds map_param param payload value
      | TableKey => map_table_key_to_uds param value payload parent_byte_pos
      | Dynamic | NrcConst | System | TableEntry => conversion_error
      end
  end.

(** ** Requests *)

Definition const_json (c : CodedConst) (t : DiagCodedType) : presult Value :=
  coded_const_value ← database (coded_value c);
  match try_parse_str_as_json_number coded_const_value with
  | Ok number => Ok number
  | Err _ => fallible (str_to_json_value coded_const_value (base_datatype t))
  end.

Fixpoint process_coded_constants (mapped_params : list Param) (uds : list Z) : presult (list Z) :=
  match mapped_params with
  | [] => Ok uds
  | param :: mapped_params =>
      uds ← match as_coded_const param with
            | None => Ok uds
            | Some coded_const =>
                diag_type ← database (t ← const_coded_type coded_const; result_ok (DiagCodedType_try_from t));
                const_json_value ← const_json coded_const diag_type;
                uds_val ← json_value_to_uds_data diag_type None None const_json_value;
                encode_into diag_type uds_val uds (byte_position param) (bit_position param)
            end;
      process_coded_constants mapped_params uds
  end.

(** Zeroes up to the parameter's position. *)
Definition pad_to (uds : list Z) (byte_pos : Z) : list Z := uds ++ vec_of (byte_pos -sat len uds)%rust 0.

Fixpoint encode_params (fuel : nat) (mapped_params : list Param) (json_values : gmap str Value) (uds : list Z)
    : presult (list Z) :=
  match mapped_params with
  | [] => Ok uds
  | param :: mapped_params =>
      let effective_byte_pos := if has_byte_position param then byte_position param else len uds in
      let uds := pad_to uds effective_byte_pos in
      short_name ← database (short_name param);
      let parent_byte_pos := if has_byte_position param then 0 else effective_byte_pos in
      uds ← map_param_to_uds fuel param (json_values !! short_name) uds parent_byte_pos (Some json_values);
      encode_params fuel mapped_params json_values uds
  end.

Definition process_parameter_map (fuel : nat) (mapped_params : list Param) (json_values : gmap str Value) (uds : list Z)
    : presult (list Z) :=
  _ ← reject_unexpected_keys (names mapped_params) (keys json_values);
  encode_params fuel mapped_params json_values uds.

Inductive UdsPayloadData : Type :=
  | Raw (bytes : list Z)
  | ParameterMap (json_values : gmap str Value).

(** [access] is the outcome of the access check, which functional calls skip. *)
Definition create_uds_payload (fuel : nat) (svc : DiagService) (access : dresult ()) (functional : bool)
    (data : option UdsPayloadData) : presult (list Z) :=
  _ ← database (diag_comm svc);
  request ← fallible (ok_or (request svc) RequestNotSupported);
  _ ← (if functional then Ok () else fallible access);
  let mapped_params := sort_by position_leb (default [] request) in
  uds ← process_coded_constants mapped_params [];
  match default (ParameterMap ∅) data with
  | Raw bytes => Ok (uds ++ bytes)
  | ParameterMap json_values => process_parameter_map fuel mapped_params json_values uds
  end.
End encoding.
