(* ===== verification/RequestFields.v ===== *)
(** * Numbers side by side in a payload

    The memory view of a request: unsigned numbers of whole bytes at places that
    do not overlap, written in any order by [encode] and read by [decode]. *)

From stdpp Require Import list.
From S2P Require Import Prelude Bytes Errors DiagCodedType CodedBits CodedCodec.

Local Open Scope Z_scope.

Record field : Type := {
  f_type : DiagCodedType;
  f_pos : Z;
  f_width : Z
}.

Definition f_end (f : field) : Z := f_pos f + f_width f.

(** An unmasked UInt32 of one to four bytes, in either byte order. *)
Definition plain_type (t : DiagCodedType) (width : Z) : Prop :=
  base_datatype t = UInt32 /\ exists c, type_ t = plain_standard (8 * width) c.

Record plain (f : field) : Prop := {
  plain_is_type : plain_type (f_type f) (f_width f);
  plain_width : 1 <= f_width f <= 4;
  plain_pos : 0 <= f_pos f;
  plain_end : f_end f <= MAX_BYTES
}.

Definition inside (f : field) (i : Z) : Prop := f_pos f <= i < f_end f.

Definition apart (f g : field) : Prop := f_end f <= f_pos g \/ f_end g <= f_pos f.
Definition apart_b (f g : field) : bool := (f_end f <=? f_pos g) || (f_end g <=? f_pos f).

Lemma apart_sym f g : apart f g -> apart g f.
Proof. unfold apart. tauto. Qed.
Lemma apart_b_spec f g : apart_b f g = true <-> apart f g.
Proof. unfold apart_b, apart. rewrite orb_true_iff, !Z.leb_le. done. Qed.

(** The field of [p] holds [z]. *)
Definition stored (f : field) (z : Z) (p : list Z) : Prop :=
  slice p (f_pos f) (f_end f)
  = Some (normalize_byte_order (be_bytes (Z.to_nat (f_width f)) z) (byte_order (f_type f))).

Definition clear_at (f : field) (p : list Z) : Prop := forall i, inside f i -> i < len p -> get p i = Some 0.

(** ** Slices from bytes *)

Lemma slice_ext {A} (p q : list A) a b : 0 <= a <= b -> b <= len p -> b <= len q ->
  (forall i, a <= i < b -> get p i = get q i) -> slice p a b = slice q a b.
Proof.
  intros Ha Hp Hq Hi. rewrite !slice_some by done. f_equal. apply list_eq. intros i. unfold get, len in *.
  destruct (decide (i < Z.to_nat (b - a))%nat) as [Hlt|].
  - rewrite !lookup_take_lt, !lookup_drop by done. specialize (Hi (a + Z.of_nat i) ltac:(lia)).
    replace (Z.to_nat a + i)%nat with (Z.to_nat (a + Z.of_nat i)) by lia. done.
  - by rewrite !lookup_take_ge by lia.
Qed.

Lemma get_padded_low p stop i : 0 <= i < len p -> get (padded p stop) i = get p i.
Proof. intros Hi. unfold padded, grow. destruct (_ <? _); [by apply get_app_l|done]. Qed.

Lemma get_padded_high p stop i : len p <= i < stop -> get (padded p stop) i = Some 0.
Proof.
  intros Hi. pose proof (len_nonneg p). unfold padded, grow. destruct (Z.ltb_spec (len p) stop); [|lia].
  unfold get, vec_of, len in *. rewrite lookup_app_r by lia. apply lookup_replicate. lia.
Qed.

Lemma get_padded_clear f p i : 0 <= f_pos f -> clear_at f p -> inside f i -> get (padded p (f_end f)) i = Some 0.
Proof.
  intros Hp Hc Hi. unfold inside in Hi. destruct (Z.lt_ge_cases i (len p)).
  - rewrite get_padded_low by lia. by apply Hc.
  - apply get_padded_high. lia.
Qed.

Lemma cut_val_clear f p : 0 <= f_pos f -> 0 <= f_width f -> clear_at f p -> cut_val (f_type f) p (f_pos f) (f_width f) = 0.
Proof.
  intros Hp Hw Hc. unfold cut_val.
  assert (slice (padded p (f_end f)) (f_pos f) (f_end f) = Some (replicate (Z.to_nat (f_width f)) 0)) as Hs.
  { unfold f_end in *. rewrite slice_some by (rewrite ?padded_len; lia). f_equal. apply list_eq. intros i.
    destruct (decide (i < Z.to_nat (f_width f))%nat) as [Hlt|].
    - rewrite lookup_take_lt, lookup_drop, lookup_replicate_2 by lia.
      pose proof (get_padded_clear f p (f_pos f + Z.of_nat i) Hp Hc ltac:(unfold inside, f_end; lia)) as Hg.
      unfold get, f_end in Hg. rewrite <- Hg. f_equal. lia.
    - rewrite lookup_take_ge, lookup_ge_None_2 by (rewrite ?length_replicate; lia). done. }
  unfold f_end in Hs. rewrite Hs. simpl. by rewrite normalize_zeros, be_val_zeros.
Qed.

(** ** One field *)

Lemma plain_bits f : plain f -> 0 < 8 * f_width f < 2 ^ 32 /\ div_ceil (8 * f_width f) 8 = f_width f.
Proof. intros [_ Hw _ _]. split; [lia|]. rewrite Z.mul_comm. apply div_ceil_mul. lia. Qed.

Lemma plain_validates f : plain f -> validate_bit_len (base_datatype (f_type f)) (8 * f_width f) = Ok ().
Proof.
  intros [[-> _] Hw _ _]. unfold validate_bit_len. destruct (Z.eqb_spec (8 * f_width f) 0); [lia|]. simpl.
  by destruct (Z.ltb_spec 64 (8 * f_width f)); try lia.
Qed.

(** What [encode] does to a field that is still zero. *)
Lemma write_field f z p : plain f -> bytes p -> len p <= MAX_BYTES -> clear_at f p -> 0 <= z < 2 ^ (8 * f_width f) ->
  exists p', encode (f_type f) (be_bytes 4 z) p (f_pos f) 0 = (p', Ok ()) /\ bytes p' /\
    len p' = Z.max (len p) (f_end f) /\ stored f z p' /\
    forall i, 0 <= i -> ~ inside f i -> get p' i = get (padded p (f_end f)) i.
Proof.
  intros Hplain Hp Hl Hclear Hz. destruct (plain_bits f Hplain) as [Hn Hdc].
  pose proof (plain_validates f Hplain) as Hv. destruct Hplain as [[Hbase [c Ht]] Hw Hpos Hend].
  set (t := f_type f) in *. set (n := 8 * f_width f) in *. set (input := be_bytes 4 z).
  assert (bytes input) as Hinput by apply be_bytes_bytes.
  destruct (standard_packed_ok t n input Hinput ltac:(lia)) as [Hkb Hkl]. rewrite Hdc in Hkl.
  destruct (encode_spec t input p (f_pos f) 0 (standard_packed t n input) n None) as
    (p' & cut & He & Hb' & Hl' & Hout & Hcut & Hcb & Hcl & Hbits);
    rewrite ?Z.add_0_l, ?Hdc; try done; try lia;
    [unfold validate_bit_pos; by rewrite Hbase|by eapply pack_standard_plain|unfold MAX_BYTES; lia|].
  rewrite Z.add_0_l, Hdc in *. fold (f_end f) in *. exists p'. split; [done|]. split; [done|].
  split; [by rewrite Hl', padded_len|]. split; [|intros i Hi Hni; apply Hout; unfold inside in Hni; lia].
  unfold stored. rewrite Hcut. f_equal. fold t. rewrite <- (normalize_involutive cut (byte_order t)) at 1. f_equal.
  apply be_val_inj; [by apply normalize_bytes|apply be_bytes_bytes|rewrite normalize_len, be_bytes_len; lia|].
  rewrite be_val_be_bytes, Z2Nat.id by lia. fold n. rewrite Z.mod_small by done.
  assert (be_val (standard_packed t n input) = z) as Hval.
  { unfold standard_packed. rewrite clear_bits_whole by (unfold n; rewrite Z.mul_comm; by apply Z.mod_mul).
    rewrite Hdc. assert (standard_alignment (base_datatype t) = Right) as -> by (by rewrite Hbase).
    rewrite aligned_right_val by (done || lia).
    fold n. unfold input. rewrite be_val_be_bytes. change (8 * Z.of_nat 4) with 32.
    rewrite (Z.mod_small z (2 ^ 32)); [by apply Z.mod_small|]. split; [lia|].
    apply Z.lt_le_trans with (2 ^ n); [lia|]. apply Z.pow_le_mono_r; unfold n; lia. }
  apply Z.bits_inj'. intros k Hk. rewrite Hbits by done.
  pose proof (cut_val_clear f p Hpos ltac:(lia) Hclear) as Hcv. fold t in Hcv. rewrite Hcv, Z.bits_0. simpl. rewrite Hval, Z.sub_0_r. case_bool_decide as Hin; [done|]. simpl. symmetry.
  destruct (Z.eq_dec z 0) as [->|]; [apply Z.bits_0|]. apply Z.bits_above_log2; [lia|].
  apply Z.log2_lt_pow2; [lia|]. apply Z.lt_le_trans with (2 ^ n); [lia|]. apply Z.pow_le_mono_r; lia.
Qed.

(** What [decode] reads of it. *)
Lemma read_field f z p : plain f -> bytes p -> stored f z p ->
  decode (f_type f) p (f_pos f) 0 = Ok (be_bytes (Z.to_nat (f_width f)) z, 8 * f_width f).
Proof.
  intros Hplain Hp Hs. destruct (plain_bits f Hplain) as [Hn Hdc]. pose proof (plain_validates f Hplain) as Hv.
  destruct Hplain as [[Hbase [c Ht]] Hw Hpos Hend].
  set (cut := normalize_byte_order (be_bytes (Z.to_nat (f_width f)) z) (byte_order (f_type f))).
  rewrite (decode_standard (f_type f) (8 * f_width f) 0 c Ht Hv ltac:(by unfold validate_bit_pos; rewrite Hbase) ltac:(lia)
             p (f_pos f) cut Hp Hpos) by (rewrite Hdc; first [exact Hs|exact Hend]).
  assert (len cut = f_width f) as Hl by (unfold cut; rewrite normalize_len, be_bytes_len; lia).
  rewrite <- Hl at 1. rewrite unpack_whole; [|by apply normalize_bytes, be_bytes_bytes| |unfold MAX_BYTES; lia].
  - unfold cut. by rewrite normalize_involutive, normalize_len, be_bytes_len, Z2Nat.id by lia.
  - intros E. rewrite E in Hl. unfold len in Hl. simpl in Hl. lia.
Qed.

(** ** Many fields *)

(** [p] holds the fields of [done_], and those of [todo] are still zero. *)
Record progress (p : list Z) (done_ : list (field * Z)) (todo : list field) : Prop := {
  progress_bytes : bytes p;
  progress_len : len p <= MAX_BYTES;
  progress_done : Forall (fun '(f, z) => stored f z p) done_;
  progress_todo : Forall (fun f => clear_at f p) todo
}.

Lemma stored_end f z p : stored f z p -> f_end f <= len p.
Proof. intros Hs. unfold stored, slice in Hs. destruct (Z.leb_spec (f_end f) (len p)); [done|]. by rewrite andb_false_r in Hs. Qed.

(** The other fields do not see a write. *)
Lemma progress_write f z p p' done_ todo : plain f -> progress p done_ todo ->
  bytes p' -> len p' = Z.max (len p) (f_end f) -> stored f z p' ->
  (forall i, 0 <= i -> ~ inside f i -> get p' i = get (padded p (f_end f)) i) ->
  Forall plain done_.*1 -> Forall plain todo ->
  Forall (apart f) done_.*1 -> Forall (apart f) todo ->
  progress p' ((f, z) :: done_) todo.
Proof.
  intros Hf [Hb Hl Hd Ht] Hb' Hl' Hs Hout Hpd Hpt Had Hat. pose proof (plain_end f Hf). split; [done|lia| |].
  - constructor; [done|]. rewrite Forall_forall in Hd; rewrite Forall_forall in Had; rewrite Forall_forall in Hpd. apply Forall_forall. intros [g y] Hin. specialize (Hd _ Hin).
    assert (g ∈ done_.*1) as Hg by (apply list_elem_of_fmap; by exists (g, y)).
    specialize (Had g Hg). destruct (Hpd g Hg) as [_ Hw Hpos _]. pose proof (stored_end _ _ _ Hd).
    unfold stored in *. rewrite <- Hd. unfold apart, inside, f_end in *.
    apply slice_ext; [lia|lia|lia|]. intros i Hi. rewrite Hout, get_padded_low by lia. done.
  - rewrite Forall_forall in Ht; rewrite Forall_forall in Hat; rewrite Forall_forall in Hpt. apply Forall_forall. intros g Hg i Hi Hlt. specialize (Hat g Hg). destruct (Hpt g Hg) as [_ Hw Hpos _].
    unfold apart, inside, f_end in *. rewrite Hout by lia. destruct (Z.lt_ge_cases i (len p)).
    + rewrite get_padded_low by lia. apply (Ht g Hg); [unfold inside, f_end; lia|done].
    + apply get_padded_high. lia.
Qed.

(** Zeroes behind the payload change nothing. *)
Lemma progress_grow p n done_ todo : progress p done_ todo -> len p + n <= MAX_BYTES -> 0 <= n ->
  Forall plain done_.*1 -> Forall plain todo -> progress (p ++ vec_of n 0) done_ todo.
Proof.
  intros [Hb Hl Hd Ht] Hmax Hn Hpd Hpt. split.
  - apply Forall_app. split; [done|apply bytes_vec_of].
  - rewrite len_app, len_vec_of by done. done.
  - rewrite Forall_forall in Hd; rewrite Forall_forall in Hpd. apply Forall_forall. intros [g y] Hin. specialize (Hd _ Hin).
    destruct (Hpd g) as [_ Hw Hpos _]; [apply list_elem_of_fmap; by exists (g, y)|].
    pose proof (stored_end _ _ _ Hd). unfold stored, f_end in *. rewrite <- Hd.
    apply slice_ext; [lia|rewrite len_app, len_vec_of by done; lia|lia|]. intros i Hi. apply get_app_l. lia.
  - rewrite Forall_forall in Ht; rewrite Forall_forall in Hpt. apply Forall_forall. intros g Hg i Hi Hlt. destruct (Hpt g Hg) as [_ Hw Hpos _].
    unfold inside in Hi. rewrite len_app, len_vec_of in Hlt by done. pose proof (len_nonneg p). destruct (Z.lt_ge_cases i (len p)).
    + rewrite get_app_l by lia. by apply (Ht g Hg).
    + unfold get, vec_of, len in *. rewrite lookup_app_r by lia. apply lookup_replicate. lia.
Qed.

(** Pairwise apart, in any order. *)
Fixpoint spread (l : list field) : Prop :=
  match l with
  | [] => True
  | f :: l => Forall (apart f) l /\ spread l
  end.
Fixpoint spread_b (l : list field) : bool :=
  match l with
  | [] => true
  | f :: l => forallb (apart_b f) l && spread_b l
  end.

Lemma spread_b_spec l : spread_b l = true -> spread l.
Proof.
  induction l as [|f l IH]; simpl; [done|]. rewrite andb_true_iff, forallb_forall. intros [Hf Hl]. split; [|by apply IH].
  apply Forall_forall. intros g Hg. by apply apart_b_spec, Hf, list_elem_of_In.
Qed.

#[export] Instance spread_perm : Proper ((≡ₚ) ==> iff) spread.
Proof.
  intros l k Hp. enough (forall l k, l ≡ₚ k -> spread l -> spread k) as H by (split; by apply H).
  clear. intros l k Hp. induction Hp as [|f l k Hp IH|f g l|l k m _ IH1 _ IH2]; simpl; [done| | |by auto].
  - intros [Hf Hl]. split; [by rewrite <- Hp|by apply IH].
  - rewrite !Forall_cons. intros [[Hgf Hg] [Hf Hl]]. split; [split; [by apply apart_sym|done]|done].
Qed.

(** The state of a request that is being written. *)
Record laid (p : list Z) (done_ : list (field * Z)) (todo : list field) : Prop := {
  laid_progress : progress p done_ todo;
  laid_plain : Forall plain (done_.*1 ++ todo);
  laid_spread : spread (done_.*1 ++ todo)
}.

Lemma laid_perm p done_ todo done_' todo' : done_ ≡ₚ done_' -> todo ≡ₚ todo' -> laid p done_ todo -> laid p done_' todo'.
Proof. intros Hd Ht [[] ? ?]. split; [split|..]; try done; by rewrite <- ?Hd, <- ?Ht. Qed.

Lemma laid_write f z p done_ todo : laid p done_ (f :: todo) -> 0 <= z < 2 ^ (8 * f_width f) ->
  exists p', encode (f_type f) (be_bytes 4 z) p (f_pos f) 0 = (p', Ok ()) /\ laid p' ((f, z) :: done_) todo.
Proof.
  intros [Hp Hplain Hs] Hz. rewrite <- Permutation_middle in Hplain, Hs. destruct Hs as [Ha Hs].
  apply Forall_cons in Hplain as [Hf Hplain]. destruct Hp as [Hb Hl Hd Ht]. apply Forall_cons in Ht as [Hc Ht].
  destruct (write_field f z p Hf Hb Hl Hc Hz) as (p' & He & Hb' & Hl' & Hst & Hout). exists p'. split; [done|].
  apply Forall_app in Hplain as Hboth. destruct Hboth as [Hp1 Hp2]. apply Forall_app in Ha as Haboth. destruct Haboth as [Ha1 Ha2].
  split; [|by constructor|done]. by apply (progress_write f z p).
Qed.

Lemma laid_grow p n done_ todo : laid p done_ todo -> len p + n <= MAX_BYTES -> 0 <= n -> laid (p ++ vec_of n 0) done_ todo.
Proof.
  intros [Hp Hplain Hs] Hmax Hn. split; [|done|done]. apply Forall_app in Hplain as [? ?]. by apply progress_grow.
Qed.

(** Nothing is written yet. *)
Lemma laid_start todo : Forall plain todo -> spread todo -> laid [] [] todo.
Proof.
  intros Hp Hs. split; [split|done|done]; [constructor|unfold len, MAX_BYTES; simpl; lia|constructor|].
  apply Forall_forall. intros f Hf i Hi Hlt. unfold len in Hlt. simpl in Hlt. rewrite Forall_forall in Hp.
  pose proof (plain_pos f (Hp f Hf)). unfold inside in Hi. lia.
Qed.

Lemma laid_stored p done_ todo f z : laid p done_ todo -> (f, z) ∈ done_ -> stored f z p.
Proof. intros [[_ _ Hd _] _ _] Hin. rewrite Forall_forall in Hd. by apply (Hd (f, z)). Qed.
