(* ===== verification/RequestLaws.v ===== *)
(** * What encoding a request gives

    Requests of unsigned whole-byte numbers, constants and values in any order
    and with gaps: what [create_uds_payload] writes is what
    [convert_request_from_uds] reads, and the constants in front identify the
    service.  Then the runs in which encoding and decoding disagree. *)

From stdpp Require Import strings gmap.
From stdpp Require Import list sorting.
From S2P Require Import Prelude Bytes Errors Text Ieee754 Json StateCharts DiagCodedType CodedBits CodedCodec CodedRoundtrip Values Conversion ValueLaws Uds Payload FieldDecoding Database SampleDatabase PayloadDecode DecodeSafety ResponseDecode ResponseLaws ResponseJson PayloadEncode RequestFields.

Local Open Scope Z_scope.

(** ** Plain parameters *)

Record slot : Type := {
  slot_name : str;
  slot_field : field;
  slot_const : option Z;
  slot_method : option CompuMethod
}.

Definition width_of (t : DiagCodedType) : option Z :=
  match base_datatype t, type_ t with
  | UInt32, StandardLength {| bit_length := n; bit_mask := None |} =>
      if (n =? 8 * (n / 8)) && in_range 1 (n / 8) 4 then Some (n / 8) else None
  | _, _ => None
  end.

Definition fits_width (width z : Z) : bool := (0 <=? z) && (z <? 2 ^ (8 * width)).

Definition slot_at (name : str) (p : Param) (t : DiagCodedType) (c : option Z) (m : option CompuMethod) : option slot :=
  width ← width_of t;
  if (0 <=? byte_position p) && (byte_position p + width <=? MAX_BYTES)
     && match c with Some c => fits_width width c | None => true end
  then Some {| slot_name := name; slot_field := {| f_type := t; f_pos := byte_position p; f_width := width |};
               slot_const := c; slot_method := m |}
  else None.

(** A constant or a value of the identical method, in a place of its own. *)
Definition slot_of (p : Param) : option slot :=
  name ← short_name p;
  if negb (has_byte_position p) || negb (bit_position p =? 0) then None
  else
    match param_type p, specific_data p with
    | Ok CodedConstType, CodedConstData c =>
        t ← result_ok (diag_coded_type_of (const_coded_type c));
        text ← coded_value c;
        v ← parse_u32 text;
        v' ← from_str_radix I64_MIN I64_MAX text 10;
        if v =? v' then slot_at name p t (Some v) None else None
    | Ok ValueType, ValueData _ (Some (NormalDOP d)) =>
        t ← result_ok (normal_diag_coded_type d);
        m ← normal_compu_method d;
        match category m with Identical => slot_at name p t None (Some m) | _ => None end
    | _, _ => None
    end.

Definition slots : list Param -> list slot := omap slot_of.

(** Every parameter is plain, names are different, places do not overlap. *)
Definition plain_request (params : list Param) : bool :=
  forallb (fun p => bool_decide (is_Some (slot_of p))) params
  && bool_decide (NoDup (slot_name <$> slots params)) && spread_b (slot_field <$> slots params).

Section given.
Context {ext : Externals}.

(** The number a slot is to hold. *)
Definition assigned (json : gmap str Value) (s : slot) : option Z :=
  match slot_const s with
  | Some v => Some v
  | None => v ← json !! slot_name s; z ← as_u64 v; if fits_width (f_width (slot_field s)) z then Some z else None
  end.

(** The values are those of the request, and they fit. *)
Definition given (params : list Param) (json : gmap str Value) : bool :=
  forallb (fun s => bool_decide (is_Some (assigned json s))) (slots params)
  && forallb (fun k => bool_decide (k ∈ names params)) (keys json).
End given.

(** ** Slots *)

Lemma width_of_plain t width : width_of t = Some width -> plain_type t width /\ 1 <= width <= 4.
Proof.
  unfold width_of. destruct (base_datatype t) eqn:Hb; try done. destruct (type_ t) as [| |[n [m|] c]|] eqn:Ht; try done.
  destruct (Z.eqb_spec n (8 * (n / 8))) as [Hn|]; [|done]. simpl.
  destruct (in_range 1 (n / 8) 4) eqn:Hr; [|done]. apply in_range_spec in Hr. intros [= <-]. split; [|done].
  split; [done|]. exists c. by rewrite <- Hn.
Qed.

Lemma fits_width_spec width z : fits_width width z = true <-> 0 <= z < 2 ^ (8 * width).
Proof. unfold fits_width. rewrite andb_true_iff, Z.leb_le, Z.ltb_lt. done. Qed.

Lemma slot_at_spec name p t c m s : slot_at name p t c m = Some s ->
  s = {| slot_name := name; slot_field := {| f_type := t; f_pos := byte_position p; f_width := f_width (slot_field s) |};
         slot_const := c; slot_method := m |} /\
  plain (slot_field s) /\ match c with Some v => 0 <= v < 2 ^ (8 * f_width (slot_field s)) | None => True end.
Proof.
  unfold slot_at. destruct (width_of t) as [width|] eqn:Hw; [|done]. simpl. apply width_of_plain in Hw as [Ht Hw].
  destruct (_ && _) eqn:E; [|done]. rewrite !andb_true_iff, !Z.leb_le in E. destruct E as [[Hp He] Hc].
  intros [= <-]. split; [done|]. split; [by split|]. destruct c; [by apply fits_width_spec|done].
Qed.

(** What [slot_of] says of a parameter. *)
Inductive plain_param (p : Param) (s : slot) : Prop :=
  | PlainConst c text v :
      param_type p = Ok CodedConstType -> specific_data p = CodedConstData c ->
      diag_coded_type_of (const_coded_type c) = Ok (f_type (slot_field s)) ->
      coded_value c = Some text -> parse_u32 text = Some v -> from_str_radix I64_MIN I64_MAX text 10 = Some v ->
      slot_const s = Some v -> slot_method s = None -> 0 <= v < 2 ^ (8 * f_width (slot_field s)) -> plain_param p s
  | PlainValue default d m :
      param_type p = Ok ValueType -> specific_data p = ValueData default (Some (NormalDOP d)) ->
      normal_diag_coded_type d = Ok (f_type (slot_field s)) -> normal_compu_method d = Some m -> category m = Identical ->
      slot_const s = None -> slot_method s = Some m -> plain_param p s.

Lemma slot_of_spec p s : slot_of p = Some s ->
  short_name p = Some (slot_name s) /\ has_byte_position p = true /\ bit_position p = 0 /\
  byte_position p = f_pos (slot_field s) /\ plain (slot_field s) /\ plain_param p s.
Proof.
  unfold slot_of. destruct (short_name p) as [name|]; [|done]. simpl.
  destruct (has_byte_position p); [|done]. destruct (Z.eqb_spec (bit_position p) 0) as [Hbit|]; [|done]. simpl.
  destruct (param_type p) as [[]|] eqn:Ht; try done; destruct (specific_data p) as [c| | | | |default [[]|]| | |] eqn:Hd; try done.
  - destruct (diag_coded_type_of _) as [t|] eqn:Hct; [|done]. simpl. destruct (coded_value c) as [text|] eqn:Hv; [|done]. simpl.
    destruct (parse_u32 text) as [v|] eqn:Hpv; [|done]. simpl.
    destruct (from_str_radix _ _ _ _) as [v'|] eqn:Hpv'; [|done]. simpl. destruct (Z.eqb_spec v v') as [<-|]; [|done].
    intros Hs. apply slot_at_spec in Hs as (Heq & Hp & Hc). rewrite Heq. simpl in *. rewrite Heq in Hp, Hc. repeat (split; [done|]).
    by eapply (PlainConst _ _ c text v).
  - destruct (normal_diag_coded_type d) as [t|] eqn:Hct; [|done]. simpl. destruct (normal_compu_method d) as [m|] eqn:Hm; [|done].
    simpl. destruct (category m) eqn:Hcat; try done. intros Hs. apply slot_at_spec in Hs as (Heq & Hp & _). rewrite Heq.
    simpl in *. rewrite Heq in Hp. repeat (split; [done|]). by eapply (PlainValue _ _ default d m).
Qed.

(** ** Writing *)

Definition const_fields : list slot -> list (field * Z) :=
  omap (fun s => v ← slot_const s; Some (slot_field s, v)).

Section encode.
Context {ext : Externals} `{!ExternalsOk ext} (to_string : spec_float -> str) (strict : bool).

Definition value_fields (json : gmap str Value) : list slot -> list (field * Z) :=
  omap (fun s => match slot_const s with Some _ => None | None => z ← assigned json s; Some (slot_field s, z) end).

Lemma number_bytes f v z cm pt : plain f -> as_u64 v = Some z -> 0 <= z < 2 ^ (8 * f_width f) ->
  match cm with Some m => category m = Identical | None => True end ->
  json_value_to_uds_data (f_type f) cm pt v = Ok (be_bytes 4 z).
Proof using.
  intros [[Hbase [c Ht]] Hw _ _] Hv Hz Hcm.
  assert (json_value_to_uds_data (f_type f) cm pt v = json_value_to_uds_data (f_type f) None pt v) as ->
    by (unfold json_value_to_uds_data; destruct cm as [m|]; [by rewrite Hcm|done]).
  assert (2 ^ (8 * f_width f) <= 2 ^ 32) by (apply Z.pow_le_mono_r; lia).
  destruct (json_to_bytes (f_type f) c (8 * f_width f) pt v z) as [Hto _]; rewrite ?Hbase; try done; [by right|lia| |].
  - unfold in_json_range, U64_MAX. lia.
  - rewrite Hto by (by rewrite Hbase). unfold i32_to_be_bytes. by rewrite Z.mod_small by lia.
Qed.

Lemma encode_laid f z p done_ todo : laid p done_ (f :: todo) -> 0 <= z < 2 ^ (8 * f_width f) ->
  exists p', encode_into (f_type f) (be_bytes 4 z) p (f_pos f) 0 = Ok p' /\ laid p' ((f, z) :: done_) todo.
Proof using.
  intros Hl Hz. destruct (laid_write f z p done_ todo Hl Hz) as (p' & He & Hl'). exists p'. split; [|done].
  unfold encode_into. by rewrite He.
Qed.

Lemma constant_json c t text v : coded_value c = Some text -> from_str_radix I64_MIN I64_MAX text 10 = Some v ->
  const_json c t = Ok (Number (number_from_i64 v)).
Proof using. intros Hc Hv. unfold const_json, try_parse_str_as_json_number. rewrite Hc. simpl. by rewrite Hv. Qed.

Lemma constants_laid l p done_ rest : Forall (fun q => is_Some (slot_of q)) l ->
  laid p done_ ((const_fields (slots l)).*1 ++ rest) ->
  exists p' done_', process_coded_constants l p = Ok p' /\ done_' ≡ₚ const_fields (slots l) ++ done_ /\ laid p' done_' rest.
Proof using ExternalsOk0.
  intros Hl. revert p done_. induction Hl as [|q l [s Hs] Hl IH]; intros p done_ Hlaid; [by exists p, done_|].
  unfold slots in *. cbn [omap list_omap] in *. rewrite Hs in *. cbn [const_fields omap list_omap process_coded_constants] in *.
  apply slot_of_spec in Hs as (_ & _ & Hbit & Hpos & Hplain & Hs).
  destruct Hs as [c text v _ Hd Ht Hc Hpu Hpi Hconst _ Hz|default d m _ Hd _ _ _ Hconst _].
  - rewrite Hconst in *. cbn [mbind option_bind fmap list_fmap app fst] in *. destruct (encode_laid _ v _ _ _ Hlaid Hz) as (p' & He & Hlaid').
    destruct (IH p' _ Hlaid') as (p'' & done_' & Hrun & Hperm & Hfinal). exists p'', done_'. split; [|split; [|done]].
    + unfold as_coded_const. rewrite Hd. unfold diag_coded_type_of in Ht. destruct (const_coded_type c) as [dt|]; [|done].
      cbn [mbind option_bind]. rewrite Ht. cbn [result_ok database ok_or fallible mbind result_bind].
      rewrite (constant_json c _ text v) by done. cbn [mbind result_bind].
      rewrite (number_bytes (slot_field s) _ v None None Hplain); [|simpl; rewrite i64_as_u64|done|done].
      * cbn [mbind result_bind]. by rewrite Hpos, Hbit, He.
      * by rewrite (proj2 (Z.ltb_ge v 0)) by lia.
      * unfold I64_MIN, I64_MAX. pose proof (plain_width _ Hplain).
        assert (2 ^ (8 * f_width (slot_field s)) <= 2 ^ 32) by (apply Z.pow_le_mono_r; lia). lia.
    + rewrite Hperm. simpl. by rewrite <- Permutation_middle.
  - rewrite Hconst in *. unfold as_coded_const. rewrite Hd. cbn [mbind option_bind result_bind] in *. by apply IH.
Qed.

Lemma assigned_value json s z : slot_const s = None -> assigned json s = Some z ->
  exists v, json !! slot_name s = Some v /\ as_u64 v = Some z /\ 0 <= z < 2 ^ (8 * f_width (slot_field s)).
Proof using.
  unfold assigned. intros ->. destruct (json !! slot_name s) as [v|]; [|done]. simpl. destruct (as_u64 v) as [z'|] eqn:Hv; [|done].
  simpl. destruct (fits_width _ z') eqn:Hf; [|done]. intros [= <-]. exists v. split; [done|]. split; [done|]. by apply fits_width_spec.
Qed.

(** One parameter of a request, its place reached. *)
Lemma param_laid n json q s z p done_ todo : slot_of q = Some s -> assigned json s = Some z ->
  laid p done_ ((value_fields json [s]).*1 ++ todo) ->
  exists p' done_', map_param_to_uds to_string strict (S n) q (json !! slot_name s) p 0 (Some json) = Ok p' /\
    done_' ≡ₚ value_fields json [s] ++ done_ /\ laid p' done_' todo.
Proof using ExternalsOk0.
  intros Hs Hz Hlaid. apply slot_of_spec in Hs as (Hname & Hhas & Hbit & Hpos & Hplain & Hs). unfold value_fields in *. simpl in Hlaid |- *.
  destruct Hs as [c text v Hty Hd Ht Hc Hpu Hpi Hconst _ _|default d m Hty Hd Ht Hm Hcat Hconst _]; rewrite Hty, Hconst in *.
  - by exists p, done_.
  - rewrite Hz in *. simpl in *. destruct (assigned_value json s z Hconst Hz) as (v & Hv & Hu & Hfit).
    destruct (encode_laid _ z _ _ _ Hlaid Hfit) as (p' & He & Hlaid'). exists p', ((slot_field s, z) :: done_).
    split; [|done]. unfold map_param_value_to_uds, encode_normal. rewrite Hd, Hv. simpl. rewrite Ht. simpl. rewrite Hm.
    rewrite (number_bytes (slot_field s) v z (Some m) _ Hplain Hu Hfit Hcat). cbn [mbind result_bind].
    pose proof (plain_pos _ Hplain). pose proof (plain_end _ Hplain). pose proof (RequestFields.plain_width _ Hplain). unfold f_end, MAX_BYTES in *.
    rewrite sat_add_exact by (unfold USIZE_MAX; lia). by rewrite Z.add_0_l, Hpos, Hbit, He.
Qed.

Lemma pad_laid p done_ todo f : laid p done_ todo -> plain f -> laid (pad_to p (f_pos f)) done_ todo.
Proof using.
  intros Hlaid Hplain. pose proof (len_nonneg p). pose proof (progress_len _ _ _ (laid_progress _ _ _ Hlaid)).
  pose proof (plain_end _ Hplain). pose proof (plain_pos _ Hplain). pose proof (RequestFields.plain_width _ Hplain).
  unfold f_end in *. unfold pad_to. apply laid_grow; [done| |]; unfold sat_sub; lia.
Qed.

Lemma values_laid n json l p done_ : Forall (fun q => is_Some (slot_of q)) l ->
  Forall (fun s => is_Some (assigned json s)) (slots l) -> laid p done_ (value_fields json (slots l)).*1 ->
  exists p' done_', encode_params to_string strict (S n) l json p = Ok p' /\
    done_' ≡ₚ value_fields json (slots l) ++ done_ /\ laid p' done_' [].
Proof using ExternalsOk0.
  intros Hl. revert p done_. induction Hl as [|q l [s Hs] Hl IH]; intros p done_ Hall Hlaid; [by exists p, done_|].
  unfold slots in *. cbn [omap list_omap] in *. rewrite Hs in *. apply Forall_cons in Hall as [[z Hz] Hall].
  pose proof (slot_of_spec q s Hs) as (Hname & Hhas & _ & Hpos & Hplain & _).
  assert (value_fields json (s :: omap slot_of l) = value_fields json [s] ++ value_fields json (omap slot_of l)) as Hsplit
    by (unfold value_fields; simpl; by case_match).
  rewrite Hsplit, fmap_app in Hlaid. destruct (param_laid n json q s z _ _ _ Hs Hz (pad_laid _ _ _ _ Hlaid Hplain))
    as (p' & done_' & Hrun & Hperm & Hlaid').
  destruct (IH p' done_' Hall Hlaid') as (p'' & done_'' & Hrun' & Hperm' & Hfinal). exists p'', done_''.
  split; [|split; [by rewrite Hsplit, Hperm', Hperm, !app_assoc, (Permutation_app_comm (value_fields json [s]))|done]].
  cbn [encode_params]. rewrite Hhas, Hname, Hpos. cbn [database ok_or fallible mbind result_bind]. by rewrite Hrun.
Qed.

(** Both rounds write every slot. *)
Lemma fields_split json ss : Forall (fun s => is_Some (assigned json s)) ss ->
  (const_fields ss).*1 ++ (value_fields json ss).*1 ≡ₚ slot_field <$> ss.
Proof using.
  induction 1 as [|s ss [z Hz] _ IH]; [done|]. unfold const_fields, value_fields in *. simpl.
  destruct (slot_const s) as [v|] eqn:Hc; simpl; [by rewrite IH|]. rewrite Hz. simpl. by rewrite <- Permutation_middle, IH.
Qed.

Lemma split_holds json ss s z : Forall (fun s => is_Some (assigned json s)) ss -> s ∈ ss -> assigned json s = Some z ->
  (slot_field s, z) ∈ const_fields ss ++ value_fields json ss.
Proof using.
  intros Hall Hin Hz. apply elem_of_app. destruct (slot_const s) as [v|] eqn:Hc.
  - left. apply list_elem_of_omap. exists s. split; [done|]. unfold assigned in Hz. rewrite Hc in Hz |- *. by injection Hz as ->.
  - right. apply list_elem_of_omap. exists s. split; [done|]. by rewrite Hc, Hz.
Qed.

#[local] Instance slots_perm : Proper ((≡ₚ) ==> (≡ₚ)) slots.
Proof using. intros l k Hp. by apply omap_Permutation. Qed.

Lemma plain_fields l : Forall plain (slot_field <$> slots l).
Proof using.
  apply Forall_fmap, Forall_forall. intros s Hs. apply list_elem_of_omap in Hs as (q & _ & Hq). by apply slot_of_spec in Hq as (_ & _ & _ & _ & ? & _).
Qed.

(** What is written holds every number at its place. *)
Lemma payload_holds n svc params functional json :
  diag_comm svc <> None -> request svc = Some (Some params) -> plain_request params = true -> given params json = true ->
  exists uds, create_uds_payload to_string strict (S n) svc (Ok ()) functional (Some (ParameterMap json)) = Ok uds /\
    bytes uds /\ len uds <= MAX_BYTES /\
    forall s, s ∈ slots params -> exists z, assigned json s = Some z /\ stored (slot_field s) z uds.
Proof using ExternalsOk0.
  intros Hcomm Hreq Hplain Hgiven. unfold plain_request, given in *. rewrite !andb_true_iff in Hplain. destruct Hplain as [[Hslots Hnames] Happart].
  rewrite andb_true_iff in Hgiven. destruct Hgiven as [Hgiven Hkeys]. unfold create_uds_payload.
  destruct (diag_comm svc); [|done]. rewrite Hreq. cbn [database ok_or fallible mbind result_bind default].
  set (l := sort_by position_leb params). assert (l ≡ₚ params) as Hl by apply sort_by_perm.
  assert (Forall (fun q => is_Some (slot_of q)) l) as Hall.
  { rewrite Hl. apply Forall_forall. intros q Hq. rewrite forallb_forall in Hslots. apply list_elem_of_In, Hslots in Hq. by apply bool_decide_eq_true in Hq. }
  assert (Forall (fun s => is_Some (assigned json s)) (slots l)) as Hass.
  { rewrite Hl. apply Forall_forall. intros s Hs. rewrite forallb_forall in Hgiven. apply list_elem_of_In, Hgiven in Hs. by apply bool_decide_eq_true in Hs. }
  pose proof (fields_split json (slots l) Hass) as Hsplit.
  destruct (constants_laid l [] [] (value_fields json (slots l)).*1 Hall) as (p & done_ & Hconst & Hdone & Hlaid).
  { apply laid_start; rewrite Hsplit; [apply plain_fields|]. rewrite Hl. by apply spread_b_spec. }
  destruct (values_laid n json l p done_ Hall Hass Hlaid) as (uds & done_' & Hvalues & Hdone' & Hfinal). exists uds.
  split; [|split; [apply Hfinal|split; [apply Hfinal|]]].
  - transitivity (uds ← process_coded_constants l []; process_parameter_map to_string strict (S n) l json uds); [by destruct functional|].
    rewrite Hconst. cbn [mbind result_bind]. unfold process_parameter_map, reject_unexpected_keys.
    assert (existsb (fun k => negb (bool_decide (k ∈ names l))) (keys json) = false) as ->.
    { apply not_true_iff_false. rewrite existsb_exists. intros (k & Hk & Hno). rewrite forallb_forall in Hkeys.
      apply Hkeys, bool_decide_eq_true in Hk. apply negb_true_iff, bool_decide_eq_false in Hno. apply Hno. unfold names.
      by rewrite (omap_Permutation short_name _ _ Hl). }
    rewrite andb_false_r. done.
  - intros s Hs. rewrite Forall_forall in Hass. destruct (Hass s) as [z Hz]; [by rewrite Hl|]. exists z. split; [done|].
    eapply (laid_stored uds done_' []); [done|]. rewrite Hdone', Hdone, app_nil_r, Permutation_app_comm.
    apply split_holds; [by apply Forall_forall|by rewrite Hl|done].
Qed.
End encode.

(** ** Reading *)

(** No view is in force, and nothing was consumed. *)
Definition whole (uds : list Z) (payload : Payload) : Prop :=
  data payload = uds /\ current_index payload = 0 /\ slices payload = [].

Lemma whole_view uds payload : whole uds payload -> view payload = Ok uds.
Proof. intros (Hd & Hi & Hs). unfold view, pos. by rewrite Hs, Hi, Hd, slice_all. Qed.

Lemma whole_set_last uds payload n : whole uds payload -> whole uds (set_last_read_byte_pos n payload).
Proof. done. Qed.

Definition shown_raw (s : slot) (z : Z) : DiagDataTypeContainerRaw :=
  {| raw_data := be_bytes (Z.to_nat (f_width (slot_field s))) z; raw_bit_len := 8 * f_width (slot_field s);
     raw_data_type := UInt32; raw_compu_method := slot_method s |}.

Section decode.
Context {ext : Externals} `{!ExternalsOk ext} (to_string : spec_float -> str) (uds : list Z).
Hypothesis Huds : bytes uds.

Lemma extract_field s z payload : whole uds payload -> plain (slot_field s) -> stored (slot_field s) z uds ->
  exists payload', whole uds payload' /\
    extract_diag_data_container (f_pos (slot_field s)) 0 (f_type (slot_field s)) (slot_method s) payload
    = (payload', Ok (shown_raw s z)).
Proof using Huds.
  intros Hw Hplain Hs. set (f := slot_field s) in *.
  exists (set_last_read_byte_pos (f_pos f +sat len (be_bytes (Z.to_nat (f_width f)) z))%rust payload). split; [by apply whole_set_last|].
  unfold extract_diag_data_container, returns, lift, gets, modify, mbind, st_result_bind, mret, st_result_ret.
  rewrite (whole_view _ _ Hw). cbn [fallible]. destruct (plain_is_type f Hplain) as [Hbase [c Ht]].
  assert (is_optional (f_type f) = false) as -> by (unfold is_optional; by rewrite Ht).
  cbn [andb]. rewrite (read_field f z uds Hplain Huds Hs). cbn [fallible].
  pose proof (RequestFields.plain_width f Hplain). rewrite be_bytes_len, (proj2 (Z.eqb_neq _ 0)) by lia. cbn [andb].
  by rewrite Hbase.
Qed.

(** The constant's bytes, as the code computes them from its text. *)
Lemma expected_constant f v : plain f -> 0 <= v < 2 ^ (8 * f_width f) ->
  slice (be_bytes 4 v) (4 -sat f_width f)%rust 4 = Some (be_bytes (Z.to_nat (f_width f)) v).
Proof using.
  intros Hplain Hv. pose proof (RequestFields.plain_width f Hplain). unfold sat_sub. rewrite Z.max_l by lia.
  replace 4%nat with ((4 - Z.to_nat (f_width f)) + Z.to_nat (f_width f))%nat by lia. rewrite be_bytes_app.
  rewrite slice_some by (rewrite ?len_app, ?be_bytes_len; lia).
  set (k := be_bytes (4 - _) _). assert (length k = Z.to_nat (4 - f_width f)) as Hk
    by (pose proof (be_bytes_len (4 - Z.to_nat (f_width f)) (v / 2 ^ (8 * Z.of_nat (Z.to_nat (f_width f))))) as Hl; unfold len in Hl; fold k in Hl; lia).
  rewrite drop_app_length' by done. rewrite take_ge; [done|].
  pose proof (be_bytes_len (Z.to_nat (f_width f)) v) as Hl. unfold len in Hl. lia.
Qed.

Lemma decode_slot n svc q s z payload decoded errors : slot_of q = Some s ->
  match slot_const s with Some v => z = v | None => True end ->
  whole uds payload -> stored (slot_field s) z uds ->
  exists payload', whole uds payload' /\
    map_top_param to_string (S n) svc (slot_name s) q errors (payload, decoded)
    = ((payload', <[slot_name s := RawContainer (shown_raw s z)]> decoded), Ok errors).
Proof using Huds ExternalsOk0.
  intros Hs Hz Hw Hst. apply slot_of_spec in Hs as (Hname & Hhas & Hbit & Hpos & Hplain & Hs).
  destruct (extract_field s z payload Hw Hplain Hst) as (payload' & Hw' & Hext). exists payload'. split; [done|].
  unfold map_top_param, ParamContext_new. cbn [map_param_from_uds parameter].
  assert (forall p, abs_byte_pos {| parameter := q; base_offset := 0; outer_context := p |} = f_pos (slot_field s)) as Habs.
  { intros p. unfold abs_byte_pos. cbn [base_offset parameter]. rewrite Hpos, sat_add_exact; [done|].
    pose proof (plain_end _ Hplain). pose proof (RequestFields.plain_width _ Hplain). unfold f_end, MAX_BYTES, USIZE_MAX in *. lia. }
  destruct Hs as [c text v Hty Hd Ht Hc Hpu Hpi Hconst Hm Hfit|default d m Hty Hd Ht Hm Hcat Hconst Hm'];
    rewrite Hty; unfold returns at 1, lift at 1, mbind at 1, st_result_bind at 1; cbn [fallible].
  - rewrite Hconst in Hz. subst z. unfold map_param_coded_const_from_uds, required, as_coded_const. cbn [parameter]. rewrite Hd.
    unfold returns, lift, on_payload, mbind, st_result_bind. cbn [ok_or fallible]. rewrite Ht. cbn [fallible].
    rewrite Habs, Hbit. rewrite Hm in Hext. rewrite Hext. cbn [fst snd]. rewrite Hc. cbn [ok_or fallible].
    destruct (plain_is_type _ Hplain) as [Hbase _]. rewrite Hbase. unfold str_to_json_value. rewrite Hpu. cbn [ok_or mbind result_bind fallible].
    pose proof (RequestFields.plain_width _ Hplain).
    assert (2 ^ (8 * f_width (slot_field s)) <= 2 ^ 32) by (apply Z.pow_le_mono_r; lia).
    rewrite (number_bytes (slot_field s) _ v None None Hplain); [|simpl; apply u64_as_u64; unfold U64_MAX; lia|done|done].
    change (len (be_bytes 4 v)) with 4. cbn [shown_raw raw_data]. rewrite be_bytes_len, Z2Nat.id by lia.
    rewrite (expected_constant _ _ Hplain Hfit). cbn [ok_or fallible]. rewrite bool_decide_true by done. done.
  - unfold map_param_value_from_uds, required. cbn [parameter]. rewrite Hd.
    unfold returns, lift, mbind, st_result_bind. cbn [ok_or fallible].
    unfold map_dop_from_uds, required. cbn [parameter]. rewrite Hname. unfold returns, lift, mbind, st_result_bind. cbn [ok_or fallible variant].
    rewrite Ht. cbn [fallible]. destruct (plain_is_type _ Hplain) as [Hbase [c Hty']].
    assert (length_key_name (f_type (slot_field s)) = None) as -> by (unfold length_key_name; by rewrite Hty').
    unfold map_normal_dop_from_uds, required, returns, lift, value_byte_pos, on_payload, mbind, st_result_bind, mret, st_result_ret.
    rewrite Ht, Hm. cbn [ok_or fallible parameter]. rewrite Hhas. rewrite Habs, Hbit. rewrite Hm' in Hext. rewrite Hext. done.
Qed.

Definition note_slot (json : gmap str Value) (m : MappedPayload) (s : slot) : MappedPayload :=
  <[slot_name s := RawContainer (shown_raw s (default 0 (assigned json s)))]> m.

Lemma decode_slots n svc json l : Forall (fun q => is_Some (slot_of q)) l -> forall payload decoded errors, whole uds payload ->
  (forall s, s ∈ slots l -> exists z, assigned json s = Some z /\ stored (slot_field s) z uds) ->
  exists payload', map_request_params to_string (S n) svc l errors (payload, decoded)
    = ((payload', foldl (note_slot json) decoded (slots l)), Ok errors).
Proof using Huds ExternalsOk0.
  induction 1 as [|q l [s Hs] _ IH]; intros payload decoded errors Hw Hst; [by exists payload|].
  unfold slots in *. cbn [omap list_omap] in *. rewrite Hs in *. destruct (Hst s (list_elem_of_here _ _)) as (z & Hz & Hstored).
  pose proof (slot_of_spec q s Hs) as (Hname & _). cbn [map_request_params]. unfold required, returns, lift. rewrite Hname.
  cbn [ok_or fallible]. unfold mbind, st_result_bind, on_payload, modify. set (last := if has_byte_position q then _ else _).
  destruct (decode_slot n svc q s z (set_last_read_byte_pos last payload) decoded errors Hs) as (payload' & Hw' & Hrun);
    [unfold assigned in Hz; destruct (slot_const s); [congruence|done]|by apply whole_set_last|done|].
  rewrite Hrun. destruct (IH payload' (note_slot json decoded s) errors Hw') as (payload'' & Hrest).
  { intros s' Hs'. apply Hst. by apply list_elem_of_further. }
  exists payload''. cbn [foldl]. rewrite <- Hrest. unfold note_slot. by rewrite Hz.
Qed.

Lemma note_slots_other json ss m k : k ∉ slot_name <$> ss -> foldl (note_slot json) m ss !! k = m !! k.
Proof using.
  revert m. induction ss as [|s ss IH]; intros m Hk; [done|]. cbn [foldl]. rewrite fmap_cons, not_elem_of_cons in Hk. destruct Hk as [Hne Hk].
  rewrite IH by done. unfold note_slot. by rewrite lookup_insert_ne.
Qed.

Lemma note_slots_lookup json ss m s : NoDup (slot_name <$> ss) -> s ∈ ss ->
  foldl (note_slot json) m ss !! slot_name s = Some (RawContainer (shown_raw s (default 0 (assigned json s)))).
Proof using.
  revert m. induction ss as [|s' ss IH]; intros m Hd Hs; [by apply not_elem_of_nil in Hs|]. cbn [foldl fmap list_fmap] in *.
  apply NoDup_cons in Hd as [Hn Hd]. apply elem_of_cons in Hs as [->|Hs]; [|by apply IH].
  rewrite note_slots_other by done. unfold note_slot. by rewrite lookup_insert_eq.
Qed.

Lemma shown_raw_value s z : plain (slot_field s) -> 0 <= z < 2 ^ (8 * f_width (slot_field s)) ->
  match slot_method s with Some m => category m = Identical | None => True end ->
  raw_value to_string (shown_raw s z) = Ok (VUInt32 z).
Proof using.
  intros Hplain Hz Hm. pose proof (RequestFields.plain_width _ Hplain). unfold raw_value, shown_raw. cbn [raw_data raw_data_type raw_compu_method].
  set (l := be_bytes _ z). assert (len l = f_width (slot_field s)) as Hl by (unfold l; rewrite be_bytes_len; lia).
  assert (uds_data_to_serializable to_string UInt32 (slot_method s) false l = DiagDataValue_new UInt32 l) as ->.
  { unfold uds_data_to_serializable. rewrite bool_decide_false by (apply len_non_empty; lia). destruct (slot_method s) as [m|]; [by rewrite Hm|done]. }
  rewrite new_integer; [|by right|lia]. unfold integer_value, l. rewrite be_val_be_bytes, Z2Nat.id by lia. by rewrite Z.mod_small.
Qed.
End decode.

Lemma slot_facts params s : s ∈ slots params ->
  exists q, q ∈ params /\ plain (slot_field s) /\ match slot_method s with Some m => category m = Identical | None => True end /\
    forall v, slot_const s = Some v -> 0 <= v < 2 ^ (8 * f_width (slot_field s)).
Proof.
  intros Hs. apply list_elem_of_omap in Hs as (q & Hin & Hq). exists q. split; [done|]. apply slot_of_spec in Hq as (_ & _ & _ & _ & Hp & Hq).
  split; [done|]. destruct Hq as [c text v ? ? ? ? ? ? Hc -> Hf|default d m ? ? ? ? Hcat Hc ->]; split; try done; intros v'; rewrite Hc; [by intros [= <-]|done].
Qed.

Lemma assigned_fits {ext : Externals} json params s z : s ∈ slots params -> assigned json s = Some z ->
  0 <= z < 2 ^ (8 * f_width (slot_field s)).
Proof.
  intros Hs Hz. apply slot_facts in Hs as (_ & _ & _ & _ & Hc). destruct (slot_const s) as [v|] eqn:E.
  - unfold assigned in Hz. rewrite E in Hz. injection Hz as <-. by apply Hc.
  - by apply assigned_value in Hz as (_ & _ & _ & Hf).
Qed.

Lemma note_slots_spec {ext : Externals} json ss k c : NoDup (slot_name <$> ss) ->
  foldl (note_slot json) ∅ ss !! k = Some c <->
  exists s, s ∈ ss /\ k = slot_name s /\ c = RawContainer (shown_raw s (default 0 (assigned json s))).
Proof.
  intros Hd. split.
  - intros Hk. destruct (decide (k ∈ slot_name <$> ss)) as [Hin|Hin].
    + apply list_elem_of_fmap in Hin as (s & -> & Hs). rewrite (note_slots_lookup json ss ∅ s Hd Hs) in Hk. exists s. by simplify_eq.
    + by rewrite note_slots_other, lookup_empty in Hk.
  - intros (s & Hs & -> & ->). by apply note_slots_lookup.
Qed.

(** What the decoded slots are shown as. *)
Lemma slots_shown {ext : Externals} to_string json params : params <> [] ->
  Forall (fun q => is_Some (slot_of q)) params -> NoDup (slot_name <$> slots params) ->
  (forall s, s ∈ slots params -> is_Some (assigned json s)) ->
  let m := foldl (note_slot json) ∅ (slots params) in
  m <> ∅ /\ exists values, map_members to_string m [] = ([], Ok values) /\
    forall k v, values !! k = Some v <-> exists s z, s ∈ slots params /\ k = slot_name s /\ assigned json s = Some z /\ v = VUInt32 z.
Proof.
  intros Hne Hall Hd Hass m.
  assert (forall k c v, m !! k = Some c -> shows to_string c v <->
    exists s z, s ∈ slots params /\ k = slot_name s /\ assigned json s = Some z /\ v = VUInt32 z) as Hshows.
  { intros k c v Hk. apply note_slots_spec in Hk as (s & Hs & -> & ->); [|done]. destruct (Hass s Hs) as [z Hz].
    destruct (slot_facts params s Hs) as (_ & _ & Hplain & Hm & _). pose proof (assigned_fits json params s z Hs Hz) as Hf.
    pose proof (shown_raw_value to_string s z Hplain Hf Hm) as Hraw. rewrite Hz. cbn [default from_option]. split.
    - intros Hv. inversion Hv; subst. exists s, z. repeat (split; [done|]). unfold id in *. congruence.
    - intros (s' & z' & Hs' & Hname & Hz' & ->). assert (s' = s) as ->; [|by constructor; simplify_eq].
      apply list_elem_of_lookup in Hs' as [i Hi], Hs as [j Hj]. assert (i = j) as ->; [|congruence].
      eapply (NoDup_lookup (slot_name <$> slots params)); [done| |]; rewrite list_lookup_fmap; [by rewrite Hi|by rewrite Hj, <- Hname]. }
  split.
  - destruct Hall as [|q l [s Hs] _]; [done|]. intros E. assert (s ∈ slots (q :: l)) as Hin by (unfold slots; cbn [omap list_omap]; rewrite Hs; by left).
    pose proof (note_slots_lookup json _ ∅ s Hd Hin) as Hk. fold m in Hk. by rewrite E, lookup_empty in Hk.
  - destruct (map_members_settles to_string m []) as [He Hm]. destruct (map_members to_string m []) as [e [values|e']]; simpl in *; subst e.
    + exists values. split; [done|]. destruct Hm as [Hdom Hm]. intros k v. split.
      * intros Hv. assert (is_Some (m !! k)) as [c Hc] by (apply elem_of_dom; rewrite Hdom; by eapply elem_of_dom_2). by apply (Hshows k c v Hc), (Hm k).
      * intros Hspec. pose proof Hspec as (s & z & Hs & -> & Hz & Hv).
        pose proof (note_slots_lookup json _ ∅ s Hd Hs) as Hk. fold m in Hk.
        assert (is_Some (values !! slot_name s)) as [v' Hv'] by (apply elem_of_dom; rewrite <- Hdom; by eapply elem_of_dom_2).
        pose proof (Hm _ _ _ Hk Hv') as Hsh. apply (Hshows _ _ _ Hk) in Hsh as (s' & z' & Hs' & Hname & Hz' & ->).
        assert (shows to_string (RawContainer (shown_raw s (default 0 (assigned json s)))) v) as Hs1 by (by apply (Hshows _ _ _ Hk)).
        assert (shows to_string (RawContainer (shown_raw s (default 0 (assigned json s)))) (VUInt32 z')) as Hs2 by (apply (Hshows _ _ _ Hk); by exists s', z').
        rewrite Hv'. inversion Hs1. inversion Hs2. congruence.
    + destruct Hm as [_ Hno]. exfalso. apply (Hno ((fun c => match c with RawContainer raw => match raw_value to_string raw with Ok v => v | Err _ => VUInt32 0 end | _ => VUInt32 0 end) <$> m)).
      split; [by rewrite dom_fmap_L|]. intros k c v Hk. rewrite lookup_fmap, Hk. simpl. intros [= <-].
      pose proof Hk as Hk'. apply note_slots_spec in Hk' as (s & Hs & -> & ->); [|done]. destruct (Hass s Hs) as [z Hz].
      assert (shows to_string (RawContainer (shown_raw s (default 0 (assigned json s)))) (VUInt32 z)) as Hsh by (apply (Hshows _ _ _ Hk); by exists s, z).
      inversion Hsh as [? ? Hraw| | |]; subst. by rewrite Hraw.
Qed.

(** ** The round trip *)

(** C10: a request of plain parameters is encoded when every value is given and
    fits, and the bytes that are sent are decoded to JSON with exactly the
    request's parameters, each with its number: the value that was given, or
    the constant. *)
Theorem request_roundtrip {ext : Externals} `{!ExternalsOk ext} to_string strict n svc params functional json :
  diag_comm svc <> None -> request svc = Some (Some params) -> params <> [] ->
  plain_request params = true -> given params json = true ->
  exists uds r shown,
    create_uds_payload to_string strict (S n) svc (Ok ()) functional (Some (ParameterMap json)) = Ok uds /\
    convert_request_from_uds to_string (S n) svc uds true = Ok r /\
    serialize_to_json to_string r = Ok {| json_data := Object shown; json_errors := [] |} /\
    forall k v, shown !! k = Some v <->
      exists s z, s ∈ slots params /\ k = slot_name s /\ assigned json s = Some z /\ v = Number (number_from_u64 z).
Proof.
  intros Hcomm Hreq Hne Hplain Hgiven.
  destruct (payload_holds to_string strict n svc params functional json Hcomm Hreq Hplain Hgiven) as (uds & Henc & Hb & _ & Hholds).
  unfold plain_request in Hplain. rewrite !andb_true_iff in Hplain. destruct Hplain as [[Hslots Hnames] _]. apply bool_decide_eq_true in Hnames.
  assert (Forall (fun q => is_Some (slot_of q)) params) as Hall.
  { apply Forall_forall. intros q Hq. rewrite forallb_forall in Hslots. apply list_elem_of_In, Hslots in Hq. by apply bool_decide_eq_true in Hq. }
  destruct (decode_slots to_string uds Hb n svc json params Hall (new uds) ∅ []) as [payload' Hdec]; [done|done|].
  set (m := foldl (note_slot json) ∅ (slots params)) in *.
  assert (forall s, s ∈ slots params -> is_Some (assigned json s)) as Hass by (intros s Hs; destruct (Hholds s Hs) as (z & Hz & _); by exists z).
  destruct (slots_shown to_string json params Hne Hall Hnames Hass) as (Hm & values & Hvalues & Hspec). fold m in Hm, Hvalues.
  exists uds, (create_diag_service_response m Positive uds []), (value_to_json <$> values). split; [done|]. split; [|split].
  - unfold convert_request_from_uds. rewrite Hreq. cbn [ok_or fallible mbind result_bind default from_option id negb]. by rewrite Hdec.
  - unfold serialize_to_json, create_diag_service_response. cbn [mapped_data ok_or mbind result_bind mapped errors].
    rewrite bool_decide_false by done. by rewrite Hvalues.
  - intros k v. rewrite lookup_fmap_Some. split.
    + intros (x & <- & (s & z & Hs & Hk & Hz & ->)%Hspec). by exists s, z.
    + intros (s & z & Hs & Hk & Hz & ->). exists (VUInt32 z). split; [done|]. apply Hspec. by exists s, z.
Qed.

(** ** The constants in front *)

Lemma find_map_elem {A B} (f : A -> option B) l b : find_map f l = Some b -> exists a, a ∈ l /\ f a = Some b.
Proof.
  induction l as [|a l IH]; [done|]. simpl. destruct (f a) as [b'|] eqn:E.
  - intros [= <-]. exists a. split; [by left|done].
  - intros (a' & Hin & Ha)%IH. exists a'. split; [by right|done].
Qed.

Lemma request_const_place pos bp p v n : request_const_at pos bp p = Some (v, n) -> byte_position p = pos.
Proof. unfold request_const_at. by destruct (Z.eqb_spec (byte_position p) pos). Qed.

(** The constants of [params] at [pos] or behind. *)
Definition remaining (params : list Param) (pos : Z) : nat := length (filter (fun p => pos <= byte_position p) params).

Lemma remaining_less params pos next p : p ∈ params -> byte_position p = pos -> pos < next ->
  (remaining params next < remaining params pos)%nat.
Proof.
  intros Hin Hp Hn. induction params as [|q params IH]; [by apply not_elem_of_nil in Hin|].
  assert (remaining params next <= remaining params pos)%nat as Hmono.
  { clear IH Hin. unfold remaining. induction params as [|r params IH]; [done|]. rewrite !filter_cons. repeat case_decide; simpl; lia. }
  unfold remaining in *. rewrite !filter_cons. apply elem_of_cons in Hin as [<-|Hin].
  - rewrite decide_False, decide_True by lia. simpl. lia.
  - specialize (IH Hin). repeat case_decide; simpl; lia.
Qed.

(** Constants have a length, and the position after them is no overflow. *)
Definition advancing (params : list Param) : bool :=
  forallb (fun p => match request_const_at (byte_position p) 0 p with
                    | Some (_, n) => (0 <? n) && (byte_position p <? U32_MAX)
                    | None => true
                    end) params.

Lemma sequential_ends svc params : request svc = Some (Some params) -> advancing params = true ->
  forall fuel pos, (remaining params pos < fuel)%nat -> is_ok (sequential_consts fuel svc pos) = true.
Proof.
  intros Hreq Hadv. induction fuel as [|fuel IH]; intros pos Hfuel; [lia|]. simpl. unfold find_request_sid_or_sub_func_param.
  rewrite Hreq. simpl. destruct (find_map _ _) as [[v n]|] eqn:Hfind; [|done].
  apply find_map_elem in Hfind as (p & Hin & Hp). pose proof (request_const_place _ _ _ _ _ Hp) as Hpos.
  unfold advancing in Hadv. rewrite forallb_forall in Hadv. specialize (Hadv p (proj1 (list_elem_of_In _ _) Hin)). rewrite Hpos, Hp in Hadv.
  apply andb_true_iff in Hadv as [Hn%Z.ltb_lt Hm%Z.ltb_lt]. specialize (IH (u32_sat_add pos (div_ceil n 8))).
  destruct (sequential_consts fuel svc _); [done|]. apply IH. pose proof (div_ceil_pos n 8 ltac:(lia) Hn).
  assert (pos < u32_sat_add pos (div_ceil n 8)) as Hlt by (unfold u32_sat_add; lia).
  pose proof (remaining_less params pos _ p Hin Hpos Hlt). lia.
Qed.

(** reading the constants a request starts with ends, when none of them has
    the length 0 or lies at the last position; so does the search for the
    service of a raw request, which is made of nothing else. *)
Theorem consts_terminate svc params : request svc = Some (Some params) -> advancing params = true ->
  (exists l, extract_sequential_coded_consts svc = Ok l) /\
  forall request_bytes, exists b, matches_request_prefix svc request_bytes = Ok b.
Proof.
  intros Hreq Hadv. assert (exists l, extract_sequential_coded_consts svc = Ok l) as [l Hl].
  { pose proof (sequential_ends svc params Hreq Hadv (S (length params)) 0) as H.
    unfold extract_sequential_coded_consts. rewrite Hreq. simpl length. destruct (sequential_consts _ _ _) as [l|]; [by exists l|].
    discriminate H. unfold remaining. pose proof (length_filter (fun p => 0 <= byte_position p) params). lia. }
  split; [by exists l|]. intros request_bytes. exists (prefix_matches l request_bytes 0). unfold matches_request_prefix. by rewrite Hl.
Qed.

(** Two constants, and a value between them and a third. *)
Definition did_request : list Param :=
  [const_param "sid" 0 8 "46"; const_param "did" 1 16 "61840"; number_param "speed" 3 16; const_param "tail" 6 8 "7"].

Lemma consts_terminate_witness :
  advancing did_request = true /\ exists l, extract_sequential_coded_consts (service_of did_request []) = Ok l.
Proof.
  split; [vm_compute; reflexivity|]. apply (consts_terminate (service_of did_request []) did_request); [reflexivity|vm_compute; reflexivity].
Defined.

(** A constant of length 0 is found again and again. *)
Lemma zero_length_constant_loops fuel :
  sequential_consts fuel (service_of [const_param "c" 0 0 "0"] []) 0 = Err OutOfFuel.
Proof. induction fuel as [|fuel IH]; [done|]. cbn [sequential_consts]. change (find_request_sid_or_sub_func_param _ 0 0) with (Some (0, 0)).
  cbv iota beta. change (u32_sat_add 0 (div_ceil 0 8)) with 0. by rewrite IH.
Qed.

(** ** A request is recognised by its constants *)

Lemma try_from_standard d t slt : DiagCodedType_try_from d = Ok t -> type_ t = StandardLength slt ->
  exists s, fb_as_standard_length_type d = Some s /\ fb_sl_bit_length s = bit_length slt.
Proof.
  intros (base & _ & (variant & Hv & [= <-])%bind_ok)%bind_ok. simpl. intros ->. revert Hv. unfold DiagCodedTypeVariant_try_from.
  repeat case_match; try done; intros Hv.
  - by apply bind_ok in Hv as (k & _ & (q & _ & (name & _ & [=])%bind_ok)%bind_ok).
  - apply ok_or_ok in Hv. destruct (fb_as_standard_length_type d) as [s|]; [|done]. injection Hv as <-. by exists s.
  - apply bind_ok in Hv as (m & _ & (term & _ & E)%bind_ok). by destruct (MinMaxLengthType_new _ _ _).
  - by destruct (fb_as_leading_length_info_type d).
Qed.

Lemma const_found pos q s v n : slot_of q = Some s -> request_const_at pos 0 q = Some (v, n) ->
  slot_const s = Some v /\ n = 8 * f_width (slot_field s) /\ pos = f_pos (slot_field s) /\ 0 <= v < 2 ^ n.
Proof.
  intros Hs Hq. apply slot_of_spec in Hs as (_ & _ & _ & Hpos & Hplain & Hs). pose proof (request_const_place _ _ _ _ _ Hq) as Hp.
  unfold request_const_at in Hq. destruct (_ || _); [done|]. unfold as_coded_const in Hq.
  destruct Hs as [c text v' _ Hd Ht Hc Hpu _ Hconst _ Hf|default d m _ Hd _ _ _ _ _]; rewrite Hd in Hq; [|done]. simpl in Hq.
  unfold diag_coded_type_of in Ht. destruct (const_coded_type c) as [dct|]; [|done]. simpl in Hq.
  destruct (plain_is_type _ Hplain) as [_ [cc Hty]]. destruct (try_from_standard dct _ _ Ht Hty) as (slt & Hslt & Hbits).
  destruct (negb _); [done|]. rewrite Hslt in Hq. simpl in Hq. destruct (_ || _); [done|]. rewrite Hc in Hq. simpl in Hq.
  rewrite Hpu in Hq. simpl in Hq. injection Hq as -> <-. rewrite Hbits. simpl. split; [done|]. split; [done|]. split; [lia|done].
Qed.

Lemma prefix_holds svc uds : len uds <= MAX_BYTES ->
  (forall pos v n, find_request_sid_or_sub_func_param svc pos 0 = Some (v, n) ->
     exists w, n = 8 * w /\ 1 <= w <= 4 /\ 0 <= pos /\ pos + w <= U32_MAX /\ 0 <= v < 2 ^ n /\
       slice uds pos (pos + w) = Some (be_bytes (Z.to_nat w) v)) ->
  forall fuel pos l, 0 <= pos -> sequential_consts fuel svc pos = Ok l -> prefix_matches l uds pos = true.
Proof.
  intros Hl Hfound. induction fuel as [|fuel IH]; intros pos l Hpos; [done|]. cbn [sequential_consts].
  destruct (find_request_sid_or_sub_func_param svc pos 0) as [[v n]|] eqn:Hf; [|by intros [= <-]].
  destruct (Hfound _ _ _ Hf) as (w & -> & Hw & _ & Hmax & Hv & Hslice). intros (l' & Hl' & [= <-])%bind_ok.
  assert (div_ceil (8 * w) 8 = w) as Hdc by (rewrite Z.mul_comm; apply div_ceil_mul; lia). rewrite Hdc in Hl'.
  cbn [prefix_matches]. unfold byte_count. cbn [raw_bit_length value]. rewrite Hdc. unfold U32_MAX in Hmax.
  rewrite (proj2 (Z.ltb_ge 4 w)) by lia. rewrite checked_add_some by (unfold USIZE_MAX; lia).
  destruct (len uds <? pos + w); [done|]. rewrite Hslice.
  unfold vec_of. rewrite be_val_zeros_app, be_val_be_bytes, Z2Nat.id, Z.mod_small, Z.eqb_refl by lia. simpl.
  apply IH; [lia|]. replace (pos + w) with (u32_sat_add pos w); [done|]. unfold u32_sat_add, U32_MAX. lia.
Qed.

(** Constants with their most significant byte first. *)
Definition big_endian_constants (params : list Param) : bool :=
  forallb (fun s => match slot_const s with
                    | Some _ => is_high_low_byte_order (f_type (slot_field s))
                    | None => true
                    end && (f_end (slot_field s) <=? U32_MAX)) (slots params).

(** the bytes encoded for a service match the constants of that service, so
    a raw request is attributed to the service that would encode it. *)
Theorem own_request_matches {ext : Externals} `{!ExternalsOk ext} to_string strict n svc params functional json :
  diag_comm svc <> None -> request svc = Some (Some params) ->
  plain_request params = true -> given params json = true ->
  advancing params = true -> big_endian_constants params = true ->
  exists uds, create_uds_payload to_string strict (S n) svc (Ok ()) functional (Some (ParameterMap json)) = Ok uds /\
    matches_request_prefix svc uds = Ok true.
Proof.
  intros Hcomm Hreq Hplain Hgiven Hadv Hbig.
  destruct (payload_holds to_string strict n svc params functional json Hcomm Hreq Hplain Hgiven) as (uds & Henc & Hb & Hl & Hholds).
  exists uds. split; [done|]. unfold plain_request in Hplain. rewrite !andb_true_iff in Hplain. destruct Hplain as [[Hslots _] _].
  unfold matches_request_prefix, extract_sequential_coded_consts.
  pose proof (sequential_ends svc params Hreq Hadv (S (length params)) 0) as Hends. rewrite Hreq. cbn [default from_option id].
  destruct (sequential_consts _ _ _) as [l|] eqn:Hseq.
  2:{ discriminate Hends. unfold remaining. pose proof (length_filter (fun p => 0 <= byte_position p) params). lia. }
  cbn [mbind result_bind]. f_equal. refine (prefix_holds svc uds Hl _ _ 0 l ltac:(lia) Hseq). intros pos v k Hfind.
  unfold find_request_sid_or_sub_func_param in Hfind. rewrite Hreq in Hfind. apply find_map_elem in Hfind as (q & Hin & Hq).
  rewrite forallb_forall in Hslots. pose proof (Hslots q (proj1 (list_elem_of_In _ _) Hin)) as [s Hs]%bool_decide_eq_true.
  assert (s ∈ slots params) as Hsin by (apply list_elem_of_omap; by exists q).
  destruct (const_found pos q s v k Hs Hq) as (Hc & -> & -> & Hv). destruct (slot_facts params s Hsin) as (_ & _ & Hp & _).
  unfold big_endian_constants in Hbig. rewrite forallb_forall in Hbig. specialize (Hbig s (proj1 (list_elem_of_In _ _) Hsin)).
  rewrite Hc in Hbig. apply andb_true_iff in Hbig as [Hend Hmax%Z.leb_le]. destruct (Hholds s Hsin) as (z & Hz & Hst).
  unfold assigned in Hz. rewrite Hc in Hz. injection Hz as <-. exists (f_width (slot_field s)).
  split; [done|]. split; [apply (RequestFields.plain_width _ Hp)|]. split; [apply (plain_pos _ Hp)|]. split; [done|]. split; [done|].
  unfold stored, byte_order in Hst. by rewrite Hend in Hst.
Qed.

Definition did_service : DiagService := service_of did_request [].
Definition did_json : gmap str (Value (ext := reference)) := {[ chars "speed" := @Number reference (PosInt 4660) ]}.

Lemma request_roundtrip_witness :
  exists uds r shown,
    create_uds_payload (ext := reference) no_floats true 1 did_service (Ok ()) false (Some (ParameterMap did_json)) = Ok uds /\
    convert_request_from_uds no_floats 1 did_service uds true = Ok r /\
    serialize_to_json no_floats r = Ok {| json_data := Object shown; json_errors := [] |} /\
    shown !! chars "speed" = Some (@Number reference (PosInt 4660)).
Proof.
  destruct (request_roundtrip (ext := reference) no_floats true 0 did_service did_request false did_json)
    as (uds & r & shown & Henc & Hdec & Hjson & Hshown); [done|reflexivity|done|vm_compute; reflexivity|vm_compute; reflexivity|].
  exists uds, r, shown. split; [exact Henc|]. split; [exact Hdec|]. split; [exact Hjson|]. apply Hshown.
  destruct (slot_of (number_param "speed" 3 16)) as [s|] eqn:E; [|vm_compute in E; discriminate E].
  exists s, 4660. split; [apply list_elem_of_omap; exists (number_param "speed" 3 16); split; [do 2 right; left|exact E]|].
  injection E as <-. repeat split.
Defined.

Lemma own_request_matches_witness :
  exists uds, create_uds_payload (ext := reference) no_floats true 1 did_service (Ok ()) false (Some (ParameterMap did_json)) = Ok uds /\
    matches_request_prefix did_service uds = Ok true.
Proof.
  apply (own_request_matches (ext := reference) no_floats true 0 did_service did_request false did_json);
    [done|reflexivity|vm_compute; reflexivity..].
Defined.

(** ** Runs in which encoding and decoding disagree *)

Section runs.
#[local] Existing Instance reference.
Local Open Scope string_scope.

Definition json_of (l : list (string * Value)) : gmap str Value := list_to_map ((fun '(k, v) => (chars k, v)) <$> l).
Definition int (z : Z) : Value := Number (PosInt z).

Definition encoded (params : list Param) (l : list (string * Value)) : presult (list Z) :=
  create_uds_payload no_floats false 8 (service_of params []) (Ok ()) false (Some (ParameterMap (json_of l))).

Definition sid : Param := const_param "sid" 0 8 "46".

(** The bytes of the example: a constant, a value, a gap and a constant. *)
Example did_request_bytes : encoded did_request [("speed", int 4660)] = Ok [46; 241; 144; 18; 52; 0; 7].
Proof. vm_compute. reflexivity. Qed.

(** A constant inside of a structure is never written. *)
Example nested_constant_not_written :
  encoded [sid; value_param "s" (Some 1) (structure [const_param "c" 0 8 "5"; number_param "x" 1 8] None)]
    [("s", Object (json_of [("x", int 7)]))] = Ok [46; 0; 7].
Proof. vm_compute. reflexivity. Qed.

(** A constant text of digits is taken for a number, which a text type refuses. *)
Example numeric_text_constant_refused :
  encoded [sid; param_at "c" (Some 1) 0
    (CodedConstData {| coded_value := Some (chars "12"); const_coded_type := Some (standard_type 3 16) |})] []
  = Err (Failed ParameterConversionError).
Proof. vm_compute. reflexivity. Qed.

(** A default case without a structure can be decoded but not encoded. *)
Example empty_default_case_not_encoded :
  let params := [sid; value_param "m" (Some 1)
    (mux_of 0 1 [case_of "a" 1 None] (Some {| default_short_name := Some (chars "d"); default_structure := None |}))] in
  encoded params [("m", Object (json_of [("Selector", int 7)]))] = Err (Failed InvalidRequest) /\
  bytes_of (decoded_request params [46; 7]) [Key "m"; Key "Selector"] = Some [7].
Proof. split; vm_compute; reflexivity. Qed.

(** A multiplexer goes to the end of what was written, and constants were
    written before: its key belongs to byte 1 and ends up at byte 3. *)
Example mux_ignores_its_position :
  encoded [sid; value_param "m" (Some 1) (mux_of 0 1 [case_of "a" 1 None] None); const_param "tail" 2 8 "5"]
    [("m", Object (json_of [("Selector", int 1)]))]
  = Ok [46; 0; 5; 1].
Proof. vm_compute. reflexivity. Qed.
End runs.

(** A constant with its least significant byte first is compared as if it were
    the other way round: the bytes that are encoded do not match. *)
Definition little_endian_did : Param := param_at "did" (Some 1) 0
  (CodedConstData {| coded_value := Some (chars "258"); const_coded_type := Some
     {| fb_base_data_type := 1; fb_is_high_low_byte_order := false; fb_specific_data_type := 4;
        fb_as_leading_length_info_type := None; fb_as_min_max_length_type := None; fb_as_param_length_info_type := None;
        fb_as_standard_length_type := Some {| fb_sl_bit_length := 16; fb_sl_bit_mask := None; fb_sl_condensed := false |} |} |}).

Example little_endian_constant_not_recognised :
  let svc := service_of [sid; little_endian_did] [] in
  create_uds_payload (ext := reference) no_floats false 8 svc (Ok ()) false None = Ok [46; 2; 1] /\
  matches_request_prefix svc [46; 2; 1] = Ok false.
Proof. split; vm_compute; reflexivity. Qed.
