(* ===== verification/UdsRequest.v ===== *)
(** * A request from the API to the ECU and back

    [send_without_variant_guard] and [send_with_optional_timeout] of
    cda-comm-uds/src/transport.rs over the whole [create_uds_payload] and
    [convert_from_uds]: looking the service up, checking the access, encoding,
    sending, recording the states, decoding. *)

From stdpp Require Import strings gmap.
From stdpp Require Import list.
From S2P Require Import Prelude Bytes Errors Text Ieee754 Json StateCharts Database DiagLayers Uds Transport EcuState VariantDetection SampleDatabase Naming ServiceLookup StateTransitions PayloadDecode ResponseDecode PayloadEncode.

Local Open Scope Z_scope.
Set Warnings "-register-all".

Section requests.
Context {ext : Externals} (to_string : spec_float -> str) (strict_parameter_validation : bool).
Context (to_lowercase : string -> string) (convention : DatabaseNamingConvention).
(** The addresses of the tester and the ECU. *)
Context (tester_address logical_address : Z).

(** ** [PayloadEncoder] and [PayloadDecoder] of [EcuManager] *)

(** The lookup, then what PayloadEncode.v has, then the transitions. *)
Definition create_uds_payload (fuel : nat) (self : Kernel) (diag_service : ApiDiagComm) (security_plugin : DynamicPlugin)
    (data : option UdsPayloadData) (functional_group_name : option string) : Kernel * presult ServicePayload :=
  let '(self, mapped_service) :=
    lookup_diag_service to_lowercase convention self diag_service functional_group_name None in
  (self,
   mapped_service ← mapped_service;
   uds ← PayloadEncode.create_uds_payload to_string strict_parameter_validation fuel mapped_service
           (check_service_access convention (manager self) security_plugin mapped_service)
           (bool_decide (is_Some functional_group_name)) data;
   mapped_dc ← fallible (ok_or (diag_comm mapped_service) InvalidDatabase);
   let '(new_session, new_security) := lookup_state_transition_by_diagcomm_for_active convention (manager self) mapped_dc in
   Ok {| Uds.data := uds; source_address := tester_address; target_address := logical_address;
         Uds.new_session := new_session; Uds.new_security := new_security |}).

Definition response_semantics : ResponseDecode.Semantics :=
  {| data_semantic := chars (semantic_data (semantics convention));
     service_id_rq := chars (semantic_service_id_rq (semantics convention)) |}.

Definition convert_from_uds (fuel : nat) (self : Kernel) (diag_service : ApiDiagComm) (payload : list Z) (map_to_json : bool)
    (functional_group_name : option string) : Kernel * presult DiagServiceResponseStruct :=
  let '(self, mapped_service) :=
    lookup_diag_service to_lowercase convention self diag_service functional_group_name None in
  match mapped_service with
  | Err e => (self, Err e)
  | Ok mapped_service =>
      let '(m, r) := ResponseDecode.convert_from_uds to_string response_semantics (update_states convention) fuel
                       mapped_service payload map_to_json (manager self) in
      (with_manager self m, r)
  end.

(** ** Sending *)

Context (uds_params : UdsParameters) (ecu_name : string).

(** The states of the ECU as the transport sees them, and as it leaves them. *)
Definition to_uds (self : Kernel) : uds_state :=
  {| Transport.service_states := {[ ecu_name := service_states (manager self) ]}; disconnected := [] |}.
Definition from_uds (u : uds_state) (self : Kernel) : Kernel :=
  with_manager self (with_services (default ∅ (Transport.service_states u !! ecu_name)) (manager self)).

Definition empty_positive : DiagServiceResponseStruct :=
  {| response_data := []; mapped_data := None; result_type := PositiveResponse |}.

(** One request: the gateway's behaviour, the wait for the semaphore and the
    fuel of encoding, sending and decoding. *)
Record exchange : Type := {
  gateway : nat -> transmission;
  semaphore : option Z;
  codec_fuel : nat;
  send_fuel : nat
}.

(** The ECUs that were reported as disconnected are the third result. *)
Definition send_without_variant_guard (x : exchange) (self : Kernel) (service : ApiDiagComm)
    (security_plugin : DynamicPlugin) (payload : option UdsPayloadData) (map_to_json : bool) (timeout : option Z)
    : Kernel * presult DiagServiceResponseStruct * list string :=
  let '(self, payload) := create_uds_payload (codec_fuel x) self service security_plugin payload None in
  match payload with
  | Err e => (self, Err e, [])
  | Ok payload =>
      let expect_response := negb (is_suppress_positive_response payload) in
      match send_with_raw_payload (send_fuel x) uds_params (gateway x) ecu_name payload timeout expect_response
              (semaphore x) (to_uds self) with
      | None => (self, Err OutOfFuel, [])
      | Some (response, u, _) =>
          let self := from_uds u self in
          let '(self, response) :=
            match response with
            | Ok (Some msg) => convert_from_uds (codec_fuel x) self service (Uds.data msg) map_to_json None
            | Ok None => (self, Ok empty_positive)
            | Err e => (self, Err (Failed e))
            end in
          (self, response, disconnected u)
      end
  end.

(** [UdsTransport::send_genericservice]: the bytes of the answer. *)
Definition send_genericservice (x : exchange) (self : Kernel) (security_plugin : DynamicPlugin) (payload : list Z)
    (timeout : option Z) : Kernel * presult (list Z) * list string :=
  match check_genericservice convention (manager self) security_plugin tester_address logical_address payload with
  | Err e => (self, Err e, [])
  | Ok payload =>
      let expect_response := negb (is_suppress_positive_response payload) in
      match send_with_raw_payload (send_fuel x) uds_params (gateway x) ecu_name payload timeout expect_response
              (semaphore x) (to_uds self) with
      | None => (self, Err OutOfFuel, [])
      | Some (response, u, _) =>
          (from_uds u self,
           match response with
           | Ok (Some response) => Ok (Uds.data response)
           | Ok None => Ok []
           | Err e => Err (Failed e)
           end, disconnected u)
      end
  end.

(** The guard before a request; [detect] is [detect_variant_if_needed], whose
    result is only logged. *)
Definition send_with_optional_timeout (detect : Kernel -> Kernel) (x : exchange) (self : Kernel) (service : ApiDiagComm)
    (security_plugin : DynamicPlugin) (payload : option UdsPayloadData) (map_to_json : bool) (timeout : option Z)
    : Kernel * presult DiagServiceResponseStruct * list string :=
  if needs_variant_detection (ecu_state (manager self)) then
    let self := detect self in
    if bool_decide (connectivity (ecu_state (manager self)) = Offline) then (self, Err (Failed EcuOffline), [])
    else send_without_variant_guard x self service security_plugin payload map_to_json timeout
  else send_without_variant_guard x self service security_plugin payload map_to_json timeout.
End requests.

(** ** Lemmas *)

Section lemmas.
Context {ext : Externals} (to_string : spec_float -> str) (strict : bool).
Context (to_lowercase : string -> string) (convention : DatabaseNamingConvention).
Context (tester_address logical_address : Z) (p : UdsParameters) (ecu_name : string).

Lemma lookup_step_manager dc mask k phase : manager (lookup_step to_lowercase convention dc mask k phase).1 = manager k.
Proof.
  destruct phase; cbn [lookup_step]; try done. destruct (cached_location _ _ _); [done|].
  by destruct (search_with_location _ _) as [[? ?]|].
Qed.

Lemma lookup_manager k dc fg mask : manager (lookup_diag_service to_lowercase convention k dc fg mask).1 = manager k.
Proof.
  unfold lookup_diag_service. destruct fg; [done|].
  pose proof (lookup_step_manager dc mask k (lookup_begin k)) as H1.
  destruct (lookup_step to_lowercase convention dc mask k (lookup_begin k)) as [k1 p1].
  pose proof (lookup_step_manager dc mask k1 p1) as H2.
  destruct (lookup_step to_lowercase convention dc mask k1 p1) as [k2 p2]. cbn in *. congruence.
Qed.

Local Abbreviation create := (create_uds_payload to_string strict to_lowercase convention tester_address logical_address).
Local Abbreviation convert := (convert_from_uds to_string to_lowercase convention).

Lemma create_manager fuel k dc plugin data fg : manager (create fuel k dc plugin data fg).1 = manager k.
Proof.
  unfold create_uds_payload. pose proof (lookup_manager k dc fg None) as H.
  by destruct (lookup_diag_service to_lowercase convention k dc fg None).
Qed.

(** A decoded answer makes the transitions of its service, or none. *)
Lemma decoded_state {St} fuel svc payload json (positive : DiagComm -> St -> St) semantics st :
  (ResponseDecode.convert_from_uds to_string semantics positive fuel svc payload json st).1 = st \/
  exists dc, diag_comm svc = Some dc /\
    (ResponseDecode.convert_from_uds to_string semantics positive fuel svc payload json st).1 = positive dc st.
Proof.
  unfold ResponseDecode.convert_from_uds. destruct (diag_comm svc) as [dc|]; [|by left].
  destruct (try_extract_sid_from_payload payload); [|by left]. destruct (Payload.first _); [|by left].
  destruct (find_map _ _) as [[r params]|]; [|by left]. destruct (ResponseType_try_from _) as [t|]; [|by left].
  cbn [fst]. case_bool_decide; [right; by exists dc|by left].
Qed.

Lemma convert_state fuel k dc payload json fg : 
  let '(k', r) := convert fuel k dc payload json fg in
  manager k' = manager k \/
  exists svc c, (lookup_diag_service to_lowercase convention k dc fg None).2 = Ok svc /\ diag_comm svc = Some c /\
    manager k' = update_states convention c (manager k).
Proof.
  unfold convert_from_uds. pose proof (lookup_manager k dc fg None) as Hm.
  destruct (lookup_diag_service to_lowercase convention k dc fg None) as [k1 [svc|e]]; cbn [fst snd] in *; [|by left].
  pose proof (decoded_state fuel svc payload json (update_states convention) (response_semantics convention) (manager k1)) as Hd.
  destruct (ResponseDecode.convert_from_uds _ _ _ _ _ _ _ _) as [m r]. cbn [fst manager with_manager] in *. rewrite Hm in Hd.
  destruct Hd as [->|(c & Hc & ->)]; [by left|]. right. by exists svc, c.
Qed.

(** What a sequence of stored states leaves alone. *)
Definition only_states (m m' : EcuManager) : Prop :=
  same_view m m' /\ forall sid, sid <> SESSION_CONTROL -> sid <> SECURITY_ACCESS -> get_service_state m' sid = get_service_state m sid.

Lemma only_states_refl m : only_states m m.
Proof. by split. Qed.
Lemma only_states_trans a b c : only_states a b -> only_states b c -> only_states a c.
Proof. intros [Hv1 H1] [Hv2 H2]. split; [by etrans|]. intros sid Hs Hx. by rewrite H2, H1. Qed.

Lemma store_only m ns nsec : only_states m (set_if (set_if m SESSION_CONTROL ns) SECURITY_ACCESS nsec).
Proof.
  split; [symmetry; etrans; apply set_if_view|]. intros sid Hs Hx.
  rewrite !get_set_if, !bool_decide_eq_false_2 by congruence. done.
Qed.

Lemma update_only dc m : only_states m (update_states convention dc m).
Proof. unfold update_states. destruct (lookup_state_transition_by_diagcomm_for_active _ _ _). apply store_only. Qed.

Lemma from_uds_set k ns nsec :
  manager (from_uds ecu_name (Transport.set_service_state ecu_name SECURITY_ACCESS nsec
             (Transport.set_service_state ecu_name SESSION_CONTROL ns (to_uds ecu_name k))) k)
  = set_if (set_if (manager k) SESSION_CONTROL ns) SECURITY_ACCESS nsec.
Proof.
  unfold from_uds, to_uds. cbn [manager with_manager].
  destruct ns as [s|], nsec as [x|]; cbn [Transport.set_service_state Transport.service_states set_if];
    rewrite ?alter_singleton_eq, ?lookup_singleton_eq; unfold StateTransitions.set_service_state; by destruct (manager k).
Qed.

Lemma from_to k u : Transport.service_states u = Transport.service_states (to_uds ecu_name k) ->
  manager (from_uds ecu_name u k) = manager k.
Proof. intros H. unfold from_uds. cbn. rewrite H. cbn. rewrite lookup_singleton_eq. by destruct (manager k). Qed.
End lemmas.

(** ** Properties *)

Section properties.
Context {ext : Externals} (to_string : spec_float -> str) (strict : bool).
Context (to_lowercase : string -> string) (convention : DatabaseNamingConvention).
Context (tester_address logical_address : Z) (p : UdsParameters) (ecu_name : string) (x : exchange).

Local Abbreviation create := (create_uds_payload to_string strict to_lowercase convention tester_address logical_address).
Local Abbreviation send :=
  (send_without_variant_guard to_string strict to_lowercase convention tester_address logical_address p ecu_name x).

(** An environment whose clock does not run backwards. *)
Definition exchange_ok (timeout : option Z) : Prop :=
  (forall k, transmission_ok (gateway x k)) /\ params_ok p /\ 0 <= default (timeout_default p) timeout /\
  (forall d, semaphore x = Some d -> 0 <= d).

(** An answer that the transport accepts for the bytes of a request. *)
Definition answers (payload msg : ServicePayload) : Prop :=
  exists sid, head (Uds.data payload) = Some sid /\ is_response_for_sid msg sid = true /\
    has_matching_echo_bytes msg (Uds.data payload) = true.

(** The state after the transport got an answer: the states that were looked up
    for the request when the answer is positive, else what it was. *)
Definition recorded (m : EcuManager) (payload msg : ServicePayload) : EcuManager :=
  match head (Uds.data payload) with
  | Some sid => if is_positive_response_for_sid msg sid
                then set_if (set_if m SESSION_CONTROL (new_session payload)) SECURITY_ACCESS (new_security payload) else m
  | None => m
  end.

(** The message came from the gateway in one of the transmissions. *)
Definition received_from_gateway (msg : ServicePayload) : Prop :=
  exists j, send_result (gateway x j) = Ok tt /\ came (incoming (gateway x j)) msg.

(** The states after a message was returned by the transport. *)
Lemma transported timeout payload k r u n : exchange_ok timeout ->
  send_with_raw_payload (send_fuel x) p (gateway x) ecu_name payload timeout
    (negb (is_suppress_positive_response payload)) (semaphore x) (to_uds ecu_name k) = Some (r, u, n) ->
  match r with
  | Ok (Some msg) =>
      received_from_gateway msg /\ answers payload msg /\ disconnected u = [] /\
      manager (from_uds ecu_name u k) = recorded (manager k) payload msg
  | Ok None => manager (from_uds ecu_name u k) = manager k /\ disconnected u = []
  | Err e => manager (from_uds ecu_name u k) = manager k /\ (disconnected u = [] \/ disconnected u = [ecu_name] /\ e = Timeout)
  end.
Proof.
  intros (Hgw & Hp & Hrx & Hsem) Hsend. pose proof Hsend as Hout. apply request_outcome in Hout; [|done..]. destruct r as [[msg|]|e].
  - apply answer_received in Hsend as (j & _ & Hj). split; [by exists j|].
    destruct Hout as (_ & Hecho & sid & Hsid & Hmsg & Hstates & Hdis). split; [by exists sid|]. split; [done|].
    unfold recorded. unfold states_after in Hstates. rewrite Hsid. destruct (is_positive_response_for_sid msg sid); [|by apply from_to].
    rewrite <- (from_uds_set ecu_name k). unfold from_uds. by rewrite Hstates.
  - destruct Hout as [_ ->]. split; [by apply from_to|done].
  - destruct Hout as [->|(-> & _ & ->)]; (split; [by apply from_to|]); auto.
Qed.

(** A request that is built is of a service with a description. *)
Lemma create_lookup k dc fuel plugin data k1 payload : create fuel k dc plugin data None = (k1, Ok payload) ->
  exists svc c, lookup_diag_service to_lowercase convention k dc None None = (k1, Ok svc) /\ diag_comm svc = Some c.
Proof.
  unfold create_uds_payload. destruct (lookup_diag_service _ _ k dc None None) as [k2 [svc|e]]; [|by intros [= _ H]].
  intros [= <- H]. exists svc. cbn [mbind result_bind] in H. destruct (PayloadEncode.create_uds_payload _ _ _ _ _ _ _); [|done].
  cbn [mbind result_bind] in H. destruct (diag_comm svc) as [c|]; [|done]. by exists c.
Qed.

(** The answer is decoded for the service the request was built for. *)
Lemma looked_up_again k dc k1 svc u : lookup_diag_service to_lowercase convention k dc None None = (k1, Ok svc) ->
  only_states (manager k) (manager (from_uds ecu_name u k1)) ->
  (lookup_diag_service to_lowercase convention (from_uds ecu_name u k1) dc None None).2 = Ok svc.
Proof.
  intros Hl [[Hd He] _]. pose proof (lookup_again to_lowercase convention k dc None svc (manager (from_uds ecu_name u k1))) as H.
  rewrite Hl in H. by apply H.
Qed.

Lemma recorded_only m payload msg : only_states m (recorded m payload msg).
Proof. unfold recorded. repeat case_match; try apply only_states_refl. apply store_only. Qed.

(** C13: what a request leaves behind, whatever the ECU does and however it ends:
    only the session and the security level can be set, the rest of the ECU's
    state and its database are as before.  They are touched only when the gateway
    delivered, in one of the transmissions, a message that answers the request
    that was built, by its identifier and its identifier bytes: then the states
    that were looked up for the request are recorded if the message is positive
    for the identifier, and decoding it may make the transition of the service
    that was asked for.  The ECU is reported as disconnected only by a request that ends in a
    timeout. *)
Theorem request_frame k service plugin data json timeout :
  exchange_ok timeout ->
  let '(k', r, reported) := send k service plugin data json timeout in
  only_states (manager k) (manager k') /\
  (manager k' = manager k \/
   exists payload msg, (create (codec_fuel x) k service plugin data None).2 = Ok payload /\
     received_from_gateway msg /\ answers payload msg /\
     (manager k' = recorded (manager k) payload msg \/
      exists svc dc, (lookup_diag_service to_lowercase convention k service None None).2 = Ok svc /\ diag_comm svc = Some dc /\
        manager k' = update_states convention dc (recorded (manager k) payload msg))) /\
  (reported = [] \/ reported = [ecu_name] /\ r = Err (Failed Timeout)).
Proof.
  intros Hx. unfold send_without_variant_guard.
  pose proof (create_manager to_string strict to_lowercase convention tester_address logical_address
                (codec_fuel x) k service plugin data None) as Hc.
  destruct (create_uds_payload _ _ _ _ _ _ _ _ _ _ _ _) as [k1 [payload|e]] eqn:Ecreate; cbn [fst] in Hc;
    [|rewrite Hc; split; [apply only_states_refl|]; auto].
  destruct (send_with_raw_payload _ _ _ _ _ _ _ _ _) as [[[r u] n]|] eqn:Esend;
    [|rewrite Hc; split; [apply only_states_refl|]; auto].
  pose proof (transported timeout payload k1 r u n Hx Esend) as Ht. rewrite Hc in Ht.
  destruct r as [[msg|]|e].
  - destruct Ht as (Hfrom & Hans & Hdis & Hm).
    pose proof (convert_state to_string to_lowercase convention (codec_fuel x) (from_uds ecu_name u k1) service
                  (Uds.data msg) json None) as Hd.
    destruct (convert_from_uds _ _ _ _ _ _ _ _ _) as [k2 r2]. rewrite Hm in Hd.
    pose proof (recorded_only (manager k) payload msg) as Ho.
    apply create_lookup in Ecreate as Hcreated. destruct Hcreated as (svc & c & Hl & Hsc).
    assert (Hagain := looked_up_again k service k1 svc u Hl). rewrite Hm in Hagain. specialize (Hagain Ho).
    destruct Hd as [->|(svc' & c' & Hsvc' & Hc' & ->)].
    + split; [done|]. split; [|by left]. right. exists payload, msg. auto.
    + split; [eapply only_states_trans; [exact Ho|apply update_only]|]. split; [|by left]. right. exists payload, msg.
      split; [done|]. split; [done|]. split; [done|]. right. exists svc, c. rewrite Hl. split; [done|].
      rewrite Hagain in Hsvc'. injection Hsvc' as <-. split; [done|]. congruence.
  - destruct Ht as [-> Hdis]. split; [apply only_states_refl|]. auto.
  - destruct Ht as [-> Hdis]. split; [apply only_states_refl|]. split; [by left|]. destruct Hdis as [?|[? ->]]; auto.
Qed.

(** C34: a session request lands: for an ECU with a session and a security chart
    and a service whose own transitions lead to one state only in each of them
    (a service that toggles moves twice), when the ECU answers the request that
    was built for the service positively, then afterwards the session and the
    security level are, up to case, those that were looked up for the request,
    or those from before where the service has no transition; whether the answer
    can be decoded or not, which makes the transition once more. *)
Theorem answered_request_lands k service plugin data json timeout svc dc session_chart security_chart payload msg u n :
  exchange_ok timeout ->
  (lookup_diag_service to_lowercase convention k service None None).2 = Ok svc -> diag_comm svc = Some dc ->
  chart_for (manager k) (session_semantic convention) = Some session_chart ->
  chart_for (manager k) (security_semantic convention) = Some security_chart ->
  (forall a b a' b', own_transition session_chart dc a b -> own_transition session_chart dc a' b' -> lowercase b = lowercase b') ->
  (forall a b a' b', own_transition security_chart dc a b -> own_transition security_chart dc a' b' -> lowercase b = lowercase b') ->
  let '(k1, r) := create (codec_fuel x) k service plugin data None in
  r = Ok payload ->
  send_with_raw_payload (send_fuel x) p (gateway x) ecu_name payload timeout
    (negb (is_suppress_positive_response payload)) (semaphore x) (to_uds ecu_name k1) = Some (Ok (Some msg), u, n) ->
  (exists sid, head (Uds.data payload) = Some sid /\ is_positive_response_for_sid msg sid = true) ->
  let '(k', _, _) := send k service plugin data json timeout in
  lowercase <$> get_service_state (manager k') SESSION_CONTROL
  = lowercase <$> (match new_session payload with Some s => Some s | None => get_service_state (manager k) SESSION_CONTROL end) /\
  lowercase <$> get_service_state (manager k') SECURITY_ACCESS
  = lowercase <$> (match new_security payload with Some s => Some s | None => get_service_state (manager k) SECURITY_ACCESS end).
Proof.
  intros Hx Hsvc Hdc Hcs Hcx Hone Hone'.
  pose proof (lookup_again to_lowercase convention k service None svc) as Hagain.
  pose proof (lookup_manager to_lowercase convention k service None None) as Hmgr.
  pose proof (stored_twice convention (manager k) dc session_chart security_chart Hcs Hcx Hone Hone') as Htwice.
  destruct (create _ _ _ _ _ _) as [k1 r] eqn:Ecreate. intros -> Hsend Hpos.
  unfold send_without_variant_guard. rewrite Ecreate, Hsend.
  unfold create_uds_payload in Ecreate. destruct (lookup_diag_service _ _ k service None None) as [k2 r2]. cbn [fst snd] in Hsvc, Hmgr.
  subst r2. injection Ecreate as <- Hp. cbn [mbind result_bind] in Hp.
  destruct (PayloadEncode.create_uds_payload _ _ _ _ _ _ _) as [uds|]; [|done]. cbn [mbind result_bind] in Hp.
  rewrite Hdc in Hp. cbn [ok_or fallible mbind result_bind] in Hp. rewrite Hmgr in Hp.
  assert (Hpair : lookup_state_transition_by_diagcomm_for_active convention (manager k) dc
                  = (new_session payload, new_security payload)) by (injection Hp as <-; reflexivity).
  rewrite Hpair in Htwice. clear Hp Hpair. set (ns := new_session payload) in *. set (nsec := new_security payload) in *.
  pose proof (transported timeout _ k2 _ u n Hx Hsend) as (_ & _ & _ & Hm).
  unfold recorded in Hm. destruct Hpos as (sid & Hsid & Hpos). rewrite Hsid, Hpos in Hm. fold ns nsec in Hm.
  rewrite Hmgr in Hm. unfold convert_from_uds. unfold from_uds at 1.
  specialize (Hagain (manager (from_uds ecu_name u k2)) eq_refl).
  rewrite Hm in Hagain. destruct (store_only (manager k) ns nsec) as [[Hvd Hvs] _].
  specialize (Hagain (eq_sym Hvd) (eq_sym Hvs)). rewrite <- Hm in Hagain.
  change (with_manager k2 (manager (from_uds ecu_name u k2))) with (from_uds ecu_name u k2) in Hagain.
  change (with_manager k2 (with_services _ _)) with (from_uds ecu_name u k2).
  pose proof (lookup_manager to_lowercase convention (from_uds ecu_name u k2) service None None) as Hmgr'.
  destruct (lookup_diag_service _ _ (from_uds ecu_name u k2) service None None) as [k3 r3]. cbn [fst snd] in *. subst r3.
  pose proof (decoded_state to_string (codec_fuel x) svc (Uds.data msg) json (update_states convention)
                (response_semantics convention) (manager k3)) as Hd.
  destruct (ResponseDecode.convert_from_uds _ _ _ _ _ _ _ _) as [m r]. cbn [fst manager with_manager] in *.
  rewrite Hmgr', Hm in Hd. destruct Hd as [->|(c & Hc & ->)].
  - by rewrite get_session_after, get_security_after.
  - rewrite Hdc in Hc. injection Hc as <-. cbv iota beta zeta in Htwice. destruct Htwice as [-> ->].
    by rewrite get_session_after, get_security_after.
Qed.
End properties.

(** ** A session request *)

Definition session_kernel : Kernel :=
  {| manager := ecu_in [session_service extended_session] in_default; file_groups := None; db_cache := ∅ |}.
Definition extended_query : ApiDiagComm := plain_query "Extended_Session" Modes.

Definition answer_with (bytes : list Z) : exchange :=
  {| gateway := fun _ => answering [(20, Ok (Some (UdsResponse (uds_response_from_raw bytes 2 1))))];
     semaphore := Some 0; codec_fuel := 4; send_fuel := 10 |}.

Lemma answer_with_ok bytes : exchange_ok ex_params (answer_with bytes) None.
Proof.
  split; [|split; [apply ex_params_ok|split; [vm_compute; discriminate|intros d [= <-]; lia]]].
  intros k. apply answering_ok. repeat constructor. simpl. lia.
Qed.

Local Abbreviation send_to bytes k dc :=
  (send_without_variant_guard no_floats false no_case DatabaseNamingConvention_default 1 2 ex_params "ecu"
     (answer_with bytes) k dc VoidPlugin None true None).

Lemma request_frame_witness :
  let '(k', r, reported) := send_to [127; 16; 34] session_kernel extended_query in
  only_states (manager session_kernel) (manager k') /\ session (manager k') = Ok "Default"%string.
Proof.
  pose proof (request_frame no_floats false no_case DatabaseNamingConvention_default 1 2 ex_params "ecu"
                (answer_with [127; 16; 34]) session_kernel extended_query VoidPlugin None true None (answer_with_ok _)) as H.
  assert (Hs : session (manager (send_to [127; 16; 34] session_kernel extended_query).1.1) = Ok "Default"%string)
    by (vm_compute; reflexivity).
  destruct (send_to [127; 16; 34] session_kernel extended_query) as [[k' r] reported]. split; [apply H|exact Hs].
Defined.

Definition built_request : ServicePayload :=
  {| Uds.data := [16; 3]; source_address := 1; target_address := 2; new_session := Some "Extended"%string;
     new_security := None |}.

Lemma answered_request_lands_witness :
  let '(k', _, _) := send_to [80; 3] session_kernel extended_query in
  lowercase <$> get_service_state (manager k') SESSION_CONTROL = Some (lowercase "Extended").
Proof.
  assert (Hone : forall sc a b a' b', own_transition sc extended_session a b -> own_transition sc extended_session a' b' ->
    lowercase b = lowercase b').
  { intros sc a b a' b' (st & Hst & _ & Hb)%(own_transition_in _ _ [to_extended]) (st' & Hst' & _ & Hb')%(own_transition_in _ _ [to_extended]);
      [|reflexivity..]. apply list_elem_of_singleton in Hst as ->. apply list_elem_of_singleton in Hst' as ->. congruence. }
  pose proof (answered_request_lands no_floats false no_case DatabaseNamingConvention_default 1 2 ex_params "ecu"
    (answer_with [80; 3]) session_kernel extended_query VoidPlugin None true None (session_service extended_session)
    extended_session sessions levels built_request (uds_response_from_raw [80; 3] 2 1)) as H.
  set (k1 := (create_uds_payload no_floats false no_case DatabaseNamingConvention_default 1 2 4 session_kernel extended_query
                VoidPlugin None None).1).
  specialize (H (from_option (fun r => r.1.2) (to_uds "ecu" k1)
    (send_with_raw_payload 10 ex_params (gateway (answer_with [80; 3])) "ecu" built_request None true (Some 0) (to_uds "ecu" k1)))
    1%nat (answer_with_ok _) ltac:(vm_compute; reflexivity) eq_refl ltac:(vm_compute; reflexivity)
    ltac:(vm_compute; reflexivity) (Hone _) (Hone _)).
  assert (Hc : create_uds_payload no_floats false no_case DatabaseNamingConvention_default 1 2 4 session_kernel extended_query
                 VoidPlugin None None = (k1, Ok built_request)) by (vm_compute; reflexivity).
  change (codec_fuel (answer_with [80; 3])) with 4%nat in H. rewrite Hc in H.
  specialize (H eq_refl ltac:(vm_compute; reflexivity)).
  assert (Hpos : exists sid, head (Uds.data built_request) = Some sid /\
    is_positive_response_for_sid (uds_response_from_raw [80; 3] 2 1) sid = true) by (exists 16; split; vm_compute; reflexivity).
  specialize (H Hpos).
  destruct (send_without_variant_guard _ _ _ _ _ _ _ _ _ _ _ _ _ _ _) as [[k' r] reported]. exact (proj1 H).
Defined.

(** A request that suppresses its positive response is a success without an
    answer; the session the ECU is in now is not recorded. *)
Example suppressed_answer_is_not_recorded :
  let quiet := comm "Quiet" [to_extended] [] in
  let k := {| manager := ecu_in [comm_service quiet [const_param "sid" 0 8 "16"; const_param "sub" 1 8 "131"]] in_default;
              file_groups := None; db_cache := ∅ |} in
  let x := {| gateway := fun _ => silence; semaphore := Some 0; codec_fuel := 4; send_fuel := 10 |} in
  let '(k', r, _) := send_without_variant_guard no_floats false no_case DatabaseNamingConvention_default 1 2 ex_params "ecu"
                       x k (plain_query "Quiet" Modes) VoidPlugin None true None in
  r = Ok empty_positive /\ session (manager k') = Ok "Default"%string.
Proof. vm_compute. split; reflexivity. Qed.
