(* ===== verification/UdsManager.v ===== *)
(** * The ECUs of the UDS manager

    [UdsManager] of cda-comm-uds/src/lib.rs and its [UdsTransport]
    (transport.rs): the ECUs by name, and what the operations built on top of
    a request need of the manager, as an interface.  Fault memory, sessions,
    transfers and functional groups are clients of the interface;
    [fleet_transport] implements it with the requests of UdsRequest.v. *)

From stdpp Require Import strings gmap.
From stdpp Require Import list.
From S2P Require Import Prelude Bytes Errors Text Ieee754 Json StateCharts Database DiagLayers Uds Transport EcuState VariantDetection SampleDatabase Naming ServiceLookup StateTransitions PayloadDecode ResponseDecode PayloadEncode UdsRequest.

Local Open Scope Z_scope.
Set Warnings "-register-all".

(** ** The interface *)

(** [uds_ecu_db] with its lock for reading and writing, [send] and
    [send_with_raw_payload] with the timeout of the ECU. *)
Class UdsTransport {ext : Externals} (M : Type) : Type := {
  ecu_kernel : M -> string -> option Kernel;
  set_kernel : M -> string -> Kernel -> M;
  send : M -> string -> ApiDiagComm -> DynamicPlugin -> option UdsPayloadData -> bool -> M * presult DiagServiceResponseStruct;
  send_raw : M -> string -> ServicePayload -> bool -> M * presult (option ServicePayload)
}.

Definition database {ext : Externals} `{!UdsTransport M} (m : M) (ecu_name : string) : option (option EcuData) :=
  (fun k => diag_database (manager k)) <$> ecu_kernel m ecu_name.

(** Requests leave the other ECUs and every database alone. *)
Class UdsTransportOk {ext : Externals} (M : Type) `{!UdsTransport M} : Prop := {
  kernel_set m n k : is_Some (ecu_kernel m n) -> ecu_kernel (set_kernel m n k) n = Some k;
  kernel_set_other m n n' k : n <> n' -> ecu_kernel (set_kernel m n k) n' = ecu_kernel m n';
  send_other m n dc p data json n' : n <> n' -> ecu_kernel (send m n dc p data json).1 n' = ecu_kernel m n';
  send_unknown m n dc p data json : ecu_kernel m n = None -> send m n dc p data json = (m, Err (Failed NotFound));
  send_database m n dc p data json n' : database (send m n dc p data json).1 n' = database m n';
  raw_other m n payload r n' : n <> n' -> ecu_kernel (send_raw m n payload r).1 n' = ecu_kernel m n';
  raw_database m n payload r n' : database (send_raw m n payload r).1 n' = database m n'
}.

(** [self.uds_ecu_db(ecu_name)?]. *)
Definition uds_ecu_db {ext : Externals} `{!UdsTransport M} (m : M) (ecu_name : string) : dresult Kernel :=
  ok_or (ecu_kernel m ecu_name) NotFound.

(** A manager's operations as a state and error monad. *)
Definition op (M A : Type) : Type := M -> M * presult A.
#[export] Instance op_ret {M} : MRet (op M) := fun A a m => (m, Ok a).
#[export] Instance op_bind {M} : MBind (op M) := fun A B f o m =>
  let '(m, r) := o m in match r with Ok a => f a m | Err e => (m, Err e) end.

Definition pure {M A} (r : presult A) : op M A := fun m => (m, r).
Definition reads {M A} (f : M -> presult A) : op M A := fun m => (m, f m).

Section operations.
Context {ext : Externals} {M : Type} `{!UdsTransport M}.

Definition ecu (ecu_name : string) : op M Kernel := reads (fun m => fallible (uds_ecu_db m ecu_name)).

Definition on_ecu {A} (ecu_name : string) (f : Kernel -> Kernel * presult A) : op M A := fun m =>
  match ecu_kernel m ecu_name with
  | None => (m, Err (Failed NotFound))
  | Some k => let '(k, r) := f k in (set_kernel m ecu_name k, r)
  end.

Definition sends (ecu_name : string) (service : ApiDiagComm) (security_plugin : DynamicPlugin)
    (payload : option UdsPayloadData) (map_to_json : bool) : op M DiagServiceResponseStruct :=
  fun m => send m ecu_name service security_plugin payload map_to_json.

Definition sends_raw (ecu_name : string) (payload : ServicePayload) (expect_response : bool)
    : op M (option ServicePayload) :=
  fun m => send_raw m ecu_name payload expect_response.
End operations.

(** ** The manager *)

Section fleet.
Context {ext : Externals} (to_string : spec_float -> str) (strict_parameter_validation : bool).
Context (to_lowercase : string -> string) (convention : DatabaseNamingConvention).

(** What does not change of an ECU. *)
Record EcuSetup : Type := {
  tester_address : Z;
  logical_address : Z;
  logical_gateway_address : Z;
  logical_functional_address : Z;
  is_physical_ecu : bool;
  member_of : list string;
  ecu_params : UdsParameters
}.
Context (setup : string -> EcuSetup).
(** [detect_variant_if_needed] of an ECU, and the environment of each request. *)
Context (detect : string -> Kernel -> Kernel) (environment : nat -> exchange).

Record Fleet : Type := {
  ecus : gmap string Kernel;
  (** The requests so far, and the ECUs reported as disconnected. *)
  requests : nat;
  reported : list string
}.

Definition with_ecu (self : Fleet) (ecu_name : string) (k : Kernel) : Fleet :=
  {| ecus := alter (fun _ => k) ecu_name (ecus self); requests := requests self; reported := reported self |}.

Definition after_request (self : Fleet) (ecu_name : string) (k : Kernel) (gone : list string) : Fleet :=
  {| ecus := alter (fun _ => k) ecu_name (ecus self); requests := S (requests self); reported := reported self ++ gone |}.

Definition fleet_send (self : Fleet) (ecu_name : string) (service : ApiDiagComm) (security_plugin : DynamicPlugin)
    (payload : option UdsPayloadData) (map_to_json : bool) : Fleet * presult DiagServiceResponseStruct :=
  match ecus self !! ecu_name with
  | None => (self, Err (Failed NotFound))
  | Some k =>
      let s := setup ecu_name in
      let '(k, r, gone) :=
        send_with_optional_timeout to_string strict_parameter_validation to_lowercase convention (tester_address s)
          (logical_address s) (ecu_params s) ecu_name (detect ecu_name) (environment (requests self)) k service
          security_plugin payload map_to_json None in
      (after_request self ecu_name k gone, r)
  end.

Definition fleet_send_raw (self : Fleet) (ecu_name : string) (payload : ServicePayload) (expect_response : bool)
    : Fleet * presult (option ServicePayload) :=
  match ecus self !! ecu_name with
  | None => (self, Err (Failed NotFound))
  | Some k =>
      let x := environment (requests self) in
      match send_with_raw_payload (send_fuel x) (ecu_params (setup ecu_name)) (gateway x) ecu_name payload None
              expect_response (semaphore x) (to_uds ecu_name k) with
      | None => (self, Err OutOfFuel)
      | Some (response, u, _) => (after_request self ecu_name (from_uds ecu_name u k) (disconnected u), fallible response)
      end
  end.

#[export] Instance fleet_transport : UdsTransport Fleet := {
  ecu_kernel self n := ecus self !! n;
  set_kernel := with_ecu;
  send := fleet_send;
  send_raw := fleet_send_raw
}.

(** ** The laws *)

(** Detection does not exchange the database. *)
Context (detect_database : forall n k, diag_database (manager (detect n k)) = diag_database (manager k)).

Lemma after_other self n n' k gone : n <> n' -> ecus (after_request self n k gone) !! n' = ecus self !! n'.
Proof. intros H. cbn. by rewrite lookup_alter_ne. Qed.

Lemma after_database self n n' k k' gone : ecus self !! n = Some k -> diag_database (manager k') = diag_database (manager k) ->
  (fun k => diag_database (manager k)) <$> ecus (after_request self n k' gone) !! n'
  = (fun k => diag_database (manager k)) <$> ecus self !! n'.
Proof.
  intros Hk Hd. destruct (decide (n = n')) as [<-|]; [|by rewrite after_other]. cbn. rewrite lookup_alter_eq, Hk. cbn.
  by rewrite Hd.
Qed.

Lemma request_database tester logical p n x k service plugin data json timeout :
  diag_database (manager (send_without_variant_guard to_string strict_parameter_validation to_lowercase convention
                            tester logical p n x k service plugin data json timeout).1.1) = diag_database (manager k).
Proof.
  unfold send_without_variant_guard.
  pose proof (create_manager to_string strict_parameter_validation to_lowercase convention tester logical
                (codec_fuel x) k service plugin data None) as Hc.
  destruct (create_uds_payload _ _ _ _ _ _ _ _ _ _ _ _) as [k1 [payload|e]]; cbn [fst] in Hc |- *; [|by rewrite Hc].
  destruct (send_with_raw_payload _ _ _ _ _ _ _ _ _) as [[[r u] n0]|]; cbn [fst]; [|by rewrite Hc].
  assert (Hu : diag_database (manager (from_uds n u k1)) = diag_database (manager k)) by (cbn; by rewrite Hc).
  destruct r as [[msg|]|e]; [|exact Hu|exact Hu].
  pose proof (convert_state to_string to_lowercase convention (codec_fuel x) (from_uds n u k1) service
                (Uds.data msg) json None) as Hd.
  destruct (convert_from_uds _ _ _ _ _ _ _ _ _) as [k2 r2]. cbn [fst].
  destruct Hd as [->|(svc & c & _ & _ & ->)]; [exact Hu|]. rewrite <- Hu.
  pose proof (update_only convention c (manager (from_uds n u k1))) as [[Hd _] _]. by rewrite Hd.
Qed.

Lemma send_keeps_database self n k dc plugin data json : ecus self !! n = Some k ->
  exists k' gone r, fleet_send self n dc plugin data json = (after_request self n k' gone, r) /\
    diag_database (manager k') = diag_database (manager k).
Proof.
  intros Hk. unfold fleet_send. rewrite Hk. unfold send_with_optional_timeout.
  destruct (needs_variant_detection _); [case_bool_decide|].
  - eexists _, _, _. split; [reflexivity|]. apply detect_database.
  - match goal with |- context [send_without_variant_guard ?a ?b ?c ?d ?e ?f ?g ?h ?i ?j ?l ?m ?o ?q ?s] =>
      pose proof (request_database e f g h i j l m o q s) as Hreq end.
    destruct (send_without_variant_guard _ _ _ _ _ _ _ _ _ _ _ _ _ _ _) as [[k' r] gone]. cbn [fst] in Hreq.
    eexists _, _, _. split; [reflexivity|]. rewrite Hreq. apply detect_database.
  - match goal with |- context [send_without_variant_guard ?a ?b ?c ?d ?e ?f ?g ?h ?i ?j ?l ?m ?o ?q ?s] =>
      pose proof (request_database e f g h i j l m o q s) as Hreq end.
    destruct (send_without_variant_guard _ _ _ _ _ _ _ _ _ _ _ _ _ _ _) as [[k' r] gone]. cbn [fst] in Hreq.
    eexists _, _, _. split; [reflexivity|]. exact Hreq.
Qed.

Lemma fleet_transport_ok : UdsTransportOk Fleet.
Proof.
  split; cbn [ecu_kernel set_kernel send send_raw fleet_transport].
  - intros m n k [k0 Hk]. cbn. by rewrite lookup_alter_eq, Hk.
  - intros m n n' k H. cbn. by rewrite lookup_alter_ne.
  - intros m n dc p data json n' Hn. destruct (ecus m !! n) as [k|] eqn:Hk.
    + destruct (send_keeps_database m n k dc p data json Hk) as (k' & gone & r & -> & _). by apply after_other.
    + unfold fleet_send. by rewrite Hk.
  - intros m n dc p data json Hk. unfold fleet_send. by rewrite Hk.
  - intros m n dc p data json n'. unfold database. cbn [ecu_kernel fleet_transport]. destruct (ecus m !! n) as [k|] eqn:Hk.
    + destruct (send_keeps_database m n k dc p data json Hk) as (k' & gone & r & -> & Hd). by eapply after_database.
    + unfold fleet_send. by rewrite Hk.
  - intros m n payload r n' Hn. unfold fleet_send_raw. destruct (ecus m !! n) as [k|]; [|done].
    destruct (send_with_raw_payload _ _ _ _ _ _ _ _ _) as [[[resp u] i]|]; [by apply after_other|done].
  - intros m n payload r n'. unfold database. cbn [ecu_kernel fleet_transport]. unfold fleet_send_raw.
    destruct (ecus m !! n) as [k|] eqn:Hk; [|done].
    destruct (send_with_raw_payload _ _ _ _ _ _ _ _ _) as [[[resp u] i]|]; [by eapply after_database|done].
Qed.
End fleet.

(** ** ECUs for concrete runs *)

Definition ex_setup (_ : string) : EcuSetup :=
  {| tester_address := 1; logical_address := 2; logical_gateway_address := 2; logical_functional_address := 3;
     is_physical_ecu := true; member_of := []; ecu_params := ex_params |}.
