(* ===== verification/FaultMemory.v ===== *)
(** * The fault memory of an ECU

    cda-core/src/diag_kernel/dtc.rs, which finds the services of the database
    that read fault memory, and the operations of cda-comm-uds/src/dtc.rs that
    read and clear it, over the interface of UdsManager.v; and how
    cda-sovd/src/sovd/components/ecu/faults.rs shows a fault. *)

From stdpp Require Import strings gmap countable.
From stdpp Require Import list.
From S2P Require Import Prelude Bytes Errors Text Ieee754 Json StateCharts BitOps DiagCodedType Database DiagLayers Uds Transport EcuState VariantDetection SampleDatabase Naming ServiceLookup StateTransitions PayloadDecode ResponseDecode ResponseJson PayloadEncode UdsRequest UdsManager Faults.

Local Open Scope Z_scope.
Set Warnings "-register-all".

#[export] Instance DtcReadInformationFunction_countable : Countable DtcReadInformationFunction.
Proof.
  apply (inj_countable function_id
    (fun z => List.find (fun f => function_id f =? z) all)). by intros [].
Defined.

(** ** The services of the database *)

Record DtcLookup : Type := {
  lookup_scope : DtcReadInformationFunction;
  lookup_service : ApiDiagComm;
  lookup_dtcs : list DtcRecord
}.

(** [From<DTC> for DtcRecord]. *)
Definition record_of (dtc : DTC) : DtcRecord :=
  {| record_code := trouble_code dtc; record_display_code := display_trouble_code dtc;
     record_fault_name := default (chars "DTC_" ++ decimal (trouble_code dtc)) (dtc_short_name dtc);
     record_severity := default 0 (level dtc) |}.

(** [find_dtc_dop_in_params] with [extract_nested_params]: the first one in the
    order of the parameters, those of a structure before what follows it. *)
Fixpoint find_dtc_dop_in_dop (dop : DataOperation) : dresult (option DtcDop) :=
  let find_in_params := fix find_in_params (params : list Param) : dresult (option DtcDop) :=
    match params with
    | [] => Ok None
    | MkParam _ _ _ _ _ (ValueData _ (Some dop)) :: params =>
        result ← find_dtc_dop_in_dop dop;
        match result with Some dtc_dop => Ok (Some dtc_dop) | None => find_in_params params end
    | _ :: params => find_in_params params
    end in
  let in_struct (s : StructureDop) := match struct_params s with Some params => find_in_params params | None => Ok None end in
  match dop with
  | DTCDOP dtc_dop => Ok (Some dtc_dop)
  | EndOfPduField f =>
      match end_of_pdu_field f with
      | Some field => match basic_structure field with Some (StructureDOP s) => in_struct s | _ => Err InvalidDatabase end
      | None => Err InvalidDatabase
      end
  | StructureDOP s => in_struct s
  | _ => Ok None
  end.

Fixpoint find_dtc_dop_in_params (params : list Param) : dresult (option DtcDop) :=
  match params with
  | [] => Ok None
  | p :: params =>
      match specific_data p with
      | ValueData _ (Some dop) =>
          result ← find_dtc_dop_in_dop dop;
          match result with Some dtc_dop => Ok (Some dtc_dop) | None => find_dtc_dop_in_params params end
      | _ => find_dtc_dop_in_params params
      end
  end.

Definition dtc_service (service_types : list DtcReadInformationFunction) (service : DiagService)
    : option (DiagService * DtcReadInformationFunction) :=
  '(sub_function_id, _) ← request_sub_function_id service;
  st ← List.find (fun st => function_id st =? sub_function_id) service_types;
  Some (service, st).

Definition fault_diag_comm (service_short_name : string) : ApiDiagComm :=
  {| name := service_short_name; type_ := Faults; lookup_name := Some service_short_name; subfunction_id := None |}.

Definition dtc_lookup (t : DiagService * DtcReadInformationFunction) : dresult (DtcReadInformationFunction * DtcLookup) :=
  let '(service, dtc_service_type) := t in
  service_short_name ← ok_or (dc ← diag_comm service; comm_short_name dc) InvalidDatabase;
  responses ← ok_or (pos_responses service) ParameterConversionError;
  dtc_dop ← find_dtc_dop_in_params (responses ≫= fun r => default [] (Database.response_params r));
  Ok (dtc_service_type,
      {| lookup_scope := dtc_service_type; lookup_service := fault_diag_comm service_short_name;
         lookup_dtcs := record_of <$> default [] (dtc_dop ← dtc_dop; dtcs dtc_dop) |}).

(** [collect] into a map: the last service of a kind stays. *)
Definition collect_map {K A} `{Countable K} (l : list (K * A)) : gmap K A := foldl (fun m '(k, a) => <[k := a]> m) ∅ l.

Definition lookup_dtc_services (m : EcuManager) (service_types : list DtcReadInformationFunction)
    : dresult (gmap DtcReadInformationFunction DtcLookup) :=
  services ← lookup_services_by_sid m Uds.READ_DTC_INFORMATION;
  lookups ← mapM dtc_lookup (omap (dtc_service service_types) services);
  Ok (collect_map lookups).

(** ** Reading *)

Record DtcRecordAndStatus : Type := {
  record : DtcRecord;
  scope : DtcReadInformationFunction;
  status : DtcStatus
}.

Definition with_status (sc : DtcReadInformationFunction) (status_byte : Z) (r : DtcRecord) : DtcRecordAndStatus :=
  {| record := r; scope := sc; status := get_dtc_status_for_mask status_byte |}.

(** The active faults of a response: [byte_pos] is where the fault before ended. *)
Fixpoint insert_active (byte_pos : Z) (raw : list Z) (sc : DtcReadInformationFunction)
    (active_dtcs : list (DtcField * DtcRecord)) (all_dtcs : gmap Z DtcRecordAndStatus)
    : dresult (gmap Z DtcRecordAndStatus) :=
  match active_dtcs with
  | [] => Ok all_dtcs
  | (field, record) :: active_dtcs =>
      let byte_pos := u32_sat_add byte_pos (u32_sat_add (div_ceil (field_bit_len field) 8) 1) in
      status_byte ← ok_or (get raw byte_pos) BadPayload;
      insert_active byte_pos raw sc active_dtcs (<[record_code record := with_status sc status_byte record]> all_dtcs)
  end.

(** [entry(..).or_insert(..)] of the faults that are not active. *)
Definition insert_inactive (sc : DtcReadInformationFunction) (records : list DtcRecord)
    (all_dtcs : gmap Z DtcRecordAndStatus) : gmap Z DtcRecordAndStatus :=
  foldl (fun all_dtcs r => match all_dtcs !! record_code r with
                           | Some _ => all_dtcs
                           | None => <[record_code r := with_status sc 0 r]> all_dtcs
                           end) all_dtcs records.

Definition faults_of_response {ext : Externals} (response : DiagServiceResponseStruct) (lookup : DtcLookup) (mask : Z)
    (all_dtcs : gmap Z DtcRecordAndStatus) : dresult (gmap Z DtcRecordAndStatus) :=
  active_dtcs ← get_dtcs response;
  let byte_pos := match active_dtcs with (f, _) :: _ => field_byte_pos f | [] => 0 end in
  all_dtcs ← insert_active byte_pos (response_data response) (lookup_scope lookup) active_dtcs all_dtcs;
  Ok (if (mask =? 255) || (mask =? 0) then insert_inactive (lookup_scope lookup) (lookup_dtcs lookup) all_dtcs
      else all_dtcs).

Section memory.
Context {ext : Externals} {M : Type} `{!UdsTransport M}.
(** The order in which a map is iterated. *)
Context (hash_order : gmap DtcReadInformationFunction DtcLookup -> list (DtcReadInformationFunction * DtcLookup)).
Context (to_lowercase : str -> str) (string_to_lowercase : string -> string) (convention : DatabaseNamingConvention).

Definition mask_payload (read_info : DtcReadInformationFunction) (mask : Z) (memory_selection : option Z) : UdsPayloadData :=
  Raw (mask :: if is_user_scope read_info then [default 0 memory_selection] else []).

Fixpoint read_services (ecu_name : string) (security_plugin : DynamicPlugin) (mask : Z) (memory_selection : option Z)
    (services : list (DtcReadInformationFunction * DtcLookup)) (all_dtcs : gmap Z DtcRecordAndStatus)
    : op M (gmap Z DtcRecordAndStatus) :=
  match services with
  | [] => mret all_dtcs
  | (read_info, lookup) :: services =>
      response ← sends ecu_name (lookup_service lookup) security_plugin
                    (Some (mask_payload read_info mask memory_selection)) true;
      all_dtcs ← pure (fallible (faults_of_response response lookup mask all_dtcs));
      read_services ecu_name security_plugin mask memory_selection services all_dtcs
  end.

Definition in_scope (scope : option string) (t : DtcReadInformationFunction * DtcLookup) : bool :=
  match scope with Some scope => same_name scope (default_scope (lookup_scope t.2)) | None => true end.

Definition of_severity (severity : option Z) (dtc : DtcRecordAndStatus) : bool :=
  match severity with Some s => record_severity (record dtc) <=? s | None => true end.

Definition ecu_dtc_by_mask (ecu_name : string) (security_plugin : DynamicPlugin) (status : option (gmap str Value))
    (severity : option Z) (scope : option string) (memory_selection : option Z) : op M (gmap Z DtcRecordAndStatus) :=
  k ← ecu ecu_name;
  lookups ← pure (fallible (lookup_dtc_services (manager k) [FaultMemoryByStatusMask; UserMemoryDtcByStatusMask]));
  let scoped_services := List.filter (in_scope scope) (hash_order lookups) in
  match scoped_services with
  | [] => pure (Err (Failed RequestNotSupported))
  | _ =>
      mask ← pure (fallible (status_filter_mask status));
      all_dtcs ← read_services ecu_name security_plugin mask memory_selection scoped_services ∅;
      mret (filter (fun t => of_severity severity t.2 = true) all_dtcs)
  end.

(** ** One fault with its environment *)

Definition DTC_RECORD_NUMBER_ALL : Z := 255.

(** [include_schema] is left out. *)
Definition request_extended_data (ecu_name : string) (security_plugin : DynamicPlugin) (dtc_code : Z)
    (service_types : list DtcReadInformationFunction) (memory_selection : option Z) : op M DiagServiceResponseStruct :=
  k ← ecu ecu_name;
  lookups ← pure (fallible (lookup_dtc_services (manager k) service_types));
  '(read_func, lookup) ← pure (fallible (ok_or
    (List.find (fun t => existsb (fun dtc => record_code dtc =? dtc_code) (lookup_dtcs t.2)) (hash_order lookups))
    InvalidRequest));
  raw_payload ← pure (fallible (extract_bits DTC_CODE_BIT_LEN 0 (be_bytes 4 dtc_code)));
  let raw_payload := raw_payload ++ [DTC_RECORD_NUMBER_ALL]
                     ++ (if is_user_scope read_func then [default 0 memory_selection] else []) in
  sends ecu_name (lookup_service lookup) security_plugin (Some (Raw raw_payload)) true.

(** ** Clearing *)

Record FaultConfig : Type := {
  user_defined_dtc_clear_service : option (list Z);
  user_memory_scope : string;
  config_default_scope : string
}.

Definition FaultConfig_default : FaultConfig :=
  {| user_defined_dtc_clear_service := None; user_memory_scope := "DevelopmentFaultMemory"; config_default_scope := "FaultMem" |}.

Definition DTC_GROUP_ALL : list Z := [255; 255; 255].

(** The group of a clear request: one fault or all. *)
Definition clear_group (fault_code : option str) : dresult (list Z) :=
  match fault_code with
  | Some dtc_code => dtc ← decode_dtc_from_str to_lowercase dtc_code; Ok (drop 1 (be_bytes 4 dtc))
  | None => Ok DTC_GROUP_ALL
  end.

(** The addresses of the ECU. *)
Context (tester_of logical_of : string -> Z).

Definition delete_dtcs (ecu_name : string) (security_plugin : DynamicPlugin) (fault_code : option str)
    : op M DiagServiceResponseStruct :=
  k ← ecu ecu_name;
  delete_dtc_service ← pure (fallible (lookup_service_through_func_class (manager k) "faultmem" CLEAR_DIAGNOSTIC_INFORMATION));
  _ ← on_ecu ecu_name (fun k => is_service_allowed convention string_to_lowercase k delete_dtc_service security_plugin);
  group ← pure (fallible (clear_group fault_code));
  response ← sends_raw ecu_name
    {| data := CLEAR_DIAGNOSTIC_INFORMATION :: group; source_address := tester_of ecu_name;
       target_address := logical_of ecu_name; new_session := None; new_security := None |} true;
  match response with
  | None => pure (Err (Failed NoResponse))
  | Some resp => pure (fallible (convert_service_14_response (data resp)))
  end.

Definition delete_dtcs_scoped (fault_config : FaultConfig) (ecu_name : string) (security_plugin : DynamicPlugin) (scope : string)
    : op M DiagServiceResponseStruct :=
  k ← ecu ecu_name;
  if same_name scope (config_default_scope fault_config) then delete_dtcs ecu_name security_plugin None
  else if negb (same_name scope (user_memory_scope fault_config)) then pure (Err (Failed InvalidParameter))
  else
    clear_service ← pure (fallible (ok_or (user_defined_dtc_clear_service fault_config) InvalidConfiguration));
    services ← pure (lookup_diagcomms_by_request_prefix string_to_lowercase convention (manager k) clear_service);
    delete_dtc_service ← pure (fallible (ok_or (head services) InvalidConfiguration));
    _ ← on_ecu ecu_name (fun k => is_service_allowed convention string_to_lowercase k delete_dtc_service security_plugin);
    sends ecu_name delete_dtc_service security_plugin None false.
End memory.

(** ** How a fault is shown *)

Record Fault : Type := {
  fault_code : str;
  fault_scope : option string;
  fault_display_code : option str;
  shown_name : str;
  fault_severity : option Z;
  (** The flags in the order of the bits, and the mask. *)
  fault_status : option (list bool * str)
}.

Definition status_flags (s : DtcStatus) : list bool :=
  [test_failed s; test_failed_this_operation_cycle s; pending_dtc s; confirmed_dtc s; test_not_completed_since_last_clear s;
   test_failed_since_last_clear s; test_not_completed_this_operation_cycle s; warning_indicator_requested s].

Definition into_sovd (self : DtcRecordAndStatus) : Fault :=
  {| fault_code := shown_code (record_code (record self));
     fault_scope := Some (default_scope (scope self));
     fault_display_code := record_display_code (record self);
     shown_name := record_fault_name (record self);
     fault_severity := Some (record_severity (record self));
     fault_status := Some (status_flags (status self), hex_text 2 (status_mask (status self))) |}.

(** ** Lemmas *)

(** The last of a list with a key. *)
Fixpoint last_with {A} (f : A -> bool) (l : list A) : option A :=
  match l with
  | [] => None
  | a :: l => match last_with f l with Some b => Some b | None => if f a then Some a else None end
  end.

Lemma foldl_insert_lookup {A B} (key : A -> Z) (val : A -> B) (l : list A) (m : gmap Z B) c :
  foldl (fun m a => <[key a := val a]> m) m l !! c
  = match last_with (fun a => key a =? c) l with Some a => Some (val a) | None => m !! c end.
Proof.
  revert m. induction l as [|a l IH]; intros m; [done|]. cbn [foldl last_with]. rewrite IH.
  destruct (last_with _ l); [done|]. rewrite lookup_insert.
  destruct (Z.eqb_spec (key a) c); [by rewrite decide_True by done|by rewrite decide_False by done].
Qed.

Lemma insert_inactive_lookup sc records all c :
  insert_inactive sc records all !! c
  = match all !! c with
    | Some d => Some d
    | None => with_status sc 0 <$> List.find (fun r => record_code r =? c) records
    end.
Proof.
  unfold insert_inactive. revert all. induction records as [|r l IH]; intros all; cbn [foldl List.find];
    [by destruct (all !! c)|]. rewrite IH. destruct (all !! record_code r) as [d|] eqn:Hr.
  - destruct (Z.eqb_spec (record_code r) c) as [<-|]; [by rewrite Hr|done].
  - rewrite lookup_insert. destruct (Z.eqb_spec (record_code r) c) as [<-|].
    + by rewrite decide_True, Hr by done.
    + by rewrite decide_False by done.
Qed.

(** A record of the memory on the wire. *)
Definition fault_bytes (t : (DtcField * DtcRecord) * Z) : list Z := be_bytes 3 (record_code t.1.2) ++ [t.2].

Lemma fault_bytes_len t : len (fault_bytes t) = 4.
Proof. unfold fault_bytes. by rewrite len_app, be_bytes_len. Qed.

Definition field_ok (t : DtcField * DtcRecord) : Prop := field_bit_len t.1 = DTC_CODE_BIT_LEN.

Lemma insert_active_spec sc active statuses pre all :
  length active = length statuses -> Forall field_ok active ->
  len pre + 4 * len active <= U32_MAX ->
  insert_active (len pre - 1) (pre ++ (zip active statuses ≫= fault_bytes)) sc active all
  = Ok (foldl (fun m t => <[record_code t.1.2 := with_status sc t.2 t.1.2]> m) all (zip active statuses)) \/ len pre = 0.
Proof.
  destruct (Z.eq_dec (len pre) 0) as [|Hpre]; [by right|]. intros Hlen Hok Hmax. left.
  revert statuses pre all Hlen Hpre Hmax.
  induction Hok as [|[f r] active Hf Hok IH]; intros [|st statuses] pre all Hlen Hpre Hmax; try done.
  cbn [zip zip_with insert_active foldl]. unfold field_ok in Hf. cbn in Hf. rewrite Hf.
  rewrite len_cons in Hmax. pose proof (len_nonneg pre). pose proof (len_nonneg active).
  change (u32_sat_add (div_ceil DTC_CODE_BIT_LEN 8) 1) with 4.
  assert (Hp : u32_sat_add (len pre - 1) 4 = len (pre ++ fault_bytes ((f, r), st)) - 1).
  { rewrite len_app, fault_bytes_len. unfold u32_sat_add. lia. }
  rewrite Hp. change ((((f, r), st) :: zip active statuses) ≫= fault_bytes)
    with (fault_bytes ((f, r), st) ++ (zip active statuses ≫= fault_bytes)).
  rewrite app_assoc.
  assert (Hget : get ((pre ++ fault_bytes ((f, r), st)) ++ (zip active statuses ≫= fault_bytes))
                   (len (pre ++ fault_bytes ((f, r), st)) - 1) = Some st).
  { rewrite get_app_l by (rewrite len_app, fault_bytes_len; lia). unfold fault_bytes at 1. rewrite app_assoc.
    unfold get. cbn [fst snd]. set (l := pre ++ be_bytes 3 (record_code r)).
    replace (Z.to_nat (len (pre ++ fault_bytes (f, r, st)) - 1)) with (length l); [apply list_lookup_middle; done|].
    pose proof (len_app pre (fault_bytes (f, r, st))) as Hl. rewrite fault_bytes_len in Hl.
    assert (len l = len pre + 3) by (unfold l; rewrite len_app, be_bytes_len; lia). unfold len in *. lia. }
  rewrite Hget. cbn [ok_or mbind result_bind]. apply IH; [by injection Hlen| |];
    rewrite len_app, fault_bytes_len; lia.
Qed.

Lemma flags_are_bits b : is_u8 b -> status_flags (get_dtc_status_for_mask b) = Z.testbit b <$> [0; 1; 2; 3; 4; 5; 6; 7].
Proof.
  intros Hb. unfold status_flags, get_dtc_status_for_mask. cbn [test_failed test_failed_this_operation_cycle pending_dtc
    confirmed_dtc test_not_completed_since_last_clear test_failed_since_last_clear test_not_completed_this_operation_cycle
    warning_indicator_requested fmap list_fmap].
  assert (Hflag : forall f i, mask_value f = 2 ^ i -> 0 <= i -> check_flag b f = Z.testbit b i).
  { intros f i Hf Hi. unfold check_flag. rewrite Hf.
    assert (Hland : Z.land b (2 ^ i) = if Z.testbit b i then 2 ^ i else 0).
    { apply Z.bits_inj'. intros n Hn. rewrite Z.land_spec. destruct (Z.eq_dec n i) as [->|Hne].
      - rewrite Z.pow2_bits_true by done. destruct (Z.testbit b i); [by rewrite Z.pow2_bits_true by done|by rewrite Z.bits_0].
      - rewrite Z.pow2_bits_false, andb_false_r by lia. destruct (Z.testbit b i); [by rewrite Z.pow2_bits_false by lia|by rewrite Z.bits_0]. }
    rewrite Hland. destruct (Z.testbit b i); [apply Z.eqb_refl|]. apply Z.eqb_neq. pose proof (Z.pow_pos_nonneg 2 i). lia. }
  repeat (f_equal; [apply Hflag; [reflexivity|lia]|]). f_equal. by apply Hflag.
Qed.

(** The faults of one answer. *)
Lemma response_faults {ext : Externals} response lookup mask active statuses avail :
  get_dtcs response = Ok active -> length active = length statuses ->
  Forall (fun t => field_ok t /\ field_byte_pos t.1 = 0) active ->
  response_data response = avail :: (zip active statuses ≫= fault_bytes) -> 1 + 4 * len active <= U32_MAX ->
  exists all, faults_of_response response lookup mask ∅ = Ok all /\ forall c, all !! c =
    match last_with (fun t => record_code t.1.2 =? c) (zip active statuses) with
    | Some t => Some (with_status (lookup_scope lookup) t.2 t.1.2)
    | None => if (mask =? 255) || (mask =? 0)
              then with_status (lookup_scope lookup) 0 <$> List.find (fun r => record_code r =? c) (lookup_dtcs lookup) else None
    end.
Proof.
  intros Hactive Hlen Hfields Hraw Hmax.
  unfold faults_of_response. rewrite Hactive. cbn [mbind result_bind].
  assert (Hpos : match active with (f, _) :: _ => field_byte_pos f | [] => 0 end = 0).
  { destruct active as [|[f0 r0] active]; [done|]. by inversion Hfields as [|?? [_ ?]]. }
  rewrite Hpos. clear Hpos. rewrite Hraw.
  destruct (insert_active_spec (lookup_scope lookup) active statuses [avail] ∅) as [Hins|]; [done| |done| |done].
  { eapply Forall_impl; [exact Hfields|]. by intros ? []. }
  change (len [avail] - 1) with 0 in Hins. change ([avail] ++ ?l) with (avail :: l) in Hins. rewrite Hins.
  cbn [mbind result_bind]. eexists. split; [reflexivity|]. intros c.
  set (all := foldl _ _ _).
  assert (Hall : all !! c = match last_with (fun t => record_code t.1.2 =? c) (zip active statuses) with
    Some t => Some (with_status (lookup_scope lookup) t.2 t.1.2) | None => None end).
  { unfold all. rewrite (foldl_insert_lookup (fun t => record_code t.1.2)
      (fun t => with_status (lookup_scope lookup) t.2 t.1.2)). by destruct (last_with _ _). }
  destruct ((mask =? 255) || (mask =? 0)); [rewrite insert_inactive_lookup|]; rewrite Hall;
    by destruct (last_with _ _).
Qed.

Lemma last_with_in {A} (f : A -> bool) l a : last_with f l = Some a -> a ∈ l.
Proof.
  induction l as [|b l IH]; [done|]. cbn. destruct (last_with f l) as [a'|]; [intros [= ->]; right; by apply IH|].
  destruct (f b); [|done]. intros [= ->]. left.
Qed.

(** ** Properties *)

Section properties.
Context {ext : Externals} {M : Type} `{!UdsTransport M}.
Context (hash_order : gmap DtcReadInformationFunction DtcLookup -> list (DtcReadInformationFunction * DtcLookup)).

(** A fault as it is listed. *)
Definition listed (sc : DtcReadInformationFunction) (r : DtcRecord) (status_byte : Z) : Fault :=
  {| fault_code := shown_code (record_code r); fault_scope := Some (default_scope sc);
     fault_display_code := record_display_code r; shown_name := record_fault_name r;
     fault_severity := Some (record_severity r);
     fault_status := Some (Z.testbit status_byte <$> [0; 1; 2; 3; 4; 5; 6; 7], hex_text 2 status_byte) |}.

(** C32: the faults of an ECU with one fault memory in scope are read from its
    answer: where the payload is the availability mask, one byte, and then code and
    status of each fault, and the data has this byte, so that the decoded faults
    are those, counted from the start of their record, a fault of the answer is listed with the eight bits of the byte
    behind its own code, the last one where a code comes twice; when the whole
    mask was asked for, the other faults of the database are listed as well,
    without a status; faults above the severity are left out, and nothing else
    is listed. *)
Theorem listed_faults m m' n k plugin filter_ severity sc sel lookups f lookup mask response active statuses avail :
  ecu_kernel m n = Some k ->
  lookup_dtc_services (manager k) [FaultMemoryByStatusMask; UserMemoryDtcByStatusMask] = Ok lookups ->
  List.filter (in_scope sc) (hash_order lookups) = [(f, lookup)] ->
  status_filter_mask filter_ = Ok mask ->
  send m n (lookup_service lookup) plugin (Some (mask_payload f mask sel)) true = (m', Ok response) ->
  get_dtcs response = Ok active ->
  length active = length statuses -> bytes statuses ->
  Forall (fun t => field_ok t /\ field_byte_pos t.1 = 0) active ->
  response_data response = avail :: (zip active statuses ≫= fault_bytes) ->
  1 + 4 * len active <= U32_MAX ->
  exists all, ecu_dtc_by_mask hash_order n plugin filter_ severity sc sel m = (m', Ok all) /\
    forall c, into_sovd <$> all !! c =
      let shows r st := if of_severity severity (with_status (lookup_scope lookup) st r)
                        then Some (listed (lookup_scope lookup) r st) else None in
      match last_with (fun t => record_code t.1.2 =? c) (zip active statuses) with
      | Some ((_, r), st) => shows r st
      | None => if (mask =? 255) || (mask =? 0)
                then r ← List.find (fun r => record_code r =? c) (lookup_dtcs lookup); shows r 0 else None
      end.
Proof.
  intros Hk Hl Hf Hmask Hsend Hactive Hlen Hst Hfields Hraw Hmax.
  destruct (response_faults response lookup mask active statuses avail) as (all & Hfaults & Hall); [done..|].
  eexists. split.
  { unfold ecu_dtc_by_mask, ecu, reads, pure, mbind, op_bind. unfold uds_ecu_db. rewrite Hk. cbn [ok_or fallible].
    rewrite Hl. cbn [fallible]. rewrite Hf, Hmask. cbn [fallible read_services].
    unfold mbind, op_bind, sends, pure. rewrite Hsend, Hfaults. cbn [fallible]. reflexivity. }
  intros c. rewrite map_lookup_filter, Hall. clear Hall Hfaults.
  assert (Hshow : forall r st, is_u8 st -> into_sovd <$> (x ← Some (with_status (lookup_scope lookup) st r);
      _ ← guard (of_severity severity x = true); Some x)
    = if of_severity severity (with_status (lookup_scope lookup) st r) then Some (listed (lookup_scope lookup) r st) else None).
  { intros r st Hb. cbn [mbind option_bind]. destruct (of_severity _ _) eqn:E; [|by rewrite option_guard_False].
    rewrite option_guard_True by done. cbn. f_equal. unfold into_sovd, listed. cbn. rewrite flags_are_bits by done. done. }
  assert (Hst' : forall t, last_with (fun t => record_code t.1.2 =? c) (zip active statuses) = Some t -> is_u8 t.2).
  { intros [t st] (i & Hi)%last_with_in%list_elem_of_lookup. apply lookup_zip_Some in Hi as [_ Hi].
    by eapply (Forall_lookup_1 _ _ _ _ Hst). }
  cbv zeta. destruct (last_with _ _) as [[[f0 r] st]|].
  - rewrite <- Hshow by (by apply (Hst' _ eq_refl)). reflexivity.
  - destruct ((mask =? 255) || (mask =? 0)); [|done]. destruct (List.find _ _) as [r|]; [|done].
    cbn [mbind option_bind fmap option_fmap option_map]. rewrite <- Hshow by done. reflexivity.
Qed.
End properties.

(** ** A fault memory *)

Definition data_param (n : string) (pos : Z) (d : DataOperation) : Param :=
  MkParam (Some (chars n)) (Some (chars "DATA")) (Some pos) None 11 (ValueData None (Some d)).

Definition dtc_of (code : Z) (n : string) : DTC :=
  {| trouble_code := code; display_trouble_code := None; dtc_short_name := Some (chars n); dtc_text := Some (Some (chars (n +:+ " text")));
     level := Some 2 |}.

Definition dtc_dop : DataOperation :=
  DTCDOP {| dtc_coded_type := Some (standard_type 1 24); dtcs := Some [dtc_of 123456 "Code2"; dtc_of 234567 "Code6"] |}.

Definition fault_records : DataOperation := end_of_pdu [data_param "DTCRecord" 0 dtc_dop; data_param "status" 3 (NormalDOP (unsigned_dop 8))].

(** The availability mask is part of the data, or it is not. *)
Definition fault_service (availability : Param) : DiagService :=
  {| diag_comm := Some {| comm_short_name := Some "FaultMem_ReportDTCByStatusMask"%string; state_transition_refs := None;
                          pre_condition_state_refs := None; funct_class := Some [Some "FaultMem"%string] |};
     request := Some (Some [const_param "sid" 0 8 "25"; const_param "sub" 1 8 "2"]);
     pos_responses := Some [{| Database.response_type := 0;
       Database.response_params := Some [const_param "sid" 0 8 "89"; matching_param "sub" 1 1; availability;
                                data_param "DTCAndStatusRecord" 3 fault_records] |}];
     neg_responses := None |}.

Definition availability_data : Param := data_param "availability" 2 (NormalDOP (unsigned_dop 8)).

Definition memory_fleet (availability : Param) : Fleet :=
  {| ecus := {[ "ecu"%string := {| manager := ecu_with [variant_with "V" [fault_service availability] []] (Some 0);
                                   file_groups := None; db_cache := ∅ |} ]};
     requests := 0; reported := [] |}.

(** Two faults: 01E240 with status 29, 039447 with status 0C. *)
Definition fault_answer : list Z := [89; 2; 255; 1; 226; 64; 41; 3; 148; 71; 12].

#[local] Instance ex_fleet_transport : UdsTransport Fleet :=
  fleet_transport no_floats false no_case DatabaseNamingConvention_default ex_setup (fun _ k => k)
    (fun _ => answer_with fault_answer).

Local Abbreviation ex_faults := (ecu_dtc_by_mask (M := Fleet) map_to_list "ecu" VoidPlugin).

Definition ex_sent (availability : Param) : Fleet * presult DiagServiceResponseStruct :=
  sends (M := Fleet) "ecu" (fault_diag_comm "FaultMem_ReportDTCByStatusMask") VoidPlugin (Some (Raw [255])) true
    (memory_fleet availability).
Definition ex_response : DiagServiceResponseStruct := default empty_positive (result_ok (ex_sent availability_data).2).

Definition code_2 : DtcRecord :=
  {| record_code := 123456; record_display_code := None; record_fault_name := chars "Code2 text"; record_severity := 2 |}.

Lemma listed_faults_witness :
  exists m' all, ex_faults None None None None (memory_fleet availability_data) = (m', Ok all) /\
    into_sovd <$> all !! 123456 = Some (listed FaultMemoryByStatusMask code_2 41).
Proof.
  exists (ex_sent availability_data).1.
  destruct (listed_faults (M := Fleet) map_to_list (memory_fleet availability_data) (ex_sent availability_data).1 "ecu"
    {| manager := ecu_with [variant_with "V" [fault_service availability_data] []] (Some 0); file_groups := None; db_cache := ∅ |}
    VoidPlugin None None None None
    {[ FaultMemoryByStatusMask := {| lookup_scope := FaultMemoryByStatusMask;
                                     lookup_service := fault_diag_comm "FaultMem_ReportDTCByStatusMask";
                                     lookup_dtcs := record_of <$> [dtc_of 123456 "Code2"; dtc_of 234567 "Code6"] |} ]}
    FaultMemoryByStatusMask
    {| lookup_scope := FaultMemoryByStatusMask; lookup_service := fault_diag_comm "FaultMem_ReportDTCByStatusMask";
       lookup_dtcs := record_of <$> [dtc_of 123456 "Code2"; dtc_of 234567 "Code6"] |}
    255 ex_response (default [] (result_ok (get_dtcs ex_response))) [41; 12] 255) as (all & Hrun & Hall).
  - reflexivity.
  - vm_compute. reflexivity.
  - vm_compute. reflexivity.
  - reflexivity.
  - vm_compute. reflexivity.
  - vm_compute. reflexivity.
  - vm_compute. reflexivity.
  - repeat constructor; lia.
  - vm_compute. repeat constructor.
  - vm_compute. reflexivity.
  - vm_compute. discriminate.
  - exists all. split; [exact Hrun|]. rewrite Hall. vm_compute. reflexivity.
Defined.

(** The byte in front of the first code is taken for the availability mask,
    whether it is in the payload or not. *)
Example statuses_without_availability :
  (ex_faults None None None None (memory_fleet (matching_param "availability" 2 1))).2 = Err (Failed BadPayload).
Proof. vm_compute. reflexivity. Qed.

(** A fault has another name while it is active. *)
Example two_names :
  (fun t => record_fault_name (record t)) <$> (result_ok (ex_faults None None None None (memory_fleet availability_data)).2 ≫= (.!! 234567))
    = Some (chars "Code6 text") /\
  record_fault_name (record_of (dtc_of 234567 "Code6")) = chars "Code6".
Proof. split; vm_compute; reflexivity. Qed.
