(* ===== verification/Sessions.v ===== *)
(** * Sessions and security access that expire

    cda-comm-uds/src/session.rs and security.rs: changing the session or the
    security level of an ECU, going back to the default, and the tasks that go
    back when a change expires.  [ResetTasks] is the table of these tasks with
    the tasks that run, [Timers] what is between the sections of starts and
    resets; the abstract specification is one deadline for each ECU and kind. *)

From stdpp Require Import strings gmap countable.
From stdpp Require Import list.
From S2P Require Import Prelude Bytes Errors Text Ieee754 Json StateCharts Database DiagLayers Uds EcuState VariantDetection SampleDatabase Naming ServiceLookup StateTransitions ResponseDecode PayloadEncode UdsRequest UdsManager.

Local Open Scope Z_scope.
Set Warnings "-register-all".

(** ** Tasks *)

Inductive ResetType : Type := Session | SecurityAccessReset.

#[export] Instance ResetType_eq_dec : EqDecision ResetType.
Proof. solve_decision. Defined.
#[export] Instance ResetType_countable : Countable ResetType.
Proof.
  apply (inj_countable (fun t => match t with Session => true | SecurityAccessReset => false end)
           (fun b => Some (if b : bool then Session else SecurityAccessReset))). by intros [].
Defined.

(** [session_reset_tasks] and [security_reset_tasks] in one map. *)
Abbreviation task_key := (ResetType * string)%type.

Record Task : Type := { task_of : task_key; expires : Z }.

(** The tables, and the tasks that were neither aborted nor ended. *)
Record ResetTasks : Type := {
  tracked : gmap task_key nat;
  live : gmap nat Task;
  spawned : nat
}.

(** Take the task of the table, abort it. *)
Definition cancel (key : task_key) (self : ResetTasks) : ResetTasks :=
  match tracked self !! key with
  | Some id => {| tracked := delete key (tracked self); live := delete id (live self); spawned := spawned self |}
  | None => self
  end.

(** [start_reset_task] cancels, spawns and enters the new task one after the
    other: other tasks can run in between. *)
Definition spawn_reset (key : task_key) (deadline : Z) (self : ResetTasks) : ResetTasks * nat :=
  ({| tracked := tracked self; live := <[spawned self := {| task_of := key; expires := deadline |}]> (live self);
      spawned := S (spawned self) |}, spawned self).
Definition track (key : task_key) (id : nat) (self : ResetTasks) : ResetTasks :=
  {| tracked := <[key := id]> (tracked self); live := live self; spawned := spawned self |}.

Definition start_reset_task (ecu_name : string) (expiration : option Z) (reset_type : ResetType) (now : Z)
    (self : ResetTasks) : ResetTasks :=
  match expiration with
  | Some expiration =>
      if 0 <? expiration then
        let self := cancel (reset_type, ecu_name) self in
        let '(self, id) := spawn_reset (reset_type, ecu_name) (now + expiration) self in
        track (reset_type, ecu_name) id self
      else self
  | None => self
  end.

(** ** Operations *)

Section sessions.
Context {ext : Externals} {M : Type} `{!UdsTransport M}.
Context (convention : DatabaseNamingConvention).

Record World : Type := {
  transport : M;
  reset_tasks : ResetTasks;
  now : Z
}.

Definition on_transport {A} (o : op M A) : op World A := fun w =>
  let '(m, r) := o (transport w) in ({| transport := m; reset_tasks := reset_tasks w; now := now w |}, r).
Definition on_tasks (f : Z -> ResetTasks -> ResetTasks) : op World unit := fun w =>
  ({| transport := transport w; reset_tasks := f (now w) (reset_tasks w); now := now w |}, Ok tt).

Definition positive (r : DiagServiceResponseStruct) : bool :=
  match result_type r with PositiveResponse => true | NegativeResponse => false end.

Definition start (ecu_name : string) (expiration : option Z) (reset_type : ResetType) : op World unit :=
  on_tasks (start_reset_task ecu_name expiration reset_type).

Definition set_ecu_session (ecu_name session : string) (security_plugin : DynamicPlugin) (expiration : option Z)
    : op World DiagServiceResponseStruct :=
  k ← on_transport (ecu ecu_name);
  dc ← pure (fallible (lookup_session_change convention (manager k) session));
  result ← on_transport (sends ecu_name dc security_plugin None true);
  if positive result then _ ← start ecu_name expiration Session; mret result else mret result.

Definition reset_ecu_session (ecu_name : string) (security_plugin : DynamicPlugin) : op World unit :=
  _ ← on_tasks (fun _ => cancel (Session, ecu_name));
  k ← on_transport (ecu ecu_name);
  default_session ← pure (fallible (default_session convention (manager k)));
  current_session ← pure (fallible (session (manager k)));
  if String.eqb current_session default_session then mret tt
  else
    response ← set_ecu_session ecu_name default_session security_plugin None;
    if positive response then mret tt else pure (Err (Failed UnexpectedResponse)).

Definition set_ecu_security_access (ecu_name level : string) (authentication_data : option UdsPayloadData)
    (security_plugin : DynamicPlugin) (expiration : option Z) : op World (SecurityAccess * DiagServiceResponseStruct) :=
  k ← on_transport (ecu ecu_name);
  security_access ← pure (fallible (lookup_security_access_change convention (manager k) level
                                      (bool_decide (is_Some authentication_data))));
  match security_access with
  | RequestSeed dc =>
      response ← on_transport (sends ecu_name dc security_plugin None false);
      mret (security_access, response)
  | SendKey dc =>
      result ← on_transport (sends ecu_name dc security_plugin authentication_data true);
      if positive result then _ ← start ecu_name expiration SecurityAccessReset; mret (security_access, result)
      else mret (security_access, result)
  end.

Definition reset_ecu_security_access (ecu_name : string) (security_plugin : DynamicPlugin) : op World unit :=
  _ ← on_tasks (fun _ => cancel (SecurityAccessReset, ecu_name));
  k ← on_transport (ecu ecu_name);
  default_security_access ← pure (fallible (default_security_access convention (manager k)));
  current_security_access ← pure (fallible (security_access (manager k)));
  if String.eqb current_security_access default_security_access then mret tt
  else
    '(_, response) ← set_ecu_security_access ecu_name default_security_access None security_plugin None;
    if positive response then mret tt else pure (Err (Failed UnexpectedResponse)).

(** A task whose time has come: it leaves the table, goes back with the void
    plugin, whose errors are logged, and ends. *)
Definition expire (id : nat) : op World unit := fun w =>
  match live (reset_tasks w) !! id with
  | Some task =>
      if expires task <=? now w then
        let '(reset_type, ecu_name) := task_of task in
        let w := {| transport := transport w;
                    reset_tasks := {| tracked := delete (task_of task) (tracked (reset_tasks w));
                                      live := live (reset_tasks w); spawned := spawned (reset_tasks w) |};
                    now := now w |} in
        let '(w, _) := match reset_type with
                       | Session => reset_ecu_session ecu_name VoidPlugin w
                       | SecurityAccessReset => reset_ecu_security_access ecu_name VoidPlugin w
                       end in
        ({| transport := transport w;
            reset_tasks := {| tracked := tracked (reset_tasks w); live := delete id (live (reset_tasks w));
                              spawned := spawned (reset_tasks w) |};
            now := now w |}, Ok tt)
      else (w, Ok tt)
  | None => (w, Ok tt)
  end.

(** [shutdown]: the tables are emptied and their tasks aborted. *)
Definition shutdown_tasks (self : ResetTasks) : ResetTasks :=
  {| tracked := ∅;
     live := filter (fun t => t.1 ∉ (map_to_list (tracked self)).*2) (live self);
     spawned := spawned self |}.

(** [get_send_key_param_name] of the manager. *)
Definition get_send_key_param_name (to_lowercase : string -> string) (ecu_name level : string) : op M str :=
  k ← ecu ecu_name;
  security_access ← pure (fallible (lookup_security_access_change convention (manager k) level true));
  match security_access with
  | RequestSeed _ => pure (Err Panicked)
  | SendKey dc => on_ecu ecu_name (fun k => StateTransitions.get_send_key_param_name convention to_lowercase k dc)
  end.
End sessions.

(** ** What the operations do to the tasks *)

Section task_effects.
Context {ext : Externals} {M : Type} `{!UdsTransport M} (convention : DatabaseNamingConvention).
Implicit Types w : World (M := M).

Lemma bind_run {A B} (o : op (World (M := M)) A) (f : A -> op (World (M := M)) B) w :
  (o ≫= f) w = let '(w', r) := o w in match r with Ok a => f a w' | Err e => (w', Err e) end.
Proof. reflexivity. Qed.

Lemma transport_tasks {A} (o : op M A) w : reset_tasks (on_transport o w).1 = reset_tasks w /\ now (on_transport o w).1 = now w.
Proof. unfold on_transport. by destruct (o (transport w)). Qed.

(** A request and, after a positive answer, the timer. *)
Definition timed_request {A} (e : option Z) (key : task_key) (response : A -> option DiagServiceResponseStruct)
    (w : World (M := M)) (t : World (M := M) * presult A) : Prop :=
  now t.1 = now w /\
  reset_tasks t.1 = match result_ok t.2 ≫= response with
                    | Some r => if positive r then start_reset_task key.2 e key.1 (now w) (reset_tasks w) else reset_tasks w
                    | None => reset_tasks w
                    end.

Lemma set_session_tasks n s p e w : timed_request e (Session, n) Some w (set_ecu_session convention n s p e w).
Proof.
  unfold set_ecu_session. rewrite bind_run. pose proof (transport_tasks (ecu n) w) as [Ht Hn].
  destruct (on_transport _ w) as [w1 [k|err]]; cbn [fst] in *; [|by split].
  rewrite bind_run. cbn [pure]. destruct (fallible _) as [dc|err]; [|by split].
  rewrite bind_run. pose proof (transport_tasks (sends n dc p None true) w1) as [Ht' Hn'].
  destruct (on_transport _ w1) as [w2 [r|err]]; cbn [fst] in *; [|split; cbn; congruence].
  unfold timed_request. rewrite <- Hn, <- Hn', <- Ht, <- Ht'. destruct (positive r) eqn:Hp; unfold mbind, op_bind, mret, op_ret; cbn; by rewrite ?Hp.
Qed.

Lemma set_security_tasks n l auth p e w :
  timed_request e (SecurityAccessReset, n)
    (fun t => match t.1 with SendKey _ => Some t.2 | RequestSeed _ => None end) w
    (set_ecu_security_access convention n l auth p e w).
Proof.
  unfold set_ecu_security_access. rewrite bind_run. pose proof (transport_tasks (ecu n) w) as [Ht Hn].
  destruct (on_transport _ w) as [w1 [k|err]]; cbn [fst] in *; [|by split].
  rewrite bind_run. cbn [pure]. destruct (fallible _) as [[dc|dc]|err]; [| |by split].
  - rewrite bind_run. pose proof (transport_tasks (sends n dc p None false) w1) as [Ht' Hn'].
    destruct (on_transport _ w1) as [w2 [r|err]]; cbn [fst] in *; split; cbn; congruence.
  - rewrite bind_run. pose proof (transport_tasks (sends n dc p auth true) w1) as [Ht' Hn'].
    destruct (on_transport _ w1) as [w2 [r|err]]; cbn [fst] in *; [|split; cbn; congruence].
    unfold timed_request. rewrite <- Hn, <- Hn', <- Ht, <- Ht'. destruct (positive r) eqn:Hp; unfold mbind, op_bind, mret, op_ret; cbn; by rewrite ?Hp.
Qed.

Lemma no_timer {A} key (response : A -> option DiagServiceResponseStruct) w t :
  timed_request None key response w t -> now t.1 = now w /\ reset_tasks t.1 = reset_tasks w.
Proof. intros [Hn Ht]. split; [done|]. rewrite Ht. destruct (_ ≫= _) as [r|]; [by destruct (positive r)|done]. Qed.

Lemma reset_session_tasks n p w : let w' := (reset_ecu_session convention n p w).1 in
  now w' = now w /\ reset_tasks w' = cancel (Session, n) (reset_tasks w).
Proof.
  cbv zeta. unfold reset_ecu_session. rewrite bind_run. cbn [on_tasks]. rewrite bind_run.
  set (w0 := {| transport := _; reset_tasks := _; now := _ |}). change (cancel (Session, n) (reset_tasks w)) with (reset_tasks w0).
  change (now w) with (now w0). clearbody w0. pose proof (transport_tasks (ecu n) w0) as [Ht Hn].
  destruct (on_transport _ w0) as [w1 [k|err]]; cbn [fst] in *; [|done].
  rewrite bind_run. cbn [pure]. destruct (fallible _) as [d|err]; [|done].
  rewrite bind_run. cbn [pure]. destruct (fallible _) as [c|err]; [|done]. destruct (String.eqb c d); [done|].
  rewrite bind_run. pose proof (no_timer _ _ _ _ (set_session_tasks n d p None w1)) as [Hn' Ht'].
  destruct (set_ecu_session _ _ _ _ _ w1) as [w2 [r|err]]; cbn [fst] in *; [|split; congruence].
  destruct (positive r); cbn; split; congruence.
Qed.

Lemma reset_security_tasks n p w : let w' := (reset_ecu_security_access convention n p w).1 in
  now w' = now w /\ reset_tasks w' = cancel (SecurityAccessReset, n) (reset_tasks w).
Proof.
  cbv zeta. unfold reset_ecu_security_access. rewrite bind_run. cbn [on_tasks]. rewrite bind_run.
  set (w0 := {| transport := _; reset_tasks := _; now := _ |}).
  change (cancel (SecurityAccessReset, n) (reset_tasks w)) with (reset_tasks w0).
  change (now w) with (now w0). clearbody w0. pose proof (transport_tasks (ecu n) w0) as [Ht Hn].
  destruct (on_transport _ w0) as [w1 [k|err]]; cbn [fst] in *; [|done].
  rewrite bind_run. cbn [pure]. destruct (fallible _) as [d|err]; [|done].
  rewrite bind_run. cbn [pure]. destruct (fallible _) as [c|err]; [|done]. destruct (String.eqb c d); [done|].
  rewrite bind_run. pose proof (no_timer _ _ _ _ (set_security_tasks n d None p None w1)) as [Hn' Ht'].
  destruct (set_ecu_security_access _ _ _ _ _ _ w1) as [w2 [[a r]|err]]; cbn [fst] in *; [|split; congruence].
  destruct (positive r); cbn; split; congruence.
Qed.
End task_effects.

(** ** The tables over time *)

(** A start that has cancelled the old task, and one that has spawned the new
    one and is about to enter it. *)
Inductive Starting : Type :=
  | Cancelled (key : task_key) (expiration : Z)
  | Spawned (key : task_key) (id : nat) (deadline : Z).

Definition key_of (s : Starting) : task_key := match s with Cancelled key _ | Spawned key _ _ => key end.

(** [resetting] are the tasks that woke up: they have left the table and go back
    to the default. *)
Record Timers : Type := {
  tasks : ResetTasks;
  starts : gmap nat Starting;
  resetting : gset nat;
  time : Z
}.

Definition with_tasks (t : ResetTasks) (x : Timers) : Timers :=
  {| tasks := t; starts := starts x; resetting := resetting x; time := time x |}.
Definition with_starts (l : gmap nat Starting) (x : Timers) : Timers :=
  {| tasks := tasks x; starts := l; resetting := resetting x; time := time x |}.
Definition with_resetting (r : gset nat) (x : Timers) : Timers :=
  {| tasks := tasks x; starts := starts x; resetting := r; time := time x |}.

(** The task leaves the table before it calls the reset. *)
Definition leave_table (key : task_key) (self : ResetTasks) : ResetTasks :=
  {| tracked := delete key (tracked self); live := live self; spawned := spawned self |}.
Definition end_task (id : nat) (self : ResetTasks) : ResetTasks :=
  {| tracked := tracked self; live := delete id (live self); spawned := spawned self |}.

(** The sections of starts, resets and tasks in any order; the requests to the
    ECUs are in between, and touch no table. *)
Inductive timer_step : Timers -> Timers -> Prop :=
  | start_cancels x i key e : starts x !! i = None -> 0 < e ->
      timer_step x (with_starts (<[i := Cancelled key e]> (starts x)) (with_tasks (cancel key (tasks x)) x))
  | start_spawns x i key e : starts x !! i = Some (Cancelled key e) ->
      timer_step x (let '(t, id) := spawn_reset key (time x + e) (tasks x) in
                    with_starts (<[i := Spawned key id (time x + e)]> (starts x)) (with_tasks t x))
  | start_tracks x i key id d : starts x !! i = Some (Spawned key id d) ->
      timer_step x (with_starts (delete i (starts x)) (with_tasks (track key id (tasks x)) x))
  (** its client has gone away *)
  | start_dropped x i : timer_step x (with_starts (delete i (starts x)) x)
  (** of a client, or of a task that woke up *)
  | reset_cancels x key : timer_step x (with_tasks (cancel key (tasks x)) x)
  | task_wakes x id task : live (tasks x) !! id = Some task -> id ∉ resetting x -> expires task <= time x ->
      timer_step x (with_resetting ({[id]} ∪ resetting x) (with_tasks (leave_table (task_of task) (tasks x)) x))
  | task_ends x id : id ∈ resetting x -> timer_step x (with_tasks (end_task id (tasks x)) x)
  | tables_shut_down x : timer_step x (with_tasks (shutdown_tasks (tasks x)) x)
  | time_passes x t : time x <= t ->
      timer_step x {| tasks := tasks x; starts := starts x; resetting := resetting x; time := t |}.

(** No two starts for one ECU and kind are under way, and none is dropped after
    it has spawned its task. *)
Definition starts_apart (x : Timers) : Prop :=
  forall i j s s', starts x !! i = Some s -> starts x !! j = Some s' -> key_of s = key_of s' -> i = j.
Definition orderly_step (x y : Timers) : Prop :=
  timer_step x y /\ starts_apart y /\
  forall i key id d, starts x !! i = Some (Spawned key id d) -> starts y !! i = None -> tracked (tasks y) !! key = Some id.

(** ** The specification: deadlines *)

(** One deadline for each ECU and kind, and those that are about to be set. *)
Record Deadlines : Type := { set : gmap task_key Z; announced : gmap task_key Z; clock : Z }.

Inductive deadline_step : Deadlines -> Deadlines -> Prop :=
  | deadline_time d a t t' : t <= t' ->
      deadline_step {| set := d; announced := a; clock := t |} {| set := d; announced := a; clock := t' |}
  | deadline_announced d a t key e : 0 < e -> a !! key = None ->
      deadline_step {| set := d; announced := a; clock := t |} {| set := d; announced := <[key := t + e]> a; clock := t |}
  | deadline_set d a t key t0 : a !! key = Some t0 ->
      deadline_step {| set := d; announced := a; clock := t |} {| set := <[key := t0]> d; announced := delete key a; clock := t |}
  | deadline_reset d a t key :
      deadline_step {| set := d; announced := a; clock := t |} {| set := delete key d; announced := a; clock := t |}
  | deadline_expires d a t key t0 : d !! key = Some t0 -> t0 <= t ->
      deadline_step {| set := d; announced := a; clock := t |} {| set := delete key d; announced := a; clock := t |}
  | deadline_shutdown d a t :
      deadline_step {| set := d; announced := a; clock := t |} {| set := ∅; announced := a; clock := t |}.

Definition deadlines (t : ResetTasks) : gmap task_key Z := omap (fun id => expires <$> live t !! id) (tracked t).

Lemma deadlines_lookup t key : deadlines t !! key = id ← tracked t !! key; expires <$> live t !! id.
Proof. unfold deadlines. by rewrite lookup_omap. Qed.

(** The tables are those of the deadlines. *)
Definition implements (x : Timers) (s : Deadlines) : Prop :=
  set s = deadlines (tasks x) /\ clock s = time x /\
  forall key d, announced s !! key = Some d <-> exists i id, starts x !! i = Some (Spawned key id d).

(** Every task that runs is in the table, about to be, or woke up when it was
    due; and it is the task of its deadline. *)
Record timers_wf (x : Timers) : Prop := {
  wf_tracked key id : tracked (tasks x) !! key = Some id ->
    (forall task, live (tasks x) !! id = Some task -> task_of task = key) /\ (id < spawned (tasks x))%nat /\
    forall i s, starts x !! i = Some s -> key_of s <> key;
  wf_live id task : live (tasks x) !! id = Some task -> (id < spawned (tasks x))%nat /\
    (id ∈ resetting x \/ tracked (tasks x) !! task_of task = Some id \/
     exists i, starts x !! i = Some (Spawned (task_of task) id (expires task)));
  wf_spawned i key id d : starts x !! i = Some (Spawned key id d) -> (id < spawned (tasks x))%nat /\
    (forall task, live (tasks x) !! id = Some task -> task_of task = key /\ expires task = d) /\
    (live (tasks x) !! id = None -> d <= time x) /\
    (forall key', tracked (tasks x) !! key' <> Some id) /\
    (forall j key' d', starts x !! j = Some (Spawned key' id d') -> i = j);
  wf_cancelled i key e : starts x !! i = Some (Cancelled key e) -> 0 < e;
  wf_resetting id : id ∈ resetting x -> (id < spawned (tasks x))%nat /\
    forall task, live (tasks x) !! id = Some task -> expires task <= time x;
  wf_apart : starts_apart x
}.

Section tables.
Implicit Types x y : Timers.

Lemma cancel_cases key t : cancel key t = t /\ tracked t !! key = None \/
  exists id, tracked t !! key = Some id /\
    cancel key t = {| tracked := delete key (tracked t); live := delete id (live t); spawned := spawned t |}.
Proof. unfold cancel. destruct (tracked t !! key) as [id|]; [right; by exists id|by left]. Qed.

(** Taking an entry out, and its task or nothing with it. *)
Lemma deadlines_delete key t (l : gmap nat Task) : (forall key' id, key' <> key -> tracked t !! key' = Some id -> expires <$> l !! id = expires <$> live t !! id) ->
  omap (fun id => expires <$> l !! id) (delete key (tracked t)) = delete key (deadlines t).
Proof.
  intros Hl. unfold deadlines. apply map_eq. intros key'. rewrite lookup_omap. destruct (decide (key' = key)) as [->|Hne].
  - by rewrite !lookup_delete_eq.
  - rewrite !lookup_delete_ne, lookup_omap by done. destruct (tracked t !! key') as [id|] eqn:Hk; [|done]. cbn. by eapply Hl.
Qed.

Lemma cancel_deadlines key x : timers_wf x -> deadlines (cancel key (tasks x)) = delete key (deadlines (tasks x)).
Proof.
  intros Hwf. destruct (cancel_cases key (tasks x)) as [[-> Hn]|(id & Hk & ->)].
  - symmetry. apply delete_id. by rewrite deadlines_lookup, Hn.
  - apply deadlines_delete. intros key' id' Hne Hk'. cbn [live]. destruct (decide (id' = id)) as [->|]; [|by rewrite lookup_delete_ne].
    destruct (live (tasks x) !! id) as [task|] eqn:Hl; [|by rewrite lookup_delete_eq].
    destruct Hne. destruct (wf_tracked x Hwf _ _ Hk) as [H1 _], (wf_tracked x Hwf _ _ Hk') as [H2 _]. by rewrite <- (H1 _ Hl), <- (H2 _ Hl).
Qed.

(** What a cancelling leaves is as it was. *)
Lemma cancel_wf key x : timers_wf x -> timers_wf (with_tasks (cancel key (tasks x)) x) /\ tracked (cancel key (tasks x)) !! key = None.
Proof.
  intros Hwf. destruct (cancel_cases key (tasks x)) as [[-> Hn]|(id & Hk & ->)]; [by destruct x|]. split; [|apply lookup_delete_eq].
  split; cbn [tasks with_tasks tracked live spawned starts resetting time].
  - intros key' id' [Hne Hk']%lookup_delete_Some. destruct (wf_tracked x Hwf _ _ Hk') as (H1 & H2 & H3).
    split; [|done]. intros task [_ Hl]%lookup_delete_Some. by apply H1.
  - intros id' task [Hne Hl]%lookup_delete_Some. destruct (wf_live x Hwf _ _ Hl) as (H1 & [H2|[H2|H2]]); (split; [done|]); [by left| |by right; right].
    right. left. rewrite lookup_delete_ne; [done|]. intros E. rewrite <- E in H2. congruence.
  - intros i key' id' d Hi. destruct (wf_spawned x Hwf _ _ _ _ Hi) as (H1 & H2 & H3 & H4 & H5).
    assert (Hne : id <> id') by (intros <-; by destruct (H4 key)). split; [done|]. rewrite lookup_delete_ne by done.
    split; [done|]. split; [done|]. split; [|done]. intros key2 [_ Hk2]%lookup_delete_Some. by destruct (H4 key2).
  - apply (wf_cancelled x Hwf).
  - intros id' Hr. destruct (wf_resetting x Hwf _ Hr) as [H1 H2]. split; [done|]. intros task [_ Hl]%lookup_delete_Some. by apply H2.
  - apply (wf_apart x Hwf).
Qed.

Lemma set_deadlines x d a t : implements x {| set := d; announced := a; clock := t |} -> d = deadlines (tasks x).
Proof. by intros [? _]. Qed.

Lemma clock_time x d a t : implements x {| set := d; announced := a; clock := t |} -> t = time x.
Proof. by intros (_ & ? & _). Qed.

Lemma implements_same x y d a t d' : implements x {| set := d; announced := a; clock := t |} -> deadlines (tasks y) = d' -> time y = time x ->
  (forall i key id e, starts y !! i = Some (Spawned key id e) <-> starts x !! i = Some (Spawned key id e)) ->
  implements y {| set := d'; announced := a; clock := t |}.
Proof.
  intros (_ & Hc & Ha) Hd Ht Hs. split; [done|]. split; [cbn in *; congruence|]. intros key e. cbn in Ha |- *. rewrite Ha. by setoid_rewrite Hs.
Qed.

Lemma due_deadline x s key id task : implements x s -> tracked (tasks x) !! key = Some id -> live (tasks x) !! id = Some task ->
  set s !! key = Some (expires task).
Proof. intros (-> & _) Hk Hl. by rewrite deadlines_lookup, Hk; cbn; rewrite Hl. Qed.

(** The tables and the deadlines one step on. *)
Definition steps_on (y : Timers) s : Prop := exists s', rtc deadline_step s s' /\ implements y s' /\ timers_wf y.

Lemma reset_steps key x s : timers_wf x -> implements x s -> steps_on (with_tasks (cancel key (tasks x)) x) s.
Proof.
  intros Hwf Hi. destruct (cancel_wf key x Hwf) as [Hwf' _]. destruct s as [d a t]. eexists. split; [|split; [|exact Hwf']].
  - apply rtc_once, (deadline_reset d a t key).
  - eapply (implements_same x); [done| |done|done]. cbn. rewrite cancel_deadlines by done. by rewrite (set_deadlines _ _ _ _ Hi).
Qed.

Lemma cancelled_steps i key e x s : timers_wf x -> implements x s -> starts x !! i = None -> 0 < e ->
  let y := with_starts (<[i := Cancelled key e]> (starts x)) (with_tasks (cancel key (tasks x)) x) in
  starts_apart y -> steps_on y s.
Proof.
  intros Hwf Hi Hnone He y Hy. destruct (reset_steps key x s Hwf Hi) as (s' & Hs' & Hi' & Hwf'). destruct (cancel_wf key x Hwf) as [_ Hk].
  exists s'. split; [done|]. split.
  - destruct s' as [d a t]. eapply (implements_same _ y _ _ _ d) in Hi'; [exact Hi'|by rewrite (set_deadlines _ _ _ _ Hi')|done|]. intros j key' id' e'. cbn.
    rewrite lookup_insert_Some. split; [|intros Hj; right; split; [congruence|done]]. by intros [[_ [=]]|[_ ?]].
  - split; cbn [y tasks with_tasks with_starts starts resetting time].
    + intros key' id Hk'. destruct (wf_tracked _ Hwf' _ _ Hk') as (H1 & H2 & H3). split; [done|split; [done|]].
      intros j s0 [[_ <-]|[_ Hj]]%lookup_insert_Some; [|by eapply H3]. cbn. congruence.
    + intros id task Hl. destruct (wf_live _ Hwf' _ _ Hl) as (H1 & [H2|[H2|[j H2]]]); (split; [done|]); [by left|by right; left|].
      right. right. exists j. rewrite lookup_insert_ne; [done|]. intros <-. cbn in H2. congruence.
    + intros j key' id d [[_ [=]]|[_ Hj]]%lookup_insert_Some. destruct (wf_spawned _ Hwf' _ _ _ _ Hj) as (H1 & H2 & H3 & H4 & H5).
      do 4 (split; [done|]). intros j' k' d' [[_ [=]]|[_ Hj']]%lookup_insert_Some. by eapply H5.
    + intros j key' e' [[_ [= <- <-]]|[_ Hj]]%lookup_insert_Some; [done|by eapply (wf_cancelled x Hwf)].
    + apply (wf_resetting _ Hwf').
    + exact Hy.
Qed.

Lemma fresh_id x : timers_wf x -> live (tasks x) !! spawned (tasks x) = None /\ (spawned (tasks x) ∉ resetting x) /\
  (forall key, tracked (tasks x) !! key <> Some (spawned (tasks x))) /\
  forall i key d, starts x !! i <> Some (Spawned key (spawned (tasks x)) d).
Proof.
  intros Hwf. split; [destruct (live _ !! _) as [task|] eqn:Hl; [destruct (wf_live x Hwf _ _ Hl); lia|done]|].
  split; [intros [H _]%(wf_resetting x Hwf); lia|]. split; [intros key Hk; destruct (wf_tracked x Hwf _ _ Hk) as (_ & H & _); lia|].
  intros i key d Hi. destruct (wf_spawned x Hwf _ _ _ _ Hi) as [H _]. lia.
Qed.

Lemma spawned_steps i key e x s : timers_wf x -> implements x s -> starts x !! i = Some (Cancelled key e) ->
  let y := (let '(t, id) := spawn_reset key (time x + e) (tasks x) in
            with_starts (<[i := Spawned key id (time x + e)]> (starts x)) (with_tasks t x)) in
  starts_apart y -> steps_on y s.
Proof.
  intros Hwf Himp Hi y Hy. cbn in y. destruct (fresh_id x Hwf) as (Hfl & Hfr & Hft & Hfs).
  assert (Hno : forall j id d, starts x !! j <> Some (Spawned key id d)).
  { intros j id d Hj. assert (i = j) as <- by (by apply (wf_apart x Hwf _ _ _ _ Hi Hj)). congruence. }
  assert (Hann : announced s !! key = None).
  { destruct (announced s !! key) as [d|] eqn:E; [|done]. apply Himp in E as (j & id & Hj). by apply Hno in Hj. }
  destruct s as [d a t]. pose proof Himp as (Hd & Ht & Ha). cbn in Hd, Ht, Ha, Hann. subst t.
  eexists. split; [apply rtc_once, (deadline_announced d a (time x) key e); [by eapply (wf_cancelled x Hwf)|done]|]. split.
  - split; [|split; [done|]]; cbn.
    + rewrite Hd. apply map_eq. intros key'. rewrite deadlines_lookup, lookup_omap. destruct (tracked (tasks x) !! key') as [id'|] eqn:Hk; [|done].
      cbn. rewrite lookup_insert_ne; [done|]. intros E. apply (Hft key'). by rewrite E.
    + intros key' d'. rewrite lookup_insert_Some, Ha. split.
      * intros [[<- <-]|(Hne & j & id & Hj)]; [exists i, (spawned (tasks x)); apply lookup_insert_eq|].
        exists j, id. rewrite lookup_insert_ne; [done|]. congruence.
      * intros (j & id & [[_ [= <- _ <-]]|[Hne Hj]]%lookup_insert_Some); [by left|]. right. split; [|by exists j, id].
        intros <-. by eapply Hno.
  - split; cbn [y tasks with_tasks with_starts starts resetting time tracked live spawned].
    + intros key' id Hk'. destruct (wf_tracked x Hwf _ _ Hk') as (H1 & H2 & H3). split; [|split; [lia|]].
      * intros task [[<- _]|[_ Hl]]%lookup_insert_Some; [by destruct (Hft key')|by apply H1].
      * intros j s0 [[_ <-]|[_ Hj]]%lookup_insert_Some; [exact (H3 _ _ Hi)|by eapply H3].
    + intros id task [[<- <-]|[Hne Hl]]%lookup_insert_Some; [split; [lia|]; right; right; exists i; apply lookup_insert_eq|].
      destruct (wf_live x Hwf _ _ Hl) as (H1 & H2). split; [lia|]. destruct H2 as [H2|[H2|[j H2]]]; [by left|by right; left|].
      right. right. exists j. rewrite lookup_insert_ne; [done|]. congruence.
    + intros j key' id d' [[<- [= <- <- <-]]|[Hne Hj]]%lookup_insert_Some.
      * split; [lia|]. rewrite lookup_insert_eq. split; [by intros ? [= <-]|]. split; [done|]. split; [done|].
        intros j k' d2 [[<- _]|[_ Hj]]%lookup_insert_Some; [done|by apply Hfs in Hj].
      * destruct (wf_spawned x Hwf _ _ _ _ Hj) as (H1 & H2 & H3 & H4 & H5). split; [lia|]. rewrite lookup_insert_ne by (intros <-; lia).
        do 3 (split; [done|]). intros j' k' d2 [[<- [= _ <- _]]|[_ Hj']]%lookup_insert_Some; [lia|by eapply H5].
    + intros j key' e' [[_ [=]]|[_ Hj]]%lookup_insert_Some. by eapply (wf_cancelled x Hwf).
    + intros id Hr. destruct (wf_resetting x Hwf _ Hr) as [H1 H2]. split; [lia|].
      intros task [[<- _]|[_ Hl]]%lookup_insert_Some; [lia|by apply H2].
    + exact Hy.
Qed.

Lemma tracked_steps i key id d0 x s : timers_wf x -> implements x s -> starts x !! i = Some (Spawned key id d0) ->
  steps_on (with_starts (delete i (starts x)) (with_tasks (track key id (tasks x)) x)) s.
Proof.
  intros Hwf Himp Hi. destruct (wf_spawned x Hwf _ _ _ _ Hi) as (H1 & H2 & H3 & H4 & H5).
  assert (Hnone : tracked (tasks x) !! key = None).
  { destruct (tracked (tasks x) !! key) as [id'|] eqn:E; [|done]. destruct (wf_tracked x Hwf _ _ E) as (_ & _ & H). by destruct (H _ _ Hi). }
  destruct s as [d a t]. pose proof Himp as (Hd & Ht & Ha). cbn in Hd, Ht, Ha. subst d t.
  assert (Hset : deadline_step {| set := deadlines (tasks x); announced := a; clock := time x |}
    {| set := <[key := d0]> (deadlines (tasks x)); announced := delete key a; clock := time x |}).
  { apply deadline_set. apply Ha. by exists i, id. }
  assert (Hann : forall key' d', delete key a !! key' = Some d' <-> exists j id', delete i (starts x) !! j = Some (Spawned key' id' d')).
  { intros key' d'. rewrite lookup_delete_Some, Ha. split.
    - intros (Hne & j & id' & Hj). exists j, id'. rewrite lookup_delete_ne; [done|]. congruence.
    - intros (j & id' & [Hne Hj]%lookup_delete_Some). split; [|by exists j, id']. intros <-. apply Hne. by apply (wf_apart x Hwf _ _ _ _ Hi Hj). }
  assert (Hlook : forall key', deadlines (track key id (tasks x)) !! key' =
    if decide (key' = key) then expires <$> live (tasks x) !! id else deadlines (tasks x) !! key').
  { intros key'. rewrite !deadlines_lookup. cbn. case_decide as E; [subst; by rewrite lookup_insert_eq|by rewrite lookup_insert_ne]. }
  assert (Hwf' : timers_wf (with_starts (delete i (starts x)) (with_tasks (track key id (tasks x)) x))).
  { split; cbn [tasks with_tasks with_starts starts resetting time track tracked live spawned].
    - intros key' id' [[<- <-]|[Hne Hk']]%lookup_insert_Some.
      + split; [intros task Hl; by apply H2|]. split; [done|]. intros j s0 [Hne Hj]%lookup_delete_Some E. apply Hne.
        by apply (wf_apart x Hwf _ _ _ _ Hi Hj).
      + destruct (wf_tracked x Hwf _ _ Hk') as (Q1 & Q2 & Q3). do 2 (split; [done|]). intros j s0 [_ Hj]%lookup_delete_Some. by eapply Q3.
    - intros id' task Hl. destruct (wf_live x Hwf _ _ Hl) as (Q1 & [Q2|[Q2|[j Q2]]]); (split; [done|]); [by left|right; left..|].
      + rewrite lookup_insert_ne; [done|]. intros E. rewrite <- E in Q2. congruence.
      + destruct (decide (i = j)) as [<-|Hne]; [|right; right; exists j; by rewrite lookup_delete_ne].
        rewrite Hi in Q2. injection Q2 as -> -> _. right. left. apply lookup_insert_eq.
    - intros j key' id' d' [Hne Hj]%lookup_delete_Some. destruct (wf_spawned x Hwf _ _ _ _ Hj) as (Q1 & Q2 & Q3 & Q4 & Q5).
      do 3 (split; [done|]). split; [|intros j' k' d2 [_ Hj']%lookup_delete_Some; by eapply Q5].
      intros k' [[_ <-]|[_ Hk']]%lookup_insert_Some; [apply Hne; by eapply H5|by eapply Q4].
    - intros j key' e' [_ Hj]%lookup_delete_Some. by eapply (wf_cancelled x Hwf).
    - apply (wf_resetting x Hwf).
    - intros j j' s1 s2; cbn; intros [_ Hj]%lookup_delete_Some [_ Hj']%lookup_delete_Some. by apply (wf_apart x Hwf). }
  destruct (live (tasks x) !! id) as [task|] eqn:Hl.
  - eexists. split; [apply rtc_once, Hset|]. split; [|done]. split; [|by split]. cbn. apply map_eq. intros key'. rewrite Hlook.
    destruct (H2 _ eq_refl) as [_ <-]. case_decide as E; [subst; by rewrite lookup_insert_eq|by rewrite lookup_insert_ne].
  - eexists. split; [eapply rtc_l; [apply Hset|]; apply rtc_once, (deadline_expires _ _ _ key d0); [apply lookup_insert_eq|by apply H3]|].
    split; [|done]. split; [|by split]. cbn. rewrite delete_insert_eq. apply map_eq. intros key'. rewrite Hlook.
    case_decide as E; [subst; by rewrite lookup_delete_eq|by rewrite lookup_delete_ne].
Qed.

Lemma dropped_steps i x s : timers_wf x -> implements x s ->
  (forall key id d, starts x !! i = Some (Spawned key id d) -> tracked (tasks x) !! key = Some id) ->
  steps_on (with_starts (delete i (starts x)) x) s.
Proof.
  intros Hwf Himp Hdrop. assert (Hno : forall key id d, starts x !! i <> Some (Spawned key id d)).
  { intros key id d Hi. destruct (wf_spawned x Hwf _ _ _ _ Hi) as (_ & _ & _ & H & _). by apply (H key), (Hdrop _ _ d). }
  assert (Hkeep : forall j key id d, delete i (starts x) !! j = Some (Spawned key id d) <-> starts x !! j = Some (Spawned key id d)).
  { intros j key id d. rewrite lookup_delete_Some. split; [by intros [_ ?]|]. intros Hj. split; [|done]. intros <-. by apply Hno in Hj. }
  exists s. split; [apply rtc_refl|]. split; [destruct s as [d a t]; eapply (implements_same x) in Himp; [exact Himp|by rewrite (set_deadlines _ _ _ _ Himp)|done|exact Hkeep]|].
  split; cbn [tasks with_starts starts resetting time].
  - intros key id Hk. destruct (wf_tracked x Hwf _ _ Hk) as (H1 & H2 & H3). do 2 (split; [done|]). intros j s0 [_ Hj]%lookup_delete_Some. by eapply H3.
  - intros id task Hl. destruct (wf_live x Hwf _ _ Hl) as (H1 & [H2|[H2|[j H2]]]); (split; [done|]); [by left|by right; left|].
    right. right. exists j. by apply Hkeep.
  - intros j key id d Hj%Hkeep. destruct (wf_spawned x Hwf _ _ _ _ Hj) as (H1 & H2 & H3 & H4 & H5). do 4 (split; [done|]).
    intros j' k' d' Hj'%Hkeep. by eapply H5.
  - intros j key e [_ Hj]%lookup_delete_Some. by eapply (wf_cancelled x Hwf).
  - apply (wf_resetting x Hwf).
  - intros j j' s1 s2; cbn; intros [_ Hj]%lookup_delete_Some [_ Hj']%lookup_delete_Some. by apply (wf_apart x Hwf).
Qed.

Lemma wakes_steps id task x s : timers_wf x -> implements x s -> live (tasks x) !! id = Some task -> id ∉ resetting x -> expires task <= time x ->
  steps_on (with_resetting ({[id]} ∪ resetting x) (with_tasks (leave_table (task_of task) (tasks x)) x)) s.
Proof.
  intros Hwf Himp Hl Hr Hd. set (key := task_of task).
  assert (Hsub : forall key' id', delete key (tracked (tasks x)) !! key' = Some id' -> tracked (tasks x) !! key' = Some id') by (intros ? ? [_ ?]%lookup_delete_Some; done).
  assert (Hwf' : timers_wf (with_resetting ({[id]} ∪ resetting x) (with_tasks (leave_table key (tasks x)) x))).
  { split; cbn [tasks with_tasks with_resetting starts resetting time leave_table tracked live spawned].
    - intros key' id' Hk%Hsub. by apply (wf_tracked x Hwf).
    - intros id' task' Hl'. destruct (wf_live x Hwf _ _ Hl') as (H1 & H2). split; [done|].
      destruct (decide (id' = id)) as [->|Hne]; [left; set_solver|]. destruct H2 as [H2|[H2|H2]]; [left; set_solver| |by right; right].
      destruct (decide (task_of task' = key)) as [E|Hk]; [|right; left; by rewrite lookup_delete_ne].
      destruct (wf_live x Hwf _ _ Hl) as (_ & [H3|[H3|[j H3]]]); [done| |].
      + fold key in H3. rewrite E in H2. congruence.
      + rewrite E in H2. destruct (wf_tracked x Hwf _ _ H2) as (_ & _ & H4). by destruct (H4 _ _ H3).
    - intros j key' id' d Hj. destruct (wf_spawned x Hwf _ _ _ _ Hj) as (H1 & H2 & H3 & H4 & H5). do 3 (split; [done|]). split; [|done].
      intros key2 Hk%Hsub. by eapply H4.
    - apply (wf_cancelled x Hwf).
    - intros id' [->%elem_of_singleton|Hr']%elem_of_union; [|by apply (wf_resetting x Hwf)]. destruct (wf_live x Hwf _ _ Hl) as [H _].
      split; [done|]. intros task' Hl'. congruence.
    - apply (wf_apart x Hwf). }
  assert (Hdl : deadlines (leave_table key (tasks x)) = delete key (deadlines (tasks x))) by (by apply deadlines_delete).
  destruct (wf_live x Hwf _ _ Hl) as (_ & [H3|[H3|[j H3]]]); [done| |]; fold key in H3.
  - destruct s as [d a t]. eexists. split; [|split; [|exact Hwf']].
    + apply rtc_once, (deadline_expires d a t key (expires task)); [by apply (due_deadline x _ key id _ Himp)|]. rewrite (clock_time _ _ _ _ Himp). done.
    + eapply (implements_same x _ _ _ _ (delete key d)) in Himp; [exact Himp| |done|done]. cbn [tasks with_tasks with_resetting]. rewrite Hdl. by rewrite (set_deadlines _ _ _ _ Himp).
  - exists s. split; [apply rtc_refl|]. split; [|done]. destruct s as [d a t].
    eapply (implements_same x _ _ _ _ d) in Himp; [exact Himp| |done|done]. cbn [tasks with_tasks with_resetting]. rewrite Hdl. rewrite (set_deadlines _ _ _ _ Himp). apply delete_id.
    rewrite deadlines_lookup. destruct (tracked (tasks x) !! key) as [id'|] eqn:E; [|done].
    destruct (wf_tracked x Hwf _ _ E) as (_ & _ & H4). by destruct (H4 _ _ H3).
Qed.

Lemma ends_steps id x s : timers_wf x -> implements x s -> id ∈ resetting x -> steps_on (with_tasks (end_task id (tasks x)) x) s.
Proof.
  intros Hwf Himp Hr. destruct (wf_resetting x Hwf _ Hr) as [_ Hdue].
  assert (Hwf' : timers_wf (with_tasks (end_task id (tasks x)) x)).
  { split; cbn [tasks with_tasks starts resetting time end_task tracked live spawned].
    - intros key id' Hk. destruct (wf_tracked x Hwf _ _ Hk) as (H1 & H2 & H3). split; [|done]. intros task [_ Hl]%lookup_delete_Some. by apply H1.
    - intros id' task [_ Hl]%lookup_delete_Some. by apply (wf_live x Hwf).
    - intros j key id' d Hj. destruct (wf_spawned x Hwf _ _ _ _ Hj) as (H1 & H2 & H3 & H4 & H5). split; [done|].
      split; [intros task [_ Hl]%lookup_delete_Some; by apply H2|]. split; [|done]. intros [<-|Hn]%lookup_delete_None; [|by apply H3].
      destruct (live (tasks x) !! id) as [task|] eqn:Hl; [|by apply H3]. destruct (H2 _ eq_refl) as [_ <-]. by apply Hdue.
    - apply (wf_cancelled x Hwf).
    - intros id' Hr'. destruct (wf_resetting x Hwf _ Hr') as [H1 H2]. split; [done|]. intros task [_ Hl]%lookup_delete_Some. by apply H2.
    - apply (wf_apart x Hwf). }
  assert (Hlook : forall key, deadlines (end_task id (tasks x)) !! key =
    if decide (tracked (tasks x) !! key = Some id) then None else deadlines (tasks x) !! key).
  { intros key. rewrite !deadlines_lookup. cbn. destruct (tracked (tasks x) !! key) as [id'|]; [|done]. cbn.
    case_decide as E; [injection E as ->; by rewrite lookup_delete_eq|]. rewrite lookup_delete_ne; [done|congruence]. }
  destruct (live (tasks x) !! id) as [task|] eqn:Hl; [destruct (decide (tracked (tasks x) !! task_of task = Some id)) as [Hk|Hk]|].
  - destruct s as [d a t]. eexists. split; [|split; [|exact Hwf']].
    + apply rtc_once, (deadline_expires d a t (task_of task) (expires task)); [by apply (due_deadline x _ _ id _ Himp)|].
      rewrite (clock_time _ _ _ _ Himp). by apply Hdue.
    + eapply (implements_same x _ _ _ _ (delete (task_of task) d)) in Himp; [exact Himp| |done|done]. cbn. apply map_eq. intros key. rewrite Hlook.
      rewrite (set_deadlines _ _ _ _ Himp). case_decide as E; [|rewrite lookup_delete_ne; [done|congruence]].
      destruct (wf_tracked x Hwf _ _ E) as [H1 _]. rewrite <- (H1 _ Hl). by rewrite lookup_delete_eq.
  - exists s. split; [apply rtc_refl|]. split; [|done]. destruct s as [d a t].
    eapply (implements_same x _ _ _ _ d) in Himp; [exact Himp| |done|done]. cbn. rewrite (set_deadlines _ _ _ _ Himp). apply map_eq. intros key. rewrite Hlook.
    case_decide as E; [|done]. destruct (wf_tracked x Hwf _ _ E) as [H1 _]. by rewrite (H1 _ Hl) in Hk.
  - exists s. split; [apply rtc_refl|]. split; [|done]. destruct s as [d a t].
    eapply (implements_same x _ _ _ _ d) in Himp; [exact Himp| |done|done]. cbn. rewrite (set_deadlines _ _ _ _ Himp). apply map_eq. intros key. rewrite Hlook.
    case_decide as E; [|done]. rewrite deadlines_lookup, E. cbn. by rewrite Hl.
Qed.

Lemma shutdown_steps x s : timers_wf x -> implements x s -> steps_on (with_tasks (shutdown_tasks (tasks x)) x) s.
Proof.
  intros Hwf Himp. destruct s as [d a t]. eexists. split; [apply rtc_once, deadline_shutdown|]. split.
  - eapply (implements_same x _ _ _ _ ∅) in Himp; [exact Himp| |done|done]. apply map_eq. intros key. rewrite deadlines_lookup. cbn. by rewrite !lookup_empty.
  - assert (Hsub : forall id task, live (shutdown_tasks (tasks x)) !! id = Some task -> live (tasks x) !! id = Some task)
      by (intros id task [? _]%map_lookup_filter_Some; done).
    split; cbn [tasks with_tasks starts resetting time].
    + intros key id Hk. cbn in Hk. by rewrite lookup_empty in Hk.
    + intros id task Hl. destruct (wf_live x Hwf _ _ (Hsub _ _ Hl)) as (H1 & [H2|[H2|H2]]); (split; [done|]); [by left| |by right; right].
      apply map_lookup_filter_Some in Hl as [_ Hl]. destruct Hl. apply list_elem_of_fmap. exists (task_of task, id). split; [done|].
      by apply elem_of_map_to_list.
    + intros j key id d0 Hj. destruct (wf_spawned x Hwf _ _ _ _ Hj) as (H1 & H2 & H3 & H4 & H5). split; [done|].
      split; [intros task Hl; by apply H2, Hsub|]. split; [|split; [|done]].
      * intros Hn. apply H3. destruct (live (tasks x) !! id) as [task|] eqn:Hl; [|done].
        cbn in Hn. apply map_lookup_filter_None in Hn as [Hn|Hn]; [congruence|]. destruct (Hn task Hl). cbn. intros Hin.
        apply list_elem_of_fmap in Hin as ([key' id'] & -> & Hk). apply elem_of_map_to_list in Hk. by destruct (H4 key').
      * intros key'. cbn. by rewrite lookup_empty.
    + apply (wf_cancelled x Hwf).
    + intros id Hr. destruct (wf_resetting x Hwf _ Hr) as [H1 H2]. split; [done|]. intros task Hl. by apply H2, Hsub.
    + apply (wf_apart x Hwf).
Qed.

Lemma time_steps t x s : timers_wf x -> implements x s -> time x <= t ->
  steps_on {| tasks := tasks x; starts := starts x; resetting := resetting x; time := t |} s.
Proof.
  intros Hwf Himp Ht. destruct s as [d a t0]. destruct Himp as (Hd & Hc & Ha). cbn in Hd, Hc. subst d t0.
  eexists. split; [by apply rtc_once, (deadline_time _ _ _ t)|]. split; [by split|]. split; cbn [tasks starts resetting time].
  - apply (wf_tracked x Hwf).
  - apply (wf_live x Hwf).
  - intros j key id d0 Hj. destruct (wf_spawned x Hwf _ _ _ _ Hj) as (H1 & H2 & H3 & H4). do 2 (split; [done|]). split; [|done]. intros Hn%H3. lia.
  - apply (wf_cancelled x Hwf).
  - intros id Hr. destruct (wf_resetting x Hwf _ Hr) as [H1 H2]. split; [done|]. intros task Hl%H2. lia.
  - apply (wf_apart x Hwf).
Qed.

Lemma orderly_steps x y s : orderly_step x y -> timers_wf x -> implements x s -> steps_on y s.
Proof.
  intros (Hs & Hy & Hdrop) Hwf Himp. destruct Hs.
  - by apply cancelled_steps.
  - by apply spawned_steps.
  - by eapply tracked_steps.
  - apply dropped_steps; [done..|]. intros key id d Hi. by apply (Hdrop i key id d Hi), lookup_delete_eq.
  - by apply reset_steps.
  - by apply wakes_steps.
  - by apply ends_steps.
  - by apply shutdown_steps.
  - by apply time_steps.
Qed.
End tables.

(** ** Tasks that are due *)

Section worlds.
Context {ext : Externals} {M : Type} `{!UdsTransport M} (convention : DatabaseNamingConvention).
Implicit Types w : World (M := M).

(** A task that is due goes back to the default and is gone. *)
Lemma expire_effect id task w : tracked (reset_tasks w) !! task_of task = Some id -> live (reset_tasks w) !! id = Some task -> expires task <= now w ->
  reset_tasks (expire convention id w).1 = cancel (task_of task) (reset_tasks w) /\ now (expire convention id w).1 = now w /\
  exists w0, transport w0 = transport w /\ transport (expire convention id w).1 =
    match (task_of task).1 with
    | Session => transport (reset_ecu_session convention (task_of task).2 VoidPlugin w0).1
    | SecurityAccessReset => transport (reset_ecu_security_access convention (task_of task).2 VoidPlugin w0).1
    end.
Proof.
  intros Hk Hl Hd%Z.leb_le. unfold expire. rewrite Hl, Hd.
  destruct (task_of task) as [kind n]. set (w0 := {| transport := _; reset_tasks := _; now := _ |}).
  assert (Hc : cancel (kind, n) (reset_tasks w0) = reset_tasks w0) by (unfold cancel, w0; cbn; by rewrite lookup_delete_eq).
  assert (Hcw : cancel (kind, n) (reset_tasks w)
    = {| tracked := tracked (reset_tasks w0); live := delete id (live (reset_tasks w0)); spawned := spawned (reset_tasks w0) |})
    by (unfold cancel; by rewrite Hk).
  rewrite Hcw. clear Hcw. destruct kind.
  - destruct (reset_session_tasks convention n VoidPlugin w0) as [Hn Ht]. rewrite Hc in Ht.
    destruct (reset_ecu_session convention n VoidPlugin w0) as [w1 r] eqn:E; cbn [fst] in *.
    cbn. rewrite Ht, Hn. split; [done|]. split; [done|]. exists w0. by rewrite E.
  - destruct (reset_security_tasks convention n VoidPlugin w0) as [Hn Ht]. rewrite Hc in Ht.
    destruct (reset_ecu_security_access convention n VoidPlugin w0) as [w1 r] eqn:E; cbn [fst] in *.
    cbn. rewrite Ht, Hn. split; [done|]. split; [done|]. exists w0. by rewrite E.
Qed.

(** C25: the reset tasks implement one deadline for each ECU and kind of access,
    where no two starts for one ECU and kind are under way at once and none is
    dropped between spawning its task and entering it.  In whatever order the
    sections of starts, resets, shutdowns and the tasks themselves come: a start
    with an expiration takes the deadline away and later sets the one it
    announced, a reset or its coming takes it away, a shutdown all of them, and
    nothing else touches it; every task that runs is the one of a deadline that
    is set or announced, or woke up when it was due; and a deadline that has come
    has a task, which goes back to the default and ends, if it has not begun to. *)
Theorem reset_tasks_refine x y s : timers_wf x -> implements x s -> rtc orderly_step x y ->
  exists s', rtc deadline_step s s' /\ implements y s' /\
  (forall id task, live (tasks y) !! id = Some task ->
     (id ∈ resetting y /\ expires task <= time y) \/ set s' !! task_of task = Some (expires task) \/
     announced s' !! task_of task = Some (expires task)) /\
  (forall kind n t w, set s' !! (kind, n) = Some t -> t <= time y -> reset_tasks w = tasks y -> now w = time y ->
     exists id task, tracked (tasks y) !! (kind, n) = Some id /\ live (tasks y) !! id = Some task /\ expires task = t /\
     (id ∉ resetting y -> exists w0, transport w0 = transport w /\
       let after := (expire convention id w).1 in
       deadlines (reset_tasks after) = delete (kind, n) (set s') /\
       live (reset_tasks after) !! id = None /\
       transport after = match kind with
                         | Session => transport (reset_ecu_session convention n VoidPlugin w0).1
                         | SecurityAccessReset => transport (reset_ecu_security_access convention n VoidPlugin w0).1
                         end)).
Proof.
  intros Hwf Himp Hsteps.
  assert (Hinv : exists s', rtc deadline_step s s' /\ implements y s' /\ timers_wf y).
  { revert s Himp Hwf. induction Hsteps as [x|x1 x2 x3 Hs _ IH]; intros s Himp Hwf; [by exists s|].
    destruct (orderly_steps _ _ s Hs Hwf Himp) as (s2 & Hs2 & Himp2 & Hwf2). destruct (IH s2 Himp2 Hwf2) as (s3 & Hs3 & ?).
    exists s3. split; [by etrans|done]. }
  clear Hwf Himp Hsteps. destruct Hinv as (s' & Hs' & Himp & Hwf). exists s'. split; [done|]. split; [done|]. split.
  - intros id task Hl. destruct (wf_live y Hwf _ _ Hl) as (_ & [H|[H|[i H]]]).
    + left. split; [done|]. destruct (wf_resetting y Hwf _ H) as [_ Hdue]. by apply Hdue.
    + right. left. by eapply due_deadline.
    + right. right. apply Himp. by exists i, id.
  - intros kind n t w Hdl Ht Hw Hnow. pose proof Himp as (Hd & _). rewrite Hd, deadlines_lookup in Hdl.
    destruct (tracked _ !! _) as [id|] eqn:Hk; [|done]. cbn in Hdl. destruct (live _ !! id) as [task|] eqn:Hl; [|done]. injection Hdl as <-.
    destruct (wf_tracked y Hwf _ _ Hk) as (Hkey & _). specialize (Hkey _ Hl). exists id, task. do 3 (split; [done|]). intros _.
    assert (Hex := expire_effect id task w). rewrite Hw, Hkey, Hnow in Hex. destruct (Hex Hk Hl Ht) as (Htasks & _ & w0 & Hw0 & Htr).
    exists w0. split; [done|]. cbv zeta. rewrite Htasks, Hd. split; [by apply cancel_deadlines|]. split; [|exact Htr].
    unfold cancel. rewrite Hk. apply lookup_delete_eq.
Qed.
End worlds.

(** A start that is not interrupted, as steps. *)
Lemma start_alone n e kind i x : starts x !! i = None -> starts_apart x -> (forall j s, starts x !! j = Some s -> key_of s <> (kind, n)) -> 0 < e ->
  rtc orderly_step x (with_tasks (start_reset_task n (Some e) kind (time x) (tasks x)) x).
Proof.
  intros Hi Ha Hk He. unfold start_reset_task. rewrite (proj2 (Z.ltb_lt 0 e)) by done.
  assert (Hapart : forall s, key_of s = (kind, n) -> forall y, starts y = <[i := s]> (starts x) -> starts_apart y).
  { intros s Hs y Hy j j' s1 s2. rewrite Hy. intros [[<- <-]|[? H1]]%lookup_insert_Some [[<- <-]|[? H2]]%lookup_insert_Some E; try done.
    - rewrite Hs in E. by destruct (Hk _ _ H2).
    - rewrite Hs in E. by destruct (Hk _ _ H1).
    - by apply (Ha _ _ _ _ H1 H2). }
  eapply rtc_l; [split; [by apply (start_cancels x i (kind, n) e)|]|].
  { split; [by apply (Hapart (Cancelled (kind, n) e))|]. intros j key id d Hj. cbn. rewrite lookup_insert_ne; congruence. }
  eapply rtc_l; [split; [apply (start_spawns _ i (kind, n) e), lookup_insert_eq|]|].
  { split; [apply (Hapart (Spawned (kind, n) (spawned (cancel (kind, n) (tasks x))) (time x + e))); [done|cbn; apply insert_insert_eq]|]. intros j key id d. cbn. intros [[_ [=]]|[? Hj]]%lookup_insert_Some.
    rewrite !lookup_insert_ne by done. congruence. }
  eapply rtc_l; [split; [eapply (start_tracks _ i), lookup_insert_eq|]|].
  { cbn. rewrite !delete_insert_eq. split.
    - intros j j' s1 s2. cbn. rewrite !delete_id by done. apply Ha.
    - intros j key id d. cbn. intros [[<- [= <- <- <-]]|[? Hj]]%lookup_insert_Some; [by rewrite lookup_insert_eq|].
      rewrite !lookup_insert_ne in Hj by done. rewrite delete_id by done. congruence. }
  cbn. rewrite !delete_insert_eq, delete_id by done. destruct x. cbn. apply rtc_refl.
Qed.

(** ** Security access *)

(** Going back to the default level asks for a seed of it and sends no key. *)
Lemma security_reset_sends_no_key {ext : Externals} {M : Type} `{!UdsTransport M} (convention : DatabaseNamingConvention)
    n p (w : World (M := M)) k d c :
  ecu_kernel (transport w) n = Some k -> default_security_access convention (manager k) = Ok d ->
  security_access (manager k) = Ok c -> c <> d ->
  (exists seed, lookup_security_access_change convention (manager k) d false = Ok (RequestSeed seed) /\
    transport (reset_ecu_security_access convention n p w).1 = (send (transport w) n seed p None false).1) \/
  (exists e, lookup_security_access_change convention (manager k) d false = Err e /\
    (reset_ecu_security_access convention n p w).2 = Err (Failed e) /\
    transport (reset_ecu_security_access convention n p w).1 = transport w).
Proof.
  intros Hk Hd Hc Hne.
  assert (Hno : forall dc, lookup_security_access_change convention (manager k) d false <> Ok (SendKey dc)).
  { intros dc. unfold lookup_security_access_change. rewrite Hc. cbn. destruct (lookup_services_by_sid _ _); [|done]. cbn.
    destruct (ok_or _ _); [|done]. cbn. by destruct (service_try_into _). }
  unfold reset_ecu_security_access, set_ecu_security_access, mbind, op_bind, on_tasks, pure, on_transport, ecu, reads, uds_ecu_db.
  cbn [transport]. rewrite Hk. cbn [ok_or fallible]. rewrite Hd, Hc. cbn [fallible].
  rewrite (proj2 (String.eqb_neq c d) Hne). change (bool_decide (is_Some None)) with false. cbn [transport]. rewrite Hk. cbn [ok_or fallible].
  destruct (lookup_security_access_change convention (manager k) d false) as [[seed|dc]|e]; cbn [fallible].
  - left. exists seed. split; [done|]. cbn [transport]. unfold sends. destruct (send _ _ _ _ _ _) as [m [r|e]]; cbn; [|done].
    by destruct (positive r).
  - by destruct (Hno dc).
  - right. by exists e.
Qed.

(** ** An ECU whose session expires *)

Definition default_session_service : DiagService :=
  comm_service (comm "Default_Session" [to_default] []) [const_param "sid" 0 8 "16"; const_param "sub" 1 8 "1"].
Definition seed_service : DiagService :=
  comm_service (comm "Request_Seed_Level_01" [] []) [const_param "sid" 0 8 "39"; const_param "sub" 1 8 "1"].

Definition timed_fleet (states : list (Z * string)) : Fleet :=
  {| ecus := {[ "ecu"%string := {| manager := ecu_in [session_service extended_session; default_session_service; seed_service] states;
                                   file_groups := None; db_cache := ∅ |} ]};
     requests := 0; reported := [] |}.

#[local] Instance timed_transport : UdsTransport Fleet :=
  fleet_transport no_floats false no_case DatabaseNamingConvention_default ex_setup (fun _ k => k)
    (fun i => answer_with (match i with O => [80; 3; 0] | _ => [80; 1; 0] end)).

Definition no_tasks : ResetTasks := {| tracked := ∅; live := ∅; spawned := 0 |}.
Definition timed_world (states : list (Z * string)) : World (M := Fleet) :=
  {| transport := timed_fleet states; reset_tasks := no_tasks; now := 5 |}.

Definition no_timers : Timers := {| tasks := no_tasks; starts := ∅; resetting := ∅; time := 5 |}.

Lemma no_timers_wf : timers_wf no_timers.
Proof. split; cbn; [intros ? ?|intros ? ?|intros ? ? ? ?|intros ? ? ?|intros ?|intros ? ? ? ?]; try set_solver; by rewrite ?lookup_empty. Qed.

Definition ecu_session (w : World (M := Fleet)) : option (dresult string) :=
  (fun k => session (manager k)) <$> ecus (transport w) !! "ecu"%string.

(** The extended session for ten units of time, then the time. *)
Definition extended_world : World (M := Fleet) :=
  (set_ecu_session DatabaseNamingConvention_default "ecu" "Extended" VoidPlugin (Some 10) (timed_world in_default)).1.
Definition due_world : World (M := Fleet) :=
  {| transport := transport extended_world; reset_tasks := reset_tasks extended_world; now := 15 |}.

(** Reset tasks of the session that was set, when it is due. *)
Definition due_timers : Timers := {| tasks := reset_tasks due_world; starts := ∅; resetting := ∅; time := 15 |}.

Lemma due_reachable : rtc orderly_step no_timers due_timers.
Proof.
  etrans; [apply (start_alone "ecu" 10 Session 0); [done|intros ? ? ? ? Hi; discriminate Hi|intros ? ? Hi; discriminate Hi|lia]|].
  apply rtc_once. split; [|split; [intros ? ? ? ? Hi; discriminate Hi|intros ? ? ? ? Hi; discriminate Hi]].
  pose (t := start_reset_task "ecu" (Some 10) Session 5 no_tasks).
  assert (E : due_timers = {| tasks := t; starts := ∅; resetting := ∅; time := 15 |}) by (unfold due_timers; f_equal; vm_compute; reflexivity).
  rewrite E. apply (time_passes (with_tasks t no_timers) 15). cbn. lia.
Qed.

Lemma reset_tasks_refine_witness :
  exists s', implements due_timers s' /\ set s' = {[ (Session, "ecu"%string) := 15 ]} /\
  exists id, let after := (expire DatabaseNamingConvention_default id due_world).1 in
    deadlines (reset_tasks after) = ∅ /\ ecu_session (expire DatabaseNamingConvention_default 0 due_world).1 = Some (Ok "Default"%string).
Proof.
  assert (Hdl : deadlines (tasks due_timers) = {[ (Session, "ecu"%string) := 15 ]}) by (vm_compute; reflexivity).
  destruct (reset_tasks_refine DatabaseNamingConvention_default no_timers due_timers {| set := ∅; announced := ∅; clock := 5 |}
    no_timers_wf) as (s' & _ & Himp & _ & Hdue).
  - split; [reflexivity|]. split; [reflexivity|]. intros key d. cbn. rewrite lookup_empty. split; [done|]. intros (i & id & Hi). by rewrite lookup_empty in Hi.
  - exact due_reachable.
  - exists s'. split; [exact Himp|]. assert (Hs : set s' = {[ (Session, "ecu"%string) := 15 ]}) by (rewrite <- Hdl; apply Himp). split; [exact Hs|].
    destruct (Hdue Session "ecu"%string 15 due_world) as (id & task & _ & _ & _ & Hrun);
      [by rewrite Hs, lookup_singleton_eq|cbn; lia|reflexivity|reflexivity|].
    destruct Hrun as (w0 & _ & Hafter & _); [by intros []%not_elem_of_empty|].
    exists id. cbv zeta in Hafter |- *. rewrite Hafter, Hs. split; [apply delete_singleton_eq|vm_compute; reflexivity].
Defined.

(** An access that was given for some time is kept: no seed is for the default. *)
Example security_is_not_relocked :
  let w := timed_world [(SESSION_CONTROL, "Extended"%string); (SECURITY_ACCESS, "Level_01"%string)] in
  (reset_ecu_security_access DatabaseNamingConvention_default "ecu" VoidPlugin w).2 = Err (Failed NotFound).
Proof. vm_compute. reflexivity. Qed.

(** A change without an expiration keeps the deadline of the one before. *)
Example old_deadline_stays now n : 
  deadlines (start_reset_task n None Session now (start_reset_task n (Some 10) Session now no_tasks)) = {[ (Session, n) := now + 10 ]}.
Proof.
  apply map_eq. intros key. rewrite deadlines_lookup. cbn. destruct (decide (key = (Session, n))) as [->|Hne].
  - by rewrite lookup_insert_eq, lookup_singleton_eq.
  - by rewrite lookup_insert_ne, lookup_singleton_ne.
Qed.

(** Two starts that overlap: both tasks run, one of them is in no table. *)
Example overlapping_starts :
  let key := (Session, "ecu"%string) in
  exists x, rtc timer_step no_timers x /\ starts x = ∅ /\
    expires <$> live (tasks x) !! 0%nat = Some 15 /\ expires <$> live (tasks x) !! 1%nat = Some 25 /\ tracked (tasks x) !! key = Some 1%nat.
Proof.
  intros key. eexists. split.
  - eapply rtc_l; [by apply (start_cancels no_timers 0 key 10)|]. eapply rtc_l; [by apply (start_cancels _ 1 key 20)|].
    eapply rtc_l; [eapply (start_spawns _ 0); reflexivity|]. eapply rtc_l; [eapply (start_spawns _ 1); reflexivity|].
    eapply rtc_l; [eapply (start_tracks _ 0); reflexivity|]. eapply rtc_l; [eapply (start_tracks _ 1); reflexivity|]. apply rtc_refl.
  - vm_compute. repeat split.
Qed.
