(* ===== verification/DataTransfer.v ===== *)
(** * Transferring a file to an ECU

    cda-comm-uds/src/data_transfer.rs: a task reads a part of a file block by
    block and sends each block with the service TransferData.  The table of
    transfers is shared by the tasks, by the handlers that start, show and end
    a transfer, and by the runtime update, which asks whether one is active.
    A task is a state machine whose steps are the points at which another task
    can run. *)

From stdpp Require Import strings gmap.
From stdpp Require Import list.
From S2P Require Import Prelude Bytes Errors Text Ieee754 Json StateCharts Database DiagLayers Uds EcuState VariantDetection SampleDatabase Naming ServiceLookup StateTransitions ResponseDecode PayloadEncode UdsRequest UdsManager.

Local Open Scope Z_scope.
Set Warnings "-register-all".

(** ** Data *)

Inductive DataTransferStatus : Type := Running | Aborted | Finished | Queued.

(** The reason of an abort; [FailedToReadData] is the text of a failed read and
    of a failed request. *)
Inductive DataTransferError : Type :=
  | RemainingBytesOverflowed
  | BufferSliceOutOfBounds
  | FailedToReadData (e : option DiagServiceError).

Record DataTransferMetaData : Type := {
  acknowledged_bytes : Z;
  blocksize : Z;
  next_block_sequence_counter : Z;
  transfer_id : string;
  file_id : string;
  transfer_status : DataTransferStatus;
  transfer_error : option (list DataTransferError)
}.

(** [signalled]: the watch channel holds a value its receiver has not seen.
    The sender belongs to the task. *)
Record EcuDataTransfer : Type := {
  meta_data : DataTransferMetaData;
  signalled : bool;
  task : nat
}.

(** The local variables of [transfer_ecu_data]; [reader] is what can still be
    read, up to the end of the file or an error. *)
Record Block : Type := {
  reader : list Z;
  block_size : Z;
  remaining_bytes : Z;
  block_counter : Z
}.

(** Where a task is: before it has the table, before a block, after a request
    whose answer it has to note, or about to give up. *)
Inductive Phase : Type :=
  | Starting (reader : list Z) (length : Z)
  | Sending (b : Block)
  | Acknowledging (b : Block) (bytes_to_read : Z)
  | Aborting (reason : DataTransferError).

Record TransferTask : Type := {
  ecu_of : string;
  request : ApiDiagComm;
  phase : Phase
}.

(** ** The task *)

Section transfers.
Context {ext : Externals} {M : Type} `{!UdsTransport M}.

(** [update_in_progress] is shared with the runtime update.  [waiting] is the
    task a handler waits for while it holds the mutex of the table. *)
Record Transfers : Type := {
  uds : M;
  data_transfers : gmap string EcuDataTransfer;
  running : gmap nat TransferTask;
  spawned : nat;
  update_in_progress : bool;
  waiting : option nat
}.

Definition with_uds (w : Transfers) (m : M) : Transfers :=
  {| uds := m; data_transfers := data_transfers w; running := running w; spawned := spawned w;
     update_in_progress := update_in_progress w; waiting := waiting w |}.
Definition with_transfers (w : Transfers) (t : gmap string EcuDataTransfer) : Transfers :=
  {| uds := uds w; data_transfers := t; running := running w; spawned := spawned w;
     update_in_progress := update_in_progress w; waiting := waiting w |}.
Definition with_running (w : Transfers) (r : gmap nat TransferTask) : Transfers :=
  {| uds := uds w; data_transfers := data_transfers w; running := r; spawned := spawned w;
     update_in_progress := update_in_progress w; waiting := waiting w |}.

Definition set_status (status : DataTransferStatus) (error : option (list DataTransferError)) (m : DataTransferMetaData)
    : DataTransferMetaData :=
  {| acknowledged_bytes := acknowledged_bytes m; blocksize := blocksize m;
     next_block_sequence_counter := next_block_sequence_counter m; transfer_id := transfer_id m; file_id := file_id m;
     transfer_status := status; transfer_error := error |}.

Definition on_meta (f : DataTransferMetaData -> DataTransferMetaData) (t : EcuDataTransfer) : EcuDataTransfer :=
  {| meta_data := f (meta_data t); signalled := signalled t; task := task t |}.

(** [status_sender.send(true)]: nobody hears it when the receiver was dropped. *)
Definition signal (id : nat) (t : EcuDataTransfer) : EcuDataTransfer :=
  if (task t =? id)%nat then {| meta_data := meta_data t; signalled := true; task := task t |} else t.

Definition ends (id : nat) (w : Transfers) : Transfers := with_running w (delete id (running w)).
Definition goes_to (id : nat) (t : TransferTask) (p : Phase) (w : Transfers) : Transfers :=
  with_running w (<[id := {| ecu_of := ecu_of t; request := request t; phase := p |}]> (running w)).

(** [set_transfer_aborted], then [break]. *)
Definition set_transfer_aborted (id : nat) (ecu_name : string) (reason : DataTransferError) (w : Transfers) : Transfers :=
  ends id (with_transfers w (alter (fun t => signal id (on_meta (set_status Aborted (Some [reason])) t)) ecu_name
                                   (data_transfers w))).

(** [usize::try_from]. *)
Definition usize_of_u64 (z : Z) : option Z := if z <=? USIZE_MAX then Some z else None.
(** [buffer.get_mut(..n)] of a buffer of [block_size] bytes. *)
Definition buffer_holds (b : Block) (n : Z) : bool := n <=? block_size b.
(** [read_exact]. *)
Definition read_exact (l : list Z) (n : Z) : option (list Z * list Z) :=
  if n <=? len l then Some (take (Z.to_nat n) l, drop (Z.to_nat n) l) else None.

(** From the top of the loop to the answer of the request: the next phase, or
    none when the task ends without another look at the table. *)
Definition send_block (ecu_name : string) (request : ApiDiagComm) (b : Block) (m : M) : M * option Phase :=
  if negb (0 <? remaining_bytes b) then (m, None)
  else
    match usize_of_u64 (remaining_bytes b) with
    | None => (m, Some (Aborting RemainingBytesOverflowed))
    | Some remaining_as_usize =>
        let bytes_to_read := Z.min (block_size b) remaining_as_usize in
        if negb (buffer_holds b bytes_to_read) then (m, Some (Aborting BufferSliceOutOfBounds))
        else
          match read_exact (reader b) bytes_to_read with
          | None => (m, Some (Aborting (FailedToReadData None)))
          | Some (chunk, rest) =>
              let '(m, result) := send m ecu_name request VoidPlugin (Some (Raw (block_counter b :: chunk))) true in
              (m, match result with
                  | Ok _ => Some (Acknowledging {| reader := rest; block_size := block_size b;
                                                   remaining_bytes := remaining_bytes b;
                                                   block_counter := block_counter b |} bytes_to_read)
                  | Err (Failed e) => Some (Aborting (FailedToReadData (Some e)))
                  | Err _ => None
                  end)
          end
    end.

(** [saturating_add] of u64, [wrapping_add] of u8. *)
Definition u64_sat_add (a b : Z) : Z := Z.min (a + b) U64_MAX.
Definition u8_wrapping_add (a b : Z) : Z := (a + b) mod 256.

Definition acknowledge (counter bytes_to_read : Z) (m : DataTransferMetaData) : DataTransferMetaData :=
  {| acknowledged_bytes := u64_sat_add (acknowledged_bytes m) bytes_to_read; blocksize := blocksize m;
     next_block_sequence_counter := counter; transfer_id := transfer_id m; file_id := file_id m;
     transfer_status := transfer_status m; transfer_error := transfer_error m |}.

(** Noting an answered block. *)
Definition acknowledge_block (id : nat) (t : TransferTask) (b : Block) (bytes_to_read : Z) (w : Transfers) : Transfers :=
  match data_transfers w !! ecu_of t with
  | None => ends id w
  | Some transfer =>
      let counter := u8_wrapping_add (block_counter b) 1 in
      let transfer := on_meta (acknowledge counter bytes_to_read) transfer in
      let remaining := sat_sub (remaining_bytes b) bytes_to_read in
      let transfer := if remaining =? 0
                      then signal id (on_meta (fun m => set_status Finished (transfer_error m) m) transfer) else transfer in
      let w := with_transfers w (<[ecu_of t := transfer]> (data_transfers w)) in
      if remaining =? 0 then ends id w
      else goes_to id t (Sending {| reader := reader b; block_size := block_size b; remaining_bytes := remaining;
                                    block_counter := counter |}) w
  end.

(** The phases that need the mutex of the table. *)
Definition needs_table (p : Phase) : bool := match p with Sending _ => false | _ => true end.

(** [transfer_ecu_data], a step at a time. *)
Definition task_step (id : nat) (w : Transfers) : Transfers :=
  match running w !! id with
  | None => w
  | Some t =>
      if needs_table (phase t) && bool_decide (is_Some (waiting w)) then w else
      match phase t with
      | Starting reader length =>
          match data_transfers w !! ecu_of t with
          | None => ends id w
          | Some transfer =>
              let m := meta_data transfer in
              goes_to id t (Sending {| reader := reader; block_size := blocksize m; remaining_bytes := length;
                                       block_counter := next_block_sequence_counter m |})
                (with_transfers w (<[ecu_of t := on_meta (fun m => set_status Running (transfer_error m) m) transfer]>
                                     (data_transfers w)))
          end
      | Sending b =>
          let '(m, p) := send_block (ecu_of t) (request t) b (uds w) in
          let w := with_uds w m in
          match p with Some p => goes_to id t p w | None => ends id w end
      | Acknowledging b bytes_to_read => acknowledge_block id t b bytes_to_read w
      | Aborting reason => set_transfer_aborted id (ecu_of t) reason w
      end
  end.

(** ** The handlers *)

Context (to_lowercase : string -> string) (convention : DatabaseNamingConvention).
(** The contents of the file with a name, where it can be opened. *)
Context (open_file : string -> option (list Z)).

Record FlashTransferStartParams : Type := {
  file_path : string;
  offset : Z;
  transfer_length : Z;
  transfer_meta_data : DataTransferMetaData
}.

Definition on_uds {A} (o : op M A) : op Transfers A := fun w => let '(m, r) := o (uds w) in (with_uds w m, r).

(** [ecu_flash_transfer_start] up to its second look at the table: the mutex is
    released after the first one. *)
Definition start_checks (ecu_name func_class_name : string) (security_plugin : DynamicPlugin)
    (parameters : FlashTransferStartParams) : op Transfers (list Z * ApiDiagComm) :=
  _ ← pure (if transfer_length parameters =? 0 then Err (Failed InvalidRequest) else Ok tt);
  _ ← reads (fun w => match data_transfers w !! ecu_name with Some _ => Err (Failed InvalidRequest) | None => Ok tt end);
  file ← pure (fallible (ok_or (open_file (file_path parameters)) InvalidRequest));
  _ ← pure (if len file <? u64_sat_add (offset parameters) (transfer_length parameters) then Err (Failed InvalidRequest) else Ok tt);
  k ← on_uds (ecu ecu_name);
  request ← pure (fallible (lookup_service_through_func_class (manager k) func_class_name TRANSFER_DATA));
  _ ← on_uds (on_ecu ecu_name (fun k => is_service_allowed convention to_lowercase k request security_plugin));
  mret (drop (Z.to_nat (offset parameters)) file, request).

(** The rest: it holds the mutex until the transfer is in the table. *)
Definition start_insert (ecu_name : string) (parameters : FlashTransferStartParams) (reader : list Z) (request : ApiDiagComm)
    : op Transfers unit := fun w =>
  if update_in_progress w then (w, Err (Failed InvalidRequest))
  else
    let id := spawned w in
    ({| uds := uds w;
        data_transfers := <[ecu_name := {| meta_data := transfer_meta_data parameters; signalled := false; task := id |}]>
                            (data_transfers w);
        running := <[id := {| ecu_of := ecu_name; request := request; phase := Starting reader (transfer_length parameters) |}]>
                     (running w);
        spawned := S id; update_in_progress := update_in_progress w; waiting := waiting w |}, Ok tt).

(** The identifier of the request only occurs in messages.  [None]: the handler
    waits for the task, and holds the mutex.  A task that
    has ended without a signal has dropped its sender. *)
Definition ecu_flash_transfer_exit (ecu_name : string) (w : Transfers) : Transfers * option (dresult unit) :=
  match data_transfers w !! ecu_name with
  | None => (w, Some (Err NotFound))
  | Some transfer =>
      match transfer_status (meta_data transfer) with
      | Aborted | Finished =>
          let w := with_transfers w (delete ecu_name (data_transfers w)) in
          if bool_decide (is_Some (running w !! task transfer)) then
            ({| uds := uds w; data_transfers := data_transfers w; running := running w; spawned := spawned w;
                update_in_progress := update_in_progress w; waiting := Some (task transfer) |}, None)
          else (w, Some (if signalled transfer then Ok tt else Err InvalidRequest))
      | _ => (w, Some (Err InvalidRequest))
      end
  end.

(** A waiting handler goes on when its task is gone. *)
Definition exit_resumes (w : Transfers) : Transfers :=
  match waiting w with
  | Some id =>
      if bool_decide (is_Some (running w !! id)) then w
      else {| uds := uds w; data_transfers := data_transfers w; running := running w; spawned := spawned w;
              update_in_progress := update_in_progress w; waiting := None |}
  | None => w
  end.

Definition ecu_flash_transfer_status (ecu_name : string) (w : Transfers) : dresult (list DataTransferMetaData) :=
  meta_data ← ok_or (meta_data <$> data_transfers w !! ecu_name) NotFound;
  Ok [meta_data].

Definition ecu_flash_transfer_status_id (ecu_name id : string) (w : Transfers) : dresult DataTransferMetaData :=
  transfers ← ecu_flash_transfer_status ecu_name w;
  ok_or (List.find (fun t => String.eqb (transfer_id t) id) transfers) NotFound.

(** [FlashTransferObserver::is_active]: a mutex that is held counts as active. *)
Definition is_active (w : Transfers) : bool :=
  bool_decide (is_Some (waiting w)) || negb (bool_decide (data_transfers w = ∅)).
End transfers.

(** ** What is delivered *)

(** The requests of [n] blocks of [data]. *)
Fixpoint blocks (n : nat) (size counter : Z) (data : list Z) : list (list Z) :=
  match n with
  | O => []
  | S n => (counter :: take (Z.to_nat size) data) :: blocks n size (u8_wrapping_add counter 1) (drop (Z.to_nat size) data)
  end.

Definition block_count (size length : Z) : nat := Z.to_nat (div_ceil length size).

Lemma block_count_step size r : 0 < size -> 0 < r -> block_count size r = S (block_count size (sat_sub r (Z.min size r))).
Proof.
  intros Hs Hr. unfold block_count. pose proof (div_ceil_pos r size Hs Hr). pose proof (div_ceil_spec r size Hs) as Hd.
  rewrite (div_ceil_unique (sat_sub r (Z.min size r)) size (div_ceil r size - 1)); [lia|done|].
  unfold sat_sub. destruct (Z.le_gt_cases r size); [assert (div_ceil r size = 1) as -> by nia|]; nia.
Qed.

Lemma blocks_data size c data : 0 < size -> concat (tail <$> blocks (block_count size (len data)) size c data) = data.
Proof.
  intros Hs. remember (block_count size (len data)) as n eqn:Hn. revert c data Hn.
  induction n as [|n IH]; intros c data Hn; (destruct (Z.le_gt_cases (len data) 0) as [H|H];
    [pose proof (len_nonneg data); assert (data = []) as -> by (apply len_zero; lia)|rewrite block_count_step in Hn by lia]).
  - done.
  - done.
  - unfold block_count in Hn. rewrite (div_ceil_unique _ _ 0) in Hn by (cbn; lia). done.
  - injection Hn as ->. cbn [blocks fmap list_fmap concat tail]. rewrite IH; [apply take_drop|]. f_equal. unfold sat_sub. rewrite len_drop. lia.
Qed.

Lemma block_counter_at n size c data i b : is_u8 c -> blocks n size c data !! i = Some b -> head b = Some ((c + Z.of_nat i) mod 256).
Proof.
  revert c data i. induction n as [|n IH]; intros c data i Hc Hb; [done|]. cbn in Hb. destruct i as [|i].
  - injection Hb as <-. cbn. rewrite Z.add_0_r, Z.mod_small by (unfold is_u8 in Hc; lia). done.
  - cbn in Hb. apply IH in Hb as ->.
    + f_equal. unfold u8_wrapping_add. rewrite Zplus_mod_idemp_l. f_equal. lia.
    + unfold u8_wrapping_add, is_u8. pose proof (Z.mod_pos_bound (c + 1) 256). lia.
Qed.

(** Every block but the last one is full. *)
Lemma blocks_full size n c data i b : 0 < size -> (i + 1 < n)%nat -> (Z.of_nat n - 1) * size <= len data ->
  blocks n size c data !! i = Some b -> len b = size + 1.
Proof.
  intros Hs. revert n c data. induction i as [|i IH]; intros [|n] c data Hi Hl Hb; try done; cbn in Hb.
  - injection Hb as <-. rewrite len_cons, len_take. nia.
  - apply IH in Hb; [done|lia|]. rewrite len_drop. nia.
Qed.

Section delivery.
Context {ext : Externals} {M : Type} `{!UdsTransport M}.
Implicit Types w : Transfers (M := M).

(** Blocks sent one after the other until one fails: how many were answered,
    and the failure. *)
Fixpoint send_blocks (ecu_name : string) (request : ApiDiagComm) (l : list (list Z)) (m : M) : M * nat * option failure :=
  match l with
  | [] => (m, O, None)
  | b :: l =>
      let '(m, result) := send m ecu_name request VoidPlugin (Some (Raw b)) true in
      match result with
      | Ok _ => let '(m, k, f) := send_blocks ecu_name request l m in (m, S k, f)
      | Err e => (m, O, Some e)
      end
  end.

(** What the table says after these blocks. *)
Definition note_block (e : EcuDataTransfer) (b : list Z) : EcuDataTransfer :=
  on_meta (acknowledge (u8_wrapping_add (default 0 (head b)) 1) (len b - 1)) e.
Definition note_end (id : nat) (f : option failure) (e : EcuDataTransfer) : EcuDataTransfer :=
  match f with
  | None => signal id (on_meta (fun m => set_status Finished (transfer_error m) m) e)
  | Some (Failed x) => signal id (on_meta (set_status Aborted (Some [FailedToReadData (Some x)])) e)
  | Some _ => e
  end.

Definition transferred (id : nat) (n : string) (m : M) (e : EcuDataTransfer) w : Transfers (M := M) :=
  {| uds := m; data_transfers := <[n := e]> (data_transfers w); running := delete id (running w); spawned := spawned w;
     update_in_progress := update_in_progress w; waiting := waiting w |}.

Lemma transferred_ended id n m e w k : Nat.iter k (task_step id) (transferred id n m e w) = transferred id n m e w.
Proof.
  induction k as [|k IH]; [done|]. rewrite Nat.iter_succ, IH. unfold task_step, transferred. cbn [running].
  by rewrite lookup_delete_eq.
Qed.

Lemma iter_enough id w k k' w1 : Nat.iter k (task_step id) w = w1 -> (forall j, Nat.iter j (task_step id) w1 = w1) ->
  (k <= k')%nat -> Nat.iter k' (task_step id) w = w1.
Proof.
  intros Hk Hend Hle. replace k' with ((k' - k) + k)%nat by lia. rewrite Nat.iter_add, Hk. apply Hend.
Qed.

(** One request of the loop. *)
Lemma send_block_sends n request b m : 0 < block_size b -> 0 < remaining_bytes b <= U64_MAX -> remaining_bytes b <= len (reader b) ->
  let r := Z.min (block_size b) (remaining_bytes b) in
  send_block n request b m
  = let '(m, result) := send m n request VoidPlugin
                          (Some (Raw (block_counter b :: take (Z.to_nat (block_size b)) (take (Z.to_nat (remaining_bytes b)) (reader b))))) true in
    (m, match result with
        | Ok _ => Some (Acknowledging {| reader := drop (Z.to_nat r) (reader b); block_size := block_size b;
                                         remaining_bytes := remaining_bytes b; block_counter := block_counter b |} r)
        | Err (Failed e) => Some (Aborting (FailedToReadData (Some e)))
        | Err _ => None
        end).
Proof.
  intros Hs [Hr Hmax] Hl r. unfold send_block. rewrite (proj2 (Z.ltb_lt _ _)) by done. cbn [negb].
  unfold usize_of_u64. rewrite (proj2 (Z.leb_le _ _)) by (unfold U64_MAX, USIZE_MAX in *; lia). fold r.
  unfold buffer_holds. rewrite (proj2 (Z.leb_le r _)) by lia. cbn [negb]. unfold read_exact.
  rewrite (proj2 (Z.leb_le r _)) by lia. rewrite take_take.
  replace (Z.to_nat (block_size b) `min` Z.to_nat (remaining_bytes b))%nat with (Z.to_nat r) by lia. done.
Qed.

Lemma task_step_run id w t : running w !! id = Some t -> waiting w = None ->
  task_step id w = match phase t with
                   | Sending b => let '(m, p) := send_block (ecu_of t) (request t) b (uds w) in
                                  match p with Some p => goes_to id t p (with_uds w m) | None => ends id (with_uds w m) end
                   | Acknowledging b bytes_to_read => acknowledge_block id t b bytes_to_read w
                   | Aborting reason => set_transfer_aborted id (ecu_of t) reason w
                   | Starting _ _ => task_step id w
                   end.
Proof.
  intros Ht Hw. unfold task_step. rewrite Ht, Hw, (bool_decide_eq_false_2 (is_Some None)), andb_false_r by by intros [].
  by destruct (phase t).
Qed.

(** Two steps with the same result are steps of the loop. *)
Lemma transferred_again id n m e w w1 e1 : data_transfers w1 = <[n := e1]> (data_transfers w) ->
  delete id (running w1) = delete id (running w) -> spawned w1 = spawned w ->
  update_in_progress w1 = update_in_progress w -> waiting w1 = waiting w ->
  transferred id n m e w1 = transferred id n m e w.
Proof. intros Hd Hr Hs Hu Hw. unfold transferred. by rewrite Hd, Hr, Hs, Hu, Hw, insert_insert_eq. Qed.

Lemma abort_block id n req w e reason : running w !! id = Some {| ecu_of := n; request := req; phase := Aborting reason |} ->
  waiting w = None -> data_transfers w !! n = Some e ->
  task_step id w = transferred id n (uds w) (signal id (on_meta (set_status Aborted (Some [reason])) e)) w.
Proof.
  intros Ht Hw He. rewrite (task_step_run id w _ Ht Hw). cbn [phase ecu_of]. unfold set_transfer_aborted, ends, with_running, with_transfers, transferred. cbn.
  f_equal. apply map_eq. intros n'. destruct (decide (n' = n)) as [->|Hne].
  - by rewrite lookup_alter_eq, lookup_insert_eq, He.
  - by rewrite lookup_alter_ne, lookup_insert_ne.
Qed.

Lemma deliver_loop id n req count w b e :
  running w !! id = Some {| ecu_of := n; request := req; phase := Sending b |} -> waiting w = None ->
  data_transfers w !! n = Some e -> 0 < block_size b -> 0 < remaining_bytes b <= U64_MAX ->
  remaining_bytes b <= len (reader b) -> count = block_count (block_size b) (remaining_bytes b) ->
  let l := blocks count (block_size b) (block_counter b) (take (Z.to_nat (remaining_bytes b)) (reader b)) in
  let '(m, k, f) := send_blocks n req l (uds w) in
  Nat.iter (2 * count) (task_step id) w = transferred id n m (note_end id f (foldl note_block e (take k l))) w.
Proof.
  revert w b e. induction count as [|count IH]; intros w b e Ht Hw He Hs Hr Hl Hc;
    rewrite block_count_step in Hc by lia; [done|]. injection Hc as Hc.
  cbn [blocks send_blocks]. set (data := take (Z.to_nat (remaining_bytes b)) (reader b)). set (blk := block_counter b :: take (Z.to_nat (block_size b)) data).
  replace (2 * S count)%nat with (2 * count + 2)%nat by lia. rewrite Nat.iter_add.
  change (Nat.iter 2 (task_step id) w) with (task_step id (task_step id w)).
  rewrite (task_step_run id w _ Ht Hw). cbn [phase ecu_of request].
  pose proof (send_block_sends n req b (uds w) Hs Hr Hl) as Hsend. cbv zeta in Hsend. rewrite Hsend. clear Hsend. fold data. fold blk.
  destruct (send (uds w) n req VoidPlugin (Some (Raw blk)) true) as [m [response|[x| |]]].
  2:{ rewrite (abort_block id n req _ e (FailedToReadData (Some x))); [|apply lookup_insert_eq|done|done].
      cbn [note_end take foldl]. rewrite <- (transferred_ended id n m _ w (2 * count)). f_equal.
      unfold transferred, goes_to, with_running, with_uds. cbn. by rewrite delete_insert_eq. }
  2,3: cbn [note_end take foldl]; rewrite <- (transferred_ended id n m e w (2 * count)); f_equal;
    unfold task_step; cbn; rewrite lookup_delete_eq; unfold transferred, ends, with_running, with_uds; cbn; by rewrite insert_id.
  set (r := Z.min (block_size b) (remaining_bytes b)) in *.
  assert (Hblk : len blk - 1 = r).
  { unfold blk, data. rewrite len_cons, !len_take. lia. }
  set (b1 := {| reader := drop (Z.to_nat r) (reader b); block_size := block_size b; remaining_bytes := remaining_bytes b;
                block_counter := block_counter b |}).
  set (e1 := note_block e blk). set (rem := sat_sub (remaining_bytes b) r) in *.
  rewrite (task_step_run id _ {| ecu_of := n; request := req; phase := Acknowledging b1 r |}); [|apply lookup_insert_eq|done].
  cbn [phase]. unfold acknowledge_block. cbn [goes_to with_running with_uds data_transfers ecu_of]. rewrite He.
  replace (on_meta (acknowledge (u8_wrapping_add (block_counter b1) 1) r) e) with e1 by (unfold e1, note_block; by rewrite Hblk).
  change (sat_sub (remaining_bytes b1) r) with rem.
  assert (Hrem : rem = remaining_bytes b - r) by (unfold rem, sat_sub; lia).
  destruct (Z.eqb_spec rem 0) as [Hz|Hz].
  - rewrite Hz in Hc. assert (count = O) as -> by (rewrite Hc; unfold block_count; rewrite (div_ceil_unique _ _ 0) by lia; done).
    cbn [blocks send_blocks Nat.mul Nat.iter nat_rect take foldl note_end]. fold e1.
    unfold transferred, ends, with_running, with_transfers. cbn. by rewrite delete_insert_eq.
  - match goal with |- context [Nat.iter (2 * count) (task_step id) ?x] => set (w2 := x) end.
    set (b2 := {| reader := drop (Z.to_nat r) (reader b); block_size := block_size b; remaining_bytes := rem;
                  block_counter := u8_wrapping_add (block_counter b) 1 |}).
    specialize (IH w2 b2 e1 (lookup_insert_eq _ _ _) Hw (lookup_insert_eq _ _ _) Hs).
    cbn [block_size remaining_bytes reader block_counter b2] in IH. rewrite len_drop in IH.
    specialize (IH ltac:(lia) ltac:(lia) Hc). cbv zeta in IH.
    replace (drop (Z.to_nat (block_size b)) data) with (take (Z.to_nat rem) (drop (Z.to_nat r) (reader b))).
    2:{ unfold data. assert (r = block_size b) as -> by lia. rewrite skipn_firstn_comm. f_equal. lia. }
    change (uds w2) with m in IH. destruct (send_blocks n req _ m) as [[m' k] f]. cbn [take foldl]. fold e1. rewrite IH.
    apply (transferred_again id n _ _ _ w2 e1); try done. cbn. by rewrite !delete_insert_eq.
Qed.

Lemma blocks_length n size c data : length (blocks n size c data) = n.
Proof. revert c data. induction n as [|n IH]; intros c data; cbn; [done|]. by rewrite IH. Qed.

(** Noting [k] blocks at once. *)
Lemma note_blocks k n size c data e : (k <= n)%nat -> is_u8 c -> next_block_sequence_counter (meta_data e) = c ->
  0 <= acknowledged_bytes (meta_data e) <= U64_MAX ->
  let l := take k (blocks n size c data) in
  foldl note_block e l
  = on_meta (fun m => {| acknowledged_bytes := Z.min (acknowledged_bytes m + len (concat (tail <$> l))) U64_MAX;
                         blocksize := blocksize m; next_block_sequence_counter := (c + Z.of_nat k) mod 256;
                         transfer_id := transfer_id m; file_id := file_id m; transfer_status := transfer_status m;
                         transfer_error := transfer_error m |}) e.
Proof.
  revert n c data e. induction k as [|k IH]; intros n c data e Hk Hc Hm Ha; unfold is_u8 in Hc.
  - destruct e as [[ack bs c0 i1 i2 st er] sg tk]. cbn in Hm, Ha |- *. unfold on_meta. cbn. subst c0.
    rewrite Z.add_0_r, Z.mod_small, take_0 by lia. cbn. f_equal. f_equal; lia.
  - destruct n as [|n]; [lia|]. cbn [blocks take foldl fmap list_fmap concat tail].
    set (chunk := take (Z.to_nat size) data). set (c' := u8_wrapping_add c 1).
    rewrite (IH n c' (drop (Z.to_nat size) data)); [|lia| |done|].
    2:{ unfold is_u8, c', u8_wrapping_add. pose proof (Z.mod_pos_bound (c + 1) 256). lia. }
    2:{ cbn. unfold u64_sat_add. rewrite len_cons. pose proof (len_nonneg chunk). lia. }
    unfold on_meta, note_block, u64_sat_add. cbn. f_equal. f_equal.
    + unfold u64_sat_add. rewrite len_app, len_cons. pose proof (len_nonneg chunk). match goal with |- context [len (concat ?x)] => pose proof (len_nonneg (concat x)) end. lia.
    + unfold c', u8_wrapping_add. rewrite Zplus_mod_idemp_l. f_equal. lia.
Qed.

Lemma send_blocks_count n req l m : let '(_, k, f) := send_blocks n req l m in (k <= length l)%nat /\ (f = None <-> k = length l).
Proof.
  revert m. induction l as [|b l IH]; intros m; cbn; [by split|]. destruct (send _ _ _ _ _ _) as [m' [r|x]].
  - specialize (IH m'). destruct (send_blocks _ _ _ _) as [[m2 k] f]. destruct IH as [Hk Hf]. split; [lia|]. rewrite Hf. lia.
  - split; [lia|]. by split.
Qed.

(** C19: the task of a transfer, with a block size that is not 0, sends the part
    of the file it was given in blocks, in order: every block is a counter, which
    goes on from the one of the request modulo 256, and the next bytes of the
    file, as many as the block size says but for the last.  It goes on until a
    block is not answered, whatever the answers are, and ends after at most two
    steps for each block.  The transfer is then finished if all were answered,
    which are all bytes, and else aborted with the error; it counts the bytes of
    the answered blocks.  (With a block size of 0, which is accepted, the task
    never ends.) *)
Theorem transfer_delivers id n req w e rd length :
  running w !! id = Some {| ecu_of := n; request := req; phase := Starting rd length |} -> waiting w = None ->
  data_transfers w !! n = Some e -> task e = id -> 0 < blocksize (meta_data e) ->
  is_u8 (next_block_sequence_counter (meta_data e)) -> 0 <= acknowledged_bytes (meta_data e) <= U64_MAX ->
  0 < length <= U64_MAX -> length <= len rd ->
  let size := blocksize (meta_data e) in
  let c := next_block_sequence_counter (meta_data e) in
  let count := block_count size length in
  let l := blocks count size c (take (Z.to_nat length) rd) in
  concat (tail <$> l) = take (Z.to_nat length) rd /\
  (forall i b, l !! i = Some b -> head b = Some ((c + Z.of_nat i) mod 256) /\ ((i + 1 < count)%nat -> len b = size + 1)) /\
  let '(m, k, f) := send_blocks n req l (uds w) in
  (k <= count)%nat /\ (f = None <-> k = count) /\
  exists e', (forall steps, (1 + 2 * count <= steps)%nat -> Nat.iter steps (task_step id) w = transferred id n m e' w) /\
    acknowledged_bytes (meta_data e') = Z.min (acknowledged_bytes (meta_data e) + len (concat (tail <$> take k l))) U64_MAX /\
    next_block_sequence_counter (meta_data e') = (c + Z.of_nat k) mod 256 /\
    (transfer_status (meta_data e'), transfer_error (meta_data e'), signalled e')
    = match f with
      | None => (Finished, transfer_error (meta_data e), true)
      | Some (Failed x) => (Aborted, Some [FailedToReadData (Some x)], true)
      | Some _ => (Running, transfer_error (meta_data e), signalled e)
      end.
Proof.
  intros Ht Hw He Htask Hs Hc Ha Hlen Hrd size c count l.
  assert (Hdata : len (take (Z.to_nat length) rd) = length) by (rewrite len_take; lia).
  split; [|split].
  - unfold l, count. rewrite <- Hdata at 1. by apply blocks_data.
  - intros i b Hb. split; [by eapply block_counter_at|]. intros Hi. eapply blocks_full; [done|done| |done].
    unfold count, block_count. pose proof (div_ceil_spec length size Hs) as Hd. pose proof (div_ceil_pos length size Hs ltac:(lia)).
    rewrite Z2Nat.id by lia. lia.
  - set (e0 := on_meta (fun m => set_status Running (transfer_error m) m) e).
    set (b := {| reader := rd; block_size := size; remaining_bytes := length; block_counter := c |}).
    set (w1 := task_step id w).
    assert (Hw1 : w1 = goes_to id {| ecu_of := n; request := req; phase := Starting rd length |} (Sending b)
                        (with_transfers w (<[n := e0]> (data_transfers w)))).
    { unfold w1, task_step. rewrite Ht, Hw, (bool_decide_eq_false_2 (is_Some None)), andb_false_r by by intros [].
      cbn [phase ecu_of]. by rewrite He. }
    pose proof (deliver_loop id n req count w1 b e0) as Hloop. cbv zeta in Hloop.
    rewrite Hw1 in Hloop at 1 2 3 4. specialize (Hloop (lookup_insert_eq _ _ _) Hw (lookup_insert_eq _ _ _) Hs Hlen Hrd eq_refl).
    change (uds (goes_to _ _ _ _)) with (uds w) in Hloop.
    change (blocks count _ _ _) with l in Hloop.
    pose proof (send_blocks_count n req l (uds w)) as Hcount. assert (Hl : Datatypes.length l = count) by apply blocks_length.
    destruct (send_blocks n req l (uds w)) as [[m k] f]. destruct Hcount as [Hk Hf]. rewrite Hl in Hk, Hf. split; [done|]. split; [done|].
    exists (note_end id f (foldl note_block e0 (take k l))). split.
    + intros steps Hsteps. eapply (iter_enough id w (2 * count + 1)); [|apply transferred_ended|lia].
      rewrite Nat.iter_add. change (Nat.iter 1 (task_step id) w) with w1. rewrite Hloop, Hw1.
      apply (transferred_again id n m _ w _ e0); try done. cbn. by rewrite delete_insert_eq.
    + assert (Hnote : foldl note_block e0 (take k l) = _)
        by (apply (note_blocks k count size c _ e0); done).
      fold l in Hnote. rewrite Hnote. cbn in Htask. unfold note_end, signal. destruct f as [[x| |]|]; cbn; rewrite ?Htask, ?Nat.eqb_refl; done.
Qed.
End delivery.

(** ** The table *)

Definition over (e : EcuDataTransfer) : bool :=
  match transfer_status (meta_data e) with Aborted | Finished => true | _ => false end.

Section table.
Context {ext : Externals} {M : Type} `{!UdsTransport M}.
Context (to_lowercase : string -> string) (convention : DatabaseNamingConvention) (open_file : string -> option (list Z)).
Implicit Types w : Transfers (M := M).

(** Every task has its entry; an entry that is over has told so, and nobody
    waits with the mutex in hand. *)
Record transfers_wf w : Prop := {
  wf_waiting : waiting w = None;
  wf_running id t : running w !! id = Some t ->
    exists e, data_transfers w !! ecu_of t = Some e /\ task e = id /\ over e = false;
  wf_over n e : data_transfers w !! n = Some e -> over e = true -> signalled e = true;
  wf_tasks n n' e e' : data_transfers w !! n = Some e -> data_transfers w !! n' = Some e' -> task e = task e' -> n = n';
  wf_spawned n e : data_transfers w !! n = Some e -> (task e < spawned w)%nat
}.

(** A start between its two looks at the table. *)
Record Start : Type := {
  start_ecu : string;
  start_parameters : FlashTransferStartParams;
  start_reader : list Z;
  start_request : ApiDiagComm
}.

Abbreviation system := (Transfers (M := M) * gmap nat Start)%type.

(** The two halves of starts, exits, tasks, other requests and updates in any
    order; a new transfer is queued, and a handler may be dropped between its
    halves. *)
Inductive transfer_step : system -> system -> Prop :=
  | transfer_task id w p : transfer_step (w, p) (task_step id w, p)
  | start_checked i n c plugin parameters w w' reader request p :
      p !! i = None -> transfer_status (transfer_meta_data parameters) = Queued ->
      start_checks to_lowercase convention open_file n c plugin parameters w = (w', Ok (reader, request)) ->
      transfer_step (w, p) (w', <[i := {| start_ecu := n; start_parameters := parameters; start_reader := reader;
                                          start_request := request |}]> p)
  | start_refused n c plugin parameters w w' e p :
      start_checks to_lowercase convention open_file n c plugin parameters w = (w', Err e) -> transfer_step (w, p) (w', p)
  | start_inserted i s w p : p !! i = Some s ->
      transfer_step (w, p) ((start_insert (start_ecu s) (start_parameters s) (start_reader s) (start_request s) w).1, delete i p)
  | start_dropped i w p : transfer_step (w, p) (w, delete i p)
  | transfer_exit n w p : transfer_step (w, p) ((ecu_flash_transfer_exit n w).1, p)
  | transfer_requests m w p : transfer_step (w, p) (with_uds w m, p)
  | transfer_update b w p : transfer_step (w, p) ({| uds := uds w; data_transfers := data_transfers w; running := running w;
                                             spawned := spawned w; update_in_progress := b; waiting := waiting w |}, p).

(** No ECU has two starts between their halves. *)
Definition starts_apart (p : gmap nat Start) : Prop :=
  forall i j s s', p !! i = Some s -> p !! j = Some s' -> start_ecu s = start_ecu s' -> i = j.

Definition apart_step (x y : system) : Prop := transfer_step x y /\ starts_apart y.2.

(** What a start found when it looked still holds. *)
Definition starts_wf (x : system) : Prop := transfers_wf x.1 /\ starts_apart x.2 /\
  forall i s, x.2 !! i = Some s ->
    data_transfers x.1 !! start_ecu s = None /\ transfer_status (transfer_meta_data (start_parameters s)) = Queued.

Lemma wf_over_ended w n e : transfers_wf w -> data_transfers w !! n = Some e -> over e = true -> running w !! task e = None.
Proof.
  intros Hwf He Ho. destruct (running w !! task e) as [t|] eqn:Ht; [|done].
  destruct (wf_running _ Hwf _ _ Ht) as (e' & He' & Htask & Ho').
  assert (E : ecu_of t = n) by (by apply (wf_tasks _ Hwf _ _ e' e)). rewrite E in He'. congruence.
Qed.

(** The entry of a task changes with the task, and no other. *)
Lemma wf_moves w w' id t e' : transfers_wf w -> running w !! id = Some t ->
  data_transfers w' = <[ecu_of t := e']> (data_transfers w) -> task e' = id ->
  (over e' = true -> signalled e' = true) ->
  (forall id' t', running w' !! id' = Some t' -> id' <> id /\ running w !! id' = Some t' \/
     id' = id /\ ecu_of t' = ecu_of t /\ over e' = false) ->
  waiting w' = waiting w -> spawned w' = spawned w -> transfers_wf w'.
Proof.
  intros Hwf Ht Hd Htask Hover Hrun Hw Hs. destruct (wf_running _ Hwf _ _ Ht) as (e & He & Hte & _).
  split.
  - by rewrite Hw, (wf_waiting _ Hwf).
  - intros id' t' [[Hne Ht']|(-> & Hn & Ho)]%Hrun; rewrite Hd.
    + destruct (wf_running _ Hwf _ _ Ht') as (e2 & He2 & Ht2 & Ho2). exists e2. split; [|done].
      rewrite lookup_insert_ne; [done|]. intros E. rewrite E in He. congruence.
    + exists e'. by rewrite Hn, lookup_insert_eq.
  - rewrite Hd. intros n e2 [[_ <-]|[_ He2]]%lookup_insert_Some; [done|by apply (wf_over _ Hwf n)].
  - rewrite Hd. intros n n' e2 e3 [[<- <-]|[Hne He2]]%lookup_insert_Some [[<- <-]|[Hne' He3]]%lookup_insert_Some Heq; try done.
    + symmetry. apply (wf_tasks _ Hwf _ _ e3 e); congruence.
    + apply (wf_tasks _ Hwf _ _ e2 e); congruence.
    + by apply (wf_tasks _ Hwf _ _ e2 e3).
  - rewrite Hd, Hs. intros n e2 [[_ <-]|[_ He2]]%lookup_insert_Some; [|by apply (wf_spawned _ Hwf _ _ He2)].
    rewrite Htask, <- Hte. by apply (wf_spawned _ Hwf _ _ He).
Qed.

Lemma task_step_wf id w : transfers_wf w -> transfers_wf (task_step id w).
Proof.
  intros Hwf. destruct (running w !! id) as [t|] eqn:Ht; [|by unfold task_step; rewrite Ht].
  destruct (wf_running _ Hwf _ _ Ht) as (e & He & Hid & Hover).
  assert (Hgone : forall (id' : nat) t', delete id (running w) !! id' = Some t' -> id' <> id /\ running w !! id' = Some t' \/
    id' = id /\ ecu_of t' = ecu_of t /\ over e = false) by (intros id' t' [? ?]%lookup_delete_Some; auto).
  unfold task_step. rewrite Ht, (wf_waiting _ Hwf), (bool_decide_eq_false_2 (is_Some None)), andb_false_r by by intros [].
  destruct (phase t) as [rd l|b|b r|reason].
  - rewrite He. eapply (wf_moves w _ id t _ Hwf Ht); try done. cbn. intros id' t' [[<- <-]|[? ?]]%lookup_insert_Some; [|by left].
    by right.
  - destruct (send_block _ _ b (uds w)) as [m [p|]].
    + eapply (wf_moves w _ id t e Hwf Ht); try done; [symmetry; by apply insert_id|by rewrite Hover|].
      cbn. intros id' t' [[<- <-]|[? ?]]%lookup_insert_Some; [by right|by left].
    + eapply (wf_moves w _ id t e Hwf Ht); try done; [symmetry; by apply insert_id|by rewrite Hover].
  - unfold acknowledge_block. rewrite He. destruct (_ =? 0).
    + eapply (wf_moves w _ id t _ Hwf Ht); try done.
      * unfold signal. cbn. rewrite Hid, Nat.eqb_refl. done.
      * unfold signal. cbn. by rewrite Hid, Nat.eqb_refl.
      * cbn. intros id' t' [? ?]%lookup_delete_Some. by left.
    + eapply (wf_moves w _ id t _ Hwf Ht); try done.
      * change (over e = true -> signalled e = true). by rewrite Hover.
      * cbn. intros id' t' [[<- <-]|[? ?]]%lookup_insert_Some; [|by left]. by right.
  - eapply (wf_moves w _ id t (signal id (on_meta (set_status Aborted (Some [reason])) e)) Hwf Ht); try done.
    + unfold set_transfer_aborted. cbn. apply map_eq. intros n. destruct (decide (n = ecu_of t)) as [->|].
      * by rewrite lookup_alter_eq, lookup_insert_eq, He.
      * by rewrite lookup_alter_ne, lookup_insert_ne.
    + unfold signal. cbn. by rewrite Hid, Nat.eqb_refl.
    + unfold signal. cbn. by rewrite Hid, Nat.eqb_refl.
    + cbn. intros id' t' [? ?]%lookup_delete_Some. by left.
Qed.

Lemma op_bind_run {M' A B} (o : op M' A) (f : A -> op M' B) m :
  (o ≫= f) m = let '(m, r) := o m in match r with Ok a => f a m | Err e => (m, Err e) end.
Proof. reflexivity. Qed.

Lemma op_bind_cases {M' A B} (o : op M' A) (f : A -> op M' B) m (P : M' * presult B -> Prop) :
  (forall m' a, o m = (m', Ok a) -> P (f a m')) -> (forall m' x, o m = (m', Err x) -> P (m', Err x)) -> P ((o ≫= f) m).
Proof. intros Hok Herr. rewrite op_bind_run. destruct (o m) as [m' [a|x]]; auto. Qed.

(** The first half of a start leaves the table alone. *)
Definition checks_only {A} w n (r : Transfers (M := M) * presult A) : Prop :=
  (exists m, r.1 = with_uds w m) /\ match r.2 with Ok _ => data_transfers w !! n = None | Err _ => True end.

Lemma start_checks_frame n c p parameters w :
  checks_only w n (start_checks to_lowercase convention open_file n c p parameters w).
Proof.
  assert (Hstop : forall A (x : failure) m, checks_only (A := A) w n (with_uds w m, Err x)) by (intros; split; [by exists m|done]).
  assert (Hw : w = with_uds w (uds w)) by by destruct w.
  assert (Hstop' : forall A (x : failure), checks_only (A := A) w n (w, Err x)) by (intros A x; rewrite Hw at 2; apply Hstop).
  unfold start_checks. apply op_bind_cases; [|intros ? ? [= <- _]; apply Hstop'].
  intros m1 [] [= <- _]. apply op_bind_cases; [|intros ? ? [= <- _]; apply Hstop'].
  intros m1 [] [= <- Hn]. apply op_bind_cases; [|intros ? ? [= <- _]; apply Hstop'].
  intros m1 file [= <- _]. apply op_bind_cases; [|intros ? ? [= <- _]; apply Hstop'].
  intros m1 [] [= <- _]. apply op_bind_cases; unfold on_uds at 1; destruct (ecu n (uds w)) as [m2 r2];
    [intros m1 k [= <- ->]|intros ? ? [= <- _]; apply Hstop].
  apply op_bind_cases; [|intros ? ? [= <- _]; apply Hstop]. intros m1 req [= <- _].
  apply op_bind_cases; unfold on_uds; destruct (on_ecu _ _ _) as [m3 r3]; [|intros ? ? [= <- _]; apply (Hstop _ _ m3)].
  intros m1 [] [= <- _]. split; [by exists m3|]. by destruct (data_transfers w !! n).
Qed.

Lemma insert_wf n prm rd req w : transfers_wf w -> data_transfers w !! n = None ->
  transfer_status (transfer_meta_data prm) = Queued -> transfers_wf (start_insert n prm rd req w).1.
Proof.
  intros Hwf Hr Hq. unfold start_insert. destruct (update_in_progress w); [done|].
  cbn [fst]. assert (Hnew : running w !! spawned w = None).
  { destruct (running w !! spawned w) as [t|] eqn:Ht; [|done]. destruct (wf_running _ Hwf _ _ Ht) as (e & He & Hte & _).
    pose proof (wf_spawned _ Hwf _ _ He). lia. }
  split; cbn.
  - apply Hwf.
  - intros id t [[<- <-]|[Hne Ht]]%lookup_insert_Some.
    + eexists. cbn. rewrite lookup_insert_eq. split; [done|]. split; [done|]. unfold over. cbn. by rewrite Hq.
    + destruct (wf_running _ Hwf _ _ Ht) as (e & He & Hte & Ho). exists e. split; [|done].
      rewrite lookup_insert_ne; [done|]. intros E. rewrite E in Hr. congruence.
  - intros n' e [[_ <-]|[_ He]]%lookup_insert_Some; [unfold over; cbn; by rewrite Hq|by apply (wf_over _ Hwf n')].
  - intros n1 n2 e1 e2 [[<- <-]|[H1 He1]]%lookup_insert_Some [[<- <-]|[H2 He2]]%lookup_insert_Some Heq; try done.
    + pose proof (wf_spawned _ Hwf _ _ He2). cbn in Heq. lia.
    + pose proof (wf_spawned _ Hwf _ _ He1). cbn in Heq. lia.
    + by apply (wf_tasks _ Hwf _ _ e1 e2).
  - intros n' e [[_ <-]|[_ He]]%lookup_insert_Some; cbn; [lia|]. pose proof (wf_spawned _ Hwf _ _ He). lia.
Qed.

Lemma exit_wf n w : transfers_wf w -> transfers_wf (ecu_flash_transfer_exit n w).1.
Proof.
  intros Hwf. unfold ecu_flash_transfer_exit. destruct (data_transfers w !! n) as [e|] eqn:He; [|done].
  destruct (over e) eqn:Ho; [|unfold over in Ho; by destruct (transfer_status (meta_data e))].
  pose proof (wf_over_ended _ _ _ Hwf He Ho) as Hend.
  assert (Hexit : transfers_wf (with_transfers w (delete n (data_transfers w)))).
  { split; cbn.
    - apply Hwf.
    - intros id t Ht. destruct (wf_running _ Hwf _ _ Ht) as (e' & He' & Hte & Ho'). exists e'. split; [|done].
      rewrite lookup_delete_ne; [done|]. intros E. rewrite <- E in He'. congruence.
    - intros n' e' [_ He']%lookup_delete_Some. by apply (wf_over _ Hwf n').
    - intros n1 n2 e1 e2 [_ H1]%lookup_delete_Some [_ H2]%lookup_delete_Some. by apply (wf_tasks _ Hwf).
    - intros n' e' [_ He']%lookup_delete_Some. by apply (wf_spawned _ Hwf n'). }
  cbn [running with_transfers]. rewrite Hend, (bool_decide_eq_false_2 (is_Some None)) by by intros [].
  unfold over in Ho. by destruct (transfer_status (meta_data e)).
Qed.

(** Tasks and exits make no entries. *)
Lemma task_makes_none id n w : data_transfers w !! n = None -> data_transfers (task_step id w) !! n = None.
Proof.
  intros Hn. unfold task_step. destruct (running w !! id) as [t|]; [|done]. destruct (needs_table _ && _); [done|].
  assert (Hne : forall e e' : EcuDataTransfer, data_transfers w !! ecu_of t = Some e -> <[ecu_of t := e']> (data_transfers w) !! n = None).
  { intros e e' He. rewrite lookup_insert_ne; [done|]. intros E. rewrite E in He. congruence. }
  destruct (phase t) as [rd l|b|b r|reason].
  - destruct (data_transfers w !! ecu_of t) as [e|] eqn:He; [|done]. cbn. by eapply Hne.
  - by destruct (send_block _ _ _ _) as [m [p|]].
  - unfold acknowledge_block. destruct (data_transfers w !! ecu_of t) as [e|] eqn:He; [|done]. destruct (_ =? 0); cbn; by eapply Hne.
  - cbn. rewrite lookup_alter. case_decide as E; rewrite ?E, Hn; done.
Qed.

Lemma exit_makes_none n' n w : data_transfers w !! n = None -> data_transfers (ecu_flash_transfer_exit n' w).1 !! n = None.
Proof.
  intros Hn. unfold ecu_flash_transfer_exit. destruct (data_transfers w !! n') as [e|]; [|done].
  destruct (transfer_status (meta_data e)); try done; case_bool_decide; cbn; rewrite lookup_delete; by case_decide.
Qed.

Lemma apart_step_wf x y : apart_step x y -> starts_wf x -> starts_wf y.
Proof.
  intros [Hs Hy] (Hwf & Hx & Hp).
  destruct Hs as [id w p|i n c plugin prm w w' rd req p Hi Hq Hc|n c plugin prm w w' e p Hc|i s w p Hi|i w p|n w p|m w p|b w p];
    unfold starts_wf; cbn [fst snd] in *; (split; [|split; [done|]]); try done.
  - by apply task_step_wf.
  - intros i s Hi. destruct (Hp i s Hi). split; [by apply task_makes_none|done].
  - destruct (start_checks_frame n c plugin prm w) as [[m Hm] _]. rewrite Hc in Hm. cbn in Hm. subst w'. by split; apply Hwf.
  - destruct (start_checks_frame n c plugin prm w) as [[m Hm] Hn]. rewrite Hc in Hm, Hn. cbn in Hm, Hn. subst w'.
    intros j s [[<- <-]|[_ Hj]]%lookup_insert_Some; [done|by apply (Hp j)].
  - destruct (start_checks_frame n c plugin prm w) as [[m Hm] _]. rewrite Hc in Hm. cbn in Hm. subst w'. by split; apply Hwf.
  - destruct (start_checks_frame n c plugin prm w) as [[m Hm] _]. rewrite Hc in Hm. cbn in Hm. subst w'. done.
  - by apply insert_wf; [|apply (Hp i s)..].
  - intros j s' [Hne Hj]%lookup_delete_Some. destruct (Hp j s' Hj) as [Hn Hq]. split; [|done].
    unfold start_insert. destruct (update_in_progress w); [done|]. cbn.
    rewrite lookup_insert_ne; [done|]. intros E. apply Hne. by eapply Hx.
  - intros j s [_ Hj]%lookup_delete_Some. by apply (Hp j).
  - by apply exit_wf.
  - intros i s Hi. destruct (Hp i s Hi). split; [by apply exit_makes_none|done].
  - by split; apply Hwf.
  - by split; apply Hwf.
Qed.

(** C20: transfers, exits, tasks and requests in any order, and starts that are
    interrupted between their two looks at the table, but not by another start
    for the same ECU: a task that runs is that of the entry of its ECU, which is
    queued or running, so when no transfer is active no task runs; an exit is
    answered at once, and succeeds exactly when the transfer is finished or
    aborted; and while an ECU has an entry a start is refused. *)
Theorem transfers_end w w' starts : transfers_wf w -> rtc apart_step (w, ∅) (w', starts) ->
  (forall id t, running w' !! id = Some t ->
     exists e, data_transfers w' !! ecu_of t = Some e /\ task e = id /\ over e = false) /\
  (is_active w' = false -> running w' = ∅) /\
  (forall n, exists r, (ecu_flash_transfer_exit n w').2 = Some r /\
     (r = Ok tt <-> exists e, data_transfers w' !! n = Some e /\ over e = true)) /\
  (forall n e c p parameters, data_transfers w' !! n = Some e ->
     (start_checks to_lowercase convention open_file n c p parameters w').2 = Err (Failed InvalidRequest)).
Proof.
  intros Hwf Hsteps. assert (Hwf' : transfers_wf w').
  { change w' with (w', starts).1. assert (H0 : starts_wf (w, ∅)).
    { split; [done|]. split; cbn [snd]; intros i; intros *; by rewrite lookup_empty. }
    clear Hwf. revert H0. generalize dependent (w', starts). generalize (w, ∅ : gmap nat Start). clear w w' starts.
    intros x y Hsteps. induction Hsteps as [x|x1 x2 x3 Hs _ IH]; [by intros []|]. intros Hwf. by eapply IH, apart_step_wf. }
  split; [apply (wf_running _ Hwf')|]. split; [|split].
  - unfold is_active. intros [_ Hd]%orb_false_iff. apply negb_false_iff, bool_decide_eq_true in Hd.
    apply map_empty. intros id. destruct (running w' !! id) as [t|] eqn:Ht; [|done].
    destruct (wf_running _ Hwf' _ _ Ht) as (e & He & _). by rewrite Hd, lookup_empty in He.
  - intros n. unfold ecu_flash_transfer_exit. destruct (data_transfers w' !! n) as [e|] eqn:He.
    2:{ eexists. split; [done|]. split; [done|]. by intros (e & ? & _). }
    destruct (over e) eqn:Ho.
    + pose proof (wf_over_ended _ _ _ Hwf' He Ho) as Hend. pose proof (wf_over _ Hwf' _ _ He Ho) as Hsig.
      cbn [running with_transfers]. rewrite Hend, Hsig, (bool_decide_eq_false_2 (is_Some None)) by by intros [].
      exists (Ok tt). split; [unfold over in Ho; by destruct (transfer_status (meta_data e))|]. split; [by exists e|done].
    + exists (Err InvalidRequest). split; [unfold over in Ho; by destruct (transfer_status (meta_data e))|].
      split; [done|]. intros (e' & He' & Ho'). congruence.
  - intros n e c p prm He. unfold start_checks. rewrite op_bind_run.
    unfold pure at 1. destruct (transfer_length prm =? 0); [done|]. rewrite op_bind_run. unfold reads at 1. by rewrite He.
Qed.
End table.

(** ** Runs *)

(** A manager that notes the blocks it is sent; the ECU refuses every one, and
    the [n]-th is lost. *)
Record Recorder : Type := { sent : list (list Z); lost : option nat }.

Definition refusal : DiagServiceResponseStruct :=
  {| response_data := [127; 54; 49]; mapped_data := None; result_type := NegativeResponse |}.

#[local] Instance recorder : UdsTransport (ext := reference) Recorder := {
  ecu_kernel _ _ := None;
  set_kernel m _ _ := m;
  send m _ _ _ payload _ :=
    let block := match payload with Some (Raw b) => b | _ => [] end in
    ({| sent := sent m ++ [block]; lost := lost m |},
     if bool_decide (lost m = Some (length (sent m))) then Err (Failed Timeout) else Ok refusal);
  send_raw m _ _ _ := (m, Err (Failed NoResponse))
}.

Definition transfer_request : ApiDiagComm :=
  {| name := "TransferData"; type_ := Operations; lookup_name := None; subfunction_id := None |}.
Definition ex_meta (size : Z) : DataTransferMetaData :=
  {| acknowledged_bytes := 0; blocksize := size; next_block_sequence_counter := 255; transfer_id := "id"; file_id := "file";
     transfer_status := Queued; transfer_error := None |}.
Definition ex_start (size length : Z) : FlashTransferStartParams :=
  {| file_path := "file"; offset := 0; transfer_length := length; transfer_meta_data := ex_meta size |}.
Definition no_transfers (lost : option nat) : Transfers (M := Recorder) :=
  {| uds := {| sent := []; lost := lost |}; data_transfers := ∅; running := ∅; spawned := 0; update_in_progress := false;
     waiting := None |}.
(** The second half of a start. *)
Definition started (size : Z) (data : list Z) (w : Transfers (M := Recorder)) : Transfers (M := Recorder) :=
  (start_insert "ecu" (ex_start size (len data)) data transfer_request w).1.

Lemma transfer_delivers_witness :
  let w := started 2 [1; 2; 3] (no_transfers None) in
  sent (uds (Nat.iter 7 (task_step 0) w)) = [[255; 1; 2]; [0; 3]] /\
  exists e', Nat.iter 7 (task_step 0) w = transferred 0 "ecu" {| sent := [[255; 1; 2]; [0; 3]]; lost := None |} e' w /\
    acknowledged_bytes (meta_data e') = 3 /\ transfer_status (meta_data e') = Finished.
Proof.
  intros w. split; [vm_compute; reflexivity|].
  destruct (transfer_delivers (ext := reference) 0 "ecu" transfer_request w
    {| meta_data := ex_meta 2; signalled := false; task := 0 |} [1; 2; 3] 3 eq_refl eq_refl eq_refl eq_refl)
    as (_ & _ & _ & _ & e' & Hrun & Hack & _ & Hst);
    [reflexivity|split; [discriminate|reflexivity]|split; discriminate|split; [reflexivity|discriminate]|discriminate|].
  exists e'. split; [apply (Hrun 7%nat); vm_compute; lia|]. split; [rewrite Hack; reflexivity|].
  exact (f_equal (fun t => t.1.1) Hst).
Defined.

Lemma started_wf size data lost : transfers_wf (started size data (no_transfers lost)).
Proof.
  unfold started, start_insert. cbn. split; cbn; [done| | | |].
  - intros id t [[<- <-]|[_ Ht]]%lookup_insert_Some; [|by apply lookup_empty_Some in Ht]. eexists. by rewrite lookup_insert_eq.
  - intros n e [[_ <-]|[_ He]]%lookup_insert_Some; [done|by apply lookup_empty_Some in He].
  - intros n n' e e' [[<- _]|[_ He]]%lookup_insert_Some; [|by apply lookup_empty_Some in He].
    intros [[<- _]|[_ He']]%lookup_insert_Some; [done|by apply lookup_empty_Some in He'].
  - intros n e [[_ <-]|[_ He]]%lookup_insert_Some; [cbn; lia|by apply lookup_empty_Some in He].
Qed.

Lemma transfers_end_witness :
  let w := started 2 [1; 2; 3] (no_transfers None) in
  let w' := Nat.iter 5 (task_step 0) w in
  (ecu_flash_transfer_exit "ecu" w').2 = Some (Ok tt) /\ is_active w' = true /\
  is_active (ecu_flash_transfer_exit "ecu" w').1 = false /\ running (ecu_flash_transfer_exit "ecu" w').1 = ∅.
Proof.
  intros w w'. split; [vm_compute; reflexivity|]. split; [vm_compute; reflexivity|]. split; [vm_compute; reflexivity|].
  assert (Hrun : rtc (apart_step (fun s => s) DatabaseNamingConvention_default (fun _ => None)) (w, ∅)
                   ((ecu_flash_transfer_exit "ecu" w').1, ∅)).
  { assert (Hnone : starts_apart (∅ : gmap nat Start)) by (intros i j s s' Hi; by rewrite lookup_empty in Hi).
    eapply rtc_r; [|split; [apply (transfer_exit _ _ _ "ecu" w')|exact Hnone]].
    unfold w'. do 5 (eapply rtc_r; [|split; [apply transfer_task|exact Hnone]]). apply rtc_refl. }
  apply (transfers_end (fun s => s) DatabaseNamingConvention_default (fun _ => None) w _ ∅ (started_wf _ _ _) Hrun).
  vm_compute. reflexivity.
Defined.

(** Answers are not looked at: an ECU that refuses every block has been sent the
    whole file with success. *)
Example refusals_are_acknowledged :
  let w := Nat.iter 5 (task_step 0) (started 2 [1; 2; 3] (no_transfers None)) in
  transfer_status <$> (meta_data <$> data_transfers w !! "ecu") = Some Finished.
Proof. vm_compute. reflexivity. Qed.

(** A block size of 0 is accepted: the task sends empty blocks for ever. *)
Lemma empty_blocks_step data k (w : Transfers (M := Recorder)) :
  let b c := {| reader := data; block_size := 0; remaining_bytes := len data; block_counter := c |} in
  0 < len data <= U64_MAX -> waiting w = None -> lost (uds w) = None ->
  (exists c e, data_transfers w !! "ecu" = Some e /\
     running w !! 0%nat = Some {| ecu_of := "ecu"; request := transfer_request; phase := Sending (b c) |}) ->
  is_Some (running (Nat.iter (2 * k) (task_step 0) w) !! 0%nat).
Proof.
  intros b Hd. revert w. induction k as [|k IH]; intros w Hw Hl (c & e & He & Ht); [eexists; exact Ht|].
  replace (2 * S k)%nat with (2 * k + 2)%nat by lia. rewrite Nat.iter_add.
  change (Nat.iter 2 (task_step 0) w) with (task_step 0 (task_step 0 w)). rewrite (task_step_run 0 w _ Ht Hw).
  cbn [phase ecu_of request]. unfold send_block, b. cbn [remaining_bytes block_size reader block_counter].
  rewrite (proj2 (Z.ltb_lt 0 (len data))) by lia. cbn [negb]. unfold usize_of_u64.
  rewrite (proj2 (Z.leb_le (len data) USIZE_MAX)) by (unfold U64_MAX, USIZE_MAX in *; lia).
  rewrite Z.min_l by lia. cbn [buffer_holds block_size negb Z.leb Z.compare]. unfold read_exact. rewrite (proj2 (Z.leb_le 0 (len data))) by lia.
  cbn [send recorder Z.to_nat]. rewrite bool_decide_eq_false_2 by by rewrite Hl.
  erewrite task_step_run; [|apply lookup_insert_eq|done]. cbn [phase]. unfold acknowledge_block. cbn. rewrite He.
  unfold sat_sub. rewrite Z.sub_0_r, Z.max_l by lia. rewrite (proj2 (Z.eqb_neq (len data) 0)) by lia.
  apply IH; [done|done|]. eexists _, _. cbn. by rewrite !lookup_insert_eq.
Qed.

Example zero_block_size_never_ends k :
  is_Some (running (Nat.iter (2 * k + 1) (task_step 0) (started 0 [1; 2; 3] (no_transfers None))) !! 0%nat).
Proof.
  rewrite Nat.iter_add. apply (empty_blocks_step [1; 2; 3]); [split; [reflexivity|discriminate]|reflexivity|reflexivity|].
  eexists _, _. split; reflexivity.
Qed.

(** Two starts can both find no transfer before either puts its own in.  The
    first task then finishes the entry of the second one: an exit waits for the
    second task with the mutex in hand, which that task needs to begin. *)
Definition two_starts : Transfers (M := Recorder) := started 2 [1; 2; 3] (started 2 [1; 2; 3] (no_transfers None)).

Example racing_starts_deadlock :
  let '(w, r) := ecu_flash_transfer_exit "ecu" (Nat.iter 5 (task_step 0) two_starts) in
  r = None /\ task_step 0 w = w /\ task_step 1 w = w /\ exit_resumes w = w /\ is_active w = true.
Proof. vm_compute. repeat split; reflexivity. Qed.

(** Or the second one finishes first: the exit succeeds and no transfer is
    active, but the first task is still about to send. *)
Example racing_starts_escape :
  let '(w, r) := ecu_flash_transfer_exit "ecu" (Nat.iter 5 (task_step 1) (task_step 0 two_starts)) in
  r = Some (Ok tt) /\ is_active w = false /\ (phase <$> running w !! 0%nat) <> None /\
  len (sent (uds (task_step 0 w))) = len (sent (uds w)) + 1.
Proof. vm_compute. repeat split; try reflexivity. discriminate. Qed.
