(* ===== verification/RuntimeUpdate.v ===== *)
(** * Updating the databases at run time

    cda-plugin-runtime-update: uploading, listing and deleting pending files
    (storage.rs), applying, rolling back and cleaning up (operations), and the
    default reloader that replaces the running components
    (default_runtime_reloader_plugin.rs), over the storage of LocalStorage.v and
    the file format of MddFile.v.  A run records every state of the disk. *)

From S2P Require Import Prelude StorageTypes FileSystem Wal LocalStorage StorageInvariant StorageRollback StorageApply StorageRecovery StorageCommit StorageAtomic StorageFrames LocalCollection MddFile.

(** ** Data *)

Inductive RuntimeUpdateError : Type :=
  | StorageErr (e : StorageError)
  | InvalidMddFile
  | InvalidFileType (file : string)
  | ValidationFailed
  | NoLock
  | LockConflict
  | OperationsInProgress
  | NoPendingUpdate
  | NoBackup
  | UpdateBusy
  | ReloadFailed
  | ExecutionConflict
  | FileNotFound (file : string)
  | FatalError
  | SevereError.

Definition from_storage_error (e : StorageError) : RuntimeUpdateError :=
  match e with
  | TransactionBusy => UpdateBusy
  | other => StorageErr other
  end.

Record UploadFile : Type := { filename : string; upload_data : list Z }.

Record RuntimeFilesQuery : Type := {
  include_hash : bool;
  include_file_size : bool;
  include_revision : bool }.

(** The mimetype is always ["application/octet-stream"], the hash algorithm
    SHA-256 where there is a hash, the path of origin absent. *)
Record BulkDataDescriptor : Type := {
  bulk_id : string;
  bulk_name : option string;
  size : option Z;
  hash : option string;
  bulk_revision : option string }.

Inductive ExecutionMode : Type := Apply | Rollback | Cleanup.

(** ** Programs over the storage and the running components *)

(** A path is a directory of the storage and a file in it. *)
Definition path : Type := string * string.

(** [R] stands for the running components; none between their shutdown and the
    installation of others. *)
Record world (R : Type) : Type := mk_world { store : LocalStorage; runtime : option R }.
Arguments mk_world {R}. Arguments store {R}. Arguments runtime {R}.

Section upd.
Context {R : Type}.

Definition upd (A : Type) : Type := world R -> list fs * result RuntimeUpdateError A * world R.

#[export] Instance upd_ret : MRet upd := fun A a w => ([], Ok a, w).
#[export] Instance upd_bind : MBind upd := fun A B f m w =>
  match m w with
  | (t, Ok a, w') => let '(t', r, w'') := f a w' in (t ++ t', r, w'')
  | (t, Err e, w') => (t, Err e, w')
  end.

Definition fail {A} (e : RuntimeUpdateError) : upd A := fun w => ([], Err e, w).
Definition attempt {A} (m : upd A) : upd (result RuntimeUpdateError A) := fun w =>
  let '(t, r, w') := m w in (t, Ok r, w').

Definition set_disk (w : world R) (s : fs) : world R :=
  mk_world {| disk := s; tx_active := tx_active (store w) |} (runtime w).
Definition set_runtime (w : world R) (r : option R) : world R := mk_world (store w) r.

(** A program on the disk, its result as a value; with [?] behind it. *)
Definition disk_result {A} (m : io A) : upd (sresult A) := fun w =>
  let '(t, r, s) := m (disk (store w)) in (t, Ok r, set_disk w s).
Definition or_fail {A} (r : sresult A) : upd A :=
  match r with Ok a => mret a | Err e => fail (from_storage_error e) end.
Definition on_disk {A} (m : io A) : upd A := r ← disk_result m; or_fail r.

(** A function of the storage handle. *)
Definition on_store {A} (f : LocalStorage -> sresult A * LocalStorage) : upd A := fun w =>
  let '(r, st) := f (store w) in or_fail r (mk_world st (runtime w)).

Definition asks {A} (f : world R -> A) : upd A := fun w => ([], Ok (f w), w).
Definition update_runtime (f : option R -> option R) : upd () := fun w => ([], Ok (), set_runtime w (f (runtime w))).
Definition outcome {A} (m : upd A) (w : world R) : result RuntimeUpdateError A := let '(_, r, _) := m w in r.
Definition after {A} (m : upd A) (w : world R) : world R := let '(_, _, w') := m w in w'.
(** The disks a run passes through. *)
Definition disks {A} (m : upd A) (w : world R) : list fs := let '(t, _, _) := m w in disk (store w) :: t.
End upd.
Arguments upd : clear implicits.

Section runtime_update.
Context (order : list string -> list string) (crc32 : list Z -> Z).
Context (to_bytes : Operation -> option (list Z)) (sanitize : bool).
Context (decode : list Z -> option MddFile) (encode : MddFile -> option (list Z)).
Context (lzma : list Z -> option (list Z)) (sha512 sha256 : list Z -> list Z) (to_lowercase : string -> string).
Context {R : Type}.
Abbreviation upd := (upd R).

(** ** The storage interface as the plugin uses it *)

Definition collection_of (name : CollectionName) : LocalCollection :=
  {| LocalCollection.name := name; dir_path := as_str name |}.

Definition get_collection (name : CollectionName) : upd (sresult LocalCollection) :=
  asks (fun w => (fun _ => collection_of name) <$> LocalStorage.get_collection sanitize (store w) name).

(** The directory is created by a single step. *)
Definition get_or_create_collection (name : CollectionName) : upd LocalCollection := fun w =>
  let '(t, r, w') := on_store (fun st => LocalStorage.get_or_create_collection sanitize st name) w in
  (disk (store w') :: t, (fun _ => collection_of name) <$> r, w').

(** [begin_transaction], a body that records operations, [commit]; a body that
    fails drops the transaction, which discards it. *)
Definition transaction_with {A} (body : Transaction -> io (Transaction * A)) : io A :=
  _ ← create_wal crc32;
  r ← try_io (body {| tx_operations := [] |});
  match r with
  | Ok (tx, a) => _ ← commit_operations order crc32 (tx_operations tx); mret a
  | Err e => _ ← discard order; throw e
  end.

Definition transact {A} (body : Transaction -> io (Transaction * A)) : upd A :=
  busy ← asks (fun w => tx_active (store w));
  if busy : bool then fail UpdateBusy else on_disk (transaction_with body).

Definition try_get_collection (name : CollectionName) : upd (option LocalCollection) :=
  r ← get_collection name;
  match r with
  | Ok col => mret (Some col)
  | Err (CollectionNotFound _) => mret None
  | Err e => fail (from_storage_error e)
  end.

Abbreviation copy_collection := (LocalStorage.copy_collection crc32 to_bytes sanitize).
Abbreviation delete_collection := (LocalStorage.delete_collection crc32 to_bytes sanitize).
Abbreviation delete_all := (LocalCollection.delete_all crc32 to_bytes).

(** A storage call that may find its collection missing. *)
Definition ignore_missing {A} (a : A) (m : io A) : io A :=
  r ← try_io m;
  match r with
  | Ok x => mret x
  | Err (CollectionNotFound _) => mret a
  | Err e => throw e
  end.

Definition delete_collection_ignore_missing (tx : Transaction) (name : CollectionName) : io Transaction :=
  ignore_missing tx (delete_collection tx name).

(** ** Reloading *)

(** What a reloader does with the paths of the new databases. *)
Context (reload_databases : list path -> upd (result () ())).

Fixpoint file_paths (col : LocalCollection) (keys : list string) : upd (list path) :=
  match keys with
  | [] => mret []
  | key :: keys =>
      r ← disk_result (file_path order sanitize col key);
      ps ← file_paths col keys;
      mret (match r with Ok p => (dir_path col, p) :: ps | Err _ => ps end)
  end.

Fixpoint update_all_uncompressed (paths : list path) : upd () :=
  match paths with
  | [] => mret ()
  | (c, k) :: paths =>
      _ ← disk_result (update_mdd_uncompressed decode encode lzma sha512 to_lowercase c k);
      update_all_uncompressed paths
  end.

Definition reload_database_if_present (decompress : bool) : upd () :=
  db_col ← get_or_create_collection DiagnosticDatabase;
  files ← disk_result (list_keys order db_col);
  mdd_paths ← file_paths db_col (default [] (result_ok files));
  _ ← (if decompress then update_all_uncompressed mdd_paths else mret ());
  reloaded ← reload_databases mdd_paths;
  match (reloaded : result () ()) with Ok _ => mret () | Err _ => fail ReloadFailed end.

(** ** Apply, roll back, clean up *)

Definition swap_collection (tx : Transaction) (current backup next_update : CollectionName) : io Transaction :=
  tx ← copy_collection tx current backup;
  tx ← copy_collection tx next_update current;
  delete_collection tx next_update.

Definition execute_apply (mdd_decompress : bool) : upd () :=
  mdd_next ← try_get_collection DiagnosticDatabaseNextUpdate;
  match (mdd_next : option LocalCollection) with
  | None => fail NoPendingUpdate
  | Some _ =>
      _ ← get_or_create_collection DiagnosticDatabase;
      _ ← get_or_create_collection DiagnosticDatabaseBackup;
      _ ← transact (fun tx =>
        tx ← swap_collection tx DiagnosticDatabase DiagnosticDatabaseBackup DiagnosticDatabaseNextUpdate;
        mret (tx, ()));
      reload_database_if_present mdd_decompress
  end.

Definition restore_from_backup (tx : Transaction) (backup current next_update : CollectionName)
    (backup_col : LocalCollection) : io Transaction :=
  tx ← copy_collection tx backup current;
  tx ← delete_collection_ignore_missing tx next_update;
  delete_all backup_col tx.

Definition execute_rollback : upd () :=
  mdd_backup_col ← get_or_create_collection DiagnosticDatabaseBackup;
  mdd_backup_empty ← on_disk (is_empty order mdd_backup_col);
  if mdd_backup_empty : bool then fail NoBackup
  else
    _ ← transact (fun tx =>
      tx ← restore_from_backup tx DiagnosticDatabaseBackup DiagnosticDatabase DiagnosticDatabaseNextUpdate mdd_backup_col;
      mret (tx, ()));
    reload_database_if_present false.

Definition execute_cleanup : upd () :=
  mdd_backup ← get_or_create_collection DiagnosticDatabaseBackup;
  transact (fun tx =>
    tx ← delete_collection_ignore_missing tx DiagnosticDatabaseNextUpdate;
    tx ← delete_all mdd_backup tx;
    mret (tx, ())).

Definition execute_operation (mode : ExecutionMode) (mdd_decompress : bool) : upd () :=
  match mode with
  | Apply => execute_apply mdd_decompress
  | Rollback => execute_rollback
  | Cleanup => execute_cleanup
  end.
End runtime_update.

(** ** The default reloader: default_runtime_reloader_plugin.rs *)

Section reloader.
Context (order : list string -> list string) (crc32 : list Z -> Z).
Context (to_bytes : Operation -> option (list Z)) (sanitize : bool).
Context (decode : list Z -> option MddFile) (encode : MddFile -> option (list Z)).
Context (lzma : list Z -> option (list Z)) (sha512 : list Z -> list Z) (to_lowercase : string -> string).
Context {R : Type}.
Abbreviation upd := (upd R).

(** [VehicleComponentFactory::create], from the files at the paths and, unless
    it recovers, the transport of the components before; what
    [SovdLockStateProvider::update_entries] and [DynamicRouter::replace_routes]
    answer for the components. *)
Context (create : bool -> fs -> list path -> option R) (update_entries replace_routes : R -> bool).

(** The old components' locks and routes are replaced; new components that do
    not get theirs are shut down again. *)
Definition install_routes (components : R) : upd (result () ()) :=
  if update_entries components then
    if replace_routes components then _ ← update_runtime (fun _ => Some components); mret (Ok ())
    else mret (Err ())
  else mret (Err ()).

Definition create_and_install (reuse : bool) (mdd_paths : list path) : upd (result () ()) :=
  components ← asks (fun w => create reuse (disk (store w)) mdd_paths);
  match (components : option R) with
  | Some components => install_routes components
  | None => mret (Err ())
  end.

Definition install_new_runtime : list path -> upd (result () ()) := create_and_install true.

(** [RollbackHandler]: nothing is left to shut down. *)
Definition rollback_reload_databases : list path -> upd (result () ()) := create_and_install false.

Abbreviation execute_rollback := (execute_rollback order crc32 to_bytes sanitize decode encode lzma sha512 to_lowercase).

Definition reload_databases (mdd_paths : list path) : upd (result () ()) :=
  _ ← update_runtime (fun _ => None);
  result ← install_new_runtime mdd_paths;
  match (result : Prelude.result () ()) with
  | Ok _ => mret (Ok ())
  | Err e => _ ← attempt (execute_rollback rollback_reload_databases); mret (Err e)
  end.
End reloader.

(** ** Reasoning about runs *)

(** Every disk on the way satisfies [P]; the run ends in [Q] or fails in [E]. *)
Definition truns {R A} (m : upd R A) (w : world R) (P : fs -> Prop) (Q : A -> world R -> Prop)
    (E : RuntimeUpdateError -> world R -> Prop) : Prop :=
  let '(t, r, w') := m w in
  Forall P t /\ match r with Ok a => Q a w' | Err e => E e w' end.

Section logic.
Context {R : Type} (P : fs -> Prop).
Implicit Types w : world R.

Lemma truns_ret {A} (a : A) w (Q : A -> world R -> Prop) E : Q a w -> truns (mret a : upd R A) w P Q E.
Proof. by split. Qed.
Lemma truns_fail {A} e w (Q : A -> world R -> Prop) (E : _ -> _ -> Prop) : E e w -> truns (fail e) w P Q E.
Proof. by split. Qed.
Lemma truns_bind {A B} (m : upd R A) (f : A -> upd R B) w Q E :
  truns m w P (fun a w' => truns (f a) w' P Q E) E -> truns (m ≫= f) w P Q E.
Proof.
  unfold truns, mbind, upd_bind. destruct (m w) as [[t [a|e]] w']; [|done]. intros [Ht Hf].
  destruct (f a w') as [[t' r] w'']. destruct Hf as [Ht' Hr]. split; [by apply Forall_app|done].
Qed.
Lemma truns_mono {A} (m : upd R A) w (P' : fs -> Prop) (Q Q' : A -> world R -> Prop) (E E' : _ -> world R -> Prop) :
  truns m w P' Q E -> (forall u, P' u -> P u) -> (forall a u, Q a u -> Q' a u) -> (forall e u, E e u -> E' e u) ->
  truns m w P Q' E'.
Proof.
  unfold truns. destruct (m w) as [[t r] w']. intros [Ht Hr] HP HQ HE. split; [by eapply Forall_impl|].
  destruct r; [by apply HQ|by apply HE].
Qed.
Lemma truns_asks {A} (f : world R -> A) w (Q : A -> world R -> Prop) E : Q (f w) w -> truns (asks f) w P Q E.
Proof. by split. Qed.
Lemma truns_runtime f w (Q : () -> world R -> Prop) E : Q () (set_runtime w (f (runtime w))) -> truns (update_runtime f) w P Q E.
Proof. by split. Qed.
Lemma truns_attempt {A} (m : upd R A) w (Q : _ -> world R -> Prop) E :
  truns m w P (fun a w' => Q (Ok a) w') (fun e w' => Q (Err e) w') -> truns (attempt m) w P Q E.
Proof. unfold truns, attempt. destruct (m w) as [[t [a|e]] w']; done. Qed.
Lemma truns_disk_result {A} (m : io A) w (Q : sresult A -> world R -> Prop) E :
  runs m (disk (store w)) P (fun a s => Q (Ok a) (set_disk w s)) (fun e s => Q (Err e) (set_disk w s)) ->
  truns (disk_result m) w P Q E.
Proof. unfold truns, disk_result, runs. destruct (m (disk (store w))) as [[t [a|e]] s]; done. Qed.
Lemma truns_on_disk {A} (m : io A) w (Q : A -> world R -> Prop) E :
  runs m (disk (store w)) P (fun a s => Q a (set_disk w s)) (fun e s => E (from_storage_error e) (set_disk w s)) ->
  truns (on_disk m) w P Q E.
Proof.
  intros Hm. apply truns_bind, truns_disk_result. eapply runs_mono; [exact Hm|done| |].
  - intros a s Ha. by apply truns_ret.
  - intros e s He. by apply truns_fail.
Qed.
End logic.

Lemma truns_outcome {R A} (m : upd R A) w P Q E : truns m w P Q E ->
  match outcome m w with Ok a => Q a (after m w) | Err e => E e (after m w) end.
Proof. unfold truns, outcome, after. destruct (m w) as [[t [a|e]] w']; by intros [_ H]. Qed.

Lemma truns_disks {R A} (m : upd R A) w P Q E u : truns m w P Q E -> P (disk (store w)) -> u ∈ disks m w -> P u.
Proof.
  unfold truns, disks. destruct (m w) as [[t r] w']. intros [Ht _] H0 [->|Hu]%elem_of_cons; [done|].
  rewrite Forall_forall in Ht. by apply Ht.
Qed.

(** ** Transactions of the plugin *)

Section transactions.
Context (order : list string -> list string) (crc32 : list Z -> Z).
Context (to_bytes : Operation -> option (list Z)) (from_bytes : list Z -> option Operation).

(** The operations fit into a log. *)
Definition can_log (ops : list Operation) : Prop :=
  exists es, entries crc32 to_bytes ops es /\ (len (wal_of crc32 Committing es) <= USIZE_MAX)%Z.

(** A body that records [ops] runs the transaction of [ops]. *)
Lemma transaction_with_runs {A} C0 staged w0 (body : Transaction -> io (Transaction * A)) ops tx a P Q :
  records crc32 to_bytes C0 (body {| tx_operations := [] |}) ops (tx, a) -> tx_operations tx = ops ->
  runs (transaction order crc32 to_bytes ops) (mk_fs C0 staged w0) P (fun _ => Q) (fun _ _ => False) ->
  runs (transaction_with order crc32 body) (mk_fs C0 staged w0) P (fun r u => r = a /\ Q u) (fun _ _ => False).
Proof.
  intros Hb Htx. unfold runs, transaction_with, transaction, mbind, io_bind.
  assert (Hc : collections (run_state (create_wal crc32) (mk_fs C0 staged w0)) = C0) by done.
  unfold run_state in Hc. destruct (create_wal crc32 (mk_fs C0 staged w0)) as [[t1 [[]|e]] s1]; [|by intros [_ []]].
  unfold try_io. rewrite (Hb s1 Hc). unfold mbind, io_bind.
  destruct (for_each ops _ s1) as [[t2 [[]|e]] s2]; [|by intros [_ []]]. cbn. rewrite Htx, app_nil_r.
  destruct (commit_operations order crc32 ops s2) as [[t3 [[]|e]] s3]; [|by intros [_ []]]. cbn. rewrite app_nil_r. by intros [? ?].
Qed.

Context {R : Type}.

(** The storage between two transactions. *)
Definition idle (w : world R) (C : gmap string dir) : Prop :=
  tx_active (store w) = false /\ disk (store w) = mk_fs C ∅ None /\ committed_ok C.
Definition with_disk (w : world R) (C : gmap string dir) : world R := set_disk w (mk_fs C ∅ None).

Hypothesis Horder : forall l, order l ≡ₚ l.
Hypothesis Hcodec : codec_ok crc32 to_bytes from_bytes.

(** The collections recovery makes of a disk. *)
Abbreviation recovers := (recovers order crc32 from_bytes).

Lemma idle_recovers w C : idle w C -> recovers C (disk (store w)).
Proof. intros (_ & -> & HC). apply before_recovers; [done..|]. by split. Qed.

Lemma transact_runs {A} w C (body : Transaction -> io (Transaction * A)) ops tx a (Q : A -> world R -> Prop) E :
  idle w C -> distinct_targets C [] ops -> can_log ops ->
  records crc32 to_bytes C (body {| tx_operations := [] |}) ops (tx, a) -> tx_operations tx = ops ->
  let D := (spec_run ops (C, ∅)).1 in
  Q a (with_disk w D) ->
  truns (transact order crc32 body) w (fun u => recovers C u \/ recovers D u) Q E.
Proof.
  intros (Hact & Hdisk & HC) Hd (es & Hes & Hlen) Hb Htx D HQ. unfold transact. apply truns_bind, truns_asks. rewrite Hact.
  apply truns_on_disk. rewrite Hdisk. eapply runs_mono.
  - apply (transaction_with_runs C ∅ None body ops tx a _ (fun u => u = mk_fs D ∅ None)); [done..|].
    eapply runs_mono; [by apply (distinct_transaction_runs order C HC crc32 to_bytes from_bytes ops es ∅ None)|done| |done].
    intros [] u Hu. exact Hu.
  - done.
  - intros r u [-> ->]. exact HQ.
  - done.
Qed.

(** [transact] is the calls of the storage handle: begin, the body, then commit
    or, where the body fails, the rollback of the dropped transaction. *)
Lemma transact_is_the_api {A} (body : Transaction -> io (Transaction * A)) (w : world R) :
  (outcome (transact order crc32 body) w, store (after (transact order crc32 body) w)) =
  match begin_transaction crc32 (store w) with
  | (Err e, st) => (Err (from_storage_error e), st)
  | (Ok tx, st) =>
      match LocalStorage.on_disk st (body tx) with
      | (Err e, st) => (Err (from_storage_error e), rollback order st)
      | (Ok (tx, a), st) =>
          match commit order crc32 st tx with
          | (Ok _, st) => (Ok a, st)
          | (Err e, st) => (Err (from_storage_error e), st)
          end
      end
  end.
Proof using Type.
  destruct w as [[s act] r]. unfold begin_transaction, LocalStorage.on_disk, commit, rollback, outcome, after.
  unfold transact, transaction_with, on_disk, disk_result, set_disk, asks, or_fail, fail, run_result, run_state, try_io.
  unfold mbind, upd_bind, io_bind. cbv beta iota delta [store disk tx_active runtime]. destruct act; [done|].
  cbv beta iota. destruct (create_wal crc32 s) as [[t1 [[]|e]] s1] eqn:E1; [|done]. cbn [disk]. destruct (body _ s1) as [[t2 [[tx a]|e]] s2]; cbn [disk].
  - by destruct (commit_operations order crc32 (tx_operations tx) s2) as [[t3 [[]|e]] s3].
  - assert (Hd : exists t s3, discard order s2 = (t, Ok (), s3)).
    { unfold discard, try_io, mbind, io_bind. destruct (cleanup_staging_dir order s2) as [[? ?] s3].
      destruct (remove_wal_if_present s3) as [[? ?] s4]. cbn. by eexists _, _. }
    destruct Hd as (t3 & s3 & ->). done.
Qed.

Lemma idle_with_disk w C D : idle w C -> committed_ok D -> idle (with_disk w D) D.
Proof. intros (Hact & _ & _) HD. by split. Qed.
Lemma idle_runtime w C r : idle w C -> idle (set_runtime w r) C.
Proof. done. Qed.
End transactions.

(** ** The steps of the operations *)

Abbreviation cur := (as_str DiagnosticDatabase).
Abbreviation nxt := (as_str DiagnosticDatabaseNextUpdate).
Abbreviation bck := (as_str DiagnosticDatabaseBackup).

Section steps.
Context (order : list string -> list string) (crc32 : list Z -> Z).
Context (to_bytes : Operation -> option (list Z)) (from_bytes : list Z -> option Operation) (sanitize : bool).
Context (decode : list Z -> option MddFile) (encode : MddFile -> option (list Z)).
Context (lzma : list Z -> option (list Z)) (sha512 : list Z -> list Z) (to_lowercase : string -> string).
Context {R : Type}.
Hypothesis Horder : forall l, order l ≡ₚ l.
Hypothesis Hcodec : codec_ok crc32 to_bytes from_bytes.
Implicit Types w : world R.

Abbreviation recovers := (recovers order crc32 from_bytes).

(** A collection of the plugin: its name is accepted whatever the feature. *)
Definition builtin (c : CollectionName) : Prop :=
  c = DiagnosticDatabase \/ c = DiagnosticDatabaseNextUpdate \/ c = DiagnosticDatabaseBackup.

Lemma builtin_accepted c : builtin c -> accepted sanitize c /\ plain_name (as_str c).
Proof. intros [->|[->| ->]]; (split; [by destruct sanitize|by split]). Qed.

(** The files of a collection as uploads leave them: lower case, no name the
    storage hides or the path check refuses. *)
Definition good_dir (d : dir) : Prop :=
  map_Forall (fun k _ => plain_name k /\ normalize_key k = k /\ sanitize_path_segment sanitize k = Ok ()) d.

Lemma set_disk_id w : set_disk w (disk (store w)) = w.
Proof. by destruct w as [[? ?] ?]. Qed.

Definition created (C : gmap string dir) (c : CollectionName) : gmap string dir :=
  match C !! as_str c with Some _ => C | None => <[as_str c := ∅]> C end.

Lemma created_ok C c : builtin c -> committed_ok C -> committed_ok (created C c).
Proof.
  intros Hc HC. unfold created. destruct (C !! as_str c); [done|]. apply map_Forall_insert_2; [|done].
  split; [apply builtin_accepted, Hc|apply map_Forall_empty].
Qed.

Lemma get_or_create_runs w C c (P : fs -> Prop) (Q : LocalCollection -> world R -> Prop) E :
  idle w C -> builtin c -> P (mk_fs (created C c) ∅ None) -> Q (collection_of c) (with_disk w (created C c)) ->
  truns (get_or_create_collection sanitize c) w P Q E.
Proof.
  intros (Hact & Hdisk & HC) Hc HP HQ. destruct (builtin_accepted c Hc) as [Ha _].
  assert (Hst : LocalStorage.get_or_create_collection sanitize (store w) c =
    (Ok (as_str c), {| disk := mk_fs (created C c) ∅ None; tx_active := false |})).
  { unfold LocalStorage.get_or_create_collection, dir_exists, get_dir, created. rewrite collection_dir_ok by done.
    rewrite Hdisk, Hact. cbn [collections]. destruct (C !! as_str c) eqn:E1.
    - rewrite bool_decide_eq_true_2 by by eexists. destruct (store w) as [s a]. cbn in *. by subst.
    - rewrite bool_decide_eq_false_2 by by intros []. unfold LocalStorage.on_disk, create_dir_all, run_result, run_state.
      rewrite Hdisk. unfold mbind, io_bind, call, get_dir. cbn [collections]. rewrite E1, Hact. done. }
  unfold truns, get_or_create_collection, on_store. rewrite Hst. cbn. split; [by constructor|].
  unfold with_disk, set_disk in HQ. by rewrite Hact in HQ.
Qed.

Lemma names_of_good d : good_dir d -> normalize_key <$> filter (fun n => is_valid_key n = true) (names order d) = names order d.
Proof.
  intros Hd. assert (Hall : Forall (fun k => is_valid_key k = true /\ normalize_key k = k) (names order d)).
  { apply Forall_forall. intros k Hk. apply names_elem in Hk as [v Hv]; [|done]. destruct (Hd k v Hv) as ([_ ?] & ? & _). done. }
  induction Hall as [|k l [Hv Hn] _ IH]; [done|]. rewrite filter_cons, decide_True by done. cbn. by rewrite Hn, IH.
Qed.

Lemma list_keys_runs d c s (P : fs -> Prop) (Q : list string -> fs -> Prop) E :
  get_dir s (as_str c) = Some d -> good_dir d -> Q (names order d) s -> runs (list_keys order (collection_of c)) s P Q E.
Proof.
  intros Hd Hg HQ. unfold list_keys, list_keys_in_dir. apply runs_bind, runs_query. cbn [collection_of dir_path]. rewrite Hd.
  apply runs_ret. by rewrite names_of_good.
Qed.

Lemma file_path_runs d c k v s (P : fs -> Prop) (Q : string -> fs -> Prop) E :
  get_dir s (as_str c) = Some d -> good_dir d -> d !! k = Some v -> Q k s ->
  runs (file_path order sanitize (collection_of c) k) s P Q E.
Proof.
  intros Hd Hg Hk HQ. destruct (Hg k v Hk) as (_ & Hn & Hs).
  assert (Hex : file_exists s (as_str c) k = true).
  { unfold file_exists, get_file. rewrite Hd. cbn. rewrite Hk. apply bool_decide_eq_true. by eexists. }
  unfold file_path. rewrite Hn. apply runs_bind. unfold ensure_normalized_on_disk. apply runs_bind, runs_query.
  cbn [collection_of dir_path]. rewrite Hex. apply runs_ret. apply runs_bind, runs_lift. unfold key_path. rewrite Hs. cbn.
  apply runs_bind, runs_query. rewrite Hex. by apply runs_ret.
Qed.

Lemma file_paths_runs (d : dir) c (keys : list string) w (P : fs -> Prop) (Q : list path -> world R -> Prop) E :
  get_dir (disk (store w)) (as_str c) = Some d -> good_dir d -> Forall (fun k => is_Some (d !! k)) keys ->
  Q ((fun k => (as_str c, k)) <$> keys) w -> truns (file_paths order sanitize (collection_of c) keys) w P Q E.
Proof.
  intros Hd Hg Hk. revert Q. induction Hk as [|k keys [v Hv] _ IH]; intros Q HQ; [by apply truns_ret|]. cbn.
  apply truns_bind, truns_disk_result. eapply (file_path_runs d c k v); [done..|]. rewrite set_disk_id.
  apply truns_bind, IH. by apply truns_ret.
Qed.

Definition paths_of (d : dir) : list path := (fun k => (cur, k)) <$> names order d.

Lemma names_present (d : dir) : Forall (fun k : string => is_Some (d !! k)) (names order d).
Proof. apply Forall_forall. intros k Hk. by apply names_elem in Hk. Qed.

Abbreviation rewrites := (update_all_uncompressed (R := R) decode encode lzma sha512 to_lowercase).
Abbreviation reload_if_present := (reload_database_if_present (R := R) order sanitize decode encode lzma sha512 to_lowercase).

Lemma reload_runs (reload : list path -> upd R (result () ())) (decompress : bool) w C d (P : fs -> Prop) Q E :
  idle w C -> C !! cur = Some d -> good_dir d -> P (disk (store w)) ->
  truns (if decompress then rewrites (paths_of d) else mret () : upd R ()) w P
    (fun _ w1 => truns (reload (paths_of d)) w1 P (fun r w' => match r with Ok _ => Q () w' | Err _ => E ReloadFailed w' end) E) E ->
  truns (reload_if_present reload decompress) w P Q E.
Proof.
  intros Hw Hd Hg HP Hr. pose proof Hw as (_ & Hdisk & _).
  assert (Hc : created C DiagnosticDatabase = C) by (unfold created; by rewrite Hd).
  assert (Hw' : with_disk w C = w) by (unfold with_disk; rewrite <- Hdisk; apply set_disk_id).
  apply truns_bind. eapply (get_or_create_runs w C); [done|by left|by rewrite Hc, <- Hdisk|]. rewrite Hc, Hw'.
  assert (Hget : get_dir (disk (store w)) cur = Some d) by (by rewrite Hdisk).
  apply truns_bind, truns_disk_result. eapply (list_keys_runs d); [done..|]. rewrite set_disk_id. cbn [result_ok default].
  apply truns_bind. eapply (file_paths_runs d); [done..|apply names_present|].
  apply truns_bind. eapply truns_mono; [exact Hr|done| |done]. intros [] w1 H1. apply truns_bind. eapply truns_mono; [exact H1|done| |done].
  intros [[]|[]] w'' H; [by apply truns_ret|by apply truns_fail].
Qed.

(** ** The transactions of applying and rolling back *)

Definition apply_ops : list Operation :=
  [CopyCollection DiagnosticDatabase DiagnosticDatabaseBackup true;
   CopyCollection DiagnosticDatabaseNextUpdate DiagnosticDatabase true;
   DeleteCollection DiagnosticDatabaseNextUpdate].

(** What an applied update leaves: [n] in use, [o] behind it as backup. *)
Definition applied (C : gmap string dir) (o n : dir) : gmap string dir := delete nxt (<[cur := n]> (<[bck := o]> C)).

Ltac not_in := intros Hin; repeat (apply elem_of_cons in Hin as [Hin|Hin]; [discriminate Hin|]); by apply elem_of_nil in Hin.

Lemma apply_fits C o n b : C !! cur = Some o -> C !! nxt = Some n -> C !! bck = Some b -> distinct_targets C [] apply_ops.
Proof.
  intros Ho Hn Hb. split; [|split; [|split; [|done]]].
  - split; [by split|]. split; [not_in|]. cbn [as_str]. split; [by split|]. split; [by eexists|]. split; [done|]. split; [not_in|].
    by rewrite bool_decide_eq_true_2 by by eexists.
  - split; [by split|]. split; [not_in|]. cbn [as_str]. split; [by split|]. split; [by eexists|]. split; [done|]. split; [not_in|].
    by rewrite bool_decide_eq_true_2 by by eexists.
  - split; [by split|]. split; [not_in|done].
Qed.

Lemma apply_spec C o n St : C !! cur = Some o -> C !! nxt = Some n -> (spec_run apply_ops (C, St)).1 = applied C o n.
Proof.
  intros Ho Hn. unfold spec_run, apply_ops. cbn [foldl spec_step fst]. rewrite Ho, lookup_insert_ne, Hn by done. done.
Qed.

Lemma apply_records C o n b : C !! cur = Some o -> C !! nxt = Some n -> C !! bck = Some b ->
  records crc32 to_bytes C
    (tx ← swap_collection crc32 to_bytes sanitize {| tx_operations := [] |} DiagnosticDatabase DiagnosticDatabaseBackup
       DiagnosticDatabaseNextUpdate; mret (tx, ()))
    apply_ops ({| tx_operations := apply_ops |}, ()).
Proof.
  intros Ho Hn Hb. assert (His : forall c, builtin c -> is_Some (C !! as_str c) -> is_dir C c = true).
  { intros c _ Hc. by apply bool_decide_eq_true_2. }
  change apply_ops with (apply_ops ++ []) at 1. eapply records_bind; [|apply records_ret]. unfold swap_collection.
  change apply_ops with ([CopyCollection DiagnosticDatabase DiagnosticDatabaseBackup true] ++
    [CopyCollection DiagnosticDatabaseNextUpdate DiagnosticDatabase true] ++ [DeleteCollection DiagnosticDatabaseNextUpdate]).
  rewrite <- (His DiagnosticDatabaseBackup) at 1 by (unfold builtin; eauto).
  eapply records_bind; [apply records_copy; [apply builtin_accepted; unfold builtin; auto..|by eexists]|].
  rewrite <- (His DiagnosticDatabase) at 1 by (unfold builtin; eauto).
  eapply records_bind; [apply records_copy; [apply builtin_accepted; unfold builtin; auto..|by eexists]|].
  rewrite !His by (unfold builtin; eauto).
  change [DeleteCollection DiagnosticDatabaseNextUpdate] with ([DeleteCollection DiagnosticDatabaseNextUpdate] ++ []) at 1.
  apply records_delete_collection; [apply builtin_accepted; unfold builtin; auto|by eexists].
Qed.

Lemma applied_ok C o n : committed_ok C -> (C !! cur = Some o \/ o = ∅) -> C !! nxt = Some n -> committed_ok (applied C o n).
Proof.
  intros HC Ho Hn. apply map_Forall_delete, map_Forall_insert_2; [split; [by split|apply (HC _ _ Hn)]|].
  apply map_Forall_insert_2; [|done]. split; [by split|]. destruct Ho as [Ho| ->]; [apply (HC _ _ Ho)|apply map_Forall_empty].
Qed.

(** The database a disk holds, empty where there is none. *)
Definition database (C : gmap string dir) : dir := default ∅ (C !! cur).

(** The collections an update needs, empty if they are new. *)
Definition prepared (C : gmap string dir) : gmap string dir := created (created C DiagnosticDatabase) DiagnosticDatabaseBackup.

Lemma created_lookup C c : created C c !! as_str c = Some (default ∅ (C !! as_str c)).
Proof. unfold created. destruct (C !! as_str c) eqn:E; [done|apply lookup_insert_eq]. Qed.
Lemma created_lookup_ne C c x : x <> as_str c -> created C c !! x = C !! x.
Proof. intros. unfold created. destruct (C !! as_str c); [done|]. by rewrite lookup_insert_ne. Qed.

Lemma applied_created C c o n : c = DiagnosticDatabase \/ c = DiagnosticDatabaseBackup -> applied (created C c) o n = applied C o n.
Proof.
  intros Hc. unfold applied. f_equal. apply map_eq. intros x. destruct (decide (x = cur)) as [->|]; [by rewrite !lookup_insert_eq|].
  destruct (decide (x = bck)) as [->|]; [by rewrite !(lookup_insert_ne _ cur), !lookup_insert_eq by done|].
  rewrite !lookup_insert_ne by done. apply created_lookup_ne. by destruct Hc as [-> | ->].
Qed.

Lemma applied_database_ok C n : committed_ok C -> C !! nxt = Some n -> committed_ok (applied C (database C) n).
Proof. intros HC Hn. apply applied_ok; [done| |done]. unfold database. destruct (C !! cur); [by left|by right]. Qed.

(** *** Rewriting the files of an applied update *)

Section rewriting.
Context (C : gmap string dir) (o n : dir).

(** The files after those with some of the names were rewritten. *)
Definition rewritten_files (keys : list string) (d : dir) : dir :=
  foldl (fun d k => rewritten_file decode encode lzma sha512 to_lowercase k d) d keys.

(** The files [n], as they were or rewritten, and temporary files perhaps. *)
Definition files_of (d : dir) : Prop :=
  (forall k, is_Some (n !! k) -> is_Some (d !! k) /\ loads_same decode lzma to_lowercase (n !! k) (d !! k)) /\
  (forall k, n !! k = None -> is_Some (d !! k) -> exists k', is_Some (n !! k') /\ k = append_extension k' "tmp").

Lemma files_of_refl : files_of n.
Proof. split; [intros k ?; split; [done|apply loads_same_refl]|]. intros k Hk Hd. rewrite Hk in Hd. by apply is_Some_None in Hd. Qed.

Lemma applied_with_dir d d' : with_dir (mk_fs (applied C o d) ∅ None) cur d' = mk_fs (applied C o d') ∅ None.
Proof.
  unfold with_dir, with_collections, applied. cbn [collections staging wal_file]. f_equal.
  rewrite <- delete_insert_ne by done. by rewrite insert_insert_eq.
Qed.

Lemma rsplit_tmp k : rsplit_dot (append_extension k "tmp") = Some (k, "tmp").
Proof. induction k as [|a k IH]; [done|]. unfold append_extension in *. simpl. by rewrite IH. Qed.

Lemma is_bak_tmp k : is_bak (append_extension k "tmp") = false.
Proof. unfold is_bak, has_extension, extension. rewrite rsplit_tmp. by destruct k. Qed.

Lemma files_of_unhidden d : committed_ok C -> good_dir o -> good_dir n -> files_of d -> unhidden (applied C o d).
Proof.
  intros HC Ho Hg [Hk Hx]. apply map_Forall_delete, map_Forall_insert_2; [split; [done|]|].
  - intros k v Hv. destruct (n !! k) as [v'|] eqn:Hn; [apply plain_not_bak, (Hg k v' Hn)|].
    destruct (Hx k Hn) as (k' & _ & ->); [by eexists|]. apply is_bak_tmp.
  - apply map_Forall_insert_2; [split; [done|]|by apply committed_unhidden]. intros k v Hv. apply plain_not_bak, (Ho k v Hv).
Qed.

Context (Hmdd : forall m b, encode m = Some b -> decode b = Some m) (Hn : good_dir n).

Lemma tmp_not_in k : is_Some (n !! k) -> n !! append_extension k "tmp" = None.
Proof.
  intros [v0 Hk]. destruct (Hn k v0 Hk) as ([Hne _] & _). destruct (n !! append_extension k "tmp") as [v|] eqn:E; [|done].
  destruct (Hn _ v E) as ([_ Hv] & _). unfold is_valid_key in Hv. apply andb_true_iff in Hv as [_ Hv]. apply negb_true_iff in Hv.
  unfold has_extension, extension in Hv. rewrite rsplit_tmp in Hv. by destruct k.
Qed.

(** No temporary file is left. *)
Definition same_files (d : dir) : Prop :=
  (forall k, is_Some (d !! k) <-> is_Some (n !! k)) /\ forall k, loads_same decode lzma to_lowercase (n !! k) (d !! k).

Lemma same_files_of d : same_files d -> files_of d.
Proof. intros [H1 H2]. split; [by intros k Hk; split; [apply H1|]|]. intros k Hk Hd%H1. rewrite Hk in Hd. by apply is_Some_None in Hd. Qed.

Lemma loads_same_trans a b c : loads_same decode lzma to_lowercase a b -> loads_same decode lzma to_lowercase b c ->
  loads_same decode lzma to_lowercase a c.
Proof. intros H1 H2 l. by rewrite H1. Qed.

Lemma rewriting_files_of k s d u : same_files d -> is_Some (n !! k) -> s = mk_fs (applied C o d) ∅ None ->
  rewriting decode lzma to_lowercase cur k s d u -> exists d', files_of d' /\ u = mk_fs (applied C o d') ∅ None.
Proof.
  intros [Hd Hs] Hk -> (d' & -> & Hsome & Hsame & Hother). rewrite applied_with_dir. exists d'. split; [|done]. split.
  - intros k' Hk'. destruct (decide (k' = k)) as [->|Hne].
    + split; [by apply Hsome, Hd|]. eapply loads_same_trans; [apply Hs|done].
    + rewrite Hother; [by split; [apply Hd|]|done|]. intros ->. rewrite tmp_not_in in Hk' by done. by apply is_Some_None in Hk'.
  - intros k' Hk' Hin. destruct (decide (k' = append_extension k "tmp")) as [->|Hne]; [by exists k|]. exfalso.
    rewrite Hother in Hin; [|intros ->; rewrite Hk' in Hk; by apply is_Some_None in Hk|done]. apply Hd in Hin. rewrite Hk' in Hin. by apply is_Some_None in Hin.
Qed.

Lemma rewritten_file_same_files k d : same_files d -> is_Some (n !! k) -> same_files (rewritten_file decode encode lzma sha512 to_lowercase k d).
Proof.
  intros [Hd Hs] Hk. pose proof (rewritten_file_same decode encode lzma sha512 to_lowercase Hmdd k d) as Hsame. unfold rewritten_file in *.
  destruct (decompressed_file _ _ _ _ _ (d !! k)) as [[[es out]|]|]; [|done..].
  assert (Hdel : delete (append_extension k "tmp") d = d).
  { apply delete_id. destruct (d !! append_extension k "tmp") as [v|] eqn:E; [|done]. assert (H : is_Some (n !! append_extension k "tmp")) by (apply Hd; by eexists).
    rewrite tmp_not_in in H by done. by apply is_Some_None in H. }
  rewrite Hdel in *. split; intros k'; (destruct (decide (k' = k)) as [->|Hne]; [|by rewrite lookup_insert_ne]).
  - rewrite lookup_insert_eq. split; [done|by eexists].
  - eapply loads_same_trans; [apply Hs|]. exact Hsame.
Qed.

Lemma rewritten_files_same keys d : Forall (fun k => is_Some (n !! k)) keys -> same_files d -> same_files (rewritten_files keys d).
Proof.
  intros Hk. revert d. induction Hk as [|k keys Hk _ IH]; intros d Hd; [done|]. by apply IH, rewritten_file_same_files.
Qed.

Lemma rewrites_runs keys w d (P : fs -> Prop) (Q : () -> world R -> Prop) E :
  disk (store w) = mk_fs (applied C o d) ∅ None -> same_files d -> Forall (fun k => is_Some (n !! k)) keys ->
  (forall d', files_of d' -> P (mk_fs (applied C o d') ∅ None)) ->
  (same_files (rewritten_files keys d) -> Q () (with_disk w (applied C o (rewritten_files keys d)))) ->
  truns (rewrites ((fun k => (cur, k)) <$> keys)) w P Q E.
Proof.
  revert w d. induction keys as [|k keys IH]; intros w d Hw Hd Hk HP HQ; cbn [fmap list_fmap update_all_uncompressed].
  - apply truns_ret. unfold with_disk in HQ. cbn [rewritten_files foldl] in HQ. rewrite <- Hw, set_disk_id in HQ. by apply HQ.
  - apply Forall_cons in Hk as [Hk Hkeys]. apply truns_bind, truns_disk_result.
    assert (Hget : get_dir (disk (store w)) cur = Some d).
    { rewrite Hw. unfold get_dir, applied. cbn [collections]. by rewrite lookup_delete_ne, lookup_insert_eq. }
    assert (Hnext : forall u, u = mk_fs (applied C o (rewritten_file decode encode lzma sha512 to_lowercase k d)) ∅ None ->
      truns (rewrites ((fun k => (cur, k)) <$> keys)) (set_disk w u) P Q E).
    { intros u ->. eapply IH; [done|by apply rewritten_file_same_files|done..|exact HQ]. }
    eapply runs_mono; [by apply (update_runs decode encode lzma sha512 to_lowercase Hmdd cur k _ d Hget)| | |done].
    + intros u Hu. destruct (rewriting_files_of k _ d u Hd Hk Hw Hu) as (d' & Hd' & ->). by apply HP.
    + intros r u Hu. apply Hnext. unfold rewritten_file.
      destruct (decompressed_file _ _ _ _ _ (d !! k)) as [[[es out]|]|]; destruct Hu as [-> ->]; rewrite Hw; [by rewrite applied_with_dir|done..].
Qed.
End rewriting.

(** The files of an update once it is in use; they are rewritten when the
    databases are to be decompressed. *)
Definition files_in_use (decompress : bool) (n : dir) : dir := if decompress then rewritten_files (names order n) n else n.

(** The files while they are rewritten. *)
Definition stage_of (decompress : bool) (n d : dir) : Prop := if decompress then files_of n d else d = n.

Context (mdd_decompress : bool) (Hmdd : mdd_decompress = true -> forall m b, encode m = Some b -> decode b = Some m).

Lemma stage_refl n : stage_of mdd_decompress n n.
Proof. clear Hmdd. unfold stage_of. destruct mdd_decompress; [apply files_of_refl|done]. Qed.

Lemma stage_recovers C n d : committed_ok C -> good_dir (database C) -> good_dir n -> stage_of mdd_decompress n d ->
  recovers (applied C (database C) d) (mk_fs (applied C (database C) d) ∅ None).
Proof.
  clear Hmdd. intros HC Ho Hn Hd. apply unhidden_recovers; [done..| |by split]. eapply files_of_unhidden; [done..|]. unfold stage_of in Hd.
  destruct mdd_decompress; [done|]. subst d. apply files_of_refl.
Qed.

Lemma in_use_committed C n : committed_ok C -> C !! nxt = Some n -> good_dir n -> committed_ok (applied C (database C) (files_in_use mdd_decompress n)).
Proof.
  intros HC Hn Hg. assert (Hd : map_Forall (fun k (_ : file) => plain_name k) (files_in_use mdd_decompress n)).
  { unfold files_in_use. destruct mdd_decompress; [|by apply (HC _ _ Hn)].
    destruct (rewritten_files_same n (Hmdd eq_refl) Hg (names order n) n) as [Hdom _];
      [apply names_present|split; [done|intros; apply loads_same_refl]|].
    intros k v Hk. assert (Hs : is_Some (n !! k)) by (apply Hdom; by eexists). destruct Hs as [v' Hv']. apply (Hg k v' Hv'). }
  apply map_Forall_delete, map_Forall_insert_2; [by split|].
  apply map_Forall_insert_2; [|done]. split; [by split|]. unfold database. destruct (C !! cur) as [d|] eqn:E; [apply (HC _ _ E)|apply map_Forall_empty].
Qed.

(** Applying, up to what the reloader makes of it. *)
Lemma apply_runs (reload : list path -> upd R (result () ())) w C n (P : fs -> Prop) Q E :
  idle w C -> C !! nxt = Some n -> good_dir n -> good_dir (database C) -> can_log crc32 to_bytes apply_ops ->
  (forall D u, D ∈ [C; created C DiagnosticDatabase; prepared C] -> recovers D u -> P u) ->
  (forall d u, stage_of mdd_decompress n d -> recovers (applied C (database C) d) u -> P u) ->
  truns (reload (paths_of n)) (with_disk w (applied C (database C) (files_in_use mdd_decompress n))) P
    (fun r w' => match r with Ok _ => Q () w' | Err _ => E ReloadFailed w' end) E ->
  truns (execute_apply order crc32 to_bytes sanitize decode encode lzma sha512 to_lowercase reload mdd_decompress) w P Q E.
Proof.
  intros Hw Hn Hg Hgo Hlog HP HPs Hr. pose proof Hw as (Hact & Hdisk & HC).
  assert (Hrec : forall D, committed_ok D -> recovers D (mk_fs D ∅ None)) by (intros D HD; apply before_recovers; [done..|by split]).
  assert (H1 : committed_ok (created C DiagnosticDatabase)) by (apply created_ok; [by left|done]).
  assert (H2 : committed_ok (prepared C)) by (apply created_ok; [unfold builtin; auto|done]).
  assert (Ho : prepared C !! cur = Some (database C)).
  { unfold prepared. rewrite created_lookup_ne by done. apply (created_lookup C DiagnosticDatabase). }
  assert (Hn' : prepared C !! nxt = Some n) by (unfold prepared; by rewrite !created_lookup_ne).
  pose proof (created_lookup (created C DiagnosticDatabase) DiagnosticDatabaseBackup) as Hb. fold (prepared C) in Hb.
  assert (HD : (spec_run apply_ops (prepared C, ∅)).1 = applied C (database C) n).
  { rewrite (apply_spec _ (database C) n) by done. unfold prepared. rewrite !applied_created; auto. }
  unfold execute_apply, try_get_collection, get_collection. apply truns_bind, truns_bind, truns_asks.
  unfold LocalStorage.get_collection. rewrite collection_dir_ok by (apply builtin_accepted; unfold builtin; auto).
  unfold dir_exists, get_dir. rewrite Hdisk. cbn [collections mbind result_bind]. rewrite bool_decide_eq_true_2 by by eexists.
  apply truns_ret.
  apply truns_bind. eapply (get_or_create_runs _ C); [done|by left|apply (HP _ _ ltac:(right; left)); by apply Hrec|].
  apply truns_bind. eapply (get_or_create_runs _ (created C DiagnosticDatabase));
    [by apply (idle_with_disk w C)|unfold builtin; auto|apply (HP (prepared C)); [right; right; left|by apply Hrec]|].
  apply truns_bind. eapply truns_mono; [eapply (transact_runs order crc32 to_bytes from_bytes Horder Hcodec _ (prepared C) _ apply_ops
    _ () (fun _ w' => truns (reload_if_present reload mdd_decompress) w' P Q E) E)
    | | |done].
  - by apply (idle_with_disk _ (created C DiagnosticDatabase)), H2; apply (idle_with_disk w C).
  - by eapply apply_fits.
  - done.
  - by eapply apply_records.
  - done.
  - rewrite HD. eapply (reload_runs _ _ _ (applied C (database C) n) n).
    + apply (idle_with_disk _ (prepared C)); [by split|by apply applied_database_ok].
    + unfold applied. rewrite lookup_delete_ne, lookup_insert_eq by done. done.
    + done.
    + apply (HPs n); [apply stage_refl|by apply Hrec, applied_database_ok].
    + unfold files_in_use in Hr. unfold stage_of in HPs. pose proof (stage_recovers C n) as Hst. unfold stage_of in Hst.
      destruct mdd_decompress; [|by apply truns_ret].
      apply (rewrites_runs C (database C) n (Hmdd eq_refl) Hg (names order n) _ n); [done| |apply names_present| |].
      * split; [done|intros; apply loads_same_refl].
      * intros d Hd. eapply HPs; [exact Hd|by apply Hst].
      * intros _. exact Hr.
  - intros u [Hu|Hu]; [apply (HP (prepared C)); [right; right; left|done]|].
    rewrite HD in Hu. by apply (HPs n); [apply stage_refl|].
  - done.
Qed.

(** ** Rolling back and cleaning up *)

Definition pending_ops (C : gmap string dir) : list Operation :=
  if is_dir C DiagnosticDatabaseNextUpdate then [DeleteCollection DiagnosticDatabaseNextUpdate] else [].
Definition restore_ops (C : gmap string dir) : list Operation :=
  CopyCollection DiagnosticDatabaseBackup DiagnosticDatabase (is_dir C DiagnosticDatabase) ::
  pending_ops C ++ [DeleteAll DiagnosticDatabaseBackup].
Definition cleanup_ops (C : gmap string dir) : list Operation := pending_ops C ++ [DeleteAll DiagnosticDatabaseBackup].

(** The backup [b] in use again, no update pending, no backup. *)
Definition restored (C : gmap string dir) (b : dir) : gmap string dir := <[bck := ∅]> (delete nxt (<[cur := b]> C)).
Definition cleaned (C : gmap string dir) : gmap string dir := <[bck := ∅]> (delete nxt C).

Lemma append_error op s e : run_result (append_operation crc32 to_bytes op) s = Err e -> forall c, e <> CollectionNotFound c.
Proof.
  unfold append_operation, run_result, mbind, io_bind, FileSystem.lift, query, encode_entry.
  destruct (to_bytes op); cbn; [|by intros [= <-]]. destruct (_ <? _)%Z; [by intros [= <-]|]. destruct (wal_file s); [done|].
  by intros [= <-].
Qed.

Lemma records_delete_missing C tx c : accepted sanitize c ->
  let ops := if is_dir C c then [DeleteCollection c] else [] in
  records crc32 to_bytes C (delete_collection_ignore_missing crc32 to_bytes sanitize tx c) ops (recorded tx ops).
Proof.
  intros Ha ops s HC. unfold delete_collection_ignore_missing, ignore_missing, ops. unfold mbind at 1, io_bind at 1, try_io.
  destruct (is_dir C c) eqn:E.
  - apply bool_decide_eq_true in E. rewrite (records_delete_collection crc32 to_bytes sanitize C tx c Ha E s HC). unfold mbind, io_bind.
    cbn [for_each]. pose proof (append_error (DeleteCollection c) s) as He. unfold run_result in He.
    unfold mbind, io_bind. destruct (append_operation _ _ _ s) as [[t [[]|e]] s'].
    + cbn. by rewrite !app_nil_r.
    + specialize (He e eq_refl). destruct e; cbn; rewrite ?app_nil_r; try done. by destruct (He name).
  - apply bool_decide_eq_false, eq_None_not_Some in E. rewrite (missing_collection crc32 to_bytes sanitize C) by done.
    unfold recorded. rewrite app_nil_r. by destruct tx.
Qed.

Lemma records_delete_all C tx c :
  records crc32 to_bytes C (delete_all crc32 to_bytes (collection_of c) tx) [DeleteAll c] (recorded tx [DeleteAll c]).
Proof. apply records_record. Qed.

Lemma cleanup_fits C T : Forall (fun t => t = cur) T -> distinct_targets C T (cleanup_ops C).
Proof.
  intros HT. assert (Hin : forall x, x <> cur -> ~ x ∈ T) by (intros x Hx Hin; rewrite Forall_forall in HT; by apply Hx, HT).
  unfold cleanup_ops, pending_ops. destruct (is_dir C DiagnosticDatabaseNextUpdate); cbn.
  - split; [split; [by split|split; [by apply Hin|done]]|]. split; [|done]. split; [by split|]. split; [|done].
    intros [Heq|Hb]%elem_of_cons; [done|]. by apply Hin in Hb.
  - split; [|done]. split; [by split|]. split; [by apply Hin|done].
Qed.

Lemma restore_fits C b : C !! bck = Some b -> distinct_targets C [] (restore_ops C).
Proof.
  intros Hb. split; [|apply cleanup_fits; by repeat constructor].
  split; [by split|]. split; [not_in|]. split; [by split|]. split; [by eexists|]. split; [done|]. split; [not_in|done].
Qed.

Lemma alter_const {A} (m : gmap string A) i a : is_Some (m !! i) -> alter (fun _ => a) i m = <[i := a]> m.
Proof.
  intros [x Hx]. apply map_eq. intros j. destruct (decide (j = i)) as [->|].
  - by rewrite lookup_alter_eq, lookup_insert_eq, Hx.
  - by rewrite lookup_alter_ne, lookup_insert_ne.
Qed.

Lemma cleanup_spec C A St : (is_dir C DiagnosticDatabaseNextUpdate = is_dir A DiagnosticDatabaseNextUpdate) -> is_Some (A !! bck) ->
  (spec_run (cleanup_ops C) (A, St)).1 = cleaned A.
Proof.
  intros Hp Hb. unfold cleanup_ops, pending_ops, cleaned. rewrite Hp. destruct (is_dir A _) eqn:E; cbn.
  - apply alter_const. by rewrite lookup_delete_ne.
  - apply bool_decide_eq_false, eq_None_not_Some in E. rewrite delete_id by done. by apply alter_const.
Qed.

Lemma restore_spec C b St : C !! bck = Some b -> (spec_run (restore_ops C) (C, St)).1 = restored C b.
Proof.
  intros Hb. unfold restore_ops. change (spec_run (?x :: ?l) ?st) with (spec_run l (spec_step st x)).
  cbn [spec_step]. rewrite Hb. apply cleanup_spec.
  - unfold is_dir. by rewrite lookup_insert_ne.
  - rewrite lookup_insert_ne by done. by eexists.
Qed.

Lemma cleanup_records C tx :
  records crc32 to_bytes C
    (tx ← delete_collection_ignore_missing crc32 to_bytes sanitize tx DiagnosticDatabaseNextUpdate;
     delete_all crc32 to_bytes (collection_of DiagnosticDatabaseBackup) tx)
    (cleanup_ops C) (recorded tx (cleanup_ops C)).
Proof.
  assert (Hr : recorded tx (cleanup_ops C) = recorded (recorded tx (pending_ops C)) [DeleteAll DiagnosticDatabaseBackup])
    by (unfold recorded, cleanup_ops; cbn; by rewrite app_assoc).
  rewrite Hr. unfold cleanup_ops. eapply records_bind; [|apply records_delete_all].
  apply records_delete_missing, builtin_accepted. unfold builtin. auto.
Qed.

Lemma restore_records C b : C !! bck = Some b ->
  records crc32 to_bytes C
    (tx ← restore_from_backup crc32 to_bytes sanitize {| tx_operations := [] |} DiagnosticDatabaseBackup DiagnosticDatabase
       DiagnosticDatabaseNextUpdate (collection_of DiagnosticDatabaseBackup); mret (tx, ()))
    (restore_ops C) ({| tx_operations := restore_ops C |}, ()).
Proof.
  intros Hb. rewrite <- (app_nil_r (restore_ops C)) at 1. eapply records_bind; [|apply records_ret]. unfold restore_from_backup.
  change (restore_ops C) with
    ([CopyCollection DiagnosticDatabaseBackup DiagnosticDatabase (is_dir C DiagnosticDatabase)] ++ cleanup_ops C) at 1.
  eapply records_bind; [apply records_copy; [apply builtin_accepted; unfold builtin; auto..|by eexists]|]. apply cleanup_records.
Qed.

Lemma restored_ok C b : committed_ok C -> C !! bck = Some b -> committed_ok (restored C b).
Proof.
  intros HC Hb. apply map_Forall_insert_2; [split; [by split|apply map_Forall_empty]|]. apply map_Forall_delete, map_Forall_insert_2; [|done].
  split; [by split|apply (HC _ _ Hb)].
Qed.
Lemma cleaned_ok C : committed_ok C -> committed_ok (cleaned C).
Proof. intros HC. apply map_Forall_insert_2; [split; [by split|apply map_Forall_empty]|]. by apply map_Forall_delete. Qed.

Lemma names_nil (d : dir) : names order d = [] <-> d = ∅.
Proof.
  split; [|by intros ->; unfold names; rewrite dom_empty_L, elements_empty; apply Permutation_nil, symmetry, Horder].
  intros H. apply map_empty. intros k. destruct (d !! k) eqn:E; [|done].
  assert (Hk : k ∈ names order d) by (apply names_elem; [done|by eexists]). rewrite H in Hk. by apply elem_of_nil in Hk.
Qed.

Lemma is_empty_runs d c s (P : fs -> Prop) (Q : bool -> fs -> Prop) E :
  get_dir s (as_str c) = Some d -> good_dir d -> Q (bool_decide (d = ∅)) s -> runs (is_empty order (collection_of c)) s P Q E.
Proof.
  intros Hd Hg HQ. unfold is_empty, key_count. apply runs_bind, runs_bind. eapply list_keys_runs; [done..|].
  apply runs_ret, runs_ret. assert ((len (names order d) =? 0)%Z = bool_decide (d = ∅)) as ->; [|done].
  apply eq_true_iff_eq. rewrite bool_decide_eq_true, <- names_nil, Z.eqb_eq. unfold len. destruct (names order d); cbn; [done|]. split; [lia|done].
Qed.

Definition backup (C : gmap string dir) : dir := default ∅ (C !! bck).

(** The start of rolling back: the backup is looked at. *)
Lemma execute_rollback_runs (reload : list path -> upd R (result () ())) w C (P : fs -> Prop) Q E :
  let C' := created C DiagnosticDatabaseBackup in
  idle w C -> good_dir (backup C) -> can_log crc32 to_bytes (restore_ops C') ->
  (forall D u, D ∈ [C'; restored C' (backup C)] -> recovers D u -> P u) ->
  (backup C = ∅ -> E NoBackup (with_disk w C')) ->
  (backup C <> ∅ -> truns (reload (paths_of (backup C))) (with_disk w (restored C' (backup C))) P
    (fun r w' => match r with Ok _ => Q () w' | Err _ => E ReloadFailed w' end) E) ->
  truns (execute_rollback order crc32 to_bytes sanitize decode encode lzma sha512 to_lowercase reload) w P Q E.
Proof.
  intros C' Hw Hg Hlog HP HE Hr. pose proof Hw as (Hact & Hdisk & HC).
  assert (HC' : committed_ok C') by (apply created_ok; [unfold builtin; auto|done]).
  assert (Hb : C' !! bck = Some (backup C)) by (unfold C'; rewrite (created_lookup C DiagnosticDatabaseBackup); done).
  assert (Hrec : forall D, committed_ok D -> recovers D (mk_fs D ∅ None)) by (intros D HD; apply before_recovers; [done..|by split]).
  unfold execute_rollback. apply truns_bind. eapply (get_or_create_runs _ C); [done|unfold builtin; auto|apply (HP C'); [left|by apply Hrec]|].
  fold C'. apply truns_bind, truns_on_disk. eapply (is_empty_runs (backup C)); [done..|].
  rewrite set_disk_id. case_bool_decide as He.
  - apply truns_fail. by apply HE.
  - specialize (Hr He). apply truns_bind. eapply truns_mono; [eapply (transact_runs order crc32 to_bytes from_bytes Horder Hcodec _ C' _ (restore_ops C')
      _ () (fun _ w' => truns (reload_if_present reload false) w' P Q E) E)
      | | |done].
    + by apply (idle_with_disk _ C), HC'.
    + by eapply restore_fits.
    + done.
    + by eapply restore_records.
    + done.
    + rewrite (restore_spec _ (backup C)) by done. eapply (reload_runs _ false _ (restored C' (backup C)) (backup C)).
      * apply (idle_with_disk _ C'); [by split|by apply restored_ok].
      * unfold restored. rewrite lookup_insert_ne, lookup_delete_ne, lookup_insert_eq by done. done.
      * done.
      * apply (HP (restored C' (backup C))); [right; left|by apply Hrec, restored_ok].
      * by apply truns_ret.
    + rewrite (restore_spec _ (backup C)) by done. intros u [Hu|Hu]; [by apply (HP C'); [left|]|by apply (HP (restored C' (backup C))); [right; left|]].
    + done.
Qed.

Lemma cleanup_runs w C :
  let C' := created C DiagnosticDatabaseBackup in
  idle w C -> can_log crc32 to_bytes (cleanup_ops C') ->
  truns (execute_cleanup order crc32 to_bytes sanitize) w
    (fun u => exists D, (D = C' \/ D = cleaned C') /\ recovers D u)
    (fun _ w' => w' = with_disk w (cleaned C')) (fun _ _ => False).
Proof.
  intros C' Hw Hlog. pose proof Hw as (Hact & Hdisk & HC).
  assert (HC' : committed_ok C') by (apply created_ok; [unfold builtin; auto|done]).
  unfold execute_cleanup. apply truns_bind. eapply (get_or_create_runs _ C); [done|unfold builtin; auto| |].
  { exists C'. split; [by left|]. apply before_recovers; [done..|by split]. }
  fold C'. eapply truns_mono; [eapply (transact_runs order crc32 to_bytes from_bytes Horder Hcodec _ C' _ (cleanup_ops C')
    _ () (fun _ w' => w' = with_disk w (cleaned C')) (fun _ _ => False))| |done|done].
  - by apply (idle_with_disk _ C), HC'.
  - by apply cleanup_fits.
  - done.
  - assert (Hr : records crc32 to_bytes C'
      (tx ← delete_collection_ignore_missing crc32 to_bytes sanitize {| tx_operations := [] |} DiagnosticDatabaseNextUpdate;
       tx ← delete_all crc32 to_bytes (collection_of DiagnosticDatabaseBackup) tx; mret (tx, ()))
      (pending_ops C' ++ [DeleteAll DiagnosticDatabaseBackup] ++ []) ({| tx_operations := cleanup_ops C' |}, ())); [|exact Hr].
    eapply records_bind; [apply records_delete_missing, builtin_accepted; unfold builtin; auto|].
    eapply records_bind; [apply records_delete_all|]. apply records_ret.
  - done.
  - rewrite cleanup_spec; [done..|]. unfold C'. rewrite (created_lookup C DiagnosticDatabaseBackup). by eexists.
  - intros u. rewrite cleanup_spec; [|done|unfold C'; rewrite (created_lookup C DiagnosticDatabaseBackup); by eexists].
    intros [Hu|Hu]; eexists; (split; [|exact Hu]); auto.
Qed.
End steps.

(** ** Updates with the default reloader *)

Section updates.
Context (order : list string -> list string) (crc32 : list Z -> Z).
Context (to_bytes : Operation -> option (list Z)) (from_bytes : list Z -> option Operation) (sanitize : bool).
Context (decode : list Z -> option MddFile) (encode : MddFile -> option (list Z)).
Context (lzma : list Z -> option (list Z)) (sha512 : list Z -> list Z) (to_lowercase : string -> string).
Context {R : Type} (create : bool -> fs -> list path -> option R) (update_entries replace_routes : R -> bool).
Hypothesis Horder : forall l, order l ≡ₚ l.
Hypothesis Hcodec : codec_ok crc32 to_bytes from_bytes.
Implicit Types w : world R.

Abbreviation recovers := (recovers order crc32 from_bytes).
Abbreviation log := (can_log crc32 to_bytes).
Abbreviation reload := (reload_databases order crc32 to_bytes sanitize decode encode lzma sha512 to_lowercase
  create update_entries replace_routes).
Abbreviation rollback_reload := (rollback_reload_databases create update_entries replace_routes).

(** [execute_apply] and [execute_rollback] as the plugin runs them; whether the
    databases of an update are decompressed is configured. *)
Definition run_apply (mdd_decompress : bool) : upd R () :=
  execute_apply order crc32 to_bytes sanitize decode encode lzma sha512 to_lowercase reload mdd_decompress.
Definition run_rollback : upd R () :=
  execute_rollback order crc32 to_bytes sanitize decode encode lzma sha512 to_lowercase reload.

(** The components that are made of the files [d] in use and take their place. *)
Definition installed (reuse : bool) (D : gmap string dir) (d : dir) : option R :=
  match create reuse (mk_fs D ∅ None) (paths_of order d) with
  | Some r => if update_entries r && replace_routes r then Some r else None
  | None => None
  end.

Lemma install_runs reuse D d w (P : fs -> Prop) Q E : idle w D ->
  match installed reuse D d with
  | Some r => Q (Ok ()) (set_runtime w (Some r))
  | None => Q (Err ()) w
  end ->
  truns (create_and_install create update_entries replace_routes reuse (paths_of order d)) w P Q E.
Proof.
  intros (_ & Hdisk & _). unfold installed, create_and_install, install_routes. intros HQ. apply truns_bind, truns_asks. rewrite Hdisk.
  destruct (create _ _ _) as [r|]; [|by apply truns_ret]. destruct (update_entries r); [|by apply truns_ret]. cbn in HQ.
  destruct (replace_routes r); [|by apply truns_ret]. by apply truns_bind, truns_runtime, truns_ret.
Qed.

Definition restore_after_apply : list Operation :=
  [CopyCollection DiagnosticDatabaseBackup DiagnosticDatabase true; DeleteAll DiagnosticDatabaseBackup].

Lemma applied_lookups C o n : applied C o n !! cur = Some n /\ applied C o n !! bck = Some o /\ applied C o n !! nxt = None.
Proof.
  unfold applied. split; [|split].
  - by rewrite lookup_delete_ne, lookup_insert_eq.
  - by rewrite lookup_delete_ne, lookup_insert_ne, lookup_insert_eq.
  - by rewrite lookup_delete_eq.
Qed.

Lemma applied_created_id C o n : created (applied C o n) DiagnosticDatabaseBackup = applied C o n.
Proof. unfold created. by destruct (applied_lookups C o n) as (_ & -> & _). Qed.

Lemma restore_ops_applied C o n : restore_ops (applied C o n) = restore_after_apply.
Proof.
  destruct (applied_lookups C o n) as (Hc & _ & Hn). unfold restore_ops, pending_ops, is_dir. rewrite Hc, Hn.
  rewrite bool_decide_eq_true_2 by by eexists. rewrite bool_decide_eq_false_2 by by intros []. done.
Qed.

Lemma backup_applied C o n : backup (applied C o n) = o.
Proof. unfold backup. by destruct (applied_lookups C o n) as (_ & -> & _). Qed.

Lemma set_runtime_disk w r D : set_runtime (with_disk w D) r = with_disk (set_runtime w r) D.
Proof. done. Qed.

(** Rolling back from an applied update. *)
Lemma rollback_applied_runs (rel : list path -> upd R (result () ())) w C o n (P : fs -> Prop) Q E :
  idle w (applied C o n) -> good_dir sanitize o -> log restore_after_apply ->
  (forall D u, D ∈ [applied C o n; restored (applied C o n) o] -> recovers D u -> P u) ->
  (o = ∅ -> E NoBackup w) ->
  (o <> ∅ -> truns (rel (paths_of order o)) (with_disk w (restored (applied C o n) o)) P
    (fun r w' => match r with Ok _ => Q () w' | Err _ => E ReloadFailed w' end) E) ->
  truns (execute_rollback order crc32 to_bytes sanitize decode encode lzma sha512 to_lowercase rel) w P Q E.
Proof.
  intros Hw Hg Hlog HP HE Hr. pose proof Hw as (_ & Hdisk & _).
  apply (execute_rollback_runs order crc32 to_bytes from_bytes sanitize decode encode lzma sha512 to_lowercase Horder Hcodec rel w (applied C o n));
    rewrite ?applied_created_id, ?backup_applied, ?restore_ops_applied; [done..| |done].
  intros Ho. assert (Hw' : with_disk w (applied C o n) = w) by (unfold with_disk; rewrite <- Hdisk; apply set_disk_id).
  rewrite Hw'. by apply HE.
Qed.

Context (mdd_decompress : bool) (Hmdd : mdd_decompress = true -> forall m b, encode m = Some b -> decode b = Some m).
Abbreviation in_use := (files_in_use order decode encode lzma sha512 to_lowercase mdd_decompress).
Abbreviation stage := (stage_of decode lzma to_lowercase mdd_decompress).

(** The outcome of an update. *)
Definition apply_result (w : world R) (C : gmap string dir) (n : dir) : result RuntimeUpdateError () * world R :=
  let D := applied C (database C) (in_use n) in
  match installed true D n with
  | Some r => (Ok (), set_runtime (with_disk w D) (Some r))
  | None =>
      if decide (database C = ∅) then (Err ReloadFailed, set_runtime (with_disk w D) None)
      else let B := restored D (database C) in
        (Err ReloadFailed, set_runtime (with_disk w B) (installed false B (database C)))
  end.

Lemma in_use_stage n : good_dir sanitize n -> stage n (in_use n).
Proof.
  intros Hg. unfold stage_of, files_in_use. destruct mdd_decompress; [|done]. apply same_files_of.
  eapply (rewritten_files_same sanitize); [by apply Hmdd|done|apply names_present; exact Horder|].
  split; [done|intros; apply loads_same_refl].
Qed.

Lemma default_apply_runs w C n (P : fs -> Prop) :
  idle w C -> C !! nxt = Some n -> good_dir sanitize n -> good_dir sanitize (database C) -> log apply_ops -> log restore_after_apply ->
  let D := applied C (database C) (in_use n) in
  (forall D' u, D' ∈ [C; created C DiagnosticDatabase; prepared C; restored D (database C)] -> recovers D' u -> P u) ->
  (forall d u, stage n d -> recovers (applied C (database C) d) u -> P u) ->
  truns (run_apply mdd_decompress) w P (fun _ w' => apply_result w C n = (Ok (), w')) (fun e w' => apply_result w C n = (Err e, w')).
Proof.
  intros Hw Hn Hgn Hgo Hl1 Hl2 D HP HPs. pose proof Hw as (_ & _ & HC).
  assert (HD : committed_ok D) by (eapply in_use_committed; [exact Horder|exact Hmdd|done..]).
  assert (Hw0 : idle (set_runtime (with_disk w D) None) D) by (by apply (idle_with_disk w C)).
  assert (HPD : forall D' u, D' ∈ [D; restored D (database C)] -> recovers D' u -> P u).
  { intros D' u [->|HD']%elem_of_cons; [by apply HPs, in_use_stage|]. apply HP. apply list_elem_of_singleton in HD' as ->.
    repeat (first [left|right]). }
  apply (apply_runs order crc32 to_bytes from_bytes sanitize decode encode lzma sha512 to_lowercase Horder Hcodec mdd_decompress Hmdd _ w C n); [done..| | |].
  { intros D' u HD'. apply HP. repeat (apply elem_of_cons in HD' as [->|HD']; [repeat (first [left|right])|]). by apply elem_of_nil in HD'. }
  { exact HPs. }
  unfold apply_result. fold D. unfold reload_databases, install_new_runtime. apply truns_bind, truns_runtime, truns_bind.
  eapply (install_runs true D); [done|]. destruct (installed true D n) as [r|]; [by apply truns_ret|].
  apply truns_bind, truns_attempt. case_decide as Ho.
  - eapply (rollback_applied_runs _ _ C (database C) (in_use n)); [done..| |by intros ?]. intros _. by apply truns_ret.
  - eapply (rollback_applied_runs _ _ C (database C) (in_use n)); [done..|intros _].
    fold D. set (B := restored D (database C)).
    assert (HB : committed_ok B) by (apply restored_ok; [done|apply applied_lookups]).
    eapply (install_runs false B); [by apply (idle_with_disk _ D)|].
    destruct (installed false B (database C)) as [r|]; by apply truns_ret.
Qed.

Lemma restored_lookups C o n : let B := restored (applied C o n) o in
  B !! cur = Some o /\ B !! bck = Some ∅ /\ B !! nxt = None /\ created B DiagnosticDatabaseBackup = B /\ restore_ops B = restore_after_apply.
Proof.
  intros B. assert (Hc : B !! cur = Some o) by (unfold B, restored; by rewrite lookup_insert_ne, lookup_delete_ne, lookup_insert_eq).
  assert (Hb : B !! bck = Some ∅) by (unfold B, restored; by rewrite lookup_insert_eq).
  assert (Hn : B !! nxt = None) by (unfold B, restored; by rewrite lookup_insert_ne, lookup_delete_eq).
  do 3 (split; [done|]). split; [unfold created; by rewrite Hb|]. unfold restore_ops, pending_ops, is_dir. rewrite Hc, Hn.
  rewrite bool_decide_eq_true_2 by by eexists. rewrite bool_decide_eq_false_2 by by intros []. done.
Qed.

(** Rolling back an applied update that is in use. *)
Lemma default_rollback_runs w C o n :
  let D := applied C o n in let B := restored D o in
  idle w D -> o <> ∅ -> good_dir sanitize o -> log restore_after_apply ->
  let w' := set_runtime (with_disk w B) (installed true B o) in
  truns run_rollback w (fun _ => True) (fun _ v => installed true B o <> None /\ v = w')
    (fun e v => installed true B o = None /\ e = ReloadFailed /\ v = w').
Proof.
  intros D B Hw Ho Hg Hlog w'. pose proof Hw as (_ & _ & HD).
  assert (HB : committed_ok B) by (apply restored_ok; [done|apply applied_lookups]).
  assert (Hw0 : idle (set_runtime (with_disk w B) None) B) by (by apply (idle_with_disk w D)).
  eapply (rollback_applied_runs _ w C o n); [done..|intros _]. unfold reload_databases, install_new_runtime.
  apply truns_bind, truns_runtime, truns_bind. eapply (install_runs true B o); [done|]. unfold w'.
  destruct (installed true B o) as [r|]; [by apply truns_ret|]. apply truns_bind, truns_attempt.
  destruct (restored_lookups C o n) as (_ & Hb & _ & Hc & Hr). fold D B in Hb, Hc, Hr.
  assert (Hbk : backup B = ∅) by (unfold backup; by rewrite Hb).
  apply (execute_rollback_runs order crc32 to_bytes from_bytes sanitize decode encode lzma sha512 to_lowercase Horder Hcodec _ _ B);
    rewrite ?Hc, ?Hbk, ?Hr; [done| |done|done| |done].
  - intros k x Hk. by rewrite lookup_empty in Hk.
  - intros _. by apply truns_ret.
Qed.
End updates.

(** The database in use, the pending update and the backup of an update from
    [C] to files of which [used] holds when they are in use: not begun, applied,
    or applied and rolled back; the other collections are as they were. *)
Definition update_state (C : gmap string dir) (n : dir) (used : dir -> Prop) (D : gmap string dir) : Prop :=
  (forall x, x <> cur -> x <> nxt -> x <> bck -> D !! x = C !! x) /\
  (database D = database C /\ D !! nxt = Some n /\ backup D = backup C \/
   used (database D) /\ D !! nxt = None /\ backup D = database C \/
   database D = database C /\ D !! nxt = None /\ backup D = ∅).

Lemma update_states C n m used D : C !! nxt = Some n ->
  D ∈ [C; created C DiagnosticDatabase; prepared C; restored (applied C (database C) m) (database C)] ->
  update_state C n used D.
Proof.
  intros Hn HD. unfold update_state, database, backup.
  repeat (apply elem_of_cons in HD as [->|HD]); [| | | |by apply elem_of_nil in HD].
  - auto.
  - rewrite (created_lookup C DiagnosticDatabase), !created_lookup_ne by done. split; [|by left].
    intros x ? ? ?. by apply created_lookup_ne.
  - unfold prepared. rewrite (created_lookup (created C DiagnosticDatabase) DiagnosticDatabaseBackup), !(created_lookup_ne (created C _)) by done.
    rewrite (created_lookup C DiagnosticDatabase), !created_lookup_ne by done. split; [|by left].
    intros x ? ? ?. by rewrite !created_lookup_ne.
  - unfold restored. rewrite lookup_insert_eq, !lookup_insert_ne, lookup_delete_eq, lookup_delete_ne, lookup_insert_eq by done.
    split; [|by right; right]. intros x ? ? ?. rewrite lookup_insert_ne, lookup_delete_ne, lookup_insert_ne by done.
    unfold applied. by rewrite lookup_delete_ne, !lookup_insert_ne.
Qed.

Lemma applied_state C n m (used : dir -> Prop) : used m -> update_state C n used (applied C (database C) m).
Proof.
  intros Hm. destruct (applied_lookups C (database C) m) as (Hc & Hb & Hn). split.
  - intros x ? ? ?. unfold applied. by rewrite lookup_delete_ne, !lookup_insert_ne.
  - right. left. split; [unfold database at 1; by rewrite Hc|]. split; [done|]. unfold backup. by rewrite Hb.
Qed.

Section theorems.
Context (order : list string -> list string) (crc32 : list Z -> Z).
Context (to_bytes : Operation -> option (list Z)) (from_bytes : list Z -> option Operation) (sanitize : bool).
Context (decode : list Z -> option MddFile) (encode : MddFile -> option (list Z)).
Context (lzma : list Z -> option (list Z)) (sha512 : list Z -> list Z) (to_lowercase : string -> string).
Context {R : Type} (create : bool -> fs -> list path -> option R) (update_entries replace_routes : R -> bool).
Context (w : world R) (C : gmap string dir) (n : dir) (mdd_decompress : bool).
Hypothesis Horder : forall l, order l ≡ₚ l.
Hypothesis Hcodec : codec_ok crc32 to_bytes from_bytes.
Hypothesis Hmdd : mdd_decompress = true -> forall m b, encode m = Some b -> decode b = Some m.
Hypothesis Hidle : idle w C.
Hypothesis Hpending : C !! nxt = Some n.
Hypothesis Hgood : good_dir sanitize n /\ good_dir sanitize (database C).
Hypothesis Hlog : can_log crc32 to_bytes apply_ops /\ can_log crc32 to_bytes restore_after_apply.

Abbreviation apply := (run_apply order crc32 to_bytes sanitize decode encode lzma sha512 to_lowercase create update_entries replace_routes mdd_decompress).
Abbreviation rollback := (run_rollback order crc32 to_bytes sanitize decode encode lzma sha512 to_lowercase create update_entries replace_routes).
Abbreviation installs := (installed order create update_entries replace_routes).
Abbreviation in_use := (files_in_use order decode encode lzma sha512 to_lowercase mdd_decompress).

(** C6: an update survives crashes.  Wherever applying a pending update is
    interrupted, in its own transaction, while its databases are decompressed,
    while the new components are installed or while a failed installation is
    rolled back, the next start of the storage, itself interrupted or not, finds
    the update not begun, or applied with the previous database as backup, or
    rolled back to the previous database; no other collection has changed.  The
    files of an applied update are the uploaded ones; or, where databases are to
    be decompressed, files that load the same but for the recorded sizes, with
    temporary files besides that have no name of an uploaded one. *)
Theorem update_survives_crashes u : u ∈ disks apply w ->
  exists D, update_state C n (stage_of decode lzma to_lowercase mdd_decompress n) D /\
    forall v, v ∈ crash_states (recover order crc32 from_bytes) u ->
      run_state (recover order crc32 from_bytes) v = mk_fs D ∅ None.
Proof.
  intros Hu. destruct Hgood as [Hgn Hgo], Hlog as [Hl1 Hl2].
  pose (P u := exists D, update_state C n (stage_of decode lzma to_lowercase mdd_decompress n) D /\ recovers order crc32 from_bytes D u).
  assert (HP : P u).
  { eapply (truns_disks apply w P); [eapply (default_apply_runs order crc32 to_bytes from_bytes); try done| |done].
    - intros D' u' HD' Hu'. exists D'. split; [by eapply update_states|done].
    - intros d u' Hd Hu'. eexists. split; [by apply applied_state|exact Hu'].
    - exists C. split; [apply (update_states _ _ ∅); [done|left]|by eapply idle_recovers]. }
  destruct HP as (D & HD & Hrec). exists D. split; [done|]. intros v Hv. by eapply recovers_states.
Qed.

(** C7: a pending update is installed or taken back.  Where new components can be
    made of the new files (decompressed, if that is configured) and take the
    place of the old ones, the update succeeds: they run, the new files are in
    use and the previous ones are the backup.  Where they cannot, the update
    fails: the previous files are in use again, with components made of them if
    that is possible; but if there was no previous file the new ones stay, and
    nothing runs. *)
Theorem apply_installs_or_restores :
  let D := applied C (database C) (in_use n) in
  let C' := collections (disk (store (after apply w))) in
  match installs true D n with
  | Some r => outcome apply w = Ok () /\ C' = D /\ runtime (after apply w) = Some r
  | None =>
      outcome apply w = Err ReloadFailed /\
      (database C = ∅ -> C' = D /\ runtime (after apply w) = None) /\
      (database C <> ∅ -> let B := restored D (database C) in
        C' = B /\ runtime (after apply w) = installs false B (database C))
  end.
Proof.
  intros D C'. destruct Hgood as [Hgn Hgo], Hlog as [Hl1 Hl2].
  assert (Hr : (outcome apply w, after apply w) =
    apply_result order decode encode lzma sha512 to_lowercase create update_entries replace_routes mdd_decompress w C n).
  { pose proof (truns_outcome apply w _ _ _ (default_apply_runs order crc32 to_bytes from_bytes sanitize decode encode lzma sha512 to_lowercase
      create update_entries replace_routes Horder Hcodec mdd_decompress Hmdd w C n (fun _ => True) Hidle Hpending Hgn Hgo Hl1 Hl2 ltac:(done) ltac:(done))) as H.
    destruct (outcome apply w) as [[]|e]; by rewrite H. }
  unfold C'. unfold apply_result in Hr. fold D in Hr. destruct (installs true D n) as [r|].
  - by injection Hr as -> ->.
  - case_decide as Ho; injection Hr as -> ->; (split; [done|]); by split.
Qed.

End theorems.

(** ** A concrete update *)

Definition update_table : list Operation := apply_ops ++ restore_after_apply.
Definition update_bytes : Operation -> option (list Z) := table_bytes update_table.
Definition update_op : list Z -> option Operation := table_op update_table.

(** A pending database that is compressed. *)
Definition packed_update : dir := {[ "b.mdd" := file_magic_bytes ++ [0%Z] ]}.
Definition update_collections : gmap string dir := {[ cur := {[ "a.mdd" := [1%Z] ]}; nxt := packed_update ]}.
Definition update_decode : list Z -> option MddFile := sample_decode [packed_mdd; plain_mdd].
Definition update_encode : MddFile -> option (list Z) := sample_encode [packed_mdd; plain_mdd].
Definition unpack (l : list Z) : option (list Z) := Some (rev l).

(** Components are the paths they were made of; no component is made of [bad]. *)
Definition create_unless (bad : string) (_ : bool) (_ : fs) (ps : list path) : option (list path) :=
  if existsb (fun p => String.eqb p.2 bad) ps then None else Some ps.

Definition update_world (C : gmap string dir) : world (list path) :=
  mk_world {| disk := mk_fs C ∅ None; tx_active := false |} (Some [(cur, "a.mdd")]).
Definition sample_apply (bad : string) : upd (list path) () :=
  run_apply id ex_crc update_bytes false update_decode update_encode unpack id id (create_unless bad) (fun _ => true) (fun _ => true) true.
Definition sample_rollback (bad : string) : upd (list path) () :=
  run_rollback id ex_crc update_bytes false update_decode update_encode unpack id id (create_unless bad) (fun _ => true) (fun _ => true).

Lemma update_codec : codec_ok ex_crc update_bytes update_op.
Proof. apply table_codec. cbn. lia. Qed.

Lemma mdd_codec : true = true -> forall m b, update_encode m = Some b -> update_decode b = Some m.
Proof. intros _. apply sample_codec. Qed.

Lemma update_logs : can_log ex_crc update_bytes apply_ops /\ can_log ex_crc update_bytes restore_after_apply.
Proof.
  split; [exists (entry_of update_table <$> apply_ops)|exists (entry_of update_table <$> restore_after_apply)];
    (split; [repeat constructor|vm_compute; discriminate]).
Qed.

Lemma sample_good (k : string) v : normalize_key k = k -> plain_name k -> good_dir false {[ k := v ]}.
Proof. intros Hn Hp k' x [<- <-]%lookup_singleton_Some. done. Qed.

Lemma update_idle : idle (update_world update_collections) update_collections.
Proof.
  split; [done|]. split; [done|]. unfold update_collections, packed_update. intros c d [[<- <-]|[_ [<- <-]%lookup_singleton_Some]]%lookup_insert_Some;
    (split; [by split|]; intros k v [<- <-]%lookup_singleton_Some; by split).
Qed.

(** While the new database is rewritten. *)
Lemma update_survives_crashes_witness :
  let u := nth 22 (disks (sample_apply "b.mdd") (update_world update_collections)) (mk_fs ∅ ∅ None) in
  exists D, update_state update_collections packed_update (stage_of update_decode unpack id true packed_update) D /\
    run_state (recover id ex_crc update_op) u = mk_fs D ∅ None.
Proof.
  intros u.
  destruct (update_survives_crashes id ex_crc update_bytes update_op false update_decode update_encode unpack id id
    (create_unless "b.mdd") (fun _ => true) (fun _ => true) (update_world update_collections) update_collections packed_update true)
    with (u := u) as (D & HD & Hrec);
    [intros l; reflexivity|apply update_codec|apply mdd_codec|apply update_idle|reflexivity|split; by apply sample_good|apply update_logs| |].
  - apply (list_elem_of_lookup_2 _ 22). vm_compute. reflexivity.
  - exists D. split; [done|]. apply Hrec. unfold crash_states. destruct (recover id ex_crc update_op u) as [[t r] s]. left.
Defined.

Lemma apply_installs_or_restores_witness :
  outcome (sample_apply "b.mdd") (update_world update_collections) = Err ReloadFailed /\
  runtime (after (sample_apply "b.mdd") (update_world update_collections)) = Some [(cur, "a.mdd")].
Proof.
  pose proof (apply_installs_or_restores id ex_crc update_bytes update_op false update_decode update_encode unpack id id
    (create_unless "b.mdd") (fun _ => true) (fun _ => true) (update_world update_collections) update_collections packed_update true
    ltac:(intros l; reflexivity) update_codec mdd_codec update_idle eq_refl ltac:(split; by apply sample_good) update_logs) as H.
  cbv zeta in H.
  assert (Hi : installed id (create_unless "b.mdd") (fun _ => true) (fun _ => true) true
    (applied update_collections (database update_collections) (files_in_use id update_decode update_encode unpack id id true packed_update))
    packed_update = None) by (vm_compute; reflexivity).
  rewrite Hi in H. destruct H as (Ho & _ & Hr). split; [exact Ho|].
  destruct (Hr ltac:(vm_compute; discriminate)) as [_ Hrun]. unfold sample_apply. rewrite Hrun. vm_compute. reflexivity.
Defined.


(** An installed update is in use decompressed. *)
Example update_is_decompressed :
  let u := disk (store (after (sample_apply "") (update_world update_collections))) in
  get_file u cur "b.mdd" = Some (file_magic_bytes ++ [1%Z]) /\
  mmap_and_decode_mdd update_decode (get_file u cur "b.mdd") = Ok plain_mdd.
Proof. vm_compute. split; reflexivity. Qed.
