(* ===== verification/UpdateFiles.v ===== *)
(** * The files of an update

    cda-plugin-runtime-update/src/storage.rs: uploading database files into the
    pending update, checking them, listing the files in use, pending and backed
    up, and deleting pending files and backups. *)

From stdpp Require Import sorting.
From S2P Require Import Prelude StorageTypes FileSystem Wal LocalStorage StorageInvariant StorageRollback StorageApply StorageRecovery StorageCommit StorageAtomic StorageFrames LocalCollection MddFile RuntimeUpdate.
From Stdlib Require Import Ascii.

Local Open Scope string_scope.

(** ** Paths and hashes *)

(** The segments between slashes. *)
Fixpoint segments (s : string) : list string :=
  match s with
  | EmptyString => [""]
  | String a s' =>
      if Ascii.eqb a "/" then "" :: segments s'
      else match segments s' with [] => [String a ""] | x :: l => String a x :: l end
  end.

(** [Path::file_name]: the last segment, where empty and [.] segments do not
    count, unless it is [..]. *)
Definition file_name (p : string) : option string :=
  match last (filter (fun x => x <> "" /\ x <> ".") (segments p)) with
  | Some x => if String.eqb x ".." then None else Some x
  | None => None
  end.
Definition path_extension (p : string) : option string := file_name p ≫= extension.

(** [compute_sha256] reads 64 KiB at a time; every round reads a byte. *)
Definition HASH_BUFFER : nat := 64 * 1024.
Fixpoint read_chunks (fuel : nat) (data : file) (offset : Z) : list Z :=
  match fuel with
  | O => []
  | S fuel =>
      if (offset <? len data)%Z then
        let buf := read_at data offset HASH_BUFFER in
        match buf with
        | [] => []
        | _ => buf ++ read_chunks fuel data (sat_add offset (len buf))
        end
      else []
  end.

(** [{byte:02x}]. *)
Definition hex_char (d : Z) : string :=
  match String.get (Z.to_nat d) "0123456789abcdef" with Some a => String a "" | None => "" end.
Fixpoint hex_string (l : list Z) : string :=
  match l with [] => "" | b :: l => (hex_char (b / 16) +:+ hex_char (b mod 16)) +:+ hex_string l end.

Definition compute_sha256 (sha256 : list Z -> list Z) (data : file) : string :=
  hex_string (sha256 (read_chunks (length data) data 0)).

Lemma read_chunks_all fuel data (i : nat) : (length data <= fuel + i)%nat -> (i <= length data)%nat -> (len data <= USIZE_MAX)%Z ->
  read_chunks fuel data (Z.of_nat i) = drop i data.
Proof.
  intros Hf Hi Hl. revert i Hf Hi. induction fuel as [|fuel IH]; intros i Hf Hi; [by rewrite drop_ge by lia|]. cbn [read_chunks].
  unfold len in *. destruct (Z.ltb_spec (Z.of_nat i) (Z.of_nat (length data))) as [Hlt|]; [|by rewrite drop_ge by lia].
  unfold read_at. rewrite Nat2Z.id. set (buf := take HASH_BUFFER (drop i data)).
  assert (Hb : (0 < length buf <= length data - i)%nat) by (unfold buf; rewrite length_take, length_drop; unfold HASH_BUFFER; lia).
  assert (Hsat : sat_add (Z.of_nat i) (Z.of_nat (length buf)) = Z.of_nat (i + length buf)) by (unfold sat_add; lia).
  destruct buf as [|b buf'] eqn:E; [cbn in Hb; lia|]. rewrite Hsat, IH by lia. rewrite <- E in *.
  assert (Hlen : length buf = Nat.min HASH_BUFFER (length (drop i data))) by (unfold buf; by rewrite length_take).
  rewrite <- (take_drop HASH_BUFFER (drop i data)). fold buf. f_equal. rewrite drop_drop.
  destruct (decide (HASH_BUFFER <= length (drop i data))%nat).
  - f_equal. lia.
  - rewrite !drop_ge; rewrite ?length_drop in *; lia || done.
Qed.

Section update_files.
Context (order : list string -> list string) (crc32 : list Z -> Z).
Context (to_bytes : Operation -> option (list Z)) (sanitize : bool).
Context (decode : list Z -> option MddFile) (sha256 : list Z -> list Z) (to_lowercase : string -> string).
Context {R : Type}.
Abbreviation upd := (upd R).
Abbreviation get_collection := (get_collection sanitize).
Abbreviation get_or_create_collection := (get_or_create_collection sanitize).
Abbreviation transact := (transact order crc32).
Abbreviation read_mdd := (mmap_and_decode_mdd decode).

(** ** Listing *)

Definition descriptor (key : string) : BulkDataDescriptor :=
  {| bulk_id := key; bulk_name := Some key; size := None; hash := None; bulk_revision := None |}.

(** The description of one file; [None] for one whose metadata is unreadable. *)
Definition describe_file (collection : LocalCollection) (query : RuntimeFilesQuery) (key : string) : upd (option BulkDataDescriptor) :=
  m ← (if include_file_size query then r ← disk_result (metadata order sanitize collection key); mret (Some <$> result_ok r)
       else mret (Some None));
  match m with
  | None => mret None
  | Some meta =>
      h ← (if include_hash query then data ← on_disk (read order sanitize collection key); mret (Some (compute_sha256 sha256 data))
           else mret None);
      v ← (if include_revision query then
             p ← on_disk (file_path order sanitize collection key);
             asks (fun w => result_ok (read_mdd (get_file (disk (store w)) (dir_path collection) p)) ≫= revision)
           else mret None);
      mret (Some {| bulk_id := key; bulk_name := Some key; size := data_size <$> meta; hash := h; bulk_revision := v |})
  end.

Fixpoint describe_files (collection : LocalCollection) (query : RuntimeFilesQuery) (keys : list string) : upd (list BulkDataDescriptor) :=
  match keys with
  | [] => mret []
  | key :: keys =>
      item ← describe_file collection query key;
      items ← describe_files collection query keys;
      mret (match item with Some item => item :: items | None => items end)
  end.

Definition list_collection_files (collection : LocalCollection) (query : RuntimeFilesQuery) : upd (list BulkDataDescriptor) :=
  keys ← on_disk (list_keys order collection);
  describe_files collection query keys.

Definition get_collection_items (name : CollectionName) (query : RuntimeFilesQuery) : upd (list BulkDataDescriptor) :=
  r ← get_collection name;
  match r with
  | Ok collection => list_collection_files collection query
  | Err (CollectionNotFound _) => mret []
  | Err e => fail (from_storage_error e)
  end.

Definition list_current_files (query : RuntimeFilesQuery) : upd (list BulkDataDescriptor) := get_collection_items DiagnosticDatabase query.
Definition list_backup_files (query : RuntimeFilesQuery) : upd (list BulkDataDescriptor) := get_collection_items DiagnosticDatabaseBackup query.

Definition get_nextupdate_or_current_items (next_collection current_collection : CollectionName) (query : RuntimeFilesQuery)
    : upd (list BulkDataDescriptor) :=
  r ← get_collection next_collection;
  match r with
  | Ok collection => list_collection_files collection query
  | Err (CollectionNotFound _) => get_collection_items current_collection query
  | Err e => fail (from_storage_error e)
  end.

Definition by_id (a b : BulkDataDescriptor) : Prop := String.leb (bulk_id a) (bulk_id b) = true.
#[local] Instance by_id_dec a b : Decision (by_id a b).
Proof. unfold by_id. apply _. Defined.

Definition compute_nextupdate_state (query : RuntimeFilesQuery) : upd (list BulkDataDescriptor) :=
  items ← get_nextupdate_or_current_items DiagnosticDatabaseNextUpdate DiagnosticDatabase query;
  mret (merge_sort by_id items).

(** ** Deleting *)

Abbreviation copy_collection := (LocalStorage.copy_collection crc32 to_bytes sanitize).

(** The transaction with the mark that the copy was made, or was not needed. *)
Definition init_collection_from_copy_if_missing (tx : Transaction) (already_exists initialized : bool)
    (source destination : CollectionName) : io (Transaction * bool) :=
  if already_exists || initialized then mret (tx, initialized)
  else tx ← ignore_missing tx (copy_collection tx source destination); mret (tx, true).

Definition delete_nextupdate_file (file_id : string) : upd () :=
  let key := to_lowercase file_id in
  if bool_decide (to_lowercase <$> path_extension key = Some "mdd") then
    next ← get_collection DiagnosticDatabaseNextUpdate;
    next_already_exists ← match next with
      | Ok _ => mret true
      | Err (CollectionNotFound _) => mret false
      | Err e => fail (from_storage_error e)
      end;
    _ ← (if next_already_exists : bool then mret () else
      transact (fun tx =>
        '(tx, _) ← init_collection_from_copy_if_missing tx next_already_exists false DiagnosticDatabase DiagnosticDatabaseNextUpdate;
        mret (tx, ())));
    next_col ← get_or_create_collection DiagnosticDatabaseNextUpdate;
    next_keys ← on_disk (list_keys order next_col);
    if bool_decide (key ∈ (next_keys : list string)) then
      transact (fun tx => tx ← delete_key order crc32 to_bytes sanitize next_col tx key; mret (tx, ()))
    else fail (FileNotFound file_id)
  else fail (InvalidFileType file_id).

Definition delete_all_nextupdate : upd (list string) :=
  r ← get_collection DiagnosticDatabaseNextUpdate;
  deleted_ids ← match r with
    | Ok collection => on_disk (list_keys order collection)
    | Err (CollectionNotFound _) => mret []
    | Err e => fail (from_storage_error e)
    end;
  transact (fun tx =>
    tx ← delete_collection_ignore_missing crc32 to_bytes sanitize tx DiagnosticDatabaseNextUpdate; mret (tx, deleted_ids)).

Definition is_backup_empty : upd bool :=
  mdd_backup ← get_or_create_collection DiagnosticDatabaseBackup;
  on_disk (is_empty order mdd_backup).

Definition delete_all_backup : upd (list string) :=
  mdd_backup ← get_or_create_collection DiagnosticDatabaseBackup;
  transact (fun tx =>
    deleted_ids ← list_keys order mdd_backup;
    tx ← delete_all crc32 to_bytes mdd_backup tx;
    mret (tx, deleted_ids)).

(** ** Uploading *)

(** [DefaultUpdateSecurityHandler::check_file_integrity]. *)
Definition check_file_integrity (mdd : option file) : bool := is_ok (read_mdd mdd).

Definition check_file_integrity_and_roll_back_on_error (collection : LocalCollection) (key : string) : upd () :=
  p ← on_disk (file_path order sanitize collection key);
  ok ← asks (fun w => check_file_integrity (get_file (disk (store w)) (dir_path collection) p));
  if ok : bool then mret ()
  else
    rollback_result ← attempt (transact (fun tx => tx ← delete_key order crc32 to_bytes sanitize collection tx key; mret (tx, ())));
    match rollback_result with
    | Ok _ => fail ValidationFailed
    | Err _ =>
        cleanup_result ← attempt (execute_cleanup order crc32 to_bytes sanitize);
        match cleanup_result with
        | Err _ => fail FatalError
        | Ok _ => fail SevereError
        end
    end.

Definition has_mdd_extension (file : UploadFile) : bool :=
  match path_extension (filename file) with
  | Some e => eq_ignore_ascii_case e "mdd"
  | None => false
  end.

(** The loop of [upload_files]; each file comes with the fresh name it is staged
    under. *)
Fixpoint upload_loop (mdd_collection : LocalCollection) (mdd_already_exists mdd_initialized : bool)
    (files : list (UploadFile * string)) : upd (list string) :=
  match files with
  | [] => mret []
  | (file, staged_path) :: files =>
      let key := to_lowercase (filename file) in
      if bool_decide (to_lowercase <$> path_extension (filename file) = Some "mdd") then
        initialized ← transact (fun tx =>
          '(tx, initialized) ← init_collection_from_copy_if_missing tx mdd_already_exists mdd_initialized DiagnosticDatabase
            DiagnosticDatabaseNextUpdate;
          tx ← write crc32 to_bytes sanitize mdd_collection tx key (upload_data file) staged_path;
          mret (tx, initialized));
        _ ← check_file_integrity_and_roll_back_on_error mdd_collection key;
        items ← upload_loop mdd_collection mdd_already_exists initialized files;
        mret (key :: items)
      else fail (InvalidFileType (filename file))
  end.

Definition upload_files (files : list (UploadFile * string)) : upd (list string) :=
  match find (fun f => negb (has_mdd_extension f.1)) files with
  | Some (file, _) => fail (InvalidFileType (filename file))
  | None =>
      existing ← get_collection DiagnosticDatabaseNextUpdate;
      mdd_collection ← get_or_create_collection DiagnosticDatabaseNextUpdate;
      upload_loop mdd_collection (is_ok existing) false files
  end.
End update_files.

(** ** Uploading one file *)

(** [u'] differs from [u] in the collection [c] only, which it still has. *)
Definition fills (c : string) (u u' : fs) : Prop :=
  (forall x, x <> c -> collections u' !! x = collections u !! x) /\ staging u' = staging u /\
  (is_Some (collections u !! c) -> is_Some (collections u' !! c)).

Lemma fills_refl c u : fills c u u.
Proof. done. Qed.

Definition filling {A} (c : string) (m : io A) : Prop := forall u, fills c u (run_state m u).

Lemma filling_bind {A B} c (m : io A) (f : A -> io B) : filling c m -> (forall a, filling c (f a)) -> filling c (m ≫= f).
Proof.
  intros Hm Hf u. specialize (Hm u). unfold run_state, mbind, io_bind in *. destruct (m u) as [[t [a|e]] u']; [|done].
  specialize (Hf a u'). unfold run_state in Hf. destruct (f a u') as [[t' r] u''], Hm as (H1 & H2 & H3), Hf as (H4 & H5 & H6).
  split; [intros x Hx; by rewrite H4, H1|]. split; [congruence|auto].
Qed.

Lemma filling_insert c d u : fills c u (with_dir u c d).
Proof. split; [intros x Hx; cbn; by rewrite lookup_insert_ne|]. split; [done|]. intros _. cbn. rewrite lookup_insert_eq. by eexists. Qed.

Lemma filling_create c : filling c (create_dir_all c).
Proof. intros u. unfold create_dir_all, run_state, call. destruct (get_dir u c); [apply fills_refl|apply filling_insert]. Qed.

Lemma filling_copy order src c : filling c (copy_dir_contents order src c).
Proof.
  assert (Hq : forall A (f : fs -> A), filling c (query f)) by (intros A f u; apply fills_refl).
  assert (Hr : forall A (a : A), filling c (mret a : io A)) by (intros A a u; apply fills_refl).
  unfold copy_dir_contents, read_dir. apply filling_bind; [apply filling_bind; [apply Hq|by intros [d|] u; apply fills_refl]|].
  intros ks. induction ks as [|k ks IH]; [apply Hr|]. apply filling_bind; [|done]. apply filling_bind; [apply Hq|]. intros [|]; [|apply Hr].
  intros u. unfold when, copy_file, run_state, call. destruct (get_file u src k), (get_dir u c); [apply filling_insert|apply fills_refl..].
Qed.

(** A collection that is replaced by a copy is kept as backup. *)
Lemma copy_over order src dn ex u d : plain_name (as_str dn) -> collections u !! as_str dn = Some d -> collections u !! bak (as_str dn) = None ->
  let u' := run_state (apply_operation order (CopyCollection src dn ex)) u in
  collections u' !! bak (as_str dn) = Some d /\ staging u' = staging u /\ is_Some (collections u' !! as_str dn).
Proof.
  intros Hp Hd Hb u'. set (c := as_str dn) in *. set (v := with_collections u (<[bak c := d]> (delete c (collections u)))).
  assert (Hbk : backup_dir c u = ([v], Ok (), v)).
  { unfold backup_dir. rewrite (io_bind_ok true).
    - unfold when, rename_dir, call, get_dir. by rewrite Hd, Hb.
    - unfold query, dir_exists, get_dir. by rewrite Hd, bool_decide_eq_true_2. }
  assert (Hcr : create_dir_all c v = ([with_dir v c ∅], Ok (), with_dir v c ∅)).
  { unfold create_dir_all, call, get_dir. cbn. by rewrite lookup_insert_ne, lookup_delete_eq by by apply not_eq_sym, plain_ne_bak. }
  assert (Hu' : u' = run_state (copy_dir_contents order (as_str src) c) (with_dir v c ∅)).
  { unfold u', run_state. cbn [apply_operation]. fold c. unfold mbind, io_bind. rewrite Hbk, Hcr.
    by destruct (copy_dir_contents order (as_str src) c _) as [[t r] z]. }
  destruct (filling_copy order (as_str src) c (with_dir v c ∅)) as (H1 & H2 & H3). rewrite <- Hu' in H1, H2, H3.
  split; [|split; [exact H2|apply H3; cbn; rewrite lookup_insert_eq; by eexists]].
  rewrite H1 by by apply not_eq_sym, plain_ne_bak. cbn. by rewrite lookup_insert_ne, lookup_insert_eq by by apply plain_ne_bak.
Qed.

Section upload.
Context (order : list string -> list string) (crc32 : list Z -> Z).
Context (to_bytes : Operation -> option (list Z)) (from_bytes : list Z -> option Operation) (sanitize : bool).
Context (decode : list Z -> option MddFile) (to_lowercase : string -> string).
Context {R : Type}.
Hypothesis Horder : forall l, order l ≡ₚ l.
Hypothesis Hcodec : codec_ok crc32 to_bytes from_bytes.
Implicit Types w : world R.

Abbreviation append := (append_operation crc32 to_bytes).
Definition loggable (op : Operation) : Prop := exists e, encode_entry crc32 to_bytes op = Ok e.

(** The operations of an upload: the copy, where one is made, and the write. *)
Definition upload_ops (copy : bool) (k p : string) : list Operation :=
  ((if copy then [CopyCollection DiagnosticDatabase DiagnosticDatabaseNextUpdate true] else []) ++
  [Write DiagnosticDatabaseNextUpdate k p])%list.

Lemma append_ok op s l : loggable op -> wal_file s = Some l ->
  exists e s', append op s = ([s'], Ok (), s') /\ s' = mk_fs (collections s) (staging s) (Some (l ++ e)%list).
Proof.
  intros [e He] Hl. exists e, (mk_fs (collections s) (staging s) (Some (l ++ e)%list)). split; [|done].
  unfold append_operation. rewrite He. unfold mbind, io_bind, FileSystem.lift, query. rewrite Hl. reflexivity.
Qed.

Lemma upload_safe (copy : bool) C d k p v u : committed_ok C -> plain_name k -> C !! nxt = Some d -> (copy = true -> is_Some (C !! cur)) ->
  collections u = C -> staging u !! p = Some v -> ops_safe order C (upload_ops copy k p) u.
Proof.
  intros HC Hk Hd Hc Hu Hp.
  assert (Hb : C !! bak nxt = None).
  { destruct (C !! bak nxt) eqn:E; [|done]. destruct (HC _ _ E) as [Hpl _]. by destruct (bak_not_plain nxt). }
  assert (Hkb : d !! bak k = None).
  { destruct (d !! bak k) eqn:E; [|done]. destruct (HC _ _ Hd) as [_ Hks]. destruct (bak_not_plain k); [by apply plain_nonempty|].
    by eapply (Hks _ _ E). }
  destruct copy; cbn [upload_ops app ops_safe].
  - set (op := CopyCollection _ _ true). split; [split; [rewrite Hu; by apply Hc|]; split; [done|]|split; [|done]].
    { unfold untouched. rewrite Hu, Hd. by split. }
    destruct (copy_over order DiagnosticDatabase DiagnosticDatabaseNextUpdate true u d) as (H1 & H2 & [d' H3]); [done|by rewrite Hu..|].
    fold op in H1, H2, H3. split; [by exists v; rewrite H2|]. rewrite H3. unfold write_safe. by rewrite H1.
  - split; [|done]. split; [by eexists|]. rewrite Hu. rewrite Hd. unfold write_safe. rewrite Hb, Hd.
    destruct (d !! k) eqn:E; [|by intros []]. split; [done|by eexists].
Qed.

Abbreviation nxt_col := (collection_of DiagnosticDatabaseNextUpdate).
Abbreviation init_copy := (init_collection_from_copy_if_missing crc32 to_bytes sanitize).
Definition needs_copy (C : gmap string dir) (already initialized : bool) : bool :=
  negb (already || initialized) && is_dir C DiagnosticDatabase.

(** The body of the transaction of an upload. *)
Definition upload_body (already initialized : bool) (key p : string) (data : list Z) (tx : Transaction) : io (Transaction * bool) :=
  '(tx, initialized) ← init_copy tx already initialized DiagnosticDatabase DiagnosticDatabaseNextUpdate;
  tx ← write crc32 to_bytes sanitize nxt_col tx key data p;
  mret (tx, initialized).

Lemma init_copy_records C already initialized d : C !! nxt = Some d ->
  let ops := if needs_copy C already initialized
             then [CopyCollection DiagnosticDatabase DiagnosticDatabaseNextUpdate true] else [] in
  records crc32 to_bytes C (init_copy {| tx_operations := [] |} already initialized DiagnosticDatabase DiagnosticDatabaseNextUpdate)
    ops ({| tx_operations := ops |}, negb already || initialized).
Proof.
  intros Hd ops. unfold init_collection_from_copy_if_missing, ops, needs_copy.
  destruct already, initialized; cbn [orb negb andb]; try apply records_ret.
  assert (Hn : is_dir C DiagnosticDatabaseNextUpdate = true) by (apply bool_decide_eq_true; by eexists).
  assert (Hac : accepted sanitize DiagnosticDatabase /\ accepted sanitize DiagnosticDatabaseNextUpdate) by (by destruct sanitize).
  destruct (is_dir C DiagnosticDatabase) eqn:E.
  - apply bool_decide_eq_true in E.
    pose proof (records_copy crc32 to_bytes sanitize C {| tx_operations := [] |} DiagnosticDatabase DiagnosticDatabaseNextUpdate
      (proj1 Hac) (proj2 Hac) E) as Hr. rewrite Hn in Hr.
    intros s Hs. unfold ignore_missing, try_io. unfold mbind, io_bind. rewrite (Hr s Hs). unfold mbind, io_bind. cbn [for_each].
    pose proof (append_error crc32 to_bytes (CopyCollection DiagnosticDatabase DiagnosticDatabaseNextUpdate true) s) as He.
    unfold run_result in He. unfold mbind, io_bind. destruct (append _ s) as [[t [[]|e]] s'].
    + cbn. by rewrite !app_nil_r.
    + specialize (He e eq_refl). destruct e; cbn; rewrite ?app_nil_r; try done. by destruct (He name).
  - apply bool_decide_eq_false, eq_None_not_Some in E. intros s Hs. unfold ignore_missing, try_io.
    assert (Hm : LocalStorage.copy_collection crc32 to_bytes sanitize {| tx_operations := [] |} DiagnosticDatabase DiagnosticDatabaseNextUpdate s
      = ([], Err (CollectionNotFound cur), s)).
    { unfold LocalStorage.copy_collection. rewrite !collection_dir_ok by apply Hac. rewrite (io_bind_ok cur) by done.
      rewrite (io_bind_ok false); [done|]. unfold query, dir_exists, get_dir. by rewrite Hs, E. }
    unfold mbind, io_bind. by rewrite Hm.
Qed.

(** What the body leaves: the data staged, the operations in the log. *)
Lemma upload_body_ok C already initialized key p data d s l : C !! nxt = Some d -> normalize_key key = key ->
  sanitize_path_segment sanitize key = Ok () -> collections s = C -> staging s = ∅ -> wal_file s = Some l ->
  let ops := upload_ops (needs_copy C already initialized) key p in
  Forall loggable ops ->
  exists t l', upload_body already initialized key p data {| tx_operations := [] |} s =
    (t, Ok ({| tx_operations := ops |}, negb already || initialized), mk_fs C {[ p := data ]} (Some l')).
Proof.
  intros Hd Hk Hsan Hs Hst Hl ops Hlog. unfold upload_body. unfold mbind at 1, io_bind at 1.
  rewrite (init_copy_records C already initialized d Hd s Hs). unfold upload_ops in ops.
  assert (Hinit : exists t s1 l1, for_each (if needs_copy C already initialized
      then [CopyCollection DiagnosticDatabase DiagnosticDatabaseNextUpdate true] else []) append s = (t, Ok (), s1) /\
      collections s1 = C /\ staging s1 = ∅ /\ wal_file s1 = Some l1).
  { unfold ops in Hlog. destruct (needs_copy C already initialized); [|by exists [], s, l].
    apply Forall_cons in Hlog as [Hc _]. destruct (append_ok _ s l Hc Hl) as (e & s1 & He & ->).
    cbn [for_each]. unfold mbind, io_bind. rewrite He. cbn. eexists _, _, _. do 3 (split; [done|]). done. }
  destruct Hinit as (t & s1 & l1 & Hf & Hs1 & Hst1 & Hl1). unfold mbind at 1, io_bind at 1. rewrite Hf. cbn [mret io_ret].
  unfold write. rewrite Hk, Hsan. cbn [FileSystem.lift].
  assert (Hw : loggable (Write DiagnosticDatabaseNextUpdate key p)).
  { unfold ops in Hlog. apply Forall_app in Hlog as [_ Hw]. by apply Forall_inv in Hw. }
  set (s3 := mk_fs C {[ p := data ]} (Some l1)).
  destruct (append_ok _ s3 l1 Hw eq_refl) as (e & s4 & He & ->).
  unfold record, set_staged, call, mbind, io_bind, FileSystem.lift, mret, io_ret. cbn. rewrite Hs1, Hst1, Hl1, insert_empty, insert_singleton_eq.
  fold s3. rewrite He. cbn. eexists _, _. done.
Qed.

(** What a file is added to: a copy of the files in use where one is made. *)
Definition upload_base (C : gmap string dir) (already initialized : bool) (d : dir) : dir :=
  if needs_copy C already initialized then database C else d.

Lemma upload_spec C already initialized key p data d : C !! nxt = Some d ->
  (spec_run (upload_ops (needs_copy C already initialized) key p) (C, {[ p := data ]})).1 =
  <[nxt := <[key := data]> (upload_base C already initialized d)]> C.
Proof.
  intros Hd. unfold upload_base, upload_ops, spec_run. destruct (needs_copy C already initialized) eqn:E; cbn [app foldl spec_step].
  - unfold needs_copy in E. apply andb_true_iff in E as [_ [a Ha]%bool_decide_eq_true]. rewrite Ha, lookup_singleton_eq.
    cbn [fst]. rewrite lookup_insert_eq, insert_insert_eq. unfold database. by rewrite Ha.
  - rewrite lookup_singleton_eq. cbn [fst]. by rewrite Hd.
Qed.

Definition key_ok (key : string) : Prop :=
  plain_name key /\ normalize_key key = key /\ sanitize_path_segment sanitize key = Ok ().

Lemma upload_ops_ok C d (copy : bool) key p : C !! nxt = Some d -> plain_name key ->
  Forall (wf_op C) (upload_ops copy key p) /\ Forall names_ok (upload_ops copy key p).
Proof.
  intros Hd Hk. split; (destruct copy; repeat constructor; try by split); try done; try apply Hk.
  cbn. rewrite bool_decide_eq_true_2; [done|by eexists].
Qed.

Lemma upload_transaction_runs w C d already initialized key p data (P : fs -> Prop) (Q : bool -> world R -> Prop) E : (forall u, P u) ->
  idle w C -> C !! nxt = Some d -> key_ok key -> Forall loggable (upload_ops (needs_copy C already initialized) key p) ->
  Q (negb already || initialized) (with_disk w (<[nxt := <[key := data]> (upload_base C already initialized d)]> C)) ->
  truns (transact order crc32 (upload_body already initialized key p data)) w P Q E.
Proof.
  intros HP (Hact & Hdisk & HC) Hd (Hpl & Hnk & Hsan) Hlog HQ. unfold transact. apply truns_bind, truns_asks. rewrite Hact.
  apply truns_on_disk. rewrite Hdisk. set (ops := upload_ops (needs_copy C already initialized) key p) in *.
  set (s1 := mk_fs C ∅ (Some (encode_header crc32 STATUS_RECORDING))).
  assert (Hwal : exists t, create_wal crc32 (mk_fs C ∅ None) = (t, Ok (), s1)) by (by eexists).
  destruct Hwal as [t1 Hwal].
  destruct (upload_body_ok C already initialized key p data d s1 _ Hd Hnk Hsan eq_refl eq_refl eq_refl Hlog) as (t2 & l' & Hbody).
  fold ops in Hbody. set (s2 := mk_fs C {[ p := data ]} (Some l')) in *.
  assert (Hc : runs (commit_operations order crc32 ops) s2 (fun _ => True)
    (fun _ u => u = mk_fs (spec_run ops (C, {[ p := data ]})).1 ∅ None) (fun _ _ => False)).
  { apply (commit_succeeds order crc32 ops s2 l'); try done; [by eapply upload_ops_ok..|]. eapply upload_safe; [done|done|done| |done|].
    - intros Hn. unfold needs_copy in Hn. by apply andb_true_iff in Hn as [_ Hn%bool_decide_eq_true].
    - cbn. apply lookup_singleton_eq. }
  unfold runs in *. unfold transaction_with, mbind, io_bind. rewrite Hwal. unfold try_io. rewrite Hbody.
  destruct (commit_operations order crc32 ops s2) as [[t3 [[]|e]] s3] eqn:Ec; [|by destruct Hc]. destruct Hc as [_ ->].
  cbn [tx_operations]. rewrite Ec. split; [by apply Forall_true|]. cbn. unfold ops. by rewrite (upload_spec _ _ _ _ _ _ d).
Qed.

Lemma base_ok C already initialized d : committed_ok C -> C !! nxt = Some d ->
  map_Forall (fun k _ => plain_name k) (upload_base C already initialized d).
Proof.
  intros HC Hd. unfold upload_base, database. destruct (needs_copy _ _ _); [|apply (HC _ _ Hd)].
  destruct (C !! cur) eqn:E; [apply (HC _ _ E)|apply map_Forall_empty].
Qed.

Lemma set_next_ok C d : committed_ok C -> map_Forall (fun k _ => plain_name k) d -> committed_ok (<[nxt := d]> C).
Proof. intros HC Hd. apply map_Forall_insert_2; [|done]. split; [by split|done]. Qed.

Abbreviation check := (check_file_integrity_and_roll_back_on_error order crc32 to_bytes sanitize decode).

Lemma check_runs w C d key data (P : fs -> Prop) (Q : () -> world R -> Prop) E : idle w C -> C !! nxt = Some d -> key_ok key ->
  d !! key = Some data -> check_file_integrity decode (Some data) = true -> Q () w ->
  truns (check nxt_col key) w P Q E.
Proof.
  intros (_ & Hdisk & _) Hd (_ & Hnk & Hsan) Hk Hok HQ. unfold check_file_integrity_and_roll_back_on_error.
  assert (Hget : get_file (disk (store w)) nxt key = Some data) by (unfold get_file, get_dir; rewrite Hdisk; cbn [collections]; by rewrite Hd).
  assert (Hex : file_exists (disk (store w)) nxt key = true) by (unfold file_exists; rewrite Hget; apply bool_decide_eq_true; by eexists).
  apply truns_bind, truns_on_disk. unfold file_path. rewrite Hnk. apply runs_bind. unfold ensure_normalized_on_disk.
  apply runs_bind, runs_query. cbn [collection_of dir_path]. rewrite Hex. apply runs_ret, runs_bind, runs_lift. unfold key_path. rewrite Hsan.
  cbn [mbind result_bind].
  apply runs_bind, runs_query. rewrite Hex. apply runs_ret. rewrite set_disk_id. apply truns_bind, truns_asks.
  cbn [collection_of dir_path]. rewrite Hget, Hok. by apply truns_ret.
Qed.

(** A file whose upload is accepted. *)
Definition acceptable (f : UploadFile * string) : Prop :=
  let key := to_lowercase (filename f.1) in
  to_lowercase <$> path_extension (filename f.1) = Some "mdd" /\ has_mdd_extension f.1 = true /\ key_ok key /\
  check_file_integrity decode (Some (upload_data f.1)) = true /\
  loggable (Write DiagnosticDatabaseNextUpdate key f.2).

Definition with_uploads (files : list (UploadFile * string)) (d : dir) : dir :=
  foldl (fun d f => <[to_lowercase (filename f.1) := upload_data f.1]> d) d files.

Abbreviation loop := (upload_loop order crc32 to_bytes sanitize decode to_lowercase nxt_col).

Lemma upload_loop_runs files w C d already initialized (P : fs -> Prop) (Q : list string -> world R -> Prop) E : (forall u, P u) ->
  idle w C -> C !! nxt = Some d -> Forall acceptable files ->
  loggable (CopyCollection DiagnosticDatabase DiagnosticDatabaseNextUpdate true) ->
  Q ((fun f => to_lowercase (filename f.1)) <$> files)
    (with_disk w (<[nxt := match files with [] => d | _ => with_uploads files (upload_base C already initialized d) end]> C)) ->
  truns (loop already initialized files) w P Q E.
Proof.
  intros HP Hw Hd Hf Hcopy. revert w C d initialized Hw Hd Q.
  induction Hf as [|[f p] files (Hext & _ & Hkey & Hint & Hlog) _ IH]; intros w C d initialized Hw Hd Q HQ; pose proof Hw as (_ & Hdisk & HC).
  - apply truns_ret. rewrite insert_id in HQ by done. unfold with_disk in HQ. by rewrite <- Hdisk, set_disk_id in HQ.
  - cbn [upload_loop]. cbn in Hext, Hint, Hlog, Hkey. rewrite bool_decide_eq_true_2 by done. set (key := to_lowercase (filename f)) in *.
    set (d' := <[key := upload_data f]> (upload_base C already initialized d)). set (C' := <[nxt := d']> C).
    assert (HC' : committed_ok C').
    { apply set_next_ok; [done|]. apply map_Forall_insert_2; [apply Hkey|by apply base_ok]. }
    assert (Hw' : idle (with_disk w C') C') by (by apply (idle_with_disk w C)).
    apply truns_bind. eapply (upload_transaction_runs w C d already initialized key p (upload_data f)); try done.
    { unfold upload_ops. apply Forall_app. split; [|by repeat constructor]. by destruct (needs_copy _ _ _); repeat constructor. }
    apply truns_bind. eapply (check_runs _ C' d' key (upload_data f)); [done|apply lookup_insert_eq|done|apply lookup_insert_eq|done|].
    apply truns_bind, (IH _ C' d'); [done|apply lookup_insert_eq|]. apply truns_ret.
    assert (upload_base C' already (negb already || initialized) d' = d') as ->.
    { unfold upload_base, needs_copy. by destruct already. }
    revert HQ. cbn [fmap list_fmap with_uploads foldl fst]. fold key. unfold C'.
    destruct files as [|f' files]; cbn [with_uploads foldl]; fold d'; by rewrite insert_insert_eq.
Qed.
End upload.

(** C22: uploaded files are added to the pending update.  Files that can be read
    as databases are all accepted; afterwards the pending update holds them under
    their names in lower case, a later file of the same name for an earlier one,
    beside what was pending before or, if nothing was, beside a copy of all files
    in use; nothing else has changed and the storage is ready for the next
    transaction. *)
Theorem uploads_are_staged order crc32 to_bytes from_bytes sanitize decode to_lowercase {R} (w : world R) C files :
  (forall l, order l ≡ₚ l) -> codec_ok crc32 to_bytes from_bytes -> idle w C -> files <> [] ->
  Forall (acceptable crc32 to_bytes sanitize decode to_lowercase) files ->
  loggable crc32 to_bytes (CopyCollection DiagnosticDatabase DiagnosticDatabaseNextUpdate true) ->
  let run := upload_files order crc32 to_bytes sanitize decode to_lowercase files in
  outcome run w = Ok ((fun f => to_lowercase (filename f.1)) <$> files) /\
  after run w = with_disk w (<[nxt := with_uploads to_lowercase files (default (database C) (C !! nxt))]> C).
Proof.
  intros Horder Hcodec Hw Hne Hf Hcopy run. pose proof Hw as (_ & Hdisk & HC).
  assert (Hr : truns run w (fun _ => True) (fun ids w' => ids = (fun f => to_lowercase (filename f.1)) <$> files /\
    w' = with_disk w (<[nxt := with_uploads to_lowercase files (default (database C) (C !! nxt))]> C)) (fun _ _ => False)).
  2:{ apply truns_outcome in Hr. destruct (outcome run w); [|done]. by destruct Hr as [-> ->]. }
  unfold run, upload_files. destruct (find _ files) as [[f p]|] eqn:Efind.
  { apply find_some in Efind as [Hin Hext]. rewrite Forall_forall in Hf. destruct (Hf (f, p)) as (_ & Hh & _); [by apply list_elem_of_In|].
    cbn in Hext, Hh. by rewrite Hh in Hext. }
  unfold RuntimeUpdate.get_collection. apply truns_bind, truns_asks. set (C' := created C DiagnosticDatabaseNextUpdate).
  assert (HC' : committed_ok C') by (apply (created_ok sanitize); [unfold builtin; auto|done]).
  apply truns_bind. eapply (get_or_create_runs sanitize w C); [done|unfold builtin; auto|done|]. fold C'.
  pose proof (created_lookup C DiagnosticDatabaseNextUpdate) as Hn. fold C' in Hn.
  eapply upload_loop_runs; try done; [by apply (idle_with_disk w C)|]. split; [done|].
  destruct files as [|f files]; [done|]. unfold LocalStorage.get_collection, dir_exists, get_dir. rewrite Hdisk.
  rewrite collection_dir_ok by (apply builtin_accepted; unfold builtin; auto). cbn [mbind result_bind collections].
  assert (Hcur : C' !! cur = C !! cur) by (unfold C'; by rewrite created_lookup_ne).
  destruct (C !! nxt) as [d|] eqn:E.
  - rewrite bool_decide_eq_true_2 by by eexists. assert (HCC : C' = C) by (unfold C', created; by rewrite E).
    unfold with_disk, set_disk. cbn. rewrite HCC. done.
  - rewrite bool_decide_eq_false_2 by by intros []. unfold with_disk, set_disk. cbn [is_ok fmap result_fmap store tx_active runtime].
    assert (Hb : upload_base C' false false ∅ = database C).
    { unfold upload_base, needs_copy, is_dir, database. rewrite Hcur. destruct (C !! cur); [by rewrite bool_decide_eq_true_2 by by eexists|].
      by rewrite bool_decide_eq_false_2 by by intros []. }
    cbn [default from_option]. unfold default, from_option, id. rewrite Hb. unfold C', created. rewrite E. by rewrite insert_insert_eq.
Qed.

(** ** Concrete uploads *)

Definition mdd_bytes : file := (file_magic_bytes ++ [0%Z])%list.
Definition upload_of (name : string) (data : list Z) : UploadFile * string := ({| filename := name; upload_data := data |}, "tmp-1").
Definition upload_table : list Operation :=
  ([CopyCollection DiagnosticDatabase DiagnosticDatabaseNextUpdate true; Write DiagnosticDatabaseNextUpdate "c.mdd" "tmp-1";
    Write DiagnosticDatabaseNextUpdate "a.mdd" "tmp-1"; Delete DiagnosticDatabaseNextUpdate "a.mdd"] ++ update_table)%list.
Definition one_file : gmap string dir := {[ cur := {[ "a.mdd" := mdd_bytes ]} ]}.

Definition sample_upload (files : list (UploadFile * string)) : upd (list path) (list string) :=
  upload_files id ex_crc (table_bytes upload_table) false (sample_decode [plain_mdd]) to_ascii_lowercase files.
Definition pending_after {A} (m : upd (list path) A) : option dir :=
  collections (disk (store (after m (update_world one_file)))) !! nxt.

Lemma one_file_idle : idle (update_world one_file) one_file.
Proof.
  split; [done|]. split; [done|]. unfold one_file. intros c d [<- <-]%lookup_singleton_Some. split; [by split|].
  intros k v [<- <-]%lookup_singleton_Some. by split.
Qed.

Lemma uploads_are_staged_witness :
  outcome (sample_upload [upload_of "C.mdd" mdd_bytes]) (update_world one_file) = Ok ["c.mdd"] /\
  pending_after (sample_upload [upload_of "C.mdd" mdd_bytes]) = Some {[ "a.mdd" := mdd_bytes; "c.mdd" := mdd_bytes ]}.
Proof.
  destruct (uploads_are_staged id ex_crc (table_bytes upload_table) (table_op upload_table) false (sample_decode [plain_mdd])
    to_ascii_lowercase (update_world one_file) one_file [upload_of "C.mdd" mdd_bytes]) as [Ho Ha];
    [intros l; reflexivity|apply table_codec; cbn; lia|apply one_file_idle|discriminate| |by eexists|].
  - constructor; [|constructor]. split; [reflexivity|]. split; [reflexivity|]. split; [split; [by split|by split]|].
    split; [vm_compute; reflexivity|by eexists].
  - split; [exact Ho|]. unfold pending_after, sample_upload. rewrite Ha. vm_compute. reflexivity.
Defined.

(** A new version of a file in use that cannot be read is refused; but the
    pending update then lacks the file, and applying it removes the file. *)
Example refused_upload_removes_the_file :
  let refused := _ ← attempt (sample_upload [upload_of "a.mdd" [7%Z]]);
    run_apply id ex_crc (table_bytes upload_table) false (sample_decode [plain_mdd]) (fun _ => None) (fun _ => None) id id
      (create_unless "") (fun _ => true) (fun _ => true) false in
  outcome (sample_upload [upload_of "a.mdd" [7%Z]]) (update_world one_file) = Err ValidationFailed /\
  outcome refused (update_world one_file) = Ok () /\
  database (collections (disk (store (after refused (update_world one_file))))) = ∅.
Proof. vm_compute. auto. Qed.

(** An upload of no file leaves an empty pending update: the next upload is added
    to nothing instead of a copy of the files in use. *)
Example empty_upload_forgets_the_database :
  pending_after (sample_upload []) = Some ∅ /\
  pending_after (_ ← sample_upload []; sample_upload [upload_of "c.mdd" mdd_bytes]) = Some {[ "c.mdd" := mdd_bytes ]}.
Proof. split; vm_compute; reflexivity. Qed.
