(* ===== verification/Locks.v ===== *)
(** * SOVD locks

    cda-sovd/src/sovd/locks.rs with the POST handler of
    functions/functional_groups/locks.rs: the locks on the vehicle, its ECUs
    and its functional groups, their owners, their expiry and the clean-up when
    one is released.  A handler holds the guards of the lock tables it decides
    on until it has answered, so each is one function on the state; the POST of
    a functional group releases the table of the ECUs in between and is two.
    LockOrder.v is about the guards themselves.  Times are in nanoseconds. *)

From stdpp Require Import strings gmap.
From S2P Require Import Prelude.
From stdpp Require Import list.

Local Open Scope Z_scope.

(** ** Data *)

Inductive ApiError : Type :=
  | BadRequest
  | Forbidden
  | NotFound
  | InternalServerError
  | Conflict
  | NotResponding
  | InvalidParameter.

Inductive LockType : Type := Vehicle | Ecu | FunctionalGroup.

#[export] Instance LockType_eq_dec : EqDecision LockType.
Proof. solve_decision. Defined.

Inductive TesterPresentType : Type :=
  | TesterPresentEcu (ecu : string)
  | TesterPresentFunctional (group : string).

(** The clean-up closure of a lock, with what it captured. *)
Inductive LockCleanupFn : Type :=
  | CleanupEcu (ecu : string)
  | CleanupFunctionalGroup (group : string)
  | CleanupVehicle.

(** The deletion task is named by its number among the spawned tasks. *)
Record Lock : Type := {
  id : string;
  expiration : Z;
  owner : string;
  deletion_task : nat;
  cleanup_fn : LockCleanupFn
}.

Abbreviation LockHashMap := (gmap string (option Lock)).

Record Locks : Type := {
  vehicle : option Lock;
  ecu : LockHashMap;
  functional_group : LockHashMap
}.

(** A spawned deletion task that has not ended and was not aborted. *)
Record DeletionTask : Type := {
  task_entity : option string;
  task_lock_id : string;
  task_lock : LockType;
  target_instant : Z
}.

(** What the UDS layer is asked to do. *)
Inductive uds_call : Type :=
  | StartTesterPresent (type_ : TesterPresentType)
  | StopTesterPresent (type_ : TesterPresentType)
  | ResetSessionAndSecurity (ecu : string).

Record State : Type := {
  locks : Locks;
  tasks : gmap nat DeletionTask;
  spawned : nat;
  uds_calls : list uds_call
}.

Abbreviation handler := (st_result State ApiError).

(** What a request brings along: the caller, the body, the readings of the
    clock on its way, the identifier [Uuid::new_v4] draws, and what the UDS
    layer answers. *)
Record Request : Type := {
  sub : string;
  utc_expiration : Z;
  now_create : Z;
  now_schedule : Z;
  new_id : string;
  tester_present_active : bool;
  start_tester_present : result ApiError ()
}.

Definition SECOND : Z := 10 ^ 9.

(** The largest [Instant]. *)
Definition INSTANT_MAX : Z := (2 ^ 63 - 1) * SECOND.

(** ** Tables *)

Definition set_vehicle (l : option Lock) (s : State) : State :=
  {| locks := {| vehicle := l; ecu := ecu (locks s); functional_group := functional_group (locks s) |};
     tasks := tasks s; spawned := spawned s; uds_calls := uds_calls s |}.

Definition set_ecu (m : LockHashMap) (s : State) : State :=
  {| locks := {| vehicle := vehicle (locks s); ecu := m; functional_group := functional_group (locks s) |};
     tasks := tasks s; spawned := spawned s; uds_calls := uds_calls s |}.

Definition set_functional_group (m : LockHashMap) (s : State) : State :=
  {| locks := {| vehicle := vehicle (locks s); ecu := ecu (locks s); functional_group := m |};
     tasks := tasks s; spawned := spawned s; uds_calls := uds_calls s |}.

Definition set_tasks (t : gmap nat DeletionTask) (n : nat) (s : State) : State :=
  {| locks := locks s; tasks := t; spawned := n; uds_calls := uds_calls s |}.

Definition call_uds (c : uds_call) (s : State) : State :=
  {| locks := locks s; tasks := tasks s; spawned := spawned s; uds_calls := uds_calls s ++ [c] |}.

Definition table (t : LockType) (s : State) : LockHashMap :=
  match t with Vehicle => ∅ | Ecu => ecu (locks s) | FunctionalGroup => functional_group (locks s) end.

Definition set_table (t : LockType) (m : LockHashMap) (s : State) : State :=
  match t with Vehicle => s | Ecu => set_ecu m s | FunctionalGroup => set_functional_group m s end.

(** [JoinHandle::abort]. *)
Definition abort (task : nat) (s : State) : State :=
  set_tasks (delete task (tasks s)) (spawned s) s.

(** [task::spawn]. *)
Definition spawn (task : DeletionTask) (s : State) : State :=
  set_tasks (<[spawned s := task]> (tasks s)) (S (spawned s)) s.

(** [WriteLock::get_mut]: reading the entry creates it. *)
Definition get_mut (t : LockType) (entity_id : option string) : handler (option Lock) := fun s =>
  match t, entity_id with
  | Vehicle, _ => (s, Ok (vehicle (locks s)))
  | _, None => (s, Err NotFound)
  | _, Some key =>
      match table t s !! key with
      | Some l => (s, Ok l)
      | None => (set_table t (<[key := None]> (table t s)) s, Ok None)
      end
  end.

(** Writing through the reference [get_mut] returned. *)
Definition write_lock (t : LockType) (entity_id : option string) (l : option Lock) (s : State) : State :=
  match t, entity_id with
  | Vehicle, _ => set_vehicle l s
  | _, Some key => set_table t (<[key := l]> (table t s)) s
  | _, None => s
  end.

(** [ReadLock::is_any_locked] of a table. *)
Definition is_any_locked (m : LockHashMap) : bool :=
  existsb (fun kl => bool_decide (is_Some kl.2)) (map_to_list m).

(** ** Validation *)

Definition is_owned_by (claim_sub : string) (l : Lock) : bool := bool_decide (owner l = claim_sub).

Definition validate_claim (lock_id : option string) (claim_sub : string) (lock_opt : option Lock)
    : result ApiError () :=
  match lock_opt with
  | Some lock =>
      if negb (bool_decide (claim_sub = owner lock))
         || match lock_id with Some i => negb (bool_decide (i = id lock)) | None => false end
      then Err Forbidden else Ok tt
  | None => Ok tt
  end.

(** [all_locks_owned] of a table. *)
Definition all_locks_owned (m : LockHashMap) (claim_sub : string) : result ApiError () :=
  foldr (fun kl r => _ ← validate_claim None claim_sub kl.2; r) (Ok tt) (map_to_list m).

(** [get_locks] of a table: the lock of the named entity. *)
Definition get_locks (m : LockHashMap) (entity_name : string) : list Lock :=
  match m !! entity_name with Some (Some l) => [l] | _ => [] end.

Definition get_locks_vehicle (l : option Lock) : list Lock :=
  match l with Some l => [l] | None => [] end.

(** [None]: the caller may go on. *)
Definition validate_owned (m : LockHashMap) (s : State) (claim_sub : string) : option ApiError :=
  match validate_claim None claim_sub (vehicle (locks s)) with
  | Err e => Some e
  | Ok _ => match all_locks_owned m claim_sub with Err e => Some e | Ok _ => None end
  end.

Definition validate_entity (m : LockHashMap) (s : State) (claim_sub entity_name : string) : option ApiError :=
  match get_locks m entity_name, get_locks_vehicle (vehicle (locks s)) with
  | [], [] => Some Forbidden
  | _, _ => validate_owned m s claim_sub
  end.

Definition validate_lock (s : State) (claim_sub ecu_name : string) : option ApiError :=
  validate_entity (ecu (locks s)) s claim_sub ecu_name.

Definition validate_fg_lock (s : State) (claim_sub group : string) : option ApiError :=
  validate_entity (functional_group (locks s)) s claim_sub group.

Section locks.
(** The ECUs of the vehicle and of a functional group, the groups of an ECU,
    [str::to_lowercase], and the unspecified order of iterating a [HashMap]. *)
Context (get_ecus : list string).
Context (ecus_for_functional_group : string -> list string).
Context (ecu_functional_groups : string -> result ApiError (list string)).
Context (to_lowercase : string -> string).
Context (order : list (string * option Lock) -> list (string * option Lock)).

(** ** Releasing a lock *)

Definition reset_all (l : list string) (s : State) : State :=
  fold_left (fun s e => call_uds (ResetSessionAndSecurity e) s) l s.

(** The clean-up of a lock in a table. *)
Definition call_entity_cleanup (c : LockCleanupFn) (s : State) : State :=
  match c with
  | CleanupEcu e => call_uds (ResetSessionAndSecurity e) (call_uds (StopTesterPresent (TesterPresentEcu e)) s)
  | CleanupFunctionalGroup g =>
      reset_all (ecus_for_functional_group g) (call_uds (StopTesterPresent (TesterPresentFunctional g)) s)
  | CleanupVehicle => s
  end.

(** [WriteLock::delete] with what a clean-up does. *)
Definition delete_with (call : LockCleanupFn -> State -> State) (t : LockType) (entity_name : option string)
    : handler () := fun s =>
  match t with
  | Vehicle =>
      match vehicle (locks s) with
      | Some e => (call (cleanup_fn e) (set_vehicle None s), Ok tt)
      | None => (s, Ok tt)
      end
  | _ =>
      match entity_name with
      | None => (s, Err BadRequest)
      | Some name =>
          match table t s !! name with
          | Some (Some e) => (call (cleanup_fn e) (set_table t (delete name (table t s)) s), Ok tt)
          | Some None => (set_table t (delete name (table t s)) s, Ok tt)
          | None => (s, Err NotFound)
          end
      end
  end.

(** The next held lock of a table, in the order of iteration. *)
Definition next_held (m : LockHashMap) : option (string * Lock) :=
  head (omap (fun kl => pair kl.1 <$> kl.2) (order (map_to_list m))).

(** A round of the vehicle clean-up under the guard of a table. *)
Definition clear_round (t : LockType) (name : string) (l : Lock) (s : State) : State :=
  (delete_with call_entity_cleanup t (Some name) (abort (deletion_task l) s)).1.

(** The loop over one table: at most one round per entry. *)
Fixpoint clear_table (fuel : nat) (t : LockType) (s : State) : State :=
  match fuel with
  | O => s
  | S fuel =>
      match next_held (table t s) with
      | None => s
      | Some (name, l) => clear_table fuel t (clear_round t name l s)
      end
  end.

(** The part of a clean-up before the loops, which take the guard of a table
    anew for each round. *)
Definition begin_cleanup (c : LockCleanupFn) (s : State) : State :=
  match c with CleanupVehicle => reset_all get_ecus s | _ => call_entity_cleanup c s end.

(** A clean-up that nothing comes between. *)
Definition call_cleanup (c : LockCleanupFn) (s : State) : State :=
  let s := begin_cleanup c s in
  match c with
  | CleanupVehicle =>
      let s := clear_table (size (table Ecu s)) Ecu s in
      clear_table (size (table FunctionalGroup s)) FunctionalGroup s
  | _ => s
  end.

Definition delete_held (t : LockType) (entity_name : option string) : handler () :=
  delete_with call_cleanup t entity_name.

(** ** Expiry *)

(** The task sleeps for the whole seconds until the expiration. *)
Definition schedule_token_deletion (entity : option string) (lock_id : string) (lock : LockType)
    (expiration now : Z) : handler nat := fun s =>
  let duration_until_target := expiration - now in
  if duration_until_target <? 0 then (s, Err BadRequest)
  else
    let target := now + duration_until_target / SECOND * SECOND in
    if INSTANT_MAX <? target then (s, Err InternalServerError)
    else
      let task := {| task_entity := entity; task_lock_id := lock_id; task_lock := lock;
                     target_instant := target |} in
      (spawn task s, Ok (spawned s)).

(** The body of a deletion task that woke up, with what its clean-up does. *)
Definition deletion_task_with (call : LockCleanupFn -> State -> State) (task : DeletionTask) : handler () :=
  entity_lock ← get_mut (task_lock task) (task_entity task);
  match entity_lock with
  | Some current_lock =>
      if bool_decide (id current_lock = task_lock_id task)
      then delete_with call (task_lock task) (task_entity task)
      else mret tt
  | None => mret tt
  end.

Definition deletion_task_body : DeletionTask -> handler () := deletion_task_with call_cleanup.

(** ** Creating, extending and deleting a lock *)

Definition cleanup_for (t : LockType) (entity_name : option string) (r : Request) : handler LockCleanupFn :=
  match t, entity_name with
  | Vehicle, _ => mret CleanupVehicle
  | _, None => lift (Err BadRequest)
  | Ecu, Some name =>
      let ecu_name := to_lowercase name in
      if tester_present_active r then mret (CleanupEcu ecu_name)
      else
        _ ← modify (call_uds (StartTesterPresent (TesterPresentEcu ecu_name)));
        _ ← lift (start_tester_present r);
        mret (CleanupEcu ecu_name)
  | FunctionalGroup, Some name =>
      let group := to_lowercase name in
      _ ← modify (call_uds (StartTesterPresent (TesterPresentFunctional group)));
      _ ← lift (start_tester_present r);
      mret (CleanupFunctionalGroup group)
  end.

Definition create_lock (t : LockType) (entity_name : option string) (r : Request) : handler Lock :=
  if utc_expiration r <? now_create r then lift (Err BadRequest)
  else
    task ← schedule_token_deletion entity_name (new_id r) t (utc_expiration r) (now_schedule r);
    cleanup ← cleanup_for t entity_name r;
    mret {| id := new_id r; expiration := utc_expiration r; owner := sub r; deletion_task := task;
            cleanup_fn := cleanup |}.

(** The old deletion task is aborted first. *)
Definition update_lock (lock_id : string) (t : LockType) (entity_name : option string)
    (entity_lock : option Lock) (r : Request) : handler Lock :=
  _ ← lift (validate_claim (Some lock_id) (sub r) entity_lock);
  match entity_lock with
  | Some l =>
      _ ← modify (abort (deletion_task l));
      task ← schedule_token_deletion entity_name (id l) t (utc_expiration r) (now_schedule r);
      let l := {| id := id l; expiration := utc_expiration r; owner := owner l; deletion_task := task;
                  cleanup_fn := cleanup_fn l |} in
      _ ← modify (write_lock t entity_name (Some l));
      mret l
  | None => lift (Err Conflict)
  end.

(** The identifier of the lock that was extended or created. *)
Definition post_handler (t : LockType) (entity_name : option string) (r : Request) : handler string :=
  lock_opt ← get_mut t entity_name;
  match lock_opt with
  | Some l => l ← update_lock (id l) t entity_name lock_opt r; mret (id l)
  | None =>
      new_lock ← create_lock t entity_name r;
      _ ← modify (write_lock t entity_name (Some new_lock));
      mret (id new_lock)
  end.

Definition put_handler (t : LockType) (lock_id : string) (entity_name : option string) (r : Request)
    : handler () :=
  entity_lock ← get_mut t entity_name;
  _ ← update_lock lock_id t entity_name entity_lock r;
  mret tt.

Definition delete_lock_with (call : LockCleanupFn -> State -> State) (t : LockType) (lock_id claim_sub : string)
    (entity_name : option string) : handler () :=
  entity_lock ← get_mut t entity_name;
  _ ← lift (validate_claim (Some lock_id) claim_sub entity_lock);
  match entity_lock with
  | Some l => _ ← modify (abort (deletion_task l)); delete_with call t entity_name
  | None => lift (Err NotFound)
  end.

Definition delete_lock : LockType -> string -> string -> option string -> handler () := delete_lock_with call_cleanup.

(** ** The POST handlers *)

Definition vehicle_read_lock (claim_sub : string) : handler () := fun s =>
  (s, validate_claim None claim_sub (vehicle (locks s))).

Definition ecu_post (ecu_name : string) (r : Request) : handler string :=
  _ ← vehicle_read_lock (sub r);
  locked ← gets (fun s => is_any_locked (functional_group (locks s)));
  if (locked : bool) then lift (Err Conflict) else post_handler Ecu (Some ecu_name) r.

Definition vehicle_post (r : Request) : handler string :=
  vehicle_lock ← get_mut Vehicle None;
  _ ← lift (validate_claim None (sub r) vehicle_lock);
  ecu_locks ← gets (fun s => ecu (locks s));
  _ ← lift (all_locks_owned ecu_locks (sub r));
  functional_locks ← gets (fun s => functional_group (locks s));
  _ ← lift (all_locks_owned functional_locks (sub r));
  post_handler Vehicle None r.

(** The ECUs of the group that the caller has locked; an ECU locked by
    somebody else is a conflict. *)
Fixpoint functionalgroup_ecus (group claim_sub : string) (l : list (string * option Lock))
    : result ApiError (list (string * string)) :=
  match l with
  | [] => Ok []
  | (e, lock_info) :: l =>
      groups ← ecu_functional_groups e;
      if negb (bool_decide (group ∈ groups)) then functionalgroup_ecus group claim_sub l
      else match lock_info with
           | Some info =>
               if negb (is_owned_by claim_sub info) then Err Conflict
               else rest ← functionalgroup_ecus group claim_sub l; Ok ((e, id info) :: rest)
           | None => functionalgroup_ecus group claim_sub l
           end
  end.

Fixpoint delete_locks (claim_sub : string) (l : list (string * string)) : handler () :=
  match l with
  | [] => mret tt
  | (e, lock_id) :: l => _ ← delete_lock Ecu lock_id claim_sub (Some e); delete_locks claim_sub l
  end.

(** The POST of a functional group, under a read guard of the vehicle lock.  It
    looks the ECU locks up under the guard of their table, which it then takes
    anew for each lock it deletes, and then takes the one of the groups. *)
Definition functional_group_check (group claim_sub : string) : handler (list (string * string)) :=
  _ ← vehicle_read_lock claim_sub;
  m ← gets (fun s => ecu (locks s));
  lift (functionalgroup_ecus group claim_sub (order (map_to_list m))).

Definition functional_group_create (group : string) (r : Request) : handler string :=
  post_handler FunctionalGroup (Some group) r.

(** When nothing comes between. *)
Definition functional_group_post (group : string) (r : Request) : handler string :=
  l ← functional_group_check group (sub r);
  _ ← delete_locks (sub r) l;
  functional_group_create group r.

(** ** Reconfiguration *)

Inductive LockUpdateError : Type := EcuLocksHeld | FunctionalGroupLocksHeld.

Definition update_entries (new_ecu_names : list string) : st_result State LockUpdateError () := fun s =>
  if is_any_locked (functional_group (locks s)) then (s, Err FunctionalGroupLocksHeld)
  else if is_any_locked (ecu (locks s)) then (s, Err EcuLocksHeld)
  else
    let kept := filter (fun kl : string * option Lock => kl.1 ∈ new_ecu_names) (ecu (locks s)) in
    (set_ecu (foldr (fun name m => match m !! name with Some _ => m | None => <[name := None]> m end)
                kept new_ecu_names) s, Ok tt).
End locks.

(** [Locks::new]. *)
Definition new (ecu_names : list string) : State :=
  {| locks := {| vehicle := None; ecu := list_to_map ((fun e => (e, None)) <$> ecu_names); functional_group := ∅ |};
     tasks := ∅; spawned := 0; uds_calls := [] |}.
