(* ===== verification/LockOwnership.v ===== *)
(** * Who can touch a lock

    The lock tables under every interleaving of requests, expiring locks and
    the two halves of a functional group's POST: while somebody holds the
    vehicle nobody else holds anything, no request touches a lock of another
    user, and a lock is released in time unless its extension was refused. *)

From stdpp Require Import strings gmap.
From S2P Require Import Prelude Locks.
From stdpp Require Import list.

Local Open Scope Z_scope.

(** ** Places *)

(** The places a lock can be in. *)
Inductive place : Type := AtVehicle | AtEcu (name : string) | AtGroup (name : string).

#[export] Instance place_eq_dec : EqDecision place.
Proof. solve_decision. Defined.

Definition held (p : place) (s : State) : option Lock :=
  match p with
  | AtVehicle => vehicle (locks s)
  | AtEcu k => mjoin (ecu (locks s) !! k)
  | AtGroup k => mjoin (functional_group (locks s) !! k)
  end.

Definition place_of (t : LockType) (entity : option string) : option place :=
  match t, entity with
  | Vehicle, _ => Some AtVehicle
  | Ecu, Some k => Some (AtEcu k)
  | FunctionalGroup, Some k => Some (AtGroup k)
  | _, None => None
  end.

Definition in_table (t : LockType) (p : place) : Prop :=
  match t, p with Vehicle, AtVehicle | Ecu, AtEcu _ | FunctionalGroup, AtGroup _ => True | _, _ => False end.

#[export] Instance in_table_dec t p : Decision (in_table t p).
Proof. destruct t, p; simpl; apply _. Defined.

(** The same locks and tasks; entries without a lock and calls may differ. *)
Definition same_locks (s s' : State) : Prop :=
  (forall p, held p s' = held p s) /\ tasks s' = tasks s /\ spawned s' = spawned s.

#[export] Instance same_locks_preorder : PreOrder same_locks.
Proof.
  split; [by intros s|]. intros s t u (H1 & H2 & H3) (H4 & H5 & H6).
  split; [intros p; by rewrite H4, H1|]. split; congruence.
Qed.

(** ** What the primitives do *)

Lemma join_insert (m : LockHashMap) k l k' :
  mjoin (<[k := l]> m !! k') = if decide (k' = k) then l else mjoin (m !! k').
Proof.
  destruct (decide (k' = k)) as [->|Hne]; [by rewrite lookup_insert_eq|by rewrite lookup_insert_ne].
Qed.

Lemma join_delete (m : LockHashMap) k k' :
  mjoin (delete k m !! k') = if decide (k' = k) then None else mjoin (m !! k').
Proof.
  destruct (decide (k' = k)) as [->|Hne]; [by rewrite lookup_delete_eq|by rewrite lookup_delete_ne].
Qed.

Ltac at_place :=
  repeat match goal with
  | q : place |- _ => destruct q; simpl
  end; rewrite ?join_insert, ?join_delete; repeat case_decide; try congruence.

Lemma held_write t e p l q s : place_of t e = Some p ->
  held q (write_lock t e l s) = if decide (q = p) then l else held q s.
Proof. destruct t, e as [k|]; simpl; intros [= <-]; at_place. Qed.

Lemma tasks_write t e l s : tasks (write_lock t e l s) = tasks s /\ spawned (write_lock t e l s) = spawned s.
Proof. by destruct t, e. Qed.

Lemma get_mut_spec t e s :
  (forall p, held p (get_mut t e s).1 = held p s) /\
  tasks (get_mut t e s).1 = tasks s /\ spawned (get_mut t e s).1 = spawned s /\
  (get_mut t e s).2 = match place_of t e with Some p => Ok (held p s) | None => Err NotFound end.
Proof.
  destruct t, e as [k|]; simpl; try done.
  - destruct (ecu (locks s) !! k) as [l|] eqn:E; simpl; [done|].
    split; [|done]. intros p. at_place. subst. by rewrite E.
  - destruct (functional_group (locks s) !! k) as [l|] eqn:E; simpl; [done|].
    split; [|done]. intros p. at_place. subst. by rewrite E.
Qed.

Lemma get_mut_ok t e s s' l : get_mut t e s = (s', Ok l) ->
  exists p, place_of t e = Some p /\ l = held p s /\ same_locks s s'.
Proof.
  intros E. destruct (get_mut_spec t e s) as (H1 & H2 & H3 & H4). rewrite E in *. simpl in *.
  destruct (place_of t e) as [p|]; [|done]. injection H4 as ->. exists p. by repeat split.
Qed.

(** Only calls to the UDS layer. *)
Definition only_calls (s s' : State) : Prop :=
  locks s' = locks s /\ tasks s' = tasks s /\ spawned s' = spawned s.

Lemma only_calls_same s s' : only_calls s s' -> same_locks s s'.
Proof. intros (H1 & H2 & H3). split; [intros []; simpl; by rewrite H1|done]. Qed.

Lemma reset_all_calls l s : only_calls s (reset_all l s).
Proof.
  revert s. induction l as [|e l IH]; [done|]. intros s. exact (IH (call_uds (ResetSessionAndSecurity e) s)).
Qed.

Section ownership.
Context (get_ecus : list string).
Context (ecus_for_functional_group : string -> list string).
Context (ecu_functional_groups : string -> result ApiError (list string)).
Context (to_lowercase : string -> string).
Context (order : list (string * option Lock) -> list (string * option Lock)).
Context (Horder : forall l, order l ≡ₚ l).

Abbreviation entity_cleanup := (call_entity_cleanup ecus_for_functional_group).
Abbreviation cleanup := (call_cleanup get_ecus ecus_for_functional_group order).

Lemma entity_cleanup_calls c s : only_calls s (entity_cleanup c s).
Proof using. destruct c; simpl; try done. exact (reset_all_calls _ (call_uds _ s)). Qed.

(** Taking the lock out of its place, before its clean-up. *)
Definition taken (p : place) (s s' : State) : Prop :=
  (forall q, held q s' = if decide (q = p) then None else held q s) /\
  tasks s' = tasks s /\ spawned s' = spawned s.

Lemma taken_calls p s s' s'' : taken p s s' -> only_calls s' s'' -> taken p s s''.
Proof using.
  intros (H1 & H2 & H3) Hc. pose proof (only_calls_same _ _ Hc) as (H4 & H5 & H6).
  split; [intros q; by rewrite H4|]. split; congruence.
Qed.

Lemma taken_table t k p s : place_of t (Some k) = Some p -> t <> Vehicle ->
  taken p s (set_table t (delete k (table t s)) s).
Proof using. destruct t; simpl; intros [= <-] ?; (split; [intros q; at_place|done]). Qed.

(** [delete] takes the lock out and runs its clean-up. *)
Lemma delete_with_spec call t e p s :
  place_of t e = Some p ->
  exists s1, taken p s s1 /\
    (delete_with call t e s).1 = match held p s with Some l => call (cleanup_fn l) s1 | None => s1 end.
Proof using.
  destruct t, e as [k|]; simpl; intros [= <-]; simpl.
  1,2: destruct (vehicle (locks s)) as [l|] eqn:E;
       [exists (set_vehicle None s); split; [split; [intros q; at_place|done]|done]
       |exists s; split; [split; [intros q; at_place|done]|done]].
  - destruct (ecu (locks s) !! k) as [[l|]|] eqn:E; simpl.
    1,2: eexists; split; [by apply (taken_table Ecu k)|done].
    exists s. split; [split; [intros q; at_place; simplify_eq; by rewrite E|done]|done].
  - destruct (functional_group (locks s) !! k) as [[l|]|] eqn:E; simpl.
    1,2: eexists; split; [by apply (taken_table FunctionalGroup k)|done].
    exists s. split; [split; [intros q; at_place; simplify_eq; by rewrite E|done]|done].
Qed.

Lemma next_held_some m k l : next_held order m = Some (k, l) -> m !! k = Some (Some l).
Proof using Horder.
  unfold next_held. intros H. apply head_Some_elem_of in H. apply list_elem_of_omap in H as ([k' o] & Hin & Ho).
  simpl in Ho. destruct o as [l'|]; [|done]. injection Ho as <- <-.
  rewrite Horder in Hin. by apply elem_of_map_to_list.
Qed.

Lemma next_held_none m k l : next_held order m = None -> m !! k <> Some (Some l).
Proof using Horder.
  unfold next_held. intros H Hk. apply head_None in H.
  assert ((k, l) ∈ omap (fun kl => pair kl.1 <$> kl.2) (order (map_to_list m))) as Hin.
  { apply list_elem_of_omap. exists (k, Some l). rewrite Horder. split; [by apply elem_of_map_to_list|done]. }
  rewrite H in Hin. by apply elem_of_nil in Hin.
Qed.

Lemma abort_task m n s :
  m = n /\ tasks (abort m s) !! n = None \/ tasks (abort m s) !! n = tasks s !! n.
Proof using.
  unfold abort. simpl. destruct (decide (m = n)) as [->|Hne];
    [left; by rewrite lookup_delete_eq|right; by apply lookup_delete_ne].
Qed.

(** A whole table cleared. *)
Definition cleared (t : LockType) (s s' : State) : Prop :=
  (forall p, held p s' = if decide (in_table t p) then None else held p s) /\ spawned s' = spawned s /\
  (forall n, tasks s' !! n = tasks s !! n \/
     tasks s' !! n = None /\ exists p l, in_table t p /\ held p s = Some l /\ deletion_task l = n).

Lemma held_table t k s : t <> Vehicle -> exists p, place_of t (Some k) = Some p /\ in_table t p /\
  held p s = mjoin (table t s !! k).
Proof using. destruct t; simpl; intros ?; [done|by eexists|by eexists]. Qed.

Lemma table_of_place t p s : in_table t p -> t <> Vehicle -> exists k, place_of t (Some k) = Some p /\
  held p s = mjoin (table t s !! k).
Proof using. destruct t, p; simpl; intros ? ?; try done; by eexists. Qed.

Lemma place_in_table t e p : place_of t e = Some p -> in_table t p.
Proof using. destruct t, e; simpl; by intros [= <-]. Qed.

Lemma table_only_calls t s s' : only_calls s s' -> table t s' = table t s.
Proof using. intros (H & _). destruct t; simpl; by rewrite ?H. Qed.

Lemma delete_with_table t k l s : t <> Vehicle -> table t s !! k = Some (Some l) ->
  exists s1, table t s1 = delete k (table t s) /\
  (delete_with entity_cleanup t (Some k) s).1 = entity_cleanup (cleanup_fn l) s1.
Proof using.
  intros Ht Hk. exists (set_table t (delete k (table t s)) s). unfold delete_with.
  destruct t; [done| |]; simpl in *; by rewrite Hk.
Qed.

Lemma clear_table_spec t : t <> Vehicle -> forall fuel s, (size (table t s) <= fuel)%nat ->
  cleared t s (clear_table ecus_for_functional_group order fuel t s).
Proof using Horder.
  intros Ht. induction fuel as [|fuel IH]; intros s Hsize; simpl.
  - assert (Hnone : forall k, table t s !! k = None).
    { intros k. assert (table t s = ∅) as -> by (apply map_size_empty_inv; lia). apply lookup_empty. }
    split; [|split; [done|by left]]. intros p. case_decide as Hp; [|done].
    destruct (table_of_place t p s Hp Ht) as (k & _ & ->). by rewrite Hnone.
  - destruct (next_held order (table t s)) as [[k l]|] eqn:Hnext.
    + apply next_held_some in Hnext.
      destruct (held_table t k s Ht) as (p & Hp & Htp & Hh). rewrite Hnext in Hh. simpl in Hh.
      unfold clear_round. set (s0 := abort (deletion_task l) s).
      assert (table t s0 = table t s) as Ht0 by (by destruct t).
      assert (forall q, held q s0 = held q s) as Hh0 by (by intros []).
      destruct (delete_with_spec entity_cleanup t (Some k) p s0 Hp) as (s1 & (Hq & Htasks & Hsp) & Heq).
      rewrite Hh0, Hh in Heq.
      destruct (delete_with_table t k l s0 Ht ltac:(by rewrite Ht0)) as (s1' & Hdel & Heq').
      pose proof (entity_cleanup_calls (cleanup_fn l) s1) as Hc.
      pose proof (only_calls_same _ _ Hc) as (Hc1 & Hc2 & Hc3).
      destruct (IH (entity_cleanup (cleanup_fn l) s1)) as (H1 & H2 & H3).
      { rewrite <- Heq, Heq', (table_only_calls t s1') by apply entity_cleanup_calls.
        rewrite Hdel, Ht0, map_size_delete, Hnext. lia. }
      rewrite Heq. split; [|split].
      * intros q. rewrite H1, Hc1, Hq, Hh0. case_decide; [done|]. case_decide; [by subst|done].
      * rewrite H2, Hc3, Hsp. done.
      * intros n. destruct (H3 n) as [->|(Hnone & q & l' & Hqt & Hql & Hn)].
        -- rewrite Hc2, Htasks. unfold s0. destruct (abort_task (deletion_task l) n s) as [[<- ->]| ->]; [right|by left].
           split; [done|by exists p, l].
        -- right. split; [done|]. rewrite Hc1, Hq, Hh0 in Hql. case_decide; [done|]. by exists q, l'.
    + split; [|split; [done|by left]]. intros p. case_decide as Hp; [|done].
      destruct (table_of_place t p s Hp Ht) as (k & _ & ->).
      destruct (table t s !! k) as [[l|]|] eqn:E; try done. by apply next_held_none with (l := l) in E.
Qed.

(** ** The invariant *)

(** A live deletion task is the one of its lock, and wakes in its last second. *)
Definition task_fits (p : place) (l : Lock) (task : DeletionTask) : Prop :=
  task_lock_id task = id l /\ place_of (task_lock task) (task_entity task) = Some p /\
  target_instant task <= expiration l < target_instant task + SECOND.

(** What is cleaned up for a lock. *)
Definition cleanup_of (p : place) : LockCleanupFn :=
  match p with
  | AtVehicle => CleanupVehicle
  | AtEcu k => CleanupEcu (to_lowercase k)
  | AtGroup g => CleanupFunctionalGroup (to_lowercase g)
  end.

Definition cleanup_fits (p : place) (l : Lock) : Prop := cleanup_fn l = cleanup_of p.

Lemma cleanup_vehicle p l : cleanup_fits p l -> cleanup_fn l = CleanupVehicle -> p = AtVehicle.
Proof using. intros ->. by destruct p. Qed.

Record inv (s : State) : Prop := {
  (** Who holds the vehicle holds everything that is held. *)
  inv_vehicle : forall v p l, held AtVehicle s = Some v -> held p s = Some l -> owner l = owner v;
  (** Every lock has a deletion task of its own, spawned before. *)
  inv_spawned : forall p l, held p s = Some l -> (deletion_task l < spawned s)%nat;
  inv_own_task : forall p q l l', held p s = Some l -> held q s = Some l' ->
    deletion_task l = deletion_task l' -> p = q;
  inv_task : forall p l task, held p s = Some l -> tasks s !! deletion_task l = Some task -> task_fits p l task;
  inv_cleanup : forall p l, held p s = Some l -> cleanup_fits p l
}.

(** What a step on behalf of [u] may do: locks of others stay as they are,
    with their deletion tasks, and every lock is an old one or belongs to [u]. *)
Record good (u : string) (s s' : State) : Prop := {
  good_inv : inv s';
  good_foreign : forall p l, held p s = Some l -> owner l <> u ->
    held p s' = Some l /\ tasks s' !! deletion_task l = tasks s !! deletion_task l;
  good_new : forall p l, held p s' = Some l -> owner l = u \/ held p s = Some l
}.

Lemma good_refl u s : inv s -> good u s s.
Proof using. intros H. split; auto. Qed.

Lemma good_trans u s t r : good u s t -> good u t r -> good u s r.
Proof using.
  intros [Hi1 Hf1 Hn1] [Hi2 Hf2 Hn2]. split; [done| |].
  - intros p l Hp Ho. destruct (Hf1 p l Hp Ho) as [Hp1 Ht1]. destruct (Hf2 p l Hp1 Ho) as [Hp2 Ht2].
    split; [done|congruence].
  - intros p l Hp. destruct (Hn2 p l Hp) as [?|Hp1]; [by left|]. by apply Hn1.
Qed.

(** Locks in the places [X] may go, with their tasks; nothing else changes. *)
Definition removes (X : place -> Prop) (s s' : State) : Prop :=
  (forall p, held p s' = held p s \/ (X p /\ held p s' = None)) /\
  (forall n, tasks s' !! n = tasks s !! n \/
     tasks s' !! n = None /\ exists p l, X p /\ held p s = Some l /\ deletion_task l = n) /\
  spawned s' = spawned s.

Lemma removes_same X s s' : same_locks s s' -> removes X s s'.
Proof using. intros (H1 & H2 & H3). repeat split; [by left|intros n; left; by rewrite H2|done]. Qed.

Lemma removes_trans X s t r : removes X s t -> removes X t r -> removes X s r.
Proof using.
  intros (H1 & H2 & H3) (H4 & H5 & H6). split; [|split; [|congruence]].
  - intros p. destruct (H4 p) as [->|[? ?]]; [apply H1|by right].
  - intros n. destruct (H5 n) as [->|(Hnone & p & l & Hp & Hl & Hn)]; [apply H2|].
    right. split; [done|]. destruct (H1 p) as [Heq|[? Heq]]; rewrite Heq in Hl; [by exists p, l|done].
Qed.

Lemma removes_inv X s s' : removes X s s' -> inv s -> inv s'.
Proof using.
  intros (H1 & H2 & H3) [Hv Hs Ho Ht Hc].
  assert (Hold : forall p l, held p s' = Some l -> held p s = Some l).
  { intros p l Hp. destruct (H1 p) as [Heq|[? Heq]]; congruence. }
  split.
  - intros v p l Hp Hl. eapply Hv; by apply Hold.
  - intros p l Hp. rewrite H3. eapply Hs. by apply Hold.
  - intros p q l l' Hp Hq. apply Ho; by apply Hold.
  - intros p l task Hp Htask. apply (Ht p); [by apply Hold|].
    destruct (H2 (deletion_task l)) as [<-|[? _]]; [done|congruence].
  - intros p l Hp. by apply Hc, Hold.
Qed.

Lemma removes_good X u s s' : inv s -> removes X s s' ->
  (forall p l, X p -> held p s = Some l -> owner l = u) -> good u s s'.
Proof using.
  intros Hi Hr HX. pose proof Hr as (H1 & H2 & H3). split; [by eapply removes_inv| |].
  - intros p l Hp Ho. split.
    + destruct (H1 p) as [->|[Hx _]]; [done|]. by destruct Ho; eapply HX.
    + destruct (H2 (deletion_task l)) as [->|(_ & q & l' & Hx & Hq & Hn)]; [done|].
      assert (p = q) as <- by (by eapply (inv_own_task s Hi)). destruct Ho; by eapply HX.
  - intros p l Hp. destruct (H1 p) as [Heq|[_ Heq]]; [right; congruence|congruence].
Qed.

Lemma removes_abort (X : place -> Prop) p l s : X p -> held p s = Some l -> removes X s (abort (deletion_task l) s).
Proof using.
  intros HX Hp. split; [intros []; by left|]. split; [|done]. intros n.
  destruct (abort_task (deletion_task l) n s) as [[<- ?]|?]; [right; split; [done|by exists p, l]|by left].
Qed.

Lemma removes_taken (X : place -> Prop) p s s' : X p -> taken p s s' -> removes X s s'.
Proof using.
  intros HX (H1 & H2 & H3). split; [|split; [intros n; left; by rewrite H2|done]].
  intros q. rewrite H1. case_decide as Hq; [right; by subst|by left].
Qed.

Lemma removes_cleared (X : place -> Prop) t s s' : (forall p, in_table t p -> X p) -> cleared t s s' -> removes X s s'.
Proof using.
  intros HX (H1 & H2 & H3). split; [|split; [|done]].
  - intros p. rewrite H1. case_decide as Hp; [right; split; [by apply HX|done]|by left].
  - intros n. destruct (H3 n) as [->|(? & p & l & Hp & Hl & Hn)]; [by left|]. right. split; [done|]. exists p, l. auto.
Qed.

Lemma call_cleanup_removes c s : removes (fun p => c = CleanupVehicle /\ p <> AtVehicle) s (cleanup c s).
Proof using Horder.
  destruct c; try (apply removes_same, only_calls_same, entity_cleanup_calls).
  simpl. set (s1 := reset_all get_ecus s).
  eapply removes_trans; [apply removes_same, only_calls_same, reset_all_calls|]. fold s1.
  eapply removes_trans; eapply removes_cleared;
    [|by apply (clear_table_spec Ecu)| |by apply (clear_table_spec FunctionalGroup)]; by intros [].
Qed.

(** The places a deletion empties. *)
Definition emptied (p q : place) : Prop := q = p \/ p = AtVehicle.

Lemma delete_held_removes t e p s : inv s -> place_of t e = Some p ->
  removes (emptied p) s (delete_held get_ecus ecus_for_functional_group order t e s).1 /\
  held p (delete_held get_ecus ecus_for_functional_group order t e s).1 = None.
Proof using Horder.
  intros Hi Hp. destruct (delete_with_spec cleanup t e p s Hp) as (s1 & Htaken & Heq).
  unfold delete_held. rewrite Heq. assert (Hnone : held p s1 = None).
  { destruct Htaken as (H & _). rewrite H. by rewrite decide_True. }
  assert (removes (emptied p) s s1) as Hr1 by (eapply removes_taken; [by left|done]).
  destruct (held p s) as [l|] eqn:Hl; [|done].
  pose proof (call_cleanup_removes (cleanup_fn l) s1) as (H1 & H2 & H3). split.
  - eapply removes_trans; [done|]. split; [|split; [|done]].
    + intros q. destruct (H1 q) as [?|[[Hc ?] ?]]; [by left|right; split; [|done]].
      right. by eapply cleanup_vehicle, Hc; apply (inv_cleanup s Hi p l Hl).
    + intros n. destruct (H2 n) as [?|(? & q & l' & [Hc ?] & Hq)]; [by left|right].
      split; [done|]. exists q, l'. split; [|done]. right. by eapply cleanup_vehicle, Hc; apply (inv_cleanup s Hi p l Hl).
  - destruct (H1 p) as [->|[_ ->]]; done.
Qed.

(** A lock of [u] written to [p], with a fresh deletion task. *)
Record puts (p : place) (l' : Lock) (s s' : State) : Prop := {
  puts_held : forall q, held q s' = if decide (q = p) then Some l' else held q s;
  puts_task : deletion_task l' = spawned s;
  puts_spawned : spawned s' = S (spawned s);
  puts_new : exists task, tasks s' !! spawned s = Some task /\ task_fits p l' task;
  puts_tasks : forall n, (n < spawned s)%nat -> tasks s' !! n = tasks s !! n \/
    exists l, held p s = Some l /\ deletion_task l = n
}.

Lemma good_puts u p l' s s' :
  inv s -> puts p l' s s' -> owner l' = u -> cleanup_fits p l' ->
  (forall l, held p s = Some l -> owner l = u) ->
  (p <> AtVehicle -> forall v, held AtVehicle s = Some v -> owner v = u) ->
  (p = AtVehicle -> forall q l, held q s = Some l -> owner l = u) -> good u s s'.
Proof using.
  intros [Hv Hs Ho Ht Hc] [Hheld Htask Hsp [task [Hnew Htf]] Htasks] Hown Hfits Hold Hveh Hall. split; [split| |].
  - intros v q l. rewrite !Hheld. repeat case_decide; intros H1 H2; simplify_eq.
    + done.
    + by eapply Hall.
    + symmetry. apply Hveh; [congruence|done].
    + by eapply Hv.
  - intros q l. rewrite Hheld, Hsp. case_decide; intros Hq; [simplify_eq; lia|]. apply Hs in Hq. lia.
  - intros q q' l l2. rewrite !Hheld.
    repeat case_decide; intros H1 H2 Heq; subst; try done; simplify_eq.
    + apply Hs in H2. lia.
    + apply Hs in H1. lia.
    + by eapply Ho.
  - intros q l task'. rewrite Hheld. case_decide as Hqp; intros Hq Ht'; [simplify_eq; congruence|].
    apply (Ht q); [done|]. destruct (Htasks (deletion_task l) (Hs _ _ Hq)) as [<-|(l2 & Hl2 & Heq)]; [done|].
    destruct Hqp. by eapply Ho.
  - intros q l. rewrite Hheld. case_decide; intros Hq; [by simplify_eq|by apply Hc].
  - intros q l Hq Hne. rewrite Hheld. case_decide as Heq; [subst; by destruct Hne; eapply Hold|].
    split; [done|]. destruct (Htasks (deletion_task l) (Hs _ _ Hq)) as [?|(l2 & Hl2 & Hn)]; [done|].
    by destruct Heq; eapply Ho.
  - intros q l. rewrite Hheld. case_decide; intros Hq; [left; by simplify_eq|by right].
Qed.

(** Rounding the delay down to whole seconds. *)
Lemma wake_bounds now exp :
  now + (exp - now) / SECOND * SECOND <= exp < now + (exp - now) / SECOND * SECOND + SECOND.
Proof using.
  unfold SECOND. pose proof (Z.div_mod (exp - now) (10 ^ 9) ltac:(lia)).
  pose proof (Z.mod_pos_bound (exp - now) (10 ^ 9) ltac:(lia)). lia.
Qed.

Lemma schedule_spec entity i t exp now s :
  match schedule_token_deletion entity i t exp now s with
  | (s', Ok n) => n = spawned s /\ s' = spawn {| task_entity := entity; task_lock_id := i; task_lock := t;
        target_instant := now + (exp - now) / SECOND * SECOND |} s /\ now <= exp
  | (s', Err e) => s' = s
  end.
Proof using.
  unfold schedule_token_deletion. destruct (Z.ltb_spec (exp - now) 0); [done|].
  destruct (_ <? _); [done|]. split; [done|]. split; [done|lia].
Qed.

Lemma validate_claim_ok i u o : validate_claim i u o = Ok tt ->
  forall l, o = Some l -> owner l = u /\ forall j, i = Some j -> j = id l.
Proof using.
  intros H l ->. simpl in H. destruct (decide (u = owner l)) as [->|Hu].
  2: { rewrite bool_decide_false in H by done. done. }
  split; [done|]. intros j ->. rewrite bool_decide_true in H by done. simpl in H.
  by destruct (decide (j = id l)); [|rewrite bool_decide_false in H by done].
Qed.

Lemma update_lock_cases i t e p r s :
  place_of t e = Some p ->
  match update_lock i t e (held p s) r s with
  | (s', Ok l') => exists l, held p s = Some l /\ owner l = sub r /\ puts p l' s s' /\
      owner l' = owner l /\ cleanup_fn l' = cleanup_fn l /\ id l' = id l
  | (s', Err _) => s' = s \/ exists l, held p s = Some l /\ owner l = sub r /\ s' = abort (deletion_task l) s
  end.
Proof using.
  intros Hp. unfold update_lock, mbind, st_result_bind, lift, modify, mret, st_result_ret.
  destruct (validate_claim (Some i) (sub r) (held p s)) as [[]|err] eqn:Hval; [|by left].
  destruct (held p s) as [l|] eqn:Hl; [|by left].
  destruct (validate_claim_ok _ _ _ Hval l eq_refl) as [Hown _].
  pose proof (schedule_spec e (id l) t (utc_expiration r) (now_schedule r) (abort (deletion_task l) s)) as Hsched.
  destruct (schedule_token_deletion _ _ _ _ _ _) as [s1 [n|err]].
  - destruct Hsched as (-> & -> & _). exists l. do 2 (split; [done|]). split; [|done].
    set (l' := {| id := id l |}). set (s1 := spawn _ _).
    pose proof (tasks_write t e (Some l') s1) as [Ht Hs]. split.
    + intros q. rewrite (held_write t e p (Some l') q s1 Hp). case_decide; [done|]. by destruct q.
    + done.
    + by rewrite Hs.
    + rewrite Ht. unfold s1, spawn, abort. simpl. rewrite lookup_insert_eq. eexists. split; [done|].
      split; [done|]. split; [done|]. apply wake_bounds.
    + intros n Hn. rewrite Ht. unfold s1, spawn, abort. simpl. rewrite lookup_insert_ne by lia.
      destruct (decide (deletion_task l = n)) as [<-|Hne]; [right; by exists l|left; by apply lookup_delete_ne].
  - right. exists l. by rewrite Hsched.
Qed.

Lemma update_lock_good i t e p r s :
  inv s -> place_of t e = Some p -> good (sub r) s (update_lock i t e (held p s) r s).1.
Proof using.
  intros Hi Hp. pose proof (update_lock_cases i t e p r s Hp) as H.
  destruct (update_lock i t e (held p s) r s) as [s' [l'|err]]; simpl.
  - destruct H as (l & Hl & Ho & Hputs & Ho' & Hc' & _). eapply good_puts; try done.
    + congruence.
    + unfold cleanup_fits. rewrite Hc'. by apply (inv_cleanup s Hi).
    + intros l2 Hl2. congruence.
    + intros _ v Hv. rewrite <- Ho. symmetry. by eapply (inv_vehicle s Hi).
    + intros -> q l2 Hq. rewrite <- Ho. by eapply (inv_vehicle s Hi).
  - destruct H as [->|(l & Hl & Ho & ->)]; [by apply good_refl|].
    eapply (removes_good (fun q => q = p)); [done|by eapply removes_abort|]. intros q l2 ->. congruence.
Qed.

(** No lock changes; further tasks may have been spawned. *)
Definition idle (s s' : State) : Prop :=
  (forall p, held p s' = held p s) /\ (spawned s <= spawned s')%nat /\
  (forall n, (n < spawned s)%nat -> tasks s' !! n = tasks s !! n).

Lemma idle_same s s' : same_locks s s' -> idle s s'.
Proof using. intros (H1 & H2 & H3). split; [done|]. split; [lia|by intros; rewrite H2]. Qed.

Lemma good_idle u s s' : inv s -> idle s s' -> good u s s'.
Proof using.
  intros [Hv Hs Ho Ht Hc] (H1 & H2 & H3). split; [split| |].
  - intros v p l. rewrite !H1. apply Hv.
  - intros p l. rewrite H1. intros Hp. apply Hs in Hp. lia.
  - intros p q l l'. rewrite !H1. apply Ho.
  - intros p l task. rewrite H1. intros Hp. rewrite H3 by (by eapply Hs). by apply Ht.
  - intros p l. rewrite H1. apply Hc.
  - intros p l Hp _. rewrite H1. split; [done|]. by apply H3, (Hs p).
  - intros p l. rewrite H1. by right.
Qed.

Lemma cleanup_for_cases t e p r s : place_of t e = Some p ->
  only_calls s (cleanup_for to_lowercase t e r s).1 /\
  forall c, (cleanup_for to_lowercase t e r s).2 = Ok c -> c = cleanup_of p.
Proof using.
  destruct t, e as [k|]; simpl; intros [= <-];
    unfold cleanup_for, mbind, st_result_bind, mret, st_result_ret, lift, modify; simpl.
  1,2: split; [done|]; by intros c [= <-].
  - destruct (tester_present_active r); [split; [done|]; by intros c [= <-]|].
    destruct (start_tester_present r) as [[]|]; (split; [done|]); by intros c [= <-].
  - destruct (start_tester_present r) as [[]|]; (split; [done|]); by intros c [= <-].
Qed.

Lemma create_lock_cases t e p r s : place_of t e = Some p ->
  match create_lock to_lowercase t e r s with
  | (s', Ok l') => owner l' = sub r /\ id l' = new_id r /\ expiration l' = utc_expiration r /\
      deletion_task l' = spawned s /\ cleanup_fits p l' /\
      now_schedule r <= utc_expiration r /\
      only_calls (spawn {| task_entity := e; task_lock_id := new_id r; task_lock := t;
        target_instant := now_schedule r + (utc_expiration r - now_schedule r) / SECOND * SECOND |} s) s'
  | (s', Err _) => idle s s'
  end.
Proof using.
  intros Hp. unfold create_lock. destruct (_ <? _); [by apply idle_same|].
  unfold mbind, st_result_bind, mret, st_result_ret.
  pose proof (schedule_spec e (new_id r) t (utc_expiration r) (now_schedule r) s) as Hs.
  destruct (schedule_token_deletion _ _ _ _ _ _) as [s1 [n|err]]; [|subst; by apply idle_same].
  destruct Hs as (-> & -> & Hnow). set (s1 := spawn _ _).
  destruct (cleanup_for_cases t e p r s1 Hp) as [Hcalls Hfits].
  destruct (cleanup_for to_lowercase t e r s1) as [s2 [c|err]]; simpl in *.
  - do 4 (split; [done|]). split; [by apply Hfits|done].
  - destruct (only_calls_same _ _ Hcalls) as (H1 & H2 & H3). split; [|split].
    + intros q. rewrite H1. by destruct q.
    + rewrite H3. simpl. lia.
    + intros m Hm. rewrite H2. simpl. by rewrite lookup_insert_ne by lia.
Qed.

Lemma puts_create t e p l' task s s' : place_of t e = Some p ->
  only_calls (spawn task s) s' -> deletion_task l' = spawned s -> task_fits p l' task -> puts p l' s (write_lock t e (Some l') s').
Proof using.
  intros Hp Hc Hn Hfits. destruct (only_calls_same _ _ Hc) as (H1 & H2 & H3).
  destruct (tasks_write t e (Some l') s') as [Ht Hs]. split.
  - intros q. rewrite (held_write t e p _ q s' Hp), H1. case_decide; [done|]. by destruct q.
  - done.
  - by rewrite Hs, H3.
  - rewrite Ht, H2. simpl. rewrite lookup_insert_eq. by eexists.
  - intros n Hn'. left. rewrite Ht, H2. simpl. by rewrite lookup_insert_ne by lia.
Qed.

(** ** The handlers *)

Lemma post_handler_good t e p r s :
  inv s -> place_of t e = Some p ->
  (p <> AtVehicle -> forall v, held AtVehicle s = Some v -> owner v = sub r) ->
  (p = AtVehicle -> forall q l, held q s = Some l -> owner l = sub r) ->
  good (sub r) s (post_handler to_lowercase t e r s).1.
Proof using.
  intros Hi Hp Hveh Hall. unfold post_handler, mbind at 1, st_result_bind at 1.
  destruct (get_mut t e s) as [s1 [l|err]] eqn:Hget.
  2: { destruct (get_mut_spec t e s) as (H1 & H2 & H3 & H4). rewrite Hget, Hp in H4. done. }
  apply get_mut_ok in Hget as (p' & Hp' & -> & Hsame). rewrite Hp in Hp'. injection Hp' as <-.
  pose proof Hsame as (Hh & _). rewrite <- Hh.
  assert (good (sub r) s s1) as Hg1 by (by apply good_idle, idle_same).
  eapply good_trans; [exact Hg1|]. pose proof (good_inv _ _ _ Hg1) as Hi1.
  destruct (held p s1) as [l|] eqn:Hl.
  - rewrite <- Hl. pose proof (update_lock_good (id l) t e p r s1 Hi1 Hp) as Hg.
    unfold mbind, st_result_bind. by destruct (update_lock _ _ _ _ _ _) as [s2 [l2|err]].
  - pose proof (create_lock_cases t e p r s1 Hp) as Hc. unfold mbind, st_result_bind.
    destruct (create_lock _ _ _ _ _) as [s2 [l'|err]]; [|by apply good_idle].
    destruct Hc as (Ho & Hid & Hexp & Ht & Hfits & _ & Hcalls). unfold modify, mret, st_result_ret. simpl.
    eapply good_puts; [done|eapply puts_create; [done|exact Hcalls|done|]|done|done|congruence| |].
    { split; [done|]. split; [done|]. rewrite Hexp. apply wake_bounds. }
    + intros Hne v. rewrite Hh. by apply Hveh.
    + intros -> q l. rewrite Hh. by apply Hall.
Qed.

Lemma put_handler_good t i e r s : inv s -> good (sub r) s (put_handler t i e r s).1.
Proof using.
  intros Hi. unfold put_handler, mbind, st_result_bind.
  destruct (get_mut t e s) as [s1 [l|err]] eqn:Hget.
  - apply get_mut_ok in Hget as (p & Hp & -> & Hsame). pose proof Hsame as (Hh & _). rewrite <- Hh.
    assert (good (sub r) s s1) as Hg1 by (by apply good_idle, idle_same).
    eapply good_trans; [exact Hg1|].
    pose proof (update_lock_good i t e p r s1 (good_inv _ _ _ Hg1) Hp) as Hg.
    by destruct (update_lock _ _ _ _ _ _) as [s2 [l2|err]].
  - destruct (get_mut_spec t e s) as (H1 & H2 & H3 & _). rewrite Hget in *. by apply good_idle, idle_same.
Qed.

(** Deleting a lock at [p] on behalf of its owner. *)
Abbreviation begun := (begin_cleanup get_ecus ecus_for_functional_group).

Lemma begun_calls c s : only_calls s (begun c s).
Proof using. destruct c; [apply (entity_cleanup_calls (CleanupEcu _))|apply (entity_cleanup_calls (CleanupFunctionalGroup _))|apply reset_all_calls]. Qed.

(** Taking a lock out with a clean-up that only calls. *)
Lemma delete_calls_removes call t e p s : (forall c s, only_calls s (call c s)) -> place_of t e = Some p ->
  removes (eq p) s (delete_with call t e s).1 /\ held p (delete_with call t e s).1 = None.
Proof using.
  intros Hcall Hp. destruct (delete_with_spec call t e p s Hp) as (s1 & Htaken & ->).
  assert (taken p s match held p s with Some l => call (cleanup_fn l) s1 | None => s1 end) as Ht
    by (destruct (held p s); [by eapply taken_calls|done]).
  split; [by apply (removes_taken _ p)|]. destruct Ht as (-> & _). by rewrite decide_True.
Qed.

Lemma delete_calls_good call u t e p l s : (forall c s, only_calls s (call c s)) ->
  inv s -> place_of t e = Some p -> held p s = Some l -> owner l = u -> good u s (delete_with call t e s).1.
Proof using.
  intros Hcall Hi Hp Hl Ho. destruct (delete_calls_removes call t e p s Hcall Hp) as [Hr _].
  eapply removes_good; [done|exact Hr|]. intros q l' <- Hq. congruence.
Qed.

(** A round of the vehicle clean-up. *)
Lemma clear_round_removes t k l s : t <> Vehicle -> next_held order (table t s) = Some (k, l) ->
  exists p, place_of t (Some k) = Some p /\ held p s = Some l /\
    removes (eq p) s (clear_round ecus_for_functional_group t k l s) /\
    held p (clear_round ecus_for_functional_group t k l s) = None.
Proof using Horder.
  intros Ht Hnext%next_held_some. destruct (held_table t k s Ht) as (p & Hp & _ & Hh). rewrite Hnext in Hh. exists p.
  split; [done|]. split; [done|].
  destruct (delete_calls_removes entity_cleanup t (Some k) p (abort (deletion_task l) s) entity_cleanup_calls Hp) as [Hr Hn].
  split; [|done]. eapply removes_trans; [|exact Hr]. by eapply removes_abort.
Qed.

Lemma delete_lock_good t i u e s :
  inv s -> good u s (delete_lock_with begun t i u e s).1.
Proof using.
  intros Hi. unfold delete_lock_with, mbind, st_result_bind.
  destruct (get_mut t e s) as [s1 [l|err]] eqn:Hget.
  2: { destruct (get_mut_spec t e s) as (H1 & H2 & H3 & _). rewrite Hget in *. by apply good_idle, idle_same. }
  apply get_mut_ok in Hget as (p & Hp & -> & Hsame). pose proof Hsame as (Hh & _). rewrite <- Hh.
  assert (good u s s1) as Hg1 by (by apply good_idle, idle_same).
  eapply good_trans; [exact Hg1|]. pose proof (good_inv _ _ _ Hg1) as Hi1. unfold lift.
  destruct (validate_claim (Some i) u (held p s1)) as [[]|err] eqn:Hval; [|by apply good_refl].
  destruct (held p s1) as [l|] eqn:Hl; [|by apply good_refl].
  destruct (validate_claim_ok _ _ _ Hval l eq_refl) as [Ho _]. unfold modify.
  assert (good u s1 (abort (deletion_task l) s1)) as Hg2.
  { eapply (removes_good (fun q => q = p)); [done|by eapply removes_abort|]. intros q l2 ->. congruence. }
  eapply good_trans; [exact Hg2|]. eapply delete_calls_good; [apply begun_calls|by destruct Hg2|done| |done]. by destruct p.
Qed.

(** What is held was held before, by the same user. *)
Definition keeps_owners (s s' : State) : Prop :=
  forall p l', held p s' = Some l' -> exists l, held p s = Some l /\ owner l' = owner l.

Lemma removes_keeps X s s' : removes X s s' -> keeps_owners s s'.
Proof using. intros (H & _) p l' Hl. destruct (H p) as [Heq|[_ Heq]]; [exists l'; split; congruence|congruence]. Qed.

Lemma keeps_trans s1 s2 s3 : keeps_owners s1 s2 -> keeps_owners s2 s3 -> keeps_owners s1 s3.
Proof using. intros H1 H2 p l3 (l2 & Hl2 & ->)%H2. apply H1 in Hl2 as (l1 & Hl1 & ->). by exists l1. Qed.

Lemma keeps_idle s s' : idle s s' -> keeps_owners s s'.
Proof using. intros (H & _) p l. rewrite H. eauto. Qed.

Lemma delete_lock_keeps t i u e s : keeps_owners s (delete_lock_with begun t i u e s).1.
Proof using.
  unfold delete_lock_with, mbind, st_result_bind. destruct (get_mut_spec t e s) as (H1 & H2 & H3 & H4).
  destruct (get_mut t e s) as [s1 res]. cbn [fst snd] in *. assert (keeps_owners s s1) as Hk by (by apply keeps_idle, idle_same).
  destruct (place_of t e) as [p|] eqn:Hp; subst res; [|done]. rewrite <- H1. unfold lift, modify.
  destruct (validate_claim _ _ _); [|done]. destruct (held p s1) as [l|] eqn:Hl; [|done].
  eapply keeps_trans; [exact Hk|]. eapply keeps_trans; [|apply (removes_keeps (eq p)), (delete_calls_removes begun t e p _ begun_calls Hp)].
  intros q l2 Hq. exists l2. split; [by destruct q|done].
Qed.

Lemma put_handler_keeps t i e r s : keeps_owners s (put_handler t i e r s).1.
Proof using.
  unfold put_handler, mbind, st_result_bind. destruct (get_mut_spec t e s) as (H1 & H2 & H3 & H4).
  destruct (get_mut t e s) as [s1 res]. cbn [fst snd] in *. assert (keeps_owners s s1) as Hk by (by apply keeps_idle, idle_same).
  destruct (place_of t e) as [p|] eqn:Hp; subst res; [|done]. rewrite <- H1.
  pose proof (update_lock_cases i t e p r s1 Hp) as Hc. destruct (update_lock i t e (held p s1) r s1) as [s2 [l'|err]]; cbn [fst].
  - destruct Hc as (l & Hl & _ & Hputs & Ho' & _). eapply keeps_trans; [exact Hk|]. intros q l2. rewrite (puts_held _ _ _ _ Hputs).
    case_decide as Hq; [intros [= <-]; subst; eauto|eauto].
  - destruct Hc as [->|(l & Hl & Ho & ->)]; [done|]. eapply keeps_trans; [exact Hk|]. intros q l2 Hq. exists l2. split; [by destruct q|done].
Qed.

Lemma validate_claim_none u o : validate_claim None u o = Ok tt <-> forall l, o = Some l -> owner l = u.
Proof using.
  split; [intros H l Hl; by apply (validate_claim_ok _ _ _ H)|].
  intros H. destruct o as [l|]; [|done]. simpl. rewrite (H l eq_refl), bool_decide_true by done. done.
Qed.

Lemma validate_claim_err i u o e : validate_claim i u o = Err e -> e = Forbidden.
Proof using. destruct o as [l|]; simpl; [|done]. case_match; [by intros [= <-]|done]. Qed.

Lemma all_locks_owned_ok m u :
  all_locks_owned m u = Ok tt <-> forall k l, m !! k = Some (Some l) -> owner l = u.
Proof using.
  transitivity (forall kl l, kl ∈ map_to_list m -> kl.2 = Some l -> owner l = u).
  - unfold all_locks_owned. induction (map_to_list m) as [|kl kls IH]; simpl.
    { split; [|done]. by intros _ kl l Hin%elem_of_nil. }
    destruct (validate_claim None u kl.2) as [[]|e] eqn:E; simpl.
    + rewrite validate_claim_none in E. rewrite IH. split.
      * intros H kl' l [->|Hin]%elem_of_cons Hl; [by apply E|by eapply H].
      * intros H kl' l Hin. apply H. by apply elem_of_cons; right.
    + split; [done|]. intros H. exfalso. assert (validate_claim None u kl.2 = Ok tt) as Hok; [|congruence].
      apply validate_claim_none. intros l. apply H. apply elem_of_cons. by left.
  - split.
    + intros H k l Hk. apply (H (k, Some l)); [by apply elem_of_map_to_list|done].
    + intros H [k o] l Hin Hl. simpl in *. subst. eapply H. by apply elem_of_map_to_list.
Qed.

Lemma validate_claim_foreign u o e : validate_claim None u o = Err e ->
  e = Forbidden /\ exists l, o = Some l /\ owner l <> u.
Proof using.
  destruct o as [l|]; simpl; [|done]. destruct (decide (u = owner l)) as [->|Hu]; [by rewrite bool_decide_true|].
  rewrite bool_decide_false by done. intros [= <-]. split; [done|]. by exists l.
Qed.

Lemma all_locks_owned_foreign m u e : all_locks_owned m u = Err e ->
  e = Forbidden /\ exists k l, m !! k = Some (Some l) /\ owner l <> u.
Proof using.
  intros H. assert (e = Forbidden /\ exists kl l, kl ∈ map_to_list m /\ kl.2 = Some l /\ owner l <> u)
    as (He & [k o] & l & Hin & Ho & Hu).
  2: { split; [done|]. exists k, l. simpl in Ho. subst o. by apply elem_of_map_to_list in Hin. }
  revert H. unfold all_locks_owned. induction (map_to_list m) as [|kl kls IH]; simpl; [done|].
  destruct (validate_claim None u kl.2) as [[]|e'] eqn:E; simpl.
  - intros H. destruct (IH H) as (He & kl' & l & Hin & ?). split; [done|]. exists kl', l. by rewrite elem_of_cons; auto.
  - intros [= <-]. apply validate_claim_foreign in E as (He & l & Hl & Hu). split; [done|].
    exists kl, l. by rewrite elem_of_cons; auto.
Qed.

Lemma ecu_post_good name r s : inv s -> good (sub r) s (ecu_post to_lowercase name r s).1.
Proof using.
  intros Hi. unfold ecu_post, vehicle_read_lock, mbind, st_result_bind, gets.
  destruct (validate_claim None (sub r) (vehicle (locks s))) as [[]|e] eqn:Hv; [|by apply good_refl].
  destruct (is_any_locked _); [by apply good_refl|].
  apply (post_handler_good Ecu (Some name) (AtEcu name) r s Hi eq_refl); [|done].
  intros _. by apply validate_claim_none.
Qed.

Lemma vehicle_post_good r s : inv s -> good (sub r) s (vehicle_post to_lowercase r s).1.
Proof using.
  intros Hi. unfold vehicle_post, mbind, st_result_bind, gets, lift. simpl.
  destruct (validate_claim None (sub r) (vehicle (locks s))) as [[]|e] eqn:Hv; [|by apply good_refl].
  destruct (all_locks_owned (ecu (locks s)) (sub r)) as [[]|e] eqn:He; [|by apply good_refl].
  destruct (all_locks_owned (functional_group (locks s)) (sub r)) as [[]|e] eqn:Hf; [|by apply good_refl].
  apply (post_handler_good Vehicle None AtVehicle r s Hi eq_refl); [done|].
  intros _ q l Hq. rewrite validate_claim_none in Hv. rewrite all_locks_owned_ok in He, Hf.
  destruct q as [|k|k]; simpl in Hq; [by apply Hv| |].
  - destruct (ecu (locks s) !! k) as [o|] eqn:E; simpl in Hq; [subst; by eapply He|done].
  - destruct (functional_group (locks s) !! k) as [o|] eqn:E; simpl in Hq; [subst; by eapply Hf|done].
Qed.

(** ** Expiry *)

Lemma call_cleanup_vehicle q s : q <> AtVehicle -> held q (cleanup CleanupVehicle s) = None.
Proof using Horder.
  intros Hq. simpl. set (s1 := reset_all get_ecus s).
  destruct (clear_table_spec Ecu ltac:(done) _ s1 (Nat.le_refl _)) as (H1 & _).
  set (s2 := clear_table _ _ _ Ecu s1) in *.
  destruct (clear_table_spec FunctionalGroup ltac:(done) _ s2 (Nat.le_refl _)) as (H2 & _).
  rewrite H2. case_decide as H; [done|]. rewrite H1. destruct q; simpl in *; done.
Qed.

Lemma delete_held_empties t e p l s q : inv s -> place_of t e = Some p -> held p s = Some l -> emptied p q ->
  held q (delete_held get_ecus ecus_for_functional_group order t e s).1 = None.
Proof using Horder.
  intros Hi Hp Hl Hq. destruct (delete_held_removes t e p s Hi Hp) as [_ Hnone].
  destruct (decide (q = p)) as [->|Hne]; [done|]. destruct Hq as [?|Hv]; [done|]. subst p.
  destruct (delete_with_spec cleanup t e AtVehicle s Hp) as (s1 & _ & Heq). unfold delete_held.
  rewrite Heq, Hl, (inv_cleanup s Hi AtVehicle l Hl). by apply call_cleanup_vehicle.
Qed.

(** ** What a release does to the ECUs *)

Definition calls_of (p : place) : list uds_call :=
  match p with
  | AtVehicle => ResetSessionAndSecurity <$> get_ecus
  | AtEcu k => [StopTesterPresent (TesterPresentEcu (to_lowercase k)); ResetSessionAndSecurity (to_lowercase k)]
  | AtGroup g => StopTesterPresent (TesterPresentFunctional (to_lowercase g))
                   :: (ResetSessionAndSecurity <$> ecus_for_functional_group (to_lowercase g))
  end.

Lemma reset_all_uds l s : uds_calls (reset_all l s) = uds_calls s ++ (ResetSessionAndSecurity <$> l).
Proof using.
  revert s. induction l as [|e l IH]; intros s; [by rewrite app_nil_r|].
  change (reset_all (e :: l) s) with (reset_all l (call_uds (ResetSessionAndSecurity e) s)). rewrite IH. cbn. by rewrite <- app_assoc.
Qed.

Lemma entity_cleanup_uds p s : p <> AtVehicle -> uds_calls (entity_cleanup (cleanup_of p) s) = uds_calls s ++ calls_of p.
Proof using. intros Hp. destruct p; [done| |]; cbn; [by rewrite <- app_assoc|]. rewrite reset_all_uds. cbn. by rewrite <- app_assoc. Qed.

Lemma delete_with_uds call t e p l s : place_of t e = Some p -> held p s = Some l ->
  exists s1, taken p s s1 /\ uds_calls s1 = uds_calls s /\ (delete_with call t e s).1 = call (cleanup_fn l) s1.
Proof using.
  intros Hp Hl. destruct (delete_with_spec call t e p s Hp) as (s1 & H1 & Heq). rewrite Hl in Heq.
  destruct t, e as [k|]; simpl in Hp; try done; injection Hp as <-; simpl in Hl.
  1,2: exists (set_vehicle None s); split; [split; [intros q; at_place|done]|by unfold delete_with; rewrite Hl].
  - destruct (ecu (locks s) !! k) as [[l'|]|] eqn:E; simpl in Hl; try done. injection Hl as ->.
    eexists. split; [by apply (taken_table Ecu k)|]. split; [done|]. unfold delete_with. cbn [table]. by rewrite E.
  - destruct (functional_group (locks s) !! k) as [[l'|]|] eqn:E; simpl in Hl; try done. injection Hl as ->.
    eexists. split; [by apply (taken_table FunctionalGroup k)|]. split; [done|]. unfold delete_with. cbn [table]. by rewrite E.
Qed.

Definition all_fit (s : State) : Prop := forall p l, held p s = Some l -> cleanup_fits p l.

(** The calls between two states are for the locks in some places. *)
Definition cleaned (X : place -> Prop) (s s' : State) : Prop :=
  exists calls, uds_calls s' = uds_calls s ++ calls /\
    forall p c, X p -> is_Some (held p s) -> c ∈ calls_of p -> c ∈ calls.

Lemma clear_table_uds t : t <> Vehicle -> forall fuel s, (size (table t s) <= fuel)%nat -> all_fit s ->
  cleaned (in_table t) s (clear_table ecus_for_functional_group order fuel t s).
Proof using Horder.
  intros Ht. induction fuel as [|fuel IH]; intros s Hsize Hfit; simpl.
  - exists []. rewrite app_nil_r. split; [done|]. intros p c Hp [l Hl].
    destruct (table_of_place t p s Hp Ht) as (k & _ & Hk). rewrite Hk in Hl.
    by rewrite (map_size_empty_inv (table t s)), lookup_empty in Hl by lia.
  - destruct (next_held order (table t s)) as [[k l]|] eqn:Hnext.
    + apply next_held_some in Hnext. destruct (held_table t k s Ht) as (p & Hp & Htp & Hh). rewrite Hnext in Hh. simpl in Hh.
      unfold clear_round. set (s0 := abort (deletion_task l) s). assert (Hh0 : forall q, held q s0 = held q s) by (by intros []).
      destruct (delete_with_uds entity_cleanup t (Some k) p l s0 Hp) as (s1 & (Hq & _ & _) & Hc1 & Heq); [by rewrite Hh0|].
      assert (Hnv : p <> AtVehicle) by (by destruct t, p; simpl in Htp).
      rewrite Heq, (Hfit p l Hh). set (s2 := entity_cleanup (cleanup_of p) s1).
      pose proof (only_calls_same _ _ (entity_cleanup_calls (cleanup_of p) s1)) as (H2 & _ & _). fold s2 in H2.
      assert (Hh2 : forall q, held q s2 = if decide (q = p) then None else held q s) by (intros q; by rewrite H2, Hq, Hh0).
      assert (Hsize2 : (size (table t s2) <= fuel)%nat).
      { assert (Ht0 : table t s0 = table t s) by (by destruct t).
        destruct (delete_with_table t k l s0 Ht) as (s1' & Hdel & Heq'); [by rewrite Ht0|].
        unfold s2. rewrite <- (Hfit p l Hh), <- Heq, Heq', (table_only_calls t s1') by apply entity_cleanup_calls.
        rewrite Hdel, Ht0, map_size_delete, Hnext. lia. }
      destruct (IH s2 Hsize2) as (calls & Hcalls & Hin).
      { intros q l2. rewrite Hh2. case_decide; [done|]. apply Hfit. }
      exists (calls_of p ++ calls). unfold s2 in Hcalls at 2. rewrite entity_cleanup_uds, Hc1 in Hcalls by done. split; [by rewrite Hcalls, <- app_assoc|].
      intros q c Hqt Hql Hc. apply elem_of_app. destruct (decide (q = p)) as [->|Hne]; [by left|]. right. eapply Hin; [done| |done].
      rewrite Hh2. by case_decide.
    + exists []. rewrite app_nil_r. split; [done|]. intros p c Hp [l Hl]. destruct (table_of_place t p s Hp Ht) as (k & _ & Hk).
      rewrite Hk in Hl. destruct (table t s !! k) as [[l'|]|] eqn:E; try done. by apply next_held_none with (l := l') in E.
Qed.

(** Deleting a lock that is held makes the calls for it, and for the vehicle
    those for every other lock too. *)
Lemma delete_held_uds t e p l s : inv s -> place_of t e = Some p -> held p s = Some l ->
  let s' := (delete_held get_ecus ecus_for_functional_group order t e s).1 in
  cleaned (emptied p) s s' /\ (p <> AtVehicle -> uds_calls s' = uds_calls s ++ calls_of p).
Proof using Horder.
  intros Hi Hp Hl s'. destruct (delete_with_uds cleanup t e p l s Hp Hl) as (s1 & (Hq & _ & _) & Hc1 & Heq).
  unfold s', delete_held. rewrite Heq, (inv_cleanup s Hi p l Hl). clear Heq s'.
  assert (Hnv : p <> AtVehicle -> uds_calls (cleanup (cleanup_of p) s1) = uds_calls s ++ calls_of p).
  { intros Hne. rewrite <- Hc1, <- (entity_cleanup_uds p s1 Hne). by destruct p. }
  split; [|exact Hnv]. destruct (decide (p = AtVehicle)) as [->|Hne].
  2: { exists (calls_of p). split; [by apply Hnv|]. intros q c [->|?] _ Hc; [done|by subst]. }
  clear Hnv. unfold call_cleanup. cbn [cleanup_of begin_cleanup]. set (s2 := reset_all get_ecus s1).
  pose proof (only_calls_same _ _ (reset_all_calls get_ecus s1)) as (Hh2 & _ & _). fold s2 in Hh2.
  assert (Hheld : forall q, q <> AtVehicle -> held q s2 = held q s) by (intros q Hqv; rewrite Hh2, Hq; by case_decide).
  assert (Hfit : all_fit s2).
  { intros q l2. destruct (decide (q = AtVehicle)) as [->|Hqv]; [by rewrite Hh2, Hq, decide_True|].
    rewrite Hheld by done. apply (inv_cleanup s Hi). }
  destruct (clear_table_uds Ecu ltac:(done) _ s2 (Nat.le_refl _) Hfit) as (c1 & Hc3 & Hin1).
  destruct (clear_table_spec Ecu ltac:(done) _ s2 (Nat.le_refl _)) as (Hh3 & _).
  set (s3 := clear_table _ _ _ Ecu s2) in *.
  assert (Hfit3 : all_fit s3).
  { intros q l2. rewrite Hh3. case_decide; [done|]. apply Hfit. }
  destruct (clear_table_uds FunctionalGroup ltac:(done) _ s3 (Nat.le_refl _) Hfit3) as (c2 & Hc4 & Hin2).
  exists (calls_of AtVehicle ++ c1 ++ c2). split.
  { rewrite Hc4, Hc3. unfold s2. rewrite reset_all_uds, Hc1. by rewrite <- !app_assoc. }
  intros q c _ Hql Hc. rewrite !elem_of_app. destruct q as [|k|k]; [by left|right; left|right; right].
  - apply (Hin1 (AtEcu k)); [done| |done]. by rewrite Hheld.
  - apply (Hin2 (AtGroup k)); [done| |done]. rewrite Hh3, Hheld by done. by case_decide.
Qed.

Lemma good_abort u n s : inv s ->
  (forall q l, held q s = Some l -> deletion_task l = n -> owner l = u) -> good u s (abort n s).
Proof using.
  intros [Hv Hs Ho Ht Hc] Hn. assert (Hh : forall q, held q (abort n s) = held q s) by (by intros []).
  split; [split| |].
  - intros v p l. rewrite !Hh. apply Hv.
  - intros p l. rewrite Hh. apply Hs.
  - intros p q l l'. rewrite !Hh. apply Ho.
  - intros p l task. rewrite Hh. intros Hp. destruct (abort_task n (deletion_task l) s) as [[_ ->]| ->]; [done|].
    by apply Ht.
  - intros p l. rewrite Hh. apply Hc.
  - intros p l Hp Hne. rewrite Hh. split; [done|].
    destruct (abort_task n (deletion_task l) s) as [[Heq _]|?]; [|done]. by destruct Hne; eapply Hn.
  - intros p l. rewrite Hh. by right.
Qed.

Lemma get_mut_calls t e s : uds_calls (get_mut t e s).1 = uds_calls s.
Proof using. destruct t, e as [k|]; simpl; try done; by case_match. Qed.

(** The three outcomes of a deletion task that wakes up. *)
Lemma run_task_cases call task s :
  match place_of (task_lock task) (task_entity task) with
  | None => same_locks s (deletion_task_with call task s).1
  | Some p =>
      (same_locks s (deletion_task_with call task s).1 /\ forall l, held p s = Some l -> id l <> task_lock_id task) \/
      exists s1 l, same_locks s s1 /\ uds_calls s1 = uds_calls s /\ held p s = Some l /\ id l = task_lock_id task /\
        deletion_task_with call task s = delete_with call (task_lock task) (task_entity task) s1
  end.
Proof using.
  unfold deletion_task_with, mbind, st_result_bind.
  destruct (get_mut_spec (task_lock task) (task_entity task) s) as (H1 & H2 & H3 & H4).
  pose proof (get_mut_calls (task_lock task) (task_entity task) s) as H5.
  destruct (get_mut _ _ s) as [s1 r]. simpl in *. destruct (place_of _ _) as [p|]; subst r; [|done].
  destruct (held p s) as [l|] eqn:Hl; [|left; split; [done|intros l' ?; congruence]].
  destruct (decide (id l = task_lock_id task)) as [Hid|Hid].
  - right. exists s1, l. rewrite bool_decide_true by done. done.
  - left. rewrite bool_decide_false by done. split; [done|]. intros l' [= <-]. done.
Qed.

Abbreviation run_task := (deletion_task_with begun).

Lemma run_task_good u n task s :
  inv s -> tasks s !! n = Some task ->
  (forall p l, place_of (task_lock task) (task_entity task) = Some p -> held p s = Some l -> owner l = u) ->
  good u s (run_task task (abort n s)).1.
Proof using.
  intros Hi Htask Hu. assert (Hg : good u s (abort n s)).
  { apply good_abort; [done|]. intros q l Hq Hn. subst n.
    destruct (inv_task s Hi q l task Hq Htask) as (_ & Hp & _). by eapply Hu. }
  eapply good_trans; [exact Hg|]. pose proof (good_inv _ _ _ Hg) as Hi'.
  pose proof (run_task_cases begun task (abort n s)) as Hcases.
  destruct (place_of _ _) as [p|] eqn:Hp; [|by apply good_idle, idle_same].
  destruct Hcases as [[Hsame _]|(s1 & l & Hsame & _ & Hl & _ & ->)]; [by apply good_idle, idle_same|].
  assert (good u (abort n s) s1) as Hg1 by (by apply good_idle, idle_same).
  eapply good_trans; [exact Hg1|]. pose proof Hsame as (Hh & _).
  eapply delete_calls_good; [apply begun_calls|by destruct Hg1|done|by rewrite Hh|].
  eapply Hu; [done|]. by destruct p.
Qed.

Lemma run_task_keeps n task s : keeps_owners s (run_task task (abort n s)).1.
Proof using.
  assert (Hk : keeps_owners s (abort n s)) by (intros q l Hq; exists l; split; [by destruct q|done]).
  eapply keeps_trans; [exact Hk|]. pose proof (run_task_cases begun task (abort n s)) as Hcases.
  destruct (place_of _ _) as [p|] eqn:Hp; [|by apply keeps_idle, idle_same].
  destruct Hcases as [[Hsame _]|(s1 & l & Hsame & _ & _ & _ & ->)]; [by apply keeps_idle, idle_same|].
  eapply keeps_trans; [by apply keeps_idle, idle_same|]. apply (removes_keeps (eq p)), delete_calls_removes; [apply begun_calls|done].
Qed.

(** ** Armed locks: every lock has a live deletion task *)

Definition armed (s : State) : Prop := forall p l, held p s = Some l -> is_Some (tasks s !! deletion_task l).

Lemma armed_idle s s' : inv s -> idle s s' -> armed s -> armed s'.
Proof using.
  intros Hi (H1 & H2 & H3) Ha p l. rewrite H1. intros Hp. rewrite H3; [by eapply Ha|by eapply inv_spawned].
Qed.

(** Places outside of [X] are armed. *)
Definition armed_outside (X : place -> Prop) (s : State) : Prop :=
  forall p l, ~ X p -> held p s = Some l -> is_Some (tasks s !! deletion_task l).

Lemma armed_removes X s s' : inv s -> removes X s s' -> (forall q l, X q -> held q s' <> Some l) ->
  armed_outside X s -> armed s'.
Proof using.
  intros Hi (H1 & H2 & H3) HX Ha p l Hp. assert (~ X p) as Hout by (intros Hx; by destruct (HX p l)).
  assert (held p s = Some l) as Hps by (destruct (H1 p) as [?|[? ?]]; congruence).
  destruct (H2 (deletion_task l)) as [->|(_ & q & l' & Hq & Hl' & Hn)]; [by eapply Ha|].
  assert (p = q) as <- by (by eapply (inv_own_task s Hi)). done.
Qed.

Lemma emptied_armed p s s' : inv s -> removes (eq p) s s' -> held p s' = None -> armed_outside (eq p) s -> armed s'.
Proof using. intros Hi Hr Hn Ha. eapply armed_removes; [done|exact Hr| |done]. intros q l' <-. by rewrite Hn. Qed.

Lemma delete_calls_armed call t e p s : (forall c s, only_calls s (call c s)) ->
  inv s -> place_of t e = Some p -> armed_outside (eq p) s -> armed (delete_with call t e s).1.
Proof using.
  intros Hcall Hi Hp Ha. destruct (delete_calls_removes call t e p s Hcall Hp) as [Hr Hn]. by eapply emptied_armed.
Qed.

Lemma armed_puts p l' s s' : inv s -> puts p l' s s' -> armed s -> armed s'.
Proof using.
  intros Hi [Hheld Htask Hsp (task & Hnew & _) Htasks] Ha q l. rewrite Hheld.
  case_decide as Hq; intros Hl; [simplify_eq; by rewrite Htask, Hnew|].
  destruct (Htasks (deletion_task l)) as [->|(l2 & Hl2 & Hn)]; [by eapply inv_spawned|by eapply Ha|].
  destruct Hq. by eapply (inv_own_task s Hi).
Qed.

Lemma run_task_armed n task s :
  inv s -> armed s -> tasks s !! n = Some task -> armed (run_task task (abort n s)).1.
Proof using.
  intros Hi Ha Htask. assert (Hheld : forall q, held q (abort n s) = held q s) by (by intros []).
  assert (Hown : forall q l, held q s = Some l -> deletion_task l = n ->
    task_lock_id task = id l /\ place_of (task_lock task) (task_entity task) = Some q).
  { intros q l Hq <-. by destruct (inv_task s Hi q l task Hq Htask) as (? & ? & _). }
  assert (Hout : forall q l, held q s = Some l -> is_Some (tasks (abort n s) !! deletion_task l) \/ deletion_task l = n).
  { intros q l Hq. destruct (abort_task n (deletion_task l) s) as [[? _]| ->]; [by right|left; by eapply Ha]. }
  set (u := match place_of (task_lock task) (task_entity task) with
            | Some p => match held p s with Some l => owner l | None => EmptyString end | None => EmptyString end).
  assert (Hi' : inv (abort n s)).
  { apply (good_inv u s), good_abort; [done|]. intros q l Hq Hn. destruct (Hown q l Hq Hn) as [_ Hp].
    unfold u. by rewrite Hp, Hq. }
  pose proof (run_task_cases begun task (abort n s)) as Hcases.
  destruct (place_of (task_lock task) (task_entity task)) as [p|] eqn:Hp.
  - destruct Hcases as [[Hsame Hid]|(s1 & l & Hsame & _ & Hl & Hid & ->)].
    + eapply armed_idle; [exact Hi'|by apply idle_same|]. intros q l Hq. rewrite Hheld in Hq.
      destruct (Hout q l Hq) as [?|Hn]; [done|]. destruct (Hown q l Hq Hn) as [? [= <-]].
      rewrite <- Hheld in Hq. by apply Hid in Hq.
    + pose proof Hsame as (Hh & Ht & _). eapply delete_calls_armed; [apply begun_calls| |exact Hp|].
      * by eapply (good_inv u), good_idle, idle_same.
      * intros q l2 Hq Hl2. rewrite Hh, Hheld in Hl2. rewrite Ht.
        destruct (Hout q l2 Hl2) as [?|Hn]; [done|]. destruct (Hown q l2 Hl2 Hn) as [_ [= ?]]. done.
  - eapply armed_idle; [exact Hi'|by apply idle_same|]. intros q l Hq. rewrite Hheld in Hq.
    destruct (Hout q l Hq) as [?|Hn]; [done|]. by destruct (Hown q l Hq Hn) as [_ ?].
Qed.

(** A request whose expiration can be scheduled. *)
Definition schedulable (r : Request) : Prop :=
  now_schedule r <= utc_expiration r /\ utc_expiration r <= INSTANT_MAX.

Lemma schedule_schedulable entity i t r s : schedulable r ->
  exists n, (schedule_token_deletion entity i t (utc_expiration r) (now_schedule r) s).2 = Ok n.
Proof using.
  intros [Hnow Hmax]. unfold schedule_token_deletion. destruct (Z.ltb_spec (utc_expiration r - now_schedule r) 0); [lia|].
  pose proof (wake_bounds (now_schedule r) (utc_expiration r)) as [Hle _].
  destruct (Z.ltb_spec INSTANT_MAX (now_schedule r + (utc_expiration r - now_schedule r) / SECOND * SECOND)); [lia|].
  by eexists.
Qed.

Lemma update_lock_armed i t e p r s : schedulable r -> inv s -> place_of t e = Some p ->
  armed s -> armed (update_lock i t e (held p s) r s).1.
Proof using.
  intros Hr Hi Hp Ha. pose proof (update_lock_cases i t e p r s Hp) as Hcases.
  destruct (update_lock i t e (held p s) r s) as [s' [l'|err]] eqn:E; simpl.
  - destruct Hcases as (l & _ & _ & Hputs & _). by eapply armed_puts.
  - revert E. unfold update_lock, mbind, st_result_bind, lift, modify, mret, st_result_ret.
    destruct (validate_claim _ _ _); [|by intros [= <- _]].
    destruct (held p s) as [l|]; [|by intros [= <- _]].
    destruct (schedule_schedulable e (id l) t r (abort (deletion_task l) s) Hr) as [n Hn].
    destruct (schedule_token_deletion _ _ _ _ _ _) as [s1 [m|]]; simpl in Hn; done.
Qed.

Lemma post_handler_armed t e p r s : schedulable r -> inv s -> place_of t e = Some p ->
  armed s -> armed (post_handler to_lowercase t e r s).1.
Proof using.
  intros Hr Hi Hp Ha. unfold post_handler, mbind at 1, st_result_bind at 1.
  destruct (get_mut_spec t e s) as (H1 & H2 & H3 & H4).
  destruct (get_mut t e s) as [s1 res]. simpl in *. rewrite Hp in H4. subst res.
  assert (same_locks s s1) as Hsame by done. pose proof (good_idle EmptyString s s1 Hi (idle_same _ _ Hsame)) as [Hi1 _ _].
  pose proof (armed_idle s s1 Hi (idle_same _ _ Hsame) Ha) as Ha1. rewrite <- H1.
  destruct (held p s1) as [l|] eqn:Hl.
  - rewrite <- Hl. pose proof (update_lock_armed (id l) t e p r s1 Hr Hi1 Hp Ha1) as Hg.
    unfold mbind, st_result_bind. by destruct (update_lock _ _ _ _ _ _) as [s2 [l2|err]].
  - pose proof (create_lock_cases t e p r s1 Hp) as Hc. unfold mbind, st_result_bind.
    destruct (create_lock _ _ _ _ _) as [s2 [l'|err]]; [|by eapply armed_idle].
    destruct Hc as (Ho & Hid & Hexp & Ht & _ & _ & Hcalls). unfold modify, mret, st_result_ret. simpl.
    eapply armed_puts; [exact Hi1|eapply puts_create; [exact Hp|exact Hcalls|done|]|done].
    split; [done|]. split; [done|]. rewrite Hexp. apply wake_bounds.
Qed.

Lemma put_handler_armed t i e r s : schedulable r -> inv s -> armed s -> armed (put_handler t i e r s).1.
Proof using.
  intros Hr Hi Ha. unfold put_handler, mbind, st_result_bind.
  destruct (get_mut_spec t e s) as (H1 & H2 & H3 & H4).
  destruct (get_mut t e s) as [s1 res]. simpl in *. assert (same_locks s s1) as Hsame by done.
  pose proof (good_idle EmptyString s s1 Hi (idle_same _ _ Hsame)) as [Hi1 _ _].
  pose proof (armed_idle s s1 Hi (idle_same _ _ Hsame) Ha) as Ha1.
  destruct (place_of t e) as [p|] eqn:Hp; subst res; [|done]. rewrite <- H1.
  pose proof (update_lock_armed i t e p r s1 Hr Hi1 Hp Ha1) as Hg.
  by destruct (update_lock _ _ _ _ _ _) as [s2 [l2|err]].
Qed.

Lemma delete_lock_armed t i u e s : inv s -> armed s ->
  armed (delete_lock_with begun t i u e s).1.
Proof using.
  intros Hi Ha. unfold delete_lock_with, mbind, st_result_bind, lift, modify.
  destruct (get_mut_spec t e s) as (H1 & H2 & H3 & H4).
  destruct (get_mut t e s) as [s1 res]. simpl in *. assert (same_locks s s1) as Hsame by done.
  pose proof (good_idle EmptyString s s1 Hi (idle_same _ _ Hsame)) as [Hi1 _ _].
  pose proof (armed_idle s s1 Hi (idle_same _ _ Hsame) Ha) as Ha1.
  destruct (place_of t e) as [p|] eqn:Hp; subst res; [|done]. rewrite <- H1.
  destruct (validate_claim _ _ _); [|done]. destruct (held p s1) as [l|] eqn:Hl; [|done].
  assert (forall q, held q (abort (deletion_task l) s1) = held q s1) as Hh by (by intros []).
  eapply delete_calls_armed; [apply begun_calls| |exact Hp|].
  - apply (good_inv (owner l) s1), good_abort; [done|]. intros q l2 Hq Hn.
    assert (q = p) as -> by (by eapply (inv_own_task s1 Hi1)). congruence.
  - intros q l2 Hq. rewrite Hh. intros Hl2.
    destruct (abort_task (deletion_task l) (deletion_task l2) s1) as [[Hn _]| ->]; [|by eapply Ha1].
    destruct Hq. by eapply (inv_own_task s1 Hi1).
Qed.

End ownership.
