(* ===== verification/LockSteps.v ===== *)
(** * The lock service under interleaving

    The step relation of the SOVD locks: requests of any users, deletion tasks
    that wake up, and the parts of the POST of a functional group and of the
    clean-up of the vehicle lock, between which others run.  The theorems hold in
    every state that can be reached. *)

From stdpp Require Import strings gmap.
From S2P Require Import Prelude Locks LockOwnership.
From stdpp Require Import list.

Local Open Scope Z_scope.

Section steps.
Context (get_ecus : list string).
Context (ecus_for_functional_group : string -> list string).
Context (ecu_functional_groups : string -> result ApiError (list string)).
Context (to_lowercase : string -> string).
Context (order : list (string * option Lock) -> list (string * option Lock)).
Context (Horder : forall l, order l ≡ₚ l).

Local Abbreviation inv := (inv to_lowercase).
Local Abbreviation good := (good to_lowercase).

(** ** Steps *)

Abbreviation begun := (begin_cleanup get_ecus ecus_for_functional_group).

(** The handlers; of the clean-up of the vehicle lock only the part before its
    loops. *)
Inductive action : Type :=
  | EcuPost (name : string)
  | VehiclePost
  | Put (t : LockType) (lock_id : string) (entity : option string)
  | Delete (t : LockType) (lock_id : string) (entity : option string).

Definition perform (a : action) (r : Request) (s : State) : State :=
  match a with
  | EcuPost name => (ecu_post to_lowercase name r s).1
  | VehiclePost => (vehicle_post to_lowercase r s).1
  | Put t i e => (put_handler t i e r s).1
  | Delete t i e => (delete_lock_with begun t i (sub r) e s).1
  end.

(** The handlers that take the write guard of the vehicle lock. *)
Definition writes_vehicle (a : action) : bool :=
  match a with VehiclePost | Put Vehicle _ _ | Delete Vehicle _ _ => true | _ => false end.

Definition reads_vehicle (a : action) : bool := match a with EcuPost _ => true | _ => false end.

(** [pending] are the POSTs of functional groups that are under way, with caller,
    group and the ECU locks they are about to delete; each holds a read guard of
    the vehicle lock.  [cleaning] is the clean-up of the vehicle lock that is in
    its loops, with the user the lock was of and the table it is at; it holds the
    write guard of the vehicle lock. *)
Record World : Type := {
  st : State;
  pending : list (string * string * list (string * string));
  cleaning : option (string * LockType)
}.

(** Who takes the vehicle lock out goes on to the loops. *)
Definition cleaning_after (u : string) (s s' : State) (c : option (string * LockType)) : option (string * LockType) :=
  match vehicle (locks s), vehicle (locks s') with Some _, None => Some (u, Ecu) | _, _ => c end.

Definition vehicle_free (w : World) : Prop := pending w = [] /\ cleaning w = None.

Inductive step (ok : Request -> Prop) (u : string) : World -> World -> Prop :=
  | step_request a r w s' :
      ok r -> sub r = u -> s' = perform a r (st w) ->
      (writes_vehicle a = true -> vehicle_free w) -> (reads_vehicle a = true -> cleaning w = None) ->
      step ok u w {| st := s'; pending := pending w; cleaning := cleaning_after u (st w) s' (cleaning w) |}
  | step_group_check g w s' res :
      cleaning w = None ->
      functional_group_check ecu_functional_groups order g u (st w) = (s', res) ->
      step ok u w {| st := s'; pending := match res with Ok l => (u, g, l) :: pending w | Err _ => pending w end;
                     cleaning := None |}
  | step_group_release g w l1 l2 e i rest s' res :
      pending w = l1 ++ (u, g, (e, i) :: rest) :: l2 ->
      delete_lock_with begun Ecu i u (Some e) (st w) = (s', res) ->
      step ok u w {| st := s'; pending := if is_ok res then l1 ++ (u, g, rest) :: l2 else l1 ++ l2; cleaning := cleaning w |}
  | step_group_create g r w l1 l2 :
      ok r -> sub r = u -> pending w = l1 ++ (u, g, []) :: l2 ->
      step ok u w {| st := (functional_group_create to_lowercase g r (st w)).1; pending := l1 ++ l2; cleaning := cleaning w |}
  (** its client has gone away *)
  | step_group_dropped g l w l1 l2 :
      pending w = l1 ++ (u, g, l) :: l2 ->
      step ok u w {| st := st w; pending := l1 ++ l2; cleaning := cleaning w |}
  | step_expire n task w s' :
      tasks (st w) !! n = Some task -> (task_lock task = Vehicle -> vehicle_free w) ->
      (forall p l, place_of (task_lock task) (task_entity task) = Some p -> held p (st w) = Some l -> owner l = u) ->
      s' = (deletion_task_with begun task (abort n (st w))).1 ->
      step ok u w {| st := s'; pending := pending w; cleaning := cleaning_after u (st w) s' (cleaning w) |}
  | step_clear_round t k l w :
      cleaning w = Some (u, t) -> next_held order (table t (st w)) = Some (k, l) ->
      step ok u w {| st := clear_round ecus_for_functional_group t k l (st w); pending := pending w; cleaning := cleaning w |}
  | step_table_cleared w :
      cleaning w = Some (u, Ecu) -> next_held order (ecu (locks (st w))) = None ->
      step ok u w {| st := st w; pending := pending w; cleaning := Some (u, FunctionalGroup) |}
  | step_cleared w :
      cleaning w = Some (u, FunctionalGroup) -> next_held order (functional_group (locks (st w))) = None ->
      step ok u w {| st := st w; pending := pending w; cleaning := None |}
  (** the client of the DELETE has gone away *)
  | step_cleaning_dropped t w :
      cleaning w = Some (u, t) -> step ok u w {| st := st w; pending := pending w; cleaning := None |}.

Inductive reachable (ok : Request -> Prop) (ecu_names : list string) : World -> Prop :=
  | reachable_init : reachable ok ecu_names {| st := new ecu_names; pending := []; cleaning := None |}
  | reachable_step u w w' : reachable ok ecu_names w -> step ok u w w' -> reachable ok ecu_names w'.

(** ** Invariance *)

(** A pending POST passed the check of the vehicle lock, which its guard keeps
    true. *)
Definition pending_ok (w : World) : Prop :=
  forall u g l v, (u, g, l) ∈ pending w -> held AtVehicle (st w) = Some v -> owner v = u.

(** While the vehicle lock is cleaned up nobody can lock anything, so that all
    that is held is the user's; the ECUs are done before the groups. *)
Record cleaning_ok (w : World) : Prop := {
  cleaning_alone : cleaning w <> None -> pending w = [] /\ held AtVehicle (st w) = None;
  cleaning_owner u t : cleaning w = Some (u, t) -> t <> Vehicle /\ forall p l, held p (st w) = Some l -> owner l = u;
  cleaning_ecus u k : cleaning w = Some (u, FunctionalGroup) -> held (AtEcu k) (st w) = None
}.

Record world_ok (w : World) : Prop := {
  world_inv : inv (st w);
  world_pending : pending_ok w;
  world_cleaning : cleaning_ok w
}.

Lemma perform_good a r s : inv s -> good (sub r) s (perform a r s).
Proof using Horder.
  destruct a; simpl; intros Hi.
  - by apply ecu_post_good.
  - by apply vehicle_post_good.
  - by apply put_handler_good.
  - by apply delete_lock_good.
Qed.

(** *** Who does not touch the vehicle lock *)

Definition fixes_vehicle (s s' : State) : Prop := held AtVehicle s' = held AtVehicle s.

Lemma place_not_vehicle t e p : t <> Vehicle -> place_of t e = Some p -> p <> AtVehicle.
Proof using. destruct t, e; simpl; intros ? [= <-]; done. Qed.

Lemma update_lock_fixes t i e p r s : t <> Vehicle -> place_of t e = Some p ->
  fixes_vehicle s (update_lock i t e (held p s) r s).1.
Proof using.
  intros Ht Hp. pose proof (place_not_vehicle t e p Ht Hp). pose proof (update_lock_cases i t e p r s Hp) as Hc.
  destruct (update_lock i t e (held p s) r s) as [s' [l'|err]]; unfold fixes_vehicle; cbn -[held].
  - destruct Hc as (l & _ & _ & Hputs & _). rewrite (puts_held _ _ _ _ Hputs AtVehicle). by rewrite decide_False.
  - by destruct Hc as [->|(l & _ & _ & ->)].
Qed.

Lemma post_handler_fixes t e r s : t <> Vehicle -> fixes_vehicle s (post_handler to_lowercase t e r s).1.
Proof using.
  intros Ht. unfold post_handler, mbind at 1, st_result_bind at 1.
  destruct (get_mut_spec t e s) as (H1 & _ & _ & H4). destruct (get_mut t e s) as [s1 res]. simpl in *.
  destruct (place_of t e) as [p|] eqn:Hp; subst res; [|exact (H1 AtVehicle)].
  pose proof (place_not_vehicle t e p Ht Hp). unfold fixes_vehicle. rewrite <- (H1 AtVehicle), <- H1.
  destruct (held p s1) as [l|] eqn:Hl.
  - rewrite <- Hl. pose proof (update_lock_fixes t (id l) e p r s1 Ht Hp) as Hf.
    unfold mbind, st_result_bind. by destruct (update_lock _ _ _ _ _ _) as [s2 [l2|err]].
  - pose proof (create_lock_cases to_lowercase t e p r s1 Hp) as Hc. unfold mbind, st_result_bind.
    destruct (create_lock _ _ _ _ _) as [s2 [l'|err]]; [|exact (proj1 Hc AtVehicle)].
    destruct Hc as (_ & _ & _ & _ & _ & _ & Hcalls). unfold modify, mret, st_result_ret. cbn -[held].
    rewrite (held_write t e p _ AtVehicle s2 Hp), decide_False by done.
    by rewrite (proj1 (only_calls_same _ _ Hcalls) AtVehicle).
Qed.

Lemma put_handler_fixes t i e r s : t <> Vehicle -> fixes_vehicle s (put_handler t i e r s).1.
Proof using.
  intros Ht. unfold put_handler, mbind, st_result_bind.
  destruct (get_mut_spec t e s) as (H1 & _ & _ & H4). destruct (get_mut t e s) as [s1 res]. simpl in *.
  destruct (place_of t e) as [p|] eqn:Hp; subst res; [|exact (H1 AtVehicle)].
  unfold fixes_vehicle. rewrite <- (H1 AtVehicle), <- H1. pose proof (update_lock_fixes t i e p r s1 Ht Hp) as Hf.
  by destruct (update_lock _ _ _ _ _ _) as [s2 [l2|err]].
Qed.

Lemma delete_lock_fixes t i u e s : t <> Vehicle -> fixes_vehicle s (delete_lock_with begun t i u e s).1.
Proof using.
  intros Ht. unfold delete_lock_with, mbind, st_result_bind, lift, modify.
  destruct (get_mut_spec t e s) as (H1 & H2 & H3 & H4). destruct (get_mut t e s) as [s1 res]. simpl in *.
  destruct (place_of t e) as [p|] eqn:Hp; subst res; [|exact (H1 AtVehicle)].
  unfold fixes_vehicle. rewrite <- (H1 AtVehicle), <- H1. pose proof (place_not_vehicle t e p Ht Hp).
  destruct (validate_claim _ _ _); [|done]. destruct (held p s1) as [l|] eqn:Hl; [|done].
  destruct (delete_calls_removes begun t e p (abort (deletion_task l) s1)) as [(Hr & _) _]; [apply begun_calls|done|].
  by destruct (Hr AtVehicle) as [->|[? _]].
Qed.

Lemma perform_fixes a r s : writes_vehicle a = false -> fixes_vehicle s (perform a r s).
Proof using.
  destruct a as [name| |t i e|t i e]; simpl; intros Hw.
  - unfold ecu_post, vehicle_read_lock, mbind, st_result_bind, gets.
    destruct (validate_claim _ _ _); [|done]. destruct (is_any_locked _); [done|]. by apply post_handler_fixes.
  - done.
  - apply put_handler_fixes. by intros ->.
  - apply delete_lock_fixes. by intros ->.
Qed.

Lemma run_task_fixes n task s : task_lock task <> Vehicle ->
  fixes_vehicle s (deletion_task_with begun task (abort n s)).1.
Proof using.
  intros Ht. unfold fixes_vehicle. rewrite <- (eq_refl : held AtVehicle (abort n s) = held AtVehicle s).
  pose proof (run_task_cases begun task (abort n s)) as Hcases.
  destruct (place_of _ _) as [p|] eqn:Hp; [|exact (proj1 Hcases AtVehicle)].
  destruct Hcases as [[Hsame _]|(s1 & l & Hsame & _ & _ & _ & ->)]; [exact (proj1 Hsame AtVehicle)|].
  rewrite <- (proj1 Hsame AtVehicle). pose proof (place_not_vehicle _ _ p Ht Hp).
  destruct (delete_calls_removes begun (task_lock task) (task_entity task) p s1) as [(Hr & _) _]; [apply begun_calls|done|].
  by destruct (Hr AtVehicle) as [->|[? _]].
Qed.

Lemma clear_round_fixes t k l s : t <> Vehicle -> next_held order (table t s) = Some (k, l) ->
  fixes_vehicle s (clear_round ecus_for_functional_group t k l s).
Proof using Horder.
  intros Ht Hn. destruct (clear_round_removes ecus_for_functional_group order Horder t k l s Ht Hn) as (p & Hp & _ & (Hr & _) & _).
  pose proof (place_not_vehicle _ _ p Ht Hp). unfold fixes_vehicle. by destruct (Hr AtVehicle) as [->|[? _]].
Qed.

(** Handlers that take no guard of the vehicle lock create nothing. *)
Lemma perform_keeps a r s : writes_vehicle a = false -> reads_vehicle a = false -> keeps_owners s (perform a r s).
Proof using. destruct a; simpl; try done; intros _ _; [apply put_handler_keeps|apply delete_lock_keeps]. Qed.

(** *** Every step *)

Lemma vehicle_read_lock_ok u s : (vehicle_read_lock u s).2 = Ok tt <->
  forall v, held AtVehicle s = Some v -> owner v = u.
Proof using. apply validate_claim_none. Qed.

(** The check changes nothing. *)
Lemma functional_group_check_vehicle g u s s' res :
  functional_group_check ecu_functional_groups order g u s = (s', res) ->
  s' = s /\ forall l, res = Ok l -> forall v, held AtVehicle s = Some v -> owner v = u.
Proof using.
  unfold functional_group_check, vehicle_read_lock, mbind, st_result_bind, gets, lift.
  destruct (validate_claim None u (vehicle (locks s))) as [[]|e] eqn:Hv; [|by intros [= <- <-]].
  intros [= <- <-]. split; [done|]. intros _ _. by apply validate_claim_none.
Qed.

Lemma step_good ok u w w' : world_ok w -> step ok u w w' -> good u (st w) (st w').
Proof using Horder.
  intros [Hi Hp Hc] Hstep. destruct Hstep as [a r w s' Hr Hu -> Hw _|g w s' res _ Hrun|g w l1 l2 e i rest s' res Hpend Hrun
    |g r w l1 l2 Hr Hu Hpend| |n task w s' Htask Hw Hown ->|t k l w Hcl Hn| | |]; cbn [st]; try (by apply good_refl).
  - rewrite <- Hu. by apply perform_good.
  - apply functional_group_check_vehicle in Hrun as [-> _]. by apply good_refl.
  - pose proof (delete_lock_good get_ecus ecus_for_functional_group to_lowercase Ecu i u (Some e) (st w) Hi) as Hg. by rewrite Hrun in Hg.
  - subst u. apply (post_handler_good to_lowercase FunctionalGroup (Some g) (AtGroup g) r (st w) Hi eq_refl); [|done].
    intros _ v Hv. apply (Hp _ g [] v); [|done]. rewrite Hpend. apply elem_of_app. right. apply elem_of_cons. by left.
  - by apply run_task_good.
  - destruct (cleaning_owner w Hc u t Hcl) as [Ht Howner].
    destruct (clear_round_removes ecus_for_functional_group order Horder t k l (st w) Ht Hn) as (p & _ & Hl & Hr & _).
    eapply removes_good; [done|exact Hr|]. intros q l' <- Hq. by eapply Howner.
Qed.

Lemma pending_fixed w s' l c : pending_ok w -> fixes_vehicle (st w) s' ->
  (forall u g x, (u, g, x) ∈ l -> exists x', (u, g, x') ∈ pending w) -> pending_ok {| st := s'; pending := l; cleaning := c |}.
Proof using. intros Hp Hf Hl u' g' x v (x' & Hin)%Hl Hv. apply (Hp u' g' x' v); [done|]. by rewrite <- Hf. Qed.

Lemma step_pending ok u w w' : world_ok w -> step ok u w w' -> pending_ok w'.
Proof using Horder.
  intros [Hi Hp Hcl] Hstep.
  assert (Hnil : forall s' c, pending w = [] -> pending_ok {| st := s'; pending := pending w; cleaning := c |}).
  { intros s' c Hn u' g' x v. cbn [pending]. rewrite Hn. by intros ?%elem_of_nil. }
  destruct Hstep as [a r w s' Hr Hu -> Hw _|g w s' res _ Hrun|g w l1 l2 e i rest s' res Hpend Hrun
    |g r w l1 l2 Hr Hu Hpend|g l w l1 l2 Hpend|n task w s' Htask Hw Hown ->|t k l w Hc Hn|w Hc|w Hc|t w Hc].
  - destruct (writes_vehicle a) eqn:Ha; [by apply Hnil, Hw|]. apply (pending_fixed w); [done|by apply perform_fixes|eauto].
  - apply functional_group_check_vehicle in Hrun as [-> Hok]. destruct res as [l|e]; [|by apply (pending_fixed w); eauto].
    intros u' g' x v [[= -> -> ->]|Hin]%elem_of_cons Hv; cbn [st] in *; [by eapply Hok|by eapply Hp].
  - apply (pending_fixed w); [done| |].
    + pose proof (delete_lock_fixes Ecu i u (Some e) (st w) ltac:(done)) as Hf. by rewrite Hrun in Hf.
    + assert (Hsub : forall x, x ∈ l1 ++ l2 -> x ∈ pending w) by (intros x; rewrite Hpend, !elem_of_app, elem_of_cons; tauto).
      intros u' g' x. destruct (is_ok res); [|intros ?; by exists x; apply Hsub].
      intros [?|[[= -> -> ->]|?]%elem_of_cons]%elem_of_app; [exists x; apply Hsub, elem_of_app; by left| |exists x; apply Hsub, elem_of_app; by right].
      exists ((e, i) :: rest). rewrite Hpend. apply elem_of_app. right. apply elem_of_cons. by left.
  - apply (pending_fixed w); [done|by apply post_handler_fixes|]. intros u' g' x Hx. exists x. rewrite Hpend.
    apply elem_of_app in Hx as [Hx|Hx]; apply elem_of_app; [by left|right; apply elem_of_cons; by right].
  - apply (pending_fixed w); [done|done|]. intros u' g' x Hx. exists x. rewrite Hpend.
    apply elem_of_app in Hx as [Hx|Hx]; apply elem_of_app; [by left|right; apply elem_of_cons; by right].
  - destruct (decide (task_lock task = Vehicle)) as [Ht|Ht]; [by apply Hnil, Hw|].
    apply (pending_fixed w); [done|by apply run_task_fixes|eauto].
  - apply (pending_fixed w); [done|apply clear_round_fixes; [by apply (cleaning_owner w Hcl u)|done]|eauto].
  - by apply (pending_fixed w); eauto.
  - by apply (pending_fixed w); eauto.
  - by apply (pending_fixed w); eauto.
Qed.

(** Taking the vehicle lock out: what is left is the user's. *)
Lemma cleaning_starts u s s' pend c v : inv s -> good u s s' -> pend = [] -> c = None ->
  held AtVehicle s = Some v -> held AtVehicle s' = None ->
  cleaning_ok {| st := s'; pending := pend; cleaning := cleaning_after u s s' c |}.
Proof using.
  intros Hi Hg -> -> Hv Hn. cbn [held] in Hv, Hn. unfold cleaning_after. rewrite Hv, Hn.
  assert (Hu : owner v = u).
  { destruct (decide (owner v = u)) as [|Hne]; [done|]. destruct (good_foreign _ _ _ _ Hg AtVehicle v Hv Hne) as [H _].
    cbn in H. congruence. }
  split; cbn [cleaning st pending]; [done| |done]. intros u' t [= <- <-]. split; [done|]. intros p l Hl.
  destruct (good_new _ _ _ _ Hg p l Hl) as [?|Hl']; [done|]. rewrite <- Hu. by eapply (inv_vehicle _ s Hi).
Qed.

(** Steps that leave the vehicle lock alone, or find nothing being cleaned up. *)
Lemma cleaning_kept w u s' pend : cleaning_ok w -> (pending w = [] -> pend = []) ->
  (cleaning w = None \/ (fixes_vehicle (st w) s' /\ keeps_owners (st w) s')) ->
  vehicle (locks s') <> None \/ vehicle (locks (st w)) = None ->
  cleaning_ok {| st := s'; pending := pend; cleaning := cleaning_after u (st w) s' (cleaning w) |}.
Proof using.
  intros [Ha Ho He] Hpend Hcases Hveh.
  assert (Hc : cleaning_after u (st w) s' (cleaning w) = cleaning w).
  { unfold cleaning_after. destruct Hveh as [?|Hn]; [by destruct (vehicle (locks (st w))), (vehicle (locks s'))|by rewrite Hn]. }
  rewrite Hc. destruct Hcases as [Hn|[Hf Hk]]; [rewrite Hn; by split|].
  split; cbn [cleaning st pending].
  - intros H. destruct (Ha H) as [H1 H2]. split; [by apply Hpend|by rewrite Hf].
  - intros u' t H. destruct (Ho u' t H) as [H1 H2]. split; [done|]. intros p l (l0 & Hl0 & ->)%Hk. by eapply H2.
  - intros u' k H. destruct (held (AtEcu k) s') as [l|] eqn:Hl; [|done]. apply Hk in Hl as (l0 & Hl0 & _).
    by rewrite (He u' k H) in Hl0.
Qed.

Lemma cleaning_step u w s' : world_ok w -> good u (st w) s' ->
  vehicle_free w \/ (fixes_vehicle (st w) s' /\ (cleaning w = None \/ keeps_owners (st w) s')) ->
  cleaning_ok {| st := s'; pending := pending w; cleaning := cleaning_after u (st w) s' (cleaning w) |}.
Proof using.
  intros [Hi _ Hcl] Hg Hw. destruct (vehicle (locks (st w))) as [v|] eqn:Hv; [destruct (vehicle (locks s')) as [v'|] eqn:Hv'|].
  - apply cleaning_kept; [done|done| |left; congruence]. destruct Hw as [[_ ?]|[? [?|?]]]; auto.
  - destruct Hw as [[Hp Hc]|[Hf _]]; [by eapply cleaning_starts|]. unfold fixes_vehicle in Hf. cbn in Hf. congruence.
  - apply cleaning_kept; [done|done| |by right]. destruct Hw as [[_ ?]|[? [?|?]]]; auto.
Qed.

Lemma next_held_done t k s : t <> Vehicle -> next_held order (table t s) = None -> mjoin (table t s !! k) = None.
Proof using Horder.
  intros Ht Hn. destruct (table t s !! k) as [[l|]|] eqn:E; try done. by apply (next_held_none order Horder) with (l := l) in E.
Qed.

Lemma step_cleaning ok u w w' : world_ok w -> step ok u w w' -> cleaning_ok w'.
Proof using Horder.
  intros Hw Hstep. pose proof (step_good ok u w w' Hw Hstep) as Hg. pose proof Hw as [Hi Hp Hcl]. pose proof Hcl as [Ha Ho He].
  destruct Hstep as [a r w s' Hr Hu -> Hfree Hread|g w s' res Hnone Hrun|g w l1 l2 e i rest s' res Hpend Hrun
    |g r w l1 l2 Hr Hu Hpend|g l w l1 l2 Hpend|n task w s' Htask Hfree Hown ->|t k l w Hc Hn|w Hc Hn|w Hc Hn|t w Hc]; cbn [st] in Hg.
  - apply cleaning_step; [done|done|]. destruct (writes_vehicle a) eqn:Hwr; [left; by apply Hfree|]. right.
    split; [by apply perform_fixes|]. destruct (reads_vehicle a) eqn:Hrd; [left; by apply Hread|right; by apply perform_keeps].
  - by split.
  - assert (Hc : cleaning w = None) by (destruct (cleaning w) eqn:E; [|done]; destruct Ha as [Hn _]; [done|]; rewrite Hn in Hpend; by destruct l1).
    rewrite Hc. by split.
  - assert (Hc : cleaning w = None) by (destruct (cleaning w) eqn:E; [|done]; destruct Ha as [Hn _]; [done|]; rewrite Hn in Hpend; by destruct l1).
    rewrite Hc. by split.
  - assert (Hc : cleaning w = None) by (destruct (cleaning w) eqn:E; [|done]; destruct Ha as [Hn _]; [done|]; rewrite Hn in Hpend; by destruct l1).
    rewrite Hc. by split.
  - apply cleaning_step; [done|done|]. destruct (decide (task_lock task = Vehicle)) as [Ht|Ht]; [left; by apply Hfree|].
    right. split; [by apply run_task_fixes|]. right. by apply run_task_keeps.
  - destruct (Ho u t Hc) as [Ht Howner]. destruct Ha as [Hpn Hvn]; [by rewrite Hc|].
    destruct (clear_round_removes ecus_for_functional_group order Horder t k l (st w) Ht Hn) as (p & _ & _ & Hr & _).
    apply removes_keeps in Hr. split; cbn [cleaning st pending].
    + intros _. split; [done|]. by rewrite (clear_round_fixes t k l (st w) Ht Hn).
    + intros u' t' H. rewrite Hc in H. injection H as <- <-. split; [done|]. intros q l' (l0 & Hl0 & ->)%Hr. by eapply Howner.
    + intros u' k' H. destruct (held (AtEcu k') _) as [l'|] eqn:Hl; [|done]. apply Hr in Hl as (l0 & Hl0 & _). by rewrite (He u' k' H) in Hl0.
  - destruct (Ho u Ecu Hc) as [_ Howner]. destruct Ha as [Hpn Hvn]; [by rewrite Hc|]. split; cbn [cleaning st pending]; [done| |].
    + intros u' t' [= <- <-]. by split.
    + intros u' k' _. by apply (next_held_done Ecu).
  - by split.
  - by split.
Qed.

(** A clean-up of the vehicle lock that comes to its end leaves no lock held,
    whatever came between its rounds. *)
Lemma clean_up_releases_all w u p : world_ok w -> cleaning w = Some (u, FunctionalGroup) ->
  next_held order (functional_group (locks (st w))) = None -> held p (st w) = None.
Proof using Horder.
  intros [_ _ [Ha _ He]] Hc Hn. destruct p as [|k|k]; [by apply Ha; rewrite Hc|by eapply He|].
  by apply (next_held_done FunctionalGroup).
Qed.

Lemma step_armed (ok : Request -> Prop) u w w' : (forall r, ok r -> schedulable r) ->
  world_ok w -> step ok u w w' -> armed (st w) -> armed (st w').
Proof using Horder.
  intros Hok [Hi Hp Hcl] Hstep. destruct Hstep as [a r w s' Hr Hu -> _ _|g w s' res _ Hrun|g w l1 l2 e i rest s' res Hpend Hrun
    |g r w l1 l2 Hr Hu Hpend| |n task w s' Htask _ _ ->|t k l w Hc Hn| | |]; cbn [st]; intros Ha; try done.
  - apply Hok in Hr. destruct a as [name| |t i e|t i e]; simpl.
    + unfold ecu_post, vehicle_read_lock, mbind, st_result_bind, gets.
      destruct (validate_claim _ _ _); [|done]. destruct (is_any_locked _); [done|].
      by apply (post_handler_armed to_lowercase Ecu (Some name) (AtEcu name)).
    + unfold vehicle_post, mbind, st_result_bind, gets, lift. simpl. repeat (destruct (validate_claim _ _ _); [|done]).
      repeat (destruct (all_locks_owned _ _); [|done]).
      by apply (post_handler_armed to_lowercase Vehicle None AtVehicle).
    + by eapply put_handler_armed.
    + by eapply delete_lock_armed.
  - by apply functional_group_check_vehicle in Hrun as [-> _].
  - pose proof (delete_lock_armed get_ecus ecus_for_functional_group to_lowercase Ecu i u (Some e) (st w) Hi Ha) as H. by rewrite Hrun in H.
  - by apply (post_handler_armed to_lowercase FunctionalGroup (Some g) (AtGroup g)); [apply Hok| | |].
  - by eapply run_task_armed.
  - destruct (cleaning_owner w Hcl u t Hc) as [Ht _].
    destruct (clear_round_removes ecus_for_functional_group order Horder t k l (st w) Ht Hn) as (p & _ & _ & Hr & Hnone).
    eapply emptied_armed; [exact Hi|exact Hr|done|]. intros q l' _ Hq. by eapply Ha.
Qed.

Lemma new_holds_nothing names p : held p (new names) = None.
Proof using.
  destruct p as [|k|k]; simpl; [done| |by rewrite lookup_empty].
  induction names as [|e names IH]; simpl; [by rewrite lookup_empty|]. rewrite join_insert. by case_decide.
Qed.

Lemma reachable_ok ok names w : reachable ok names w -> world_ok w.
Proof using Horder.
  induction 1 as [|u w w' _ Hw Hstep].
  - split; [split; cbn -[held]; intros *; by rewrite ?new_holds_nothing| |by split].
    intros u g l v Hin. by apply elem_of_nil in Hin.
  - split; [by eapply good_inv, step_good|by eapply step_pending|by eapply step_cleaning].
Qed.

Lemma reachable_armed (ok : Request -> Prop) names w :
  (forall r, ok r -> schedulable r) -> reachable ok names w -> armed (st w).
Proof using Horder.
  intros Hok. induction 1 as [|u w w' Hr Hw Hstep].
  - intros p l. cbn -[held]. by rewrite new_holds_nothing.
  - eapply step_armed; [done|by eapply reachable_ok|done|done].
Qed.

(** ** Properties *)

(** C1: while somebody holds the lock of the vehicle, every lock that is held
    belongs to the same user, whatever requests, expiries and parts of POSTs of
    functional groups and of clean-ups of the vehicle lock came before. *)
Theorem vehicle_lock_exclusive ok names w v p l :
  reachable ok names w -> held AtVehicle (st w) = Some v -> held p (st w) = Some l -> owner l = owner v.
Proof using Horder. intros Hw. by apply (inv_vehicle to_lowercase _ (world_inv _ (reachable_ok ok names w Hw))). Qed.

(** C37: no step on behalf of a user touches a lock of another one: neither
    the lock with its expiration nor its deletion task changes. *)
Theorem foreign_locks_untouched ok names u w w' p l :
  reachable ok names w -> step ok u w w' -> held p (st w) = Some l -> owner l <> u ->
  held p (st w') = Some l /\ tasks (st w') !! deletion_task l = tasks (st w) !! deletion_task l.
Proof using Horder.
  intros Hw Hstep. apply (good_foreign to_lowercase _ _ _ (step_good ok u w w' (reachable_ok ok names w Hw) Hstep)).
Qed.

(** C38: as long as every requested expiration can be scheduled (a refused
    extension leaves its lock without a task), a lock that is held has a live
    deletion task, which wakes in the last second before the expiration, and never
    after it.  When nothing comes between the parts of its run, it then releases
    the lock, the one of the vehicle together with all others, and leaves every
    other lock alone.  For each lock it releases it makes the calls of the
    clean-up, for a lock of an ECU or a functional group these and no others: it
    stops the tester present and resets the session and security access of the
    ECUs the lock was for. *)
Theorem locks_expire names w p l :
  reachable schedulable names w -> held p (st w) = Some l ->
  exists task, tasks (st w) !! deletion_task l = Some task /\
    target_instant task <= expiration l < target_instant task + SECOND /\
    let s' := (deletion_task_body get_ecus ecus_for_functional_group order task
                 (abort (deletion_task l) (st w))).1 in
    (forall q, emptied p q -> held q s' = None) /\
    (forall q, ~ emptied p q -> held q s' = held q (st w)) /\
    (exists calls, uds_calls s' = uds_calls (st w) ++ calls /\
       (p <> AtVehicle -> calls = calls_of get_ecus ecus_for_functional_group to_lowercase p) /\
       forall q c, emptied p q -> is_Some (held q (st w)) ->
         c ∈ calls_of get_ecus ecus_for_functional_group to_lowercase q -> c ∈ calls).
Proof using Horder.
  intros Hw Hl. pose proof (world_inv _ (reachable_ok _ _ _ Hw)) as Hi.
  destruct (reachable_armed schedulable names w (fun r Hr => Hr) Hw p l Hl) as [task Htask].
  destruct (inv_task _ _ Hi p l task Hl Htask) as (Hid & Hp & Hwake).
  exists task. split; [done|]. split; [done|]. intros s'. set (s0 := abort (deletion_task l) (st w)).
  assert (inv s0) as Hi0.
  { apply (good_inv to_lowercase (owner l) (st w)), good_abort; [done|]. intros q l2 Hq Hn.
    assert (q = p) as -> by (by eapply (inv_own_task _ _ Hi)). congruence. }
  assert (forall q, held q s0 = held q (st w)) as Hh0 by (by intros []).
  pose proof (run_task_cases (call_cleanup get_ecus ecus_for_functional_group order) task s0) as Hcases.
  unfold s', deletion_task_body. fold s0. rewrite Hp in Hcases.
  destruct Hcases as [[_ Hno]|(s1 & l1 & Hsame & Hcalls & Hl1 & _ & ->)].
  { rewrite Hh0 in Hno. by destruct (Hno l Hl). }
  fold (delete_held get_ecus ecus_for_functional_group order (task_lock task) (task_entity task)).
  rewrite Hh0, Hl in Hl1. injection Hl1 as <-. pose proof Hsame as (Hh1 & _).
  assert (inv s1) as Hi1 by (by apply (good_inv to_lowercase EmptyString s0), good_idle, idle_same).
  assert (held p s1 = Some l) as Hl1 by (by rewrite Hh1, Hh0).
  split; [intros q Hq; by eapply delete_held_empties|]. split.
  - intros q Hq. destruct (delete_held_removes get_ecus ecus_for_functional_group to_lowercase order Horder
      (task_lock task) (task_entity task) p s1 Hi1 Hp) as [(Hr & _) _].
    destruct (Hr q) as [->|[? _]]; [by rewrite Hh1, Hh0|done].
  - destruct (delete_held_uds get_ecus ecus_for_functional_group to_lowercase order Horder
      (task_lock task) (task_entity task) p l s1 Hi1 Hp Hl1) as [(calls & Hc & Hin) Hown].
    exists calls. rewrite Hc in Hown |- *. rewrite Hcalls in Hown |- *. split; [done|]. split.
    + intros Hne. by eapply app_inv_head, Hown.
    + intros q c Hq Hheld. apply Hin; [done|]. by rewrite Hh1, Hh0.
Qed.
End steps.

Lemma held_ecu s k l : ecu (locks s) !! k = Some (Some l) <-> held (AtEcu k) s = Some l.
Proof. simpl. split; [by intros ->|]. destruct (ecu (locks s) !! k) as [[l'|]|]; simpl; congruence. Qed.

Lemma validate_owned_cases s u :
  match validate_owned (ecu (locks s)) s u with
  | None => (forall v, held AtVehicle s = Some v -> owner v = u) /\
            (forall k l, held (AtEcu k) s = Some l -> owner l = u)
  | Some e => e = Forbidden /\ ((exists v, held AtVehicle s = Some v /\ owner v <> u) \/
                                (exists k l, held (AtEcu k) s = Some l /\ owner l <> u))
  end.
Proof.
  unfold validate_owned. destruct (validate_claim None u (vehicle (locks s))) as [[]|e] eqn:Hv.
  2: { apply validate_claim_foreign in Hv as (-> & ?). auto. }
  destruct (all_locks_owned (ecu (locks s)) u) as [[]|e] eqn:He.
  - split; [by apply validate_claim_none|]. rewrite all_locks_owned_ok in He.
    intros k l Hk. by apply (He k), held_ecu.
  - apply all_locks_owned_foreign in He as (-> & k & l & Hk & Hu). split; [done|]. right.
    exists k, l. by rewrite <- held_ecu.
Qed.

(** who may write to an ECU: the caller passes exactly when the ECU or the
    vehicle is locked and neither the vehicle nor any ECU is locked by
    somebody else; everybody else is refused with [Forbidden]. *)
Theorem validate_lock_spec s u name :
  match validate_lock s u name with
  | None => ((exists l, held (AtEcu name) s = Some l) \/ (exists v, held AtVehicle s = Some v)) /\
            (forall v, held AtVehicle s = Some v -> owner v = u) /\
            (forall k l, held (AtEcu k) s = Some l -> owner l = u)
  | Some e => e = Forbidden /\
      ((held (AtEcu name) s = None /\ held AtVehicle s = None) \/
       (exists v, held AtVehicle s = Some v /\ owner v <> u) \/
       (exists k l, held (AtEcu k) s = Some l /\ owner l <> u))
  end.
Proof.
  unfold validate_lock, validate_entity, get_locks, get_locks_vehicle.
  pose proof (validate_owned_cases s u) as Hchecks.
  destruct (ecu (locks s) !! name) as [[l|]|] eqn:Hname, (vehicle (locks s)) as [v|] eqn:Hveh;
    try (split; [done|]; left; cbn; by rewrite Hname);
    destruct (validate_owned (ecu (locks s)) s u) as [e|]; destruct Hchecks; (split; [|by auto]); try done.
  all: first [left; exists l; by apply held_ecu | right; by exists v].
Qed.

(** ** Witnesses *)

Open Scope string_scope.

Definition ex_ecus : list string := ["A"; "B"].
Definition ex_group (_ : string) : list string := ex_ecus.
Definition ex_groups (_ : string) : result ApiError (list string) := Ok ["G"].
Definition ex_order (l : list (string * option Lock)) : list (string * option Lock) := l.

(** The request of [u] at time [t] for [seconds]; reading the clock takes a
    nanosecond each time. *)
Definition ex_request (u : string) (t seconds : Z) (i : string) : Request :=
  {| sub := u; utc_expiration := t + seconds * SECOND; now_create := t + 1; now_schedule := t + 2; new_id := i;
     tester_present_active := false; start_tester_present := Ok tt |}.

Abbreviation ex_step := (step ex_ecus ex_group ex_groups (fun s => s) ex_order).
Abbreviation ex_reachable := (reachable ex_ecus ex_group ex_groups (fun s => s) ex_order).
Abbreviation ex_perform := (perform ex_ecus ex_group (fun s => s)).

Lemma ex_order_perm l : ex_order l ≡ₚ l.
Proof. done. Qed.

Definition alice_60 : Request := ex_request "alice" 0 60 "1".

(** Alice locks the vehicle and then an ECU. *)
Definition ex_world_1 : World := {| st := ex_perform VehiclePost alice_60 (new ex_ecus); pending := []; cleaning := None |}.
Definition alice_ecu : Request := ex_request "alice" 5 60 "2".
Definition ex_world_2 : World := {| st := ex_perform (EcuPost "A") alice_ecu (st ex_world_1); pending := []; cleaning := None |}.

Lemma ex_world_2_reachable : ex_reachable schedulable ex_ecus ex_world_2.
Proof.
  eapply (reachable_step _ _ _ _ _ _ _ "alice" ex_world_1).
  - eapply (reachable_step _ _ _ _ _ _ _ "alice" {| st := new ex_ecus; pending := []; cleaning := None |}); [constructor|].
    apply (step_request _ _ _ _ _ schedulable "alice" VehiclePost alice_60 {| st := new ex_ecus; pending := []; cleaning := None |});
      [split; vm_compute; discriminate|done|reflexivity|done|done].
  - apply (step_request _ _ _ _ _ schedulable "alice" (EcuPost "A") alice_ecu ex_world_1);
      [split; vm_compute; discriminate|done|reflexivity|done|done].
Qed.

Example vehicle_lock_exclusive_witness :
  exists v l, held AtVehicle (st ex_world_2) = Some v /\ held (AtEcu "A") (st ex_world_2) = Some l /\ owner l = owner v.
Proof.
  eexists _, _. split; [vm_compute; reflexivity|]. split; [vm_compute; reflexivity|].
  eapply (vehicle_lock_exclusive ex_ecus ex_group ex_groups (fun s => s) ex_order ex_order_perm schedulable ex_ecus
            ex_world_2 _ (AtEcu "A")); [exact ex_world_2_reachable|vm_compute; reflexivity|vm_compute; reflexivity].
Defined.

(** Bob tries to delete Alice's lock. *)
Example foreign_locks_untouched_witness :
  let w' := {| st := ex_perform (Delete Ecu "2" (Some "A")) (ex_request "bob" 9 60 "3") (st ex_world_2); pending := []; cleaning := None |} in
  exists l, held (AtEcu "A") (st ex_world_2) = Some l /\ owner l <> "bob" /\ held (AtEcu "A") (st w') = Some l /\
    tasks (st w') !! deletion_task l = tasks (st ex_world_2) !! deletion_task l.
Proof.
  eexists. split; [vm_compute; reflexivity|]. split; [vm_compute; discriminate|].
  eapply (foreign_locks_untouched ex_ecus ex_group ex_groups (fun s => s) ex_order ex_order_perm schedulable ex_ecus
            "bob" ex_world_2 _ (AtEcu "A")).
  - exact ex_world_2_reachable.
  - apply (step_request _ _ _ _ _ schedulable "bob" (Delete Ecu "2" (Some "A")) (ex_request "bob" 9 60 "3") ex_world_2);
      [split; vm_compute; discriminate|done|reflexivity|done|done].
  - vm_compute. reflexivity.
  - vm_compute. discriminate.
Defined.

Example locks_expire_witness :
  exists l task, held (AtEcu "A") (st ex_world_2) = Some l /\
    tasks (st ex_world_2) !! deletion_task l = Some task /\
    target_instant task <= expiration l < target_instant task + SECOND /\
    let s' := (deletion_task_body ex_ecus ex_group ex_order task (abort (deletion_task l) (st ex_world_2))).1 in
    held (AtEcu "A") s' = None.
Proof.
  edestruct (locks_expire ex_ecus ex_group ex_groups (fun s => s) ex_order ex_order_perm ex_ecus ex_world_2 (AtEcu "A"))
    as (task & Htask & Hwake & Hnone & _); [exact ex_world_2_reachable|vm_compute; reflexivity|].
  eexists _, task. split; [vm_compute; reflexivity|]. split; [exact Htask|]. split; [exact Hwake|].
  apply Hnone. by left.
Defined.

(** ** What the handlers get wrong *)

Abbreviation ex_ecu_post := (ecu_post (fun s => s)).

(** Alice has locked an ECU for a minute and asks to extend the lock by no
    seconds at all.  The request is refused, but her deletion task is gone: the
    lock never expires. *)
Example refused_extension_never_expires :
  let s1 := (ex_ecu_post "A" alice_60 (new ex_ecus)).1 in
  let '(s2, r) := put_handler Ecu "1" (Some "A") (ex_request "alice" 7 0 "9") s1 in
  tasks s1 <> ∅ /\ r = Err BadRequest /\ held (AtEcu "A") s2 = held (AtEcu "A") s1 /\ tasks s2 = ∅.
Proof. vm_compute. repeat split; discriminate. Qed.

(** The delay is rounded down to whole seconds, after some of it has passed: a
    lock for one second is deleted at once. *)
Example one_second_lock_lives_no_second :
  let r := ex_request "alice" 0 1 "1" in
  let s := (ex_ecu_post "A" r (new ex_ecus)).1 in
  target_instant <$> tasks s !! 0%nat = Some (now_schedule r).
Proof. vm_compute. reflexivity. Qed.

(** Alice has locked ECU A and may not write to it, because Bob has locked
    ECU B. *)
Example other_ecu_lock_blocks :
  let s1 := (ex_ecu_post "A" alice_60 (new ex_ecus)).1 in
  let s2 := (ex_ecu_post "B" (ex_request "bob" 5 60 "2") s1).1 in
  validate_lock s1 "alice" "A" = None /\ validate_lock s2 "alice" "A" = Some Forbidden.
Proof. vm_compute. done. Qed.

(** Alice's POST of the group has checked its ECUs; Bob locks one of them
    before she has the lock of the group.  Both succeed. *)
Example group_lock_race :
  let '(s1, r1) := functional_group_check ex_groups ex_order "G" "alice" (new ex_ecus) in
  let '(s2, r2) := ex_ecu_post "A" (ex_request "bob" 5 60 "2") s1 in
  let '(s3, r3) := functional_group_create (fun s => s) "G" alice_60 s2 in
  r1 = Ok [] /\ r2 = Ok "2" /\ r3 = Ok "1" /\
  owner <$> held (AtEcu "A") s3 = Some "bob" /\ owner <$> held (AtGroup "G") s3 = Some "alice".
Proof. vm_compute. done. Qed.
