(* ===== verification/LockOrder.v ===== *)
(** * The guards of the lock tables

    The three tables of Locks.v are behind [tokio::sync::RwLock]s, which queue
    their waiters in order.  A handler is the sequence of guards it takes and
    drops; it may also return early and drop all of them.  The handlers that
    change a table never wait for each other in a circle; those that validate
    a lock can. *)

From stdpp Require Import strings relations.
From S2P Require Import Prelude Locks.
From stdpp Require Import list.

(** ** Guards *)

Inductive mode : Type := Read | Write.

#[export] Instance mode_eq_dec : EqDecision mode.
Proof. solve_decision. Defined.

Inductive op : Type :=
  | Acquire (r : LockType) (m : mode)
  | Release (r : LockType).

(** A task holds guards, may be queued for the guard its program acquires
    next, and has the rest of its program before it. *)
Record Task : Type := {
  guards : list (LockType * mode);
  waiting : bool;
  prog : list op
}.

Record RwLocks : Type := {
  running : list Task;
  queue : LockType -> list nat
}.

Definition set_queue (r : LockType) (q : list nat) (f : LockType -> list nat) : LockType -> list nat :=
  fun r' => if decide (r' = r) then q else f r'.

(** A guard is granted next to the guards of others only if all are for
    reading. *)
Definition compatible (r : LockType) (m : mode) (l : list Task) : Prop :=
  forall t m', t ∈ l -> (r, m') ∈ guards t -> m = Read /\ m' = Read.

Definition finished (t : Task) : Prop := guards t = [] /\ prog t = [] /\ waiting t = false.

Inductive gstep : RwLocks -> RwLocks -> Prop :=
  | gstep_request g i t r m rest :
      running g !! i = Some t -> waiting t = false -> prog t = Acquire r m :: rest ->
      gstep g {| running := <[i := {| guards := guards t; waiting := true; prog := prog t |}]> (running g);
                 queue := set_queue r (queue g r ++ [i]) (queue g) |}
  | gstep_grant g i q t r m rest :
      queue g r = i :: q -> running g !! i = Some t -> prog t = Acquire r m :: rest ->
      compatible r m (running g) ->
      gstep g {| running := <[i := {| guards := (r, m) :: guards t; waiting := false; prog := rest |}]> (running g);
                 queue := set_queue r q (queue g) |}
  | gstep_release g i t r rest :
      running g !! i = Some t -> waiting t = false -> prog t = Release r :: rest ->
      gstep g {| running := <[i := {| guards := filter (fun x => x.1 <> r) (guards t); waiting := false;
                                      prog := rest |}]> (running g);
                 queue := queue g |}
  | gstep_return g i t :
      running g !! i = Some t -> waiting t = false -> ~ finished t ->
      gstep g {| running := <[i := {| guards := []; waiting := false; prog := [] |}]> (running g);
                 queue := queue g |}.

Definition start (progs : list (list op)) : RwLocks :=
  {| running := (fun p => {| guards := []; waiting := false; prog := p |}) <$> progs; queue := fun _ => [] |}.

(** Somebody is left and nothing can happen. *)
Definition deadlocked (g : RwLocks) : Prop :=
  (exists t, t ∈ running g /\ ~ finished t) /\ forall g', ~ gstep g g'.

(** ** The handlers *)

Definition vehicle_get : list op := [Acquire Vehicle Read; Release Vehicle].
Definition table_read (t : LockType) : list op := [Acquire t Read; Release t].

(** PUT, DELETE and the deletion task of a lock on an ECU or a group. *)
Definition table_write (t : LockType) : list op := [Acquire t Write; Release t].

(** The clean-up takes the guard of a table once per lock. *)
Definition clear_guards (t : LockType) (n : nat) : list op := concat (replicate (S n) (table_write t)).

(** DELETE and the deletion task of the vehicle lock. *)
Definition vehicle_delete_guards (ecus groups : nat) : list op :=
  Acquire Vehicle Write :: clear_guards Ecu ecus ++ clear_guards FunctionalGroup groups ++ [Release Vehicle].

Definition vehicle_post_guards : list op :=
  [Acquire Vehicle Write; Acquire Ecu Read; Acquire FunctionalGroup Read;
   Release Vehicle; Release FunctionalGroup; Release Ecu].

Definition ecu_post_guards : list op :=
  [Acquire Vehicle Read; Acquire FunctionalGroup Read; Acquire Ecu Write;
   Release Ecu; Release FunctionalGroup; Release Vehicle].

(** The ECUs of the group are unlocked one by one. *)
Definition functional_group_post_guards (n : nat) : list op :=
  [Acquire Vehicle Read] ++ table_read Ecu ++ concat (replicate n (table_write Ecu)) ++
  [Acquire FunctionalGroup Write; Release FunctionalGroup; Release Vehicle].

Definition update_entries_guards : list op :=
  [Acquire FunctionalGroup Read; Release FunctionalGroup; Acquire Ecu Write; Release Ecu].

Definition validate_lock_guards : list op :=
  [Acquire Ecu Read; Acquire Vehicle Read; Release Vehicle; Release Ecu].

Definition validate_fg_lock_guards : list op :=
  [Acquire FunctionalGroup Read; Acquire Vehicle Read; Release Vehicle; Release FunctionalGroup].

Definition has_non_vehicle_locks_guards : list op :=
  [Acquire Ecu Read; Acquire FunctionalGroup Read; Release FunctionalGroup; Release Ecu].

(** The handlers that change the tables, and the ones that read a single one. *)
Inductive changes_tables : list op -> Prop :=
  | changes_read t : changes_tables (table_read t)
  | changes_write t : changes_tables (table_write t)
  | changes_vehicle_delete n k : changes_tables (vehicle_delete_guards n k)
  | changes_vehicle_post : changes_tables vehicle_post_guards
  | changes_ecu_post : changes_tables ecu_post_guards
  | changes_group_post n : changes_tables (functional_group_post_guards n)
  | changes_entries : changes_tables update_entries_guards.

(** ** The discipline *)

Definition holds (r : LockType) (h : list (LockType * mode)) : bool :=
  existsb (fun x => bool_decide (x.1 = r)) h.

(** A guard is not taken twice; the one of the vehicle comes first; both
    tables together need it, and the group after the ECU needs it for writing. *)
Definition may_acquire (h : list (LockType * mode)) (r : LockType) : bool :=
  negb (holds r h) &&
  match r with
  | Vehicle => negb (holds Ecu h) && negb (holds FunctionalGroup h)
  | Ecu => implb (holds FunctionalGroup h) (holds Vehicle h)
  | FunctionalGroup => implb (holds Ecu h) (bool_decide ((Vehicle, Write) ∈ h))
  end.

Fixpoint disciplined (h : list (LockType * mode)) (p : list op) : bool :=
  match p with
  | [] => true
  | Acquire r m :: p => may_acquire h r && disciplined ((r, m) :: h) p
  | Release r :: p => disciplined (filter (fun x => x.1 <> r) h) p
  end.

(** ** The discipline holds of the handlers *)

(** What a program leaves held when it runs to its end. *)
Fixpoint left_held (h : list (LockType * mode)) (p : list op) : list (LockType * mode) :=
  match p with
  | [] => h
  | Acquire r m :: p => left_held ((r, m) :: h) p
  | Release r :: p => left_held (filter (fun x => x.1 <> r) h) p
  end.

Lemma disciplined_app h p q : disciplined h (p ++ q) = disciplined h p && disciplined (left_held h p) q.
Proof.
  revert h. induction p as [|[r m|r] p IH]; intros h; simpl; [done| |apply IH].
  by rewrite IH, andb_assoc.
Qed.

Lemma left_held_app h p q : left_held h (p ++ q) = left_held (left_held h p) q.
Proof. revert h. induction p as [|[r m|r] p IH]; intros h; simpl; auto. Qed.

(** A block that leaves the guards as they were can be repeated. *)
Lemma disciplined_repeat h p n :
  disciplined h p = true -> left_held h p = h ->
  disciplined h (concat (replicate n p)) = true /\ left_held h (concat (replicate n p)) = h.
Proof.
  intros Hp Hh. induction n as [|n [IH1 IH2]]; simpl; [done|].
  by rewrite disciplined_app, left_held_app, Hp, Hh.
Qed.

Lemma changes_disciplined p : changes_tables p -> disciplined [] p = true.
Proof.
  destruct 1 as [t|t|n k| | |n|]; [by destruct t|by destruct t| |done|done| |done].
  - unfold vehicle_delete_guards.
    change (disciplined [(Vehicle, Write)] (clear_guards Ecu n ++ clear_guards FunctionalGroup k ++ [Release Vehicle]) = true).
    rewrite !disciplined_app. unfold clear_guards.
    destruct (disciplined_repeat [(Vehicle, Write)] (table_write Ecu) (S n) eq_refl eq_refl) as [-> ->].
    by destruct (disciplined_repeat [(Vehicle, Write)] (table_write FunctionalGroup) (S k) eq_refl eq_refl) as [-> ->].
  - unfold functional_group_post_guards.
    change (disciplined [(Vehicle, Read)] (concat (replicate n (table_write Ecu)) ++
      [Acquire FunctionalGroup Write; Release FunctionalGroup; Release Vehicle]) = true).
    rewrite disciplined_app.
    by destruct (disciplined_repeat [(Vehicle, Read)] (table_write Ecu) n eq_refl eq_refl) as [-> ->].
Qed.

(** ** The invariant of the guards *)

Record guards_ok (g : RwLocks) : Prop := {
  (** The queues hold exactly the waiting tasks. *)
  ok_waiting : forall i t, running g !! i = Some t -> waiting t = true ->
    exists r m rest, prog t = Acquire r m :: rest /\ i ∈ queue g r;
  ok_queued : forall r i, i ∈ queue g r ->
    exists t m rest, running g !! i = Some t /\ waiting t = true /\ prog t = Acquire r m :: rest;
  ok_disciplined : forall i t, running g !! i = Some t -> disciplined (guards t) (prog t) = true;
  ok_nodup : forall r, NoDup (queue g r);
  (** A guard for writing excludes every other guard of the same table. *)
  ok_exclusive : forall i j t t' r m, running g !! i = Some t -> running g !! j = Some t' ->
    (r, Write) ∈ guards t -> (r, m) ∈ guards t' -> i = j
}.

Lemma queue_set r q f r' : set_queue r q f r' = if decide (r' = r) then q else f r'.
Proof. done. Qed.

Lemma elem_of_filter_ne (r : LockType) (x : LockType * mode) (l : list (LockType * mode)) :
  x ∈ filter (fun y : LockType * mode => y.1 <> r) l <-> x.1 <> r /\ x ∈ l.
Proof. by rewrite list_elem_of_filter. Qed.

Lemma guards_ok_start progs : (forall p, p ∈ progs -> disciplined [] p = true) -> guards_ok (start progs).
Proof.
  intros Hd. assert (Hrun : forall i t, running (start progs) !! i = Some t ->
    exists p, p ∈ progs /\ t = {| guards := []; waiting := false; prog := p |}).
  { intros i t. simpl. rewrite list_lookup_fmap. destruct (progs !! i) as [p|] eqn:E; [|done].
    intros [= <-]. exists p. split; [by eapply list_elem_of_lookup_2|done]. }
  split.
  - intros i t Hi Hw. by apply Hrun in Hi as (p & _ & ->).
  - intros r i Hin. by apply elem_of_nil in Hin.
  - intros i t Hi. apply Hrun in Hi as (p & Hp & ->). by apply Hd.
  - intros r. constructor.
  - intros i j t t' r m Hi _ Hin. apply Hrun in Hi as (p & _ & ->). by apply elem_of_nil in Hin.
Qed.

Ltac at_task := rewrite list_lookup_insert_Some; intros [(<- & <- & _)|[? ?]]; cbn [guards waiting prog] in *.

(** A task that only gives up guards and goes on; it was not waiting. *)
Lemma guards_ok_drop g i t t' :
  guards_ok g -> running g !! i = Some t -> waiting t = false -> waiting t' = false ->
  (forall x, x ∈ guards t' -> x ∈ guards t) -> disciplined (guards t') (prog t') = true ->
  guards_ok {| running := <[i := t']> (running g); queue := queue g |}.
Proof.
  intros [Hw Hq Hd Hn He] Hi Hwait Hwait' Hsub Hdisc. split; cbn [running queue].
  - intros j u. at_task; [congruence|by apply Hw].
  - intros r j Hin. destruct (Hq r j Hin) as (u & m & rest & Hj & Hu & Hp).
    assert (i <> j) by congruence. exists u, m, rest. by rewrite list_lookup_insert_ne.
  - intros j u. at_task; [done|by eapply Hd].
  - done.
  - intros j k u v r m. at_task; at_task; intros Hr Hr'; try done.
    + by eapply He; [exact Hi|done|by apply Hsub|].
    + by eapply He; [done|exact Hi|done|by apply Hsub].
    + by eapply He.
Qed.

Lemma gstep_request_ok g i t r m rest :
  guards_ok g -> running g !! i = Some t -> waiting t = false -> prog t = Acquire r m :: rest ->
  guards_ok {| running := <[i := {| guards := guards t; waiting := true; prog := prog t |}]> (running g);
               queue := set_queue r (queue g r ++ [i]) (queue g) |}.
Proof.
  intros [Hw Hq Hd Hn He] Hi Hwait Hprog. assert (Hout : forall r, i ∉ queue g r).
  { intros r' Hin. destruct (Hq r' i Hin) as (u & _ & _ & Hu & Hu' & _). congruence. }
  split; cbn [running queue].
  - intros j u. at_task; intros Hu.
    + exists r, m, rest. split; [done|]. rewrite queue_set, decide_True by done. apply elem_of_app. right.
      by apply list_elem_of_singleton.
    + destruct (Hw j u ltac:(done) Hu) as (r' & m' & rest' & Hp & Hin). exists r', m', rest'. split; [done|].
      rewrite queue_set. case_decide; [subst; apply elem_of_app; by left|done].
  - intros r' j. rewrite queue_set. assert (Hold : j ∈ queue g r' -> exists u m rest,
      <[i := {| guards := guards t; waiting := true; prog := prog t |}]> (running g) !! j = Some u /\
      waiting u = true /\ prog u = Acquire r' m :: rest).
    { intros Hin. destruct (Hq r' j Hin) as (u & m' & rest' & Hj & Hu). exists u, m', rest'.
      rewrite list_lookup_insert_ne; [done|]. intros ->. by destruct (Hout r'). }
    case_decide as Hr; [subst r'|done]. intros [?|Hin]%elem_of_app; [by apply Hold|].
    apply list_elem_of_singleton in Hin as ->. eexists _, m, rest.
    rewrite list_lookup_insert_eq by (by eapply lookup_lt_Some). done.
  - intros j u. at_task; by eapply Hd.
  - intros r'. rewrite queue_set. case_decide; [|done]. apply NoDup_app. split; [done|].
    split; [|apply NoDup_singleton]. intros x Hx Hin. apply list_elem_of_singleton in Hin as ->. by destruct (Hout r).
  - intros j k u v r' m'. at_task; at_task; intros Hr Hr'; by eapply He.
Qed.

Lemma gstep_grant_ok g i q t r m rest :
  guards_ok g -> queue g r = i :: q -> running g !! i = Some t -> prog t = Acquire r m :: rest ->
  compatible r m (running g) ->
  guards_ok {| running := <[i := {| guards := (r, m) :: guards t; waiting := false; prog := rest |}]> (running g);
               queue := set_queue r q (queue g) |}.
Proof.
  intros [Hw Hq Hd Hn He] Hqueue Hi Hprog Hcomp.
  assert (Hout : forall r', i ∉ set_queue r q (queue g) r').
  { intros r' Hin. rewrite queue_set in Hin. case_decide as Hr.
    - pose proof (Hn r) as Hnd. rewrite Hqueue in Hnd. by apply NoDup_cons in Hnd as [? _].
    - destruct (Hq r' i Hin) as (u & m' & rest' & Hu & _ & Hp). congruence. }
  assert (Hsub : forall r' j, j ∈ set_queue r q (queue g) r' -> j ∈ queue g r').
  { intros r' j. rewrite queue_set. case_decide; [subst; rewrite Hqueue; by right|done]. }
  split; cbn [running queue].
  - intros j u. at_task; [done|]. intros Hu. destruct (Hw j u ltac:(done) Hu) as (r' & m' & rest' & Hp & Hin).
    exists r', m', rest'. split; [done|]. rewrite queue_set. case_decide; [subst|done].
    rewrite Hqueue in Hin. by apply elem_of_cons in Hin as [?|?]; [congruence|].
  - intros r' j Hin. destruct (Hq r' j (Hsub _ _ Hin)) as (u & m' & rest' & Hj & Hu). exists u, m', rest'.
    rewrite list_lookup_insert_ne; [done|]. intros ->. by destruct (Hout r').
  - intros j u. at_task; [|by eapply Hd]. pose proof (Hd i t Hi) as H. rewrite Hprog in H. simpl in H.
    by apply andb_true_iff in H as [_ ?].
  - intros r'. rewrite queue_set. case_decide; [|done]. pose proof (Hn r) as Hnd. rewrite Hqueue in Hnd.
    by apply NoDup_cons in Hnd as [_ ?].
  - assert (Hnew : forall j u m', running g !! j = Some u -> (r, m') ∈ guards u -> m = Read /\ m' = Read).
    { intros j u m' Hj. apply Hcomp. by eapply list_elem_of_lookup_2. }
    intros j k u v r' m'. at_task; at_task; rewrite ?elem_of_cons; intros Hr Hr'; try done.
    + destruct Hr as [[= -> <-]|Hr]; [|by eapply He]. by destruct (Hnew k v m') as [? _].
    + destruct Hr' as [[= -> <-]|Hr']; [|by eapply He]. by destruct (Hnew j u Write) as [_ ?].
    + by eapply He.
Qed.

Lemma gstep_ok g g' : guards_ok g -> gstep g g' -> guards_ok g'.
Proof.
  intros Hok Hstep. destruct Hstep as [g i t r m rest Hi Hwait Hprog|g i q t r m rest Hqueue Hi Hprog Hcomp|
    g i t r rest Hi Hwait Hprog|g i t Hi Hwait _].
  - by eapply gstep_request_ok.
  - by eapply gstep_grant_ok.
  - eapply guards_ok_drop; [done|done|done|done| |].
    + cbn [guards]. intros x Hx. by apply elem_of_filter_ne in Hx as [_ ?].
    + pose proof (ok_disciplined g Hok i t Hi) as Hd. by rewrite Hprog in Hd.
  - eapply guards_ok_drop; [done|done|done|done| |done]. intros x Hx. by apply elem_of_nil in Hx.
Qed.

(** ** Progress *)

Lemma holds_spec r h : holds r h = true <-> exists m, (r, m) ∈ h.
Proof.
  unfold holds. rewrite existsb_exists. split.
  - intros ([r' m] & Hin & Hr). apply bool_decide_eq_true in Hr. simpl in Hr. subst. exists m.
    by apply list_elem_of_In.
  - intros [m Hin]. exists (r, m). split; [by apply list_elem_of_In|by apply bool_decide_eq_true].
Qed.

Section progress.
Context (g : RwLocks) (Hok : guards_ok g) (Hstuck : forall g', ~ gstep g g').

Lemma stuck_waits i t : running g !! i = Some t -> ~ finished t -> waiting t = true.
Proof using Hstuck.
  intros Hi Hf. destruct (waiting t) eqn:Hw; [done|]. destruct (Hstuck _ (gstep_return g i t Hi Hw Hf)).
Qed.

(** [i] waits for [r], and may. *)
Definition waits_for (i : nat) (t : Task) (r : LockType) : Prop :=
  running g !! i = Some t /\ may_acquire (guards t) r = true /\ exists m rest, prog t = Acquire r m :: rest.

Lemma waiting_waits i t : running g !! i = Some t -> waiting t = true -> exists r, waits_for i t r /\ i ∈ queue g r.
Proof using Hok.
  intros Hi Hw. destruct (ok_waiting g Hok i t Hi Hw) as (r & m & rest & Hp & Hin). exists r.
  split; [|done]. split; [done|]. pose proof (ok_disciplined g Hok i t Hi) as Hd. rewrite Hp in Hd. simpl in Hd.
  apply andb_true_iff in Hd as [? _]. split; [done|]. by exists m, rest.
Qed.

(** A guard that is waited for is held by a task that waits itself. *)
Lemma waited_is_held i r : i ∈ queue g r -> exists j u r', holds r (guards u) = true /\ waits_for j u r' /\ j ∈ queue g r'.
Proof using Hok Hstuck.
  intros Hin. destruct (queue g r) as [|k q] eqn:Hqueue; [by apply elem_of_nil in Hin|]. clear Hin.
  destruct (ok_queued g Hok r k) as (t & m & rest & Hk & _ & Hp); [rewrite Hqueue; by left|].
  destruct (decide (Exists (fun u => holds r (guards u) = true) (running g))) as [Hex|Hno].
  - apply Exists_exists in Hex as (u & Hu & Hh). apply list_elem_of_lookup_1 in Hu as [j Hj].
    destruct (waiting_waits j u Hj) as (r' & ? & ?); [|by exists j, u, r'].
    eapply stuck_waits; [exact Hj|]. intros (Hg & _). by rewrite Hg in Hh.
  - exfalso. eapply Hstuck, gstep_grant; [exact Hqueue|exact Hk|exact Hp|]. intros u m' Hu Hg. destruct Hno. 
    apply Exists_exists. exists u. split; [done|]. apply holds_spec. by exists m'.
Qed.

Lemma may_acquire_other h r r' : may_acquire h r' = true -> holds r h = true -> r <> r'.
Proof using. intros Hm Hh ->. unfold may_acquire in Hm. by rewrite Hh in Hm. Qed.

(** The holder of an ECU guard who waits has the vehicle for writing and waits
    for a group; the holder of a group guard waits for an ECU and has the vehicle. *)
Lemma ecu_holder_waits h r : may_acquire h r = true -> holds Ecu h = true -> r = FunctionalGroup /\ (Vehicle, Write) ∈ h.
Proof using.
  intros Hm Hh. pose proof (may_acquire_other h Ecu r Hm Hh). unfold may_acquire in Hm. rewrite Hh in Hm.
  destruct r; [by rewrite andb_false_r in Hm|done|]. simpl in Hm. apply andb_true_iff in Hm as [_ Hm].
  by apply bool_decide_eq_true in Hm.
Qed.

Lemma group_holder_waits h r : may_acquire h r = true -> holds FunctionalGroup h = true ->
  r = Ecu /\ holds Vehicle h = true.
Proof using.
  intros Hm Hh. pose proof (may_acquire_other h FunctionalGroup r Hm Hh). unfold may_acquire in Hm. rewrite Hh in Hm.
  destruct r; [by rewrite !andb_false_r in Hm| |done]. simpl in Hm. by apply andb_true_iff in Hm as [_ Hm].
Qed.

Lemma tables_not_waited i j : i ∈ queue g Ecu -> j ∈ queue g FunctionalGroup -> False.
Proof using Hok Hstuck.
  intros He Hf. destruct (waited_is_held i Ecu He) as (k & u & r & Hu & (Hk & Hm & Hp) & _).
  destruct (ecu_holder_waits _ _ Hm Hu) as [-> Hw].
  destruct (waited_is_held j FunctionalGroup Hf) as (k' & u' & r' & Hu' & (Hk' & Hm' & Hp') & _).
  destruct (group_holder_waits _ _ Hm' Hu') as [-> Hv]. apply holds_spec in Hv as [m Hv].
  assert (k = k') as -> by (by eapply (ok_exclusive g Hok)). rewrite Hk in Hk'. injection Hk' as ->.
  destruct Hp as (? & ? & Hp), Hp' as (? & ? & Hp'). congruence.
Qed.

Lemma queues_empty i r : i ∉ queue g r.
Proof using Hok Hstuck.
  assert (Hecu : forall i, i ∉ queue g Ecu).
  { intros k Hk. destruct (waited_is_held k Ecu Hk) as (j & u & r' & Hu & (Hj & Hm & _) & Hin).
    destruct (ecu_holder_waits _ _ Hm Hu) as [-> _]. by eapply tables_not_waited. }
  assert (Hgroup : forall i, i ∉ queue g FunctionalGroup).
  { intros k Hk. destruct (waited_is_held k FunctionalGroup Hk) as (j & u & r' & Hu & (Hj & Hm & _) & Hin).
    destruct (group_holder_waits _ _ Hm Hu) as [-> _]. by eapply Hecu. }
  intros Hin. destruct r; [|by eapply Hecu|by eapply Hgroup].
  destruct (waited_is_held i Vehicle Hin) as (j & u & r' & Hu & (Hj & Hm & _) & Hin').
  destruct r'; [by apply (may_acquire_other _ _ _ Hm) in Hu|by eapply Hecu|by eapply Hgroup].
Qed.
End progress.

(** C2: any number of requests that create, extend or delete locks, of expiring
    locks and of reconfigurations never wait for each other in a circle:
    as long as one of them is not finished, something can happen. *)
Theorem table_changes_never_deadlock progs g :
  (forall p, p ∈ progs -> changes_tables p) -> rtc gstep (start progs) g -> ~ deadlocked g.
Proof.
  intros Hprogs Hsteps. assert (guards_ok g) as Hok.
  { assert (guards_ok (start progs)) as H by (apply guards_ok_start; intros p Hp; by apply changes_disciplined, Hprogs).
    induction Hsteps as [|g1 g2 g3 Hstep _ IH]; [done|]. by eapply IH, gstep_ok. }
  intros [(t & Ht & Hf) Hstuck]. apply list_elem_of_lookup_1 in Ht as [i Hi].
  destruct (waiting_waits g Hok i t Hi (stuck_waits g Hstuck i t Hi Hf)) as (r & _ & Hin).
  by eapply (queues_empty g Hok Hstuck).
Qed.

(** ** Witness *)

Lemma ex_handlers p : p ∈ [vehicle_post_guards; ecu_post_guards; vehicle_delete_guards 1 0] -> changes_tables p.
Proof.
  rewrite !elem_of_cons. intros [->|[->|[->|Hin]]]; [constructor..|]. by apply elem_of_nil in Hin.
Qed.

Example table_changes_never_deadlock_witness :
  ~ deadlocked (start [vehicle_post_guards; ecu_post_guards; vehicle_delete_guards 1 0]).
Proof.
  apply (table_changes_never_deadlock [vehicle_post_guards; ecu_post_guards; vehicle_delete_guards 1 0]);
    [exact ex_handlers|apply rtc_refl].
Defined.

(** ** The validations can deadlock *)

Lemma deadlocked_intro g :
  running g <> [] -> (forall i t, running g !! i = Some t -> waiting t = true) ->
  (forall r i q t m rest, queue g r = i :: q -> running g !! i = Some t -> prog t = Acquire r m :: rest ->
     exists u m', u ∈ running g /\ (r, m') ∈ guards u /\ ~ (m = Read /\ m' = Read)) ->
  deadlocked g.
Proof.
  intros Hne Hall Hheld. split.
  - destruct (running g) as [|t l] eqn:E; [done|]. exists t. split; [by left|].
    intros (_ & _ & Hw). specialize (Hall 0%nat t). rewrite Hall in Hw; [done|]. done.
  - intros g' Hstep. destruct Hstep as [g i t r m rest Hi Hw _|g i q t r m rest Hq Hi Hp Hc|g i t r rest Hi Hw _|g i t Hi Hw _].
    + by rewrite (Hall i t Hi) in Hw.
    + destruct (Hheld r i q t m rest Hq Hi Hp) as (u & m' & Hu & Hg & Hno). by apply Hno, (Hc u m').
    + by rewrite (Hall i t Hi) in Hw.
    + by rewrite (Hall i t Hi) in Hw.
Qed.

(** Task [i] asks for its next guard, and gets it at once. *)
Lemma take_guard g i t r m rest :
  running g !! i = Some t -> waiting t = false -> prog t = Acquire r m :: rest -> queue g r = [] ->
  compatible r m (running g) ->
  rtc gstep g {| running := <[i := {| guards := (r, m) :: guards t; waiting := false; prog := rest |}]>
                   (<[i := {| guards := guards t; waiting := true; prog := prog t |}]> (running g));
                 queue := set_queue r [] (set_queue r (queue g r ++ [i]) (queue g)) |}.
Proof.
  intros Hi Hw Hp Hq Hc. eapply rtc_l; [by eapply gstep_request|]. eapply rtc_once.
  refine (gstep_grant {| running := <[i := {| guards := guards t; waiting := true; prog := prog t |}]> (running g);
                         queue := set_queue r (queue g r ++ [i]) (queue g) |}
            i [] {| guards := guards t; waiting := true; prog := prog t |} r m rest _ _ _ _); simpl.
  - by rewrite queue_set, decide_True, Hq by done.
  - apply list_lookup_insert_eq. by eapply lookup_lt_Some.
  - done.
  - intros u m' Hu. apply list_elem_of_lookup_1 in Hu as [j Hj]. apply list_lookup_insert_Some in Hj as [(<- & <- & _)|[_ Hj]].
    + simpl. intros Hg. by apply (Hc t m'); [eapply list_elem_of_lookup_2|].
    + by apply Hc; eapply list_elem_of_lookup_2.
Qed.

Ltac no_other_guards := intros u m' Hu Hg; repeat (apply elem_of_cons in Hu as [->|Hu]; [by apply elem_of_nil in Hg|]);
  by apply elem_of_nil in Hu.

(** A handler validates the caller's lock while the owner of the vehicle
    deletes the vehicle lock: the one holds the guard of the ECUs and waits
    for the one of the vehicle, the clean-up of the other the reverse. *)
Example validation_deadlocks :
  exists g, rtc gstep (start [validate_lock_guards; vehicle_delete_guards 1 0]) g /\ deadlocked g.
Proof.
  eexists. split.
  - etrans; [eapply (take_guard _ 0); [reflexivity..|no_other_guards]|]. simpl.
    etrans; [eapply (take_guard _ 1); [reflexivity..|]|]; simpl.
    { intros u m' Hu Hg. rewrite !elem_of_cons in Hu. destruct Hu as [->|[->|Hu]]; simpl in Hg.
      - apply elem_of_cons in Hg as [[=]|Hg]. by apply elem_of_nil in Hg.
      - by apply elem_of_nil in Hg.
      - by apply elem_of_nil in Hu. }
    eapply rtc_l; [eapply (gstep_request _ 0); reflexivity|]. simpl.
    eapply rtc_l; [eapply (gstep_request _ 1); reflexivity|]. simpl. apply rtc_refl.
  - apply deadlocked_intro; [done| |].
    + intros [|[|i]] t; simpl; by intros [= <-].
    + intros r i q t m rest Hq Hi Hp. destruct r; vm_compute in Hq; [| |done].
      * injection Hq as <- <-. injection Hi as <-. simpl in Hp. injection Hp as <- <-.
        eexists _, Write. split; [right; by left|]. split; [by left|]. by intros [_ ?].
      * injection Hq as <- <-. injection Hi as <-. simpl in Hp. injection Hp as <- <-.
        eexists _, Read. split; [by left|]. split; [by left|]. by intros [? _].
Qed.
