(* ===== verification/SovdApi.v ===== *)
(** * Requests and answers of the SOVD server

    cda-sovd/src/sovd/error.rs with the parts of sovd.rs, components.rs and
    functions/functional_groups.rs that the handlers share: the errors and
    their bodies, what a request's headers and body say, and what the response
    of an ECU becomes.  Messages and schemas are left out; the structured
    fields are kept.  Parsing a MIME type and the JSON of a body is the web
    framework's. *)

From stdpp Require Import strings gmap.
From stdpp Require Import list.
From S2P Require Import Prelude Bytes Errors Text Ieee754 Json Values ResponseDecode ResponseJson PayloadEncode Locks.

Local Open Scope Z_scope.

(** ** Errors *)

Inductive ErrorCode : Type :=
  | CodeVendorSpecific
  | CodeNotResponding
  | CodeErrorResponse
  | CodeInvalidResponseContent
  | CodeSovdServerFailure
  | CodeInsufficientAccessRights
  | CodePreconditionsNotFulfilled
  | CodeUpdateProcessInProgress.

Inductive VendorErrorCode : Type :=
  | VendorNotFound
  | VendorBadRequest
  | VendorErrorInterpretingMessage
  | VendorInvalidParameter.

(** [From<DiagServiceError>]. *)
Definition api_error (value : DiagServiceError) : ApiError :=
  match value with
  | UdsLookupError | Errors.NotFound => NotFound
  | Errors.InvalidParameter => InvalidParameter
  | EcuOffline | Timeout | NoResponse => NotResponding
  | InvalidDatabase | VariantDetectionError | ResourceError | ConnectionClosed | SendFailed | InvalidAddress
  | UnexpectedResponse | DataError | InvalidConfiguration | InvalidSecurityPlugin => InternalServerError
  | NotEnoughData _ _ => BadRequest
  | InvalidRequest | Nack _ | ParameterConversionError | BadPayload | InvalidState | UnknownOperation
  | RequestNotSupported | AmbiguousParameters => BadRequest
  | AccessDenied => Forbidden
  end.

Definition error_and_vendor_code (self : ApiError) : ErrorCode * option VendorErrorCode :=
  match self with
  | NotResponding => (CodeNotResponding, None)
  | NotFound => (CodeVendorSpecific, Some VendorNotFound)
  | BadRequest => (CodeInvalidResponseContent, Some VendorBadRequest)
  | Forbidden => (CodeInsufficientAccessRights, None)
  | InvalidParameter => (CodeVendorSpecific, Some VendorInvalidParameter)
  | InternalServerError | Conflict => (CodeSovdServerFailure, None)
  end.

(** The status and the codes of [ErrorWrapper::into_response]. *)
Definition error_status (self : ApiError) : Z :=
  match self with
  | Forbidden => 403
  | NotFound => 404
  | InternalServerError => 500
  | Conflict => 409
  | BadRequest | InvalidParameter => 400
  | NotResponding => 504
  end.

Definition error_codes (self : ApiError) : ErrorCode * option VendorErrorCode :=
  match self with
  | Forbidden => (CodeInsufficientAccessRights, None)
  | NotFound => (CodeVendorSpecific, Some VendorNotFound)
  | InternalServerError => (CodeSovdServerFailure, None)
  | Conflict => (CodePreconditionsNotFulfilled, None)
  | BadRequest => (CodeVendorSpecific, Some VendorBadRequest)
  | InvalidParameter => (CodeVendorSpecific, Some VendorInvalidParameter)
  | NotResponding => (CodeNotResponding, None)
  end.

(** ** Headers and bodies *)

(** [mime::Mime] as far as the handlers tell types apart. *)
Inductive Mime : Type :=
  | ApplicationJson
  | ApplicationOctetStream
  | StarStar
  | OtherMime.

#[export] Instance Mime_eq_dec : EqDecision Mime.
Proof. solve_decision. Defined.

Section requests.
Context {ext : Externals}.

(** A header that is there may fail to parse.  [json]: the parameters of the
    body read as JSON. *)
Record HttpRequest : Type := {
  content_type : option (option Mime);
  accept : option (option Mime);
  content_length : option (option Z);
  bytes : list Z;
  json : option (gmap str Value)
}.

(** [Option::transpose] of a parsed header. *)
Definition parse_mime (h : option (option Mime)) : result ApiError (option Mime) :=
  match h with
  | None => Ok None
  | Some (Some m) => Ok (Some m)
  | Some None => Err BadRequest
  end.

Definition get_content_type_and_accept (req : HttpRequest) : result ApiError (option Mime * Mime) :=
  content_type ← parse_mime (content_type req);
  v ← parse_mime (accept req);
  let accept_header :=
    match v with
    | Some v => if bool_decide (v = StarStar) then content_type else Some v
    | None => content_type
    end in
  Ok (content_type, default ApplicationJson accept_header).

Definition get_octet_stream_payload (req : HttpRequest) : result ApiError (option UdsPayloadData) :=
  match content_length req with
  | None | Some None => Err BadRequest
  | Some (Some content_length) =>
      if content_length =? 0 then Ok None
      else if len (bytes req) <? content_length then Err BadRequest
      else Ok (Some (Raw (take (Z.to_nat content_length) (bytes req))))
  end.

Definition get_payload_data (content_type : option Mime) (req : HttpRequest) : result ApiError (option UdsPayloadData) :=
  match content_type with
  | None => Ok None
  | Some ApplicationJson =>
      match json req with Some m => Ok (Some (ParameterMap m)) | None => Err BadRequest end
  | Some ApplicationOctetStream => get_octet_stream_payload req
  | Some _ => Err BadRequest
  end.

(** The payload of a request that starts an operation, and whether its answer
    is to be JSON. *)
Definition validate_and_parse_write_request (req : HttpRequest) : result ApiError (option UdsPayloadData * bool) :=
  '(content_type, accept) ← get_content_type_and_accept req;
  match content_type with
  | None => Err BadRequest
  | Some content_type =>
      data ← get_payload_data (Some content_type) req;
      if negb (bool_decide (accept = ApplicationOctetStream)) && negb (bool_decide (accept = ApplicationJson))
      then Err BadRequest
      else Ok (data, bool_decide (accept = ApplicationJson))
  end.

(** Functional communication answers in JSON only. *)
Definition map_to_json (accept : Mime) : result ApiError bool :=
  match accept with ApplicationJson => Ok true | _ => Err BadRequest end.
End requests.

(** ** Answers *)

Section answers.
Context {ext : Externals} (to_string : spec_float -> str).

Record ApiErrorResponse : Type := {
  error_code : ErrorCode;
  vendor_code : option VendorErrorCode;
  error_parameters : option (gmap str Value);
  error_source : option string
}.

(** [sovd_interfaces::error::DataError]. *)
Record FieldError : Type := { path : str; error : ApiErrorResponse }.

Definition error_response (codes : ErrorCode * option VendorErrorCode) (source : option string) : ApiErrorResponse :=
  {| error_code := codes.1; vendor_code := codes.2; error_parameters := None; error_source := source |}.

(** The details of a field that could not be decoded are left out. *)
Definition field_parse_errors_to_json (errors : list str) (data_field_ref : str) : list FieldError :=
  (fun p => {| path := ch_slash :: data_field_ref ++ p;
               error := error_response (CodeVendorSpecific, Some VendorErrorInterpretingMessage) None |}) <$> errors.

Definition nrc_to_api_error_response (nrc : MappedNRC) : ApiErrorResponse :=
  let parameters : gmap str Value :=
    match nrc_code nrc, nrc_description nrc with
    | Some raw_code, Some _ => {[ chars "NRC" := Number (number_from_u64 raw_code) ]}
    | _, _ => ∅
    end in
  let parameters :=
    match nrc_sid nrc with
    | Some sid => <[chars "SID" := Number (number_from_u64 sid)]> parameters
    | None => parameters
    end in
  {| error_code := CodeErrorResponse; vendor_code := None;
     error_parameters := if bool_decide (parameters = ∅) then None else Some parameters;
     error_source := Some "ECU"%string |}.

(** The status and the body of an answer to a negative response. *)
Definition api_error_from_diag_response (response : DiagServiceResponseStruct) : result ApiError ApiErrorResponse :=
  match as_nrc to_string response with
  | Ok nrc => Ok (nrc_to_api_error_response nrc)
  | Err _ => Err InternalServerError
  end.

Definition is_empty (response : DiagServiceResponseStruct) : bool := bool_decide (response_data response = []).

(** The parameters of a positive response and the errors to report. *)
Definition err_invalid_content : FieldError :=
  {| path := []; error := error_response (CodeInvalidResponseContent, Some VendorErrorInterpretingMessage) None |}.

Definition parse_json_response_params (response : DiagServiceResponseStruct) : gmap str Value * list FieldError :=
  match serialize_to_json to_string response with
  | Ok {| json_data := Object m; json_errors := errors |} => (m, field_parse_errors_to_json errors (chars "parameters"))
  | Ok {| json_data := Null |} => (∅, [])
  | Ok _ => (∅, [err_invalid_content])
  | Err _ => (∅, [err_invalid_content])
  end.

(** *** The ECUs of a functional group *)

Record EcuResponsesData : Type := {
  ecu_response_data : gmap string (gmap str Value);
  ecu_errors : list FieldError
}.

(** The path of an error of an ECU. *)
Definition ecu_path (data_tag ecu_name : string) : str := ch_slash :: chars data_tag ++ ch_slash :: chars ecu_name.

Definition handle_ecu_response (data_tag : string) (ecu_name : string) (result : dresult DiagServiceResponseStruct)
    (d : EcuResponsesData) : EcuResponsesData :=
  let response_data := ecu_response_data d in
  let errors := ecu_errors d in
  let ecu_error e := {| path := ecu_path data_tag ecu_name; error := e |} in
  match result with
  | Ok response =>
      match result_type response with
      | PositiveResponse =>
          match serialize_to_json to_string response with
          | Ok json_response =>
              {| ecu_response_data := match json_data json_response with
                                      | Object data_map => <[ecu_name := data_map]> response_data
                                      | _ => response_data
                                      end;
                 ecu_errors := errors ++ field_parse_errors_to_json (json_errors json_response) (chars data_tag) |}
          | Err _ =>
              {| ecu_response_data := response_data;
                 ecu_errors := errors ++ [ecu_error (error_response (CodeVendorSpecific, Some VendorErrorInterpretingMessage)
                                                                    (Some "ecu"%string))] |}
          end
      | NegativeResponse =>
          {| ecu_response_data := response_data;
             ecu_errors := errors ++
               [match as_nrc to_string response with
                | Ok nrc => ecu_error (nrc_to_api_error_response nrc)
                | Err _ => ecu_error (error_response (CodeVendorSpecific, Some VendorErrorInterpretingMessage)
                                                     (Some "ecu"%string))
                end] |}
      end
  | Err e =>
      {| ecu_response_data := response_data;
         ecu_errors := errors ++ [ecu_error (error_response (error_and_vendor_code (api_error e)) (Some "ecu"%string))] |}
  end.

(** The order of the ECUs is that of [map_to_list]. *)
Definition handle_ecu_responses (results : gmap string (dresult DiagServiceResponseStruct)) : EcuResponsesData :=
  foldl (fun d kv => handle_ecu_response "parameters" kv.1 kv.2 d)
        {| ecu_response_data := ∅; ecu_errors := [] |} (map_to_list results).
End answers.
