(* ===== verification/Async.v ===== *)
(** * Handlers as interleaved sections

    An asynchronous handler runs from one guard of a shared table to the next:
    what it does while it holds a guard is one section, what it waits for in
    between is answered by its environment.  [async] is the type of such
    handlers; [run] runs one alone, [steps] is one step of it among others.
    [tracked] is the logic in which a handler is shown to keep its claim on a
    slot of the table it shares with the others. *)

From stdpp Require Import base.
From S2P Require Import Prelude.
From stdpp Require Import list.

Set Warnings "-register-all".

Section async.
(** What a handler waits for, and the answers; what a section is told when it
    begins; the table. *)
Context {Q : Type} {answer : Q -> Type} {E T : Type}.

Inductive async (A : Type) : Type :=
  | Return (a : A)
  | Panics
  | Await (q : Q) (k : answer q -> async A)
  | Locked (f : E -> T -> T * async A).

Arguments Return {A}.
Arguments Panics {A}.
Arguments Await {A}.
Arguments Locked {A}.

Lemma async_induction {A} (P : async A -> Prop) :
  (forall a, P (Return a)) -> P Panics -> (forall q k, (forall r, P (k r)) -> P (Await q k)) ->
  (forall f, (forall e t, P (f e t).2) -> P (Locked f)) -> forall m, P m.
Proof.
  intros Hr Hp Ha Hl. fix go 1. intros [a| |q k|f]; [apply Hr|apply Hp|apply Ha; intros r; apply go|].
  apply Hl. intros e t. destruct (f e t) as [t' m]. apply go.
Qed.

Fixpoint async_bind {A B} (k : A -> async B) (m : async A) : async B :=
  match m with
  | Return a => k a
  | Panics => Panics
  | Await q f => Await q (fun r => async_bind k (f r))
  | Locked f => Locked (fun e t => let '(t, m) := f e t in (t, async_bind k m))
  end.

#[export] Instance async_mret : MRet async := fun A a => Return a.
#[export] Instance async_mbind : MBind async := fun A B k m => async_bind k m.

Definition ask (q : Q) : async (answer q) := Await q (fun r => Return r).
Definition locked {A} (f : E -> T -> T * A) : async A := Locked (fun e t => let '(t, a) := f e t in (t, Return a)).
Definition panic {A} : async A := Panics.

(** A handler alone: [None] when it panics. *)
Fixpoint run {A} (answers : forall q, answer q) (e : E) (m : async A) (t : T) : T * option A :=
  match m with
  | Return a => (t, Some a)
  | Panics => (t, None)
  | Await q k => run answers e (k (answers q)) t
  | Locked f => let '(t, m) := f e t in run answers e m t
  end.

(** The next section, and the answer to what a handler waits for. *)
Definition section {A} (m : async A) (e : E) (t : T) : option (T * async A) :=
  match m with Locked f => Some (f e t) | _ => None end.
Definition answered {A} (m m' : async A) : Prop :=
  match m with Await _ k => exists r, m' = k r | _ => False end.
Definition awaits {A} (m : async A) : option Q := match m with Await q _ => Some q | _ => None end.

Lemma run_bind {A B} answers e (m : async A) (k : A -> async B) t :
  run answers e (m ≫= k) t =
  match run answers e m t with (t, Some a) => run answers e (k a) t | (t, None) => (t, None) end.
Proof.
  unfold mbind, async_mbind. revert t. induction m as [a| |q f IH|f IH] using async_induction; intros t; cbn; [done|done|apply IH|].
  specialize (IH e t). destruct (f e t) as [t' m]. cbn in *. apply IH.
Qed.

Lemma run_ask answers e q t : run answers e (ask q) t = (t, Some (answers q)).
Proof. done. Qed.

Lemma run_locked {A} answers e (f : E -> T -> T * A) t :
  run answers e (locked f) t = ((f e t).1, Some (f e t).2).
Proof. unfold locked. cbn. by destruct (f e t). Qed.

(** ** Sections one by one *)

Fixpoint all_sections {A} (P : E -> T -> T -> Prop) (m : async A) : Prop :=
  match m with
  | Return _ | Panics => True
  | Await q k => forall r, all_sections P (k r)
  | Locked f => forall e t, let '(t', m') := f e t in P e t t' /\ all_sections P m'
  end.

Lemma sections_bind {A B} P (m : async A) (k : A -> async B) :
  all_sections P m -> (forall a, all_sections P (k a)) -> all_sections P (m ≫= k).
Proof.
  unfold mbind, async_mbind. intros Hm Hk. induction m as [a| |q f IH|f IH] using async_induction; cbn in *; [done|done|naive_solver|].
  intros e t. specialize (IH e t). specialize (Hm e t). destruct (f e t) as [t' m]. naive_solver.
Qed.

Lemma sections_ask (P : E -> T -> T -> Prop) q : all_sections P (ask q).
Proof. by intros r. Qed.

Lemma sections_locked {A} (P : E -> T -> T -> Prop) (f : E -> T -> T * A) :
  (forall e t, P e t (f e t).1) -> all_sections P (locked f).
Proof. intros H e t. specialize (H e t). by destruct (f e t). Qed.

(** ** Slots

    A section may add a slot to those that are held, in its handler's name, or
    give up the handler's own; it leaves those of the others alone. *)

Context {S : Type} (held : T -> S -> Prop) (operation : Q -> Prop) (fresh : E -> T -> Prop) (keeps_quiet : E -> T -> T -> Prop).

Definition moves (e : E) (own own' : option S) (t t' : T) : Prop :=
  (forall s, own' = Some s -> held t' s /\ (own = Some s \/ ~ held t s)) /\
  (forall s, held t s -> own <> Some s -> held t' s) /\
  keeps_quiet e t t'.

(** While a handler waits for an operation it has a slot. *)
Fixpoint tracked {A} (own : option S) (m : async A) (post : option S -> A -> Prop) : Prop :=
  match m with
  | Return a => post own a
  | Panics => True
  | Await q k => (operation q -> is_Some own) /\ forall r, tracked own (k r) post
  | Locked f => forall e t, fresh e t -> (forall s, own = Some s -> held t s) ->
      let '(t', m') := f e t in exists own', moves e own own' t t' /\ tracked own' m' post
  end.

Lemma tracked_mono {A} own (m : async A) (P R : option S -> A -> Prop) :
  tracked own m P -> (forall own a, P own a -> R own a) -> tracked own m R.
Proof.
  intros Hm HR. revert own Hm. induction m as [a| |q f IH|f IH] using async_induction; intros own Hm; cbn in *; [by apply HR|done|naive_solver|].
  intros e t Hf Ho. specialize (Hm e t Hf Ho). specialize (IH e t). destruct (f e t) as [t' m]. naive_solver.
Qed.

Lemma tracked_bind {A B} own (m : async A) (k : A -> async B) post :
  tracked own m (fun own a => tracked own (k a) post) -> tracked own (m ≫= k) post.
Proof.
  unfold mbind, async_mbind. revert own. induction m as [a| |q f IH|f IH] using async_induction; intros own Hm; cbn in *; [done|done|naive_solver|].
  intros e t Hf Ho. specialize (Hm e t Hf Ho). specialize (IH e t). destruct (f e t) as [t' m]. naive_solver.
Qed.

Lemma tracked_ask own q (post : option S -> answer q -> Prop) :
  (operation q -> is_Some own) -> (forall r, post own r) -> tracked own (ask q) post.
Proof. intros Hq Hp. split; [done|]. intros r. apply Hp. Qed.

Lemma tracked_locked {A} own (f : E -> T -> T * A) (post : option S -> A -> Prop) :
  (forall e t, fresh e t -> (forall s, own = Some s -> held t s) ->
    exists own', moves e own own' t (f e t).1 /\ post own' (f e t).2) ->
  tracked own (locked f) post.
Proof. intros H e t Hf Ho. specialize (H e t Hf Ho). destruct (f e t). cbn in *. naive_solver. Qed.
End async.

Arguments async {Q} answer E T A.
Arguments Return {Q answer E T A}.
Arguments Panics {Q answer E T A}.
Arguments Await {Q answer E T A}.
Arguments Locked {Q answer E T A}.
