(* ===== verification/Executions.v ===== *)
(** * Executions of operations

    The tables in which the SOVD server keeps the executions of an ECU's
    operations and of its communication parameters: sovd.rs and the handlers of
    components/ecu/operations.rs.  A handler runs in sections between its
    waits (Async.v); each section holds the guard of one table. *)

From stdpp Require Import strings gmap.
From stdpp Require Import list.
From S2P Require Import Prelude Bytes Errors Text Ieee754 Json Values ResponseDecode ResponseJson PayloadEncode Naming Locks SovdApi Async.

Local Open Scope Z_scope.
Set Warnings "-register-all".

(** ** Tables *)

Definition Uuid : Type := Z.
#[export] Instance Uuid_eq_dec : EqDecision Uuid := Z.eq_dec.

(** [indexmap::IndexMap]: entries in the order of their insertion. *)
Abbreviation IndexMap V := (list (Uuid * V)).

Section index_maps.
Context {V : Type}.

Fixpoint lookup_entry (id : Uuid) (m : IndexMap V) : option V :=
  match m with
  | [] => None
  | (k, v) :: m => if decide (k = id) then Some v else lookup_entry id m
  end.

Fixpoint insert_entry (id : Uuid) (v : V) (m : IndexMap V) : IndexMap V :=
  match m with
  | [] => [(id, v)]
  | (k, w) :: m => if decide (k = id) then (k, v) :: m else (k, w) :: insert_entry id v m
  end.

Fixpoint alter_entry (f : V -> V) (id : Uuid) (m : IndexMap V) : IndexMap V :=
  match m with
  | [] => []
  | (k, v) :: m => if decide (k = id) then (k, f v) :: m else (k, v) :: alter_entry f id m
  end.

Fixpoint shift_remove (id : Uuid) (m : IndexMap V) : IndexMap V :=
  match m with
  | [] => []
  | (k, v) :: m => if decide (k = id) then m else (k, v) :: shift_remove id m
  end.

(** The position of an entry, and the entry. *)
Fixpoint get_full (id : Uuid) (m : IndexMap V) : option (nat * V) :=
  match m with
  | [] => None
  | (k, v) :: m => if decide (k = id) then Some (O, v) else '(idx, v) ← get_full id m; Some (S idx, v)
  end.
End index_maps.

(** [sovd_ecu::operations::ExecutionStatus]. *)
Inductive OperationStatus : Type := Running | Completed | Failed | Stopped.

#[export] Instance OperationStatus_eq_dec : EqDecision OperationStatus.
Proof. solve_decision. Defined.

(** The trait [ExecutionStatus]. *)
Class ExecutionStatus (E : Type) : Type := {
  execution_status : E -> OperationStatus;
  is_in_flight : E -> bool;
  set_in_flight : bool -> E -> E;
  is_created : E -> bool;
  set_created : bool -> E -> E;
  placeholder : E
}.

Class ExecutionStatusOk (E : Type) `{!ExecutionStatus E} : Prop := {
  in_flight_set b e : is_in_flight (set_in_flight b e) = b;
  in_flight_created b e : is_in_flight (set_created b e) = is_in_flight e;
  status_in_flight b e : execution_status (set_in_flight b e) = execution_status e;
  status_created b e : execution_status (set_created b e) = execution_status e;
  created_set b e : is_created (set_created b e) = b;
  created_in_flight b e : is_created (set_in_flight b e) = is_created e;
  placeholder_running : execution_status placeholder = Running;
  placeholder_created : is_created placeholder = false
}.

(** What a section finds around its table: the identifier [Uuid::new_v4] draws
    next, the flag the runtime update sets, and the locks. *)
Record Moment : Type := { new_v4 : Uuid; update_in_progress : bool; lock_state : State }.

Abbreviation ServiceMap E := (gmap string (IndexMap E)).

Section slots.
Context {E : Type} `{!ExecutionStatus E}.

Definition entries (service : string) (executions : ServiceMap E) : IndexMap E := default [] (executions !! service).

(** [get_mut(service).and_then(|m| m.get_mut(exec_id))]. *)
Definition find_execution (service : string) (exec_id : Uuid) (executions : ServiceMap E) : option E :=
  lookup_entry exec_id (entries service executions).

Definition alter_execution (f : E -> E) (service : string) (exec_id : Uuid) (executions : ServiceMap E) : ServiceMap E :=
  alter (alter_entry f exec_id) service executions.

(** [op_map.shift_remove(&exec_id)]. *)
Definition remove_execution (service : string) (exec_id : Uuid) (executions : ServiceMap E) : ServiceMap E :=
  alter (shift_remove exec_id) service executions.

Definition guard_execution (service : string) (exec_id : Uuid) (executions : ServiceMap E) : ServiceMap E * result ApiError E :=
  match find_execution service exec_id executions with
  | None => (executions, Err NotFound)
  | Some exec =>
      if negb (is_created exec) then (executions, Err NotFound)
      else if is_in_flight exec then (executions, Err Conflict)
      else (alter_execution (set_in_flight true) service exec_id executions, Ok (set_in_flight true exec))
  end.

Definition has_running (service : string) (executions : ServiceMap E) : bool :=
  existsb (fun kv => bool_decide (execution_status kv.2 = Running)) (entries service executions).

Definition reserve_execution (service : string) (now : Moment) (executions : ServiceMap E) : ServiceMap E * result ApiError Uuid :=
  if update_in_progress now then (executions, Err Conflict)
  else if has_running service executions then (executions, Err Conflict)
  else
    let id := new_v4 now in
    (<[service := insert_entry id (set_in_flight true placeholder) (entries service executions)]> executions, Ok id).

Definition finalize_execution (service : string) (exec_id : Uuid) (update_fn : E -> E) (executions : ServiceMap E) : ServiceMap E :=
  alter_execution (fun exec => set_in_flight false (set_created true (update_fn exec))) service exec_id executions.

Definition remove_reserved_execution (service : string) (exec_id : Uuid) (executions : ServiceMap E) : ServiceMap E :=
  match executions !! service with
  | None => executions
  | Some map =>
      let map := shift_remove exec_id map in
      if bool_decide (map = []) then delete service executions else <[service := map]> executions
  end.

(** The identifiers a client is shown. *)
Definition created_ids (service : string) (executions : ServiceMap E) : list Uuid :=
  (filter (fun kv => is_created kv.2 = true) (entries service executions)).*1.
End slots.
