(* ===== verification/EcuOperations.v ===== *)
(** * The operations of an ECU

    cda-sovd/src/sovd/components/ecu/operations.rs: the handlers that start an
    operation, ask for its results, stop it and list what is running, and those
    of the executions that override communication parameters.  Requests to the
    ECU are waits; schemas are left out. *)

From stdpp Require Import strings gmap.
From stdpp Require Import list.
From S2P Require Import Prelude Bytes Errors Text Ieee754 Json Values ResponseDecode ResponseJson PayloadEncode Naming Locks SovdApi Async Executions.

Local Open Scope Z_scope.
Set Warnings "-register-all".

(** ** Data *)

(** A string of Unicode characters as its UTF-8 bytes. *)
Definition to_owned (s : str) : string :=
  String.string_of_list_ascii ((fun b => Ascii.ascii_of_N (Z.to_N b)) <$> as_bytes s).

Inductive ComparamStatus : Type := ComparamRunning | ComparamCompleted | ComparamFailed.
Inductive Capability : Type := Execute | Stop | Freeze | Reset | Status.

Section handlers.
(** The value of a communication parameter is passed on as it is. *)
Context {ext : Externals} (to_string : spec_float -> str) {ComParamValue : Type}.
(** [Uuid::parse_str] and [Uuid::to_string]. *)
Context (parse_str : string -> option Uuid) (uuid_text : Uuid -> string).

Record ServiceExecution : Type := {
  parameters : gmap str Value;
  status : OperationStatus;
  in_flight : bool;
  created : bool
}.

#[export] Instance service_execution : ExecutionStatus ServiceExecution := {
  execution_status := status;
  is_in_flight := in_flight;
  set_in_flight b e := {| parameters := parameters e; status := status e; in_flight := b; created := created e |};
  is_created := created;
  set_created b e := {| parameters := parameters e; status := status e; in_flight := in_flight e; created := b |};
  placeholder := {| parameters := ∅; status := Running; in_flight := false; created := false |}
}.

#[export] Instance service_execution_ok : ExecutionStatusOk ServiceExecution.
Proof. by split; intros. Qed.

Definition set_parameters (p : gmap str Value) (e : ServiceExecution) : ServiceExecution :=
  {| parameters := p; status := status e; in_flight := in_flight e; created := created e |}.

(** [comparams::Execution]. *)
Record Execution : Type := {
  capability : Capability;
  comparam_status : ComparamStatus;
  comparam_override : gmap string ComParamValue
}.

(** The two tables of [WebserverEcuState]. *)
Record EcuTables : Type := {
  comparam_executions : IndexMap Execution;
  service_executions : ServiceMap ServiceExecution
}.

Definition on_comparams {A} (f : Moment -> IndexMap Execution -> IndexMap Execution * A) (now : Moment) (t : EcuTables)
    : EcuTables * A :=
  let '(c, a) := f now (comparam_executions t) in
  ({| comparam_executions := c; service_executions := service_executions t |}, a).

Definition on_services {A} (f : Moment -> ServiceMap ServiceExecution -> ServiceMap ServiceExecution * A) (now : Moment)
    (t : EcuTables) : EcuTables * A :=
  let '(s, a) := f now (service_executions t) in
  ({| comparam_executions := comparam_executions t; service_executions := s |}, a).

(** *** What the ECU is asked *)

Record RoutineSubfunctions : Type := { has_stop : bool; has_request_results : bool }.

Inductive ecu_request : Type :=
  | GetRoutineSubfunctions (service : string)
  | Send (service : ApiDiagComm) (payload : option UdsPayloadData) (map_to_json : bool)
  | GetEcuResetServices
  | GetComparams.

Definition ecu_answer (q : ecu_request) : Type :=
  match q with
  | GetRoutineSubfunctions _ => dresult RoutineSubfunctions
  | Send _ _ _ => dresult DiagServiceResponseStruct
  | GetEcuResetServices => dresult (list str)
  | GetComparams => dresult (gmap string ComParamValue)
  end.

(** *** Answers *)

Inductive Body : Type :=
  | NoBody
  | ErrorBody (e : ApiErrorResponse)
  | Items (ids : list Uuid)
  | RawBody (bytes : list Z)
  | ExecutionResponse (parameters : option (gmap str Value)) (error : option FieldError)
  | AsyncPostResponse (id : Uuid) (status : OperationStatus)
  | AsyncGetByIdResponse (status : OperationStatus) (parameters : option (gmap str Value)) (error : list FieldError)
  | ComparamUpdate (id : Uuid) (status : ComparamStatus)
  | ComparamExecution (capability : Capability) (parameters : gmap string ComParamValue) (status : ComparamStatus).

Record HttpResponse : Type := { status_code : Z; location : option string; body : Body }.

Definition respond (status_code : Z) (body : Body) : HttpResponse :=
  {| status_code := status_code; location := None; body := body |}.

Definition err_response (e : ApiError) : HttpResponse :=
  respond (error_status e) (ErrorBody (error_response (error_codes e) None)).

(** [api_error_from_diag_response]. *)
Definition negative_response (response : DiagServiceResponseStruct) : HttpResponse :=
  match api_error_from_diag_response to_string response with
  | Ok e => respond 502 (ErrorBody e)
  | Err e => err_response e
  end.

Abbreviation handler := (async ecu_answer Moment EcuTables).

(** Sections that only change the table, and such that only read. *)
Definition changes (f : ServiceMap ServiceExecution -> ServiceMap ServiceExecution) : handler unit :=
  locked (on_services (fun _ s => (f s, tt))).
Definition reads {A} (f : EcuTables -> A) : handler A := locked (fun _ t => (t, f t)).
Definition lock_check (f : State -> option ApiError) : handler (option ApiError) :=
  locked (fun now t => (t, f (lock_state now))).

Definition unless_empty {A} `{Countable K} (m : gmap K A) : option (gmap K A) := if bool_decide (m = ∅) then None else Some m.

(** ** Executions of a service *)

Definition operation (service : string) (subfunction : Z) : ApiDiagComm :=
  {| name := service; type_ := Operations; lookup_name := None; subfunction_id := Some subfunction |}.

(** subfunction_ids::routine *)
Definition START : Z := 1.
Definition STOP : Z := 2.
Definition REQUEST_RESULTS : Z := 3.

Definition send (service : ApiDiagComm) (payload : option UdsPayloadData) (map_to_json : bool)
    : handler (dresult DiagServiceResponseStruct) :=
  ask (answer := ecu_answer) (Send service payload map_to_json).

(** [executions::get]. *)
Definition list_executions (service : string) : handler HttpResponse :=
  ids ← reads (fun t => created_ids service (service_executions t));
  mret (respond 200 (Items ids)).

Definition check_if_async (service : string) : handler (result ApiError bool) :=
  sf ← ask (answer := ecu_answer) (GetRoutineSubfunctions service);
  mret (match sf with
        | Ok sf => Ok (has_stop sf || has_request_results sf)
        | Err e => Err (api_error e)
        end).

Definition send_start_request (diag_service : ApiDiagComm) (data : option UdsPayloadData) (map_to_json : bool)
    : handler (DiagServiceResponseStruct + HttpResponse) :=
  response ← send diag_service data map_to_json;
  mret (match response with
        | Err e => inr (err_response (api_error e))
        | Ok response =>
            match result_type response with
            | NegativeResponse => inr (negative_response response)
            | PositiveResponse => inl response
            end
        end).

Definition handle_async_post (response : option DiagServiceResponseStruct) (map_to_json : bool) (base_path service : string)
    (exec_id : Uuid) : handler HttpResponse :=
  let parameters :=
    match response with
    | Some r =>
        if map_to_json && negb (is_empty r) then
          match serialize_to_json to_string r with Ok {| json_data := Object m |} => m | _ => ∅ end
        else ∅
    | None => ∅
    end in
  _ ← changes (finalize_execution service exec_id (set_parameters parameters));
  mret {| status_code := 202; location := Some (base_path +:+ "/" +:+ uuid_text exec_id);
          body := AsyncPostResponse exec_id Running |}.

Definition handle_sync_post (response : option DiagServiceResponseStruct) (map_to_json : bool) : HttpResponse :=
  if map_to_json then
    match (r ← response; if negb (is_empty r) then Some (serialize_to_json to_string r) else None) with
    | None => respond 200 (ExecutionResponse None None)
    | Some (Ok {| json_data := Object mapped_data; json_errors := errors |}) =>
        respond 200 (ExecutionResponse (unless_empty mapped_data) (head (field_parse_errors_to_json errors (chars "parameters"))))
    | Some _ => err_response InternalServerError
    end
  else respond 200 (RawBody (match response with Some r => response_data r | None => [] end)).

(** The value a reset is to be done with. *)
Definition reset_value (req : HttpRequest) : option str := m ← json req; v ← m !! chars "value"; as_str v.

Definition reset_response (response : DiagServiceResponseStruct) : HttpResponse :=
  match result_type response with
  | NegativeResponse => negative_response response
  | PositiveResponse =>
      if is_empty response then respond 204 NoBody
      else
        let answer m errors := respond 200 (ExecutionResponse (unless_empty m) (head (field_parse_errors_to_json errors (chars "parameters")))) in
        match serialize_to_json to_string response with
        | Ok {| json_data := Object mapped_data; json_errors := errors |} => answer mapped_data errors
        | Ok {| json_data := Null; json_errors := [] |} => respond 204 NoBody
        | Ok {| json_data := Null; json_errors := errors |} => answer ∅ errors
        | _ => err_response InternalServerError
        end
  end.

Definition ecu_reset_handler (service : string) (req : HttpRequest) : handler HttpResponse :=
  match reset_value req with
  | None => mret (err_response BadRequest)
  | Some value_str =>
      allowed_values ← ask (answer := ecu_answer) GetEcuResetServices;
      match allowed_values with
      | Err e => mret (err_response (api_error e))
      | Ok allowed_values =>
          if negb (existsb (fun v => eq_ignore_ascii_case v value_str) allowed_values) then mret (err_response BadRequest)
          else
            response ← send {| name := service; type_ := Modes; lookup_name := Some (to_owned value_str);
                               subfunction_id := None |} None true;
            mret (match response with Err e => err_response (api_error e) | Ok response => reset_response response end)
      end
  end.

(** The way out of a POST that reserved a slot. *)
Definition gives_up (service : string) (exec_id : Uuid) (r : HttpResponse) : handler HttpResponse :=
  _ ← changes (remove_reserved_execution service exec_id);
  mret r.

(** What [ecu_operation_write_handler] does with the slot it has reserved. *)
Definition finish_post (service base_path : string) (exec_id : Uuid) (is_async map_to_json : bool)
    (response : option DiagServiceResponseStruct + HttpResponse) : handler HttpResponse :=
  match response with
  | inr e => gives_up service exec_id e
  | inl response =>
      if is_async then handle_async_post response map_to_json base_path service exec_id
      else gives_up service exec_id (handle_sync_post response map_to_json)
  end.

Definition start_reserved (req : HttpRequest) (suppress_service : bool) (service base_path : string) (exec_id : Uuid)
    (is_async : result ApiError bool) : handler HttpResponse :=
  match is_async with
  | Err e => gives_up service exec_id (err_response e)
  | Ok is_async =>
      match validate_and_parse_write_request req with
      | Err e => gives_up service exec_id (err_response e)
      | Ok (data, map_to_json) =>
          response ← (if suppress_service then mret (inl None)
                      else r ← send_start_request (operation service START) data map_to_json;
                           mret (match r with inl r => inl (Some r) | inr e => inr e end));
          finish_post service base_path exec_id is_async map_to_json response
      end
  end.

Definition ecu_operation_write_handler (service : string) (req : HttpRequest) (suppress_service : bool) (base_path : string)
    : handler HttpResponse :=
  if String.eqb service "reset" then ecu_reset_handler service req
  else
    reserved ← locked (on_services (reserve_execution service));
    match reserved with
    | Err e => mret (err_response e)
    | Ok exec_id =>
        is_async ← (if suppress_service then mret (Ok true) else check_if_async service);
        start_reserved req suppress_service service base_path exec_id is_async
    end.

(** [executions::post]; [claim] is the caller. *)
Definition post_execution (claim ecu_name service : string) (req : HttpRequest) (suppress_service : bool) (base_path : string)
    : handler HttpResponse :=
  refused ← lock_check (fun s => validate_lock s claim ecu_name);
  match refused with
  | Some e => mret (err_response e)
  | None => ecu_operation_write_handler service req suppress_service base_path
  end.

(** ** One execution *)

Definition get_by_id_response (status : OperationStatus) (parameters : gmap str Value) (error : list FieldError) : HttpResponse :=
  respond 200 (AsyncGetByIdResponse status (unless_empty parameters) error).

Definition release_execution (service : string) (exec_id : Uuid) : handler unit :=
  changes (alter_execution (set_in_flight false) service exec_id).

Definition get_operations_response (response : DiagServiceResponseStruct) (service : string) (exec_id : Uuid)
    : handler HttpResponse :=
  match result_type response with
  | NegativeResponse => mret (negative_response response)
  | PositiveResponse =>
      let '(parameters, error_list) :=
        if is_empty response then (∅, []) else parse_json_response_params to_string response in
      _ ← changes (alter_execution (set_parameters parameters) service exec_id);
      mret (get_by_id_response Completed parameters error_list)
  end.

(** [executions::id::get]. *)
Definition get_execution (service id : string) (suppress_service : bool) : handler HttpResponse :=
  match parse_str id with
  | None => mret (err_response BadRequest)
  | Some exec_id =>
      guarded ← locked (on_services (fun _ => guard_execution service exec_id));
      match guarded with
      | Err e => mret (err_response e)
      | Ok stored =>
          if suppress_service then
            _ ← release_execution service exec_id;
            mret (get_by_id_response (status stored) (parameters stored) [])
          else
            uds_result ← send (operation service REQUEST_RESULTS) None true;
            _ ← release_execution service exec_id;
            match uds_result with
            | Err e => mret (err_response (api_error e))
            | Ok response => get_operations_response response service exec_id
            end
      end
  end.

(** What the answer to a Stop makes of the execution: it is removed, or it is
    released and the error reported. *)
Definition stopped_response (uds_result : dresult DiagServiceResponseStruct) (suppress_service force : bool)
    : HttpResponse + HttpResponse :=
  let failed (r : HttpResponse) := if force then inl (respond 204 NoBody) else inr r in
  match uds_result with
  | Ok r =>
      match result_type r with
      | PositiveResponse =>
          inl (if is_empty r then respond 204 NoBody
               else let '(parameters, error_list) := parse_json_response_params to_string r in
                    get_by_id_response Stopped parameters error_list)
      | NegativeResponse => failed (negative_response r)
      end
  | Err e =>
      if bool_decide (e = Errors.NotFound) && suppress_service then inl (respond 204 NoBody)
      else failed (err_response (api_error e))
  end.

(** [executions::id::delete]. *)
Definition delete_execution (claim ecu_name service id : string) (suppress_service force : bool) : handler HttpResponse :=
  refused ← lock_check (fun s => validate_lock s claim ecu_name);
  match refused with
  | Some e => mret (err_response e)
  | None =>
      match parse_str id with
      | None => mret (err_response BadRequest)
      | Some exec_id =>
          guarded ← locked (on_services (fun _ => guard_execution service exec_id));
          match guarded with
          | Err e => mret (err_response e)
          | Ok _ =>
              uds_result ← send (operation service STOP) None true;
              match stopped_response uds_result suppress_service force with
              | inl r => _ ← changes (remove_execution service exec_id); mret r
              | inr r => _ ← release_execution service exec_id; mret r
              end
          end
      end
  end.

(** ** Communication parameters *)

(** [handler_read]. *)
Definition list_comparams : handler HttpResponse :=
  ids ← reads (fun t => (comparam_executions t).*1);
  mret (respond 200 (Items ids)).

(** [handler_write]; [request] holds the parameters of the body, if any. *)
Definition write_comparams (request : option (gmap string ComParamValue)) (base_path : string) : handler HttpResponse :=
  locked (on_comparams (fun now executions =>
    if update_in_progress now then (executions, err_response Conflict)
    else
      let id := new_v4 now in
      (insert_entry id {| capability := Execute; comparam_status := ComparamRunning;
                          comparam_override := default ∅ request |} executions,
       {| status_code := 202; location := Some (base_path +:+ "/" +:+ uuid_text id);
          body := ComparamUpdate id ComparamRunning |}))).

(** [&executions.as_slice()[..idx]]. *)
Definition slice_to {A} (l : list A) (idx : nat) : option (list A) := if (idx <=? length l)%nat then Some (take idx l) else None.

(** [comparams::executions::id::get]: the guard is released between the two
    looks at the table. *)
Definition get_comparams (id : string) : handler HttpResponse :=
  match parse_str id with
  | None => mret (err_response BadRequest)
  | Some id =>
      found ← reads (fun t => get_full id (comparam_executions t));
      match found with
      | None => mret (err_response NotFound)
      | Some (idx, execution) =>
          earlier ← reads (fun t => slice_to (comparam_executions t).*2 idx);
          match earlier with
          | None => panic
          | Some earlier =>
              comparams ← ask (answer := ecu_answer) GetComparams;
              mret (match comparams with
                    | Err e => err_response (api_error e)
                    | Ok parameters =>
                        respond 200 (ComparamExecution (capability execution)
                                      (foldl (fun p e => comparam_override e ∪ p) parameters (earlier ++ [execution]))
                                      (comparam_status execution))
                    end)
          end
      end
  end.

(** [comparams::executions::id::delete]. *)
Definition delete_comparams (id : string) : handler HttpResponse :=
  match parse_str id with
  | None => mret (err_response BadRequest)
  | Some id =>
      locked (on_comparams (fun _ executions =>
        match lookup_entry id executions with
        | None => (executions, err_response NotFound)
        | Some _ => (shift_remove id executions, respond 204 NoBody)
        end))
  end.

(** [comparams::executions::id::put]; [path] is the URL of the request. *)
Definition put_comparams (id : string) (request : option (gmap string ComParamValue)) (path : string) : handler HttpResponse :=
  match parse_str id with
  | None => mret (err_response BadRequest)
  | Some id =>
      locked (on_comparams (fun _ executions =>
        match lookup_entry id executions with
        | None => (executions, err_response NotFound)
        | Some execution =>
            (alter_entry (fun e => {| capability := capability e; comparam_status := comparam_status e;
                                      comparam_override := default ∅ request ∪ comparam_override e |}) id executions,
             {| status_code := 202; location := Some path; body := ComparamUpdate id (comparam_status execution) |})
        end))
  end.

(** ** The requests an ECU's operations take *)

Inductive ecu_operation : Type :=
  | ListExecutions (service : string)
  | PostExecution (claim service : string) (req : HttpRequest) (suppress_service : bool) (base_path : string)
  | GetExecution (service id : string) (suppress_service : bool)
  | DeleteExecution (claim service id : string) (suppress_service force : bool)
  | ListComparams
  | PostComparams (request : option (gmap string ComParamValue)) (base_path : string)
  | GetComparamsById (id : string)
  | DeleteComparams (id : string)
  | PutComparams (id : string) (request : option (gmap string ComParamValue)) (path : string).

Definition handle (ecu_name : string) (r : ecu_operation) : handler HttpResponse :=
  match r with
  | ListExecutions service => list_executions service
  | PostExecution claim service req suppress_service base_path =>
      post_execution claim ecu_name service req suppress_service base_path
  | GetExecution service id suppress_service => get_execution service id suppress_service
  | DeleteExecution claim service id suppress_service force =>
      delete_execution claim ecu_name service id suppress_service force
  | ListComparams => list_comparams
  | PostComparams request base_path => write_comparams request base_path
  | GetComparamsById id => get_comparams id
  | DeleteComparams id => delete_comparams id
  | PutComparams id request path => put_comparams id request path
  end.

(** [EcuExecutionRegistry::is_active] of one ECU. *)
Definition no_executions (t : EcuTables) : bool :=
  bool_decide (comparam_executions t = []) && forallb (fun kv => bool_decide (kv.2 = [])) (map_to_list (service_executions t)).
End handlers.
