(* ===== verification/ExecutionSlots.v ===== *)
(** * Whose execution it is

    While a handler talks to an ECU about an operation, an execution in the
    table is marked as in flight, and only this handler takes the mark away:
    the logic of Async.v for the operations on the table (Executions.v), and
    for the handlers of an ECU (EcuOperations.v). *)

From stdpp Require Import strings gmap.
From stdpp Require Import list.
From S2P Require Import Prelude Errors Text Ieee754 Json ResponseDecode PayloadEncode Naming Locks SovdApi Async Executions EcuOperations.

Local Open Scope Z_scope.

(** ** Entries *)

Section index_maps.
Context {V : Type}.
Implicit Types (m : IndexMap V) (f : V -> V).

Lemma lookup_entry_alter f i m : lookup_entry i (alter_entry f i m) = f <$> lookup_entry i m.
Proof. induction m as [|[k v] m IH]; [done|]. cbn. destruct (decide (k = i)) as [->|]; cbn; [by rewrite decide_True|by rewrite decide_False]. Qed.

Lemma lookup_entry_alter_ne f i j m : i <> j -> lookup_entry j (alter_entry f i m) = lookup_entry j m.
Proof.
  intros Hij. induction m as [|[k v] m IH]; [done|]. cbn.
  destruct (decide (k = i)) as [->|]; cbn; [by rewrite !decide_False|]. by rewrite IH.
Qed.

Lemma lookup_entry_insert i v m : lookup_entry i (insert_entry i v m) = Some v.
Proof.
  induction m as [|[k w] m IH]; cbn; [by rewrite decide_True|].
  destruct (decide (k = i)) as [->|]; cbn; [by rewrite decide_True|by rewrite decide_False].
Qed.

Lemma lookup_entry_insert_ne i j v m : i <> j -> lookup_entry j (insert_entry i v m) = lookup_entry j m.
Proof.
  intros Hij. induction m as [|[k w] m IH]; cbn; [by rewrite decide_False|].
  destruct (decide (k = i)) as [->|]; cbn; [by rewrite !decide_False|]. by rewrite IH.
Qed.

Lemma lookup_shift_remove_ne i j m : i <> j -> lookup_entry j (shift_remove i m) = lookup_entry j m.
Proof.
  intros Hij. induction m as [|[k w] m IH]; cbn; [done|].
  destruct (decide (k = i)) as [->|]; cbn; [by rewrite decide_False|]. by rewrite IH.
Qed.

Lemma alter_entry_nil f i m : alter_entry f i m = [] <-> m = [].
Proof. destruct m as [|[k v] m]; cbn; [done|]. by case_decide. Qed.

Lemma lookup_entry_in i v m : lookup_entry i m = Some v -> (i, v) ∈ m.
Proof.
  induction m as [|[k w] m IH]; cbn; [done|]. destruct (decide (k = i)) as [->|]; intros H; [injection H as ->; left|].
  right. by apply IH.
Qed.

Lemma insert_fresh i v m : lookup_entry i m = None -> insert_entry i v m = m ++ [(i, v)].
Proof.
  induction m as [|[k w] m IH]; cbn; [done|]. destruct (decide (k = i)); [done|]. intros H. by rewrite IH.
Qed.

Lemma shift_remove_last i v m : lookup_entry i m = None -> shift_remove i (m ++ [(i, v)]) = m.
Proof.
  induction m as [|[k w] m IH]; cbn; [by rewrite decide_True|]. destruct (decide (k = i)); [done|].
  intros H. by rewrite IH.
Qed.

Lemma alter_entry_last f i v m : lookup_entry i m = None -> alter_entry f i (m ++ [(i, v)]) = m ++ [(i, f v)].
Proof.
  induction m as [|[k w] m IH]; cbn; [by rewrite decide_True|]. destruct (decide (k = i)); [done|].
  intros H. by rewrite IH.
Qed.
End index_maps.

(** ** Executions *)

Section slots.
Context {E : Type} `{!ExecutionStatus E} `{!ExecutionStatusOk E}.
Implicit Types (m : ServiceMap E) (s : string * Uuid).

(** The entry of a slot is in flight. *)
Definition held_in m s : Prop := exists e, find_execution s.1 s.2 m = Some e /\ is_in_flight e = true.

Definition quiet_in m : Prop := forall service, entries service m = [].

(** The identifier that is drawn is in no table: [Uuid::new_v4] is random. *)
Definition fresh_in (now : Moment) m : Prop := forall service, lookup_entry (new_v4 now) (entries service m) = None.

Definition stays_quiet (now : Moment) m m' : Prop := update_in_progress now = true -> quiet_in m -> quiet_in m'.

Definition slot_moves (now : Moment) (own own' : option (string * Uuid)) m m' : Prop :=
  moves held_in stays_quiet now own own' m m'.

Lemma entries_alter (f : IndexMap E -> IndexMap E) service m :
  f [] = [] -> entries service (alter f service m) = f (entries service m).
Proof. intros Hf. unfold entries. rewrite lookup_alter_eq. by destruct (m !! service). Qed.

Lemma entries_alter_ne (f : IndexMap E -> IndexMap E) service service' m :
  service <> service' -> entries service' (alter f service m) = entries service' m.
Proof. intros Hs. unfold entries. by rewrite lookup_alter_ne. Qed.

Lemma entries_insert service l m : entries service (<[service := l]> m) = l.
Proof. unfold entries. by rewrite lookup_insert_eq. Qed.

Lemma entries_insert_ne service service' l m : service <> service' -> entries service' (<[service := l]> m) = entries service' m.
Proof. intros Hs. unfold entries. by rewrite lookup_insert_ne. Qed.

Lemma find_alter f service i m :
  find_execution service i (alter_execution f service i m) = f <$> find_execution service i m.
Proof. unfold find_execution, alter_execution. rewrite entries_alter by done. apply lookup_entry_alter. Qed.

Lemma find_alter_ne f service i s m : s <> (service, i) ->
  find_execution s.1 s.2 (alter_execution f service i m) = find_execution s.1 s.2 m.
Proof.
  intros Hs. unfold find_execution, alter_execution. destruct s as [service' j]; cbn in *.
  destruct (decide (service = service')) as [<-|Hne]; [|by rewrite entries_alter_ne].
  rewrite entries_alter by done. apply lookup_entry_alter_ne. congruence.
Qed.

Lemma find_remove_ne service i s m : s <> (service, i) ->
  find_execution s.1 s.2 (remove_execution service i m) = find_execution s.1 s.2 m.
Proof.
  intros Hs. unfold find_execution, remove_execution. destruct s as [service' j]; cbn in *.
  destruct (decide (service = service')) as [<-|Hne]; [|by rewrite entries_alter_ne].
  rewrite entries_alter by done. apply lookup_shift_remove_ne. congruence.
Qed.

(** Removing a reserved slot also drops a table it leaves empty. *)
Lemma entries_remove_reserved service i service' m :
  entries service' (remove_reserved_execution service i m) = entries service' (remove_execution service i m).
Proof.
  unfold remove_reserved_execution, remove_execution, entries. destruct (m !! service) as [l|] eqn:Hl.
  - destruct (decide (service = service')) as [<-|Hne].
    + rewrite lookup_alter_eq, Hl. cbn. destruct (bool_decide_reflect (shift_remove i l = [])) as [->|];
        [by rewrite lookup_delete_eq|by rewrite lookup_insert_eq].
    + rewrite lookup_alter_ne by done. case_bool_decide; [by rewrite lookup_delete_ne|by rewrite lookup_insert_ne].
  - destruct (decide (service = service')) as [<-|Hne]; [by rewrite lookup_alter_eq, Hl|by rewrite lookup_alter_ne].
Qed.

Lemma quiet_alter (f : IndexMap E -> IndexMap E) service m : f [] = [] -> quiet_in m -> quiet_in (alter f service m).
Proof.
  intros Hf Hm service'. destruct (decide (service = service')) as [<-|]; [|by rewrite entries_alter_ne].
  by rewrite entries_alter, Hm.
Qed.

(** *** Moves *)

Lemma slot_moves_refl now m : slot_moves now None None m m.
Proof. split; [done|split; [done|by intros ?]]. Qed.

(** A section that leaves the other slots alone gives up its own. *)
Lemma slot_released now s m m' :
  (forall s', s' <> s -> find_execution s'.1 s'.2 m' = find_execution s'.1 s'.2 m) -> stays_quiet now m m' ->
  slot_moves now (Some s) None m m'.
Proof.
  intros Hf Hq. split; [done|split; [|done]]. intros s' (e & He & Hi) Hs'. exists e. rewrite Hf; [done|congruence].
Qed.

Lemma released now service i m : slot_moves now (Some (service, i)) None m (alter_execution (set_in_flight false) service i m).
Proof.
  apply slot_released; [intros s; apply find_alter_ne|]. intros _. by apply quiet_alter.
Qed.

Lemma finalized now service i f m : slot_moves now (Some (service, i)) None m (finalize_execution service i f m).
Proof.
  apply slot_released; [intros s; apply find_alter_ne|]. intros _. by apply quiet_alter.
Qed.

Lemma removed now service i m : slot_moves now (Some (service, i)) None m (remove_execution service i m).
Proof.
  apply slot_released; [intros s; apply find_remove_ne|]. intros _. by apply quiet_alter.
Qed.

Lemma reservation_removed now service i m :
  slot_moves now (Some (service, i)) None m (remove_reserved_execution service i m).
Proof.
  apply slot_released.
  - intros s Hs. unfold find_execution at 1. rewrite entries_remove_reserved. by apply find_remove_ne.
  - intros _ Hm service'. rewrite entries_remove_reserved. by apply quiet_alter.
Qed.

(** Changing an execution without its mark is nobody's business. *)
Lemma unmarked now f service i m : (forall e, is_in_flight (f e) = is_in_flight e) ->
  slot_moves now None None m (alter_execution f service i m).
Proof.
  intros Hf. split; [done|split; [|intros _; by apply quiet_alter]]. intros s (e & He & Hi) _.
  destruct (decide (s = (service, i))) as [->|Hne]; [|exists e; by rewrite find_alter_ne].
  exists (f e). cbn in *. by rewrite find_alter, He, Hf.
Qed.

Lemma guarded now service i m :
  match guard_execution service i m with
  | (m', Ok e) => slot_moves now None (Some (service, i)) m m'
  | (m', Err _) => m' = m
  end.
Proof.
  unfold guard_execution. destruct (find_execution service i m) as [e|] eqn:He; [|done].
  destruct (is_created e); [|done]. destruct (is_in_flight e) eqn:Hi; [done|]. cbn. split; [|split].
  - intros s [= <-]. split; [|right; intros (e' & He' & Hi'); cbn in *; congruence].
    exists (set_in_flight true e). cbn. by rewrite find_alter, He, in_flight_set.
  - intros s (e' & He' & Hi') _. destruct (decide (s = (service, i))) as [->|Hne]; [cbn in *; congruence|].
    exists e'. by rewrite find_alter_ne.
  - intros _. by apply quiet_alter.
Qed.

Lemma reserved now service m : fresh_in now m ->
  match reserve_execution service now m with
  | (m', Ok i) => i = new_v4 now /\ slot_moves now None (Some (service, i)) m m'
  | (m', Err _) => m' = m
  end.
Proof.
  intros Hfresh. unfold reserve_execution. destruct (update_in_progress now) eqn:Hu; [done|].
  destruct (has_running service m); [done|]. split; [done|]. split; [|split].
  - intros s [= <-]. unfold held_in, find_execution; cbn. rewrite entries_insert, lookup_entry_insert. split.
    + eexists. split; [done|]. apply in_flight_set.
    + right. intros (e & He & _). by rewrite Hfresh in He.
  - intros [service' j] (e & He & Hi) _. unfold held_in, find_execution in *; cbn in *.
    assert (Hj : new_v4 now <> j) by (intros <-; by rewrite Hfresh in He).
    destruct (decide (service = service')) as [<-|]; [|rewrite entries_insert_ne by done; eauto].
    rewrite entries_insert, lookup_entry_insert_ne by done. eauto.
  - intros Hu'. congruence.
Qed.
End slots.

Create HintDb slots.
#[export] Hint Resolve released finalized removed reservation_removed : slots.

(** ** The handlers of an ECU *)

Section ecu.
Context {ext : Externals} (to_string : spec_float -> str) {ComParamValue : Type}.
Context (parse_str : string -> option Uuid) (uuid_text : Uuid -> string).

Abbreviation tables := (EcuTables (ComParamValue := ComParamValue)).
Abbreviation task := (async (ecu_answer (ComParamValue := ComParamValue)) Moment tables (HttpResponse (ComParamValue := ComParamValue))).

Definition held (t : tables) : string * Uuid -> Prop := held_in (service_executions t).
Definition is_operation (q : ecu_request) : Prop := match q with Send d _ _ => type_ d = Operations | _ => False end.
Definition fresh (now : Moment) (t : tables) : Prop := fresh_in now (service_executions t).

(** While the update flag is set, a table without executions stays so. *)
Definition keeps_quiet (now : Moment) (t t' : tables) : Prop :=
  update_in_progress now = true ->
  (comparam_executions t = [] -> comparam_executions t' = []) /\
  (quiet_in (service_executions t) -> quiet_in (service_executions t')).

Lemma no_executions_spec (t : tables) :
  no_executions t = true <-> comparam_executions t = [] /\ quiet_in (service_executions t).
Proof.
  unfold no_executions, quiet_in, entries. rewrite andb_true_iff, bool_decide_eq_true, forallb_forall. split.
  - intros [Hc Hs]. split; [done|]. intros service. destruct (service_executions t !! service) as [l|] eqn:Hl; [|done].
    cbn. apply elem_of_map_to_list, list_elem_of_In, Hs in Hl. by apply bool_decide_eq_true in Hl.
  - intros [Hc Hs]. split; [done|]. intros [service l] Hin%list_elem_of_In%elem_of_map_to_list. cbn.
    apply bool_decide_eq_true. specialize (Hs service). by rewrite Hin in Hs.
Qed.

Abbreviation on_slot := (tracked (answer := ecu_answer (ComParamValue := ComParamValue)) held is_operation fresh keeps_quiet).

Lemma slot_services {A} own (f : Moment -> ServiceMap ServiceExecution -> ServiceMap ServiceExecution * A) post :
  (forall now m, fresh_in now m -> (forall s, own = Some s -> held_in m s) ->
    exists own', slot_moves now own own' m (f now m).1 /\ post own' (f now m).2) ->
  on_slot own (locked (on_services f)) post.
Proof.
  intros H. apply tracked_locked. intros now t Hf Ho. unfold on_services.
  destruct (H now (service_executions t) Hf Ho) as (own' & (Hown & Hothers & Hq) & Hp).
  destruct (f now (service_executions t)) as [m' a]. exists own'. split; [|done]. split; [done|split; [done|]].
  intros Hu. split; [done|by apply Hq].
Qed.

Lemma slot_changes own own' f (post : option (string * Uuid) -> unit -> Prop) :
  (forall now m, slot_moves now own own' m (f m)) -> post own' tt -> on_slot own (changes f) post.
Proof. intros Hf Hp. apply slot_services. intros now m _ _. exists own'. split; [apply Hf|done]. Qed.

Lemma slot_same own now (t : tables) : (forall s, own = Some s -> held t s) -> moves held keeps_quiet now own own t t.
Proof. intros Ho. split; [intros s Hs; auto|split; [done|by intros _]]. Qed.

Lemma slot_reads {A} own (f : tables -> A) post : (forall a, post own a) -> on_slot own (reads f) post.
Proof. intros Hp. apply tracked_locked. intros now t _ Ho. exists own. split; [by apply slot_same|apply Hp]. Qed.

Lemma slot_lock_check own f post : (forall a, post own a) -> on_slot own (lock_check f) post.
Proof. intros Hp. apply tracked_locked. intros now t _ Ho. exists own. split; [by apply slot_same|apply Hp]. Qed.

Lemma slot_comparams {A} (f : Moment -> IndexMap Execution -> IndexMap Execution * A) post :
  (forall now c, update_in_progress now = true -> c = [] -> (f now c).1 = []) -> (forall a, post None a) ->
  on_slot None (locked (on_comparams f)) post.
Proof.
  intros Hf Hp. apply tracked_locked. intros now t _ Ho. exists None. unfold on_comparams.
  specialize (Hf now (comparam_executions t)). destruct (f now (comparam_executions t)) as [c a]. split; [|apply Hp].
  split; [done|split; [done|]]. intros Hu. split; [|done]. intros Hc. by apply Hf.
Qed.

Lemma slot_send own d payload json post : (type_ d = Operations -> is_Some own) -> (forall r, post own r) ->
  on_slot own (send d payload json) post.
Proof. intros Hd Hp. split; [done|]. intros r. apply Hp. Qed.

Lemma slot_ask own q (post : option (string * Uuid) -> ecu_answer q -> Prop) :
  ~ is_operation q -> (forall r, post own r) -> on_slot own (ask q) post.
Proof. intros Hq Hp. split; [done|]. intros r. apply Hp. Qed.

Abbreviation anything := (fun _ _ => True).

Lemma slot_gives_up service i r : on_slot (Some (service, i)) (gives_up service i r) anything.
Proof. apply tracked_bind, slot_changes with (own' := None); [intros now m; auto with slots|done]. Qed.

Lemma reset_tracked service req : on_slot None (ecu_reset_handler to_string service req) anything.
Proof.
  unfold ecu_reset_handler. destruct (reset_value req); [|done]. apply tracked_bind, slot_ask; [by intros []|].
  intros [allowed|e]; [|done]. destruct (negb _); [done|]. apply tracked_bind, slot_send; [done|]. by intros [].
Qed.

Lemma finish_tracked service base id is_async json response :
  on_slot (Some (service, id)) (finish_post to_string uuid_text service base id is_async json response) anything.
Proof.
  destruct response as [response|e]; [|apply slot_gives_up]. destruct is_async; [|apply slot_gives_up].
  apply tracked_bind, slot_changes with (own' := None); [intros now m; auto with slots|done].
Qed.

Lemma start_tracked req suppress service base id is_async :
  on_slot (Some (service, id)) (start_reserved to_string uuid_text req suppress service base id is_async) anything.
Proof.
  destruct is_async as [is_async|e]; [|apply slot_gives_up]. cbn.
  destruct (validate_and_parse_write_request req) as [[data json]|e]; [|apply slot_gives_up].
  apply tracked_bind. destruct suppress; [apply finish_tracked|]. split; [by eexists|].
  intros r. apply finish_tracked.
Qed.

Lemma write_tracked service req suppress base :
  on_slot None (ecu_operation_write_handler to_string uuid_text service req suppress base) anything.
Proof.
  unfold ecu_operation_write_handler. destruct (String.eqb service "reset"); [apply reset_tracked|].
  apply tracked_bind, slot_services. intros now m Hf _. pose proof (reserved now service m Hf) as Hr.
  destruct (reserve_execution service now m) as [m' [id|e]].
  2: { exists None. subst m'. split; [apply slot_moves_refl|done]. }
  exists (Some (service, id)). split; [by apply Hr|]. apply tracked_bind. destruct suppress; [apply start_tracked|].
  apply tracked_bind, slot_ask; [by intros []|]. intros r. apply start_tracked.
Qed.

Lemma post_tracked claim ecu_name service req suppress base :
  on_slot None (post_execution to_string uuid_text claim ecu_name service req suppress base) anything.
Proof. apply tracked_bind, slot_lock_check. intros [e|]; [done|]. apply write_tracked. Qed.

Lemma slot_release service i (k : task) :
  on_slot None k anything -> on_slot (Some (service, i)) (release_execution service i ≫= fun _ => k) anything.
Proof. intros Hk. apply tracked_bind, slot_changes with (own' := None); [intros now m; auto with slots|done]. Qed.

(** A handler that finds an execution and marks it. *)
Lemma slot_guard service i (k : result ApiError ServiceExecution -> task) :
  (forall e, on_slot None (k (Err e)) anything) -> (forall e, on_slot (Some (service, i)) (k (Ok e)) anything) ->
  on_slot None (locked (on_services (fun _ => guard_execution service i)) ≫= k) anything.
Proof.
  intros Herr Hok. apply tracked_bind, slot_services. intros now m _ _. pose proof (guarded now service i m) as Hg.
  destruct (guard_execution service i m) as [m' [e|e]].
  - exists (Some (service, i)). split; [done|apply Hok].
  - exists None. subst m'. split; [apply slot_moves_refl|apply Herr].
Qed.

Lemma results_tracked response service i : on_slot None (get_operations_response to_string response service i) anything.
Proof.
  unfold get_operations_response. destruct (result_type response); [|done].
  destruct (if is_empty response then _ else _) as [p errors].
  apply tracked_bind, slot_changes with (own' := None); [|done]. intros now m. by apply unmarked.
Qed.

Lemma get_tracked service id suppress : on_slot None (get_execution to_string parse_str service id suppress) anything.
Proof.
  unfold get_execution. destruct (parse_str id) as [i|]; [|done]. apply slot_guard; [done|]. intros stored.
  destruct suppress; [by apply slot_release|]. apply tracked_bind, slot_send; [by eexists|]. intros r.
  apply slot_release. destruct r as [response|e]; [apply results_tracked|done].
Qed.

Lemma delete_tracked claim ecu_name service id suppress force :
  on_slot None (delete_execution to_string parse_str claim ecu_name service id suppress force) anything.
Proof.
  apply tracked_bind, slot_lock_check. intros [e|]; [done|]. destruct (parse_str id) as [i|]; [|done].
  apply slot_guard; [done|]. intros stored. apply tracked_bind, slot_send; [by eexists|]. intros r.
  destruct (stopped_response to_string r suppress force); [|by apply slot_release].
  apply tracked_bind, slot_changes with (own' := None); [intros now m; auto with slots|done].
Qed.

Lemma get_comparams_tracked id : on_slot None (get_comparams parse_str id) anything.
Proof.
  unfold get_comparams. destruct (parse_str id); [|done]. apply tracked_bind, slot_reads. intros [[idx e]|]; [|done].
  apply tracked_bind, slot_reads. intros [earlier|]; [|done]. apply tracked_bind, slot_ask; [by intros []|]. by intros [].
Qed.

Lemma handle_tracked ecu_name r : on_slot None (handle to_string parse_str uuid_text ecu_name r) anything.
Proof.
  destruct r; cbn [handle].
  - by apply tracked_bind, slot_reads.
  - apply post_tracked.
  - apply get_tracked.
  - apply delete_tracked.
  - by apply tracked_bind, slot_reads.
  - apply slot_comparams; [|done]. by intros now c ->.
  - apply get_comparams_tracked.
  - unfold delete_comparams. destruct (parse_str id); [|done]. apply slot_comparams; [|done]. by intros now c _ ->.
  - unfold put_comparams. destruct (parse_str id); [|done]. apply slot_comparams; [|done]. by intros now c _ ->.
Qed.
End ecu.
