(* ===== verification/UpdateGuard.v ===== *)
(** * Updates and operations at the same time

    Starting an update: cda-plugin-runtime-update operations/executions.rs and
    security.rs, the registry of executions (cda-sovd/src/sovd/execution_registry.rs),
    the middleware of update_guard.rs and the POST of an update
    (apps/sovd2uds); what an accepted update then does is RuntimeUpdate.v.
    Then the system: the handlers of the operations (EcuOperations.v), the
    tasks that transfer files (DataTransfer.v), and the start and the task of
    an update, interleaved.  They share the tables of executions, the flag
    [update_in_progress] and the locks; a handler may be dropped at any of its
    waits, which is what happens when its client disconnects. *)

From stdpp Require Import strings gmap.
From stdpp Require Import list.
From S2P Require Import Prelude Text Ieee754 Json StorageTypes Naming RuntimeUpdate Locks SovdApi Async Executions EcuOperations ExecutionSlots.

Local Open Scope Z_scope.
Set Warnings "-register-all".

(** ** Data *)

(** [runtime_update_api::ExecutionStatus]; the text of an error is left out. *)
Inductive UpdateStatus : Type := UpdateRunning | UpdateCompleted | UpdateFailed.

#[export] Instance UpdateStatus_eq_dec : EqDecision UpdateStatus.
Proof. solve_decision. Defined.

Record UpdateExecution : Type := { execution_id : string; mode : ExecutionMode; update_status : UpdateStatus }.

(** The spawned task: it executes the operation, and when it has noted the
    result it clears the flag. *)
Inductive UpdateTask : Type := Executing (id : string) (mode : ExecutionMode) | Noted.

(** The flag [update_in_progress], the executions of the plugin and its task. *)
Record UpdateState : Type := {
  in_progress : bool;
  executions : gmap string UpdateExecution;
  task : option UpdateTask
}.

Definition set_in_progress (b : bool) (u : UpdateState) : UpdateState :=
  {| in_progress := b; executions := executions u; task := task u |}.

Section start.
(** [C] stands for a collection of the storage. *)
Context {C : Type} (uuid_text : Uuid -> string).

(** Tables of executions are told apart by a number. *)
Inductive start_question : Type :=
  | GetCollection (name : CollectionName)
  | VehicleLockOwnerSub
  | HasNonVehicleLocks
  | TransfersActive
  | TryReadRegistry
  | ComparamsActive (table : nat)
  | ServicesActive (table : nat)
  | MddEcuNames (collection : C)
  | IsBackupEmpty.

Definition start_answer (q : start_question) : Type :=
  match q with
  | GetCollection _ => option C
  | VehicleLockOwnerSub => option string
  | TryReadRegistry => option (list nat)
  | HasNonVehicleLocks | TransfersActive | ComparamsActive _ | ServicesActive _ => bool
  | MddEcuNames _ => result RuntimeUpdateError (gset string)
  | IsBackupEmpty => result RuntimeUpdateError bool
  end.

Abbreviation starting := (async start_answer Moment UpdateState).
Definition ask_start (q : start_question) : starting (start_answer q) := ask q.

(** *** The guards *)

(** [iter().any(..)] *)
Fixpoint any (q : nat -> starting bool) (tables : list nat) : starting bool :=
  match tables with
  | [] => mret false
  | l :: tables => active ← q l; if (active : bool) then mret true else any q tables
  end.

(** [EcuExecutionRegistry::is_active]: what cannot be read counts as active. *)
Definition registry_active : starting bool :=
  inner ← ask_start TryReadRegistry;
  match (inner : option (list nat)) with
  | None => mret true
  | Some tables =>
      comparams ← any (fun l => ask_start (ComparamsActive l)) tables;
      if (comparams : bool) then mret true else any (fun l => ask_start (ServicesActive l)) tables
  end.

(** The transfers first, then the executions. *)
Definition guard_active : starting bool :=
  transfers ← ask_start TransfersActive;
  if (transfers : bool) then mret true else registry_active.

Definition check_apply_allowed (pending current : option C) : starting (result RuntimeUpdateError ()) :=
  owner ← ask_start VehicleLockOwnerSub;
  match (owner : option string) with
  | None => mret (Err NoLock)
  | Some _ =>
      others ← ask_start HasNonVehicleLocks;
      if (others : bool) then mret (Err LockConflict)
      else
        active ← guard_active;
        if (active : bool) then mret (Err OperationsInProgress)
        else
          match pending, current with
          | Some pending, Some current =>
              pending_ecus ← ask_start (MddEcuNames pending);
              match (pending_ecus : result _ (gset string)) with
              | Err e => mret (Err e)
              | Ok _ =>
                  current_ecus ← ask_start (MddEcuNames current);
                  mret (match (current_ecus : result _ (gset string)) with Err e => Err e | Ok _ => Ok tt end)
              end
          | _, _ => mret (Ok tt)
          end
  end.

(** *** The start *)

Definition compare_exchange (u : UpdateState) : UpdateState * bool :=
  if in_progress u then (u, false) else (set_in_progress true u, true).

Definition is_running (e : UpdateExecution) : Prop := update_status e = UpdateRunning.
#[export] Instance is_running_dec e : Decision (is_running e) := decide (update_status e = UpdateRunning).

Definition any_running (u : UpdateState) : bool :=
  existsb (fun kv => bool_decide (is_running kv.2)) (map_to_list (executions u)).

(** The execution is entered and its task spawned. *)
Definition accept (now : Moment) (mode : ExecutionMode) (u : UpdateState) : UpdateState * string :=
  let id := uuid_text (new_v4 now) in
  ({| in_progress := in_progress u;
      executions := <[id := {| execution_id := id; mode := mode; update_status := UpdateRunning |}]>
                      (filter (fun kv => is_running kv.2) (executions u));
      task := Some (Executing id mode) |}, id).

Definition refuse (e : RuntimeUpdateError) : starting (result RuntimeUpdateError string) :=
  _ ← locked (fun _ u => (set_in_progress false u, tt));
  mret (Err e).

Definition check_backup (mode : ExecutionMode) : starting (result RuntimeUpdateError ()) :=
  match mode with
  | Rollback =>
      is_empty ← ask_start IsBackupEmpty;
      mret (match (is_empty : result _ bool) with Ok true => Err NoBackup | Ok false => Ok tt | Err e => Err e end)
  | _ => mret (Ok tt)
  end.

Definition start_execution (mode : ExecutionMode) : starting (result RuntimeUpdateError string) :=
  won ← locked (fun _ => compare_exchange);
  if negb won then mret (Err ExecutionConflict)
  else
    pending ← ask_start (GetCollection DiagnosticDatabaseNextUpdate);
    current ← ask_start (GetCollection DiagnosticDatabase);
    allowed ← check_apply_allowed pending current;
    match allowed with
    | Err e => refuse e
    | Ok _ =>
        has_running ← locked (fun _ u => (u, any_running u));
        if (has_running : bool) then refuse ExecutionConflict
        else
          backup ← check_backup mode;
          match backup with
          | Err e => refuse e
          | Ok _ =>
              match mode, (pending : option C) with
              | Apply, None => refuse NoPendingUpdate
              | _, _ => id ← locked (fun now u => accept now mode u); mret (Ok id)
              end
          end
    end.

(** *** The task *)

Definition note_result (id : string) (ok : bool) (u : UpdateState) : UpdateState :=
  {| in_progress := in_progress u;
     executions := alter (fun e => {| execution_id := execution_id e; mode := mode e;
                                      update_status := if ok then UpdateCompleted else UpdateFailed |}) id (executions u);
     task := Some Noted |}.

Definition finish (u : UpdateState) : UpdateState :=
  {| in_progress := false; executions := executions u; task := None |}.

Definition get_execution_status (execution_id : string) (u : UpdateState) : option UpdateExecution :=
  executions u !! execution_id.
End start.

(** ** The routes *)

(** [require_vehicle_lock]. *)
Definition require_vehicle_lock (s : State) (sub : string) : result RuntimeUpdateError () :=
  match vehicle (locks s) with
  | None => Err NoLock
  | Some l => if bool_decide (owner l = sub) then Ok tt else Err NoLock
  end.

(** [SovdLockStateProvider]. *)
Definition vehicle_lock_owner_sub (s : State) : option string := owner <$> vehicle (locks s).
Definition has_non_vehicle_locks (s : State) : bool :=
  is_any_locked (ecu (locks s)) || is_any_locked (functional_group (locks s)).

Inductive Method : Type := GET | POST | PUT | DELETE.
#[export] Instance Method_eq_dec : EqDecision Method.
Proof. solve_decision. Defined.

Record ExemptRoute : Type := { prefix : string; methods : list Method }.

(** [UpdateGuardService::call]: whether a request goes on to its handler. *)
Definition update_guard_call (busy : bool) (exempt_routes : list ExemptRoute) (method : Method) (uri_path : string) : bool :=
  if busy then
    existsb (fun exempt => String.prefix (prefix exempt) uri_path && bool_decide (method ∈ methods exempt)) exempt_routes
  else true.

Definition EXECUTIONS_ROUTE : string := "/vehicle/v15/apps/sovd2uds/operations/runtimefilesupdate/executions".
Definition update_exempt_routes : list ExemptRoute := [{| prefix := EXECUTIONS_ROUTE; methods := [GET] |}].

(** ** Interfaces *)

(** The file transfers: a transfer starts only while no update is in progress. *)
Class FlashTransfers (G : Type) : Type := {
  transfers_active : G -> bool;
  (** a step while the flag has this value *)
  transfers_step : bool -> G -> G -> Prop
}.

Class FlashTransfersOk (G : Type) `{!FlashTransfers G} : Prop :=
  quiet_transfers g g' : transfers_step true g g' -> transfers_active g = false -> transfers_active g' = false.

(** ** The system *)

Section system.
Context {ext : Externals} (to_string : spec_float -> str) {ComParamValue : Type}.
Context (parse_str : string -> option Uuid) (uuid_text : Uuid -> string).
Context {G : Type} `{!FlashTransfers G} {C : Type}.
(** The routes that are exempt from the update guard. *)
Context (exempt_routes : list ExemptRoute).

Abbreviation tables_of := (EcuTables (ComParamValue := ComParamValue)).
Abbreviation handler_task :=
  (async (ecu_answer (ComParamValue := ComParamValue)) Moment tables_of (HttpResponse (ComParamValue := ComParamValue))).
Abbreviation start_task := (async (start_answer (C := C)) Moment UpdateState (result RuntimeUpdateError string)).

(** [ecu_tables] are the tables of all ECU routes ever built; [registry] are
    those of the routes in use.  A handler keeps the tables of its route. *)
Record System : Type := {
  ecu_tables : gmap nat tables_of;
  registry : list nat;
  handlers : gmap nat (nat * handler_task);
  transfers : G;
  update : UpdateState;
  starters : gmap nat start_task;
  sovd_locks : State
}.

Definition set_tables (t : gmap nat tables_of) (h : gmap nat (nat * handler_task)) (s : System) : System :=
  {| ecu_tables := t; registry := registry s; handlers := h; transfers := transfers s; update := update s;
     starters := starters s; sovd_locks := sovd_locks s |}.
Definition set_handlers (h : gmap nat (nat * handler_task)) (s : System) : System := set_tables (ecu_tables s) h s.
Definition set_transfers (g : G) (s : System) : System :=
  {| ecu_tables := ecu_tables s; registry := registry s; handlers := handlers s; transfers := g; update := update s;
     starters := starters s; sovd_locks := sovd_locks s |}.
Definition set_update (u : UpdateState) (st : gmap nat start_task) (s : System) : System :=
  {| ecu_tables := ecu_tables s; registry := registry s; handlers := handlers s; transfers := transfers s; update := u;
     starters := st; sovd_locks := sovd_locks s |}.
Definition set_locks (l : State) (s : System) : System :=
  {| ecu_tables := ecu_tables s; registry := registry s; handlers := handlers s; transfers := transfers s;
     update := update s; starters := starters s; sovd_locks := l |}.

Definition no_tables : tables_of := {| comparam_executions := []; service_executions := ∅ |}.

(** New routes: [n] of them, with empty tables. *)
Definition install (new : list nat) (s : System) : System :=
  {| ecu_tables := list_to_map ((fun l => (l, no_tables)) <$> new) ∪ ecu_tables s; registry := new; handlers := handlers s;
     transfers := transfers s; update := update s; starters := starters s; sovd_locks := sovd_locks s |}.

(** What a start may be told in a state. *)
Definition truthful (s : System) (q : start_question) : start_answer (C := C) q -> Prop :=
  match q with
  | VehicleLockOwnerSub => fun r => r = vehicle_lock_owner_sub (sovd_locks s)
  | HasNonVehicleLocks => fun r => r = has_non_vehicle_locks (sovd_locks s)
  | TransfersActive => fun r => r = false -> transfers_active (transfers s) = false
  | TryReadRegistry => fun r => r = None \/ r = Some (registry s)
  | ComparamsActive l => fun r => r = false -> forall t, ecu_tables s !! l = Some t -> comparam_executions t = []
  | ServicesActive l => fun r => r = false -> forall t, ecu_tables s !! l = Some t -> quiet_in (service_executions t)
  | _ => fun _ => True
  end.

Inductive system_step : System -> System -> Prop :=
  (** a request passes the update guard *)
  | request_arrives s i l ecu_name method uri_path r :
      update_guard_call (in_progress (update s)) exempt_routes method uri_path = true ->
      handlers s !! i = None -> is_Some (ecu_tables s !! l) ->
      system_step s (set_handlers (<[i := (l, handle to_string parse_str uuid_text ecu_name r)]> (handlers s)) s)
  | handler_section s i l m now t t' m' :
      handlers s !! i = Some (l, m) -> ecu_tables s !! l = Some t ->
      update_in_progress now = in_progress (update s) -> lock_state now = sovd_locks s -> fresh now t ->
      section m now t = Some (t', m') ->
      system_step s (set_tables (<[l := t']> (ecu_tables s)) (<[i := (l, m')]> (handlers s)) s)
  | handler_answered s i l m m' :
      handlers s !! i = Some (l, m) -> answered m m' -> system_step s (set_handlers (<[i := (l, m')]> (handlers s)) s)
  (** it has answered, it has panicked or it was dropped *)
  | handler_gone s i : system_step s (set_handlers (delete i (handlers s)) s)
  | locks_change s l : system_step s (set_locks l s)
  | transfers_move s g : transfers_step (in_progress (update s)) (transfers s) g -> system_step s (set_transfers g s)
  | update_requested s i mode : starters s !! i = None ->
      system_step s (set_update (update s) (<[i := start_execution uuid_text mode]> (starters s)) s)
  | start_section s i m now u' m' :
      starters s !! i = Some m -> lock_state now = sovd_locks s ->
      section m now (update s) = Some (u', m') ->
      system_step s (set_update u' (<[i := m']> (starters s)) s)
  | start_told s i q k r :
      starters s !! i = Some (Await q k) -> truthful s q r ->
      system_step s (set_update (update s) (<[i := k r]> (starters s)) s)
  | start_gone s i : system_step s (set_update (update s) (delete i (starters s)) s)
  (** the task *)
  | update_reloads s id mode new :
      task (update s) = Some (Executing id mode) -> Forall (fun l => ecu_tables s !! l = None) new ->
      system_step s (install new s)
  | update_noted s id mode ok :
      task (update s) = Some (Executing id mode) -> system_step s (set_update (note_result id ok (update s)) (starters s) s)
  | update_finishes s : task (update s) = Some Noted -> system_step s (set_update (finish (update s)) (starters s) s)
  | update_panics s id mode : task (update s) = Some (Executing id mode) ->
      system_step s (set_update {| in_progress := in_progress (update s); executions := executions (update s); task := None |} (starters s) s).

(** The server after its start: routes with empty tables. *)
Definition started (s : System) : Prop :=
  ecu_tables s = list_to_map ((fun l => (l, no_tables)) <$> registry s) /\ handlers s = ∅ /\ starters s = ∅ /\
  update s = {| in_progress := false; executions := ∅; task := None |}.

Definition reachable (s : System) : Prop := exists s0, started s0 /\ rtc system_step s0 s.
End system.
