(* ===== verification/UpdateSafety.v ===== *)
(** * Updates run alone

    The invariants of the system of UpdateGuard.v: handlers that wait for an
    ECU have an execution of their own in flight; a start that has set the flag
    knows what it has found quiet, and it stays quiet.  Hence an accepted
    update never runs together with an operation or a transfer. *)

From stdpp Require Import strings gmap.
From stdpp Require Import list.
From S2P Require Import Prelude StorageTypes Text Ieee754 Json Naming RuntimeUpdate Locks SovdApi Async Executions EcuOperations ExecutionSlots UpdateGuard.

Local Open Scope Z_scope.
Set Warnings "-register-all".

(** ** What a start knows *)

(** What the holder of the flag may have found. *)
Inductive fact : Type :=
  | QuietTransfers
  | InUse (tables : list nat)
  | QuietComparams (table : nat)
  | QuietServices (table : nat).

Definition all_quiet (known : fact -> Prop) : Prop :=
  known QuietTransfers /\ exists ls, known (InUse ls) /\ forall l, l ∈ ls -> known (QuietComparams l) /\ known (QuietServices l).

Section start.
Context {C : Type} (uuid_text : Uuid -> string).

Abbreviation start_async := (async (start_answer (C := C)) Moment UpdateState).

Definition learns (q : start_question) : start_answer (C := C) q -> fact -> Prop :=
  match q with
  | TransfersActive => fun r x => r = false /\ x = QuietTransfers
  | TryReadRegistry => fun r x => exists ls, r = Some ls /\ x = InUse ls
  | ComparamsActive l => fun r x => r = false /\ x = QuietComparams l
  | ServicesActive l => fun r x => r = false /\ x = QuietServices l
  | _ => fun _ _ => False
  end.

Definition nothing (x : fact) : Prop := False.

(** A section of a start takes the flag when it is free, gives it back, or
    hands it to the task it spawns, for which everything has to be quiet. *)
Definition start_moves (now : Moment) (holds holds' : bool) (known known' : fact -> Prop) (u u' : UpdateState) : Prop :=
  (u' = u /\ holds' = holds /\ known' = known) \/
  (holds = false /\ in_progress u = false /\ u' = set_in_progress true u /\ holds' = true /\ known' = nothing) \/
  (holds = true /\ u' = set_in_progress false u /\ holds' = false) \/
  (holds = true /\ all_quiet known /\ (exists mode, u' = (accept uuid_text now mode u).1) /\ holds' = false).

Fixpoint checked {A} (holds : bool) (known : fact -> Prop) (m : start_async A)
    (post : bool -> (fact -> Prop) -> A -> Prop) : Prop :=
  match m with
  | Return a => post holds known a
  | Panics => True
  | Await q k => forall r, checked holds (fun x => known x \/ learns q r x) (k r) post
  | Locked f => forall now u, let '(u', m') := f now u in
      exists holds' known', start_moves now holds holds' known known' u u' /\ checked holds' known' m' post
  end.

Lemma checked_mono {A} holds known (m : start_async A) (P R : bool -> (fact -> Prop) -> A -> Prop) :
  checked holds known m P -> (forall h k a, P h k a -> R h k a) -> checked holds known m R.
Proof.
  intros Hm HR. revert holds known Hm. induction m as [a| |q f IH|f IH] using async_induction; intros holds known Hm; cbn in *;
    [by apply HR|done|naive_solver|].
  intros now u. specialize (Hm now u). specialize (IH now u). destruct (f now u) as [u' m']. naive_solver.
Qed.

Lemma checked_bind {A B} holds known (m : start_async A) (k : A -> start_async B) post :
  checked holds known m (fun h kn a => checked h kn (k a) post) -> checked holds known (m ≫= k) post.
Proof.
  unfold mbind, async_mbind. revert holds known.
  induction m as [a| |q f IH|f IH] using async_induction; intros holds known Hm; cbn in *; [done|done|naive_solver|].
  intros now u. specialize (Hm now u). specialize (IH now u). destruct (f now u) as [u' m']. naive_solver.
Qed.

Lemma checked_ask holds known q (post : bool -> (fact -> Prop) -> start_answer (C := C) q -> Prop) :
  (forall r, post holds (fun x => known x \/ learns q r x) r) -> checked holds known (ask_start q) post.
Proof. intros H r. apply H. Qed.

Lemma checked_locked {A} holds known (f : Moment -> UpdateState -> UpdateState * A) post :
  (forall now u, exists holds' known', start_moves now holds holds' known known' u (f now u).1 /\ post holds' known' (f now u).2) ->
  checked holds known (locked f) post.
Proof. intros H now u. specialize (H now u). by destruct (f now u). Qed.

(** What a check leaves known. *)
Definition more (known known' : fact -> Prop) : Prop := forall x, known x -> known' x.

Lemma checked_any (q : nat -> start_async bool) (found : nat -> fact) :
  (forall l known post, (forall r, post true (fun x => known x \/ (r = false /\ x = found l)) r) -> checked true known (q l) post) ->
  forall ls known, checked true known (any q ls) (fun h known' r =>
    h = true /\ more known known' /\ (r = false -> forall l, l ∈ ls -> known' (found l))).
Proof.
  intros Hq ls. induction ls as [|l ls IH]; intros known; cbn [any].
  - split; [done|split; [by intros x|]]. intros _ l Hl. by apply not_elem_of_nil in Hl.
  - apply checked_bind, Hq. intros [|].
    + split; [done|split; [|done]]. intros x Hx. by left.
    + eapply checked_mono; [apply IH|]. intros h known' r (-> & Hmore & Hr). split; [done|split].
      * intros x Hx. apply Hmore. by left.
      * intros -> l' [->|Hl]%elem_of_cons; [|by apply Hr]. apply Hmore. by right.
Qed.

Lemma registry_checked known : known QuietTransfers ->
  checked true known registry_active (fun h known' r => h = true /\ (r = false -> all_quiet known')).
Proof.
  intros Ht. apply checked_bind, checked_ask. intros [ls|]; [|done]. apply checked_bind.
  eapply checked_mono; [apply (checked_any _ QuietComparams)|].
  { intros l kn post Hp. apply checked_ask. intros r. apply Hp. }
  intros h k1 [|] (-> & Hmore1 & Hc); [done|].
  eapply checked_mono; [apply (checked_any _ QuietServices)|].
  { intros l kn post Hp. apply checked_ask. intros r. apply Hp. }
  intros h k2 r (-> & Hmore2 & Hs). split; [done|]. intros ->. split; [by apply Hmore2, Hmore1; left|].
  exists ls. split; [apply Hmore2, Hmore1; right; by exists ls|]. intros l Hl. split; [by apply Hmore2, Hc|by apply Hs].
Qed.

Lemma allowed_checked known pending current :
  checked true known (check_apply_allowed pending current) (fun h known' r => h = true /\ (is_ok r = true -> all_quiet known')).
Proof.
  apply checked_bind, checked_ask. intros [owner|]; [|done]. apply checked_bind, checked_ask. intros [|]; [done|].
  apply checked_bind. unfold guard_active.
  apply checked_mono with (fun h known' r => h = true /\ (r = false -> all_quiet known')).
  { apply checked_bind, checked_ask. intros [|]; [done|]. apply registry_checked. by right. }
  intros h k1 [|] [-> Hq]; [done|]. specialize (Hq eq_refl).
  assert (Hgrow : forall (r : fact -> Prop), all_quiet (fun x => k1 x \/ r x)).
  { intros r. destruct Hq as (Ht & ls & Hls & Hl). split; [by left|]. exists ls. split; [by left|].
    intros l Hin. destruct (Hl l Hin). auto. }
  destruct pending as [p|]; [|done]. destruct current as [c|]; [|done]. apply checked_bind, checked_ask.
  intros [pe|e]; [|done]. apply checked_bind, checked_ask. intros [ce|e]; [|done]. split; [done|]. intros _.
  destruct (Hgrow (learns (MddEcuNames p) (Ok pe))) as (Ht & ls & Hls & Hl). split; [by left|]. exists ls.
  split; [by left|]. intros l Hin. destruct (Hl l Hin). auto.
Qed.

Lemma refuse_checked known e post : (forall r, post false nothing r) -> checked true known (refuse e) post.
Proof.
  intros Hp. apply checked_bind, checked_locked. intros now u. exists false, nothing. split; [|apply Hp]. right. right. by left.
Qed.

Abbreviation anything := (fun _ _ _ => True).

Lemma start_checked known mode : checked false known (start_execution uuid_text mode) anything.
Proof.
  apply checked_bind, checked_locked. intros now u. unfold compare_exchange. destruct (in_progress u) eqn:Hu.
  { exists false, known. split; [by left|done]. }
  exists true, nothing. split; [right; left; done|]. cbn [snd negb].
  apply checked_bind, checked_ask. intros pending. apply checked_bind, checked_ask. intros current.
  apply checked_bind. eapply checked_mono; [apply allowed_checked|].
  intros h k1 [[]|e] [-> Hq]; [|by apply refuse_checked]. specialize (Hq eq_refl). apply checked_bind, checked_locked.
  intros now' u1. exists true, k1. split; [by left|]. cbn [snd]. destruct (any_running u1); [by apply refuse_checked|].
  apply checked_bind.
  assert (Haccept : forall k2 m, more k1 k2 -> checked true k2
      (id ← locked (fun now u => accept uuid_text now m u); (mret (Ok id) : start_async (result RuntimeUpdateError string))) anything).
  { intros k2 m Hm. apply checked_bind, checked_locked. intros now'' u2. exists false, nothing. split; [|done].
    right. right. right. split; [done|split; [|split; [by exists m|done]]].
    destruct Hq as (Ht & ls & Hls & Hl). split; [by apply Hm|]. exists ls. split; [by apply Hm|].
    intros l Hin. destruct (Hl l Hin). split; by apply Hm. }
  destruct mode; cbn [check_backup].
  - destruct pending; [apply Haccept; by intros x|by apply refuse_checked].
  - apply checked_bind, checked_ask. intros [[|]|e]; [by apply refuse_checked| |by apply refuse_checked].
    apply Haccept. intros x Hx. by left.
  - apply Haccept; by intros x.
Qed.
End start.

(** ** The invariants *)

Section system.
Context {ext : Externals} (to_string : spec_float -> str) {ComParamValue : Type}.
Context (parse_str : string -> option Uuid) (uuid_text : Uuid -> string).
Context {G : Type} `{!FlashTransfers G} `{!FlashTransfersOk G} {C : Type}.
Context (exempt_routes : list ExemptRoute).

Abbreviation system := (System (ComParamValue := ComParamValue) (G := G) (C := C)).
Abbreviation on_slot := (tracked (answer := ecu_answer (ComParamValue := ComParamValue)) held is_operation fresh keeps_quiet).
Abbreviation step := (system_step to_string parse_str uuid_text exempt_routes).
Implicit Types s : system.

(** Every handler has its own slot, if any. *)
Definition slots_ok s : Prop := exists own : nat -> option (string * Uuid),
  (forall i l m, handlers s !! i = Some (l, m) -> on_slot (own i) m (fun _ _ => True) /\
    exists t, ecu_tables s !! l = Some t /\ forall sl, own i = Some sl -> held t sl) /\
  (forall i j l mi mj sl, handlers s !! i = Some (l, mi) -> handlers s !! j = Some (l, mj) ->
    own i = Some sl -> own j = Some sl -> i = j).

Definition certain s (x : fact) : Prop :=
  match x with
  | QuietTransfers => transfers_active (transfers s) = false
  | InUse ls => registry s = ls
  | QuietComparams l => forall t, ecu_tables s !! l = Some t -> comparam_executions t = []
  | QuietServices l => forall t, ecu_tables s !! l = Some t -> quiet_in (service_executions t)
  end.

Definition quiet s : Prop :=
  transfers_active (transfers s) = false /\
  forall l t, l ∈ registry s -> ecu_tables s !! l = Some t ->
    comparam_executions t = [] /\ quiet_in (service_executions t).

Definition none_running (u : UpdateState) : Prop := forall id e, executions u !! id = Some e -> ~ is_running e.

(** The start that has the flag, and what it has found. *)
Definition holder_ok s (holder : option nat) (known : fact -> Prop) : Prop :=
  (forall i m, starters s !! i = Some m ->
    if decide (holder = Some i) then checked uuid_text true known m (fun _ _ _ => True)
    else exists k, checked uuid_text false k m (fun _ _ _ => True)) /\
  (is_Some holder -> in_progress (update s) = true /\ task (update s) = None /\ none_running (update s) /\
    forall x, known x -> certain s x).

Definition task_ok s : Prop :=
  match task (update s) with
  | None => True
  | Some (Executing id mode) =>
      in_progress (update s) = true /\ quiet s /\ exists e, executions (update s) !! id = Some e /\ is_running e
  | Some Noted => in_progress (update s) = true /\ none_running (update s)
  end.

Definition one_running (u : UpdateState) : Prop := forall id1 id2 e1 e2,
  executions u !! id1 = Some e1 -> executions u !! id2 = Some e2 -> is_running e1 -> is_running e2 -> id1 = id2.

Record updates_ok s : Prop := {
  ok_holder : exists holder known, holder_ok s holder known;
  ok_task : task_ok s;
  ok_free : in_progress (update s) = false -> none_running (update s);
  ok_one : one_running (update s)
}.

Lemma quiet_certain s known : (forall x, known x -> certain s x) -> all_quiet known -> quiet s.
Proof.
  intros Hc (Ht & ls & Hls & Hl). split; [by apply (Hc QuietTransfers)|].
  apply Hc in Hls. cbn in Hls. intros l t Hin Hlt. rewrite Hls in Hin. destruct (Hl l Hin) as [H1 H2].
  split; [by apply (Hc _ H1)|by apply (Hc _ H2)].
Qed.

(** *** Handlers *)

Lemma slots_section s i l m now t t' m' :
  slots_ok s -> handlers s !! i = Some (l, m) -> ecu_tables s !! l = Some t -> fresh now t ->
  section m now t = Some (t', m') ->
  slots_ok (set_tables (<[l := t']> (ecu_tables s)) (<[i := (l, m')]> (handlers s)) s) /\ keeps_quiet now t t'.
Proof.
  intros (own & Hown & Hdist) Hi Hl Hf Hm. destruct m as [| | |f]; try done. injection Hm as Hm.
  destruct (Hown _ _ _ Hi) as [Htr (t0 & Ht0 & Hheld)]. rewrite Hl in Ht0. injection Ht0 as <-.
  specialize (Htr now t Hf Hheld). rewrite Hm in Htr. destruct Htr as (own' & (Hnew & Hothers & Hq) & Htr).
  split; [|done]. exists (fun j => if decide (j = i) then own' else own j). cbn.
  assert (Hsep : forall j mj sl, j <> i -> handlers s !! j = Some (l, mj) -> own j = Some sl -> held t sl /\ own i <> Some sl).
  { intros j mj sl Hne Hj Ho. split; [|intros Hoi; apply Hne; by eapply Hdist].
    destruct (Hown _ _ _ Hj) as [_ (t1 & Ht1 & H1)]. rewrite Hl in Ht1. injection Ht1 as <-. by apply H1. }
  assert (Hnot : forall j mj sl, j <> i -> handlers s !! j = Some (l, mj) -> own' = Some sl -> own j = Some sl -> False).
  { intros j mj sl Hne Hj Ho Hoj. destruct (Hsep j mj sl Hne Hj Hoj) as [Hh Hn].
    destruct (Hnew sl Ho) as [_ [H|H]]; [by apply Hn|by apply H]. }
  split.
  - intros j lj mj [[<- [= <- <-]]|[Hne Hj]]%lookup_insert_Some.
    + rewrite decide_True by done. split; [done|]. exists t'. rewrite lookup_insert_eq. split; [done|].
      intros sl Hsl. by apply Hnew.
    + rewrite decide_False by done. destruct (Hown _ _ _ Hj) as [Hjt (tj & Htj & Hjh)]. split; [done|].
      destruct (decide (l = lj)) as [<-|Hlj]; [|exists tj; by rewrite lookup_insert_ne].
      exists t'. rewrite lookup_insert_eq. split; [done|]. intros sl Hsl.
      destruct (Hsep j mj sl (not_eq_sym Hne) Hj Hsl). by apply Hothers.
  - intros j k lj mj mk sl [[<- Ej]|[Hj' Hj]]%lookup_insert_Some [[<- Ek]|[Hk' Hk]]%lookup_insert_Some; simplify_eq;
      repeat case_decide; try congruence; intros H1 H2;
      [exfalso; by eapply (Hnot k)|exfalso; by eapply (Hnot j)|by eapply Hdist].
Qed.

Lemma slots_arrive s i l ecu_name r :
  slots_ok s -> handlers s !! i = None -> is_Some (ecu_tables s !! l) ->
  slots_ok (set_handlers (<[i := (l, handle to_string parse_str uuid_text ecu_name r)]> (handlers s)) s).
Proof.
  intros (own & Hown & Hdist) Hi [t Ht]. exists (fun j => if decide (j = i) then None else own j). cbn. split.
  - intros j lj mj [[<- [= <- <-]]|[Hne Hj]]%lookup_insert_Some; [|rewrite decide_False by done; by apply Hown].
    rewrite decide_True by done. split; [apply handle_tracked|]. by exists t.
  - intros j k lj mj mk sl [[<- Ej]|[Hj' Hj]]%lookup_insert_Some [[<- Ek]|[Hk' Hk]]%lookup_insert_Some; simplify_eq;
      repeat case_decide; try congruence. by eapply Hdist.
Qed.

Lemma slots_answered s i l m m' :
  slots_ok s -> handlers s !! i = Some (l, m) -> answered m m' -> slots_ok (set_handlers (<[i := (l, m')]> (handlers s)) s).
Proof.
  intros (own & Hown & Hdist) Hi Ha. destruct m as [| |q k|]; try done. destruct Ha as [r ->]. exists own. cbn. split.
  - intros j lj mj [[<- [= <- <-]]|[Hne Hj]]%lookup_insert_Some; [|by apply Hown].
    destruct (Hown _ _ _ Hi) as [[_ Htr] H]. split; [apply Htr|done].
  - intros j k' lj mj mk sl [[<- Ej]|[Hj' Hj]]%lookup_insert_Some [[<- Ek]|[Hk' Hk]]%lookup_insert_Some; simplify_eq;
      intros H1 H2; try done; by eapply Hdist.
Qed.

Lemma slots_gone s i : slots_ok s -> slots_ok (set_handlers (delete i (handlers s)) s).
Proof.
  intros (own & Hown & Hdist). exists own. cbn. split.
  - intros j lj mj [_ Hj]%lookup_delete_Some. by apply Hown.
  - intros j k lj mj mk sl [_ Hj]%lookup_delete_Some [_ Hk]%lookup_delete_Some. by eapply Hdist.
Qed.

(** More tables, other locks, another update: what the handlers hold stays. *)
Lemma slots_same s s' : slots_ok s -> handlers s' = handlers s ->
  (forall l t, ecu_tables s !! l = Some t -> ecu_tables s' !! l = Some t) -> slots_ok s'.
Proof.
  intros (own & Hown & Hdist) Hh Ht. exists own. rewrite Hh. split; [|done]. intros i l m Hi.
  destruct (Hown i l m Hi) as [Htr (t & Hl & Hs)]. split; [done|]. exists t. split; [by apply Ht|done].
Qed.

Lemma install_tables new s l t : Forall (fun l => ecu_tables s !! l = None) new ->
  ecu_tables s !! l = Some t -> ecu_tables (install new s) !! l = Some t.
Proof.
  intros Hnew Hl. cbn. rewrite lookup_union_r; [done|]. apply not_elem_of_list_to_map. rewrite <- list_fmap_compose.
  intros Hin. rewrite Forall_forall in Hnew. apply list_elem_of_fmap in Hin as (l' & -> & Hin). cbn in *. apply Hnew in Hin. congruence.
Qed.

Lemma step_slots s s' : step s s' -> slots_ok s -> slots_ok s'.
Proof.
  intros Hs. destruct Hs; intros Hok; try (by eapply slots_same); try (by eapply slots_same; [done|done|intros; by apply install_tables]).
  - by apply slots_arrive.
  - by eapply slots_section.
  - by eapply slots_answered.
  - by apply slots_gone.
Qed.
(** *** Updates *)

(** What was quiet stays quiet. *)
Definition calms s s' : Prop :=
  registry s' = registry s /\ (transfers_active (transfers s) = false -> transfers_active (transfers s') = false) /\
  forall l t', ecu_tables s' !! l = Some t' -> exists t, ecu_tables s !! l = Some t /\
    (comparam_executions t = [] -> comparam_executions t' = []) /\
    (quiet_in (service_executions t) -> quiet_in (service_executions t')).

Lemma calms_certain s s' x : calms s s' -> certain s x -> certain s' x.
Proof.
  intros (Hr & Ht & Hl). destruct x; cbn.
  - done.
  - by rewrite Hr.
  - intros H t' Ht'. destruct (Hl _ _ Ht') as (t & Hlt & Hc & _). by eapply Hc, H.
  - intros H t' Ht'. destruct (Hl _ _ Ht') as (t & Hlt & _ & Hs). by eapply Hs, H.
Qed.

Lemma calms_quiet s s' : calms s s' -> quiet s -> quiet s'.
Proof.
  intros (Hr & Ht & Hl) [Hq1 Hq2]. split; [by apply Ht|]. rewrite Hr. intros l t' Hin Ht'.
  destruct (Hl _ _ Ht') as (t & Hlt & Hc & Hs). destruct (Hq2 l t Hin Hlt). auto.
Qed.

Lemma updates_calm s s' : updates_ok s -> update s' = update s -> starters s' = starters s ->
  (in_progress (update s) = true -> calms s s') -> updates_ok s'.
Proof.
  intros [(holder & known & Hst & Hh) Ht Hf H1] Hu Hs Hc. split; [| |by rewrite Hu|by rewrite Hu].
  - exists holder, known. split; [by rewrite Hs|]. rewrite Hu. intros Hsome. destruct (Hh Hsome) as (Hp & Hn & Hr & Hk).
    split_and!; try done. intros x Hx. eapply calms_certain; [by apply Hc|by apply Hk].
  - unfold task_ok in *. rewrite Hu. destruct (task (update s)) as [[id mode|]|]; [|done|done].
    destruct Ht as (Hp & Hq & He). split_and!; try done. eapply calms_quiet; [by apply Hc|done].
Qed.

Lemma calms_section s h l now t t' : ecu_tables s !! l = Some t -> keeps_quiet now t t' ->
  update_in_progress now = true -> calms s (set_tables (<[l := t']> (ecu_tables s)) h s).
Proof.
  intros Hl Hq Hu. split; [done|split; [done|]]. cbn.
  intros l' t1 [[<- <-]|[Hne Ht1]]%lookup_insert_Some; [exists t; by destruct (Hq Hu)|by exists t1].
Qed.

Lemma calms_same s s' : registry s' = registry s -> transfers s' = transfers s -> ecu_tables s' = ecu_tables s -> calms s s'.
Proof. intros Hr Ht He. split; [done|split; [by rewrite Ht|]]. rewrite He. intros l t Hl. by exists t. Qed.

(** The task ends the only execution that runs. *)
Lemma noted_none u id ok e : one_running u -> executions u !! id = Some e -> is_running e -> none_running (note_result id ok u).
Proof.
  intros H1 He Hr id' e' He' Hr'. cbn in He'. apply lookup_alter_Some in He' as [[<- (e0 & He0 & ->)]|[Hne He']].
  - by destruct ok.
  - apply Hne. by eapply H1.
Qed.

Lemma none_one u : none_running u -> one_running u.
Proof. intros Hn id1 id2 e1 e2 H1 H2 R1 R2. by destruct (Hn id1 e1 H1). Qed.

Lemma accepted_running now mode u id e : none_running u ->
  executions (accept uuid_text now mode u).1 !! id = Some e -> is_running e -> id = uuid_text (new_v4 now).
Proof.
  intros Hn He Hr. cbn in He. apply lookup_insert_Some in He as [[<- _]|[_ He]]; [done|].
  apply map_lookup_filter_Some in He as [He _]. by destruct (Hn id e He).
Qed.

Definition starters_ok (st : gmap nat (async (start_answer (C := C)) Moment UpdateState (result RuntimeUpdateError string)))
    (holder : option nat) (known : fact -> Prop) : Prop :=
  forall i m, st !! i = Some m ->
    if decide (holder = Some i) then checked uuid_text true known m (fun _ _ _ => True)
    else exists k, checked uuid_text false k m (fun _ _ _ => True).

(** The flag changes hands between [i] and nobody. *)
Lemma starters_set st holder holder' known known' i m :
  starters_ok st holder known ->
  (holder' = holder /\ (holder <> Some i -> known' = known) \/ holder = Some i /\ holder' = None \/ holder = None /\ holder' = Some i) ->
  (if decide (holder' = Some i) then checked uuid_text true known' m (fun _ _ _ => True)
   else exists k, checked uuid_text false k m (fun _ _ _ => True)) ->
  starters_ok (<[i := m]> st) holder' known'.
Proof.
  intros Hst Hcase Hm j mj [[<- <-]|[Hne Hj]]%lookup_insert_Some; [done|]. specialize (Hst j mj Hj).
  destruct Hcase as [[-> Hk]|[[-> ->]|[-> ->]]].
  - destruct (decide (holder = Some j)) as [->|]; [|done]. rewrite Hk; [done|congruence].
  - rewrite decide_False in Hst by congruence. by rewrite decide_False by congruence.
  - rewrite decide_False in Hst by congruence. by rewrite decide_False by congruence.
Qed.

Lemma updates_same_u s st holder known : updates_ok s ->
  starters_ok st holder known ->
  (is_Some holder -> in_progress (update s) = true /\ task (update s) = None /\ none_running (update s) /\
    forall x, known x -> certain s x) ->
  updates_ok (set_update (update s) st s).
Proof. intros [_ Ht Hf H1] Hst Hh. split; [|done|done|done]. by exists holder, known. Qed.

Lemma start_section_ok s i m now u' m' : updates_ok s -> starters s !! i = Some m ->
  section m now (update s) = Some (u', m') -> updates_ok (set_update u' (<[i := m']> (starters s)) s).
Proof.
  intros Hok Hi Hm. destruct m as [| | |f]; try done. injection Hm as Hm.
  pose proof Hok as [(holder & known & Hst & Hh) Ht Hf H1]. pose proof (Hst i _ Hi) as Hc.
  destruct (decide (holder = Some i)) as [->|Hne].
  - specialize (Hc now (update s)). rewrite Hm in Hc. destruct Hc as (h & k & Hmv & Hc).
    destruct (Hh ltac:(by eexists)) as (Hp & Hn & Hr & Hk).
    destruct Hmv as [(-> & -> & ->)|[(? & _)|[(_ & -> & ->)|(_ & Hall & (mode & ->) & ->)]]]; [|done| |].
    + eapply updates_same_u; [done| |done]. eapply starters_set; [done|by left|]. by rewrite decide_True.
    + split; cbn; [|unfold task_ok; cbn; by rewrite Hn|done|by apply none_one].
      exists None, nothing. split; [|by intros [? [=]]]. eapply starters_set; [done|by right; left|]. by exists k.
    + split; cbn [set_update update starters].
      * exists None, nothing. split; [|by intros [? [=]]]. eapply starters_set; [done|by right; left|]. by exists k.
      * unfold task_ok. cbn. split_and!; [done|by eapply quiet_certain|]. eexists. by rewrite lookup_insert_eq.
      * cbn. congruence.
      * intros id1 id2 e1 e2 E1 E2 R1 R2. apply accepted_running in E1, E2; [congruence|done..].
  - destruct Hc as [k0 Hc]. specialize (Hc now (update s)). rewrite Hm in Hc. destruct Hc as (h & k & Hmv & Hc).
    destruct Hmv as [(-> & -> & ->)|[(_ & Hfree & -> & -> & ->)|[(? & _)|(? & _)]]]; [| |done|done].
    + eapply updates_same_u; [done| |done]. eapply starters_set; [done|by left|]. rewrite decide_False by done. by exists k0.
    + assert (holder = None) as ->.
      { destruct holder as [j|]; [|done]. destruct (Hh ltac:(by eexists)) as [Hp _]. congruence. }
      assert (Hn : task (update s) = None).
      { unfold task_ok in Ht. destruct (task (update s)) as [[]|]; [| |done]; destruct Ht; congruence. }
      split; cbn; [|unfold task_ok; cbn; by rewrite Hn|done|done].
      exists (Some i), nothing. split; [|intros _; cbn; rewrite Hn; by split_and!; try apply Hf].
      eapply starters_set; [done|by right; right|]. by rewrite decide_True.
Qed.

Lemma start_told_ok s i q k r : updates_ok s -> starters s !! i = Some (Await q k) -> truthful s q r ->
  updates_ok (set_update (update s) (<[i := k r]> (starters s)) s).
Proof.
  intros Hok Hi Hr. pose proof Hok as [(holder & known & Hst & Hh) Ht Hf H1]. pose proof (Hst i _ Hi) as Hc.
  destruct (decide (holder = Some i)) as [->|Hne].
  - eapply (updates_same_u _ _ (Some i) (fun x => known x \/ learns q r x)); [done| |].
    + eapply starters_set; [done|by left|]. rewrite decide_True by done. apply Hc.
    + intros Hsome. destruct (Hh Hsome) as (Hp & Hn & Hno & Hk). split_and!; try done. intros x [Hx|Hx]; [by apply Hk|].
      destruct q; cbn in Hx, Hr; try done.
      * destruct Hx as [-> ->]. exact (Hr eq_refl).
      * destruct Hx as (ls & -> & ->). destruct Hr as [[=]|[= ->]]. done.
      * destruct Hx as [-> ->]. exact (Hr eq_refl).
      * destruct Hx as [-> ->]. exact (Hr eq_refl).
  - destruct Hc as [k0 Hc]. eapply updates_same_u; [done| |done]. eapply starters_set; [done|by left|].
    rewrite decide_False by done. eexists. apply Hc.
Qed.

(** New routes begin with empty tables. *)
Lemma reloaded_ok s new : updates_ok s -> task (update s) <> None -> Forall (fun l => ecu_tables s !! l = None) new ->
  updates_ok (install new s).
Proof.
  intros [(holder & known & Hst & Hh) Ht Hf H1] Htask Hnew. split; [|unfold task_ok in *|done|done].
  - exists holder, known. split; [done|]. intros Hsome. by destruct (Hh Hsome) as (_ & Hno & _).
  - cbn. destruct (task (update s)) as [[id mode|]|]; [|done|done]. destruct Ht as (Hp & [Hq _] & He).
    split; [done|split; [|done]]. split; [done|]. cbn. intros l t Hin Hl.
    rewrite (lookup_union_Some_l _ _ _ no_tables) in Hl; [by injection Hl as <-|].
    apply elem_of_list_to_map_1'.
    + intros y [l' [[= -> ->] _]]%list_elem_of_fmap. done.
    + apply list_elem_of_fmap. by exists l.
Qed.

Lemma step_updates s s' : step s s' -> slots_ok s -> updates_ok s -> updates_ok s'.
Proof.
  intros Hs Hslots Hok. pose proof Hok as [(holder & known & Hst & Hh) Ht Hf H1]. destruct Hs.
  - eapply updates_calm; [done|done|done|]. intros _. by apply calms_same.
  - eapply updates_calm; [done|done|done|]. intros Hp. edestruct slots_section as [_ Hq]; [exact Hslots|done..|].
    eapply calms_section; [done|exact Hq|congruence].
  - eapply updates_calm; [done|done|done|]. intros _. by apply calms_same.
  - eapply updates_calm; [done|done|done|]. intros _. by apply calms_same.
  - eapply updates_calm; [done|done|done|]. intros _. by apply calms_same.
  - eapply updates_calm; [done|done|done|]. intros Hp. rewrite Hp in *. split; [done|split; [by apply quiet_transfers|]].
    intros l t' Ht'. by exists t'.
  - destruct (decide (holder = Some i)) as [->|Hne].
    + eapply (updates_same_u _ _ None nothing); [done| |by intros [? [=]]]. eapply starters_set; [done|by right; left|].
      exists nothing. apply start_checked.
    + eapply updates_same_u; [done| |done]. eapply starters_set; [done|by left|]. rewrite decide_False by done.
      exists nothing. apply start_checked.
  - by eapply start_section_ok.
  - by eapply start_told_ok.
  - eapply updates_same_u; [done| |done]. intros j m [_ Hj]%lookup_delete_Some. by apply Hst.
  - apply reloaded_ok; [done|congruence|done].
  - unfold task_ok in Ht. rewrite H in Ht. destruct Ht as (Hp & Hq & e & He & Hr).
    pose proof (noted_none _ _ ok _ H1 He Hr) as Hn. split; [|split; [done|done]|done|by apply none_one].
    exists holder, known. split; [done|]. intros Hsome. destruct (Hh Hsome) as (_ & Hno & _). congruence.
  - unfold task_ok in Ht. rewrite H in Ht. destruct Ht as [Hp Hn]. split; [|done|done|by apply none_one].
    exists holder, known. split; [done|]. intros Hsome. destruct (Hh Hsome) as (_ & Hno & _). congruence.
  - unfold task_ok in Ht. rewrite H in Ht. destruct Ht as (Hp & _). split; [|done|cbn; congruence|done].
    exists holder, known. split; [done|]. intros Hsome. destruct (Hh Hsome) as (_ & Hno & _). congruence.
Qed.

Lemma started_ok s : started s -> slots_ok s /\ updates_ok s.
Proof.
  intros (_ & Hh & Hs & Hu). split.
  - exists (fun _ => None). by split; intros *; rewrite Hh.
  - split; rewrite ?Hu; [|by unfold task_ok; rewrite Hu|done|done].
    exists None, nothing. split; [|by intros [? [=]]]. intros i m. by rewrite Hs.
Qed.

Lemma system_reachable_ok s : reachable to_string parse_str uuid_text exempt_routes s -> slots_ok s /\ updates_ok s.
Proof.
  intros (s0 & H0 & Hsteps). apply started_ok in H0. induction Hsteps as [s|s1 s2 s3 Hstep _ IH]; [done|].
  destruct H0 as [Hs Hu]. apply IH. split; [by eapply step_slots|by eapply step_updates].
Qed.

End system.
