(* ===== verification/UpdateScenarios.v ===== *)
(** * Runs of the update guard

    The transfers of DataTransfer.v as the guard of an update, a run in which
    an update is accepted, and the ways around the guard that it has. *)

From stdpp Require Import strings gmap.
From stdpp Require Import list.
From S2P Require Import Prelude Bytes Errors StorageTypes Text Ieee754 Json Naming ServiceLookup UdsManager ResponseDecode PayloadEncode DataTransfer RuntimeUpdate Locks SovdApi Async Executions EcuOperations ExecutionSlots UpdateGuard UpdateSafety.

Local Open Scope Z_scope.
Set Warnings "-register-all".

(** ** The transfers *)

Section flash.
Context {ext : Externals} {M : Type} `{!UdsTransport M}.
Context (to_lowercase : string -> string) (convention : DatabaseNamingConvention) (open_file : string -> option (list Z)).

Definition set_flag (b : bool) (w : Transfers (M := M)) : Transfers :=
  {| uds := uds w; data_transfers := data_transfers w; running := running w; DataTransfer.spawned := DataTransfer.spawned w;
     DataTransfer.update_in_progress := b; waiting := waiting w |}.

(** The sections of tasks and handlers, in any order. *)
Inductive flash_step : Transfers (M := M) -> Transfers (M := M) -> Prop :=
  | flash_task id w : flash_step w (task_step id w)
  | flash_checks n c p parameters w :
      flash_step w (start_checks to_lowercase convention open_file n c p parameters w).1
  | flash_insert n parameters reader request w : flash_step w (start_insert n parameters reader request w).1
  | flash_exit n w : flash_step w (ecu_flash_transfer_exit n w).1
  | flash_resume w : flash_step w (exit_resumes w)
  | flash_requests m w : flash_step w (with_uds w m).

#[export] Instance flash_transfers : FlashTransfers (Transfers (M := M)) := {
  transfers_active := is_active;
  transfers_step b w w' := flash_step (set_flag b w) w'
}.

Definition idle (w : Transfers (M := M)) : Prop := waiting w = None /\ data_transfers w = ∅.

Lemma is_active_idle w : is_active w = false <-> idle w.
Proof.
  unfold is_active, idle. rewrite orb_false_iff, negb_false_iff, bool_decide_eq_true, bool_decide_eq_false.
  rewrite <- eq_None_not_Some. done.
Qed.

Lemma task_idle id w : idle w -> idle (task_step id w).
Proof.
  intros [Hw Hd]. unfold task_step. destruct (running w !! id) as [t|]; [|done].
  destruct (needs_table (phase t) && _); [done|]. destruct (phase t).
  - rewrite Hd, lookup_empty. done.
  - destruct (send_block _ _ _ _) as [m [p|]]; done.
  - unfold acknowledge_block. rewrite Hd, lookup_empty. done.
  - split; [done|]. cbn. rewrite Hd. apply map_eq. intros n. by rewrite lookup_alter, lookup_empty; case_decide.
Qed.

#[export] Instance flash_transfers_ok : FlashTransfersOk (Transfers (M := M)).
Proof.
  intros w w' Hs [Hw Hd]%is_active_idle. apply is_active_idle. cbn in Hs.
  assert (Hi : idle (set_flag true w)) by done. revert Hi.
  remember (set_flag true w) as v eqn:Hv. assert (Hb : DataTransfer.update_in_progress v = true) by by rewrite Hv.
  clear Hv Hw Hd. intros Hi. destruct Hs as [id v|n c p prm v|n prm rd req v|n v|v|m v].
  - by apply task_idle.
  - destruct (start_checks_frame to_lowercase convention open_file n c p prm v) as [[m ->] _]. done.
  - unfold start_insert. by rewrite Hb.
  - unfold ecu_flash_transfer_exit. destruct Hi as [Hw Hd]. by rewrite Hd, lookup_empty.
  - unfold exit_resumes. destruct Hi as [Hw Hd]. by rewrite Hw.
  - done.
Qed.
End flash.

(** ** A start alone *)

Section alone.
Context {ext : Externals} (to_string : spec_float -> str) {ComParamValue : Type}.
Context (parse_str : string -> option Uuid) (uuid_text : Uuid -> string).
Context {G : Type} `{!FlashTransfers G} {C : Type} (exempt_routes : list ExemptRoute).

Abbreviation step := (system_step (ComParamValue := ComParamValue) (G := G) (C := C) to_string parse_str uuid_text exempt_routes).

Lemma start_runs (answers : forall q, start_answer (C := C) q) now s i :
  (forall q, truthful s q (answers q)) -> lock_state now = sovd_locks s ->
  forall m u st u' r, st !! i = Some m -> run answers now m u = (u', Some r) ->
  rtc step (set_update u st s) (set_update u' (<[i := Return r]> st) s).
Proof.
  intros Ht Hl m. induction m as [a| |q k IH|f IH] using async_induction; cbn [run]; intros u st u' r Hi Hrun.
  - injection Hrun as -> ->. by rewrite insert_id.
  - done.
  - eapply rtc_l.
    + apply (start_told to_string parse_str uuid_text exempt_routes (set_update u st s) i q k (answers q)); [done|].
      specialize (Ht q). by destruct q.
    + rewrite <- (insert_insert_eq st i (Return r) (k (answers q))). apply (IH (answers q)); [apply lookup_insert_eq|done].
  - specialize (IH now u). destruct (f now u) as [u1 m1] eqn:Hf. eapply rtc_l.
    + apply (start_section to_string parse_str uuid_text exempt_routes (set_update u st s) i (Locked f) now u1 m1); [done|done|].
      cbn. by rewrite Hf.
    + rewrite <- (insert_insert_eq st i (Return r) m1). apply IH; [apply lookup_insert_eq|done].
Qed.
End alone.

(** ** An update is accepted *)

Section runs.
#[local] Existing Instance reference.
#[local] Existing Instance recorder.
#[local] Instance ex_transfers : FlashTransfers (Transfers (M := Recorder)) :=
  flash_transfers (fun s => s) DatabaseNamingConvention_default (fun _ => None).

Definition ex_text (id : Uuid) : string := if id =? 7 then "7" else "8".
Definition ex_parse (s : string) : option Uuid := if String.eqb s "7" then Some 7 else None.

Definition vehicle_lock : Lock :=
  {| id := "lock"; expiration := 0; owner := "tester"; deletion_task := 0; cleanup_fn := CleanupVehicle |}.
Definition ex_locks : State :=
  {| locks := {| vehicle := Some vehicle_lock; ecu := ∅; functional_group := ∅ |}; tasks := ∅; Locks.spawned := 0; uds_calls := [] |}.
Definition ex_now (id : Uuid) (busy : bool) : Moment := {| new_v4 := id; update_in_progress := busy; lock_state := ex_locks |}.

Abbreviation ex_system := (System (ComParamValue := unit) (G := Transfers (M := Recorder)) (C := unit)).

Definition ex_start_state : ex_system :=
  {| ecu_tables := {[ 0%nat := no_tables ]}; registry := [0%nat]; handlers := ∅; transfers := no_transfers None;
     update := {| in_progress := false; executions := ∅; task := None |}; starters := ∅; sovd_locks := ex_locks |}.

(** What a start is told in a state, where nothing is contended. *)
Definition told (s : ex_system) (q : start_question (C := unit)) : start_answer q :=
  let active l := match ecu_tables s !! l with Some t => negb (no_executions t) | None => false end in
  match q with
  | GetCollection _ => Some tt
  | VehicleLockOwnerSub => vehicle_lock_owner_sub (sovd_locks s)
  | HasNonVehicleLocks => has_non_vehicle_locks (sovd_locks s)
  | TransfersActive => transfers_active (transfers s)
  | TryReadRegistry => Some (registry s)
  | ComparamsActive l => active l
  | ServicesActive l => active l
  | MddEcuNames _ => Ok ∅
  | IsBackupEmpty => Ok true
  end.

Lemma told_truthful s q : truthful s q (told s q).
Proof.
  destruct q; cbn; try done; [by right| |]; intros Ha t Ht; rewrite Ht in Ha; apply negb_false_iff, no_executions_spec in Ha;
    by destruct Ha.
Qed.

Abbreviation ex_step := (system_step (ext := reference) (ComParamValue := unit) (C := unit) (G := Transfers (M := Recorder))
  (fun _ => []) ex_parse ex_text update_exempt_routes).
Abbreviation ex_reachable := (reachable (ext := reference) (ComParamValue := unit) (C := unit) (G := Transfers (M := Recorder))
  (fun _ => []) ex_parse ex_text update_exempt_routes).

(** The update with this number is requested, and accepted. *)
Definition accepted (i : nat) (uuid : Uuid) (s : ex_system) : ex_system :=
  let now := ex_now uuid false in
  set_update {| in_progress := true; executions := {[ ex_text uuid := {| execution_id := ex_text uuid; mode := Apply; update_status := UpdateRunning |} ]};
                task := Some (Executing (ex_text uuid) Apply) |}
    (<[i := Return (Ok (ex_text uuid))]> (<[i := start_execution ex_text Apply]> (starters s))) s.

Lemma accepts i uuid s :
  sovd_locks s = ex_locks -> starters s !! i = None ->
  run (told s) (ex_now uuid false) (start_execution ex_text Apply) (update s) =
    (update (accepted i uuid s), Some (Ok (ex_text uuid))) ->
  rtc ex_step s (accepted i uuid s).
Proof.
  intros Hl Hi Hrun. eapply rtc_l; [by apply (update_requested _ _ _ _ s i Apply)|].
  eapply (start_runs (fun _ => []) ex_parse ex_text update_exempt_routes (told s) (ex_now uuid false) s i);
    [apply told_truthful|done|apply lookup_insert_eq|exact Hrun].
Qed.

Lemma ex_started : started ex_start_state.
Proof. by split. Qed.

Lemma ex_accepted : ex_reachable (accepted 0 7 ex_start_state).
Proof. exists ex_start_state. split; [apply ex_started|]. apply accepts; [done|done|]. vm_compute. reflexivity. Qed.


(** ** A request that waits through an update

    A request passes the guard while no update is in progress and is held up
    before its handler runs, for example by a slow body.  The update replaces
    the routes and ends; the handler still has the old tables, in which it
    reserves its execution, and which no later update looks at. *)

Definition ex_request : HttpRequest :=
  {| content_type := Some (Some ApplicationJson); SovdApi.accept := None; content_length := None; bytes := []; json := Some ∅ |}.

Abbreviation ex_tables := (EcuTables (ComParamValue := unit)).
Abbreviation ex_handler := (async (ecu_answer (ComParamValue := unit)) Moment ex_tables (HttpResponse (ComParamValue := unit))).

Definition ex_post : ex_handler :=
  handle (fun _ => []) ex_parse ex_text "ecu" (PostExecution "tester" "routine" ex_request false "url").

(** A section of the handler, and an answer to it. *)
Definition next_section (s : ex_system) : ex_system :=
  match handlers s !! 0%nat with
  | Some (l, m) =>
      match ecu_tables s !! l ≫= section m (ex_now 7 false) with
      | Some (t, m) => set_tables (<[l := t]> (ecu_tables s)) (<[0%nat := (l, m)]> (handlers s)) s
      | None => s
      end
  | None => s
  end.
Definition answer_routine (s : ex_system) : ex_system :=
  match handlers s !! 0%nat with
  | Some (l, Await (GetRoutineSubfunctions _) k) =>
      set_handlers (<[0%nat := (l, k (Ok {| has_stop := true; has_request_results := true |}))]> (handlers s)) s
  | _ => s
  end.

Definition ex_held_up : ex_system := set_handlers {[ 0%nat := (0%nat, ex_post) ]} ex_start_state.
(** The first update is over. *)
Definition ex_updated : ex_system :=
  let s := install [1%nat] (accepted 0 7 ex_held_up) in
  set_update (finish (note_result "7" true (update s))) (starters s) s.
Definition ex_checked : ex_system := next_section ex_updated.
Definition ex_reserved : ex_system := next_section ex_checked.
Definition ex_stale : ex_system := answer_routine ex_reserved.

Lemma ex_updated_reachable : ex_reachable ex_updated.
Proof.
  exists ex_start_state. split; [apply ex_started|].
  eapply rtc_l; [apply (request_arrives _ _ _ _ ex_start_state 0 0 "ecu" POST "/"
    (PostExecution "tester" "routine" ex_request false "url")); [done|done|by eexists]|].
  etrans; [apply (accepts 0 7 ex_held_up); [done|done|vm_compute; reflexivity]|].
  eapply rtc_l; [by apply (update_reloads _ _ _ _ (accepted 0 7 ex_held_up) "7" Apply [1%nat]); [|repeat constructor]|].
  eapply rtc_l; [by eapply (update_noted _ _ _ _ _ "7" Apply true)|].
  eapply rtc_l; [by apply update_finishes|]. apply rtc_refl.
Qed.

Lemma fresh_here id busy : fresh (ex_now id busy) (no_tables (ComParamValue := unit)).
Proof. intros service. unfold entries, no_tables. cbn. by rewrite lookup_empty. Qed.

Lemma next_section_step s l m t : handlers s !! 0%nat = Some (l, m) -> ecu_tables s !! l = Some t ->
  in_progress (update s) = false -> sovd_locks s = ex_locks -> fresh (ex_now 7 false) t ->
  is_Some (section m (ex_now 7 false) t) -> ex_step s (next_section s).
Proof.
  intros Hm Ht Hb Hl Hf [[t' m'] Hs]. unfold next_section. rewrite Hm, Ht. cbn [mbind option_bind]. rewrite Hs.
  eapply (handler_section _ _ _ _ s 0 l m (ex_now 7 false)); [done|done|by rewrite Hb|by rewrite Hl|done|done].
Qed.

Definition asks_routine (s : ex_system) : bool :=
  match handlers s !! 0%nat with Some (_, Await (GetRoutineSubfunctions _) _) => true | _ => false end.

Lemma answer_routine_step s : asks_routine s = true -> ex_step s (answer_routine s).
Proof.
  unfold asks_routine, answer_routine. destruct (handlers s !! 0%nat) as [[l [a| |[service| | |] k|f]]|] eqn:Hm; try done.
  intros _. eapply handler_answered; [done|]. by eexists.
Qed.

Definition operation_pending (s : ex_system) (i : nat) : bool :=
  match handlers s !! i with Some (_, Await (Send d _ _) _) => match type_ d with Operations => true | _ => false end | _ => false end.

Lemma operation_pending_spec s i : operation_pending s i = true ->
  exists l m q, handlers s !! i = Some (l, m) /\ awaits m = Some q /\ is_operation q.
Proof.
  unfold operation_pending. destruct (handlers s !! i) as [[l [a| |[service|d p j| |] k|f]]|] eqn:Hm; try done.
  intros Hd. exists l. do 2 eexists. split; [done|]. split; [done|]. cbn. by destruct (type_ d).
Qed.

Lemma ex_stale_reachable : ex_reachable ex_stale.
Proof.
  destruct ex_updated_reachable as (s0 & H0 & Hsteps). exists s0. split; [done|]. etrans; [exact Hsteps|].
  eapply rtc_l; [eapply (next_section_step ex_updated); [reflexivity|reflexivity|reflexivity|reflexivity|apply fresh_here|by eexists]|].
  eapply rtc_l; [eapply (next_section_step ex_checked); [reflexivity|reflexivity|reflexivity|reflexivity|apply fresh_here|by eexists]|].
  eapply rtc_l; [apply (answer_routine_step ex_reserved); vm_compute; reflexivity|]. apply rtc_refl.
Qed.

Lemma late_request_escapes :
  ex_reachable (accepted 1 8 ex_stale) /\ task (update (accepted 1 8 ex_stale)) = Some (Executing "8" Apply) /\
  exists l m q, handlers (accepted 1 8 ex_stale) !! 0%nat = Some (l, m) /\ awaits m = Some q /\ is_operation q.
Proof.
  split; [|split; [done|]].
  - destruct ex_stale_reachable as (s0 & H0 & Hsteps). exists s0. split; [done|].
    etrans; [exact Hsteps|]. apply (accepts 1 8 ex_stale); [done|done|vm_compute; reflexivity].
  - apply operation_pending_spec. vm_compute. reflexivity.
Qed.
End runs.
