(* ===== verification/ExecutionLaws.v ===== *)
(** * What a start and an execution leave behind

    [start_execution] alone: which check refuses it, what a refusal leaves
    behind, what the update guard lets through.  The handlers of one operation
    of an ECU, each run without interference: starting it, asking for its
    results, stopping it; and its executions over all runs of the handlers. *)

From stdpp Require Import strings gmap.
From stdpp Require Import list.
From S2P Require Import Prelude Errors Text Ieee754 Json Values StorageTypes Naming ResponseDecode ResponseJson PayloadEncode UdsManager DataTransfer RuntimeUpdate Locks SovdApi Async Executions EcuOperations ExecutionSlots UpdateGuard UpdateScenarios.

Local Open Scope Z_scope.

Section start.
Context {C : Type} (uuid_text : Uuid -> string).
Implicit Types (answers : forall q, start_answer (C := C) q) (u : UpdateState).

(** What the guards say. *)
Definition guards_say answers : bool :=
  answers TransfersActive ||
  match answers TryReadRegistry with
  | None => true
  | Some tables =>
      existsb (fun l => answers (ComparamsActive l)) tables || existsb (fun l => answers (ServicesActive l)) tables
  end.

Definition names_error answers (c : option C) : option RuntimeUpdateError :=
  match c with Some c => match answers (MddEcuNames c) with Err e => Some e | Ok _ => None end | None => None end.

(** The reasons for a refusal, in the order in which they count. *)
Definition objections answers (mode : ExecutionMode) u : list (option RuntimeUpdateError) :=
  let pending := answers (GetCollection DiagnosticDatabaseNextUpdate) in
  let current := answers (GetCollection DiagnosticDatabase) in
  let both := bool_decide (is_Some pending) && bool_decide (is_Some current) in
  [ match answers VehicleLockOwnerSub with None => Some NoLock | Some _ => None end;
    if answers HasNonVehicleLocks then Some LockConflict else None;
    if guards_say answers then Some OperationsInProgress else None;
    if both then names_error answers pending else None;
    if both then names_error answers current else None;
    if any_running u then Some ExecutionConflict else None;
    match mode, answers IsBackupEmpty with
    | Rollback, Ok true => Some NoBackup
    | Rollback, Err e => Some e
    | _, _ => None
    end;
    match mode, pending with Apply, None => Some NoPendingUpdate | _, _ => None end ].

Definition first_objection answers mode u : option RuntimeUpdateError := head (omap (fun o => o) (objections answers mode u)).

(** A question is answered. *)
Ltac told :=
  lazymatch goal with
  | |- context [run ?a ?n (ask_start ?q ≫= ?k) ?u] =>
      change (run a n (ask_start q ≫= k) u) with (run a n (k (a q)) u); cbv beta
  end.

Lemma run_any answers now (q : nat -> async start_answer Moment UpdateState bool) (f : nat -> bool) tables u :
  (forall l, run answers now (q l) u = (u, Some (f l))) -> run answers now (any q tables) u = (u, Some (existsb f tables)).
Proof.
  intros Hq. induction tables as [|l tables IH]; [done|]. cbn [any existsb]. rewrite run_bind, Hq. by destruct (f l).
Qed.

Lemma run_guards answers now u : run answers now guard_active u = (u, Some (guards_say answers)).
Proof.
  unfold guard_active, guards_say. told. destruct (answers TransfersActive); [done|].
  unfold registry_active. told. destruct (answers TryReadRegistry) as [ls|]; [|done].
  rewrite run_bind.
  rewrite (run_any _ _ _ (fun l => answers (ComparamsActive l))) by done. destruct (existsb _ ls); [done|].
  by apply (run_any _ _ _ (fun l => answers (ServicesActive l))).
Qed.

(** What [check_apply_allowed] objects to is the first five. *)
Lemma run_allowed answers now mode u pending current :
  pending = answers (GetCollection DiagnosticDatabaseNextUpdate) -> current = answers (GetCollection DiagnosticDatabase) ->
  run answers now (check_apply_allowed pending current) u =
  (u, Some (match head (omap (fun o => o) (take 5 (objections answers mode u))) with Some e => Err e | None => Ok tt end)).
Proof.
  intros Hp Hc. unfold check_apply_allowed, objections. told.
  destruct (answers VehicleLockOwnerSub); [|done]. told. destruct (answers HasNonVehicleLocks); [done|].
  rewrite run_bind, run_guards. destruct (guards_say answers); [done|]. rewrite <- Hp, <- Hc.
  destruct pending as [p|]; [|done]. destruct current as [c|]; [|done]. cbn [names_error]. told.
  cbn. destruct (answers (MddEcuNames p)); [|done]. cbn. by destruct (answers (MddEcuNames c)).
Qed.

Lemma run_refuse answers now e u : in_progress u = false ->
  run answers now (refuse e) (set_in_progress true u) = (u, Some (Err e)).
Proof. intros Hu. cbn. by destruct u; cbn in *; subst. Qed.

(** C16: an update is refused while another one is in progress; otherwise by the
    first check that objects, in a fixed order, and the state is then what it
    was before, the flag included; and if none objects it is accepted: the flag
    is set, the finished executions are forgotten and the new one runs. *)
Theorem start_is_decided answers now mode u :
  run answers now (start_execution uuid_text mode) u =
  if in_progress u then (u, Some (Err ExecutionConflict))
  else match first_objection answers mode u with
       | Some e => (u, Some (Err e))
       | None => let '(u', id) := accept uuid_text now mode (set_in_progress true u) in (u', Some (Ok id))
       end.
Proof.
  unfold start_execution. rewrite run_bind, run_locked. unfold compare_exchange.
  destruct (in_progress u) eqn:Hu; [done|]. cbn [fst snd negb]. do 2 told. rewrite run_bind.
  rewrite (run_allowed _ _ mode) by done. unfold first_objection.
  assert (Hsplit : head (omap (fun o => o) (objections answers mode u)) =
    match head (omap (fun o => o) (take 5 (objections answers mode u))) with
    | Some e => Some e | None => head (omap (fun o => o) (drop 5 (objections answers mode u))) end).
  { rewrite <- (take_drop 5 (objections answers mode u)) at 1. rewrite omap_app. by destruct (omap (fun o => o) (take 5 _)). }
  rewrite Hsplit. change (objections answers mode (set_in_progress true u)) with (objections answers mode u).
  destruct (head (omap (fun o => o) (take 5 _))) as [e|]; [by apply run_refuse|]. rewrite run_bind, run_locked. cbn [fst snd].
  change (any_running (set_in_progress true u)) with (any_running u). unfold objections. cbn [drop].
  destruct (any_running u); [by rewrite run_refuse|]. rewrite run_bind. unfold check_backup.
  destruct mode; cbn [run mret async_mret].
  - destruct (answers (GetCollection DiagnosticDatabaseNextUpdate)); [done|]. by rewrite run_refuse.
  - told. cbn. destruct (answers IsBackupEmpty) as [[]|e]; [by apply run_refuse| |by apply run_refuse].
    done.
  - done.
Qed.
End start.

(** *** The update guard *)

Lemma guard_open exempt_routes method uri_path : update_guard_call false exempt_routes method uri_path = true.
Proof. done. Qed.

(** While an update is in progress only its executions can be asked for. *)
Lemma guard_closed method uri_path :
  update_guard_call true update_exempt_routes method uri_path = true <->
  String.prefix EXECUTIONS_ROUTE uri_path = true /\ method = GET.
Proof.
  unfold update_guard_call, update_exempt_routes. cbn [existsb]. rewrite orb_false_r, andb_true_iff, bool_decide_eq_true.
  cbn [prefix methods]. rewrite list_elem_of_singleton. done.
Qed.

Section alone.
Context {ext : Externals} (to_string : spec_float -> str) {ComParamValue : Type}.
Context (parse_str : string -> option Uuid) (uuid_text : Uuid -> string).

Abbreviation tables := (EcuTables (ComParamValue := ComParamValue)).
Abbreviation task A := (async (ecu_answer (ComParamValue := ComParamValue)) Moment tables A).
Abbreviation response := (HttpResponse (ComParamValue := ComParamValue)).
Implicit Types (t : tables) (answers : forall q, ecu_answer (ComParamValue := ComParamValue) q).

(** The executions of every service, whatever the map they are in. *)
Definition same_entries t t' : Prop :=
  comparam_executions t' = comparam_executions t /\
  forall service, entries service (service_executions t') = entries service (service_executions t).

(** The executions of one service are these, and nothing else has changed. *)
Definition has_entries service (l : IndexMap ServiceExecution) t t' : Prop :=
  comparam_executions t' = comparam_executions t /\ entries service (service_executions t') = l /\
  forall service', service <> service' -> entries service' (service_executions t') = entries service' (service_executions t).

Lemma has_same service t t' : has_entries service (entries service (service_executions t)) t t' -> same_entries t t'.
Proof.
  intros (Hc & He & Ho). split; [done|]. intros service'. destruct (decide (service = service')) as [<-|]; [done|by apply Ho].
Qed.

Lemma has_trans service l t t1 t2 : has_entries service l t t1 -> forall l', has_entries service l' t1 t2 -> has_entries service l' t t2.
Proof.
  intros (Hc & He & Ho) l' (Hc' & He' & Ho'). split; [congruence|split; [done|]]. intros s Hs. by rewrite Ho', Ho.
Qed.

Lemma run_services {A} answers now (f : Moment -> ServiceMap ServiceExecution -> ServiceMap ServiceExecution * A) t :
  run answers now (locked (on_services f)) t =
  ({| comparam_executions := comparam_executions t; service_executions := (f now (service_executions t)).1 |},
   Some (f now (service_executions t)).2).
Proof. rewrite run_locked. unfold on_services. by destruct (f now (service_executions t)). Qed.

(** What a section on one service's executions does. *)
Lemma changed answers now f (g : IndexMap ServiceExecution -> IndexMap ServiceExecution) service t :
  (forall m service', entries service' (f m) = entries service' (alter g service m)) -> g [] = [] ->
  exists t', run answers now (changes f) t = (t', Some tt) /\
    has_entries service (g (entries service (service_executions t))) t t'.
Proof.
  intros Hf Hg. unfold changes. rewrite run_services. eexists. split; [done|]. split; [done|split]; cbn.
  - by rewrite Hf, entries_alter.
  - intros service' Hs. by rewrite Hf, entries_alter_ne.
Qed.

Definition reservation (i : Uuid) : IndexMap ServiceExecution := [(i, set_in_flight true placeholder)].
Definition creation (i : Uuid) (p : gmap str Value) : IndexMap ServiceExecution :=
  [(i, {| parameters := p; status := Running; in_flight := false; created := true |})].

(** *** After the reservation *)

Section reserved.
Context (answers : forall q, ecu_answer (ComParamValue := ComParamValue) q) (now : Moment) (service base : string) (t0 : tables).
Let id := new_v4 now.
Context (Hfresh : fresh now t0).

Let here : lookup_entry id (entries service (service_executions t0)) = None := Hfresh service.
Definition reserved_in t : Prop :=
  has_entries service (entries service (service_executions t0) ++ reservation id) t0 t.

(** The outcome of a POST: no trace, or an execution for the client. *)
Definition post_outcome (t : tables) (r : option response) : Prop :=
  exists resp, r = Some resp /\
  ((status_code resp <> 202 /\ same_entries t0 t) \/
   (status_code resp = 202 /\ body resp = AsyncPostResponse id Running /\ location resp = Some (base +:+ "/" +:+ uuid_text id) /\
    exists p, has_entries service (entries service (service_executions t0) ++ creation id p) t0 t)).

Lemma run_gives_up r t : reserved_in t -> status_code r <> 202 ->
  let '(t', o) := run answers now (gives_up service id r) t in post_outcome t' o.
Proof.
  intros Ht Hr. unfold gives_up. rewrite run_bind.
  destruct (changed answers now (remove_reserved_execution service id) (shift_remove id) service t) as (t' & -> & Ht');
    [intros m s; by rewrite entries_remove_reserved|done|].
  exists r. split; [done|]. left. split; [done|]. apply (has_same service). eapply has_trans; [exact Ht|].
  destruct Ht as (_ & He & _). rewrite He in Ht'. unfold reservation in Ht'. by rewrite shift_remove_last in Ht'.
Qed.

Lemma run_accepts response json t : reserved_in t ->
  let '(t', o) := run answers now (handle_async_post to_string uuid_text response json base service id) t in post_outcome t' o.
Proof.
  intros Ht. unfold handle_async_post. set (p := match response with Some r => _ | None => ∅ end). rewrite run_bind.
  destruct (changed answers now (finalize_execution service id (set_parameters p))
              (alter_entry (fun e => set_in_flight false (set_created true (set_parameters p e))) id) service t)
    as (t' & -> & Ht'); [done|done|].
  eexists. split; [done|]. right. split; [done|split; [done|split; [done|]]]. exists p. eapply has_trans; [exact Ht|].
  destruct Ht as (_ & He & _). rewrite He in Ht'. unfold reservation in Ht'. by rewrite alter_entry_last in Ht'.
Qed.

Lemma error_not_202 e : error_status e <> 202.
Proof. by destruct e. Qed.

Lemma negative_not_202 r : status_code (negative_response (ComParamValue := ComParamValue) to_string r) <> 202.
Proof.
  unfold negative_response. destruct (api_error_from_diag_response to_string r); [done|apply error_not_202].
Qed.

Lemma sync_not_202 r json : status_code (handle_sync_post (ComParamValue := ComParamValue) to_string r json) <> 202.
Proof.
  unfold handle_sync_post. destruct json; [|done]. destruct (r ≫= _) as [[[[] errors]|e]|]; done.
Qed.

Lemma run_finish is_async json r t : reserved_in t -> (forall e, r = inr e -> status_code e <> 202) ->
  let '(t', o) := run answers now (finish_post to_string uuid_text service base id is_async json r) t in post_outcome t' o.
Proof.
  intros Ht Hr. destruct r as [r|e]; [|by apply run_gives_up; [|apply Hr]].
  destruct is_async; [by apply run_accepts|]. apply run_gives_up; [done|apply sync_not_202].
Qed.

Lemma run_start req suppress is_async t : reserved_in t ->
  let '(t', o) := run answers now (start_reserved to_string uuid_text req suppress service base id is_async) t in
  post_outcome t' o.
Proof.
  intros Ht. destruct is_async as [is_async|e]; [|apply run_gives_up; [done|apply error_not_202]]. cbn.
  destruct (validate_and_parse_write_request req) as [[data json]|e]; [|apply run_gives_up; [done|apply error_not_202]].
  destruct suppress; [by apply (run_finish is_async json (inl None))|].
  change (run answers now _ t) with (run answers now (finish_post to_string uuid_text service base id is_async json
    match (match answers (Send (operation service START) data json) with
           | Err e => inr (err_response (api_error e))
           | Ok response => match result_type response with
                            | NegativeResponse => inr (negative_response to_string response)
                            | PositiveResponse => inl response
                            end
           end) with inl r => inl (Some r) | inr e => inr e end) t).
  apply run_finish; [done|]. intros e. destruct (answers (Send _ _ _)) as [r|x]; [destruct (result_type r)|]; intros [= <-];
    [apply negative_not_202|apply error_not_202].
Qed.
End reserved.

(** ** Starting and stopping *)

Lemma same_outcome now service base t r : status_code r <> 202 -> post_outcome now service base t t (Some r).
Proof. intros Hr. exists r. split; [done|]. by left. Qed.

Lemma reset_not_202 r : status_code (reset_response (ComParamValue := ComParamValue) to_string r) <> 202.
Proof.
  unfold reset_response. destruct (result_type r); [|apply negative_not_202]. destruct (is_empty r); [done|].
  destruct (serialize_to_json to_string r) as [[[] [|]]|e]; done.
Qed.

Lemma run_reset answers now service base req t :
  let '(t', o) := run answers now (ecu_reset_handler to_string service req) t in post_outcome now service base t t' o.
Proof.
  unfold ecu_reset_handler. destruct (reset_value req) as [v|]; [|by apply same_outcome]. cbn.
  destruct (answers GetEcuResetServices) as [allowed|e]; [|apply same_outcome, error_not_202].
  destruct (negb _); [by apply same_outcome|]. cbn.
  destruct (answers _) as [r|e]; apply same_outcome; [apply reset_not_202|apply error_not_202].
Qed.

Lemma run_post answers now claim ecu_name service req suppress base t : fresh now t ->
  let '(t', o) := run answers now (post_execution to_string uuid_text claim ecu_name service req suppress base) t in
  post_outcome now service base t t' o.
Proof.
  intros Hf. unfold post_execution, lock_check. rewrite run_bind, run_locked. cbn [fst snd].
  destruct (validate_lock (lock_state now) claim ecu_name) as [e|]; [apply same_outcome, error_not_202|].
  unfold ecu_operation_write_handler. destruct (String.eqb service "reset"); [apply run_reset|].
  rewrite run_bind, run_services. unfold reserve_execution. destruct (update_in_progress now).
  { cbn. destruct t. by apply same_outcome. }
  destruct (has_running service (service_executions t)); [cbn; destruct t; by apply same_outcome|]. cbn [fst snd].
  set (t1 := {| comparam_executions := _ |}).
  assert (Ht1 : reserved_in now service t t1).
  { split; [done|]. cbn. rewrite entries_insert, insert_fresh by apply Hf. split; [done|].
    intros s Hs. by rewrite entries_insert_ne. }
  rewrite run_bind. destruct suppress; [by apply run_start|]. cbn. by apply run_start.
Qed.

Lemma guard_created service i p l m : entries service m = l ++ creation i p -> lookup_entry i l = None ->
  exists e, guard_execution service i m = (alter_execution (set_in_flight true) service i m, Ok e) /\
    entries service (alter_execution (set_in_flight true) service i m) =
      l ++ [(i, {| parameters := p; status := Running; in_flight := true; created := true |})].
Proof.
  intros He Hi. unfold guard_execution, find_execution. rewrite He.
  assert (Hl : lookup_entry i (l ++ creation i p) = Some {| parameters := p; status := Running; in_flight := false; created := true |}).
  { clear He. induction l as [|[k v] l IH]; cbn in *; [by rewrite decide_True|]. by destruct (decide (k = i)); [|apply IH]. }
  rewrite Hl. cbn. eexists. split; [done|]. unfold alter_execution. rewrite entries_alter by done. rewrite He.
  unfold creation. by rewrite alter_entry_last.
Qed.

(** C15: a POST of an operation answers 202 with an execution for the client, or
    it leaves no trace in the tables; and a DELETE of the execution by a client
    that may, when the ECU agrees to stop or the client insists, answers 200 or
    204 and leaves the tables as they were before the POST. *)
Theorem stop_undoes_start answers answers' now now' claim claim' ecu_name service req suppress suppress' force base t id :
  fresh now t -> parse_str (uuid_text (new_v4 now)) = Some (new_v4 now) -> id = uuid_text (new_v4 now) ->
  validate_lock (lock_state now') claim' ecu_name = None ->
  (force = true \/ exists r, answers' (Send (operation service STOP) None true) = Ok r /\ result_type r = PositiveResponse) ->
  let '(t1, posted) := run answers now (post_execution to_string uuid_text claim ecu_name service req suppress base) t in
  let '(t2, deleted) := run answers' now' (delete_execution to_string parse_str claim' ecu_name service id suppress' force) t1 in
  exists p, posted = Some p /\
  if decide (status_code p = 202) then
    location p = Some (base +:+ "/" +:+ id) /\ created_ids service (service_executions t1) =
      created_ids service (service_executions t) ++ [new_v4 now] /\
    exists d, deleted = Some d /\ (status_code d = 200 \/ status_code d = 204) /\ same_entries t t2
  else same_entries t t1.
Proof.
  intros Hf Hparse -> Hlock Hstop. pose proof (run_post answers now claim ecu_name service req suppress base t Hf) as Hpost.
  destruct (run answers now _ t) as [t1 o]. destruct Hpost as (p & -> & [[Hp Hsame]|(Hp & Hbody & Hloc & prm & Hent)]).
  { destruct (run answers' now' _ t1) as [t2 d]. exists p. split; [done|]. by rewrite decide_False. }
  pose proof Hent as (_ & He & _). pose proof (Hf service) as Hnew.
  destruct (guard_created service (new_v4 now) prm _ _ He Hnew) as (e & Hg & Hge).
  unfold delete_execution, lock_check. rewrite run_bind, run_locked. cbn [fst snd]. rewrite Hlock, Hparse.
  rewrite run_bind, run_services, Hg. cbn [fst snd]. set (t1' := {| comparam_executions := _ |}).
  assert (Ht1' : has_entries service (entries service (service_executions t) ++
      [(new_v4 now, {| parameters := prm; status := Running; in_flight := true; created := true |})]) t t1').
  { eapply has_trans; [exact Hent|]. split; [done|split; [done|]]. intros s Hs. unfold t1', alter_execution. cbn. by rewrite entries_alter_ne. }
  change (run answers' now' (send _ _ _ ≫= ?k) t1') with (run answers' now' (k (answers' (Send (operation service STOP) None true))) t1').
  cbv beta. set (a := answers' _) in *.
  assert (Hr : exists r, stopped_response (ComParamValue := ComParamValue) to_string a suppress' force = inl r /\
                         (status_code r = 200 \/ status_code r = 204)).
  { unfold stopped_response. destruct Hstop as [->|(r & -> & ->)].
    - destruct a as [r|x]; [destruct (result_type r); [|eauto]|destruct (_ && _); eauto].
      destruct (is_empty r); [eauto|]. destruct (parse_json_response_params to_string r). eauto.
    - destruct (is_empty r); [eauto|]. destruct (parse_json_response_params to_string r). eauto. }
  destruct Hr as (r & -> & Hcode). rewrite run_bind.
  destruct (changed answers' now' (remove_execution service (new_v4 now)) (shift_remove (new_v4 now)) service t1') as (t2 & -> & Ht2);
    [done|done|]. exists p. split; [done|]. rewrite decide_True by done. split; [done|split].
  - unfold created_ids. rewrite He. by rewrite list.filter_app, fmap_app.
  - exists r. split; [done|split; [done|]]. apply (has_same service). eapply has_trans; [exact Ht1'|].
    destruct Ht1' as (_ & He' & _). rewrite He' in Ht2. by rewrite shift_remove_last in Ht2.
Qed.
End alone.

(** An asynchronous routine: its start answers with no parameters. *)
Definition ex_routine (q : ecu_request (ext := reference)) : ecu_answer (ext := reference) (ComParamValue := unit) q :=
  match q with
  | GetRoutineSubfunctions _ => Ok {| has_stop := true; has_request_results := false |}
  | Send _ _ _ => Ok {| response_data := [113; 1; 2; 3]; mapped_data := None; result_type := PositiveResponse |}
  | GetEcuResetServices => Ok []
  | GetComparams => Ok ∅
  end.
Definition ex_owner : Lock :=
  {| id := "lock"; expiration := 0; owner := "tester"; deletion_task := 0; cleanup_fn := CleanupVehicle |}.
Definition ex_moment : Moment :=
  {| new_v4 := 7; update_in_progress := false;
     lock_state := {| locks := {| vehicle := Some ex_owner; ecu := ∅; functional_group := ∅ |}; tasks := ∅; spawned := 0; uds_calls := [] |} |}.
Definition ex_json_request : HttpRequest (ext := reference) :=
  {| content_type := Some (Some ApplicationJson); SovdApi.accept := None; content_length := None; bytes := []; json := Some ∅ |}.
Definition ex_parse_seven (s : string) : option Uuid := if String.eqb s "7" then Some 7 else None.
Definition ex_empty : EcuTables (ext := reference) (ComParamValue := unit) :=
  {| comparam_executions := []; service_executions := ∅ |}.

Lemma stop_undoes_start_witness :
  let '(t1, posted) := run ex_routine ex_moment
    (post_execution (fun _ => []) (fun _ => "7") "tester" "ecu" "routine" ex_json_request false "url") ex_empty in
  let '(t2, deleted) := run ex_routine ex_moment
    (delete_execution (fun _ => []) ex_parse_seven "tester" "ecu" "routine" "7" false false) t1 in
  (status_code <$> posted = Some 202 /\ length (entries "routine" (service_executions t1)) = 1%nat) /\
  exists p, posted = Some p /\
  if decide (status_code p = 202) then
    location p = Some "url/7" /\
    created_ids "routine" (service_executions t1) = created_ids "routine" (service_executions ex_empty) ++ [7] /\
    exists d, deleted = Some d /\ (status_code d = 200 \/ status_code d = 204) /\ same_entries ex_empty t2
  else same_entries ex_empty t1.
Proof.
  assert (Hf : fresh ex_moment ex_empty) by (intros service; unfold entries; cbn; by rewrite lookup_empty).
  pose proof (stop_undoes_start (ext := reference) (fun _ => []) ex_parse_seven (fun _ => "7"%string) ex_routine ex_routine ex_moment
    ex_moment "tester" "tester" "ecu" "routine" ex_json_request false false false "url" ex_empty "7" Hf eq_refl eq_refl eq_refl
    (or_intror (ex_intro _ _ (conj eq_refl eq_refl)))) as H.
  match type of H with context [run ?a ?n ?m ex_empty] =>
    assert (Hs : status_code <$> (run a n m ex_empty).2 = Some 202 /\
                 length (entries "routine" (service_executions (run a n m ex_empty).1)) = 1%nat)
      by (split; vm_compute; reflexivity);
    destruct (run a n m ex_empty) as [t1 posted]
  end.
  match type of H with context [run ?a ?n ?m t1] => destruct (run a n m t1) as [t2 deleted] end.
  split; [exact Hs|exact H].
Defined.

(** ** Surprises *)

(** A positive response without parameters is no output after a reset, and a
    server error after a synchronous operation. *)
Example no_output_is_an_error :
  let r := {| response_data := [113; 1; 2; 3]; mapped_data := Some {| mapped := ∅; ResponseDecode.errors := [] |}; result_type := PositiveResponse |} in
  (status_code (reset_response (ext := reference) (ComParamValue := unit) (fun _ => []) r),
   status_code (handle_sync_post (ext := reference) (ComParamValue := unit) (fun _ => []) (Some r) true)) = (204, 500).
Proof. vm_compute. reflexivity. Qed.

(** A client that goes away while its POST waits for the ECU leaves a
    reservation that nobody can see or remove, and that refuses every other. *)
Example abandoned_reservation :
  let p := reserve_execution "routine" ex_moment (∅ : ServiceMap (ServiceExecution (ext := reference))) in
  p.2 = Ok 7 /\ created_ids "routine" p.1 = [] /\ is_ok (guard_execution "routine" 7 p.1).2 = false /\
  is_ok (reserve_execution "routine" ex_moment p.1).2 = false /\
  no_executions (ComParamValue := unit) {| comparam_executions := []; service_executions := p.1 |} = false.
Proof. intros p. split_and!; vm_compute; reflexivity. Qed.

(** Asking for the results of an execution says it has completed; it stays in
    the table as running, and the operation cannot be started again. *)
Example completed_but_running :
  let running := {| parameters := ∅; status := Running; in_flight := false; created := true |} in
  let t := {| comparam_executions := []; service_executions := {[ "routine" := [(7, running)] ]} |} in
  let p := run ex_routine ex_moment
    (get_operations_response (ext := reference) (ComParamValue := unit) (fun _ => [])
       {| response_data := []; mapped_data := None; result_type := PositiveResponse |} "routine" 7) t in
  match body <$> p.2 with Some (AsyncGetByIdResponse Completed None []) => true | _ => false end = true /\
  is_ok (reserve_execution "routine" ex_moment (service_executions p.1)).2 = false.
Proof. intros running t p. split; vm_compute; reflexivity. Qed.

(** Between its two looks at the table a GET of communication parameters panics
    when enough executions have been deleted. *)
Example comparam_get_panics :
  let e := {| capability := Execute; comparam_status := ComparamRunning; comparam_override := ∅ |} in
  let before : EcuTables (ext := reference) (ComParamValue := unit) :=
    {| comparam_executions := [(5, e); (7, e)]; service_executions := ∅ |} in
  let after := {| comparam_executions := []; service_executions := ∅ |} in
  match section (get_comparams ex_parse_seven "7") ex_moment before with
  | Some (_, m) => match section m ex_moment after with Some (_, Panics) => true | _ => false end
  | None => false
  end = true.
Proof. vm_compute. reflexivity. Qed.

(** ** One execution per operation *)

Section single.
Context {E : Type} `{!ExecutionStatus E} `{!ExecutionStatusOk E}.
Implicit Types m : ServiceMap E.

Definition single_entry (l : IndexMap E) : Prop :=
  (length l <= 1)%nat /\ Forall (fun kv => execution_status kv.2 = Running) l.

Definition single m : Prop := forall service, single_entry (entries service m).

Lemma single_alter (f : IndexMap E -> IndexMap E) service m :
  f [] = [] -> (forall l, single_entry l -> single_entry (f l)) -> single m -> single (alter f service m).
Proof.
  intros Hn Hf Hm service'. destruct (decide (service = service')) as [<-|]; [|rewrite entries_alter_ne by done; apply Hm].
  rewrite entries_alter by done. apply Hf, Hm.
Qed.

Lemma single_alter_entry (f : E -> E) i l : (forall e, execution_status (f e) = execution_status e) ->
  single_entry l -> single_entry (alter_entry f i l).
Proof.
  intros Hf. destruct l as [|[k v] [|kv l]]; intros [Hl Hr]; [done| |cbn in Hl; lia]. cbn.
  inversion_clear Hr. destruct (decide (k = i)); split; cbn; try lia; repeat constructor; cbn; by rewrite ?Hf.
Qed.

Lemma single_remove i l : single_entry l -> single_entry (shift_remove i l).
Proof.
  destruct l as [|[k v] [|kv l]]; intros [Hl Hr]; [done| |cbn in Hl; lia]. cbn.
  destruct (decide (k = i)); [split; [cbn; lia|constructor]|done].
Qed.

Lemma single_reserve service now m : single m -> single (reserve_execution service now m).1.
Proof.
  intros Hm. unfold reserve_execution. destruct (update_in_progress now); [done|].
  destruct (has_running service m) eqn:Hr; [done|]. intros service'.
  destruct (decide (service = service')) as [<-|]; cbn [fst]; [|rewrite entries_insert_ne by done; apply Hm].
  rewrite entries_insert. specialize (Hm service). unfold has_running in Hr.
  destruct (entries service m) as [|[k v] l]; cbn in *.
  - split; cbn; [lia|]. repeat constructor. cbn. by rewrite status_in_flight, placeholder_running.
  - destruct Hm as [_ Hv]. inversion_clear Hv. cbn in *. by rewrite bool_decide_true in Hr by done.
Qed.

Lemma single_remove_reserved service i m : single m -> single (remove_reserved_execution service i m).
Proof.
  intros Hm service'. rewrite entries_remove_reserved. apply single_alter; [done|apply single_remove|done].
Qed.

Lemma single_guard service i m : single m -> single (guard_execution service i m).1.
Proof.
  intros Hm. unfold guard_execution. destruct (find_execution service i m) as [e|]; [|done].
  destruct (is_created e); [|done]. destruct (is_in_flight e); [done|].
  apply single_alter; [done| |done]. intros l. apply single_alter_entry. apply status_in_flight.
Qed.
End single.

Section ecu.
Context {ext : Externals} (to_string : spec_float -> str) {ComParamValue : Type}.
Context (parse_str : string -> option Uuid) (uuid_text : Uuid -> string).

Abbreviation tables := (EcuTables (ComParamValue := ComParamValue)).
Abbreviation response := (HttpResponse (ComParamValue := ComParamValue)).
Abbreviation task := (async (ecu_answer (ComParamValue := ComParamValue)) Moment tables response).

Definition keeps_single (now : Moment) (t t' : tables) : Prop :=
  single (service_executions t) -> single (service_executions t').

Abbreviation singly := (all_sections (answer := ecu_answer (ComParamValue := ComParamValue)) keeps_single).

Lemma singly_services {A} (f : Moment -> ServiceMap ServiceExecution -> ServiceMap ServiceExecution * A) :
  (forall now m, single m -> single (f now m).1) -> singly (locked (on_services f)).
Proof.
  intros Hf. apply sections_locked. intros now t. unfold on_services, keeps_single.
  specialize (Hf now (service_executions t)). by destruct (f now (service_executions t)).
Qed.

Lemma singly_comparams {A} (f : Moment -> IndexMap Execution -> IndexMap Execution * A) : singly (locked (on_comparams f)).
Proof.
  apply sections_locked. intros now t. unfold on_comparams, keeps_single. by destruct (f now (comparam_executions t)).
Qed.

Lemma singly_reads {A} (f : tables -> A) : singly (reads f).
Proof. apply sections_locked. by intros now t Hs. Qed.

Lemma singly_changes f : (forall m, single m -> single (f m)) -> singly (changes f).
Proof. intros Hf. apply singly_services. intros now m. apply Hf. Qed.

Lemma singly_lock_check f : singly (lock_check f).
Proof. apply sections_locked. by intros now t Hs. Qed.

Lemma singly_alter f service i : (forall e, status (f e) = status e) -> singly (changes (alter_execution f service i)).
Proof.
  intros Hf. apply singly_changes. intros m. apply single_alter; [done|]. intros l. by apply single_alter_entry.
Qed.

Lemma singly_gives_up service i r : singly (gives_up service i r).
Proof. apply sections_bind; [apply singly_changes; intros m; apply single_remove_reserved|done]. Qed.

Lemma singly_finish service base i is_async json r :
  singly (finish_post to_string uuid_text service base i is_async json r).
Proof.
  destruct r as [r|e]; [|apply singly_gives_up]. destruct is_async; [|apply singly_gives_up].
  apply sections_bind; [|done]. by apply singly_alter.
Qed.

Lemma singly_start req suppress service base i is_async :
  singly (start_reserved to_string uuid_text req suppress service base i is_async).
Proof.
  destruct is_async as [is_async|e]; [|apply singly_gives_up]. cbn.
  destruct (validate_and_parse_write_request req) as [[data json]|e]; [|apply singly_gives_up].
  apply sections_bind; [|intros r; apply singly_finish]. destruct suppress; [done|]. by intros r.
Qed.

Lemma singly_post claim ecu_name service req suppress base :
  singly (post_execution to_string uuid_text claim ecu_name service req suppress base).
Proof.
  apply sections_bind; [apply singly_lock_check|]. intros [e|]; [done|]. unfold ecu_operation_write_handler.
  destruct (String.eqb service "reset").
  { unfold ecu_reset_handler. destruct (reset_value req); [|done]. apply sections_bind; [by intros r|].
    intros [allowed|e]; [|done]. destruct (negb _); [done|]. by intros r. }
  apply sections_bind; [apply singly_services; intros now m; apply single_reserve|]. intros [i|e]; [|done].
  apply sections_bind; [by destruct suppress|]. intros r. apply singly_start.
Qed.

Lemma singly_guard service i (k : result ApiError ServiceExecution -> task) :
  (forall r, singly (k r)) -> singly (locked (on_services (fun _ => guard_execution service i)) ≫= k).
Proof. intros Hk. apply sections_bind; [|done]. apply singly_services. intros now m. apply single_guard. Qed.

Lemma singly_get service id suppress : singly (get_execution to_string parse_str service id suppress).
Proof.
  unfold get_execution. destruct (parse_str id) as [i|]; [|done]. apply singly_guard. intros [stored|e]; [|done].
  destruct suppress; [apply sections_bind; [by apply singly_alter|done]|].
  apply sections_bind; [by intros r|]. intros r. apply sections_bind; [by apply singly_alter|]. intros _.
  destruct r as [r|e]; [|done]. unfold get_operations_response. destruct (result_type r); [|done].
  destruct (if is_empty r then _ else _) as [p errors]. apply sections_bind; [by apply singly_alter|done].
Qed.

Lemma singly_delete claim ecu_name service id suppress force :
  singly (delete_execution to_string parse_str claim ecu_name service id suppress force).
Proof.
  apply sections_bind; [apply singly_lock_check|]. intros [e|]; [done|]. destruct (parse_str id) as [i|]; [|done].
  apply singly_guard. intros [stored|e]; [|done]. apply sections_bind; [by intros r|]. intros r.
  destruct (stopped_response to_string r suppress force); apply sections_bind; try done; [|by apply singly_alter].
  apply singly_changes. intros m. apply single_alter; [done|apply single_remove].
Qed.

Lemma handle_singly ecu_name r : singly (handle to_string parse_str uuid_text ecu_name r).
Proof.
  destruct r; cbn [handle].
  - apply sections_bind; [apply singly_reads|done].
  - apply singly_post.
  - apply singly_get.
  - apply singly_delete.
  - apply sections_bind; [apply singly_reads|done].
  - apply singly_comparams.
  - unfold get_comparams. destruct (parse_str id); [|done]. apply sections_bind; [apply singly_reads|].
    intros [[idx e]|]; [|done]. apply sections_bind; [apply singly_reads|]. intros [earlier|]; [|done]. by intros c.
  - unfold delete_comparams. destruct (parse_str id); [|done]. apply singly_comparams.
  - unfold put_comparams. destruct (parse_str id); [|done]. apply singly_comparams.
Qed.

(** ** The system *)

Context {G : Type} `{!FlashTransfers G} {C : Type} (exempt_routes : list ExemptRoute).
Abbreviation system := (System (ComParamValue := ComParamValue) (G := G) (C := C)).

Definition singles_ok (s : system) : Prop :=
  (forall l t, ecu_tables s !! l = Some t -> single (service_executions t)) /\
  (forall i l m, handlers s !! i = Some (l, m) -> singly m).

Lemma no_tables_single : single (service_executions (no_tables (ComParamValue := ComParamValue))).
Proof. intros service. unfold entries. cbn. rewrite lookup_empty. split; [cbn; lia|constructor]. Qed.

Lemma singles_step s s' : system_step to_string parse_str uuid_text exempt_routes s s' -> singles_ok s -> singles_ok s'.
Proof.
  intros Hs [Ht Hh]. destruct Hs; try done.
  - split; [done|]. cbn. intros j l' m' [[<- [= <- <-]]|[_ Hj]]%lookup_insert_Some; [apply handle_singly|by eapply Hh].
  - destruct m as [| | |f]; try done. injection H4 as Hm. pose proof (Hh _ _ _ H) as Hsec.
    specialize (Hsec now t). rewrite Hm in Hsec. destruct Hsec as [Hkeep Hm'].
    split; cbn.
    + intros l' t0 [[<- <-]|[_ Ht0]]%lookup_insert_Some; [by eapply Hkeep, Ht|by eapply Ht].
    + intros j l' mj [[<- [= <- <-]]|[_ Hj]]%lookup_insert_Some; [done|by eapply Hh].
  - split; [done|]. destruct m as [| |q k|]; try done. destruct H0 as [r ->]. cbn.
    intros j l' mj [[<- [= <- <-]]|[_ Hj]]%lookup_insert_Some; [apply (Hh _ _ _ H)|by eapply Hh].
  - split; [done|]. cbn. intros j l' mj [_ Hj]%lookup_delete_Some. by eapply Hh.
  - split; [|done]. cbn. intros l t [Hl|[_ Hl]]%lookup_union_Some_raw; [|by eapply Ht].
    apply elem_of_list_to_map_2, list_elem_of_fmap in Hl as (l' & [= <- ->] & _). apply no_tables_single.
Qed.

Lemma started_singles s : started s -> singles_ok s.
Proof.
  intros (Ht & Hh & _). split; [|intros i l m; by rewrite Hh]. intros l t. rewrite Ht.
  intros (l' & [= <- ->] & _)%elem_of_list_to_map_2%list_elem_of_fmap. apply no_tables_single.
Qed.

(** C8: whatever requests come, in whatever order, and whichever of them are
    dropped on the way: in each table of executions, that is of an ECU as one
    loading of the database has it, an operation has at most one execution, and
    it is running.  An update gives the ECU a new table, and a reset starts
    without an entry in any. *)
Theorem one_execution_per_operation (s : system) l t service :
  reachable to_string parse_str uuid_text exempt_routes s -> ecu_tables s !! l = Some t ->
  (length (entries service (service_executions t)) <= 1)%nat /\
  Forall (fun kv => status kv.2 = Running) (entries service (service_executions t)).
Proof.
  intros (s0 & H0 & Hsteps) Hl. apply started_singles in H0.
  assert (Hok : singles_ok s).
  { clear Hl. induction Hsteps as [|s1 s2 s3 Hstep _ IH]; [done|]. by apply IH, (singles_step s1). }
  destruct Hok as [Ht _]. apply (Ht _ _ Hl).
Qed.
End ecu.

(** The late request of UpdateScenarios.v has reserved its execution. *)
Lemma one_execution_per_operation_witness :
  exists t : EcuTables (ext := reference) (ComParamValue := unit), ecu_tables ex_stale !! 0%nat = Some t /\ length (entries "routine" (service_executions t)) = 1%nat /\
    (length (entries "routine" (service_executions t)) <= 1)%nat /\
    Forall (fun kv => status kv.2 = Running) (entries "routine" (service_executions t)).
Proof.
  assert (H : match ecu_tables ex_stale !! 0%nat with
              | Some t => (length (entries "routine" (service_executions t)) =? 1)%nat | None => false end = true)
    by (vm_compute; reflexivity).
  destruct (ecu_tables ex_stale !! 0%nat) as [t|] eqn:Ht; [|discriminate H]. apply Nat.eqb_eq in H.
  exists t. split; [reflexivity|]. split; [exact H|].
  exact (one_execution_per_operation (ext := reference) (fun _ => []) ex_parse ex_text update_exempt_routes ex_stale 0 t
           "routine" ex_stale_reachable Ht).
Defined.
