(* ===== verification/FgOperations.v ===== *)
(** * The operations of a functional group

    cda-sovd/src/sovd/functions/functional_groups/operations.rs: operations on
    all ECUs of a group.  Their executions are in a table of their own, which
    the registry that an update asks does not know.  Schemas are left out. *)

From stdpp Require Import strings gmap.
From stdpp Require Import list.
From S2P Require Import Prelude Errors Text Ieee754 Json ResponseDecode ResponseJson PayloadEncode Naming Locks SovdApi Async Executions EcuOperations ExecutionSlots.

Local Open Scope Z_scope.
Set Warnings "-register-all".

Section handlers.
Context {ext : Externals} (to_string : spec_float -> str) (to_lowercase : string -> string).
Context (parse_str : string -> option Uuid) (uuid_text : Uuid -> string).

(** Parameters are kept for each ECU. *)
Record FgServiceExecution : Type := {
  fg_parameters : gmap string (gmap str Value);
  fg_status : OperationStatus;
  fg_in_flight : bool;
  fg_created : bool
}.

#[export] Instance fg_service_execution : ExecutionStatus FgServiceExecution := {
  execution_status := fg_status;
  is_in_flight := fg_in_flight;
  set_in_flight b e :=
    {| fg_parameters := fg_parameters e; fg_status := fg_status e; fg_in_flight := b; fg_created := fg_created e |};
  is_created := fg_created;
  set_created b e :=
    {| fg_parameters := fg_parameters e; fg_status := fg_status e; fg_in_flight := fg_in_flight e; fg_created := b |};
  placeholder := {| fg_parameters := ∅; fg_status := Running; fg_in_flight := false; fg_created := false |}
}.

#[export] Instance fg_service_execution_ok : ExecutionStatusOk FgServiceExecution.
Proof. by split; intros. Qed.

Definition fg_set_parameters (p : gmap string (gmap str Value)) (e : FgServiceExecution) : FgServiceExecution :=
  {| fg_parameters := p; fg_status := fg_status e; fg_in_flight := fg_in_flight e; fg_created := fg_created e |}.

(** *** What the group is asked *)

Inductive fg_request : Type :=
  | GetFunctionalGroupRoutineSubfunctions (service : string)
  | SendFunctionalGroup (service : ApiDiagComm) (payload : option UdsPayloadData) (map_to_json : bool).

Definition fg_answer (q : fg_request) : Type :=
  match q with
  | GetFunctionalGroupRoutineSubfunctions _ => dresult RoutineSubfunctions
  | SendFunctionalGroup _ _ _ => gmap string (dresult DiagServiceResponseStruct)
  end.

(** *** Answers *)

Inductive FgBody : Type :=
  | FgNoBody
  | FgErrorBody (e : ApiErrorResponse)
  | FgItems (ids : list Uuid)
  | FgOperationResponse (parameters : gmap string (gmap str Value)) (errors : list FieldError)
  | FgAsyncPostResponse (id : Uuid) (status : OperationStatus)
  | FgAsyncGetByIdResponse (status : OperationStatus) (parameters : gmap string (gmap str Value)) (errors : list FieldError).

Record FgResponse : Type := { fg_status_code : Z; fg_location : option string; fg_body : FgBody }.

Definition fg_respond (status_code : Z) (body : FgBody) : FgResponse :=
  {| fg_status_code := status_code; fg_location := None; fg_body := body |}.

Definition fg_err_response (e : ApiError) : FgResponse :=
  fg_respond (error_status e) (FgErrorBody (error_response (error_codes e) None)).

Abbreviation fg_handler := (async fg_answer Moment (ServiceMap FgServiceExecution)).

Definition fg_changes (f : ServiceMap FgServiceExecution -> ServiceMap FgServiceExecution) : fg_handler unit :=
  locked (fun _ t => (f t, tt)).
Definition fg_lock_check (f : State -> option ApiError) : fg_handler (option ApiError) :=
  locked (fun now t => (t, f (lock_state now))).

Definition send_functional_group (service : ApiDiagComm) (payload : option UdsPayloadData) (map_to_json : bool)
    : fg_handler (gmap string (dresult DiagServiceResponseStruct)) :=
  ask (answer := fg_answer) (SendFunctionalGroup service payload map_to_json).

(** ** The handlers *)

(** [executions::get]. *)
Definition fg_list_executions (op : string) : fg_handler FgResponse :=
  ids ← locked (fun _ t => (t, created_ids (to_lowercase op) t));
  mret (fg_respond 200 (FgItems ids)).

Definition build_operation_response (d : EcuResponsesData) : FgResponse :=
  fg_respond 200 (FgOperationResponse (ecu_response_data d) (ecu_errors d)).

(** [request_url] is the host with the URL of the request. *)
Definition build_async_response (op : string) (response_data : gmap string (gmap str Value)) (request_url : string)
    (exec_id : Uuid) : fg_handler FgResponse :=
  _ ← fg_changes (finalize_execution (to_lowercase op) exec_id (fg_set_parameters response_data));
  mret {| fg_status_code := 202; fg_location := Some (request_url +:+ "/executions/" +:+ uuid_text exec_id);
          fg_body := FgAsyncPostResponse exec_id Running |}.

Definition fg_check_if_async (op : string) : fg_handler (result ApiError bool) :=
  sf ← ask (answer := fg_answer) (GetFunctionalGroupRoutineSubfunctions op);
  mret (match sf with
        | Ok sf => Ok (has_stop sf || has_request_results sf)
        | Err Errors.NotFound => Err NotFound
        | Err e => Err (api_error e)
        end).

Definition fg_gives_up (op : string) (exec_id : Uuid) (r : FgResponse) : fg_handler FgResponse :=
  _ ← fg_changes (remove_reserved_execution (to_lowercase op) exec_id);
  mret r.

(** What the headers and the body give, the answers being JSON. *)
Definition fg_parse_request (req : HttpRequest) (suppress_service : bool) : result ApiError (option UdsPayloadData * bool) :=
  '(content_type, _) ← get_content_type_and_accept req;
  data ← (if suppress_service then Ok None else get_payload_data content_type req);
  json ← map_to_json ApplicationJson;
  Ok (data, json).

(** What [post] does with the slot it has reserved. *)
Definition fg_finish_post (op request_url : string) (exec_id : Uuid) (is_async : bool)
    (results : gmap string (dresult DiagServiceResponseStruct)) : fg_handler FgResponse :=
  let d := handle_ecu_responses to_string results in
  if is_async then build_async_response op (ecu_response_data d) request_url exec_id
  else fg_gives_up op exec_id (build_operation_response d).

Definition fg_start_reserved (req : HttpRequest) (suppress_service : bool) (op request_url : string) (exec_id : Uuid)
    (is_async : result ApiError bool) : fg_handler FgResponse :=
  match is_async with
  | Err e => fg_gives_up op exec_id (fg_err_response e)
  | Ok is_async =>
      match fg_parse_request req suppress_service with
      | Err e => fg_gives_up op exec_id (fg_err_response e)
      | Ok (data, json) =>
          results ← (if suppress_service then mret ∅ else send_functional_group (operation op START) data json);
          fg_finish_post op request_url exec_id is_async results
      end
  end.

(** [op.contains('/')] *)
Definition has_slash (op : string) : bool :=
  existsb (fun c => bool_decide (c = Ascii.ascii_of_N 47)) (String.list_ascii_of_string op).

Definition fg_post (claim group op : string) (req : HttpRequest) (suppress_service : bool) (request_url : string)
    : fg_handler FgResponse :=
  refused ← fg_lock_check (fun s => validate_fg_lock s claim group);
  match refused with
  | Some e => mret (fg_err_response e)
  | None =>
      if has_slash op then mret (fg_err_response BadRequest)
      else
        reserved ← locked (reserve_execution (to_lowercase op));
        match reserved with
        | Err e => mret (fg_err_response e)
        | Ok exec_id =>
            is_async ← (if suppress_service then mret (Ok true) else fg_check_if_async op);
            fg_start_reserved req suppress_service op request_url exec_id is_async
        end
  end.

Definition fg_release (op : string) (exec_id : Uuid) : fg_handler unit :=
  fg_changes (alter_execution (set_in_flight false) op exec_id).

(** The guard of [id::get]: it does not ask whether the execution is created. *)
Definition fg_mark (op : string) (exec_id : Uuid) (executions : ServiceMap FgServiceExecution)
    : ServiceMap FgServiceExecution * result ApiError FgServiceExecution :=
  match find_execution op exec_id executions with
  | None => (executions, Err NotFound)
  | Some exec =>
      if is_in_flight exec then (executions, Err Conflict)
      else (alter_execution (set_in_flight true) op exec_id executions, Ok (set_in_flight true exec))
  end.

Definition fg_results (op : string) (exec_id : Uuid) (d : EcuResponsesData) (executions : ServiceMap FgServiceExecution)
    : ServiceMap FgServiceExecution :=
  let status := match ecu_errors d with [] => Completed | _ => Running end in
  alter_execution (fun e => {| fg_parameters := ecu_response_data d; fg_status := status; fg_in_flight := false;
                               fg_created := fg_created e |}) op exec_id executions.

Definition fg_send_request_results (op : string) (exec_id : Uuid) : fg_handler FgResponse :=
  results ← send_functional_group (operation op REQUEST_RESULTS) None true;
  let d := handle_ecu_responses to_string results in
  _ ← fg_changes (fg_results op exec_id d);
  mret (fg_respond 200 (FgAsyncGetByIdResponse (match ecu_errors d with [] => Completed | _ => Running end)
                          (ecu_response_data d) (ecu_errors d))).

Definition no_request_results : FieldError :=
  {| path := [ch_slash]; error := error_response (CodeVendorSpecific, Some VendorBadRequest) None |}.

(** [id::get]. *)
Definition fg_get (claim group op id : string) (suppress_service : bool) : fg_handler FgResponse :=
  refused ← fg_lock_check (fun s => validate_fg_lock s claim group);
  match refused with
  | Some e => mret (fg_err_response e)
  | None =>
      match parse_str id with
      | None => mret (fg_err_response BadRequest)
      | Some exec_id =>
          marked ← locked (fun _ => fg_mark op exec_id);
          match marked with
          | Err e => mret (fg_err_response e)
          | Ok stored =>
              let answer errors := fg_respond 200 (FgAsyncGetByIdResponse (fg_status stored) (fg_parameters stored) errors) in
              if suppress_service then _ ← fg_release op exec_id; mret (answer [])
              else
                sf ← ask (answer := fg_answer) (GetFunctionalGroupRoutineSubfunctions op);
                match sf with
                | Err e => _ ← fg_release op exec_id; mret (fg_err_response (api_error e))
                | Ok sf =>
                    if negb (has_request_results sf) then _ ← fg_release op exec_id; mret (answer [no_request_results])
                    else fg_send_request_results op exec_id
                end
          end
      end
  end.

(** [delete]. *)
Definition fg_delete (claim group op id : string) (suppress_service force : bool) : fg_handler FgResponse :=
  refused ← fg_lock_check (fun s => validate_fg_lock s claim group);
  match refused with
  | Some e => mret (fg_err_response e)
  | None =>
      match parse_str id with
      | None => mret (fg_err_response BadRequest)
      | Some exec_id =>
          guarded ← locked (fun _ => guard_execution op exec_id);
          match guarded with
          | Err e => mret (fg_err_response e)
          | Ok _ =>
              if suppress_service then _ ← fg_changes (remove_execution op exec_id); mret (fg_respond 204 FgNoBody)
              else
                results ← send_functional_group (operation op STOP) None true;
                let d := handle_ecu_responses to_string results in
                match ecu_errors d with
                | [] => _ ← fg_changes (remove_execution op exec_id); mret (fg_respond 204 FgNoBody)
                | _ =>
                    if force then _ ← fg_changes (remove_execution op exec_id); mret (build_operation_response d)
                    else _ ← fg_release op exec_id; mret (build_operation_response d)
                end
          end
      end
  end.
End handlers.

(** ** Slots *)

Section slots.
Context {ext : Externals} (to_string : spec_float -> str) (to_lowercase : string -> string).
Context (parse_str : string -> option Uuid) (uuid_text : Uuid -> string).

Definition fg_is_operation (q : fg_request) : Prop := match q with SendFunctionalGroup _ _ _ => True | _ => False end.

Abbreviation on_slot :=
  (tracked (answer := fg_answer) (E := Moment) (T := ServiceMap FgServiceExecution) held_in fg_is_operation fresh_in stays_quiet).
Abbreviation anything := (fun _ _ => True).

Lemma fg_slot_changes own own' f (post : option (string * Uuid) -> unit -> Prop) :
  (forall now m, slot_moves now own own' m (f m)) -> post own' tt -> on_slot own (fg_changes f) post.
Proof. intros Hf Hp. apply tracked_locked. intros now m _ _. exists own'. split; [apply Hf|done]. Qed.

Lemma fg_slot_done op i f r : (forall now m, slot_moves now (Some (op, i)) None m (f m)) ->
  on_slot (Some (op, i)) (_ ← fg_changes f; mret (M := async fg_answer Moment (ServiceMap FgServiceExecution)) (A := FgResponse) r) anything.
Proof. intros Hf. by apply tracked_bind, fg_slot_changes with (own' := None). Qed.

Lemma fg_slot_lock_check {A} f (k : option ApiError -> async fg_answer Moment (ServiceMap FgServiceExecution) A) post :
  (forall a, on_slot None (k a) post) -> on_slot None (fg_lock_check f ≫= k) post.
Proof. intros Hk. apply tracked_bind, tracked_locked. intros now t _ _. exists None. split; [apply slot_moves_refl|apply Hk]. Qed.

Lemma fg_finish_tracked op url i is_async results :
  on_slot (Some (to_lowercase op, i)) (fg_finish_post to_string to_lowercase uuid_text op url i is_async results) anything.
Proof. destruct is_async; apply fg_slot_done; intros now m; auto with slots. Qed.

Lemma fg_start_tracked req suppress op url i is_async :
  on_slot (Some (to_lowercase op, i)) (fg_start_reserved to_string to_lowercase uuid_text req suppress op url i is_async) anything.
Proof.
  destruct is_async as [is_async|e]; [|apply fg_slot_done; intros now m; auto with slots]. cbn [fg_start_reserved].
  destruct (fg_parse_request req suppress) as [[data json]|e]; [|apply fg_slot_done; intros now m; auto with slots].
  apply tracked_bind. destruct suppress; [apply fg_finish_tracked|]. split; [by eexists|]. intros r. apply fg_finish_tracked.
Qed.

Lemma fg_post_tracked claim group op req suppress url :
  on_slot None (fg_post to_string to_lowercase uuid_text claim group op req suppress url) anything.
Proof.
  apply fg_slot_lock_check. intros [e|]; [done|]. destruct (has_slash op); [done|].
  apply tracked_bind, tracked_locked. intros now m Hf _. pose proof (reserved now (to_lowercase op) m Hf) as Hr.
  destruct (reserve_execution (to_lowercase op) now m) as [m' [id|e]].
  2: { exists None. cbn. subst m'. split; [apply slot_moves_refl|done]. }
  exists (Some (to_lowercase op, id)). split; [by apply Hr|]. apply tracked_bind. destruct suppress; [apply fg_start_tracked|].
  apply tracked_bind. split; [done|]. intros r. apply fg_start_tracked.
Qed.

Lemma fg_delete_tracked claim group op id suppress force :
  on_slot None (fg_delete to_string parse_str claim group op id suppress force) anything.
Proof.
  apply fg_slot_lock_check. intros [e|]; [done|]. destruct (parse_str id) as [i|]; [|done].
  apply tracked_bind, tracked_locked. intros now m _ _. pose proof (guarded now op i m) as Hg.
  destruct (guard_execution op i m) as [m' [e|e]].
  2: { exists None. cbn. subst m'. split; [apply slot_moves_refl|done]. }
  exists (Some (op, i)). split; [done|]. cbn [snd].
  assert (Hdone : forall f r, (forall now m, slot_moves now (Some (op, i)) None m (f m)) ->
    on_slot (Some (op, i)) (_ ← fg_changes f; mret r) anything) by apply fg_slot_done.
  destruct suppress; [apply Hdone; intros now' m''; auto with slots|]. split; [by eexists|]. intros r.
  cbn. destruct (ecu_errors (handle_ecu_responses to_string r)); [apply Hdone; intros now' m''; auto with slots|].
  destruct force; apply Hdone; intros now' m''; auto with slots.
Qed.
End slots.

(** ** Names and places *)

(** A routine the group starts, stops and has results of; no ECU answers. *)
Definition ex_group (q : fg_request (ext := reference)) : fg_answer q :=
  match q with
  | GetFunctionalGroupRoutineSubfunctions _ => Ok {| has_stop := true; has_request_results := true |}
  | SendFunctionalGroup _ _ _ => ∅
  end.
Definition ex_lowercase (s : string) : string := if String.eqb s "Routine" then "routine" else s.
Definition ex_group_parse (s : string) : option Uuid := if String.eqb s "7" then Some 7 else None.
Definition ex_group_now : Moment :=
  {| new_v4 := 7; update_in_progress := false;
     lock_state := {| locks := {| vehicle := Some {| id := "lock"; expiration := 0; owner := "tester"; deletion_task := 0;
                                                     cleanup_fn := CleanupVehicle |};
                                  ecu := ∅; functional_group := ∅ |}; tasks := ∅; spawned := 0; uds_calls := [] |} |}.
Definition ex_group_request : HttpRequest (ext := reference) :=
  {| content_type := Some (Some ApplicationJson); accept := None; content_length := None; bytes := []; json := Some ∅ |}.

Definition ex_posted : ServiceMap (FgServiceExecution (ext := reference)) * option FgResponse :=
  run ex_group ex_group_now
    (fg_post (fun _ => []) ex_lowercase (fun _ => "7") "tester" "group" "Routine" ex_group_request false
       "http://host/group/operations/Routine/executions") ∅.

(** The URL a client is told has the word executions twice. *)
Example group_location_doubled :
  (fg_status_code <$> ex_posted.2, ex_posted.2 ≫= fg_location) =
  (Some 202, Some "http://host/group/operations/Routine/executions/executions/7").
Proof. vm_compute. reflexivity. Qed.

(** Under the name with which it was started the execution can be neither read
    nor stopped, and the operation cannot be started again. *)
Example group_name_in_lower_case :
  let status {A} (p : A * option FgResponse) := fg_status_code <$> p.2 in
  status (run ex_group ex_group_now (fg_get (fun _ => []) ex_group_parse "tester" "group" "Routine" "7" true) ex_posted.1) = Some 404 /\
  status (run ex_group ex_group_now (fg_delete (fun _ => []) ex_group_parse "tester" "group" "Routine" "7" true true) ex_posted.1) = Some 404 /\
  status (run ex_group ex_group_now (fg_delete (fun _ => []) ex_group_parse "tester" "group" "routine" "7" true true) ex_posted.1) = Some 204 /\
  status (run ex_group ex_group_now
    (fg_post (fun _ => []) ex_lowercase (fun _ => "7") "tester" "group" "Routine" ex_group_request false "url") ex_posted.1) = Some 409.
Proof. vm_compute. repeat split. Qed.

(** An execution whose results were complete runs again when they are asked for
    once more and an ECU fails, next to one that was started in between. *)
Example two_running_group_executions :
  let e id := (id, {| fg_parameters := ∅; fg_status := if decide (id = 7) then Completed else Running; fg_in_flight := true; fg_created := true |}) in
  let failed := {| ecu_response_data := ∅; ecu_errors := [no_request_results (ext := reference)] |} in
  (fun kv => (kv.1, fg_status kv.2)) <$> entries "routine" (fg_results "routine" 7 failed {[ "routine" := [e 7; e 8] ]}) =
  [(7, Running); (8, Running)].
Proof. vm_compute. reflexivity. Qed.
