(* ===== verification/ComParams.v ===== *)
(** * Communication parameters

    cda-interfaces/src/datatypes/com_params.rs, cda-database/src/datatypes/comparam.rs
    and [find_com_param] of datatypes.rs: reading a parameter from the database
    of an ECU, for a protocol, with the value of the configuration as fallback. *)

From stdpp Require Import strings gmap.
From stdpp Require Import list.
From S2P Require Import Prelude Errors Text Ieee754 Json.
From Stdlib Require Import SpecFloat.

Local Open Scope Z_scope.
Set Warnings "-register-all".

(** ** Values *)

Record Unit : Type := { factor_to_si_unit : option spec_float; offset_to_si_unit : option spec_float }.

Inductive ComParamValue : Type :=
  | Simple (value : str) (unit : option Unit)
  | Complex (entries : gmap string ComParamValue).

Abbreviation ComplexComParamValue := (gmap string ComParamValue).

Inductive ComParamBool : Type := ComParamTrue | ComParamFalse.
Inductive RetryPolicy : Type := Disabled | ContinueUntilTimeout | ContinueUnlimited.
Inductive AddressingMode : Type := Physical | Functional.
Inductive TesterPresentSendType : Type := FixedPeriod | OnIdle.
Inductive ComParamPrecedence : Type := PreferDatabase | PreferConfig.

Record ComParamConfig (T : Type) : Type := { com_param_name : string; com_param_value : T; precedence : ComParamPrecedence }.
Arguments com_param_name {T}. Arguments com_param_value {T}. Arguments precedence {T}.

(** ** Reading a text *)

(** The trait [DeserializableCompParam], passed on explicitly: several of the
    types it is implemented for are numbers here. *)
Record DeserializableCompParam (T : Type) : Type := {
  parse_from_db : str -> option Unit -> option T;
  parse_from_complex : ComplexComParamValue -> option T
}.
Arguments parse_from_db {T}. Arguments parse_from_complex {T}.

Definition simple_only {T} (f : str -> option Unit -> option T) : DeserializableCompParam T :=
  {| parse_from_db := f; parse_from_complex := fun _ => None |}.

(** [str::contains]. *)
Fixpoint contains (needle s : str) : bool :=
  match strip_prefix needle s with
  | Some _ => true
  | None => match s with [] => false | _ :: s => contains needle s end
  end.

Definition one_of (s : str) (l : list string) : bool := existsb (fun w => bool_decide (s = chars w)) l.

Section texts.
Context (to_lowercase : str -> str).

Definition ComParamBool_try_from (value : str) : option ComParamBool :=
  let value := to_lowercase value in
  if one_of value ["enabled"; "true"; "yes"; "on"; "1"; "active"; "open"; "valid"]%string then Some ComParamTrue
  else if one_of value ["disabled"; "false"; "no"; "off"; "0"; "inactive"; "closed"; "invalid"]%string then Some ComParamFalse
  else None.

Definition RetryPolicy_try_from (value : str) : option RetryPolicy :=
  let lc := to_lowercase value in
  if contains (chars "timeout") lc then Some ContinueUntilTimeout
  else if contains (chars "unlimited") lc then Some ContinueUnlimited
  else None.

Definition AddressingMode_try_from (value : str) : option AddressingMode :=
  let lc := to_lowercase value in
  if contains (chars "functional") lc then Some Functional
  else if contains (chars "physical") lc then Some Physical
  else None.

Definition TesterPresentSendType_try_from (value : str) : option TesterPresentSendType :=
  let lc := to_lowercase value in
  if contains (chars "idle") lc then Some OnIdle
  else if contains (chars "fixed") lc then Some FixedPeriod
  else None.

Definition com_bool : DeserializableCompParam ComParamBool := simple_only (fun s _ => ComParamBool_try_from s).
Definition com_retry_policy : DeserializableCompParam RetryPolicy := simple_only (fun s _ => RetryPolicy_try_from s).
Definition com_addressing_mode : DeserializableCompParam AddressingMode := simple_only (fun s _ => AddressingMode_try_from s).
Definition com_send_type : DeserializableCompParam TesterPresentSendType :=
  simple_only (fun s _ => TesterPresentSendType_try_from s).
End texts.

Definition U16_MAX : Z := 2 ^ 16 - 1.
Definition parse_u16 (s : str) : option Z := from_str_radix 0 U16_MAX s 10.

Definition com_can_id : DeserializableCompParam (option Z) := simple_only (fun s _ => Some <$> parse_u32_maybe_hex s).
Definition com_u32 : DeserializableCompParam Z := simple_only (fun s _ => parse_u32 s).
Definition com_u16 : DeserializableCompParam Z := simple_only (fun s _ => parse_u16 s).

(** [serde_json::from_str] at the types it is used for. *)
Class SerdeJson : Type := {
  json_bytes : str -> option (list Z);
  json_u32_map : str -> option (gmap string Z);
  json_u32 : str -> option Z
}.

Section json.
Context {ext : Externals} {serde : SerdeJson}.

(** [HashMap<String, u32>]. *)
Definition com_u32_map : DeserializableCompParam (gmap string Z) := {|
  parse_from_db s _ := json_u32_map s;
  parse_from_complex complex :=
    foldr (fun '(key, value) m =>
             m ← m;
             match value with
             | Simple s _ => v ← json_u32 s; Some (<[key := v]> m)
             | Complex _ => None
             end) (Some ∅) (map_to_list complex)
|}.

Definition com_bytes : DeserializableCompParam (list Z) :=
  simple_only (fun s _ => match json_bytes s with Some l => Some l | None => hex_decode s end).
End json.

(** A [Duration] is counted in microseconds. *)
Definition default_factor : spec_float := of_decimal F64 false 1 (-6).
Definition micros_per_second : spec_float := of_Z F64 1000000.
Definition f64_mul : spec_float -> spec_float -> spec_float := SFmul (prec F64) (emax F64).

Definition duration_from_db (input : str) (unit : option Unit) : option Z :=
  value ← parse_float F64 input;
  if SFleb value (S754_zero false) then None
  else
    let factor := default default_factor (u ← unit; factor_to_si_unit u) in
    Some (as_int 0 U64_MAX (f64_mul (f64_mul value factor) micros_per_second)).

Definition com_duration : DeserializableCompParam Z := simple_only duration_from_db.

(** ** The database *)

(** [dataformat::Unit], and a [DOP]: [None] when it is no [NormalDOP], which
    may have a unit. *)
Record FbUnit : Type := { factorsitounit : option spec_float; offsetitounit : option spec_float }.
Record ComParamDop : Type := { normal_dop : option (option FbUnit) }.

Inductive ComParamType : Type := REGULAR | COMPLEX | UnknownComParamType.

(** The union of a parameter has a table for either type. *)
Inductive ComParam : Type :=
  | MkComParam (cp_short_name : option string) (com_param_type : ComParamType)
      (regular : option (option ComParamDop)) (complex : option (option (list ComParam))).

Inductive ComplexValue : Type :=
  | MkComplexValue (entries : list ComplexValueEntry)
with ComplexValueEntry : Type :=
  | SimpleEntry (value : option str)
  | ComplexEntry (value : ComplexValue)
  | OtherEntry.

(** A protocol is known by its name. *)
Record ComParamRef : Type := {
  com_param : option ComParam;
  ref_protocol : option (option string);
  simple_value : option (option str);
  complex_value : option ComplexValue
}.

Definition cp_short_name (self : ComParam) : option string := let '(MkComParam n _ _ _) := self in n.
Definition entries_item (self : ComplexValue) (i : nat) : option ComplexValueEntry :=
  let '(MkComplexValue l) := self in l !! i.

Definition extract_dop_unit (dop : ComParamDop) : option Unit :=
  (fun u => {| factor_to_si_unit := u ← u; factorsitounit u; offset_to_si_unit := u ← u; offsetitounit u |})
    <$> normal_dop dop.

Definition required {A} (o : option A) : presult A := ok_or o (Failed InvalidDatabase).

(** The values of the parts are looked up in [complex_value] by their place,
    those of a part which is complex itself as well. *)
Fixpoint resolve_complex_value (com_param : ComParam) (complex_value : ComplexValue) {struct com_param}
    : presult (string * ComParamValue) :=
  let '(MkComParam short_name com_param_type _ complex) := com_param in
  name ← required short_name;
  match com_param_type, complex with
  | COMPLEX, Some (Some com_params) =>
      entries ← (fix go (i : nat) (l : list ComParam) (m : gmap string ComParamValue) : presult (gmap string ComParamValue) :=
        match l with
        | [] => Ok m
        | (MkComParam short_name com_param_type regular _) as cp :: l =>
            short_name ← required short_name;
            entry ← match com_param_type, entries_item complex_value i with
                    | REGULAR, Some (SimpleEntry value) =>
                        regular ← required regular;
                        value ← required value;
                        Ok (short_name, Simple value (d ← regular; extract_dop_unit d))
                    | COMPLEX, Some (ComplexEntry _) => resolve_complex_value cp complex_value
                    | _, _ => Err (Failed InvalidDatabase)
                    end;
            go (S i) l (<[fst entry := snd entry]> m)
        end) 0%nat com_params ∅;
      Ok (name, Complex entries)
  | COMPLEX, _ => Err (Failed InvalidDatabase)
  | _, _ => Err Panicked
  end.

Definition resolve_with_value (cpref : ComParamRef) (com_param : ComParam) : presult (string * ComParamValue) :=
  let '(MkComParam short_name com_param_type regular _) := com_param in
  match simple_value cpref, complex_value cpref with
  | Some _, Some _ => Err (Failed InvalidDatabase)
  | simple, complex =>
      name ← required short_name;
      match simple, complex with
      | Some value, _ =>
          value ← required value;
          match com_param_type with
          | REGULAR =>
              regular ← required regular;
              dop ← required regular;
              Ok (name, Simple value (extract_dop_unit dop))
          | _ => Err Panicked
          end
      | None, Some complex => resolve_complex_value com_param complex
      | None, None => Err (Failed InvalidDatabase)
      end
  end.

Definition resolve_comparam (cpref : ComParamRef) : presult (string * ComParamValue) :=
  cp ← required (com_param cpref);
  resolve_with_value cpref cp.

(** *** The parts of a database this reads *)

(** A variant or a functional group: the protocols among its parents, and the
    references of its layer. *)
Record LayerRefs : Type := {
  is_base_variant : bool;
  parent_protocols : list (option string);
  diag_layer_refs : option (option (list ComParamRef))
}.

Record EcuData : Type := {
  fb_ecu_name : option string;
  fb_revision : option string;
  variants : option (list LayerRefs);
  functional_groups : option (list LayerRefs)
}.

(** [DiagnosticDatabase]; [ecu_data] is [None] while it is not loaded. *)
Record DiagnosticDatabase : Type := { ignore_protocol : bool; db_ecu_data : option EcuData }.

Definition ecu_data (self : DiagnosticDatabase) : dresult EcuData := ok_or (db_ecu_data self) InvalidDatabase.

Definition base_variant (self : DiagnosticDatabase) : dresult LayerRefs :=
  ecu_data ← ecu_data self;
  ok_or (v ← variants ecu_data; List.find is_base_variant v) InvalidDatabase.

Definition protocols (self : DiagnosticDatabase) : dresult (list (option string)) :=
  ecu_data ← ecu_data self;
  let layers := default [] (variants ecu_data) ++ default [] (functional_groups ecu_data) in
  Ok (concat (parent_protocols <$> layers) ++
      concat ((fun l => omap ref_protocol (default [] (r ← diag_layer_refs l; r))) <$> layers)).

Definition unique_protocol_count (self : DiagnosticDatabase) : dresult nat :=
  protocols ← protocols self; Ok (length (remove_dups (omap id protocols))).

Definition ensure_ignore_protocol_allowed (self : DiagnosticDatabase) : dresult () :=
  count ← unique_protocol_count self; if (1 <? count)%nat then Err InvalidDatabase else Ok tt.

(** The end of [new_from_bytes]. *)
Definition checked_database (db : DiagnosticDatabase) : dresult DiagnosticDatabase :=
  if ignore_protocol db then _ ← ensure_ignore_protocol_allowed db; Ok db else Ok db.

(** *** Looking a parameter up *)

Definition is_named (name : string) (cp_ref : ComParamRef) : bool :=
  bool_decide ((cp ← com_param cp_ref; cp_short_name cp) = Some name).

Definition has_protocol (protocol_name : option string) (cp_ref : ComParamRef) : bool :=
  match (p ← ref_protocol cp_ref; p), protocol_name with
  | Some sn, Some pn => eq_ignore_ascii_case (chars sn) (chars pn)
  | _, _ => false
  end.

(** [protocol] is the name of the protocol, if there is one. *)
Definition comparam_lookup (ecu_data : DiagnosticDatabase) (protocol : option (option string)) (param_name : string)
    : presult ComParamValue :=
  protocol_name ← match protocol with
                  | Some proto => Some <$> required proto
                  | None => if ignore_protocol ecu_data then Ok None else Err (Failed InvalidDatabase)
                  end;
  variant ← fallible (base_variant ecu_data);
  match List.find (fun cp_ref => is_named param_name cp_ref && (ignore_protocol ecu_data || has_protocol protocol_name cp_ref))
          (default [] (r ← diag_layer_refs variant; r)) with
  | None => Err (Failed NotFound)
  | Some cp_ref => snd <$> resolve_comparam cp_ref
  end.

(** A lookup that fails leaves the value of the configuration; a panic is one. *)
Definition find_com_param {T} (D : DeserializableCompParam T) (db : DiagnosticDatabase) (protocol : option (option string))
    (com_param : ComParamConfig T) : presult T :=
  match precedence com_param with
  | PreferConfig => Ok (com_param_value com_param)
  | PreferDatabase =>
      match comparam_lookup db protocol (com_param_name com_param) with
      | Ok (Simple value unit) => Ok (default (com_param_value com_param) (parse_from_db D value unit))
      | Ok (Complex complex) => ok_or (parse_from_complex D complex) (Failed ParameterConversionError)
      | Err (Failed _) => Ok (com_param_value com_param)
      | Err e => Err e
      end
  end.
