(* ===== verification/EcuDescription.v ===== *)
(** * The description of an ECU

    [EcuManager::new] of cda-core/src/diag_kernel/ecumanager.rs with
    [into_db_protocol], [find_logical_address] and cda-interfaces/src/can_id.rs:
    what the rest of the program knows of an ECU before it talks to it. *)

From stdpp Require Import strings gmap.
From S2P Require Import Prelude Errors Text Ieee754 Json ComParams.
From stdpp Require Import list.

Local Open Scope Z_scope.
Set Warnings "-register-all".

(** ** CAN identifiers *)

Inductive CanId : Type := Standard (id : Z) | Extended (id : Z).

#[export] Instance CanId_eq_dec : EqDecision CanId.
Proof. solve_decision. Defined.

Definition raw (self : CanId) : Z := match self with Standard id | Extended id => id end.

Definition CanId_try_from (id : Z) : option CanId :=
  if id <=? 0x7FF then Some (Standard id) else if id <=? 0x1FFFFFFF then Some (Extended id) else None.

Record CanIds : Type := { can_request : CanId; can_response : CanId }.

#[export] Instance CanIds_eq_dec : EqDecision CanIds.
Proof. solve_decision. Defined.

Definition CanIds_try_from_raw (request response : Z) : option CanIds :=
  request ← CanId_try_from request; response ← CanId_try_from response;
  Some {| can_request := request; can_response := response |}.

(** ** The configuration *)

Record UdsComParams : Type := {
  tester_present_retry_policy : ComParamConfig ComParamBool;
  tester_present_addr_mode : ComParamConfig AddressingMode;
  tester_present_response_expected : ComParamConfig ComParamBool;
  tester_present_send_type : ComParamConfig TesterPresentSendType;
  tester_present_message : ComParamConfig (list Z);
  tester_present_exp_pos_resp : ComParamConfig (list Z);
  tester_present_exp_neg_resp : ComParamConfig (list Z);
  tester_present_time : ComParamConfig Z;
  repeat_req_count_app : ComParamConfig Z;
  rc_21_retry_policy : ComParamConfig RetryPolicy;
  rc_21_completion_timeout : ComParamConfig Z;
  rc_21_repeat_request_time : ComParamConfig Z;
  rc_78_retry_policy : ComParamConfig RetryPolicy;
  rc_78_completion_timeout : ComParamConfig Z;
  rc_78_timeout : ComParamConfig Z;
  rc_94_retry_policy : ComParamConfig RetryPolicy;
  rc_94_completion_timeout : ComParamConfig Z;
  rc_94_repeat_request_time : ComParamConfig Z;
  timeout_default : ComParamConfig Z
}.

Record DoipComParams : Type := {
  logical_gateway_address : ComParamConfig Z;
  logical_response_id_table_name : string;
  logical_ecu_address : ComParamConfig Z;
  logical_functional_address : ComParamConfig Z;
  logical_tester_address : ComParamConfig Z;
  nack_number_of_retries : ComParamConfig (gmap string Z);
  diagnostic_ack_timeout : ComParamConfig Z;
  retry_period : ComParamConfig Z;
  routing_activation_timeout : ComParamConfig Z;
  repeat_request_count_transmission : ComParamConfig Z;
  connection_timeout : ComParamConfig Z;
  connection_retry_delay : ComParamConfig Z;
  connection_retry_attempts : ComParamConfig Z
}.

Record CanComParams : Type := {
  physical_request_id : ComParamConfig (option Z);
  physical_response_id : ComParamConfig (option Z);
  functional_id : ComParamConfig (option Z);
  unique_resp_id_table_name : string
}.

Record ComParams : Type := { uds : UdsComParams; doip : DoipComParams; can : CanComParams }.

Definition from_database {T} (name : string) (value : T) : ComParamConfig T :=
  {| com_param_name := name; com_param_value := value; precedence := PreferDatabase |}.

Definition seconds (n : Z) : Z := n * 1000000.
Definition millis (n : Z) : Z := n * 1000.

Definition UdsComParams_default : UdsComParams := {|
  tester_present_retry_policy := from_database "CP_TesterPresentHandling" ComParamTrue;
  tester_present_addr_mode := from_database "CP_TesterPresentAddrMode" Physical;
  tester_present_response_expected := from_database "CP_TesterPresentReqResp" ComParamTrue;
  tester_present_send_type := from_database "CP_TesterPresentSendType" OnIdle;
  tester_present_message := from_database "CP_TesterPresentMessage" [0x3E; 0x00];
  tester_present_exp_pos_resp := from_database "CP_TesterPresentExpPosResp" [0x7E; 0x00];
  tester_present_exp_neg_resp := from_database "CP_TesterPresentExpNegResp" [0x7F; 0x3E];
  tester_present_time := from_database "CP_TesterPresentTime" (seconds 2);
  repeat_req_count_app := from_database "CP_RepeatReqCountApp" 2;
  rc_21_retry_policy := from_database "CP_RC21Handling" ContinueUntilTimeout;
  rc_21_completion_timeout := from_database "CP_RC21CompletionTimeout" (seconds 25);
  rc_21_repeat_request_time := from_database "CP_RC21RequestTime" (millis 200);
  rc_78_retry_policy := from_database "CP_RC78Handling" ContinueUntilTimeout;
  rc_78_completion_timeout := from_database "CP_RC78CompletionTimeout" (seconds 25);
  rc_78_timeout := from_database "CP_P6Star" (seconds 1);
  rc_94_retry_policy := from_database "CP_RC94Handling" ContinueUntilTimeout;
  rc_94_completion_timeout := from_database "CP_RC94CompletionTimeout" (seconds 25);
  rc_94_repeat_request_time := from_database "CP_RC94RequestTime" (millis 200);
  timeout_default := from_database "CP_P6Max" (seconds 1)
|}.

Definition DoipComParams_default : DoipComParams := {|
  logical_gateway_address := from_database "CP_DoIPLogicalGatewayAddress" 0;
  logical_response_id_table_name := "CP_UniqueRespIdTable";
  logical_ecu_address := from_database "CP_DoIPLogicalEcuAddress" 0;
  logical_functional_address := from_database "CP_DoIPLogicalFunctionalAddress" 0;
  logical_tester_address := from_database "CP_DoIPLogicalTesterAddress" 0;
  nack_number_of_retries := from_database "CP_DoIPNumberOfRetries" {["0x03" := 3]};
  diagnostic_ack_timeout := from_database "CP_DoIPDiagnosticAckTimeout" (seconds 1);
  retry_period := from_database "CP_DoIPRetryPeriod" (millis 200);
  routing_activation_timeout := from_database "CP_DoIPRoutingActivationTimeout" (seconds 30);
  repeat_request_count_transmission := from_database "CP_RepeatReqCountTrans" 3;
  connection_timeout := from_database "CP_DoIPConnectionTimeout" (seconds 30);
  connection_retry_delay := from_database "CP_DoIPConnectionRetryDelay" (seconds 5);
  connection_retry_attempts := from_database "CP_DoIPConnectionRetryAttempts" 100
|}.

Definition CanComParams_default : CanComParams := {|
  physical_request_id := from_database "CP_CanPhysReqId" None;
  physical_response_id := from_database "CP_CanRespUSDTId" None;
  functional_id := from_database "CP_CanFuncReqId" None;
  unique_resp_id_table_name := "CP_UniqueRespIdTable"
|}.

Definition ComParams_default : ComParams :=
  {| uds := UdsComParams_default; doip := DoipComParams_default; can := CanComParams_default |}.

(** ** The protocol *)

(** The part of [DatabaseNamingConvention] for CAN. *)
Record CanNaming : Type := { can_protocol_aliases : list string; can_protocol_markers : list string }.

Definition CanNaming_default : CanNaming := {|
  can_protocol_aliases := ["UDS_CAN"; "ISO_11898_2_DWCAN"; "ISO_11898_3_DWFTCAN"; "CAN"; "ISO_15765_2"; "ISO_15765_3"]%string;
  can_protocol_markers := ["CAN"; "ISO_11898"]%string
|}.

Definition same_protocol (a b : string) : bool := eq_ignore_ascii_case (chars a) (chars b).
Definition ascii_upper (s : string) : str := to_ascii_uppercase <$> chars s.

(** A protocol is its name; one without a name can only be the first. *)
Definition into_db_protocol (database : DiagnosticDatabase) (naming : CanNaming) (protocol_name : string) : dresult (option string) :=
  all_protocols ← protocols database;
  let find_by_name name :=
    List.find (fun p => match p with Some sn => same_protocol sn name | None => false end) all_protocols in
  if String.eqb protocol_name "auto-can" then
    ok_or (List.find (fun p => match p with
                               | Some sn => existsb (fun marker => contains (ascii_upper marker) (ascii_upper sn)) (can_protocol_markers naming)
                               | None => false
                               end) all_protocols) InvalidDatabase
  else
    match find_by_name protocol_name with
    | Some p => Ok p
    | None =>
        match (if existsb (fun alias => same_protocol alias protocol_name) (can_protocol_aliases naming)
               then head (omap find_by_name (can_protocol_aliases naming)) else None) with
        | Some p => Ok p
        | None => if ignore_protocol database then ok_or (head all_protocols) InvalidDatabase else Err InvalidDatabase
        end
    end.

(** ** Addresses *)

Inductive LogicalAddressType : Type :=
  | EcuAddress (response_id_table ecu_address : string)
  | GatewayAddress (name : string)
  | FunctionalAddress (name : string).

Definition find_logical_address (db : DiagnosticDatabase) (type_ : LogicalAddressType) (protocol : option (option string))
    : presult Z :=
  let '(param_name, additional_param_name) :=
    match type_ with
    | EcuAddress response_id_table ecu_address => (response_id_table, Some ecu_address)
    | GatewayAddress p | FunctionalAddress p => (p, None)
    end in
  value ← comparam_lookup db protocol param_name;
  match value with
  | Simple value _ => ok_or (parse_u16 value) (Failed ParameterConversionError)
  | Complex complex =>
      additional ← required additional_param_name;
      match complex !! additional with
      | Some (Simple value _) => ok_or (parse_u16 value) (Failed ParameterConversionError)
      | _ => Err (Failed InvalidDatabase)
      end
  end.

Record DoipLogicalAddress : Type := { address : Z; is_comparam_default : bool }.

(** A failed lookup is logged; a panic is one. *)
Definition or_absent {A} (r : presult A) (absent : A) : presult A :=
  match r with Err (Failed _) => Ok absent | r => r end.

Definition resolve_logical_address (db : DiagnosticDatabase) (data_protocol : option (option string)) (config : ComParamConfig Z)
    (addr_type : LogicalAddressType) : presult DoipLogicalAddress :=
  match precedence config with
  | PreferConfig => Ok {| address := com_param_value config; is_comparam_default := false |}
  | PreferDatabase =>
      or_absent (a ← find_logical_address db addr_type data_protocol; Ok {| address := a; is_comparam_default := false |})
        {| address := com_param_value config; is_comparam_default := true |}
  end.

(** [str::trim]. *)
Definition trim (s : str) : str :=
  let strip := fix strip (s : str) : str := match s with c :: s' => if is_whitespace c then strip s' else s | [] => [] end in
  reverse (strip (reverse (strip s))).

Definition can_id_from_table (entries : ComplexComParamValue) (param_name : string) : option Z :=
  match entries !! param_name with
  | Some (Simple value _) => parse_u32_maybe_hex (trim value)
  | _ => None
  end.

Definition resolve_can_id_table (db : DiagnosticDatabase) (data_protocol : option (option string)) (com_params : ComParams)
    : presult (option ComplexComParamValue) :=
  or_absent (v ← comparam_lookup db data_protocol (unique_resp_id_table_name (can com_params));
             Ok (match v with Complex entries => Some entries | Simple _ _ => None end)) None.

Definition resolve_can_id (db : DiagnosticDatabase) (data_protocol : option (option string)) (table : option ComplexComParamValue)
    (config : ComParamConfig (option Z)) : presult (option Z) :=
  match precedence config with
  | PreferConfig => Ok (com_param_value config)
  | PreferDatabase =>
      match (entries ← table; can_id_from_table entries (com_param_name config)) with
      | Some id => Ok (Some id)
      | None => or_absent (find_com_param com_can_id db data_protocol config) None
      end
  end.

(** ** [EcuManager::new] *)

Definition U8_MAX : Z := 2 ^ 8 - 1.

Definition map_nack_number_of_retries (name : string) (value : Z) : presult (Z * Z) :=
  let key := match try_strip_hex_prefix (chars name) with
             | Some hex_str => from_str_radix 0 U8_MAX hex_str 16
             | None => from_str_radix 0 U8_MAX (chars name) 10
             end in
  key ← ok_or key (Failed ParameterConversionError); Ok (key, value).

(** Of two names of one code either wins, by the order of the source's map. *)
Definition nack_retries (m : gmap string Z) : presult (gmap Z Z) :=
  foldr (fun '(name, value) acc =>
           acc ← acc; kv ← map_nack_number_of_retries name value; Ok (<[fst kv := snd kv]> acc))
    (Ok ∅) (map_to_list m).

Inductive EcuManagerType : Type := Ecu | FunctionalDescription.

Record UdsParams : Type := {
  p_tester_present_retry_policy : ComParamBool; p_tester_present_addr_mode : AddressingMode;
  p_tester_present_response_expected : ComParamBool; p_tester_present_send_type : TesterPresentSendType;
  p_tester_present_message : list Z; p_tester_present_exp_pos_resp : list Z; p_tester_present_exp_neg_resp : list Z;
  p_tester_present_time : Z; p_repeat_req_count_app : Z;
  p_rc_21_retry_policy : RetryPolicy; p_rc_21_completion_timeout : Z; p_rc_21_repeat_request_time : Z;
  p_rc_78_retry_policy : RetryPolicy; p_rc_78_completion_timeout : Z; p_rc_78_timeout : Z;
  p_rc_94_retry_policy : RetryPolicy; p_rc_94_completion_timeout : Z; p_rc_94_repeat_request_time : Z;
  p_timeout_default : Z
}.

Record DoipParams : Type := {
  p_nack_number_of_retries : gmap Z Z; p_diagnostic_ack_timeout : Z; p_retry_period : Z;
  p_routing_activation_timeout : Z; p_repeat_request_count_transmission : Z; p_connection_timeout : Z;
  p_connection_retry_delay : Z; p_connection_retry_attempts : Z
}.

(** The fields of [EcuManager] that are read from the database once. *)
Record EcuDescription : Type := {
  ecu_name : string;
  description_type : EcuManagerType;
  revision : string;
  ecu_protocol : string;
  tester_address : Z;
  logical_address : Z;
  gateway_address : Z;
  functional_address : Z;
  doip_addresses_resolved : bool;
  can_ids : option CanIds;
  can_functional_id : option CanId;
  doip_params : DoipParams;
  uds_params : UdsParams;
  duplicating_ecu_names : option (gset string)
}.

Section description.
Context {ext : Externals} {serde : SerdeJson} (to_lowercase : str -> str).

(** [EcuManager::revision]. *)
Definition database_revision (db : DiagnosticDatabase) : string :=
  default "0.0.0"%string (d ← result_ok (ecu_data db); fb_revision d).

Definition database_name (db : DiagnosticDatabase) : presult string :=
  d ← fallible (ecu_data db); required (fb_ecu_name d).

Section resolved.
Context (db : DiagnosticDatabase) (data_protocol : option (option string)).

Definition resolve_doip_params (c : DoipComParams) (nack : gmap Z Z) : presult DoipParams :=
  ack ← find_com_param com_duration db data_protocol (diagnostic_ack_timeout c);
  period ← find_com_param com_duration db data_protocol (retry_period c);
  routing ← find_com_param com_duration db data_protocol (routing_activation_timeout c);
  repeat ← find_com_param com_u32 db data_protocol (repeat_request_count_transmission c);
  timeout ← find_com_param com_duration db data_protocol (connection_timeout c);
  delay ← find_com_param com_duration db data_protocol (connection_retry_delay c);
  attempts ← find_com_param com_u32 db data_protocol (connection_retry_attempts c);
  Ok {| p_nack_number_of_retries := nack; p_diagnostic_ack_timeout := ack; p_retry_period := period;
        p_routing_activation_timeout := routing; p_repeat_request_count_transmission := repeat;
        p_connection_timeout := timeout; p_connection_retry_delay := delay; p_connection_retry_attempts := attempts |}.

Definition resolve_uds_params (c : UdsComParams) : presult UdsParams :=
  policy ← find_com_param (com_bool to_lowercase) db data_protocol (tester_present_retry_policy c);
  mode ← find_com_param (com_addressing_mode to_lowercase) db data_protocol (tester_present_addr_mode c);
  expected ← find_com_param (com_bool to_lowercase) db data_protocol (tester_present_response_expected c);
  send ← find_com_param (com_send_type to_lowercase) db data_protocol (tester_present_send_type c);
  message ← find_com_param com_bytes db data_protocol (tester_present_message c);
  pos ← find_com_param com_bytes db data_protocol (tester_present_exp_pos_resp c);
  neg ← find_com_param com_bytes db data_protocol (tester_present_exp_neg_resp c);
  time ← find_com_param com_duration db data_protocol (tester_present_time c);
  repeat ← find_com_param com_u32 db data_protocol (repeat_req_count_app c);
  p21 ← find_com_param (com_retry_policy to_lowercase) db data_protocol (rc_21_retry_policy c);
  t21 ← find_com_param com_duration db data_protocol (rc_21_completion_timeout c);
  r21 ← find_com_param com_duration db data_protocol (rc_21_repeat_request_time c);
  p78 ← find_com_param (com_retry_policy to_lowercase) db data_protocol (rc_78_retry_policy c);
  t78 ← find_com_param com_duration db data_protocol (rc_78_completion_timeout c);
  r78 ← find_com_param com_duration db data_protocol (rc_78_timeout c);
  p94 ← find_com_param (com_retry_policy to_lowercase) db data_protocol (rc_94_retry_policy c);
  t94 ← find_com_param com_duration db data_protocol (rc_94_completion_timeout c);
  r94 ← find_com_param com_duration db data_protocol (rc_94_repeat_request_time c);
  timeout ← find_com_param com_duration db data_protocol (timeout_default c);
  Ok {| p_tester_present_retry_policy := policy; p_tester_present_addr_mode := mode;
        p_tester_present_response_expected := expected; p_tester_present_send_type := send;
        p_tester_present_message := message; p_tester_present_exp_pos_resp := pos; p_tester_present_exp_neg_resp := neg;
        p_tester_present_time := time; p_repeat_req_count_app := repeat;
        p_rc_21_retry_policy := p21; p_rc_21_completion_timeout := t21; p_rc_21_repeat_request_time := r21;
        p_rc_78_retry_policy := p78; p_rc_78_completion_timeout := t78; p_rc_78_timeout := r78;
        p_rc_94_retry_policy := p94; p_rc_94_completion_timeout := t94; p_rc_94_repeat_request_time := r94;
        p_timeout_default := timeout |}.

Definition resolve_can_ids (com_params : ComParams) : presult (option CanIds * option CanId) :=
  table ← resolve_can_id_table db data_protocol com_params;
  request ← resolve_can_id db data_protocol table (physical_request_id (can com_params));
  response ← resolve_can_id db data_protocol table (physical_response_id (can com_params));
  functional ← resolve_can_id db data_protocol table (functional_id (can com_params));
  Ok (request ← request; response ← response; CanIds_try_from_raw request response,
      id ← functional; CanId_try_from id).
End resolved.

Definition select_protocol (db : DiagnosticDatabase) (naming : CanNaming) (protocol : string)
    : presult (option (option string)) :=
  all_protocols ← fallible (protocols db);
  if bool_decide (all_protocols = []) && ignore_protocol db then Ok None
  else p ← fallible (into_db_protocol db naming protocol); Ok (Some p).

(** [variant_detection] is what [prepare_variant_detection] makes of the
    database; it is done first and kept aside. *)
Definition new_ecu_description {V} (variant_detection : dresult V) (db : DiagnosticDatabase) (naming : CanNaming)
    (protocol : string) (com_params : ComParams) : presult EcuDescription :=
  _ ← fallible variant_detection;
  data_protocol ← select_protocol db naming protocol;
  let d := doip com_params in
  gateway ← resolve_logical_address db data_protocol (logical_gateway_address d)
              (GatewayAddress (com_param_name (logical_gateway_address d)));
  ecu ← resolve_logical_address db data_protocol (logical_ecu_address d)
          (EcuAddress (logical_response_id_table_name d) (com_param_name (logical_ecu_address d)));
  functional ← resolve_logical_address db data_protocol (logical_functional_address d)
                 (FunctionalAddress (com_param_name (logical_functional_address d)));
  retries ← find_com_param com_u32_map db data_protocol (nack_number_of_retries d);
  nack ← nack_retries retries;
  can_ids ← resolve_can_ids db data_protocol com_params;
  name ← database_name db;
  tester ← find_com_param com_u16 db data_protocol (logical_tester_address d);
  doip ← resolve_doip_params db data_protocol d nack;
  uds ← resolve_uds_params db data_protocol (uds com_params);
  Ok {| ecu_name := name; description_type := Ecu; revision := database_revision db; ecu_protocol := protocol;
        tester_address := tester; logical_address := address ecu; gateway_address := address gateway;
        functional_address := address functional;
        doip_addresses_resolved := negb (is_comparam_default gateway) && negb (is_comparam_default ecu);
        can_ids := fst can_ids; can_functional_id := snd can_ids; doip_params := doip; uds_params := uds;
        duplicating_ecu_names := None |}.

Definition configured_doip_params (c : DoipComParams) (nack : gmap Z Z) : DoipParams :=
  {| p_nack_number_of_retries := nack; p_diagnostic_ack_timeout := com_param_value (diagnostic_ack_timeout c);
     p_retry_period := com_param_value (retry_period c);
     p_routing_activation_timeout := com_param_value (routing_activation_timeout c);
     p_repeat_request_count_transmission := com_param_value (repeat_request_count_transmission c);
     p_connection_timeout := com_param_value (connection_timeout c);
     p_connection_retry_delay := com_param_value (connection_retry_delay c);
     p_connection_retry_attempts := com_param_value (connection_retry_attempts c) |}.

Definition configured_uds_params (c : UdsComParams) : UdsParams :=
  {| p_tester_present_retry_policy := com_param_value (tester_present_retry_policy c);
     p_tester_present_addr_mode := com_param_value (tester_present_addr_mode c);
     p_tester_present_response_expected := com_param_value (tester_present_response_expected c);
     p_tester_present_send_type := com_param_value (tester_present_send_type c);
     p_tester_present_message := com_param_value (tester_present_message c);
     p_tester_present_exp_pos_resp := com_param_value (tester_present_exp_pos_resp c);
     p_tester_present_exp_neg_resp := com_param_value (tester_present_exp_neg_resp c);
     p_tester_present_time := com_param_value (tester_present_time c);
     p_repeat_req_count_app := com_param_value (repeat_req_count_app c);
     p_rc_21_retry_policy := com_param_value (rc_21_retry_policy c);
     p_rc_21_completion_timeout := com_param_value (rc_21_completion_timeout c);
     p_rc_21_repeat_request_time := com_param_value (rc_21_repeat_request_time c);
     p_rc_78_retry_policy := com_param_value (rc_78_retry_policy c);
     p_rc_78_completion_timeout := com_param_value (rc_78_completion_timeout c);
     p_rc_78_timeout := com_param_value (rc_78_timeout c);
     p_rc_94_retry_policy := com_param_value (rc_94_retry_policy c);
     p_rc_94_completion_timeout := com_param_value (rc_94_completion_timeout c);
     p_rc_94_repeat_request_time := com_param_value (rc_94_repeat_request_time c);
     p_timeout_default := com_param_value (timeout_default c) |}.

Definition new_functional_description (db : DiagnosticDatabase) (protocol : string) (com_params : ComParams)
    : presult EcuDescription :=
  let d := doip com_params in
  nack ← nack_retries (com_param_value (nack_number_of_retries d));
  name ← database_name db;
  Ok {| ecu_name := name; description_type := FunctionalDescription; revision := database_revision db;
        ecu_protocol := protocol;
        tester_address := com_param_value (logical_tester_address d);
        logical_address := com_param_value (logical_ecu_address d);
        gateway_address := com_param_value (logical_gateway_address d);
        functional_address := com_param_value (logical_functional_address d);
        doip_addresses_resolved := false; can_ids := None;
        can_functional_id := id ← com_param_value (functional_id (can com_params)); CanId_try_from id;
        doip_params := configured_doip_params d nack; uds_params := configured_uds_params (uds com_params);
        duplicating_ecu_names := None |}.

Definition EcuManager_new {V} (variant_detection : dresult V) (type_ : EcuManagerType) (db : DiagnosticDatabase)
    (naming : CanNaming) (protocol : string) (com_params : ComParams) : presult EcuDescription :=
  match type_ with
  | Ecu => new_ecu_description variant_detection db naming protocol com_params
  | FunctionalDescription => new_functional_description db protocol com_params
  end.
End description.

Definition logical_address_eq (self other : EcuDescription) : bool :=
  bool_decide (logical_address self = logical_address other) && bool_decide (gateway_address self = gateway_address other).

Definition set_duplicating_ecu_names (duplicate_ecus : gset string) (e : EcuDescription) : EcuDescription :=
  {| ecu_name := ecu_name e; description_type := description_type e; revision := revision e; ecu_protocol := ecu_protocol e;
     tester_address := tester_address e; logical_address := logical_address e; gateway_address := gateway_address e;
     functional_address := functional_address e; doip_addresses_resolved := doip_addresses_resolved e;
     can_ids := can_ids e; can_functional_id := can_functional_id e; doip_params := doip_params e; uds_params := uds_params e;
     duplicating_ecu_names := Some duplicate_ecus |}.

(** ** The key of a request

    Requests to one target wait for each other: [request_lock_key_for] of
    cda-interfaces/src/ecumanager.rs. *)

(** [{:X}]. *)
Fixpoint hex_digits (fuel : nat) (n : Z) : str :=
  match fuel with
  | O => []
  | S fuel => (if n <? 16 then [] else hex_digits fuel (n / 16)) ++ [hex_digit (n mod 16)]
  end.
Definition upper_hex (n : Z) : str := hex_digits (S (Z.to_nat (Z.log2 n))) n.
Definition padded_hex (width : nat) (n : Z) : str :=
  replicate (width - length (upper_hex n)) ch_0 ++ upper_hex n.

Definition request_lock_key_for (to_lowercase : string -> string) (addresses_resolved : bool)
    (logical_gateway_address logical_address : Z) (can_ids : option CanIds) (ecu_name : string) : str :=
  if addresses_resolved then
    chars "logical:0x" ++ padded_hex 4 logical_gateway_address ++ chars "@0x" ++ padded_hex 4 logical_address
  else
    match can_ids with
    | Some ids => chars "can:0x" ++ upper_hex (raw (can_request ids)) ++ chars "@0x" ++ upper_hex (raw (can_response ids))
    | None => chars "ecu:" ++ chars (to_lowercase ecu_name)
    end.

Definition request_lock_key (to_lowercase : string -> string) (self : EcuDescription) : str :=
  request_lock_key_for to_lowercase (doip_addresses_resolved self) (gateway_address self) (logical_address self)
    (can_ids self) (ecu_name self).

(** [@] *)
Definition ch_at : Z := 64.

(** *** Hexadecimal text is read back *)

Lemma to_digit_of_hex n : 0 <= n < 16 -> to_digit 16 (hex_digit n) = Some n.
Proof.
  intros Hn. assert (Hall : Forall (fun n => to_digit 16 (hex_digit n) = Some n) (Z.of_nat <$> seq 0 16))
    by (repeat constructor).
  rewrite Forall_forall in Hall. apply Hall, list_elem_of_fmap. exists (Z.to_nat n). split; [lia|apply elem_of_seq; lia].
Qed.

Lemma digits_value_app radix acc s t :
  digits_value radix acc (s ++ t) = v ← digits_value radix acc s; digits_value radix v t.
Proof.
  revert acc. induction s as [|c s IH]; intros acc; [done|]. cbn. destruct (to_digit radix c); [apply IH|done].
Qed.

Lemma digits_value_hex fuel n : 0 <= n < 2 ^ Z.of_nat fuel -> digits_value 16 0 (hex_digits fuel n) = Some n.
Proof.
  revert n. induction fuel as [|fuel IH]; intros n Hn; [cbn in *; f_equal; lia|].
  cbn [hex_digits]. rewrite Nat2Z.inj_succ, Z.pow_succ_r in Hn by lia.
  pose proof (Z.mod_pos_bound n 16). pose proof (Z.div_mod n 16). destruct (Z.ltb_spec n 16).
  - cbn. rewrite Z.mod_small, to_digit_of_hex by lia. done.
  - rewrite digits_value_app, IH by (split; [apply Z.div_pos|apply Z.div_lt_upper_bound]; lia).
    cbn. rewrite to_digit_of_hex by lia. cbn. f_equal. lia.
Qed.

Lemma digits_value_zeros width s : digits_value 16 0 (replicate width ch_0 ++ s) = digits_value 16 0 s.
Proof. induction width; [done|]. cbn in *. done. Qed.

Lemma upper_hex_value n : 0 <= n -> digits_value 16 0 (upper_hex n) = Some n.
Proof.
  intros Hn. apply digits_value_hex. split; [done|]. rewrite Nat2Z.inj_succ, Z2Nat.id by apply Z.log2_nonneg.
  destruct (decide (n = 0)) as [->|]; [done|]. apply Z.log2_spec. lia.
Qed.

Lemma padded_hex_value width n : 0 <= n -> digits_value 16 0 (padded_hex width n) = Some n.
Proof. intros Hn. unfold padded_hex. by rewrite digits_value_zeros, upper_hex_value. Qed.

(** Neither holds a separator. *)
Lemma hex_digits_clean fuel n : ch_at ∉ hex_digits fuel n.
Proof.
  revert n. induction fuel as [|fuel IH]; intros n; [by apply not_elem_of_nil|]. cbn [hex_digits].
  assert (Hd : ch_at ∉ [hex_digit (n mod 16)]).
  { rewrite list_elem_of_singleton. intros Heq. pose proof (hex_digit_range (n mod 16) (Z.mod_pos_bound n 16 eq_refl)).
    rewrite <- Heq in *. unfold ch_at in *. lia. }
  rewrite elem_of_app. intros [Hin|Hin]; [|done]. destruct (n <? 16); [by apply not_elem_of_nil in Hin|by apply IH in Hin].
Qed.

Lemma padded_hex_clean width n : ch_at ∉ padded_hex width n.
Proof.
  unfold padded_hex. rewrite elem_of_app. intros [[Hin _]%elem_of_replicate|Hin]; [done|by apply hex_digits_clean in Hin].
Qed.

Lemma cut_at {A} (x : A) (a b c d : list A) : x ∉ a -> x ∉ c -> a ++ x :: b = c ++ x :: d -> a = c /\ b = d.
Proof.
  revert c. induction a as [|y a IH]; intros [|z c] Ha Hc Heq; cbn in *; simplify_eq; [done|set_solver|set_solver|].
  destruct (IH c) as [-> ->]; set_solver.
Qed.
