(* ===== verification/Loading.v ===== *)
(** * Loading the databases

    cda-main/src/mdd.rs: from the files of the diagnostic database to the
    descriptions of the ECUs by name.  Of several files for one ECU one is kept,
    and ECUs that share a target are marked as duplicates of each other.  A
    file is a directory and a name in it, as in MddFile.v. *)

From stdpp Require Import strings gmap.
From S2P Require Import Prelude Errors Text Ieee754 Json FileSystem MddFile ComParams EcuDescription.
From stdpp Require Import list.

Local Open Scope Z_scope.
Set Warnings "-register-all".

(** ** Several files of one ECU *)

Record EcuMetadata : Type := { mdd_path : string * string; valid : bool }.
Abbreviation LoadedEcuMap := (gmap string (EcuDescription * EcuMetadata)).

(** [String]s compare by their bytes. *)
Definition newer (a b : EcuDescription) : bool := String.ltb (revision b) (revision a).

Definition insert_or_update_ecu (ecu_name : string) (ecu_manager : EcuDescription) (ecu_metadata : EcuMetadata)
    (loaded_ecus : LoadedEcuMap) : LoadedEcuMap :=
  match loaded_ecus !! ecu_name with
  | Some (existing_ecu, existing_meta) =>
      if negb (logical_address_eq ecu_manager existing_ecu) then
        <[ecu_name := (existing_ecu, {| mdd_path := mdd_path existing_meta; valid := false |})]> loaded_ecus
      else if newer ecu_manager existing_ecu then <[ecu_name := (ecu_manager, ecu_metadata)]> loaded_ecus
      else loaded_ecus
  | None => <[ecu_name := (ecu_manager, ecu_metadata)]> loaded_ecus
  end.

(** ** Duplicates *)

Inductive DuplicateTargetKey : Type := Doip (gateway logical : Z) | Can (ids : CanIds).

#[export] Instance DuplicateTargetKey_eq_dec : EqDecision DuplicateTargetKey.
Proof. solve_decision. Defined.

Definition CanId_code (i : CanId) : Z + Z := match i with Standard z => inl z | Extended z => inr z end.
Definition CanId_decode (c : Z + Z) : CanId := match c with inl z => Standard z | inr z => Extended z end.

#[export] Instance CanId_countable : Countable CanId.
Proof. apply (inj_countable' CanId_code CanId_decode). by intros []. Defined.

#[export] Instance DuplicateTargetKey_countable : Countable DuplicateTargetKey.
Proof.
  apply (inj_countable'
    (fun k => match k with Doip g l => inl (g, l) | Can i => inr (can_request i, can_response i) end)
    (fun c => match c with inl (g, l) => Doip g l | inr (q, s) => Can {| can_request := q; can_response := s |} end)).
  by intros [|[]].
Defined.

Abbreviation DatabaseMap := (gmap string EcuDescription).

Definition target_key (db : EcuDescription) : option DuplicateTargetKey :=
  if doip_addresses_resolved db then Some (Doip (gateway_address db) (logical_address db))
  else Can <$> can_ids db.

Definition add_target (m : gmap DuplicateTargetKey (list string)) (ecu : string * EcuDescription)
    : gmap DuplicateTargetKey (list string) :=
  match target_key ecu.2 with
  | Some key => <[key := default [] (m !! key) ++ [ecu.1]]> m
  | None => m
  end.

Definition mark_group (databases : DatabaseMap) (ecu_names : list string) : DatabaseMap :=
  if (length ecu_names <=? 1)%nat then databases
  else foldl (fun databases ecu_name =>
         alter (set_duplicating_ecu_names (list_to_set (filter (fun name => name <> ecu_name) ecu_names))) ecu_name databases)
       databases ecu_names.

Definition mark_duplicate_ecus_by_address (databases : DatabaseMap) : DatabaseMap :=
  foldl mark_group databases (map_to_list (foldl add_target ∅ (map_to_list databases))).*2.

(** ** One file *)

Inductive MddLoadingError : Type := LoadFailed | DecompressFailed.

(** A panic of the loader takes the program with it. *)
Inductive load_failure : Type := Loading (e : MddLoadingError) | Crashed.

Record EcuConfig (O : Type) : Type := {
  ecu_com_params : option O;
  ecu_ignore_protocol : option bool;
  ecu_protocol_name : option string
}.
Arguments ecu_com_params {O}. Arguments ecu_ignore_protocol {O}. Arguments ecu_protocol_name {O}.

(** The part of [Configuration] the loader reads. *)
Record Configuration (O : Type) : Type := {
  cfg_com_params : ComParams;
  cfg_ignore_protocol : bool;
  cfg_can_naming : CanNaming;
  cfg_ignore_invalid_mdd : bool;
  cfg_mdd_decompress : bool;
  cfg_strict_ecu_config : bool;
  cfg_description_database : string;
  cfg_protocol_name : string;
  cfg_ecu : list (string * EcuConfig O)
}.
Arguments cfg_com_params {O}. Arguments cfg_ignore_protocol {O}. Arguments cfg_can_naming {O}.
Arguments cfg_ignore_invalid_mdd {O}. Arguments cfg_mdd_decompress {O}. Arguments cfg_strict_ecu_config {O}.
Arguments cfg_description_database {O}. Arguments cfg_protocol_name {O}. Arguments cfg_ecu {O}.

Definition PROTO_LOAD_CONFIG : list ProtoLoadConfig :=
  [{| load_type := DiagnosticDescription; load_data := true; load_name := None |};
   {| load_type := CodeFile; load_data := false; load_name := None |};
   {| load_type := CodeFilePartial; load_data := false; load_name := None |};
   {| load_type := EmbeddedFile; load_data := false; load_name := None |}].

Definition database_payload (proto_data : gmap ChunkType (list Chunk)) : option (list Z) :=
  (proto_data !! DiagnosticDescription ≫= last) ≫= payload.

Definition extract_file_chunks (proto_data : gmap ChunkType (list Chunk)) : list Chunk :=
  concat (omap (fun t => proto_data !! t) [CodeFile; CodeFilePartial; EmbeddedFile]) ++
  concat (map_to_list (delete CodeFile (delete CodeFilePartial (delete EmbeddedFile proto_data)))).*2.

Section load.
(** prost, xz2, sha2, figment, the generated reader of databases, and
    [str::to_lowercase]. *)
Context {ext : Externals} {serde : SerdeJson} (text_to_lowercase : str -> str) (to_lowercase : string -> string).
Context (decode : list Z -> option MddFile) (encode : MddFile -> option (list Z)).
Context (lzma : list Z -> option (list Z)) (sha512 : list Z -> list Z).
Context {O : Type} (merge : ComParams -> O -> option ComParams) (read_ecudata : list Z -> option EcuData).
(** [prepare_variant_detection], kept aside. *)
Context {V : Type} (prepare_variant_detection : EcuData -> dresult V).

Definition resolve_com_params (global : ComParams) (ecu_overrides : option O) : option ComParams :=
  match ecu_overrides with None => Some global | Some overrides => merge global overrides end.

Definition build_diagnostic_database (proto_data : gmap ChunkType (list Chunk)) (config : Configuration O)
    (per_ecu_cfg : option (EcuConfig O)) : option DiagnosticDatabase :=
  payload ← database_payload proto_data;
  data ← read_ecudata payload;
  result_ok (checked_database
    {| ignore_protocol := default (cfg_ignore_protocol config) (c ← per_ecu_cfg; ecu_ignore_protocol c);
       db_ecu_data := Some data |}).

(** [None] when the file is no description of an ECU. *)
Definition load_ecu_from_file (ecu_name : string) (proto_data : gmap ChunkType (list Chunk)) (config : Configuration O)
    (per_ecu_cfg : option (EcuConfig O)) : result load_failure (EcuDescription * list Chunk) :=
  let given {A} (o : option A) : result load_failure A := ok_or o (Loading LoadFailed) in
  db ← given (build_diagnostic_database proto_data config per_ecu_cfg);
  effective_com_params ← given (resolve_com_params (cfg_com_params config) (c ← per_ecu_cfg; ecu_com_params c));
  let protocol := default (cfg_protocol_name config) (c ← per_ecu_cfg; ecu_protocol_name c) in
  let ecu_type := if String.eqb (cfg_description_database config) ecu_name then FunctionalDescription else Ecu in
  let variant_detection := d ← ecu_data db; prepare_variant_detection d in
  match EcuManager_new text_to_lowercase variant_detection ecu_type db (cfg_can_naming config) protocol effective_com_params with
  | Ok manager => Ok (manager, extract_file_chunks (delete DiagnosticDescription proto_data))
  | Err (Failed _) => Err (Loading LoadFailed)
  | Err _ => Err Crashed
  end.

Abbreviation load_proto_data := (load_proto_data decode lzma to_lowercase).
Abbreviation update_mdd_uncompressed := (update_mdd_uncompressed decode encode lzma sha512 to_lowercase).

(** The name of the file's ECU, its description and the files in it. *)
Definition load_single_mdd (path : string * string) (config : Configuration O) (ecu_config_map : gmap string (EcuConfig O))
    : io (result load_failure (string * EcuDescription * list Chunk)) :=
  decompressed ← (if cfg_mdd_decompress config then update_mdd_uncompressed path.1 path.2 else mret (Ok false));
  match (decompressed : mresult bool) with
  | Err _ => mret (Err (Loading DecompressFailed))
  | Ok _ =>
      loaded ← query (fun s => load_proto_data (get_file s path.1 path.2) PROTO_LOAD_CONFIG);
      mret (match (loaded : mresult (string * gmap ChunkType (list Chunk))) with
            | Err _ => Err (Loading LoadFailed)
            | Ok (ecu_name, proto_data) =>
                '(manager, files) ← load_ecu_from_file ecu_name proto_data config (ecu_config_map !! to_lowercase ecu_name);
                Ok (ecu_name, manager, files)
            end)
  end.

(** ** All files *)

(** A file manager is the file it serves and its chunks. *)
Abbreviation FileManagerMap := (gmap string ((string * string) * list Chunk)).

Fixpoint load_each (mdd_paths : list (string * string)) (config : Configuration O) (ecu_config_map : gmap string (EcuConfig O))
    (loaded_ecus : LoadedEcuMap) (file_managers : FileManagerMap) : io (result load_failure (LoadedEcuMap * FileManagerMap)) :=
  match mdd_paths with
  | [] => mret (Ok (loaded_ecus, file_managers))
  | path :: mdd_paths =>
      loaded ← load_single_mdd path config ecu_config_map;
      match (loaded : result load_failure (string * EcuDescription * list Chunk)) with
      | Ok (ecu_name, ecu_manager, files) =>
          load_each mdd_paths config ecu_config_map
            (insert_or_update_ecu ecu_name ecu_manager {| mdd_path := path; valid := true |} loaded_ecus)
            (<[ecu_name := (path, files)]> file_managers)
      | Err (Loading e) =>
          if cfg_ignore_invalid_mdd config then load_each mdd_paths config ecu_config_map loaded_ecus file_managers
          else mret (Err (Loading e))
      | Err Crashed => mret (Err Crashed)
      end
  end.

(** Collecting under names in lower case; of several that agree the last one
    in the order of the source's map stays. *)
Definition under_lowercase {A} (l : list (string * A)) : gmap string A :=
  collect ((fun kv => (to_lowercase kv.1, kv.2)) <$> l).

Definition valid_databases (loaded_ecus : LoadedEcuMap) : DatabaseMap :=
  under_lowercase ((fun kv => (kv.1, kv.2.1)) <$> filter (fun kv => valid kv.2.2 = true) (map_to_list loaded_ecus)).

Definition served_files (databases : DatabaseMap) (file_managers : FileManagerMap) : FileManagerMap :=
  under_lowercase (filter (fun kv => is_Some (databases !! to_lowercase kv.1)) (map_to_list file_managers)).

(** Whether every ECU of the configuration is loaded, where that is asked for. *)
Definition handle_ecu_config_keys (ecu_config_map : gmap string (EcuConfig O)) (databases : DatabaseMap) (strict : bool) : bool :=
  negb strict || forallb (fun kv => bool_decide (is_Some (databases !! kv.1))) (map_to_list ecu_config_map).

Inductive AppError : Type := DataError | ConfigurationError | Panic.

Definition load_databases (config : Configuration O) (mdd_paths : list (string * string))
    : io (result AppError (DatabaseMap * FileManagerMap)) :=
  let ecu_config_map := under_lowercase (cfg_ecu config) in
  loaded ← load_each mdd_paths config ecu_config_map ∅ ∅;
  mret (match (loaded : result load_failure (LoadedEcuMap * FileManagerMap)) with
        | Err (Loading _) => Err DataError
        | Err Crashed => Err Panic
        | Ok (loaded_ecus, file_managers) =>
            let databases := mark_duplicate_ecus_by_address (valid_databases loaded_ecus) in
            if handle_ecu_config_keys ecu_config_map databases (cfg_strict_ecu_config config)
            then Ok (databases, served_files databases file_managers) else Err ConfigurationError
        end).
End load.
