(* ===== verification/LoadingLaws.v ===== *)
(** * What is loaded

    The descriptions of Loading.v: their addresses are in range, and two ECUs
    are duplicates of each other exactly when their requests wait for each
    other; of several files for an ECU the newest is used.  Then runs of the
    loader on small files: two models of one control unit, files that disagree,
    and parameters it reads wrongly. *)

From stdpp Require Import strings gmap.
From Stdlib Require OrdersEx.
From S2P Require Import Prelude Errors Text Ieee754 Json StorageTypes FileSystem MddFile ComParams EcuDescription Loading.
From stdpp Require Import list.

Local Open Scope Z_scope.
Set Warnings "-register-all".

(** ** Addresses *)

Definition can_id_ok (i : CanId) : Prop :=
  match i with Standard z => 0 <= z <= 0x7FF | Extended z => 0x7FF < z <= 0x1FFFFFFF end.

Record description_ok (e : EcuDescription) : Prop := {
  gateway_ok : 0 <= gateway_address e <= U16_MAX;
  logical_ok : 0 <= logical_address e <= U16_MAX;
  can_ok ids : can_ids e = Some ids -> can_id_ok (can_request ids) /\ can_id_ok (can_response ids)
}.

Lemma from_str_radix_range lo hi s radix v : from_str_radix lo hi s radix = Some v -> lo <= v <= hi.
Proof.
  unfold from_str_radix. destruct (match s with [] => _ | _ => _ end) as [neg digits].
  destruct (non_empty digits); [|done]. destruct (digits_value radix 0 digits) as [w|]; [|done]. cbn.
  set (x := if neg then - w else w). destruct (in_range lo x hi) eqn:Hr; [|done]. unfold in_range in Hr. intros [= <-]. lia.
Qed.

Lemma CanId_try_from_ok z i : 0 <= z -> CanId_try_from z = Some i -> can_id_ok i.
Proof.
  unfold CanId_try_from, can_id_ok. intros Hz. destruct (Z.leb_spec z 0x7FF); [intros [= <-]; lia|].
  destruct (Z.leb_spec z 0x1FFFFFFF); [intros [= <-]; lia|done].
Qed.

Lemma raw_inj i j : can_id_ok i -> can_id_ok j -> raw i = raw j -> i = j.
Proof. destruct i, j; cbn; intros; f_equal; lia. Qed.

(** *** The key of a request tells targets apart *)

Section keys.
Context (to_lowercase : string -> string).
Abbreviation lock_key := (request_lock_key to_lowercase).

Lemma hex_pair_inj a b c d (f : Z -> str) :
  (forall n, 0 <= n -> digits_value 16 0 (f n) = Some n) -> (forall n, ch_at ∉ f n) ->
  0 <= a -> 0 <= b -> 0 <= c -> 0 <= d ->
  f a ++ chars "@0x" ++ f b = f c ++ chars "@0x" ++ f d -> a = c /\ b = d.
Proof.
  intros Hv Hc Ha Hb Hc' Hd [Hl Hr]%cut_at; [|done|done]. apply (app_inv_head (chars "0x")) in Hr.
  apply (f_equal (digits_value 16 0)) in Hl, Hr. rewrite !Hv in Hl, Hr by done. by simplify_eq.
Qed.

Lemma lock_key_target a b : description_ok a -> description_ok b -> is_Some (target_key a) ->
  target_key a = target_key b <-> lock_key a = lock_key b.
Proof.
  intros [Hga Hla Hca] [Hgb Hlb Hcb] Hsome. unfold target_key, request_lock_key, request_lock_key_for in *.
  destruct (doip_addresses_resolved a), (doip_addresses_resolved b).
  - split; [by intros [= -> ->]|]. intros Heq%app_inv_head.
    destruct (hex_pair_inj _ _ _ _ _ (padded_hex_value 4) (padded_hex_clean 4) (proj1 Hga) (proj1 Hla) (proj1 Hgb) (proj1 Hlb) Heq); congruence.
  - destruct (can_ids b); cbn; split; discriminate.
  - destruct (can_ids a); [|by destruct Hsome]. cbn. split; discriminate.
  - destruct (can_ids a) as [i|]; [|by destruct Hsome]. destruct (can_ids b) as [j|]; cbn; [|split; discriminate].
    destruct (Hca i eq_refl) as [Hi1 Hi2], (Hcb j eq_refl) as [Hj1 Hj2].
    assert (Hraw : forall x, can_id_ok x -> 0 <= raw x) by (intros []; cbn; lia).
    split; [by intros [= ->]|]. intros Heq%(app_inv_head (chars "can:0x")).
    destruct (hex_pair_inj _ _ _ _ upper_hex upper_hex_value (fun n => hex_digits_clean _ n) (Hraw _ Hi1) (Hraw _ Hi2) (Hraw _ Hj1) (Hraw _ Hj2) Heq)
      as [H1 H2].
    destruct i, j; cbn in *. do 2 f_equal; f_equal; by apply raw_inj.
Qed.
End keys.

(** ** Duplicates *)

(** The names of a target, in the order they are found in. *)
Definition named (key : DuplicateTargetKey) (l : list (string * EcuDescription)) : list string :=
  (filter (fun kv => target_key kv.2 = Some key) l).*1.

Lemma targets_of l m key : default [] (foldl add_target m l !! key) = default [] (m !! key) ++ named key l.
Proof.
  revert m. induction l as [|[n e] l IH]; intros m; cbn [foldl]; [by rewrite app_nil_r|]. rewrite IH. unfold add_target, named. cbn.
  destruct (target_key e) as [k|]; cbn; [|by rewrite decide_False].
  destruct (decide (k = key)) as [->|Hne].
  - rewrite lookup_insert_eq. cbn. rewrite decide_True by done. cbn. by rewrite <- app_assoc.
  - rewrite lookup_insert_ne by done. by rewrite decide_False by congruence.
Qed.

(** *** Marking *)

Lemma alter_each {A} (g : string -> A -> A) (l : list string) (m : gmap string A) k : NoDup l ->
  foldl (fun m n => alter (g n) n m) m l !! k = if decide (k ∈ l) then g k <$> m !! k else m !! k.
Proof.
  revert m. induction l as [|n l IH]; intros m; [by rewrite decide_False by apply not_elem_of_nil|].
  intros [Hn Hl]%NoDup_cons. cbn [foldl]. rewrite IH by done. destruct (decide (k = n)) as [->|Hne].
  - rewrite (decide_False (P := n ∈ l)), decide_True by (done || by left). by rewrite lookup_alter_eq.
  - rewrite lookup_alter_ne by done. destruct (decide (k ∈ l)); [by rewrite decide_True by (by right)|].
    rewrite decide_False; [done|]. by rewrite elem_of_cons; intros [].
Qed.

Definition others (k : string) (names : list string) : gset string := list_to_set (filter (fun name => name <> k) names).

Lemma mark_group_lookup db names k : NoDup names ->
  mark_group db names !! k =
    if decide (k ∈ names /\ (1 < length names)%nat) then set_duplicating_ecu_names (others k names) <$> db !! k else db !! k.
Proof.
  intros Hn. unfold mark_group. destruct (Nat.leb_spec (length names) 1); [by rewrite decide_False by lia|].
  rewrite (alter_each (fun n => set_duplicating_ecu_names (others n names))) by done.
  destruct (decide (k ∈ names)); [by rewrite decide_True by done|by rewrite decide_False by tauto].
Qed.

Lemma marks_other {K} (l : list (K * list string)) db k : NoDup (l ≫= snd) -> k ∉ l ≫= snd ->
  foldl mark_group db l.*2 !! k = db !! k.
Proof.
  revert db. induction l as [|[key names] l IH]; intros db; cbn; [done|].
  intros (Hn & _ & Hl)%NoDup_app Hk. rewrite not_elem_of_app in Hk. rewrite IH by tauto.
  rewrite mark_group_lookup, decide_False by tauto. done.
Qed.

Lemma part_nodup {K} (l : list (K * list string)) key names : NoDup (l ≫= snd) -> (key, names) ∈ l -> NoDup names.
Proof.
  induction l as [|[key' names'] l IH]; cbn; [by intros _ ?%not_elem_of_nil|].
  intros (Hn & _ & Hl)%NoDup_app [[= -> ->]|Hin]%elem_of_cons; [done|by apply IH].
Qed.

Lemma marks_in {K} (l : list (K * list string)) db k key names : NoDup (l ≫= snd) -> (key, names) ∈ l -> k ∈ names ->
  foldl mark_group db l.*2 !! k = mark_group db names !! k.
Proof.
  revert db. induction l as [|[key' names'] l IH]; intros db; cbn; [by intros _ ?%not_elem_of_nil|].
  intros (Hn & Hdisj & Hl)%NoDup_app Hin Hk. apply elem_of_cons in Hin as [Heq|Hin].
  - injection Heq as -> ->. by rewrite marks_other by (done || by apply Hdisj).
  - assert (Hk' : k ∉ names').
    { intros Hk'. apply (Hdisj k Hk'), list_elem_of_bind. by exists (key, names). }
    pose proof (part_nodup _ _ _ Hl Hin) as Hnames. rewrite (IH _ Hl Hin Hk), !mark_group_lookup by done.
    by rewrite (decide_False (P := k ∈ names' /\ _)) by tauto.
Qed.

Section groups.
Context (db : DatabaseMap).
Abbreviation groups := (foldl add_target ∅ (map_to_list db)).

Lemma group_names key names : groups !! key = Some names -> names = named key (map_to_list db).
Proof. intros Hg. pose proof (targets_of (map_to_list db) ∅ key) as Ht. rewrite Hg, lookup_empty in Ht. done. Qed.

Lemma elem_of_named key k : k ∈ named key (map_to_list db) <-> exists e, db !! k = Some e /\ target_key e = Some key.
Proof.
  unfold named. rewrite list_elem_of_fmap. split.
  - intros ([k' e] & -> & [Ht Hin]%list_elem_of_filter). exists e. by rewrite elem_of_map_to_list in Hin.
  - intros (e & Hk & Ht). exists (k, e). split; [done|]. apply list_elem_of_filter. by rewrite elem_of_map_to_list.
Qed.

Lemma named_nodup key : NoDup (named key (map_to_list db)).
Proof.
  unfold named. apply (NoDup_fmap_fst _).
  - intros k e1 e2 [_ H1]%list_elem_of_filter [_ H2]%list_elem_of_filter. rewrite elem_of_map_to_list in H1, H2. congruence.
  - apply NoDup_filter, NoDup_map_to_list.
Qed.

(** Nobody is in two groups. *)
Lemma groups_disjoint : NoDup (map_to_list groups ≫= snd).
Proof.
  apply NoDup_bind; [| |apply NoDup_map_to_list].
  - intros [key1 l1] [key2 l2] k H1 H2 Hk1 Hk2. rewrite elem_of_map_to_list in H1, H2. cbn in *.
    pose proof (group_names _ _ H1) as ->. pose proof (group_names _ _ H2) as ->.
    apply elem_of_named in Hk1 as (e1 & He1 & Ht1), Hk2 as (e2 & He2 & Ht2). congruence.
  - intros [key l] Hl. rewrite elem_of_map_to_list in Hl. cbn. rewrite (group_names _ _ Hl). apply named_nodup.
Qed.

Lemma group_of key k e : db !! k = Some e -> target_key e = Some key -> (key, named key (map_to_list db)) ∈ map_to_list groups.
Proof.
  intros He Ht. rewrite elem_of_map_to_list. destruct (groups !! key) as [names|] eqn:Hg; [by rewrite <- (group_names _ _ Hg)|].
  pose proof (targets_of (map_to_list db) ∅ key) as Hn. rewrite Hg, lookup_empty in Hn. cbn in Hn.
  assert (Hk : k ∈ named key (map_to_list db)) by (apply elem_of_named; eauto). rewrite <- Hn in Hk. by apply not_elem_of_nil in Hk.
Qed.

(** What marking makes of an ECU. *)
Definition marked (k : string) (e : EcuDescription) : EcuDescription :=
  match target_key e with
  | Some key =>
      let names := named key (map_to_list db) in
      if decide (1 < length names)%nat then set_duplicating_ecu_names (others k names) e else e
  | None => e
  end.

Lemma marked_lookup k : mark_duplicate_ecus_by_address db !! k = marked k <$> db !! k.
Proof.
  unfold mark_duplicate_ecus_by_address, marked. destruct (db !! k) as [e|] eqn:He.
  - destruct (target_key e) as [key|] eqn:Ht.
    + assert (Hk : k ∈ named key (map_to_list db)) by (apply elem_of_named; eauto).
      rewrite (marks_in _ _ _ _ _ groups_disjoint (group_of _ _ _ He Ht) Hk), mark_group_lookup by apply named_nodup.
      cbn. rewrite He, Ht. destruct (decide (1 < _)%nat); [by rewrite decide_True by done|by rewrite decide_False by tauto].
    + rewrite marks_other; [by cbn; rewrite He, Ht|apply groups_disjoint|].
      rewrite list_elem_of_bind. intros ([key l] & Hk & Hl). rewrite elem_of_map_to_list in Hl. cbn in Hk.
      rewrite (group_names _ _ Hl) in Hk. apply elem_of_named in Hk as (e' & He' & Ht'). congruence.
  - rewrite marks_other; [by rewrite He|apply groups_disjoint|].
    rewrite list_elem_of_bind. intros ([key l] & Hk & Hl). rewrite elem_of_map_to_list in Hl. cbn in Hk.
    rewrite (group_names _ _ Hl) in Hk. apply elem_of_named in Hk as (e' & He' & Ht'). congruence.
Qed.

Lemma target_marked k e : target_key (marked k e) = target_key e.
Proof. unfold marked. destruct (target_key e) eqn:Ht; [|done]. by destruct (decide _). Qed.

Lemma lock_key_marked to_lowercase k e : request_lock_key to_lowercase (marked k e) = request_lock_key to_lowercase e.
Proof. unfold marked. destruct (target_key e) eqn:Ht; [|done]. by destruct (decide _). Qed.

(** The duplicates of an ECU are the others with its target. *)
Lemma duplicates_of k e n : db !! k = Some e -> duplicating_ecu_names e = None ->
  n ∈ default ∅ (duplicating_ecu_names (marked k e)) <->
  n <> k /\ is_Some (target_key e) /\ exists e', db !! n = Some e' /\ target_key e' = target_key e.
Proof.
  intros He Hd. unfold marked. destruct (target_key e) as [key|] eqn:Ht; [|rewrite Hd; split; [set_solver|by intros (_ & [] & _)]].
  assert (Hk : k ∈ named key (map_to_list db)) by (apply elem_of_named; eauto).
  destruct (decide (1 < length (named key (map_to_list db)))%nat) as [|Hlen]; cbn.
  - unfold others. rewrite elem_of_list_to_set, list_elem_of_filter, elem_of_named. naive_solver.
  - rewrite Hd. split; [set_solver|]. intros (Hne & _ & Hn). apply elem_of_named in Hn. exfalso.
    destruct (named key (map_to_list db)) as [|x [|]]; cbn in *; [set_solver|set_solver|lia].
Qed.
End groups.

(** ** The descriptions *)

Ltac bound H := let a := fresh "a" in let Ha := fresh "Ha" in apply bind_ok in H as (a & Ha & H).

Lemma or_absent_ok {A} (r : presult A) (absent a : A) : or_absent r absent = Ok a -> r = Ok a \/ a = absent.
Proof. unfold or_absent. destruct r as [x|[]]; intros [=]; subst; auto. Qed.

Definition u16_value (c : ComParamConfig Z) : Prop := 0 <= com_param_value c <= U16_MAX.
Definition id_value (c : ComParamConfig (option Z)) : Prop := forall id, com_param_value c = Some id -> 0 <= id.

(** What the types of the configuration say. *)
Definition com_params_ok (c : ComParams) : Prop :=
  u16_value (logical_gateway_address (doip c)) /\ u16_value (logical_ecu_address (doip c)) /\
  id_value (physical_request_id (can c)) /\ id_value (physical_response_id (can c)).

Lemma find_logical_address_range db type_ protocol a : find_logical_address db type_ protocol = Ok a -> 0 <= a <= U16_MAX.
Proof.
  unfold find_logical_address. destruct (match type_ with EcuAddress _ _ => _ | _ => _ end) as [n more].
  intros H. bound H. assert (Hu16 : forall v, ok_or (parse_u16 v) (Failed ParameterConversionError) = Ok a -> 0 <= a <= U16_MAX).
  { intros v Hv%ok_or_ok. by apply from_str_radix_range in Hv. }
  destruct a0; [by eapply Hu16|]. bound H. destruct (entries !! a0) as [[]|]; [by eapply Hu16|done|done].
Qed.

Lemma resolve_logical_address_range db protocol c type_ a :
  u16_value c -> resolve_logical_address db protocol c type_ = Ok a -> 0 <= address a <= U16_MAX.
Proof.
  unfold resolve_logical_address. intros Hc. destruct (precedence c); [|by intros [= <-]].
  intros [H| ->]%or_absent_ok; [|done]. bound H. injection H as <-. cbn. by eapply find_logical_address_range.
Qed.

Lemma parse_u32_maybe_hex_range s v : parse_u32_maybe_hex s = Some v -> 0 <= v.
Proof. unfold parse_u32_maybe_hex. destruct (try_strip_hex_prefix s); intros Hv%from_str_radix_range; lia. Qed.

Lemma find_can_id_range db protocol c id : id_value c -> find_com_param com_can_id db protocol c = Ok (Some id) -> 0 <= id.
Proof.
  unfold find_com_param. intros Hc. destruct (precedence c); [|intros [= H]; by apply Hc].
  destruct (comparam_lookup _ _ _) as [[v u|]|[]]; intros H; try done; [|injection H as H; by apply Hc].
  cbn in H. destruct (parse_u32_maybe_hex v) as [w|] eqn:Hw; cbn in H; injection H as H; [subst|by apply Hc].
  by apply parse_u32_maybe_hex_range in Hw.
Qed.

Lemma resolve_can_id_range db protocol table c id : id_value c -> resolve_can_id db protocol table c = Ok (Some id) -> 0 <= id.
Proof.
  unfold resolve_can_id. intros Hc. destruct (precedence c); [|intros [= H]; by apply Hc].
  destruct (table ≫= _) as [v|] eqn:Ht.
  - intros [= ->]. destruct table as [entries|]; [|done]. cbn in Ht. unfold can_id_from_table in Ht.
    destruct (entries !! _) as [[]|]; try done. by apply parse_u32_maybe_hex_range in Ht.
  - intros [H|H]%or_absent_ok; [by apply find_can_id_range in H|done].
Qed.

Lemma resolve_can_ids_ok db protocol c ids f : com_params_ok c -> resolve_can_ids db protocol c = Ok (Some ids, f) ->
  can_id_ok (can_request ids) /\ can_id_ok (can_response ids).
Proof.
  intros (_ & _ & Hq & Hs) H. unfold resolve_can_ids in H. do 4 bound H. injection H as H _.
  destruct a0 as [request|]; [|done]. destruct a1 as [response|]; [|done]. cbn in H.
  unfold CanIds_try_from_raw in H. destruct (CanId_try_from request) as [i|] eqn:Hi; [|done].
  destruct (CanId_try_from response) as [j|] eqn:Hj; [|done]. injection H as <-.
  split; (eapply CanId_try_from_ok; [|done]); eauto using resolve_can_id_range.
Qed.

Section new.
Context {ext : Externals} {serde : SerdeJson} (to_lowercase : str -> str).

Lemma EcuManager_new_ok {V} (vd : dresult V) type_ db naming protocol c e :
  com_params_ok c -> EcuManager_new to_lowercase vd type_ db naming protocol c = Ok e ->
  description_ok e /\ duplicating_ecu_names e = None.
Proof.
  intros Hc H. pose proof Hc as (Hg & Hl & _). destruct type_; cbn in H.
  - unfold new_ecu_description in H. do 12 bound H. injection H as <-. split; [|done]. split; cbn.
    + eauto using resolve_logical_address_range.
    + eauto using resolve_logical_address_range.
    + intros ids Hi. destruct a6 as [i f]. cbn in Hi. subst i. by eapply resolve_can_ids_ok.
  - unfold new_functional_description in H. do 2 bound H. injection H as <-. by split.
Qed.
End new.

(** ** Which file is used *)

Abbreviation loaded_file := (string * (EcuDescription * EcuMetadata))%type.

Definition insert_file (loaded : LoadedEcuMap) (f : loaded_file) : LoadedEcuMap := insert_or_update_ecu f.1 f.2.1 f.2.2 loaded.

Definition one_address (files : list loaded_file) : Prop :=
  forall f g, f ∈ files -> g ∈ files -> f.1 = g.1 -> logical_address_eq f.2.1 g.2.1 = true.

Lemma newer_lt a b : newer a b = true <-> OrdersEx.String_as_OT.lt (revision b) (revision a).
Proof.
  assert (Hc : forall s t, String.compare s t = OrdersEx.String_as_OT.compare s t).
  { induction s as [|x s IH]; intros [|y t]; cbn; [done..|]. by rewrite IH. }
  unfold newer, String.ltb, OrdersEx.String_as_OT.lt. rewrite Hc. by destruct (OrdersEx.String_as_OT.compare _ _).
Qed.

Lemma newer_irreflexive e : newer e e = false.
Proof. apply not_true_is_false. rewrite newer_lt. apply irreflexivity, _. Qed.

(** A file that is not newer than one is not newer than a newer one. *)
Lemma newer_mono a b c : newer b a = true -> newer c a = false -> newer c b = false.
Proof.
  intros Hb Hc. destruct (newer c b) eqn:Hcb; [|done]. rewrite newer_lt in Hb, Hcb.
  assert (Ht : OrdersEx.String_as_OT.lt (revision a) (revision c)) by (etrans; [exact Hb|exact Hcb]).
  by rewrite <- newer_lt, Hc in Ht.
Qed.

(** The entry of a name after some files. *)
Definition kept (name : string) (files : list loaded_file) (m : LoadedEcuMap) : Prop :=
  match m !! name with
  | Some (e, meta) => (name, (e, meta)) ∈ files /\ forall f, f ∈ files -> f.1 = name -> newer f.2.1 e = false
  | None => forall f, f ∈ files -> f.1 <> name
  end.

Lemma kept_insert name files m f : one_address (files ++ [f]) -> kept name files m -> kept name (files ++ [f]) (insert_file m f).
Proof.
  intros Hone Hk. destruct f as [n [e meta]]. unfold kept, insert_file, insert_or_update_ecu in *. cbn.
  destruct (decide (n = name)) as [->|Hne].
  - destruct (m !! name) as [[e0 meta0]|] eqn:Hm.
    + destruct Hk as [Hin Hnew].
      assert (Ha : logical_address_eq e e0 = true) by (apply (Hone (name, (e, meta)) (name, (e0, meta0))); set_solver).
      rewrite Ha. cbn. destruct (newer e e0) eqn:Hn.
      * rewrite lookup_insert_eq. split; [set_solver|]. intros f [Hf|Hf]%elem_of_app Hfn.
        -- eapply newer_mono; [exact Hn|by apply Hnew].
        -- apply list_elem_of_singleton in Hf as ->. apply newer_irreflexive.
      * rewrite Hm. split; [set_solver|]. intros f [Hf|Hf]%elem_of_app Hfn; [by apply Hnew|].
        by apply list_elem_of_singleton in Hf as ->.
    + rewrite lookup_insert_eq. split; [set_solver|]. intros f [Hf|Hf]%elem_of_app Hfn; [by destruct (Hk f Hf)|].
      apply list_elem_of_singleton in Hf as ->. apply newer_irreflexive.
  - assert (Hsame : (match m !! n with
      | Some (existing_ecu, existing_meta) =>
          if negb (logical_address_eq e existing_ecu) then <[n:=(existing_ecu, {| mdd_path := mdd_path existing_meta; valid := false |})]> m
          else if newer e existing_ecu then <[n:=(e, meta)]> m else m
      | None => <[n:=(e, meta)]> m end) !! name = m !! name).
    { destruct (m !! n) as [[e0 meta0]|]; [|by rewrite lookup_insert_ne].
      destruct (negb _); [by rewrite lookup_insert_ne|]. destruct (newer e e0); [by rewrite lookup_insert_ne|done]. }
    rewrite Hsame. destruct (m !! name) as [[e0 meta0]|].
    + destruct Hk as [Hin Hnew]. split; [set_solver|]. intros f [Hf|Hf]%elem_of_app Hfn; [by apply Hnew|].
      apply list_elem_of_singleton in Hf as ->. done.
    + intros f [Hf|Hf]%elem_of_app; [by apply Hk|]. by apply list_elem_of_singleton in Hf as ->.
Qed.

Lemma one_address_app files more : one_address (files ++ more) -> one_address files.
Proof. intros H f g Hf Hg. apply H; set_solver. Qed.

Lemma kept_files name files : one_address files -> kept name files (foldl insert_file ∅ files).
Proof.
  induction files as [|f files IH] using rev_ind; intros Hone.
  - unfold kept. cbn [foldl]. rewrite lookup_empty. intros f ?%not_elem_of_nil. done.
  - rewrite foldl_snoc. apply kept_insert; [done|]. apply IH. by eapply one_address_app.
Qed.

(** ** The run *)

Section run.
Context {ext : Externals} {serde : SerdeJson} (text_to_lowercase : str -> str) (to_lowercase : string -> string).
Context (decode : list Z -> option MddFile) (encode : MddFile -> option (list Z)).
Context (lzma : list Z -> option (list Z)) (sha512 : list Z -> list Z).
Context {O : Type} (merge : ComParams -> O -> option ComParams) (read_ecudata : list Z -> option EcuData).
Context {V : Type} (prepare_variant_detection : EcuData -> dresult V) (config : Configuration O).

Abbreviation load_single :=
  (load_single_mdd text_to_lowercase to_lowercase decode encode lzma sha512 merge read_ecudata prepare_variant_detection).
Abbreviation load_all :=
  (load_each text_to_lowercase to_lowercase decode encode lzma sha512 merge read_ecudata prepare_variant_detection).
Abbreviation load_databases :=
  (load_databases text_to_lowercase to_lowercase decode encode lzma sha512 merge read_ecudata prepare_variant_detection).

Lemma run_io_bind {A B} (m : io A) (f : A -> io B) s b : run_result (m ≫= f) s = Ok b ->
  exists a, run_result m s = Ok a /\ run_result (f a) (run_state m s) = Ok b.
Proof.
  unfold run_result, run_state, mbind, io_bind. destruct (m s) as [[t [a|e]] s']; [|done].
  intros H. exists a. split; [done|]. by destruct (f a s') as [[t' r] s''].
Qed.

(** What the files hold, each read after the ones before it; files that are
    refused are skipped. *)
Fixpoint loaded_files (mdd_paths : list (string * string)) (ecu_config_map : gmap string (EcuConfig O)) (s : fs) : list loaded_file :=
  match mdd_paths with
  | [] => []
  | path :: mdd_paths =>
      let m := load_single path config ecu_config_map in
      match run_result m s with
      | Ok (Ok (n, e, _)) => [(n, (e, {| mdd_path := path; valid := true |}))]
      | _ => []
      end ++ loaded_files mdd_paths ecu_config_map (run_state m s)
  end.

Lemma load_each_files paths cfg m fm s m' fm' :
  run_result (load_all paths config cfg m fm) s = Ok (Ok (m', fm')) -> m' = foldl insert_file m (loaded_files paths cfg s).
Proof.
  revert m fm s. induction paths as [|path paths IH]; intros m fm s; cbn [load_each loaded_files]; [by intros [= <- _]|].
  intros (r & Hr & Hrest)%run_io_bind. rewrite Hr. destruct r as [[[n e] chunks]|[err|]].
  - cbn. by eapply IH.
  - destruct (cfg_ignore_invalid_mdd config); [cbn; by eapply IH|done].
  - done.
Qed.

Lemma loaded_from paths cfg s f : f ∈ loaded_files paths cfg s ->
  exists s' chunks, run_result (load_single (mdd_path f.2.2) config cfg) s' = Ok (Ok (f.1, f.2.1, chunks)) /\ valid f.2.2 = true.
Proof.
  revert s. induction paths as [|path paths IH]; intros s; cbn [loaded_files]; [by intros ?%not_elem_of_nil|].
  intros [Hf|Hf]%elem_of_app; [|by eapply IH].
  destruct (run_result _ s) as [[[[n e] chunks]|]|] eqn:Hr; try by apply not_elem_of_nil in Hf.
  apply list_elem_of_singleton in Hf as ->. eauto.
Qed.

(** *** Names in lower case *)

Lemma collected {A} (l : list (string * A)) (m : gmap string A) k v : NoDup l.*1 ->
  foldl (fun (m : gmap string A) kv => <[kv.1 := kv.2]> m) m l !! k = Some v <-> (k, v) ∈ l \/ (k ∉ l.*1 /\ m !! k = Some v).
Proof.
  revert m. induction l as [|[k0 v0] l IH]; intros m; cbn; [intros _; split; [|intros [[]%not_elem_of_nil|[_ ?]]; done]; right; split; [apply not_elem_of_nil|done]|].
  intros [Hn Hnd]%NoDup_cons. rewrite IH by done. rewrite elem_of_cons, not_elem_of_cons, lookup_insert_Some. cbn. split.
  - intros [?|[? [[<- <-]|[? ?]]]]; [by left; right|by left; left|by right].
  - intros [[[= -> ->]|?]|[[? ?] ?]]; [right; split; [done|by left]|by left|]. right. split; [done|]. right. by split.
Qed.

(** No two names differ in the case of letters only. *)
Definition distinct_names (files : list loaded_file) : Prop :=
  forall f g, f ∈ files -> g ∈ files -> to_lowercase f.1 = to_lowercase g.1 -> f.1 = g.1.

Lemma valid_lookup (m : LoadedEcuMap) k e :
  (forall n n' v v', m !! n = Some v -> m !! n' = Some v' -> to_lowercase n = to_lowercase n' -> n = n') ->
  valid_databases to_lowercase m !! k = Some e <-> exists n meta, k = to_lowercase n /\ m !! n = Some (e, meta) /\ valid meta = true.
Proof.
  intros Hinj. unfold valid_databases, under_lowercase, collect. set (l := filter _ (map_to_list m)).
  assert (Hl : forall n v, (n, v) ∈ l <-> valid v.2 = true /\ m !! n = Some v).
  { intros n v. unfold l. by rewrite list_elem_of_filter, elem_of_map_to_list. }
  rewrite collected.
  - rewrite lookup_empty. split.
    + intros [Hin|[_ ?]]; [|done]. apply list_elem_of_fmap in Hin as ([n e'] & [= -> ->] & Hin).
      apply list_elem_of_fmap in Hin as ([n' [e2 meta]] & [= -> ->] & [Hv Hm]%Hl). by exists n', meta.
    + intros (n & meta & -> & Hm & Hv). left. apply list_elem_of_fmap. exists (n, e). split; [done|].
      apply list_elem_of_fmap. exists (n, (e, meta)). split; [done|]. by apply Hl.
  - rewrite <- !list_fmap_compose. apply NoDup_fmap_2_strong; [|apply NoDup_filter, NoDup_map_to_list].
    intros [n v] [n' v'] [_ Hn]%Hl [_ Hn']%Hl Heq. cbn in Heq. assert (n = n') as <- by (by eapply Hinj). congruence.
Qed.

(** C31: when the files of an ECU give it one address and no two names of ECUs
    differ in the case of letters only, then after loading there is, under its
    name in lower case, every ECU that some file describes and no other.  It is
    what one of its files holds, but for its mark as a duplicate; and none of its
    files is newer than that one, by the order of their revisions as text. *)
Theorem newest_file_is_used paths s databases served k :
  run_result (load_databases config paths) s = Ok (Ok (databases, served)) ->
  let files := loaded_files paths (under_lowercase to_lowercase (cfg_ecu config)) s in
  one_address files -> distinct_names files ->
  match databases !! k with
  | Some e => exists f, f ∈ files /\ k = to_lowercase f.1 /\ (e = f.2.1 \/ exists names, e = set_duplicating_ecu_names names f.2.1) /\
      (exists s' chunks, run_result (load_single (mdd_path f.2.2) config (under_lowercase to_lowercase (cfg_ecu config))) s'
                         = Ok (Ok (f.1, f.2.1, chunks))) /\
      forall g, g ∈ files -> g.1 = f.1 -> newer g.2.1 f.2.1 = false
  | None => forall f, f ∈ files -> to_lowercase f.1 <> k
  end.
Proof.
  intros (r & Hr & H)%run_io_bind files Hone Hdist. injection H as H. destruct r as [[m fm]|[]]; try done.
  apply load_each_files in Hr. destruct (handle_ecu_config_keys _ _ _); [|done]. injection H as <- _.
  fold files in Hr. assert (Hk : forall n, kept n files m) by (intros n; rewrite Hr; by apply kept_files).
  assert (Hin : forall n v, m !! n = Some v -> (n, v) ∈ files /\ valid v.2 = true).
  { intros n [e meta] Hn. specialize (Hk n). unfold kept in Hk. rewrite Hn in Hk. destruct Hk as [Hf _]. split; [done|].
    by destruct (loaded_from _ _ _ _ Hf) as (_ & _ & _ & ?). }
  assert (Hinj : forall n n' v v', m !! n = Some v -> m !! n' = Some v' -> to_lowercase n = to_lowercase n' -> n = n').
  { intros n n' v v' [Hn _]%Hin [Hn' _]%Hin Heq. by apply (Hdist _ _ Hn Hn'). }
  rewrite marked_lookup. destruct (valid_databases to_lowercase m !! k) as [e|] eqn:He; cbn [fmap option_fmap option_map].
  - apply (valid_lookup m k e Hinj) in He as (n & meta & -> & Hm & Hv). specialize (Hk n). unfold kept in Hk. rewrite Hm in Hk.
    destruct Hk as [Hf Hnew]. exists (n, (e, meta)). split; [done|]. split; [done|]. split; [|split; [|done]].
    + unfold marked. cbn. destruct (target_key e); [|by left]. destruct (decide _); [right; by eexists|by left].
    + destruct (loaded_from _ _ _ _ Hf) as (s' & chunks & Hload & _). eauto.
  - intros [n [e meta]] Hf <-. cbn in *. specialize (Hk n). unfold kept in Hk. destruct (m !! n) as [[e' meta']|] eqn:Hm; [|by apply (Hk _ Hf)].
    assert (Hv : valid_databases to_lowercase m !! to_lowercase n = Some e').
    { apply (valid_lookup m _ _ Hinj). exists n, meta'. split; [done|]. split; [done|]. by destruct (Hin _ _ Hm). }
    congruence.
Qed.

Definition fresh_description (e : EcuDescription) : Prop := description_ok e /\ duplicating_ecu_names e = None.

Section typed.
Context (Hconfig : com_params_ok (cfg_com_params config)).
Context (Hmerge : forall c o c', com_params_ok c -> merge c o = Some c' -> com_params_ok c').

Lemma load_single_fresh path cfg s n e chunks :
  run_result (load_single path config cfg) s = Ok (Ok (n, e, chunks)) -> fresh_description e.
Proof.
  intros (r & _ & H)%run_io_bind. destruct r as [b|err]; [|by injection H].
  apply run_io_bind in H as (loaded & _ & H). injection H as H. destruct loaded as [[name data]|]; [|done].
  bound H. destruct a as [manager files]. injection H as -> -> _. unfold load_ecu_from_file in Ha.
  bound Ha. bound Ha. apply ok_or_ok in Ha1.
  assert (Hc : com_params_ok a0).
  { unfold resolve_com_params in Ha1. destruct (_ ≫= _); [by eapply Hmerge|by injection Ha1 as <-]. }
  destruct (EcuManager_new _ _ _ _ _ _ _) as [e'|[]] eqn:Hnew; try done. injection Ha as -> _.
  by eapply EcuManager_new_ok.
Qed.

Lemma files_fresh paths cfg s : Forall (fun f => fresh_description f.2.1) (loaded_files paths cfg s).
Proof.
  apply Forall_forall. intros f Hf. destruct (loaded_from _ _ _ _ Hf) as (s' & chunks & H & _). by eapply load_single_fresh.
Qed.

Lemma insert_file_fresh m f : map_Forall (fun _ v => fresh_description v.1) m -> fresh_description f.2.1 ->
  map_Forall (fun _ v => fresh_description v.1) (insert_file m f).
Proof.
  intros Hm Hf. unfold insert_file, insert_or_update_ecu. destruct (m !! f.1) as [[e0 meta0]|] eqn:He.
  - pose proof (Hm _ _ He) as H0. destruct (negb _); [by apply map_Forall_insert_2|].
    destruct (newer _ _); [by apply map_Forall_insert_2|done].
  - by apply map_Forall_insert_2.
Qed.

Lemma all_fresh files m : Forall (fun f => fresh_description f.2.1) files ->
  map_Forall (fun _ v => fresh_description v.1) m -> map_Forall (fun _ v => fresh_description v.1) (foldl insert_file m files).
Proof.
  intros Hf. revert m. induction Hf as [|f files Hf _ IH]; intros m Hm; [done|]. cbn. by apply IH, insert_file_fresh.
Qed.

Lemma collect_forall {A} (P : A -> Prop) (l : list (string * A)) (m : gmap string A) : Forall (fun kv => P kv.2) l -> map_Forall (fun _ => P) m ->
  map_Forall (fun _ => P) (foldl (fun (m : gmap string A) kv => <[kv.1 := kv.2]> m) m l).
Proof.
  intros Hl. revert m. induction Hl as [|kv l Hkv _ IH]; intros m Hm; [done|]. cbn. by apply IH, map_Forall_insert_2.
Qed.

Lemma valid_fresh m : map_Forall (fun _ v => fresh_description v.1) m ->
  map_Forall (fun _ => fresh_description) (valid_databases to_lowercase m).
Proof.
  intros Hm. unfold valid_databases, under_lowercase, collect. apply collect_forall; [|by apply map_Forall_empty].
  rewrite !Forall_fmap, Forall_forall. intros [n [e meta]] [_ Hin]%list_elem_of_filter. rewrite elem_of_map_to_list in Hin.
  apply (Hm _ _ Hin).
Qed.

(** C30: after loading, an ECU that has a target is marked as a duplicate of
    another one exactly when the requests to the two wait for each other. *)
Theorem duplicates_wait_for_each_other paths s databases files a b ea eb :
  run_result (load_databases config paths) s = Ok (Ok (databases, files)) ->
  databases !! a = Some ea -> databases !! b = Some eb -> a <> b ->
  b ∈ default ∅ (duplicating_ecu_names ea) <->
  is_Some (target_key ea) /\ request_lock_key to_lowercase ea = request_lock_key to_lowercase eb.
Proof.
  intros (r & Hr & H)%run_io_bind Ha Hb Hne. injection H as H. destruct r as [[m fm]|[]]; try done.
  apply load_each_files in Hr. destruct (handle_ecu_config_keys _ _ _); [|done]. injection H as Hd _.
  set (db := valid_databases to_lowercase m) in *.
  assert (Hfresh : map_Forall (fun _ => fresh_description) db).
  { apply valid_fresh. rewrite Hr. apply all_fresh; [apply files_fresh|by apply map_Forall_empty]. }
  rewrite <- Hd, marked_lookup in Ha, Hb.
  destruct (db !! a) as [a0|] eqn:Ha0; [|done]. destruct (db !! b) as [b0|] eqn:Hb0; [|done]. injection Ha as <-. injection Hb as <-.
  destruct (Hfresh _ _ Ha0) as [Hoka Hda], (Hfresh _ _ Hb0) as [Hokb _].
  rewrite (duplicates_of db a a0 b Ha0 Hda), target_marked, !lock_key_marked. split.
  - intros (_ & Ht & e' & He' & Heq). split; [done|]. apply lock_key_target; [done..|]. congruence.
  - intros [Ht Hk]. split; [by apply not_eq_sym|]. split; [done|]. exists b0. split; [done|]. by symmetry; apply (lock_key_target to_lowercase).
Qed.
End typed.
End run.

(** ** A database with addresses *)

#[local] Instance ex_serde : SerdeJson := {| json_bytes _ := None; json_u32_map _ := None; json_u32 _ := None |}.

Definition ex_dop : ComParamDop := {| normal_dop := Some None |}.

Definition ex_simple (name value : string) : ComParamRef :=
  {| com_param := Some (MkComParam (Some name) REGULAR (Some (Some ex_dop)) None); ref_protocol := Some (Some "UDS"%string);
     simple_value := Some (Some (chars value)); complex_value := None |}.

Definition ex_part (name : string) : ComParam := MkComParam (Some name) REGULAR (Some (Some ex_dop)) None.
Definition ex_table (name : string) (parts : list (string * string)) : ComParamRef :=
  {| com_param := Some (MkComParam (Some name) COMPLEX None (Some (Some (ex_part <$> parts.*1)))); ref_protocol := Some (Some "UDS"%string);
     simple_value := None; complex_value := Some (MkComplexValue ((fun p => SimpleEntry (Some (chars p.2))) <$> parts)) |}.

Definition ex_ecu_data (revision gateway ecu : string) : EcuData :=
  {| fb_ecu_name := Some "unit"%string; fb_revision := Some revision;
     variants := Some [{| is_base_variant := true; parent_protocols := [Some "UDS"%string];
                          diag_layer_refs := Some (Some [ex_simple "CP_DoIPLogicalGatewayAddress" gateway;
                                                         ex_table "CP_UniqueRespIdTable" [("CP_DoIPLogicalEcuAddress"%string, ecu)]]) |}];
     functional_groups := None |}.

(** ** Files *)

(** The description in a file is a number, and these are the descriptions. *)
Definition ex_mdd (ecu : string) (data : Z) : MddFile := mk_mdd "1" [] ecu None ∅ [mk_chunk 0 None ∅ [] None None None None (Some [data])] None.

Section scenario.
Context (descriptions : list (string * EcuData)).

Definition ex_decode (b : list Z) : option MddFile := n ← head b; d ← descriptions !! Z.to_nat n; Some (ex_mdd d.1 n).
Definition ex_read (b : list Z) : option EcuData := n ← head b; snd <$> descriptions !! Z.to_nat n.
Definition ex_names : list string := take (length descriptions) ["f0"; "f1"; "f2"; "f3"; "f4"].
Definition ex_disk : fs :=
  mk_fs {["db" := list_to_map (imap (fun i n => (n, file_magic_bytes ++ [Z.of_nat i])) ex_names)]} ∅ None.

Definition ex_config : Configuration () :=
  {| cfg_com_params := ComParams_default; cfg_ignore_protocol := false; cfg_can_naming := CanNaming_default;
     cfg_ignore_invalid_mdd := false; cfg_mdd_decompress := false; cfg_strict_ecu_config := false;
     cfg_description_database := "functional_groups"; cfg_protocol_name := "UDS"; cfg_ecu := [] |}.

Definition ex_paths : list (string * string) := pair "db"%string <$> ex_names.

Definition ex_load :=
  run_result (load_databases (ext := reference) id id ex_decode (fun _ => None) (fun _ => None) id (fun c (_ : ()) => Some c) ex_read
    (fun _ => Ok tt) ex_config ex_paths) ex_disk.
Definition ex_load_each :=
  run_result (load_each (ext := reference) id id ex_decode (fun _ => None) (fun _ => None) id (fun c (_ : ()) => Some c) ex_read
    (fun _ => Ok tt) ex_paths ex_config ∅ ∅ ∅) ex_disk.
End scenario.

(** ** Several files of one ECU *)

Definition loaded_ecus (descriptions : list (string * EcuData)) : LoadedEcuMap :=
  match ex_load_each descriptions with Ok (Ok (m, _)) => m | _ => ∅ end.
Definition loaded_managers (descriptions : list (string * EcuData)) : gmap string ((string * string) * list Chunk) :=
  match ex_load_each descriptions with Ok (Ok (_, fm)) => fm | _ => ∅ end.

Definition ex_updated : list (string * EcuData) :=
  [("Engine"%string, ex_ecu_data "1.0.0" "4096" "11"); ("Radio"%string, ex_ecu_data "1.0.0" "4096" "10");
   ("Engine"%string, ex_ecu_data "1.2.0" "4096" "11"); ("Engine"%string, ex_ecu_data "1.1.0" "4096" "11")].

Abbreviation ex_files descriptions :=
  (loaded_files id id (ex_decode descriptions) (fun _ => None) (fun _ => None) id (fun c (_ : ()) => Some c) (ex_read descriptions)
    (fun _ : EcuData => Ok tt) ex_config (ex_paths descriptions) ∅ (ex_disk descriptions)).

Lemma one_address_decided l :
  forallb (fun f => forallb (fun g => negb (String.eqb f.1 g.1) || logical_address_eq f.2.1 g.2.1) l) l = true -> one_address l.
Proof.
  rewrite forallb_forall. intros Hl f g Hf Hg Hname. apply list_elem_of_In in Hf, Hg.
  specialize (Hl f Hf). rewrite forallb_forall in Hl. specialize (Hl g Hg). by rewrite Hname, String.eqb_refl in Hl.
Qed.

Lemma ex_updated_loaded : ex_load_each ex_updated = Ok (Ok (loaded_ecus ex_updated, loaded_managers ex_updated)).
Proof. vm_cast_no_check (eq_refl (ex_load_each ex_updated)). Qed.

Definition loaded_databases (descriptions : list (string * EcuData)) : DatabaseMap :=
  match ex_load descriptions with Ok (Ok (m, _)) => m | _ => ∅ end.
Definition served_databases (descriptions : list (string * EcuData)) : gmap string ((string * string) * list Chunk) :=
  match ex_load descriptions with Ok (Ok (_, fm)) => fm | _ => ∅ end.

Lemma ex_updated_databases : ex_load ex_updated = Ok (Ok (loaded_databases ex_updated, served_databases ex_updated)).
Proof. vm_cast_no_check (eq_refl (ex_load ex_updated)). Qed.

Theorem newest_file_is_used_witness :
  revision <$> loaded_databases ex_updated !! "Engine"%string = Some "1.2.0"%string /\
  match loaded_databases ex_updated !! "Engine"%string with
  | Some e => exists f, f ∈ ex_files ex_updated /\ f.1 = "Engine"%string /\
      forall g, g ∈ ex_files ex_updated -> g.1 = f.1 -> newer g.2.1 f.2.1 = false
  | None => False
  end.
Proof.
  split; [by vm_compute|].
  assert (Hone : one_address (ex_files ex_updated)) by (apply one_address_decided; by vm_compute).
  pose proof (newest_file_is_used _ _ _ _ _ _ _ _ _ _ _ _ _ _ "Engine" ex_updated_databases Hone (fun _ _ _ _ H => H)) as H.
  destruct (loaded_databases ex_updated !! "Engine"%string) as [e|] eqn:He; [|by vm_compute in He].
  destruct H as (f & Hf & Hk & _ & _ & Hnew). exists f. split; [exact Hf|]. split; [by rewrite Hk|exact Hnew].
Defined.

(** A revision is a text: the tenth version is older than the ninth. *)
Example revisions_are_texts :
  (fun v => revision v.1) <$>
    loaded_ecus [("Engine"%string, ex_ecu_data "10.0.0" "4096" "11"); ("Engine"%string, ex_ecu_data "9.0.0" "4096" "11")] !! "Engine"%string =
  Some "9.0.0"%string.
Proof. by vm_compute. Qed.

(** Files that disagree on the address make the ECU invalid, until a newer
    file of either address comes. *)
Example conflict_is_reported :
  (fun v => valid v.2) <$>
    loaded_ecus [("Engine"%string, ex_ecu_data "1.0.0" "4096" "11"); ("Engine"%string, ex_ecu_data "1.0.0" "4096" "12")] !! "Engine"%string =
  Some false.
Proof. by vm_compute. Qed.

Example conflict_is_forgotten :
  (fun v => valid v.2) <$>
    loaded_ecus [("Engine"%string, ex_ecu_data "1.0.0" "4096" "11"); ("Engine"%string, ex_ecu_data "1.0.0" "4096" "12");
                 ("Engine"%string, ex_ecu_data "1.1.0" "4096" "11")] !! "Engine"%string =
  Some true.
Proof. by vm_compute. Qed.

(** The files served are those of the file read last, whichever is used. *)
Example files_of_another_version :
  let descriptions := [("Engine"%string, ex_ecu_data "1.2.0" "4096" "11"); ("Engine"%string, ex_ecu_data "1.0.0" "4096" "11")] in
  (fun v => (revision v.1, mdd_path v.2)) <$> loaded_ecus descriptions !! "Engine"%string = Some ("1.2.0", ("db", "f0"))%string /\
  fst <$> loaded_managers descriptions !! "Engine"%string = Some ("db", "f1")%string.
Proof. by vm_compute. Qed.

(** ** Models of one control unit *)

Definition ex_models : list (string * EcuData) :=
  [("RadioA"%string, ex_ecu_data "1.0.0" "4096" "10"); ("RadioB"%string, ex_ecu_data "1.0.0" "4096" "10");
   ("Engine"%string, ex_ecu_data "1.0.0" "4096" "11")].

Definition databases_of (descriptions : list (string * EcuData)) : DatabaseMap :=
  match ex_load descriptions with Ok (Ok (m, _)) => m | _ => ∅ end.
Definition files_of (descriptions : list (string * EcuData)) : gmap string ((string * string) * list Chunk) :=
  match ex_load descriptions with Ok (Ok (_, f)) => f | _ => ∅ end.

Definition ex_database (name : string) : option EcuDescription := databases_of ex_models !! name.
Definition duplicates_in (name : string) : gset string := default ∅ (ex_database name ≫= duplicating_ecu_names).

Lemma ex_config_ok : com_params_ok (cfg_com_params ex_config).
Proof. repeat split; cbn; intros; (lia || done). Qed.

Lemma ex_models_loaded : ex_load ex_models = Ok (Ok (databases_of ex_models, files_of ex_models)).
Proof. vm_cast_no_check (eq_refl (ex_load ex_models)). Qed.

Lemma ex_merge_ok c (o : ()) c' : com_params_ok c -> Some c = Some c' -> com_params_ok c'.
Proof. by intros Hc [= <-]. Qed.

Theorem duplicates_wait_for_each_other_witness :
  map (fun n => elements (duplicates_in n)) ["RadioA"; "RadioB"; "Engine"]%string = [["RadioB"]; ["RadioA"]; []]%string /\
  (request_lock_key id <$> ex_database "RadioA") = (request_lock_key id <$> ex_database "RadioB") /\
  (request_lock_key id <$> ex_database "RadioA") <> (request_lock_key id <$> ex_database "Engine").
Proof.
  split; [by vm_compute|].
  unfold ex_database.
  destruct (databases_of ex_models !! "RadioA"%string) as [a|] eqn:Ha; [|by vm_compute in Ha].
  destruct (databases_of ex_models !! "RadioB"%string) as [b|] eqn:Hb; [|by vm_compute in Hb].
  destruct (databases_of ex_models !! "Engine"%string) as [c|] eqn:Hc; [|by vm_compute in Hc].
  assert (Hd : "RadioB"%string ∈ default ∅ (duplicating_ecu_names a) /\ "Engine"%string ∉ default ∅ (duplicating_ecu_names a) /\
    is_Some (target_key a)).
  { clear - Ha. vm_compute in Ha. injection Ha as <-. split_and!; [by vm_compute..|by eexists]. }
  destruct Hd as (Hab & Hac & Ht).
  pose proof (fun n e => duplicates_wait_for_each_other (ext := reference) id id (ex_decode ex_models) (fun _ => None) (fun _ => None) id
    (fun c (_ : ()) => Some c) (ex_read ex_models) (fun _ : EcuData => Ok tt) ex_config ex_config_ok ex_merge_ok (ex_paths ex_models)
    (ex_disk ex_models) _ _ "RadioA" n a e ex_models_loaded Ha) as H.
  split; cbn [fmap option_fmap option_map].
  - f_equal. apply (H "RadioB"%string b Hb); [done|exact Hab].
  - intros [= Hk]. apply Hac, (H "Engine"%string c Hc); [done|]. by split.
Defined.

(** ** Parameters *)

(** A number of microseconds without a unit can lose one, and no number at all
    is a duration of zero. *)
Example durations :
  map (fun s => parse_from_db com_duration (chars s) None) ["1000000"; "200000"; "NaN"; "0"; "-1"]%string =
  [Some 1000000; Some 199999; Some 0; None; None].
Proof. by vm_compute. Qed.

(** A parameter whose type does not fit its value ends the program. *)
Example value_of_wrong_type :
  let simple := ex_simple "P" "1" in
  let complex := ex_table "P" [("A", "1")]%string in
  let exchange a b := {| com_param := com_param b; ref_protocol := ref_protocol a; simple_value := simple_value a; complex_value := complex_value a |} in
  resolve_comparam (exchange simple complex) = Err Panicked /\ resolve_comparam (exchange complex simple) = Err Panicked.
Proof. by vm_compute. Qed.

(** The parts of a part are looked up among the values of the whole: here the
    values 2 and 3 are in a table of their own, which is not read. *)
Example parts_of_a_part :
  let part n := MkComParam (Some n) REGULAR (Some (Some ex_dop)) None in
  let table n l := MkComParam (Some n) COMPLEX None (Some (Some l)) in
  let value v := SimpleEntry (Some (chars v)) in
  let whole := MkComplexValue [value "1"; ComplexEntry (MkComplexValue [value "2"; value "3"])]%string in
  resolve_complex_value (table "T" [part "A"; table "B" [part "C"]])%string whole =
    Ok ("T"%string, Complex {["A"%string := Simple (chars "1") (Some {| factor_to_si_unit := None; offset_to_si_unit := None |});
                              "B"%string := Complex {["C"%string := Simple (chars "1") (Some {| factor_to_si_unit := None; offset_to_si_unit := None |})]}]}) /\
  resolve_complex_value (table "T" [part "A"; table "B" [part "C"; part "D"]])%string whole = Err (Failed InvalidDatabase).
Proof. by vm_compute. Qed.
