(* ===== verification/Doip.v ===== *)
(** * DoIP

    cda-comm-doip/src: the messages of a connection and the channels they are put
    on (connections.rs, connection_receiver.rs), requests as transmissions of
    Transport.v and functional requests ([PhysicalTransport] and
    [FunctionalTransport] in lib.rs), finding gateways (vir_vam.rs), connecting
    to them and keeping the connections (ecu_connection.rs, socket.rs,
    connections.rs, the alive check of connection_sender.rs).  The payloads are
    those of the crate doip_definitions; an address is the number of its two
    bytes, a time is in nanoseconds. *)

From stdpp Require Import strings gmap.
From S2P Require Import Prelude Errors Text Uds Transport.
From stdpp Require Import list.

Local Open Scope Z_scope.
Set Warnings "-register-all".

(** ** Payloads *)

Inductive ActivationCode : Type :=
  | SuccessfullyActivated
  | DeniedRequestEncryptedTLSConnection
  | OtherActivationCode (code : Z).

Module payload.
Inductive DoipPayload : Type :=
  | DiagnosticMessage (source_address target_address : Z) (message : list Z)
  | DiagnosticMessageAck (source_address : Z) (previous_message : list Z)
  | DiagnosticMessageNack (source_address nack_code : Z)
  | GenericNack (nack_code : Z)
  | RoutingActivationRequest (source_address : Z)
  | RoutingActivationResponse (code : ActivationCode)
  | AliveCheckRequest
  | AliveCheckResponse
  | VehicleIdentificationRequest
  | VehicleAnnouncementMessage (logical_address : Z)
  | Other.
End payload.
Import payload (DoipPayload).

(** ** Errors *)

Module conn.
Inductive ConnectionError : Type :=
  | Closed | Decoding | InvalidMessage | Timeout | ConnectionFailed | RoutingError | SendFailed.
End conn.
Import conn (ConnectionError).

Inductive EcuError : Type := ResourceNotFound | EcuConnectionError (e : ConnectionError).

Definition DiagServiceError_from (value : EcuError) : DiagServiceError :=
  match value with
  | ResourceNotFound => ResourceError
  | EcuConnectionError e =>
      match e with
      | conn.Decoding => DataError
      | conn.InvalidMessage => UnexpectedResponse
      | conn.Timeout => Timeout
      | conn.ConnectionFailed | conn.RoutingError | conn.SendFailed | conn.Closed => ConnectionClosed
      end
  end.

(** ** What is read *)

Inductive DiagnosticResponse : Type :=
  | Msg (source_address target_address : Z) (data : list Z)
  | Ack (source_address : Z) (previous : list Z)
  | NackResponse (source_address nack_code : Z)
  | AliveCheck
  | TesterPresentNRC (code : Z)
  | GenericNackResponse (nack_code : Z).

(** [try_read] without its timeout: [None] is the end of the stream. *)
Definition read_response (r : option (result ConnectionError DoipPayload)) : result ConnectionError DiagnosticResponse :=
  match r with
  | Some (Ok p) =>
      match p with
      | payload.DiagnosticMessage source target message =>
          if is_tester_present_nrc message then Ok (TesterPresentNRC (default 0 (message !! 2%nat)))
          else Ok (Msg source target message)
      | payload.DiagnosticMessageNack source code => Ok (NackResponse source code)
      | payload.GenericNack code => Ok (GenericNackResponse code)
      | payload.DiagnosticMessageAck source previous => Ok (Ack source previous)
      | payload.AliveCheckResponse => Ok AliveCheck
      | _ => Err conn.InvalidMessage
      end
  | Some (Err _) => Err conn.Decoding
  | None => Err conn.Closed
  end.

(** [starts_with]. *)
Fixpoint starts_with (l prefix : list Z) : bool :=
  match prefix, l with
  | [], _ => true
  | x :: prefix, y :: l => (x =? y) && starts_with l prefix
  | _ :: _, [] => false
  end.

Definition matches_request (self : DiagnosticResponse) (request : list Z) : bool :=
  match head request with
  | None => false
  | Some sid =>
      match self with
      | Ack _ previous => starts_with request previous
      | Msg _ _ data => uds_response_matches_request_sid sid data
      | _ => false
      end
  end.

(** ** The channel of an ECU *)

Abbreviation ecu_event := (result EcuError DiagnosticResponse).

(** [tokio::sync::broadcast] with its one receiver: a message for which there
    is no room replaces the oldest one, and the next attempt to receive says so
    once instead of returning a message. *)
Record Receiver : Type := { queued : list ecu_event; lagged : bool }.

Inductive try_recv_result : Type := Taken (e : ecu_event) | Lagged | Empty.

Section channel.
Context (capacity : nat).

Definition broadcast_send (r : Receiver) (e : ecu_event) : Receiver :=
  if (length (queued r) <? capacity)%nat then {| queued := queued r ++ [e]; lagged := lagged r |}
  else {| queued := tail (queued r) ++ [e]; lagged := true |}.
End channel.

Definition try_recv (r : Receiver) : try_recv_result * Receiver :=
  if lagged r then (Lagged, {| queued := queued r; lagged := false |})
  else match queued r with
       | e :: rest => (Taken e, {| queued := rest; lagged := false |})
       | [] => (Empty, r)
       end.

(** [while receiver.try_recv().is_ok() {}]. *)
Fixpoint clear_loop (fuel : nat) (r : Receiver) : Receiver :=
  match fuel with
  | O => r
  | S fuel => match try_recv r with (Taken _, r) => clear_loop fuel r | (_, r) => r end
  end.
Definition clear_pending_messages (r : Receiver) : Receiver := clear_loop (S (length (queued r))) r.

Lemma clear_pending_cleared r : clear_pending_messages r = {| queued := if lagged r then queued r else []; lagged := false |}.
Proof.
  unfold clear_pending_messages. destruct r as [q [|]]; [done|]. cbn [queued lagged].
  induction q as [|e q IH]; [done|]. exact IH.
Qed.

(** ** The receiving task *)

(** The address of the channel a message is put on. *)
Definition destination (r : DiagnosticResponse) : option Z :=
  match r with
  | Ack source _ | Msg source _ _ | NackResponse source _ => Some source
  | GenericNackResponse _ | AliveCheck | TesterPresentNRC _ => None
  end.

Section receiving.
Context (capacity : nat).

Abbreviation channels := (gmap Z Receiver).

Definition handle_ok_response (outtx : channels) (response : DiagnosticResponse) : channels :=
  match destination response with
  | Some addr => alter (fun r => broadcast_send capacity r (Ok response)) addr outtx
  | None => outtx
  end.

(** The channels, and whether a reset of the connection is asked for. *)
Definition handle_response (outtx : channels) (response : option (result ConnectionError DiagnosticResponse)) : channels * bool :=
  match response with
  | Some (Ok response) => (handle_ok_response outtx response, false)
  | Some (Err conn.Closed) => (outtx, true)
  | Some (Err _) | None => (outtx, false)
  end.

(** What the task reads one after the other. *)
Definition receive_all (outtx : channels) (frames : list (option (result ConnectionError DoipPayload))) : channels :=
  foldl (fun outtx f => fst (handle_response outtx (Some (read_response f)))) outtx frames.
End receiving.

(** What arrives on the channel of [addr] when a frame is read. *)
Definition on_channel (addr : Z) (f : option (result ConnectionError DoipPayload)) : option ecu_event :=
  match read_response f with
  | Ok r => if bool_decide (destination r = Some addr) then Some (Ok r) else None
  | Err _ => None
  end.

Lemma receive_cons capacity outtx f frames :
  receive_all capacity outtx (f :: frames) = receive_all capacity (handle_response capacity outtx (Some (read_response f))).1 frames.
Proof. done. Qed.

Lemma on_channel_cons addr f frames : omap (on_channel addr) (f :: frames) =
  match on_channel addr f with Some e => e :: omap (on_channel addr) frames | None => omap (on_channel addr) frames end.
Proof. done. Qed.

(** Every message is put on the channel of its ECU and on no other one. *)
Lemma received_on_channel capacity outtx frames addr r : outtx !! addr = Some r ->
  (length (queued r) + length (omap (on_channel addr) frames) <= capacity)%nat ->
  receive_all capacity outtx frames !! addr = Some {| queued := queued r ++ omap (on_channel addr) frames; lagged := lagged r |}.
Proof.
  revert outtx r. induction frames as [|f frames IH]; intros outtx r Hr.
  - intros _. cbn. rewrite Hr, app_nil_r. by destruct r.
  - rewrite receive_cons, on_channel_cons. intros Hl. unfold on_channel at 1 in Hl. unfold on_channel at 1. unfold handle_response. destruct (read_response f) as [resp|e]; cbn [fst].
    + unfold handle_ok_response. destruct (destination resp) as [a|] eqn:Ha.
      * destruct (decide (a = addr)) as [->|Hne].
        -- rewrite bool_decide_true in Hl |- * by done. cbn [length] in Hl.
           assert (Hb : broadcast_send capacity r (Ok resp) = {| queued := queued r ++ [Ok resp]; lagged := lagged r |}).
           { unfold broadcast_send. by destruct (Nat.ltb_spec (length (queued r)) capacity); [|lia]. }
           rewrite (IH _ (broadcast_send capacity r (Ok resp))); [|by rewrite lookup_alter_eq, Hr|]; rewrite Hb; cbn [queued lagged].
           ++ by rewrite <- app_assoc.
           ++ rewrite length_app. cbn [length]. lia.
        -- rewrite bool_decide_false in Hl |- * by congruence. apply IH; [by rewrite lookup_alter_ne|done].
      * rewrite bool_decide_false in Hl |- * by done. by apply IH.
    + destruct e; cbn [fst]; by apply IH.
Qed.

(** ** The connections *)

Record TransmissionParameters : Type := {
  gateway_address : Z;
  timeout_ack : Z;
  tp_ecu_name : string;
  repeat_request_count_transmission : Z
}.

(** An ECU of a connection is its channel, by its address. *)
Record DoipConnection : Type := { connection_ecus : gset Z; ip : string }.

Record DoipGatewayState : Type := {
  doip_connections : list DoipConnection;
  logical_address_to_connection : gmap Z nat
}.

(** What the gateway reads of an ECU ([EcuAddresses]). *)
Record EcuAddresses : Type := {
  ea_name : string;
  ea_tester_address : Z;
  ea_logical_address : Z;
  ea_logical_gateway_address : Z;
  ea_logical_functional_address : Z
}.

Definition get_doip_connection (self : DoipGatewayState) (logical_address : Z) : dresult DoipConnection :=
  conn_idx ← ok_or (logical_address_to_connection self !! logical_address) EcuOffline;
  ok_or (doip_connections self !! conn_idx) ConnectionClosed.

Section gateway.
Context (to_lowercase : string -> string) (ecus : gmap string EcuAddresses).

(** The address whose channel a request is sent and answered on. *)
Definition get_ecu_mtx (doip_conn : DoipConnection) (message : ServicePayload) (transmission_params : TransmissionParameters)
    : dresult Z :=
  if bool_decide (target_address message ∈ connection_ecus doip_conn) then Ok (target_address message)
  else
    match ecus !! to_lowercase (tp_ecu_name transmission_params) with
    | Some ecu =>
        if (ea_logical_functional_address ecu =? target_address message) &&
           bool_decide (gateway_address transmission_params ∈ connection_ecus doip_conn)
        then Ok (gateway_address transmission_params) else Err EcuOffline
    | None => Err EcuOffline
    end.

Inductive RouteStatus : Type := NotConfigured | Ready | ProbeRequired | Unavailable.

Definition route_status (self : DoipGatewayState) (ecu_name : string) : RouteStatus :=
  match ecus !! to_lowercase ecu_name with
  | None => NotConfigured
  | Some ecu =>
      match get_doip_connection self (ea_logical_gateway_address ecu) with Ok _ => Ready | Err _ => Unavailable end
  end.

Definition ecu_online (self : DoipGatewayState) (ecu_db : EcuAddresses) : dresult () :=
  doip_conn ← get_doip_connection self (ea_logical_gateway_address ecu_db);
  if bool_decide (ea_logical_address ecu_db ∈ connection_ecus doip_conn) then Ok tt else Err EcuOffline.

(** The first connection with the address. *)
Definition get_gateway_network_address (self : DoipGatewayState) (logical_address : Z) : option string :=
  ip <$> List.find (fun conn => bool_decide (logical_address ∈ connection_ecus conn)) (doip_connections self).
End gateway.

(** ** What a task sees *)

(** The next thing on a channel: an event, or that events were lost. *)
Inductive channel_item : Type := Event (e : ecu_event) | Missed.

(** What comes on a channel, each with the time since the one before, and when
    the channel ends after that ([None]: never). *)
Record stream : Type := { items : list (Z * channel_item); ends : option Z }.

(** The environment of one request: the time until the mutex of the channel is
    free ([None]: never), what the channel holds then, whether the [k]-th attempt
    to put the request on the queue of the connection succeeds and how long that
    takes in all, and what the channel gets from then on. *)
Record doip_run : Type := {
  locked_after : option Z;
  pending_messages : Receiver;
  accepted : DoipPayload -> nat -> bool;
  queued_after : Z;
  answers : stream;
  stops_after : option Z
}.

(** The message of a request. *)
Definition doip_message (message : ServicePayload) : DoipPayload :=
  payload.DiagnosticMessage (source_address message) (target_address message) (data message).

(** [resend_counter] counts the failed attempts; there are more of them than
    [max_retries] in the end. *)
Fixpoint send_with_retries (accepted : nat -> bool) (resend_counter max_retries : nat) (fuel : nat) : dresult () :=
  match fuel with
  | O => Err SendFailed
  | S fuel =>
      if accepted resend_counter then Ok tt
      else if (max_retries <? S resend_counter)%nat then Err SendFailed
      else send_with_retries accepted (S resend_counter) max_retries fuel
  end.

(** What a receiver gets after its pending messages were cleared. *)
Definition stream_after (r : Receiver) (s : stream) : stream :=
  let r := clear_pending_messages r in
  {| items := (if lagged r then [(0, Missed)] else []) ++ map (fun e => (0, Event e)) (queued r) ++ items s; ends := ends s |}.

(** ** Waiting for the acknowledgement *)

(** How long it takes, how it ends, and what is left to receive. *)
Definition ack_result : Type := Z * dresult (option DiagnosticResponse) * stream.

Fixpoint wait_for_ack_or_response (request : list Z) (l : list (Z * channel_item)) (ends : option Z) (timeout spent : Z) : ack_result :=
  match l with
  | [] =>
      match ends with
      | Some d => if spent + d <=? timeout then (spent + d, Err NoResponse, {| items := []; ends := Some 0 |})
                  else (timeout, Err Timeout, {| items := []; ends := Some (spent + d - timeout) |})
      | None => (timeout, Err Timeout, {| items := []; ends := None |})
      end
  | (d, item) :: rest =>
      if timeout <? spent + d then (timeout, Err Timeout, {| items := (spent + d - timeout, item) :: rest; ends := ends |})
      else
        let remaining := {| items := rest; ends := ends |} in
        match item with
        | Missed | Event (Err _) => (spent + d, Err NoResponse, remaining)
        | Event (Ok response) =>
            match response with
            | NackResponse _ code | GenericNackResponse code => (spent + d, Err (Nack code), remaining)
            | _ =>
                if negb (matches_request response request) then wait_for_ack_or_response request rest ends timeout (spent + d)
                else match response with
                     | Ack _ _ => (spent + d, Ok None, remaining)
                     | response => (spent + d, Ok (Some response), remaining)
                     end
            end
        end
  end.

Definition wait_for_ack_or_response_until_timeout (s : stream) (request : list Z) (timeout : Z) : ack_result :=
  wait_for_ack_or_response request (items s) (ends s) timeout 0.

(** ** Forwarding the answers *)

Definition diagnostic_response_to_transport (event : DiagnosticResponse) : received :=
  match event with
  | Msg source target data =>
      match pending_nrc_from_raw data source with
      | Some pending => Ok (Some (Pending pending))
      | None => Ok (Some (UdsResponse (uds_response_from_raw data source target)))
      end
  | _ => Err BadPayload
  end.

(** The responses sent, and when the sender is dropped after the last one. *)
Abbreviation sent_back := (list (Z * received) * option Z)%type.

Fixpoint forward_answers (l : list (Z * channel_item)) (ends : option Z) : sent_back :=
  match l with
  | [] => match ends with Some d => ([(d, Err NoResponse)], Some 0) | None => ([], None) end
  | (d, Event (Ok event)) :: rest =>
      let '(out, c) := forward_answers rest ends in ((d, diagnostic_response_to_transport event) :: out, c)
  | (d, Event (Err _)) :: rest => let '(out, c) := forward_answers rest ends in ((d, Err NoResponse) :: out, c)
  | (d, Missed) :: _ => ([(d, Err NoResponse)], Some 0)
  end.

Definition read_ecu_responses (received_event : option DiagnosticResponse) (s : stream) : sent_back :=
  let '(out, c) := forward_answers (items s) (ends s) in
  match received_event with
  | Some event => ((0, diagnostic_response_to_transport event) :: out, c)
  | None => (out, c)
  end.

(** The same, some time later. *)
Definition later (d : Z) (s : sent_back) : sent_back :=
  match s with
  | ((t, r) :: out, c) => ((d + t, r) :: out, c)
  | ([], c) => ([], (fun t => d + t) <$> c)
  end.

(** The task of a request. *)
Definition send_task (x : doip_run) (message : ServicePayload) (params : TransmissionParameters) (expect_uds_reply : bool) : sent_back :=
  match locked_after x with
  | None => ([], None)
  | Some start =>
      let retries := Z.to_nat (repeat_request_count_transmission params) in
      later (start + queued_after x)
        match send_with_retries (accepted x (doip_message message)) 0 retries (S retries) with
        | Err e => ([(0, Err e)], Some 0)
        | Ok _ =>
            let '(t, first, remaining) :=
              wait_for_ack_or_response_until_timeout (stream_after (pending_messages x) (answers x)) (data message) (timeout_ack params) in
            later t
              match first with
              | Err e => ([(0, Err e)], Some 0)
              | Ok received_event =>
                  let '(out, c) := read_ecu_responses received_event remaining in
                  if expect_uds_reply then (out, c) else ((0, Ok None) :: out, c)
              end
        end
  end.

Section send.
Context (to_lowercase : string -> string) (ecus : gmap string EcuAddresses).

(** [DoipDiagGateway::send]. *)
Definition doip_send (self : DoipGatewayState) (x : doip_run) (message : ServicePayload)
    (params : TransmissionParameters) (expect_uds_reply : bool) : transmission :=
  match (doip_conn ← get_doip_connection self (gateway_address params); get_ecu_mtx to_lowercase ecus doip_conn message params) with
  | Err e => {| send_time := 0; send_result := Err e; incoming := listed []; closes := None; teardown := None |}
  | Ok _ =>
      let '(out, c) := send_task x message params expect_uds_reply in
      {| send_time := 0; send_result := Ok tt; incoming := listed out; closes := c; teardown := stops_after x |}
  end.
End send.

(** ** Functional requests *)

Fixpoint first_message (l : list (Z * channel_item)) (timeout spent : Z) : option (result EcuError (Z * Z * list Z)) :=
  match l with
  | [] => None
  | (d, item) :: rest =>
      if timeout <? spent + d then None
      else match item with
           | Event (Ok (Msg source target message)) => Some (Ok (source, target, message))
           | Event (Ok _) => first_message rest timeout (spent + d)
           | Event (Err e) => Some (Err e)
           | Missed => None
           end
  end.

(** [wait_for_ecu_response]: the end of the channel is no response. *)
Definition wait_for_ecu_response (s : stream) (timeout : Z) : option (result EcuError (Z * Z * list Z)) :=
  first_message (items s) timeout 0.

Definition SUPPRESS_POSITIVE_RESPONSE_TIMEOUT : Z := 500 * 1000 * 1000.

(** What the channel of an ECU gets from the time its mutex is locked; only
    that of the gateway was cleared before. *)
Definition uncleared (r : Receiver) (s : stream) : stream :=
  {| items := (if lagged r then [(0, Missed)] else []) ++ map (fun e => (0, Event e)) (queued r) ++ items s; ends := ends s |}.

Definition response_of (msg : result EcuError (Z * Z * list Z)) : dresult ServicePayload :=
  match msg with
  | Ok (source, target, message) => Ok (uds_response_from_raw message source target)
  | Err e => Err (DiagServiceError_from e)
  end.

Abbreviation received_responses := (gmap string (result EcuError (Z * Z * list Z))).

Definition add_response (timeout : Z) (m : received_responses) (ecu : string * stream) : received_responses :=
  match wait_for_ecu_response ecu.2 timeout with Some response => <[ecu.1 := response]> m | None => m end.

(** An ECU that did not answer. *)
Definition add_timeout (m : gmap string (dresult ServicePayload)) (expected : Z * string) : gmap string (dresult ServicePayload) :=
  match m !! expected.2 with Some _ => m | None => <[expected.2 := Err Timeout]> m end.

Section functional.
Context (to_lowercase : string -> string).

(** The channels at the time of the request, what they get, and whether the
    request can be put on the queue. *)
Definition send_functional (self : DoipGatewayState) (pending : Z -> Receiver) (answers : Z -> stream)
    (accepted : DoipPayload -> nat -> bool) (message : ServicePayload) (params : TransmissionParameters) (expected : gmap Z string) (timeout : Z) (expect_positive_response : bool)
    : dresult (gmap string (dresult ServicePayload)) :=
  doip_conn ← get_doip_connection self (gateway_address params);
  if bool_decide (gateway_address params ∉ connection_ecus doip_conn) then Err EcuOffline
  else
    let gateway := gateway_address params in
    let ecu_mtxs :=
      omap (fun '(addr, name) =>
              if bool_decide (addr = gateway) then None
              else if bool_decide (addr ∈ connection_ecus doip_conn) then Some (name, uncleared (pending addr) (answers addr)) else None)
        (map_to_list expected) ++
      [(to_lowercase (tp_ecu_name params), stream_after (pending gateway) (answers gateway))] in
    let retries := Z.to_nat (repeat_request_count_transmission params) in
    _ ← send_with_retries (accepted (doip_message message)) 0 retries (S retries);
    let response_timeout := if expect_positive_response then timeout else SUPPRESS_POSITIVE_RESPONSE_TIMEOUT in
    let result_map := response_of <$> foldl (add_response response_timeout) ∅ ecu_mtxs in
    Ok (if expect_positive_response then foldl add_timeout result_map (map_to_list expected) else result_map).
End functional.

(** ** Reading and writing a connection *)

(** [DoIPConnection::read]: what is read, and the acknowledgement that is sent
    for it, with the result of sending. *)
Definition DoIPConnection_read (send_diagnostic_message_ack : bool) (res : option (result ConnectionError DoipPayload))
    (sent : result ConnectionError ()) : option (result ConnectionError DoipPayload) * list DoipPayload :=
  match res with
  | Some (Ok (payload.DiagnosticMessage _ target_address _)) =>
      if send_diagnostic_message_ack then
        (match sent with Ok _ => res | Err _ => Some (Err conn.SendFailed) end, [payload.DiagnosticMessageAck target_address []])
      else (res, [])
  | _ => (res, [])
  end.

(** [DoIPConnectionReadHalf::read], which a connection is read with once its
    routing is activated. *)
Definition ReadHalf_read (res : option (result ConnectionError DoipPayload)) : option (result ConnectionError DoipPayload) * list DoipPayload :=
  (res, []).

(** ** Establishing a connection *)

(** [None] is a timeout. *)
Record socket_run : Type := {
  connects : option (result ConnectionError ());
  tls_handshake : result ConnectionError ();
  request_sent : result ConnectionError ();
  reply : option (option (result ConnectionError DoipPayload))
}.

Definition try_read_routing_activation_response (r : option (option (result ConnectionError DoipPayload))) : dresult ActivationCode :=
  match r with
  | Some (Some (Ok (payload.RoutingActivationResponse code))) => Ok code
  | Some (Some _) => Err UnexpectedResponse
  | Some None => Err ConnectionClosed
  | None => Err Timeout
  end.

Definition activation_code (s : socket_run) : result ConnectionError ActivationCode :=
  _ ← match request_sent s with Ok _ => Ok tt | Err _ => Err conn.RoutingError end;
  match try_read_routing_activation_response (reply s) with Ok code => Ok code | Err _ => Err conn.RoutingError end.

Definition establish_tls_ecu_connection (tls : socket_run) : result ConnectionError () :=
  _ ← match connects tls with
      | Some (Ok _) => tls_handshake tls
      | Some (Err _) => Err conn.ConnectionFailed
      | None => Err conn.Timeout
      end;
  code ← activation_code tls;
  match code with SuccessfullyActivated => Ok tt | _ => Err conn.RoutingError end.

Definition establish_ecu_connection (plain tls : socket_run) : result ConnectionError () :=
  _ ← match connects plain with Some r => r | None => Err conn.Timeout end;
  code ← activation_code plain;
  match code with
  | SuccessfullyActivated => Ok tt
  | DeniedRequestEncryptedTLSConnection => establish_tls_ecu_connection tls
  | OtherActivationCode _ => Err conn.RoutingError
  end.

(** ** Keeping it *)

(** What the rest of the program is told. *)
Inductive doip_notice : Type :=
  | Connected (ecu_names : list string)
  | Disconnected (ecu_names : list string)
  | DetectVariants (ecu_names : list string).

(** The loop 'reconnect: the attempts so far, and what [establish] does at
    each; whether it ends connected, after how many attempts. *)
Fixpoint reconnect_loop (fuel : nat) (establish : nat -> result ConnectionError ()) (max_retry_attempts : Z) (attempts : nat) : bool * nat :=
  match fuel with
  | O => (false, attempts)
  | S fuel =>
      match establish attempts with
      | Ok _ => (true, S attempts)
      | Err _ =>
          if max_retry_attempts <=? Z.of_nat (S attempts) then (false, S attempts)
          else reconnect_loop fuel establish max_retry_attempts (S attempts)
      end
  end.

(** One request to reset the connection. *)
Definition reset_connection (ecu_names : list string) (establish : nat -> result ConnectionError ()) (max_retry_attempts : Z)
    : list doip_notice * bool :=
  let '(connected, _) := reconnect_loop (Z.to_nat (Z.max 1 max_retry_attempts)) establish max_retry_attempts 0 in
  (Disconnected ecu_names :: (if connected then [Connected ecu_names] else []), connected).

(** [send_alive_response] after it has sent its message: how long it keeps the
    connection, and what it leaves to be read.  After an acknowledgement it waits
    for the reader it holds itself. *)
Definition ALIVE_CHECK_TIMEOUT : Z := 1000 * 1000 * 1000.

Definition handle_alive_request_response (frames : list (Z * option (result ConnectionError DoipPayload)))
    : Z * list (Z * option (result ConnectionError DoipPayload)) :=
  match frames with
  | (d, f) :: rest =>
      if ALIVE_CHECK_TIMEOUT <? d then (ALIVE_CHECK_TIMEOUT, (d - ALIVE_CHECK_TIMEOUT, f) :: rest)
      else match read_response f with
           | Ok (Ack _ _) => (ALIVE_CHECK_TIMEOUT, match rest with (d', f') :: rest => (Z.max 0 (d + d' - ALIVE_CHECK_TIMEOUT), f') :: rest | [] => [] end)
           | _ => (d, rest)
           end
  | [] => (ALIVE_CHECK_TIMEOUT, [])
  end.

(** ** Addresses *)

Module setup.
Inductive DoipGatewaySetupError : Type :=
  | InvalidAddress | UnknownECU (logical_address : Z) | ResourceError.
End setup.
Import setup (DoipGatewaySetupError).

(** [Ipv4Addr::from_str] and [to_bits]: four numbers without leading zeros. *)
Definition parse_octet (s : str) : option Z :=
  match s with
  | [] => None
  | [c] => to_digit 10 c
  | c :: _ => if (c =? ch_0) || (3 <? length s)%nat then None
              else v ← digits_value 10 0 s; if v <=? 255 then Some v else None
  end.

Definition ch_dot : Z := 46.

Definition parse_ipv4 (s : str) : option Z :=
  match Text.split (fun c => c =? ch_dot) s with
  | [a; b; c; d] => a ← parse_octet a; b ← parse_octet b; c ← parse_octet c; d ← parse_octet d;
                    Some (((a * 256 + b) * 256 + c) * 256 + d)
  | _ => None
  end.

Definition create_netmask (tester_ip tester_subnet : str) : result DoipGatewaySetupError Z :=
  ip ← ok_or (parse_ipv4 tester_ip) setup.InvalidAddress;
  subnet ← ok_or (parse_ipv4 tester_subnet) setup.InvalidAddress;
  Ok (Z.land ip subnet).

(** ** Finding gateways *)

Record DiscoveredGateway : Type := { dg_ip : string; dg_ecu_name : string; dg_logical_address : Z }.

(** Where a message comes from. *)
Inductive SocketAddr : Type := V4 (bits : Z) | V6.

Section discovery.
Context (ip_to_string : Z -> string) (to_lowercase : string -> string) (ecus : gmap string EcuAddresses).

(** The ECUs are looked through in the order of the source's map. *)
Definition handle_vam (doip_msg : DoipPayload) (source_addr : SocketAddr) (netmask : Z)
    : result DoipGatewaySetupError (option DiscoveredGateway) :=
  match source_addr with
  | V6 => Ok None
  | V4 bits =>
      if negb (Z.land bits netmask =? netmask) then Ok None
      else
        match doip_msg with
        | payload.VehicleAnnouncementMessage logical_address =>
            match List.find (fun e => ea_logical_address e.2 =? logical_address) (map_to_list ecus) with
            | Some (name, _) =>
                Ok (Some {| dg_ip := ip_to_string bits; dg_ecu_name := name; dg_logical_address := logical_address |})
            | None => Err (setup.UnknownECU logical_address)
            end
        | _ => Err setup.ResourceError
        end
  end.

(** The loop of [get_vehicle_identification] over what comes within its second. *)
Definition get_vehicle_identification (netmask : Z) (received : list (result ConnectionError (DoipPayload * SocketAddr)))
    : list DiscoveredGateway :=
  omap (fun r => match r with
                 | Ok (payload.VehicleIdentificationRequest, _) | Err _ => None
                 | Ok (msg, addr) => match handle_vam msg addr netmask with Ok g => g | Err _ => None end
                 end) received.

(** ** The table of connections *)

(** [gateway_ecu_map] and [gateway_ecu_name_map] at a gateway, which hold the
    gateways some ECU names. *)
Definition ecus_behind (gateway : Z) : list (string * EcuAddresses) :=
  filter (fun e => ea_logical_gateway_address e.2 = gateway) (map_to_list ecus).

Definition gateway_ecus (gateway : Z) : option (list Z) :=
  match ecus_behind gateway with [] => None | l => Some ((fun e => ea_logical_address e.2) <$> l) end.
Definition gateway_ecu_names (gateway : Z) : option (list string) :=
  match ecus_behind gateway with [] => None | l => Some ((fun e => to_lowercase (ea_name e.2)) <$> l) end.

(** [ecu_names_for_gateway]. *)
Definition names_for_gateway (ecu_ids : list Z) : list string :=
  fst <$> filter (fun e => ea_logical_address e.2 ∈ ecu_ids) (map_to_list ecus).

Definition push_connection (self : DoipGatewayState) (c : DoipConnection) : DoipGatewayState :=
  {| doip_connections := doip_connections self ++ [c]; logical_address_to_connection := logical_address_to_connection self |}.

(** [establish] is the result of [connection_handler]'s connection. *)
Definition handle_gateway_connection (self : DoipGatewayState) (gateway : DiscoveredGateway) (establish : result ConnectionError ())
    : DoipGatewayState * list doip_notice * result EcuError Z :=
  match ecus !! dg_ecu_name gateway with
  | None => (self, [], Err ResourceNotFound)
  | Some _ =>
      match gateway_ecus (dg_logical_address gateway) with
      | None => (self, [], Err ResourceNotFound)
      | Some ecu_ids =>
          match establish with
          | Err _ => (self, [], Err (EcuConnectionError conn.ConnectionFailed))
          | Ok _ => (push_connection self {| connection_ecus := list_to_set ecu_ids; ip := dg_ip gateway |},
                     [Connected (names_for_gateway ecu_ids)], Ok (dg_logical_address gateway))
          end
      end
  end.

Definition record_connection (self : DoipGatewayState) (logical_address : Z) : DoipGatewayState :=
  {| doip_connections := doip_connections self;
     logical_address_to_connection := <[logical_address := pred (length (doip_connections self))]> (logical_address_to_connection self) |}.

Definition connect_gateway (self : DoipGatewayState) (gateway : DiscoveredGateway) (establish : result ConnectionError ())
    : DoipGatewayState * list doip_notice * result EcuError Z :=
  match handle_gateway_connection self gateway establish with
  | (self, notices, Ok logical_address) => (record_connection self logical_address, notices, Ok logical_address)
  | r => r
  end.

Definition no_connections : DoipGatewayState := {| doip_connections := []; logical_address_to_connection := ∅ |}.

(** [DoipDiagGateway::new], with the gateways found. *)
Definition DoipDiagGateway_new (gateways : list (DiscoveredGateway * result ConnectionError ())) : DoipGatewayState * list doip_notice :=
  foldl (fun '(self, notices) '(gateway, establish) =>
           let '(self, more, _) := connect_gateway self gateway establish in (self, notices ++ more))
    (no_connections, []) gateways.

Definition send_variant_detection (logical_address : Z) : list doip_notice :=
  match gateway_ecu_names logical_address with Some l => [DetectVariants l] | None => [] end.

(** A message of the listener: only announcements are looked at. *)
Definition handle_doip_response (self : DoipGatewayState) (doip_msg : DoipPayload) (source_addr : SocketAddr) (netmask : Z)
    (establish : result ConnectionError ()) : DoipGatewayState * list doip_notice :=
  match doip_msg with
  | payload.VehicleAnnouncementMessage _ =>
      match handle_vam doip_msg source_addr netmask with
      | Ok (Some doip_target) =>
          match logical_address_to_connection self !! dg_logical_address doip_target with
          | Some _ => (self, send_variant_detection (dg_logical_address doip_target))
          | None =>
              match connect_gateway self doip_target establish with
              | (self, notices, Ok logical_address) => (self, notices ++ send_variant_detection logical_address)
              | (self, notices, Err _) => (self, notices)
              end
          end
      | _ => (self, [])
      end
  | _ => (self, [])
  end.

Definition shutdown (self : DoipGatewayState) : DoipGatewayState :=
  {| doip_connections := []; logical_address_to_connection := logical_address_to_connection self |}.

(** *** Reachable tables *)

Inductive listening : DoipGatewayState -> Prop :=
  | started gateways : listening (DoipDiagGateway_new gateways).1
  | announced self doip_msg source_addr netmask establish :
      listening self -> listening (handle_doip_response self doip_msg source_addr netmask establish).1.

(** Every recorded address leads to the connection of its ECUs. *)
Definition table_ok (self : DoipGatewayState) : Prop :=
  forall gateway i, logical_address_to_connection self !! gateway = Some i ->
    exists c ids, doip_connections self !! i = Some c /\ gateway_ecus gateway = Some ids /\ connection_ecus c = list_to_set ids.

Lemma gateway_connected self gateway establish self' notices a : table_ok self ->
  connect_gateway self gateway establish = (self', notices, a) -> table_ok self'.
Proof.
  intros Hok. unfold connect_gateway, handle_gateway_connection. destruct (ecus !! _); [|by intros [= <- _ _]].
  destruct (gateway_ecus _) as [ids|] eqn:Hids; [|by intros [= <- _ _]]. destruct establish; [|by intros [= <- _ _]].
  intros [= <- _ _] g i. cbn. rewrite length_app. cbn [length]. replace (pred (length (doip_connections self) + 1)) with (length (doip_connections self)) by lia.
  destruct (decide (g = dg_logical_address gateway)) as [->|Hne].
  - rewrite lookup_insert_eq. intros [= <-]. rewrite list_lookup_middle by done. eauto.
  - rewrite lookup_insert_ne by done. intros Hi. destruct (Hok _ _ Hi) as (c & l & Hc & Hl & Hs). exists c, l.
    split; [|done]. by apply lookup_app_l_Some.
Qed.

Lemma listening_ok self : listening self -> table_ok self.
Proof.
  induction 1 as [gateways|self msg src mask est _ IH].
  - unfold DoipDiagGateway_new. assert (H0 : table_ok (no_connections, [] : list doip_notice).1) by (intros ? ? ?; done).
    revert H0. generalize (no_connections, [] : list doip_notice).
    induction gateways as [|[g e] gateways IH]; intros [s l] Hs; cbn [foldl]; [done|]. apply IH.
    destruct (connect_gateway s g e) as [[s' more] r] eqn:Hc. by eapply gateway_connected.
  - unfold handle_doip_response. destruct msg; try done. destruct (handle_vam _ _ _) as [[t|]|]; try done.
    destruct (logical_address_to_connection self !! _); [done|].
    destruct (connect_gateway self t est) as [[s' more] [a|]] eqn:Hc; cbn [fst]; by eapply gateway_connected.
Qed.

Lemma behind_gateway name e : ecus !! name = Some e ->
  exists ids, gateway_ecus (ea_logical_gateway_address e) = Some ids /\ ea_logical_address e ∈ ids.
Proof.
  intros He. unfold gateway_ecus. assert (Hin : (name, e) ∈ ecus_behind (ea_logical_gateway_address e)).
  { apply list_elem_of_filter. split; [done|]. by apply elem_of_map_to_list. }
  destruct (ecus_behind _) as [|x l]; [by apply not_elem_of_nil in Hin|]. eexists. split; [done|].
  apply list_elem_of_fmap. by exists (name, e).
Qed.
End discovery.
