(* ===== verification/DoipLaws.v ===== *)
(** * What requests over DoIP report

    What Transport.v returns over the gateway of Doip.v: a message the ECU sent,
    read after the channel was cleared unless that had overflowed, and the
    answer that comes in time; the table of
    connections against the routes it is asked for; what a functional request
    reports. *)

From stdpp Require Import strings gmap.
From S2P Require Import Prelude Errors Text Uds Transport Doip.
From stdpp Require Import list.

Import payload (DoipPayload) conn (ConnectionError).

Local Open Scope Z_scope.
Set Warnings "-register-all".

Abbreviation uds_answer msg := (Ok (Some (UdsResponse msg)) : received).

(** ** The task forwards messages *)

Lemma later_in d s t r : (t, r) ∈ (later d s).1 -> exists t', (t', r) ∈ s.1.
Proof.
  destruct s as [[|[t0 r0] out] c]; cbn; [by intros ?%not_elem_of_nil|].
  intros [[= -> ->]|H]%elem_of_cons; [exists t0; by left|exists t; by right].
Qed.

Lemma forwarded source target bytes msg :
  diagnostic_response_to_transport (Msg source target bytes) = uds_answer msg ->
  msg = uds_response_from_raw bytes source target /\ pending_nrc_from_raw bytes source = None.
Proof. cbn. destruct (pending_nrc_from_raw bytes source); [done|]. by intros [= ->]. Qed.

(** An answer is a message among what was received. *)
Definition answer_among (msg : ServicePayload) (l : list (Z * channel_item)) : Prop :=
  exists t source target bytes, (t, Event (Ok (Msg source target bytes))) ∈ l /\
    msg = uds_response_from_raw bytes source target /\ pending_nrc_from_raw bytes source = None.

Lemma answer_among_mono msg l l' : (forall t i, (t, i) ∈ l -> exists t', (t', i) ∈ l') -> answer_among msg l -> answer_among msg l'.
Proof. intros Hl (t & a & b & c & Hin & H). apply Hl in Hin as [t' Hin]. unfold answer_among. eauto 10. Qed.

Lemma to_transport_msg ev msg : diagnostic_response_to_transport ev = uds_answer msg -> exists a b c, ev = Msg a b c /\
  msg = uds_response_from_raw c a b /\ pending_nrc_from_raw c a = None.
Proof. destruct ev; try done. intros H%forwarded. eauto. Qed.

Lemma forward_in l ends d msg : (d, uds_answer msg) ∈ (forward_answers l ends).1 -> answer_among msg l.
Proof.
  induction l as [|[t item] l IH]; cbn [forward_answers].
  - destruct ends; cbn; [intros [[=]|?%not_elem_of_nil]%elem_of_cons; done|by intros ?%not_elem_of_nil].
  - assert (Hmono : answer_among msg l -> answer_among msg ((t, item) :: l)).
    { apply answer_among_mono. intros t' i Hi. exists t'. by right. }
    destruct item as [[ev|e]|]; [| |cbn; intros [[=]|?%not_elem_of_nil]%elem_of_cons; done];
      destruct (forward_answers l ends) as [out c]; cbn [fst]; intros [Heq|Hin]%elem_of_cons; try (by apply Hmono, IH).
    injection Heq as -> Hev. symmetry in Hev. apply to_transport_msg in Hev as (a & b & bytes & -> & H).
    exists t, a, b, bytes. split; [by left|done].
Qed.

(** What is left after the acknowledgement was waiting before. *)
Lemma ack_left request l ends timeout spent t r s : wait_for_ack_or_response request l ends timeout spent = (t, r, s) ->
  (forall d i, (d, i) ∈ items s -> exists d', (d', i) ∈ l) /\
  (forall ev, r = Ok (Some ev) -> exists d, (d, Event (Ok ev)) ∈ l).
Proof.
  revert spent. induction l as [|[d item] l IH]; intros spent; cbn [wait_for_ack_or_response].
  - destruct ends; [case_match|]; intros [= <- <- <-]; cbn; (split; [by intros ? ? ?%not_elem_of_nil|done]).
  - case_match; [intros [= <- <- <-]; cbn; split; [intros ? ? [[= -> ->]|]%elem_of_cons; [eexists; by left|eexists; by right]|done]|].
    assert (Hrest : forall d' i, (d', i) ∈ l -> exists d'', (d'', i) ∈ (d, item) :: l) by (intros d' i Hi; exists d'; by right).
    assert (Hnone : forall e, (spent + d, e, {| items := l; ends := ends |}) = (t, r, s) -> (forall ev, e <> Ok (Some ev)) ->
      (forall d0 i, (d0, i) ∈ items s -> exists d', (d', i) ∈ (d, item) :: l) /\
      (forall ev, r = Ok (Some ev) -> exists d0, (d0, Event (Ok ev)) ∈ (d, item) :: l)).
    { intros e [= <- <- <-] He. split; [apply Hrest|]. intros ev Hev. by destruct (He ev). }
    assert (Hmore : wait_for_ack_or_response request l ends timeout (spent + d) = (t, r, s) ->
      (forall d0 i, (d0, i) ∈ items s -> exists d', (d', i) ∈ (d, item) :: l) /\
      (forall ev, r = Ok (Some ev) -> exists d0, (d0, Event (Ok ev)) ∈ (d, item) :: l)).
    { intros [H1 H2]%IH. split; [intros ? ? (? & ?)%H1; by eapply Hrest|intros ? (? & ?)%H2; by eapply Hrest]. }
    assert (Hsome : forall ev, item = Event (Ok ev) -> (spent + d, Ok (Some ev), {| items := l; ends := ends |}) = (t, r, s) ->
      (forall d0 i, (d0, i) ∈ items s -> exists d', (d', i) ∈ (d, item) :: l) /\
      (forall ev, r = Ok (Some ev) -> exists d0, (d0, Event (Ok ev)) ∈ (d, item) :: l)).
    { intros ev Hev [= <- <- <-]. split; [apply Hrest|]. intros ev' [= <-]. exists d. rewrite Hev. by left. }
    destruct item as [[ev|]|]; [|by intros Heq; eapply Hnone..].
    destruct ev; try (by intros Heq; eapply Hnone);
      (destruct (negb (matches_request _ _)); [exact Hmore|]); first [by apply Hsome|by intros Heq; eapply Hnone].
Qed.

(** A request is answered by what came after the channel was cleared or, where
    messages had been lost and nothing was cleared, by what was left there. *)
Lemma task_answers x message params d msg : (d, uds_answer msg) ∈ (send_task x message params true).1 ->
  answer_among msg (items (answers x)) \/
  (lagged (pending_messages x) = true /\ answer_among msg (map (fun e => (0, Event e)) (queued (pending_messages x)))).
Proof.
  unfold send_task. destruct (locked_after x) as [start|]; [|by intros ?%not_elem_of_nil].
  intros [d1 Hin]%later_in. destruct (send_with_retries _ _ _ _); [|by cbn in Hin; apply list_elem_of_singleton in Hin].
  assert (Hs : answer_among msg (items (stream_after (pending_messages x) (answers x))) -> answer_among msg (items (answers x)) \/
    (lagged (pending_messages x) = true /\ answer_among msg (map (fun e => (0, Event e)) (queued (pending_messages x))))).
  { unfold stream_after. rewrite clear_pending_cleared. intros (t & a1 & b1 & c1 & Hi & Hm). cbn [items lagged queued] in Hi.
    destruct (lagged (pending_messages x)); cbn [map app] in Hi; [|left; by exists t, a1, b1, c1].
    apply elem_of_app in Hi as [Hi|Hi]; [right; split; [done|]|left]; by exists t, a1, b1, c1. }
  destruct (wait_for_ack_or_response_until_timeout _ _ _) as [[t first] rem] eqn:Hw.
  apply ack_left in Hw as [H1 H2]. apply later_in in Hin as [d2 Hin].
  destruct first as [first|e]; [|by cbn in Hin; apply list_elem_of_singleton in Hin].
  unfold read_ecu_responses in Hin. destruct (forward_answers (items rem) (ends rem)) as [out c] eqn:Hf.
  assert (Hout : forall d3, (d3, uds_answer msg) ∈ out -> answer_among msg (items (stream_after (pending_messages x) (answers x)))).
  { intros d3 H3. eapply answer_among_mono; [exact H1|]. eapply forward_in. by rewrite Hf. }
  apply Hs. destruct first as [ev|]; cbn in Hin; [|by eapply Hout].
  apply elem_of_cons in Hin as [Heq|Hin]; [|by eapply Hout]. injection Heq as _ Hev. symmetry in Hev.
  apply to_transport_msg in Hev as (src & tgt & bs & -> & Hm). destruct (H2 _ eq_refl) as [t' Ht'].
  exists t', src, tgt, bs. by split.
Qed.

(** ** An answer in time *)

(** What is passed over while waiting for the acknowledgement. *)
Definition passed_over (request : list Z) (i : Z * channel_item) : Prop :=
  match i.2 with
  | Event (Ok (NackResponse _ _)) | Event (Ok (GenericNackResponse _)) | Event (Err _) | Missed => False
  | Event (Ok ev) => matches_request ev request = false
  end.

Definition total (l : list (Z * channel_item)) : Z := foldr (fun i t => i.1 + t) 0 l.

Lemma ack_skips request l rest ends timeout spent : Forall (passed_over request) l -> Forall (fun i => 0 <= i.1) l ->
  spent + total l <= timeout ->
  wait_for_ack_or_response request (l ++ rest) ends timeout spent =
  wait_for_ack_or_response request rest ends timeout (spent + total l).
Proof.
  revert spent. induction l as [|[d item] l IH]; intros spent; cbn [total foldr app fst].
  - intros _ _ _. by rewrite Z.add_0_r.
  - intros [Hi Hl]%Forall_cons_1 [Hd Hds]%Forall_cons_1 Ht. fold (total l) in Ht |- *. cbn in Hd.
    assert (H0 : 0 <= total l). { clear -Hds. induction Hds as [|? l H _ IH]; cbn; [done|]. fold (total l). lia. }
    cbn [wait_for_ack_or_response]. rewrite (proj2 (Z.ltb_ge _ _)) by lia.
    destruct item as [[ev|]|]; cbn in Hi; try done.
    destruct ev; try done; rewrite Hi; cbn [negb]; rewrite IH by (done || lia); f_equal; lia.
Qed.

Lemma later_cons d t r out c : later d ((t, r) :: out, c) = ((d + t, r) :: out, c).
Proof. done. Qed.

(** The gateway acknowledges the request before the messages [l], or the first
    of these is of the request. *)
Definition acknowledged (request : list Z) (limit : Z) (ack l : list (Z * channel_item)) : Prop :=
  (ack = [] /\ exists d source target bytes rest, l = (d, Event (Ok (Msg source target bytes))) :: rest /\
     matches_request (Msg source target bytes) request = true /\ d <= limit) \/
  (exists da a previous, ack = [(da, Event (Ok (Ack a previous)))] /\ matches_request (Ack a previous) request = true /\ da <= limit).

(** A request that is put on the queue at once and gets the messages [l], the
    first of them some time before which nothing of the request but its
    acknowledgement came. *)
Inductive put_through (x : doip_run) (message : ServicePayload) (params : TransmissionParameters) (l : list (Z * channel_item)) : Z -> Prop :=
  | acknowledged_request start before ack :
      locked_after x = Some start -> accepted x (doip_message message) 0 = true -> lagged (pending_messages x) = false ->
      items (answers x) = before ++ ack ++ l ->
      Forall (passed_over (data message)) before -> Forall (fun i => 0 <= i.1) before -> total before <= timeout_ack params ->
      acknowledged (data message) (timeout_ack params - total before) ack l ->
      put_through x message params l (start + queued_after x + total before + total ack).

Lemma put_through_task x message params l w : l <> [] -> put_through x message params l w ->
  send_task x message params true = later w (forward_answers l (ends (answers x))).
Proof.
  intros Hl [start before ack Hlock Hq Hlag Hitems Hb Hb0 Hbt Hack]. unfold send_task. rewrite Hlock. cbn [send_with_retries]. rewrite Hq.
  set (s := stream_after _ _). assert (Hs : s = {| items := before ++ ack ++ l; ends := ends (answers x) |}).
  { unfold s, stream_after. by rewrite clear_pending_cleared, Hlag, Hitems. }
  unfold wait_for_ack_or_response_until_timeout. rewrite Hs. cbn [items ends]. rewrite ack_skips by (done || lia).
  destruct Hack as [(-> & d & source & target & bytes & rest & -> & Hm & Hd)|(da & a & previous & -> & Hm & Hd)]; cbn [app wait_for_ack_or_response];
    rewrite (proj2 (Z.ltb_ge _ _)) by lia; rewrite Hm; cbn [negb]; unfold read_ecu_responses; cbn [items ends].
  - cbn [forward_answers]. destruct (forward_answers rest _) as [out c]. rewrite !later_cons. do 3 f_equal. cbn [total foldr]. lia.
  - destruct l as [|[d item] rest]; [done|]. cbn [forward_answers].
    destruct item as [[ev|e]|]; [destruct (forward_answers rest _) as [out c]..|]; rewrite !later_cons; do 3 f_equal; cbn [total foldr fst]; lia.
Qed.

(** Messages that bring the answer [bytes], the first of them some [delay] after
    it is waited for, and each within the [limit] that is then in force: before
    the answer come other diagnostic messages only, that are not of the request
    or announce a later answer. *)
Inductive then_answered (p : UdsParameters) (request : ServicePayload) (sid source target : Z) (bytes : list Z)
    : Z -> Z -> list (Z * channel_item) -> Prop :=
  | then_answer limit delay d rest :
      delay + d <= limit -> then_answered p request sid source target bytes limit delay ((d, Event (Ok (Msg source target bytes))) :: rest)
  | then_other limit delay d a b other rest :
      delay + d <= limit -> pending_nrc_from_raw other a = None ->
      is_expected sid (uds_response_from_raw other a b) && has_matching_echo_bytes (uds_response_from_raw other a b) (data request) = false ->
      then_answered p request sid source target bytes limit 0 rest ->
      then_answered p request sid source target bytes limit delay ((d, Event (Ok (Msg a b other))) :: rest)
  | then_pending limit delay d a b announcement ecu rest :
      delay + d <= limit -> pending_nrc_from_raw announcement a = Some (ResponsePending ecu) -> rc_78_retry_policy p = ContinueUnlimited ->
      then_answered p request sid source target bytes (rc_78_timeout p) 0 rest ->
      then_answered p request sid source target bytes limit delay ((d, Event (Ok (Msg a b announcement))) :: rest).

Lemma later_0 s : (later 0 s).1 = s.1.
Proof. by destruct s as [[|[t r] out] c]. Qed.

Lemma then_brings p request sid source target bytes limit delay l ends :
  then_answered p request sid source target bytes limit delay l ->
  pending_nrc_from_raw bytes source = None ->
  let msg := uds_response_from_raw bytes source target in
  is_expected sid msg = true -> has_matching_echo_bytes msg (data request) = true ->
  exists n, (n < length l)%nat /\ brings p request sid msg limit (listed (later delay (forward_answers l ends)).1) n.
Proof.
  intros H Hpend msg He Hm.
  induction H as [limit delay d rest Hd|limit delay d a b other rest Hd Hn Ho _ (n & Hlen & IH)|limit delay d a b ann ecu rest Hd Hn Hp _ (n & Hlen & IH)];
    cbn [length forward_answers]; try rewrite later_0 in IH; destruct (forward_answers rest ends) as [out c]; rewrite later_cons.
  - exists 0%nat. split; [lia|]. apply (brings_answer _ _ _ _ _ _ (delay + d)); [|done..]. unfold listed. cbn. by rewrite Hpend.
  - exists (S n). split; [lia|]. apply (brings_after_other _ _ _ _ _ _ (delay + d) (uds_response_from_raw other a b)); [|done..].
    unfold listed. cbn. by rewrite Hn.
  - exists (S n). split; [lia|]. apply (brings_after_pending _ _ _ _ _ _ (delay + d) ecu); [|done..]. unfold listed. cbn. by rewrite Hn.
Qed.

(** ** What the channel carries *)

(** What a reader of the channel of [addr] gets for the frames that are read from
    the connection: what belongs on the channel, some time later, or a report
    that the oldest were lost. *)
Inductive carries (addr : Z) : list (option (result ConnectionError DoipPayload)) -> list (Z * channel_item) -> Prop :=
  | carries_all : carries addr [] []
  | carries_on f e t frames l : on_channel addr f = Some e -> carries addr frames l -> carries addr (f :: frames) ((t, Event e) :: l)
  | carries_off f frames l : on_channel addr f = None -> carries addr frames l -> carries addr (f :: frames) l
  | carries_lost lost t frames l : carries addr frames l -> carries addr (lost ++ frames) ((t, Missed) :: l).

Lemma carries_event addr frames l t e : carries addr frames l -> (t, Event e) ∈ l -> e ∈ omap (on_channel addr) frames.
Proof.
  intros H. induction H as [|f e' t' frames l Hf _ IH|f frames l Hf _ IH|lost t' frames l _ IH]; intros Hin.
  - by apply not_elem_of_nil in Hin.
  - rewrite on_channel_cons, Hf. apply elem_of_cons in Hin as [[= _ ->]|Hin]; [by left|by right; apply IH].
  - rewrite on_channel_cons, Hf. by apply IH.
  - apply elem_of_cons in Hin as [[=]|Hin]. rewrite omap_app, elem_of_app. right. by apply IH.
Qed.

(** A diagnostic message on the channel was read from the connection. *)
Lemma channel_message addr (frames : list (option (result ConnectionError DoipPayload))) source target bytes : (Ok (Msg source target bytes) : ecu_event) ∈ omap (on_channel addr) frames ->
  source = addr /\ Some (Ok (payload.DiagnosticMessage addr target bytes)) ∈ frames /\ is_tester_present_nrc bytes = false.
Proof.
  intros (f & Hf & Hch)%list_elem_of_omap. unfold on_channel in Hch. destruct (read_response f) as [r|] eqn:Hr; [|done].
  case_bool_decide as Hd; [|done]. injection Hch as ->. injection Hd as ->.
  destruct f as [[[]|]|]; try done. cbn in Hr. destruct (is_tester_present_nrc message) eqn:Htp; [done|]. by injection Hr as -> -> ->.
Qed.

(** ** Through the UDS layer *)

Section request.
Context (to_lowercase : string -> string) (ecus : gmap string EcuAddresses) (self : DoipGatewayState).
Context (params : TransmissionParameters) (request : ServicePayload) (p : UdsParameters) (ecu_name : string).

(** The environment of every transmission. *)
Context (runs : nat -> doip_run).
Abbreviation gateway := (fun k => doip_send to_lowercase ecus self (runs k) request params true).

(** The channel a request is answered on. *)
Definition answers_on : dresult Z :=
  doip_conn ← get_doip_connection self (gateway_address params); get_ecu_mtx to_lowercase ecus doip_conn request params.

(** What the receiving task reads before and after a request clears the channel. *)
Context (earlier frames : nat -> list (option (result ConnectionError DoipPayload))).
Definition read_from_connection : Prop := forall k addr, answers_on = Ok addr ->
  (forall e, e ∈ queued (pending_messages (runs k)) -> e ∈ omap (on_channel addr) (earlier k)) /\
  carries addr (frames k) (items (answers (runs k))).

(** C26: the answer to a request over DoIP is a diagnostic message from the
    ECU that was addressed (or, for a functional address, from the gateway
    itself), which the receiving task read for the last transmission of the
    request, after its channel was cleared.  The exception is a channel that had
    overflowed, which is not cleared: there the answer may be an older message.
    No keep-alive is taken for an answer, and no announcement of a later one. *)
Theorem answers_come_from_the_ecu timeout sem u fuel msg u' n :
  read_from_connection ->
  send_with_raw_payload fuel p gateway ecu_name request timeout true sem u = Some (Ok (Some msg), u', n) ->
  exists k addr target, n = S k /\ answers_on = Ok addr /\
    (Some (Ok (payload.DiagnosticMessage addr target (data msg))) ∈ frames k \/
     (lagged (pending_messages (runs k)) = true /\ Some (Ok (payload.DiagnosticMessage addr target (data msg))) ∈ earlier k)) /\
    msg = uds_response_from_raw (data msg) addr target /\
    is_tester_present_nrc (data msg) = false /\ pending_nrc_from_raw (data msg) addr = None.
Proof.
  intros Hread H. apply answer_received in H as (k & -> & Hsend & i & d & Hin). cbn beta in Hsend, Hin.
  unfold doip_send in Hsend, Hin. fold answers_on in Hsend, Hin. destruct answers_on as [addr|e] eqn:Ha; [|done].
  destruct (send_task _ _ _ _) as [out c] eqn:Ht. cbn in Hin. apply list_elem_of_lookup_2 in Hin.
  destruct (Hread k addr Ha) as [Hold Hnew]. exists k, addr.
  destruct (task_answers (runs k) request params d msg) as [(t & source & target & bytes & Hev & -> & Hp)|(Hlag & t & source & target & bytes & Hev & -> & Hp)];
    [by rewrite Ht|exists target..].
  - apply (carries_event _ _ _ _ _ Hnew), (channel_message addr) in Hev as (-> & Hf & Htp). by repeat (split; [by auto|]).
  - apply list_elem_of_fmap in Hev as (e & [= _ <-] & He). apply Hold, (channel_message addr) in He as (-> & Hf & Htp).
    by repeat (split; [by auto|]).
Qed.

(** C27: when the gateway puts the request through to the ECU, and the ECU's
    answer comes within the timeout of the request, acknowledged by the gateway
    or not, this answer is returned, after one transmission: whatever messages
    of other requests come before the acknowledgement, and whatever diagnostic
    messages that are no answer come between, where also announcements of a
    later answer if there is no limit on them.  A negative acknowledgement, an
    acknowledgement after the first one, and the end or an overflow of the
    channel are excluded before the answer. *)
Theorem answer_in_time_is_returned timeout wait_time u fuel sid addr target bytes l w :
  params_ok p -> service_states u !! ecu_name <> None -> head (data request) = Some sid -> wait_time <= SEMAPHORE_TIMEOUT ->
  answers_on = Ok addr -> put_through (runs 0%nat) request params l w ->
  then_answered p request sid addr target bytes (default (timeout_default p) timeout) w l -> pending_nrc_from_raw bytes addr = None ->
  let msg := uds_response_from_raw bytes addr target in
  is_expected sid msg = true -> has_matching_echo_bytes msg (data request) = true -> (length l <= fuel)%nat ->
  send_with_raw_payload fuel p gateway ecu_name request timeout true (Some wait_time) u =
    Some (Ok (Some msg), post_send ecu_name request sid (Ok msg) u, 1%nat).
Proof.
  intros Hp Hu Hsid Hw Ha Hput Hthen Hpend msg Hexp Hecho Hfuel.
  assert (Hl : l <> []) by (by destruct Hthen).
  destruct (then_brings _ _ _ _ _ _ _ _ _ (ends (answers (runs 0%nat))) Hthen Hpend Hexp Hecho) as (n & Hn & Hb).
  rewrite <- (put_through_task _ _ _ _ _ Hl Hput) in Hb.
  apply (retry_recovers p gateway ecu_name request timeout (Some wait_time) u Hp 0%nat n sid msg wait_time fuel); try done; try lia;
    [by destruct Hp; lia|unfold doip_send; fold answers_on; rewrite Ha; by destruct (send_task _ _ _ _)..].
Qed.
End request.

(** ** Physical requests *)

Section routes.
Context (ip_to_string : Z -> string) (to_lowercase : string -> string) (ecus : gmap string EcuAddresses).

(** while the gateway listens, an ECU has a ready route exactly when a
    request to its address through its gateway is accepted, and such a request
    is sent and answered on the channel of this ECU. *)
Theorem ready_routes_are_taken self ecu_name e message params :
  listening ip_to_string to_lowercase ecus self -> ecus !! to_lowercase ecu_name = Some e ->
  target_address message = ea_logical_address e -> gateway_address params = ea_logical_gateway_address e ->
  let channel := doip_conn ← get_doip_connection self (gateway_address params);
                 get_ecu_mtx to_lowercase ecus doip_conn message params in
  (route_status to_lowercase ecus self ecu_name = Ready <-> channel = Ok (ea_logical_address e)) /\
  (channel = Ok (ea_logical_address e) \/ channel = Err EcuOffline) /\
  (ecu_online self e = Ok tt <-> channel = Ok (ea_logical_address e)).
Proof.
  intros Hl He Ht Hg channel. apply listening_ok in Hl. unfold channel, route_status, ecu_online. rewrite He, Hg.
  unfold get_doip_connection. destruct (logical_address_to_connection self !! _) as [i|] eqn:Hi; cbn [ok_or mbind result_bind]; [|by repeat split; auto].
  destruct (Hl _ _ Hi) as (c & ids & Hc & Hids & Hset). rewrite Hc. cbn [ok_or mbind result_bind].
  destruct (behind_gateway ecus _ _ He) as (ids' & Hids' & Hin). rewrite Hids in Hids'. injection Hids' as <-.
  assert (Hmem : ea_logical_address e ∈ connection_ecus c) by (rewrite Hset; by apply elem_of_list_to_set).
  unfold get_ecu_mtx. rewrite Ht, !bool_decide_true by done. repeat split; auto.
Qed.
End routes.

(** ** Functional requests *)

Lemma foldl_insert_from {A B} (f : gmap string A -> B -> gmap string A) (P : string -> A -> Prop) (l : list B) m n r :
  (forall m x n r, x ∈ l -> f m x !! n = Some r -> m !! n = Some r \/ P n r) ->
  foldl f m l !! n = Some r -> m !! n = Some r \/ P n r.
Proof.
  revert m. induction l as [|x l IH]; intros m Hf; cbn [foldl]; [by left|]. intros H.
  destruct (IH (f m x)) as [H1|H1]; [intros ? ? ? ? Hin; apply Hf; by right|done| |by right].
  apply Hf in H1; [done|by left].
Qed.

Lemma foldl_keeps {A B} (f : gmap string A -> B -> gmap string A) (l : list B) m n :
  (forall m x n, is_Some (m !! n) -> is_Some (f m x !! n)) -> is_Some (m !! n) -> is_Some (foldl f m l !! n).
Proof. intros Hf. revert m. induction l as [|x l IH]; intros m Hm; [done|]. by apply IH, Hf. Qed.

Lemma first_message_in l timeout spent source target bytes : first_message l timeout spent = Some (Ok (source, target, bytes)) ->
  exists t, (t, Event (Ok (Msg source target bytes))) ∈ l.
Proof.
  revert spent. induction l as [|[d item] l IH]; intros spent; cbn [first_message]; [done|].
  case_match; [done|]. destruct item as [[ev|]|]; try done.
  destruct ev; try (intros [t Ht]%IH; exists t; by right). intros [= -> -> ->]. exists d. by left.
Qed.

Section functional.
Context (to_lowercase : string -> string) (self : DoipGatewayState) (pending : Z -> Receiver) (answers : Z -> stream).

(** A message that was on the channel of an ECU, or came to it. *)
Definition message_of (addr : Z) (msg : ServicePayload) : Prop :=
  exists t source target bytes, (t, Event (Ok (Msg source target bytes))) ∈ items (uncleared (pending addr) (answers addr)) /\
    msg = uds_response_from_raw bytes source target.

Lemma cleared_items addr i : i ∈ items (stream_after (pending addr) (answers addr)) ->
  i ∈ items (uncleared (pending addr) (answers addr)).
Proof.
  unfold stream_after, uncleared. rewrite clear_pending_cleared. cbn [items lagged queued].
  destruct (lagged (pending addr)); rewrite !elem_of_app; set_solver.
Qed.

Lemma response_of_message addr s timeout msg r :
  (forall i, i ∈ items s -> i ∈ items (uncleared (pending addr) (answers addr))) ->
  wait_for_ecu_response s timeout = Some r -> response_of r = Ok msg -> message_of addr msg.
Proof.
  intros Hs Hw Hr. destruct r as [[[source target] bytes]|]; [|done]. injection Hr as <-.
  apply first_message_in in Hw as [t Ht]. exists t, source, target, bytes. split; [by apply Hs|done].
Qed.

(** *** The two loops *)

Lemma responses_from timeout l name r : foldl (add_response timeout) ∅ l !! name = Some r ->
  exists s, (name, s) ∈ l /\ wait_for_ecu_response s timeout = Some r.
Proof.
  intros H. eapply (foldl_insert_from _ (fun name r => exists s, (name, s) ∈ l /\ wait_for_ecu_response s timeout = Some r)) in H as [H|H];
    [by rewrite lookup_empty in H|exact H|].
  clear H. intros m [n s] x y Hin. unfold add_response. cbn. destruct (wait_for_ecu_response s timeout) as [r'|] eqn:Hw; [|by left].
  destruct (decide (n = x)) as [->|]; [|rewrite lookup_insert_ne by done; by left].
  rewrite lookup_insert_eq. intros [= ->]. right. eauto.
Qed.

Lemma timeouts_from l m name r : foldl add_timeout m l !! name = Some r ->
  m !! name = Some r \/ (r = Err Timeout /\ exists addr, (addr, name) ∈ l).
Proof.
  apply (foldl_insert_from _ (fun name r => r = Err Timeout /\ exists addr, (addr, name) ∈ l)). intros m' [a n] x y Hin.
  unfold add_timeout. cbn. destruct (m' !! n); [by left|].
  destruct (decide (n = x)) as [->|]; [|rewrite lookup_insert_ne by done; by left]. rewrite lookup_insert_eq. intros [= <-]. right. eauto.
Qed.

Lemma timeouts_all l m addr name : (addr, name) ∈ l -> is_Some (foldl add_timeout m l !! name).
Proof.
  assert (Hk : forall m x n, is_Some (m !! n) -> is_Some (add_timeout m x !! n)).
  { intros m' [a n] x Hx. unfold add_timeout. cbn. destruct (m' !! n) eqn:Hn; [done|].
    destruct (decide (n = x)) as [->|]; [by rewrite lookup_insert_eq|by rewrite lookup_insert_ne]. }
  revert m. induction l as [|[a n] l IH]; intros m Hin; [by apply not_elem_of_nil in Hin|].
  apply elem_of_cons in Hin as [[= -> ->]|Hin]; [|by apply IH]. cbn [foldl]. apply foldl_keeps; [done|].
  unfold add_timeout. cbn. destruct (m !! n) eqn:Hm; [by rewrite Hm|by rewrite lookup_insert_eq].
Qed.

Definition reported_by (params : TransmissionParameters) (expected : gmap Z string) (name : string) (addr : Z) : Prop :=
  (name = to_lowercase (tp_ecu_name params) /\ addr = gateway_address params) \/ expected !! addr = Some name.

Section accepted.
Context (accepted : DoipPayload -> nat -> bool) (message : ServicePayload) (params : TransmissionParameters).
Context (expected : gmap Z string) (timeout : Z) (expect_positive_response : bool) (m : gmap string (dresult ServicePayload)).
Hypothesis sent : send_functional to_lowercase self pending answers accepted message params expected timeout expect_positive_response = Ok m.

Lemma expected_reported addr name : expected !! addr = Some name -> expect_positive_response = true -> is_Some (m !! name).
Proof.
  revert sent. unfold send_functional. intros H Hex ->. apply bind_ok in H as (c & Hc & H). case_bool_decide as Hg; [done|].
  apply bind_ok in H as ([] & _ & H). injection H as <-. by eapply timeouts_all, elem_of_map_to_list.
Qed.

Lemma reported_from name r : m !! name = Some r ->
  exists addr, reported_by params expected name addr /\ forall msg, r = Ok msg -> message_of addr msg.
Proof.
  revert sent. unfold send_functional. intros H. apply bind_ok in H as (c & Hc & H). case_bool_decide as Hg; [done|].
  apply bind_ok in H as ([] & _ & H). injection H as <-.
  set (mtxs := omap _ _ ++ _). set (window := if expect_positive_response then timeout else _). set (base := response_of <$> _).
  assert (Hbase : base !! name = Some r -> exists addr, reported_by params expected name addr /\ forall msg, r = Ok msg -> message_of addr msg).
  { unfold base. rewrite lookup_fmap. destruct (foldl _ _ _ !! name) as [r'|] eqn:Hr; [|done]. intros [= <-].
    apply responses_from in Hr as (s & [Hin|Hin]%elem_of_app & Hw).
    - apply list_elem_of_omap in Hin as ([addr n] & Hex & Hx). rewrite elem_of_map_to_list in Hex.
      repeat case_bool_decide; try done. injection Hx as -> <-. exists addr. split; [by right|]. intros msg.
      by eapply response_of_message.
    - apply list_elem_of_singleton in Hin. injection Hin as -> ->. exists (gateway_address params). split; [by left|]. intros msg.
      eapply response_of_message; [apply cleared_items|done]. }
  destruct expect_positive_response; [|exact Hbase].
  intros [Hm|(-> & addr & Ha)]%timeouts_from; [by apply Hbase|]. exists addr. split; [|done]. right. by apply elem_of_map_to_list.
Qed.
End accepted.
End functional.

(** ** Concrete runs *)

Definition ex_address (n : string) (logical gateway : Z) : EcuAddresses :=
  {| ea_name := n; ea_tester_address := 1; ea_logical_address := logical; ea_logical_gateway_address := gateway;
     ea_logical_functional_address := 57 |}.
Definition ex_addresses : gmap string EcuAddresses :=
  <["gw" := ex_address "gw" 16 16]> (<["engine" := ex_address "engine" 2 16]> ∅).
Definition ex_gateway_found : DiscoveredGateway := {| dg_ip := "10.0.0.2"; dg_ecu_name := "gw"; dg_logical_address := 16 |}.
Definition ex_connected : DoipGatewayState := (DoipDiagGateway_new ex_addresses [(ex_gateway_found, Ok tt)]).1.
Definition ex_transmission : TransmissionParameters :=
  {| gateway_address := 16; timeout_ack := 100; tp_ecu_name := "engine"; repeat_request_count_transmission := 1 |}.

Definition nothing_pending : Receiver := {| queued := []; lagged := false |}.
Definition ex_run (l : list (Z * channel_item)) : doip_run :=
  {| locked_after := Some 0; pending_messages := nothing_pending; accepted := fun _ _ => true; queued_after := 0;
     answers := {| items := l; ends := None |}; stops_after := None |}.

(** The gateway acknowledges the request, then the ECU answers. *)
Definition acked_run : doip_run :=
  ex_run [(10, Event (Ok (Ack 2 [16; 3]))); (10, Event (Ok (Msg 2 1 [80; 3; 0])))].
Definition acked_frames : list (option (result ConnectionError DoipPayload)) :=
  [Some (Ok (payload.DiagnosticMessageAck 2 [16; 3])); Some (Ok (payload.DiagnosticMessage 2 1 [80; 3; 0]))].

Definition no_lowercase (s : string) : string := s.

Definition over_doip (x : doip_run) : option (dresult (option ServicePayload) * uds_state * nat) :=
  send_with_raw_payload 4 ex_params (fun _ => doip_send no_lowercase ex_addresses ex_connected x ex_request ex_transmission true) "ecu"
    ex_request None true (Some 0) ex_state.

Lemma answers_come_from_the_ecu_witness :
  exists k addr target, 1%nat = S k /\ answers_on no_lowercase ex_addresses ex_connected ex_transmission ex_request = Ok addr /\
    (Some (Ok (payload.DiagnosticMessage addr target (data ex_answer))) ∈ (fun _ : nat => acked_frames) k \/
     (lagged (pending_messages acked_run) = true /\
      Some (Ok (payload.DiagnosticMessage addr target (data ex_answer))) ∈ (fun _ : nat => [] : list (option (result ConnectionError DoipPayload))) k)) /\
    ex_answer = uds_response_from_raw (data ex_answer) addr target /\
    is_tester_present_nrc (data ex_answer) = false /\ pending_nrc_from_raw (data ex_answer) addr = None.
Proof.
  refine (answers_come_from_the_ecu no_lowercase ex_addresses ex_connected ex_transmission ex_request ex_params "ecu"
            (fun _ => acked_run) (fun _ => []) (fun _ => acked_frames) None (Some 0) ex_state 4 ex_answer
            (post_send "ecu" ex_request 16 (Ok ex_answer) ex_state) 1 _ _).
  - intros k addr Ha. assert (Haddr : answers_on no_lowercase ex_addresses ex_connected ex_transmission ex_request = Ok 2) by (vm_compute; reflexivity).
    rewrite Haddr in Ha. injection Ha as <-. split; [intros e []%not_elem_of_nil|].
    apply carries_on; [reflexivity|]. apply carries_on; [reflexivity|]. apply carries_all.
  - vm_compute. reflexivity.
Defined.

(** An announcement and an answer to another request come before the answer. *)
Definition ex_later : list (Z * channel_item) :=
  [(10, Event (Ok (Msg 2 1 [127; 16; 120]))); (10, Event (Ok (Msg 2 1 [98; 241; 144]))); (10, Event (Ok (Msg 2 1 [80; 3; 0])))].
Definition later_run : doip_run := ex_run ((10, Event (Ok (Ack 2 [16; 3]))) :: ex_later).

Lemma answer_in_time_is_returned_witness :
  over_doip later_run = Some (Ok (Some ex_answer), post_send "ecu" ex_request 16 (Ok ex_answer) ex_state, 1%nat).
Proof.
  refine (answer_in_time_is_returned no_lowercase ex_addresses ex_connected ex_transmission ex_request ex_params "ecu" (fun _ => later_run)
    None 0 ex_state 4 16 2 1 [80; 3; 0] ex_later 10 ex_params_ok _ eq_refl _ _ _ _ eq_refl eq_refl eq_refl _).
  - vm_compute. discriminate.
  - vm_compute. discriminate.
  - vm_compute. reflexivity.
  - refine (acknowledged_request later_run ex_request ex_transmission ex_later 0 [] [(10, Event (Ok (Ack 2 [16; 3])))] eq_refl eq_refl eq_refl eq_refl _ _ _ _);
      [constructor|constructor|vm_compute; discriminate|].
    right. exists 10, 2, [16; 3]. split; [reflexivity|]. split; [reflexivity|vm_compute; discriminate].
  - apply (then_pending _ _ _ _ _ _ _ _ _ _ _ _ 2); [vm_compute; discriminate|reflexivity..|].
    apply then_other; [vm_compute; discriminate|reflexivity..|]. apply then_answer. vm_compute. discriminate.
  - cbn. lia.
Defined.

(** A second acknowledgement is no message of the UDS layer and ends the
    transmission with an error; so does a late negative one. *)
Example later_acknowledgements_fail :
  let ack := (10, Event (Ok (Ack 2 [16; 3]))) in let answer := (10, Event (Ok (Msg 2 1 [80; 3; 0]))) in
  over_doip (ex_run [ack; ack; answer]) = Some (Err BadPayload, ex_state, 3%nat) /\
  over_doip (ex_run [ack; (10, Event (Ok (NackResponse 2 3))); answer]) = Some (Err BadPayload, ex_state, 3%nat).
Proof. vm_compute. split; reflexivity. Qed.

(** After an overflow the channel is not cleared: the answer to an earlier
    request is still there, and is returned. *)
Example overflow_keeps_old_answers :
  let old := {| queued := [Ok (Msg 2 1 [80; 3; 0])]; lagged := true |} in
  queued (clear_pending_messages old) = queued old /\ lagged (clear_pending_messages old) = false /\
  let x := {| locked_after := Some 0; pending_messages := old; accepted := fun _ _ => true; queued_after := 0;
              answers := {| items := []; ends := None |}; stops_after := None |} in
  over_doip x = Some (Ok (Some ex_answer), post_send "ecu" ex_request 16 (Ok ex_answer) ex_state, 1%nat).
Proof. vm_compute. split_and!; reflexivity. Qed.

(** Messages that are lost while a request waits end it as if the connection
    had been closed. *)
Example lost_messages_end_a_request :
  over_doip (ex_run [(10, Missed); (10, Event (Ok (Ack 2 [16; 3]))); (10, Event (Ok (Msg 2 1 [80; 3; 0])))]) =
    Some (Err NoResponse, ex_state, 3%nat).
Proof. vm_compute. reflexivity. Qed.

(** *** Finding gateways *)

Definition dotted (s : string) : str := chars s.
Definition ex_bits (a b c d : Z) : SocketAddr := V4 (((a * 256 + b) * 256 + c) * 256 + d).

(** An announcement is of the own subnet when its address has all bits of the
    tester's own network address: with 10.0.0.1 and 255.0.0.0 that of 11.0.0.2
    is accepted too. *)
Example foreign_subnets_pass :
  create_netmask (dotted "10.0.0.1") (dotted "255.0.0.0") = Ok 167772160 /\
  let vam addr := handle_vam (fun _ => "ip") ex_addresses (payload.VehicleAnnouncementMessage 16) addr 167772160 in
  vam (ex_bits 192 168 0 2) = Ok None /\
  vam (ex_bits 11 0 0 2) = Ok (Some {| dg_ip := "ip"; dg_ecu_name := "gw"; dg_logical_address := 16 |}).
Proof. vm_compute. split_and!; reflexivity. Qed.

(** The alive check of the gateway is an invalid message and is not answered;
    once the routing is activated no message is acknowledged. *)
Example gateway_alive_check_is_invalid :
  read_response (Some (Ok payload.AliveCheckRequest)) = Err conn.InvalidMessage /\
  let msg := Some (Ok (payload.DiagnosticMessage 2 1 [80; 3])) in
  (DoIPConnection_read true msg (Ok tt)).2 = [payload.DiagnosticMessageAck 1 []] /\ (ReadHalf_read msg).2 = [].
Proof. vm_compute. split_and!; reflexivity. Qed.

(** The alive check reads the answer of an ECU and drops it; after an
    acknowledgement it keeps the reader for the rest of its second. *)
Example alive_check_takes_an_answer :
  let answer := (5, Some (Ok (payload.DiagnosticMessage 2 1 [80; 3]))) in
  handle_alive_request_response [answer] = (5, []) /\
  handle_alive_request_response [(5, Some (Ok (payload.DiagnosticMessageAck 2 [16; 3]))); answer] =
    (ALIVE_CHECK_TIMEOUT, [(0, Some (Ok (payload.DiagnosticMessage 2 1 [80; 3])))]).
Proof. vm_compute. split; reflexivity. Qed.

(** When a gateway is connected, an ECU of another gateway is reported as
    connected too if it has the same address. *)
Example ecus_of_other_gateways_are_reported :
  let addresses := <["other" := ex_address "other" 2 32]> ex_addresses in
  (DoipDiagGateway_new addresses [(ex_gateway_found, Ok tt)]).2 = [Connected ["other"; "gw"; "engine"]] /\
  gateway_ecu_names no_lowercase addresses 16 = Some ["gw"; "engine"].
Proof. vm_compute. split; reflexivity. Qed.

(** *** Functional requests *)

(** The request goes to the gateway, whose answers before it are cleared.  Those
    of the other ECUs are not: the answer to an earlier request is taken, and an
    announcement of a later answer is one as well. *)
Example old_functional_answers :
  let pending addr := if addr =? 2 then {| queued := [Ok (Msg 2 1 [98; 241])]; lagged := false |} else nothing_pending in
  let answers addr := {| items := if addr =? 16 then [(5, Event (Ok (Msg 16 1 [127; 16; 120]))); (9, Event (Ok (Msg 16 1 [80; 3])))]
                                  else [(5, Event (Ok (Msg 2 1 [80; 3])))]; ends := None |} in
  send_functional no_lowercase ex_connected pending answers (fun _ _ => true) ex_request
    {| gateway_address := 16; timeout_ack := 100; tp_ecu_name := "gw"; repeat_request_count_transmission := 1 |}
    {[2 := "engine"]} 1000 true =
  Ok (<["gw" := Ok (uds_response_from_raw [127; 16; 120] 16 1)]> {["engine" := Ok (uds_response_from_raw [98; 241] 2 1)]}).
Proof. vm_compute. reflexivity. Qed.
