(* ===== verification/FunctionalGroups.v ===== *)
(** * Requests to functional groups

    cda-comm-uds/src/functional_group.rs: the ECUs of a group, one request for
    each of their gateways, what is reported for each ECU, and the states of the
    ECUs that a group or an ECU is put into; DoIP as the gateway; the tasks that
    keep sessions alive (tester_present.rs). *)

From stdpp Require Import strings gmap.
From stdpp Require Import list.
From S2P Require Import Locks Prelude Bytes Errors Text Ieee754 Json StateCharts Database DiagLayers Uds Transport EcuState VariantDetection SampleDatabase Naming ServiceLookup StateTransitions PayloadDecode ResponseDecode PayloadEncode UdsRequest UdsManager Sessions Doip DoipLaws.

Local Open Scope Z_scope.
Set Warnings "-register-all".

(** ** The gateway *)

(** [FunctionalTransport] of cda-interfaces/src/ecugateway.rs: who is expected,
    how long to wait, whether positive responses are. *)
Class FunctionalTransport (G : Type) : Type :=
  send_functional_via : G -> TransmissionParameters -> ServicePayload -> gmap Z string -> Z -> bool ->
    dresult (gmap string (dresult ServicePayload)).

(** What its documentation says: without positive responses an ECU may be
    missing, otherwise each expected ECU is there; nobody else is, but the ECU
    the request is sent through. *)
Class FunctionalTransportOk (to_lowercase : string -> string) (G : Type) `{!FunctionalTransport G} : Prop := {
  only_expected g params message expected timeout positive m n : send_functional_via g params message expected timeout positive = Ok m ->
    is_Some (m !! n) -> n = to_lowercase (tp_ecu_name params) \/ exists addr, expected !! addr = Some n;
  all_expected g params message expected timeout m addr n : send_functional_via g params message expected timeout true = Ok m ->
    expected !! addr = Some n -> is_Some (m !! n)
}.

(** ** Results by the name of the ECU *)

Abbreviation group_result := (gmap string (presult DiagServiceResponseStruct)).

(** [PerGatewayInfo]. *)
Record PerGatewayInfo : Type := {
  gw_timeout_default : Z;
  gw_transmission_params : TransmissionParameters;
  gw_source_address : Z;
  gw_functional_address : Z;
  gw_ecus : gmap Z string
}.

(** What is gathered of the ECUs of a group: the gateways that are online, the
    other ECUs by their gateway, and the results so far. *)
Record Gathered : Type := {
  ecus_by_gateway : gmap Z PerGatewayInfo;
  ecu_infos_by_gateway : gmap Z (gmap Z string);
  early_results : group_result
}.

Definition nothing_gathered : Gathered := {| ecus_by_gateway := ∅; ecu_infos_by_gateway := ∅; early_results := ∅ |}.

Section groups.
Context {ext : Externals} (to_string : spec_float -> str) (strict_parameter_validation : bool).
Context (to_lowercase : string -> string) (convention : DatabaseNamingConvention) (fuel : nat).
Context {G : Type} `{!FunctionalTransport G} (gateway : G).
(** What does not change of the ECUs. *)
Context (setup : string -> EcuSetup) (own_name : string -> string) (ack_timeout transmission_repeats : string -> Z).
Context (functional_description_database : string).

(** [self.ecus]. *)
Abbreviation fleet := (gmap string Kernel).

Definition ecu_send_params (name : string) : UdsParameters * TransmissionParameters :=
  (ecu_params (setup name),
   {| gateway_address := logical_gateway_address (setup name); timeout_ack := ack_timeout name; tp_ecu_name := own_name name;
      repeat_request_count_transmission := transmission_repeats name |}).

(** In the order of the source's map. *)
Definition ecus_for_functional_group (ecus : fleet) (functional_group : string) (gateway_only : bool) : list string :=
  filter (fun name =>
            (gateway_only = true -> logical_address (setup name) = logical_gateway_address (setup name)) /\
            is_physical_ecu (setup name) = true /\ functional_group ∈ member_of (setup name))
    (map_to_list ecus).*1.

(** One ECU of the group. *)
Definition gather (ecus : fleet) (g : Gathered) (name : string) : Gathered :=
  match ecus !! name with
  | None => g
  | Some k =>
      let s := setup name in
      if negb (is_physical_ecu s) then g
      else if negb (is_online_and_detected (ecu_state (manager k))) then g
      else if logical_gateway_address s =? logical_address s then
        let '(uds_params, transmission_params) := ecu_send_params name in
        let info := {| gw_timeout_default := timeout_default uds_params; gw_transmission_params := transmission_params;
                       gw_source_address := tester_address s; gw_functional_address := logical_functional_address s;
                       gw_ecus := {[logical_address s := name]} |} in
        {| ecus_by_gateway := <[logical_gateway_address s := info]> (ecus_by_gateway g);
           ecu_infos_by_gateway := ecu_infos_by_gateway g;
           early_results := match ecus_by_gateway g !! logical_gateway_address s with
                            | Some _ => <[name := Err (Failed ResourceError)]> (early_results g)
                            | None => early_results g
                            end |}
      else
        {| ecus_by_gateway := ecus_by_gateway g;
           ecu_infos_by_gateway :=
             <[logical_gateway_address s := <[logical_address s := name]> (default ∅ (ecu_infos_by_gateway g !! logical_gateway_address s))]>
               (ecu_infos_by_gateway g);
           early_results := early_results g |}
  end.

Definition with_gateway_ecus (info : PerGatewayInfo) (ecus : gmap Z string) : PerGatewayInfo :=
  {| gw_timeout_default := gw_timeout_default info; gw_transmission_params := gw_transmission_params info;
     gw_source_address := gw_source_address info; gw_functional_address := gw_functional_address info; gw_ecus := ecus |}.

(** [extend]: the ECU added last is the one of its address. *)
Definition gateways_of (g : Gathered) : gmap Z PerGatewayInfo :=
  map_imap (fun addr info => Some (with_gateway_ecus info (default ∅ (ecu_infos_by_gateway g !! addr) ∪ gw_ecus info))) (ecus_by_gateway g).

(** [convert_from_uds] of the functional description for one ECU after another;
    without one there are no results at all. *)
Definition convert_each (k : Kernel) (service : ApiDiagComm) (map_to_json : bool) (functional_group : string)
    (uds_responses : gmap string (dresult ServicePayload)) : Kernel * group_result :=
  foldl (fun '(k, m) '(ecu_name, uds_result) =>
           match uds_result with
           | Ok msg =>
               let '(k, response) := convert_from_uds to_string to_lowercase convention fuel k service (Uds.data msg) map_to_json (Some functional_group) in
               (k, <[ecu_name := response]> m)
           | Err e => (k, <[ecu_name := Err (Failed e)]> m)
           end) (k, ∅) (map_to_list uds_responses).

Definition all_failed (e : failure) (names : list string) : group_result :=
  foldl (fun m name => <[name := Err e]> m) ∅ names.

(** The service's answer of a gateway, with the description. *)
Definition send_functional_to_gateway (k : Kernel) (info : PerGatewayInfo) (service : ApiDiagComm) (payload : ServicePayload)
    (map_to_json : bool) (functional_group : string) : Kernel * group_result :=
  let expect_positive_response := negb (is_suppress_positive_response payload) in
  match send_functional_via gateway (gw_transmission_params info) payload (gw_ecus info) (gw_timeout_default info) expect_positive_response with
  | Ok uds_responses => convert_each k service map_to_json functional_group uds_responses
  | Err e => (k, all_failed (Failed e) (map_to_list (gw_ecus info)).*2)
  end.

Definition to_gateway (payload : ServicePayload) (info : PerGatewayInfo) : ServicePayload :=
  {| Uds.data := Uds.data payload; source_address := gw_source_address info; target_address := gw_functional_address info;
     new_session := new_session payload; new_security := new_security payload |}.

(** One request for each gateway; the results are collected as they come. *)
Definition send_to_gateways (k : Kernel) (infos : list PerGatewayInfo) (service : ApiDiagComm) (payload : ServicePayload)
    (map_to_json : bool) (functional_group : string) (results : group_result) : Kernel * group_result :=
  foldl (fun '(k, m) info =>
           let '(k, gateway_results) := send_functional_to_gateway k info service (to_gateway payload info) map_to_json functional_group in
           (k, gateway_results ∪ m)) (k, results) infos.

Definition set_description (ecus : fleet) (k : Kernel) : fleet := <[functional_description_database := k]> ecus.

Definition send_functional_group (ecus : fleet) (functional_group : string) (service : ApiDiagComm) (security_plugin : DynamicPlugin)
    (payload : option UdsPayloadData) (map_to_json : bool) : fleet * group_result :=
  let ecu_list := ecus_for_functional_group ecus functional_group false in
  if bool_decide (ecu_list = []) then (ecus, ∅)
  else
    match ecus !! functional_description_database with
    | None => (ecus, ∅)
    | Some k =>
        let s := setup functional_description_database in
        let '(k, service_payload) :=
          create_uds_payload to_string strict_parameter_validation to_lowercase convention (tester_address s) (logical_address s) fuel k
            service security_plugin payload (Some functional_group) in
        let ecus := set_description ecus k in
        match service_payload with
        | Err e => (ecus, all_failed e ecu_list)
        | Ok service_payload =>
            let g := foldl (gather ecus) nothing_gathered ecu_list in
            let '(k, results) := send_to_gateways k (map_to_list (gateways_of g)).*2 service service_payload map_to_json functional_group
                                   (early_results g) in
            (set_description ecus k, results)
        end
    end.

(** *** States *)

Definition answered_positively (r : presult DiagServiceResponseStruct) : bool :=
  match r with Ok r => positive r | Err _ => false end.

(** The ECUs after the group was put into a state, the ones whose sessions
    expire, and what the ECUs answered. *)
Definition set_functional_state (ecus : fleet) (group_name : string) (security_plugin : DynamicPlugin) (sid : Z) (service_name : string)
    (params : option UdsPayloadData) (mode_expiration : option Z) (map_to_json : bool)
    : fleet * list (string * Z) * presult group_result :=
  match ecus !! functional_description_database with
  | None => (ecus, [], Err (Failed NotFound))
  | Some k =>
      match lookup_service_by_sid_and_name to_lowercase convention k sid service_name (Some group_name) with
      | Err e => (ecus, [], Err (Failed e))
      | Ok service =>
          let '(ecus, response) := send_functional_group ecus group_name service security_plugin params map_to_json in
          let changed := (filter (fun kv => answered_positively kv.2 = true /\ is_Some (ecus !! kv.1)) (map_to_list response)).*1 in
          (foldl (fun ecus name => alter (fun k => with_manager k (StateTransitions.set_service_state (manager k) sid service_name)) name ecus) ecus changed,
           match mode_expiration with Some e => map (fun name => (name, e)) changed | None => [] end,
           Ok response)
      end
  end.
End groups.

(** [set_ecu_state]. *)
Definition set_ecu_state {ext : Externals} {M : Type} `{!UdsManager.UdsTransport M} (to_lowercase : string -> string) (convention : DatabaseNamingConvention) (ecu_name : string)
    (security_plugin : DynamicPlugin) (sid : Z) (service_name : string) (params : option UdsPayloadData) (map_to_json : bool)
    : op M DiagServiceResponseStruct :=
  k ← ecu ecu_name;
  service ← pure (fallible (lookup_service_by_sid_and_name to_lowercase convention k sid service_name None));
  response ← sends ecu_name service security_plugin params map_to_json;
  if positive response
  then on_ecu ecu_name (fun k => (with_manager k (StateTransitions.set_service_state (manager k) sid service_name), Ok response))
  else mret response.

(** ** Gathering *)

Section gathering.
Context (setup : string -> EcuSetup) (own_name : string -> string) (ack_timeout transmission_repeats : string -> Z).
Context (ecus : gmap string Kernel).

Definition online (name : string) : Prop :=
  is_physical_ecu (setup name) = true /\
  exists k, ecus !! name = Some k /\ is_online_and_detected (ecu_state (manager k)) = true.

Definition is_gateway (name : string) : Prop := logical_gateway_address (setup name) = logical_address (setup name).

Definition info_of (name : string) : PerGatewayInfo :=
  {| gw_timeout_default := timeout_default (ecu_params (setup name));
     gw_transmission_params := (ecu_send_params setup own_name ack_timeout transmission_repeats name).2;
     gw_source_address := tester_address (setup name); gw_functional_address := logical_functional_address (setup name);
     gw_ecus := {[logical_address (setup name) := name]} |}.

Definition expected_at (g : Gathered) (gateway addr : Z) : option string := default ∅ (ecu_infos_by_gateway g !! gateway) !! addr.

(** What is gathered of a list of ECUs. *)
Record gathered_ok (l : list string) (g : Gathered) : Prop := {
  gateway_from a info : ecus_by_gateway g !! a = Some info ->
    exists n, n ∈ l /\ online n /\ is_gateway n /\ logical_address (setup n) = a /\ info = info_of n;
  gateway_to n : n ∈ l -> online n -> is_gateway n -> is_Some (ecus_by_gateway g !! logical_address (setup n));
  other_from a b n : expected_at g a b = Some n ->
    n ∈ l /\ online n /\ ~ is_gateway n /\ logical_gateway_address (setup n) = a /\ logical_address (setup n) = b;
  other_to n : n ∈ l -> online n -> ~ is_gateway n ->
    is_Some (expected_at g (logical_gateway_address (setup n)) (logical_address (setup n)));
  early_from n r : early_results g !! n = Some r -> n ∈ l /\ r = Err (Failed ResourceError)
}.

Lemma gathered_nothing : gathered_ok [] nothing_gathered.
Proof.
  split; unfold expected_at, nothing_gathered; cbn.
  - intros a info. by rewrite lookup_empty.
  - by intros n ?%not_elem_of_nil.
  - intros a b n. rewrite lookup_empty. cbn. by rewrite lookup_empty.
  - by intros n ?%not_elem_of_nil.
  - intros n r. by rewrite lookup_empty.
Qed.

Lemma gathered_skip l g name : ~ online name -> gathered_ok l g -> gathered_ok (l ++ [name]) g.
Proof.
  intros Hno [H1 H2 H3 H4 H5]. split.
  - intros a info (n & Hn & H)%H1. exists n. split; [(rewrite ?elem_of_app, ?list_elem_of_singleton; auto)|done].
  - intros n [Hn| ->%list_elem_of_singleton]%elem_of_app; [by apply H2|done].
  - intros a b n (Hn & H)%H3. split; [(rewrite ?elem_of_app, ?list_elem_of_singleton; auto)|done].
  - intros n [Hn| ->%list_elem_of_singleton]%elem_of_app; [by apply H4|done].
  - intros n r [Hn Hr]%H5. split; [set_solver|done].
Qed.

Abbreviation gather := (gather setup own_name ack_timeout transmission_repeats ecus).

Lemma gathered_gateway l g name : online name -> is_gateway name -> gathered_ok l g -> gathered_ok (l ++ [name]) (gather g name).
Proof.
  intros Hon Hgw [H1 H2 H3 H4 H5]. destruct Hon as (Hphys & k & Hk & Hst). unfold FunctionalGroups.gather. rewrite Hk, Hphys, Hst. cbn [negb].
  unfold is_gateway in Hgw. rewrite (proj2 (Z.eqb_eq _ _)) by done. cbn [ecu_send_params]. split; cbn [ecus_by_gateway ecu_infos_by_gateway early_results].
  - intros a info. destruct (decide (logical_gateway_address (setup name) = a)) as [<-|Hne].
    + rewrite lookup_insert_eq. intros [= <-]. exists name. split; [(rewrite ?elem_of_app, ?list_elem_of_singleton; auto)|]. unfold online. repeat split; eauto.
    + rewrite lookup_insert_ne by done. intros (n & Hn & H)%H1. exists n. split; [(rewrite ?elem_of_app, ?list_elem_of_singleton; auto)|done].
  - intros n [Hn| ->%list_elem_of_singleton]%elem_of_app Ho Hg.
    + destruct (decide (logical_gateway_address (setup name) = logical_address (setup n))) as [->|]; [by rewrite lookup_insert_eq|].
      rewrite lookup_insert_ne by done. by apply H2.
    + rewrite Hgw, lookup_insert_eq. done.
  - intros a b n (Hn & H)%H3. split; [(rewrite ?elem_of_app, ?list_elem_of_singleton; auto)|done].
  - intros n [Hn| ->%list_elem_of_singleton]%elem_of_app Ho Hg; [by apply H4|by destruct Hg].
  - intros n r Hn. assert (Hold : early_results g !! n = Some r -> n ∈ l ++ [name] /\ r = Err (Failed ResourceError)).
    { intros [? ?]%H5. split; [set_solver|done]. }
    destruct (ecus_by_gateway g !! _); [|by apply Hold]. destruct (decide (name = n)) as [->|].
    + rewrite lookup_insert_eq in Hn. injection Hn as <-. split; [set_solver|done].
    + rewrite lookup_insert_ne in Hn by done. by apply Hold.
Qed.

Lemma gathered_other l g name : online name -> ~ is_gateway name -> gathered_ok l g -> gathered_ok (l ++ [name]) (gather g name).
Proof.
  intros Hon Hgw [H1 H2 H3 H4 H5]. destruct Hon as (Hphys & k & Hk & Hst). unfold FunctionalGroups.gather. rewrite Hk, Hphys, Hst. cbn [negb].
  unfold is_gateway in Hgw. rewrite (proj2 (Z.eqb_neq _ _)) by done.
  set (a0 := logical_gateway_address (setup name)) in *. set (b0 := logical_address (setup name)) in *.
  assert (Hat : forall a b, default ∅ (<[a0 := <[b0 := name]> (default ∅ (ecu_infos_by_gateway g !! a0))]> (ecu_infos_by_gateway g) !! a) !! b =
    if decide (a = a0 /\ b = b0) then Some name else expected_at g a b).
  { intros a b. unfold expected_at. destruct (decide (a0 = a)) as [<-|Ha].
    - rewrite lookup_insert_eq. cbn [from_option Datatypes.id]. destruct (decide (b0 = b)) as [<-|Hb].
      + by rewrite lookup_insert_eq, decide_True.
      + rewrite lookup_insert_ne by done. by rewrite decide_False by naive_solver.
    - rewrite lookup_insert_ne by done. by rewrite decide_False by naive_solver. }
  split; cbn [ecus_by_gateway ecu_infos_by_gateway early_results].
  - intros a info (n & Hn & H)%H1. exists n. split; [(rewrite ?elem_of_app, ?list_elem_of_singleton; auto)|done].
  - intros n [Hn| ->%list_elem_of_singleton]%elem_of_app Ho Hg; [by apply H2|done].
  - intros a b n. unfold expected_at at 1. cbn [ecu_infos_by_gateway]. rewrite Hat. destruct (decide _) as [[-> ->]|_].
    + intros [= <-]. split; [(rewrite ?elem_of_app, ?list_elem_of_singleton; auto)|]. unfold online. repeat split; eauto.
    + intros (Hn & H)%H3. split; [(rewrite ?elem_of_app, ?list_elem_of_singleton; auto)|done].
  - intros n Hn Ho Hg. unfold expected_at. cbn [ecu_infos_by_gateway]. rewrite Hat. case_decide as Hd; [done|].
    apply elem_of_app in Hn as [Hn| ->%list_elem_of_singleton]; [by apply H4|]. by destruct Hd.
  - intros n r [Hn Hr]%H5. split; [set_solver|done].
Qed.

Lemma online_dec name : online name \/ ~ online name.
Proof.
  unfold online. destruct (is_physical_ecu (setup name)); [|right; by intros []].
  destruct (ecus !! name) as [k|]; [|right; by intros (_ & k & ? & _)].
  destruct (is_online_and_detected (ecu_state (manager k))) eqn:H; [left; eauto|right; intros (_ & k' & [= <-] & ?); congruence].
Qed.

Lemma gathered_all l : gathered_ok l (foldl gather nothing_gathered l).
Proof.
  induction l as [|name l IH] using rev_ind; [exact gathered_nothing|]. rewrite foldl_snoc.
  destruct (online_dec name) as [Hon|Hoff].
  - destruct (decide (logical_gateway_address (setup name) = logical_address (setup name))); [by apply gathered_gateway|by apply gathered_other].
  - assert (Hg : forall g, gather g name = g).
    { intros g. unfold FunctionalGroups.gather. destruct (ecus !! name) as [k|] eqn:Hk; [|done].
      destruct (is_physical_ecu (setup name)) eqn:Hp; [|done]. cbn [negb].
      destruct (is_online_and_detected (ecu_state (manager k))) eqn:Ho; [|done]. destruct Hoff. split; eauto. }
    rewrite Hg. by apply gathered_skip.
Qed.

(** *** The gateways with their ECUs *)

Lemma gateways_lookup g a : gateways_of g !! a =
  (fun info => with_gateway_ecus info (default ∅ (ecu_infos_by_gateway g !! a) ∪ gw_ecus info)) <$> ecus_by_gateway g !! a.
Proof. unfold gateways_of. rewrite map_lookup_imap. by destruct (ecus_by_gateway g !! a). Qed.

Lemma gateway_names l g a info b n : gathered_ok l g -> gateways_of g !! a = Some info -> gw_ecus info !! b = Some n -> n ∈ l.
Proof.
  intros [H1 _ H3 _ _]. rewrite gateways_lookup. destruct (ecus_by_gateway g !! a) as [i|] eqn:Hi; [|done]. intros [= <-]. cbn [gw_ecus with_gateway_ecus].
  rewrite lookup_union_Some_raw. intros [Hn|[_ Hn]]; [by apply H3 in Hn as (? & _)|].
  apply H1 in Hi as (m & Hm & _ & _ & _ & ->). cbn in Hn. apply lookup_singleton_Some in Hn as [_ <-]. done.
Qed.

(** An ECU that is alone at its address behind a gateway that is online is
    expected to answer this gateway's request. *)
Definition reachable_in (l : list string) (n : string) : Prop :=
  n ∈ l /\ online n /\
  (exists gw, gw ∈ l /\ online gw /\ is_gateway gw /\ logical_address (setup gw) = logical_gateway_address (setup n)) /\
  forall n', n' ∈ l -> online n' -> logical_gateway_address (setup n') = logical_gateway_address (setup n) ->
    logical_address (setup n') = logical_address (setup n) -> n' = n.

Lemma reachable_expected l g n : gathered_ok l g -> reachable_in l n ->
  exists info, gateways_of g !! logical_gateway_address (setup n) = Some info /\ gw_ecus info !! logical_address (setup n) = Some n.
Proof.
  intros [H1 H2 H3 H4 _] (Hn & Hon & (gw & Hgw & Hgo & Hgg & Haddr) & Huniq).
  destruct (H2 gw Hgw Hgo Hgg) as [i Hi]. rewrite Haddr in Hi. rewrite gateways_lookup, Hi. eexists. split; [done|]. cbn [gw_ecus with_gateway_ecus].
  rewrite lookup_union_Some_raw. fold (expected_at g (logical_gateway_address (setup n)) (logical_address (setup n))).
  destruct (decide (logical_gateway_address (setup n) = logical_address (setup n))) as [Hg|Hg].
  - right. split.
    + destruct (expected_at _ _ _) as [m|] eqn:Hm; [|done]. apply H3 in Hm as (_ & _ & Hng & Ha & Hb). destruct Hng. unfold is_gateway. congruence.
    + apply H1 in Hi as (m & Hm & Hmo & Hmg & Hma & ->). unfold is_gateway in Hmg.
      replace m with n by (symmetry; apply Huniq; congruence). cbn. apply lookup_singleton_eq.
  - left. destruct (H4 n Hn Hon Hg) as [m Hm]. rewrite Hm. f_equal. apply H3 in Hm as (Hml & Hmo & _ & Ha & Hb). by apply Huniq.
Qed.
End gathering.

(** ** What is reported *)

Section reports.
Context {ext : Externals} (to_string : spec_float -> str) (strict_parameter_validation : bool).
Context (to_lowercase : string -> string) (convention : DatabaseNamingConvention) (fuel : nat).
Context {G : Type} `{!FunctionalTransport G} (gateway : G).
Context (setup : string -> EcuSetup) (own_name : string -> string) (ack_timeout transmission_repeats : string -> Z).
Context (functional_description_database : string).
Context (functional_group : string) (service : ApiDiagComm) (map_to_json : bool).

Abbreviation convert k msg :=
  (convert_from_uds to_string to_lowercase convention fuel k service (Uds.data msg) map_to_json (Some functional_group)).
Abbreviation through k info payload :=
  (send_functional_to_gateway to_string to_lowercase convention fuel gateway k info service payload map_to_json functional_group).

(** What the request through a gateway brings. *)
Definition gateway_answers (payload : ServicePayload) (info : PerGatewayInfo) : dresult (gmap string (dresult ServicePayload)) :=
  send_functional_via gateway (gw_transmission_params info) payload (gw_ecus info) (gw_timeout_default info)
    (negb (is_suppress_positive_response payload)).

(** Descriptions that decode alike: decoding stores states and caches, and looks
    the service up in the functional groups of the file. *)
Definition same_description (k k' : Kernel) : Prop :=
  diag_database (manager k') = diag_database (manager k) /\ file_groups k' = file_groups k.

#[export] Instance same_description_preorder : PreOrder same_description.
Proof. split; [by split|]. intros x y z [] []. split; congruence. Qed.

Lemma convert_same k msg : same_description k (convert k msg).1.
Proof.
  pose proof (convert_state to_string to_lowercase convention fuel k service (Uds.data msg) map_to_json (Some functional_group)) as H.
  assert (Hg : file_groups (convert k msg).1 = file_groups k)
    by (unfold convert_from_uds; cbn [lookup_diag_service]; destruct (fallible _); [by destruct (ResponseDecode.convert_from_uds _ _ _ _ _ _ _ _)|done]).
  destruct (convert k msg) as [k' r]. cbn [fst] in *. split; [|done]. destruct H as [->|(svc & c & _ & _ & ->)]; [done|].
  apply (update_states_view convention c (manager k)).
Qed.

Lemma convert_alike k k' msg : same_description k k' -> (convert k' msg).2 = (convert k msg).2.
Proof.
  intros [Hd Hg]. unfold convert_from_uds. cbn [lookup_diag_service]. unfold get_services_from_functional_group_and_parent_refs, functional_groups, ecu_data.
  rewrite Hd, Hg. destruct (fallible _) as [svc|e]; [|done]. unfold ResponseDecode.convert_from_uds.
  destruct (diag_comm svc); [|done]. destruct (try_extract_sid_from_payload _); [|done]. destruct (Payload.first _); [|done].
  destruct (find_map _ _) as [[? ?]|]; [|done]. by destruct (ResponseType_try_from _).
Qed.

(** The result of an ECU: the one of its gateway, what the gateway says of the
    ECU, or its answer as the description decodes it. *)
Inductive answer_through (k : Kernel) (payload : ServicePayload) (info : PerGatewayInfo) (n : string) : presult DiagServiceResponseStruct -> Prop :=
  | gateway_failed e addr : gateway_answers payload info = Err e -> gw_ecus info !! addr = Some n ->
      answer_through k payload info n (Err (Failed e))
  | ecu_failed m e : gateway_answers payload info = Ok m -> m !! n = Some (Err e) -> answer_through k payload info n (Err (Failed e))
  | ecu_answered m msg : gateway_answers payload info = Ok m -> m !! n = Some (Ok msg) ->
      answer_through k payload info n (convert k msg).2.

(** *** The loops *)

Lemma all_failed_lookup e names n : all_failed e names !! n = if decide (n ∈ names) then Some (Err e) else None.
Proof.
  unfold all_failed. assert (H : forall m : group_result, (foldl (fun m name => <[name := Err e]> m) m names !! n) =
    if decide (n ∈ names) then Some (Err e) else m !! n).
  { induction names as [|x names IH]; intros m; cbn [foldl]; [done|]. rewrite IH. destruct (decide (x = n)) as [->|Hne].
    - rewrite lookup_insert_eq, (decide_True (P := n ∈ n :: names)) by set_solver. by case_decide.
    - rewrite lookup_insert_ne by done. by repeat case_decide; set_solver. }
  rewrite H. by rewrite lookup_empty.
Qed.

Abbreviation convert_step := (fun '(k, m) '(ecu_name, uds_result) =>
  match uds_result with
  | Ok msg => let '(k, response) := convert k msg in (k, <[ecu_name := response]> m)
  | Err e => (k, <[ecu_name := Err (Failed e)]> m)
  end).

Lemma convert_steps (l : list (string * dresult ServicePayload)) d k (m : group_result) n : same_description d k ->
  same_description d (foldl convert_step (k, m) l).1 /\
  let r := (foldl convert_step (k, m) l).2 !! n in
  ((n ∉ l.*1 /\ r = (m !! n)) \/
   exists uds, (n, uds) ∈ l /\ r = Some match uds with Ok msg => (convert d msg).2 | Err e => Err (Failed e) end).
Proof.
  cbv zeta. revert k m. induction l as [|[x uds] l IH]; intros k m Hk; cbn [foldl]; [split; [done|]; left; split; [set_solver|done]|].
  assert (Hstep : exists k' r, convert_step (k, m) (x, uds) = (k', <[x := r]> m) /\ same_description d k' /\
    r = match uds with Ok msg => (convert d msg).2 | Err e => Err (Failed e) end).
  { destruct uds as [msg|e]; cbv beta iota; [|by exists k, (Err (Failed e))]. rewrite <- (convert_alike d k msg Hk).
    pose proof (convert_same k msg) as H. destruct (convert k msg) as [k' r]. exists k', r. split; [done|]. split; [by etrans|done]. }
  destruct Hstep as (k' & r & Heq & Hk' & Hr). cbv beta iota in Heq. rewrite Heq.
  destruct (IH k' (<[x := r]> m) Hk') as [Hd H]. split; [done|].
  destruct H as [[Hn ->]|(uds' & Hin & ->)]; [|right; exists uds'; split; [by right|done]].
  destruct (decide (x = n)) as [->|Hne].
  - right. exists uds. split; [by left|]. by rewrite lookup_insert_eq, Hr.
  - left. rewrite lookup_insert_ne by done. split; [set_solver|done].
Qed.

Lemma to_gateway_suppressed payload info : is_suppress_positive_response (to_gateway payload info) = is_suppress_positive_response payload.
Proof. done. Qed.

(** The results of one gateway: who has one, and where it comes from. *)
Lemma through_lookup d k info payload n : same_description d k ->
  same_description d (through k info payload).1 /\
  match (through k info payload).2 !! n with
  | Some r => answer_through d payload info n r
  | None => match gateway_answers payload info with Ok m => m !! n = None | Err _ => forall addr, gw_ecus info !! addr <> Some n end
  end.
Proof.
  intros Hk. unfold send_functional_to_gateway. fold (gateway_answers payload info).
  destruct (gateway_answers payload info) as [m|e] eqn:Hg; cbn [fst snd].
  - unfold convert_each. destruct (convert_steps (map_to_list m) d k ∅ n Hk) as [Hd H]. split; [exact Hd|].
    destruct H as [[Hn ->]|(uds & Hin%elem_of_map_to_list & ->)].
    + rewrite lookup_empty. destruct (m !! n) as [uds|] eqn:Hm; [|done]. destruct Hn. apply elem_of_map_to_list in Hm.
      by apply (list_elem_of_fmap_2 fst) in Hm.
    + destruct uds as [msg|e]; [by eapply ecu_answered|by eapply ecu_failed].
  - split; [done|]. rewrite all_failed_lookup. case_decide as Hin.
    + apply list_elem_of_fmap in Hin as ([addr x] & Hx & Hin%elem_of_map_to_list). cbn in Hx. subst x. by eapply gateway_failed.
    + intros addr Ha. destruct Hin. apply elem_of_map_to_list in Ha. by apply (list_elem_of_fmap_2 snd) in Ha.
Qed.

Abbreviation gateways_step payload := (fun '(k, m) info =>
  let '(k, gateway_results) := through k info (to_gateway payload info) in (k, gateway_results ∪ m)).

Lemma gateways_steps payload infos d k (m : group_result) n r : same_description d k ->
  (foldl (gateways_step payload) (k, m) infos).2 !! n = Some r ->
  m !! n = Some r \/ exists info, info ∈ infos /\ answer_through d (to_gateway payload info) info n r.
Proof.
  revert k m. induction infos as [|info infos IH]; intros k m Hk; cbn [foldl]; [by left|].
  destruct (through_lookup d k info (to_gateway payload info) n Hk) as [Hk' Hl]. destruct (through k info (to_gateway payload info)) as [k' res].
  intros [H|(i & Hi & H)]%(IH _ _ Hk'); [|right; exists i; split; [by right|done]]. cbn [snd] in Hl.
  apply lookup_union_Some_raw in H as [H|[_ H]]; [|by left]. rewrite H in Hl. right. exists info. split; [by left|done].
Qed.

Lemma gateways_keep payload infos k (m : group_result) n : is_Some (m !! n) -> is_Some ((foldl (gateways_step payload) (k, m) infos).2 !! n).
Proof.
  revert k m. induction infos as [|i infos IH]; intros k m [r Hr]; cbn [foldl snd]; [done|].
  destruct (through k i (to_gateway payload i)) as [k2 res]. apply IH. apply lookup_union_is_Some. right. done.
Qed.

(** Who is in the answers of a gateway is in the results, with an answer. *)
Lemma gateways_present payload infos info d k (m : group_result) n : same_description d k -> info ∈ infos ->
  (forall m', gateway_answers (to_gateway payload info) info = Ok m' -> is_Some (m' !! n)) -> (exists addr, gw_ecus info !! addr = Some n) ->
  exists r i, (foldl (gateways_step payload) (k, m) infos).2 !! n = Some r /\ i ∈ infos /\ answer_through d (to_gateway payload i) i n r.
Proof.
  intros Hd Hin Hall Hex. revert k m Hd Hin. induction infos as [|i infos IH]; intros k m Hd Hin; [by apply not_elem_of_nil in Hin|]. cbn [foldl].
  assert (Hstart : forall k' (m' : group_result), same_description d k' -> (exists r, m' !! n = Some r /\ answer_through d (to_gateway payload i) i n r) ->
    exists r j, (foldl (gateways_step payload) (k', m') infos).2 !! n = Some r /\ j ∈ i :: infos /\ answer_through d (to_gateway payload j) j n r).
  { intros k' m' Hk' (r & Hr & Ha). destruct ((foldl (gateways_step payload) (k', m') infos).2 !! n) as [r'|] eqn:Hr'.
    - destruct (gateways_steps _ _ _ _ _ _ _ Hk' Hr') as [Hm|(j & Hj & Hja)].
      + rewrite Hr in Hm. injection Hm as <-. exists r, i. split; [done|]. split; [by left|done].
      + exists r', j. split; [done|]. split; [by right|done].
    - exfalso. destruct (gateways_keep payload infos k' m' n) as [r2 Hr2]; [done|congruence]. }
  destruct (through_lookup d k i (to_gateway payload i) n Hd) as [Hk' Hl].
  destruct (through k i (to_gateway payload i)) as [k' res] eqn:Ht. cbn [fst snd] in Hk', Hl.
  apply elem_of_cons in Hin as [->|Hin].
  - apply Hstart; [done|]. destruct (res !! n) as [r|] eqn:Hr.
    + exists r. split; [by apply lookup_union_Some_l|done].
    + exfalso. destruct (gateway_answers (to_gateway payload i) i) as [m'|e]; [by destruct (Hall m' eq_refl); congruence|].
      destruct Hex as [addr Ha]. by apply (Hl addr).
  - destruct (IH k' (res ∪ m) Hk' Hin) as (r & j & Hr & Hj & Ha). exists r, j. split; [done|]. split; [by right|done].
Qed.
(** *** The request *)

Context (ecus : gmap string Kernel).
Context `{!FunctionalTransportOk to_lowercase G}.

Abbreviation members := (ecus_for_functional_group setup ecus functional_group false).
Abbreviation gathered := (foldl (gather setup own_name ack_timeout transmission_repeats ecus) nothing_gathered members).

Lemma gather_described k k' g name : ecus !! functional_description_database = Some k -> manager k' = manager k ->
  gather setup own_name ack_timeout transmission_repeats (set_description functional_description_database ecus k') g name =
  gather setup own_name ack_timeout transmission_repeats ecus g name.
Proof.
  intros Hk Hm. unfold gather, set_description. destruct (decide (functional_description_database = name)) as [<-|Hne].
  - by rewrite lookup_insert_eq, Hk, Hm.
  - by rewrite lookup_insert_ne.
Qed.

Lemma gathered_described k k' l g : ecus !! functional_description_database = Some k -> manager k' = manager k ->
  foldl (gather setup own_name ack_timeout transmission_repeats (set_description functional_description_database ecus k')) g l =
  foldl (gather setup own_name ack_timeout transmission_repeats ecus) g l.
Proof. intros Hk Hm. revert g. induction l as [|x l IH]; intros g; cbn [foldl]; [done|]. by rewrite (gather_described k). Qed.

Abbreviation sent k payload :=
  (send_to_gateways to_string to_lowercase convention fuel gateway k (map_to_list (gateways_of gathered)).*2 service payload map_to_json
     functional_group (early_results gathered)).

Definition answered (d : Kernel) (payload : ServicePayload) (n : string) (r : presult DiagServiceResponseStruct) : Prop :=
  exists a info, gateways_of gathered !! a = Some info /\ answer_through d (to_gateway payload info) info n r.

Lemma infos_in info : info ∈ (map_to_list (gateways_of gathered)).*2 <-> exists a, gateways_of gathered !! a = Some info.
Proof.
  rewrite list_elem_of_fmap. split.
  - intros ([a i] & -> & Hi%elem_of_map_to_list). by exists a.
  - intros [a Ha]. exists (a, info). split; [done|]. by apply elem_of_map_to_list.
Qed.

Lemma sent_from d k payload n r : same_description d k -> (sent k payload).2 !! n = Some r ->
  answered d payload n r \/ (r = Err (Failed ResourceError) /\ n ∈ members).
Proof.
  intros Hk [H|(info & [a Ha]%infos_in & H)]%(gateways_steps _ _ _ _ _ _ _ Hk); [right|left; by exists a, info].
  destruct (gathered_all setup own_name ack_timeout transmission_repeats ecus members) as [_ _ _ _ H5]. by apply H5 in H as [? ->].
Qed.

Lemma sent_all d k payload n : same_description d k -> is_suppress_positive_response payload = false -> reachable_in setup ecus members n ->
  exists r, (sent k payload).2 !! n = Some r /\ answered d payload n r.
Proof.
  intros Hd Hs Hn. pose proof (gathered_all setup own_name ack_timeout transmission_repeats ecus members) as Hg.
  destruct (reachable_expected _ _ _ _ _ _ _ _ Hg Hn) as (info & Hi & Hb).
  destruct (gateways_present payload (map_to_list (gateways_of gathered)).*2 info d k (early_results gathered) n Hd) as (r & i & Hr & [a Ha]%infos_in & Hans).
  - apply infos_in. eauto.
  - unfold gateway_answers. rewrite to_gateway_suppressed, Hs. cbn [negb]. intros m' Hm. by eapply all_expected.
  - eauto.
  - exists r. split; [exact Hr|]. by exists a, i.
Qed.

Lemma answered_member d payload n r : (forall n, n ∈ members -> to_lowercase (own_name n) = n) -> answered d payload n r -> n ∈ members.
Proof.
  intros Hnames (a & info & Hi & H). pose proof (gathered_all setup own_name ack_timeout transmission_repeats ecus members) as Hg.
  assert (Hm : forall m, gateway_answers (to_gateway payload info) info = Ok m -> is_Some (m !! n) -> n ∈ members).
  { intros m Hm Hn. destruct (only_expected _ _ _ _ _ _ _ _ Hm Hn) as [->|[addr Ha]]; [|by eapply gateway_names].
    rewrite gateways_lookup in Hi. destruct (ecus_by_gateway gathered !! a) as [i|] eqn:Ha; [|done]. injection Hi as <-.
    destruct Hg as [H1 _ _ _ _]. apply H1 in Ha as (gw & Hgw & _ & _ & _ & ->). cbn. by rewrite Hnames. }
  destruct H as [e addr _ Ha|m e Hm' Hn|m msg Hm' Hn]; [by eapply gateway_names|eapply Hm; [done|by rewrite Hn]..].
Qed.

Lemma create_description k dc plugin data : same_description k
  (create_uds_payload to_string strict_parameter_validation to_lowercase convention
     (tester_address (setup functional_description_database)) (logical_address (setup functional_description_database))
     fuel k dc plugin data (Some functional_group)).1.
Proof. done. Qed.

(** C29: the results of a request to a functional group are about the ECUs of the
    group and about no others, when the ECUs are known by their own names.  If the
    request cannot be encoded, each of them gets this error.  Otherwise each result
    is what a gateway of the group that is online says of the ECU, the ECU's answer
    as the functional description decodes it, or the complaint about a second
    gateway at the same address.  If the request does not suppress positive
    responses, every physical ECU of the group that is itself online with a detected
    variant, whose gateway is in the group and is so too, and that no other such
    ECU shares its addresses with, has such an answer; the others may have none. *)
Theorem group_request_reports k security_plugin payload :
  (forall n, n ∈ members -> to_lowercase (own_name n) = n) -> ecus !! functional_description_database = Some k ->
  let s := setup functional_description_database in
  let created := (create_uds_payload to_string strict_parameter_validation to_lowercase convention (tester_address s) (logical_address s)
                    fuel k service security_plugin payload (Some functional_group)).2 in
  let results := (send_functional_group to_string strict_parameter_validation to_lowercase convention fuel gateway setup own_name ack_timeout
                    transmission_repeats functional_description_database ecus functional_group service security_plugin payload map_to_json).2 in
  (forall n, is_Some (results !! n) -> n ∈ members) /\
  match created with
  | Err e => forall n, n ∈ members -> results !! n = Some (Err e)
  | Ok payload =>
      (forall n r, results !! n = Some r -> answered k payload n r \/ r = Err (Failed ResourceError)) /\
      (is_suppress_positive_response payload = false -> forall n, reachable_in setup ecus members n ->
         exists r, results !! n = Some r /\ answered k payload n r)
  end.
Proof.
  intros Hnames Hk s created results. subst results. unfold send_functional_group.
  case_bool_decide as Hempty.
  - rewrite Hempty. cbn [snd]. split; [intros n; rewrite lookup_empty; by intros []|].
    destruct created; [|by intros n ?%not_elem_of_nil]. split; [intros n r; by rewrite lookup_empty|].
    intros _ n [Hn _]. by apply not_elem_of_nil in Hn.
  - rewrite Hk. fold s. pose proof (create_manager to_string strict_parameter_validation to_lowercase convention (tester_address s)
      (logical_address s) fuel k service security_plugin payload (Some functional_group)) as Hm. fold created.
    pose proof (create_description k service security_plugin payload) as Hd.
    destruct (create_uds_payload _ _ _ _ _ _ _ _ _ _ _ _) as [k' c]. cbn [fst snd] in Hm, Hd, created. subst created. destruct c as [p|e].
    + rewrite (gathered_described k) by done. pose proof (fun n r => sent_from k k' p n r Hd) as Hfrom. pose proof (fun n => sent_all k k' p n Hd) as Hall.
      destruct (send_to_gateways _ _ _ _ _ _ _ _ _ _ _ _) as [k2 res]. cbn [snd] in *. split.
      * intros n [r [Hr|[_ Hn]]%Hfrom]; [by eapply answered_member|done].
      * split; [|intros Hs n; by apply Hall]. intros n r [Hr|[Hr _]]%Hfrom; auto.
    + cbn [snd]. split; [|intros n Hn; by rewrite all_failed_lookup, decide_True].
      intros n. rewrite all_failed_lookup. case_decide; [done|]. by intros [].
Qed.
End reports.

(** ** DoIP as the gateway *)

(** The connections with the channels of the ECUs, what these get after a
    request, and whether the request can be queued. *)
Record DoipNetwork : Type := {
  network_state : DoipGatewayState;
  network_pending : Z -> Receiver;
  network_answers : ServicePayload -> Z -> stream;
  network_accepts : payload.DoipPayload -> nat -> bool
}.

Section doip.
Context (to_lowercase : string -> string).

#[export] Instance doip_functional : FunctionalTransport DoipNetwork := fun g params message expected timeout positive =>
  send_functional to_lowercase (network_state g) (network_pending g) (network_answers g message) (network_accepts g) message params expected
    timeout positive.

Lemma doip_functional_ok : FunctionalTransportOk to_lowercase DoipNetwork.
Proof.
  split; unfold send_functional_via, doip_functional.
  - intros g params message expected timeout positive m n H [r Hr].
    destruct (reported_from _ _ _ _ _ _ _ _ _ _ _ H _ _ Hr) as (addr & [[-> _]|Ha] & _); eauto.
  - intros g params message expected timeout m addr n H Ha. by eapply expected_reported.
Qed.
End doip.

(** *** A group of two *)

Definition ex_group_setup (n : string) : EcuSetup :=
  {| tester_address := 1; logical_address := if bool_decide (n = "engine") then 2 else 16; logical_gateway_address := 16;
     logical_functional_address := 57; is_physical_ecu := negb (bool_decide (n = "description")); member_of := ["all"];
     ecu_params := ex_params |}.

Definition ex_description : Kernel :=
  {| manager := manager session_kernel;
     file_groups := Some [MkParentTable (Some {| layer_short_name := Some "all"; layer_state_charts := None;
                                                 diag_services := Some [session_service extended_session]; single_ecu_jobs := None |}) None];
     db_cache := ∅ |}.
Definition ex_detected : Kernel :=
  {| manager := with_state (fun _ => {| connectivity := Online; variant_state := Detected "V" false false; EcuState.variant_index := Some 0 |})
                  (manager session_kernel);
     file_groups := None; db_cache := ∅ |}.
Definition ex_group : gmap string Kernel := <["description" := ex_description]> (<["gw" := ex_detected]> {["engine" := ex_detected]}).

Definition ex_network (engine : list (Z * channel_item)) : DoipNetwork :=
  {| network_state := ex_connected; network_pending := fun _ => nothing_pending;
     network_answers := fun _ addr => {| items := if addr =? 2 then engine else [(5, Event (Ok (Msg 16 1 [80; 3])))]; ends := None |};
     network_accepts := fun _ _ => true |}.

Definition ex_names (n : string) : string := n.
Abbreviation ex_send engine :=
  (send_functional_group no_floats false no_lowercase DatabaseNamingConvention_default 4 (ex_network engine) ex_group_setup ex_names
     (fun _ => 100) (fun _ => 1) "description" ex_group "all" extended_query VoidPlugin None true).

#[local] Instance ex_functional : FunctionalTransport DoipNetwork := doip_functional no_lowercase.
#[local] Instance ex_functional_ok : FunctionalTransportOk no_lowercase DoipNetwork := doip_functional_ok no_lowercase.

Definition session_answer : DiagServiceResponseStruct :=
  {| response_data := [80; 3]; mapped_data := None; result_type := PositiveResponse |}.

(** The gateway answers, the ECU behind it does not. *)
Lemma ex_silent_engine : (ex_send []).2 = <["gw" := Ok session_answer]> {["engine" := Err (Failed Timeout)]}.
Proof. vm_compute. reflexivity. Qed.

Definition ex_built : ServicePayload :=
  {| Uds.data := [16; 3]; source_address := 1; target_address := 16; new_session := Some "Extended"%string; new_security := None |}.
Definition engine_answers : list (Z * channel_item) := [(5, Event (Ok (Msg 2 1 [80; 3])))].

Lemma ex_reachable : reachable_in ex_group_setup ex_group (ecus_for_functional_group ex_group_setup ex_group "all" false) "engine".
Proof.
  assert (Hm : ecus_for_functional_group ex_group_setup ex_group "all" false = ["gw"; "engine"]) by (vm_compute; reflexivity).
  assert (Hon : forall n, n ∈ ["gw"; "engine"] -> online ex_group_setup ex_group n).
  { intros n [->|[->|[]%not_elem_of_nil]%elem_of_cons]%elem_of_cons; (split; [reflexivity|]; exists ex_detected; split; reflexivity). }
  assert (Hgw : "gw" ∈ ["gw"; "engine"]) by left. assert (Hengine : "engine" ∈ ["gw"; "engine"]) by (right; left).
  rewrite Hm. split; [exact Hengine|]. split; [exact (Hon _ Hengine)|]. split.
  - exists "gw". split; [exact Hgw|]. split; [exact (Hon _ Hgw)|]. split; vm_compute; reflexivity.
  - intros n [->|[->|[]%not_elem_of_nil]%elem_of_cons]%elem_of_cons; [|done]. intros _ _ H. discriminate H.
Qed.

Lemma group_request_reports_witness :
  exists r, (ex_send engine_answers).2 !! "engine" = Some r /\
    answered no_floats no_lowercase DatabaseNamingConvention_default 4 (ex_network engine_answers) ex_group_setup ex_names (fun _ => 100)
      (fun _ => 1) "all" extended_query true ex_group ex_description ex_built "engine" r /\ r = Ok session_answer.
Proof.
  destruct (group_request_reports no_floats false no_lowercase DatabaseNamingConvention_default 4 (ex_network engine_answers) ex_group_setup
              ex_names (fun _ => 100) (fun _ => 1) "description" "all" extended_query true ex_group ex_description VoidPlugin None
              (fun n _ => eq_refl) (lookup_insert_eq _ _ _)) as [_ H].
  assert (Hc : (create_uds_payload no_floats false no_lowercase DatabaseNamingConvention_default (UdsManager.tester_address (ex_group_setup "description"))
                  (logical_address (ex_group_setup "description")) 4 ex_description extended_query VoidPlugin None (Some "all")).2 = Ok ex_built)
    by (vm_compute; reflexivity).
  rewrite Hc in H. destruct H as [_ H]. destruct (H eq_refl "engine" ex_reachable) as (r & Hr & Ha). exists r.
  split; [exact Hr|]. split; [exact Ha|].
  assert (Hv : (ex_send engine_answers).2 !! "engine" = Some (Ok session_answer)) by (vm_compute; reflexivity).
  rewrite Hv in Hr. injection Hr as <-. reflexivity.
Defined.

(** *** Equal addresses *)

(** Of two gateways that are online at one address the second one in the map is
    asked, not the first, and its complaint is replaced by its answer; the first
    one has no result. *)
Example second_gateway_is_used :
  let ecus := <["twin" := ex_detected]> ex_group in
  ecus_for_functional_group ex_group_setup ecus "all" false = ["gw"; "engine"; "twin"] /\
  (send_functional_group no_floats false no_lowercase DatabaseNamingConvention_default 4 (ex_network engine_answers) ex_group_setup ex_names
     (fun _ => 100) (fun _ => 1) "description" ecus "all" extended_query VoidPlugin None true).2 =
    <["twin" := Ok session_answer]> {["engine" := Ok session_answer]}.
Proof. vm_compute. split; reflexivity. Qed.

(** Of two ECUs behind a gateway that are online at one address one has no result. *)
Example ecu_at_taken_address_is_missing :
  let setup n := if bool_decide (n = "twin") then ex_group_setup "engine" else ex_group_setup n in
  let ecus := <["twin" := ex_detected]> ex_group in
  let r := (send_functional_group no_floats false no_lowercase DatabaseNamingConvention_default 4 (ex_network engine_answers) setup ex_names
              (fun _ => 100) (fun _ => 1) "description" ecus "all" extended_query VoidPlugin None true).2 in
  ecus_for_functional_group setup ecus "all" false = ["gw"; "engine"; "twin"] /\ r !! "engine" = None /\ r !! "twin" = Some (Ok session_answer).
Proof. vm_compute. split_and!; reflexivity. Qed.

(** *** The state of a group *)

Definition ex_group_session (engine : list (Z * channel_item)) :=
  set_functional_state no_floats false no_lowercase DatabaseNamingConvention_default 4 (ex_network engine) ex_group_setup ex_names
    (fun _ => 100) (fun _ => 1) "description" ex_group "all" VoidPlugin SESSION_CONTROL "Extended_Session" None (Some 60) true.

Example silent_ecus_keep_their_state :
  let '(ecus, resets, _) := ex_group_session [] in
  (fun k => service_states (manager k) !! SESSION_CONTROL) <$> ecus !! "gw" = Some (Some "Extended_Session"%string) /\
  ecus !! "engine" = Some ex_detected /\ resets = [("gw"%string, 60)].
Proof. vm_compute. split_and!; reflexivity. Qed.

(** ** Tester present *)

(** cda-comm-uds/src/tester_present.rs.  A task is kept by the name of its ECU;
    the time between its messages is in nanoseconds. *)
Record TesterPresentTask : Type := { tp_type : TesterPresentType; tp_interval : Z }.

Abbreviation tp_tasks := (gmap string TesterPresentTask).

Section tester_present.
Context (setup : string -> EcuSetup) (tester_present_time : string -> Z).

(** [control_tester_present], to start and to stop a task. *)
Definition control_start (ecus : gmap string Kernel) (type_ : TesterPresentType) (ecu : string) (interval : option Z) (tasks : tp_tasks)
    : tp_tasks * dresult () :=
  match tasks !! ecu with
  | Some _ => (tasks, Err InvalidRequest)
  | None =>
      match interval, ecus !! ecu with
      | None, None => (tasks, Err NotFound)
      | _, _ => (<[ecu := {| tp_type := type_; tp_interval := default (tester_present_time ecu) interval |}]> tasks, Ok tt)
      end
  end.

Definition control_stop (ecu : string) (tasks : tp_tasks) : tp_tasks * dresult () :=
  match tasks !! ecu with
  | None => (tasks, Err InvalidRequest)
  | Some _ => (delete ecu tasks, Ok tt)
  end.

(** For a group the errors are only logged. *)
Definition start_tester_present (ecus : gmap string Kernel) (type_ : TesterPresentType) (tasks : tp_tasks) : tp_tasks * dresult () :=
  match type_ with
  | TesterPresentEcu ecu_name => control_start ecus type_ ecu_name None tasks
  | TesterPresentFunctional functional_group =>
      (foldl (fun tasks name => (control_start ecus type_ name None tasks).1) tasks
         (ecus_for_functional_group setup ecus functional_group true), Ok tt)
  end.

Definition stop_tester_present (ecus : gmap string Kernel) (type_ : TesterPresentType) (tasks : tp_tasks) : tp_tasks * dresult () :=
  match type_ with
  | TesterPresentEcu ecu_name => control_stop ecu_name tasks
  | TesterPresentFunctional functional_group =>
      (foldl (fun tasks name => (control_stop name tasks).1) tasks (ecus_for_functional_group setup ecus functional_group true), Ok tt)
  end.

Definition check_tester_present_active (ecus : gmap string Kernel) (type_ : TesterPresentType) (tasks : tp_tasks) : bool :=
  match type_ with
  | TesterPresentEcu ecu_name => bool_decide (is_Some (tasks !! ecu_name))
  | TesterPresentFunctional functional_group =>
      forallb (fun ecu => bool_decide (is_Some (tasks !! ecu))) (ecus_for_functional_group setup ecus functional_group true)
  end.

(** The message of a task. *)
Definition tester_present_payload (type_ : TesterPresentType) (ecu : string) : ServicePayload :=
  {| Uds.data := [TESTER_PRESENT; 128]; source_address := tester_address (setup ecu);
     target_address := match type_ with
                       | TesterPresentFunctional _ => logical_functional_address (setup ecu)
                       | TesterPresentEcu _ => logical_address (setup ecu)
                       end;
     new_session := None; new_security := None |}.

(** *** The table *)

Lemma members_known ecus group only n : n ∈ ecus_for_functional_group setup ecus group only -> is_Some (ecus !! n).
Proof.
  intros [_ Hn]%list_elem_of_filter. apply list_elem_of_fmap in Hn as ([m k] & -> & Hk%elem_of_map_to_list). by exists k.
Qed.

Lemma control_start_lookup ecus type_ ecu tasks n : is_Some (ecus !! ecu) ->
  (control_start ecus type_ ecu None tasks).1 !! n =
  if decide (n = ecu) then Some (default {| tp_type := type_; tp_interval := tester_present_time ecu |} (tasks !! ecu)) else tasks !! n.
Proof.
  intros [k Hk]. unfold control_start. destruct (tasks !! ecu) as [t|] eqn:Ht; [|rewrite Hk]; cbn [fst default]; case_decide as Hn; subst;
    rewrite ?lookup_insert_eq, ?lookup_insert_ne by done; done.
Qed.

Lemma control_stop_lookup ecu tasks n : (control_stop ecu tasks).1 !! n = if decide (n = ecu) then None else tasks !! n.
Proof.
  unfold control_stop. destruct (tasks !! ecu) as [t|] eqn:Ht; cbn [fst]; case_decide as Hn; subst; try done.
  - by rewrite lookup_delete_eq.
  - by rewrite lookup_delete_ne.
Qed.

Lemma starts_lookup ecus type_ l tasks n : (forall m, m ∈ l -> is_Some (ecus !! m)) ->
  foldl (fun tasks name => (control_start ecus type_ name None tasks).1) tasks l !! n =
  if decide (n ∈ l) then Some (default {| tp_type := type_; tp_interval := tester_present_time n |} (tasks !! n)) else tasks !! n.
Proof.
  revert tasks. induction l as [|x l IH]; intros tasks Hl; cbn [foldl]; [done|].
  rewrite IH by (intros; apply Hl; by right). rewrite control_start_lookup by (apply Hl; by left).
  destruct (decide (n = x)) as [->|Hne]; [rewrite (decide_True (P := x ∈ x :: l)) by left; by case_decide|].
  repeat case_decide; set_solver.
Qed.

Lemma stops_lookup l tasks n :
  foldl (fun tasks name => (control_stop name tasks).1) tasks l !! n = if decide (n ∈ l) then None else tasks !! n.
Proof.
  revert tasks. induction l as [|x l IH]; intros tasks; cbn [foldl]; [done|]. rewrite IH, control_stop_lookup.
  repeat case_decide; set_solver.
Qed.

(** A started group is active, a running task is not replaced, and nobody
    else's is touched; a stopped group has no task left. *)
Lemma group_start_stop ecus group tasks :
  let started := (start_tester_present ecus (TesterPresentFunctional group) tasks).1 in
  let stopped := (stop_tester_present ecus (TesterPresentFunctional group) tasks).1 in
  check_tester_present_active ecus (TesterPresentFunctional group) started = true /\ tasks ⊆ started /\ stopped ⊆ tasks /\
  forall n, if decide (n ∈ ecus_for_functional_group setup ecus group true) then stopped !! n = None
            else started !! n = tasks !! n /\ stopped !! n = tasks !! n.
Proof.
  cbn [start_tester_present stop_tester_present check_tester_present_active fst]. set (l := ecus_for_functional_group _ _ _ _).
  assert (Hl : forall m, m ∈ l -> is_Some (ecus !! m)) by (intros m; apply members_known). repeat split.
  - apply forallb_forall. intros n Hn%list_elem_of_In. by rewrite starts_lookup, decide_True, bool_decide_true.
  - apply map_subseteq_spec. intros n t Ht. rewrite starts_lookup, Ht by done. by case_decide.
  - apply map_subseteq_spec. intros n t. rewrite stops_lookup. by case_decide.
  - intros n. case_decide as Hn; rewrite stops_lookup, ?starts_lookup by done; by case_decide.
Qed.
End tester_present.

(** [send_tester_present] at a tick of the task: ECUs that are not online are
    left out. *)
Definition tester_present_tick {ext : Externals} {M : Type} `{!UdsManager.UdsTransport M} (setup : string -> EcuSetup)
    (task : TesterPresentTask) (ecu_name : string) : op M (option ServicePayload) := fun m =>
  match ecu_kernel m ecu_name with
  | None => (m, Err (Failed NotFound))
  | Some k =>
      if bool_decide (connectivity (ecu_state (manager k)) = Online)
      then sends_raw ecu_name (tester_present_payload setup (tp_type task) ecu_name) false m
      else (m, Ok None)
  end.

(** The task of a gateway is the same for the group and for the ECU: when the
    lock of the ECU ends, the group is not kept alive any more, and a group that
    is started while the ECU has a task gets none of its own. *)
Example ecu_stops_the_group :
  let start t tasks := (start_tester_present ex_group_setup (fun _ => 2) ex_group t tasks).1 in
  let group := TesterPresentFunctional "all" in
  let started := start group ∅ in
  check_tester_present_active ex_group_setup ex_group (TesterPresentEcu "gw") started = true /\
  check_tester_present_active ex_group_setup ex_group group
    (stop_tester_present ex_group_setup ex_group (TesterPresentEcu "gw") started).1 = false /\
  tp_type <$> start group (start (TesterPresentEcu "gw") ∅) !! "gw" = Some (TesterPresentEcu "gw").
Proof. vm_compute. split_and!; reflexivity. Qed.

(** A group nobody is in counts as active. *)
Example unknown_group_is_active : check_tester_present_active ex_group_setup ex_group (TesterPresentFunctional "nobody") ∅ = true.
Proof. vm_compute. reflexivity. Qed.
