(* ===== verification/Router.v ===== *)
(** * The transport router

    cda-transport-router/src/lib.rs: which gateway an ECU is reached through.
    The gateways are asked for their status and for probes, which may change at
    any time; several tasks resolve the transport of an ECU at once, and only
    reading and writing the bindings happens under their lock. *)

From stdpp Require Import strings gmap.
From S2P Require Import Prelude Errors Uds Transport Doip.
From stdpp Require Import list.

Local Open Scope Z_scope.
Set Warnings "-register-all".

Inductive TransportType : Type := DoIP | Can.

#[export] Instance TransportType_eq_dec : EqDecision TransportType.
Proof. solve_decision. Defined.

(** [DiagnosticTransportRouter] without its bindings: which gateways there are,
    and the pinned ECUs. *)
Record Router : Type := {
  has_doip : bool;
  has_can : bool;
  transport_overrides : gmap string TransportType
}.

Definition has_gateway (self : Router) (transport : TransportType) : bool :=
  match transport with DoIP => has_doip self | Can => has_can self end.

Abbreviation bindings := (gmap string TransportType).

(** [entry(..).or_insert(transport)]. *)
Definition bind (ecu_name : string) (transport : TransportType) (b : bindings) : bindings * TransportType :=
  match b !! ecu_name with
  | Some bound => (b, bound)
  | None => (<[ecu_name := transport]> b, transport)
  end.

(** ** Resolving a transport *)

(** Where a task is: before it reads the bindings, at the status of a gateway,
    at a probe, before it binds, or at its end. *)
Inductive phase : Type :=
  | Looking
  | Asking (transport : TransportType)
  | Probing (transport : TransportType)
  | Binding (transport : TransportType)
  | Resolved (r : dresult TransportType).

(** What a gateway says when it is asked. *)
Record observation : Type := { status : RouteStatus; found : bool }.

Section router.
Context (to_lowercase : string -> string) (self : Router).

(** The next gateway, or the end. *)
Definition ask_from (transport : TransportType) : phase :=
  match transport with
  | DoIP => if has_doip self then Asking DoIP else if has_can self then Asking Can else Resolved (Err EcuOffline)
  | Can => if has_can self then Asking Can else Resolved (Err EcuOffline)
  end.

Definition not_found (transport : TransportType) : phase :=
  match transport with DoIP => ask_from Can | Can => Resolved (Err EcuOffline) end.

(** One step of [resolve_transport] with [try_bind_transport]. *)
Definition resolve_step (ecu_name : string) (o : observation) (b : bindings) (p : phase) : bindings * phase :=
  match p with
  | Looking =>
      (b, match transport_overrides self !! to_lowercase ecu_name with
          | Some pinned => Resolved (Ok pinned)
          | None => match b !! to_lowercase ecu_name with
                    | Some bound => Resolved (Ok bound)
                    | None => ask_from DoIP
                    end
          end)
  | Asking transport =>
      (b, match status o with
          | Ready => Binding transport
          | ProbeRequired => Probing transport
          | NotConfigured | Unavailable => not_found transport
          end)
  | Probing transport => (b, if found o then Binding transport else not_found transport)
  | Binding transport => let '(b, bound) := bind (to_lowercase ecu_name) transport b in (b, Resolved (Ok bound))
  | Resolved r => (b, Resolved r)
  end.

(** A task alone; [o] is what the gateways say. *)
Fixpoint resolve_run (fuel : nat) (ecu_name : string) (o : TransportType -> observation) (b : bindings) (p : phase) : bindings * phase :=
  match fuel with
  | O => (b, p)
  | S fuel =>
      let transport := match p with Asking t | Probing t | Binding t => t | _ => DoIP end in
      let '(b, p) := resolve_step ecu_name (o transport) b p in resolve_run fuel ecu_name o b p
  end.

(** Six steps are enough ([resolve_ends]). *)
Definition resolve_transport (ecu_name : string) (o : TransportType -> observation) (b : bindings) : bindings * dresult TransportType :=
  match resolve_run 6 ecu_name o b Looking with
  | (b, Resolved r) => (b, r)
  | (b, _) => (b, Err EcuOffline)
  end.

(** ** What is done with it *)

(** [send] and [ecu_online]: the gateway that does it. *)
Definition dispatch (transport : dresult TransportType) : dresult TransportType :=
  transport ← transport; if has_gateway self transport then Ok transport else Err EcuOffline.

(** [send_functional]. *)
Definition dispatch_functional : dresult TransportType :=
  if has_doip self then Ok DoIP else if has_can self then Err RequestNotSupported else Err EcuOffline.

Section addresses.
(** What the gateways answer. *)
Context (doip_address can_address : string -> option string).

Definition can_ecu_network_address (ecu_name : string) : option string :=
  if has_can self then (fun addr => "can://" +:+ addr) <$> can_address ecu_name else None.

Definition network_address_for_transport (ecu_name : string) (transport : TransportType) : option string :=
  match transport with
  | DoIP => if has_doip self then doip_address ecu_name else None
  | Can => can_ecu_network_address ecu_name
  end.

Definition get_ecu_network_address (b : bindings) (ecu_name : string) : option string :=
  let ecu_name := to_lowercase ecu_name in
  match transport_overrides self !! ecu_name with
  | Some pinned => network_address_for_transport ecu_name pinned
  | None =>
      match b !! ecu_name with
      | Some bound => network_address_for_transport ecu_name bound
      | None => match (if has_doip self then doip_address ecu_name else None) with
                | Some addr => Some addr
                | None => can_ecu_network_address ecu_name
                end
      end
  end.
End addresses.

(** [get_gateway_network_address]. *)
Definition get_gateway_network_address (doip can : Z -> option string) (logical_address : Z) : option string :=
  match (if has_doip self then doip logical_address else None) with
  | Some addr => Some addr
  | None => if has_can self then (fun addr => "can://" +:+ addr) <$> can logical_address else None
  end.

(** ** Several tasks *)

(** The bindings and every task, with the ECU it resolves; what a task saw
    before it binds. *)
Record routing : Type := { bound : bindings; tasks : gmap nat (string * phase) }.

Inductive routing_step : routing -> routing -> Prop :=
  | arrives r id ecu_name : tasks r !! id = None ->
      routing_step r {| bound := bound r; tasks := <[id := (ecu_name, Looking)]> (tasks r) |}
  | proceeds r id ecu_name p o b' p' : tasks r !! id = Some (ecu_name, p) -> resolve_step ecu_name o (bound r) p = (b', p') ->
      routing_step r {| bound := b'; tasks := <[id := (ecu_name, p')]> (tasks r) |}.

(** The transport of an ECU that is settled. *)
Definition settled (b : bindings) (ecu_name : string) : option TransportType :=
  match transport_overrides self !! to_lowercase ecu_name with
  | Some pinned => Some pinned
  | None => b !! to_lowercase ecu_name
  end.

Definition no_tasks : routing := {| bound := ∅; tasks := ∅ |}.

(** A task is about a gateway that is there, and its result is settled. *)
Definition phase_ok (b : bindings) (ecu_name : string) (p : phase) : Prop :=
  match p with
  | Looking => True
  | Asking t | Probing t | Binding t => has_gateway self t = true /\ transport_overrides self !! to_lowercase ecu_name = None
  | Resolved (Ok t) => settled b ecu_name = Some t
  | Resolved (Err e) => e = EcuOffline
  end.

Record routing_ok (r : routing) : Prop := {
  tasks_ok : map_Forall (fun _ t => phase_ok (bound r) t.1 t.2) (tasks r);
  bound_there : map_Forall (fun _ t => has_gateway self t = true) (bound r)
}.

Lemma ask_from_ok b ecu_name t : transport_overrides self !! to_lowercase ecu_name = None -> phase_ok b ecu_name (ask_from t).
Proof. intros Hn. destruct t; unfold ask_from; destruct (has_doip self) eqn:?, (has_can self) eqn:?; done. Qed.

Lemma not_found_ok b ecu_name t : transport_overrides self !! to_lowercase ecu_name = None -> phase_ok b ecu_name (not_found t).
Proof. intros Hn. destruct t; [by apply ask_from_ok|done]. Qed.

Lemma bind_grows n t b : b ⊆ (bind n t b).1 /\ (bind n t b).1 !! n = Some (bind n t b).2.
Proof.
  unfold bind. destruct (b !! n) as [t'|] eqn:Hb; cbn [fst snd]; [done|].
  split; [by apply insert_subseteq|by rewrite lookup_insert_eq].
Qed.

Lemma settled_grows b b' n t : b ⊆ b' -> settled b n = Some t -> settled b' n = Some t.
Proof. unfold settled. intros Hb. case_match; [done|]. intros H2. by eapply lookup_weaken. Qed.

Lemma phase_grows b b' n p : b ⊆ b' -> phase_ok b n p -> phase_ok b' n p.
Proof. intros Hb. destruct p as [|t|t|t|[t|e]]; try done. by apply settled_grows. Qed.

Lemma resolve_step_ok n o b p b' p' : resolve_step n o b p = (b', p') -> phase_ok b n p ->
  b ⊆ b' /\ phase_ok b' n p' /\ (map_Forall (fun _ t => has_gateway self t = true) b -> map_Forall (fun _ t => has_gateway self t = true) b').
Proof.
  destruct p as [|t|t|t|r]; cbn [resolve_step phase_ok].
  - intros [= <- <-] _. split; [done|]. split; [|done]. destruct (transport_overrides self !! _) as [t|] eqn:Ho; [by cbn; unfold settled; rewrite Ho|].
    destruct (b !! _) as [t|] eqn:Hb; [by cbn; unfold settled; rewrite Ho|by apply (ask_from_ok b n DoIP)].
  - intros [= <- <-] [Ht Ho]. split; [done|]. split; [|done]. destruct (status o); try done; by apply not_found_ok.
  - intros [= <- <-] [Ht Ho]. split; [done|]. split; [|done]. destruct (found o); [done|by apply not_found_ok].
  - intros H [Ht Ho]. destruct (bind_grows (to_lowercase n) t b) as [Hsub Hin]. destruct (bind (to_lowercase n) t b) as [b2 t2] eqn:Hbind.
    injection H as <- <-. cbn [fst snd] in *. split; [done|]. split; [by cbn; unfold settled; rewrite Ho|]. intros Hb.
    unfold bind in Hbind. destruct (b !! _); injection Hbind as <- <-; [done|]. by apply map_Forall_insert_2.
  - intros [= <- <-]. done.
Qed.

Lemma routing_step_ok r r' : routing_step r r' -> routing_ok r -> bound r ⊆ bound r' /\ routing_ok r'.
Proof.
  intros [? id n Hid|? id n p o b' p' Hid Hstep] [Ht Hb]; cbn [bound].
  - split; [done|]. split; cbn [bound tasks]; [by apply map_Forall_insert_2|done].
  - destruct (resolve_step_ok _ _ _ _ _ _ Hstep (Ht _ _ Hid)) as (Hsub & Hp & Hg). split; [done|]. split; cbn [bound tasks]; [|by apply Hg].
    apply map_Forall_insert_2; [done|]. intros i [m q] Hi. eapply phase_grows; [done|]. by apply (Ht i (m, q)).
Qed.

Lemma routing_steps_ok r r' : rtc routing_step r r' -> routing_ok r -> bound r ⊆ bound r' /\ routing_ok r'.
Proof.
  induction 1 as [r|r r1 r2 Hs _ IH]; [done|]. intros Hok. destruct (routing_step_ok _ _ Hs Hok) as [Hsub Hok1].
  destruct (IH Hok1) as [Hsub2 Hok2]. split; [by transitivity (bound r1)|done].
Qed.

Lemma no_tasks_ok : routing_ok no_tasks.
Proof. split; apply map_Forall_empty. Qed.

(** C28: whatever the gateways report and however the requests interleave, an ECU
    has one transport for ever: once a task has resolved it, every other task,
    now and later, that resolves the same ECU, in upper or lower case, gets the same one;
    it is the pinned one if there is one, and otherwise one whose gateway is
    there; and an ECU is never rebound. *)
Theorem bindings_are_sticky r r' id id' n n' t t' :
  rtc routing_step no_tasks r -> rtc routing_step r r' ->
  tasks r !! id = Some (n, Resolved (Ok t)) -> tasks r' !! id' = Some (n', Resolved (Ok t')) -> to_lowercase n = to_lowercase n' ->
  t' = t /\ settled (bound r) n = Some t /\ bound r ⊆ bound r' /\
  match transport_overrides self !! to_lowercase n with Some pinned => t = pinned | None => has_gateway self t = true end.
Proof.
  intros H0 H1 Ht Ht' Hn. destruct (routing_steps_ok _ _ H0 no_tasks_ok) as [_ Hok]. destruct (routing_steps_ok _ _ H1 Hok) as [Hsub Hok'].
  destruct Hok as [Hts Hb]. destruct Hok' as [Hts' _]. pose proof (Hts _ _ Ht) as Hs. pose proof (Hts' _ _ Ht') as Hs'. cbn in Hs, Hs'.
  assert (Heq : t' = t). { apply (settled_grows _ _ _ _ Hsub) in Hs. unfold settled in Hs, Hs'. rewrite Hn in Hs. congruence. }
  split; [done|]. split; [done|]. split; [done|]. unfold settled in Hs. destruct (transport_overrides self !! _); [congruence|]. by eapply Hb.
Qed.

(** *** A task alone *)

(** The transport of an ECU that is not settled: the first gateway that has it. *)
Definition detected_on (o : TransportType -> observation) (t : TransportType) : bool :=
  has_gateway self t && match status (o t) with Ready => true | ProbeRequired => found (o t) | _ => false end.

Definition first_detection (o : TransportType -> observation) : option TransportType :=
  if detected_on o DoIP then Some DoIP else if detected_on o Can then Some Can else None.

(** The steps come to an end, with the settled transport or the first one the
    ECU is detected on, which is settled from then on. *)
Theorem resolve_ends ecu_name o b :
  let '(b', r) := resolve_transport ecu_name o b in
  match settled b ecu_name with
  | Some t => r = Ok t /\ b' = b
  | None => match first_detection o with
            | Some t => r = Ok t /\ b' = <[to_lowercase ecu_name := t]> b
            | None => r = Err EcuOffline /\ b' = b
            end
  end.
Proof.
  unfold resolve_transport, settled, first_detection, detected_on. cbn [resolve_run resolve_step].
  destruct (transport_overrides self !! _) as [t|] eqn:Ho; [done|]. destruct (b !! _) as [t|] eqn:Hb; [done|].
  assert (Hbind : forall t, bind (to_lowercase ecu_name) t b = (<[to_lowercase ecu_name := t]> b, t)) by (intros; unfold bind; by rewrite Hb).
  unfold ask_from, has_gateway.
  destruct (has_doip self) eqn:?, (has_can self) eqn:?, (status (o DoIP)) eqn:?, (status (o Can)) eqn:?, (found (o DoIP)) eqn:?, (found (o Can)) eqn:?;
    repeat (cbn [resolve_step not_found ask_from andb]; unfold ask_from;
      repeat match goal with H : _ = _ |- _ => rewrite H end; rewrite ?Hbind); done.
Qed.

(** *** Schedules *)

Inductive move : Type := Arrive (id : nat) (ecu_name : string) | Proceed (id : nat) (o : observation).

Definition play_move (r : routing) (m : move) : option routing :=
  match m with
  | Arrive id ecu_name =>
      match tasks r !! id with
      | Some _ => None
      | None => Some {| bound := bound r; tasks := <[id := (ecu_name, Looking)]> (tasks r) |}
      end
  | Proceed id o =>
      '(ecu_name, p) ← tasks r !! id;
      let '(b, p) := resolve_step ecu_name o (bound r) p in Some {| bound := b; tasks := <[id := (ecu_name, p)]> (tasks r) |}
  end.

Fixpoint play (moves : list move) (r : routing) : option routing :=
  match moves with [] => Some r | m :: moves => r ← play_move r m; play moves r end.

Lemma play_steps moves r r' : play moves r = Some r' -> rtc routing_step r r'.
Proof.
  revert r. induction moves as [|m moves IH]; intros r; cbn [play]; [by intros [= ->]|].
  destruct (play_move r m) as [r1|] eqn:Hm; [|done]. cbn. intros H. apply IH in H. apply (rtc_l _ _ r1); [|done]. clear H IH.
  destruct m as [id n|id o]; cbn [play_move] in Hm.
  - destruct (tasks r !! id) eqn:Hid; [done|]. injection Hm as <-. by apply arrives.
  - destruct (tasks r !! id) as [[n p]|] eqn:Hid; [|done]. cbn in Hm. destruct (resolve_step n o (bound r) p) as [b p'] eqn:Hs.
    injection Hm as <-. by eapply proceeds.
Qed.
End router.

(** ** Concrete runs *)

Definition ex_router : Router := {| has_doip := true; has_can := true; transport_overrides := ∅ |}.
Definition same_case (s : string) : string := s.
Definition says (s : RouteStatus) (f : bool) : observation := {| status := s; found := f |}.

(** The first task probes the ECU on CAN while the second one finds it on DoIP,
    and binds it. *)
Definition ex_race : list move :=
  [Arrive 0 "engine"; Proceed 0 (says Unavailable false); Proceed 0 (says Unavailable false); Proceed 0 (says ProbeRequired false);
   Proceed 0 (says Ready true);
   Arrive 1 "engine"; Proceed 1 (says Ready false); Proceed 1 (says Ready false); Proceed 1 (says Ready false)].
Definition raced (moves : list move) : routing := default no_tasks (play same_case ex_router moves no_tasks).

Lemma bindings_are_sticky_witness :
  tasks (raced ex_race) !! 1%nat = Some ("engine"%string, Resolved (Ok DoIP)) /\
  tasks (raced (ex_race ++ [Proceed 0 (says Ready true)])) !! 0%nat = Some ("engine"%string, Resolved (Ok DoIP)) /\
  settled same_case ex_router (bound (raced ex_race)) "engine" = Some DoIP.
Proof.
  assert (H1 : tasks (raced ex_race) !! 1%nat = Some ("engine"%string, Resolved (Ok DoIP))) by (vm_compute; reflexivity).
  assert (H2 : tasks (raced (ex_race ++ [Proceed 0 (says Ready true)])) !! 0%nat = Some ("engine"%string, Resolved (Ok DoIP)))
    by (vm_compute; reflexivity).
  split; [exact H1|]. split; [exact H2|].
  apply (fun h0 h1 => bindings_are_sticky same_case ex_router (raced ex_race) (raced (ex_race ++ [Proceed 0 (says Ready true)])) 1 0
           "engine" "engine" DoIP DoIP h0 h1 H1 H2 eq_refl).
  - apply (play_steps _ _ ex_race). vm_compute. reflexivity.
  - apply (play_steps _ _ [Proceed 0 (says Ready true)]). vm_compute. reflexivity.
Defined.

(** Before an ECU is bound its address is the one over CAN, as DoIP has none,
    although the next request binds it to DoIP. *)
Example unbound_address_is_not_the_route :
  let can := fun _ : string => Some "can0:7e0"%string in
  get_ecu_network_address same_case ex_router (fun _ => None) can ∅ "engine" = Some "can://can0:7e0"%string /\
  let '(b, r) := resolve_transport same_case ex_router "engine" (fun _ => says Ready true) ∅ in
  r = Ok DoIP /\ get_ecu_network_address same_case ex_router (fun _ => None) can b "engine" = None.
Proof. vm_compute. split_and!; reflexivity. Qed.

(** An ECU that is pinned to CAN, or bound to it, is asked over DoIP as part of
    a functional group. *)
Example functional_requests_ignore_bindings :
  let self := {| has_doip := true; has_can := true; transport_overrides := {["engine"%string := Can]} |} in
  (resolve_transport same_case self "engine" (fun _ => says Ready true) ∅).2 = Ok Can /\ dispatch_functional self = Ok DoIP.
Proof. vm_compute. split; reflexivity. Qed.
